(* ===== verification/_CoqProject ===== *)
-Q . S2P
Prelude.v
Types.v
Interfaces.v
DposArchive.v
DposVoting.v
DposReplay.v
DposTurn.v
Rlp.v
RlpRaw.v
RlpStream.v
RlpDecode.v
HeaderHash.v
Sha3.v
DposEngine.v
DposEngineSpec.v
DposVerify.v
DposDemo.v
TrieEncoding.v
TrieNode.v
Trie.v
TrieSpec.v
TrieHash.v
TrieMap.v
TrieProof.v
TrieDemo.v
TrieGC.v
TrieCommit.v
TrieRefs.v
State.v
StateRevert.v
StateFrame.v
StateSpec.v
StateRoot.v
StateDemo.v
GoMath.v
Vm.v
VmAnalysis.v
VmExec.v
VmPrecompiled.v
Evm.v
VmGas.v
VmInstr.v
VmTable.v
VmRun.v
VmLaws.v
StateVm.v
VmHoare.v
VmSafePre.v
VmSafe.v
VmSafeGas.v
VmSafeInstr.v
VmSafeRun.v
VmRel.v
VmWorld.v
Transition.v
TransitionSpec.v
TransitionRel.v
TransferSpec.v
Tx.v
TxSpec.v
Receipt.v
ReceiptSpec.v
Block.v
BlockSpec.v
VmThrift.v
StateRefund.v
Dao.v
Processor.v
ProcessorSpec.v
GoHeap.v
TxList.v
TxListSpec.v
TxPool.v
TxPoolInv.v
TxPoolSpec.v
TxPoolReach.v
TxPoolRun.v
VmDemo.v
BlockDemo.v
PoolDemo.v
