(* ===== verification/Prelude.v ===== *)
(** * epvchain: a verification development

    epvchain is a blockchain node in Go.  Blocks are sealed by signers who are
    voted in and out (the DPoS engine); headers, accounts and trie nodes travel
    and are hashed in RLP; accounts and contract storage live in Merkle Patricia
    tries.  Transactions are signed by their senders, wait in a pool, and are
    executed by a virtual machine, which changes the accounts through a state
    database that can go back to snapshots; the receipts, the gas used and the
    new state root are checked against the header of the block.  This library
    models these parts as functions that can be run, and proves what the rest
    of the node relies on.

    ** Conventions

    A Go call is a function into [outcome]: a value, an error, or a panic.
    Methods that change their receiver return the new receiver.  Machine
    integers are [Z] with the wrap-around written out (scope [u64]); [*big.Int]
    is [Z], or [option Z] where nil matters; byte slices are lists of [Z]; maps
    are [gmap].  Code outside the repository is a type class with the laws its
    documentation gives ([Keccak], [Database], [Batches], [ARCCache], [Crypto],
    [Rand], [Signing], [EvmCrypto], clocks, the chain reader): the theorems hold
    for all instances, and every theorem with hypotheses is applied to a
    concrete run, with concrete instances.  Classes are also the interfaces
    between the parts: the virtual machine is proved over any state with
    [StateOps] and [StateLaws] (gas alone over [RefundLaws]), blocks over
    [BlockOps], and the state database is shown to be an instance.  A loop that is not structural takes fuel; the fuel is an
    expression in the size of the input, and the theorems show that it is
    enough.

    ** The files

    - Prelude: outcomes, 64-bit arithmetic, lists and maps; tactics and hints.
    - Types (src/public/types.go, src/kernel/types/block.go,
      src/content/config.go): hashes, addresses, headers, chain configurations
      and their compatibility.  Interfaces: the shared classes.
    - DposArchive (src/agreement/epvdpos/archive.go): the votes, tallies and
      recent signers after a block, and their replay.  DposVoting: the abstract
      voting protocol; one header of the replay is one step of it.  DposReplay:
      replaying chains; the invariant, cutting a replay, the gap between two
      blocks of one signer.  DposTurn: the sorted signer lists and whose turn it
      is.
    - DposEngine (src/agreement/epvdpos/epvdpos.go, epvapi.go,
      src/agreement/misc/forks.go): the engine with its caches.
      DposEngineSpec: [archive] equals the replay whatever the caches hold.
      DposVerify: what [verifyHeader] accepts, and that sealed blocks are
      accepted.  DposDemo: a chain of four blocks.
    - Rlp (src/process/raw.go, encode.go), RlpRaw, RlpStream (decode.go),
      RlpDecode: encoder, splitter and stream decoder; canonical form, exactness
      and round trips.  HeaderHash: the hashes of headers.
    - Sha3 (src/code/sha3, src/code/crypto.go): Keccak-256 and its relatives,
      the permutation and the sponge, against the standard; it instantiates
      [Keccak].
    - TrieEncoding, TrieNode, Trie (src/fast/encoding.go, node.go, trie.go,
      hasher.go, database.go, secure_trie.go): keys, nodes, the operations,
      hashing and committing.  TrieSpec: the operations on canonical trees.
      TrieHash: what is hashed and stored.  TrieMap: a trie is a map, and its
      root identifies its contents.  TrieProof (src/fast/proof.go): Merkle
      proofs.  TrieDemo: a trie of three entries.
    - TrieGC (src/fast/database.go, src/data/memory_database.go, interface.go):
      dropping references and writing to disk, on any database with batches;
      what a dropped reference frees.  TrieCommit: a commit loses nothing.
      TrieRefs: inserting and referencing; two tries that share a node.
    - State (src/kernel/state: statedb.go, state_object.go, journal.go,
      database.go): accounts, storage, code, logs, the journal, snapshots,
      finalising and committing.  StateRevert: every operation can be undone by
      its journal entries.  StateFrame: nested frames, and the search for a
      revision.  StateSpec: the state refines a map of accounts in which a
      failed frame gives back the old value.  StateRoot: the state root is the
      root of the accounts.  StateDemo: a transaction with nested frames, its
      root, and two runs that go wrong, all with the Keccak-256 of Sha3.
    - GoMath (src/public/math, src/public/bytes.go): wide integers, checked
      arithmetic, padding.
    - Vm, VmExec, VmPrecompiled, Evm, VmGas, VmInstr, VmTable, VmRun
      (src/kernel/vm): stack, memory, contracts and the state interface; the
      monads of the machine; the precompiled contracts; the five ways to call
      and create; the cost of instructions; the instructions; the sets of
      instructions; the interpreter.  VmAnalysis: the bit map of
      jump destinations is right.
    - VmLaws: the interface of the state to the machine, and sums of balances.  StateVm: the state
      database keeps it.  VmHoare: weakest preconditions.  VmSafePre, VmSafe,
      VmSafeGas, VmSafeInstr, VmSafeRun: no code makes the machine panic or run
      on.  VmRel, VmWorld: the machine depends on
      the accounts alone, so the state database may be replaced by the map.
      VmThrift: gas is never created, on any state; StateRefund: the state
      database has what this needs.
    - Transition (src/kernel/state_transition.go, gaspool.go), TransitionSpec,
      TransitionRel, TransferSpec: buying gas, running a message, refunds and
      fees; what they add up to; the same over the map of accounts; an ordinary
      transfer.
    - Tx, TxSpec (src/kernel/types/transaction.go, transaction_signing.go):
      transactions, signers, signing and recovering.
    - Receipt, ReceiptSpec (src/kernel/types/receipt.go, log.go, bloom9.go,
      src/epv/filters/filter.go): receipts as they are hashed and stored, blooms
      and the search in them.
    - Block, BlockSpec (src/kernel/types/block.go, derive_sha.go,
      src/kernel/block_validator.go): blocks, the roots of their lists, the
      checks of body and result, and the gas limit.
    - Dao, Processor, ProcessorSpec (src/agreement/misc/dao.go,
      src/kernel/state_processor.go): the blocks of the fork, and running the
      transactions of a block.
    - GoHeap: the heaps of container/heap.  TxList, TxListSpec
      (src/kernel/tx_list.go): the lists of transactions.  TxPool
      (src/kernel/tx_pool.go, tx_journal.go, state/managed_state.go): the pool
      and the nonces after its pending transactions.  TxPoolInv, TxPoolSpec,
      TxPoolReach: its invariant, and that the methods, the limits and a new
      block keep it.  TxPoolRun: runs of a pool; the state database has what the
      pool asks for.
    - VmDemo, BlockDemo, PoolDemo: contracts, signed transactions, a block on
      the state database, and a pool, all concrete.

    ** What the theorems show

    - Consensus: the archive that the engine computes, from memory, disk or the
      chain, is the replay of the chain; the replay is the abstract voting
      protocol, error for error, in which the set of signers changes by a
      majority of votes for this very change only and a signer waits for half of
      the others between two blocks; a header that is accepted obeys all the
      rules, and what an honest node seals is accepted.
    - Encoding: values round-trip; exactly the canonical encodings are accepted;
      no input makes the splitter panic or loop.
    - Tries: lookups, updates, deletions, hashing and commits are those of a
      map; roots are equal exactly when contents are, unless Keccak-256 collides
      on the nodes involved; proofs are sound and complete.  Dropping a root
      frees exactly what is no longer in use, and a commit that fails or
      succeeds loses no node, in memory or on disk.
    - Hashing: the unrolled permutation is that of the standard, and a message
      written in any pieces has the standard's hash.
    - State: no sequence of operations panics; snapshots restore everything that
      can be read; the root after finalising is the root of the accounts, in
      whatever order they are written.
    - Execution: a call ends within as many rounds as it has gas, without a
      panic, and leaves between none and all of its gas; a failed call restores
      the accounts and a static call changes nothing; running a message on the
      state database is running it on the map of accounts; a message uses at
      most the gas it bought, the pool loses what is used, and no ether is
      created.
    - Blocks: a block that was processed stays within its gas limit and its
      receipts add up; the hash of a block with a validated body fixes all its
      contents; a bloom has no false negatives; a receipt is stored and read
      back with everything but what the format leaves out.
    - Transactions: a signer accepts exactly the signatures of its form and what
      it signed itself; the signed hash binds every field and the chain.
    - The pool: whatever is done to it while the chain grows, nothing panics and
      what it offers for an account can be executed in order; a miner gets the
      best price at every step and every account in order.
    - Errors: thirteen defects are theorems, each on a concrete run or for all
      runs of its kind: the last signer can vote itself out, after which the
      engine panics ([last_signer_drops_itself]); the check for recent signers
      underflows for the first blocks ([verifySeal_underflow]); a slice of
      one-byte arrays is decoded forever ([byte1_slice_diverges]); an empty
      compact key panics ([empty_key_panics]); an account that was touched in a
      failed frame loses later payments ([touch_revert_loses_balance]); a
      destroyed account comes back in a traced block
      ([DeleteSuicides_resurrects]); copying a sponge that was read from rewinds
      it or panics ([clone_after_Read]); a failed write of preimages leaves the
      node database locked ([Commit_leaks_lock]); modular exponentiation with a
      huge exponent panics above 2^57 gas ([bigModExp_panics]); a signer for
      chain 0 does not recognise what it signed ([chain_0_roundtrip_fails]); the
      byte test of blooms denies what was added ([TestBytes_misses]); a stored
      receipt with a state root comes back as failed
      ([stored_receipt_roundtrip]); removing the first pending transaction of an
      account strands the others ([SetGasPrice_strands]).

    ** Bounds

    Byte strings are shorter than 2^64 where lengths are Go [uint64]s, and trie
    values shorter than [maxItem], which no item of the node exceeds.  The
    recursion of the trie operations is bounded by twice the length of the
    nibble key, that of the decoder by the length of the input plus the depth of
    the type, binary search by the number of revisions, dereferencing by the
    number of nodes with parents, and committing by the number of cached nodes.
    Identifiers of revisions are not bounded: they count the snapshots of one
    block.  The machine is shown safe below [maxGas] = 2^57 gas, far above every
    block, because above it the lengths of modular exponentiation are not paid
    for; its fuel is one more than the gas ([message_fuel]), and every round
    costs gas.  Codes are shorter than [maxCode] = 2^62 bytes.  The words on the
    stack are integers that are not negative: instructions reduce their results
    to 256 bits, but BALANCE, CALLVALUE and GASPRICE push the integers of the
    state and the message as they are, so that 2^256 bounds the stack only where
    it bounds all balances.  Fewer than 2^24 transactions reach a pool, so that
    the priorities it computes in [float32] are exact.

    ** Not modelled

    Block import and reorganisation, the genesis block, the miner, the
    proof-of-work engine, networking, the light client, key stores, RPC
    transport, the command line and the user interfaces.  Within the modelled
    parts: goroutines (a batch verification is the sequence of its results, the
    wait of [Seal] is its delay, the methods of the pool are atomic under its
    lock), printing and JSON, reflection (types are described by [rtype]), the
    RLP decoding of a transaction's optional recipient, dumps and iteration of
    tries; of the machine, the pool of integers, tracing and cancelling.  The
    curves, RIPEMD-160 and the recovery of keys are parameters.  Memory is not
    bounded: [make] and [append] succeed.  The size of a code is answered from a
    cache of its own; it agrees with the code where that cache does, which
    StateVm carries as an invariant and StateSpec leaves out.  The executability
    of pending transactions is shown for a chain that grows; a reorganisation is
    modelled, and its transactions are added back as remote ones. *)

From stdpp Require Import base tactics option list numbers gmap sorting.
From Stdlib Require Import ZArith Lia.

#[local] Open Scope Z_scope.

(** ** Outcomes of Go calls

    A Go function of the modelled code ends in one of three ways: it returns a
    value, it returns a non-nil [error], or it panics (nil dereference, index
    out of range, division by zero, an explicit [panic]). *)
Inductive outcome (E A : Type) : Type :=
| Ok (a : A)
| Err (e : E)
| Panic.
Arguments Ok {E A} a.
Arguments Err {E A} e.
Arguments Panic {E A}.

Definition outcome_bind {E A B} (f : A → outcome E B) (m : outcome E A) : outcome E B :=
  match m with
  | Ok a => f a
  | Err e => Err e
  | Panic => Panic
  end.

#[export] Instance outcome_mret {E} : MRet (outcome E) := fun A a => Ok a.
#[export] Instance outcome_mbind {E} : MBind (outcome E) := fun A B => outcome_bind.

#[export] Instance outcome_eq_dec {E A} `{EqDecision E, EqDecision A} : EqDecision (outcome E A).
Proof. solve_decision. Defined.

(** Dereferencing a pointer that may be nil. *)
Definition deref {E A} (p : option A) : outcome E A :=
  match p with Some a => Ok a | None => Panic end.

(** The early-return guard [if b { return ..., e }]. *)
Definition fail_if {E} (b : bool) (e : E) : outcome E unit :=
  if b then Err e else Ok tt.

Lemma bind_ok {E A B} (m : outcome E A) (f : A → outcome E B) b :
  m ≫= f = Ok b ↔ ∃ a, m = Ok a ∧ f a = Ok b.
Proof. destruct m; unfold mbind, outcome_mbind; simpl; naive_solver. Qed.

Lemma bind_Ok {E A B} (a : A) (f : A → outcome E B) : Ok a ≫= f = f a.
Proof. reflexivity. Qed.

Lemma fail_if_ok {E} b (e : E) u : fail_if b e = Ok u ↔ b = false.
Proof. unfold fail_if. destruct b, u; naive_solver. Qed.

Lemma fail_bind_ok {E A} b (e : E) (k : outcome E A) r :
  (_ ← fail_if b e; k) = Ok r ↔ b = false ∧ k = Ok r.
Proof. destruct b; [split; [done|by intros [? _]]|]. rewrite bind_ok. naive_solver. Qed.

Lemma deref_ok {E A} (p : option A) a : deref (E := E) p = Ok a ↔ p = Some a.
Proof. destruct p; simpl; naive_solver. Qed.

(** [outcome_inv] turns hypotheses [m ≫= f = Ok b] into their parts. *)
Ltac outcome_inv :=
  repeat match goal with
  | H : _ ≫= _ = Ok _ |- _ => apply bind_ok in H as (? & ? & H)
  | H : fail_if _ _ = Ok _ |- _ => apply fail_if_ok in H
  | H : deref _ = Ok _ |- _ => apply deref_ok in H
  | H : Ok _ = Ok _ |- _ => injection H as H; subst
  | H : Err _ = Ok _ |- _ => discriminate H
  | H : Panic = Ok _ |- _ => discriminate H
  | u : unit |- _ => destruct u
  end.

(** ** Machine integers *)

Definition two64 : Z := 18446744073709551616.
Definition maxU64 : Z := 18446744073709551615.

(** uint64 arithmetic wraps modulo 2^64. *)
Definition u64 (z : Z) : Z := z mod two64.

(** Reading a [uint64] as an [int64] of the same bits. *)
Definition i64 (z : Z) : Z :=
  let w := z mod two64 in if w <? 9223372036854775808 then w else w - two64.

Declare Scope u64_scope.
Delimit Scope u64_scope with u64.
Notation "a + b" := (u64 (a + b)) : u64_scope.
Notation "a - b" := (u64 (a - b)) : u64_scope.
Notation "a * b" := (u64 (a * b)) : u64_scope.

Definition is_u64 (z : Z) : Prop := 0 ≤ z < two64.

(** [big.Int.Uint64]: the low 64 bits of the absolute value. *)
Definition big_Uint64 (z : Z) : Z := Z.abs z mod two64.

(** [big.Int.Int64]: the low 64 bits of the absolute value as an [int64],
    negated for a negative number. *)
Definition big_Int64 (z : Z) : Z :=
  let v := i64 (Z.abs z) in if z <? 0 then i64 (- v) else v.

(** [big.Int.BitLen]. *)
Definition big_BitLen (z : Z) : Z :=
  if z =? 0 then 0 else Z.log2 (Z.abs z) + 1.

(** Unsigned remainder [a % b], which panics on a zero divisor. *)
Definition u64_rem {E} (a b : Z) : outcome E Z :=
  if b =? 0 then Panic else Ok (a mod b).

Lemma two64_pos : 0 < two64. Proof. unfold two64. lia. Qed.

Lemma u64_small z : is_u64 z → u64 z = z.
Proof. unfold is_u64, u64. intros. by apply Z.mod_small. Qed.

Lemma u64_range z : is_u64 (u64 z).
Proof. unfold is_u64, u64. apply Z.mod_pos_bound, two64_pos. Qed.

Lemma big_Uint64_small z : 0 ≤ z < two64 → big_Uint64 z = z.
Proof.
  unfold big_Uint64. intros.
  rewrite Z.abs_eq by lia. by apply Z.mod_small.
Qed.

Lemma big_Uint64_range z : is_u64 (big_Uint64 z).
Proof. apply Z.mod_pos_bound, two64_pos. Qed.

Lemma u64_rem_ok {E} a b r : u64_rem (E := E) a b = Ok r ↔ b ≠ 0 ∧ r = a mod b.
Proof. unfold u64_rem. destruct (Z.eqb_spec b 0); naive_solver. Qed.

Create HintDb epv discriminated.
#[export] Hint Resolve u64_range big_Uint64_range two64_pos : epv.
#[export] Hint Rewrite @bind_Ok : epv.

(** ** Byte strings

    A byte is a [Z] between 0 and 255; [[20]byte] addresses, [[32]byte] hashes
    and [[]byte] slices are lists of bytes. *)
Definition is_byte (b : Z) : Prop := 0 ≤ b < 256.
Definition is_bytes (l : list Z) : Prop := Forall is_byte l.

(** [bytes.Compare]. *)
Fixpoint bytes_compare (a b : list Z) : comparison :=
  match a, b with
  | [], [] => Eq
  | [], _ :: _ => Lt
  | _ :: _, [] => Gt
  | x :: a', y :: b' =>
      match x ?= y with
      | Eq => bytes_compare a' b'
      | c => c
      end
  end.

Definition bytes_gt (a b : list Z) : bool :=
  match bytes_compare a b with Gt => true | _ => false end.

Definition bytes_le (a b : list Z) : Prop := bytes_compare a b ≠ Gt.

Lemma bytes_compare_eq a b : bytes_compare a b = Eq ↔ a = b.
Proof.
  revert b. induction a as [|x a IH]; intros [|y b]; simpl; try naive_solver.
  destruct (Z.compare_spec x y); naive_solver lia.
Qed.

Lemma bytes_compare_antisym a b : bytes_compare b a = CompOpp (bytes_compare a b).
Proof.
  revert b. induction a as [|x a IH]; intros [|y b]; simpl; try done.
  rewrite Z.compare_antisym. destruct (x ?= y); simpl; auto.
Qed.

Lemma bytes_compare_lt_trans a b c :
  bytes_compare a b = Lt → bytes_compare b c = Lt → bytes_compare a c = Lt.
Proof.
  revert b c. induction a as [|x a IH]; intros [|y b] [|z c]; simpl; try done.
  destruct (Z.compare_spec x y), (Z.compare_spec y z), (Z.compare_spec x z);
    subst; try done; try lia; eauto.
Qed.

#[export] Instance bytes_le_refl : Reflexive bytes_le.
Proof. intros a. unfold bytes_le. by rewrite (proj2 (bytes_compare_eq a a)). Qed.

#[export] Instance bytes_le_trans : Transitive bytes_le.
Proof.
  intros a b c. unfold bytes_le. intros Hab Hbc.
  destruct (bytes_compare a b) eqn:E1; [|clear Hab|done].
  - by apply bytes_compare_eq in E1 as ->.
  - destruct (bytes_compare b c) eqn:E2; [|clear Hbc|done].
    + apply bytes_compare_eq in E2 as ->. by rewrite E1.
    + by rewrite (bytes_compare_lt_trans a b c).
Qed.

#[export] Instance bytes_le_antisym : AntiSymm (=) bytes_le.
Proof.
  intros a b. unfold bytes_le. rewrite (bytes_compare_antisym a b). intros Hab Hba.
  apply bytes_compare_eq. by destruct (bytes_compare a b).
Qed.

Lemma bytes_gt_false a b : bytes_gt a b = false ↔ bytes_le a b.
Proof. unfold bytes_gt, bytes_le. destruct (bytes_compare a b); naive_solver. Qed.

Lemma bytes_gt_true a b : bytes_gt a b = true → bytes_le b a.
Proof.
  unfold bytes_gt, bytes_le. rewrite (bytes_compare_antisym a b).
  by destruct (bytes_compare a b).
Qed.

(** ** Lists *)

Lemma size_le_length_NoDup {A} `{Countable A} (l : list A) (X : gset A) :
  NoDup l → (∀ x, x ∈ l → x ∈ X) → (length l ≤ size X)%nat.
Proof.
  intros Hnd Hin. rewrite <- (size_list_to_set (C := gset A) l) by done.
  apply subseteq_size. intros x. rewrite elem_of_list_to_set. auto.
Qed.

Lemma bool_decide_iff_eq (P Q : Prop) `{Decision P, Decision Q} :
  (P ↔ Q) → bool_decide P = bool_decide Q.
Proof. apply bool_decide_ext. Qed.

Lemma list_filter_id {A} (P : A → Prop) `{∀ x, Decision (P x)} (l : list A) :
  (∀ x, x ∈ l → P x) → filter P l = l.
Proof.
  induction l as [|x l IH]; intros Hl; [done|].
  rewrite filter_cons_True by (apply Hl; left). f_equal. apply IH. intros. apply Hl. by right.
Qed.

Lemma Forall_filter_weaken {A} (P Q : A → Prop) `{∀ x, Decision (P x)} (l : list A) :
  Forall Q l → Forall Q (filter P l).
Proof. rewrite !Forall_forall. intros Hl x [_ Hx]%list_elem_of_filter. auto. Qed.

Lemma NoDup_fmap_filter {A B} (f : A → B) (P : A → Prop) `{∀ x, Decision (P x)} (l : list A) :
  NoDup (f <$> l) → NoDup (f <$> filter P l).
Proof.
  induction l as [|x l IH]; [done|]. rewrite fmap_cons, NoDup_cons. intros [Hx Hl].
  rewrite filter_cons. case_decide; [|auto]. rewrite fmap_cons, NoDup_cons. split; [|auto].
  intros (y & Hxy & [_ Hy]%list_elem_of_filter)%list_elem_of_fmap.
  apply Hx. rewrite Hxy. by apply list_elem_of_fmap_2.
Qed.

Lemma list_filter_nil {A} (P : A → Prop) `{∀ x, Decision (P x)} (l : list A) :
  (∀ x, x ∈ l → ¬ P x) → filter P l = [].
Proof.
  induction l as [|x l IH]; intros Hl; [done|].
  rewrite filter_cons_False by (apply Hl; left). apply IH. intros. apply Hl. by right.
Qed.

Lemma length_omap_le {A B} (f : A → option B) (l : list A) : (length (omap f l) ≤ length l)%nat.
Proof. induction l as [|x l IH]; cbn; [lia|]. destruct (f x); cbn; lia. Qed.
