(* ===== verification/Types.v ===== *)
(** * Headers and blocks (src/kernel/types/block.go) and the chain
    configuration (src/content/config.go).

    Pointers to [big.Int] are [option Z], because the code distinguishes nil
    from zero.  Hashes, addresses and nonces are byte lists.  The header hash
    (Keccak-256 of the RLP encoding) is a parameter of the components that use
    it. *)

From S2P Require Import Prelude.
From stdpp Require Import base tactics option list numbers strings.
From Stdlib Require Import ZArith Lia.

#[local] Open Scope Z_scope.

(** ** Headers *)

Abbreviation Address := (list Z).
Abbreviation Hash := (list Z).
Abbreviation BlockNonce := (list Z).

Definition AddressLength : nat := 20.
Definition HashLength : nat := 32.

Definition zeroAddress : Address := replicate AddressLength 0.
Definition zeroHash : Hash := replicate HashLength 0.

Record Header := mkHeader {
  hdr_ParentHash : Hash;
  hdr_UncleHash : Hash;
  hdr_Coinbase : Address;
  hdr_Root : Hash;
  hdr_TxHash : Hash;
  hdr_ReceiptHash : Hash;
  hdr_Bloom : list Z;
  hdr_Difficulty : option Z;
  hdr_Number : option Z;
  hdr_GasLimit : Z;
  hdr_GasUsed : Z;
  hdr_TimeMS : option Z;
  hdr_Extra : list Z;
  hdr_MixDigest : Hash;
  hdr_Nonce : BlockNonce
}.

#[export] Instance Header_eq_dec : EqDecision Header.
Proof. solve_decision. Defined.

(** [EncodeNonce]: the eight big-endian bytes of a [uint64]. *)
Definition EncodeNonce (i : Z) : BlockNonce :=
  (fun k => Z.shiftr i (8 * k) mod 256) <$> [7; 6; 5; 4; 3; 2; 1; 0].

(** [BlockNonce.Uint64]. *)
Definition BlockNonce_Uint64 (n : BlockNonce) : Z :=
  foldl (fun acc b => acc * 256 + b) 0 n.

(** A pointer to a fresh [big.Int], set from [p] when [p] is not nil. *)
Definition copyBig (p : option Z) : option Z := Some (default 0 p).

(** [CopyHeader]: nil big integers become zero, everything else is copied. *)
Definition CopyHeader (h : Header) : Header :=
  {| hdr_ParentHash := hdr_ParentHash h;
     hdr_UncleHash := hdr_UncleHash h;
     hdr_Coinbase := hdr_Coinbase h;
     hdr_Root := hdr_Root h;
     hdr_TxHash := hdr_TxHash h;
     hdr_ReceiptHash := hdr_ReceiptHash h;
     hdr_Bloom := hdr_Bloom h;
     hdr_Difficulty := copyBig (hdr_Difficulty h);
     hdr_Number := copyBig (hdr_Number h);
     hdr_GasLimit := hdr_GasLimit h;
     hdr_GasUsed := hdr_GasUsed h;
     hdr_TimeMS := copyBig (hdr_TimeMS h);
     hdr_Extra := hdr_Extra h;
     hdr_MixDigest := hdr_MixDigest h;
     hdr_Nonce := hdr_Nonce h |}.

(** ** Chain configuration *)

Record DPosConfig := mkDPosConfig { Period : Z; Epoch : Z }.

Record ChainConfig := mkChainConfig {
  ChainId : option Z;
  HomesteadBlock : option Z;
  DAOForkBlock : option Z;
  DAOForkSupport : bool;
  EIP150Block : option Z;
  EIP150Hash : Hash;
  EIP155Block : option Z;
  EIP158Block : option Z;
  ByzantiumBlock : option Z;
  cfg_EPVhash : option unit;
  cfg_DPos : option DPosConfig
}.

Definition isForked (s head : option Z) : bool :=
  match s, head with
  | Some s, Some head => s <=? head
  | _, _ => false
  end.

Definition configNumEqual (x y : option Z) : bool :=
  match x, y with
  | None, None => true
  | Some x, Some y => x =? y
  | _, _ => false
  end.

Definition isForkIncompatible (s1 s2 head : option Z) : bool :=
  (isForked s1 head || isForked s2 head) && negb (configNumEqual s1 s2).

Definition IsHomestead (c : ChainConfig) (num : option Z) : bool := isForked (HomesteadBlock c) num.
Definition IsDAOFork (c : ChainConfig) (num : option Z) : bool := isForked (DAOForkBlock c) num.
Definition IsEIP150 (c : ChainConfig) (num : option Z) : bool := isForked (EIP150Block c) num.
Definition IsEIP155 (c : ChainConfig) (num : option Z) : bool := isForked (EIP155Block c) num.
Definition IsEIP158 (c : ChainConfig) (num : option Z) : bool := isForked (EIP158Block c) num.
Definition IsByzantium (c : ChainConfig) (num : option Z) : bool := isForked (ByzantiumBlock c) num.

Record ConfigCompatError := mkCompatError {
  What : string;
  StoredConfig : option Z;
  NewConfig : option Z;
  RewindTo : Z
}.

(** The block number [newCompatError] computes the rewind height from. *)
Definition rewindBlock (storedblock newblock : option Z) : option Z :=
  match storedblock, newblock with
  | None, _ => newblock
  | Some _, None => storedblock
  | Some s, Some n => if s <? n then Some s else Some n
  end.

Definition newCompatError (what : string) (storedblock newblock : option Z) : ConfigCompatError :=
  {| What := what;
     StoredConfig := storedblock;
     NewConfig := newblock;
     RewindTo := match rewindBlock storedblock newblock with
                 | Some rew => if 0 <? rew then (big_Uint64 rew - 1)%u64 else 0
                 | None => 0
                 end |}.

Definition checkCompatible (c newcfg : ChainConfig) (head : option Z) : option ConfigCompatError :=
  if isForkIncompatible (HomesteadBlock c) (HomesteadBlock newcfg) head then
    Some (newCompatError "Homestead fork block" (HomesteadBlock c) (HomesteadBlock newcfg))
  else if isForkIncompatible (DAOForkBlock c) (DAOForkBlock newcfg) head then
    Some (newCompatError "DAO fork block" (DAOForkBlock c) (DAOForkBlock newcfg))
  else if IsDAOFork c head && negb (Bool.eqb (DAOForkSupport c) (DAOForkSupport newcfg)) then
    Some (newCompatError "DAO fork support flag" (DAOForkBlock c) (DAOForkBlock newcfg))
  else if isForkIncompatible (EIP150Block c) (EIP150Block newcfg) head then
    Some (newCompatError "EIP150 fork block" (EIP150Block c) (EIP150Block newcfg))
  else if isForkIncompatible (EIP155Block c) (EIP155Block newcfg) head then
    Some (newCompatError "EIP155 fork block" (EIP155Block c) (EIP155Block newcfg))
  else if isForkIncompatible (EIP158Block c) (EIP158Block newcfg) head then
    Some (newCompatError "EIP158 fork block" (EIP158Block c) (EIP158Block newcfg))
  else if IsEIP158 c head && negb (configNumEqual (ChainId c) (ChainId newcfg)) then
    Some (newCompatError "EIP158 chain ID" (EIP158Block c) (EIP158Block newcfg))
  else if isForkIncompatible (ByzantiumBlock c) (ByzantiumBlock newcfg) head then
    Some (newCompatError "Byzantium fork block" (ByzantiumBlock c) (ByzantiumBlock newcfg))
  else None.

(** The loop of [CheckCompatible]; [None] means the fuel ran out. *)
Fixpoint CheckCompatible_loop (fuel : nat) (c newcfg : ChainConfig) (bhead : Z)
    (lasterr : option ConfigCompatError) : option (option ConfigCompatError) :=
  match fuel with
  | O => None
  | S fuel =>
      match checkCompatible c newcfg (Some bhead) with
      | None => Some lasterr
      | Some err =>
          match lasterr with
          | Some last =>
              if RewindTo err =? RewindTo last then Some lasterr
              else CheckCompatible_loop fuel c newcfg (RewindTo err) (Some err)
          | None => CheckCompatible_loop fuel c newcfg (RewindTo err) (Some err)
          end
      end
  end.

Definition CheckCompatible (fuel : nat) (c newcfg : ChainConfig) (height : Z) :
    option (option ConfigCompatError) :=
  CheckCompatible_loop fuel c newcfg height None.

Record Rules := mkRules {
  rules_ChainId : Z;
  rules_IsHomestead : bool;
  rules_IsEIP150 : bool;
  rules_IsEIP155 : bool;
  rules_IsEIP158 : bool;
  rules_IsByzantium : bool
}.

Definition ChainConfig_Rules (c : ChainConfig) (num : option Z) : Rules :=
  {| rules_ChainId := default 0 (ChainId c);
     rules_IsHomestead := IsHomestead c num;
     rules_IsEIP150 := IsEIP150 c num;
     rules_IsEIP155 := IsEIP155 c num;
     rules_IsEIP158 := IsEIP158 c num;
     rules_IsByzantium := IsByzantium c num |}.

(** ** The compatibility check *)

(** A fork on which [c] and [newcfg] disagree and which one of them has reached
    at [head] makes the rewind height smaller than [head], or zero. *)
Lemma newCompatError_rewind what s1 s2 head :
  is_u64 head →
  isForked s1 (Some head) || isForked s2 (Some head) = true →
  0 ≤ RewindTo (newCompatError what s1 s2) ∧
  (RewindTo (newCompatError what s1 s2) < head ∨ RewindTo (newCompatError what s1 s2) = 0).
Proof.
  intros Hh Hf. simpl.
  assert (∃ rew, rewindBlock s1 s2 = Some rew ∧ rew ≤ head) as (rew & -> & Hle).
  { destruct s1 as [a|], s2 as [b|]; simpl in *; try discriminate;
      try (destruct (Z.ltb_spec a b)); eexists; split; try done; lia. }
  destruct (Z.ltb_spec 0 rew) as [Hpos|]; [|lia].
  unfold is_u64 in Hh. rewrite big_Uint64_small by (unfold is_u64; lia).
  rewrite u64_small by (unfold is_u64; lia). lia.
Qed.

Lemma checkCompatible_rewind c newcfg head err :
  is_u64 head →
  checkCompatible c newcfg (Some head) = Some err →
  0 ≤ RewindTo err ∧ (RewindTo err < head ∨ RewindTo err = 0).
Proof.
  intros Hh. unfold checkCompatible, isForkIncompatible, IsDAOFork, IsEIP158.
  repeat case_match; intros; simplify_eq; apply newCompatError_rewind; try done;
    repeat match goal with H : _ && _ = true |- _ => apply andb_true_iff in H as [? ?] end;
    try done; by apply orb_true_iff; left.
Qed.

Lemma CheckCompatible_loop_spec c newcfg fuel bhead lasterr :
  is_u64 bhead →
  (Z.to_nat bhead + 2 ≤ fuel)%nat ∨ ((1 ≤ fuel)%nat ∧ bhead = 0 ∧ ∃ l, lasterr = Some l ∧ RewindTo l = 0) →
  (∀ l, lasterr = Some l → RewindTo l = bhead) →
  ∃ r, CheckCompatible_loop fuel c newcfg bhead lasterr = Some r ∧
    match r with
    | None => lasterr = None ∧ checkCompatible c newcfg (Some bhead) = None
    | Some l => checkCompatible c newcfg (Some (RewindTo l)) = None ∨ RewindTo l = 0
    end.
Proof.
  revert bhead lasterr. induction fuel as [|fuel IH]; intros bhead lasterr Hu Hfuel Hl; [lia|].
  simpl. destruct (checkCompatible c newcfg (Some bhead)) as [err|] eqn:Hc.
  - pose proof (checkCompatible_rewind _ _ _ _ Hu Hc) as [H0 Hr].
    assert (is_u64 (RewindTo err)) by (unfold is_u64 in *; lia).
    destruct lasterr as [l|].
    + specialize (Hl l eq_refl). destruct (Z.eqb_spec (RewindTo err) (RewindTo l)) as [Heq|Hne].
      * exists (Some l). split; [done|]. right. lia.
      * destruct (IH (RewindTo err) (Some err)) as (r & -> & Hres); [done| |naive_solver|].
        { destruct (decide (RewindTo err = 0)); [right; split; [lia|eauto]|left; lia]. }
        exists r. split; [done|]. destruct r; [done|naive_solver].
    + destruct Hfuel as [Hfuel|(_ & _ & ? & [=] & _)].
      destruct (IH (RewindTo err) (Some err)) as (r & -> & Hres); [done| |naive_solver|].
      { destruct (decide (RewindTo err = 0)); [right; split; [lia|eauto]|left; lia]. }
      exists r. split; [done|]. destruct r; [done|naive_solver].
  - exists lasterr. split; [done|]. destruct lasterr as [l|]; [|done].
    left. by rewrite (Hl l eq_refl).
Qed.

(** [CheckCompatible] terminates for every pair of configurations and every
    chain height (at most [height + 2] iterations of its loop), and its answer
    is right: it reports no error exactly when the configurations agree on all
    forks reached at [height], and when it reports an error, rewinding the
    chain to the reported height makes the configurations compatible, unless
    that height is already the genesis block. *)
Theorem CheckCompatible_correct c newcfg height :
  is_u64 height →
  ∃ r, CheckCompatible (Z.to_nat height + 2) c newcfg height = Some r ∧
    match r with
    | None => checkCompatible c newcfg (Some height) = None
    | Some e => checkCompatible c newcfg (Some height) ≠ None ∧
                (checkCompatible c newcfg (Some (RewindTo e)) = None ∨ RewindTo e = 0)
    end.
Proof.
  intros Hu. unfold CheckCompatible.
  destruct (CheckCompatible_loop_spec c newcfg (Z.to_nat height + 2) height None)
    as (r & Hr & Hres); [done|lia|done|].
  exists r. split; [done|]. destruct r as [e|]; [|tauto].
  split; [|done]. intros Hn.
  rewrite Nat.add_comm in Hr. simpl in Hr. by rewrite Hn in Hr.
Qed.

Lemma CheckCompatible_correct_witness :
  is_u64 5 ∧
  let c := mkChainConfig (Some 1) (Some 1) None true (Some 2) [] (Some 3) (Some 3) (Some 4) None None in
  let c' := mkChainConfig (Some 1) (Some 1) None true (Some 4) [] (Some 3) (Some 3) (Some 4) None None in
  ∃ r, CheckCompatible (Z.to_nat 5 + 2) c c' 5 = Some r ∧
    match r with
    | None => checkCompatible c c' (Some 5) = None
    | Some e => checkCompatible c c' (Some 5) ≠ None ∧
                (checkCompatible c c' (Some (RewindTo e)) = None ∨ RewindTo e = 0)
    end.
Proof.
  split; [unfold is_u64, two64; lia|].
  apply (CheckCompatible_correct
    (mkChainConfig (Some 1) (Some 1) None true (Some 2) [] (Some 3) (Some 3) (Some 4) None None)
    (mkChainConfig (Some 1) (Some 1) None true (Some 4) [] (Some 3) (Some 3) (Some 4) None None)).
  unfold is_u64, two64; lia.
Defined.
