(* ===== verification/Interfaces.v ===== *)
(** * Interfaces to code outside the repository that several components use

    The hash function and the key-value database. *)

From S2P Require Import Prelude Types.
From stdpp Require Import base tactics option list numbers.
From Stdlib Require Import ZArith Lia.

#[local] Open Scope Z_scope.

(** [sha3.NewKeccak256], some writes, and [Sum]: a hash of the bytes written. *)
Class Keccak := { Keccak256 : list Z → Hash }.

(** A hash has 32 bytes. *)
Class KeccakLaws `{Keccak} := {
  Keccak256_length : ∀ b, length (Keccak256 b) = HashLength;
  Keccak256_bytes : ∀ b, is_bytes (Keccak256 b)
}.

(** A key-value database: [Get] fails on a missing key, [Put] can fail. *)
Class Database := {
  database : Type;
  db_Get : list Z → database → option (list Z);
  db_Put : list Z → list Z → database → option database;
  db_Put_Get : ∀ k v d d' k', db_Put k v d = Some d' →
    db_Get k' d' = if decide (k' = k) then Some v else db_Get k' d
}.

(** An ARC cache may forget entries, but never invents one. *)
Class ARCCache (V : Type) := {
  arc_cache : Type;
  arc_new : arc_cache;
  arc_get : Hash → arc_cache → arc_cache * option V;
  arc_add : Hash → V → arc_cache → arc_cache;
  arc_holds : arc_cache → Hash → V → Prop;
  arc_new_holds : ∀ k v, ¬ arc_holds arc_new k v;
  arc_get_holds : ∀ k c c' v, arc_get k c = (c', Some v) → arc_holds c k v;
  arc_get_frame : ∀ k c c' r k' v', arc_get k c = (c', r) → arc_holds c' k' v' → arc_holds c k' v';
  arc_add_frame : ∀ k v c k' v', arc_holds (arc_add k v c) k' v' → (k' = k ∧ v' = v) ∨ arc_holds c k' v'
}.
