(* ===== verification/DposArchive.v ===== *)
(** * The voting archive of the DPoS engine
    (src/agreement/epvdpos/archive.go).

    An [Archive] is the signer set and the pending votes after a block.
    [apply] replays headers on it.  Recovering the signer of a header
    ([ecrecover]) and hashing a header are fields of the class [Seals]: the
    archive is verified for every implementation of them.  Seeding Go's
    [math/rand] and drawing one number below a bound is the class [Rand]. *)

From S2P Require Import Prelude Types.
From stdpp Require Import base tactics option list numbers gmap sorting.
From Stdlib Require Import ZArith Lia.

#[local] Open Scope Z_scope.

(** ** Errors of the engine *)

Inductive error :=
| errUnknownBlock
| errInvalidCheckpointBeneficiary
| errInvalidVote
| errInvalidCheckpointVote
| errMissingVanity
| errMissingSignature
| errExtraSigners
| errInvalidCheckpointSigners
| errInvalidMixDigest
| errInvalidUncleHash
| errInvalidDifficulty
| ErrInvalidTimestamp
| errInvalidVotingChain
| errUnauthorized
| errWaitTransactions
| errUnclesNotAllowed
| errForkHash
| ErrUnknownAncestor
| ErrFutureBlock
| errExternal (code : Z).

#[export] Instance error_eq_dec : EqDecision error.
Proof. solve_decision. Defined.

Abbreviation res A := (outcome error A).

(** What the archive needs to know about headers: their hash and the account
    that sealed them. *)
Class Seals := {
  header_Hash : Header → Hash;
  ecrecover_of : Header → res Address
}.

(** [rand.Seed(seed)] followed by [rand.Intn(n)] for a positive [n]. *)
Class Rand := {
  seeded_Intn : Z → Z → Z;
  seeded_Intn_range : ∀ seed n, 0 < n → 0 ≤ seeded_Intn seed n < n
}.

Definition nonceAuthVote : BlockNonce := replicate 8 255.
Definition nonceDropVote : BlockNonce := replicate 8 0.

(** ** Data *)

Record Tally := mkTally { tly_Authorize : bool; tly_Votes : Z }.

Record Vote := mkVote {
  vote_Signer : Address;
  vote_Block : Z;
  vote_Address : Address;
  vote_Authorize : bool
}.

Record Archive := mkArchive {
  arc_config : DPosConfig;
  arc_Number : Z;
  arc_Hash : Hash;
  arc_Signers : gset Address;
  arc_Recents : gmap Z Address;
  arc_Votes : list Vote;
  arc_Tally : gmap Address Tally
}.

#[export] Instance Tally_eq_dec : EqDecision Tally.
Proof. solve_decision. Defined.
#[export] Instance Vote_eq_dec : EqDecision Vote.
Proof. solve_decision. Defined.
#[export] Instance DPosConfig_eq_dec : EqDecision DPosConfig.
Proof. solve_decision. Defined.
#[export] Instance Archive_eq_dec : EqDecision Archive.
Proof. solve_decision. Defined.

Definition set_Signers (x : gset Address) (s : Archive) : Archive :=
  mkArchive (arc_config s) (arc_Number s) (arc_Hash s) x (arc_Recents s) (arc_Votes s) (arc_Tally s).
Definition set_Recents (x : gmap Z Address) (s : Archive) : Archive :=
  mkArchive (arc_config s) (arc_Number s) (arc_Hash s) (arc_Signers s) x (arc_Votes s) (arc_Tally s).
Definition set_Votes (x : list Vote) (s : Archive) : Archive :=
  mkArchive (arc_config s) (arc_Number s) (arc_Hash s) (arc_Signers s) (arc_Recents s) x (arc_Tally s).
Definition set_Tally (x : gmap Address Tally) (s : Archive) : Archive :=
  mkArchive (arc_config s) (arc_Number s) (arc_Hash s) (arc_Signers s) (arc_Recents s) (arc_Votes s) x.

(** ** Operations *)

Definition newArchive (config : DPosConfig) (number : Z) (hash : Hash) (signers : list Address) : Archive :=
  {| arc_config := config;
     arc_Number := number;
     arc_Hash := hash;
     arc_Signers := list_to_set signers;
     arc_Recents := ∅;
     arc_Votes := [];
     arc_Tally := ∅ |}.

(** [len(s.Signers)/2 + 1]. *)
Definition signerLimit (s : Archive) : Z := Z.of_nat (size (arc_Signers s)) / 2 + 1.

Definition validVote (s : Archive) (address : Address) (authorize : bool) : bool :=
  let signer := bool_decide (address ∈ arc_Signers s) in
  (signer && negb authorize) || (negb signer && authorize).

Definition cast (s : Archive) (address : Address) (authorize : bool) : Archive * bool :=
  if negb (validVote s address authorize) then (s, false)
  else
    match arc_Tally s !! address with
    | Some old =>
        (set_Tally (<[address := mkTally (tly_Authorize old) (tly_Votes old + 1)]> (arc_Tally s)) s, true)
    | None =>
        (set_Tally (<[address := mkTally authorize 1]> (arc_Tally s)) s, true)
    end.

Definition uncast (s : Archive) (address : Address) (authorize : bool) : Archive * bool :=
  match arc_Tally s !! address with
  | None => (s, false)
  | Some tally =>
      if negb (Bool.eqb (tly_Authorize tally) authorize) then (s, false)
      else if 1 <? tly_Votes tally then
        (set_Tally (<[address := mkTally (tly_Authorize tally) (tly_Votes tally - 1)]> (arc_Tally s)) s, true)
      else (set_Tally (delete address (arc_Tally s)) s, true)
  end.

(** [delete(archive.Recents, number-limit)], guarded by [number >= limit]. *)
Definition shiftRecents (number : Z) (s : Archive) : Archive :=
  if signerLimit s <=? number
  then set_Recents (delete (number - signerLimit s)%u64 (arc_Recents s)) s
  else s.

(** [_, recent := range archive.Recents] finds [recent == signer]. *)
Definition recentlySigned (s : Archive) (signer : Address) : bool :=
  bool_decide (map_Exists (fun _ recent => recent = signer) (arc_Recents s)).

(** The loop that discards the previous vote of [signer] on [address]: the
    first such vote is uncast and cut out of [Votes], [before] being the votes
    already passed. *)
Fixpoint discardVote (signer address : Address) (before votes : list Vote) (s : Archive) : Archive :=
  match votes with
  | [] => s
  | vote :: rest =>
      if bool_decide (vote_Signer vote = signer ∧ vote_Address vote = address)
      then set_Votes (before ++ rest) (fst (uncast s (vote_Address vote) (vote_Authorize vote)))
      else discardVote signer address (before ++ [vote]) rest s
  end.

(** The loop over [Votes] that uncasts and cuts every vote of [signer]. *)
Fixpoint discardVotesBy (signer : Address) (before votes : list Vote) (s : Archive) : Archive :=
  match votes with
  | [] => set_Votes before s
  | vote :: rest =>
      if bool_decide (vote_Signer vote = signer)
      then discardVotesBy signer before rest (fst (uncast s (vote_Address vote) (vote_Authorize vote)))
      else discardVotesBy signer (before ++ [vote]) rest s
  end.

(** The loop over [Votes] that cuts every vote on [address]. *)
Fixpoint discardVotesOn (address : Address) (votes : list Vote) : list Vote :=
  match votes with
  | [] => []
  | vote :: rest =>
      if bool_decide (vote_Address vote = address)
      then discardVotesOn address rest
      else vote :: discardVotesOn address rest
  end.

Definition nonceVote (nonce : BlockNonce) : res bool :=
  if bool_decide (nonce = nonceAuthVote) then Ok true
  else if bool_decide (nonce = nonceDropVote) then Ok false
  else Err errInvalidVote.

(** What [apply] does once the tally of [coinbase] passes half of the signers. *)
Definition passVote (number : Z) (coinbase : Address) (tally : Tally) (s : Archive) : Archive :=
  let s :=
    if tly_Authorize tally then set_Signers ({[coinbase]} ∪ arc_Signers s) s
    else
      let s := set_Signers (arc_Signers s ∖ {[coinbase]}) s in
      let s := shiftRecents number s in
      discardVotesBy coinbase [] (arc_Votes s) s in
  let s := set_Votes (discardVotesOn coinbase (arc_Votes s)) s in
  set_Tally (delete coinbase (arc_Tally s)) s.

(** [header.Number.Uint64()]. *)
Definition headerNumber (header : Header) : res Z :=
  n ← deref (hdr_Number header);
  Ok (big_Uint64 n).

(** One iteration of the header loop of [apply], where [recovered] is what
    [ecrecover] returns for the header. *)
Definition applyHeaderWith (s : Archive) (header : Header) (recovered : res Address) : res Archive :=
  number ← headerNumber header;
  epochPos ← u64_rem number (Epoch (arc_config s));
  let s := if epochPos =? 0 then set_Tally ∅ (set_Votes [] s) else s in
  let s := shiftRecents number s in
  signer ← recovered;
  _ ← fail_if (negb (bool_decide (signer ∈ arc_Signers s))) errUnauthorized;
  _ ← fail_if (recentlySigned s signer) errUnauthorized;
  let s := set_Recents (<[number := signer]> (arc_Recents s)) s in
  let coinbase := hdr_Coinbase header in
  let s := discardVote signer coinbase [] (arc_Votes s) s in
  authorize ← nonceVote (hdr_Nonce header);
  let '(s, counted) := cast s coinbase authorize in
  let s := if counted
           then set_Votes (arc_Votes s ++ [mkVote signer number coinbase authorize]) s
           else s in
  let tally := default (mkTally false 0) (arc_Tally s !! coinbase) in
  if Z.of_nat (size (arc_Signers s)) / 2 <? tly_Votes tally
  then Ok (passVote number coinbase tally s)
  else Ok s.

(** The sanity check on the header numbers of [apply]. *)
Fixpoint contiguous (headers : list Header) : res unit :=
  match headers with
  | h0 :: (h1 :: _) as rest =>
      n1 ← headerNumber h1;
      n0 ← headerNumber h0;
      _ ← fail_if (negb (n1 =? (n0 + 1)%u64)) errInvalidVotingChain;
      contiguous rest
  | _ => Ok tt
  end.

Section WithSeals.
Context `{Seals}.

Definition applyHeader (s : Archive) (header : Header) : res Archive :=
  applyHeaderWith s header (ecrecover_of header).

Fixpoint applyHeaders (s : Archive) (headers : list Header) : res Archive :=
  match headers with
  | [] => Ok s
  | header :: rest => s ← applyHeader s header; applyHeaders s rest
  end.

Definition archive_apply (s : Archive) (headers : list Header) : res Archive :=
  match headers with
  | [] => Ok s
  | h0 :: _ =>
      _ ← contiguous headers;
      n0 ← headerNumber h0;
      _ ← fail_if (negb (n0 =? (arc_Number s + 1)%u64)) errInvalidVotingChain;
      archive ← applyHeaders s headers;
      Ok {| arc_config := arc_config archive;
            arc_Number := (arc_Number archive + Z.of_nat (length headers))%u64;
            arc_Hash := header_Hash (default h0 (last headers));
            arc_Signers := arc_Signers archive;
            arc_Recents := arc_Recents archive;
            arc_Votes := arc_Votes archive;
            arc_Tally := arc_Tally archive |}
  end.

End WithSeals.

(** The two nested index loops of [signers] and [ableSigners]: [sortInner] is
    the loop over [j] for the element at [i], exchanging it with every smaller
    element it meets. *)
Fixpoint sortInner (x : Address) (l : list Address) : Address * list Address :=
  match l with
  | [] => (x, [])
  | y :: l =>
      if bytes_gt x y
      then let '(m, r) := sortInner y l in (m, x :: r)
      else let '(m, r) := sortInner x l in (m, y :: r)
  end.

Fixpoint sortOuter (n : nat) (l : list Address) : list Address :=
  match n, l with
  | S n, x :: l => let '(m, r) := sortInner x l in m :: sortOuter n r
  | _, _ => l
  end.

Definition sortAddresses (l : list Address) : list Address := sortOuter (length l) l.

(** [keys] is the order in which Go's map iteration yields the signers. *)
Definition signers_from (keys : list Address) : list Address := sortAddresses keys.

Definition signers (s : Archive) : list Address := signers_from (elements (arc_Signers s)).

Definition ableRecents (s : Archive) (number : Z) : gmap Z Address :=
  if signerLimit s <=? number
  then delete (number - signerLimit s)%u64 (arc_Recents s)
  else arc_Recents s.

Definition ableSigners_from (keys : list Address) (s : Archive) (number : Z) : list Address :=
  sortAddresses
    (filter (fun signer => ¬ map_Exists (fun _ recent => recent = signer) (ableRecents s number)) keys).

Definition ableSigners (s : Archive) (number : Z) : list Address :=
  ableSigners_from (elements (arc_Signers s)) s number.

(** The last eight bytes of a hash as a big-endian [int64]. *)
Definition lowHash (hash : Hash) : Z :=
  i64 (foldl (fun acc b => acc * 256 + b) 0 (drop (length hash - 8) hash)).

(** [for offset < sigLen && signers[offset] != signer { offset++ }]. *)
Fixpoint signerOffset (signers : list Address) (signer : Address) : Z :=
  match signers with
  | [] => 0
  | x :: rest => if bool_decide (x = signer) then 0 else 1 + signerOffset rest signer
  end.

Section WithRand.
Context `{Rand}.

(** [rand.Intn] panics when its argument is not positive. *)
Definition Intn {E} (seed n : Z) : outcome E Z :=
  if n <=? 0 then Panic else Ok (seeded_Intn seed n).

Definition inturn (s : Archive) (number : Z) (signer : Address) (hash : Hash) : res bool :=
  let signers := ableSigners s number in
  let sigLen := Z.of_nat (length signers) in
  curTurn ← Intn (lowHash hash) sigLen;
  Ok (curTurn =? signerOffset signers signer).

End WithRand.
