(* ===== verification/DposVoting.v ===== *)
(** * The voting protocol of the DPoS archive

    An abstract specification of the protocol, [vote_step]: a set of signers
    and, for every pair of a voter and a candidate, at most one ballot.  The
    archive of src/agreement/epvdpos/archive.go keeps a list of votes and a
    tally instead; [archive_wf] is its invariant, and the refinement theorem
    shows that one header of [apply] is exactly one abstract step. *)

From S2P Require Import Prelude Types DposArchive.
From stdpp Require Import base tactics option list numbers gmap sorting.
From Stdlib Require Import ZArith Lia.

#[local] Open Scope Z_scope.

(** ** Abstract protocol *)

Record Ballots := mkBallots {
  bal_signers : gset Address;
  bal_votes : gmap (Address * Address) bool
}.

(** The voters with a ballot on candidate [c]. *)
Definition supporters (b : gmap (Address * Address) bool) (c : Address) : gset Address :=
  set_map fst (filter (fun k : Address * Address => k.2 = c) (dom b)).

(** The voter's earlier ballot on the candidate is withdrawn, and the new one
    is counted when it asks for a change. *)
Definition cast_ballot (b : Ballots) (voter c : Address) (authorize : bool) : Ballots :=
  let votes := delete (voter, c) (bal_votes b) in
  mkBallots (bal_signers b)
    (if Bool.eqb authorize (bool_decide (c ∈ bal_signers b)) then votes
     else <[(voter, c) := authorize]> votes).

(** When more than half of the signers have a ballot on the candidate, its
    membership changes, and the ballots on the candidate and those of voters
    who are no longer signers are dropped. *)
Definition settle (b : Ballots) (c : Address) : Ballots :=
  let signers := bal_signers b in
  if decide (size signers / 2 < size (supporters (bal_votes b) c))%nat then
    let signers' := if decide (c ∈ signers) then signers ∖ {[c]} else {[c]} ∪ signers in
    mkBallots signers' (filter (fun kb => kb.1.2 ≠ c ∧ kb.1.1 ∈ signers') (bal_votes b))
  else b.

Definition vote_step (b : Ballots) (voter c : Address) (authorize : bool) : Ballots :=
  settle (cast_ballot b voter c authorize) c.

(** A checkpoint block drops all ballots. *)
Definition checkpoint_step (b : Ballots) : Ballots := mkBallots (bal_signers b) ∅.

(** The whole protocol also remembers who sealed which of the latest blocks. *)
Record Protocol := mkProtocol {
  pr_ballots : Ballots;
  pr_recents : gmap Z Address
}.

(** The seals of the blocks above [lo]. *)
Definition window (lo : Z) (recents : gmap Z Address) : gmap Z Address :=
  filter (fun kv => lo < kv.1) recents.

(** A signer may seal one of any [ballot_limit] consecutive blocks. *)
Definition ballot_limit (b : Ballots) : Z := Z.of_nat (size (bal_signers b)) / 2 + 1.

Definition nonce_ballot (nonce : BlockNonce) : option bool :=
  if decide (nonce = nonceAuthVote) then Some true
  else if decide (nonce = nonceDropVote) then Some false else None.

(** One block of the protocol: block [n], whose seal recovers to [sealer], with
    the vote that [nonce] encodes on candidate [c].  The sealer is refused when
    it is not a signer or has sealed one of the blocks of the window, then a
    nonce that is no vote is refused; otherwise the vote is cast and the block
    is remembered. *)
Definition seal_step (epoch n : Z) (p : Protocol) (sealer : res Address) (c : Address)
    (nonce : BlockNonce) : res Protocol :=
  if decide (epoch = 0) then Panic
  else
    let b := if decide (n mod epoch = 0) then checkpoint_step (pr_ballots p) else pr_ballots p in
    let recents := window (n - ballot_limit b) (pr_recents p) in
    voter ← sealer;
    if decide (voter ∉ bal_signers b ∨ map_Exists (fun _ a => a = voter) recents)
    then Err errUnauthorized
    else
      match nonce_ballot nonce with
      | None => Err errInvalidVote
      | Some authorize =>
          let b' := vote_step b voter c authorize in
          Ok (mkProtocol b' (window (n - ballot_limit b') (<[n := voter]> recents)))
      end.

(** ** The archive's votes as ballots *)

Definition vote_key (v : Vote) : Address * Address := (vote_Signer v, vote_Address v).

Definition ballots_of (votes : list Vote) : gmap (Address * Address) bool :=
  list_to_map ((fun v => (vote_key v, vote_Authorize v)) <$> votes).

Definition archive_abs (s : Archive) : Ballots :=
  mkBallots (arc_Signers s) (ballots_of (arc_Votes s)).

Definition archive_protocol (s : Archive) : Protocol :=
  mkProtocol (archive_abs s) (arc_Recents s).

Definition votes_on (a : Address) (votes : list Vote) : list Vote :=
  filter (fun v => vote_Address v = a) votes.

(** The tally entry the votes on [a] should have. *)
Definition tally_of (signers : gset Address) (votes : list Vote) (a : Address) : option Tally :=
  match length (votes_on a votes) with
  | O => None
  | S n => Some (mkTally (bool_decide (a ∉ signers)) (Z.of_nat (S n)))
  end.

Definition tally_ok (signers : gset Address) (votes : list Vote) (tally : gmap Address Tally) : Prop :=
  ∀ a, tally !! a = tally_of signers votes a.

(** A vote asks for a change of the signer set. *)
Definition vote_open (signers : gset Address) (v : Vote) : Prop :=
  vote_Authorize v = bool_decide (vote_Address v ∉ signers).

Record votes_wf (signers : gset Address) (votes : list Vote) : Prop := {
  votes_wf_signer : Forall (fun v => vote_Signer v ∈ signers) votes;
  votes_wf_open : Forall (vote_open signers) votes;
  votes_wf_nodup : NoDup (vote_key <$> votes)
}.

Definition recents_in (lo hi : Z) (r : gmap Z Address) : Prop :=
  ∀ n a, r !! n = Some a → 0 ≤ n ∧ lo < n ≤ hi.

Definition recents_inj (r : gmap Z Address) : Prop :=
  ∀ n m a, r !! n = Some a → r !! m = Some a → n = m.

(** Only signatures of the last [signerLimit] blocks are remembered, no two of
    them by the same signer. *)
Record recents_wf (number : Z) (s : Archive) : Prop := {
  recents_wf_window : recents_in (number - signerLimit s) number (arc_Recents s);
  recents_wf_inj : recents_inj (arc_Recents s)
}.

Record archive_wf (number : Z) (s : Archive) : Prop := {
  archive_wf_votes : votes_wf (arc_Signers s) (arc_Votes s);
  archive_wf_tally : tally_ok (arc_Signers s) (arc_Votes s) (arc_Tally s);
  archive_wf_recents : recents_wf number s
}.

(** ** Votes and tallies *)

Lemma votes_on_app a l k : votes_on a (l ++ k) = votes_on a l ++ votes_on a k.
Proof. apply filter_app. Qed.

Lemma tally_of_perm signers l k a : l ≡ₚ k → tally_of signers l a = tally_of signers k a.
Proof.
  intros Hp. unfold tally_of, votes_on.
  by rewrite (Permutation_length (filter_Permutation _ _ _ Hp)).
Qed.

Lemma tally_ok_perm signers l k t : l ≡ₚ k → tally_ok signers l t → tally_ok signers k t.
Proof. intros Hp Ht a. rewrite Ht. by apply tally_of_perm. Qed.

Lemma votes_wf_perm signers l k : l ≡ₚ k → votes_wf signers l → votes_wf signers k.
Proof.
  intros Hp [H1 H2 H3]. split.
  - by rewrite <- Hp.
  - by rewrite <- Hp.
  - by rewrite <- (fmap_Permutation vote_key _ _ Hp).
Qed.

Lemma votes_wf_filter signers (P : Vote → Prop) `{∀ v, Decision (P v)} l :
  votes_wf signers l → votes_wf signers (filter P l).
Proof.
  intros [H1 H2 H3]. split; auto using Forall_filter_weaken, NoDup_fmap_filter.
Qed.

(** The fields of an archive that [uncast] and the vote loops leave alone. *)
Definition same_frame (s s' : Archive) : Prop :=
  arc_config s' = arc_config s ∧ arc_Number s' = arc_Number s ∧ arc_Hash s' = arc_Hash s ∧
  arc_Signers s' = arc_Signers s ∧ arc_Recents s' = arc_Recents s.

Lemma uncast_frame s a b : same_frame s (fst (uncast s a b)) ∧ arc_Votes (fst (uncast s a b)) = arc_Votes s.
Proof. unfold uncast, same_frame. repeat case_match; done. Qed.

Lemma uncast_tally signers v vs s :
  tally_ok signers (v :: vs) (arc_Tally s) → vote_open signers v →
  tally_ok signers vs (arc_Tally (fst (uncast s (vote_Address v) (vote_Authorize v)))).
Proof.
  intros Ht Hopen a. pose proof (Ht (vote_Address v)) as Hv.
  unfold tally_of, votes_on in Hv. rewrite filter_cons_True in Hv by done.
  simpl in Hv. unfold uncast. rewrite Hv. cbn [tly_Authorize tly_Votes].
  rewrite Hopen, Bool.eqb_reflx. cbn [negb].
  pose proof (Ht a) as Ha.
  destruct (decide (vote_Address v = a)) as [<-|Hne].
  - unfold tally_of. fold (votes_on (vote_Address v) vs) in *.
    destruct (length (votes_on (vote_Address v) vs)) as [|n].
    + simpl. by rewrite lookup_delete_eq.
    + destruct (Z.ltb_spec 1 (Z.of_nat (S (S n)))); [|lia]. simpl.
      rewrite lookup_insert_eq. do 2 f_equal. lia.
  - assert (tally_of signers (v :: vs) a = tally_of signers vs a) as Heq.
    { unfold tally_of, votes_on. by rewrite filter_cons_False. }
    rewrite Heq in Ha. case_match; simpl.
    + by rewrite lookup_insert_ne.
    + by rewrite lookup_delete_ne.
Qed.

Lemma discardVote_spec signers signer c before votes s :
  tally_ok signers (before ++ votes) (arc_Tally s) →
  arc_Votes s = before ++ votes →
  votes_wf signers (before ++ votes) →
  (∀ v, v ∈ before → vote_key v ≠ (signer, c)) →
  let s' := discardVote signer c before votes s in
  same_frame s s' ∧ tally_ok signers (arc_Votes s') (arc_Tally s') ∧
  arc_Votes s' = filter (fun v => vote_key v ≠ (signer, c)) (before ++ votes).
Proof.
  revert before. induction votes as [|v votes IH]; intros before Ht Hv Hwf Hb; simpl.
  - rewrite Hv. split; [done|]. split; [done|]. symmetry. rewrite app_nil_r.
    by apply list_filter_id.
  - case_bool_decide as Hk.
    + destruct Hk as [<- <-].
      destruct (uncast_frame s (vote_Address v) (vote_Authorize v)) as [Hf _].
      split; [by destruct Hf as (?&?&?&?&?)|]. simpl. split.
      * apply uncast_tally.
        -- eapply tally_ok_perm; [|exact Ht]. symmetry. apply Permutation_middle.
        -- destruct Hwf as [_ Ho _]. apply Forall_app in Ho as [_ Ho]. by apply Forall_cons in Ho as [Ho _].
      * rewrite filter_app, filter_cons_False by naive_solver.
        destruct Hwf as [_ _ Hnd]. rewrite fmap_app, fmap_cons in Hnd.
        f_equal; symmetry; apply list_filter_id; intros w Hw; [by apply Hb|].
        -- intros Heq. change (vote_key w = vote_key v) in Heq. apply NoDup_app in Hnd as (_ & _ & Hnd). apply NoDup_cons in Hnd as [Hnd _].
           apply Hnd. rewrite <- Heq. by apply list_elem_of_fmap_2.
    + assert (before ++ v :: votes = (before ++ [v]) ++ votes) as Heq by (by rewrite <- app_assoc).
      rewrite Heq in *. apply IH; try done.
      intros w [Hw| ->%list_elem_of_singleton]%elem_of_app; [auto|].
      unfold vote_key. naive_solver.
Qed.

Lemma discardVotesBy_spec signers c before votes s :
  tally_ok signers (before ++ votes) (arc_Tally s) →
  votes_wf signers votes →
  let s' := discardVotesBy c before votes s in
  same_frame s s' ∧ tally_ok signers (arc_Votes s') (arc_Tally s') ∧
  arc_Votes s' = before ++ filter (fun v => vote_Signer v ≠ c) votes.
Proof.
  revert before s. induction votes as [|v votes IH]; intros before s Ht Hwf; simpl.
  - rewrite app_nil_r in *. done.
  - assert (votes_wf signers votes) as Hwf'.
    { destruct Hwf as [H1 H2 H3]. apply Forall_cons in H1 as [_ H1], H2 as [_ H2].
      rewrite fmap_cons in H3. apply NoDup_cons in H3 as [_ H3]. done. }
    case_bool_decide as Hk.
    + rewrite filter_cons_False by naive_solver.
      destruct (uncast_frame s (vote_Address v) (vote_Authorize v)) as [Hf _].
      destruct (IH before (fst (uncast s (vote_Address v) (vote_Authorize v)))) as (Hf' & ? & ?); [|done|].
      * apply uncast_tally.
        -- eapply tally_ok_perm; [|exact Ht]. symmetry. apply Permutation_middle.
        -- destruct Hwf as [_ Ho _]. by apply Forall_cons in Ho as [Ho _].
      * split; [|done]. unfold same_frame in *. naive_solver congruence.
    + rewrite filter_cons_True by done.
      destruct (IH (before ++ [v]) s) as (? & ? & Hv); [by rewrite <- app_assoc|done|].
      split; [done|]. split; [done|]. by rewrite Hv, <- app_assoc.
Qed.

Lemma discardVotesOn_filter c votes :
  discardVotesOn c votes = filter (fun v => vote_Address v ≠ c) votes.
Proof.
  induction votes as [|v votes IH]; simpl; [done|]. rewrite filter_cons.
  case_bool_decide; case_decide; naive_solver congruence.
Qed.

Lemma validVote_iff s a b : validVote s a b = Bool.eqb b (bool_decide (a ∉ arc_Signers s)).
Proof.
  unfold validVote. rewrite bool_decide_not. by destruct (bool_decide _), b.
Qed.

Lemma tally_of_snoc signers votes v a :
  tally_of signers (votes ++ [v]) a =
  if decide (vote_Address v = a)
  then Some (mkTally (bool_decide (a ∉ signers)) (Z.of_nat (length (votes_on a votes)) + 1))
  else tally_of signers votes a.
Proof.
  unfold tally_of. rewrite votes_on_app. unfold votes_on at 2.
  rewrite filter_cons. case_decide as Ha; rewrite filter_nil.
  - rewrite length_app. simpl. rewrite Nat.add_1_r. do 2 f_equal. lia.
  - by rewrite app_nil_r.
Qed.

(** [cast] followed by recording the vote keeps tally and votes in step. *)
Lemma cast_spec s signer number c b :
  tally_ok (arc_Signers s) (arc_Votes s) (arc_Tally s) →
  let '(s', counted) := cast s c b in
  counted = Bool.eqb b (bool_decide (c ∉ arc_Signers s)) ∧
  same_frame s s' ∧ arc_Votes s' = arc_Votes s ∧
  tally_ok (arc_Signers s)
    (if counted then arc_Votes s ++ [mkVote signer number c b] else arc_Votes s) (arc_Tally s').
Proof.
  intros Ht. unfold cast. rewrite validVote_iff.
  destruct (Bool.eqb b (bool_decide (c ∉ arc_Signers s))) eqn:Hb; [|done].
  apply Bool.eqb_prop in Hb. cbn [negb].
  pose proof (Ht c) as Hc. unfold tally_of in Hc.
  destruct (length (votes_on c (arc_Votes s))) as [|n] eqn:Hn; rewrite Hc;
    (split; [done|]; split; [done|]; split; [done|]); intros a; rewrite tally_of_snoc;
    cbn [vote_Address arc_Tally set_Tally tly_Authorize tly_Votes];
    (destruct (decide (c = a)) as [Ha|Ha];
     [subst a; rewrite Hn, lookup_insert_eq; by rewrite ?Hb|rewrite lookup_insert_ne by done; apply Ht]).
Qed.

(** ** Ballots *)

Lemma ballots_lookup votes k b :
  NoDup (vote_key <$> votes) →
  ballots_of votes !! k = Some b ↔ ∃ v, v ∈ votes ∧ vote_key v = k ∧ vote_Authorize v = b.
Proof.
  intros Hnd. unfold ballots_of.
  rewrite <- elem_of_list_to_map by (rewrite <- list_fmap_compose; exact Hnd).
  rewrite list_elem_of_fmap. naive_solver.
Qed.

Lemma ballots_dom votes k : k ∈ dom (ballots_of votes) ↔ ∃ v, v ∈ votes ∧ vote_key v = k.
Proof.
  unfold ballots_of. rewrite dom_list_to_map_L, elem_of_list_to_set, <- list_fmap_compose, list_elem_of_fmap.
  simpl. naive_solver.
Qed.

Lemma ballots_filter (P : Vote → Prop) (Q : Address * Address * bool → Prop)
    `{∀ v, Decision (P v), ∀ kb, Decision (Q kb)} votes :
  NoDup (vote_key <$> votes) →
  (∀ v, v ∈ votes → P v ↔ Q (vote_key v, vote_Authorize v)) →
  ballots_of (filter P votes) = filter Q (ballots_of votes).
Proof.
  intros Hnd HPQ. apply map_eq. intros k. apply option_eq. intros b.
  rewrite ballots_lookup by (by apply NoDup_fmap_filter).
  rewrite map_lookup_filter_Some, ballots_lookup by done.
  setoid_rewrite list_elem_of_filter. naive_solver.
Qed.

Lemma ballots_delete votes k :
  NoDup (vote_key <$> votes) →
  ballots_of (filter (fun v => vote_key v ≠ k) votes) = delete k (ballots_of votes).
Proof.
  intros Hnd. apply map_eq. intros k'. apply option_eq. intros b.
  rewrite ballots_lookup by (by apply NoDup_fmap_filter).
  rewrite lookup_delete_Some, ballots_lookup by done.
  setoid_rewrite list_elem_of_filter. naive_solver.
Qed.

Lemma ballots_snoc votes v :
  NoDup (vote_key <$> votes ++ [v]) →
  ballots_of (votes ++ [v]) = <[vote_key v := vote_Authorize v]> (ballots_of votes).
Proof.
  intros Hnd. apply map_eq. intros k. apply option_eq. intros b.
  rewrite ballots_lookup, lookup_insert_Some by done.
  rewrite fmap_app in Hnd. pose proof (proj1 (NoDup_app _ _) Hnd) as (Hnd1 & Hdis & _).
  rewrite ballots_lookup by done. setoid_rewrite elem_of_app. setoid_rewrite list_elem_of_singleton.
  split.
  - intros (w & [Hw| ->] & <- & <-); [right|by left].
    split; [|eauto]. intros Heq. apply (Hdis (vote_key w)); [by apply list_elem_of_fmap_2|].
    rewrite <- Heq. by left.
  - intros [[<- <-]|[Hne (w & Hw & <- & <-)]]; eauto.
Qed.

Lemma supporters_size votes c :
  NoDup (vote_key <$> votes) → size (supporters (ballots_of votes) c) = length (votes_on c votes).
Proof.
  intros Hnd.
  assert (NoDup (vote_Signer <$> votes_on c votes)) as Hnd'.
  { assert (vote_key <$> votes_on c votes = (fun a => (a, c)) <$> (vote_Signer <$> votes_on c votes)) as Heq.
    { rewrite <- list_fmap_compose. apply list_fmap_ext. intros i v Hv%list_elem_of_lookup_2.
      apply list_elem_of_filter in Hv as [<- _]. done. }
    eapply (NoDup_fmap_1 (fun a => (a, c))). rewrite <- Heq. by apply NoDup_fmap_filter. }
  replace (supporters (ballots_of votes) c)
    with (list_to_set (C := gset Address) (vote_Signer <$> votes_on c votes)).
  { by rewrite size_list_to_set, length_fmap. }
  apply set_eq. intros a. unfold supporters.
  rewrite elem_of_list_to_set, list_elem_of_fmap, elem_of_map. setoid_rewrite elem_of_filter.
  setoid_rewrite ballots_dom. unfold votes_on. setoid_rewrite list_elem_of_filter.
  split.
  - intros (v & -> & Hc & Hv). exists (vote_key v). naive_solver.
  - intros ([a' c'] & -> & Hc & v & Hv & Hk). exists v. unfold vote_key in Hk. naive_solver.
Qed.

(** ** One header *)

(** The part of [applyHeader] that withdraws and casts votes. *)
Lemma recordVote_refines s signer number c b :
  votes_wf (arc_Signers s) (arc_Votes s) →
  tally_ok (arc_Signers s) (arc_Votes s) (arc_Tally s) →
  signer ∈ arc_Signers s →
  let '(s1, counted) := cast (discardVote signer c [] (arc_Votes s) s) c b in
  let s2 := if counted then set_Votes (arc_Votes s1 ++ [mkVote signer number c b]) s1 else s1 in
  same_frame s s2 ∧ votes_wf (arc_Signers s2) (arc_Votes s2) ∧
  tally_ok (arc_Signers s2) (arc_Votes s2) (arc_Tally s2) ∧
  archive_abs s2 = cast_ballot (archive_abs s) signer c b.
Proof.
  intros Hwf Ht Hin.
  destruct (discardVote_spec (arc_Signers s) signer c [] (arc_Votes s) s) as (Hf & Ht' & Hv);
    [done..|by intros v ?%not_elem_of_nil|].
  set (s0 := discardVote signer c [] (arc_Votes s) s) in *. simpl app in Hv.
  assert (arc_Signers s0 = arc_Signers s) as Hsg by apply Hf.
  rewrite <- Hsg in Ht', Hin. pose proof (votes_wf_nodup _ _ Hwf) as Hnd.
  assert (votes_wf (arc_Signers s0) (arc_Votes s0)) as Hwf0.
  { rewrite Hv, Hsg. by apply votes_wf_filter. }
  assert (∀ v, v ∈ arc_Votes s0 → vote_key v ≠ (signer, c)) as Hnk.
  { rewrite Hv. by intros v [? _]%list_elem_of_filter. }
  assert (ballots_of (arc_Votes s0) = delete (signer, c) (ballots_of (arc_Votes s))) as Hb.
  { rewrite Hv. by apply ballots_delete. }
  pose proof (cast_spec s0 signer number c b Ht') as Hc.
  destruct (cast s0 c b) as [s1 counted]. destruct Hc as (Hcnt & Hf1 & Hv1 & Ht1).
  rewrite bool_decide_not in Hcnt.
  assert (same_frame s s1) as Hf2 by (unfold same_frame in *; naive_solver congruence).
  assert (arc_Signers s1 = arc_Signers s0) as Hsg1 by apply Hf1.
  unfold archive_abs, cast_ballot. cbn [bal_signers bal_votes].
  rewrite <- Hb. replace (arc_Signers s) with (arc_Signers s0).
  destruct counted.
  - assert (votes_wf (arc_Signers s0) (arc_Votes s0 ++ [mkVote signer number c b])) as Hwf1.
    { destruct Hwf0 as [H1 H2 H3]. split.
      - apply Forall_app; split; [done|]. by apply Forall_singleton.
      - apply Forall_app; split; [done|]. apply Forall_singleton. unfold vote_open. simpl.
        rewrite bool_decide_not. by destruct b, (bool_decide _).
      - rewrite fmap_app. apply NoDup_app. split; [done|]. split; [|apply NoDup_singleton].
        intros k (v & -> & Hvin)%list_elem_of_fmap Hk%list_elem_of_singleton. by apply (Hnk v). }
    cbn [arc_Signers arc_Votes arc_Tally set_Votes]. rewrite Hv1, Hsg1.
    split; [done|]. split; [done|]. split; [done|].
    rewrite ballots_snoc by apply Hwf1. cbn [vote_key vote_Signer vote_Address vote_Authorize].
    by destruct b, (bool_decide (c ∈ arc_Signers s0)).
  - rewrite Hv1, Hsg1. split; [done|]. split; [done|]. split; [done|].
    by destruct b, (bool_decide (c ∈ arc_Signers s0)).
Qed.

Lemma tally_of_filter_ne signers signers' votes c a :
  a ≠ c → (a ∈ signers ↔ a ∈ signers') →
  tally_of signers' (filter (fun v => vote_Address v ≠ c) votes) a = tally_of signers votes a.
Proof.
  intros Ha Hs. unfold tally_of, votes_on.
  replace (filter (λ v, vote_Address v = a) (filter (λ v, vote_Address v ≠ c) votes))
    with (filter (λ v, vote_Address v = a) votes).
  2: { symmetry. apply list_filter_filter_l. naive_solver. }
  case_match; [done|]. do 2 f_equal. apply bool_decide_ext. tauto.
Qed.

Lemma votes_wf_settle signers signers' votes votes' c :
  votes_wf signers votes →
  (∀ a, a ≠ c → a ∈ signers ↔ a ∈ signers') →
  votes' `sublist_of` votes →
  (∀ v, v ∈ votes' → v ∈ votes ∧ vote_Address v ≠ c ∧ vote_Signer v ∈ signers') →
  votes_wf signers' votes'.
Proof.
  intros [H1 H2 H3] Hs Hsub Hv. rewrite Forall_forall in H1, H2. split.
  - apply Forall_forall. naive_solver.
  - apply Forall_forall. intros v Hin. destruct (Hv v Hin) as (Hin' & Hne & _).
    unfold vote_open. rewrite (H2 v Hin'). apply bool_decide_ext. by rewrite Hs.
  - eapply sublist_NoDup; [exact H3|]. by apply fmap_sublist.
Qed.

(** Cutting the votes on [c] and its tally entry, for votes [votes] that agree
    with the tally and hold no vote of a voter outside [signers']. *)
Lemma settle_spec signers signers' votes tally c :
  votes_wf signers votes → tally_ok signers votes tally →
  (∀ a, a ≠ c → a ∈ signers ↔ a ∈ signers') →
  (∀ v, v ∈ votes → vote_Signer v ∈ signers') →
  votes_wf signers' (discardVotesOn c votes) ∧
  tally_ok signers' (discardVotesOn c votes) (delete c tally).
Proof.
  intros Hwf Ht Hs Hv. rewrite discardVotesOn_filter. split.
  - eapply votes_wf_settle; [done..|apply sublist_filter|].
    intros v [? ?]%list_elem_of_filter. auto.
  - intros a. destruct (decide (a = c)) as [->|Hne].
    + rewrite lookup_delete_eq. unfold tally_of, votes_on.
      rewrite list_filter_nil; [done|]. intros v [? _]%list_elem_of_filter. done.
    + rewrite lookup_delete_ne by done. rewrite (tally_of_filter_ne signers signers') by auto. apply Ht.
Qed.

Lemma passVote_refines number c tally s :
  votes_wf (arc_Signers s) (arc_Votes s) →
  tally_ok (arc_Signers s) (arc_Votes s) (arc_Tally s) →
  tly_Authorize tally = bool_decide (c ∉ arc_Signers s) →
  let S' := if decide (c ∈ arc_Signers s) then arc_Signers s ∖ {[c]} else {[c]} ∪ arc_Signers s in
  let s' := passVote number c tally s in
  arc_config s' = arc_config s ∧ arc_Number s' = arc_Number s ∧ arc_Hash s' = arc_Hash s ∧
  arc_Signers s' = S' ∧
  arc_Recents s' = (if decide (c ∈ arc_Signers s)
                    then arc_Recents (shiftRecents number (set_Signers S' s))
                    else arc_Recents s) ∧
  votes_wf S' (arc_Votes s') ∧ tally_ok S' (arc_Votes s') (arc_Tally s') ∧
  ballots_of (arc_Votes s') =
    filter (fun kb => kb.1.2 ≠ c ∧ kb.1.1 ∈ S') (ballots_of (arc_Votes s)).
Proof.
  intros Hwf Ht Ha. unfold passVote. rewrite Ha.
  pose proof (votes_wf_nodup _ _ Hwf) as Hnd.
  pose proof (proj1 (Forall_forall _ _) (votes_wf_signer _ _ Hwf)) as Hvs.
  rewrite bool_decide_not. destruct (decide (c ∈ arc_Signers s)) as [Hc|Hc]; simpl.
  - rewrite bool_decide_eq_true_2 by done. simpl.
    set (s1 := shiftRecents number (set_Signers (arc_Signers s ∖ {[c]}) s)).
    assert (arc_config s1 = arc_config s ∧ arc_Number s1 = arc_Number s ∧ arc_Hash s1 = arc_Hash s ∧
            arc_Signers s1 = arc_Signers s ∖ {[c]} ∧ arc_Votes s1 = arc_Votes s ∧ arc_Tally s1 = arc_Tally s)
      as (E1 & E2 & E3 & E4 & E5 & E6) by (subst s1; unfold shiftRecents; by case_match).
    rewrite <- E5, <- E6 in Ht. rewrite <- E5 in Hwf, Hnd, Hvs |- * .
    destruct (discardVotesBy_spec (arc_Signers s) c [] (arc_Votes s1) s1) as ((F1 & F2 & F3 & F4 & F5) & Ht2 & Hv2);
      [done..|].
    set (s2 := discardVotesBy c [] (arc_Votes s1) s1) in *. simpl app in Hv2.
    destruct (settle_spec (arc_Signers s) (arc_Signers s ∖ {[c]}) (arc_Votes s2) (arc_Tally s2) c) as [Hw3 Ht3].
    { rewrite Hv2. by apply votes_wf_filter. }
    { done. }
    { set_solver. }
    { rewrite Hv2. intros v [? ?%Hvs]%list_elem_of_filter. set_solver. }
    split; [congruence|]. split; [congruence|]. split; [congruence|]. split; [congruence|].
    split; [congruence|]. split; [done|]. split; [done|].
    rewrite discardVotesOn_filter, Hv2, list_filter_filter. apply ballots_filter; [done|].
    intros v ?%Hvs. simpl. set_solver.
  - rewrite bool_decide_eq_false_2 by done. simpl.
    destruct (settle_spec (arc_Signers s) ({[c]} ∪ arc_Signers s) (arc_Votes s) (arc_Tally s) c) as [Hw3 Ht3];
      [done|done|set_solver|set_solver|].
    split_and!; try done.
    rewrite discardVotesOn_filter. apply ballots_filter; [done|].
    intros v ?%Hvs. simpl. set_solver.
Qed.

(** ** Recent signers *)

Lemma signerLimit_pos s : 1 ≤ signerLimit s.
Proof. unfold signerLimit. assert (0 ≤ Z.of_nat (size (arc_Signers s)) / 2) by (apply Z.div_pos; lia). lia. Qed.

Lemma shiftRecents_lookup number s n a :
  arc_Recents (shiftRecents number s) !! n = Some a → arc_Recents s !! n = Some a.
Proof.
  unfold shiftRecents. case_match; [|done]. simpl. rewrite lookup_delete_Some. tauto.
Qed.

Lemma shiftRecents_inj number s :
  recents_inj (arc_Recents s) → recents_inj (arc_Recents (shiftRecents number s)).
Proof. intros Hi n m a ?%shiftRecents_lookup ?%shiftRecents_lookup. eauto. Qed.

Lemma shiftRecents_in number hi s :
  is_u64 number →
  recents_in (number - 1 - signerLimit s) hi (arc_Recents s) →
  recents_in (number - signerLimit s) hi (arc_Recents (shiftRecents number s)).
Proof.
  intros Hu Hr n a Hn. pose proof (signerLimit_pos s) as Hp.
  pose proof (Hr n a (shiftRecents_lookup _ _ _ _ Hn)) as Hb.
  unfold shiftRecents in Hn. destruct (Z.leb_spec (signerLimit s) number).
  - simpl in Hn. apply lookup_delete_Some in Hn as [Hne _].
    rewrite u64_small in Hne by (unfold is_u64 in *; lia). lia.
  - lia.
Qed.

Lemma window_all lo hi r : recents_in lo hi r → window lo r = r.
Proof. intros Hr. apply map_filter_id. intros n a Hn%Hr. simpl. lia. Qed.

(** Deleting one entry keeps exactly the window. *)
Lemma shiftRecents_window number hi s :
  is_u64 number →
  recents_in (number - 1 - signerLimit s) hi (arc_Recents s) →
  arc_Recents (shiftRecents number s) = window (number - signerLimit s) (arc_Recents s).
Proof.
  intros Hu Hr. pose proof (signerLimit_pos s) as Hp. unfold shiftRecents.
  destruct (Z.leb_spec (signerLimit s) number).
  - cbn [arc_Recents set_Recents]. rewrite u64_small by (unfold is_u64 in *; lia).
    apply map_eq. intros k. apply option_eq. intros a. unfold window.
    rewrite lookup_delete_Some, map_lookup_filter_Some. simpl. split; [|intros [? ?]; split; [lia|done]].
    intros [Hne Hk]. pose proof (Hr k a Hk). split; [done|lia].
  - symmetry. apply (window_all _ hi). intros k a Hk%Hr. lia.
Qed.

Lemma recents_in_weaken lo hi lo' hi' r :
  lo' ≤ lo → hi ≤ hi' → recents_in lo hi r → recents_in lo' hi' r.
Proof. intros ?? Hr n a Hn%Hr. lia. Qed.

Lemma recents_in_insert lo hi n a r :
  0 ≤ n → lo < n ≤ hi → recents_in lo hi r → recents_in lo hi (<[n := a]> r).
Proof. intros ? ? Hr m b [[-> ->]|[_ Hm%Hr]]%lookup_insert_Some; lia. Qed.

Lemma recents_inj_insert n a r :
  recents_inj r → ¬ map_Exists (fun _ b => b = a) r → recents_inj (<[n := a]> r).
Proof.
  intros Hi Hn k m b Hk Hm.
  assert (∀ j, r !! j = Some a → False) as Hno.
  { intros j Hj. apply Hn. rewrite map_Exists_lookup. eauto. }
  apply lookup_insert_Some in Hk, Hm. naive_solver.
Qed.

Lemma signerLimit_add s c :
  signerLimit s ≤ signerLimit (set_Signers ({[c]} ∪ arc_Signers s) s).
Proof.
  unfold signerLimit. simpl.
  assert (size (arc_Signers s) ≤ size ({[c]} ∪ arc_Signers s))%nat by (apply subseteq_size; set_solver).
  assert (Z.of_nat (size (arc_Signers s)) / 2 ≤ Z.of_nat (size ({[c]} ∪ arc_Signers s)) / 2)
    by (apply Z.div_le_mono; lia). lia.
Qed.

Lemma signerLimit_drop s c :
  signerLimit s - 1 ≤ signerLimit (set_Signers (arc_Signers s ∖ {[c]}) s).
Proof.
  unfold signerLimit. simpl.
  assert (size (arc_Signers s) ≤ size (arc_Signers s ∖ {[c]}) + 1)%nat as Hle.
  { rewrite <- (size_singleton (C := gset Address) c).
    rewrite <- size_union by set_solver. apply subseteq_size.
    intros x Hx. destruct (decide (x = c)); set_solver. }
  assert (Z.of_nat (size (arc_Signers s)) / 2 ≤ (Z.of_nat (size (arc_Signers s ∖ {[c]})) + 1 * 2) / 2) as H
    by (apply Z.div_le_mono; lia).
  rewrite Z.div_add in H by lia. lia.
Qed.

(** The remembered signatures after [passVote]. *)
Lemma passVote_recents number c tally s :
  is_u64 number →
  votes_wf (arc_Signers s) (arc_Votes s) →
  tally_ok (arc_Signers s) (arc_Votes s) (arc_Tally s) →
  tly_Authorize tally = bool_decide (c ∉ arc_Signers s) →
  recents_wf number s → recents_wf number (passVote number c tally s).
Proof.
  intros Hu Hwf Ht Ha [Hw Hi].
  destruct (passVote_refines number c tally s Hwf Ht Ha) as (_ & _ & _ & HS & HR & _).
  set (s' := passVote number c tally s) in *.
  destruct (decide (c ∈ arc_Signers s)).
  - set (s1 := set_Signers (arc_Signers s ∖ {[c]}) s) in *.
    assert (signerLimit s' = signerLimit s1) as HL by (unfold signerLimit; by rewrite HS).
    pose proof (signerLimit_drop s c) as Hd. fold s1 in Hd. split.
    + rewrite HL, HR. apply shiftRecents_in; [done|].
      eapply recents_in_weaken; [| |exact Hw]; lia.
    + rewrite HR. by apply shiftRecents_inj.
  - set (s1 := set_Signers ({[c]} ∪ arc_Signers s) s) in *.
    assert (signerLimit s' = signerLimit s1) as HL by (unfold signerLimit; by rewrite HS).
    pose proof (signerLimit_add s c) as Hd. fold s1 in Hd. split.
    + rewrite HL, HR. eapply recents_in_weaken; [| |exact Hw]; lia.
    + by rewrite HR.
Qed.

Lemma passVote_window number c tally s :
  is_u64 number →
  votes_wf (arc_Signers s) (arc_Votes s) →
  tally_ok (arc_Signers s) (arc_Votes s) (arc_Tally s) →
  tly_Authorize tally = bool_decide (c ∉ arc_Signers s) →
  recents_wf number s →
  arc_Recents (passVote number c tally s) =
    window (number - signerLimit (passVote number c tally s)) (arc_Recents s).
Proof.
  intros Hu Hwf Ht Ha Hr. pose proof (passVote_recents number c tally s Hu Hwf Ht Ha Hr) as [Hw' _].
  destruct (passVote_refines number c tally s Hwf Ht Ha) as (_ & _ & _ & HS & HR & _).
  set (s' := passVote number c tally s) in *. destruct Hr as [Hw Hi].
  destruct (decide (c ∈ arc_Signers s)).
  - set (s1 := set_Signers (arc_Signers s ∖ {[c]}) s) in *.
    assert (signerLimit s' = signerLimit s1) as -> by (unfold signerLimit; by rewrite HS).
    pose proof (signerLimit_drop s c) as Hd. fold s1 in Hd. rewrite HR.
    change (arc_Recents s) with (arc_Recents s1). apply (shiftRecents_window _ number); [done|]. eapply recents_in_weaken; [| |exact Hw]; lia.
  - rewrite HR in *. symmetry. by apply (window_all _ number).
Qed.

(** ** Refinement *)

(** The archive after the checkpoint reset and the shift of the recent signers,
    before the signer of the header is checked. *)
Definition enterBlock (s : Archive) (number : Z) : Archive :=
  shiftRecents number
    (if number mod Epoch (arc_config s) =? 0 then set_Tally ∅ (set_Votes [] s) else s).

(** The archive after the vote of the header is recorded. *)
Definition recordVote (s : Archive) (number : Z) (signer c : Address) (authorize : bool) : Archive :=
  let s := set_Recents (<[number := signer]> (arc_Recents s)) s in
  let '(s1, counted) := cast (discardVote signer c [] (arc_Votes s) s) c authorize in
  if counted then set_Votes (arc_Votes s1 ++ [mkVote signer number c authorize]) s1 else s1.

Definition passes (s : Archive) (c : Address) : bool :=
  Z.of_nat (size (arc_Signers s)) / 2 <? tly_Votes (default (mkTally false 0) (arc_Tally s !! c)).

Definition settleVote (s : Archive) (number : Z) (c : Address) : Archive :=
  if passes s c
  then passVote number c (default (mkTally false 0) (arc_Tally s !! c)) s
  else s.

Section Refinement.
Context `{Seals}.

(** [applyHeader] in its four parts. *)
Lemma applyHeader_eq s h :
  applyHeader s h =
    (number ← headerNumber h;
     _ ← u64_rem number (Epoch (arc_config s));
     signer ← ecrecover_of h;
     let s0 := enterBlock s number in
     _ ← fail_if (negb (bool_decide (signer ∈ arc_Signers s0))) errUnauthorized;
     _ ← fail_if (recentlySigned s0 signer) errUnauthorized;
     authorize ← nonceVote (hdr_Nonce h);
     Ok (settleVote (recordVote s0 number signer (hdr_Coinbase h) authorize) number (hdr_Coinbase h))).
Proof.
  unfold applyHeader, applyHeaderWith. destruct (headerNumber h) as [number| |]; [|done|done].
  rewrite !bind_Ok. unfold u64_rem. destruct (_ =? 0); [done|]. rewrite !bind_Ok.
  destruct (ecrecover_of h) as [signer| |]; [|done|done]. rewrite !bind_Ok. fold (enterBlock s number).
  cbv zeta. destruct (fail_if (negb _) _) as [[]| |]; [|done|done]. rewrite !bind_Ok.
  destruct (fail_if _ _) as [[]| |]; [|done|done]. rewrite !bind_Ok.
  destruct (nonceVote _) as [authorize| |]; [|done|done]. rewrite !bind_Ok.
  unfold settleVote, recordVote, passes. destruct (cast _ _ _) as [s1 counted].
  cbv beta iota zeta. by destruct (_ <? _).
Qed.

(** When [applyHeader] accepts a header. *)
Lemma applyHeader_ok s h s' :
  applyHeader s h = Ok s' ↔
  ∃ number signer authorize,
    headerNumber h = Ok number ∧ Epoch (arc_config s) ≠ 0 ∧
    ecrecover_of h = Ok signer ∧ nonceVote (hdr_Nonce h) = Ok authorize ∧
    let s0 := enterBlock s number in
    signer ∈ arc_Signers s0 ∧ recentlySigned s0 signer = false ∧
    s' = settleVote (recordVote s0 number signer (hdr_Coinbase h) authorize) number (hdr_Coinbase h).
Proof.
  unfold applyHeader, applyHeaderWith, settleVote, recordVote, enterBlock, passes. split.
  - intros Hok. outcome_inv. rename x into number.
    match goal with Hr : u64_rem _ _ = Ok _ |- _ => apply u64_rem_ok in Hr as [? ->] end.
    match goal with Hb : negb _ = false |- _ => apply negb_false_iff, bool_decide_eq_true in Hb end.
    do 3 eexists. split; [done|]. split; [done|]. split; [done|]. split; [done|]. split; [done|]. split; [done|].
    destruct (cast _ _ _) as [s1 counted]. by case_match; simplify_eq.
  - intros (number & signer & authorize & Hn & HE & Hs & Ha & Hin & Hr & ->).
    rewrite Hn, bind_Ok. unfold u64_rem. destruct (Z.eqb_spec (Epoch (arc_config s)) 0); [done|].
    rewrite bind_Ok, Hs, bind_Ok, bool_decide_eq_true_2 by done. cbn [negb fail_if].
    rewrite bind_Ok, Hr. cbn [fail_if]. rewrite bind_Ok, Ha, bind_Ok.
    destruct (cast _ _ _) as [s1 counted]. cbv beta iota zeta. by destruct (_ <? _).
Qed.

(** Whose ballots on the candidate are open after a vote on it. *)
Lemma cast_supporters b signer c auth a :
  a ∈ supporters (bal_votes (cast_ballot b signer c auth)) c →
  a = signer ∧ auth = bool_decide (c ∉ bal_signers b) ∨ a ≠ signer ∧ (a, c) ∈ dom (bal_votes b).
Proof.
  intros ([a' c'] & -> & [Hc Hd]%elem_of_filter)%elem_of_map. simpl in *. subst c'.
  unfold cast_ballot in Hd. simpl in Hd. rewrite bool_decide_not.
  destruct (Bool.eqb _ _) eqn:E; [set_solver|]. apply eqb_false_iff in E.
  destruct (decide (a' = signer)); [left|set_solver]. split; [done|]. by destruct auth, (bool_decide _).
Qed.

Lemma enterBlock_abs s number :
  archive_abs (enterBlock s number) =
  if number mod Epoch (arc_config s) =? 0 then checkpoint_step (archive_abs s) else archive_abs s.
Proof. unfold enterBlock, shiftRecents. by repeat case_match. Qed.

Lemma enterBlock_wf s n :
  is_u64 (n + 1) → archive_wf n s →
  let s0 := enterBlock s (n + 1) in
  votes_wf (arc_Signers s0) (arc_Votes s0) ∧
  tally_ok (arc_Signers s0) (arc_Votes s0) (arc_Tally s0) ∧
  recents_in (n + 1 - signerLimit s0) n (arc_Recents s0) ∧ recents_inj (arc_Recents s0) ∧
  arc_Signers s0 = arc_Signers s.
Proof.
  intros Hu [Hw Ht [Hr Hi]]. unfold enterBlock.
  set (s1 := if _ =? 0 then _ else s).
  assert (arc_Signers s1 = arc_Signers s ∧ arc_Recents s1 = arc_Recents s ∧
          votes_wf (arc_Signers s1) (arc_Votes s1) ∧ tally_ok (arc_Signers s1) (arc_Votes s1) (arc_Tally s1))
    as (E1 & E2 & Hw1 & Ht1).
  { subst s1. case_match; [|done]. split; [done|]. split; [done|]. split; [|done].
    split; constructor. }
  assert (signerLimit s1 = signerLimit s) as E3 by (unfold signerLimit; by rewrite E1).
  assert (signerLimit (shiftRecents (n + 1) s1) = signerLimit s1 ∧
          arc_Signers (shiftRecents (n + 1) s1) = arc_Signers s1 ∧
          arc_Votes (shiftRecents (n + 1) s1) = arc_Votes s1 ∧
          arc_Tally (shiftRecents (n + 1) s1) = arc_Tally s1) as (E4 & E5 & E6 & E7)
    by (unfold shiftRecents, signerLimit; by case_match).
  rewrite E4, E5, E6, E7. split; [done|]. split; [done|]. split; [|split; [|done]].
  - apply shiftRecents_in; [done|]. rewrite E2, E3.
    eapply recents_in_weaken; [| |exact Hr]; lia.
  - apply shiftRecents_inj. by rewrite E2.
Qed.

Lemma tally_passes s c :
  tally_ok (arc_Signers s) (arc_Votes s) (arc_Tally s) → NoDup (vote_key <$> arc_Votes s) →
  passes s c = true ↔ (size (arc_Signers s) / 2 < size (supporters (ballots_of (arc_Votes s)) c))%nat.
Proof.
  intros Ht Hnd. unfold passes. rewrite supporters_size by done. rewrite Ht. unfold tally_of.
  rewrite Z.ltb_lt. change 2 with (Z.of_nat 2). rewrite <- Nat2Z.inj_div.
  case_match; simpl; lia.
Qed.

Lemma tally_direction s c :
  tally_ok (arc_Signers s) (arc_Votes s) (arc_Tally s) → passes s c = true →
  tly_Authorize (default (mkTally false 0) (arc_Tally s !! c)) = bool_decide (c ∉ arc_Signers s).
Proof.
  intros Ht. unfold passes. rewrite Ht. unfold tally_of. case_match; [|done]. simpl.
  intros ?%Z.ltb_lt. assert (0 ≤ Z.of_nat (size (arc_Signers s)) / 2) by (apply Z.div_pos; lia). lia.
Qed.

(** Once the sealer is admitted, recording its vote and settling is one step of
    the abstract protocol, and the invariant is kept. *)
Lemma admitted_step n s signer c authorize :
  is_u64 (n + 1) → 0 ≤ n → archive_wf n s →
  let s0 := enterBlock s (n + 1) in
  signer ∈ arc_Signers s0 → recentlySigned s0 signer = false →
  let s' := settleVote (recordVote s0 (n + 1) signer c authorize) (n + 1) c in
  archive_abs s' = vote_step (archive_abs s0) signer c authorize ∧
  archive_wf (n + 1) s' ∧
  arc_Recents s' = window (n + 1 - signerLimit s') (<[n + 1 := signer]> (arc_Recents s0)).
Proof.
  intros Hu Hn0 Hwf. pose proof (enterBlock_wf s n Hu Hwf) as (Hw0 & Ht0 & Hri0 & Hinj0 & Hsg0).
  cbv zeta. set (s0 := enterBlock s (n + 1)) in *. intros Hin Hr. unfold recordVote.
  set (s1 := set_Recents (<[n + 1 := signer]> (arc_Recents s0)) s0).
  pose proof (recordVote_refines s1 signer (n + 1) c authorize Hw0 Ht0 Hin) as Hrec.
  destruct (cast _ _ _) as [s2 counted]. destruct Hrec as ((F1 & F2 & F3 & F4 & F5) & Hw3 & Ht3 & Habs3).
  set (s3 := if counted then _ else s2) in *. change (<[_ := _]> (arc_Recents s0)) with (arc_Recents s1).
  assert (recents_wf (n + 1) s3) as Hr3.
  { assert (signerLimit s3 = signerLimit s0) as HL by (unfold signerLimit; by rewrite F4).
    pose proof (signerLimit_pos s0). split; rewrite ?HL, F5; simpl.
    - apply recents_in_insert; [lia|lia|]. eapply recents_in_weaken; [| |exact Hri0]; lia.
    - apply recents_inj_insert; [done|]. by apply bool_decide_eq_false in Hr. }
  change (archive_abs s0) with (archive_abs s1). unfold vote_step. rewrite <- Habs3, <- F5.
  unfold settleVote, settle. cbn [archive_abs bal_signers bal_votes].
  pose proof (tally_passes s3 c Ht3 (votes_wf_nodup _ _ Hw3)) as Hp.
  destruct (passes s3 c) eqn:Hpass.
  - rewrite decide_True by (by apply Hp).
    pose proof (tally_direction s3 c Ht3 Hpass) as Hdir.
    pose proof (passVote_recents (n + 1) c _ s3 Hu Hw3 Ht3 Hdir Hr3) as Hr4.
    pose proof (passVote_window (n + 1) c _ s3 Hu Hw3 Ht3 Hdir Hr3) as Hwin.
    destruct (passVote_refines (n + 1) c _ s3 Hw3 Ht3 Hdir) as (_ & _ & _ & HS & _ & Hw4 & Ht4 & Hb4).
    set (s4 := passVote (n + 1) c _ s3) in *. split; [|split; [|done]].
    + unfold archive_abs. by rewrite HS, Hb4.
    + split; [by rewrite HS|by rewrite HS|done].
  - rewrite decide_False by (rewrite <- Hp; done). split; [done|]. split; [by split|].
    symmetry. eapply window_all, Hr3.
Qed.

(** An accepted header is one abstract step, and the invariant is kept. *)
Lemma applyHeader_step n s h s' :
  is_u64 (n + 1) → 0 ≤ n → archive_wf n s → headerNumber h = Ok (n + 1) →
  applyHeader s h = Ok s' →
  ∃ signer authorize,
    ecrecover_of h = Ok signer ∧ nonceVote (hdr_Nonce h) = Ok authorize ∧
    signer ∈ arc_Signers s ∧
    archive_abs s' =
      vote_step (if (n + 1) mod Epoch (arc_config s) =? 0
                 then checkpoint_step (archive_abs s) else archive_abs s)
                signer (hdr_Coinbase h) authorize ∧
    archive_wf (n + 1) s'.
Proof.
  intros Hu Hn0 Hwf Hnum (number & signer & authorize & Hn & HE & Hs & Ha & Hin & Hr & ->)%applyHeader_ok.
  rewrite Hnum in Hn. injection Hn as <-. exists signer, authorize.
  destruct (admitted_step n s signer (hdr_Coinbase h) authorize Hu Hn0 Hwf Hin Hr) as (Habs & Hwf' & _).
  pose proof (enterBlock_wf s n Hu Hwf) as (_ & _ & _ & _ & Hsg0).
  rewrite <- enterBlock_abs. split_and!; try done. by rewrite <- Hsg0.
Qed.

Lemma nonceVote_ballot nonce :
  nonceVote nonce = match nonce_ballot nonce with Some b => Ok b | None => Err errInvalidVote end.
Proof. unfold nonceVote, nonce_ballot. by repeat case_decide; repeat case_bool_decide. Qed.

Lemma enterBlock_recents n s :
  is_u64 (n + 1) → archive_wf n s →
  arc_Recents (enterBlock s (n + 1)) = window (n + 1 - signerLimit s) (arc_Recents s).
Proof.
  intros Hu [_ _ [Hr _]]. unfold enterBlock. set (s1 := if _ =? 0 then _ else s).
  assert (arc_Recents s1 = arc_Recents s ∧ signerLimit s1 = signerLimit s) as [E1 E2]
    by (subst s1; by case_match).
  rewrite <- E1, <- E2 in *. apply (shiftRecents_window _ n); [done|].
  eapply recents_in_weaken; [| |exact Hr]; lia.
Qed.

(** C19. One header of [apply] is one block of the abstract voting protocol,
    whatever its outcome.  On an archive that satisfies the invariant, what
    [applyHeader] returns for the next header is what [seal_step] prescribes:
    the header is refused with [errUnauthorized] exactly when its sealer is no
    signer or has sealed a block of the window, with [errInvalidVote] when the
    nonce of an admitted sealer is no vote, and with the error of the seal when
    that does not recover; an accepted one casts the vote of its nonce on its
    coinbase, settles it, and is remembered in the new window.  The invariant
    holds again, so the tally the code keeps always counts the distinct voters
    for each candidate. *)
Theorem applyHeader_refines n s h :
  is_u64 (n + 1) → 0 ≤ n → archive_wf n s → headerNumber h = Ok (n + 1) →
  (s' ← applyHeader s h; Ok (archive_protocol s')) =
    seal_step (Epoch (arc_config s)) (n + 1) (archive_protocol s) (ecrecover_of h)
      (hdr_Coinbase h) (hdr_Nonce h) ∧
  (∀ s', applyHeader s h = Ok s' → archive_wf (n + 1) s').
Proof.
  intros Hu Hn0 Hwf Hnum. split.
  2: { intros s' (? & ? & ? & ? & ? & ? & ?)%(applyHeader_step n); done. }
  rewrite applyHeader_eq, Hnum. unfold seal_step, u64_rem. rewrite bind_Ok.
  destruct (Z.eqb_spec (Epoch (arc_config s)) 0) as [->|HE]; [done|]. rewrite bind_Ok, decide_False by done.
  replace (if decide _ then _ else _) with (archive_abs (enterBlock s (n + 1))).
  2: { rewrite enterBlock_abs. by destruct (Z.eqb_spec ((n + 1) mod Epoch (arc_config s)) 0); case_decide. }
  pose proof (enterBlock_wf s n Hu Hwf) as (_ & _ & _ & _ & Hsg0).
  assert (ballot_limit (archive_abs (enterBlock s (n + 1))) = signerLimit s) as HL
    by (unfold ballot_limit; cbn [archive_abs bal_signers]; by rewrite Hsg0).
  cbv zeta. rewrite HL. cbn [pr_recents archive_protocol]. rewrite <- enterBlock_recents by done.
  destruct (ecrecover_of h) as [signer| |]; [|done|done]. rewrite !bind_Ok.
  pose proof (admitted_step n s signer (hdr_Coinbase h)) as Hstep. cbv zeta in Hstep.
  set (s0 := enterBlock s (n + 1)) in *. cbn [archive_abs bal_signers].
  case_decide as Hd.
  - destruct Hd as [Hd|Hd]; [by rewrite bool_decide_eq_false_2|].
    destruct (bool_decide (signer ∈ _)); [|done]. unfold recentlySigned. by rewrite bool_decide_eq_true_2.
  - assert (signer ∈ arc_Signers s0) as Hin by (destruct (decide (signer ∈ arc_Signers s0)); tauto).
    assert (recentlySigned s0 signer = false) as Hr by (apply bool_decide_eq_false; tauto).
    rewrite bool_decide_eq_true_2, Hr, nonceVote_ballot by done. cbn [negb fail_if]. rewrite !bind_Ok.
    destruct (nonce_ballot _) as [authorize|]; [|done]. rewrite !bind_Ok.
    destruct (Hstep authorize Hu Hn0 Hwf Hin Hr) as (Habs & _ & Hrec).
    unfold archive_protocol. by rewrite Hrec, <- Habs.
Qed.

(** C34. A majority decides.  When an accepted header changes the signer set, it
    changes it by exactly the header's coinbase, and more than half of the
    signers, each counted once, voted for exactly this change: the sealer of
    this header with the vote of this header, and other signers by a vote that
    was pending in the archive and that no checkpoint has dropped. *)
Theorem applyHeader_majority n s h s' :
  is_u64 (n + 1) → 0 ≤ n → archive_wf n s → headerNumber h = Ok (n + 1) →
  applyHeader s h = Ok s' → arc_Signers s' ≠ arc_Signers s →
  let c := hdr_Coinbase h in
  arc_Signers s' = (if decide (c ∈ arc_Signers s) then arc_Signers s ∖ {[c]} else {[c]} ∪ arc_Signers s) ∧
  ∃ V : gset Address,
    V ⊆ arc_Signers s ∧ (size (arc_Signers s) < 2 * size V)%nat ∧
    ∀ a, a ∈ V →
      if decide (ecrecover_of h = Ok a)
      then nonceVote (hdr_Nonce h) = Ok (bool_decide (c ∉ arc_Signers s))
      else (n + 1) mod Epoch (arc_config s) ≠ 0 ∧
           ∃ v, v ∈ arc_Votes s ∧ vote_Signer v = a ∧ vote_Address v = c ∧
                vote_Authorize v = bool_decide (c ∉ arc_Signers s).
Proof.
  intros Hu Hn0 Hwf Hnum Happ Hch c.
  destruct (applyHeader_step n s h s' Hu Hn0 Hwf Hnum Happ) as (signer & auth & Hrec & Hauth & Hin & Habs & _).
  set (b := if _ =? 0 then _ else _) in Habs.
  assert (bal_signers b = arc_Signers s) as Hbs by (subst b; by case_match).
  assert (∀ k, k ∈ dom (bal_votes b) →
    (n + 1) mod Epoch (arc_config s) ≠ 0 ∧ k ∈ dom (ballots_of (arc_Votes s))) as Hbd.
  { subst b. destruct (Z.eqb_spec ((n + 1) mod Epoch (arc_config s)) 0); [simpl; set_solver|done]. }
  pose proof (f_equal bal_signers Habs) as HS. simpl in HS. rewrite HS. rewrite HS in Hch.
  unfold vote_step, settle in *. fold c in Hch |- *.
  replace (bal_signers (cast_ballot b signer c auth)) with (arc_Signers s) in *.
  set (bv := bal_votes (cast_ballot b signer c auth)) in *.
  destruct (decide (_ < _)%nat) as [Hlt|]; [|simpl in Hch; congruence]. split; [done|].
  pose proof (cast_supporters b signer c auth) as Hsup. fold bv in Hsup. rewrite Hbs in Hsup.
  destruct Hwf as [[Hvs Hvo _] _ _]. rewrite Forall_forall in Hvs, Hvo.
  exists (supporters bv c). split; [|split].
  - intros a [[-> _]|[_ [_ (v & Hv & [= <- _])%ballots_dom]%Hbd]]%Hsup; auto.
  - pose proof (Nat.div_mod_eq (size (arc_Signers s)) 2).
    pose proof (Nat.mod_upper_bound (size (arc_Signers s)) 2). lia.
  - intros a [[-> ->]|[Hne [HE (v & Hv & [= <- Hc])%ballots_dom]%Hbd]]%Hsup.
    + by rewrite decide_True by done.
    + rewrite decide_False by congruence. split; [done|].
      exists v. split_and!; try done. by rewrite (Hvo v Hv), Hc.
Qed.

End Refinement.
