(* ===== verification/DposReplay.v ===== *)
(** * Replaying headers on an archive

    [apply] of src/agreement/epvdpos/archive.go over whole header chains: the
    invariant along a chain, splitting a replay at any point, and concrete
    instances for the theorems on single headers. *)

From S2P Require Import Prelude Types DposArchive DposVoting.
From stdpp Require Import base tactics option list numbers gmap sorting.
From Stdlib Require Import ZArith Lia.

#[local] Open Scope Z_scope.

(** ** Block number and hash do not influence the votes *)

Definition with_head (number : Z) (hash : Hash) (s : Archive) : Archive :=
  mkArchive (arc_config s) number hash (arc_Signers s) (arc_Recents s) (arc_Votes s) (arc_Tally s).

Lemma uncast_with_head n x s a b :
  fst (uncast (with_head n x s) a b) = with_head n x (fst (uncast s a b)).
Proof. unfold uncast. cbn [arc_Tally with_head]. by repeat case_match. Qed.

Lemma discardVote_with_head n x signer c before votes s :
  discardVote signer c before votes (with_head n x s) =
  with_head n x (discardVote signer c before votes s).
Proof.
  revert before. induction votes as [|v votes IH]; intros before; simpl; [done|].
  case_bool_decide; [|apply IH]. by rewrite uncast_with_head.
Qed.

Lemma discardVotesBy_with_head n x c before votes s :
  discardVotesBy c before votes (with_head n x s) =
  with_head n x (discardVotesBy c before votes s).
Proof.
  revert before s. induction votes as [|v votes IH]; intros before s; simpl; [done|].
  case_bool_decide; [|apply IH]. by rewrite uncast_with_head, IH.
Qed.

Lemma shiftRecents_with_head n x number s :
  shiftRecents number (with_head n x s) = with_head n x (shiftRecents number s).
Proof.
  unfold shiftRecents. change (signerLimit (with_head n x s)) with (signerLimit s). by case_match.
Qed.

Lemma cast_with_head n x s c b :
  cast (with_head n x s) c b = prod_map (with_head n x) id (cast s c b).
Proof.
  unfold cast. change (validVote (with_head n x s) c b) with (validVote s c b).
  cbn [arc_Tally with_head]. by repeat case_match.
Qed.

Lemma passVote_with_head n x number c t s :
  passVote number c t (with_head n x s) = with_head n x (passVote number c t s).
Proof.
  unfold passVote. case_match; [done|].
  change (set_Signers ?S (with_head n x s)) with (with_head n x (set_Signers S s)).
  rewrite shiftRecents_with_head. cbn [arc_Votes with_head]. by rewrite discardVotesBy_with_head.
Qed.

Section Replay.
Context `{Seals}.

Lemma enterBlock_with_head n x number s :
  enterBlock (with_head n x s) number = with_head n x (enterBlock s number).
Proof.
  unfold enterBlock. cbn [arc_config with_head].
  rewrite <- shiftRecents_with_head. f_equal. by case_match.
Qed.

Lemma recordVote_with_head n x s number signer c b :
  recordVote (with_head n x s) number signer c b = with_head n x (recordVote s number signer c b).
Proof.
  unfold recordVote.
  change (set_Recents ?r (with_head n x s)) with (with_head n x (set_Recents r s)).
  cbn [arc_Recents with_head]. set (s1 := set_Recents _ s).
  cbn [arc_Votes with_head]. rewrite discardVote_with_head, cast_with_head.
  destruct (cast _ _ _) as [s2 counted]. by destruct counted.
Qed.

Lemma settleVote_with_head n x s number c :
  settleVote (with_head n x s) number c = with_head n x (settleVote s number c).
Proof.
  unfold settleVote. change (passes (with_head n x s) c) with (passes s c).
  case_match; [|done]. cbn [arc_Tally with_head]. by rewrite passVote_with_head.
Qed.

Lemma applyHeader_with_head_eq n x s h :
  applyHeader (with_head n x s) h = (s' ← applyHeader s h; Ok (with_head n x s')).
Proof.
  rewrite !applyHeader_eq. cbn [arc_config with_head].
  destruct (headerNumber h) as [number| |]; [|done|done]. rewrite !bind_Ok.
  destruct (u64_rem _ _); [|done|done]. rewrite !bind_Ok.
  destruct (ecrecover_of h) as [signer| |]; [|done|done]. rewrite !bind_Ok. cbv zeta.
  rewrite enterBlock_with_head. change (recentlySigned (with_head n x ?s0)) with (recentlySigned s0).
  cbn [arc_Signers with_head]. destruct (fail_if (negb _) _) as [[]| |]; [|done|done]. rewrite !bind_Ok.
  destruct (fail_if _ _) as [[]| |]; [|done|done]. rewrite !bind_Ok.
  destruct (nonceVote _) as [authorize| |]; [|done|done].
  by rewrite !bind_Ok, recordVote_with_head, settleVote_with_head.
Qed.

Lemma applyHeader_with_head n x s h s' :
  applyHeader s h = Ok s' → applyHeader (with_head n x s) h = Ok (with_head n x s').
Proof. intros Hs. by rewrite applyHeader_with_head_eq, Hs. Qed.

Lemma applyHeaders_with_head_eq n x hs s :
  applyHeaders (with_head n x s) hs = (s' ← applyHeaders s hs; Ok (with_head n x s')).
Proof.
  revert s. induction hs as [|h hs IH]; intros s; cbn [applyHeaders]; [done|].
  rewrite applyHeader_with_head_eq. destruct (applyHeader s h); [|done|done]. by rewrite !bind_Ok.
Qed.

Lemma applyHeaders_with_head n x hs s s' :
  applyHeaders s hs = Ok s' → applyHeaders (with_head n x s) hs = Ok (with_head n x s').
Proof. intros Hs. by rewrite applyHeaders_with_head_eq, Hs. Qed.

Lemma applyHeader_head s h s' :
  applyHeader s h = Ok s' → arc_Number s' = arc_Number s ∧ arc_Hash s' = arc_Hash s.
Proof.
  intros Hs. pose proof (applyHeader_with_head (arc_Number s) (arc_Hash s) s h s' Hs) as Hw.
  replace (with_head (arc_Number s) (arc_Hash s) s) with s in Hw by (by destruct s).
  rewrite Hs in Hw. injection Hw as Hw. by rewrite Hw.
Qed.

Lemma uncast_config s a b : arc_config (fst (uncast s a b)) = arc_config s.
Proof. unfold uncast. by repeat case_match. Qed.

Lemma discardVote_config signer c before votes s :
  arc_config (discardVote signer c before votes s) = arc_config s.
Proof.
  revert before. induction votes as [|v votes IH]; intros before; cbn; [done|].
  case_bool_decide; [|apply IH]. cbn. apply uncast_config.
Qed.

Lemma discardVotesBy_config c before votes s :
  arc_config (discardVotesBy c before votes s) = arc_config s.
Proof.
  revert before s. induction votes as [|v votes IH]; intros before s; cbn; [done|].
  case_bool_decide; rewrite IH; [apply uncast_config|done].
Qed.

Lemma settleVote_config s number c : arc_config (settleVote s number c) = arc_config s.
Proof.
  unfold settleVote, passVote. case_match; [|done]. cbn. case_match; [done|].
  rewrite discardVotesBy_config. unfold shiftRecents. by case_match.
Qed.

Lemma recordVote_config s number signer c b : arc_config (recordVote s number signer c b) = arc_config s.
Proof.
  unfold recordVote, cast. repeat case_match; simplify_eq/=; rewrite discardVote_config; done.
Qed.

Lemma enterBlock_config s number : arc_config (enterBlock s number) = arc_config s.
Proof. unfold enterBlock, shiftRecents. by repeat case_match. Qed.

Lemma applyHeader_config s h s' : applyHeader s h = Ok s' → arc_config s' = arc_config s.
Proof.
  intros (number & signer & b & _ & _ & _ & _ & _ & _ & ->)%applyHeader_ok.
  by rewrite settleVote_config, recordVote_config, enterBlock_config.
Qed.

Lemma applyHeaders_head s hs s' :
  applyHeaders s hs = Ok s' → arc_Number s' = arc_Number s ∧ arc_Hash s' = arc_Hash s.
Proof.
  revert s. induction hs as [|h hs IH]; intros s; cbn [applyHeaders]; [naive_solver|].
  intros (s1 & [E1 E2]%applyHeader_head & [E3 E4]%IH)%bind_ok. split; congruence.
Qed.

(** ** What [apply] accepts *)

(** The headers are numbered [n], [n+1], ... *)
Fixpoint numbered_from (n : Z) (hs : list Header) : Prop :=
  match hs with
  | [] => True
  | h :: hs => headerNumber h = Ok n ∧ numbered_from (n + 1)%u64 hs
  end.

Lemma contiguous_ok h hs n :
  headerNumber h = Ok n → contiguous (h :: hs) = Ok tt ↔ numbered_from (n + 1)%u64 hs.
Proof.
  revert h n. induction hs as [|h1 hs IH]; intros h n Hn; [done|].
  change (contiguous (h :: h1 :: hs)) with
    (n1 ← headerNumber h1; n0 ← headerNumber h;
     _ ← fail_if (negb (n1 =? (n0 + 1)%u64)) errInvalidVotingChain; contiguous (h1 :: hs)).
  rewrite Hn. cbn [numbered_from]. split.
  - intros Hc. outcome_inv. match goal with Hb : negb _ = false |- _ => apply negb_false_iff, Z.eqb_eq in Hb as -> end.
    split; [done|]. by eapply IH.
  - intros [H1 Hr]. rewrite H1, bind_Ok, bind_Ok, Z.eqb_refl. cbn [negb fail_if]. rewrite bind_Ok. by eapply IH.
Qed.

(** The archive that [apply] returns after replaying [hs] up to [a]. *)
Definition sealed (hs : list Header) (a : Archive) : Archive :=
  match hs with
  | [] => a
  | h0 :: _ => with_head (arc_Number a + Z.of_nat (length hs))%u64 (header_Hash (default h0 (last hs))) a
  end.

Lemma archive_apply_ok s hs s' :
  archive_apply s hs = Ok s' ↔
  numbered_from (arc_Number s + 1)%u64 hs ∧ ∃ a, applyHeaders s hs = Ok a ∧ s' = sealed hs a.
Proof.
  destruct hs as [|h0 hs].
  - cbn. naive_solver.
  - unfold archive_apply. cbn [numbered_from]. split.
    + intros Hok. outcome_inv.
      match goal with Hb : negb _ = false |- _ => apply negb_false_iff, Z.eqb_eq in Hb end. subst.
      split; [split; [done|]|by eauto].
      match goal with
      | Hn : headerNumber h0 = Ok _, Hc : contiguous _ = _ |- _ => by apply (contiguous_ok _ _ _ Hn) in Hc
      end.
    + intros [[Hn Hr] (a & Ha & ->)]. destruct (contiguous_ok h0 hs _ Hn) as [_ Hc].
      rewrite (Hc Hr), bind_Ok, Hn, bind_Ok, Z.eqb_refl. cbn [negb fail_if].
      by rewrite bind_Ok, Ha, bind_Ok.
Qed.

Lemma numbered_from_app n hs1 hs2 :
  is_u64 n →
  numbered_from n (hs1 ++ hs2) ↔
  numbered_from n hs1 ∧ numbered_from (n + Z.of_nat (length hs1))%u64 hs2.
Proof.
  revert n. induction hs1 as [|h hs1 IH]; intros n Hn; cbn [numbered_from app length].
  - rewrite Z.add_0_r, u64_small by done. tauto.
  - rewrite IH by apply u64_range.
    replace ((n + 1)%u64 + Z.of_nat (length hs1))%u64 with (n + Z.of_nat (S (length hs1)))%u64; [tauto|].
    unfold u64. rewrite Zplus_mod_idemp_l. f_equal. lia.
Qed.

Lemma applyHeaders_app s hs1 hs2 s' :
  applyHeaders s (hs1 ++ hs2) = Ok s' ↔ ∃ s1, applyHeaders s hs1 = Ok s1 ∧ applyHeaders s1 hs2 = Ok s'.
Proof.
  revert s. induction hs1 as [|h hs1 IH]; intros s; cbn [applyHeaders app].
  - split; [by eauto|]. by intros (s1 & [= <-] & ?).
  - rewrite bind_ok. split.
    + intros (s1 & Hs1 & (s2 & Hs2 & Hr)%IH). exists s2. rewrite bind_ok. eauto.
    + intros (s2 & (s1 & Hs1 & Hs2)%bind_ok & Hr). exists s1. split; [done|]. apply IH. eauto.
Qed.

Lemma sealed_number hs a :
  is_u64 (arc_Number a) →
  arc_Number (sealed hs a) = (arc_Number a + Z.of_nat (length hs))%u64.
Proof. destruct hs; [|done]. intros. cbn. by rewrite Z.add_0_r, u64_small. Qed.

Lemma with_head_id s : with_head (arc_Number s) (arc_Hash s) s = s.
Proof. by destruct s. Qed.

Lemma sealed_is_with_head hs a :
  sealed hs a = with_head (arc_Number (sealed hs a)) (arc_Hash (sealed hs a)) a.
Proof. destruct hs; [|done]. by rewrite with_head_id. Qed.

Lemma sealed_app hs1 hs2 n0 x0 b :
  is_u64 n0 →
  sealed (hs1 ++ hs2) (with_head n0 x0 b) = sealed hs2 (sealed hs1 (with_head n0 x0 b)).
Proof.
  intros Hu. destruct hs1 as [|h1 hs1]; [done|]. destruct hs2 as [|h2 hs2]; [by rewrite app_nil_r|].
  cbn [app sealed]. unfold with_head. cbn [arc_config arc_Number arc_Signers arc_Recents arc_Votes arc_Tally].
  f_equal.
  - unfold u64. rewrite Zplus_mod_idemp_l. f_equal.
    change (h1 :: hs1 ++ h2 :: hs2) with ((h1 :: hs1) ++ h2 :: hs2). rewrite length_app. lia.
  - f_equal. change (h1 :: hs1 ++ h2 :: hs2) with ((h1 :: hs1) ++ h2 :: hs2). rewrite last_app_cons.
    destruct (last_is_Some (h2 :: hs2)) as [_ [y ->]]; done.
Qed.

Lemma sealed_votes hs n x a :
  with_head n x (sealed hs a) = with_head n x a.
Proof. by destruct hs. Qed.

Lemma archive_apply_cut s hs1 hs2 s' :
  is_u64 (arc_Number s) →
  archive_apply s (hs1 ++ hs2) = Ok s' ↔
  ∃ s1, archive_apply s hs1 = Ok s1 ∧ archive_apply s1 hs2 = Ok s'.
Proof.
  intros Hu.
  assert (∀ a, applyHeaders s hs1 = Ok a →
    (arc_Number (sealed hs1 a) + 1)%u64 = ((arc_Number s + 1)%u64 + Z.of_nat (length hs1))%u64) as Hnum.
  { intros a [E _]%applyHeaders_head. rewrite sealed_number, E by (by rewrite E).
    unfold u64. rewrite !Zplus_mod_idemp_l. f_equal. lia. }
  rewrite archive_apply_ok, numbered_from_app by apply u64_range. split.
  - intros [[Hn1 Hn2] (b & (a & Ha & Hb)%applyHeaders_app & ->)].
    exists (sealed hs1 a). split; [apply archive_apply_ok; eauto|].
    apply archive_apply_ok. rewrite (Hnum a Ha). split; [done|].
    destruct (applyHeaders_head _ _ _ Ha) as [E1 E2], (applyHeaders_head _ _ _ Hb) as [E3 E4].
    exists (sealed hs1 b). split.
    + rewrite (sealed_is_with_head hs1 a), (sealed_is_with_head hs1 b).
      replace (arc_Number (sealed hs1 b)) with (arc_Number (sealed hs1 a))
        by (rewrite !sealed_number by congruence; congruence).
      replace (arc_Hash (sealed hs1 b)) with (arc_Hash (sealed hs1 a)) by (by destruct hs1; cbn).
      by apply applyHeaders_with_head.
    + rewrite <- (with_head_id b). apply sealed_app. congruence.
  - intros (s1 & (Hn1 & a & Ha & ->)%archive_apply_ok & (Hn2 & b & Hb & ->)%archive_apply_ok).
    rewrite (Hnum a Ha) in Hn2. split; [done|].
    destruct (applyHeaders_head _ _ _ Ha) as [E1 E2], (applyHeaders_head _ _ _ Hb) as [E3 E4].
    exists (with_head (arc_Number a) (arc_Hash a) b). split.
    + apply applyHeaders_app. exists a. split; [done|].
      rewrite <- (with_head_id a) at 1. rewrite <- (sealed_votes hs1 _ _ a).
      by apply applyHeaders_with_head.
    + rewrite sealed_app by (by rewrite E1). f_equal.
      rewrite (sealed_is_with_head hs1 (with_head _ _ b)).
      replace (arc_Number (sealed hs1 (with_head (arc_Number a) (arc_Hash a) b))) with (arc_Number b)
        by (rewrite E3, !sealed_number by (cbn; by rewrite E1); done).
      replace (arc_Hash (sealed hs1 (with_head (arc_Number a) (arc_Hash a) b))) with (arc_Hash b)
        by (rewrite E4; by destruct hs1).
      exact (eq_sym (with_head_id b)).
Qed.

Lemma archive_apply_numbered s hs :
  numbered_from (arc_Number s + 1)%u64 hs →
  archive_apply s hs = (a ← applyHeaders s hs; Ok (sealed hs a)).
Proof.
  destruct hs as [|h0 hs]; [done|]. intros [Hn Hr]. unfold archive_apply.
  destruct (contiguous_ok h0 hs _ Hn) as [_ Hc].
  rewrite (Hc Hr), bind_Ok, Hn, bind_Ok, Z.eqb_refl. cbn [negb fail_if]. by rewrite bind_Ok.
Qed.

Lemma applyHeaders_cut s hs1 hs2 :
  applyHeaders s (hs1 ++ hs2) = (s1 ← applyHeaders s hs1; applyHeaders s1 hs2).
Proof.
  revert s. induction hs1 as [|h hs1 IH]; intros s; cbn [applyHeaders app]; [done|].
  destruct (applyHeader s h); [|done|done]. by rewrite !bind_Ok.
Qed.

(** A replay of numbered headers can start from any archive of its own, whether
    the rest succeeds or fails. *)
Lemma archive_apply_resume s hs1 hs2 s1 :
  is_u64 (arc_Number s) → numbered_from (arc_Number s + 1)%u64 (hs1 ++ hs2) →
  archive_apply s hs1 = Ok s1 → archive_apply s (hs1 ++ hs2) = archive_apply s1 hs2.
Proof.
  intros Hu Hnum Hs1.
  destruct (archive_apply s1 hs2) as [s2|e2|] eqn:E2;
    [apply archive_apply_cut; by eauto| |];
    (pose proof Hs1 as (Hn1 & a & Ha & ->)%archive_apply_ok;
     rewrite archive_apply_numbered, applyHeaders_cut, Ha, bind_Ok in * by done;
     destruct (applyHeaders_head _ _ _ Ha) as [Ea _];
     apply numbered_from_app in Hnum as [_ Hn2]; [|apply u64_range];
     rewrite archive_apply_numbered in E2;
       [|rewrite sealed_number, Ea by (by rewrite Ea); revert Hn2; unfold u64;
         rewrite !Zplus_mod_idemp_l; by rewrite <- !Z.add_assoc, (Z.add_comm 1)];
     rewrite sealed_is_with_head, applyHeaders_with_head_eq in E2;
     by destruct (applyHeaders a hs2)).
Qed.

(** A replay can be cut anywhere: applying a chain of headers to an archive
    succeeds with a given archive exactly when applying a prefix succeeds and
    applying the rest to the archive after the prefix gives that archive.  The
    engine relies on this when it starts from a cached or stored archive
    instead of the genesis block. *)
Theorem archive_apply_app s hs1 hs2 s' :
  is_u64 (arc_Number s) →
  archive_apply s (hs1 ++ hs2) = Ok s' ↔
  ∃ s1, archive_apply s hs1 = Ok s1 ∧ archive_apply s1 hs2 = Ok s'.
Proof. apply archive_apply_cut. Qed.

(** ** The invariant along a chain *)

Lemma newArchive_wf cfg n hash signers : archive_wf n (newArchive cfg n hash signers).
Proof.
  split; [split; constructor| |split].
  - intros a. exact (lookup_empty a).
  - intros k a. cbn [newArchive arc_Recents]. by rewrite lookup_empty.
  - intros k m a. cbn [newArchive arc_Recents]. by rewrite lookup_empty.
Qed.

Lemma applyHeaders_wf n s hs s' :
  0 ≤ n → n + Z.of_nat (length hs) < two64 →
  archive_wf n s → numbered_from (n + 1)%u64 hs → applyHeaders s hs = Ok s' →
  archive_wf (n + Z.of_nat (length hs)) s'.
Proof.
  revert n s. induction hs as [|h hs IH]; intros n s Hn Hlt Hwf Hnum; cbn [applyHeaders length].
  - rewrite Z.add_0_r. by intros [= <-].
  - intros (s1 & Hs & Hr)%bind_ok. destruct Hnum as [Hh Hnum].
    cbn [length] in Hlt. rewrite (u64_small (n + 1)) in Hh, Hnum by (unfold is_u64; lia).
    destruct (applyHeader_step n s h s1) as (_ & _ & _ & _ & _ & _ & Hwf1); try done;
      [unfold is_u64; lia|].
    replace (n + Z.of_nat (S (length hs))) with (n + 1 + Z.of_nat (length hs)) by lia.
    apply (IH (n + 1) s1); try done; lia.
Qed.

(** Every archive reached from a genesis signer list satisfies the
    invariant: replaying any accepted chain of headers from [newArchive] gives
    an archive whose number is the number of replayed headers, whose tally
    counts the pending votes, whose votes are one per signer and candidate, all
    by current signers and all asking for a change, and which remembers only
    the last [signerLimit] sealers, without repetition. *)
Theorem archive_reachable_wf cfg hash signers hs s :
  Z.of_nat (length hs) < two64 →
  archive_apply (newArchive cfg 0 hash signers) hs = Ok s →
  arc_Number s = Z.of_nat (length hs) ∧ archive_wf (arc_Number s) s.
Proof.
  intros Hlt (Hnum & a & Ha & ->)%archive_apply_ok.
  destruct (applyHeaders_head _ _ _ Ha) as [E _]. cbn in E.
  pose proof (applyHeaders_wf 0 _ hs a ltac:(lia) ltac:(lia) (newArchive_wf _ _ _ _) Hnum Ha) as Hwf.
  rewrite sealed_number by (rewrite E; unfold is_u64, two64; lia).
  rewrite E, u64_small by (unfold is_u64; lia). split; [done|].
  rewrite Z.add_0_l in *. destruct hs; [done|]. by destruct Hwf as [? ? [? ?]].
Qed.

(** ** How often a signer may seal *)

Lemma passVote_recents_keep number c t s k a :
  arc_Recents s !! k = Some a → is_u64 number → 0 ≤ k →
  arc_Recents (passVote number c t s) !! k = Some a ∨
  number - k = signerLimit (passVote number c t s).
Proof.
  intros Hk Hu H0. unfold passVote. destruct (tly_Authorize t); [by left|].
  set (s1 := set_Signers (arc_Signers s ∖ {[c]}) s).
  assert (∀ before votes x, arc_Recents (discardVotesBy c before votes x) = arc_Recents x ∧
    arc_Signers (discardVotesBy c before votes x) = arc_Signers x) as Hd.
  { intros before votes. revert before. induction votes as [|v votes IH]; intros before x; simpl; [done|].
    case_bool_decide; [|apply IH]. destruct (uncast_frame x (vote_Address v) (vote_Authorize v)) as [(_ & _ & _ & E1 & E2) _].
    destruct (IH before (fst (uncast x (vote_Address v) (vote_Authorize v)))). split; congruence. }
  unfold signerLimit at 1. cbn [arc_Recents arc_Signers set_Tally set_Votes]. rewrite !(proj1 (Hd _ _ _)), !(proj2 (Hd _ _ _)).
  unfold shiftRecents. destruct (Z.leb_spec (signerLimit s1) number) as [Hle|]; [|by left].
  cbn [arc_Recents arc_Signers set_Recents]. pose proof (signerLimit_pos s1).
  rewrite u64_small by (unfold is_u64 in *; lia).
  destruct (decide (number - signerLimit s1 = k)) as [<-|Hne].
  - right. unfold signerLimit at 1. simpl. lia.
  - left. by rewrite lookup_delete_ne.
Qed.

Lemma recordVote_recents s number signer c b :
  arc_Recents (recordVote s number signer c b) = <[number := signer]> (arc_Recents s).
Proof.
  unfold recordVote. set (s1 := set_Recents _ _).
  assert (∀ before votes x, arc_Recents (discardVote signer c before votes x) = arc_Recents x) as Hd.
  { intros before votes. revert before. induction votes as [|v votes IH]; intros before x; simpl; [done|].
    case_bool_decide; [|apply IH].
    by destruct (uncast_frame x (vote_Address v) (vote_Authorize v)) as [(_ & _ & _ & _ & E2) _]. }
  assert (∀ x y, arc_Recents (fst (cast x c y)) = arc_Recents x) as Hc.
  { intros x y. unfold cast. by repeat case_match. }
  specialize (Hc (discardVote signer c [] (arc_Votes s1) s1) b). rewrite Hd in Hc.
  destruct (cast _ _ _) as [s2 counted]. cbn [fst] in Hc. by destruct counted.
Qed.

(** A block's own signature is remembered after it. *)
Lemma applyHeader_recents_new n s h s' a :
  is_u64 (n + 1) → headerNumber h = Ok (n + 1) → applyHeader s h = Ok s' →
  ecrecover_of h = Ok a → arc_Recents s' !! (n + 1) = Some a.
Proof.
  intros Hu Hnum (number & signer & b & Hn & _ & Hs & _ & _ & _ & ->)%applyHeader_ok Ha.
  rewrite Hnum in Hn. injection Hn as <-. rewrite Ha in Hs. injection Hs as <-.
  set (s1 := recordVote _ _ _ _ _).
  assert (arc_Recents s1 !! (n + 1) = Some a) as H1 by (subst s1; by rewrite recordVote_recents, lookup_insert_eq).
  unfold settleVote. case_match; [|done]. unfold is_u64 in Hu.
  destruct (passVote_recents_keep (n + 1) (hdr_Coinbase h)
    (default (mkTally false 0) (arc_Tally s1 !! hdr_Coinbase h)) s1 (n + 1) a H1 ltac:(done) ltac:(lia))
    as [|E]; [done|].
  rewrite Z.sub_diag in E. match type of E with 0 = signerLimit ?x => pose proof (signerLimit_pos x) end. lia.
Qed.

Lemma applyHeader_recents_keep n s h s' k a :
  is_u64 (n + 1) → 0 ≤ k ≤ n → headerNumber h = Ok (n + 1) → applyHeader s h = Ok s' →
  arc_Recents s !! k = Some a →
  arc_Recents s' !! k = Some a ∨ n + 1 - k = signerLimit s ∨ n + 1 - k = signerLimit s'.
Proof.
  intros Hu Hk Hnum (number & signer & b & Hn & _ & _ & _ & _ & _ & ->)%applyHeader_ok Hr.
  rewrite Hnum in Hn. injection Hn as <-.
  destruct (decide (arc_Recents (enterBlock s (n + 1)) !! k = Some a)) as [Hk0|Hk0].
  - assert (arc_Recents (recordVote (enterBlock s (n + 1)) (n + 1) signer (hdr_Coinbase h) b) !! k = Some a) as Hk1.
    { rewrite recordVote_recents, lookup_insert_ne by lia. done. }
    unfold settleVote. case_match; [|by left].
    destruct (passVote_recents_keep (n + 1) (hdr_Coinbase h)
      (default (mkTally false 0) (arc_Tally (recordVote (enterBlock s (n + 1)) (n + 1) signer (hdr_Coinbase h) b) !! hdr_Coinbase h))
      _ k a Hk1 Hu ltac:(lia)); auto.
  - right. left. unfold enterBlock, shiftRecents in Hk0. set (s1 := if _ =? 0 then _ else s) in Hk0.
    assert (arc_Recents s1 = arc_Recents s ∧ signerLimit s1 = signerLimit s) as [E1 E2]
      by (subst s1; destruct (_ =? 0); split; reflexivity).
    rewrite E2 in Hk0. pose proof (signerLimit_pos s).
    destruct (Z.leb_spec (signerLimit s) (n + 1)).
    + cbn [arc_Recents set_Recents] in Hk0. rewrite u64_small, E1 in Hk0 by (unfold is_u64 in *; lia).
      destruct (decide (n + 1 - signerLimit s = k)); [lia|]. by rewrite lookup_delete_ne in Hk0.
    + by rewrite E1 in Hk0.
Qed.

(** Following one remembered signature until its signer seals again. *)
Lemma signature_kept_until n s k a mid hj s' :
  0 ≤ k ≤ n → n + Z.of_nat (length mid) + 1 < two64 →
  arc_Recents s !! k = Some a →
  numbered_from (n + 1)%u64 (mid ++ [hj]) → applyHeaders s (mid ++ [hj]) = Ok s' →
  ecrecover_of hj = Ok a →
  ∃ pre t, pre `prefix_of` (mid ++ [hj]) ∧ applyHeaders s pre = Ok t ∧
           signerLimit t ≤ n + Z.of_nat (length mid) + 1 - k.
Proof.
  revert n s. induction mid as [|h mid IH]; intros n s Hk Hlt Hr Hnum Happ Ha; cbn [app length] in *.
  - exists [], s. split; [apply prefix_nil|]. split; [done|].
    destruct Hnum as [Hnum _]. rewrite u64_small in Hnum by (unfold is_u64; lia).
    cbn [applyHeaders] in Happ. apply bind_ok in Happ as (s1 & Hs1 & _).
    destruct (proj1 (applyHeader_ok _ _ _) Hs1) as (number & signer & b & Hn & _ & Hs & _ & _ & Hrec & _).
    rewrite Hnum in Hn. injection Hn as <-. rewrite Ha in Hs. injection Hs as <-.
    apply bool_decide_eq_false in Hrec.
    destruct (decide (signerLimit s = n + 1 - k)) as [E|Hne]; [lia|]. exfalso. apply Hrec.
    rewrite map_Exists_lookup. exists k, a. split; [|done]. unfold enterBlock, shiftRecents.
    set (s0 := if _ =? 0 then _ else s).
    assert (arc_Recents s0 = arc_Recents s ∧ signerLimit s0 = signerLimit s) as [E1 E2]
      by (subst s0; destruct (_ =? 0); split; reflexivity).
    rewrite E2. pose proof (signerLimit_pos s). destruct (Z.leb_spec (signerLimit s) (n + 1)); [|by rewrite E1].
    cbn [arc_Recents set_Recents]. rewrite u64_small, E1 by (unfold is_u64; lia).
    by rewrite lookup_delete_ne by lia.
  - destruct Hnum as [Hh Hnum]. rewrite (u64_small (n + 1)) in Hh, Hnum by (unfold is_u64; lia).
    cbn [applyHeaders] in Happ. apply bind_ok in Happ as (s1 & Hs1 & Happ).
    destruct (applyHeader_recents_keep n s h s1 k a) as [Hk1|[E|E]]; try done; [unfold is_u64; lia| | |].
    + destruct (IH (n + 1) s1) as (pre & t & Hpre & Ht & Hle); try done; [lia|lia|].
      exists (h :: pre), t. split; [by apply prefix_cons|]. split; [|lia].
      cbn [applyHeaders]. by rewrite Hs1.
    + exists [], s. split; [apply prefix_nil|]. split; [done|]. lia.
    + exists [h], s1. split; [apply prefix_cons, prefix_nil|]. split; [|lia].
      cbn [applyHeaders]. by rewrite Hs1.
Qed.

(** C37. A signer cannot seal too often: when a signer seals a block and later
    block [hj], then at some archive between the two the number of blocks from
    the first to the second is at least [len(Signers)/2 + 1].  With a constant
    signer set any two blocks of one signer are that far apart. *)
Theorem sealing_gap n s hi mid hj s' a :
  0 ≤ n → n + Z.of_nat (length mid) + 2 < two64 →
  numbered_from (n + 1)%u64 (hi :: mid ++ [hj]) →
  applyHeaders s (hi :: mid ++ [hj]) = Ok s' →
  ecrecover_of hi = Ok a → ecrecover_of hj = Ok a →
  ∃ pre t, pre `prefix_of` (mid ++ [hj]) ∧ applyHeaders s (hi :: pre) = Ok t ∧
           signerLimit t ≤ Z.of_nat (length mid) + 1.
Proof.
  intros Hn Hlt [Hh Hnum] Happ Hai Haj.
  rewrite (u64_small (n + 1)) in Hh, Hnum by (unfold is_u64; lia).
  cbn [applyHeaders] in Happ. apply bind_ok in Happ as (s1 & Hs1 & Happ).
  pose proof (applyHeader_recents_new n s hi s1 a ltac:(unfold is_u64; lia) Hh Hs1 Hai) as Hr.
  destruct (signature_kept_until (n + 1) s1 (n + 1) a mid hj s') as (pre & t & Hpre & Ht & Hle); try done; [lia|lia|].
  exists pre, t. split; [done|]. split; [|lia]. cbn [applyHeaders]. by rewrite Hs1.
Qed.

End Replay.

(** ** A concrete chain

    Three signers; the first two vote a fourth account in. *)
Module Demo.

#[local] Instance demoSeals : Seals := {|
  header_Hash := hdr_Root;
  ecrecover_of := fun h => Ok (hdr_Extra h)
|}.

Definition demoHeader (n : Z) (signer c : Address) (authorize : bool) : Header :=
  mkHeader [] [] c [n] [] [] [] (Some 2) (Some n) 0 0 (Some n) signer []
    (if authorize then nonceAuthVote else nonceDropVote).

Definition demoGenesis : Archive := newArchive (mkDPosConfig 10 30000) 0 [0] [[1]; [2]; [3]].

Definition demo_h1 := demoHeader 1 [1] [4] true.
Definition demo_h2 := demoHeader 2 [2] [4] true.

(** The first signer out of turn. *)
Definition demo_again := demoHeader 2 [1] [4] true.

(** Headers without an effective vote. *)
Definition demo_v1 := demoHeader 1 [1] [0] false.
Definition demo_v2 := demoHeader 2 [2] [0] false.
Definition demo_v3 := demoHeader 3 [1] [0] false.

Definition get (r : res Archive) : Archive := match r with Ok s => s | _ => demoGenesis end.

Definition demo1 : Archive := get (applyHeader demoGenesis demo_h1).
Definition demo2 : Archive := get (applyHeader demo1 demo_h2).

Lemma demo_apply1 : applyHeader demoGenesis demo_h1 = Ok demo1.
Proof. vm_compute. reflexivity. Qed.

Lemma demo_apply2 : applyHeader demo1 demo_h2 = Ok demo2.
Proof. vm_compute. reflexivity. Qed.

Lemma demo1_wf : archive_wf 1 demo1.
Proof.
  apply (applyHeaders_wf 0 demoGenesis [demo_h1] demo1); [lia|vm_compute; reflexivity| | |].
  - apply newArchive_wf.
  - split; [vm_compute; reflexivity|done].
  - cbn [applyHeaders]. by rewrite demo_apply1.
Qed.

(** The second signer votes too: accepted.  The first one seals again: refused. *)
Lemma applyHeader_refines_witness :
  ((s' ← applyHeader demo1 demo_h2; Ok (archive_protocol s')) =
     seal_step (Epoch (arc_config demo1)) (1 + 1) (archive_protocol demo1) (ecrecover_of demo_h2)
       (hdr_Coinbase demo_h2) (hdr_Nonce demo_h2) ∧
   (∀ s', applyHeader demo1 demo_h2 = Ok s' → archive_wf (1 + 1) s')) ∧
  ((s' ← applyHeader demo1 demo_again; Ok (archive_protocol s')) =
     seal_step (Epoch (arc_config demo1)) (1 + 1) (archive_protocol demo1) (ecrecover_of demo_again)
       (hdr_Coinbase demo_again) (hdr_Nonce demo_again) ∧
   (∀ s', applyHeader demo1 demo_again = Ok s' → archive_wf (1 + 1) s')) ∧
  applyHeader demo1 demo_again = Err errUnauthorized.
Proof.
  split; [|split; [|vm_compute; reflexivity]].
  - apply (applyHeader_refines 1 demo1 demo_h2);
      [by vm_compute|lia|apply demo1_wf|vm_compute; reflexivity].
  - apply (applyHeader_refines 1 demo1 demo_again);
      [by vm_compute|lia|apply demo1_wf|vm_compute; reflexivity].
Defined.

Lemma applyHeader_majority_witness :
  arc_Signers demo2 = (if decide ([4] ∈ arc_Signers demo1)
                       then arc_Signers demo1 ∖ {[ [4] ]} else {[ [4] ]} ∪ arc_Signers demo1) ∧
  ∃ V : gset Address,
    V ⊆ arc_Signers demo1 ∧ (size (arc_Signers demo1) < 2 * size V)%nat ∧
    ∀ a, a ∈ V →
      if decide (ecrecover_of demo_h2 = Ok a)
      then nonceVote (hdr_Nonce demo_h2) = Ok (bool_decide ([4] ∉ arc_Signers demo1))
      else (1 + 1) mod Epoch (arc_config demo1) ≠ 0 ∧
           ∃ v, v ∈ arc_Votes demo1 ∧ vote_Signer v = a ∧ vote_Address v = [4] ∧
                vote_Authorize v = bool_decide ([4] ∉ arc_Signers demo1).
Proof.
  assert (arc_Signers demo2 ≠ arc_Signers demo1) as Hne.
  { intros E. apply (f_equal size) in E. vm_compute in E. discriminate E. }
  exact (applyHeader_majority 1 demo1 demo_h2 demo2 ltac:(by vm_compute) ltac:(lia) demo1_wf
    ltac:(vm_compute; reflexivity) demo_apply2 Hne).
Defined.

Lemma archive_apply_app_witness :
  is_u64 (arc_Number demoGenesis) ∧
  (archive_apply demoGenesis ([demo_h1] ++ [demo_h2]) = archive_apply demoGenesis [demo_h1; demo_h2]) ∧
  (∀ s', archive_apply demoGenesis ([demo_h1] ++ [demo_h2]) = Ok s' →
   ∃ s1, archive_apply demoGenesis [demo_h1] = Ok s1 ∧ archive_apply s1 [demo_h2] = Ok s').
Proof.
  split; [by vm_compute|]. split; [reflexivity|]. intros s'.
  apply (archive_apply_app demoGenesis [demo_h1] [demo_h2] s'). by vm_compute.
Defined.

Lemma archive_reachable_wf_witness :
  arc_Number (get (archive_apply demoGenesis [demo_h1; demo_h2])) = 2 ∧
  archive_wf (arc_Number (get (archive_apply demoGenesis [demo_h1; demo_h2])))
    (get (archive_apply demoGenesis [demo_h1; demo_h2])).
Proof.
  apply (archive_reachable_wf (mkDPosConfig 10 30000) [0] [[1]; [2]; [3]] [demo_h1; demo_h2]);
    [by vm_compute|vm_compute; reflexivity].
Defined.

Lemma sealing_gap_witness :
  ∃ pre t, pre `prefix_of` ([demo_v2] ++ [demo_v3]) ∧
           applyHeaders demoGenesis (demo_v1 :: pre) = Ok t ∧ signerLimit t ≤ 2.
Proof.
  apply (sealing_gap 0 demoGenesis demo_v1 [demo_v2] demo_v3
    (get (applyHeaders demoGenesis [demo_v1; demo_v2; demo_v3])) [1]);
    [lia|by vm_compute|by vm_compute|vm_compute; reflexivity|reflexivity|reflexivity].
Defined.

End Demo.
