(* ===== verification/DposTurn.v ===== *)
(** * Whose turn it is to seal

    The address sort, [signers], [ableSigners] and [inturn] of
    src/agreement/epvdpos/archive.go: the sorted lists do not depend on Go's
    map iteration order, and after every block exactly one signer is in
    turn. *)

From S2P Require Import Prelude Types DposArchive DposVoting DposReplay.
From stdpp Require Import base tactics option list numbers gmap sorting.
From Stdlib Require Import ZArith Lia.

#[local] Open Scope Z_scope.

(** ** Sorting *)

Lemma sortInner_spec x l m r :
  sortInner x l = (m, r) → m :: r ≡ₚ x :: l ∧ Forall (bytes_le m) r.
Proof.
  revert x m r. induction l as [|y l IH]; intros x m r; cbn [sortInner].
  - intros [= <- <-]. done.
  - destruct (bytes_gt x y) eqn:Hgt.
    + destruct (sortInner y l) as [m' r'] eqn:E. intros [= <- <-].
      destruct (IH _ _ _ E) as [Hp Hf]. split.
      * rewrite Permutation_swap. by constructor.
      * constructor; [|done]. trans y; [|by apply bytes_gt_true].
        assert (y ∈ m' :: r') as [->|Hy]%elem_of_cons by (rewrite Hp; left); [done|].
        by eapply Forall_forall in Hf.
    + destruct (sortInner x l) as [m' r'] eqn:E. intros [= <- <-].
      destruct (IH _ _ _ E) as [Hp Hf]. split.
      * rewrite Permutation_swap, Hp. apply Permutation_swap.
      * constructor; [|done]. trans x; [|by apply bytes_gt_false].
        assert (x ∈ m' :: r') as [->|Hy]%elem_of_cons by (rewrite Hp; left); [done|].
        by eapply Forall_forall in Hf.
Qed.

Lemma sortOuter_spec n l :
  n = length l → sortOuter n l ≡ₚ l ∧ StronglySorted bytes_le (sortOuter n l).
Proof.
  revert l. induction n as [|n IH]; intros [|x l] [=]; cbn [sortOuter]; try (split; [done|constructor]).
  destruct (sortInner x l) as [m r] eqn:E. destruct (sortInner_spec _ _ _ _ E) as [Hp Hf].
  destruct (IH r) as [Hpr Hs]; [apply Permutation_length in Hp; cbn in Hp; lia|]. split.
  - by rewrite Hpr.
  - constructor; [done|]. by rewrite Hpr.
Qed.

Lemma sortAddresses_perm l : sortAddresses l ≡ₚ l.
Proof. by apply sortOuter_spec. Qed.

Lemma sortAddresses_sorted l : StronglySorted bytes_le (sortAddresses l).
Proof. by apply sortOuter_spec. Qed.

(** The signer list is canonical: whatever order Go's map iteration yields
    the signers in, [signers] returns the same list, sorted ascending, without
    duplicates, holding exactly the members of the signer set; and the same
    order independence holds for [ableSigners], which [inturn] draws from.  All
    nodes therefore agree on checkpoint headers and on the turn. *)
Theorem signers_canonical s number keys :
  keys ≡ₚ elements (arc_Signers s) →
  signers_from keys = signers s ∧
  ableSigners_from keys s number = ableSigners s number ∧
  StronglySorted bytes_le (signers s) ∧ NoDup (signers s) ∧
  (∀ a, a ∈ signers s ↔ a ∈ arc_Signers s).
Proof.
  intros Hk.
  assert (∀ l l', l ≡ₚ l' → sortAddresses l = sortAddresses l') as Huniq.
  { intros l l' Hl. apply (StronglySorted_unique bytes_le); [apply sortAddresses_sorted..|].
    by rewrite !sortAddresses_perm. }
  split; [by apply Huniq|]. split; [by apply Huniq, filter_Permutation|].
  split; [apply sortAddresses_sorted|]. unfold signers, signers_from. split.
  - rewrite sortAddresses_perm. apply NoDup_elements.
  - intros a. rewrite sortAddresses_perm. apply elem_of_elements.
Qed.

Lemma signers_canonical_witness :
  [[3]; [1]; [2]] ≡ₚ elements (arc_Signers Demo.demoGenesis) ∧
  signers_from [[3]; [1]; [2]] = signers Demo.demoGenesis.
Proof.
  assert ([[3]; [1]; [2]] ≡ₚ elements (arc_Signers Demo.demoGenesis)) as Hp.
  { apply (bool_decide_unpack _). vm_compute. exact I. }
  split; [exact Hp|]. apply (signers_canonical Demo.demoGenesis 1 [[3]; [1]; [2]] Hp).
Defined.

(** ** The turn *)

Lemma ableSigners_elem s number a :
  a ∈ ableSigners s number ↔
  a ∈ arc_Signers s ∧ ¬ map_Exists (fun _ recent => recent = a) (ableRecents s number).
Proof.
  unfold ableSigners, ableSigners_from.
  rewrite sortAddresses_perm, list_elem_of_filter, elem_of_elements. tauto.
Qed.

Lemma ableSigners_NoDup s number : NoDup (ableSigners s number).
Proof.
  unfold ableSigners, ableSigners_from. rewrite sortAddresses_perm. apply NoDup_filter, NoDup_elements.
Qed.

Lemma ableRecents_shift s number : ableRecents s number = arc_Recents (shiftRecents number s).
Proof. unfold ableRecents, shiftRecents. by case_match. Qed.

Lemma ableSigners_nonempty n s :
  is_u64 (n + 1) → recents_wf n s → arc_Signers s ≠ ∅ → ableSigners s (n + 1) ≠ [].
Proof.
  intros Hu [Hw _] Hne Hnil.
  assert (recents_in (n + 1 - signerLimit s) n (ableRecents s (n + 1))) as Hr.
  { rewrite ableRecents_shift. apply shiftRecents_in; [done|].
    eapply recents_in_weaken; [| |exact Hw]; lia. }
  set (r := ableRecents s (n + 1)) in *. pose proof (signerLimit_pos s) as HL.
  set (ws := omap (fun k => r !! k) (seqZ (n + 2 - signerLimit s) (signerLimit s - 1))).
  assert (length ws ≤ Z.to_nat (signerLimit s - 1))%nat as Hlen.
  { subst ws. rewrite <- (length_seqZ (n + 2 - signerLimit s)). apply length_omap_le. }
  assert (elements (arc_Signers s) ⊆+ ws) as Hsub.
  { apply NoDup_submseteq; [apply NoDup_elements|]. intros a Ha%elem_of_elements.
    destruct (decide (map_Exists (fun _ recent => recent = a) r)) as [He|Hno].
    - rewrite map_Exists_lookup in He. destruct He as (k & b & Hk & ->).
      apply list_elem_of_omap. exists k. split; [|done]. rewrite elem_of_seqZ.
      apply Hr in Hk. lia.
    - assert (a ∈ ableSigners s (n + 1)) as Hin by (by apply ableSigners_elem).
      rewrite Hnil in Hin. by apply elem_of_nil in Hin. }
  apply submseteq_length in Hsub. change (length (elements (arc_Signers s))) with (size (arc_Signers s)) in Hsub.
  assert (size (arc_Signers s) ≠ 0)%nat by (intros E%size_empty_inv; set_solver).
  unfold signerLimit in *.
  pose proof (Z.div_lt (Z.of_nat (size (arc_Signers s))) 2). lia.
Qed.

Lemma signerOffset_spec l i a :
  NoDup l → 0 ≤ i < Z.of_nat (length l) →
  signerOffset l a = i ↔ l !! Z.to_nat i = Some a.
Proof.
  revert i. induction l as [|x l IH]; intros i Hnd Hi; cbn [length] in Hi; [lia|].
  apply NoDup_cons in Hnd as [Hx Hnd]. cbn [signerOffset].
  destruct (decide (i = 0)) as [->|Hi0].
  - rewrite bool_decide_decide. case_decide; cbn; [naive_solver|].
    assert (∀ k, 0 ≤ signerOffset k a) as Hpos by (induction k; cbn; [lia|case_bool_decide; lia]).
    specialize (Hpos l). split; [lia|naive_solver].
  - replace (Z.to_nat i) with (S (Z.to_nat (i - 1))) by lia. cbn [lookup list_lookup].
    rewrite bool_decide_decide. case_decide as Hxa.
    + subst x. split; [lia|]. intros Ha%list_elem_of_lookup_2. done.
    + rewrite <- IH by (done || lia). lia.
Qed.

Section Turn.
Context `{Rand}.

(** After every block exactly one signer is in turn.  For an archive that
    satisfies the invariant and has a signer, [inturn] does not panic, and
    there is exactly one account for which it answers true; that account is a
    signer that has not sealed within the window. *)
Theorem inturn_unique n s hash :
  is_u64 (n + 1) → archive_wf n s → arc_Signers s ≠ ∅ →
  ∃ a, a ∈ arc_Signers s ∧ recentlySigned (shiftRecents (n + 1) s) a = false ∧
    ∀ b, inturn s (n + 1) b hash = Ok (bool_decide (b = a)).
Proof.
  intros Hu [_ _ Hr] Hne. pose proof (ableSigners_nonempty n s Hu Hr Hne) as Hnil.
  unfold inturn, Intn. set (l := ableSigners s (n + 1)) in *.
  pose proof (ableSigners_NoDup s (n + 1)) as Hnd. fold l in Hnd.
  assert (0 < Z.of_nat (length l)) as Hpos by (destruct l; [done|cbn; lia]).
  pose proof (seeded_Intn_range (lowHash hash) (Z.of_nat (length l)) Hpos) as Hrange.
  set (t := seeded_Intn (lowHash hash) (Z.of_nat (length l))) in *.
  destruct (lookup_lt_is_Some_2 l (Z.to_nat t)) as [a Ha]; [lia|].
  exists a. pose proof (list_elem_of_lookup_2 _ _ _ Ha) as Hin.
  apply ableSigners_elem in Hin as [Hin Hrec]. split; [done|]. split.
  - apply bool_decide_eq_false. by rewrite <- ableRecents_shift.
  - intros b. destruct (Z.leb_spec (Z.of_nat (length l)) 0); [lia|].
    rewrite bind_Ok. f_equal. pose proof (signerOffset_spec l t b Hnd Hrange) as Hoff.
    destruct (Z.eqb_spec t (signerOffset l b)) as [E|E]; symmetry.
    + apply bool_decide_eq_true. symmetry in E. apply Hoff in E. congruence.
    + apply bool_decide_eq_false. intros ->. apply E. symmetry. by apply Hoff.
Qed.

Lemma inturn_no_signers s number signer hash :
  arc_Signers s = ∅ → inturn s number signer hash = Panic.
Proof.
  intros He. unfold inturn, ableSigners, ableSigners_from. rewrite He, elements_empty. done.
Qed.

(** The last signer can vote itself out.  When a single signer [a] is left
    and seals a header that votes to drop [a], the header is accepted, the
    signer set becomes empty, and from then on every call of [inturn] panics
    ([rand.Intn(0)]), which the engine reaches when it prepares the next
    block. *)
Theorem last_signer_drops_itself `{Seals} n s h a :
  is_u64 (n + 1) → 0 ≤ n → archive_wf n s → arc_Signers s = {[a]} →
  Epoch (arc_config s) ≠ 0 →
  headerNumber h = Ok (n + 1) → ecrecover_of h = Ok a →
  hdr_Coinbase h = a → hdr_Nonce h = nonceDropVote →
  ∃ s', applyHeader s h = Ok s' ∧ arc_Signers s' = ∅ ∧
    ∀ number signer hash, inturn s' number signer hash = Panic.
Proof.
  intros Hu Hn Hwf HS HE Hnum Hrec Hc Hnonce.
  pose proof (enterBlock_wf s n Hu Hwf) as (_ & _ & Hri & _ & HS0).
  assert (signerLimit (enterBlock s (n + 1)) = 1) as HL.
  { unfold signerLimit. by rewrite HS0, HS, size_singleton. }
  assert (∃ s', applyHeader s h = Ok s') as [s' Hs'].
  { eexists. apply applyHeader_ok. exists (n + 1), a, false. rewrite Hnonce.
    split; [done|]. split; [done|]. split; [done|]. split; [done|]. cbv zeta.
    split; [rewrite HS0, HS; by apply elem_of_singleton|]. split; [|done].
    apply bool_decide_eq_false. rewrite map_Exists_lookup. intros (k & b & Hk & _).
    apply Hri in Hk. lia. }
  exists s'. split; [done|].
  destruct (applyHeader_step n s h s' Hu Hn Hwf Hnum Hs') as (a' & auth & Ha & Hauth & _ & Habs & _).
  rewrite Hrec in Ha. injection Ha as <-. rewrite Hnonce in Hauth. injection Hauth as <-.
  assert (arc_Signers s' = ∅) as Hempty.
  { apply (f_equal bal_signers) in Habs. cbn in Habs. rewrite Habs, Hc.
    set (b := if _ =? 0 then _ else _).
    assert (bal_signers b = {[a]}) as Hb by (subst b; case_match; cbn; done).
    unfold vote_step, settle, cast_ballot. cbn [bal_signers bal_votes]. rewrite Hb.
    rewrite (bool_decide_eq_true_2 (a ∈ ({[a]} : gset Address))) by (by apply elem_of_singleton). cbn [Bool.eqb].
    rewrite size_singleton. rewrite decide_True.
    - rewrite decide_True by (by apply elem_of_singleton). cbn [bal_signers]. apply difference_diag_L.
    - assert (a ∈ supporters (<[(a, a) := false]> (delete (a, a) (bal_votes b))) a) as Hin.
      { unfold supporters. apply elem_of_map. exists (a, a). split; [done|]. apply elem_of_filter.
        split; [done|]. rewrite dom_insert. by apply elem_of_union_l, elem_of_singleton. }
      change (1 / 2)%nat with 0%nat. apply Nat.neq_0_lt_0. intros E%size_empty_inv.
      by apply (E a) in Hin. }
  split; [done|]. intros. by apply inturn_no_signers.
Qed.

End Turn.

(** ** Instances *)

Module DemoTurn.

#[local] Instance demoRand : Rand.
Proof. refine {| seeded_Intn := fun seed n => seed mod n |}. intros. by apply Z.mod_pos_bound. Defined.

Lemma inturn_unique_witness :
  ∃ a, a ∈ arc_Signers Demo.demo1 ∧ recentlySigned (shiftRecents 2 Demo.demo1) a = false ∧
    ∀ b, inturn Demo.demo1 2 b zeroHash = Ok (bool_decide (b = a)).
Proof.
  apply (inturn_unique 1 Demo.demo1 zeroHash); [by vm_compute|apply Demo.demo1_wf|].
  intros E. apply (f_equal size) in E. vm_compute in E. discriminate E.
Defined.

Definition loneGenesis : Archive := newArchive (mkDPosConfig 10 30000) 0 [0] [[7]].

Lemma last_signer_drops_itself_witness :
  ∃ s', applyHeader (H := Demo.demoSeals) loneGenesis (Demo.demoHeader 1 [7] [7] false) = Ok s' ∧
    arc_Signers s' = ∅ ∧ ∀ number signer hash, inturn s' number signer hash = Panic.
Proof.
  apply (last_signer_drops_itself (H0 := Demo.demoSeals) 0 loneGenesis (Demo.demoHeader 1 [7] [7] false) [7]);
    [by vm_compute|lia|apply newArchive_wf|by vm_compute|done|reflexivity|reflexivity|reflexivity|reflexivity].
Defined.

End DemoTurn.
