(* ===== verification/Rlp.v ===== *)
(** * RLP: heads, splitting and the encoder buffer
    (src/process/raw.go, src/process/encode.go).

    Sizes are [uint64]; byte slices are lists, and slicing or indexing out of
    range panics.  The reference encoding [enc] of an item is the usual
    recursive definition; the encoder of the code instead writes a flat string
    and the positions of the list heads, and inserts the heads at the end. *)

From S2P Require Import Prelude.
From stdpp Require Import base tactics option list numbers.
From Stdlib Require Import ZArith Lia.

#[local] Open Scope Z_scope.

(** ** Data *)

Inductive RlpError :=
| EOL
| ErrExpectedString
| ErrExpectedList
| ErrCanonInt
| ErrCanonSize
| ErrElemTooLarge
| ErrValueTooLarge
| ErrMoreThanOneValue
| errNotInList
| errNotAtEOL
| errUintOverflow
| errNegativeBigInt
| errInvalidBool
| io_EOF
| io_ErrUnexpectedEOF
| errWrongSize
| errTooFew.

#[export] Instance RlpError_eq_dec : EqDecision RlpError.
Proof. solve_decision. Defined.

Inductive Kind := KByte | KString | KList.

#[export] Instance Kind_eq_dec : EqDecision Kind.
Proof. solve_decision. Defined.

(** Go slicing [b[lo:hi]] (of a slice whose capacity is its length) and
    indexing [b[i]]. *)
Definition slice {E} (b : list Z) (lo hi : Z) : outcome E (list Z) :=
  if (0 <=? lo) && (lo <=? hi) && (hi <=? Z.of_nat (length b))
  then Ok (take (Z.to_nat (hi - lo)) (drop (Z.to_nat lo) b))
  else Panic.

Definition index {E} (b : list Z) (i : Z) : outcome E Z :=
  if i <? 0 then Panic else deref (b !! Z.to_nat i).

(** ** Integers and heads *)

(** The conversion [byte(i)]. *)
Definition byte (i : Z) : Z := i mod 256.

(** The bytes that [putint] writes to its buffer. *)
Definition putint (i : Z) : list Z :=
  if i <? Z.shiftl 1 8 then [byte i]
  else if i <? Z.shiftl 1 16 then [byte (Z.shiftr i 8); byte i]
  else if i <? Z.shiftl 1 24 then [byte (Z.shiftr i 16); byte (Z.shiftr i 8); byte i]
  else if i <? Z.shiftl 1 32 then
    [byte (Z.shiftr i 24); byte (Z.shiftr i 16); byte (Z.shiftr i 8); byte i]
  else if i <? Z.shiftl 1 40 then
    [byte (Z.shiftr i 32); byte (Z.shiftr i 24); byte (Z.shiftr i 16); byte (Z.shiftr i 8); byte i]
  else if i <? Z.shiftl 1 48 then
    [byte (Z.shiftr i 40); byte (Z.shiftr i 32); byte (Z.shiftr i 24); byte (Z.shiftr i 16);
     byte (Z.shiftr i 8); byte i]
  else if i <? Z.shiftl 1 56 then
    [byte (Z.shiftr i 48); byte (Z.shiftr i 40); byte (Z.shiftr i 32); byte (Z.shiftr i 24);
     byte (Z.shiftr i 16); byte (Z.shiftr i 8); byte i]
  else
    [byte (Z.shiftr i 56); byte (Z.shiftr i 48); byte (Z.shiftr i 40); byte (Z.shiftr i 32);
     byte (Z.shiftr i 24); byte (Z.shiftr i 16); byte (Z.shiftr i 8); byte i].

(** The loop of [intsize]; eight iterations shift any [uint64] to zero. *)
Fixpoint intsize_loop (fuel : nat) (size i : Z) : Z :=
  match fuel with
  | O => size
  | S fuel =>
      let i := Z.shiftr i 8 in
      if i =? 0 then size else intsize_loop fuel (size + 1) i
  end.

Definition intsize (i : Z) : Z := intsize_loop 8 1 i.
#[global] Arguments intsize : simpl never.

Definition headsize (size : Z) : Z :=
  if size <? 56 then 1 else 1 + intsize size.

(** The bytes that [puthead] writes to its buffer. *)
Definition puthead (smalltag largetag size : Z) : list Z :=
  if size <? 56 then [byte (smalltag + byte size)]
  else
    let sz := putint size in
    byte (largetag + byte (Z.of_nat (length sz))) :: sz.

Definition ListSize (contentSize : Z) : Z := (headsize contentSize + contentSize)%u64.

(** ** Splitting (raw.go) *)

(** The big-endian integer that the switch of [readSize] assembles. *)
Definition readSize_value (b : list Z) (slen : Z) : outcome RlpError Z :=
  let at_ i := index b i in
  match slen with
  | 1 => at_ 0
  | 2 => b0 ← at_ 0; b1 ← at_ 1; Ok (Z.lor (Z.shiftl b0 8) b1)
  | 3 => b0 ← at_ 0; b1 ← at_ 1; b2 ← at_ 2; Ok (Z.lor (Z.lor (Z.shiftl b0 16) (Z.shiftl b1 8)) b2)
  | 4 => b0 ← at_ 0; b1 ← at_ 1; b2 ← at_ 2; b3 ← at_ 3;
         Ok (Z.lor (Z.lor (Z.lor (Z.shiftl b0 24) (Z.shiftl b1 16)) (Z.shiftl b2 8)) b3)
  | 5 => b0 ← at_ 0; b1 ← at_ 1; b2 ← at_ 2; b3 ← at_ 3; b4 ← at_ 4;
         Ok (Z.lor (Z.lor (Z.lor (Z.lor (Z.shiftl b0 32) (Z.shiftl b1 24)) (Z.shiftl b2 16))
                          (Z.shiftl b3 8)) b4)
  | 6 => b0 ← at_ 0; b1 ← at_ 1; b2 ← at_ 2; b3 ← at_ 3; b4 ← at_ 4; b5 ← at_ 5;
         Ok (Z.lor (Z.lor (Z.lor (Z.lor (Z.lor (Z.shiftl b0 40) (Z.shiftl b1 32)) (Z.shiftl b2 24))
                                 (Z.shiftl b3 16)) (Z.shiftl b4 8)) b5)
  | 7 => b0 ← at_ 0; b1 ← at_ 1; b2 ← at_ 2; b3 ← at_ 3; b4 ← at_ 4; b5 ← at_ 5; b6 ← at_ 6;
         Ok (Z.lor (Z.lor (Z.lor (Z.lor (Z.lor (Z.lor (Z.shiftl b0 48) (Z.shiftl b1 40))
                                               (Z.shiftl b2 32)) (Z.shiftl b3 24))
                                 (Z.shiftl b4 16)) (Z.shiftl b5 8)) b6)
  | 8 => b0 ← at_ 0; b1 ← at_ 1; b2 ← at_ 2; b3 ← at_ 3; b4 ← at_ 4; b5 ← at_ 5; b6 ← at_ 6; b7 ← at_ 7;
         Ok (Z.lor (Z.lor (Z.lor (Z.lor (Z.lor (Z.lor (Z.lor (Z.shiftl b0 56) (Z.shiftl b1 48))
                                                      (Z.shiftl b2 40)) (Z.shiftl b3 32))
                                        (Z.shiftl b4 24)) (Z.shiftl b5 16)) (Z.shiftl b6 8)) b7)
  | _ => Ok 0
  end.

Definition readSize (b : list Z) (slen : Z) : outcome RlpError Z :=
  if Z.of_nat (length b) <? slen then Err io_ErrUnexpectedEOF
  else
    s ← readSize_value b slen;
    if s <? 56 then Err ErrCanonSize
    else b0 ← index b 0; if b0 =? 0 then Err ErrCanonSize else Ok s.

(** The switch of [readKind] on the first byte: kind, tag size, content size. *)
Definition readKind_switch (b : Z) (rest : list Z) : outcome RlpError (Kind * Z * Z) :=
  if b <? 128 then Ok (KByte, 0, 1)
  else if b <? 184 then
    let contentsize := b - 128 in
    if (contentsize =? 1) && match rest with b1 :: _ => b1 <? 128 | [] => false end
    then Err ErrCanonSize
    else Ok (KString, 1, contentsize)
  else if b <? 192 then
    contentsize ← readSize rest (b - 183);
    Ok (KString, b - 183 + 1, contentsize)
  else if b <? 248 then Ok (KList, 1, b - 192)
  else
    contentsize ← readSize rest (b - 247);
    Ok (KList, b - 247 + 1, contentsize).

Definition readKind (buf : list Z) : outcome RlpError (Kind * Z * Z) :=
  match buf with
  | [] => Err io_ErrUnexpectedEOF
  | b :: rest =>
      '(k, tagsize, contentsize) ← readKind_switch b rest;
      if (Z.of_nat (length buf) - tagsize)%u64 <? contentsize then Err ErrValueTooLarge
      else Ok (k, tagsize, contentsize)
  end.

Definition Split (b : list Z) : outcome RlpError (Kind * list Z * list Z) :=
  '(k, ts, cs) ← readKind b;
  content ← slice b ts (ts + cs)%u64;
  rest ← slice b (ts + cs)%u64 (Z.of_nat (length b));
  Ok (k, content, rest).

Definition SplitString (b : list Z) : outcome RlpError (list Z * list Z) :=
  '(k, content, rest) ← Split b;
  if bool_decide (k = KList) then Err ErrExpectedString else Ok (content, rest).

Definition SplitList (b : list Z) : outcome RlpError (list Z * list Z) :=
  '(k, content, rest) ← Split b;
  if bool_decide (k = KList) then Ok (content, rest) else Err ErrExpectedList.

(** The loop of [CountValues]; every iteration consumes at least one byte, so
    [length b] iterations are enough. *)
Fixpoint CountValues_loop (fuel : nat) (b : list Z) (i : Z) : outcome RlpError Z :=
  match b, fuel with
  | [], _ => Ok i
  | _, O => Panic
  | _, S fuel =>
      '(_, tagsize, size) ← readKind b;
      b ← slice b (tagsize + size)%u64 (Z.of_nat (length b));
      CountValues_loop fuel b (i + 1)
  end.

Definition CountValues (b : list Z) : outcome RlpError Z := CountValues_loop (length b) b 0.

(** ** The encoder buffer (encode.go) *)

Record listhead := { lh_offset : Z; lh_size : Z }.

Record encbuf := {
  eb_str : list Z;
  eb_lheads : list listhead;
  eb_lhsize : Z;
}.

Definition encbuf_reset : encbuf := {| eb_str := []; eb_lheads := []; eb_lhsize := 0 |}.

Definition encbuf_size (w : encbuf) : Z := Z.of_nat (length (eb_str w)) + eb_lhsize w.

Definition encbuf_append (w : encbuf) (b : list Z) : encbuf :=
  {| eb_str := eb_str w ++ b; eb_lheads := eb_lheads w; eb_lhsize := eb_lhsize w |}.

Definition encodeStringHeader (w : encbuf) (size : Z) : encbuf :=
  if size <? 56 then encbuf_append w [byte (128 + byte size)]
  else
    let sz := putint (u64 size) in
    encbuf_append w (byte (183 + byte (Z.of_nat (length sz))) :: sz).

(** Also [writeString], whose body is the same on the bytes of the string. *)
Definition encodeString (w : encbuf) (b : list Z) : encbuf :=
  match b with
  | [b0] => if b0 <=? 127 then encbuf_append w [b0]
            else encbuf_append (encodeStringHeader w 1) b
  | _ => encbuf_append (encodeStringHeader w (Z.of_nat (length b))) b
  end.

(** [list] returns the position of the new head in [lheads]. *)
Definition encbuf_list (w : encbuf) : encbuf * nat :=
  ({| eb_str := eb_str w;
      eb_lheads := eb_lheads w ++
        [{| lh_offset := Z.of_nat (length (eb_str w)); lh_size := eb_lhsize w |}];
      eb_lhsize := eb_lhsize w |},
   length (eb_lheads w)).

Definition encbuf_listEnd (w : encbuf) (i : nat) : outcome RlpError encbuf :=
  lh ← deref (eb_lheads w !! i);
  let size := encbuf_size w - lh_offset lh - lh_size lh in
  Ok {| eb_str := eb_str w;
        eb_lheads := <[i := {| lh_offset := lh_offset lh; lh_size := size |}]> (eb_lheads w);
        eb_lhsize := eb_lhsize w + (if size <? 56 then 1 else 1 + intsize (u64 size)) |}.

Definition listhead_encode (h : listhead) : list Z := puthead 192 247 (u64 (lh_size h)).

(** The pieces written by the loop of [toBytes] and the final copy. *)
Fixpoint toBytes_loop (str : list Z) (strpos : Z) (heads : list listhead)
    : outcome RlpError (list Z) :=
  match heads with
  | [] => slice str strpos (Z.of_nat (length str))
  | h :: heads =>
      p ← slice str strpos (lh_offset h);
      rest ← toBytes_loop str (strpos + Z.of_nat (length p)) heads;
      Ok (p ++ listhead_encode h ++ rest)
  end.

(** The output is a fresh slice of [size()] bytes, to which the pieces are
    copied one after the other. *)
Definition toBytes (w : encbuf) : outcome RlpError (list Z) :=
  pieces ← toBytes_loop (eb_str w) 0 (eb_lheads w);
  let n := Z.to_nat (encbuf_size w) in
  Ok (take n (pieces ++ replicate n 0)).

(** ** Values and their writers

    A value as the encoder sees it by reflection, with one constructor per
    writer that [makeWriter] can choose. *)
Inductive value :=
| VUint (i : Z)
| VBool (b : bool)
| VBigIntPtr (p : option Z)
| VBytes (b : list Z)
| VRaw (b : list Z)
| VNilInterface
| VNilByteArrayPtr
| VNilStructPtr
| VSlice (l : list value)
| VTail (l : list value)
| VStruct (l : list value).

(** [big.Int.Bytes]: the big-endian bytes of the absolute value, without
    leading zeros. *)
Fixpoint be_bytes (n : nat) (z : Z) : list Z :=
  match n with
  | O => []
  | S n => be_bytes n (z / 256) ++ [z mod 256]
  end.

Definition byte_len (z : Z) : nat := if z =? 0 then O else Z.to_nat (Z.log2 z / 8 + 1).

Definition big_Bytes (z : Z) : list Z := be_bytes (byte_len (Z.abs z)) (Z.abs z).

Definition writeUint (i : Z) (w : encbuf) : encbuf :=
  if i =? 0 then encbuf_append w [128]
  else if i <? 128 then encbuf_append w [byte i]
  else let s := putint i in encbuf_append w (byte (128 + byte (Z.of_nat (length s))) :: s).

Definition writeBool (b : bool) (w : encbuf) : encbuf :=
  encbuf_append w [if b then 1 else 128].

Definition writeBigInt (i : Z) (w : encbuf) : outcome RlpError encbuf :=
  if i <? 0 then Err errNegativeBigInt
  else if i =? 0 then Ok (encbuf_append w [128])
  else Ok (encodeString w (big_Bytes i)).

Definition writeBigIntPtr (p : option Z) (w : encbuf) : outcome RlpError encbuf :=
  match p with
  | None => Ok (encbuf_append w [128])
  | Some i => writeBigInt i w
  end.

(** The element and field loops of the slice and struct writers. *)
Definition write_all (wr : value → encbuf → outcome RlpError encbuf) :=
  fix go (l : list value) (w : encbuf) : outcome RlpError encbuf :=
    match l with
    | [] => Ok w
    | v :: l => w ← wr v w; go l w
    end.

Fixpoint writer (v : value) (w : encbuf) : outcome RlpError encbuf :=
  match v with
  | VUint i => Ok (writeUint i w)
  | VBool b => Ok (writeBool b w)
  | VBigIntPtr p => writeBigIntPtr p w
  | VBytes b => Ok (encodeString w b)
  | VRaw b => Ok (encbuf_append w b)
  | VNilInterface => Ok (encbuf_append w [192])
  | VNilByteArrayPtr => Ok (encbuf_append w [128])
  | VNilStructPtr => let '(w, lh) := encbuf_list w in encbuf_listEnd w lh
  | VTail l => write_all writer l w
  | VSlice l | VStruct l =>
      let '(w, lh) := encbuf_list w in
      w ← write_all writer l w;
      encbuf_listEnd w lh
  end.

Definition EncodeToBytes (v : value) : outcome RlpError (list Z) :=
  w ← writer v encbuf_reset;
  toBytes w.

(** [toWriter], as the chunks it hands to a writer that accepts them all. *)
Fixpoint toWriter_loop (str : list Z) (strpos : Z) (heads : list listhead)
    : outcome RlpError (list (list Z)) :=
  match heads with
  | [] =>
      if strpos <? Z.of_nat (length str)
      then p ← slice str strpos (Z.of_nat (length str)); Ok [p]
      else Ok []
  | h :: heads =>
      if 0 <? lh_offset h - strpos then
        p ← slice str strpos (lh_offset h);
        rest ← toWriter_loop str (strpos + Z.of_nat (length p)) heads;
        Ok (p :: listhead_encode h :: rest)
      else
        rest ← toWriter_loop str strpos heads;
        Ok (listhead_encode h :: rest)
  end.

Definition toWriter (w : encbuf) : outcome RlpError (list (list Z)) :=
  toWriter_loop (eb_str w) 0 (eb_lheads w).

(** ** Reference encoding *)

(** Minimal big-endian bytes of a size, and the head of a payload. *)
Definition enc_head (small large : Z) (n : nat) : list Z :=
  if decide (n < 56)%nat then [small + Z.of_nat n]
  else let sz := big_Bytes (Z.of_nat n) in (large + Z.of_nat (length sz)) :: sz.

Definition enc_string (b : list Z) : list Z :=
  match b with
  | [b0] => if b0 <? 128 then [b0] else enc_head 128 183 1 ++ b
  | _ => enc_head 128 183 (length b) ++ b
  end.

Definition enc_list (payload : list Z) : list Z :=
  enc_head 192 247 (length payload) ++ payload.

Definition concat_opt (f : value → option (list Z)) :=
  fix go (l : list value) : option (list Z) :=
    match l with
    | [] => Some []
    | v :: l => b ← f v; bs ← go l; Some (b ++ bs)
    end.

(** The encoding of a value, defined by recursion on it; a negative integer
    has none. *)
Fixpoint enc_value (v : value) : option (list Z) :=
  match v with
  | VUint i => Some (enc_string (big_Bytes i))
  | VBool b => Some (enc_string (if b then [1] else []))
  | VBigIntPtr None => Some (enc_string [])
  | VBigIntPtr (Some z) => if z <? 0 then None else Some (enc_string (big_Bytes z))
  | VBytes b => Some (enc_string b)
  | VRaw b => Some b
  | VNilInterface | VNilStructPtr => Some (enc_list [])
  | VNilByteArrayPtr => Some (enc_string [])
  | VSlice l | VStruct l => enc_list <$> concat_opt enc_value l
  | VTail l => concat_opt enc_value l
  end.

(** The machine-width side condition on the integers of a value. *)
Fixpoint value_ok (v : value) : Prop :=
  match v with
  | VUint i => is_u64 i
  | VBytes b => is_bytes b
  | VSlice l | VTail l | VStruct l => foldr (λ v P, value_ok v ∧ P) True l
  | _ => True
  end.

(** ** Integers: the unrolled code against minimal big-endian bytes *)

(** The value of a big-endian byte string, [big.Int.SetBytes]. *)
Definition be_val (l : list Z) : Z := fold_left (λ a x, a * 256 + x) l 0.

Lemma be_val_snoc l x : be_val (l ++ [x]) = be_val l * 256 + x.
Proof. unfold be_val. by rewrite fold_left_app. Qed.

Lemma be_bytes_length n z : length (be_bytes n z) = n.
Proof. revert z. induction n as [|n IH]; intros z; [done|]. simpl. rewrite length_app, IH. simpl. lia. Qed.

Lemma be_bytes_bytes n z : is_bytes (be_bytes n z).
Proof.
  revert z. induction n as [|n IH]; intros z; [by constructor|]. simpl.
  apply Forall_app. split; [apply IH|]. constructor; [|constructor].
  apply Z.mod_pos_bound. lia.
Qed.

Lemma be_val_be_bytes n z : be_val (be_bytes n z) = z mod 256 ^ Z.of_nat n.
Proof.
  revert z. induction n as [|n IH]; intros z; [by rewrite Z.mod_1_r|].
  cbn [be_bytes]. rewrite be_val_snoc, IH, Nat2Z.inj_succ, Z.pow_succ_r by lia.
  rewrite Z.rem_mul_r by lia. lia.
Qed.

Lemma byte_len_bounds z : 0 < z →
  (0 < byte_len z)%nat ∧
  256 ^ (Z.of_nat (byte_len z) - 1) ≤ z < 256 ^ Z.of_nat (byte_len z).
Proof.
  intros Hz. unfold byte_len. destruct (Z.eqb_spec z 0); [lia|].
  pose proof (Z.log2_spec z Hz) as [Hlo Hhi]. pose proof (Z.log2_nonneg z).
  pose proof (Z.div_mod (Z.log2 z) 8 ltac:(lia)).
  pose proof (Z.mod_pos_bound (Z.log2 z) 8 ltac:(lia)).
  rewrite Z2Nat.id by lia. change 256 with (2 ^ 8).
  rewrite <- !Z.pow_mul_r by lia. split; [lia|]. split.
  - etransitivity; [|exact Hlo]. apply Z.pow_le_mono_r; lia.
  - eapply Z.lt_le_trans; [exact Hhi|]. apply Z.pow_le_mono_r; lia.
Qed.

Lemma byte_len_unique z n : (0 < n)%nat →
  256 ^ (Z.of_nat n - 1) ≤ z < 256 ^ Z.of_nat n → byte_len z = n.
Proof.
  intros Hn [Hlo Hhi].
  assert (0 < z) as Hz.
  { eapply Z.lt_le_trans; [|exact Hlo]. apply Z.pow_pos_nonneg; lia. }
  destruct (byte_len_bounds z Hz) as (Hm & Hlo' & Hhi'). set (m := byte_len z) in *.
  destruct (lt_eq_lt_dec m n) as [[H| ->]|H]; [|done|].
  - assert (256 ^ Z.of_nat m ≤ 256 ^ (Z.of_nat n - 1)) by (apply Z.pow_le_mono_r; lia). lia.
  - assert (256 ^ Z.of_nat n ≤ 256 ^ (Z.of_nat m - 1)) by (apply Z.pow_le_mono_r; lia). lia.
Qed.

Lemma be_val_big_Bytes z : be_val (big_Bytes z) = Z.abs z.
Proof.
  unfold big_Bytes. rewrite be_val_be_bytes.
  destruct (Z.eq_dec (Z.abs z) 0) as [E|E]; [by rewrite E|].
  destruct (byte_len_bounds (Z.abs z)) as (_ & _ & ?); [lia|].
  apply Z.mod_small. lia.
Qed.

Lemma length_big_Bytes z n : 0 ≤ z < 256 ^ Z.of_nat n → (length (big_Bytes z) ≤ n)%nat.
Proof.
  intros Hz. unfold big_Bytes. rewrite be_bytes_length, Z.abs_eq by lia. destruct (decide (z = 0)) as [->|Hne]; [cbn; lia|].
  destruct (byte_len_bounds z ltac:(lia)) as (_ & Hlo & _). destruct (decide (byte_len z ≤ n)%nat) as [|Hgt]; [done|].
  assert (256 ^ Z.of_nat n ≤ 256 ^ (Z.of_nat (byte_len z) - 1)) by (apply Z.pow_le_mono_r; lia). lia.
Qed.

Lemma big_Bytes_bytes z : is_bytes (big_Bytes z).
Proof. apply be_bytes_bytes. Qed.

(** Evaluate the powers with a constant exponent. *)
Ltac pow_norm :=
  repeat match goal with |- context [?b ^ ?e] =>
    let v := eval vm_compute in (b ^ e) in progress change (b ^ e) with v end.

Ltac size_cases i :=
  destruct (Z.ltb_spec i (Z.shiftl 1 8));
  [|destruct (Z.ltb_spec i (Z.shiftl 1 16));
  [|destruct (Z.ltb_spec i (Z.shiftl 1 24));
  [|destruct (Z.ltb_spec i (Z.shiftl 1 32));
  [|destruct (Z.ltb_spec i (Z.shiftl 1 40));
  [|destruct (Z.ltb_spec i (Z.shiftl 1 48));
  [|destruct (Z.ltb_spec i (Z.shiftl 1 56))]]]]]]; rewrite ?Z.shiftl_1_l in *.

Lemma putint_big_Bytes i : 0 < i < two64 → putint i = big_Bytes i.
Proof.
  intros Hi. unfold putint, big_Bytes, two64 in *. rewrite Z.abs_eq by lia.
  size_cases i;
    match goal with |- ?l = _ =>
      rewrite (byte_len_unique i (length l)); [|cbn; lia|pow_norm; lia] end;
    cbn [be_bytes length app]; unfold byte; rewrite ?Z.shiftr_div_pow2 by lia;
    rewrite ?Z.div_div by lia; reflexivity.
Qed.

Lemma intsize_putint i : 0 ≤ i < two64 → intsize i = Z.of_nat (length (putint i)).
Proof.
  intros Hi. unfold putint, intsize, two64 in *. cbn [intsize_loop].
  rewrite !Z.shiftr_shiftr, !Z.shiftr_div_pow2 by lia.
  pow_norm.
  size_cases i;
  repeat match goal with |- context [?a / ?b =? 0] =>
    first [rewrite (proj2 (Z.eqb_eq (a / b) 0)) by (apply Z.div_small; lia)
          |rewrite (proj2 (Z.eqb_neq (a / b) 0)) by (assert (0 < a / b) by (apply Z.div_str_pos; lia); lia)] end;
  reflexivity.
Qed.

Lemma putint_length i : 0 ≤ i < two64 → (1 ≤ length (putint i) ≤ 8)%nat.
Proof. intros Hi. unfold putint. size_cases i; cbn; lia. Qed.

(** ** The encoder buffer implements the reference encoding *)

Lemma puthead_enc_head small large n :
  0 ≤ small ≤ 192 → 0 ≤ large ≤ 247 → Z.of_nat n < two64 →
  puthead small large (Z.of_nat n) = enc_head small large n.
Proof.
  intros Hs Hl Hn. unfold puthead, enc_head, byte.
  destruct (Z.ltb_spec (Z.of_nat n) 56), (decide (n < 56)%nat); try lia.
  - rewrite (Z.mod_small (Z.of_nat n)) by lia. by rewrite Z.mod_small by lia.
  - assert (0 ≤ Z.of_nat n < two64) as Hb by lia. pose proof (putint_length _ Hb).
    rewrite <- putint_big_Bytes by lia.
    rewrite (Z.mod_small (Z.of_nat (length _))) by lia. by rewrite Z.mod_small by lia.
Qed.

Lemma headsize_enc_head small large n : Z.of_nat n < two64 →
  Z.of_nat (length (enc_head small large n)) = headsize (Z.of_nat n).
Proof.
  intros Hn. unfold headsize, enc_head.
  destruct (Z.ltb_spec (Z.of_nat n) 56), (decide (n < 56)%nat); try lia; [done|].
  cbn [length]. rewrite intsize_putint by lia. rewrite putint_big_Bytes by lia. lia.
Qed.

Lemma encodeStringHeader_spec w n : Z.of_nat n < two64 →
  encodeStringHeader w (Z.of_nat n) = encbuf_append w (enc_head 128 183 n).
Proof.
  intros Hn. rewrite <- puthead_enc_head by lia. unfold encodeStringHeader, puthead.
  rewrite u64_small by (unfold is_u64; lia). by destruct (_ <? _).
Qed.

Lemma encbuf_append_app w a b : encbuf_append (encbuf_append w a) b = encbuf_append w (a ++ b).
Proof. unfold encbuf_append. simpl. by rewrite (assoc_L (++)). Qed.

Lemma encodeString_spec w b : Z.of_nat (length b) < two64 →
  encodeString w b = encbuf_append w (enc_string b).
Proof.
  intros Hn. destruct b as [|b0 [|b1 b]]; unfold encodeString, enc_string.
  - by rewrite encodeStringHeader_spec, encbuf_append_app.
  - change 1 with (Z.of_nat 1). rewrite encodeStringHeader_spec by (cbn in *; lia). rewrite encbuf_append_app.
    destruct (Z.leb_spec b0 127), (Z.ltb_spec b0 128); done || lia.
  - by rewrite encodeStringHeader_spec, encbuf_append_app.
Qed.

Lemma writeUint_spec w i : is_u64 i → writeUint i w = encbuf_append w (enc_string (big_Bytes i)).
Proof.
  unfold is_u64. intros Hi. unfold writeUint. destruct (Z.eqb_spec i 0) as [->|]; [done|].
  pose proof (putint_big_Bytes i ltac:(lia)) as E. pose proof (putint_length i ltac:(lia)) as HL.
  rewrite E in *. destruct (Z.ltb_spec i 128).
  - assert (big_Bytes i = [i]) as ->.
    { rewrite <- E. unfold putint, byte. rewrite Z.shiftl_1_l.
      destruct (Z.ltb_spec i (2 ^ 8)); [by rewrite Z.mod_small by lia|lia]. }
    unfold enc_string, byte. rewrite Z.mod_small by lia.
    by destruct (Z.ltb_spec i 128); [|lia].
  - assert (∀ b, big_Bytes i = [b] → b = i) as H1.
    { intros b Hb. pose proof (be_val_big_Bytes i) as Hv. rewrite Hb in Hv. cbn in Hv. lia. }
    assert (enc_string (big_Bytes i) = enc_head 128 183 (length (big_Bytes i)) ++ big_Bytes i) as ->.
    { destruct (big_Bytes i) as [|b [|]]; try done. rewrite (H1 b eq_refl).
      unfold enc_string. by destruct (Z.ltb_spec i 128); [lia|]. }
    unfold enc_head, byte. destruct (decide _); [|lia].
    rewrite (Z.mod_small (Z.of_nat _)) by lia. by rewrite Z.mod_small by lia.
Qed.

(** The bytes that result from a string [s], which starts at offset [off] of
    the buffer, when the heads [hs] are inserted in it. *)
Fixpoint insert_heads (hs : list listhead) (off : Z) (s : list Z) : list Z :=
  match hs with
  | [] => s
  | h :: hs =>
      let n := Z.to_nat (lh_offset h - off) in
      take n s ++ listhead_encode h ++ insert_heads hs (lh_offset h) (drop n s)
  end.

Fixpoint heads_in (lo hi : Z) (hs : list listhead) : Prop :=
  match hs with
  | [] => lo ≤ hi
  | h :: hs => lo ≤ lh_offset h ∧ heads_in (lh_offset h) hi hs
  end.

Notation strlen l := (Z.of_nat (length l)).

(** [w'] is [w] after writing data whose final bytes are [out]. *)
Definition emits (w w' : encbuf) (out : list Z) : Prop :=
  ∃ s hs,
    eb_str w' = eb_str w ++ s ∧
    eb_lheads w' = eb_lheads w ++ hs ∧
    heads_in (strlen (eb_str w)) (strlen (eb_str w) + strlen s) hs ∧
    insert_heads hs (strlen (eb_str w)) s = out ∧
    encbuf_size w' = encbuf_size w + strlen out.

Lemma heads_in_le lo hi hs : heads_in lo hi hs → lo ≤ hi.
Proof. revert lo. induction hs as [|h hs IH]; simpl; [done|]. intros lo [? ?%IH]. lia. Qed.

Lemma heads_in_app lo mid hi hs1 hs2 :
  heads_in lo mid hs1 → heads_in mid hi hs2 → heads_in lo hi (hs1 ++ hs2).
Proof.
  revert lo. induction hs1 as [|h hs1 IH]; simpl; intros lo.
  - destruct hs2 as [|h2 hs2]; simpl; [lia|]. intros ? [? ?]. split; [lia|done].
  - intros [? ?] ?. eauto.
Qed.

Lemma insert_heads_prefix hs off s1 s2 :
  heads_in (off + strlen s1) (off + strlen s1 + strlen s2) hs →
  insert_heads hs off (s1 ++ s2) = s1 ++ insert_heads hs (off + strlen s1) s2.
Proof.
  destruct hs as [|h hs]; simpl; [done|]. intros [Hlo _].
  replace (Z.to_nat (lh_offset h - off))
    with (length s1 + Z.to_nat (lh_offset h - (off + strlen s1)))%nat by lia.
  rewrite take_app_add, drop_app_add. by rewrite <- !(assoc_L (++)).
Qed.

Lemma insert_heads_app hs1 hs2 off s1 s2 :
  heads_in off (off + strlen s1) hs1 →
  heads_in (off + strlen s1) (off + strlen s1 + strlen s2) hs2 →
  insert_heads (hs1 ++ hs2) off (s1 ++ s2) =
  insert_heads hs1 off s1 ++ insert_heads hs2 (off + strlen s1) s2.
Proof.
  revert off s1. induction hs1 as [|h hs1 IH]; intros off s1 H1 H2.
  - by apply insert_heads_prefix.
  - destruct H1 as [Hlo H1]. cbn [insert_heads app].
    pose proof (heads_in_le _ _ _ H1) as Hhi. set (n := Z.to_nat (lh_offset h - off)).
    assert (n ≤ length s1)%nat by lia.
    rewrite take_app_le, drop_app_le by lia.
    assert (lh_offset h + strlen (drop n s1) = off + strlen s1) as E
      by (rewrite length_drop; lia).
    rewrite IH; [|by rewrite E|by rewrite E]. rewrite E. by rewrite <- !(assoc_L (++)).
Qed.

Lemma emits_refl w : emits w w [].
Proof. exists [], []. rewrite !app_nil_r. cbn. repeat split; lia. Qed.

Lemma emits_append w b : emits w (encbuf_append w b) b.
Proof.
  exists b, []. unfold encbuf_size. cbn. rewrite app_nil_r, length_app. repeat split; lia.
Qed.

Lemma emits_trans w1 w2 w3 o1 o2 : emits w1 w2 o1 → emits w2 w3 o2 → emits w1 w3 (o1 ++ o2).
Proof.
  intros (s1 & hs1 & E1 & L1 & H1 & I1 & Z1) (s2 & hs2 & E2 & L2 & H2 & I2 & Z2).
  rewrite E1, length_app, Nat2Z.inj_add in H2, I2.
  exists (s1 ++ s2), (hs1 ++ hs2). rewrite E2, E1, L2, L1, <- !(assoc_L (++)).
  split_and!; [done|done| | |].
  - rewrite length_app, Nat2Z.inj_add, Z.add_assoc. by eapply heads_in_app.
  - rewrite insert_heads_app by done. congruence.
  - rewrite length_app. lia.
Qed.

(** Opening a list, writing its payload and closing it. *)
Lemma emits_list w w1 w2 lh payload :
  encbuf_list w = (w1, lh) → emits w1 w2 payload → strlen payload < two64 →
  ∃ w3, encbuf_listEnd w2 lh = Ok w3 ∧ emits w w3 (enc_list payload).
Proof.
  intros [= <- <-] (s & hs & E & L & H & I & Sz) Hp.
  unfold encbuf_size in Sz. cbn in *.
  unfold encbuf_listEnd. rewrite L, <- (assoc_L (++)). cbn [app]. rewrite list_lookup_middle by done.
  cbn [deref]. rewrite bind_Ok. cbn [lh_offset lh_size].
  set (sz := encbuf_size w2 - _ - _).
  assert (sz = strlen payload) as -> by (unfold sz, encbuf_size; lia).
  eexists. split; [reflexivity|].
  exists s, ({| lh_offset := strlen (eb_str w); lh_size := strlen payload |} :: hs). cbn.
  split_and!; [done| |lia|done| |].
  - rewrite insert_app_r_alt, Nat.sub_diag by lia. done.
  - rewrite Z.sub_diag. cbn. unfold enc_list, listhead_encode. cbn.
    rewrite u64_small by (unfold is_u64; lia). rewrite puthead_enc_head by lia. by rewrite drop_0, I.
  - unfold encbuf_size, enc_list. cbn. rewrite length_app, Nat2Z.inj_add.
    rewrite headsize_enc_head by done. unfold headsize.
    rewrite u64_small by (unfold is_u64; lia). destruct (_ <? _); lia.
Qed.

(** Induction on values, with the hypothesis for every element of a list. *)
Lemma value_ind_list (P : value → Prop) :
  (∀ i, P (VUint i)) → (∀ b, P (VBool b)) → (∀ p, P (VBigIntPtr p)) → (∀ b, P (VBytes b)) →
  (∀ b, P (VRaw b)) → P VNilInterface → P VNilByteArrayPtr → P VNilStructPtr →
  (∀ l, Forall P l → P (VSlice l)) → (∀ l, Forall P l → P (VTail l)) →
  (∀ l, Forall P l → P (VStruct l)) → ∀ v, P v.
Proof.
  intros H1 H2 H3 H4 H5 H6 H7 H8 H9 H10 H11. fix IH 1.
  assert (∀ l, Forall P l) as HL.
  { fix IHl 1. intros [|v l]; constructor; [apply IH|apply IHl]. }
  intros [i|b|p|b|b| | | |l|l|l];
    [apply H1|apply H2|apply H3|apply H4|apply H5|apply H6|apply H7|apply H8
    |apply H9, HL|apply H10, HL|apply H11, HL].
Qed.

(** What a writer has to do for a value: fail on a negative integer, and
    otherwise emit the reference encoding. *)
Definition writes (v : value) : Prop :=
  ∀ w, value_ok v →
    match enc_value v with
    | Some out => strlen out < two64 → ∃ w', writer v w = Ok w' ∧ emits w w' out
    | None => True
    end.

Lemma write_all_emits l : Forall writes l → foldr (λ v P, value_ok v ∧ P) True l →
  ∀ w out, concat_opt enc_value l = Some out → strlen out < two64 →
  ∃ w', write_all writer l w = Ok w' ∧ emits w w' out.
Proof.
  induction 1 as [|v l Hv _ IH]; cbn [foldr concat_opt write_all]; intros Hok w out Hout Hlen.
  - simplify_eq. exists w. split; [done|apply emits_refl].
  - destruct Hok as [Hvo Hok]. apply bind_Some in Hout as (b & Hb & (bs & Hbs & [= <-])%bind_Some).
    rewrite length_app in Hlen. specialize (Hv w Hvo). rewrite Hb in Hv.
    destruct Hv as (w1 & Hw1 & He1); [lia|].
    destruct (IH Hok w1 bs Hbs) as (w2 & Hw2 & He2); [lia|].
    exists w2. rewrite Hw1. split; [exact Hw2|]. by eapply emits_trans.
Qed.

Lemma write_list_emits l : Forall writes l → foldr (λ v P, value_ok v ∧ P) True l →
  ∀ w out, enc_list <$> concat_opt enc_value l = Some out → strlen out < two64 →
  ∃ w', (let '(w, lh) := encbuf_list w in
         w ← write_all writer l w; encbuf_listEnd w lh) = Ok w' ∧ emits w w' out.
Proof.
  intros Hl Hok w out Hout Hlen. apply fmap_Some in Hout as (p & Hp & ->).
  unfold enc_list in Hlen. rewrite length_app in Hlen.
  destruct (encbuf_list w) as [w1 lh] eqn:Ew.
  destruct (write_all_emits l Hl Hok w1 p Hp) as (w2 & Hw2 & He2); [lia|].
  rewrite Hw2, bind_Ok. eapply emits_list; [done|done|lia].
Qed.

Lemma enc_string_length b : strlen b ≤ strlen (enc_string b).
Proof.
  destruct b as [|b0 [|b1 l]]; unfold enc_string; [cbn; lia| |].
  - destruct (_ <? _); rewrite ?length_app; lia.
  - rewrite length_app. lia.
Qed.

Lemma writer_writes v : writes v.
Proof.
  induction v using value_ind_list; intros w Hok; cbn [enc_value writer value_ok] in *.
  - intros _. rewrite writeUint_spec by done. eauto using emits_append.
  - intros _. unfold writeBool. destruct b; eauto using emits_append.
  - destruct p as [z|]; cbn; [|eauto using emits_append].
    unfold writeBigInt. destruct (Z.ltb_spec z 0); [done|]. intros Hlen.
    destruct (Z.eqb_spec z 0) as [->|]; [eauto using emits_append|].
    pose proof (enc_string_length (big_Bytes z)).
    rewrite encodeString_spec by lia. eauto using emits_append.
  - intros Hlen. pose proof (enc_string_length b).
    rewrite encodeString_spec by lia. eauto using emits_append.
  - eauto using emits_append.
  - eauto using emits_append.
  - eauto using emits_append.
  - intros _. destruct (encbuf_list w) as [w1 lh] eqn:Ew.
    eapply emits_list; [done|apply emits_refl|done].
  - destruct (_ <$> _) eqn:E; [|done]. intros. by apply write_list_emits.
  - destruct (concat_opt _ _) eqn:E; [|done]. intros. by apply write_all_emits.
  - destruct (_ <$> _) eqn:E; [|done]. intros. by apply write_list_emits.
Qed.

(** A value without an encoding makes the encoder fail, whatever the sizes:
    the list heads are never missing. *)
Definition fails_or_returns (v : value) : Prop :=
  ∀ w, match enc_value v with
       | Some _ => ∃ w', writer v w = Ok w' ∧ (length (eb_lheads w) ≤ length (eb_lheads w'))%nat
       | None => writer v w = Err errNegativeBigInt
       end.

Lemma encodeString_lheads w b : eb_lheads (encodeString w b) = eb_lheads w.
Proof.
  destruct b as [|b0 [|b1 b]]; unfold encodeString, encodeStringHeader;
    repeat case_match; done.
Qed.

Lemma write_all_returns l : Forall fails_or_returns l → ∀ w,
  match concat_opt enc_value l with
  | Some _ => ∃ w', write_all writer l w = Ok w' ∧ (length (eb_lheads w) ≤ length (eb_lheads w'))%nat
  | None => write_all writer l w = Err errNegativeBigInt
  end.
Proof.
  induction 1 as [|v l Hv _ IH]; intros w; cbn [concat_opt write_all]; [by exists w|].
  specialize (Hv w). destruct (enc_value v) as [b|]; cbn [mbind option_bind].
  - destruct Hv as (w1 & -> & H1). rewrite bind_Ok. specialize (IH w1).
    destruct (concat_opt enc_value l); cbn [mbind option_bind]; [|done].
    destruct IH as (w2 & Hw2 & H2). exists w2. split; [done|lia].
  - by rewrite Hv.
Qed.

Lemma listEnd_returns w i : (i < length (eb_lheads w))%nat →
  ∃ w', encbuf_listEnd w i = Ok w' ∧ length (eb_lheads w') = length (eb_lheads w).
Proof.
  intros [h Hh]%lookup_lt_is_Some_2. unfold encbuf_listEnd. rewrite Hh. cbn [deref].
  rewrite bind_Ok. eexists. split; [done|]. cbn. by rewrite length_insert.
Qed.

Lemma write_list_returns l : Forall fails_or_returns l → ∀ w,
  match enc_list <$> concat_opt enc_value l with
  | Some _ => ∃ w', (let '(w, lh) := encbuf_list w in
                     w ← write_all writer l w; encbuf_listEnd w lh) = Ok w' ∧
                    (length (eb_lheads w) ≤ length (eb_lheads w'))%nat
  | None => (let '(w, lh) := encbuf_list w in
             w ← write_all writer l w; encbuf_listEnd w lh) = Err errNegativeBigInt
  end.
Proof.
  intros Hl w. cbn [encbuf_list]. set (w1 := {| eb_str := eb_str w |}).
  assert (length (eb_lheads w) < length (eb_lheads w1))%nat
    by (unfold w1; cbn; rewrite length_app; cbn; lia).
  pose proof (write_all_returns l Hl w1) as H1. unfold encbuf_list.
  destruct (concat_opt enc_value l); cbn [fmap option_fmap option_map].
  - destruct H1 as (w2 & -> & H2). rewrite bind_Ok.
    destruct (listEnd_returns w2 (length (eb_lheads w))) as (w3 & -> & E); [lia|].
    exists w3. split; [done|lia].
  - by rewrite H1.
Qed.

Lemma writer_returns v : fails_or_returns v.
Proof.
  induction v using value_ind_list; intros w; cbn [enc_value writer].
  - eexists. split; [done|]. unfold writeUint. by repeat case_match.
  - by eexists.
  - destruct p as [z|]; cbn; [|by eexists]. unfold writeBigInt.
    destruct (Z.ltb_spec z 0); [done|].
    destruct (Z.eqb_spec z 0); eexists; (split; [done|]); by rewrite ?encodeString_lheads.
  - eexists. split; [done|]. by rewrite encodeString_lheads.
  - by eexists.
  - by eexists.
  - by eexists.
  - apply (write_list_returns []). constructor.
  - by apply write_list_returns.
  - by apply write_all_returns.
  - by apply write_list_returns.
Qed.

Lemma slice_from {E} (pre s : list Z) (n : nat) : (n ≤ length s)%nat →
  slice (E := E) (pre ++ s) (strlen pre) (strlen pre + Z.of_nat n) = Ok (take n s).
Proof.
  intros Hn. unfold slice. rewrite length_app.
  rewrite (proj2 (Z.leb_le 0 _)), (proj2 (Z.leb_le (strlen pre) _)), (proj2 (Z.leb_le _ (Z.of_nat _))) by lia.
  cbn [andb]. rewrite Nat2Z.id, drop_app_length. do 3 f_equal. lia.
Qed.

Lemma slice_all {E} (pre s : list Z) :
  slice (E := E) (pre ++ s) (strlen pre) (strlen (pre ++ s)) = Ok s.
Proof. rewrite length_app, Nat2Z.inj_add, slice_from by done. by rewrite firstn_all. Qed.

Lemma toBytes_loop_spec hs pre s :
  heads_in (strlen pre) (strlen pre + strlen s) hs →
  toBytes_loop (pre ++ s) (strlen pre) hs = Ok (insert_heads hs (strlen pre) s).
Proof.
  revert pre s. induction hs as [|h hs IH]; intros pre s H; cbn [toBytes_loop insert_heads].
  - apply slice_all.
  - destruct H as [Hlo H]. pose proof (heads_in_le _ _ _ H) as Hhi.
    set (n := Z.to_nat (lh_offset h - strlen pre)).
    replace (lh_offset h) with (strlen pre + Z.of_nat n) in * by lia.
    rewrite slice_from, bind_Ok by lia.
    specialize (IH (pre ++ take n s) (drop n s)).
    rewrite <- (assoc_L (++)), take_drop, !length_app, length_take_le, Nat2Z.inj_add, length_drop in IH by lia.
    rewrite length_take_le by lia. rewrite IH; [done|].
    by replace (strlen pre + Z.of_nat n + Z.of_nat (length s - n))
      with (strlen pre + strlen s) by lia.
Qed.

Lemma toWriter_loop_spec hs pre s :
  heads_in (strlen pre) (strlen pre + strlen s) hs →
  ∃ chunks, toWriter_loop (pre ++ s) (strlen pre) hs = Ok chunks ∧
            concat chunks = insert_heads hs (strlen pre) s.
Proof.
  revert pre s. induction hs as [|h hs IH]; intros pre s H; cbn [toWriter_loop insert_heads].
  - destruct (Z.ltb_spec (strlen pre) (strlen (pre ++ s))) as [Hlt|Hge].
    + rewrite slice_all. eexists. split; [done|]. cbn. by rewrite app_nil_r.
    + rewrite length_app in Hge. assert (s = []) as -> by (apply length_zero_iff_nil; lia).
      by eexists.
  - destruct H as [Hlo H]. pose proof (heads_in_le _ _ _ H) as Hhi.
    set (n := Z.to_nat (lh_offset h - strlen pre)).
    replace (lh_offset h) with (strlen pre + Z.of_nat n) in * by lia.
    specialize (IH (pre ++ take n s) (drop n s)).
    rewrite <- (assoc_L (++)), take_drop, !length_app, length_take_le, Nat2Z.inj_add, length_drop in IH by lia.
    destruct IH as (ch & Hch & Ech).
    { by replace (strlen pre + Z.of_nat n + Z.of_nat (length s - n))
        with (strlen pre + strlen s) by lia. }
    destruct (Z.ltb_spec 0 (strlen pre + Z.of_nat n - strlen pre)) as [Hn|Hn].
    + rewrite slice_from, bind_Ok by lia. rewrite length_take_le by lia. rewrite Hch, bind_Ok.
      eexists. split; [done|]. cbn. by rewrite Ech.
    + clearbody n. assert (n = 0%nat) as -> by lia. cbn in Hch, Ech. rewrite Z.add_0_r in *.
      rewrite Hch, bind_Ok. eexists. split; [done|]. cbn. by rewrite Ech.
Qed.

(** ** Splitting accepts exactly the canonical encodings *)

Definition enc_kind (k : Kind) (c : list Z) : list Z :=
  match k with KList => enc_list c | _ => enc_string c end.

Definition string_kind (c : list Z) : Kind :=
  match c with [b0] => if b0 <? 128 then KByte else KString | _ => KString end.

Lemma lor_shiftl_add a b n : 0 ≤ n → 0 ≤ b < 2 ^ n → Z.lor (Z.shiftl a n) b = a * 2 ^ n + b.
Proof.
  intros Hn Hb. rewrite <- Z.shiftl_mul_pow2 by lia.
  assert (Z.land (Z.shiftl a n) b = 0) as Hand.
  { apply Z.bits_inj'. intros i Hi. rewrite Z.land_spec, Z.bits_0.
    destruct (Z.lt_ge_cases i n).
    - by rewrite Z.shiftl_spec_low.
    - destruct (Z.eq_dec b 0) as [->|]; [by rewrite Z.bits_0, andb_false_r|].
      rewrite (Z.bits_above_log2 b i); [apply andb_false_r|lia|].
      apply Z.log2_lt_pow2; [lia|]. eapply Z.lt_le_trans; [apply Hb|]. apply Z.pow_le_mono_r; lia. }
  rewrite Z.add_nocarry_lxor by done. symmetry. by apply Z.lxor_lor.
Qed.

Lemma lor_horner a b n m : n = m + 8 → 0 ≤ m → is_byte b →
  Z.lor (Z.shiftl a n) (Z.shiftl b m) = Z.shiftl (a * 256 + b) m.
Proof.
  unfold is_byte. intros -> Hm Hb. rewrite Z.add_comm, <- Z.shiftl_shiftl by lia.
  rewrite <- Z.shiftl_lor. by rewrite lor_shiftl_add by lia.
Qed.

Lemma lor_horner_last a b : is_byte b → Z.lor (Z.shiftl a 8) b = a * 256 + b.
Proof. unfold is_byte. intros. by rewrite lor_shiftl_add by lia. Qed.

Definition readSize_result (s b0 : Z) : outcome RlpError Z :=
  if s <? 56 then Err ErrCanonSize else if b0 =? 0 then Err ErrCanonSize else Ok s.

Lemma readSize_value_spec (l tl : list Z) : is_bytes l → (1 ≤ length l ≤ 8)%nat →
  readSize_value (l ++ tl) (strlen l) = Ok (be_val l).
Proof.
  unfold is_bytes. intros Hb Hl.
  destruct l as [|b0 [|b1 [|b2 [|b3 [|b4 [|b5 [|b6 [|b7 [|]]]]]]]]]; cbn in Hl; try lia;
    rewrite !Forall_cons_iff in Hb; destruct_and! Hb;
    cbv -[Z.shiftl Z.lor Z.mul Z.add];
    repeat (rewrite lor_horner; [|reflexivity|lia|assumption]);
    rewrite ?lor_horner_last by assumption; rewrite ?Z.mul_0_l, ?Z.add_0_l; reflexivity.
Qed.

Lemma readSize_spec (l tl : list Z) : is_bytes l → (1 ≤ length l ≤ 8)%nat →
  readSize (l ++ tl) (strlen l) = readSize_result (be_val l) (hd 0 l).
Proof.
  intros Hb Hl. unfold readSize, readSize_result.
  rewrite length_app. destruct (Z.ltb_spec (Z.of_nat (length l + length tl)) (strlen l)); [lia|].
  rewrite readSize_value_spec, bind_Ok by done. destruct l; [cbn in Hl; lia|done].
Qed.

Lemma is_bytes_snoc l x : is_bytes (l ++ [x]) → is_bytes l ∧ 0 ≤ x < 256.
Proof. intros [Hl Hx]%Forall_app. by inversion Hx. Qed.

Lemma be_val_bounds l : is_bytes l → 0 ≤ be_val l < 256 ^ strlen l.
Proof.
  induction l as [|x l IH] using rev_ind; [by cbn|].
  intros [Hl Hx]%is_bytes_snoc. specialize (IH Hl).
  rewrite be_val_snoc, length_app, Nat.add_comm. cbn [length Nat.add].
  rewrite Nat2Z.inj_succ, Z.pow_succ_r by lia. lia.
Qed.

Lemma be_val_cons x l : be_val (x :: l) = x * 256 ^ strlen l + be_val l.
Proof.
  induction l as [|y l IH] using rev_ind; [cbn; lia|].
  rewrite app_comm_cons, !be_val_snoc, IH, length_app, Nat.add_comm. cbn [length Nat.add].
  rewrite Nat2Z.inj_succ, Z.pow_succ_r by lia. lia.
Qed.

Lemma be_bytes_be_val l : is_bytes l → be_bytes (length l) (be_val l) = l.
Proof.
  induction l as [|x l IH] using rev_ind; [done|].
  intros [Hl Hx]%is_bytes_snoc.
  rewrite be_val_snoc, length_app, Nat.add_comm. cbn [length Nat.add be_bytes].
  rewrite Z.div_add_l, Z.div_small, Z.add_0_r, IH by (done || lia).
  by rewrite Z.add_comm, Z_mod_plus_full, Z.mod_small by lia.
Qed.

(** A byte string without leading zero is the minimal form of its value. *)
Lemma big_Bytes_be_val l : is_bytes l → hd 1 l ≠ 0 → big_Bytes (be_val l) = l.
Proof.
  intros Hl Hhd. pose proof (be_val_bounds l Hl) as Hb. unfold big_Bytes.
  rewrite Z.abs_eq by lia. destruct l as [|x l]; [done|].
  rewrite (byte_len_unique _ (length (x :: l))); [by apply be_bytes_be_val|cbn; lia|].
  split; [|lia]. cbn [hd] in Hhd. apply Forall_cons_iff in Hl as [Hx Hl]. unfold is_byte in Hx.
  pose proof (be_val_bounds l Hl). rewrite be_val_cons. cbn [length].
  replace (Z.of_nat (S (length l)) - 1) with (strlen l) by lia. nia.
Qed.

Lemma big_Bytes_hd z : 0 < z → hd 0 (big_Bytes z) ≠ 0.
Proof.
  intros Hz E. destruct (byte_len_bounds z Hz) as (Hn & Hlo & _).
  pose proof (be_val_big_Bytes z) as Hv. rewrite Z.abs_eq in Hv by lia.
  pose proof (big_Bytes_bytes z) as Hb. unfold big_Bytes in *. rewrite Z.abs_eq in * by lia.
  pose proof (be_bytes_length (byte_len z) z) as HL.
  destruct (be_bytes (byte_len z) z) as [|x l]; cbn [length hd] in *; [lia|]. subst x.
  apply Forall_cons_iff in Hb as [_ Hb]. pose proof (be_val_bounds l Hb).
  rewrite be_val_cons in Hv. replace (Z.of_nat (byte_len z) - 1) with (strlen l) in Hlo by lia. lia.
Qed.

Lemma big_Bytes_size z : 0 < z < two64 → (1 ≤ length (big_Bytes z) ≤ 8)%nat.
Proof. intros Hz. rewrite <- putint_big_Bytes by done. apply putint_length. lia. Qed.

Lemma be_val_lt_two64 l : is_bytes l → (length l ≤ 8)%nat → be_val l < two64.
Proof.
  intros Hl Hn. pose proof (be_val_bounds l Hl).
  assert (256 ^ strlen l ≤ 256 ^ 8) by (apply Z.pow_le_mono_r; lia).
  change two64 with (256 ^ 8). lia.
Qed.

Lemma readSize_cases b slen : is_bytes b → 1 ≤ slen ≤ 8 →
  readSize b slen = Err io_ErrUnexpectedEOF ∨
  ∃ l tl, b = l ++ tl ∧ is_bytes l ∧ strlen l = slen ∧
          readSize b slen = readSize_result (be_val l) (hd 0 l).
Proof.
  intros Hb Hslen. destruct (decide (strlen b < slen)) as [Hlt|Hge].
  - left. unfold readSize. by rewrite (proj2 (Z.ltb_lt _ _) Hlt).
  - right. pose proof (take_drop (Z.to_nat slen) b) as E.
    assert (length (take (Z.to_nat slen) b) = Z.to_nat slen) as HL by (rewrite length_take; lia).
    set (l := take _ b) in *. clearbody l.
    assert (is_bytes l) as Hl by (rewrite <- E in Hb; by apply Forall_app in Hb as [Hb _]).
    pose proof (readSize_spec l (drop (Z.to_nat slen) b) Hl ltac:(lia)) as R. rewrite E in R.
    exists l, (drop (Z.to_nat slen) b). split_and!; [done|done|lia|].
    by replace slen with (strlen l) by lia.
Qed.

(** [readSize] succeeds exactly on the minimal form of a size of 56 or more. *)
Lemma readSize_ok b slen s : is_bytes b → 1 ≤ slen ≤ 8 →
  readSize b slen = Ok s ↔
  ∃ tl, b = big_Bytes s ++ tl ∧ strlen (big_Bytes s) = slen ∧ 56 ≤ s < two64.
Proof.
  intros Hb Hslen. split.
  - destruct (readSize_cases b slen Hb Hslen) as [->|(l & tl & -> & Hl & HL & ->)]; [done|].
    unfold readSize_result.
    destruct (Z.ltb_spec (be_val l) 56); [done|].
    destruct (Z.eqb_spec (hd 0 l) 0) as [|Hhd]; [done|]. intros [= <-].
    rewrite big_Bytes_be_val; [|done|by destruct l].
    exists tl. pose proof (be_val_lt_two64 l Hl ltac:(lia)). split_and!; done || lia.
  - intros (tl & -> & <- & Hs). apply Forall_app in Hb as [Hb _].
    pose proof (big_Bytes_size s ltac:(lia)). rewrite readSize_spec by done.
    unfold readSize_result. rewrite be_val_big_Bytes, Z.abs_eq by lia.
    destruct (Z.ltb_spec s 56); [lia|].
    destruct (Z.eqb_spec (hd 0 (big_Bytes s)) 0) as [E|]; [|done].
    by apply big_Bytes_hd in E; [|lia].
Qed.

Lemma readSize_no_panic b slen : is_bytes b → 1 ≤ slen ≤ 8 → readSize b slen ≠ Panic.
Proof.
  intros Hb Hslen.
  destruct (readSize_cases b slen Hb Hslen) as [->|(l & tl & -> & Hl & HL & ->)]; [done|].
  unfold readSize_result. by repeat case_match.
Qed.

(** ** The encoder *)

(** Encoding to a writer that accepts every chunk. *)
Definition Encode (v : value) : outcome RlpError (list (list Z)) :=
  w ← writer v encbuf_reset;
  toWriter w.

Lemma writer_from_reset v out : value_ok v → enc_value v = Some out → strlen out < two64 →
  ∃ w, writer v encbuf_reset = Ok w ∧ encbuf_size w = strlen out ∧
       heads_in 0 (strlen (eb_str w)) (eb_lheads w) ∧
       insert_heads (eb_lheads w) 0 (eb_str w) = out.
Proof.
  intros Hok Hout Hlen. pose proof (writer_writes v encbuf_reset Hok) as H. rewrite Hout in H.
  destruct (H Hlen) as (w & Hw & s & hs & E & L & Hin & I & Sz). exists w.
  change (encbuf_size encbuf_reset) with 0 in Sz. cbn in E, L, Hin, I.
  rewrite E, L. split_and!; done || lia.
Qed.

Lemma Encode_spec v out : value_ok v → enc_value v = Some out → strlen out < two64 →
  EncodeToBytes v = Ok out ∧ ∃ chunks, Encode v = Ok chunks ∧ concat chunks = out.
Proof.
  intros Hv E Hlen. unfold EncodeToBytes, Encode, toBytes, toWriter.
  destruct (writer_from_reset v out Hv E Hlen) as (w & -> & Hsz & Hin & Hins).
  rewrite !bind_Ok. split.
  - pose proof (toBytes_loop_spec (eb_lheads w) [] (eb_str w) Hin
      : toBytes_loop (eb_str w) 0 (eb_lheads w) = Ok (insert_heads (eb_lheads w) 0 (eb_str w))) as ->.
    rewrite bind_Ok, Hins, Hsz, Nat2Z.id. by rewrite take_app_length.
  - destruct (toWriter_loop_spec (eb_lheads w) [] (eb_str w) Hin) as (ch & Hch & Ech).
    exists ch. split; [exact Hch|]. by rewrite Ech.
Qed.

(** C22. The encoder of [EncodeToBytes], which writes the payload bytes into one
    flat buffer and inserts the list heads afterwards, produces for every value
    the recursively defined RLP encoding, in a buffer of exactly that size; a
    value that contains a negative integer is refused with the error of
    [writeBigInt].  [Encode] writes the same bytes in chunks to a writer. *)
Theorem EncodeToBytes_correct (v : value) (Hv : value_ok v)
    (Hlen : ∀ out, enc_value v = Some out → strlen out < two64) :
  match enc_value v with
  | Some out => EncodeToBytes v = Ok out ∧
                ∃ chunks, Encode v = Ok chunks ∧ concat chunks = out
  | None => EncodeToBytes v = Err errNegativeBigInt ∧ Encode v = Err errNegativeBigInt
  end.
Proof.
  destruct (enc_value v) as [out|] eqn:E; [by apply Encode_spec; auto|].
  unfold EncodeToBytes, Encode. pose proof (writer_returns v encbuf_reset) as H. rewrite E in H. by rewrite H.
Qed.

(** A struct with an integer, a string longer than 55 bytes and a nested list. *)
Definition demo_value : value :=
  VStruct [VUint 1024; VBytes (replicate 60 7); VSlice [VBool true; VBigIntPtr None]; VTail [VUint 5]].

Lemma EncodeToBytes_correct_witness :
  ∃ out, enc_value demo_value = Some out ∧ EncodeToBytes demo_value = Ok out.
Proof.
  assert (value_ok demo_value) as Hv.
  { repeat split; try (cbn; lia). cbn. repeat constructor; lia. }
  assert (∀ out, enc_value demo_value = Some out → strlen out < two64) as Hlen.
  { intros out E. vm_compute in E. injection E as <-. reflexivity. }
  pose proof (EncodeToBytes_correct demo_value Hv Hlen) as H.
  destruct (enc_value demo_value) as [out|] eqn:E; [|vm_compute in E; discriminate E].
  exists out. split; [reflexivity|exact (proj1 H)].
Defined.
