(* ===== verification/RlpRaw.v ===== *)
(** * RLP splitting: which inputs are accepted (src/process/raw.go)

    [Split], [SplitString], [SplitList] and [CountValues] work on a byte slice
    that may come from the network.  They never index out of range, whatever
    the bytes, and accept exactly the canonical encodings. *)

From S2P Require Import Prelude Rlp.
From stdpp Require Import base tactics option list numbers.
From Stdlib Require Import ZArith Lia.

#[local] Open Scope Z_scope.

(** The head of a canonical encoding whose content has [n] bytes. *)
Definition kind_head (k : Kind) (n : nat) : list Z :=
  match k with
  | KByte => []
  | KString => enc_head 128 183 n
  | KList => enc_head 192 247 n
  end.

(** Every kind but a list is determined by the content. *)
Definition kind_ok (k : Kind) (c : list Z) : Prop := k ≠ KList → k = string_kind c.

Lemma string_kind_byte c : string_kind c = KByte ↔ ∃ b, c = [b] ∧ b < 128.
Proof.
  destruct c as [|b0 [|b1 c]]; cbn; [naive_solver| |naive_solver].
  destruct (Z.ltb_spec b0 128); split; naive_solver lia.
Qed.

Lemma kind_head_enc k c : kind_ok k c → kind_head k (length c) ++ c = enc_kind k c.
Proof.
  unfold kind_ok. intros Hk. destruct k; [| |done]; cbn.
  - destruct (proj1 (string_kind_byte c)) as (b & -> & Hb); [symmetry; by apply Hk|].
    cbn. by destruct (Z.ltb_spec b 128); [|lia].
  - specialize (Hk ltac:(done)). destruct c as [|b0 [|b1 c]]; try done.
    cbn [string_kind] in Hk. unfold enc_string. by destruct (b0 <? 128).
Qed.

Definition small_base (k : Kind) : Z := match k with KList => 192 | _ => 128 end.
Definition large_base (k : Kind) : Z := match k with KList => 247 | _ => 183 end.

Lemma kind_head_large k n : k ≠ KByte → 56 ≤ Z.of_nat n →
  kind_head k n = (large_base k + strlen (big_Bytes (Z.of_nat n)))
                  :: big_Bytes (Z.of_nat n).
Proof. intros. destruct k; [done| |]; cbn; unfold enc_head; by rewrite decide_False by lia. Qed.

Lemma kind_head_small k n : k ≠ KByte → Z.of_nat n < 56 →
  kind_head k n = [small_base k + Z.of_nat n].
Proof. intros. destruct k; [done| |]; cbn; unfold enc_head; by rewrite decide_True by lia. Qed.

Ltac ltb_cases := repeat match goal with
  | |- context [?a <? ?b] => destruct (Z.ltb_spec a b)
  end.

(** What the switch has read when it succeeds. *)
Definition switch_reads (b : Z) (rest : list Z) (k : Kind) (ts cs : Z) : Prop :=
  match k with
  | KByte => b < 128 ∧ ts = 0 ∧ cs = 1
  | _ => 0 ≤ cs < two64 ∧ ∃ tl, b :: rest = kind_head k (Z.to_nat cs) ++ tl ∧
         ts = strlen (kind_head k (Z.to_nat cs)) ∧
         (k = KString → cs = 1 → ∀ b1, head tl = Some b1 → 128 ≤ b1)
  end.

Lemma switch_reads_large b rest k base s : is_bytes rest → k ≠ KByte →
  base = large_base k → 1 ≤ b - base ≤ 8 →
  readSize rest (b - base) = Ok s → switch_reads b rest k (b - base + 1) s.
Proof.
  intros Hb Hk Hbase Hl (tl & -> & HL & Hs)%readSize_ok; [|done|done].
  destruct k; [done| |]; cbn [switch_reads].
  all: split; [lia|]; exists tl; rewrite kind_head_large by (done || lia);
    rewrite Z2Nat.id, <- Hbase by lia; cbn [app length]; split_and!; [|lia|].
  all: first [by intros; lia | f_equal; lia].
Qed.

Lemma readKind_switch_ok b rest k ts cs : is_byte b → is_bytes rest →
  readKind_switch b rest = Ok (k, ts, cs) → switch_reads b rest k ts cs.
Proof.
  unfold is_byte, readKind_switch. intros Hb0 Hb.
  destruct (Z.ltb_spec b 128); [by intros [= <- <- <-]|].
  destruct (Z.ltb_spec b 184); [|destruct (Z.ltb_spec b 192); [|destruct (Z.ltb_spec b 248)]].
  - destruct (Z.eqb_spec (b - 128) 1) as [E|E]; cbn [andb].
    + destruct rest as [|b1 rest]; [|destruct (Z.ltb_spec b1 128); [done|]]; intros [= <- <- <-];
        cbn [switch_reads]; (split; [unfold two64; lia|]);
        match goal with |- context [b :: ?r = _] => exists r end;
        rewrite kind_head_small by (done || lia); rewrite Z2Nat.id by lia; cbn [app length];
        (split_and!; [cbn; f_equal; lia|done|]); cbn; naive_solver lia.
    + intros [= <- <- <-]. cbn [switch_reads]. split; [unfold two64; lia|].
      exists rest. rewrite kind_head_small by (done || lia). rewrite Z2Nat.id by lia.
      split_and!; [cbn; f_equal; lia|done|lia].
  - intros H'. outcome_inv. eapply switch_reads_large; done || lia.
  - intros [= <- <- <-]. cbn [switch_reads]. split; [unfold two64; lia|].
    exists rest. rewrite kind_head_small by (done || lia). rewrite Z2Nat.id by lia.
    split_and!; [cbn; f_equal; lia|done|done].
  - intros H'. outcome_inv. eapply switch_reads_large; done || lia.
Qed.

Lemma u64_sub_ltb len ts cs : 0 ≤ ts ≤ len → len < two64 →
  ((len - ts)%u64 <? cs) = false ↔ ts + cs ≤ len.
Proof. intros. rewrite u64_small by (unfold is_u64; lia). rewrite Z.ltb_ge. lia. Qed.

Lemma take_content (l : list Z) n : 0 ≤ n ≤ strlen l → ∃ c tl, l = c ++ tl ∧ strlen c = n.
Proof.
  intros Hn. exists (take (Z.to_nat n) l), (drop (Z.to_nat n) l).
  rewrite take_drop, length_take. split; [done|lia].
Qed.

Lemma readKind_sound buf k ts cs : is_bytes buf → strlen buf < two64 →
  readKind buf = Ok (k, ts, cs) →
  ∃ c tl, buf = kind_head k (length c) ++ c ++ tl ∧ kind_ok k c ∧
          ts = strlen (kind_head k (length c)) ∧ cs = strlen c.
Proof.
  intros Hb Hlen. destruct buf as [|b rest]; [done|]. apply Forall_cons_iff in Hb as [Hb0 Hb].
  cbn [readKind]. intros H. apply bind_ok in H as ([[k' ts'] cs'] & Hsw & H).
  destruct (_ <? _) eqn:Hfit; [done|]. injection H as -> -> ->.
  apply readKind_switch_ok in Hsw; [|done|done]. unfold switch_reads in Hsw.
  assert (k = KByte ∨ k ≠ KByte) as [->|Hk] by (destruct k; auto).
  - destruct Hsw as (? & -> & ->). exists [b], rest. split_and!; [done| |done|done].
    intros _. cbn. by destruct (Z.ltb_spec b 128); [|lia].
  - assert (0 ≤ cs < two64 ∧ ∃ tl, b :: rest = kind_head k (Z.to_nat cs) ++ tl ∧
         ts = strlen (kind_head k (Z.to_nat cs)) ∧
         (k = KString → cs = 1 → ∀ b1, head tl = Some b1 → 128 ≤ b1)) as (Hcs & tl & E & Hts & Hone)
      by (destruct k; done).
    assert (Z.of_nat (length (b :: rest)) = ts + strlen tl) as HL by (rewrite E, length_app; lia).
    apply u64_sub_ltb in Hfit; [|lia|done].
    destruct (take_content tl cs) as (c & tl' & -> & Hc); [lia|].
    exists c, tl'. replace (length c) with (Z.to_nat cs) by lia. split_and!; [done| |done|lia].
    intros Hl. destruct k; [done| |done]. destruct c as [|b0 [|b1 c]]; [done| |done].
    cbn in Hc. specialize (Hone eq_refl ltac:(lia) b0 eq_refl). cbn.
    by destruct (Z.ltb_spec b0 128); [lia|].
Qed.

Lemma readKind_switch_small k n tl : k ≠ KByte → 0 ≤ n < 56 →
  (k = KString → n = 1 → ∀ b1, head tl = Some b1 → 128 ≤ b1) →
  readKind_switch (small_base k + n) tl = Ok (k, 1, n).
Proof.
  intros Hk Hn Hone. unfold readKind_switch. destruct k; [done| |]; cbn [small_base].
  - destruct (Z.ltb_spec (128 + n) 128); [lia|]. destruct (Z.ltb_spec (128 + n) 184); [|lia].
    replace (128 + n - 128) with n by lia. destruct (Z.eqb_spec n 1) as [E|]; cbn [andb]; [|done].
    destruct tl as [|b1 tl]; [done|]. specialize (Hone eq_refl E b1 eq_refl).
    by destruct (Z.ltb_spec b1 128); [lia|].
  - ltb_cases; try lia. by replace (192 + n - 192) with n by lia.
Qed.

Lemma readKind_switch_large k s tl : k ≠ KByte → is_bytes tl → 56 ≤ s < two64 →
  readKind_switch (large_base k + strlen (big_Bytes s)) (big_Bytes s ++ tl) =
  Ok (k, 1 + strlen (big_Bytes s), s).
Proof.
  intros Hk Htl Hs. pose proof (big_Bytes_size s ltac:(lia)) as HL. set (n := strlen (big_Bytes s)).
  assert (readSize (big_Bytes s ++ tl) n = Ok s) as HR.
  { apply readSize_ok; [apply Forall_app; split; [apply big_Bytes_bytes|done]|lia|by exists tl]. }
  unfold readKind_switch. destruct k; [done| |]; cbn [large_base].
  - ltb_cases; try lia. replace (183 + n - 183) with n by lia. rewrite HR, bind_Ok.
    do 3 f_equal. lia.
  - ltb_cases; try lia. replace (247 + n - 247) with n by lia. rewrite HR, bind_Ok.
    do 3 f_equal. lia.
Qed.

Lemma readKind_complete k c tl : kind_ok k c →
  let buf := kind_head k (length c) ++ c ++ tl in
  is_bytes buf → strlen buf < two64 →
  readKind buf = Ok (k, strlen (kind_head k (length c)), strlen c).
Proof.
  intros Hk buf Hb Hlen.
  assert (∃ b rest, buf = b :: rest ∧
    readKind_switch b rest = Ok (k, strlen (kind_head k (length c)), strlen c)) as (b & rest & E & Hsw).
  { unfold buf in *. clear buf. assert (k = KByte ∨ k ≠ KByte) as [->|Hnk] by (destruct k; auto).
    - destruct (proj1 (string_kind_byte c)) as (b & -> & Hlt); [symmetry; by apply Hk|].
      exists b, tl. split; [done|]. unfold readKind_switch. by destruct (Z.ltb_spec b 128); [|lia].
    - destruct (decide (strlen c < 56)) as [Hs|Hs].
      + rewrite kind_head_small by done. exists (small_base k + strlen c), (c ++ tl).
        split; [done|]. apply readKind_switch_small; [done|lia|]. intros -> H1 b1.
        specialize (Hk ltac:(done)). destruct c as [|b0 [|]]; cbn in H1; try lia.
        cbn in Hk |- *. intros [= ->]. by destruct (Z.ltb_spec b1 128).
      + rewrite kind_head_large in * by (done || lia).
        exists (large_base k + strlen (big_Bytes (strlen c))), (big_Bytes (strlen c) ++ c ++ tl).
        split; [done|]. rewrite readKind_switch_large; [|done| |].
        * cbn [length]. do 3 f_equal. lia.
        * apply Forall_app in Hb as [_ Hb]. done.
        * rewrite !length_app in Hlen. lia. }
  rewrite E. cbn [readKind]. rewrite Hsw, bind_Ok.
  replace (_ <? _) with false; [done|]. symmetry. rewrite <- E. unfold buf in *.
  apply u64_sub_ltb; [|done|]; rewrite !length_app; lia.
Qed.

Lemma readKind_no_panic buf : is_bytes buf → readKind buf ≠ Panic.
Proof.
  intros Hb. destruct buf as [|b rest]; [done|]. apply Forall_cons_iff in Hb as [Hb0 Hb].
  unfold is_byte in Hb0. cbn [readKind].
  assert (readKind_switch b rest ≠ Panic) as Hsw.
  { unfold readKind_switch. ltb_cases; try done.
    - by case_match.
    - pose proof (readSize_no_panic rest (b - 183) Hb ltac:(lia)). by destruct (readSize _ _).
    - pose proof (readSize_no_panic rest (b - 247) Hb ltac:(lia)). by destruct (readSize _ _). }
  destruct (readKind_switch b rest) as [[[k ts] cs]| |]; [|done|done].
  rewrite bind_Ok. by destruct (_ <? _).
Qed.

Lemma slices_of {E} (h c tl : list Z) : strlen (h ++ c ++ tl) < two64 →
  slice (E := E) (h ++ c ++ tl) (strlen h) (strlen h + strlen c)%u64 = Ok c ∧
  slice (E := E) (h ++ c ++ tl) (strlen h + strlen c)%u64 (strlen (h ++ c ++ tl)) = Ok tl.
Proof.
  intros Hlen. pose proof Hlen as Hlen'. rewrite !length_app in Hlen'.
  rewrite u64_small by (unfold is_u64; lia). split.
  - rewrite slice_from by (rewrite length_app; lia). by rewrite take_app_length.
  - replace (strlen h + strlen c) with (strlen (h ++ c)) by (rewrite length_app; lia).
    rewrite (assoc_L (++)). apply slice_all.
Qed.

Lemma Split_spec b k c rest : is_bytes b → strlen b < two64 →
  Split b = Ok (k, c, rest) ↔ b = enc_kind k c ++ rest ∧ kind_ok k c.
Proof.
  intros Hb Hlen. split.
  - unfold Split. intros H. apply bind_ok in H as ([[k' ts] cs] & Hrk & H).
    apply readKind_sound in Hrk as (c' & tl & E & Hk & -> & ->); [|done|done].
    rewrite E in H, Hlen. destruct (slices_of (E := RlpError) _ _ _ Hlen) as [E1 E2].
    rewrite E1, bind_Ok, E2, bind_Ok in H. injection H as -> -> ->.
    split; [|done]. by rewrite E, <- kind_head_enc, (assoc_L (++)).
  - intros [-> Hk]. rewrite <- kind_head_enc, <- (assoc_L (++)) in * by done.
    unfold Split. rewrite readKind_complete, bind_Ok by done.
    destruct (slices_of (E := RlpError) _ _ _ Hlen) as [E1 E2]. by rewrite E1, bind_Ok, E2.
Qed.

Lemma Split_no_panic b : is_bytes b → strlen b < two64 → Split b ≠ Panic.
Proof.
  intros Hb Hlen. unfold Split. pose proof (readKind_no_panic b Hb) as Hp.
  destruct (readKind b) as [[[k ts] cs]| |] eqn:Hrk; [|done|done].
  apply readKind_sound in Hrk as (c' & tl & E & Hk & -> & ->); [|done|done].
  rewrite bind_Ok. rewrite E in Hlen |- *.
  destruct (slices_of (E := RlpError) _ _ _ Hlen) as [E1 E2]. by rewrite E1, bind_Ok, E2.
Qed.

(** [Split] never reads out of range, whatever the bytes of the input, and
    succeeds with kind [k], content [c] and rest exactly when the input is the
    canonical encoding of that content followed by the rest: every encoding is
    split back, and a size that is not minimal, a single byte below 0x80 with a
    head, or a truncated content is refused. *)
Theorem Split_canonical (b : list Z) (Hb : is_bytes b) (Hlen : strlen b < two64) :
  Split b ≠ Panic ∧
  ∀ k c rest, Split b = Ok (k, c, rest) ↔
    b = enc_kind k c ++ rest ∧ (k ≠ KList → k = string_kind c).
Proof. split; [by apply Split_no_panic|]. intros. by apply Split_spec. Qed.

Lemma Split_canonical_witness :
  Split [130; 200; 1; 7] = Ok (KString, [200; 1], [7]) ∧
  [130; 200; 1; 7] = enc_kind KString [200; 1] ++ [7].
Proof.
  split; [vm_compute; reflexivity|].
  apply (Split_canonical [130; 200; 1; 7]); [repeat constructor; cbn; lia|reflexivity|].
  vm_compute. reflexivity.
Defined.

(** The items into which an input can be split. *)
Definition enc_items (l : list (Kind * list Z)) : list Z :=
  concat ((λ kc, enc_kind kc.1 kc.2) <$> l).

Lemma enc_kind_nonempty k c : kind_ok k c → (1 ≤ length (enc_kind k c))%nat.
Proof.
  intros Hk. rewrite <- kind_head_enc by done. rewrite length_app.
  assert (k = KByte ∨ k ≠ KByte) as [->|Hnk] by (destruct k; auto).
  - destruct (proj1 (string_kind_byte c)) as (b & -> & _); [symmetry; by apply Hk|]. cbn. lia.
  - destruct (decide (strlen c < 56)).
    + rewrite kind_head_small by done. cbn. lia.
    + rewrite kind_head_large by (done || lia). cbn. lia.
Qed.

Lemma CountValues_loop_step fuel b i k c rest : is_bytes b → strlen b < two64 →
  b = enc_kind k c ++ rest → kind_ok k c →
  CountValues_loop (S fuel) b i = CountValues_loop fuel rest (i + 1).
Proof.
  intros Hb Hlen E Hk. pose proof (enc_kind_nonempty k c Hk) as Hne.
  destruct b as [|b0 b']; [exfalso; apply (f_equal length) in E; rewrite length_app in E; cbn in E; lia|].
  cbn [CountValues_loop]. rewrite E in *. clear E.
  rewrite <- kind_head_enc, <- (assoc_L (++)) in * by done.
  rewrite readKind_complete, bind_Ok by done.
  by rewrite (proj2 (slices_of (E := RlpError) _ _ _ Hlen)).
Qed.

Lemma CountValues_loop_fail fuel b i :
  b ≠ [] → (∀ k ts cs, readKind b ≠ Ok (k, ts, cs)) → readKind b ≠ Panic →
  ∃ e, CountValues_loop (S fuel) b i = Err e.
Proof.
  intros Hne Hrk Hp. destruct b as [|b0 b]; [done|]. cbn [CountValues_loop].
  destruct (readKind (b0 :: b)) as [[[k ts] cs]|e|] eqn:E; [|by exists e|done].
  by destruct (Hrk k ts cs).
Qed.

Lemma CountValues_loop_nil fuel i :
  CountValues_loop fuel [] i ≠ Panic ∧
  ∀ n, CountValues_loop fuel [] i = Ok n ↔
    ∃ l, Forall (λ kc, kind_ok kc.1 kc.2) l ∧ [] = enc_items l ∧ n = i + strlen l.
Proof.
  assert (CountValues_loop fuel [] i = Ok i) as -> by (by destruct fuel).
  split; [done|]. intros n. split.
  - intros [= <-]. exists []. split_and!; [done|done|cbn; lia].
  - intros ([|[k c] l] & Hl & E & ->); [cbn; f_equal; lia|].
    apply Forall_cons_iff in Hl as [Hk _]. apply enc_kind_nonempty in Hk. cbn in *.
    apply (f_equal length) in E. rewrite length_app in E. cbn in E. lia.
Qed.

Lemma CountValues_loop_spec fuel b i : (length b ≤ fuel)%nat → is_bytes b → strlen b < two64 →
  CountValues_loop fuel b i ≠ Panic ∧
  ∀ n, CountValues_loop fuel b i = Ok n ↔
    ∃ l, Forall (λ kc, kind_ok kc.1 kc.2) l ∧ b = enc_items l ∧ n = i + strlen l.
Proof.
  revert b i. induction fuel as [|fuel IH]; intros b i Hf Hb Hlen.
  - destruct b; [|cbn in Hf; lia]. apply CountValues_loop_nil.
  - destruct (decide (b = [])) as [->|Hne]; [apply CountValues_loop_nil|].
    destruct (readKind b) as [[[k ts] cs]|e|] eqn:Hrk.
    + apply readKind_sound in Hrk as (c & tl & E & Hk & _ & _); [|done|done].
      rewrite (assoc_L (++)), kind_head_enc in E by done.
      pose proof (enc_kind_nonempty k c Hk) as Hpos.
      rewrite (CountValues_loop_step fuel b i k c tl) by done.
      assert (is_bytes tl) by (rewrite E in Hb; by apply Forall_app in Hb as [_ Hb]).
      assert (length b = length (enc_kind k c) + length tl)%nat by (rewrite E; apply length_app).
      destruct (IH tl (i + 1)) as [Hnp HIH]; [lia|done|lia|]. split; [done|].
      intros n. rewrite HIH. split.
      * intros (l & Hl & -> & ->). exists ((k, c) :: l).
        split_and!; [by constructor|done|cbn [length]; lia].
      * intros ([|[k' c'] l] & Hl & E' & ->); [by rewrite E' in Hne|].
        apply Forall_cons_iff in Hl as [Hk' Hl]. change (b = enc_kind k' c' ++ enc_items l) in E'.
        assert (Split b = Ok (k, c, tl)) as S1 by (by apply Split_spec).
        assert (Split b = Ok (k', c', enc_items l)) as S2 by (by apply Split_spec).
        rewrite S1 in S2. simplify_eq. exists l. split_and!; [done|done|cbn [length]; lia].
    + destruct (CountValues_loop_fail fuel b i) as (e' & ->); [done|by rewrite Hrk|by rewrite Hrk|].
      split; [done|]. intros n. split; [done|].
      intros ([|[k' c'] l] & Hl & E' & ->); [by rewrite E' in Hne|].
      apply Forall_cons_iff in Hl as [Hk' Hl]. exfalso.
      assert (Split b = Ok (k', c', enc_items l)) as S2 by (by apply Split_spec).
      unfold Split in S2. by rewrite Hrk in S2.
    + by apply readKind_no_panic in Hrk.
Qed.

(** [CountValues] terminates on every input without reading out of range,
    and returns [n] exactly when the input is the concatenation of [n]
    canonical encodings. *)
Theorem CountValues_counts (b : list Z) (Hb : is_bytes b) (Hlen : strlen b < two64) :
  CountValues b ≠ Panic ∧
  ∀ n, CountValues b = Ok n ↔
    ∃ l, Forall (λ kc, kind_ok kc.1 kc.2) l ∧ b = enc_items l ∧ n = strlen l.
Proof. by apply (CountValues_loop_spec (length b) b 0). Qed.

Lemma CountValues_counts_witness :
  CountValues [5; 193; 1; 128] = Ok 3 ∧
  ∃ l, Forall (λ kc, kind_ok kc.1 kc.2) l ∧ [5; 193; 1; 128] = enc_items l ∧ 3 = strlen l.
Proof.
  split; [vm_compute; reflexivity|].
  apply (CountValues_counts [5; 193; 1; 128]); [repeat constructor; cbn; lia|reflexivity|].
  vm_compute. reflexivity.
Defined.
