(* ===== verification/RlpStream.v ===== *)
(** * RLP stream decoder (src/process/decode.go)

    A [Stream] reads from an in-memory reader ([bytes.Reader]); it remembers a
    read but not yet consumed head ([kind], [size], [byteval], [kinderr]) and
    the stack of the open lists.  Every operation is a function from the stream
    to the new stream and the result, since the stream keeps what an operation
    did before it failed.  The decoders that the package derives from a Go type
    by reflection are [decode] on a description of the type. *)

From S2P Require Import Prelude Rlp RlpRaw.
From stdpp Require Import base tactics option list numbers.
From Stdlib Require Import ZArith Lia.

#[local] Open Scope Z_scope.

(** ** The stream *)

Record listpos := { lp_pos : Z; lp_size : Z }.

Record Stream := {
  s_in : list Z;               (** the unread bytes of [r] *)
  s_remaining : Z;
  s_limited : bool;
  s_kind : option Kind;        (** [None] is the code's -1 *)
  s_size : Z;
  s_byteval : Z;
  s_kinderr : option RlpError;
  s_stack : list listpos;      (** innermost list first *)
}.

Definition set_in (l : list Z) (s : Stream) : Stream :=
  {| s_in := l; s_remaining := s_remaining s; s_limited := s_limited s; s_kind := s_kind s;
     s_size := s_size s; s_byteval := s_byteval s; s_kinderr := s_kinderr s; s_stack := s_stack s |}.

Definition set_remaining (r : Z) (s : Stream) : Stream :=
  {| s_in := s_in s; s_remaining := r; s_limited := s_limited s; s_kind := s_kind s;
     s_size := s_size s; s_byteval := s_byteval s; s_kinderr := s_kinderr s; s_stack := s_stack s |}.

Definition set_kind (k : option Kind) (s : Stream) : Stream :=
  {| s_in := s_in s; s_remaining := s_remaining s; s_limited := s_limited s; s_kind := k;
     s_size := s_size s; s_byteval := s_byteval s; s_kinderr := s_kinderr s; s_stack := s_stack s |}.

Definition set_size (n : Z) (s : Stream) : Stream :=
  {| s_in := s_in s; s_remaining := s_remaining s; s_limited := s_limited s; s_kind := s_kind s;
     s_size := n; s_byteval := s_byteval s; s_kinderr := s_kinderr s; s_stack := s_stack s |}.

Definition set_byteval (b : Z) (s : Stream) : Stream :=
  {| s_in := s_in s; s_remaining := s_remaining s; s_limited := s_limited s; s_kind := s_kind s;
     s_size := s_size s; s_byteval := b; s_kinderr := s_kinderr s; s_stack := s_stack s |}.

Definition set_kinderr (e : option RlpError) (s : Stream) : Stream :=
  {| s_in := s_in s; s_remaining := s_remaining s; s_limited := s_limited s; s_kind := s_kind s;
     s_size := s_size s; s_byteval := s_byteval s; s_kinderr := e; s_stack := s_stack s |}.

Definition set_stack (st : list listpos) (s : Stream) : Stream :=
  {| s_in := s_in s; s_remaining := s_remaining s; s_limited := s_limited s; s_kind := s_kind s;
     s_size := s_size s; s_byteval := s_byteval s; s_kinderr := s_kinderr s; s_stack := st |}.

(** Operations on a stream: the state survives an error. *)
Definition SM (A : Type) : Type := Stream → Stream * outcome RlpError A.

#[export] Instance SM_mret : MRet SM := fun A a s => (s, Ok a).
#[export] Instance SM_mbind : MBind SM := fun A B f m s =>
  match m s with
  | (s, Ok a) => f a s
  | (s, Err e) => (s, Err e)
  | (s, Panic) => (s, Panic)
  end.

Definition sm_err {A} (e : RlpError) : SM A := fun s => (s, Err e).
Definition sm_panic {A} : SM A := fun s => (s, Panic).
Definition sm_state {A} (f : Stream → Stream * outcome RlpError A) : SM A := f.
Definition sm_mod (f : Stream → Stream) : SM unit := fun s => (f s, Ok tt).
Definition sm_get {A} (f : Stream → A) : SM A := fun s => (s, Ok (f s)).

(** Does the reader take [n] bytes?  Charge them to the innermost list and to
    the input limit; the charge to the list stays when the limit refuses. *)
Definition willRead (n : Z) : SM unit := fun s =>
  let s := set_kind None s in
  let charge (s : Stream) :=
    if s_limited s then
      if s_remaining s <? n then (s, Err ErrValueTooLarge)
      else (set_remaining (s_remaining s - n)%u64 s, Ok tt)
    else (s, Ok tt) in
  match s_stack s with
  | [] => charge s
  | tos :: rest =>
      if (lp_size tos - lp_pos tos)%u64 <? n then (s, Err ErrElemTooLarge)
      else charge (set_stack ({| lp_pos := (lp_pos tos + n)%u64; lp_size := lp_size tos |} :: rest) s)
  end.

Definition readFull (n : Z) : SM (list Z) :=
  _ ← willRead n; sm_state (λ s,
    let b := take (Z.to_nat n) (s_in s) in
    let s := set_in (drop (Z.to_nat n) (s_in s)) s in
    if strlen b <? n then (s, Err io_ErrUnexpectedEOF) else (s, Ok b)).

Definition readByte : SM Z :=
  _ ← willRead 1; sm_state (λ s,
    match s_in s with
    | [] => (s, Err io_ErrUnexpectedEOF)
    | b :: l => (set_in l s, Ok b)
    end).

(** [readUint]: the bytes are right-aligned in the 8-byte [uintbuf]. *)
Definition readUint (size : Z) : SM Z :=
  if size =? 0 then _ ← sm_mod (set_kind None); mret 0
  else if size =? 1 then readByte
  else
    b ← readFull size;
    if hd 0 b =? 0 then sm_err ErrCanonSize else mret (be_val b).

(** [readKind] returns the kind, the size and the error together: the fields of
    the stream are assigned whatever the error is. *)
Definition readKind_large (k : Kind) (lenlen : Z) (s : Stream) : Stream * (Kind * Z * option RlpError) :=
  match readUint lenlen s with
  | (s, Ok size) => (s, (k, size, if size <? 56 then Some ErrCanonSize else None))
  | (s, Err e) => (s, (k, 0, Some e))
  | (s, Panic) => (s, (k, 0, None))
  end.

Definition Stream_readKind (s : Stream) : Stream * (Kind * Z * option RlpError) :=
  match readByte s with
  | (s, Ok b) =>
      let s := set_byteval 0 s in
      if b <? 128 then (set_byteval b s, (KByte, 0, None))
      else if b <? 184 then (s, (KString, b - 128, None))
      else if b <? 192 then readKind_large KString (b - 183) s
      else if b <? 248 then (s, (KList, b - 192, None))
      else readKind_large KList (b - 247) s
  | (s, Err e) =>
      let e := if bool_decide (s_stack s = []) &&
                  (bool_decide (e = io_ErrUnexpectedEOF) || bool_decide (e = ErrValueTooLarge))
               then io_EOF else e in
      (s, (KByte, 0, Some e))
  | (s, Panic) => (s, (KByte, 0, None))
  end.

(** The check of a fresh head against the innermost list or the input limit. *)
Definition head_fits (s : Stream) (tos : option listpos) (size : Z) : option RlpError :=
  match tos with
  | None => if s_limited s && (s_remaining s <? size) then Some ErrValueTooLarge else None
  | Some tos => if (lp_size tos - lp_pos tos)%u64 <? size then Some ErrElemTooLarge else None
  end.

Definition Stream_Kind : SM (Kind * Z) := fun s =>
  let ret (s : Stream) :=
    (s, match s_kinderr s, s_kind s with
        | Some e, _ => Err e
        | None, Some k => Ok (k, s_size s)
        | None, None => Panic
        end) in
  match s_kind s with
  | Some _ => ret s
  | None =>
      let s := set_kinderr None s in
      let at_end := match s_stack s with
                    | tos :: _ => lp_pos tos =? lp_size tos
                    | [] => false
                    end in
      if at_end then (s, Err EOL)
      else
        let '(s, (k, size, e)) := Stream_readKind s in
        let e := match e with
                 | Some e => Some e
                 | None => head_fits s (head (s_stack s)) size
                 end in
        ret (set_kinderr e (set_size size (set_kind (Some k) s)))
  end.

(** ** Consuming operations *)

Definition Stream_Bytes : SM (list Z) :=
  '(k, size) ← Stream_Kind;
  match k with
  | KByte => _ ← sm_mod (set_kind None); sm_get (λ s, [s_byteval s])
  | KString =>
      b ← readFull size;
      if (size =? 1) && (hd 0 b <? 128) then sm_err ErrCanonSize else mret b
  | KList => sm_err ErrExpectedString
  end.

Definition Stream_Raw : SM (list Z) :=
  '(k, size) ← Stream_Kind;
  match k with
  | KByte => _ ← sm_mod (set_kind None); sm_get (λ s, [s_byteval s])
  | KString => b ← readFull size; mret (puthead 128 183 size ++ b)
  | KList => b ← readFull size; mret (puthead 192 247 size ++ b)
  end.

(** A canonical-size error of [readUint] is a canonical-integer error here. *)
Definition canon_int {A} (m : SM A) : SM A := fun s =>
  match m s with
  | (s, Err ErrCanonSize) => (s, Err ErrCanonInt)
  | r => r
  end.

Definition Stream_uint (maxbits : Z) : SM Z :=
  '(k, size) ← Stream_Kind;
  match k with
  | KByte =>
      b ← sm_get s_byteval;
      if b =? 0 then sm_err ErrCanonInt
      else _ ← sm_mod (set_kind None); mret b
  | KString =>
      if maxbits / 8 <? size then sm_err errUintOverflow
      else
        v ← canon_int (readUint (byte size));
        if (0 <? size) && (v <? 128) then sm_err ErrCanonSize else mret v
  | KList => sm_err ErrExpectedString
  end.

Definition Stream_Bool : SM bool :=
  num ← Stream_uint 8;
  if num =? 0 then mret false
  else if num =? 1 then mret true
  else sm_err errInvalidBool.

Definition Stream_List : SM Z :=
  '(k, size) ← Stream_Kind;
  match k with
  | KList =>
      _ ← sm_mod (λ s, set_size 0 (set_kind None
            (set_stack ({| lp_pos := 0; lp_size := size |} :: s_stack s) s)));
      mret size
  | _ => sm_err ErrExpectedList
  end.

Definition Stream_ListEnd : SM unit := fun s =>
  match s_stack s with
  | [] => (s, Err errNotInList)
  | tos :: rest =>
      if lp_pos tos =? lp_size tos then
        let rest := match rest with
                    | [] => []
                    | o :: rest => {| lp_pos := (lp_pos o + lp_size tos)%u64; lp_size := lp_size o |} :: rest
                    end in
        (set_size 0 (set_kind None (set_stack rest s)), Ok tt)
      else (s, Err errNotAtEOL)
  end.

(** ** Decoders for Go types *)

Inductive rtype :=
| TRaw
| TBigInt
| TUint (bits : Z)
| TBool
| TBytes                       (** [[]byte] and [string] *)
| TByteArray (n : nat)
| TSlice (t : rtype)
| TArray (n : nat) (t : rtype)
| TStruct (ts : list rtype)
| TInterface.

Definition decodeBigInt : SM value :=
  b ← Stream_Bytes;
  match b with
  | 0 :: _ => sm_err ErrCanonInt
  | _ => mret (VBigIntPtr (Some (be_val b)))
  end.

(** In the [Byte] case the error of [s.Uint()] is ignored. *)
Definition decodeByteArray (vlen : nat) : SM value :=
  '(k, size) ← Stream_Kind;
  match k with
  | KByte =>
      match vlen with
      | O => sm_err errWrongSize
      | S (S _) => sm_err errWrongSize
      | S O => sm_state (λ s,
          match Stream_uint 64 s with
          | (s, Ok bv) => (s, Ok (VBytes [byte bv]))
          | (s, Err _) => (s, Ok (VBytes [0]))
          | (s, Panic) => (s, Panic)
          end)
      end
  | KString =>
      if u64 (Z.of_nat vlen) <? size then sm_err errWrongSize
      else if size <? u64 (Z.of_nat vlen) then sm_err errWrongSize
      else
        b ← readFull (Z.of_nat vlen);
        if (size =? 1) && (hd 0 b <? 128) then sm_err ErrCanonSize else mret (VBytes b)
  | KList => sm_err ErrExpectedString
  end.

(** The element loop of [decodeSliceElems]; [fuel] bounds the iterations. *)
Fixpoint decodeSliceElems (fuel : nat) (elemdec : SM value) : SM (list value) :=
  match fuel with
  | O => sm_panic
  | S fuel => sm_state (λ s,
      match elemdec s with
      | (s, Err EOL) => (s, Ok [])
      | (s, Err e) => (s, Err e)
      | (s, Panic) => (s, Panic)
      | (s, Ok v) => (vs ← decodeSliceElems fuel elemdec; mret (v :: vs)) s
      end)
  end.

Definition decodeListSlice (fuel : nat) (elemdec : SM value) : SM value :=
  size ← Stream_List;
  if size =? 0 then _ ← Stream_ListEnd; mret (VSlice [])
  else
    vs ← decodeSliceElems fuel elemdec;
    _ ← Stream_ListEnd;
    mret (VSlice vs).

(** An element decoder of an array or a struct: the end of the list is an error. *)
Definition or_too_few {A} (m : SM A) : SM A := fun s =>
  match m s with
  | (s, Err EOL) => (s, Err errTooFew)
  | r => r
  end.

Fixpoint decodeArrayElems (n : nat) (elemdec : SM value) : SM (list value) :=
  match n with
  | O => mret []
  | S n =>
      v ← or_too_few elemdec;
      vs ← decodeArrayElems n elemdec;
      mret (v :: vs)
  end.

Definition decodeListArray (n : nat) (elemdec : SM value) : SM value :=
  _ ← Stream_List;
  vs ← decodeArrayElems n elemdec;
  _ ← Stream_ListEnd;
  mret (VSlice vs).

Definition decodeFields (dec : rtype → SM value) : list rtype → SM (list value) :=
  fix go (ts : list rtype) : SM (list value) :=
    match ts with
    | [] => mret []
    | t :: ts => v ← or_too_few (dec t); vs ← go ts; mret (v :: vs)
    end.

Definition decodeStruct (dec : rtype → SM value) (ts : list rtype) : SM value :=
  _ ← Stream_List;
  vs ← decodeFields dec ts;
  _ ← Stream_ListEnd;
  mret (VStruct vs).

(** The decoder that [makeDecoder] chooses for a type.  [fuel] bounds the
    nesting of the type and of the input, and the number of list elements. *)
Fixpoint decode (fuel : nat) (t : rtype) : SM value :=
  match fuel with
  | O => sm_panic
  | S fuel =>
      match t with
      | TRaw => b ← Stream_Raw; mret (VRaw b)
      | TBigInt => decodeBigInt
      | TUint bits => v ← Stream_uint bits; mret (VUint v)
      | TBool => b ← Stream_Bool; mret (VBool b)
      | TBytes => b ← Stream_Bytes; mret (VBytes b)
      | TByteArray n => decodeByteArray n
      | TSlice t => decodeListSlice fuel (decode fuel t)
      | TArray n t => decodeListArray n (decode fuel t)
      | TStruct ts => decodeStruct (decode fuel) ts
      | TInterface =>
          '(k, _) ← Stream_Kind;
          match k with
          | KList => decodeListSlice fuel (decode fuel TInterface)
          | _ => b ← Stream_Bytes; mret (VBytes b)
          end
      end
  end.

(** [NewStream] on a [bytes.Reader]: with an input limit of 0, and with the
    length of the input, the limit is that length. *)
Definition NewStream (b : list Z) : Stream :=
  {| s_in := b; s_remaining := u64 (strlen b); s_limited := true; s_kind := None;
     s_size := 0; s_byteval := 0; s_kinderr := None; s_stack := [] |}.

Definition DecodeBytes (fuel : nat) (b : list Z) (t : rtype) : outcome RlpError value :=
  match decode fuel t (NewStream b) with
  | (s, Ok v) => match s_in s with [] => Ok v | _ => Err ErrMoreThanOneValue end
  | (_, Err e) => Err e
  | (_, Panic) => Panic
  end.
