(* ===== verification/RlpDecode.v ===== *)
(** * RLP decoding: exactness of the stream decoder

    The decoders of decode.go, run on a whole byte string, accept exactly the
    canonical encodings of the values of their type, and give the value back. *)

From S2P Require Import Prelude Rlp RlpRaw RlpStream.
From stdpp Require Import base tactics option list numbers.
From Stdlib Require Import ZArith Lia.

#[local] Open Scope Z_scope.

(** ** Stream states *)

(** Bytes that the innermost list, or the input, still allows. *)
Definition bound (n : Z) (stk : list listpos) : Z :=
  match stk with [] => n | t :: _ => lp_size t - lp_pos t end.

Definition bump (stk : list listpos) (k : Z) : list listpos :=
  match stk with
  | [] => []
  | t :: stk => {| lp_pos := lp_pos t + k; lp_size := lp_size t |} :: stk
  end.

(** The stack of open lists over [n] unread bytes: every list fits in the
    enclosing one and in the input.  The bytes read from a list are charged to
    the enclosing list when the list ends. *)
Fixpoint stack_wf (n : Z) (stk : list listpos) : Prop :=
  match stk with
  | [] => True
  | t :: rest =>
      0 ≤ lp_pos t ≤ lp_size t ∧ lp_size t < two64 ∧ lp_size t - lp_pos t ≤ n ∧
      match rest with [] => True | o :: _ => lp_pos o + lp_size t ≤ lp_size o end ∧
      stack_wf (n + lp_pos t) rest
  end.

(** The stream stands before the bytes [inp], inside the lists [stk]. *)
Record live (s : Stream) (inp : list Z) (stk : list listpos) : Prop := {
  live_in : s_in s = inp;
  live_rem : s_remaining s = strlen inp;
  live_lim : s_limited s = true;
  live_stk : s_stack s = stk;
  live_wf : stack_wf (strlen inp) stk;
  live_bytes : is_bytes inp;
  live_len : strlen inp < two64;
}.

Definition at_ (s : Stream) (inp : list Z) (stk : list listpos) : Prop :=
  live s inp stk ∧ s_kind s = None.

Lemma bound_range n stk : 0 ≤ n → stack_wf n stk → 0 ≤ bound n stk ≤ n.
Proof. destruct stk; cbn; lia. Qed.

Lemma stack_wf_bump n stk k : stack_wf n stk → 0 ≤ k ≤ bound n stk → stack_wf (n - k) (bump stk k).
Proof.
  destruct stk as [|t rest]; cbn; [done|]. intros (? & ? & ? & ? & Hr) ?.
  split_and!; try lia; [done|]. by replace (n - k + (lp_pos t + k)) with (n + lp_pos t) by lia.
Qed.

Lemma bound_bump n stk k : bound (n - k) (bump stk k) = bound n stk - k.
Proof. destruct stk; cbn; lia. Qed.

Lemma bump_bump stk a b : bump (bump stk a) b = bump stk (a + b).
Proof. destruct stk; [done|]. cbn. by rewrite Z.add_assoc. Qed.

Lemma bump_0 stk : bump stk 0 = stk.
Proof. destruct stk as [|[? ?]]; [done|]. cbn. by rewrite Z.add_0_r. Qed.

Lemma live_drop s inp stk s' x tl : live s inp stk → inp = x ++ tl → strlen x ≤ bound (strlen inp) stk →
  s_in s' = tl → s_remaining s' = strlen inp - strlen x → s_limited s' = true →
  s_stack s' = bump stk (strlen x) → live s' tl (bump stk (strlen x)).
Proof.
  intros [] E ? ? ? ? ?. assert (strlen inp = strlen x + strlen tl) by (rewrite E, length_app; lia).
  split; try done; try lia.
  - replace (strlen tl) with (strlen inp - strlen x) by lia. apply stack_wf_bump; [done|lia].
  - rewrite E in live_bytes0. by apply Forall_app in live_bytes0 as [_ ?].
Qed.

(** ** Reading *)

Lemma willRead_ok s inp stk n : live s inp stk → 0 ≤ n ≤ bound (strlen inp) stk →
  willRead n s =
  (set_remaining (strlen inp - n) (set_stack (bump stk n) (set_kind None s)), Ok tt).
Proof.
  intros [] Hn. unfold willRead. cbn. rewrite live_stk0.
  destruct stk as [|t rest]; cbn [bound bump] in *.
  - cbn. rewrite live_lim0, live_rem0. destruct (Z.ltb_spec (strlen inp) n); [lia|].
    rewrite u64_small by (unfold is_u64; lia). f_equal. destruct s. cbn in *. by subst.
  - cbn in live_wf0. destruct live_wf0 as (? & ? & ? & ? & ?).
    rewrite (u64_small (_ - _)) by (unfold is_u64; lia).
    destruct (Z.ltb_spec (lp_size t - lp_pos t) n); [lia|]. cbn. rewrite live_lim0, live_rem0.
    destruct (Z.ltb_spec (strlen inp) n); [lia|].
    by rewrite !u64_small by (unfold is_u64; lia).
Qed.

Lemma willRead_err s inp stk n : live s inp stk → bound (strlen inp) stk < n →
  ∃ s' e, willRead n s = (s', Err e) ∧ e ≠ EOL ∧ s_stack s' = stk.
Proof.
  intros [] Hn. unfold willRead. cbn. rewrite live_stk0.
  destruct stk as [|t rest]; cbn [bound] in *.
  - cbn. rewrite live_lim0, live_rem0. destruct (Z.ltb_spec (strlen inp) n); [|lia]. eauto.
  - cbn in live_wf0. destruct live_wf0 as (? & ? & ? & ? & ?).
    rewrite (u64_small (_ - _)) by (unfold is_u64; lia).
    destruct (Z.ltb_spec (lp_size t - lp_pos t) n); [|lia]. eauto.
Qed.

Lemma readFull_ok s x tl stk : live s (x ++ tl) stk → strlen x ≤ bound (strlen (x ++ tl)) stk →
  ∃ s', readFull (strlen x) s = (s', Ok x) ∧ at_ s' tl (bump stk (strlen x)) ∧
        s_byteval s' = s_byteval s ∧ s_kinderr s' = s_kinderr s.
Proof.
  intros Hl Hn. unfold readFull, mbind, SM_mbind.
  rewrite (willRead_ok s (x ++ tl) stk) by (done || lia). unfold sm_state. cbn.
  rewrite (live_in _ _ _ Hl), Nat2Z.id, take_app_length, drop_app_length.
  destruct (Z.ltb_spec (strlen x) (strlen x)); [lia|]. eexists. split; [done|].
  split_and!; [|done|done]. split; [|done].
  eapply live_drop; [exact Hl|done|done|done|done|apply Hl|done].
Qed.

Lemma readFull_err s inp stk n : live s inp stk → bound (strlen inp) stk < n →
  ∃ s' e, readFull n s = (s', Err e) ∧ e ≠ EOL.
Proof.
  intros Hl Hn. destruct (willRead_err s inp stk n Hl Hn) as (s' & e & E & He & _).
  unfold readFull, mbind, SM_mbind. rewrite E. eauto.
Qed.

Lemma readByte_ok s b tl stk : live s (b :: tl) stk → 1 ≤ bound (strlen (b :: tl)) stk →
  ∃ s', readByte s = (s', Ok b) ∧ at_ s' tl (bump stk 1) ∧ s_kinderr s' = s_kinderr s.
Proof.
  intros Hl Hn. unfold readByte, mbind, SM_mbind.
  rewrite (willRead_ok s (b :: tl) stk) by (done || lia). unfold sm_state. cbn.
  rewrite (live_in _ _ _ Hl). eexists. split; [done|]. split; [|done]. split; [|done].
  apply (live_drop s (b :: tl) stk _ [b] tl); [done|done|done|done| |apply Hl|done].
  cbn. lia.
Qed.

Lemma readByte_err s inp stk : live s inp stk → bound (strlen inp) stk < 1 →
  ∃ s' e, readByte s = (s', Err e) ∧ e ≠ EOL.
Proof.
  intros Hl Hn. destruct (willRead_err s inp stk 1 Hl Hn) as (s' & e & E & He & _).
  unfold readByte, mbind, SM_mbind. rewrite E. eauto.
Qed.

Lemma readUint_ok s x tl stk : live s (x ++ tl) stk → 1 ≤ strlen x →
  strlen x ≤ bound (strlen (x ++ tl)) stk →
  ∃ s', readUint (strlen x) s =
          (s', if (1 <? strlen x) && (hd 0 x =? 0) then Err ErrCanonSize else Ok (be_val x)) ∧
        at_ s' tl (bump stk (strlen x)).
Proof.
  intros Hl H1 Hn. unfold readUint. destruct (Z.eqb_spec (strlen x) 0); [lia|].
  destruct (Z.eqb_spec (strlen x) 1) as [E|E].
  - destruct x as [|b [|]]; cbn in E; try lia.
    destruct (readByte_ok s b tl stk Hl) as (s' & -> & Hs' & _); [done|].
    exists s'. by split.
  - destruct (readFull_ok s x tl stk Hl Hn) as (s' & Hr & Hs' & _).
    unfold mbind, SM_mbind. rewrite Hr. exists s'. split; [|done].
    destruct (Z.ltb_spec 1 (strlen x)); [|lia]. cbn [andb]. by destruct (_ =? _).
Qed.

Lemma readUint_err s inp stk n : live s inp stk → 1 ≤ n → bound (strlen inp) stk < n →
  ∃ s' e, readUint n s = (s', Err e) ∧ e ≠ EOL.
Proof.
  intros Hl H1 Hn. unfold readUint. destruct (Z.eqb_spec n 0); [lia|].
  destruct (Z.eqb_spec n 1) as [->|E]; [by eapply readByte_err|].
  destruct (readFull_err s inp stk n Hl Hn) as (s' & e & Hr & He).
  unfold mbind, SM_mbind. rewrite Hr. eauto.
Qed.

(** The head [h] of an item: a byte, or the tag and size of a string or list. *)
Inductive headed : Kind → Z → list Z → Prop :=
| headed_byte b : 0 ≤ b < 128 → headed KByte 0 [b]
| headed_long k size : k ≠ KByte → 0 ≤ size < two64 →
    headed k size (kind_head k (Z.to_nat size)).

(** The stream after a fresh head [h] was read from [h ++ tl]. *)
Definition head_read (s' : Stream) (k : Kind) (h tl : list Z) (stk : list listpos) : Prop :=
  live s' tl (bump stk (strlen h)) ∧ (k = KByte → h = [s_byteval s']).

Lemma live_set_byteval s inp stk b : live s inp stk → live (set_byteval b s) inp stk.
Proof. intros []. by split. Qed.

Lemma large_head_complete s k size b n tl stk :
  let sz := big_Bytes size in
  live s (b :: sz ++ tl) stk → k ≠ KByte → 56 ≤ size < two64 → n = strlen sz →
  strlen (b :: sz) ≤ bound (strlen (b :: sz ++ tl)) stk →
  ∃ s1 s', readByte s = (s1, Ok b) ∧
    readKind_large k n (set_byteval 0 s1) = (s', (k, size, None)) ∧
    live s' tl (bump stk (strlen (b :: sz))).
Proof.
  intros sz Hl Hk Hs -> Hn.
  assert (strlen (b :: sz) = 1 + strlen sz) as E1 by (cbn [length]; lia). rewrite E1 in *.
  pose proof (big_Bytes_size size ltac:(lia)) as HL. fold sz in HL.
  destruct (readByte_ok s b (sz ++ tl) stk Hl) as (s1 & Hr & [Hs1 _] & _); [lia|].
  apply (live_set_byteval _ _ _ 0) in Hs1.
  destruct (readUint_ok _ sz tl _ Hs1) as (s2 & Hu & [Hs2 _]); [lia| |].
  { replace (strlen (sz ++ tl)) with (strlen (b :: sz ++ tl) - 1) by (cbn [length]; lia).
    rewrite bound_bump. lia. }
  exists s1, s2. split_and!; [done| |].
  - unfold readKind_large. rewrite Hu. unfold sz at 2 3.
    rewrite (proj2 (Z.eqb_neq _ _) (big_Bytes_hd size ltac:(lia))), andb_false_r.
    rewrite be_val_big_Bytes, Z.abs_eq by lia. by destruct (Z.ltb_spec size 56); [lia|].
  - by rewrite bump_bump in Hs2.
Qed.

Lemma readKind_stream_complete s k size h tl stk : live s (h ++ tl) stk → headed k size h →
  strlen h ≤ bound (strlen (h ++ tl)) stk →
  ∃ s', Stream_readKind s = (s', (k, size, None)) ∧ head_read s' k h tl stk.
Proof.
  intros Hl Hh Hn. destruct Hh as [b Hb|k size Hk Hs].
  - destruct (readByte_ok s b tl stk Hl) as (s1 & Hr & [Hs1 _] & _); [done|].
    exists (set_byteval b (set_byteval 0 s1)). unfold Stream_readKind. rewrite Hr.
    destruct (Z.ltb_spec b 128); [|lia]. split; [done|]. split; [|done].
    by do 2 apply live_set_byteval.
  - destruct (decide (size < 56)) as [Hlt|Hge].
    + rewrite kind_head_small in * by (done || lia). rewrite Z2Nat.id in * by lia.
      destruct (readByte_ok s _ tl stk Hl) as (s1 & Hr & [Hs1 _] & _); [done|].
      exists (set_byteval 0 s1). unfold Stream_readKind. rewrite Hr.
      split; [|split; [by apply live_set_byteval|done]].
      destruct k; [done| |]; cbn [small_base]; ltb_cases; try lia; do 3 f_equal; lia.
    + rewrite kind_head_large in * by (done || lia). rewrite Z2Nat.id in * by lia.
      destruct (large_head_complete s k size (large_base k + strlen (big_Bytes size))
                  (strlen (big_Bytes size)) tl stk)
        as (s1 & s' & Hr & Hrk & Hs'); [done|done|lia|done|done|].
      exists s'. unfold Stream_readKind. rewrite Hr. split; [|by split; [|done]].
      pose proof (big_Bytes_size size ltac:(lia)) as HL.
      destruct k; [done| |]; cbn [large_base]; ltb_cases; try lia;
        match goal with |- readKind_large _ ?m _ = _ =>
          replace m with (strlen (big_Bytes size)) by lia end; done.
Qed.

(** What a head read from [inp] is, when it is accepted. *)
Definition reads_head (inp : list Z) (stk : list listpos) (s' : Stream) (k : Kind) (size : Z) : Prop :=
  ∃ h tl, inp = h ++ tl ∧ headed k size h ∧ strlen h ≤ bound (strlen inp) stk ∧
          head_read s' k h tl stk.

Lemma large_head_sound s1 k b n rest stk :
  live s1 rest (bump stk 1) → is_byte b → k ≠ KByte → 1 ≤ n ≤ 8 → b = large_base k + n →
  ∃ s' size e, readKind_large k n s1 = (s', (k, size, e)) ∧ e ≠ Some EOL ∧
    (e = None → reads_head (b :: rest) stk s' k size).
Proof.
  intros Hl Hb Hk Hn Eb. unfold readKind_large.
  destruct (decide (bound (strlen rest) (bump stk 1) < n)) as [Hlt|Hge].
  { destruct (readUint_err s1 rest _ n Hl ltac:(lia) Hlt) as (s' & e & -> & He).
    exists s', 0, (Some e). split_and!; [done|congruence|done]. }
  pose proof (bound_range (strlen rest) (bump stk 1) ltac:(lia) (live_wf _ _ _ Hl)) as Hbd.
  destruct (take_content rest n) as (x & tl & -> & Hx); [lia|]. rewrite <- Hx in Hn, Hge, Eb |- *.
  destruct (readUint_ok s1 x tl _ Hl) as (s2 & -> & [Hs2 _]); [lia|lia|].
  assert (is_bytes x) as Hxb by (by destruct (proj1 (Forall_app _ _ _) (live_bytes _ _ _ Hl))).
  destruct (_ && _) eqn:Ez; [exists s2, 0, (Some ErrCanonSize); by split_and!|].
  exists s2, (be_val x). eexists. split; [reflexivity|].
  destruct (Z.ltb_spec (be_val x) 56) as [|H56]; [done|]. split; [done|]. intros _.
  assert (big_Bytes (be_val x) = x) as Ex.
  { apply big_Bytes_be_val; [done|]. destruct x as [|x0 [|x1 x]]; cbn [hd length] in *; [lia| |].
    - unfold be_val in H56. cbn in H56. lia.
    - intros ->. destruct (Z.ltb_spec 1 (Z.of_nat (S (S (length x))))); [done|lia]. }
  pose proof (be_val_lt_two64 x Hxb ltac:(lia)) as H64.
  assert (kind_head k (Z.to_nat (be_val x)) = b :: x) as Eh.
  { rewrite kind_head_large by (done || lia). rewrite Z2Nat.id, Ex by lia. f_equal. lia. }
  exists (b :: x), tl. assert (strlen (b :: x) = 1 + strlen x) as E1 by (cbn [length]; lia).
  split_and!; [done| | |].
  - rewrite <- Eh. constructor; [done|lia].
  - replace (strlen (b :: x ++ tl)) with (strlen (x ++ tl) + 1) by (cbn [length]; lia).
    replace (strlen (x ++ tl)) with (strlen (x ++ tl) + 1 - 1) in Hge by lia.
    rewrite bound_bump in Hge. lia.
  - split; [|done]. rewrite bump_bump in Hs2. by rewrite E1.
Qed.

Lemma readKind_stream_sound s inp stk : live s inp stk → 1 ≤ bound (strlen inp) stk →
  ∃ s' k size e, Stream_readKind s = (s', (k, size, e)) ∧ e ≠ Some EOL ∧
    (e = None → reads_head inp stk s' k size).
Proof.
  intros Hl Hn. pose proof (bound_range (strlen inp) stk ltac:(lia) (live_wf _ _ _ Hl)) as Hbd.
  destruct inp as [|b rest]; [change (strlen []) with 0 in *; lia|].
  destruct (proj1 (Forall_cons_iff _ _ _) (live_bytes _ _ _ Hl)) as [Hb _].
  destruct (readByte_ok s b rest stk Hl Hn) as (s1 & Hr & [Hs1 _] & _).
  apply (live_set_byteval _ _ _ 0) in Hs1. unfold Stream_readKind. rewrite Hr. pose proof Hb as Hb'.
  unfold is_byte in Hb'.
  assert (∀ k n, k ≠ KByte → b = small_base k + n → 0 ≤ n < 56 →
    reads_head (b :: rest) stk (set_byteval 0 s1) k n) as Hsmall.
  { intros k n Hk Eb Hn56. exists [b], rest. split_and!; [done| |done|by split].
    replace [b] with (kind_head k (Z.to_nat n)) by (rewrite kind_head_small by (done || lia);
      rewrite Z2Nat.id by lia; by rewrite Eb). constructor; [done|unfold two64; lia]. }
  ltb_cases.
  - exists (set_byteval b (set_byteval 0 s1)), KByte, 0, None. split_and!; [done|done|]. intros _.
    exists [b], rest. split_and!; [done|apply headed_byte; lia|done|split; [by apply live_set_byteval|done]].
  - exists (set_byteval 0 s1), KString, (b - 128), None. split_and!; [done|done|]. intros _.
    apply Hsmall; [done|cbn; lia|lia].
  - destruct (large_head_sound _ KString b (b - 183) rest stk Hs1) as (s' & size & e & ? & ? & ?);
      [done|done|lia|cbn; lia|]. eauto 10.
  - exists (set_byteval 0 s1), KList, (b - 192), None. split_and!; [done|done|]. intros _.
    apply Hsmall; [done|cbn; lia|lia].
  - destruct (large_head_sound _ KList b (b - 247) rest stk Hs1) as (s' & size & e & ? & ? & ?);
      [done|done|lia|cbn; lia|]. eauto 10.
Qed.

(** ** [Kind] *)

(** The stream after [Kind] has read the head [h] of an item from [h ++ tl]. *)
Definition kind_read (s' : Stream) (k : Kind) (size : Z) (h tl : list Z) (stk : list listpos) : Prop :=
  head_read s' k h tl stk ∧ s_kind s' = Some k ∧ s_size s' = size ∧ s_kinderr s' = None.

Lemma live_set_kinderr s inp stk e : live s inp stk → live (set_kinderr e s) inp stk.
Proof. intros []. by split. Qed.

Lemma Kind_eol s inp stk : at_ s inp stk → stk ≠ [] → bound (strlen inp) stk = 0 →
  ∃ s', Stream_Kind s = (s', Err EOL) ∧ at_ s' inp stk.
Proof.
  intros [Hl Hk] Hne Hb. unfold Stream_Kind. rewrite Hk. cbn. rewrite (live_stk _ _ _ Hl).
  destruct stk as [|t stk]; [done|]. cbn in Hb.
  rewrite (proj2 (Z.eqb_eq _ _)) by lia. eexists. split; [done|].
  split; [by apply live_set_kinderr|done].
Qed.

Lemma head_fits_spec s inp stk size : live s inp stk → 0 ≤ size →
  head_fits s (head (s_stack s)) size = None ↔ size ≤ bound (strlen inp) stk.
Proof.
  intros [] Hs. unfold head_fits. rewrite live_stk0. destruct stk as [|t rest]; cbn [head bound] in *.
  - rewrite live_lim0, live_rem0. cbn [andb]. destruct (Z.ltb_spec (strlen inp) size); split; done || lia.
  - destruct live_wf0 as (? & ? & _). rewrite u64_small by (unfold is_u64; lia).
    destruct (Z.ltb_spec (lp_size t - lp_pos t) size); split; done || lia.
Qed.

Lemma head_fits_no_eol s tos size : head_fits s tos size ≠ Some EOL.
Proof. unfold head_fits. by repeat case_match. Qed.

Lemma headed_size k size h : headed k size h → 0 ≤ size < two64.
Proof. destruct 1; [done|lia]. Qed.

Lemma not_at_end s inp stk : live s inp stk → 1 ≤ bound (strlen inp) stk →
  match s_stack s with tos :: _ => lp_pos tos =? lp_size tos | [] => false end = false.
Proof.
  intros [] Hb. rewrite live_stk0. destruct stk; [done|]. cbn in Hb. apply Z.eqb_neq. lia.
Qed.

Lemma bound_app (h tl : list Z) stk :
  bound (strlen tl) (bump stk (strlen h)) = bound (strlen (h ++ tl)) stk - strlen h.
Proof.
  replace (strlen tl) with (strlen (h ++ tl) - strlen h) by (rewrite length_app; lia).
  apply bound_bump.
Qed.

Lemma headed_nonempty k size h : headed k size h → 1 ≤ strlen h.
Proof.
  destruct 1; [done|]. destruct (decide (size < 56)).
  - rewrite kind_head_small by (done || lia). done.
  - rewrite kind_head_large by (done || lia). cbn [length]. lia.
Qed.

Lemma Kind_complete s k size h tl stk : at_ s (h ++ tl) stk → headed k size h →
  strlen h + size ≤ bound (strlen (h ++ tl)) stk →
  ∃ s', Stream_Kind s = (s', Ok (k, size)) ∧ kind_read s' k size h tl stk.
Proof.
  intros [Hl Hk] Hh Hb. pose proof (headed_size _ _ _ Hh). pose proof (headed_nonempty _ _ _ Hh).
  apply (live_set_kinderr _ _ _ None) in Hl. unfold Stream_Kind. rewrite Hk.
  rewrite (not_at_end _ _ _ Hl) by lia.
  destruct (readKind_stream_complete _ k size h tl stk Hl Hh) as (s1 & Hr & Hs1 & Hby); [lia|].
  rewrite Hr. rewrite (proj2 (head_fits_spec s1 tl _ size Hs1 ltac:(lia))).
  2:{ rewrite bound_app. lia. }
  cbn. eexists. split; [reflexivity|]. split_and!; [|done|done|done].
  split; [|done]. destruct Hs1. by split.
Qed.

Lemma Kind_sound s inp stk : at_ s inp stk → (stk ≠ [] → bound (strlen inp) stk ≠ 0) →
  match Stream_Kind s with
  | (s', Ok (k, size)) =>
      ∃ h tl, inp = h ++ tl ∧ headed k size h ∧ strlen h + size ≤ bound (strlen inp) stk ∧
              kind_read s' k size h tl stk
  | (_, Err e) => e ≠ EOL
  | (_, Panic) => False
  end.
Proof.
  intros [Hl Hk] Hne. apply (live_set_kinderr _ _ _ None) in Hl.
  pose proof (bound_range (strlen inp) stk ltac:(lia) (live_wf _ _ _ Hl)) as Hbd.
  unfold Stream_Kind. rewrite Hk. destruct (decide (1 ≤ bound (strlen inp) stk)) as [H1|H1].
  - rewrite (not_at_end _ _ _ Hl H1).
    destruct (readKind_stream_sound _ _ _ Hl H1) as (s1 & k & size & e & -> & He & Hrd).
    destruct e as [e|]; [cbn; congruence|]. cbn.
    destruct (Hrd eq_refl) as (h & tl & -> & Hh & Hhb & Hs1 & Hby).
    pose proof (headed_size _ _ _ Hh). pose proof (head_fits_spec s1 tl _ size Hs1 ltac:(lia)) as Hf.
    pose proof (head_fits_no_eol s1 (head (s_stack s1)) size) as Hneol.
    destruct (head_fits s1 (head (s_stack s1)) size) as [e|]; [congruence|].
    exists h, tl. rewrite bound_app in Hf. split_and!; [done|done|by apply Z.le_add_le_sub_l, Hf|].
    split_and!; [|done|done|done]. split; [|done]. destruct Hs1. by split.
  - assert (stk = []) as -> by (destruct stk; [done|exfalso; apply Hne; [done|lia]]).
    cbn [bound] in *. assert (inp = []) as -> by (apply length_zero_iff_nil; lia).
    cbn. rewrite (live_stk _ _ _ Hl : s_stack s = []).
    unfold Stream_readKind. cbn.
    unfold readByte, mbind, SM_mbind, willRead. cbn.
    rewrite (live_stk _ _ _ Hl : s_stack s = []), (live_lim _ _ _ Hl : s_limited s = true),
      (live_rem _ _ _ Hl : s_remaining s = 0). cbn.
    rewrite (live_stk _ _ _ Hl : s_stack s = []). done.
Qed.

(** ** Decoders as recognisers

    A decoder is sound for a relation [L] between values and byte strings when
    it consumes a string related to the value it returns; it reports the end of
    the enclosing list only there, without consuming anything.  It is complete
    when it accepts every related string.  [n] bounds the visible input. *)

Definition sound {A} (d : SM A) (L : A → list Z → Prop) (n : Z) : Prop :=
  ∀ s inp stk, at_ s inp stk → bound (strlen inp) stk ≤ n →
  match d s with
  | (s', Ok v) => ∃ x tl, inp = x ++ tl ∧ 1 ≤ strlen x ≤ bound (strlen inp) stk ∧ L v x ∧
                          at_ s' tl (bump stk (strlen x))
  | (s', Err e) => e = EOL → stk ≠ [] ∧ bound (strlen inp) stk = 0 ∧ at_ s' inp stk
  | (_, Panic) => False
  end.

Definition complete {A} (d : SM A) (L : A → list Z → Prop) (n : Z) : Prop :=
  ∀ v x, L v x → strlen x ≤ n → ∀ s tl stk,
  at_ s (x ++ tl) stk → strlen x ≤ bound (strlen (x ++ tl)) stk →
  ∃ s', d s = (s', Ok v) ∧ at_ s' tl (bump stk (strlen x)).

Definition ends {A} (d : SM A) : Prop :=
  ∀ s inp stk, at_ s inp stk → stk ≠ [] → bound (strlen inp) stk = 0 →
  ∃ s', d s = (s', Err EOL) ∧ at_ s' inp stk.

Lemma bind_eq {A B} (m : SM A) (f : A → SM B) s :
  (m ≫= f) s = match m s with
               | (s, Ok a) => f a s
               | (s, Err e) => (s, Err e)
               | (s, Panic) => (s, Panic)
               end.
Proof. reflexivity. Qed.

(** Every decoder that starts with [Kind] reports the end of the list. *)
Lemma Kind_ends {A} (f : Kind * Z → SM A) : ends (Stream_Kind ≫= f).
Proof.
  intros s inp stk Hs Hne Hb. destruct (Kind_eol s inp stk Hs Hne Hb) as (s' & Hk & Hs').
  exists s'. by rewrite bind_eq, Hk.
Qed.

Lemma ends_bind {A B} (m : SM A) (f : A → SM B) : ends m → ends (m ≫= f).
Proof.
  intros Hm s inp stk Hs Hne Hb. destruct (Hm s inp stk Hs Hne Hb) as (s' & Hk & Hs').
  exists s'. by rewrite bind_eq, Hk.
Qed.

(** To prove a decoder that starts with [Kind] sound, consider an accepted head. *)
Lemma Kind_bind_sound {A} (f : Kind * Z → SM A) L n :
  (∀ s h tl stk k size, is_bytes (h ++ tl) → stack_wf (strlen (h ++ tl)) stk → headed k size h →
     strlen h + size ≤ bound (strlen (h ++ tl)) stk → bound (strlen (h ++ tl)) stk ≤ n →
     kind_read s k size h tl stk →
     match f (k, size) s with
     | (s', Ok v) => ∃ c tl', tl = c ++ tl' ∧ strlen (h ++ c) ≤ bound (strlen (h ++ tl)) stk ∧
                       L v (h ++ c) ∧ at_ s' tl' (bump stk (strlen (h ++ c)))
     | (s', Err e) => e ≠ EOL
     | (_, Panic) => False
     end) →
  sound (Stream_Kind ≫= f) L n.
Proof.
  intros Hf s inp stk Hs Hn. rewrite bind_eq.
  destruct (decide (stk ≠ [] ∧ bound (strlen inp) stk = 0)) as [[Hne Hb]|Hnot].
  { destruct (Kind_eol s inp stk Hs Hne Hb) as (s' & -> & Hs'). done. }
  pose proof (Kind_sound s inp stk Hs ltac:(intros ? ?; by apply Hnot)) as HK.
  destruct (Stream_Kind s) as [s1 [[k size]|e|]]; [|done|done].
  destruct HK as (h & tl & -> & Hh & Hb & Hk). pose proof (headed_nonempty _ _ _ Hh).
  specialize (Hf s1 h tl stk k size (live_bytes _ _ _ (proj1 Hs)) (live_wf _ _ _ (proj1 Hs)) Hh Hb Hn Hk).
  destruct (f (k, size) s1) as [s2 [v|e|]]; [|done|done].
  destruct Hf as (c & tl' & -> & Hc & HL & Hs2). exists (h ++ c), tl'.
  assert (strlen (h ++ c) = strlen h + strlen c) by (rewrite length_app; lia).
  split_and!; [by rewrite (assoc_L (++))|lia|lia|done|done].
Qed.

(** After the head of a string was read, [readFull] reads its content. *)
Lemma readFull_content s k size h c tl stk : kind_read s k size h (c ++ tl) stk → strlen c = size →
  strlen (h ++ c) ≤ bound (strlen (h ++ c ++ tl)) stk →
  ∃ s', readFull size s = (s', Ok c) ∧ at_ s' tl (bump stk (strlen (h ++ c))) ∧
        s_byteval s' = s_byteval s.
Proof.
  intros [[Hl _] _] <- Hb. rewrite length_app in Hb.
  destruct (readFull_ok s c tl _ Hl) as (s' & -> & Hs' & ? & _).
  { rewrite bound_app. lia. }
  exists s'. split_and!; [done| |done]. rewrite bump_bump in Hs'. rewrite length_app. by rewrite Nat2Z.inj_add.
Qed.

Lemma set_kind_at s k size h tl stk : kind_read s k size h tl stk →
  at_ (set_kind None s) tl (bump stk (strlen h)).
Proof. intros [[[] _] _]. by split; [split|]. Qed.

Lemma content_of (h tl : list Z) size stk : 0 ≤ size → stack_wf (strlen (h ++ tl)) stk →
  strlen h + size ≤ bound (strlen (h ++ tl)) stk →
  ∃ c tl', tl = c ++ tl' ∧ strlen c = size.
Proof.
  intros Hs Hwf Hb. apply take_content.
  pose proof (bound_range (strlen (h ++ tl)) stk ltac:(lia) Hwf).
  assert (strlen (h ++ tl) = strlen h + strlen tl) by (rewrite length_app; lia). lia.
Qed.

(** ** Strings *)

Definition string_lang (c x : list Z) : Prop := x = enc_string c ∧ is_bytes c.

(** A string of more than one byte, or of one byte from 0x80, after its head. *)
Definition long_string (size : Z) (c : list Z) : Prop :=
  strlen c = size ∧ ((size =? 1) && (hd 0 c <? 128)) = false.

Lemma long_string_kind size c : long_string size c ↔ strlen c = size ∧ string_kind c = KString.
Proof.
  unfold long_string. split; intros [<- H]; (split; [done|]).
  - destruct c as [|b [|b' c]]; [done| |done]. cbn in *. by destruct (b <? 128).
  - destruct c as [|b [|b' c]]; [done| |].
    + cbn in *. by destruct (b <? 128).
    + destruct (Z.eqb_spec (strlen (b :: b' :: c)) 1) as [E|]; [cbn [length] in E; lia|done].
Qed.

Lemma headed_string_enc size h c : headed KString size h → long_string size c → h ++ c = enc_string c.
Proof.
  intros Hh [Hc Hk]%long_string_kind. inversion Hh; subst.
  rewrite Nat2Z.id. apply (kind_head_enc KString). intros _. by symmetry.
Qed.

Lemma Bytes_sound n : sound Stream_Bytes string_lang n.
Proof.
  apply Kind_bind_sound. intros s h tl stk k size Hby Hwf Hh Hb Hn Hk. destruct k; [| |done].
  - inversion Hh as [b Hb0|]; [subst|done]. cbn. exists [], tl. destruct Hk as [[Hl Hbv] Hk]. specialize (Hbv eq_refl).
    injection Hbv as ->. split; [done|]. split; [done|]. split.
    + split; [cbn; by destruct (Z.ltb_spec (s_byteval s) 128); [|lia]|].
      apply Forall_app in Hby as [Hby _]. done.
    + refine (set_kind_at s KByte 0 [s_byteval s] tl stk _). by split.
  - destruct (content_of h tl size stk) as (c & tl' & -> & Hc);
      [by eapply headed_size|done|done|].
    rewrite (assoc_L (++)) in Hb. 
    destruct (readFull_content s KString size h c tl' stk Hk Hc) as (s' & Hr & Hs' & _).
    { rewrite (assoc_L (++)). rewrite length_app at 1. lia. }
    rewrite bind_eq, Hr. destruct (_ && _) eqn:E; [done|]. exists c, tl'.
    apply Forall_app in Hby as [_ [Hcb _]%Forall_app].
    split_and!; [done|rewrite (assoc_L (++)), length_app; lia| |done].
    split; [|done]. by eapply headed_string_enc.
Qed.

Lemma string_lang_split c x : string_lang c x →
  (∃ b, c = [b] ∧ x = [b] ∧ 0 ≤ b < 128) ∨
  (string_kind c = KString ∧ x = kind_head KString (length c) ++ c).
Proof.
  intros [-> Hc]. destruct (string_kind c) eqn:E.
  - left. apply string_kind_byte in E as (b & -> & Hb). exists b.
    apply Forall_cons_iff in Hc as [Hc _]. unfold is_byte in Hc.
    split_and!; [done| |lia|done]. cbn. by destruct (Z.ltb_spec b 128); [|lia].
  - right. split; [done|]. symmetry. apply (kind_head_enc KString). by intros _.
  - by destruct c as [|b [|]]; cbn in E; [|destruct (_ <? _)|].
Qed.

Lemma headed_content k (c : list Z) : k ≠ KByte → strlen c < two64 →
  headed k (strlen c) (kind_head k (length c)).
Proof. intros Hk Hc. rewrite <- (Nat2Z.id (length c)) at 2. apply headed_long; [done|lia]. Qed.

(** Reading the head of a string or list whose content follows. *)
Lemma Kind_content_complete s k c tl stk :
  let h := kind_head k (length c) in
  at_ s ((h ++ c) ++ tl) stk → k ≠ KByte → strlen (h ++ c) ≤ bound (strlen ((h ++ c) ++ tl)) stk →
  ∃ s', Stream_Kind s = (s', Ok (k, strlen c)) ∧ kind_read s' k (strlen c) h (c ++ tl) stk ∧
        headed k (strlen c) h.
Proof.
  intros h Hs Hk Hb. rewrite <- (assoc_L (++)) in Hs, Hb.
  pose proof (live_len _ _ _ (proj1 Hs)) as Hlen. rewrite !length_app in Hlen.
  pose proof (headed_content k c Hk ltac:(lia)) as Hh. fold h in Hh.
  destruct (Kind_complete s k (strlen c) h (c ++ tl) stk Hs Hh) as (s' & E & Hr); [|by exists s'].
  rewrite length_app in Hb at 1. lia.
Qed.

Lemma Bytes_complete n : complete Stream_Bytes string_lang n.
Proof.
  intros c x HL _ s tl stk Hs Hb. unfold Stream_Bytes. rewrite bind_eq.
  destruct (string_lang_split c x HL) as [(b & -> & -> & Hb0)|[Hk ->]].
  - destruct (Kind_complete s KByte 0 [b] tl stk Hs) as (s' & -> & Hr);
      [by apply headed_byte|done|].
    pose proof Hr as [[_ Hbv] _]. injection (Hbv eq_refl) as ->.
    eexists. split; [reflexivity|]. by eapply set_kind_at.
  - destruct (Kind_content_complete s KString c tl stk Hs) as (s' & -> & Hr & Hh); [done|done|].
    rewrite <- (assoc_L (++)) in Hb.
    destruct (readFull_content _ _ _ _ _ _ _ Hr eq_refl Hb) as (s'' & HF & Hs'' & _).
    exists s''. split; [|done]. rewrite bind_eq, HF.
    destruct (proj2 (long_string_kind (strlen c) c)) as [_ ->]; done.
Qed.

(** ** Integers *)

Definition uint_lang (bits v : Z) (x : list Z) : Prop :=
  x = enc_string (big_Bytes v) ∧ 0 ≤ v < 2 ^ bits.

Definition uint_bits (bits : Z) : Prop := bits = 8 ∨ bits = 16 ∨ bits = 32 ∨ bits = 64.

Lemma big_Bytes_byte b : 0 < b < 256 → big_Bytes b = [b].
Proof.
  intros Hb. rewrite <- putint_big_Bytes by (unfold two64; lia). unfold putint, byte.
  rewrite Z.shiftl_1_l. destruct (Z.ltb_spec b (2 ^ 8)); [by rewrite Z.mod_small by lia|lia].
Qed.

Lemma big_Bytes_fits v bits : uint_bits bits → 0 ≤ v →
  strlen (big_Bytes v) ≤ bits / 8 ↔ v < 2 ^ bits.
Proof.
  intros Hbits Hv.
  assert (2 ^ bits = 256 ^ (bits / 8)) as ->
    by (destruct Hbits as [-> | [-> | [-> | ->]]]; reflexivity).
  assert (0 < bits / 8) by (destruct Hbits as [-> | [-> | [-> | ->]]]; done).
  destruct (decide (v = 0)) as [->|Hv0].
  { split; [|change (strlen (big_Bytes 0)) with 0; lia]. intros _. apply Z.pow_pos_nonneg; lia. }
  destruct (byte_len_bounds v) as (Hn & Hlo & Hhi); [lia|].
  assert (strlen (big_Bytes v) = Z.of_nat (byte_len v)) as ->.
  { unfold big_Bytes. rewrite Z.abs_eq, be_bytes_length by lia. done. }
  split; intros H1.
  - eapply Z.lt_le_trans; [exact Hhi|]. apply Z.pow_le_mono_r; lia.
  - destruct (decide (Z.of_nat (byte_len v) ≤ bits / 8)); [done|].
    assert (256 ^ (bits / 8) ≤ 256 ^ (Z.of_nat (byte_len v) - 1)) by (apply Z.pow_le_mono_r; lia). lia.
Qed.

(** The content [c] of a string read as an integer. *)
Definition uint_result (c : list Z) : outcome RlpError Z :=
  if (1 <? strlen c) && (hd 0 c =? 0) then Err ErrCanonInt
  else if (0 <? strlen c) && (be_val c <? 128) then Err ErrCanonSize
  else Ok (be_val c).

Lemma uint_content s h c tl stk : kind_read s KString (strlen c) h (c ++ tl) stk →
  strlen (h ++ c) ≤ bound (strlen (h ++ c ++ tl)) stk → strlen c ≤ 8 →
  ∃ s', (v ← canon_int (readUint (byte (strlen c)));
         if (0 <? strlen c) && (v <? 128) then sm_err ErrCanonSize else mret v) s = (s', uint_result c) ∧
        at_ s' tl (bump stk (strlen (h ++ c))).
Proof.
  intros Hr Hb H8. unfold byte. rewrite Z.mod_small by lia. rewrite bind_eq.
  destruct c as [|c0 c'].
  - eexists. split; [reflexivity|]. rewrite app_nil_r. by eapply set_kind_at.
  - set (c := c0 :: c') in *. assert (1 ≤ strlen c) by (cbn [length c]; lia).
    destruct Hr as [[Hl _] _]. rewrite length_app in Hb at 1.
    destruct (readUint_ok s c tl _ Hl) as (s' & HR & Hs'); [done|rewrite bound_app; lia|].
    exists s'. rewrite bump_bump in Hs'. split; [|by rewrite length_app, Nat2Z.inj_add].
    unfold canon_int. rewrite HR. unfold uint_result. destruct (_ && _); [done|].
    by destruct (_ && _).
Qed.

Lemma uint_result_ok c v : is_bytes c →
  uint_result c = Ok v ↔ c = big_Bytes v ∧ (v = 0 ∨ 128 ≤ v).
Proof.
  intros Hc. unfold uint_result. split.
  - destruct c as [|b c]; [intros [= <-]; by split; [|left]|].
    rewrite (proj2 (Z.ltb_lt 0 _)) by (cbn [length]; lia). cbn [andb].
    destruct (_ && _) eqn:E; [done|]. destruct (Z.ltb_spec (be_val (b :: c)) 128) as [|H128]; [done|].
    intros [= <-]. split; [|by right]. symmetry. apply big_Bytes_be_val; [done|]. cbn [hd].
    destruct c as [|b' c]; [unfold be_val in H128; cbn in H128; lia|].
    rewrite (proj2 (Z.ltb_lt 1 _)) in E by (cbn [length]; lia). cbn in E. by apply Z.eqb_neq.
  - intros [-> [->|Hv]]; [done|].
    pose proof (big_Bytes_hd v ltac:(lia)) as Hhd. rewrite (proj2 (Z.eqb_neq _ _) Hhd), andb_false_r.
    rewrite be_val_big_Bytes, Z.abs_eq by lia. destruct (Z.ltb_spec v 128); [lia|].
    by rewrite andb_false_r.
Qed.

Lemma uint_result_no_eol c : uint_result c ≠ Err EOL ∧ uint_result c ≠ Panic.
Proof. unfold uint_result. by repeat case_match. Qed.

Lemma uint_string_kind v : 0 ≤ v → v = 0 ∨ 128 ≤ v ↔ string_kind (big_Bytes v) = KString.
Proof.
  intros Hv. destruct (decide (v = 0)) as [->|Hv0]; [split; [done|by left]|].
  destruct (decide (v < 256)) as [H256|H256].
  - rewrite big_Bytes_byte by lia. cbn. destruct (Z.ltb_spec v 128); split; done || lia.
  - split; [|lia]. intros _. destruct (big_Bytes v) as [|b [|b' c]] eqn:E; try done.
    exfalso. pose proof (be_val_big_Bytes v) as Hb. pose proof (big_Bytes_bytes v) as Hby.
    rewrite E in Hb, Hby. apply Forall_cons_iff in Hby as [Hby _]. unfold is_byte, be_val in *.
    cbn in Hb. lia.
Qed.

Lemma uint_bits_le bits : uint_bits bits → 1 ≤ bits / 8 ≤ 8 ∧ 256 ≤ 2 ^ bits ≤ two64.
Proof. intros [-> | [-> | [-> | ->]]]; vm_compute; done. Qed.

Lemma uint_sound bits n : uint_bits bits → sound (Stream_uint bits) (uint_lang bits) n.
Proof.
  intros Hbits. pose proof (uint_bits_le bits Hbits) as [H8 H256].
  apply Kind_bind_sound. intros s h tl stk k size Hby Hwf Hh Hb Hn Hk. destruct k; [| |done].
  - inversion Hh as [b Hb0|]; [subst|done]. destruct Hk as [[Hl Hbv] Hk]. specialize (Hbv eq_refl).
    injection Hbv as ->. rewrite bind_eq. cbn [sm_get]. destruct (Z.eqb_spec (s_byteval s) 0); [done|].
    exists [], tl. split; [done|]. split; [cbn in *; lia|]. split.
    + split; [|lia]. rewrite big_Bytes_byte by lia. cbn.
      by destruct (Z.ltb_spec (s_byteval s) 128); [|lia].
    + refine (set_kind_at s KByte 0 [s_byteval s] tl stk _). by split.
  - destruct (Z.ltb_spec (bits / 8) size) as [|Hfit]; [done|].
    destruct (content_of h tl size stk) as (c & tl' & -> & Hc);
      [by eapply headed_size|done|done|]. subst size.
    assert (strlen (h ++ c) ≤ bound (strlen (h ++ c ++ tl')) stk) as Hb' by (rewrite length_app at 1; lia).
    destruct (uint_content s h c tl' stk Hk Hb' ltac:(lia)) as (s' & -> & Hs').
    apply Forall_app in Hby as [_ [Hcb _]%Forall_app].
    pose proof (uint_result_no_eol c) as [He Hp].
    destruct (uint_result c) as [v|e|] eqn:Er; [|congruence|done].
    apply uint_result_ok in Er as [Ec Hv]; [|done]. assert (0 ≤ v) by lia.
    exists c, tl'. split_and!; [done|done| |done]. split.
    + rewrite <- Ec. eapply headed_string_enc; [done|]. apply long_string_kind.
      split; [done|]. rewrite Ec. by apply uint_string_kind.
    + split; [done|]. apply big_Bytes_fits; [done|done|]. by rewrite <- Ec.
Qed.

Lemma uint_complete bits n : uint_bits bits → complete (Stream_uint bits) (uint_lang bits) n.
Proof.
  intros Hbits v x [-> Hv] _ s tl stk Hs Hb. pose proof (uint_bits_le bits Hbits) as [H8 H256].
  unfold Stream_uint. rewrite bind_eq.
  destruct (string_lang_split (big_Bytes v) (enc_string (big_Bytes v))) as [(b & Ec & Ex & Hb0)|[Hk Ex]].
  { split; [done|apply big_Bytes_bytes]. }
  - rewrite Ex in *. pose proof (be_val_big_Bytes v) as Hbe. rewrite Ec in Hbe. unfold be_val in Hbe.
    cbn in Hbe. assert (b = v) as -> by lia.
    destruct (Kind_complete s KByte 0 [v] tl stk Hs) as (s' & -> & Hr); [by apply headed_byte|done|].
    pose proof Hr as [[_ Hbv] _]. injection (Hbv eq_refl) as Ev. rewrite bind_eq. cbn [sm_get].
    rewrite <- Ev. destruct (Z.eqb_spec v 0) as [->|]; [done|].
    eexists. split; [reflexivity|]. by eapply set_kind_at.
  - rewrite Ex in *. set (c := big_Bytes v) in *.
    destruct (Kind_content_complete s KString c tl stk Hs) as (s' & -> & Hr & Hh); [done|done|].
    pose proof (proj2 (big_Bytes_fits v bits Hbits ltac:(lia)) ltac:(lia)) as Hfit. fold c in Hfit.
    destruct (Z.ltb_spec (bits / 8) (strlen c)); [lia|]. rewrite <- (assoc_L (++)) in Hb.
    destruct (uint_content s' _ c tl stk Hr Hb ltac:(lia)) as (s'' & -> & Hs'').
    exists s''. split; [|done]. f_equal. apply uint_result_ok; [apply big_Bytes_bytes|].
    split; [done|]. by apply uint_string_kind; [lia|].
Qed.

(** ** Conversions of a decoded value *)

Lemma sound_map {A B} (m : SM A) (r : A → outcome RlpError B) (g : A → SM B) L L' n :
  sound m L n → (∀ a s, g a s = (s, r a)) → (∀ a, r a ≠ Panic ∧ r a ≠ Err EOL) →
  (∀ a b x, L a x → r a = Ok b → L' b x) → sound (m ≫= g) L' n.
Proof.
  intros Hm Hg Hr HL s inp stk Hs Hn. rewrite bind_eq. specialize (Hm s inp stk Hs Hn).
  destruct (m s) as [s1 [a|e|]]; [|done|done]. rewrite Hg. destruct (Hr a) as [Hp He].
  destruct (r a) as [b|e|] eqn:E; [|congruence|done].
  destruct Hm as (x & tl & Ex & Hx & Ha & Hs1). exists x, tl. eauto 6.
Qed.

Lemma complete_map {A B} (m : SM A) (r : A → outcome RlpError B) (g : A → SM B) L L' n :
  complete m L n → (∀ a s, g a s = (s, r a)) →
  (∀ b x, L' b x → ∃ a, L a x ∧ r a = Ok b) → complete (m ≫= g) L' n.
Proof.
  intros Hm Hg HL b x (a & Ha & Hr)%HL Hx s tl stk Hs Hb. rewrite bind_eq.
  destruct (Hm a x Ha Hx s tl stk Hs Hb) as (s' & -> & Hs'). exists s'. by rewrite Hg, Hr.
Qed.

(** ** Raw items *)

Definition raw_item (x : list Z) : Prop :=
  is_bytes x ∧ ∃ k size h c, x = h ++ c ∧ headed k size h ∧ strlen c = size.

Definition raw_lang (b x : list Z) : Prop := b = x ∧ raw_item x.

Lemma puthead_kind k size : k ≠ KByte → 0 ≤ size < two64 →
  match k with KList => puthead 192 247 size | _ => puthead 128 183 size end =
  kind_head k (Z.to_nat size).
Proof.
  intros Hk Hs. pose proof (Z2Nat.id size ltac:(lia)) as E.
  destruct k; [done| |]; rewrite <- E at 1; apply puthead_enc_head; lia.
Qed.

Lemma Raw_content s k h c tl stk : kind_read s k (strlen c) h (c ++ tl) stk → k ≠ KByte →
  headed k (strlen c) h → strlen (h ++ c) ≤ bound (strlen (h ++ c ++ tl)) stk →
  ∃ s', match k with
        | KByte => sm_err EOL
        | KString => b ← readFull (strlen c); mret (puthead 128 183 (strlen c) ++ b)
        | KList => b ← readFull (strlen c); mret (puthead 192 247 (strlen c) ++ b)
        end s = (s', Ok (h ++ c)) ∧ at_ s' tl (bump stk (strlen (h ++ c))).
Proof.
  intros Hr Hk Hh Hb. inversion Hh as [|? ? _ Hsz]; [by subst|]. subst h.
  rewrite <- (puthead_kind k (strlen c)) in * by done.
  destruct (readFull_content s k _ _ c tl stk Hr eq_refl Hb) as (s' & HF & Hs' & _).
  exists s'. destruct k; [done| |]; rewrite bind_eq, HF; done.
Qed.

Lemma Raw_sound n : sound Stream_Raw raw_lang n.
Proof.
  apply Kind_bind_sound. intros s h tl stk k size Hby Hwf Hh Hb Hn Hk.
  pose proof (headed_size _ _ _ Hh) as Hsz.
  assert (k = KByte ∨ k ≠ KByte) as [->|Hnk] by (destruct k; auto).
  - inversion Hh as [b Hb0|]; [subst|done]. destruct Hk as [[Hl Hbv] Hk].
    injection (Hbv eq_refl) as ->. rewrite bind_eq. cbn [sm_mod].
    exists [], tl. split; [done|]. split; [cbn in *; lia|]. split.
    + split; [done|]. apply Forall_app in Hby as [Hby _]. split; [done|].
      exists KByte, 0, [s_byteval s], []. by split_and!.
    + refine (set_kind_at s KByte 0 [s_byteval s] tl stk _). by split.
  - destruct (content_of h tl size stk) as (c & tl' & -> & Hc); [lia|done|done|]. subst size.
    assert (strlen (h ++ c) ≤ bound (strlen (h ++ c ++ tl')) stk) as Hb' by (rewrite length_app at 1; lia).
    destruct (Raw_content s k h c tl' stk Hk Hnk Hh Hb') as (s' & HR & Hs').
    replace (match k with KByte => _ | _ => _ end s) with (s', Ok (E := RlpError) (h ++ c))
      by (by destruct k).
    rewrite (assoc_L (++)) in Hby. apply Forall_app in Hby as [Hby _].
    exists c, tl'. split_and!; [done|done| |done]. split; [done|]. split; [done|].
    exists k, (strlen c), h, c. done.
Qed.

Lemma Raw_complete n : complete Stream_Raw raw_lang n.
Proof.
  intros x ? [-> (_ & k & size & h & c & -> & Hh & <-)] _ s tl stk Hs Hb.
  rewrite <- (assoc_L (++)) in Hs, Hb. unfold Stream_Raw. rewrite bind_eq.
  destruct (Kind_complete s k (strlen c) h (c ++ tl) stk Hs Hh) as (s' & -> & Hr).
  { rewrite length_app in Hb at 1. lia. }
  assert (k = KByte ∨ k ≠ KByte) as [->|Hnk] by (destruct k; auto).
  - inversion Hh as [b Hb0 E1 E2 E3|]; [|done]. assert (c = []) as -> by (apply length_zero_iff_nil; lia).
    pose proof Hr as [[_ Hbv] _]. specialize (Hbv eq_refl). subst h.
    injection Hbv as ->. eexists. split; [reflexivity|].
    refine (set_kind_at s' KByte 0 [s_byteval s'] tl stk _). done.
  - destruct (Raw_content s' k h c tl stk Hr Hnk Hh Hb) as (s'' & HR & Hs'').
    exists s''. split; [|done]. by destruct k.
Qed.

(** ** Lists *)

(** A decoder of the whole content of a list. *)
Definition body_sound {A} (d : SM A) (M : A → list Z → Prop) (n : Z) : Prop :=
  ∀ s inp stk, at_ s inp stk → stk ≠ [] → bound (strlen inp) stk ≤ n →
  match d s with
  | (s', Ok a) => ∃ x tl, inp = x ++ tl ∧ strlen x ≤ bound (strlen inp) stk ∧ M a x ∧
                          at_ s' tl (bump stk (strlen x))
  | (_, Err e) => e ≠ EOL
  | (_, Panic) => False
  end.

Definition body_complete {A} (d : SM A) (M : A → list Z → Prop) (n : Z) : Prop :=
  ∀ a x, M a x → strlen x ≤ n → ∀ s tl stk,
  at_ s (x ++ tl) stk → stk ≠ [] → bound (strlen (x ++ tl)) stk = strlen x →
  ∃ s', d s = (s', Ok a) ∧ at_ s' tl (bump stk (strlen x)).

Definition in_list {A B} (d : Z → SM A) (f : A → B) : SM B :=
  size ← Stream_List;
  a ← d size;
  _ ← Stream_ListEnd;
  mret (f a).

Definition list_lang {A B} (f : A → B) (M : A → list Z → Prop) (v : B) (x : list Z) : Prop :=
  ∃ a c, v = f a ∧ M a c ∧ x = enc_list c.

Definition open_list (size : Z) : SM Z :=
  _ ← sm_mod (λ s, set_size 0 (set_kind None
        (set_stack ({| lp_pos := 0; lp_size := size |} :: s_stack s) s)));
  mret size.

Lemma open_list_at s h size tl stk : kind_read s KList size h tl stk → 0 ≤ size < two64 →
  strlen h + size ≤ bound (strlen (h ++ tl)) stk →
  ∃ s', open_list size s = (s', Ok size) ∧
        at_ s' tl ({| lp_pos := 0; lp_size := size |} :: bump stk (strlen h)).
Proof.
  intros [[[] _] _] Hs Hb. eexists. split; [reflexivity|]. split; [|done].
  split; cbn; try done; [by rewrite live_stk0|].
  pose proof (bound_range (strlen tl) (bump stk (strlen h)) ltac:(lia) live_wf0) as Hr.
  rewrite bound_app in Hr. split_and!; try lia; [|by rewrite Z.add_0_r].
  destruct stk as [|o rest]; [done|]. cbn in Hb |- *. lia.
Qed.

Lemma ListEnd_at s inp stk p size : at_ s inp ({| lp_pos := p; lp_size := size |} :: stk) →
  if decide (p = size) then
    ∃ s', Stream_ListEnd s = (s', Ok tt) ∧ at_ s' inp (bump stk size)
  else ∃ s', Stream_ListEnd s = (s', Err errNotAtEOL).
Proof.
  intros [[] Hk]. unfold Stream_ListEnd. rewrite live_stk0. cbn [lp_pos lp_size].
  destruct (decide (p = size)) as [->|Hne].
  - rewrite Z.eqb_refl. eexists. split; [reflexivity|]. cbn in live_wf0.
    destruct live_wf0 as (? & ? & ? & Ho & Hrest). split; [|done].
    destruct stk as [|o stk]; cbn in *.
    { by split. }
    destruct Hrest as (? & ? & ? & ? & ?). rewrite u64_small by (unfold is_u64; lia).
    split; cbn; try done. split_and!; try lia; [done|].
    by replace (strlen inp + (lp_pos o + size)) with (strlen inp + size + lp_pos o) by lia.
  - rewrite (proj2 (Z.eqb_neq _ _) Hne). by eexists.
Qed.

Lemma kind_head_list_enc c h : headed KList (strlen c) h → h ++ c = enc_list c.
Proof. intros Hh. inversion Hh; subst. rewrite Nat2Z.id. done. Qed.

Lemma in_list_eq {A B} (d : Z → SM A) (f : A → B) s :
  in_list d f s =
  (Stream_Kind ≫= (λ '(k, size), match k with
     | KList => open_list size ≫= λ size, d size ≫= λ a, Stream_ListEnd ≫= λ _, mret (f a)
     | _ => sm_err ErrExpectedList end)) s.
Proof.
  unfold in_list. rewrite !bind_eq. unfold Stream_List. rewrite bind_eq.
  destruct (Stream_Kind s) as [s1 [[k size]| |]]; [|done|done]. by destruct k.
Qed.

Lemma in_list_ends {A B} (d : Z → SM A) (f : A → B) : ends (in_list d f).
Proof. intros s inp stk Hs Hne Hb. rewrite in_list_eq. by apply Kind_ends. Qed.

Lemma in_list_sound {A B} (d : Z → SM A) (f : A → B) M n :
  (∀ size, body_sound (d size) M (n - 1)) →
  sound (in_list d f) (list_lang f M) n.
Proof.
  intros Hd.
  intros s inp stk. rewrite in_list_eq. revert s inp stk.
  apply Kind_bind_sound. intros s h tl stk k size Hby Hwf Hh Hb Hn Hk.
  destruct k; [done|done|]. pose proof (headed_size _ _ _ Hh) as Hsz.
  pose proof (headed_nonempty _ _ _ Hh) as Hne.
  destruct (open_list_at s h size tl stk Hk Hsz Hb) as (s1 & Ho & Hs1). rewrite bind_eq, Ho, bind_eq.
  specialize (Hd size s1 tl _ Hs1 ltac:(done)). cbn [bound lp_pos lp_size] in Hd.
  specialize (Hd ltac:(lia)). destruct (d size s1) as [s2 [a|e|]]; [|done|done].
  destruct Hd as (c & tl' & -> & Hc & HM & Hs2). cbn [bump lp_pos lp_size] in Hs2.
  apply ListEnd_at in Hs2. rewrite bind_eq. destruct (decide _) as [E|].
  - destruct Hs2 as (s3 & -> & Hs3). rewrite bump_bump in Hs3. exists c, tl'. cbn in E.
    assert (size = strlen c) as -> by lia.
    assert (strlen (h ++ c) = strlen h + strlen c) as El by (rewrite length_app; lia).
    split_and!; [done|lia| |by rewrite El]. exists a, c. split_and!; [done|done|].
    by apply kind_head_list_enc.
  - by destruct Hs2 as (s3 & ->).
Qed.

Lemma in_list_complete {A B} (d : Z → SM A) (f : A → B) M n :
  (∀ a c, M a c → body_complete (d (strlen c)) (λ a' c', a' = a ∧ c' = c) (n - 1)) →
  complete (in_list d f) (list_lang f M) n.
Proof.
  intros Hd v x (a & c & -> & HM & ->) Hx s tl stk Hs Hb. rewrite in_list_eq, bind_eq.
  destruct (Kind_content_complete s KList c tl stk Hs) as (s1 & -> & Hr & Hh); [done|done|].
  set (h := kind_head KList (length c)) in *.
  change (enc_list c) with (h ++ c) in *. rewrite <- (assoc_L (++)) in Hb.
  pose proof (headed_nonempty _ _ _ Hh) as Hne. rewrite length_app in Hx.
  destruct (open_list_at s1 h (strlen c) (c ++ tl) stk Hr) as (s2 & Ho & Hs2).
  { by eapply headed_size. } { rewrite length_app in Hb at 1. lia. }
  rewrite bind_eq, Ho, bind_eq.
  destruct (Hd a c HM a c (conj eq_refl eq_refl) ltac:(lia) s2 tl _ Hs2) as (s3 & -> & Hs3);
    [done|cbn; lia|].
  cbn [bump lp_pos lp_size] in Hs3. apply ListEnd_at in Hs3. rewrite decide_True in Hs3 by lia.
  destruct Hs3 as (s4 & HE & Hs4). rewrite bind_eq, HE. exists s4. split; [done|].
  rewrite bump_bump in Hs4. by rewrite length_app, Nat2Z.inj_add.
Qed.

(** ** Elements *)

(** The strings of a sequence of elements, one after the other. *)
Inductive many {A} (L : A → list Z → Prop) : list A → list Z → Prop :=
| many_nil : many L [] []
| many_cons v vs x xs : L v x → many L vs xs → many L (v :: vs) (x ++ xs).

Lemma slice_elems_sound fuel d L n : sound d L n → n < Z.of_nat fuel →
  body_sound (decodeSliceElems fuel d) (many L) n.
Proof.
  intros Hd. revert n Hd. induction fuel as [|fuel IH]; intros n Hd Hf s inp stk Hs Hne Hn.
  { pose proof (bound_range (strlen inp) stk ltac:(lia) (live_wf _ _ _ (proj1 Hs))). lia. }
  cbn [decodeSliceElems]. unfold sm_state. pose proof (Hd s inp stk Hs Hn) as H1.
  destruct (d s) as [s1 [v|e|]]; [| |done].
  - destruct H1 as (x & tl & -> & Hx & HL & Hs1). rewrite bind_eq.
    assert (sound d L (n - 1)) as Hd' by (intros ? ? ? ? ?; apply Hd; [done|lia]).
    assert (bump stk (strlen x) ≠ []) as Hne' by (by destruct stk).
    specialize (IH (n - 1) Hd' ltac:(lia) s1 tl _ Hs1 Hne').
    rewrite bound_app in IH. specialize (IH ltac:(lia)).
    destruct (decodeSliceElems fuel d s1) as [s2 [vs|e|]]; [|done|done].
    destruct IH as (xs & tl' & -> & Hxs & HM & Hs2). rewrite bump_bump in Hs2.
    exists (x ++ xs), tl'. rewrite length_app, Nat2Z.inj_add.
    split_and!; [by rewrite (assoc_L (++))|lia|by constructor|done].
  - destruct (decide (e = EOL)) as [->|He].
    + destruct (H1 eq_refl) as (_ & Hb & Hs1). exists [], inp.
      split_and!; [done|cbn; lia|constructor|by rewrite bump_0].
    + by destruct e.
Qed.

Lemma bound_exact (x xs tl : list Z) stk :
  bound (strlen ((x ++ xs) ++ tl)) stk = strlen (x ++ xs) →
  strlen x ≤ bound (strlen (x ++ xs ++ tl)) stk ∧
  bound (strlen (xs ++ tl)) (bump stk (strlen x)) = strlen xs.
Proof.
  intros Hb. rewrite bound_app. rewrite <- (assoc_L (++)) in Hb. rewrite Hb, length_app. lia.
Qed.

Lemma bump_nonempty stk k : stk ≠ [] → bump stk k ≠ [].
Proof. by destruct stk. Qed.

Lemma slice_elems_complete fuel d L n : complete d L n → ends d → (∀ v x, L v x → 1 ≤ strlen x) →
  n < Z.of_nat fuel → body_complete (decodeSliceElems fuel d) (many L) n.
Proof.
  intros Hd He Hpos Hf vs x HM Hx s tl stk Hs Hne Hb.
  assert (strlen x < Z.of_nat fuel) as Hfx by lia. clear Hf. revert s tl stk Hs Hne Hb fuel Hfx.
  induction HM as [|v vs x xs HL _ IH]; intros s tl stk Hs Hne Hb fuel Hf.
  - destruct fuel as [|fuel]; [cbn in Hf; lia|].
    destruct (He s tl stk Hs Hne Hb) as (s' & HE & Hs'). exists s'.
    cbn. unfold sm_state. rewrite HE. split; [done|]. by rewrite bump_0.
  - destruct fuel as [|fuel]; [lia|]. rewrite length_app in Hx, Hf.
    destruct (bound_exact x xs tl stk Hb) as [Hbx Hbxs]. rewrite <- (assoc_L (++)) in Hs.
    destruct (Hd v x HL ltac:(lia) s (xs ++ tl) stk Hs Hbx) as (s1 & H1 & Hs1).
    pose proof (Hpos v x HL).
    destruct (IH ltac:(lia) s1 tl _ Hs1 (bump_nonempty _ _ Hne) Hbxs fuel ltac:(lia)) as (s2 & H2 & Hs2).
    exists s2. cbn [decodeSliceElems]. unfold sm_state. rewrite H1, bind_eq, H2. split; [done|].
    by rewrite bump_bump, <- Nat2Z.inj_add, <- length_app in Hs2.
Qed.

(** Struct fields and array elements. *)
Inductive fields (L : rtype → value → list Z → Prop) : list rtype → list value → list Z → Prop :=
| fields_nil : fields L [] [] []
| fields_cons t ts v vs x xs :
    L t v x → fields L ts vs xs → fields L (t :: ts) (v :: vs) (x ++ xs).

Lemma fields_body_sound dec L ts n : Forall (λ t, sound (dec t) (L t) n) ts →
  body_sound (decodeFields dec ts) (fields L ts) n.
Proof.
  induction 1 as [|t ts Ht _ IH]; intros s inp stk Hs Hne Hn.
  - cbn. exists [], inp.
    pose proof (bound_range (strlen inp) stk ltac:(lia) (live_wf _ _ _ (proj1 Hs))).
    split_and!; [done|cbn; lia|constructor|by rewrite bump_0].
  - cbn [decodeFields]. rewrite bind_eq. unfold or_too_few. pose proof (Ht s inp stk Hs Hn) as H1.
    destruct (dec t s) as [s1 [v|e|]]; [| |done].
    + destruct H1 as (x & tl & -> & Hx & HL & Hs1). rewrite bind_eq.
      specialize (IH s1 tl _ Hs1 (bump_nonempty _ _ Hne)). rewrite bound_app in IH.
      specialize (IH ltac:(lia)).
      destruct (decodeFields dec ts s1) as [s2 [vs|e|]]; [|done|done].
      destruct IH as (xs & tl' & -> & Hxs & HM & Hs2). rewrite bump_bump in Hs2.
      exists (x ++ xs), tl'. rewrite length_app, Nat2Z.inj_add.
      split_and!; [by rewrite (assoc_L (++))|lia|by constructor|done].
    + by destruct e.
Qed.

Lemma fields_body_complete dec L ts n : Forall (λ t, complete (dec t) (L t) n) ts →
  body_complete (decodeFields dec ts) (fields L ts) n.
Proof.
  intros Hts vs x HM. induction HM as [|t ts v vs x xs HL _ IH]; intros Hx s tl stk Hs Hne Hb.
  - exists s. split; [done|]. by rewrite bump_0.
  - apply Forall_cons_iff in Hts as [Ht Hts]. rewrite length_app in Hx.
    destruct (bound_exact x xs tl stk Hb) as [Hbx Hbxs]. rewrite <- (assoc_L (++)) in Hs.
    destruct (Ht v x HL ltac:(lia) s (xs ++ tl) stk Hs Hbx) as (s1 & H1 & Hs1).
    destruct (IH Hts ltac:(lia) s1 tl _ Hs1 (bump_nonempty _ _ Hne) Hbxs) as (s2 & H2 & Hs2).
    exists s2. cbn [decodeFields]. rewrite bind_eq. unfold or_too_few. rewrite H1, bind_eq, H2.
    split; [done|]. by rewrite bump_bump, <- Nat2Z.inj_add, <- length_app in Hs2.
Qed.

Lemma decodeArrayElems_fields n d t :
  decodeArrayElems n d = decodeFields (λ _, d) (replicate n t).
Proof. induction n as [|n IH]; [done|]. cbn. by rewrite IH. Qed.

Lemma fields_replicate L n t vs x :
  fields (λ _, L) (replicate n t) vs x ↔ many L vs x ∧ length vs = n.
Proof.
  split.
  - revert vs x. induction n as [|n IH]; cbn; intros vs x H; inversion H; subst.
    + by split; [constructor|].
    + edestruct IH as [? <-]; [done|]. by split; [constructor|].
  - intros [HM <-]. induction HM; cbn; by constructor.
Qed.

(** ** Typed values *)

Inductive has_type : rtype → value → Prop :=
| ht_raw b : raw_item b → has_type TRaw (VRaw b)
| ht_big z : 0 ≤ z → has_type TBigInt (VBigIntPtr (Some z))
| ht_uint bits i : 0 ≤ i < 2 ^ bits → has_type (TUint bits) (VUint i)
| ht_bool b : has_type TBool (VBool b)
| ht_bytes b : is_bytes b → has_type TBytes (VBytes b)
| ht_bytearray b : is_bytes b → has_type (TByteArray (length b)) (VBytes b)
| ht_slice t l : Forall (has_type t) l → has_type (TSlice t) (VSlice l)
| ht_array t l : Forall (has_type t) l → has_type (TArray (length l) t) (VSlice l)
| ht_struct ts l : Forall2 has_type ts l → has_type (TStruct ts) (VStruct l)
| ht_ibytes b : is_bytes b → has_type TInterface (VBytes b)
| ht_ilist l : Forall (has_type TInterface) l → has_type TInterface (VSlice l).

Definition lang (t : rtype) (v : value) (x : list Z) : Prop :=
  has_type t v ∧ enc_value v = Some x.

(** The types considered: integers of a machine width, and no one-byte arrays. *)
Fixpoint rtype_ok (t : rtype) : Prop :=
  match t with
  | TUint bits => uint_bits bits
  | TByteArray n => n ≠ 1%nat ∧ Z.of_nat n < two64
  | TSlice t | TArray _ t => rtype_ok t
  | TStruct ts => foldr (λ t P, rtype_ok t ∧ P) True ts
  | _ => True
  end.

Fixpoint tsize (t : rtype) : nat :=
  match t with
  | TSlice t | TArray _ t => S (tsize t)
  | TStruct ts => S (foldr (λ t n, tsize t + n)%nat O ts)
  | _ => 1
  end.

Lemma many_lang t vs x : many (lang t) vs x ↔
  Forall (has_type t) vs ∧ concat_opt enc_value vs = Some x.
Proof.
  split.
  - induction 1 as [|v vs x xs [Ht Hv] _ [IH1 IH2]]; [done|].
    split; [by constructor|]. cbn. by rewrite Hv, IH2.
  - intros [HF HC]. revert x HC. induction HF as [|v vs Ht _ IH]; cbn; intros x HC.
    + injection HC as <-. constructor.
    + apply bind_Some in HC as (b & Hb & (bs & Hbs & [= <-])%bind_Some). constructor; [done|auto].
Qed.

Lemma fields_lang ts vs x : fields lang ts vs x ↔
  Forall2 has_type ts vs ∧ concat_opt enc_value vs = Some x.
Proof.
  split.
  - induction 1 as [|t ts v vs x xs [Ht Hv] _ [IH1 IH2]]; [by split; [constructor|]|].
    split; [by constructor|]. cbn. by rewrite Hv, IH2.
  - intros [HF HC]. revert x HC. induction HF as [|t v ts vs Ht _ IH]; cbn; intros x HC.
    + injection HC as <-. constructor.
    + apply bind_Some in HC as (b & Hb & (bs & Hbs & [= <-])%bind_Some). constructor; [done|auto].
Qed.

Lemma enc_list_some l x : enc_list <$> l = Some x ↔ ∃ c, l = Some c ∧ x = enc_list c.
Proof. destruct l; cbn; naive_solver. Qed.

Lemma slice_lang t v x : lang (TSlice t) v x ↔ list_lang VSlice (many (lang t)) v x.
Proof.
  unfold lang, list_lang. split.
  - intros [Ht Hv]. inversion Ht; subst. cbn in Hv. apply enc_list_some in Hv as (c & Hc & ->).
    exists l, c. split_and!; [done|by apply many_lang|done].
  - intros (l & c & -> & [Hl Hc]%many_lang & ->). split; [by constructor|]. cbn. by rewrite Hc.
Qed.

Lemma array_lang n t v x :
  lang (TArray n t) v x ↔ list_lang VSlice (fields (λ _, lang t) (replicate n TBool)) v x.
Proof.
  unfold lang, list_lang. split.
  - intros [Ht Hv]. inversion Ht; subst. cbn in Hv. apply enc_list_some in Hv as (c & Hc & ->).
    exists l, c. split_and!; [done|by apply fields_replicate; split; [apply many_lang|]|done].
  - intros (l & c & -> & [[Hl Hc]%many_lang <-]%fields_replicate & ->).
    split; [by constructor|]. cbn. by rewrite Hc.
Qed.

Lemma struct_lang ts v x : lang (TStruct ts) v x ↔ list_lang VStruct (fields lang ts) v x.
Proof.
  unfold lang, list_lang. split.
  - intros [Ht Hv]. inversion Ht; subst. cbn in Hv. apply enc_list_some in Hv as (c & Hc & ->).
    exists l, c. split_and!; [done|by apply fields_lang|done].
  - intros (l & c & -> & [Hl Hc]%fields_lang & ->). split; [by constructor|]. cbn. by rewrite Hc.
Qed.

(** Soundness and completeness only depend on the relation up to equivalence. *)
Lemma sound_iff {A} (d : SM A) L L' n : (∀ v x, L v x → L' v x) → sound d L n → sound d L' n.
Proof.
  intros HL Hd s inp stk Hs Hn. specialize (Hd s inp stk Hs Hn).
  destruct (d s) as [s' [v|e|]]; [|done|done]. destruct Hd as (x & tl & ? & ? & ? & ?). eauto 10.
Qed.

Lemma complete_iff {A} (d : SM A) L L' n : (∀ v x, L' v x → L v x) → complete d L n → complete d L' n.
Proof. intros HL Hd v x Hv. by apply Hd, HL. Qed.

Lemma sound_ext {A} (d d' : SM A) L n : (∀ s, d s = d' s) → sound d' L n → sound d L n.
Proof. intros E Hd s inp stk Hs Hn. rewrite E. by apply Hd. Qed.

Lemma complete_ext {A} (d d' : SM A) L n : (∀ s, d s = d' s) → complete d' L n → complete d L n.
Proof. intros E Hd v x Hv Hx s tl stk Hs Hb. rewrite E. by apply Hd. Qed.

Lemma ends_ext {A} (d d' : SM A) : (∀ s, d s = d' s) → ends d' → ends d.
Proof. intros E Hd s inp stk Hs Hne Hb. rewrite E. by apply Hd. Qed.

Lemma enc_kind_length k c : (k ≠ KList → k = string_kind c) → 1 ≤ strlen (enc_kind k c).
Proof. intros Hk. pose proof (enc_kind_nonempty k c Hk). lia. Qed.

Lemma enc_string_pos c : 1 ≤ strlen (enc_string c).
Proof.
  destruct (string_kind c) eqn:E.
  - apply (enc_kind_length KByte). by intros _.
  - apply (enc_kind_length KString). by intros _.
  - by destruct c as [|b [|]]; cbn in E; [|destruct (_ <? _)|].
Qed.

Lemma enc_list_pos c : 1 ≤ strlen (enc_list c).
Proof. by apply (enc_kind_length KList). Qed.

Lemma lang_pos t v x : lang t v x → 1 ≤ strlen x.
Proof.
  intros [Ht Hv].
  destruct Ht as [b Hraw|z Hz| | | | | | | | |]; cbn in Hv;
    try (injection Hv as <-; apply enc_string_pos);
    try (apply enc_list_some in Hv as (c & _ & ->); apply enc_list_pos).
  - injection Hv as <-. destruct Hraw as (_ & k & size & h & c & -> & Hh & _).
    pose proof (headed_nonempty _ _ _ Hh). rewrite length_app. lia.
  - destruct (Z.ltb_spec z 0); [lia|]. injection Hv as <-. apply enc_string_pos.
Qed.

(** *** Slices *)

Definition slice_body (fuel : nat) (d : SM value) (size : Z) : SM (list value) :=
  if size =? 0 then mret [] else decodeSliceElems fuel d.

Lemma decodeListSlice_eq fuel d s : decodeListSlice fuel d s = in_list (slice_body fuel d) VSlice s.
Proof.
  unfold decodeListSlice, in_list. rewrite !bind_eq.
  destruct (Stream_List s) as [s1 [size| |]]; [|done|done]. rewrite bind_eq. unfold slice_body.
  by destruct (size =? 0); rewrite ?bind_eq.
Qed.

Lemma slice_sound fuel d L n : sound d L (n - 1) → n - 1 < Z.of_nat fuel →
  sound (decodeListSlice fuel d) (list_lang VSlice (many L)) n.
Proof.
  intros Hd Hf. eapply sound_ext; [apply decodeListSlice_eq|]. apply in_list_sound.
  intros size. unfold slice_body. destruct (size =? 0).
  - intros s inp stk Hs Hne Hn. cbn. exists [], inp.
    pose proof (bound_range (strlen inp) stk ltac:(lia) (live_wf _ _ _ (proj1 Hs))).
    split_and!; [done|cbn; lia|constructor|by rewrite bump_0].
  - by apply slice_elems_sound.
Qed.

Lemma slice_complete fuel d L n : complete d L (n - 1) → ends d → (∀ v x, L v x → 1 ≤ strlen x) →
  n - 1 < Z.of_nat fuel → complete (decodeListSlice fuel d) (list_lang VSlice (many L)) n.
Proof.
  intros Hd He Hpos Hf. eapply complete_ext; [apply decodeListSlice_eq|]. apply in_list_complete.
  intros vs c HM. unfold slice_body. destruct (Z.eqb_spec (strlen c) 0) as [E|].
  - intros ? ? [-> ->] _ s tl stk Hs _ _. exists s.
    destruct HM as [|v vs x xs HL _]; [split; [done|by rewrite bump_0]|].
    exfalso. apply Hpos in HL. rewrite length_app in E. lia.
  - intros ? ? [-> ->]. by eapply slice_elems_complete.
Qed.

Lemma slice_ends fuel d : ends (decodeListSlice fuel d).
Proof. eapply ends_ext; [apply decodeListSlice_eq|]. apply in_list_ends. Qed.

(** *** Structs and arrays *)

Lemma struct_sound dec L ts n : Forall (λ t, sound (dec t) (L t) (n - 1)) ts →
  sound (decodeStruct dec ts) (list_lang VStruct (fields L ts)) n.
Proof.
  intros Hts. apply (in_list_sound (λ _, decodeFields dec ts) VStruct). intros _.
  by apply fields_body_sound.
Qed.

Lemma struct_complete dec L ts n : Forall (λ t, complete (dec t) (L t) (n - 1)) ts →
  complete (decodeStruct dec ts) (list_lang VStruct (fields L ts)) n.
Proof.
  intros Hts. apply (in_list_complete (λ _, decodeFields dec ts) VStruct).
  intros vs c HM ? ? [-> ->]. by apply (fields_body_complete dec L ts (n - 1)).
Qed.

Lemma array_sound k d L n : sound d L (n - 1) →
  sound (decodeListArray k d) (list_lang VSlice (fields (λ _, L) (replicate k TBool))) n.
Proof.
  intros Hd. apply (in_list_sound (λ _, decodeArrayElems k d) VSlice). intros _.
  rewrite (decodeArrayElems_fields k d TBool). apply fields_body_sound. by apply Forall_replicate.
Qed.

Lemma array_complete k d L n : complete d L (n - 1) →
  complete (decodeListArray k d) (list_lang VSlice (fields (λ _, L) (replicate k TBool))) n.
Proof.
  intros Hd. apply (in_list_complete (λ _, decodeArrayElems k d) VSlice).
  intros vs c HM ? ? [-> ->]. rewrite (decodeArrayElems_fields k d TBool).
  eapply (fields_body_complete (λ _, d) (λ _, L)); [by apply Forall_replicate|done].
Qed.

(** *** Scalars *)

Lemma bytes_sound n : sound (b ← Stream_Bytes; mret (VBytes b)) (lang TBytes) n.
Proof.
  eapply (sound_map _ (λ b, Ok (VBytes b))); [apply Bytes_sound|done|done|].
  intros b v x [-> Hb] [= <-]. by split; [constructor|].
Qed.

Lemma bytes_complete n : complete (b ← Stream_Bytes; mret (VBytes b)) (lang TBytes) n.
Proof.
  eapply (complete_map _ (λ b, Ok (VBytes b))); [apply Bytes_complete|done|].
  intros v x [Ht Hv]. inversion Ht; subst. injection Hv as <-. by exists b.
Qed.

Lemma raw_sound n : sound (b ← Stream_Raw; mret (VRaw b)) (lang TRaw) n.
Proof.
  eapply (sound_map _ (λ b, Ok (VRaw b))); [apply Raw_sound|done|done|].
  intros b v x [-> Hb] [= <-]. by split; [constructor|].
Qed.

Lemma raw_complete n : complete (b ← Stream_Raw; mret (VRaw b)) (lang TRaw) n.
Proof.
  eapply (complete_map _ (λ b, Ok (VRaw b))); [apply Raw_complete|done|].
  intros v x [Ht Hv]. inversion Ht; subst. injection Hv as <-. by exists b.
Qed.

Lemma uintv_sound bits n : uint_bits bits →
  sound (v ← Stream_uint bits; mret (VUint v)) (lang (TUint bits)) n.
Proof.
  intros Hb. eapply (sound_map _ (λ v, Ok (VUint v))); [by apply uint_sound|done|done|].
  intros i v x [-> Hi] [= <-]. by split; [constructor|].
Qed.

Lemma uintv_complete bits n : uint_bits bits →
  complete (v ← Stream_uint bits; mret (VUint v)) (lang (TUint bits)) n.
Proof.
  intros Hb. eapply (complete_map _ (λ v, Ok (VUint v))); [by apply uint_complete|done|].
  intros v x [Ht Hv]. inversion Ht; subst. injection Hv as <-. by exists i.
Qed.

Definition bool_result (num : Z) : outcome RlpError bool :=
  if num =? 0 then Ok false else if num =? 1 then Ok true else Err errInvalidBool.

Lemma Bool_sound n : sound Stream_Bool (λ b x, lang TBool (VBool b) x) n.
Proof.
  eapply (sound_map _ bool_result); [apply (uint_sound 8); by left| | |].
  - intros a s. unfold bool_result. by repeat case_match.
  - intros a. unfold bool_result. by repeat case_match.
  - intros a b x [-> Ha]. unfold bool_result.
    destruct (Z.eqb_spec a 0) as [->|]; [|destruct (Z.eqb_spec a 1) as [->|]; [|done]];
      intros [= <-]; (split; [constructor|done]).
Qed.

Lemma Bool_complete n : complete Stream_Bool (λ b x, lang TBool (VBool b) x) n.
Proof.
  eapply (complete_map _ bool_result); [apply (uint_complete 8); by left| |].
  - intros a s. unfold bool_result. by repeat case_match.
  - intros [] x [_ [= <-]]; [exists 1|exists 0]; (split; [split; [done|lia]|done]).
Qed.

Lemma boolv_sound n : sound (b ← Stream_Bool; mret (VBool b)) (lang TBool) n.
Proof.
  eapply (sound_map _ (λ v, Ok (VBool v))); [apply Bool_sound|done|done|].
  by intros b v x Hb [= <-].
Qed.

Lemma boolv_complete n : complete (b ← Stream_Bool; mret (VBool b)) (lang TBool) n.
Proof.
  eapply (complete_map _ (λ v, Ok (VBool v))); [apply Bool_complete|done|].
  intros v x HL. pose proof HL as [Ht _]. inversion Ht; subst. by exists b.
Qed.

Definition bigint_result (b : list Z) : outcome RlpError value :=
  match b with 0 :: _ => Err ErrCanonInt | _ => Ok (VBigIntPtr (Some (be_val b))) end.

Lemma bigint_sound n : sound decodeBigInt (lang TBigInt) n.
Proof.
  eapply (sound_map _ bigint_result); [apply Bytes_sound| | |].
  - intros a s. unfold bigint_result. by repeat case_match.
  - intros a. unfold bigint_result. by repeat case_match.
  - intros a v x [-> Ha] Hr. assert (hd 1 a ≠ 0) as Hhd by (destruct a as [|[]]; [done|done|cbn; lia|cbn; lia]).
    assert (v = VBigIntPtr (Some (be_val a))) as ->
      by (unfold bigint_result in Hr; repeat case_match; congruence).
    pose proof (be_val_bounds a Ha). split; [constructor; lia|]. cbn.
    destruct (Z.ltb_spec (be_val a) 0); [lia|]. by rewrite big_Bytes_be_val.
Qed.

Lemma bigint_complete n : complete decodeBigInt (lang TBigInt) n.
Proof.
  eapply (complete_map _ bigint_result); [apply Bytes_complete| |].
  - intros a s. unfold bigint_result. by repeat case_match.
  - intros v x [Ht Hv]. inversion Ht as [|z Hz| | | | | | | | |]; subst. cbn in Hv.
    destruct (Z.ltb_spec z 0); [lia|]. injection Hv as <-. exists (big_Bytes z).
    split; [split; [done|apply big_Bytes_bytes]|]. unfold bigint_result.
    rewrite be_val_big_Bytes, Z.abs_eq by lia.
    destruct (decide (z = 0)) as [->|]; [done|]. pose proof (big_Bytes_hd z ltac:(lia)) as Hhd.
    by destruct (big_Bytes z) as [|[] l].
Qed.

(** *** Byte arrays *)

Lemma bytearray_sound k n : k ≠ 1%nat → Z.of_nat k < two64 →
  sound (decodeByteArray k) (lang (TByteArray k)) n.
Proof.
  intros Hk1 Hk64. apply Kind_bind_sound. intros s h tl stk k' size Hby Hwf Hh Hb Hn Hk.
  destruct k'; [| |done].
  - by destruct k as [|[|k]].
  - rewrite u64_small by (unfold is_u64; lia).
    destruct (Z.ltb_spec (Z.of_nat k) size); [done|]. destruct (Z.ltb_spec size (Z.of_nat k)); [done|].
    assert (size = Z.of_nat k) as -> by lia.
    destruct (content_of h tl (Z.of_nat k) stk) as (c & tl' & -> & Hc); [lia|done|done|].
    assert (strlen (h ++ c) ≤ bound (strlen (h ++ c ++ tl')) stk) as Hb' by (rewrite length_app at 1; lia).
    destruct (readFull_content s KString _ h c tl' stk Hk Hc Hb') as (s' & Hr & Hs' & _).
    rewrite bind_eq, Hr. destruct (_ && _) eqn:E; [done|]. exists c, tl'.
    apply Forall_app in Hby as [_ [Hcb _]%Forall_app].
    split_and!; [done|done| |done]. assert (k = length c) as -> by lia. split; [by constructor|].
    cbn [enc_value]. f_equal. symmetry. by eapply headed_string_enc.
Qed.

Lemma bytearray_complete k n : k ≠ 1%nat → Z.of_nat k < two64 →
  complete (decodeByteArray k) (lang (TByteArray k)) n.
Proof.
  intros Hk1 Hk64 v x [Ht Hv] _ s tl stk Hs Hb. inversion Ht as [| | | | |c Hc| | | | |]; subst.
  injection Hv as <-. unfold decodeByteArray. rewrite bind_eq.
  destruct (string_lang_split c (enc_string c)) as [(b & -> & _)|[Hk Ex]]; [done|done|].
  rewrite Ex in *.
  destruct (Kind_content_complete s KString c tl stk Hs) as (s' & -> & Hr & Hh); [done|done|].
  rewrite u64_small by (unfold is_u64; lia). rewrite Z.ltb_irrefl.
  rewrite <- (assoc_L (++)) in Hb.
  destruct (readFull_content _ _ _ _ _ _ _ Hr eq_refl Hb) as (s'' & HF & Hs'' & _).
  exists s''. split; [|done]. rewrite bind_eq, HF.
  destruct (proj2 (long_string_kind (strlen c) c)) as [_ ->]; done.
Qed.

(** *** Interfaces *)

(** A head that was read stays until it is consumed. *)
Lemma Kind_idem s s1 r : Stream_Kind s = (s1, Ok r) → Stream_Kind s1 = (s1, Ok r).
Proof.
  unfold Stream_Kind. destruct (s_kind s) as [k|] eqn:Ek.
  - intros E. injection E as <- E2. rewrite Ek. by rewrite E2.
  - destruct (match s_stack _ with [] => false | _ => _ end); [done|].
    destruct (Stream_readKind _) as [s2 [[k size] e]]. cbn. intros E. injection E as <- E2. cbn.
    by rewrite E2.
Qed.

Lemma Kind_again {A} (f : Kind * Z → SM A) s s1 r : Stream_Kind s = (s1, Ok r) →
  (Stream_Kind ≫= f) s1 = (Stream_Kind ≫= f) s.
Proof. intros E. rewrite !bind_eq, E. by rewrite (Kind_idem s s1 r E). Qed.

Definition iface_bytes : SM value := b ← Stream_Bytes; mret (VBytes b).

Definition iface (fuel : nat) (d : SM value) : SM value :=
  '(k, _) ← Stream_Kind;
  match k with
  | KList => decodeListSlice fuel d
  | _ => iface_bytes
  end.

Lemma iface_bytes_again s s1 r : Stream_Kind s = (s1, Ok r) → iface_bytes s1 = iface_bytes s.
Proof.
  intros E. assert (Stream_Bytes s1 = Stream_Bytes s) as HB by (by eapply Kind_again).
  unfold iface_bytes, mbind, SM_mbind. by rewrite HB.
Qed.

Lemma iface_list_again fuel d s s1 r : Stream_Kind s = (s1, Ok r) →
  decodeListSlice fuel d s1 = decodeListSlice fuel d s.
Proof. intros E. by rewrite !decodeListSlice_eq, !in_list_eq, (Kind_again _ s s1 r E). Qed.

(** The head decides between the two decoders. *)
Lemma iface_cases fuel d s :
  match Stream_Kind s with
  | (_, Ok (KList, _)) => iface fuel d s = decodeListSlice fuel d s
  | _ => iface fuel d s = iface_bytes s
  end.
Proof.
  unfold iface. rewrite bind_eq. destruct (Stream_Kind s) as [s1 [[k size]|e|]] eqn:E.
  - destruct k; [by eapply iface_bytes_again|by eapply iface_bytes_again|by eapply iface_list_again].
  - unfold iface_bytes, Stream_Bytes. by rewrite !bind_eq, E.
  - unfold iface_bytes, Stream_Bytes. by rewrite !bind_eq, E.
Qed.

Lemma iface_sound fuel d n : sound d (lang TInterface) (n - 1) → n - 1 < Z.of_nat fuel →
  sound (iface fuel d) (lang TInterface) n.
Proof.
  intros Hd Hf.
  assert (sound (decodeListSlice fuel d) (lang TInterface) n) as Hl.
  { eapply sound_iff; [|by apply slice_sound]. intros v x (l & c & -> & [Hl Hc]%many_lang & ->).
    split; [by constructor|]. cbn. by rewrite Hc. }
  assert (sound iface_bytes (lang TInterface) n) as Hb.
  { eapply sound_iff; [|apply bytes_sound]. intros v x [Ht Hv]. inversion Ht; subst.
    by split; [constructor|]. }
  intros s inp stk Hs Hn. pose proof (iface_cases fuel d s) as HC.
  assert (iface fuel d s = decodeListSlice fuel d s ∨ iface fuel d s = iface_bytes s) as [-> | ->].
  { destruct (Stream_Kind s) as [s1 [[[] size]|e|]]; auto. }
  - by apply Hl.
  - by apply Hb.
Qed.

Lemma iface_complete fuel d n : complete d (lang TInterface) (n - 1) → ends d →
  n - 1 < Z.of_nat fuel → complete (iface fuel d) (lang TInterface) n.
Proof.
  intros Hd He Hf v x [Ht Hv] Hx s tl stk Hs Hb. pose proof (iface_cases fuel d s) as HC.
  inversion Ht as [| | | | | | | | |b Hby|l Hl]; subst.
  - destruct (bytes_complete n (VBytes b) x (conj (ht_bytes b Hby) Hv) Hx s tl stk Hs Hb) as (s' & HB & Hs').
    exists s'. split; [|done]. rewrite <- HB. unfold iface_bytes in HC.
    unfold Stream_Bytes in HB. rewrite !bind_eq in HB.
    destruct (Stream_Kind s) as [s1 [[k size]|e|]]; [|done|done]. by destruct k.
  - cbn in Hv. apply enc_list_some in Hv as (c & Hc & ->).
    destruct (slice_complete fuel d (lang TInterface) n Hd He (lang_pos _) Hf (VSlice l) (enc_list c))
      with (s := s) (tl := tl) (stk := stk) as (s' & HB & Hs'); [|done|done|done|].
    { exists l, c. split_and!; [done|by apply many_lang|done]. }
    exists s'. split; [|done]. rewrite <- HB. rewrite decodeListSlice_eq, in_list_eq, bind_eq in HB.
    destruct (Stream_Kind s) as [s1 [[k size]|e|]]; [|done|done]. by destruct k.
Qed.

Lemma iface_ends fuel d : ends (iface fuel d).
Proof. apply Kind_ends. Qed.

(** ** All types *)

Lemma decode_ends fuel t : ends (decode (S fuel) t).
Proof.
  destruct t; cbn [decode].
  - apply ends_bind, Kind_ends.
  - apply ends_bind, Kind_ends.
  - apply ends_bind, Kind_ends.
  - do 2 apply ends_bind. apply Kind_ends.
  - apply ends_bind, Kind_ends.
  - apply Kind_ends.
  - apply slice_ends.
  - apply (in_list_ends (λ _, decodeArrayElems n (decode fuel t)) VSlice).
  - apply (in_list_ends (λ _, decodeFields (decode fuel) ts) VStruct).
  - apply iface_ends.
Qed.

Lemma struct_elems ts t n : t ∈ ts →
  foldr (λ t P, rtype_ok t ∧ P) True ts → (S (foldr (λ t n, tsize t + n) O ts) ≤ n)%nat →
  rtype_ok t ∧ (tsize t < n)%nat.
Proof.
  induction ts as [|t' ts IH]; [by intros ?%elem_of_nil|].
  intros [->|Hin]%elem_of_cons [Hok Hoks] Hn; cbn in Hn; [split; [done|lia]|].
  apply IH; [done|done|lia].
Qed.

Lemma decode_sound fuel t : rtype_ok t →
  sound (decode fuel t) (lang t) (Z.of_nat fuel - 1 - Z.of_nat (tsize t)).
Proof.
  revert t. induction fuel as [|fuel IH]; intros t Hok.
  { intros s inp stk Hs Hn. pose proof (bound_range (strlen inp) stk ltac:(lia) (live_wf _ _ _ (proj1 Hs))). lia. }
  set (n := Z.of_nat (S fuel) - 1 - Z.of_nat (tsize t)).
  assert (∀ t', rtype_ok t' → (tsize t' ≤ tsize t)%nat → sound (decode fuel t') (lang t') (n - 1)) as Hsub.
  { intros t' Hok' Hsz s inp stk Hs Hn. apply IH; [done|done|lia]. }
  destruct t; cbn [decode]; cbn [rtype_ok] in Hok.
  - apply raw_sound.
  - apply bigint_sound.
  - by apply uintv_sound.
  - apply boolv_sound.
  - apply bytes_sound.
  - destruct Hok. by apply bytearray_sound.
  - eapply sound_iff; [apply slice_lang|]. apply slice_sound; [|unfold n; lia].
    apply Hsub; [done|cbn; lia].
  - eapply sound_iff; [apply array_lang|]. apply array_sound. apply Hsub; [done|cbn; lia].
  - eapply sound_iff; [apply struct_lang|]. apply struct_sound. apply list.Forall_forall. intros t' Hin.
    destruct (struct_elems ts t' (tsize (TStruct ts)) Hin Hok ltac:(cbn; lia)). apply Hsub; [done|lia].
  - apply iface_sound; [|unfold n; lia]. apply Hsub; done.
Qed.

Lemma decode_complete fuel t : rtype_ok t →
  complete (decode fuel t) (lang t) (Z.of_nat fuel - 1 - Z.of_nat (tsize t)).
Proof.
  revert t. induction fuel as [|fuel IH]; intros t Hok.
  { intros v x Hx Hn. lia. }
  set (n := Z.of_nat (S fuel) - 1 - Z.of_nat (tsize t)).
  assert (∀ t', rtype_ok t' → (tsize t' ≤ tsize t)%nat → complete (decode fuel t') (lang t') (n - 1)) as Hsub.
  { intros t' Hok' Hsz v x Hv Hx. apply IH; [done|done|lia]. }
  destruct (decide (fuel = 0%nat)) as [->|Hfuel].
  { intros v x Hv Hx. pose proof (lang_pos _ _ _ Hv). lia. }
  assert (∀ t', ends (decode fuel t')) as He by (intros t'; destruct fuel; [done|apply decode_ends]).
  destruct t; cbn [decode]; cbn [rtype_ok] in Hok.
  - apply raw_complete.
  - apply bigint_complete.
  - by apply uintv_complete.
  - apply boolv_complete.
  - apply bytes_complete.
  - destruct Hok. by apply bytearray_complete.
  - eapply complete_iff; [apply slice_lang|].
    apply slice_complete; [apply Hsub; [done|cbn; lia]|done|apply lang_pos|unfold n; lia].
  - eapply complete_iff; [apply array_lang|]. apply array_complete. apply Hsub; [done|cbn; lia].
  - eapply complete_iff; [apply struct_lang|]. apply struct_complete. apply list.Forall_forall. intros t' Hin.
    destruct (struct_elems ts t' (tsize (TStruct ts)) Hin Hok ltac:(cbn; lia)). apply Hsub; [done|lia].
  - apply iface_complete; [by apply Hsub|done|unfold n; lia].
Qed.

(** ** Whole inputs *)

Lemma NewStream_at b : is_bytes b → strlen b < two64 → at_ (NewStream b) b [].
Proof.
  intros Hb Hlen. split; [|done]. split; cbn; try done. apply u64_small. unfold is_u64. lia.
Qed.

Lemma DecodeBytes_spec fuel b t : rtype_ok t → is_bytes b → strlen b < two64 →
  (tsize t + length b < fuel)%nat →
  DecodeBytes fuel b t ≠ Panic ∧ ∀ v, DecodeBytes fuel b t = Ok v ↔ lang t v b.
Proof.
  intros Hok Hb Hlen Hf. unfold DecodeBytes. pose proof (NewStream_at b Hb Hlen) as Hs.
  pose proof (decode_sound fuel t Hok (NewStream b) b [] Hs ltac:(cbn; lia)) as HS.
  split.
  - destruct (decode fuel t (NewStream b)) as [s [v|e|]]; [|done|done]. by destruct (s_in s).
  - intros v. split.
    + destruct (decode fuel t (NewStream b)) as [s [v'|e|]]; [|done|done].
      destruct HS as (x & tl & -> & _ & HL & [Hl _]). rewrite (live_in _ _ _ Hl).
      destruct tl; [|done]. intros [= ->]. by rewrite app_nil_r.
    + intros HL. rewrite <- (app_nil_r b) in Hs at 2.
      destruct (decode_complete fuel t Hok v b HL ltac:(lia) _ [] [] Hs) as (s' & -> & [Hl _]).
      { rewrite app_nil_r. cbn. lia. }
      by rewrite (live_in _ _ _ Hl).
Qed.

(** C21. [DecodeBytes], the stream decoder with its list stack and input limit,
    run with a decoder for any of the modelled types, ends on every input and
    returns the value [v] exactly when the input is the encoding of [v]: it
    inverts the encoder, and no other input is accepted (no trailing bytes,
    no non-minimal sizes or integers, no list element that overruns its list). *)
Theorem DecodeBytes_exact (fuel : nat) (b : list Z) (t : rtype)
    (Ht : rtype_ok t) (Hb : is_bytes b) (Hlen : strlen b < two64)
    (Hf : (tsize t + length b < fuel)%nat) :
  DecodeBytes fuel b t ≠ Panic ∧
  ∀ v, DecodeBytes fuel b t = Ok v ↔ has_type t v ∧ enc_value v = Some b.
Proof. by apply DecodeBytes_spec. Qed.

Lemma DecodeBytes_exact_witness :
  DecodeBytes 20 [196; 5; 193; 192; 128] TInterface =
  Ok (VSlice [VBytes [5]; VSlice [VSlice []]; VBytes []]).
Proof.
  apply (DecodeBytes_exact 20 [196; 5; 193; 192; 128] TInterface).
  - exact I.
  - repeat constructor; cbn; lia.
  - reflexivity.
  - cbn. lia.
  - split; [|vm_compute; reflexivity]. repeat constructor; cbn; lia.
Defined.

Lemma headed_bytes k size h : headed k size h → is_bytes h.
Proof.
  destruct 1 as [b Hb|k size Hk Hs]; [apply Forall_cons_iff; split; [unfold is_byte; lia|done]|].
  destruct (decide (size < 56)).
  - rewrite kind_head_small, Z2Nat.id by (done || lia). apply Forall_cons_iff.
    split; [|done]. unfold is_byte. destruct k; cbn; lia.
  - pose proof (big_Bytes_size size ltac:(lia)) as HL.
    rewrite kind_head_large, Z2Nat.id by (done || lia). apply Forall_cons_iff.
    split; [|apply big_Bytes_bytes]. unfold is_byte. destruct k; cbn; lia.
Qed.

Lemma enc_kind_bytes k c : (k ≠ KList → k = string_kind c) → strlen (enc_kind k c) < two64 →
  is_bytes c → is_bytes (enc_kind k c).
Proof.
  intros Hk Hlen Hc. rewrite <- kind_head_enc in * by done. rewrite length_app in Hlen.
  apply Forall_app. split; [|done]. destruct k; [by constructor| |];
    (eapply headed_bytes, headed_content; [done|lia]).
Qed.

Lemma enc_string_bytes c : is_bytes c → strlen (enc_string c) < two64 → is_bytes (enc_string c).
Proof.
  intros Hc Hlen. destruct (string_kind c) eqn:E.
  - apply (enc_kind_bytes KByte); [by intros _|done|done].
  - apply (enc_kind_bytes KString); [by intros _|done|done].
  - by destruct c as [|b [|]]; cbn in E; [|destruct (_ <? _)|].
Qed.

Lemma enc_list_bytes c : is_bytes c → strlen (enc_list c) < two64 → is_bytes (enc_list c).
Proof. intros Hc Hlen. by apply (enc_kind_bytes KList). Qed.

(** A typed value has an encoding, which is a byte string. *)
Definition encodable (v : value) : Prop :=
  value_ok v ∧ ∃ x, enc_value v = Some x ∧ (strlen x < two64 → is_bytes x).

Lemma encodable_elems l : Forall encodable l →
  foldr (λ v P, value_ok v ∧ P) True l ∧
  ∃ c, concat_opt enc_value l = Some c ∧ (strlen c < two64 → is_bytes c).
Proof.
  induction 1 as [|v l [Hv (x & Hx & Hxb)] _ [IH (c & Hc & Hcb)]]; [split; [done|exists []; split; [done|constructor]]|].
  split; [done|]. exists (x ++ c). split; [cbn; by rewrite Hx, Hc|].
  rewrite length_app. intros Hlen. apply Forall_app. split; [apply Hxb|apply Hcb]; lia.
Qed.

Lemma encodable_list (l : list value) : Forall encodable l → encodable (VSlice l) ∧ encodable (VStruct l).
Proof.
  intros (Hok & c & Hc & Hcb)%encodable_elems.
  assert (∃ x, enc_list <$> concat_opt enc_value l = Some x ∧ (strlen x < two64 → is_bytes x)) as H.
  { exists (enc_list c). rewrite Hc. split; [done|]. intros Hlen. apply enc_list_bytes; [|done].
    apply Hcb. unfold enc_list in Hlen. rewrite length_app in Hlen. lia. }
  split; by split.
Qed.

Lemma typed_encodable v : ∀ t, rtype_ok t → has_type t v → encodable v.
Proof.
  induction v using value_ind_list; intros t Hok Ht;
    inversion Ht as [b' Hraw|z Hz|bits i' Hi|b'|b' Hb|b' Hb|t' l' Hl|t' l' Hl|ts l' Hl|b' Hb|l' Hl]; subst.
  - pose proof (uint_bits_le bits Hok) as [_ H64]. split; [cbn; unfold is_u64; lia|].
    eexists. split; [reflexivity|]. apply enc_string_bytes, big_Bytes_bytes.
  - split; [done|]. eexists. split; [reflexivity|]. apply enc_string_bytes.
    destruct b; [apply Forall_cons_iff; split; [unfold is_byte; lia|constructor]|constructor].
  - split; [done|]. cbn. destruct (Z.ltb_spec z 0); [lia|].
    eexists. split; [reflexivity|]. apply enc_string_bytes, big_Bytes_bytes.
  - split; [done|]. eexists. split; [reflexivity|]. by apply enc_string_bytes.
  - split; [done|]. eexists. split; [reflexivity|]. by apply enc_string_bytes.
  - split; [done|]. eexists. split; [reflexivity|]. by apply enc_string_bytes.
  - split; [done|]. eexists. split; [reflexivity|]. by destruct Hraw.
  - apply encodable_list. rewrite list.Forall_forall in *. intros v Hv. by eapply H, Hl.
  - apply encodable_list. rewrite list.Forall_forall in *. intros v Hv. by eapply H, Hl.
  - apply encodable_list. rewrite list.Forall_forall in *. intros v Hv. by eapply (H v Hv TInterface), Hl.
  - apply encodable_list. cbn in Hok. clear Ht.
    induction Hl as [|t v ts l Htv _ IHl]; [constructor|].
    apply Forall_cons_iff in H as [Hv Hl']. destruct Hok as [Hok Hoks].
    apply Forall_cons_iff. split; [by eapply Hv|by apply IHl].
Qed.

Lemma encode_decode (t : rtype) (v : value) (Ht : rtype_ok t) (Hv : has_type t v)
    (Hlen : ∀ b, enc_value v = Some b → strlen b < two64) :
  ∃ b, EncodeToBytes v = Ok b ∧ DecodeBytes (S (tsize t + length b)) b t = Ok v.
Proof.
  destruct (typed_encodable v t Ht Hv) as (Hok & b & Hb & Hby). exists b.
  specialize (Hlen b Hb). split.
  - unfold EncodeToBytes, toBytes.
    destruct (writer_from_reset v b Hok Hb Hlen) as (w & -> & Hsz & Hin & Hins).
    pose proof (toBytes_loop_spec (eb_lheads w) [] (eb_str w) Hin
      : toBytes_loop (eb_str w) 0 (eb_lheads w) = Ok (insert_heads (eb_lheads w) 0 (eb_str w))) as E.
    rewrite !bind_Ok, E, bind_Ok, Hins, Hsz, Nat2Z.id. by rewrite take_app_length.
  - by apply DecodeBytes_spec; [|apply Hby| |lia|split].
Qed.

(** C20. Round trip: every value of a modelled type is encoded without error, and
    decoding the bytes with the decoder of its type gives the value back. *)
Theorem Encode_Decode_roundtrip (t : rtype) (v : value) (Ht : rtype_ok t) (Hv : has_type t v)
    (Hlen : ∀ b, enc_value v = Some b → strlen b < two64) :
  ∃ b, EncodeToBytes v = Ok b ∧ DecodeBytes (S (tsize t + length b)) b t = Ok v.
Proof. by apply encode_decode. Qed.

(** A header-like struct: a hash, a number, an integer, a list of strings. *)
Definition demo_rtype : rtype := TStruct [TByteArray 3; TUint 64; TBigInt; TSlice TBytes; TBool].
Definition demo_struct : value :=
  VStruct [VBytes [1; 0; 255]; VUint 70000; VBigIntPtr (Some 0); VSlice [VBytes [9]; VBytes []]; VBool true].

Lemma Encode_Decode_roundtrip_witness :
  ∃ b, EncodeToBytes demo_struct = Ok b ∧ DecodeBytes (S (tsize demo_rtype + length b)) b demo_rtype = Ok demo_struct.
Proof.
  apply (Encode_Decode_roundtrip demo_rtype demo_struct).
  - cbn. unfold uint_bits, two64. repeat split; try lia.
  - apply ht_struct. repeat first [apply Forall2_cons_2|apply Forall2_nil_2].
    + apply (ht_bytearray [1; 0; 255]). repeat constructor; cbn; lia.
    + apply ht_uint. lia.
    + apply ht_big. lia.
    + apply ht_slice. repeat (apply Forall_cons_iff; split; [apply ht_bytes|]); repeat constructor; cbn; lia.
    + apply ht_bool.
  - intros b E. vm_compute in E. injection E as <-. reflexivity.
Defined.

(** ** The one-byte array *)

Lemma byte1_stuck s : s_kind s = Some KByte → s_kinderr s = None → s_byteval s = 0 →
  decodeByteArray 1 s = (s, Ok (VBytes [0])).
Proof.
  intros Hk He Hb. unfold decodeByteArray. rewrite bind_eq.
  assert (Stream_Kind s = (s, Ok (KByte, s_size s))) as E.
  { unfold Stream_Kind. by rewrite Hk, He. }
  rewrite E. unfold sm_state, Stream_uint. rewrite bind_eq, E, bind_eq. cbn [sm_get].
  by rewrite Hb.
Qed.

Lemma byte1_loop fuel f s : s_kind s = Some KByte → s_kinderr s = None → s_byteval s = 0 →
  decodeSliceElems fuel (decode (S f) (TByteArray 1)) s = (s, Panic).
Proof.
  intros Hk He Hb. induction fuel as [|fuel IH]; [done|]. cbn [decodeSliceElems].
  unfold sm_state. cbn [decode]. rewrite (byte1_stuck s Hk He Hb), bind_eq.
  cbn [decode] in IH. by rewrite IH.
Qed.

(** Decoding the encoding of a slice of one-byte arrays never ends when an
    element is zero, whatever the fuel: [decodeByteArray] ignores the error with
    which [Uint] refuses a zero byte, the byte is not consumed, and the element
    loop reads it again and again. *)
Theorem byte1_slice_diverges (fuel : nat) :
  enc_value (VSlice [VBytes [0]]) = Some [193; 0] ∧
  DecodeBytes fuel [193; 0] (TSlice (TByteArray 1)) = Panic.
Proof.
  split; [reflexivity|]. unfold DecodeBytes. destruct fuel as [|[|fuel]]; [done|done|].
  set (d := decode (S fuel) (TByteArray 1)). cbn [decode]. fold d. unfold decodeListSlice.
  rewrite bind_eq.
  destruct (Stream_List (NewStream [193; 0])) as [s r] eqn:E. vm_compute in E. injection E as <- <-.
  cbn [Z.eqb]. rewrite bind_eq. cbn [decodeSliceElems]. unfold sm_state, d. cbn [decode].
  match goal with |- context [decodeByteArray 1 ?s] =>
    destruct (decodeByteArray 1 s) as [s1 r1] eqn:E1 end.
  vm_compute in E1. injection E1 as <- <-. rewrite bind_eq.
  pose proof (byte1_loop fuel fuel) as HL. cbn [decode] in HL. by rewrite HL.
Qed.
