(* ===== verification/HeaderHash.v ===== *)
(** * Hashing headers (src/kernel/types/block.go, src/agreement/epvdpos/epvdpos.go)

    [Header.Hash], [Header.HashNoNonce], [CalcUncleHash] and the hash that a
    DPoS signer signs are Keccak-256 of RLP encodings.  Keccak-256 is the class
    [Keccak]; the encodings are those of the RLP component.  The encoding of a
    header determines the header. *)

From S2P Require Import Prelude Types Interfaces Rlp RlpRaw RlpStream RlpDecode.
From stdpp Require Import base tactics option list numbers.
From Stdlib Require Import ZArith Lia.

#[local] Open Scope Z_scope.

(** The bytes that [rlp.Encode(hw, x)] writes to a hash: an encoding error is
    ignored by the callers, and nothing was written then. *)
Definition rlp_written (v : value) : list Z :=
  match Encode v with
  | Ok chunks => concat chunks
  | _ => []
  end.

Definition header_value (h : Header) : value :=
  VStruct [
    VBytes (hdr_ParentHash h); VBytes (hdr_UncleHash h); VBytes (hdr_Coinbase h);
    VBytes (hdr_Root h); VBytes (hdr_TxHash h); VBytes (hdr_ReceiptHash h);
    VBytes (hdr_Bloom h); VBigIntPtr (hdr_Difficulty h); VBigIntPtr (hdr_Number h);
    VUint (hdr_GasLimit h); VUint (hdr_GasUsed h); VBigIntPtr (hdr_TimeMS h);
    VBytes (hdr_Extra h); VBytes (hdr_MixDigest h); VBytes (hdr_Nonce h)].

(** The slice that [sigHash] encodes: the header without the seal, the last 65
    bytes of [Extra].  A shorter [Extra] makes the slicing panic. *)
Definition sealed_value {E} (h : Header) : outcome E value :=
  extra ← slice (hdr_Extra h) 0 (strlen (hdr_Extra h) - 65);
  Ok (VSlice [
    VBytes (hdr_ParentHash h); VBytes (hdr_UncleHash h); VBytes (hdr_Coinbase h);
    VBytes (hdr_Root h); VBytes (hdr_TxHash h); VBytes (hdr_ReceiptHash h);
    VBytes (hdr_Bloom h); VBigIntPtr (hdr_Difficulty h); VBigIntPtr (hdr_Number h);
    VUint (hdr_GasLimit h); VUint (hdr_GasUsed h); VBigIntPtr (hdr_TimeMS h);
    VBytes extra; VBytes (hdr_MixDigest h); VBytes (hdr_Nonce h)]).

Definition noNonce_value (h : Header) : value :=
  VSlice [
    VBytes (hdr_ParentHash h); VBytes (hdr_UncleHash h); VBytes (hdr_Coinbase h);
    VBytes (hdr_Root h); VBytes (hdr_TxHash h); VBytes (hdr_ReceiptHash h);
    VBytes (hdr_Bloom h); VBigIntPtr (hdr_Difficulty h); VBigIntPtr (hdr_Number h);
    VUint (hdr_GasLimit h); VUint (hdr_GasUsed h); VBigIntPtr (hdr_TimeMS h);
    VBytes (hdr_Extra h)].

Section WithKeccak.
Context `{Keccak}.

Definition rlpHash (v : value) : Hash := Keccak256 (rlp_written v).

Definition Header_Hash (h : Header) : Hash := rlpHash (header_value h).

Definition HashNoNonce (h : Header) : Hash := rlpHash (noNonce_value h).

Definition CalcUncleHash (uncles : list Header) : Hash :=
  rlpHash (VSlice (header_value <$> uncles)).

Definition sigHash {E} (h : Header) : outcome E Hash :=
  v ← sealed_value h;
  Ok (rlpHash v).

End WithKeccak.

(** ** The encoding of a header *)

(** The Go types of the fields, and what a field of that type can hold. *)
Definition header_type : rtype :=
  TStruct [TByteArray 32; TByteArray 32; TByteArray 20; TByteArray 32; TByteArray 32; TByteArray 32;
           TByteArray 256; TBigInt; TBigInt; TUint 64; TUint 64; TBigInt; TBytes; TByteArray 32;
           TByteArray 8].

Definition is_array (n : nat) (b : list Z) : Prop := length b = n ∧ is_bytes b.

Definition natural (p : option Z) : Prop := match p with Some z => 0 ≤ z | None => True end.

Record header_ok (h : Header) : Prop := {
  hok_ParentHash : is_array 32 (hdr_ParentHash h);
  hok_UncleHash : is_array 32 (hdr_UncleHash h);
  hok_Coinbase : is_array 20 (hdr_Coinbase h);
  hok_Root : is_array 32 (hdr_Root h);
  hok_TxHash : is_array 32 (hdr_TxHash h);
  hok_ReceiptHash : is_array 32 (hdr_ReceiptHash h);
  hok_Bloom : is_array 256 (hdr_Bloom h);
  hok_Difficulty : natural (hdr_Difficulty h);
  hok_Number : natural (hdr_Number h);
  hok_GasLimit : is_u64 (hdr_GasLimit h);
  hok_GasUsed : is_u64 (hdr_GasUsed h);
  hok_TimeMS : natural (hdr_TimeMS h);
  hok_Extra : is_bytes (hdr_Extra h);
  hok_MixDigest : is_array 32 (hdr_MixDigest h);
  hok_Nonce : is_array 8 (hdr_Nonce h)
}.

Lemma header_type_ok : rtype_ok header_type.
Proof. cbn. unfold uint_bits, two64. repeat split; lia. Qed.

Lemma has_type_array n b : is_array n b → has_type (TByteArray n) (VBytes b).
Proof. intros [<- Hb]. by constructor. Qed.

Lemma has_type_copyBig p : natural p → has_type TBigInt (VBigIntPtr (copyBig p)).
Proof. destruct p as [z|]; intros Hp; apply ht_big; cbn in *; lia. Qed.

Lemma has_type_u64 i : is_u64 i → has_type (TUint 64) (VUint i).
Proof. intros Hi. apply ht_uint. by change (2 ^ 64) with two64. Qed.

(** A header without nil integers, as [CopyHeader] returns it, is a value of the
    header type. *)
Lemma header_has_type h : header_ok h → has_type header_type (header_value (CopyHeader h)).
Proof.
  intros []. apply ht_struct.
  repeat first [apply Forall2_cons_2|apply Forall2_nil_2];
    lazymatch goal with
    | |- has_type (TByteArray _) _ => apply has_type_array; assumption
    | |- has_type TBigInt _ => apply has_type_copyBig; assumption
    | |- has_type (TUint _) _ => apply has_type_u64; assumption
    | |- has_type TBytes _ => apply ht_bytes; assumption
    end.
Qed.

(** The encoding does not see the difference between nil and zero. *)
Lemma enc_copyBig p : enc_value (VBigIntPtr (copyBig p)) = enc_value (VBigIntPtr p).
Proof. by destruct p. Qed.

Lemma enc_CopyHeader h : enc_value (header_value (CopyHeader h)) = enc_value (header_value h).
Proof.
  unfold header_value. cbn [CopyHeader hdr_ParentHash hdr_UncleHash hdr_Coinbase hdr_Root hdr_TxHash
    hdr_ReceiptHash hdr_Bloom hdr_Difficulty hdr_Number hdr_GasLimit hdr_GasUsed hdr_TimeMS hdr_Extra
    hdr_MixDigest hdr_Nonce enc_value concat_opt].
  pose proof (enc_copyBig (hdr_Difficulty h)) as E1. pose proof (enc_copyBig (hdr_Number h)) as E2.
  pose proof (enc_copyBig (hdr_TimeMS h)) as E3. cbn [enc_value] in E1, E2, E3.
  by rewrite E1, E2, E3.
Qed.

Lemma header_value_inj h1 h2 : header_value h1 = header_value h2 → h1 = h2.
Proof. destruct h1, h2. unfold header_value. cbn. intros E. by simplify_eq. Qed.

(** Two typed values with the same encoding are equal: both are what the
    decoder returns. *)
Lemma enc_value_inj t v1 v2 b : rtype_ok t → has_type t v1 → has_type t v2 →
  enc_value v1 = Some b → enc_value v2 = Some b → strlen b < two64 → v1 = v2.
Proof.
  intros Ht H1 H2 E1 E2 Hlen.
  destruct (typed_encodable v1 t Ht H1) as (_ & b' & Eb & Hby). rewrite E1 in Eb. injection Eb as <-.
  destruct (DecodeBytes_spec (S (tsize t + length b)) b t Ht (Hby Hlen) Hlen ltac:(lia)) as [_ HD].
  assert (DecodeBytes (S (tsize t + length b)) b t = Ok v1) as D1 by (by apply HD).
  assert (DecodeBytes (S (tsize t + length b)) b t = Ok v2) as D2 by (by apply HD).
  congruence.
Qed.

Lemma rlp_written_enc v b : value_ok v → enc_value v = Some b → strlen b < two64 → rlp_written v = b.
Proof.
  intros Hv Hb Hlen. unfold rlp_written, Encode, toWriter.
  destruct (writer_from_reset v b Hv Hb Hlen) as (w & -> & _ & Hin & Hins).
  destruct (toWriter_loop_spec (eb_lheads w) [] (eb_str w) Hin) as (ch & Hch & Ech).
  rewrite bind_Ok. change ([] ++ eb_str w) with (eb_str w) in Hch. change (strlen []) with 0 in Hch.
  rewrite Hch. by rewrite Ech.
Qed.

Lemma header_value_ok h : header_ok h → value_ok (header_value h).
Proof. intros []. cbn. unfold is_array in *. naive_solver. Qed.

Lemma header_enc h : header_ok h → ∃ b, enc_value (header_value h) = Some b.
Proof.
  intros Hh. rewrite <- enc_CopyHeader.
  destruct (typed_encodable _ _ header_type_ok (header_has_type h Hh)) as (_ & b & Hb & _). by exists b.
Qed.

(** Headers are far shorter than 2^64 bytes. *)
Definition header_short (h : Header) : Prop :=
  ∀ b, enc_value (header_value h) = Some b → strlen b < two64.

Lemma header_written_inj h1 h2 : header_ok h1 → header_ok h2 → header_short h1 → header_short h2 →
  rlp_written (header_value h1) = rlp_written (header_value h2) → CopyHeader h1 = CopyHeader h2.
Proof.
  intros O1 O2 S1 S2 E.
  destruct (header_enc h1 O1) as (b1 & E1), (header_enc h2 O2) as (b2 & E2).
  rewrite (rlp_written_enc _ b1 (header_value_ok h1 O1) E1 (S1 b1 E1)) in E.
  rewrite (rlp_written_enc _ b2 (header_value_ok h2 O2) E2 (S2 b2 E2)) in E. subst b2.
  apply header_value_inj. rewrite <- enc_CopyHeader in E1, E2.
  eapply (enc_value_inj header_type); [apply header_type_ok|by apply header_has_type..|done|done|].
  rewrite enc_CopyHeader in E1. by apply S1.
Qed.

(** The hash of a header binds every field of it: if Keccak-256 does not
    collide on the encodings of two headers, headers with equal hashes are equal,
    up to a nil big integer being the same as zero. *)
Theorem Header_Hash_binds `{Keccak} (h1 h2 : Header)
    (O1 : header_ok h1) (O2 : header_ok h2) (S1 : header_short h1) (S2 : header_short h2)
    (nocollision : Keccak256 (rlp_written (header_value h1)) = Keccak256 (rlp_written (header_value h2)) →
                   rlp_written (header_value h1) = rlp_written (header_value h2))
    (E : Header_Hash h1 = Header_Hash h2) :
  CopyHeader h1 = CopyHeader h2.
Proof. apply header_written_inj; try done. by apply nocollision. Qed.

Definition demo_header (d : option Z) : Header :=
  mkHeader (replicate 32 1) (replicate 32 2) (replicate 20 3) (replicate 32 4) (replicate 32 5)
    (replicate 32 6) (replicate 256 0) d (Some 7) 8000000 21000 (Some 1500000000000)
    (replicate 97 9) (replicate 32 0) (replicate 8 255).

Lemma demo_header_ok d : natural d → header_ok (demo_header d).
Proof.
  intros Hd. split; try done; try (split; [done|]);
    try (apply Forall_replicate; unfold is_byte; lia); try (unfold is_u64, two64; cbn; lia); cbn; lia.
Qed.

Lemma demo_header_short d : d = None ∨ d = Some 0 → header_short (demo_header d).
Proof. intros [-> | ->] b E; vm_compute in E; injection E as <-; reflexivity. Qed.

Lemma Header_Hash_binds_witness : CopyHeader (demo_header None) = CopyHeader (demo_header (Some 0)).
Proof.
  apply (@Header_Hash_binds {| Keccak256 := λ b, b |}).
  - apply demo_header_ok. exact I.
  - apply demo_header_ok. cbn. lia.
  - apply demo_header_short. by left.
  - apply demo_header_short. by right.
  - done.
  - vm_compute. reflexivity.
Defined.
