(* ===== verification/Sha3.v ===== *)
(** * Keccak-256 and SHA-3 (src/code/sha3, src/code/crypto.go)

    The unrolled permutation, the sponge with its buffer, and the hashes made
    of them.  The reference is the standard's: five step mappings on a state of
    five times five lanes, twenty-four rounds, and a sponge over padded blocks.
    The permutation of keccakf.go, which keeps the lanes in place and in a
    different order after every round, equals the reference; writing a message
    in pieces, however cut, gives the reference hash of the whole.  The class
    [Keccak] of the development gets its instance from here. *)

From S2P Require Import Prelude Types Interfaces Rlp.
From stdpp Require Import base tactics option numbers list.
From Stdlib Require Import ZArith Lia.

#[local] Open Scope Z_scope.

Module sha3.

(** ** Words *)

Declare Scope word_scope.
Delimit Scope word_scope with word.

Definition shl (x k : Z) : Z := Z.shiftl x k mod two64.

Notation "a .[ i ]" := (a !!! i%nat) (at level 1, format "a .[ i ]") : word_scope.
Notation "x ⊕ y" := (Z.lxor x y) (at level 50, left associativity) : word_scope.
Notation "x ||| y" := (Z.lor x y) (at level 50, left associativity) : word_scope.
Notation "x &^ y" := (Z.ldiff x y) (at level 40, left associativity) : word_scope.
Notation "x <<< k" := (shl x k) (at level 36, no associativity) : word_scope.
Notation "x >>> k" := (Z.shiftr x k) (at level 36, no associativity) : word_scope.

#[local] Open Scope word_scope.

(** ** The permutation (keccakf.go) *)

Definition rc : list Z :=
  [0x0000000000000001; 0x0000000000008082; 0x800000000000808A; 0x8000000080008000;
   0x000000000000808B; 0x0000000080000001; 0x8000000080008081; 0x8000000000008009;
   0x000000000000008A; 0x0000000000000088; 0x0000000080008009; 0x000000008000000A;
   0x000000008000808B; 0x800000000000008B; 0x8000000000008089; 0x8000000000008003;
   0x8000000000008002; 0x8000000000000080; 0x000000000000800A; 0x800000008000000A;
   0x8000000080008081; 0x8000000000008080; 0x0000000080000001; 0x8000000080008008].

(** Round [i] of the loop body. *)
Definition round0 (c : Z) (a : list Z) : list Z :=
  let bc0 := a.[0] ⊕ a.[5] ⊕ a.[10] ⊕ a.[15] ⊕ a.[20] in
  let bc1 := a.[1] ⊕ a.[6] ⊕ a.[11] ⊕ a.[16] ⊕ a.[21] in
  let bc2 := a.[2] ⊕ a.[7] ⊕ a.[12] ⊕ a.[17] ⊕ a.[22] in
  let bc3 := a.[3] ⊕ a.[8] ⊕ a.[13] ⊕ a.[18] ⊕ a.[23] in
  let bc4 := a.[4] ⊕ a.[9] ⊕ a.[14] ⊕ a.[19] ⊕ a.[24] in
  let d0 := bc4 ⊕ (bc1 <<< 1 ||| bc1 >>> 63) in
  let d1 := bc0 ⊕ (bc2 <<< 1 ||| bc2 >>> 63) in
  let d2 := bc1 ⊕ (bc3 <<< 1 ||| bc3 >>> 63) in
  let d3 := bc2 ⊕ (bc4 <<< 1 ||| bc4 >>> 63) in
  let d4 := bc3 ⊕ (bc0 <<< 1 ||| bc0 >>> 63) in
  let bc0 := a.[0] ⊕ d0 in
  let t := a.[6] ⊕ d1 in
  let bc1 := t <<< 44 ||| t >>> (64-44) in
  let t := a.[12] ⊕ d2 in
  let bc2 := t <<< 43 ||| t >>> (64-43) in
  let t := a.[18] ⊕ d3 in
  let bc3 := t <<< 21 ||| t >>> (64-21) in
  let t := a.[24] ⊕ d4 in
  let bc4 := t <<< 14 ||| t >>> (64-14) in
  let a := <[0%nat := bc0 ⊕ (bc2 &^ bc1) ⊕ c]> a in
  let a := <[6%nat := bc1 ⊕ (bc3 &^ bc2)]> a in
  let a := <[12%nat := bc2 ⊕ (bc4 &^ bc3)]> a in
  let a := <[18%nat := bc3 ⊕ (bc0 &^ bc4)]> a in
  let a := <[24%nat := bc4 ⊕ (bc1 &^ bc0)]> a in
  let t := a.[10] ⊕ d0 in
  let bc2 := t <<< 3 ||| t >>> (64-3) in
  let t := a.[16] ⊕ d1 in
  let bc3 := t <<< 45 ||| t >>> (64-45) in
  let t := a.[22] ⊕ d2 in
  let bc4 := t <<< 61 ||| t >>> (64-61) in
  let t := a.[3] ⊕ d3 in
  let bc0 := t <<< 28 ||| t >>> (64-28) in
  let t := a.[9] ⊕ d4 in
  let bc1 := t <<< 20 ||| t >>> (64-20) in
  let a := <[10%nat := bc0 ⊕ (bc2 &^ bc1)]> a in
  let a := <[16%nat := bc1 ⊕ (bc3 &^ bc2)]> a in
  let a := <[22%nat := bc2 ⊕ (bc4 &^ bc3)]> a in
  let a := <[3%nat := bc3 ⊕ (bc0 &^ bc4)]> a in
  let a := <[9%nat := bc4 ⊕ (bc1 &^ bc0)]> a in
  let t := a.[20] ⊕ d0 in
  let bc4 := t <<< 18 ||| t >>> (64-18) in
  let t := a.[1] ⊕ d1 in
  let bc0 := t <<< 1 ||| t >>> (64-1) in
  let t := a.[7] ⊕ d2 in
  let bc1 := t <<< 6 ||| t >>> (64-6) in
  let t := a.[13] ⊕ d3 in
  let bc2 := t <<< 25 ||| t >>> (64-25) in
  let t := a.[19] ⊕ d4 in
  let bc3 := t <<< 8 ||| t >>> (64-8) in
  let a := <[20%nat := bc0 ⊕ (bc2 &^ bc1)]> a in
  let a := <[1%nat := bc1 ⊕ (bc3 &^ bc2)]> a in
  let a := <[7%nat := bc2 ⊕ (bc4 &^ bc3)]> a in
  let a := <[13%nat := bc3 ⊕ (bc0 &^ bc4)]> a in
  let a := <[19%nat := bc4 ⊕ (bc1 &^ bc0)]> a in
  let t := a.[5] ⊕ d0 in
  let bc1 := t <<< 36 ||| t >>> (64-36) in
  let t := a.[11] ⊕ d1 in
  let bc2 := t <<< 10 ||| t >>> (64-10) in
  let t := a.[17] ⊕ d2 in
  let bc3 := t <<< 15 ||| t >>> (64-15) in
  let t := a.[23] ⊕ d3 in
  let bc4 := t <<< 56 ||| t >>> (64-56) in
  let t := a.[4] ⊕ d4 in
  let bc0 := t <<< 27 ||| t >>> (64-27) in
  let a := <[5%nat := bc0 ⊕ (bc2 &^ bc1)]> a in
  let a := <[11%nat := bc1 ⊕ (bc3 &^ bc2)]> a in
  let a := <[17%nat := bc2 ⊕ (bc4 &^ bc3)]> a in
  let a := <[23%nat := bc3 ⊕ (bc0 &^ bc4)]> a in
  let a := <[4%nat := bc4 ⊕ (bc1 &^ bc0)]> a in
  let t := a.[15] ⊕ d0 in
  let bc3 := t <<< 41 ||| t >>> (64-41) in
  let t := a.[21] ⊕ d1 in
  let bc4 := t <<< 2 ||| t >>> (64-2) in
  let t := a.[2] ⊕ d2 in
  let bc0 := t <<< 62 ||| t >>> (64-62) in
  let t := a.[8] ⊕ d3 in
  let bc1 := t <<< 55 ||| t >>> (64-55) in
  let t := a.[14] ⊕ d4 in
  let bc2 := t <<< 39 ||| t >>> (64-39) in
  let a := <[15%nat := bc0 ⊕ (bc2 &^ bc1)]> a in
  let a := <[21%nat := bc1 ⊕ (bc3 &^ bc2)]> a in
  let a := <[2%nat := bc2 ⊕ (bc4 &^ bc3)]> a in
  let a := <[8%nat := bc3 ⊕ (bc0 &^ bc4)]> a in
  let a := <[14%nat := bc4 ⊕ (bc1 &^ bc0)]> a in
  a.

(** Round [i+1] of the loop body. *)
Definition round1 (c : Z) (a : list Z) : list Z :=
  let bc0 := a.[0] ⊕ a.[5] ⊕ a.[10] ⊕ a.[15] ⊕ a.[20] in
  let bc1 := a.[1] ⊕ a.[6] ⊕ a.[11] ⊕ a.[16] ⊕ a.[21] in
  let bc2 := a.[2] ⊕ a.[7] ⊕ a.[12] ⊕ a.[17] ⊕ a.[22] in
  let bc3 := a.[3] ⊕ a.[8] ⊕ a.[13] ⊕ a.[18] ⊕ a.[23] in
  let bc4 := a.[4] ⊕ a.[9] ⊕ a.[14] ⊕ a.[19] ⊕ a.[24] in
  let d0 := bc4 ⊕ (bc1 <<< 1 ||| bc1 >>> 63) in
  let d1 := bc0 ⊕ (bc2 <<< 1 ||| bc2 >>> 63) in
  let d2 := bc1 ⊕ (bc3 <<< 1 ||| bc3 >>> 63) in
  let d3 := bc2 ⊕ (bc4 <<< 1 ||| bc4 >>> 63) in
  let d4 := bc3 ⊕ (bc0 <<< 1 ||| bc0 >>> 63) in
  let bc0 := a.[0] ⊕ d0 in
  let t := a.[16] ⊕ d1 in
  let bc1 := t <<< 44 ||| t >>> (64-44) in
  let t := a.[7] ⊕ d2 in
  let bc2 := t <<< 43 ||| t >>> (64-43) in
  let t := a.[23] ⊕ d3 in
  let bc3 := t <<< 21 ||| t >>> (64-21) in
  let t := a.[14] ⊕ d4 in
  let bc4 := t <<< 14 ||| t >>> (64-14) in
  let a := <[0%nat := bc0 ⊕ (bc2 &^ bc1) ⊕ c]> a in
  let a := <[16%nat := bc1 ⊕ (bc3 &^ bc2)]> a in
  let a := <[7%nat := bc2 ⊕ (bc4 &^ bc3)]> a in
  let a := <[23%nat := bc3 ⊕ (bc0 &^ bc4)]> a in
  let a := <[14%nat := bc4 ⊕ (bc1 &^ bc0)]> a in
  let t := a.[20] ⊕ d0 in
  let bc2 := t <<< 3 ||| t >>> (64-3) in
  let t := a.[11] ⊕ d1 in
  let bc3 := t <<< 45 ||| t >>> (64-45) in
  let t := a.[2] ⊕ d2 in
  let bc4 := t <<< 61 ||| t >>> (64-61) in
  let t := a.[18] ⊕ d3 in
  let bc0 := t <<< 28 ||| t >>> (64-28) in
  let t := a.[9] ⊕ d4 in
  let bc1 := t <<< 20 ||| t >>> (64-20) in
  let a := <[20%nat := bc0 ⊕ (bc2 &^ bc1)]> a in
  let a := <[11%nat := bc1 ⊕ (bc3 &^ bc2)]> a in
  let a := <[2%nat := bc2 ⊕ (bc4 &^ bc3)]> a in
  let a := <[18%nat := bc3 ⊕ (bc0 &^ bc4)]> a in
  let a := <[9%nat := bc4 ⊕ (bc1 &^ bc0)]> a in
  let t := a.[15] ⊕ d0 in
  let bc4 := t <<< 18 ||| t >>> (64-18) in
  let t := a.[6] ⊕ d1 in
  let bc0 := t <<< 1 ||| t >>> (64-1) in
  let t := a.[22] ⊕ d2 in
  let bc1 := t <<< 6 ||| t >>> (64-6) in
  let t := a.[13] ⊕ d3 in
  let bc2 := t <<< 25 ||| t >>> (64-25) in
  let t := a.[4] ⊕ d4 in
  let bc3 := t <<< 8 ||| t >>> (64-8) in
  let a := <[15%nat := bc0 ⊕ (bc2 &^ bc1)]> a in
  let a := <[6%nat := bc1 ⊕ (bc3 &^ bc2)]> a in
  let a := <[22%nat := bc2 ⊕ (bc4 &^ bc3)]> a in
  let a := <[13%nat := bc3 ⊕ (bc0 &^ bc4)]> a in
  let a := <[4%nat := bc4 ⊕ (bc1 &^ bc0)]> a in
  let t := a.[10] ⊕ d0 in
  let bc1 := t <<< 36 ||| t >>> (64-36) in
  let t := a.[1] ⊕ d1 in
  let bc2 := t <<< 10 ||| t >>> (64-10) in
  let t := a.[17] ⊕ d2 in
  let bc3 := t <<< 15 ||| t >>> (64-15) in
  let t := a.[8] ⊕ d3 in
  let bc4 := t <<< 56 ||| t >>> (64-56) in
  let t := a.[24] ⊕ d4 in
  let bc0 := t <<< 27 ||| t >>> (64-27) in
  let a := <[10%nat := bc0 ⊕ (bc2 &^ bc1)]> a in
  let a := <[1%nat := bc1 ⊕ (bc3 &^ bc2)]> a in
  let a := <[17%nat := bc2 ⊕ (bc4 &^ bc3)]> a in
  let a := <[8%nat := bc3 ⊕ (bc0 &^ bc4)]> a in
  let a := <[24%nat := bc4 ⊕ (bc1 &^ bc0)]> a in
  let t := a.[5] ⊕ d0 in
  let bc3 := t <<< 41 ||| t >>> (64-41) in
  let t := a.[21] ⊕ d1 in
  let bc4 := t <<< 2 ||| t >>> (64-2) in
  let t := a.[12] ⊕ d2 in
  let bc0 := t <<< 62 ||| t >>> (64-62) in
  let t := a.[3] ⊕ d3 in
  let bc1 := t <<< 55 ||| t >>> (64-55) in
  let t := a.[19] ⊕ d4 in
  let bc2 := t <<< 39 ||| t >>> (64-39) in
  let a := <[5%nat := bc0 ⊕ (bc2 &^ bc1)]> a in
  let a := <[21%nat := bc1 ⊕ (bc3 &^ bc2)]> a in
  let a := <[12%nat := bc2 ⊕ (bc4 &^ bc3)]> a in
  let a := <[3%nat := bc3 ⊕ (bc0 &^ bc4)]> a in
  let a := <[19%nat := bc4 ⊕ (bc1 &^ bc0)]> a in
  a.

(** Round [i+2] of the loop body. *)
Definition round2 (c : Z) (a : list Z) : list Z :=
  let bc0 := a.[0] ⊕ a.[5] ⊕ a.[10] ⊕ a.[15] ⊕ a.[20] in
  let bc1 := a.[1] ⊕ a.[6] ⊕ a.[11] ⊕ a.[16] ⊕ a.[21] in
  let bc2 := a.[2] ⊕ a.[7] ⊕ a.[12] ⊕ a.[17] ⊕ a.[22] in
  let bc3 := a.[3] ⊕ a.[8] ⊕ a.[13] ⊕ a.[18] ⊕ a.[23] in
  let bc4 := a.[4] ⊕ a.[9] ⊕ a.[14] ⊕ a.[19] ⊕ a.[24] in
  let d0 := bc4 ⊕ (bc1 <<< 1 ||| bc1 >>> 63) in
  let d1 := bc0 ⊕ (bc2 <<< 1 ||| bc2 >>> 63) in
  let d2 := bc1 ⊕ (bc3 <<< 1 ||| bc3 >>> 63) in
  let d3 := bc2 ⊕ (bc4 <<< 1 ||| bc4 >>> 63) in
  let d4 := bc3 ⊕ (bc0 <<< 1 ||| bc0 >>> 63) in
  let bc0 := a.[0] ⊕ d0 in
  let t := a.[11] ⊕ d1 in
  let bc1 := t <<< 44 ||| t >>> (64-44) in
  let t := a.[22] ⊕ d2 in
  let bc2 := t <<< 43 ||| t >>> (64-43) in
  let t := a.[8] ⊕ d3 in
  let bc3 := t <<< 21 ||| t >>> (64-21) in
  let t := a.[19] ⊕ d4 in
  let bc4 := t <<< 14 ||| t >>> (64-14) in
  let a := <[0%nat := bc0 ⊕ (bc2 &^ bc1) ⊕ c]> a in
  let a := <[11%nat := bc1 ⊕ (bc3 &^ bc2)]> a in
  let a := <[22%nat := bc2 ⊕ (bc4 &^ bc3)]> a in
  let a := <[8%nat := bc3 ⊕ (bc0 &^ bc4)]> a in
  let a := <[19%nat := bc4 ⊕ (bc1 &^ bc0)]> a in
  let t := a.[15] ⊕ d0 in
  let bc2 := t <<< 3 ||| t >>> (64-3) in
  let t := a.[1] ⊕ d1 in
  let bc3 := t <<< 45 ||| t >>> (64-45) in
  let t := a.[12] ⊕ d2 in
  let bc4 := t <<< 61 ||| t >>> (64-61) in
  let t := a.[23] ⊕ d3 in
  let bc0 := t <<< 28 ||| t >>> (64-28) in
  let t := a.[9] ⊕ d4 in
  let bc1 := t <<< 20 ||| t >>> (64-20) in
  let a := <[15%nat := bc0 ⊕ (bc2 &^ bc1)]> a in
  let a := <[1%nat := bc1 ⊕ (bc3 &^ bc2)]> a in
  let a := <[12%nat := bc2 ⊕ (bc4 &^ bc3)]> a in
  let a := <[23%nat := bc3 ⊕ (bc0 &^ bc4)]> a in
  let a := <[9%nat := bc4 ⊕ (bc1 &^ bc0)]> a in
  let t := a.[5] ⊕ d0 in
  let bc4 := t <<< 18 ||| t >>> (64-18) in
  let t := a.[16] ⊕ d1 in
  let bc0 := t <<< 1 ||| t >>> (64-1) in
  let t := a.[2] ⊕ d2 in
  let bc1 := t <<< 6 ||| t >>> (64-6) in
  let t := a.[13] ⊕ d3 in
  let bc2 := t <<< 25 ||| t >>> (64-25) in
  let t := a.[24] ⊕ d4 in
  let bc3 := t <<< 8 ||| t >>> (64-8) in
  let a := <[5%nat := bc0 ⊕ (bc2 &^ bc1)]> a in
  let a := <[16%nat := bc1 ⊕ (bc3 &^ bc2)]> a in
  let a := <[2%nat := bc2 ⊕ (bc4 &^ bc3)]> a in
  let a := <[13%nat := bc3 ⊕ (bc0 &^ bc4)]> a in
  let a := <[24%nat := bc4 ⊕ (bc1 &^ bc0)]> a in
  let t := a.[20] ⊕ d0 in
  let bc1 := t <<< 36 ||| t >>> (64-36) in
  let t := a.[6] ⊕ d1 in
  let bc2 := t <<< 10 ||| t >>> (64-10) in
  let t := a.[17] ⊕ d2 in
  let bc3 := t <<< 15 ||| t >>> (64-15) in
  let t := a.[3] ⊕ d3 in
  let bc4 := t <<< 56 ||| t >>> (64-56) in
  let t := a.[14] ⊕ d4 in
  let bc0 := t <<< 27 ||| t >>> (64-27) in
  let a := <[20%nat := bc0 ⊕ (bc2 &^ bc1)]> a in
  let a := <[6%nat := bc1 ⊕ (bc3 &^ bc2)]> a in
  let a := <[17%nat := bc2 ⊕ (bc4 &^ bc3)]> a in
  let a := <[3%nat := bc3 ⊕ (bc0 &^ bc4)]> a in
  let a := <[14%nat := bc4 ⊕ (bc1 &^ bc0)]> a in
  let t := a.[10] ⊕ d0 in
  let bc3 := t <<< 41 ||| t >>> (64-41) in
  let t := a.[21] ⊕ d1 in
  let bc4 := t <<< 2 ||| t >>> (64-2) in
  let t := a.[7] ⊕ d2 in
  let bc0 := t <<< 62 ||| t >>> (64-62) in
  let t := a.[18] ⊕ d3 in
  let bc1 := t <<< 55 ||| t >>> (64-55) in
  let t := a.[4] ⊕ d4 in
  let bc2 := t <<< 39 ||| t >>> (64-39) in
  let a := <[10%nat := bc0 ⊕ (bc2 &^ bc1)]> a in
  let a := <[21%nat := bc1 ⊕ (bc3 &^ bc2)]> a in
  let a := <[7%nat := bc2 ⊕ (bc4 &^ bc3)]> a in
  let a := <[18%nat := bc3 ⊕ (bc0 &^ bc4)]> a in
  let a := <[4%nat := bc4 ⊕ (bc1 &^ bc0)]> a in
  a.

(** Round [i+3] of the loop body. *)
Definition round3 (c : Z) (a : list Z) : list Z :=
  let bc0 := a.[0] ⊕ a.[5] ⊕ a.[10] ⊕ a.[15] ⊕ a.[20] in
  let bc1 := a.[1] ⊕ a.[6] ⊕ a.[11] ⊕ a.[16] ⊕ a.[21] in
  let bc2 := a.[2] ⊕ a.[7] ⊕ a.[12] ⊕ a.[17] ⊕ a.[22] in
  let bc3 := a.[3] ⊕ a.[8] ⊕ a.[13] ⊕ a.[18] ⊕ a.[23] in
  let bc4 := a.[4] ⊕ a.[9] ⊕ a.[14] ⊕ a.[19] ⊕ a.[24] in
  let d0 := bc4 ⊕ (bc1 <<< 1 ||| bc1 >>> 63) in
  let d1 := bc0 ⊕ (bc2 <<< 1 ||| bc2 >>> 63) in
  let d2 := bc1 ⊕ (bc3 <<< 1 ||| bc3 >>> 63) in
  let d3 := bc2 ⊕ (bc4 <<< 1 ||| bc4 >>> 63) in
  let d4 := bc3 ⊕ (bc0 <<< 1 ||| bc0 >>> 63) in
  let bc0 := a.[0] ⊕ d0 in
  let t := a.[1] ⊕ d1 in
  let bc1 := t <<< 44 ||| t >>> (64-44) in
  let t := a.[2] ⊕ d2 in
  let bc2 := t <<< 43 ||| t >>> (64-43) in
  let t := a.[3] ⊕ d3 in
  let bc3 := t <<< 21 ||| t >>> (64-21) in
  let t := a.[4] ⊕ d4 in
  let bc4 := t <<< 14 ||| t >>> (64-14) in
  let a := <[0%nat := bc0 ⊕ (bc2 &^ bc1) ⊕ c]> a in
  let a := <[1%nat := bc1 ⊕ (bc3 &^ bc2)]> a in
  let a := <[2%nat := bc2 ⊕ (bc4 &^ bc3)]> a in
  let a := <[3%nat := bc3 ⊕ (bc0 &^ bc4)]> a in
  let a := <[4%nat := bc4 ⊕ (bc1 &^ bc0)]> a in
  let t := a.[5] ⊕ d0 in
  let bc2 := t <<< 3 ||| t >>> (64-3) in
  let t := a.[6] ⊕ d1 in
  let bc3 := t <<< 45 ||| t >>> (64-45) in
  let t := a.[7] ⊕ d2 in
  let bc4 := t <<< 61 ||| t >>> (64-61) in
  let t := a.[8] ⊕ d3 in
  let bc0 := t <<< 28 ||| t >>> (64-28) in
  let t := a.[9] ⊕ d4 in
  let bc1 := t <<< 20 ||| t >>> (64-20) in
  let a := <[5%nat := bc0 ⊕ (bc2 &^ bc1)]> a in
  let a := <[6%nat := bc1 ⊕ (bc3 &^ bc2)]> a in
  let a := <[7%nat := bc2 ⊕ (bc4 &^ bc3)]> a in
  let a := <[8%nat := bc3 ⊕ (bc0 &^ bc4)]> a in
  let a := <[9%nat := bc4 ⊕ (bc1 &^ bc0)]> a in
  let t := a.[10] ⊕ d0 in
  let bc4 := t <<< 18 ||| t >>> (64-18) in
  let t := a.[11] ⊕ d1 in
  let bc0 := t <<< 1 ||| t >>> (64-1) in
  let t := a.[12] ⊕ d2 in
  let bc1 := t <<< 6 ||| t >>> (64-6) in
  let t := a.[13] ⊕ d3 in
  let bc2 := t <<< 25 ||| t >>> (64-25) in
  let t := a.[14] ⊕ d4 in
  let bc3 := t <<< 8 ||| t >>> (64-8) in
  let a := <[10%nat := bc0 ⊕ (bc2 &^ bc1)]> a in
  let a := <[11%nat := bc1 ⊕ (bc3 &^ bc2)]> a in
  let a := <[12%nat := bc2 ⊕ (bc4 &^ bc3)]> a in
  let a := <[13%nat := bc3 ⊕ (bc0 &^ bc4)]> a in
  let a := <[14%nat := bc4 ⊕ (bc1 &^ bc0)]> a in
  let t := a.[15] ⊕ d0 in
  let bc1 := t <<< 36 ||| t >>> (64-36) in
  let t := a.[16] ⊕ d1 in
  let bc2 := t <<< 10 ||| t >>> (64-10) in
  let t := a.[17] ⊕ d2 in
  let bc3 := t <<< 15 ||| t >>> (64-15) in
  let t := a.[18] ⊕ d3 in
  let bc4 := t <<< 56 ||| t >>> (64-56) in
  let t := a.[19] ⊕ d4 in
  let bc0 := t <<< 27 ||| t >>> (64-27) in
  let a := <[15%nat := bc0 ⊕ (bc2 &^ bc1)]> a in
  let a := <[16%nat := bc1 ⊕ (bc3 &^ bc2)]> a in
  let a := <[17%nat := bc2 ⊕ (bc4 &^ bc3)]> a in
  let a := <[18%nat := bc3 ⊕ (bc0 &^ bc4)]> a in
  let a := <[19%nat := bc4 ⊕ (bc1 &^ bc0)]> a in
  let t := a.[20] ⊕ d0 in
  let bc3 := t <<< 41 ||| t >>> (64-41) in
  let t := a.[21] ⊕ d1 in
  let bc4 := t <<< 2 ||| t >>> (64-2) in
  let t := a.[22] ⊕ d2 in
  let bc0 := t <<< 62 ||| t >>> (64-62) in
  let t := a.[23] ⊕ d3 in
  let bc1 := t <<< 55 ||| t >>> (64-55) in
  let t := a.[24] ⊕ d4 in
  let bc2 := t <<< 39 ||| t >>> (64-39) in
  let a := <[20%nat := bc0 ⊕ (bc2 &^ bc1)]> a in
  let a := <[21%nat := bc1 ⊕ (bc3 &^ bc2)]> a in
  let a := <[22%nat := bc2 ⊕ (bc4 &^ bc3)]> a in
  let a := <[23%nat := bc3 ⊕ (bc0 &^ bc4)]> a in
  let a := <[24%nat := bc4 ⊕ (bc1 &^ bc0)]> a in
  a.

(** The loop [for i := 0; i < 24; i += 4]. *)
Definition loop_body (a : list Z) (i : nat) : list Z :=
  round3 rc.[i + 3] (round2 rc.[i + 2] (round1 rc.[i + 1] (round0 rc.[i] a))).

Definition keccakF1600 (a : list Z) : list Z := foldl loop_body a [0; 4; 8; 12; 16; 20]%nat.

(** ** The reference permutation *)

Definition rotl (k x : Z) : Z := if k =? 0 then x else x <<< k ||| x >>> (64 - k).

(** Lane [x], [y] of a state; coordinates are modulo five. *)
Definition lane (a : list Z) (x y : nat) : Z := a !!! (x mod 5 + 5 * (y mod 5))%nat.

Definition lanes (f : nat → nat → Z) : list Z := (fun i => f (i mod 5) (i / 5))%nat <$> seq 0 25.

Definition theta (a : list Z) : list Z :=
  let c x := lane a x 0 ⊕ lane a x 1 ⊕ lane a x 2 ⊕ lane a x 3 ⊕ lane a x 4 in
  let d x := c (x + 4)%nat ⊕ rotl 1 (c (x + 1)%nat) in
  lanes (fun x y => lane a x y ⊕ d x).

(** The offset of a lane: step [t] of the walk from lane 1, 0 rotates by the
    triangular number of [t + 1]. *)
Fixpoint offset_walk (n : nat) (t : Z) (px py x y : nat) : Z :=
  match n with
  | O => 0
  | S n =>
      if (px =? x)%nat && (py =? y)%nat then (t + 1) * (t + 2) / 2 mod 64
      else offset_walk n (t + 1) py ((2 * px + 3 * py) mod 5) x y
  end.

Definition offset (x y : nat) : Z := offset_walk 24 0 1 0 (x mod 5) (y mod 5).

Definition rho (a : list Z) : list Z := lanes (fun x y => rotl (offset x y) (lane a x y)).

Definition pi (a : list Z) : list Z := lanes (fun x y => lane a (x + 3 * y)%nat x).

Definition chi (a : list Z) : list Z :=
  lanes (fun x y => lane a x y ⊕ (lane a (x + 2)%nat y &^ lane a (x + 1)%nat y)).

Definition iota (c : Z) (a : list Z) : list Z := lanes (fun x y => if (x + y =? 0)%nat then lane a x y ⊕ c else lane a x y).

Definition Rnd (c : Z) (a : list Z) : list Z := iota c (chi (pi (rho (theta a)))).

(** The round constants: bits of the powers of x modulo x^8+x^6+x^5+x^4+1. *)
Definition xtimes (r : Z) : Z := let r := 2 * r in if Z.testbit r 8 then r ⊕ 0x171 else r.

Definition rc_bit (t : nat) : bool := Z.testbit (Nat.iter t xtimes 1) 0.

Definition RC (i : nat) : Z :=
  foldr (fun j acc => (if rc_bit (j + 7 * i) then 2 ^ (2 ^ Z.of_nat j - 1) else 0) + acc) 0 (seq 0 7).

Definition keccak_f (a : list Z) : list Z := foldl (fun a i => Rnd (RC i) a) a (seq 0 24).

(** ** The two agree *)

Lemma rc_correct : rc = RC <$> seq 0 24.
Proof. vm_compute. reflexivity. Qed.

(** Where the lanes are after the rounds of the loop body. *)
Definition layout1 : list nat := [0; 11; 22; 8; 19; 15; 1; 12; 23; 9; 5; 16; 2; 13; 24; 20; 6; 17; 3; 14; 10; 21; 7; 18; 4]%nat.
Definition layout2 : list nat := [0; 16; 7; 23; 14; 20; 11; 2; 18; 9; 15; 6; 22; 13; 4; 10; 1; 17; 8; 24; 5; 21; 12; 3; 19]%nat.
Definition layout3 : list nat := [0; 6; 12; 18; 24; 10; 16; 22; 3; 9; 20; 1; 7; 13; 19; 5; 11; 17; 23; 4; 15; 21; 2; 8; 14]%nat.

Definition arrange (p : list nat) (a : list Z) : list Z := (fun i => a !!! i) <$> p.

(** The columns, whose lanes the rounds add up in different orders. *)
Ltac xor_bits := apply Z.bits_inj'; intros ? _; rewrite !Z.lxor_spec; repeat destruct (Z.testbit _ _); reflexivity.

Lemma list_25 (a : list Z) : length a = 25%nat → ∃ a0 a1 a2 a3 a4 a5 a6 a7 a8 a9 a10 a11 a12 a13 a14 a15 a16 a17 a18 a19 a20 a21 a22 a23 a24,
  a = [a0; a1; a2; a3; a4; a5; a6; a7; a8; a9; a10; a11; a12; a13; a14; a15; a16; a17; a18; a19; a20; a21; a22; a23; a24].
Proof. intros Hl. do 25 (destruct a as [|? a]; [done|]). destruct a; [|done]. repeat eexists. Qed.

Ltac lanes_cbv := cbv -[Z.lxor Z.lor Z.ldiff shl Z.shiftr].

Ltac lanes_intro :=
  match goal with
  | |- length ?a = 25%nat → _ =>
      let Hl := fresh in
      intros Hl; apply list_25 in Hl;
      destruct Hl as (a0 & a1 & a2 & a3 & a4 & a5 & a6 & a7 & a8 & a9 & a10 & a11 & a12 & a13 & a14 & a15 & a16 & a17 & a18 & a19 & a20 &
        a21 & a22 & a23 & a24 & ->)
  end.

Lemma round0_correct c a : length a = 25%nat → round0 c a = arrange layout1 (Rnd c a).
Proof. lanes_intro. lanes_cbv. reflexivity. Qed.

Lemma round1_correct c a : length a = 25%nat → round1 c (arrange layout1 a) = arrange layout2 (Rnd c a).
Proof.
  lanes_intro.
  assert (a0 ⊕ a15 ⊕ a5 ⊕ a20 ⊕ a10 = a0 ⊕ a5 ⊕ a10 ⊕ a15 ⊕ a20) as E0 by xor_bits.
  assert (a11 ⊕ a1 ⊕ a16 ⊕ a6 ⊕ a21 = a1 ⊕ a6 ⊕ a11 ⊕ a16 ⊕ a21) as E1 by xor_bits.
  assert (a22 ⊕ a12 ⊕ a2 ⊕ a17 ⊕ a7 = a2 ⊕ a7 ⊕ a12 ⊕ a17 ⊕ a22) as E2 by xor_bits.
  assert (a8 ⊕ a23 ⊕ a13 ⊕ a3 ⊕ a18 = a3 ⊕ a8 ⊕ a13 ⊕ a18 ⊕ a23) as E3 by xor_bits.
  assert (a19 ⊕ a9 ⊕ a24 ⊕ a14 ⊕ a4 = a4 ⊕ a9 ⊕ a14 ⊕ a19 ⊕ a24) as E4 by xor_bits.
  lanes_cbv. rewrite E0, E1, E2, E3, E4. reflexivity.
Qed.

Lemma round2_correct c a : length a = 25%nat → round2 c (arrange layout2 a) = arrange layout3 (Rnd c a).
Proof.
  lanes_intro.
  assert (a0 ⊕ a20 ⊕ a15 ⊕ a10 ⊕ a5 = a0 ⊕ a5 ⊕ a10 ⊕ a15 ⊕ a20) as E0 by xor_bits.
  assert (a16 ⊕ a11 ⊕ a6 ⊕ a1 ⊕ a21 = a1 ⊕ a6 ⊕ a11 ⊕ a16 ⊕ a21) as E1 by xor_bits.
  assert (a7 ⊕ a2 ⊕ a22 ⊕ a17 ⊕ a12 = a2 ⊕ a7 ⊕ a12 ⊕ a17 ⊕ a22) as E2 by xor_bits.
  assert (a23 ⊕ a18 ⊕ a13 ⊕ a8 ⊕ a3 = a3 ⊕ a8 ⊕ a13 ⊕ a18 ⊕ a23) as E3 by xor_bits.
  assert (a14 ⊕ a9 ⊕ a4 ⊕ a24 ⊕ a19 = a4 ⊕ a9 ⊕ a14 ⊕ a19 ⊕ a24) as E4 by xor_bits.
  lanes_cbv. rewrite E0, E1, E2, E3, E4. reflexivity.
Qed.

Lemma round3_correct c a : length a = 25%nat → round3 c (arrange layout3 a) = Rnd c a.
Proof.
  lanes_intro.
  assert (a0 ⊕ a10 ⊕ a20 ⊕ a5 ⊕ a15 = a0 ⊕ a5 ⊕ a10 ⊕ a15 ⊕ a20) as E0 by xor_bits.
  assert (a6 ⊕ a16 ⊕ a1 ⊕ a11 ⊕ a21 = a1 ⊕ a6 ⊕ a11 ⊕ a16 ⊕ a21) as E1 by xor_bits.
  assert (a12 ⊕ a22 ⊕ a7 ⊕ a17 ⊕ a2 = a2 ⊕ a7 ⊕ a12 ⊕ a17 ⊕ a22) as E2 by xor_bits.
  assert (a18 ⊕ a3 ⊕ a13 ⊕ a23 ⊕ a8 = a3 ⊕ a8 ⊕ a13 ⊕ a18 ⊕ a23) as E3 by xor_bits.
  assert (a24 ⊕ a9 ⊕ a19 ⊕ a4 ⊕ a14 = a4 ⊕ a9 ⊕ a14 ⊕ a19 ⊕ a24) as E4 by xor_bits.
  lanes_cbv. rewrite E0, E1, E2, E3, E4. reflexivity.
Qed.

Lemma length_Rnd c a : length (Rnd c a) = 25%nat.
Proof. unfold Rnd, iota, lanes. by rewrite length_fmap, length_seq. Qed.

Lemma rc_lookup j : (j < 24)%nat → rc.[j] = RC j.
Proof. intros Hj. apply list_lookup_total_correct. rewrite rc_correct, list_lookup_fmap, lookup_seq_lt by done. done. Qed.


Lemma body_correct (c0 c1 c2 c3 : Z) a : length a = 25%nat →
  round3 c3 (round2 c2 (round1 c1 (round0 c0 a))) = Rnd c3 (Rnd c2 (Rnd c1 (Rnd c0 a))).
Proof.
  intros Hl. rewrite round0_correct by done.
  rewrite round1_correct, round2_correct, round3_correct by apply length_Rnd. done.
Qed.

Definition four_rounds (a : list Z) (i : nat) : list Z :=
  Rnd (RC (i + 3)) (Rnd (RC (i + 2)) (Rnd (RC (i + 1)) (Rnd (RC i) a))).

Lemma loop_body_correct a i : length a = 25%nat → (i + 3 < 24)%nat → loop_body a i = four_rounds a i.
Proof. intros Hl Hi. unfold loop_body, four_rounds. rewrite body_correct, !rc_lookup by (done || lia). done. Qed.

Lemma foldl_step {A B} (f : A → B → A) a x l : foldl f a (x :: l) = foldl f (f a x) l.
Proof. done. Qed.

Lemma foldl_body_correct l a : length a = 25%nat → Forall (fun i => i + 3 < 24)%nat l → foldl loop_body a l = foldl four_rounds a l.
Proof.
  intros Hl Hall. revert a Hl. induction Hall as [|i l Hi _ IH]; intros a Hl; [done|]. rewrite !foldl_step.
  rewrite loop_body_correct by done. apply IH. apply length_Rnd.
Qed.

Lemma foldl_by_fours {A} (f : A → nat → A) a :
  foldl (fun a i => f (f (f (f a i) (i + 1)%nat) (i + 2)%nat) (i + 3)%nat) a [0; 4; 8; 12; 16; 20]%nat = foldl f a (seq 0 24).
Proof. reflexivity. Qed.

Lemma keccakF1600_is a : length a = 25%nat → keccakF1600 a = keccak_f a.
Proof.
  intros Hl. unfold keccakF1600, keccak_f. rewrite foldl_body_correct; [|done|repeat constructor; lia].
  exact (foldl_by_fours (fun a i => Rnd (RC i) a) a).
Qed.

(** ** The sponge (sha3.go, xor_generic.go, xor_unaligned.go, hashes.go) *)

Inductive spongeDirection := spongeAbsorbing | spongeSqueezing.

Definition maxRate : nat := 168.

(** [buf] is nil or a slice of [storage], of the given offset and length. *)
Record state := mkState {
  st_a : list Z;
  st_buf : option (nat * nat);
  st_rate : nat;
  st_dsbyte : Z;
  st_storage : list Z;
  st_outputLen : nat;
  st_state : spongeDirection
}.

Definition set_a (x : list Z) (d : state) : state :=
  mkState x (st_buf d) (st_rate d) (st_dsbyte d) (st_storage d) (st_outputLen d) (st_state d).
Definition set_buf (x : option (nat * nat)) (d : state) : state :=
  mkState (st_a d) x (st_rate d) (st_dsbyte d) (st_storage d) (st_outputLen d) (st_state d).
Definition set_storage (x : list Z) (d : state) : state :=
  mkState (st_a d) (st_buf d) (st_rate d) (st_dsbyte d) x (st_outputLen d) (st_state d).
Definition set_direction (x : spongeDirection) (d : state) : state :=
  mkState (st_a d) (st_buf d) (st_rate d) (st_dsbyte d) (st_storage d) (st_outputLen d) x.

(** [len(d.buf)], [cap(d.buf)], the bytes of [d.buf]. *)
Definition buf_len (d : state) : nat := match st_buf d with Some (_, n) => n | None => 0 end.
Definition buf_cap (d : state) : nat := match st_buf d with Some (off, _) => maxRate - off | None => 0 end.
Definition buf_bytes (d : state) : list Z :=
  match st_buf d with Some (off, n) => take n (drop off (st_storage d)) | None => [] end.

(** [d.buf = d.storage[i:j]] *)
Definition reslice (i j : Z) (d : state) : outcome Empty_set state :=
  if (0 <=? i) && (i <=? j) && (j <=? Z.of_nat maxRate) then Ok (set_buf (Some (Z.to_nat i, Z.to_nat (j - i))) d) else Panic.

(** Writing bytes at a position of the storage. *)
Definition write_at (pos : nat) (b : list Z) (storage : list Z) : list Z :=
  take pos storage ++ b ++ drop (pos + length b) storage.

(** [binary.LittleEndian] *)
Definition le64 (b : list Z) : Z := foldr (fun x acc => x ||| Z.shiftl acc 8) 0 (take 8 b).
Definition put64 (x : Z) : list Z := (fun i => Z.shiftr x (8 * Z.of_nat i) mod 256) <$> seq 0 8.

(** The buffers have at most [maxRate] bytes, so that the lanes are in range. *)
Fixpoint xorInGeneric_loop (n i : nat) (buf : list Z) (a : list Z) : list Z :=
  match n with
  | O => a
  | S n => xorInGeneric_loop n (S i) (drop 8 buf) (<[i := a.[i] ⊕ le64 buf]> a)
  end.

Definition xorInGeneric (a buf : list Z) : list Z := xorInGeneric_loop (length buf / 8) 0 buf a.

Fixpoint copyOutGeneric_loop (fuel i : nat) (a b : list Z) : list Z :=
  match fuel with
  | O => b
  | S fuel => if (8 <=? length b)%nat then put64 a.[i] ++ copyOutGeneric_loop fuel (S i) a (drop 8 b) else b
  end.

Definition copyOutGeneric (a b : list Z) : list Z := copyOutGeneric_loop (length b) 0 a b.

(** The lanes [lo] to [hi] of the memory at the buffer. *)
Definition xor_range (lo hi : nat) (buf a : list Z) : list Z :=
  foldl (fun a i => <[i := a.[i] ⊕ le64 (drop (8 * i) buf)]> a) a (seq lo (hi - lo)).

Definition xorInUnaligned (a buf : list Z) : list Z :=
  let n := length buf in
  let a := if (72 <=? n)%nat then xor_range 0 9 buf a else a in
  let a := if (104 <=? n)%nat then xor_range 9 13 buf a else a in
  let a := if (136 <=? n)%nat then xor_range 13 17 buf a else a in
  let a := if (144 <=? n)%nat then xor_range 17 18 buf a else a in
  if (168 <=? n)%nat then xor_range 18 21 buf a else a.

Definition copyOutUnaligned (a buf : list Z) : list Z :=
  let ab := take maxRate (concat (put64 <$> a)) in
  take (length buf) ab ++ drop (length ab) buf.

Definition Reset (d : state) : outcome Empty_set state := reslice 0 0 (set_direction spongeAbsorbing (set_a (replicate 25 0) d)).

Definition clone (d : state) : outcome Empty_set state :=
  match st_state d with
  | spongeAbsorbing => reslice 0 (Z.of_nat (buf_len d)) d
  | spongeSqueezing => reslice (Z.of_nat (st_rate d) - Z.of_nat (buf_cap d)) (Z.of_nat (st_rate d)) d
  end.

(** [copyOut(d, d.buf)] *)
Definition copyOut_buf (d : state) : state :=
  match st_buf d with
  | Some (off, _) => set_storage (write_at off (copyOutGeneric (st_a d) (buf_bytes d)) (st_storage d)) d
  | None => d
  end.

Definition permute (d : state) : outcome Empty_set state :=
  match st_state d with
  | spongeAbsorbing =>
      let d := set_a (xorInGeneric (st_a d) (buf_bytes d)) d in
      d ← reslice 0 0 d;
      Ok (set_a (keccakF1600 (st_a d)) d)
  | spongeSqueezing =>
      let d := set_a (keccakF1600 (st_a d)) d in
      d ← reslice 0 (Z.of_nat (st_rate d)) d;
      Ok (copyOut_buf d)
  end.

(** [append(d.buf, b...)]: in place, as long as the storage has room; a buffer
    that outgrows it would move away from the storage, which no rate allows. *)
Definition append_buf (b : list Z) (d : state) : outcome Empty_set state :=
  match st_buf d with
  | Some (off, n) =>
      if (off + n + length b <=? maxRate)%nat
      then Ok (set_buf (Some (off, n + length b)%nat) (set_storage (write_at (off + n) b (st_storage d)) d))
      else Panic
  | None => Panic
  end.

Definition ensure_buf (d : state) : outcome Empty_set state :=
  match st_buf d with None => reslice 0 0 d | Some _ => Ok d end.

Definition padAndPermute (dsbyte : Z) (d : state) : outcome Empty_set state :=
  d ← ensure_buf d;
  d ← append_buf [dsbyte] d;
  let zerosStart := buf_len d in
  d ← reslice 0 (Z.of_nat (st_rate d)) d;
  let d := set_storage (write_at zerosStart (replicate (st_rate d - zerosStart) 0) (st_storage d)) d in
  let last := (st_rate d - 1)%nat in
  let d := set_storage (<[last := (st_storage d).[last] ⊕ 0x80]> (st_storage d)) d in
  d ← permute d;
  let d := set_direction spongeSqueezing d in
  d ← reslice 0 (Z.of_nat (st_rate d)) d;
  Ok (copyOut_buf d).

(** The loop of [Write]; every round takes at least one byte of [p]. *)
Fixpoint Write_loop (fuel : nat) (p : list Z) (d : state) : outcome Empty_set state :=
  match fuel with
  | O => Ok d
  | S fuel =>
      if (length p =? 0)%nat then Ok d
      else if (buf_len d =? 0)%nat && (st_rate d <=? length p)%nat then
        let d := set_a (xorInGeneric (st_a d) (take (st_rate d) p)) d in
        Write_loop fuel (drop (st_rate d) p) (set_a (keccakF1600 (st_a d)) d)
      else
        let todo := min (st_rate d - buf_len d) (length p) in
        d ← append_buf (take todo p) d;
        d ← (if (buf_len d =? st_rate d)%nat then permute d else Ok d);
        Write_loop fuel (drop todo p) d
  end.

Definition Write (p : list Z) (d : state) : outcome Empty_set state :=
  match st_state d with
  | spongeSqueezing => Panic
  | spongeAbsorbing => d ← ensure_buf d; Write_loop (length p) p d
  end.

(** The loop of [Read]; every round fills at least one byte. *)
Fixpoint Read_loop (fuel n : nat) (d : state) : outcome Empty_set (state * list Z) :=
  match fuel with
  | O => Ok (d, [])
  | S fuel =>
      if (n =? 0)%nat then Ok (d, [])
      else
        let k := min n (buf_len d) in
        let out := take k (buf_bytes d) in
        let d := set_buf ((fun '(off, len) => (off + k, len - k)%nat) <$> st_buf d) d in
        d ← (if (buf_len d =? 0)%nat then permute d else Ok d);
        '(d, rest) ← Read_loop fuel (n - k) d;
        Ok (d, out ++ rest)
  end.

Definition Read (n : nat) (d : state) : outcome Empty_set (state * list Z) :=
  d ← (match st_state d with spongeAbsorbing => padAndPermute (st_dsbyte d) d | spongeSqueezing => Ok d end);
  Read_loop n n d.

Definition Sum (inp : list Z) (d : state) : outcome Empty_set (list Z) :=
  dup ← clone d;
  '(_, hash) ← Read (st_outputLen dup) dup;
  Ok (inp ++ hash).

Definition newState (rate outputLen : nat) (dsbyte : Z) : state :=
  mkState (replicate 25 0) None rate dsbyte (replicate maxRate 0) outputLen spongeAbsorbing.

Definition NewKeccak256 : state := newState 136 32 0x01.
Definition NewKeccak512 : state := newState 72 64 0x01.
Definition New224 : state := newState 144 28 0x06.
Definition New256 : state := newState 136 32 0x06.
Definition New384 : state := newState 104 48 0x06.
Definition New512 : state := newState 72 64 0x06.
Definition NewShake128 : state := newState 168 0 0x1f.
Definition NewShake256 : state := newState 136 0 0x1f.

Definition sum_of (d : state) (data : list Z) : outcome Empty_set (list Z) := d ← Write data d; Sum [] d.
Definition Sum224 : list Z → outcome Empty_set (list Z) := sum_of New224.
Definition Sum256 : list Z → outcome Empty_set (list Z) := sum_of New256.
Definition Sum384 : list Z → outcome Empty_set (list Z) := sum_of New384.
Definition Sum512 : list Z → outcome Empty_set (list Z) := sum_of New512.

Definition shake_of (d : state) (n : nat) (data : list Z) : outcome Empty_set (list Z) :=
  d ← Write data d; '(_, hash) ← Read n d; Ok hash.
Definition ShakeSum128 : nat → list Z → outcome Empty_set (list Z) := shake_of NewShake128.
Definition ShakeSum256 : nat → list Z → outcome Empty_set (list Z) := shake_of NewShake256.

(** Writing pieces one after the other. *)
Fixpoint write_all (data : list (list Z)) (d : state) : outcome Empty_set state :=
  match data with
  | [] => Ok d
  | b :: data => d ← Write b d; write_all data d
  end.

(** ** The reference sponge *)

Definition xor_block (a block : list Z) : list Z :=
  imap (fun i x => if (8 * i <? length block)%nat then x ⊕ le64 (drop (8 * i) block) else x) a.

(** The first [n] blocks of a message. *)
Fixpoint absorb (rate n : nat) (a m : list Z) : list Z :=
  match n with
  | O => a
  | S n => absorb rate n (keccak_f (xor_block a (take rate m))) (drop rate m)
  end.

(** The padding: the domain byte, zeros, and a final bit. *)
Definition pad (rate : nat) (dsbyte : Z) (m : list Z) : list Z :=
  let q := (rate - length m mod rate)%nat in
  if (q =? 1)%nat then m ++ [dsbyte ⊕ 0x80] else m ++ dsbyte :: replicate (q - 2) 0 ++ [0x80].

(** The first [n] bytes of the output, for [n] at most [k] blocks. *)
Fixpoint squeeze (rate k : nat) (a : list Z) : list Z :=
  match k with
  | O => []
  | S k => take rate (concat (put64 <$> a)) ++ squeeze rate k (keccak_f a)
  end.

Definition sponge (rate : nat) (dsbyte : Z) (m : list Z) (n : nat) : list Z :=
  let p := pad rate dsbyte m in
  take n (squeeze rate (S n) (absorb rate (length p / rate) (replicate 25 0) p)).

(** ** Lanes and bytes *)

Lemma length_put64 x : length (put64 x) = 8%nat.
Proof. done. Qed.

Lemma length_put64s a : length (concat (put64 <$> a)) = (8 * length a)%nat.
Proof. induction a as [|x a IH]; [done|]. cbn [fmap list_fmap concat]. rewrite length_app, length_put64, IH. cbn [length]. lia. Qed.

Lemma put64_bytes x : is_bytes (put64 x).
Proof. apply Forall_fmap, Forall_true. intros i. apply Z.mod_pos_bound. lia. Qed.

Lemma length_xor_block a b : length (xor_block a b) = length a.
Proof. apply length_imap. Qed.

Lemma length_keccak_f a : length (keccak_f a) = 25%nat.
Proof.
  unfold keccak_f. change (seq 0 24) with (seq 0 23 ++ [23%nat]). rewrite foldl_app. cbn [foldl]. apply length_Rnd.
Qed.

Lemma length_keccakF a : length a = 25%nat → length (keccakF1600 a) = 25%nat.
Proof. intros. rewrite keccakF1600_is by done. apply length_keccak_f. Qed.

Lemma xorInGeneric_loop_lookup n i buf a j : (n + i ≤ length a)%nat →
  xorInGeneric_loop n i buf a !! j =
  (fun x => if (i <=? j)%nat && (j <? n + i)%nat then x ⊕ le64 (drop (8 * (j - i)) buf) else x) <$> a !! j.
Proof.
  revert i buf a. induction n as [|n IH]; intros i buf a Hn; cbn [xorInGeneric_loop].
  - destruct (a !! j); [|done]. cbn [fmap option_fmap option_map]. destruct (Nat.leb_spec i j), (Nat.ltb_spec j (0 + i)); done || lia.
  - rewrite IH by (rewrite length_insert; lia). destruct (decide (j = i)) as [->|Hne].
    + rewrite list_lookup_insert_eq by lia. destruct (lookup_lt_is_Some_2 a i ltac:(lia)) as [x Hx].
      rewrite Hx, (list_lookup_total_correct _ _ _ Hx). cbn [fmap option_fmap option_map]. rewrite Nat.sub_diag, drop_0.
      destruct (Nat.leb_spec (S i) i), (Nat.leb_spec i i), (Nat.ltb_spec i (S n + i)); done || lia.
    + rewrite list_lookup_insert_ne by done. destruct (a !! j); [|done]. cbn [fmap option_fmap option_map]. rewrite drop_drop.
      destruct (Nat.leb_spec (S i) j), (Nat.leb_spec i j), (Nat.ltb_spec j (n + S i)), (Nat.ltb_spec j (S n + i));
        cbn [andb]; try done; try lia. do 4 f_equal. lia.
Qed.

Lemma xorInGeneric_block a buf : (length buf ≤ 8 * length a)%nat → (length buf mod 8 = 0)%nat →
  xorInGeneric a buf = xor_block a buf.
Proof.
  intros Hl H8. apply list_eq. intros j. unfold xorInGeneric, xor_block. pose proof (Nat.div_mod_eq (length buf) 8) as Hd.
  rewrite xorInGeneric_loop_lookup by lia. rewrite list_lookup_imap. destruct (a !! j); [|done]. cbn [fmap option_fmap option_map]. rewrite Nat.sub_0_r.
  destruct (Nat.ltb_spec j (length buf / 8 + 0)), (Nat.ltb_spec (8 * j) (length buf)); done || lia.
Qed.

Lemma copyOutGeneric_loop_bytes fuel i a b : (length b ≤ fuel)%nat → (8 * i + length b ≤ 8 * length a)%nat →
  (length b mod 8 = 0)%nat → copyOutGeneric_loop fuel i a b = take (length b) (concat (put64 <$> drop i a)).
Proof.
  revert i b. induction fuel as [|fuel IH]; intros i b Hf Hl H8; cbn [copyOutGeneric_loop].
  - destruct b; [done|cbn in Hf; lia].
  - pose proof (Nat.div_mod_eq (length b) 8) as Hd. destruct (Nat.leb_spec 8 (length b)) as [Hb|Hb].
    + destruct (lookup_lt_is_Some_2 a i ltac:(lia)) as [x Hx]. rewrite (drop_S a x i Hx), (list_lookup_total_correct _ _ _ Hx).
      cbn [fmap list_fmap concat]. rewrite take_app_ge, length_put64 by (rewrite length_put64; lia).
      rewrite IH; rewrite ?length_drop; [done|lia|lia|].
      replace (length b) with (length b - 8 + 1 * 8)%nat in H8 by lia. by rewrite Nat.Div0.mod_add in H8.
    + destruct b; [done|cbn [length] in *]. lia.
Qed.

Lemma copyOutGeneric_bytes a b : (length b ≤ 8 * length a)%nat → (length b mod 8 = 0)%nat →
  copyOutGeneric a b = take (length b) (concat (put64 <$> a)).
Proof. intros. unfold copyOutGeneric. rewrite copyOutGeneric_loop_bytes by done || lia. done. Qed.

(** ** Writing *)

Lemma length_write_at pos b s : (pos + length b ≤ length s)%nat → length (write_at pos b s) = length s.
Proof. intros. unfold write_at. rewrite !length_app, length_take, length_drop. lia. Qed.

Lemma take_write_at pos b s : (pos ≤ length s)%nat → take (pos + length b) (write_at pos b s) = take pos s ++ b.
Proof.
  intros. unfold write_at. rewrite (assoc_L (++)). rewrite take_app_le by (rewrite length_app, length_take; lia).
  apply take_ge. rewrite length_app, length_take. lia.
Qed.

Lemma length_absorb rate n a m : length a = 25%nat → length (absorb rate n a m) = 25%nat.
Proof. revert a m. induction n as [|n IH]; intros a m Ha; [done|]. apply IH, length_keccak_f. Qed.

Lemma absorb_app rate n k a b m : length b = (n * rate)%nat → absorb rate (n + k) a (b ++ m) = absorb rate k (absorb rate n a b) m.
Proof.
  revert a b. induction n as [|n IH]; intros a b Hb; cbn [Nat.add absorb].
  - by destruct b; [|cbn in Hb; lia].
  - rewrite take_app_le, drop_app_le by lia. apply IH. rewrite length_drop. lia.
Qed.

Lemma reslice_ok i j d : (i ≤ j)%nat → (j ≤ maxRate)%nat → reslice (Z.of_nat i) (Z.of_nat j) d = Ok (set_buf (Some (i, j - i)%nat) d).
Proof.
  intros. unfold reslice.
  rewrite (proj2 (Z.leb_le 0 _)), (proj2 (Z.leb_le _ (Z.of_nat j))), (proj2 (Z.leb_le _ (Z.of_nat maxRate))) by lia. cbn [andb].
  by rewrite Nat2Z.id, <- Nat2Z.inj_sub, Nat2Z.id by done.
Qed.

#[local] Opaque keccakF1600 keccak_f.

Section Sponge.
Context (rate : nat) (Hpos : (0 < rate)%nat) (Hmax : (rate ≤ maxRate)%nat) (H8 : (rate mod 8 = 0)%nat).
Context (dsbyte : Z) (outputLen : nat).

#[local] Notation zeros := (replicate 25 0).

(** The fields that never change. *)
Record config (d : state) : Prop := {
  cf_rate : st_rate d = rate;
  cf_dsbyte : st_dsbyte d = dsbyte;
  cf_outputLen : st_outputLen d = outputLen;
  cf_storage : length (st_storage d) = maxRate
}.

(** The sponge has absorbed [m]: its whole blocks are in the lanes, the rest is
    in the buffer. *)
Record absorbed (d : state) (m : list Z) : Prop := {
  ab_config : config d;
  ab_direction : st_state d = spongeAbsorbing;
  ab_split : ∃ n b r, m = b ++ r ∧ length b = (n * rate)%nat ∧ (length r < rate)%nat ∧ st_a d = absorb rate n zeros b ∧
    st_buf d = Some (0%nat, length r) ∧ take (length r) (st_storage d) = r
}.

Lemma append_ok b n d : st_buf d = Some (0%nat, n) → (n + length b ≤ maxRate)%nat → length (st_storage d) = maxRate →
  append_buf b d = Ok (set_buf (Some (0%nat, n + length b)%nat) (set_storage (write_at n b (st_storage d)) d)).
Proof. intros Hb Hn Hs. unfold append_buf. rewrite Hb. cbn [Nat.add]. by rewrite (proj2 (Nat.leb_le _ _)). Qed.

Lemma absorb_block_ok a block : length a = 25%nat → length block = rate →
  keccakF1600 (xorInGeneric a block) = keccak_f (xor_block a block).
Proof.
  intros Ha Hb. unfold maxRate in *. rewrite xorInGeneric_block by lia || by rewrite Hb.
  by rewrite keccakF1600_is by (by rewrite length_xor_block).
Qed.

(** A full buffer. *)
Lemma permute_absorb d : config d → st_state d = spongeAbsorbing → length (st_a d) = 25%nat → st_buf d = Some (0%nat, rate) →
  permute d = Ok (set_a (keccak_f (xor_block (st_a d) (take rate (st_storage d)))) (set_buf (Some (0, 0)%nat) d)).
Proof.
  intros [Hr _ _ Hs] Hd Ha Hb. unfold permute. rewrite Hd. unfold buf_bytes. rewrite Hb, drop_0. cbn [st_a set_a].
  rewrite (reslice_ok 0 0) by lia. rewrite bind_Ok. cbn [st_a set_a set_buf].
  rewrite absorb_block_ok by (done || rewrite length_take; lia). done.
Qed.

Lemma absorbed_block d m n b block d' : absorbed d m → m = b → length b = (n * rate)%nat → length block = rate →
  st_a d = absorb rate n zeros b → config d' → st_state d' = spongeAbsorbing → st_buf d' = Some (0, 0)%nat →
  st_a d' = keccak_f (xor_block (st_a d) block) → absorbed d' (m ++ block).
Proof.
  intros Hab -> Hb Hbl Ha Hc Hd Hbuf Ha'. split; [done|done|]. exists (S n), (b ++ block), [].
  rewrite app_nil_r, length_app. split_and!; [done|lia|cbn; lia| |done|done].
  rewrite Ha', Ha. replace (S n) with (n + 1)%nat by lia. rewrite absorb_app by done. cbn [absorb]. rewrite take_ge by lia. reflexivity.
Qed.

(** Filling the buffer. *)
Lemma buffer_fill_ok p d m n b r : absorbed d m → m = b ++ r → length b = (n * rate)%nat → (length r < rate)%nat →
  st_a d = absorb rate n zeros b → st_buf d = Some (0%nat, length r) → take (length r) (st_storage d) = r →
  let todo := min (rate - length r) (length p) in
  ∃ d', (d ← append_buf (take todo p) d; if (buf_len d =? st_rate d)%nat then permute d else Ok d) = Ok d' ∧ absorbed d' (m ++ take todo p).
Proof.
  intros [Hc Hdir _] -> Hb Hr Ha Hbuf Hst todo. pose proof Hc as [Hrate Hds Hout Hs]. set (q := take todo p).
  assert (length q = todo) as Hq by (unfold q; rewrite length_take; lia).
  rewrite (append_ok q (length r)) by (done || lia). rewrite bind_Ok. set (d1 := set_buf _ _).
  assert (take (length r + length q) (st_storage d1) = r ++ q) as Htake.
  { cbn [d1 st_storage set_buf set_storage]. rewrite take_write_at by lia. by rewrite Hst. }
  assert (config d1) as Hc1 by (split; [done|done|done|]; cbn; rewrite length_write_at; lia).
  change (buf_len d1) with (length r + length q)%nat. change (st_rate d1) with (st_rate d). rewrite Hrate.
  destruct (Nat.eqb_spec (length r + length q) rate) as [Hfull|Hfull].
  - rewrite permute_absorb; [|done|done|cbn; rewrite Ha; by apply length_absorb|cbn; by rewrite Hfull].
    eexists. split; [done|]. rewrite <- (assoc_L (++)). split; [by destruct Hc1|done|].
    exists (S n), (b ++ r ++ q), []. rewrite app_nil_r, !length_app. split_and!; [done|lia|cbn; lia| |done|done].
    cbn [st_a set_a]. rewrite <- Hfull, Htake. cbn [d1 st_a set_buf set_storage]. rewrite Ha.
    replace (S n) with (n + 1)%nat by lia. rewrite absorb_app by (rewrite Hb, <- Hfull; lia). cbn [absorb]. rewrite <- Hfull, take_ge by (rewrite length_app; lia). done.
  - eexists. split; [done|]. rewrite <- (assoc_L (++)). split; [done|done|].
    exists n, b, (r ++ q). rewrite length_app. split_and!; [done|done|lia|done|done|done].
Qed.

Lemma Write_loop_ok fuel p d m : (length p ≤ fuel)%nat → absorbed d m →
  ∃ d', Write_loop fuel p d = Ok d' ∧ absorbed d' (m ++ p).
Proof.
  revert p d m. induction fuel as [|fuel IH]; intros p d m Hf Hab; cbn [Write_loop].
  { destruct p; [|cbn in Hf; lia]. exists d. by rewrite app_nil_r. }
  destruct (Nat.eqb_spec (length p) 0) as [Hp|Hp].
  { destruct p; [|done]. exists d. by rewrite app_nil_r. }
  pose proof Hab as [Hc Hdir (n & b & r & -> & Hb & Hr & Ha & Hbuf & Hst)]. pose proof Hc as [Hrate _ _ Hs].
  assert (length (st_a d) = 25%nat) as Hla by (rewrite Ha; by apply length_absorb).
  assert (buf_len d = length r) as -> by (unfold buf_len; by rewrite Hbuf). rewrite Hrate.
  assert (∃ d', (d ← append_buf (take (min (rate - length r) (length p)) p) d;
      d ← (if (buf_len d =? st_rate d)%nat then permute d else Ok d);
      Write_loop fuel (drop (min (rate - length r) (length p)) p) d) = Ok d' ∧ absorbed d' ((b ++ r) ++ p)) as Hfill.
  { destruct (buffer_fill_ok p d (b ++ r) n b r Hab) as (d1 & E1 & H1); [done..|].
    destruct (IH (drop (min (rate - length r) (length p)) p) d1 _ ltac:(rewrite length_drop; lia) H1) as (d2 & E2 & H2).
    exists d2. rewrite <- (assoc_L (++)), take_drop in H2. split; [|done].
    destruct (append_buf _ d); [|done..]. rewrite bind_Ok in *. by rewrite E1, bind_Ok. }
  destruct (Nat.eqb_spec (length r) 0) as [Hr0|Hr0], (Nat.leb_spec rate (length p)) as [Hle|Hle]; cbn [andb].
  - destruct r; [|done]. rewrite app_nil_r in *. cbn [st_rate set_a st_a]. rewrite Hrate.
    destruct (IH (drop rate p) (set_a (keccakF1600 (xorInGeneric (st_a d) (take rate p))) (set_a (xorInGeneric (st_a d) (take rate p)) d)) (b ++ take rate p))
      as (d' & E & Hd'); [rewrite length_drop; lia| |].
    + eapply (absorbed_block d b n b); [done|done|done|rewrite length_take; lia|done|by destruct Hc|done|done|].
      cbn [st_a set_a]. rewrite absorb_block_ok by (done || rewrite length_take; lia). done.
    + exists d'. split; [done|]. by rewrite <- (assoc_L (++)), take_drop in Hd'.
  - by apply Hfill.
  - by apply Hfill.
  - by apply Hfill.
Qed.

(** A sponge that is still absorbing, its buffer perhaps nil. *)
Definition hashing (d : state) (m : list Z) : Prop :=
  absorbed d m ∨ (m = [] ∧ d = newState rate outputLen dsbyte).

Lemma new_absorbed : absorbed (set_buf (Some (0, 0)%nat) (newState rate outputLen dsbyte)) [].
Proof. split; [by split|done|]. exists 0%nat, [], []. by split_and!. Qed.

Lemma ensure_ok d m : hashing d m → ∃ d', ensure_buf d = Ok d' ∧ absorbed d' m.
Proof.
  intros [Hab|[-> ->]].
  - exists d. split; [|done]. destruct Hab as [_ _ (n & b & r & _ & _ & _ & _ & Hbuf & _)]. unfold ensure_buf. by rewrite Hbuf.
  - eexists. split; [|apply new_absorbed]. unfold ensure_buf. cbn [st_buf newState]. by rewrite (reslice_ok 0 0) by lia.
Qed.

Lemma hashing_direction d m : hashing d m → st_state d = spongeAbsorbing.
Proof. intros [Hab|[_ ->]]; [apply Hab|done]. Qed.

Lemma Write_ok p d m : hashing d m → ∃ d', Write p d = Ok d' ∧ hashing d' (m ++ p).
Proof.
  intros Hh. unfold Write. rewrite (hashing_direction d m Hh). destruct (ensure_ok d m Hh) as (d1 & -> & Hab). rewrite bind_Ok.
  destruct (Write_loop_ok (length p) p d1 m) as (d' & E & Hd'); [done|done|]. exists d'. split; [done|by left].
Qed.

Lemma write_all_ok ps d m : hashing d m → ∃ d', write_all ps d = Ok d' ∧ hashing d' (m ++ concat ps).
Proof.
  revert d m. induction ps as [|p ps IH]; intros d m Hh; cbn [write_all concat].
  - exists d. by rewrite app_nil_r.
  - destruct (Write_ok p d m Hh) as (d1 & -> & H1). rewrite bind_Ok, (assoc_L (++)). by apply IH.
Qed.

(** ** Reading *)

(** The sponge gives out the bytes of [a], from [pos] on. *)
Record squeezing (d : state) (a : list Z) (pos : nat) : Prop := {
  sq_config : config d;
  sq_direction : st_state d = spongeSqueezing;
  sq_a : st_a d = a;
  sq_length : length a = 25%nat;
  sq_pos : (pos < rate)%nat;
  sq_buf : st_buf d = Some (pos, rate - pos)%nat;
  sq_bytes : take rate (st_storage d) = take rate (concat (put64 <$> a))
}.

Lemma copyOut_ok d a : config d → st_state d = spongeSqueezing → st_a d = a → length a = 25%nat → st_buf d = Some (0, rate)%nat →
  squeezing (copyOut_buf d) a 0.
Proof.
  intros [Hr Hds Ho Hs] Hd Ha Hl Hb. unfold copyOut_buf. rewrite Hb. unfold buf_bytes. rewrite Hb, drop_0, Ha.
  assert (length (take rate (st_storage d)) = rate) as Ht by (rewrite length_take; lia).
  rewrite copyOutGeneric_bytes by (rewrite ?Ht; done || (unfold maxRate in *; lia)). rewrite Ht.
  assert (length (take rate (concat (put64 <$> a))) = rate) as Hlt.
  { rewrite length_take, length_put64s. unfold maxRate in *. lia. }
  split; try done.
  - split; [done|done|done|]. cbn. rewrite length_write_at; lia.
  - rewrite Nat.sub_0_r. done.
  - cbn [st_storage set_storage]. rewrite <- Hlt at 1. rewrite <- (Nat.add_0_l (length _)). rewrite take_write_at by lia. done.
Qed.

Lemma permute_squeeze d a pos : config d → st_state d = spongeSqueezing → st_a d = a → length a = 25%nat →
  ∃ d', permute (set_buf pos d) = Ok d' ∧ squeezing d' (keccak_f a) 0.
Proof.
  intros Hc Hd Ha Hl. unfold permute. cbn [st_state set_buf]. rewrite Hd. cbn [st_rate set_a set_buf st_a].
  rewrite (cf_rate d Hc), (reslice_ok 0 rate) by lia. rewrite bind_Ok. eexists. split; [done|].
  apply copyOut_ok; [by destruct Hc|done| |apply length_keccak_f|cbn; by rewrite Nat.sub_0_r].
  cbn. rewrite Ha. by rewrite keccakF1600_is.
Qed.

Lemma length_squeeze_block a : length a = 25%nat → length (take rate (concat (put64 <$> a))) = rate.
Proof. intros. rewrite length_take, length_put64s. unfold maxRate in *. lia. Qed.

Lemma Read_loop_ok fuel n d a pos k : (n ≤ fuel)%nat → squeezing d a pos → (pos + n < S k * rate)%nat →
  ∃ d' a' pos', Read_loop fuel n d = Ok (d', take n (drop pos (squeeze rate (S k) a))) ∧ squeezing d' a' pos' ∧
    pos' = ((pos + n) mod rate)%nat.
Proof.
  revert n d a pos k. induction fuel as [|fuel IH]; intros n d a pos k Hf Hsq Hk; cbn [Read_loop].
  { assert (n = 0%nat) as -> by lia. rewrite take_0, Nat.add_0_r, Nat.mod_small by apply Hsq. by exists d, a, pos. }
  destruct (Nat.eqb_spec n 0) as [->|Hn]; [rewrite take_0, Nat.add_0_r, Nat.mod_small by apply Hsq; by exists d, a, pos|].
  pose proof Hsq as [Hc Hd Ha Hl Hp Hb Hby]. assert (buf_len d = (rate - pos)%nat) as -> by (unfold buf_len; by rewrite Hb).
  assert (take (min n (rate - pos)) (buf_bytes d) = take (min n (rate - pos)) (drop pos (take rate (concat (put64 <$> a))))) as ->.
  { unfold buf_bytes. rewrite Hb, <- Hby, take_take, skipn_firstn_comm. rewrite take_take. done. }
  rewrite Hb. cbn [fmap option_fmap option_map]. set (q := min n (rate - pos)).
  pose proof (length_squeeze_block a Hl) as Hlb. cbn [squeeze]. rewrite drop_app_le by lia.
  set (blk := drop pos _). assert (length blk = (rate - pos)%nat) as Hblk by (unfold blk; rewrite length_drop; lia).
  change (buf_len (set_buf (Some (pos + q, rate - pos - q)%nat) d)) with (rate - pos - q)%nat.
  destruct (Nat.eqb_spec (rate - pos - q) 0) as [Hq|Hq].
  - destruct (permute_squeeze d a (Some (pos + q, rate - pos - q)%nat) Hc Hd Ha Hl) as (d1 & -> & Hsq1). rewrite bind_Ok.
    destruct k as [|k]; [lia|].
    destruct (IH (n - q)%nat d1 (keccak_f a) 0%nat k) as (d' & a' & pos' & -> & Hsq' & Hpos'); [lia|done|lia|].
    rewrite bind_Ok. exists d', a', pos'. split_and!; [|done|rewrite Hpos'; replace (pos + n)%nat with (0 + (n - q) + 1 * rate)%nat by lia; by rewrite Nat.Div0.mod_add]. do 3 f_equal. rewrite drop_0, (take_ge blk) by lia.
    rewrite take_app_ge by lia. do 3 f_equal. lia.
  - assert (q = n) as -> by lia. rewrite bind_Ok, Nat.sub_diag.
    assert (∀ d, Read_loop fuel 0 d = Ok (d, [])) as -> by (by destruct fuel). rewrite bind_Ok, app_nil_r.
    eexists _, a, (pos + n)%nat. split_and!; [rewrite take_app_le by lia; done| |by rewrite Nat.mod_small by lia].
    split; [by destruct Hc|done|done|done|lia|cbn; by rewrite Nat.sub_add_distr|done].
Qed.

(** ** Padding *)

(** The last block of a message that ends in [r]. *)
Definition last_block (r : list Z) : list Z :=
  let s := r ++ dsbyte :: replicate (rate - S (length r)) 0 in <[(rate - 1)%nat := s.[rate - 1] ⊕ 0x80]> s.

Lemma length_last_block r : (length r < rate)%nat → length (last_block r) = rate.
Proof. intros. unfold last_block. rewrite length_insert, length_app. cbn [length]. rewrite length_replicate. lia. Qed.

Lemma pad_split n b r : length b = (n * rate)%nat → (length r < rate)%nat → pad rate dsbyte (b ++ r) = b ++ last_block r.
Proof.
  intros Hb Hr. unfold pad, last_block. rewrite length_app, Hb, Nat.add_comm, Nat.Div0.mod_add, Nat.mod_small by done.
  destruct (Nat.eqb_spec (rate - length r) 1) as [Hq|Hq]; rewrite <- (assoc_L (++)); f_equal.
  - replace (rate - S (length r))%nat with 0%nat by lia. replace (rate - 1)%nat with (length r + 0)%nat by lia. cbn [replicate].
    rewrite lookup_total_app_r, insert_app_r by lia. replace (length r + 0 - length r)%nat with 0%nat by lia. done.
  - set (z := (rate - length r - 2)%nat). replace (rate - S (length r))%nat with (z + 1)%nat by lia.
    replace (rate - 1)%nat with (length r + S z)%nat by lia.
    rewrite lookup_total_app_r, insert_app_r by lia. f_equal. replace (length r + S z - length r)%nat with (S z) by lia.
    rewrite replicate_add. cbn [replicate]. change (<[S z := ?y]> (dsbyte :: ?l)) with (dsbyte :: <[z := y]> l). f_equal.
    change ((dsbyte :: ?l) !!! S z) with (l !!! z).
    rewrite lookup_total_app_r by (rewrite length_replicate; lia). rewrite length_replicate, Nat.sub_diag. cbn [lookup_total list_lookup_total].
    rewrite insert_app_r_alt by (rewrite length_replicate; lia). by rewrite length_replicate, Nat.sub_diag.
Qed.

Lemma absorb_pad n b r : length b = (n * rate)%nat → (length r < rate)%nat →
  keccak_f (xor_block (absorb rate n zeros b) (last_block r)) =
  absorb rate (length (pad rate dsbyte (b ++ r)) / rate) zeros (pad rate dsbyte (b ++ r)).
Proof.
  intros Hb Hr. rewrite (pad_split n) by done. pose proof (length_last_block r Hr) as Hl.
  replace (length (b ++ last_block r)) with ((n + 1) * rate)%nat by (rewrite length_app; lia).
  rewrite Nat.div_mul, absorb_app by lia. cbn [absorb]. by rewrite take_ge by lia.
Qed.

Lemma take_write_at_all pos b s n : (pos ≤ length s)%nat → n = (pos + length b)%nat → take n (write_at pos b s) = take pos s ++ b.
Proof. intros ? ->. by apply take_write_at. Qed.

Lemma pad_storage r s : length s = maxRate → take (length r) s = r → (length r < rate)%nat →
  let s1 := write_at (length r) [dsbyte] s in
  let s2 := write_at (length r + 1) (replicate (rate - (length r + 1)) 0) s1 in
  let s3 := <[(rate - 1)%nat := s2.[rate - 1] ⊕ 0x80]> s2 in
  length s3 = maxRate ∧ take rate s3 = last_block r.
Proof.
  intros Hs Hr Hlt s1 s2 s3.
  assert (length s1 = maxRate) as Hs1 by (unfold s1; rewrite length_write_at; [done|cbn; lia]).
  assert (length s2 = maxRate) as Hs2 by (unfold s2; rewrite length_write_at; [done|rewrite length_replicate; lia]).
  assert (take rate s2 = r ++ dsbyte :: replicate (rate - S (length r)) 0) as Ht.
  { unfold s2. rewrite take_write_at_all by (rewrite ?length_replicate; lia). unfold s1.
    rewrite (take_write_at_all (length r) [dsbyte]) by (cbn; lia). rewrite Hr, <- (assoc_L (++)). cbn [app].
    by replace (rate - (length r + 1))%nat with (rate - S (length r))%nat by lia. }
  split; [unfold s3; by rewrite length_insert|]. unfold s3, last_block. rewrite take_insert_lt by lia.
  rewrite <- Ht, lookup_total_take_lt by lia. done.
Qed.

Lemma padAndPermute_ok d m : hashing d m → ∃ d', padAndPermute (st_dsbyte d) d = Ok d' ∧
  squeezing d' (absorb rate (length (pad rate dsbyte m) / rate) zeros (pad rate dsbyte m)) 0.
Proof.
  intros Hh. assert (st_dsbyte d = dsbyte) as -> by (destruct Hh as [[[]]|[_ ->]]; done).
  unfold padAndPermute. destruct (ensure_ok d m Hh) as (d0 & -> & [Hc Hdir (n & b & r & -> & Hb & Hr & Ha & Hbuf & Hst)]). rewrite bind_Ok.
  pose proof Hc as [Hrate Hds Hout Hs]. destruct (pad_storage r (st_storage d0) Hs Hst Hr) as [Hl3 Ht3].
  rewrite (append_ok [dsbyte] (length r)) by (done || cbn; lia). rewrite bind_Ok.
  cbn [st_rate set_buf set_storage st_storage buf_len st_buf length]. rewrite Hrate, (reslice_ok 0 rate) by lia.
  rewrite bind_Ok, Nat.sub_0_r. cbn [st_rate set_buf set_storage st_storage]. rewrite Hrate. set (s3 := <[_ := _]> _) in *.
  rewrite permute_absorb; [|by split|done|cbn; rewrite Ha; by apply length_absorb|done].
  rewrite bind_Ok. cbn [st_rate set_buf set_storage set_a set_direction]. rewrite Hrate, (reslice_ok 0 rate) by lia.
  rewrite bind_Ok, Nat.sub_0_r. eexists. split; [done|]. rewrite <- (absorb_pad n) by done. rewrite <- Ht3, <- Ha.
  apply copyOut_ok; [by split|done|done|apply length_keccak_f|done].
Qed.

(** ** The hash of a message written in pieces *)

Lemma clone_hashing d m : hashing d m → ∃ d', clone d = Ok d' ∧ hashing d' m.
Proof.
  intros Hh. unfold clone. rewrite (hashing_direction d m Hh). destruct Hh as [Hab|[-> ->]].
  - pose proof Hab as [Hc Hdir (n & b & r & -> & Hb & Hr & Ha & Hbuf & Hst)].
    assert (buf_len d = length r) as -> by (unfold buf_len; by rewrite Hbuf). rewrite (reslice_ok 0 (length r)) by lia.
    eexists. split; [done|]. left. split; [by destruct Hc|done|]. exists n, b, r. rewrite Nat.sub_0_r. by split_and!.
  - rewrite (reslice_ok 0 0) by (cbn; lia). eexists. split; [done|]. left. apply new_absorbed.
Qed.

Lemma Read_hashing k d m : hashing d m → ∃ d' a pos, Read k d = Ok (d', sponge rate dsbyte m k) ∧ squeezing d' a pos ∧ pos = (k mod rate)%nat.
Proof.
  intros Hh. unfold Read. rewrite (hashing_direction d m Hh). destruct (padAndPermute_ok d m Hh) as (d1 & -> & Hsq). rewrite bind_Ok.
  destruct (Read_loop_ok k k d1 _ 0 k (le_n k) Hsq ltac:(nia)) as (d' & a' & pos' & -> & Hsq' & Hpos'). exists d', a', pos'. by rewrite drop_0.
Qed.

Lemma hashing_output d m : hashing d m → st_outputLen d = outputLen.
Proof. intros [[[]]|[_ ->]]; done. Qed.

Lemma Sum_hashing inp d m : hashing d m → Sum inp d = Ok (inp ++ sponge rate dsbyte m outputLen).
Proof.
  intros Hh. unfold Sum. destruct (clone_hashing d m Hh) as (d1 & -> & H1). rewrite bind_Ok, (hashing_output d1 m H1).
  destruct (Read_hashing outputLen d1 m H1) as (d2 & a & pos & -> & _). by rewrite bind_Ok.
Qed.

Lemma pieces_hash ps inp : ∃ d, write_all ps (newState rate outputLen dsbyte) = Ok d ∧
  Sum inp d = Ok (inp ++ sponge rate dsbyte (concat ps) outputLen).
Proof.
  destruct (write_all_ok ps (newState rate outputLen dsbyte) []) as (d & E & Hd); [by right|]. exists d. split; [done|]. by apply Sum_hashing.
Qed.

End Sponge.

#[local] Transparent keccakF1600 keccak_f.

(** ** The two ways to reach the lanes *)

Lemma xor_range_lookup lo n buf a j : (lo + n ≤ length a)%nat →
  xor_range lo (lo + n) buf a !! j =
  (fun x => if (lo <=? j)%nat && (j <? lo + n)%nat then x ⊕ le64 (drop (8 * j) buf) else x) <$> a !! j.
Proof.
  unfold xor_range. replace (lo + n - lo)%nat with n by lia.
  revert lo a. induction n as [|n IH]; intros lo a Hn; cbn [seq foldl].
  - destruct (a !! j); [|done]. cbn [fmap option_fmap option_map]. destruct (Nat.leb_spec lo j), (Nat.ltb_spec j (lo + 0)); done || lia.
  - rewrite IH by (rewrite length_insert; lia). destruct (decide (j = lo)) as [->|Hne].
    + rewrite list_lookup_insert_eq by lia. destruct (lookup_lt_is_Some_2 a lo ltac:(lia)) as [x Hx].
      rewrite Hx, (list_lookup_total_correct _ _ _ Hx). cbn [fmap option_fmap option_map].
      destruct (Nat.leb_spec (S lo) lo), (Nat.leb_spec lo lo), (Nat.ltb_spec lo (lo + S n)); done || lia.
    + rewrite list_lookup_insert_ne by done. destruct (a !! j); [|done]. cbn [fmap option_fmap option_map].
      destruct (Nat.leb_spec (S lo) j), (Nat.leb_spec lo j), (Nat.ltb_spec j (S lo + n)), (Nat.ltb_spec j (lo + S n));
        cbn [andb]; done || lia.
Qed.

Lemma length_xor_range lo n buf a : (lo + n ≤ length a)%nat → length (xor_range lo (lo + n) buf a) = length a.
Proof.
  unfold xor_range. replace (lo + n - lo)%nat with n by lia. revert lo a.
  induction n as [|n IH]; intros lo a Hn; [done|]. cbn [seq foldl]. rewrite IH; rewrite length_insert; lia.
Qed.

Lemma xor_range_app lo n k buf a : xor_range (lo + n) (lo + n + k) buf (xor_range lo (lo + n) buf a) = xor_range lo (lo + (n + k)) buf a.
Proof.
  unfold xor_range. rewrite <- foldl_app. f_equal. replace (lo + n + k - (lo + n))%nat with k by lia.
  replace (lo + n - lo)%nat with n by lia. replace (lo + (n + k) - lo)%nat with (n + k)%nat by lia. by rewrite seq_app.
Qed.

Lemma xorInUnaligned_range a buf n : length buf = n → n ∈ [72; 104; 136; 144; 168]%nat → xorInUnaligned a buf = xor_range 0 (0 + n / 8) buf a.
Proof.
  intros Hl Hn. unfold xorInUnaligned. rewrite Hl.
  repeat (apply elem_of_cons in Hn as [->|Hn]); [..|by apply elem_of_nil in Hn]; clear Hl;
    cbn [Nat.leb]; rewrite ?(xor_range_app 0 9 4), ?(xor_range_app 0 13 4), ?(xor_range_app 0 17 1), ?(xor_range_app 0 18 3); reflexivity.
Qed.

Lemma xorIn_agree a buf n : length a = 25%nat → length buf = n → n ∈ [72; 104; 136; 144; 168]%nat →
  xorInUnaligned a buf = xorInGeneric a buf.
Proof.
  intros Ha Hl Hn. rewrite (xorInUnaligned_range a buf n) by done.
  assert (n mod 8 = 0 ∧ n ≤ 168)%nat as [H8 Hmax].
  { repeat (apply elem_of_cons in Hn as [->|Hn]); [..|by apply elem_of_nil in Hn]; split; (reflexivity || lia). }
  pose proof (Nat.div_mod_eq n 8). rewrite xorInGeneric_block by (rewrite ?Hl, ?Ha; done || lia).
  apply list_eq. intros j. unfold xor_block. rewrite xor_range_lookup, list_lookup_imap by lia. destruct (a !! j); [|done].
  cbn [fmap option_fmap option_map]. rewrite Hl. destruct (Nat.leb_spec 0 j), (Nat.ltb_spec j (0 + n / 8)), (Nat.ltb_spec (8 * j) n);
    cbn [andb]; done || lia.
Qed.

Lemma copyOut_agree a b : length a = 25%nat → (length b ≤ maxRate)%nat → (length b mod 8 = 0)%nat → copyOutUnaligned a b = copyOutGeneric a b.
Proof.
  intros Ha Hb H8. unfold maxRate in *. rewrite copyOutGeneric_bytes by (rewrite ?Ha; done || lia).
  unfold copyOutUnaligned, maxRate. assert (length (take 168 (concat (put64 <$> a))) = 168%nat) as Hl.
  { rewrite length_take, length_put64s, Ha. done. }
  rewrite Hl, (drop_ge b), app_nil_r, take_take by lia. by rewrite Nat.min_l by lia.
Qed.


(** C27. The permutation of keccakf.go, four unrolled rounds on lanes that stay
    in place, is the permutation of the standard: theta, rho, pi, chi and iota,
    with the offsets and round constants that the standard generates. *)
Theorem keccakF1600_correct a : length a = 25%nat → keccakF1600 a = keccak_f a.
Proof. apply keccakF1600_is. Qed.

Lemma keccakF1600_correct_witness : keccakF1600 (replicate 25 0) = keccak_f (replicate 25 0).
Proof. apply (keccakF1600_correct (replicate 25 0)). reflexivity. Defined.

(** C28. For every hash of the package, a message may be written in any pieces:
    no write panics, and the sum, appended to the given slice, is the sponge
    function of the standard on the whole message. *)
Theorem pieces_hash_correct ps inp :
  Forall (fun d0 => ∃ d, write_all ps d0 = Ok d ∧
      Sum inp d = Ok (inp ++ sponge (st_rate d0) (st_dsbyte d0) (concat ps) (st_outputLen d0)))
    [NewKeccak256; NewKeccak512; New224; New256; New384; New512].
Proof. repeat (apply Forall_cons_2; [apply pieces_hash; (reflexivity || (unfold maxRate; cbn; lia))|]). apply Forall_nil_2. Qed.

(** On machines where the lanes are reached through memory, the two
    replacement routines do what the portable ones do, for the five rates. *)
Theorem unaligned_agrees a buf :
  length a = 25%nat → length buf ∈ [72; 104; 136; 144; 168]%nat →
  xorInUnaligned a buf = xorInGeneric a buf ∧ copyOutUnaligned a buf = copyOutGeneric a buf.
Proof.
  intros Ha Hn. split; [by apply (xorIn_agree a buf (length buf))|].
  apply copyOut_agree; [done|..]; unfold maxRate;
    repeat (apply elem_of_cons in Hn as [->|Hn]); try (reflexivity || lia); by apply elem_of_nil in Hn.
Qed.

Lemma unaligned_agrees_witness :
  xorInUnaligned (replicate 25 1) (replicate 136 7) = xorInGeneric (replicate 25 1) (replicate 136 7) ∧
  copyOutUnaligned (replicate 25 1) (replicate 136 7) = copyOutGeneric (replicate 25 1) (replicate 136 7).
Proof.
  apply (unaligned_agrees (replicate 25 1) (replicate 136 7)); [reflexivity|]. rewrite length_replicate.
  do 2 apply list_elem_of_further. apply list_elem_of_here.
Defined.

Lemma clone_squeezing rate ds out d a pos : (rate ≤ maxRate)%nat → squeezing rate ds out d a pos →
  clone d = if (pos <? maxRate - rate)%nat then Panic
            else Ok (set_buf (Some (pos - (maxRate - rate), rate - (pos - (maxRate - rate)))%nat) d).
Proof.
  intros Hr [[Hrate _ _ _] Hd _ _ Hp Hb _]. unfold clone. rewrite Hd, Hrate.
  assert (buf_cap d = (maxRate - pos)%nat) as -> by (unfold buf_cap; by rewrite Hb).
  destruct (Nat.ltb_spec pos (maxRate - rate)) as [Hlt|Hle].
  - unfold reslice. rewrite (proj2 (Z.leb_gt 0 _)) by lia. done.
  - rewrite <- (reslice_ok (pos - (maxRate - rate)) rate) by lia. f_equal. lia.
Qed.

(** Copying a SHAKE-256 sponge that has given out [k] bytes goes wrong: the
    copy is cut from the storage as if the rate were 168 bytes.  With [pos] the
    bytes used of the current block, it panics for [pos] below 32, and otherwise
    gives a sponge that repeats the last 32 bytes. *)
Theorem clone_after_Read ps k :
  ∃ d d' out, write_all ps NewShake256 = Ok d ∧ Read k d = Ok (d', out) ∧
    let pos := (k mod 136)%nat in
    st_buf d' = Some (pos, 136 - pos)%nat ∧
    clone d' = if (pos <? 32)%nat then Panic else Ok (set_buf (Some (pos - 32, 136 - (pos - 32)))%nat d').
Proof.
  assert (0 < 136 ∧ 136 ≤ maxRate ∧ 136 mod 8 = 0)%nat as (Hp & Hm & H8) by (unfold maxRate; split_and!; (reflexivity || lia)).
  destruct (write_all_ok 136 Hp Hm H8 0x1f 0 ps NewShake256 []) as (d & E & Hd); [by right|].
  destruct (Read_hashing 136 Hp Hm H8 0x1f 0 k d _ Hd) as (d' & a & pos & E' & Hsq & ->).
  exists d, d', (sponge 136 0x1f (concat ps) k). split; [done|]. split; [done|]. cbv zeta. split; [apply Hsq|].
  by rewrite (clone_squeezing 136 0x1f 0 d' a (k mod 136)).
Qed.

End sha3.

(** ** The hashes of the node (crypto.go) *)

Module crypto.

Definition Keccak256_sum (data : list (list Z)) : outcome Empty_set (list Z) :=
  d ← sha3.write_all data sha3.NewKeccak256; sha3.Sum [] d.

Definition Keccak512_sum (data : list (list Z)) : outcome Empty_set (list Z) :=
  d ← sha3.write_all data sha3.NewKeccak512; sha3.Sum [] d.

(** The sum is written into an array of 32 bytes. *)
Definition Keccak256Hash (data : list (list Z)) : outcome Empty_set Hash :=
  h ← Keccak256_sum data; Ok (take HashLength (h ++ zeroHash)).

Definition BytesToAddress (b : list Z) : Address :=
  let b := if (AddressLength <? length b)%nat then drop (length b - AddressLength) b else b in
  replicate (AddressLength - length b) 0 ++ b.

(** [CreateAddress]; an encoding error is ignored. *)
Definition CreateAddress (b : Address) (nonce : Z) : outcome Empty_set Address :=
  let data := match EncodeToBytes (VSlice [VBytes b; VUint nonce]) with Ok data => data | _ => [] end in
  h ← Keccak256_sum [data];
  Ok (BytesToAddress (drop 12 h)).

Definition secp256k1_N : Z := 0xfffffffffffffffffffffffffffffffebaaedce6af48a03bbfd25e8cd0364141.
Definition secp256k1_halfN : Z := secp256k1_N / 2.

Definition ValidateSignatureValues (v r s : Z) (homestead : bool) : bool :=
  if (r <? 1) || (s <? 1) then false
  else if homestead && (secp256k1_halfN <? s) then false
  else (r <? secp256k1_N) && (s <? secp256k1_N) && ((v =? 0) || (v =? 1)).

(** The sum never fails: it is the sponge of the standard. *)
Lemma Keccak256_ok data : Keccak256_sum data = Ok (sha3.sponge 136 0x01 (concat data) 32).
Proof.
  unfold Keccak256_sum. destruct (sha3.pieces_hash 136 ltac:(lia) ltac:(unfold sha3.maxRate; lia) eq_refl 0x01 32 data []) as (d & E & Hs).
  change (sha3.newState 136 32 1) with sha3.NewKeccak256 in E. rewrite E, bind_Ok, Hs. reflexivity.
Qed.

End crypto.

(** The hash function of the node, as the other components use it. *)
Definition goKeccak : Keccak :=
  {| Keccak256 b := match crypto.Keccak256_sum [b] with Ok h => h | _ => [] end |}.

Lemma length_squeeze rate k a : (rate ≤ 200)%nat → length a = 25%nat → length (sha3.squeeze rate k a) = (k * rate)%nat.
Proof.
  intros Hr. revert a. induction k as [|k IH]; intros a Ha; [done|]. cbn [sha3.squeeze].
  rewrite length_app, length_take, sha3.length_put64s, IH by apply sha3.length_keccak_f. lia.
Qed.

Lemma squeeze_bytes rate k a : is_bytes (sha3.squeeze rate k a).
Proof.
  revert a. induction k as [|k IH]; intros a; [constructor|]. cbn [sha3.squeeze]. apply Forall_app. split; [|apply IH].
  apply Forall_take, Forall_concat, Forall_fmap, Forall_true. intros x. apply sha3.put64_bytes.
Qed.

Lemma goKeccakLaws : @KeccakLaws goKeccak.
Proof.
  split; intros b; cbn [Keccak256 goKeccak]; rewrite crypto.Keccak256_ok; cbn [concat]; rewrite app_nil_r; unfold sha3.sponge.
  - rewrite length_take, length_squeeze by (lia || by apply sha3.length_absorb). reflexivity.
  - apply Forall_take, squeeze_bytes.
Qed.

(** Known answers: the hashes of the empty string and of "abc". *)
Example keccak256_empty :
  crypto.Keccak256_sum [] = Ok [0xc5; 0xd2; 0x46; 0x01; 0x86; 0xf7; 0x23; 0x3c; 0x92; 0x7e; 0x7d; 0xb2; 0xdc; 0xc7; 0x03; 0xc0;
                                0xe5; 0x00; 0xb6; 0x53; 0xca; 0x82; 0x27; 0x3b; 0x7b; 0xfa; 0xd8; 0x04; 0x5d; 0x85; 0xa4; 0x70].
Proof. vm_compute. reflexivity. Qed.

Example sha3_256_abc :
  sha3.Sum256 [97; 98; 99] = Ok [0x3a; 0x98; 0x5d; 0xa7; 0x4f; 0xe2; 0x25; 0xb2; 0x04; 0x5c; 0x17; 0x2d; 0x6b; 0xd3; 0x90; 0xbd;
                                 0x85; 0x5f; 0x08; 0x6e; 0x3e; 0x9d; 0x52; 0x5b; 0x46; 0xbf; 0xe2; 0x45; 0x11; 0x43; 0x15; 0x32].
Proof. vm_compute. reflexivity. Qed.
