(* ===== verification/DposEngine.v ===== *)
(** * The DPoS consensus engine (src/agreement/epvdpos/epvdpos.go, archive.go,
    epvapi.go, src/agreement/misc/forks.go)

    The state of the engine is the record [DPos]: configuration, database, the
    two caches, the proposals and the signing account.  Every method is a
    function from the state to the new state and its result.  What the methods
    call outside these files is a class each: Keccak-256 and public-key
    recovery, the cache library, the database, JSON of archives, the clock and
    the random source, and the chain that the engine reads. *)

From S2P Require Import Prelude Types Interfaces Rlp HeaderHash DposArchive.
From stdpp Require Import base tactics option list numbers gmap.
From Stdlib Require Import ZArith Lia.

#[local] Open Scope Z_scope.

(** ** Interfaces *)

(** [crypto.Ecrecover(hash, sig)]: the public key, or an error. *)
Class Crypto := { Ecrecover : Hash → list Z → res (list Z) }.

Definition set_config (cfg : DPosConfig) (s : Archive) : Archive :=
  mkArchive cfg (arc_Number s) (arc_Hash s) (arc_Signers s) (arc_Recents s) (arc_Votes s) (arc_Tally s).

(** [json.Marshal] and [json.Unmarshal] of an archive; the configuration and
    the signature cache are not exported fields. *)
Class ArchiveJSON := {
  json_Marshal : Archive → res (list Z);
  json_Unmarshal : list Z → res Archive;
  json_roundtrip : ∀ a b, json_Marshal a = Ok b →
    ∃ a', json_Unmarshal b = Ok a' ∧ ∀ cfg, set_config cfg a' = set_config cfg a
}.

(** The [n]-th reading of the clock, in milliseconds, and the [n]-th draw of
    [rand.Intn]. *)
Class Environment := {
  clock : nat → Z;
  global_Intn : nat → Z → Z;
  global_Intn_range : ∀ t n, 0 < n → 0 ≤ global_Intn t n < n
}.

(** [consensus.ChainReader]. *)
Class ChainReader := {
  chain_Config : ChainConfig;
  CurrentHeader : option Header;
  GetHeader : Hash → Z → option Header;
  GetHeaderByNumber : Z → option Header;
  GetHeaderByHash : Hash → option Header
}.

(** ** Constants *)

Definition checkpointInterval : Z := 1024.
Definition epochLength : Z := 30000.
Definition extraVanity : Z := 32.
Definition extraSeal : Z := 65.
Definition diffInTurn : Z := 2.
Definition diffNoTurn : Z := 1.
Definition futureTime_ms : Z := 5000.

Section Engine.
Context `{Keccak, Crypto, Rand, Database, ArchiveJSON, Environment}.
Context `{HRec : ARCCache Archive} `{HSig : ARCCache Address}.

Definition uncleHash : Hash := CalcUncleHash [].

(** ** State *)

Record DPos := mkDPos {
  c_config : DPosConfig;
  c_db : database;
  c_recents : @arc_cache _ HRec;
  c_signatures : @arc_cache _ HSig;
  c_proposals : gmap Address bool;
  c_signer : Address;
  c_signFn : option (Hash → res (list Z));
  c_tick : nat
}.

Definition set_db (x : database) (c : DPos) : DPos :=
  mkDPos (c_config c) x (c_recents c) (c_signatures c) (c_proposals c) (c_signer c) (c_signFn c) (c_tick c).
Definition set_recents (x : @arc_cache _ HRec) (c : DPos) : DPos :=
  mkDPos (c_config c) (c_db c) x (c_signatures c) (c_proposals c) (c_signer c) (c_signFn c) (c_tick c).
Definition set_signatures (x : @arc_cache _ HSig) (c : DPos) : DPos :=
  mkDPos (c_config c) (c_db c) (c_recents c) x (c_proposals c) (c_signer c) (c_signFn c) (c_tick c).
Definition set_proposals (x : gmap Address bool) (c : DPos) : DPos :=
  mkDPos (c_config c) (c_db c) (c_recents c) (c_signatures c) x (c_signer c) (c_signFn c) (c_tick c).
Definition set_tick (x : nat) (c : DPos) : DPos :=
  mkDPos (c_config c) (c_db c) (c_recents c) (c_signatures c) (c_proposals c) (c_signer c) (c_signFn c) x.

Definition New (config : DPosConfig) (db : database) : DPos :=
  let conf := if Epoch config =? 0 then mkDPosConfig (Period config) epochLength else config in
  mkDPos conf db arc_new arc_new ∅ zeroAddress None 0.

(** Methods: the state survives an error. *)
Definition EM (A : Type) : Type := DPos → DPos * res A.

#[export] Instance EM_mret : MRet EM := fun A a c => (c, Ok a).
#[export] Instance EM_mbind : MBind EM := fun A B f m c =>
  match m c with
  | (c, Ok a) => f a c
  | (c, Err e) => (c, Err e)
  | (c, Panic) => (c, Panic)
  end.

Definition lift {A} (r : res A) : EM A := fun c => (c, r).
Definition get {A} (f : DPos → A) : EM A := fun c => (c, Ok (f c)).
Definition modify (f : DPos → DPos) : EM unit := fun c => (f c, Ok tt).

(** [time.Now()] in milliseconds. *)
Definition Now : EM Z := fun c => (set_tick (S (c_tick c)) c, Ok (clock (c_tick c))).

(** [rand.Intn(n)] on the global source. *)
Definition randIntn (n : Z) : EM Z := fun c =>
  if n <=? 0 then (c, Panic) else (set_tick (S (c_tick c)) c, Ok (global_Intn (c_tick c) n)).

(** ** Recovering the signer *)

(** [copy(signer[:], b)] into a zero address. *)
Definition copyAddress (b : list Z) : Address := take AddressLength (b ++ zeroAddress).

(** The account whose key signed a hash. *)
Definition recoverAddress (sh : Hash) (signature : list Z) : res Address :=
  pubkey ← Ecrecover sh signature;
  pk ← slice pubkey 1 (strlen pubkey);
  addr ← slice (Keccak256 pk) 12 (strlen (Keccak256 pk));
  Ok (copyAddress addr).

(** The computation of [ecrecover] when the cache does not know the header. *)
Definition ecrecover_pure (header : Header) : res Address :=
  _ ← fail_if (strlen (hdr_Extra header) <? extraSeal) errMissingSignature;
  signature ← slice (hdr_Extra header) (strlen (hdr_Extra header) - extraSeal) (strlen (hdr_Extra header));
  sh ← sigHash header;
  recoverAddress sh signature.

#[export] Instance engineSeals : Seals :=
  {| header_Hash := Header_Hash; ecrecover_of := ecrecover_pure |}.

Definition ecrecover (header : Header) : EM Address := fun c =>
  let hash := Header_Hash header in
  let '(sigs, known) := arc_get hash (c_signatures c) in
  let c := set_signatures sigs c in
  match known with
  | Some address => (c, Ok address)
  | None =>
      match ecrecover_pure header with
      | Ok signer => (set_signatures (arc_add hash signer (c_signatures c)) c, Ok signer)
      | Err e => (c, Err e)
      | Panic => (c, Panic)
      end
  end.

Definition Author (header : Header) : EM Address := ecrecover header.

(** ** Archives: replay, disk *)

(** [apply], with the signers recovered through the cache. *)
Fixpoint applyHeaders_cached (s : Archive) (headers : list Header) : EM Archive :=
  match headers with
  | [] => mret s
  | header :: rest => fun c =>
      let '(c, recovered) := ecrecover header c in
      match applyHeaderWith s header recovered with
      | Ok s => applyHeaders_cached s rest c
      | Err e => (c, Err e)
      | Panic => (c, Panic)
      end
  end.

Definition apply_cached (s : Archive) (headers : list Header) : EM Archive :=
  match headers with
  | [] => mret s
  | h0 :: _ =>
      _ ← lift (contiguous headers);
      n0 ← lift (headerNumber h0);
      _ ← lift (fail_if (negb (n0 =? (arc_Number s + 1)%u64)) errInvalidVotingChain);
      archive ← applyHeaders_cached s headers;
      mret {| arc_config := arc_config archive;
              arc_Number := (arc_Number archive + Z.of_nat (length headers))%u64;
              arc_Hash := Header_Hash (default h0 (last headers));
              arc_Signers := arc_Signers archive;
              arc_Recents := arc_Recents archive;
              arc_Votes := arc_Votes archive;
              arc_Tally := arc_Tally archive |}
  end.

(** The bytes of "epvdpos-" followed by the hash. *)
Definition archiveKey (hash : Hash) : list Z := [101; 112; 118; 100; 112; 111; 115; 45] ++ hash.

(** [None] stands for every error of [loadArchive]: its caller only asks whether
    there was one. *)
Definition loadArchive (hash : Hash) : EM (option Archive) := fun c =>
  match db_Get (archiveKey hash) (c_db c) with
  | None => (c, Ok None)
  | Some blob =>
      match json_Unmarshal blob with
      | Ok a => (c, Ok (Some (set_config (c_config c) a)))
      | Err _ => (c, Ok None)
      | Panic => (c, Panic)
      end
  end.

(** A failing [Put] is some error of the database. *)
Definition errDatabase : error := errExternal 0.

Definition archive_store (a : Archive) : EM unit :=
  blob ← lift (json_Marshal a);
  (fun c =>
    match db_Put (archiveKey (arc_Hash a)) blob (c_db c) with
    | Some db => (set_db db c, Ok tt)
    | None => (c, Err errDatabase)
    end) : EM unit.

(** ** Header verification *)

Section WithChain.
Context `{ChainReader}.

Definition VerifyForkHashes (config : ChainConfig) (header : Header) (uncle : bool) : res unit :=
  if uncle then Ok tt
  else
    match EIP150Block config with
    | None => Ok tt
    | Some fork =>
        n ← deref (hdr_Number header);
        fail_if ((fork =? n) && negb (bool_decide (EIP150Hash config = zeroHash)) &&
                 negb (bool_decide (EIP150Hash config = Header_Hash header))) errForkHash
    end.

(** The methods below call [archive], which verifies the genesis header with
    them: they take it as the argument [rec]. *)
Definition archiveFn : Type := Z → Hash → list Header → EM Archive.

(** [for seen, recent := range arch.Recents { if recent == signer && seen > number-limit }]. *)
Definition signedRecently (s : Archive) (signer : Address) (number : Z) : bool :=
  bool_decide (map_Exists (fun seen recent => recent = signer ∧ (number - signerLimit s)%u64 < seen)
                          (arc_Recents s)).

Definition verifySeal_ (rec : archiveFn) (header : Header) (parents : list Header) : EM unit :=
  number ← lift (headerNumber header);
  _ ← lift (fail_if (number =? 0) errUnknownBlock);
  arch ← rec (number - 1)%u64 (hdr_ParentHash header) parents;
  signer ← ecrecover header;
  _ ← lift (fail_if (negb (bool_decide (signer ∈ arc_Signers arch))) errUnauthorized);
  _ ← lift (fail_if (signedRecently arch signer number) errUnauthorized);
  turn ← lift (inturn arch number signer (hdr_ParentHash header));
  difficulty ← lift (deref (hdr_Difficulty header));
  _ ← lift (fail_if (turn && negb (difficulty =? diffInTurn)) errInvalidDifficulty);
  lift (fail_if (negb turn && negb (difficulty =? diffNoTurn)) errInvalidDifficulty).

(** The signers in ascending order, one after the other. *)
Definition signersBytes (arch : Archive) : list Z := concat (signers arch).

(** The checks of [verifyCascadingFields] against the parent header. *)
Definition verifyParent (config : DPosConfig) (header : Header) (number : Z) (parent : option Header) : res unit :=
  match parent with
  | None => Err ErrUnknownAncestor
  | Some parent =>
      pnumber ← headerNumber parent;
      _ ← fail_if (negb (pnumber =? (number - 1)%u64) ||
                   negb (bool_decide (Header_Hash parent = hdr_ParentHash header))) ErrUnknownAncestor;
      ptime ← deref (hdr_TimeMS parent);
      time ← deref (hdr_TimeMS header);
      fail_if (big_Uint64 time <? (big_Uint64 ptime + Period config)%u64) ErrInvalidTimestamp
  end.

(** A checkpoint block lists the signers. *)
Definition verifyCheckpointSigners (config : DPosConfig) (header : Header) (number : Z) (arch : Archive)
    : res unit :=
  epochPos ← u64_rem number (Epoch config);
  if epochPos =? 0 then
    listed ← slice (hdr_Extra header) extraVanity (strlen (hdr_Extra header) - extraSeal);
    fail_if (negb (bool_decide (listed = signersBytes arch))) errInvalidCheckpointSigners
  else Ok tt.

Definition verifyCascadingFields_ (rec : archiveFn) (header : Header) (parents : list Header) : EM unit :=
  number ← lift (headerNumber header);
  if number =? 0 then mret tt
  else
    let parent := match last parents with
                  | Some parent => Some parent
                  | None => GetHeader (hdr_ParentHash header) (number - 1)%u64
                  end in
    config ← get c_config;
    _ ← lift (verifyParent config header number parent);
    arch ← rec (number - 1)%u64 (hdr_ParentHash header) parents;
    _ ← lift (verifyCheckpointSigners config header number arch);
    verifySeal_ rec header parents.

(** The checks of [verifyHeader] that need neither the chain nor the archive. *)
Definition verifyHeader_fields (config : DPosConfig) (now : Z) (header : Header) : res unit :=
  n ← deref (hdr_Number header);
  let number := big_Uint64 n in
  time ← deref (hdr_TimeMS header);
  _ ← fail_if (now + futureTime_ms <? time) ErrFutureBlock;
  epochPos ← u64_rem number (Epoch config);
  let checkpoint := epochPos =? 0 in
  _ ← fail_if (checkpoint && negb (bool_decide (hdr_Coinbase header = zeroAddress)))
              errInvalidCheckpointBeneficiary;
  _ ← fail_if (negb (bool_decide (hdr_Nonce header = nonceAuthVote)) &&
               negb (bool_decide (hdr_Nonce header = nonceDropVote))) errInvalidVote;
  _ ← fail_if (checkpoint && negb (bool_decide (hdr_Nonce header = nonceDropVote))) errInvalidCheckpointVote;
  let extra := strlen (hdr_Extra header) in
  _ ← fail_if (extra <? extraVanity) errMissingVanity;
  _ ← fail_if (extra <? extraVanity + extraSeal) errMissingSignature;
  let signersBytes := extra - extraVanity - extraSeal in
  _ ← fail_if (negb checkpoint && negb (signersBytes =? 0)) errExtraSigners;
  _ ← fail_if (checkpoint && negb (signersBytes mod Z.of_nat AddressLength =? 0)) errInvalidCheckpointSigners;
  _ ← fail_if (negb (bool_decide (hdr_MixDigest header = zeroHash))) errInvalidMixDigest;
  _ ← fail_if (negb (bool_decide (hdr_UncleHash header = uncleHash))) errInvalidUncleHash;
  _ ← fail_if ((0 <? number) && match hdr_Difficulty header with
                                | None => true
                                | Some d => negb (d =? diffInTurn) && negb (d =? diffNoTurn)
                                end) errInvalidDifficulty;
  VerifyForkHashes chain_Config header false.

Definition verifyHeader_ (rec : archiveFn) (header : Header) (parents : list Header) : EM unit :=
  match hdr_Number header with
  | None => lift (Err errUnknownBlock)
  | Some _ =>
      now ← Now;
      config ← get c_config;
      _ ← lift (verifyHeader_fields config now header);
      verifyCascadingFields_ rec header parents
  end.

(** ** The archive of a block *)

(** The signers in the extra-data of the genesis block. *)
Fixpoint splitAddresses (n : nat) (b : list Z) : list Address :=
  match n with
  | O => []
  | S n => copyAddress b :: splitAddresses n (drop AddressLength b)
  end.

(** The branch of [archive] for block 0. *)
Definition genesisArchive_ (rec : archiveFn) : EM Archive :=
  genesis ← lift (deref (GetHeaderByNumber 0));
  _ ← verifyHeader_ rec genesis [];
  config ← get c_config;
  let n := Z.to_nat ((strlen (hdr_Extra genesis) - extraVanity - extraSeal) / Z.of_nat AddressLength) in
  let signers := splitAddresses n (drop (Z.to_nat extraVanity) (hdr_Extra genesis)) in
  let arch := newArchive config 0 (Header_Hash genesis) signers in
  _ ← archive_store arch;
  mret arch.

(** A known archive: in the cache, or on disk at every [checkpointInterval]. *)
Definition archive_lookup (number : Z) (hash : Hash) : EM (option Archive) :=
  cached ← (fun c => let '(rs, r) := arc_get hash (c_recents c) in (set_recents rs c, Ok r)) : EM (option Archive);
  match cached with
  | Some arch => mret (Some arch)
  | None => if number mod checkpointInterval =? 0 then loadArchive hash else mret None
  end.

(** The header of a block: the last of the explicit parents if there are any,
    otherwise from the chain. *)
Definition archive_header (number : Z) (hash : Hash) (parents : list Header) : EM (Header * list Header) :=
  match last parents with
  | Some header =>
      hn ← lift (headerNumber header);
      _ ← lift (fail_if (negb (bool_decide (Header_Hash header = hash)) || negb (hn =? number))
                        ErrUnknownAncestor);
      mret (header, take (length parents - 1) parents)
  | None =>
      match GetHeader hash number with
      | Some header => mret (header, parents)
      | None => lift (Err ErrUnknownAncestor)
      end
  end.

(** The loop of [archive], from a block back to one whose archive is known:
    that archive and the headers after it.  It ends at block 0, so the block
    number bounds the iterations. *)
Fixpoint archive_walk (rec : archiveFn) (fuel : nat) (number : Z) (hash : Hash)
    (parents headers : list Header) : EM (Archive * list Header) :=
  match fuel with
  | O => lift Panic
  | S fuel =>
      known ← archive_lookup number hash;
      match known with
      | Some arch => mret (arch, headers)
      | None =>
          if number =? 0 then arch ← genesisArchive_ rec; mret (arch, headers)
          else
            '(header, parents) ← archive_header number hash parents;
            archive_walk rec fuel (number - 1) (hdr_ParentHash header) parents (headers ++ [header])
      end
  end.

(** [fuel] bounds the recursion through the verification of the genesis header;
    the walk itself needs [number + 1] iterations. *)
Fixpoint archive (fuel : nat) : archiveFn := fun number hash parents =>
  match fuel with
  | O => lift Panic
  | S fuel =>
      '(arch, headers) ← archive_walk (archive fuel) (S (Z.to_nat number)) number hash parents [];
      arch ← apply_cached arch (reverse headers);
      _ ← modify (fun c => set_recents (arc_add (arc_Hash arch) arch (c_recents c)) c);
      _ ← (if (arc_Number arch mod checkpointInterval =? 0) && (0 <? strlen headers)
           then archive_store arch else mret tt);
      mret arch
  end.

(** Two levels are enough when the genesis header has number 0. *)
Definition c_archive : archiveFn := archive 2.

Definition verifyHeader : Header → list Header → EM unit := verifyHeader_ c_archive.
Definition VerifyHeader (header : Header) : EM unit := verifyHeader header [].
Definition VerifySeal (header : Header) : EM unit := verifySeal_ c_archive header [].

(** The goroutine of [VerifyHeaders]: each header against the ones before it;
    [sent] results are delivered before the caller aborts. *)
Fixpoint VerifyHeaders (before headers : list Header) (sent : nat) : DPos → DPos * list (res unit) :=
  match sent, headers with
  | S sent, header :: headers => fun c =>
      let '(c, err) := verifyHeader header before c in
      let '(c, errs) := VerifyHeaders (before ++ [header]) headers sent c in
      (c, err :: errs)
  | _, _ => fun c => (c, [])
  end.

Definition VerifyUncles (uncles : list Header) : res unit :=
  fail_if (0 <? strlen uncles) errUnclesNotAllowed.

(** ** Block production *)

Definition calcDifficulty (arch : Archive) (signer : Address) : res Z :=
  turn ← inturn arch (arc_Number arch + 1)%u64 signer (arc_Hash arch);
  Ok (if (turn : bool) then diffInTurn else diffNoTurn).

(** The result is nil when the archive of the parent cannot be had. *)
Definition CalcDifficulty (parent : Header) : EM (option Z) := fun c =>
  match headerNumber parent with
  | Ok pnumber =>
      match c_archive pnumber (Header_Hash parent) [] c with
      | (c, Ok arch) =>
          match calcDifficulty arch (c_signer c) with
          | Ok d => (c, Ok (Some d))
          | Err e => (c, Err e)
          | Panic => (c, Panic)
          end
      | (c, Err _) => (c, Ok None)
      | (c, Panic) => (c, Panic)
      end
  | _ => (c, Panic)
  end.

Definition set_vote (coinbase : Address) (nonce : BlockNonce) (h : Header) : Header :=
  mkHeader (hdr_ParentHash h) (hdr_UncleHash h) coinbase (hdr_Root h) (hdr_TxHash h) (hdr_ReceiptHash h)
    (hdr_Bloom h) (hdr_Difficulty h) (hdr_Number h) (hdr_GasLimit h) (hdr_GasUsed h) (hdr_TimeMS h)
    (hdr_Extra h) (hdr_MixDigest h) nonce.

Definition set_prepared (difficulty : Z) (extra : list Z) (time : Z) (h : Header) : Header :=
  mkHeader (hdr_ParentHash h) (hdr_UncleHash h) (hdr_Coinbase h) (hdr_Root h) (hdr_TxHash h) (hdr_ReceiptHash h)
    (hdr_Bloom h) (Some difficulty) (hdr_Number h) (hdr_GasLimit h) (hdr_GasUsed h) (Some time)
    extra zeroHash (hdr_Nonce h).

(** The vote that [Prepare] puts in a header: a random one of the proposals
    that the archive would count, none in a checkpoint block. *)
Definition prepareVote (arch : Archive) (epochPos : Z) (header : Header) : EM Header :=
  let header := set_vote zeroAddress (replicate 8 0) header in
  if epochPos =? 0 then mret header
  else
    proposals ← get c_proposals;
    let addresses := (fst <$> filter (fun av : Address * bool => validVote arch av.1 av.2 = true) (map_to_list proposals) : list Address) in
    if 0 <? strlen addresses then
      i ← randIntn (strlen addresses);
      coinbase ← lift (deref (addresses !! Z.to_nat i));
      mret (set_vote coinbase (if default false (proposals !! coinbase) then nonceAuthVote else nonceDropVote) header)
    else mret header.

(** The extra-data of a prepared header: vanity, signers, room for the seal. *)
Definition prepareExtra (arch : Archive) (epochPos : Z) (extra : list Z) : list Z :=
  take (Z.to_nat extraVanity) (extra ++ replicate (Z.to_nat extraVanity - length extra) 0)
  ++ (if epochPos =? 0 then signersBytes arch else [])
  ++ replicate (Z.to_nat extraSeal) 0.

(** The time of a prepared header: a period after its parent, or the present
    when that is past. *)
Definition prepareTime (time : Z) : EM Z :=
  now ← Now;
  if big_Int64 time <? now then Now else mret time.

Definition Prepare (header : Header) : EM Header :=
  number ← lift (headerNumber header);
  arch ← c_archive (number - 1)%u64 (hdr_ParentHash header) [];
  config ← get c_config;
  epochPos ← lift (u64_rem number (Epoch config));
  header ← prepareVote arch epochPos header;
  signer ← get c_signer;
  difficulty ← lift (calcDifficulty arch signer);
  match GetHeader (hdr_ParentHash header) (number - 1)%u64 with
  | None => lift (Err ErrUnknownAncestor)
  | Some parent =>
      ptime ← lift (deref (hdr_TimeMS parent));
      time ← prepareTime (ptime + Period config);
      mret (set_prepared difficulty (prepareExtra arch epochPos (hdr_Extra header)) time header)
  end.

(** [Finalize]: [root] is the state root, and [txHash], [receiptHash] and
    [bloom] are what [types.NewBlock] derives from the transactions and
    receipts. *)
Definition Finalize (root txHash receiptHash : Hash) (bloom : list Z) (header : Header) : Header :=
  let h := CopyHeader header in
  mkHeader (hdr_ParentHash h) uncleHash (hdr_Coinbase h) root txHash receiptHash bloom
    (hdr_Difficulty h) (hdr_Number h) (hdr_GasLimit h) (hdr_GasUsed h) (hdr_TimeMS h)
    (hdr_Extra h) (hdr_MixDigest h) (hdr_Nonce h).

Definition Authorize (signer : Address) (signFn : Hash → res (list Z)) (c : DPos) : DPos :=
  mkDPos (c_config c) (c_db c) (c_recents c) (c_signatures c) (c_proposals c) signer (Some signFn) (c_tick c).

Definition set_Extra (extra : list Z) (h : Header) : Header :=
  mkHeader (hdr_ParentHash h) (hdr_UncleHash h) (hdr_Coinbase h) (hdr_Root h) (hdr_TxHash h) (hdr_ReceiptHash h)
    (hdr_Bloom h) (hdr_Difficulty h) (hdr_Number h) (hdr_GasLimit h) (hdr_GasUsed h) (hdr_TimeMS h)
    extra (hdr_MixDigest h) (hdr_Nonce h).

(** [copy(header.Extra[len(header.Extra)-extraSeal:], sighash)]. *)
Definition putSeal (header : Header) (sighash : list Z) : res Header :=
  let extra := hdr_Extra header in
  let seal := strlen extra - extraSeal in
  room ← slice extra seal (strlen extra);
  let n := Nat.min (length room) (length sighash) in
  Ok (set_Extra (take (Z.to_nat seal) extra ++ take n sighash ++ drop n room) header).

(** [number < limit || seen > number-limit] for a recent block of the signer. *)
Definition mustWait (s : Archive) (signer : Address) (number : Z) : bool :=
  bool_decide (map_Exists (fun seen recent => recent = signer ∧
                 (number < signerLimit s ∨ (number - signerLimit s)%u64 < seen)) (arc_Recents s)).

(** [Seal]; [ntxs] is the number of transactions of the block, [stopped] tells
    whether the stop channel fires before the delay is over.  [None] is the nil
    block of an interrupted sealing. *)
Definition Seal (block : Header) (ntxs : Z) (stopped : bool) : EM (option Header) :=
  let header := CopyHeader block in
  number ← lift (headerNumber header);
  _ ← lift (fail_if (number =? 0) errUnknownBlock);
  config ← get c_config;
  _ ← lift (fail_if ((Period config =? 0) && (ntxs =? 0)) errWaitTransactions);
  signer ← get c_signer;
  signFn ← get c_signFn;
  arch ← c_archive (number - 1)%u64 (hdr_ParentHash header) [];
  _ ← lift (fail_if (negb (bool_decide (signer ∈ arc_Signers arch))) errUnauthorized);
  if mustWait arch signer number then mret None
  else if stopped then mret None
  else
    signFn ← lift (deref signFn);
    sh ← lift (sigHash header);
    sighash ← lift (signFn sh);
    header ← lift (putSeal header sighash);
    mret (Some header).

(** How long [Seal] waits, in nanoseconds: until the block time, plus a random
    [wiggle] of up to 500 ms on top of 100 ms when it is not the signer's turn. *)
Definition sealDelay (now_ns wiggle : Z) (header : Header) : res Z :=
  time ← deref (hdr_TimeMS header);
  difficulty ← deref (hdr_Difficulty header);
  let delay := i64 (i64 (big_Int64 time * 1000000) - now_ns) in
  Ok (if difficulty =? diffNoTurn then i64 (delay + (100000000 + wiggle)) else delay).

(** ** The API (epvapi.go) *)

(** A block by number; nil and -1 are the latest one. *)
Definition apiHeader (number : option Z) : option Header :=
  match number with
  | None => CurrentHeader
  | Some n => if n =? -1 then CurrentHeader else GetHeaderByNumber (u64 n)
  end.

Definition archiveOf (header : option Header) : EM Archive :=
  match header with
  | None => lift (Err errUnknownBlock)
  | Some header =>
      number ← lift (headerNumber header);
      c_archive number (Header_Hash header) []
  end.

Definition GetArchive (number : option Z) : EM Archive := archiveOf (apiHeader number).
Definition GetArchiveAtHash (hash : Hash) : EM Archive := archiveOf (GetHeaderByHash hash).
Definition GetSigners (number : option Z) : EM (list Address) :=
  arch ← GetArchive number; mret (signers arch).
Definition GetSignersAtHash (hash : Hash) : EM (list Address) :=
  arch ← GetArchiveAtHash hash; mret (signers arch).

Definition Propose (address : Address) (auth : bool) (c : DPos) : DPos :=
  set_proposals (<[address := auth]> (c_proposals c)) c.
Definition Discard (address : Address) (c : DPos) : DPos :=
  set_proposals (delete address (c_proposals c)) c.
Definition Proposals (c : DPos) : gmap Address bool := c_proposals c.

End WithChain.

End Engine.
