(* ===== verification/DposEngineSpec.v ===== *)
(** * The DPoS engine: caches, disk and replay

    What [archive] returns for a block is the replay of the chain from the
    genesis block, whatever the two caches and the database hold, and the
    caches and the database stay coherent. *)

From S2P Require Import Prelude Types Interfaces Rlp HeaderHash DposArchive DposVoting DposReplay DposEngine.
From stdpp Require Import base tactics option list numbers gmap.
From Stdlib Require Import ZArith Lia.

#[local] Open Scope Z_scope.

Section Spec.
Context `{Keccak, Crypto, Rand, Database, ArchiveJSON, Environment}.
Context `{HRec : ARCCache Archive} `{HSig : ARCCache Address}.
Context `{ChainReader}.

(** The headers in play: [U] holds those that the chain or a peer presents, and
    [g] is the genesis header.  Among them Keccak-256 does not collide, and the
    numbers do not reach the end of the [uint64] range. *)
Context (U : Header → Prop) (g : Header) (cfg : DPosConfig).

Record universe : Prop := {
  U_genesis : U g;
  U_inj : ∀ h1 h2, U h1 → U h2 → Header_Hash h1 = Header_Hash h2 → h1 = h2;
  U_number : ∀ h, U h → ∃ n, headerNumber h = Ok n ∧ 0 ≤ n < maxU64;
  U_genesis_number : headerNumber g = Ok 0;
  U_root : ∀ h, U h → headerNumber h = Ok 1 → hdr_ParentHash h = Header_Hash g;
  (** [GetHeader] returns a header with the hash and the number asked for. *)
  U_chain : ∀ hash n h, GetHeader hash n = Some h →
    U h ∧ Header_Hash h = hash ∧ headerNumber h = Ok n;
  U_chain_genesis : GetHeaderByNumber 0 = Some g
}.

(** The archive of the genesis block. *)
Definition genesis_archive : Archive :=
  newArchive cfg 0 (Header_Hash g)
    (splitAddresses
       (Z.to_nat ((strlen (hdr_Extra g) - extraVanity - extraSeal) / Z.of_nat AddressLength))
       (drop (Z.to_nat extraVanity) (hdr_Extra g))).

(** The archive of a block, by replay along the chain. *)
Inductive block_archive : Hash → Archive → Prop :=
| ba_genesis : block_archive (Header_Hash g) genesis_archive
| ba_step h a a' :
    U h → block_archive (hdr_ParentHash h) a → archive_apply a [h] = Ok a' →
    block_archive (Header_Hash h) a'.

(** Coherence of the engine: every signature, archive and record it keeps is
    the right one. *)
Record engine_ok (c : DPos) : Prop := {
  ok_config : c_config c = cfg;
  ok_sigs : ∀ k a, arc_holds (c_signatures c) k a →
    ∃ h, U h ∧ Header_Hash h = k ∧ ecrecover_pure h = Ok a;
  ok_recents : ∀ k a, arc_holds (c_recents c) k a → block_archive k a;
  ok_db : ∀ k blob a, db_Get (archiveKey k) (c_db c) = Some blob → json_Unmarshal blob = Ok a →
    block_archive k (set_config cfg a)
}.

(** What no method but [Authorize] and the API changes. *)
Definition same_account (c c' : DPos) : Prop :=
  c_proposals c' = c_proposals c ∧ c_signer c' = c_signer c ∧ c_signFn c' = c_signFn c.

Lemma same_account_trans c1 c2 c3 : same_account c1 c2 → same_account c2 c3 → same_account c1 c3.
Proof. unfold same_account. intros (-> & -> & ->) (-> & -> & ->). done. Qed.

Lemma EM_bind_eq {A B} (m : EM A) (f : A → EM B) c :
  (m ≫= f) c = match m c with
               | (c, Ok a) => f a c
               | (c, Err e) => (c, Err e)
               | (c, Panic) => (c, Panic)
               end.
Proof. reflexivity. Qed.

Context (HU : universe).

(** ** The signature cache *)

Lemma ecrecover_spec h c : engine_ok c → U h →
  ∃ c', ecrecover h c = (c', ecrecover_pure h) ∧ engine_ok c' ∧ same_account c c' ∧
        c_tick c' = c_tick c ∧ c_recents c' = c_recents c ∧ c_db c' = c_db c.
Proof.
  intros [] Uh. unfold ecrecover.
  destruct (arc_get (Header_Hash h) (c_signatures c)) as [sigs [a|]] eqn:E.
  - exists (set_signatures sigs c).
    destruct (ok_sigs0 _ _ (arc_get_holds _ _ _ _ E)) as (h' & Uh' & Eh & Ea).
    apply (U_inj HU) in Eh as ->; [|done|done]. rewrite Ea. split_and!; try done.
    split; try done. intros k v Hv. eapply ok_sigs0, arc_get_frame; [exact E|exact Hv].
  - destruct (ecrecover_pure h) as [a|e|] eqn:Ea.
    + eexists. split; [reflexivity|]. split_and!; try done. split; try done. cbn.
      intros k v [[-> ->]|Hv]%arc_add_frame; [by exists h|].
      eapply ok_sigs0, arc_get_frame; [exact E|exact Hv].
    + eexists. split; [reflexivity|]. split_and!; try done. split; try done.
      intros k v Hv. eapply ok_sigs0, arc_get_frame; [exact E|exact Hv].
    + eexists. split; [reflexivity|]. split_and!; try done. split; try done.
      intros k v Hv. eapply ok_sigs0, arc_get_frame; [exact E|exact Hv].
Qed.

Lemma applyHeaders_cached_spec hs s c : engine_ok c → Forall U hs →
  ∃ c', applyHeaders_cached s hs c = (c', applyHeaders s hs) ∧ engine_ok c' ∧ same_account c c' ∧
        c_tick c' = c_tick c.
Proof.
  intros Hc Hhs. revert s c Hc. induction Hhs as [|h hs Uh _ IH]; intros s c Hc; cbn.
  - by exists c.
  - destruct (ecrecover_spec h c Hc Uh) as (c1 & -> & Hc1 & Ha & Ht & _).
    unfold applyHeader. cbn [ecrecover_of engineSeals].
    destruct (applyHeaderWith s h (ecrecover_pure h)) as [s1|e|]; [|by exists c1|by exists c1].
    destruct (IH s1 c1 Hc1) as (c2 & -> & Hc2 & Ha2 & Ht2). exists c2.
    split_and!; [done|done|by eapply same_account_trans|congruence].
Qed.

(** Replaying through the signature cache is replaying. *)
Lemma apply_cached_spec hs s c : engine_ok c → Forall U hs →
  ∃ c', apply_cached s hs c = (c', archive_apply s hs) ∧ engine_ok c' ∧ same_account c c' ∧
        c_tick c' = c_tick c.
Proof.
  intros Hc Hhs. destruct hs as [|h0 hs]; [by exists c|]. unfold apply_cached, archive_apply.
  rewrite EM_bind_eq. unfold lift at 1. destruct (contiguous (h0 :: hs)) as [[]|e|]; [|by exists c|by exists c].
  rewrite EM_bind_eq. unfold lift at 1. rewrite !bind_Ok.
  destruct (headerNumber h0) as [n0|e|]; [|by exists c|by exists c]. rewrite bind_Ok, EM_bind_eq.
  unfold lift at 1. destruct (fail_if _ _) as [[]|e|]; [|by exists c|by exists c].
  rewrite bind_Ok, EM_bind_eq.
  destruct (applyHeaders_cached_spec (h0 :: hs) s c Hc Hhs) as (c1 & -> & Hc1 & Ha & Ht).
  exists c1. by destruct (applyHeaders s (h0 :: hs)) as [a|e|].
Qed.

(** ** The archive of a block is unique *)

Lemma apply_one a h a' : archive_apply a [h] = Ok a' →
  headerNumber h = Ok (arc_Number a + 1)%u64 ∧ arc_Number a' = (arc_Number a + 1)%u64 ∧
  arc_Hash a' = Header_Hash h ∧ arc_config a' = arc_config a.
Proof.
  intros ([Hn _] & a1 & Ha & ->)%archive_apply_ok. split; [done|].
  destruct (applyHeaders_head _ _ _ Ha) as [E1 E2]. cbn. rewrite E1. split_and!; [done|done|].
  cbn in Ha. apply bind_ok in Ha as (a2 & Ha & [= <-]).
  by apply applyHeader_config in Ha.
Qed.

Lemma block_archive_facts k a : block_archive k a →
  arc_Hash a = k ∧ arc_config a = cfg ∧ 0 ≤ arc_Number a < maxU64 ∧
  ∃ h, U h ∧ Header_Hash h = k ∧ headerNumber h = Ok (arc_Number a).
Proof.
  induction 1 as [|h a a' Uh _ (IH1 & IH2 & IH3 & _) Ha].
  - split_and!; [done|done|done|done|]. exists g. split_and!; [apply HU|done|apply HU].
  - destruct (apply_one a h a' Ha) as (Hn & Hn' & Hh & Hc).
    destruct (U_number HU h Uh) as (n & En & Hb). rewrite Hn in En. injection En as <-.
    rewrite Hn'. split_and!; [done|congruence|lia|lia|]. by exists h.
Qed.

(** The chain below a block, newest header first. *)
Inductive chain_down : Hash → list Header → Hash → Prop :=
| cd_nil k : chain_down k [] k
| cd_cons h hs k0 : U h → chain_down (hdr_ParentHash h) hs k0 → chain_down (Header_Hash h) (h :: hs) k0.

Lemma chain_down_U k hs k0 : chain_down k hs k0 → Forall U hs.
Proof. by induction 1; constructor. Qed.

Lemma chain_down_app k hs1 k1 hs2 k0 :
  chain_down k hs1 k1 → chain_down k1 hs2 k0 → chain_down k (hs1 ++ hs2) k0.
Proof. induction 1; [done|]. cbn. by constructor; [|auto]. Qed.

Lemma block_number_u64 k a : block_archive k a → is_u64 (arc_Number a).
Proof. intros (_ & _ & ? & _)%block_archive_facts. unfold is_u64, two64, maxU64 in *. lia. Qed.

(** Replaying the headers below a block from the archive of an ancestor gives
    the archive of the block. *)
Lemma block_archive_down k hs k0 a0 a : chain_down k hs k0 → block_archive k0 a0 →
  archive_apply a0 (reverse hs) = Ok a → block_archive k a.
Proof.
  intros Hd. revert a. induction Hd as [k|h hs k0 Uh _ IH]; intros a Hb.
  - cbn. by intros [= <-].
  - rewrite reverse_cons. intros Hr.
    apply archive_apply_cut in Hr as (a1 & Hr1 & Hr2); [|by eapply block_number_u64].
    eapply ba_step; [done|by apply IH|done].
Qed.

Lemma block_archive_unique k a1 a2 : block_archive k a1 → block_archive k a2 → a1 = a2.
Proof.
  intros Hb1. revert a2. induction Hb1 as [|h a a' Uh Hp IH Ha]; intros a2 Hb2.
  - inversion Hb2 as [|h b b' Uh Hb Hb' Ek]; [done|]. exfalso.
    apply (U_inj HU) in Ek as ->; [|done|apply HU].
    destruct (apply_one b g _ Hb') as (Hn & _). rewrite (U_genesis_number HU) in Hn.
    injection Hn as Hn. apply block_archive_facts in Hb as (_ & _ & Hb & _).
    rewrite u64_small in Hn by (unfold is_u64, two64, maxU64 in *; lia). lia.
  - inversion Hb2 as [Ek|h' b b' Uh' Hb Hb' Ek]; subst.
    + exfalso. apply (U_inj HU) in Ek as <-; [|apply HU|done].
      destruct (apply_one a g _ Ha) as (Hn & _). rewrite (U_genesis_number HU) in Hn.
      injection Hn as Hn. apply block_archive_facts in Hp as (_ & _ & Hb & _).
      rewrite u64_small in Hn by (unfold is_u64, two64, maxU64 in *; lia). lia.
    + apply (U_inj HU) in Ek as ->; [|done|done]. apply IH in Hb as ->. congruence.
Qed.

(** The archive of a block whose chain does not pass below the genesis block is
    the replay of that chain. *)
Lemma block_archive_replay k hs a :
  chain_down k hs (Header_Hash g) → Forall (fun h => headerNumber h ≠ Ok 0) hs →
  block_archive k a → archive_apply genesis_archive (reverse hs) = Ok a.
Proof.
  remember (Header_Hash g) as k0 eqn:Ek. intros Hd. revert a.
  induction Hd as [k|h hs k0 Uh _ IH]; subst; intros a Hhs Hb.
  - by rewrite (block_archive_unique _ _ _ ba_genesis Hb).
  - apply Forall_cons in Hhs as [Hh Hhs]. inversion Hb as [Eg|h' b b' Uh' Hb0 Hb' Eh]; subst.
    + apply (U_inj HU) in Eg as <-; [|apply HU|done]. by rewrite (U_genesis_number HU) in Hh.
    + apply (U_inj HU) in Eh as ->; [|done|done]. rewrite reverse_cons.
      apply archive_apply_cut; [done|]. exists b. split; [by apply IH|done].
Qed.

(** ** Disk *)

Lemma set_config_id a : arc_config a = cfg → set_config cfg a = a.
Proof. destruct a. cbn. by intros <-. Qed.

Lemma archiveKey_inj k1 k2 : archiveKey k1 = archiveKey k2 → k1 = k2.
Proof. apply app_inv_head. Qed.

Lemma archive_store_spec a c : engine_ok c → block_archive (arc_Hash a) a →
  ∃ c' r, archive_store a c = (c', r) ∧ engine_ok c' ∧ same_account c c' ∧
          c_recents c' = c_recents c ∧ c_tick c' = c_tick c.
Proof.
  intros Hc Ha. unfold archive_store. rewrite EM_bind_eq. unfold lift.
  destruct (json_Marshal a) as [blob|e|] eqn:Ej; [|by exists c; eexists|by exists c; eexists].
  destruct (db_Put _ _ _) as [db|] eqn:Ep; [|by exists c; eexists].
  do 2 eexists. split; [reflexivity|]. split_and!; try done. destruct Hc. split; try done.
  intros k blob' a' Hg Hu. change (db_Get (archiveKey k) db = Some blob') in Hg. rewrite (db_Put_Get _ _ _ _ (archiveKey k) Ep) in Hg.
  destruct (decide _) as [Ek|]; [|by eapply ok_db0].
  apply archiveKey_inj in Ek as ->. injection Hg as <-.
  destruct (json_roundtrip a blob Ej) as (a'' & Hu' & Hcfg). rewrite Hu in Hu'. injection Hu' as <-.
  rewrite Hcfg, set_config_id; [done|]. by apply block_archive_facts in Ha as (_ & ? & _).
Qed.

Lemma loadArchive_spec k c : engine_ok c →
  ∃ r, loadArchive k c = (c, r) ∧
       match r with Ok (Some a) => block_archive k a | Ok None => True | _ => True end.
Proof.
  intros Hc. unfold loadArchive. destruct (db_Get _ _) as [blob|] eqn:Eg; [|by eexists].
  destruct (json_Unmarshal blob) as [a|e|] eqn:Eu; [|by eexists|by eexists].
  eexists. split; [reflexivity|]. rewrite (ok_config c Hc). by eapply (ok_db c Hc).
Qed.

(** ** The genesis block *)

Lemma set_tick_ok t c : engine_ok c → engine_ok (set_tick t c).
Proof. intros []. by split. Qed.

Lemma verify_genesis rec c : engine_ok c →
  verifyHeader_ rec g [] c =
  (set_tick (S (c_tick c)) c, verifyHeader_fields cfg (clock (c_tick c)) g).
Proof.
  intros Hc. unfold verifyHeader_. pose proof (U_genesis_number HU) as Hn. unfold headerNumber in Hn.
  destruct (hdr_Number g) as [n|] eqn:En; [|done]. rewrite EM_bind_eq. cbn [Now].
  rewrite EM_bind_eq. cbn [get]. change (c_config (set_tick _ c)) with (c_config c).
  rewrite (ok_config c Hc), EM_bind_eq. unfold lift at 1.
  destruct (verifyHeader_fields cfg (clock (c_tick c)) g) as [[]|e|]; [|done|done].
  unfold verifyCascadingFields_. rewrite EM_bind_eq. unfold lift at 1.
  by rewrite (U_genesis_number HU).
Qed.

Lemma genesisArchive_spec rec c : engine_ok c →
  ∃ c' r, genesisArchive_ rec c = (c', r) ∧ engine_ok c' ∧ same_account c c' ∧
          match r with Ok a => a = genesis_archive | _ => True end.
Proof.
  intros Hc. unfold genesisArchive_. rewrite EM_bind_eq. unfold lift. rewrite (U_chain_genesis HU).
  cbn [deref]. rewrite EM_bind_eq, verify_genesis by done.
  pose proof (set_tick_ok (S (c_tick c)) c Hc) as Hc1. set (c1 := set_tick _ c) in *.
  destruct (verifyHeader_fields _ _ _) as [[]|e|]; [|by exists c1; eexists|by exists c1; eexists].
  rewrite EM_bind_eq. cbn [get]. rewrite (ok_config c1 Hc1), EM_bind_eq.
  change (newArchive cfg 0 (Header_Hash g) _) with genesis_archive.
  destruct (archive_store_spec genesis_archive c1 Hc1 ba_genesis) as (c2 & r & -> & Hc2 & Ha & _).
  destruct r as [[]|e|]; exists c2; eexists; split_and!; try done.
Qed.

(** ** The walk *)

Lemma archive_lookup_spec n k c : engine_ok c →
  ∃ c' r, archive_lookup n k c = (c', r) ∧ engine_ok c' ∧ same_account c c' ∧
          match r with Ok (Some a) => block_archive k a | _ => True end.
Proof.
  intros Hc. unfold archive_lookup. rewrite EM_bind_eq.
  destruct (arc_get k (c_recents c)) as [rs r] eqn:Eg.
  assert (engine_ok (set_recents rs c)) as Hc1.
  { destruct Hc. split; try done. intros k' a' Ha. eapply ok_recents0, arc_get_frame; [exact Eg|exact Ha]. }
  destruct r as [a|].
  - exists (set_recents rs c). eexists. split_and!; try done.
    by eapply (ok_recents c Hc), arc_get_holds.
  - destruct (_ =? 0); [|by exists (set_recents rs c); eexists].
    destruct (loadArchive_spec k _ Hc1) as (r & -> & Hr). exists (set_recents rs c). eexists.
    split_and!; done.
Qed.

Lemma archive_header_spec n k ps c : Forall U ps →
  match archive_header n k ps c with
  | (c', Ok (h, ps')) => c' = c ∧ U h ∧ Header_Hash h = k ∧ headerNumber h = Ok n ∧ Forall U ps'
  | (c', _) => c' = c
  end.
Proof.
  intros Hps. unfold archive_header. destruct (last ps) as [h|] eqn:El.
  - apply last_Some in El as [ps' ->]. apply Forall_app in Hps as [Hps' [Uh _]%Forall_cons_iff].
    rewrite EM_bind_eq. unfold lift at 1. destruct (headerNumber h) as [hn|e|] eqn:En; [|done|done].
    rewrite EM_bind_eq. unfold lift, fail_if.
    destruct (_ || _) eqn:Eb; [done|]. apply orb_false_iff in Eb as [Eh%negb_false_iff En'%negb_false_iff].
    apply bool_decide_eq_true in Eh. apply Z.eqb_eq in En'. subst n.
    rewrite length_app, Nat.add_sub, take_app_length. done.
  - destruct (GetHeader k n) as [h|] eqn:Eg; [|done]. by apply (U_chain HU) in Eg as (? & ? & ?).
Qed.

Lemma parent_root h n : U h → headerNumber h = Ok n → n ≠ 0 → n - 1 = 0 → hdr_ParentHash h = Header_Hash g.
Proof. intros Uh Hn Hn0 Hn1. apply (U_root HU); [done|]. rewrite Hn. f_equal. lia. Qed.

Lemma archive_walk_sound rec fuel n k ps hs c :
  engine_ok c → Forall U ps → 0 ≤ n → (n = 0 → k = Header_Hash g) → (Z.to_nat n < fuel)%nat →
  ∃ c' r, archive_walk rec fuel n k ps hs c = (c', r) ∧ engine_ok c' ∧ same_account c c' ∧
    match r with
    | Ok (a0, hs') => ∃ hs1 k0, hs' = hs ++ hs1 ∧ chain_down k hs1 k0 ∧ block_archive k0 a0
    | _ => True
    end.
Proof.
  revert n k ps hs c. induction fuel as [|fuel IH]; intros n k ps hs c Hc Hps Hn Hk Hf; [lia|].
  cbn [archive_walk]. rewrite EM_bind_eq.
  destruct (archive_lookup_spec n k c Hc) as (c1 & r & -> & Hc1 & Ha1 & Hr).
  destruct r as [[a|]|e|]; [| |by exists c1; eexists|by exists c1; eexists].
  { exists c1. eexists. split_and!; try done. exists [], k. rewrite app_nil_r. by split_and!; [|constructor|]. }
  destruct (Z.eqb_spec n 0) as [->|Hn0].
  - rewrite (Hk eq_refl) in *. rewrite EM_bind_eq.
    destruct (genesisArchive_spec rec c1 Hc1) as (c2 & r & -> & Hc2 & Ha2 & Hr2).
    exists c2. destruct r as [a|e|]; eexists; (split_and!; try done); try by eapply same_account_trans.
    subst a. exists [], (Header_Hash g). rewrite app_nil_r. by split_and!; [|constructor|constructor].
  - rewrite EM_bind_eq. pose proof (archive_header_spec n k ps c1 Hps) as Hh.
    destruct (archive_header n k ps c1) as [c2 [[h ps']|e|]];
      [|subst c2; by exists c1; eexists|subst c2; by exists c1; eexists].
    destruct Hh as (-> & Uh & Eh & Ehn & Hps').
    destruct (IH (n - 1) (hdr_ParentHash h) ps' (hs ++ [h]) c1) as (c3 & r & -> & Hc3 & Ha3 & Hr3);
      [done|done|lia|by eapply parent_root|lia|].
    exists c3, r. split_and!; [done|done|by eapply same_account_trans|].
    destruct r as [[a0 hs']|e|]; [|done|done]. destruct Hr3 as (hs1 & k0 & -> & Hd & Hb).
    exists (h :: hs1), k0. rewrite <- (assoc_L (++)). split_and!; [done| |done].
    rewrite <- Eh. by constructor.
Qed.

Lemma add_recent_ok c a : engine_ok c → block_archive (arc_Hash a) a →
  engine_ok (set_recents (arc_add (arc_Hash a) a (c_recents c)) c).
Proof.
  intros [] Ha. split; try done. cbn. intros k v [[-> ->]|Hv]%arc_add_frame; [done|by apply ok_recents0].
Qed.

(** The part of [archive] after the walk. *)
Lemma archive_finish_spec k a0 hs k0 c : engine_ok c → chain_down k hs k0 → block_archive k0 a0 →
  ∃ c' r, (arch ← apply_cached a0 (reverse hs);
           _ ← modify (fun c => set_recents (arc_add (arc_Hash arch) arch (c_recents c)) c);
           _ ← (if (arc_Number arch mod checkpointInterval =? 0) && (0 <? strlen hs)
                then archive_store arch else mret tt);
           mret arch) c = (c', r) ∧ engine_ok c' ∧ same_account c c' ∧
    match r with
    | Ok a => archive_apply a0 (reverse hs) = Ok a ∧ block_archive k a
    | _ => True
    end.
Proof.
  intros Hc Hd Hb. rewrite EM_bind_eq.
  destruct (apply_cached_spec (reverse hs) a0 c Hc) as (c1 & -> & Hc1 & Ha1 & _).
  { apply Forall_reverse. by eapply chain_down_U. }
  destruct (archive_apply a0 (reverse hs)) as [a|e|] eqn:Ea; [|by exists c1; eexists|by exists c1; eexists].
  pose proof (block_archive_down k hs k0 a0 a Hd Hb Ea) as Hk.
  pose proof (block_archive_facts k a Hk) as (Ek & _). rewrite <- Ek in Hk.
  rewrite EM_bind_eq. cbn [modify]. pose proof (add_recent_ok c1 a Hc1 Hk) as Hc2.
  set (c2 := set_recents _ c1) in *. rewrite EM_bind_eq. destruct (_ && _).
  - destruct (archive_store_spec a c2 Hc2 Hk) as (c3 & r & -> & Hc3 & Ha3 & _). exists c3.
    destruct r as [[]|e|]; eexists; (split_and!; try done); try by eapply same_account_trans.
    by rewrite <- Ek.
  - exists c2. eexists. split_and!; try done. by rewrite <- Ek.
Qed.

(** Whatever [archive] returns for a block is the archive of that block. *)
Lemma archive_sound fuel n k ps c :
  engine_ok c → Forall U ps → 0 ≤ n → (n = 0 → k = Header_Hash g) →
  ∃ c' r, archive fuel n k ps c = (c', r) ∧ engine_ok c' ∧ same_account c c' ∧
    match r with Ok a => block_archive k a | _ => True end.
Proof.
  intros Hc Hps Hn Hk. destruct fuel as [|fuel]; [by exists c; eexists|]. cbn [archive].
  rewrite EM_bind_eq.
  destruct (archive_walk_sound (archive fuel) (S (Z.to_nat n)) n k ps [] c) as (c1 & r & -> & Hc1 & Ha1 & Hr);
    [done|done|done|done|lia|].
  destruct r as [[a0 hs]|e|]; [|by exists c1; eexists|by exists c1; eexists].
  destruct Hr as (hs1 & k0 & -> & Hd & Hb). rewrite app_nil_l.
  destruct (archive_finish_spec k a0 hs1 k0 c1 Hc1 Hd Hb) as (c2 & r & -> & Hc2 & Ha2 & Hr2).
  exists c2, r. split_and!; [done|done|by eapply same_account_trans|].
  destruct r; [by destruct Hr2|done|done].
Qed.

(** ** The walk succeeds when the headers are there *)

(** The headers from block [n] with hash [k] down to block 1, newest first, as
    the explicit parents and the chain provide them. *)
Inductive reaches : Z → Hash → list Header → list Header → Prop :=
| rc_genesis ps : reaches 0 (Header_Hash g) ps []
| rc_parent n ps h hs :
    U h → n ≠ 0 → headerNumber h = Ok n → reaches (n - 1) (hdr_ParentHash h) ps hs →
    reaches n (Header_Hash h) (ps ++ [h]) (h :: hs)
| rc_chain n k h hs :
    n ≠ 0 → GetHeader k n = Some h → reaches (n - 1) (hdr_ParentHash h) [] hs →
    reaches n k [] (h :: hs).

Lemma reaches_down n k ps hs : reaches n k ps hs → chain_down k hs (Header_Hash g).
Proof.
  induction 1 as [ps|n ps h hs Uh Hn Hh _ IH|n k h hs Hn Hg _ IH]; [constructor|by constructor|].
  apply (U_chain HU) in Hg as (Uh & <- & _). by constructor.
Qed.

Lemma reaches_numbered n k ps hs : reaches n k ps hs → 0 ≤ n →
  n = Z.of_nat (length hs) ∧ numbered_from 1 (reverse hs) ∧ Forall (fun h => headerNumber h ≠ Ok 0) hs.
Proof.
  assert (∀ h hs n, U h → n ≠ 0 → headerNumber h = Ok n →
    (0 ≤ n - 1 → n - 1 = Z.of_nat (length hs) ∧ numbered_from 1 (reverse hs) ∧
                 Forall (fun h => headerNumber h ≠ Ok 0) hs) → 0 ≤ n →
    n = Z.of_nat (length (h :: hs)) ∧ numbered_from 1 (reverse (h :: hs)) ∧
    Forall (fun h => headerNumber h ≠ Ok 0) (h :: hs)) as Hstep.
  { intros h hs' m Uh Hm Hh IH Hpos. destruct IH as (El & Hn & Hz); [lia|]. cbn [length].
    split; [lia|]. rewrite reverse_cons, numbered_from_app by done. split.
    - split; [done|]. rewrite length_reverse. cbn [numbered_from]. split; [|done].
      destruct (U_number HU h Uh) as (m' & Em & Hb). rewrite Em in Hh. injection Hh as ->.
      rewrite Em. f_equal. symmetry. rewrite u64_small by (unfold is_u64, two64, maxU64 in *; lia). lia.
    - constructor; [congruence|done]. }
  induction 1 as [ps|n ps h hs Uh Hn Hh _ IH|n k h hs Hn Hg _ IH]; intros Hpos.
  - split_and!; try done.
  - by apply Hstep.
  - apply (U_chain HU) in Hg as (Uh & _ & Hh). by apply Hstep.
Qed.

(** The genesis header is valid, and the database and JSON work. *)
Record storage_works : Prop := {
  sw_genesis : ∀ t, verifyHeader_fields cfg (clock t) g = Ok tt;
  sw_marshal : ∀ a, ∃ blob, json_Marshal a = Ok blob;
  sw_put : ∀ key blob db, ∃ db', db_Put key blob db = Some db';
  sw_unmarshal : ∀ blob, json_Unmarshal blob ≠ Panic
}.

Context (HW : storage_works).

Lemma archive_store_works a c : ∃ c', archive_store a c = (c', Ok tt).
Proof.
  unfold archive_store. rewrite EM_bind_eq. unfold lift.
  destruct (sw_marshal HW a) as (blob & ->), (sw_put HW (archiveKey (arc_Hash a)) blob (c_db c)) as (db & ->).
  by eexists.
Qed.

Lemma archive_lookup_works n k c : ∃ c' r, archive_lookup n k c = (c', Ok r).
Proof.
  unfold archive_lookup. rewrite EM_bind_eq. destruct (arc_get k (c_recents c)) as [rs [a|]]; [by do 2 eexists|].
  destruct (_ =? 0); [|by do 2 eexists]. unfold loadArchive.
  destruct (db_Get _ _) as [blob|]; [|by do 2 eexists]. pose proof (sw_unmarshal HW blob).
  destruct (json_Unmarshal blob); [by do 2 eexists|by do 2 eexists|done].
Qed.

Lemma genesisArchive_works rec c : engine_ok c → ∃ c', genesisArchive_ rec c = (c', Ok genesis_archive).
Proof.
  intros Hc. destruct (genesisArchive_spec rec c Hc) as (c' & r & E & _ & _ & Hr).
  exists c'. rewrite E. f_equal. revert E. unfold genesisArchive_. rewrite EM_bind_eq. unfold lift.
  rewrite (U_chain_genesis HU). cbn [deref]. rewrite EM_bind_eq, verify_genesis, (sw_genesis HW) by done.
  rewrite EM_bind_eq. cbn [get]. rewrite EM_bind_eq.
  match goal with |- context [archive_store ?a ?c] => destruct (archive_store_works a c) as (c2 & ->) end.
  intros [= _ <-]. by rewrite Hr.
Qed.

Lemma archive_header_parent n h ps c : headerNumber h = Ok n →
  archive_header n (Header_Hash h) (ps ++ [h]) c = (c, Ok (h, ps)).
Proof.
  intros Hn. unfold archive_header. rewrite last_snoc, EM_bind_eq. unfold lift. rewrite Hn, EM_bind_eq.
  rewrite bool_decide_eq_true_2, Z.eqb_refl by done. cbn [negb orb fail_if].
  by rewrite length_app, Nat.add_sub, take_app_length.
Qed.

Lemma archive_lookup_total n k c : engine_ok c →
  ∃ c' r, archive_lookup n k c = (c', Ok r) ∧ engine_ok c' ∧ same_account c c' ∧
          match r with Some a => block_archive k a | None => True end.
Proof.
  intros Hc. destruct (archive_lookup_works n k c) as (c1 & r & El).
  destruct (archive_lookup_spec n k c Hc) as (c1' & r' & El' & Hc1 & Ha1 & Hr).
  rewrite El in El'. injection El' as <- <-. by exists c1, r.
Qed.

Lemma archive_walk_known rec n k ps fuel hs c c1 a : archive_lookup n k c = (c1, Ok (Some a)) →
  archive_walk rec (S fuel) n k ps hs c = (c1, Ok (a, hs ++ [])).
Proof. intros E. cbn [archive_walk]. by rewrite EM_bind_eq, E, app_nil_r. Qed.

Lemma archive_walk_step rec n k ps fuel hs c c1 h ps' : archive_lookup n k c = (c1, Ok None) → n ≠ 0 →
  archive_header n k ps c1 = (c1, Ok (h, ps')) →
  archive_walk rec (S fuel) n k ps hs c =
  archive_walk rec fuel (n - 1) (hdr_ParentHash h) ps' (hs ++ [h]) c1.
Proof.
  intros El Hn Eh. cbn [archive_walk]. rewrite EM_bind_eq, El.
  by rewrite (proj2 (Z.eqb_neq _ _) Hn), EM_bind_eq, Eh.
Qed.

(** The walk stops somewhere on the way to the genesis block. *)
Definition stops_at (hs0 : list Header) (k : Hash) (c : DPos) (hs : list Header)
    (out : DPos * res (Archive * list Header)) : Prop :=
  ∃ c' a0 hs1 hs2 k0, out = (c', Ok (a0, hs ++ hs1)) ∧
    engine_ok c' ∧ same_account c c' ∧ hs0 = hs1 ++ hs2 ∧ chain_down k hs1 k0 ∧
    chain_down k0 hs2 (Header_Hash g) ∧ block_archive k0 a0.

Lemma stops_at_cons h hs0 c c1 hs out : U h → same_account c c1 →
  stops_at hs0 (hdr_ParentHash h) c1 (hs ++ [h]) out → stops_at (h :: hs0) (Header_Hash h) c hs out.
Proof.
  intros Uh Ha (c2 & a0 & hs1 & hs2 & k0 & -> & Hc2 & Ha2 & -> & Hd1 & Hd2 & Hb).
  exists c2, a0, (h :: hs1), hs2, k0. rewrite <- (assoc_L (++)).
  split_and!; try done; [by eapply same_account_trans|by constructor].
Qed.

Lemma archive_walk_complete rec n k ps hs0 : reaches n k ps hs0 →
  ∀ fuel hs c, engine_ok c → 0 ≤ n → (Z.to_nat n < fuel)%nat →
  stops_at hs0 k c hs (archive_walk rec fuel n k ps hs c).
Proof.
  intros Hrc. induction Hrc as [ps|n ps h hs0 Uh Hn0 Hh Hrc IH|n k h hs0 Hn0 Hg Hrc IH];
    intros fuel hs c Hc Hn Hf; (destruct fuel as [|fuel]; [lia|]).
  - destruct (archive_lookup_total 0 (Header_Hash g) c Hc) as (c1 & [a|] & El & Hc1 & Ha1 & Hr).
    + rewrite (archive_walk_known _ _ _ _ _ _ _ _ _ El).
      exists c1, a, [], [], (Header_Hash g). split_and!; try done; constructor.
    + destruct (genesisArchive_works rec c1 Hc1) as (c2 & Eg).
      destruct (genesisArchive_spec rec c1 Hc1) as (c2' & r' & Eg' & Hc2 & Ha2 & _).
      rewrite Eg in Eg'. injection Eg' as <- <-. cbn [archive_walk].
      rewrite EM_bind_eq, El. cbn [Z.eqb]. rewrite EM_bind_eq, Eg.
      exists c2, genesis_archive, [], [], (Header_Hash g). rewrite app_nil_r.
      split_and!; try done; [by eapply same_account_trans|constructor|constructor|constructor].
  - destruct (archive_lookup_total n (Header_Hash h) c Hc) as (c1 & [a|] & El & Hc1 & Ha1 & Hr).
    + rewrite (archive_walk_known _ _ _ _ _ _ _ _ _ El). exists c1, a, [], (h :: hs0), (Header_Hash h).
      split_and!; try done; [constructor|]. constructor; [done|by eapply reaches_down].
    + rewrite (archive_walk_step _ _ _ _ _ _ _ _ h ps El Hn0) by (by apply archive_header_parent).
      eapply stops_at_cons; [done|done|]. apply IH; [done|lia|lia].
  - pose proof (U_chain HU _ _ _ Hg) as (Uh & <- & _).
    destruct (archive_lookup_total n (Header_Hash h) c Hc) as (c1 & [a|] & El & Hc1 & Ha1 & Hr).
    + rewrite (archive_walk_known _ _ _ _ _ _ _ _ _ El). exists c1, a, [], (h :: hs0), (Header_Hash h).
      split_and!; try done; [constructor|]. constructor; [done|by eapply reaches_down].
    + rewrite (archive_walk_step _ _ _ _ _ _ _ _ h [] El Hn0)
        by (unfold archive_header; cbn [last]; by rewrite Hg).
      eapply stops_at_cons; [done|done|]. apply IH; [done|lia|lia].
Qed.

Lemma archive_complete fuel n k ps hs c :
  engine_ok c → 0 ≤ n → reaches n k ps hs →
  ∃ c', archive (S fuel) n k ps c = (c', archive_apply genesis_archive (reverse hs)).
Proof.
  intros Hc Hn Hrc. cbn [archive]. rewrite EM_bind_eq.
  destruct (reaches_numbered _ _ _ _ Hrc Hn) as (_ & Hnum & Hnz).
  destruct (archive_walk_complete (archive fuel) n k ps hs Hrc (S (Z.to_nat n)) [] c Hc Hn ltac:(lia))
    as (c1 & a0 & hs1 & hs2 & k0 & -> & Hc1 & Ha1 & -> & Hd1 & Hd2 & Hb). rewrite app_nil_l.
  apply Forall_app in Hnz as [_ Hnz]. rewrite reverse_app in Hnum |- *.
  rewrite (archive_apply_resume _ _ _ a0); [|done|done|by eapply block_archive_replay].
  rewrite EM_bind_eq.
  destruct (apply_cached_spec (reverse hs1) a0 c1 Hc1) as (c2 & -> & _).
  { apply Forall_reverse. by eapply chain_down_U. }
  destruct (archive_apply a0 (reverse hs1)) as [a|e|]; [|by eexists|by eexists].
  rewrite EM_bind_eq. cbn [modify]. rewrite EM_bind_eq. destruct (_ && _); [|by eexists].
  match goal with |- context [archive_store ?a ?c] => destruct (archive_store_works a c) as (c3 & ->) end.
  by eexists.
Qed.

End Spec.

(** C1. The engine computes the archive of a block correctly, whatever coherent
    part of the chain it has cached or stored: from a coherent state, [archive]
    leaves a coherent state and returns only the archive that replaying the chain
    from the genesis block gives for that block; and when the explicit parents
    and the chain provide the headers and storage works, its result is the result
    of that replay in every case, the archive, the error or the panic, so no
    content of the caches or of the database, evicted entries included, changes
    it. *)
Theorem archive_correct
    `{Keccak, Crypto, Rand, Database, ArchiveJSON, Environment, HRec : ARCCache Archive,
      HSig : ARCCache Address, ChainReader}
    (U : Header → Prop) (g : Header) (cfg : DPosConfig) (HU : universe U g)
    (c : DPos) (n : Z) (k : Hash) (parents : list Header)
    (Hc : engine_ok U g cfg c) (Hps : Forall U parents) (Hn : 0 ≤ n) (Hk : n = 0 → k = Header_Hash g) :
  let '(c', r) := c_archive n k parents c in
  engine_ok U g cfg c' ∧
  (∀ a, r = Ok a → block_archive U g cfg k a) ∧
  (storage_works g cfg → ∀ hs, reaches U g n k parents hs →
     r = archive_apply (genesis_archive g cfg) (reverse hs)).
Proof.
  destruct (archive_sound U g cfg HU 2 n k parents c Hc Hps Hn Hk) as (c' & r & E & Hc' & _ & Hr).
  unfold c_archive. rewrite E. split_and!; [done| |].
  - by intros a ->.
  - intros HW hs Hrc.
    destruct (archive_complete U g cfg HU HW 1 n k parents hs c Hc Hn Hrc) as (c2 & E2).
    congruence.
Qed.

(** A fresh engine is coherent when its database is: nothing is cached. *)
Lemma New_ok `{Keccak, Crypto, Rand, Database, ArchiveJSON, Environment, HRec : ARCCache Archive,
      HSig : ARCCache Address, ChainReader} U g cfg db :
  Epoch cfg ≠ 0 → (∀ k, db_Get (archiveKey k) db = None) → engine_ok U g cfg (New cfg db).
Proof.
  intros He Hdb. unfold New. destruct (Z.eqb_spec (Epoch cfg) 0); [done|]. split; cbn; try done.
  - by intros k a ?%arc_new_holds.
  - by intros k a ?%arc_new_holds.
  - intros k blob a Hg. change (db_Get (archiveKey k) db = Some blob) in Hg. by rewrite Hdb in Hg.
Qed.
