(* ===== verification/DposVerify.v ===== *)
(** * The DPoS engine: what verification accepts

    A header that [verifyHeader] accepts satisfies every rule of the protocol
    with respect to the archive of its parent; from the block whose number
    reaches the signer limit on, an accepted header also extends the replay.
    For the first blocks the check for recent signers underflows. *)

From S2P Require Import Prelude Types Interfaces Rlp HeaderHash DposArchive DposVoting DposReplay DposTurn DposEngine DposEngineSpec.
From stdpp Require Import base tactics option list numbers gmap.
From Stdlib Require Import ZArith Lia.

#[local] Open Scope Z_scope.

Section Verify.
Context `{Keccak, Crypto, Rand, Database, ArchiveJSON, Environment}.
Context `{HRec : ARCCache Archive} `{HSig : ARCCache Address}.
Context `{ChainReader}.
Context (U : Header → Prop) (g : Header) (cfg : DPosConfig) (HU : universe U g).

(** ** The archives of blocks satisfy the voting invariant *)

Lemma block_archive_wf k a : block_archive U g cfg k a → archive_wf (arc_Number a) a.
Proof.
  induction 1 as [|h a a' Uh Hb IH Ha]; [apply newArchive_wf|].
  destruct (block_archive_facts U g cfg HU _ _ Hb) as (_ & _ & Hn & _).
  destruct (apply_one a h a' Ha) as (Hnum & Hn' & _ & _).
  apply archive_apply_ok in Ha as (Hnf & a1 & Ha1 & ->). rewrite Hn'.
  rewrite u64_small by (unfold is_u64, two64, maxU64 in *; lia).
  pose proof (applyHeaders_wf (arc_Number a) a [h] a1 ltac:(lia)) as Hwf.
  destruct Hwf as [? ? [? ?]]; [cbn [length]; unfold two64, maxU64 in *; lia|done|done|done|].
  by split.
Qed.

(** ** The rules of an accepted header *)

Record header_rules (now : Z) (h : Header) (n : Z) : Prop := {
  hr_time : ∃ t, hdr_TimeMS h = Some t ∧ t ≤ now + futureTime_ms;
  hr_nonce : hdr_Nonce h = nonceAuthVote ∨ hdr_Nonce h = nonceDropVote;
  hr_checkpoint : n mod Epoch cfg = 0 → hdr_Coinbase h = zeroAddress ∧ hdr_Nonce h = nonceDropVote ∧
    (strlen (hdr_Extra h) - extraVanity - extraSeal) mod Z.of_nat AddressLength = 0;
  hr_extra : extraVanity + extraSeal ≤ strlen (hdr_Extra h);
  hr_plain : n mod Epoch cfg ≠ 0 → strlen (hdr_Extra h) = extraVanity + extraSeal;
  hr_mix : hdr_MixDigest h = zeroHash;
  hr_uncles : hdr_UncleHash h = uncleHash;
  hr_difficulty : 0 < n → hdr_Difficulty h = Some diffInTurn ∨ hdr_Difficulty h = Some diffNoTurn;
  hr_forks : VerifyForkHashes chain_Config h false = Ok tt
}.

Lemma difficulty_rule n d : (0 < n → d = Some diffInTurn ∨ d = Some diffNoTurn) →
  (0 <? n) && match d with
              | None => true
              | Some d => negb (d =? diffInTurn) && negb (d =? diffNoTurn)
              end = false.
Proof.
  intros Hd. destruct (Z.ltb_spec 0 n) as [Hn|]; [|done]. cbn [andb].
  by destruct (Hd Hn) as [-> | ->].
Qed.

Lemma verifyHeader_fields_ok now h :
  verifyHeader_fields cfg now h = Ok tt ↔
  ∃ n, headerNumber h = Ok n ∧ Epoch cfg ≠ 0 ∧ header_rules now h n.
Proof.
  unfold verifyHeader_fields, headerNumber.
  destruct (hdr_Number h) as [n0|]; [|split; [done|by intros (? & ? & _)]].
  cbn [deref]. rewrite !bind_Ok. set (n := big_Uint64 n0).
  destruct (hdr_TimeMS h) as [t|] eqn:Et; [|split; [done|intros (? & _ & _ & HR); destruct (hr_time _ _ _ HR) as (? & ? & _); congruence]].
  cbn [deref]. rewrite bind_Ok. rewrite fail_bind_ok, bind_ok. cbv zeta.
  split.
  - intros (Ht & ep & [HE ->]%u64_rem_ok & Hr). rewrite !fail_bind_ok in Hr.
    destruct Hr as (Hcp & Hno & Hcn & Hva & Hms & Hpl & Hcs & Hmix & Hun & Hd & Hf).
    exists n. split; [done|]. split; [done|]. rewrite !negb_false_iff, !bool_decide_eq_true in *.
    apply andb_false_iff in Hno. rewrite !negb_false_iff, !bool_decide_eq_true in Hno.
    rewrite !Z.ltb_ge in *. split; try done.
    + exists t. split; [done|lia].
    + intros E. rewrite (proj2 (Z.eqb_eq _ _) E) in Hcp, Hcn, Hcs. cbn [andb] in *.
      rewrite !negb_false_iff, !bool_decide_eq_true in *. rewrite Z.eqb_eq in Hcs. done.
    + intros E. rewrite (proj2 (Z.eqb_neq _ _) E) in Hpl. cbn [andb negb] in Hpl.
      rewrite negb_false_iff, Z.eqb_eq in Hpl. lia.
    + intros Hpos. rewrite (proj2 (Z.ltb_lt _ _) Hpos) in Hd. cbn [andb] in Hd.
      destruct (hdr_Difficulty h) as [d|]; [|done].
      rewrite andb_false_iff, !negb_false_iff, !Z.eqb_eq in Hd. destruct Hd as [-> | ->]; auto.
  - intros (n' & [= <-] & HE & []). fold n in hr_checkpoint0, hr_plain0, hr_difficulty0.
    destruct hr_time0 as (t' & Et' & Ht). rewrite Et in Et'. injection Et' as <-.
    rewrite Z.ltb_ge. split; [lia|]. exists (n mod Epoch cfg). split; [by apply u64_rem_ok|].
    rewrite !fail_bind_ok, !negb_false_iff, !bool_decide_eq_true, !Z.ltb_ge.
    assert (n mod Epoch cfg = 0 ∨ n mod Epoch cfg ≠ 0) as [E|E] by lia.
    + destruct (hr_checkpoint0 E) as (Hc1 & Hc2 & Hc3). rewrite E. cbn [Z.eqb andb negb].
      rewrite Hc1, Hc2, !bool_decide_eq_true_2, Hc3 by done. cbn [negb]. rewrite andb_false_r.
      unfold extraSeal, extraVanity in *. split_and!; try done; try lia. by apply difficulty_rule.
    + rewrite (proj2 (Z.eqb_neq _ _) E). cbn [andb negb]. specialize (hr_plain0 E).
      rewrite hr_plain0. split_and!; try done.
      * destruct hr_nonce0 as [-> | ->]; done.
      * by apply difficulty_rule.
Qed.

(** ** Seals *)

(** The signer's seals that the archive remembers are old enough for block [n]:
    at least [signerLimit] blocks lie between them and [n].  For the blocks below
    the limit the [uint64] difference that the code compares with wraps around. *)
Definition seal_gap (arch : Archive) (n : Z) (signer : Address) : Prop :=
  ∀ seen, arc_Recents arch !! seen = Some signer →
    if decide (signerLimit arch ≤ n) then seen + signerLimit arch ≤ n
    else seen ≤ (n - signerLimit arch) mod two64.

Lemma signedRecently_gap arch signer n : is_u64 n →
  signedRecently arch signer n = false ↔ seal_gap arch n signer.
Proof.
  intros Hu. unfold signedRecently, seal_gap. rewrite bool_decide_eq_false, map_Exists_lookup.
  pose proof (signerLimit_pos arch).
  assert (∀ seen, (if decide (signerLimit arch ≤ n) then seen + signerLimit arch ≤ n
                   else seen ≤ (n - signerLimit arch) mod two64) ↔ ¬ (n - signerLimit arch)%u64 < seen) as E.
  { intros seen. case_decide; [|unfold u64; lia]. rewrite u64_small by (unfold is_u64 in *; lia). lia. }
  setoid_rewrite E. naive_solver.
Qed.

(** The seal of a header is right for the archive of its parent. *)
Record seal_rules (arch : Archive) (h : Header) (n : Z) (signer : Address) : Prop := {
  sr_recovered : ecrecover_pure h = Ok signer;
  sr_authorized : signer ∈ arc_Signers arch;
  sr_recent : seal_gap arch n signer;
  sr_difficulty : ∃ turn : bool, inturn arch n signer (hdr_ParentHash h) = Ok turn ∧
    hdr_Difficulty h = Some (if turn then diffInTurn else diffNoTurn)
}.

(** The checks of [verifySeal] once the archive is there. *)
Definition seal_check (arch : Archive) (h : Header) (n : Z) (recovered : res Address) : res unit :=
  signer ← recovered;
  _ ← fail_if (negb (bool_decide (signer ∈ arc_Signers arch))) errUnauthorized;
  _ ← fail_if (signedRecently arch signer n) errUnauthorized;
  turn ← inturn arch n signer (hdr_ParentHash h);
  difficulty ← deref (hdr_Difficulty h);
  _ ← fail_if (turn && negb (difficulty =? diffInTurn)) errInvalidDifficulty;
  fail_if (negb turn && negb (difficulty =? diffNoTurn)) errInvalidDifficulty.

Lemma verifySeal_eq rec h ps c n : headerNumber h = Ok n → n ≠ 0 →
  verifySeal_ rec h ps c =
  ((arch ← rec (n - 1)%u64 (hdr_ParentHash h) ps;
    (fun c => let '(c, recovered) := ecrecover h c in (c, seal_check arch h n recovered)) : EM unit)
   : EM unit) c.
Proof.
  intros Hn Hn0. unfold verifySeal_. rewrite EM_bind_eq. unfold lift at 1. rewrite Hn, EM_bind_eq.
  rewrite (proj2 (Z.eqb_neq _ _) Hn0). cbn [fail_if lift]. rewrite !EM_bind_eq.
  destruct (rec _ _ _ c) as [c1 [arch|e|]]; [|done|done]. rewrite EM_bind_eq.
  destruct (ecrecover h c1) as [c2 [signer|e|]]; [|done|done]. unfold seal_check. rewrite bind_Ok.
  rewrite EM_bind_eq. unfold lift at 1. destruct (fail_if _ _) as [[]|e|]; [|done|done].
  rewrite bind_Ok, EM_bind_eq. unfold lift at 1. destruct (fail_if _ _) as [[]|e|]; [|done|done].
  rewrite bind_Ok, EM_bind_eq. unfold lift at 1.
  destruct (inturn _ _ _ _) as [turn|e|]; [|done|done]. rewrite bind_Ok, EM_bind_eq. unfold lift at 1.
  destruct (deref _) as [d|e|]; [|done|done]. rewrite bind_Ok, EM_bind_eq. unfold lift at 1.
  by destruct (fail_if _ _) as [[]|e|].
Qed.

Lemma seal_check_ok arch h n : is_u64 n → seal_check arch h n (ecrecover_pure h) = Ok tt ↔
  ∃ signer, seal_rules arch h n signer.
Proof.
  intros Hu. unfold seal_check. rewrite bind_ok. split.
  - intros (signer & Hs & Hr). rewrite !fail_bind_ok in Hr. destruct Hr as (Ha & Hrec & Hr).
    apply signedRecently_gap in Hrec; [|done].
    apply bind_ok in Hr as (turn & Ht & (d & Hd%deref_ok & Hr)%bind_ok).
    rewrite fail_bind_ok, fail_if_ok in Hr. apply negb_false_iff, bool_decide_eq_true in Ha.
    exists signer. split; try done. exists turn. split; [done|]. rewrite Hd. f_equal.
    destruct turn; cbn in Hr; destruct Hr as [Hr1 Hr2];
      [by apply negb_false_iff, Z.eqb_eq in Hr1|by apply negb_false_iff, Z.eqb_eq in Hr2].
  - intros (signer & [Hs Ha Hrec (turn & Ht & Hd)]). exists signer. split; [done|].
    rewrite !fail_bind_ok, bool_decide_eq_true_2 by done. split_and!; [done|by apply signedRecently_gap|].
    rewrite Ht, bind_Ok, Hd. cbn [deref]. rewrite bind_Ok. by destruct turn.
Qed.

Lemma number_pred n : 0 < n → is_u64 n → (n - 1)%u64 = n - 1.
Proof. intros. apply u64_small. unfold is_u64 in *. lia. Qed.

Lemma verifySeal_sound h ps c n : engine_ok U g cfg c → U h → Forall U ps →
  headerNumber h = Ok n → n ≠ 0 →
  ∃ c' r, verifySeal_ c_archive h ps c = (c', r) ∧ engine_ok U g cfg c' ∧
    (r = Ok tt → ∃ arch signer, block_archive U g cfg (hdr_ParentHash h) arch ∧ seal_rules arch h n signer).
Proof.
  intros Hc Uh Hps Hn Hn0. rewrite (verifySeal_eq _ _ _ _ _ Hn Hn0), EM_bind_eq.
  destruct (U_number U g HU h Uh) as (n' & En & Hb). rewrite Hn in En. injection En as <-.
  rewrite number_pred by (unfold is_u64, two64, maxU64 in *; lia).
  destruct (archive_sound U g cfg HU 2 (n - 1) (hdr_ParentHash h) ps c) as (c1 & r & E & Hc1 & _ & Hr);
    [done|done|lia|by eapply parent_root|].
  unfold c_archive. rewrite E. destruct r as [arch|e|]; [|by exists c1; eexists|by exists c1; eexists].
  destruct (ecrecover_spec U g cfg HU h c1 Hc1 Uh) as (c2 & -> & Hc2 & _).
  exists c2. eexists. split; [reflexivity|]. split; [done|].
  intros (signer & Hs)%seal_check_ok; [eauto|]. unfold is_u64, two64, maxU64 in *. lia.
Qed.

Lemma verifySeal_complete h ps c n hs arch signer :
  engine_ok U g cfg c → U h → storage_works g cfg → headerNumber h = Ok n → n ≠ 0 →
  reaches U g (n - 1) (hdr_ParentHash h) ps hs →
  archive_apply (genesis_archive g cfg) (reverse hs) = Ok arch → Forall U ps →
  seal_rules arch h n signer → ∃ c', verifySeal_ c_archive h ps c = (c', Ok tt).
Proof.
  intros Hc Uh HW Hn Hn0 Hrc Ha Hps Hs. rewrite (verifySeal_eq _ _ _ _ _ Hn Hn0), EM_bind_eq.
  destruct (U_number U g HU h Uh) as (n' & En & Hb). rewrite Hn in En. injection En as <-.
  rewrite number_pred by (unfold is_u64, two64, maxU64 in *; lia).
  destruct (archive_sound U g cfg HU 2 (n - 1) (hdr_ParentHash h) ps c) as (c1 & r & E & Hc1 & _ & _);
    [done|done|lia|by eapply parent_root|].
  destruct (archive_complete U g cfg HU HW 1 (n - 1) (hdr_ParentHash h) ps hs c Hc ltac:(lia) Hrc)
    as (c1' & E'). rewrite E, Ha in E'. injection E' as <- ->.
  unfold c_archive. rewrite E.
  destruct (ecrecover_spec U g cfg HU h c1 Hc1 Uh) as (c2 & -> & _).
  exists c2. f_equal. apply seal_check_ok; [|eauto]. unfold is_u64, two64, maxU64 in *. lia.
Qed.

(** ** Headers *)

(** The header fits its parent and the archive of the parent. *)
Record cascading_rules (h : Header) (n : Z) : Prop := {
  cr_parent : ∃ parent tp t, U parent ∧ Header_Hash parent = hdr_ParentHash h ∧
    headerNumber parent = Ok (n - 1) ∧ hdr_TimeMS parent = Some tp ∧ hdr_TimeMS h = Some t ∧
    (big_Uint64 tp + Period cfg)%u64 ≤ big_Uint64 t;
  cr_seal : ∃ arch signer, block_archive U g cfg (hdr_ParentHash h) arch ∧ seal_rules arch h n signer ∧
    (n mod Epoch cfg = 0 →
     slice (E := error) (hdr_Extra h) extraVanity (strlen (hdr_Extra h) - extraSeal) = Ok (signersBytes arch))
}.

(** The parent that a header is compared with. *)
Definition parent_of (h : Header) (n : Z) (ps : list Header) : option Header :=
  match last ps with
  | Some parent => Some parent
  | None => GetHeader (hdr_ParentHash h) n
  end.

Lemma parent_in_universe h n ps parent : Forall U ps → parent_of h n ps = Some parent → U parent.
Proof.
  intros Hps. unfold parent_of. destruct (last ps) as [p|] eqn:El.
  - intros [= ->]. apply last_Some in El as [ps' ->]. by apply Forall_app in Hps as [_ [? _]%Forall_cons_iff].
  - by intros (? & _)%(U_chain U g HU).
Qed.

Lemma verifyParent_ok h n p : verifyParent cfg h n p = Ok tt ↔
  ∃ parent tp t, p = Some parent ∧ Header_Hash parent = hdr_ParentHash h ∧
    headerNumber parent = Ok (n - 1)%u64 ∧ hdr_TimeMS parent = Some tp ∧ hdr_TimeMS h = Some t ∧
    (big_Uint64 tp + Period cfg)%u64 ≤ big_Uint64 t.
Proof.
  unfold verifyParent. destruct p as [parent|]; [|split; [done|by intros (?&?&?&?&_)]]. split.
  - intros Hv. outcome_inv. rewrite orb_false_iff, !negb_false_iff, Z.eqb_eq, bool_decide_eq_true in *.
    destruct_and!. subst. rewrite Z.ltb_ge in *. by do 3 eexists.
  - intros (? & tp & t & [= <-] & Hh & Hn & Htp & Ht & Hle). rewrite Hn, bind_Ok, Z.eqb_refl.
    rewrite bool_decide_eq_true_2 by done. cbn [negb orb fail_if]. rewrite bind_Ok, Htp. cbn [deref].
    rewrite bind_Ok, Ht. cbn [deref]. rewrite bind_Ok. apply fail_if_ok, Z.ltb_ge. done.
Qed.

Lemma verifyCheckpointSigners_ok h n arch : verifyCheckpointSigners cfg h n arch = Ok tt ↔
  Epoch cfg ≠ 0 ∧ (n mod Epoch cfg = 0 →
    slice (E := error) (hdr_Extra h) extraVanity (strlen (hdr_Extra h) - extraSeal) = Ok (signersBytes arch)).
Proof.
  unfold verifyCheckpointSigners. rewrite bind_ok. setoid_rewrite u64_rem_ok. split.
  - intros (ep & [HE ->] & Hv). split; [done|]. intros E. rewrite E in Hv. cbn in Hv. outcome_inv.
    match goal with HX : negb _ = false |- _ => apply negb_false_iff, bool_decide_eq_true in HX; by subst end.
  - intros [HE Hv]. eexists. split; [done|]. destruct (Z.eqb_spec (n mod Epoch cfg) 0) as [E|]; [|done].
    rewrite (Hv E), bind_Ok, bool_decide_eq_true_2 by done. done.
Qed.

Lemma verifyCascading_eq rec h ps c n : headerNumber h = Ok n → n ≠ 0 →
  verifyCascadingFields_ rec h ps c =
  match verifyParent (c_config c) h n (parent_of h (n - 1)%u64 ps) with
  | Ok _ =>
      match rec (n - 1)%u64 (hdr_ParentHash h) ps c with
      | (c1, Ok arch) =>
          match verifyCheckpointSigners (c_config c) h n arch with
          | Ok _ => verifySeal_ rec h ps c1
          | Err e => (c1, Err e)
          | Panic => (c1, Panic)
          end
      | (c1, Err e) => (c1, Err e)
      | (c1, Panic) => (c1, Panic)
      end
  | Err e => (c, Err e)
  | Panic => (c, Panic)
  end.
Proof.
  intros Hn Hn0. unfold verifyCascadingFields_. rewrite EM_bind_eq. unfold lift at 1. rewrite Hn.
  rewrite (proj2 (Z.eqb_neq _ _) Hn0), EM_bind_eq. cbn [get]. rewrite EM_bind_eq. unfold lift at 1.
  fold (parent_of h (n - 1)%u64 ps).
  destruct (verifyParent _ _ _ _) as [[]|e|]; [|done|done]. rewrite EM_bind_eq.
  destruct (rec _ _ _ c) as [c1 [arch|e|]]; [|done|done]. rewrite EM_bind_eq. unfold lift.
  by destruct (verifyCheckpointSigners _ _ _ _).
Qed.

Lemma verifyCascading_sound h ps c n : engine_ok U g cfg c → U h → Forall U ps →
  headerNumber h = Ok n → n ≠ 0 →
  ∃ c' r, verifyCascadingFields_ c_archive h ps c = (c', r) ∧ engine_ok U g cfg c' ∧
          (r = Ok tt → cascading_rules h n).
Proof.
  intros Hc Uh Hps Hn Hn0. rewrite (verifyCascading_eq _ _ _ _ _ Hn Hn0).
  destruct (U_number U g HU h Uh) as (n' & En & Hb). rewrite Hn in En. injection En as <-.
  rewrite number_pred by (unfold is_u64, two64, maxU64 in *; lia). rewrite (ok_config _ _ _ c Hc).
  destruct (verifyParent _ _ _ _) as [[]|e|] eqn:Ep; [|by exists c; eexists|by exists c; eexists].
  destruct (archive_sound U g cfg HU 2 (n - 1) (hdr_ParentHash h) ps c) as (c1 & r & E & Hc1 & _ & Hr);
    [done|done|lia|by eapply parent_root|].
  unfold c_archive at 1. rewrite E. destruct r as [arch|e|]; [|by exists c1; eexists|by exists c1; eexists].
  destruct (verifyCheckpointSigners _ _ _ _) as [[]|e|] eqn:Ek; [|by exists c1; eexists|by exists c1; eexists].
  destruct (verifySeal_sound h ps c1 n Hc1 Uh Hps Hn Hn0) as (c2 & r2 & -> & Hc2 & Hr2).
  exists c2, r2. split_and!; [done|done|]. intros (arch' & signer & Hb' & Hs)%Hr2.
  rewrite (block_archive_unique U g cfg HU _ _ _ Hr Hb') in *.
  apply verifyParent_ok in Ep as (parent & tp & t & Ep & Hh & Hpn & Htp & Ht & Hle).
  rewrite number_pred in Hpn by (unfold is_u64, two64, maxU64 in *; lia).
  apply verifyCheckpointSigners_ok in Ek as [_ Ek]. split; [|eauto 10].
  exists parent, tp, t. split_and!; try done. by eapply parent_in_universe.
Qed.

Lemma verifyHeader_eq rec h ps c n : headerNumber h = Ok n →
  verifyHeader_ rec h ps c =
  match verifyHeader_fields (c_config c) (clock (c_tick c)) h with
  | Ok _ => verifyCascadingFields_ rec h ps (set_tick (S (c_tick c)) c)
  | Err e => (set_tick (S (c_tick c)) c, Err e)
  | Panic => (set_tick (S (c_tick c)) c, Panic)
  end.
Proof.
  unfold headerNumber, verifyHeader_. destruct (hdr_Number h); [|done]. intros _.
  rewrite EM_bind_eq. cbn [Now]. rewrite EM_bind_eq. cbn [get]. rewrite EM_bind_eq.
  change (c_config (set_tick _ c)) with (c_config c). unfold lift.
  by destruct (verifyHeader_fields _ _ _).
Qed.

Lemma verifyHeader_sound_aux h ps c n : engine_ok U g cfg c → U h → Forall U ps → headerNumber h = Ok n →
  ∃ c' r, verifyHeader h ps c = (c', r) ∧ engine_ok U g cfg c' ∧
          (r = Ok tt → header_rules (clock (c_tick c)) h n ∧ (n ≠ 0 → cascading_rules h n)).
Proof.
  intros Hc Uh Hps Hn. unfold verifyHeader. rewrite (verifyHeader_eq _ _ _ _ _ Hn), (ok_config _ _ _ c Hc).
  pose proof (set_tick_ok U g cfg (S (c_tick c)) c Hc) as Hc1. set (c1 := set_tick _ c) in *.
  destruct (verifyHeader_fields _ _ _) as [[]|e|] eqn:Ef; [|by exists c1; eexists|by exists c1; eexists].
  apply verifyHeader_fields_ok in Ef as (n' & Hn' & _ & Hf). rewrite Hn in Hn'. injection Hn' as <-.
  destruct (decide (n = 0)) as [->|Hn0].
  - unfold verifyCascadingFields_. rewrite EM_bind_eq. unfold lift at 1. rewrite Hn. cbn.
    exists c1. eexists. by split_and!.
  - destruct (verifyCascading_sound h ps c1 n Hc1 Uh Hps Hn Hn0) as (c2 & r & -> & Hc2 & Hr).
    exists c2, r. split_and!; try done. intros Er. split; [done|]. auto.
Qed.

(** ** Accepted headers extend the replay *)

Lemma not_recently_signed a n signer : archive_wf (arc_Number a) a → n = arc_Number a + 1 → is_u64 n →
  signerLimit a ≤ n → signedRecently a signer n = false →
  recentlySigned (enterBlock a n) signer = false.
Proof.
  intros Hwf -> Hu Hlim Hs. unfold recentlySigned, signedRecently in *.
  apply bool_decide_eq_false in Hs. apply bool_decide_eq_false. intros He. apply Hs. clear Hs.
  destruct (enterBlock_wf a (arc_Number a) Hu Hwf) as (_ & _ & Hin & _ & Esg).
  assert (signerLimit (enterBlock a (arc_Number a + 1)) = signerLimit a) as El
    by (unfold signerLimit; by rewrite Esg).
  apply map_Exists_lookup in He as (k & b & Hk & ->). apply map_Exists_lookup. exists k, signer.
  apply Hin in Hk as Hwin. rewrite El in Hwin. split.
  - assert (∀ k b, arc_Recents (enterBlock a (arc_Number a + 1)) !! k = Some b →
      arc_Recents a !! k = Some b) as Hsub.
    { intros k' b'. unfold enterBlock, shiftRecents. repeat case_match; cbn;
        try done; by intros [_ ?]%lookup_delete_Some. }
    by apply Hsub.
  - split; [done|]. rewrite u64_small; [lia|]. pose proof (signerLimit_pos a). unfold is_u64 in *. lia.
Qed.

Lemma sealed_header_applies a h n signer :
  archive_wf (arc_Number a) a → n = arc_Number a + 1 → is_u64 n → headerNumber h = Ok n →
  Epoch (arc_config a) ≠ 0 → hdr_Nonce h = nonceAuthVote ∨ hdr_Nonce h = nonceDropVote →
  signerLimit a ≤ n → seal_rules a h n signer → ∃ a', archive_apply a [h] = Ok a'.
Proof.
  intros Hwf En Hu Hn HE Hnonce Hlim [Hrec Hauth Hrecent _].
  destruct (enterBlock_wf a (arc_Number a)) as (_ & _ & _ & _ & Esg); [by rewrite <- En|done|].
  assert (∃ b, nonceVote (hdr_Nonce h) = Ok b) as [b Hb] by (destruct Hnonce as [-> | ->]; by eexists).
  assert (∃ a1, applyHeader a h = Ok a1) as [a1 Ha1].
  { eexists. apply applyHeader_ok. exists n, signer, b. split_and!; try done.
    cbv zeta. split; [|split; [|done]].
    - by rewrite En, Esg.
    - apply not_recently_signed; try done. by apply signedRecently_gap. }
  eexists. apply archive_apply_ok. split.
  - cbn. rewrite <- En, u64_small by done. done.
  - exists a1. split; [|done]. cbn. by rewrite Ha1.
Qed.

(** Once the signer limit is reached, accepting a header and replaying it agree. *)
Lemma accepted_extends h ps c c' n arch : engine_ok U g cfg c → U h → Forall U ps →
  headerNumber h = Ok n → n ≠ 0 → verifyHeader h ps c = (c', Ok tt) →
  block_archive U g cfg (hdr_ParentHash h) arch → signerLimit arch ≤ n →
  ∃ a', archive_apply arch [h] = Ok a' ∧ block_archive U g cfg (Header_Hash h) a'.
Proof.
  intros Hc Uh Hps Hn Hn0 Hv Ha Hlim.
  destruct (verifyHeader_sound_aux h ps c n Hc Uh Hps Hn) as (c1 & r & E & _ & Hr).
  rewrite Hv in E. injection E as <- <-. destruct (Hr eq_refl) as [Hf Hcr]. clear Hr.
  destruct (Hcr Hn0) as [(parent & tp & t & Up & Hph & Hpn & _) (arch' & signer & Ha' & Hs & _)].
  rewrite <- (block_archive_unique U g cfg HU _ _ _ Ha Ha') in Hs.
  destruct (block_archive_facts U g cfg HU _ _ Ha) as (_ & Hcfg & Hnum & p & Up' & Hp' & Hpn').
  rewrite <- Hph in Hp'. apply (U_inj U g HU) in Hp' as ->; [|done|done].
  rewrite Hpn in Hpn'. injection Hpn' as En.
  assert (Epoch cfg ≠ 0) as HE.
  { intros E0. unfold verifyHeader in Hv. rewrite (verifyHeader_eq _ _ _ _ _ Hn), (ok_config _ _ _ c Hc) in Hv.
    destruct (verifyHeader_fields _ _ _) as [[]|e|] eqn:Ef; [|done|done].
    by apply verifyHeader_fields_ok in Ef as (? & _ & ? & _). }
  destruct (sealed_header_applies arch h n signer) as (a' & Ha1); try done.
  - by eapply block_archive_wf.
  - lia.
  - unfold is_u64, two64, maxU64 in *. lia.
  - by rewrite Hcfg.
  - apply Hf.
  - exists a'. split; [done|]. exact (ba_step U g cfg h arch a' Uh Ha Ha1).
Qed.

(** ** The first blocks *)

Lemma signedRecently_underflow a n signer :
  0 ≤ n < signerLimit a → signerLimit a < two64 → (∀ k b, arc_Recents a !! k = Some b → k < n) →
  signedRecently a signer n = false.
Proof.
  intros Hn Hlim Hr. apply bool_decide_eq_false. intros (k & b & Hk & _ & Hlt)%map_Exists_lookup.
  apply Hr in Hk. unfold u64 in Hlt.
  rewrite <- (Z_mod_plus_full _ 1), Z.mod_small in Hlt by lia. lia.
Qed.

Lemma inturn_not_able a n signer hash k : arc_Recents a !! k = Some signer → n < signerLimit a →
  ableSigners a n ≠ [] → inturn a n signer hash = Ok false.
Proof.
  intros Hk Hlim Hne. unfold inturn, Intn.
  assert (0 < Z.of_nat (length (ableSigners a n))) as Hpos by (destruct (ableSigners a n); [done|cbn; lia]).
  destruct (Z.leb_spec (Z.of_nat (length (ableSigners a n))) 0); [lia|]. rewrite bind_Ok. f_equal.
  pose proof (seeded_Intn_range (lowHash hash) _ Hpos) as Hr. apply Z.eqb_neq. intros E.
  symmetry in E. apply signerOffset_spec in E; [|apply ableSigners_NoDup|done].
  apply list_elem_of_lookup_2, ableSigners_elem in E as [_ E]. apply E. unfold ableRecents.
  destruct (Z.leb_spec (signerLimit a) n); [lia|]. apply map_Exists_lookup. eauto.
Qed.

(** Before the signer limit is reached, the seal of a signer that has just
    signed is accepted out of turn. *)
Lemma early_repeat_seal a h n k signer :
  archive_wf (arc_Number a) a → n = arc_Number a + 1 → is_u64 n → signerLimit a < two64 →
  n < signerLimit a → arc_Recents a !! k = Some signer → signer ∈ arc_Signers a →
  ecrecover_pure h = Ok signer → hdr_Difficulty h = Some diffNoTurn →
  seal_rules a h n signer.
Proof.
  intros Hwf En Hu Hlim64 Hlim Hk Hin Hrec Hd. destruct (archive_wf_recents _ _ Hwf) as [Hwin _].
  pose proof (Hwin k signer Hk) as Hk0.
  split; [done|done| |].
  - apply signedRecently_gap; [done|]. apply signedRecently_underflow; [lia|done|]. intros k' b Hk'. apply Hwin in Hk'. lia.
  - exists false. split; [|done]. eapply inturn_not_able; [done|done|]. rewrite En.
    apply ableSigners_nonempty; [by rewrite <- En|apply Hwf|]. set_solver.
Qed.

(** The replay refuses it. *)
Lemma early_repeat_apply a h n k signer :
  archive_wf (arc_Number a) a → n = arc_Number a + 1 → is_u64 n → headerNumber h = Ok n →
  Epoch (arc_config a) ≠ 0 → n < signerLimit a → arc_Recents a !! k = Some signer →
  signer ∈ arc_Signers a → ecrecover_pure h = Ok signer →
  archive_apply a [h] = Err errUnauthorized.
Proof.
  intros Hwf En Hu Hn HE Hlim Hk Hin Hrec. unfold archive_apply. cbn [contiguous].
  rewrite bind_Ok, Hn, bind_Ok, <- En, u64_small, Z.eqb_refl by done. cbn [negb fail_if].
  rewrite bind_Ok. cbn [applyHeaders].
  assert (applyHeader a h = Err errUnauthorized) as ->; [|done].
  unfold applyHeader, applyHeaderWith. rewrite Hn, bind_Ok. unfold u64_rem.
  rewrite (proj2 (Z.eqb_neq _ _) HE), bind_Ok. cbn [ecrecover_of engineSeals]. rewrite Hrec, bind_Ok.
  set (a1 := if _ =? 0 then _ else a).
  assert (arc_Recents a1 = arc_Recents a ∧ arc_Signers a1 = arc_Signers a) as [Er Es]
    by (unfold a1; by case_match).
  unfold shiftRecents. assert (signerLimit a1 = signerLimit a) as -> by (unfold signerLimit; by rewrite Es).
  destruct (Z.leb_spec (signerLimit a) n); [lia|].
  rewrite Es, bool_decide_eq_true_2 by done. cbn [negb fail_if]. rewrite bind_Ok.
  unfold recentlySigned. rewrite Er, bool_decide_eq_true_2; [done|].
  apply map_Exists_lookup. eauto.
Qed.

(** ** Headers that satisfy the rules are accepted *)

Lemma verifyHeader_complete h ps c n hs arch signer parent tp t :
  engine_ok U g cfg c → U h → Forall U ps → storage_works g cfg → headerNumber h = Ok n → n ≠ 0 →
  Epoch cfg ≠ 0 → header_rules (clock (c_tick c)) h n →
  parent_of h (n - 1) ps = Some parent → Header_Hash parent = hdr_ParentHash h →
  headerNumber parent = Ok (n - 1) → hdr_TimeMS parent = Some tp → hdr_TimeMS h = Some t →
  (big_Uint64 tp + Period cfg)%u64 ≤ big_Uint64 t →
  reaches U g (n - 1) (hdr_ParentHash h) ps hs →
  archive_apply (genesis_archive g cfg) (reverse hs) = Ok arch →
  (n mod Epoch cfg = 0 →
   slice (E := error) (hdr_Extra h) extraVanity (strlen (hdr_Extra h) - extraSeal) = Ok (signersBytes arch)) →
  seal_rules arch h n signer → ∃ c', verifyHeader h ps c = (c', Ok tt).
Proof.
  intros Hc Uh Hps HW Hn Hn0 HE Hf Hp Hph Hpn Htp Ht Hle Hrc Ha Hck Hs.
  unfold verifyHeader. rewrite (verifyHeader_eq _ _ _ _ _ Hn), (ok_config _ _ _ c Hc).
  rewrite (proj2 (verifyHeader_fields_ok _ _)) by eauto.
  pose proof (set_tick_ok U g cfg (S (c_tick c)) c Hc) as Hc1. set (c1 := set_tick _ c) in *.
  destruct (U_number U g HU h Uh) as (n' & En & Hb). rewrite Hn in En. injection En as <-.
  assert ((n - 1)%u64 = n - 1) as Epred by (apply number_pred; unfold is_u64, two64, maxU64 in *; lia).
  rewrite (verifyCascading_eq _ _ _ _ _ Hn Hn0), (ok_config _ _ _ c1 Hc1).
  rewrite (proj2 (verifyParent_ok _ _ _)) by (rewrite Epred; eauto 10). rewrite Epred.
  destruct (archive_sound U g cfg HU 2 (n - 1) (hdr_ParentHash h) ps c1) as (c2 & r & E & Hc2 & _ & _);
    [done|done|lia|by eapply parent_root|].
  destruct (archive_complete U g cfg HU HW 1 (n - 1) (hdr_ParentHash h) ps hs c1 Hc1 ltac:(lia) Hrc)
    as (c2' & E'). rewrite E, Ha in E'. injection E' as <- ->.
  unfold c_archive at 1. rewrite E, (proj2 (verifyCheckpointSigners_ok _ _ _)) by done.
  by eapply verifySeal_complete.
Qed.

(** ** Sealing *)

Lemma slice_ok {E} (b : list Z) lo hi r : slice (E := E) b lo hi = Ok r ↔
  0 ≤ lo ∧ lo ≤ hi ∧ hi ≤ strlen b ∧ r = take (Z.to_nat (hi - lo)) (drop (Z.to_nat lo) b).
Proof.
  unfold slice. destruct (Z.leb_spec 0 lo), (Z.leb_spec lo hi), (Z.leb_spec hi (strlen b)); cbn;
    split; intros Hs; destruct_and?; try lia; try done; [by injection Hs as <-|by subst].
Qed.

(** Putting a 65-byte seal in a header changes neither what is signed nor the
    length of the extra-data. *)
Lemma putSeal_spec h sig h' : putSeal h sig = Ok h' → strlen sig = extraSeal →
  65 ≤ strlen (hdr_Extra h) ∧
  h' = set_Extra (take (length (hdr_Extra h) - 65) (hdr_Extra h) ++ sig) h.
Proof.
  unfold putSeal, extraSeal. intros Hp Hsig. apply bind_ok in Hp as (room & (Hlo & _ & _ & ->)%slice_ok & [= <-]).
  split; [lia|]. f_equal. f_equal; [f_equal; lia|].
  set (n := (length (hdr_Extra h) - 65)%nat).
  assert (length (take (Z.to_nat (strlen (hdr_Extra h) - (strlen (hdr_Extra h) - 65)))
    (drop (Z.to_nat (strlen (hdr_Extra h) - 65)) (hdr_Extra h))) = 65%nat) as El
    by (rewrite length_take, length_drop; lia).
  rewrite El. replace (Nat.min 65 (length sig)) with 65%nat by lia.
  rewrite (take_ge sig), (drop_ge (take _ _)) by lia. by rewrite app_nil_r.
Qed.

Lemma sealed_value_seal {E} h sig : 65 ≤ strlen (hdr_Extra h) → strlen sig = 65 →
  sealed_value (E := E) (set_Extra (take (length (hdr_Extra h) - 65) (hdr_Extra h) ++ sig) h) =
  sealed_value h.
Proof.
  intros H65 Hs. unfold sealed_value. cbn [hdr_Extra set_Extra].
  set (x := take (length (hdr_Extra h) - 65) (hdr_Extra h)).
  assert (length x = length (hdr_Extra h) - 65)%nat as Ex by (unfold x; rewrite length_take; lia).
  assert (slice (E := E) (x ++ sig) 0 (strlen (x ++ sig) - 65) = Ok x) as E1.
  { apply slice_ok. rewrite length_app. split_and!; try lia. rewrite drop_0.
    replace (Z.to_nat _) with (length x) by lia. by rewrite take_app_length. }
  assert (slice (E := E) (hdr_Extra h) 0 (strlen (hdr_Extra h) - 65) = Ok x) as E2.
  { apply slice_ok. split_and!; try lia. rewrite drop_0. unfold x. f_equal. lia. }
  by rewrite E1, E2.
Qed.

Lemma ecrecover_sealed h sig h' signer sh : putSeal h sig = Ok h' → strlen sig = extraSeal →
  sigHash (E := error) h = Ok sh → recoverAddress sh sig = Ok signer → ecrecover_pure h' = Ok signer.
Proof.
  intros Hp Hsig Hsh Hrec. destruct (putSeal_spec h sig h' Hp Hsig) as [H65 ->].
  unfold extraSeal in Hsig. unfold ecrecover_pure, extraSeal. cbn [hdr_Extra set_Extra].
  set (x := take (length (hdr_Extra h) - 65) (hdr_Extra h)).
  rewrite (proj2 (Z.ltb_ge _ _)) by (rewrite length_app; lia). cbn [fail_if]. rewrite bind_Ok.
  assert (slice (E := error) (x ++ sig) (strlen (x ++ sig) - 65) (strlen (x ++ sig)) = Ok sig) as ->.
  { apply slice_ok. rewrite length_app. split_and!; try lia.
    replace (Z.to_nat (Z.of_nat (length x + length sig) - 65)) with (length x) by lia.
    rewrite drop_app_length, take_ge by lia. done. }
  rewrite bind_Ok. unfold sigHash in *. rewrite (sealed_value_seal h sig H65 Hsig).
  by rewrite Hsh, bind_Ok.
Qed.

Lemma mustWait_signedRecently a signer n : mustWait a signer n = false → signedRecently a signer n = false.
Proof.
  unfold mustWait, signedRecently. rewrite !bool_decide_eq_false. intros Hm Hs. apply Hm.
  rewrite map_Exists_lookup in *. naive_solver.
Qed.

(** ** Preparing *)

(** The vote of a prepared header. *)
Definition vote_rules (checkpoint : Prop) (coinbase : Address) (nonce : BlockNonce) : Prop :=
  (nonce = nonceAuthVote ∨ nonce = nonceDropVote) ∧
  (checkpoint → coinbase = zeroAddress ∧ nonce = nonceDropVote).

Lemma prepareVote_spec arch pos h c c' h' : prepareVote arch pos h c = (c', Ok h') →
  c_signer c' = c_signer c ∧
  ∃ coinbase nonce, vote_rules (pos = 0) coinbase nonce ∧ h' = set_vote coinbase nonce h.
Proof.
  unfold prepareVote. destruct (Z.eqb_spec pos 0) as [E|E].
  - intros [= <- <-]. split; [done|]. exists zeroAddress, (replicate 8 0). by repeat split; auto.
  - rewrite EM_bind_eq. unfold get at 1. destruct (0 <? _).
    + rewrite EM_bind_eq. unfold randIntn at 1. destruct (_ <=? 0); [done|].
      rewrite EM_bind_eq. unfold lift at 1. destruct (deref _) as [a|e|]; [|done|done].
      intros [= <- <-]. split; [done|]. do 2 eexists. split; [|done].
      split; [|done]. case_match; auto.
    + intros [= <- <-]. split; [done|]. exists zeroAddress, (replicate 8 0). by repeat split; auto.
Qed.

(** The time of a prepared header. *)
Definition prepared_time (earliest t : Z) : Prop :=
  (∃ k, clock k ≤ big_Int64 earliest ∧ t = earliest) ∨
  (∃ k, big_Int64 earliest < clock k ∧ t = clock (S k)).

Lemma prepareTime_spec time c c' t : prepareTime time c = (c', Ok t) → prepared_time time t.
Proof.
  unfold prepareTime. rewrite EM_bind_eq. unfold Now at 1. destruct (Z.ltb_spec (big_Int64 time) (clock (c_tick c))).
  - intros [= <- <-]. right. by eexists.
  - intros [= <- <-]. left. by eexists.
Qed.

Lemma Prepare_spec h c c' h' n : engine_ok U g cfg c → headerNumber h = Ok n → 1 ≤ n < maxU64 →
  (n = 1 → hdr_ParentHash h = Header_Hash g) → Prepare h c = (c', Ok h') →
  ∃ arch parent tp t d coinbase nonce,
    block_archive U g cfg (hdr_ParentHash h) arch ∧ Epoch cfg ≠ 0 ∧
    GetHeader (hdr_ParentHash h) (n - 1) = Some parent ∧ hdr_TimeMS parent = Some tp ∧
    prepared_time (tp + Period cfg) t ∧ calcDifficulty arch (c_signer c) = Ok d ∧
    vote_rules (n mod Epoch cfg = 0) coinbase nonce ∧
    h' = set_prepared d (prepareExtra arch (n mod Epoch cfg) (hdr_Extra h)) t (set_vote coinbase nonce h).
Proof.
  intros Hc Hn Hb Hroot. unfold Prepare. rewrite EM_bind_eq. unfold lift at 1. rewrite Hn, EM_bind_eq.
  rewrite (number_pred n) by (unfold is_u64, two64, maxU64 in *; lia).
  destruct (archive_sound U g cfg HU 2 (n - 1) (hdr_ParentHash h) [] c) as (c1 & r & E & Hc1 & Ha & Hr);
    [done|by constructor|lia|intros; apply Hroot; lia|].
  unfold c_archive at 1. rewrite E. destruct r as [arch|e|]; [|done|done].
  rewrite EM_bind_eq. unfold get at 1. rewrite (ok_config _ _ _ _ Hc1), EM_bind_eq. unfold lift at 1.
  destruct (u64_rem n (Epoch cfg)) as [pos|e|] eqn:Er; [|done|done].
  apply u64_rem_ok in Er as [HE ->]. rewrite EM_bind_eq.
  destruct (prepareVote _ _ _ _) as [c2 [h1|e|]] eqn:Ev; [|done|done].
  apply prepareVote_spec in Ev as (Es & coinbase & nonce & Hv & ->).
  rewrite EM_bind_eq. unfold get at 1. rewrite EM_bind_eq. unfold lift at 1.
  rewrite Es, (proj1 (proj2 Ha)).
  destruct (calcDifficulty _ _) as [d|e|] eqn:Ed; [|done|done].
  cbn [hdr_ParentHash set_vote]. destruct (GetHeader _ _) as [parent|] eqn:Ep; [|done].
  rewrite EM_bind_eq. unfold lift at 1. destruct (hdr_TimeMS parent) as [tp|] eqn:Etp; [|done].
  cbn [deref]. rewrite EM_bind_eq. destruct (prepareTime _ _) as [c3 [t|e|]] eqn:Et; [|done|done].
  apply prepareTime_spec in Et. intros [= <- <-].
  exists arch, parent, tp, t, d, coinbase, nonce. by split_and!.
Qed.

Lemma headerNumber_Copy h n : headerNumber h = Ok n → headerNumber (CopyHeader h) = Ok n.
Proof. unfold headerNumber. by destruct h as [? ? ? ? ? ? ? ? [m|]]. Qed.

Lemma headerNumber_nonneg h n : headerNumber h = Ok n → 0 ≤ n.
Proof.
  unfold headerNumber. destruct (hdr_Number h) as [m|]; [|done]. intros [= <-]. apply big_Uint64_range.
Qed.

(** What [Seal] returns, when it returns a block. *)
Lemma Seal_spec h ntxs stopped c c' h' n : engine_ok U g cfg c → headerNumber h = Ok n → n < maxU64 →
  (n = 1 → hdr_ParentHash h = Header_Hash g) → Seal h ntxs stopped c = (c', Ok (Some h')) →
  1 ≤ n ∧ ∃ arch signFn sh sig,
    block_archive U g cfg (hdr_ParentHash h) arch ∧ c_signer c ∈ arc_Signers arch ∧
    mustWait arch (c_signer c) n = false ∧ c_signFn c = Some signFn ∧
    sigHash (E := error) (CopyHeader h) = Ok sh ∧ signFn sh = Ok sig ∧
    putSeal (CopyHeader h) sig = Ok h'.
Proof.
  intros Hc Hn Hb Hroot. unfold Seal. cbv zeta. rewrite EM_bind_eq. unfold lift at 1.
  rewrite (headerNumber_Copy h n Hn).
  pose proof (headerNumber_nonneg h n Hn) as Hpos.
  rewrite EM_bind_eq. unfold lift at 1. destruct (Z.eqb_spec n 0) as [|Hn0]; [done|]. cbn [fail_if].
  rewrite EM_bind_eq. unfold get at 1. rewrite EM_bind_eq. unfold lift at 1.
  destruct (fail_if _ _) as [[]|e|]; [|done|done]. rewrite EM_bind_eq. unfold get at 1.
  rewrite EM_bind_eq. unfold get at 1. rewrite EM_bind_eq.
  rewrite (number_pred n) by (unfold is_u64, two64, maxU64 in *; lia).
  destruct (archive_sound U g cfg HU 2 (n - 1) (hdr_ParentHash h) [] c) as (c1 & r & E & Hc1 & Ha & Hr);
    [done|by constructor|lia|intros; apply Hroot; lia|].
  unfold c_archive at 1. change (hdr_ParentHash (CopyHeader h)) with (hdr_ParentHash h). rewrite E.
  destruct r as [arch|e|]; [|done|done]. rewrite EM_bind_eq. unfold lift at 1.
  destruct (decide (c_signer c ∈ arc_Signers arch)) as [Hin|Hin];
    [rewrite bool_decide_eq_true_2 by done|by rewrite bool_decide_eq_false_2]. cbn [negb fail_if].
  destruct (mustWait _ _ _) eqn:Ew; [done|]. destruct stopped; [done|].
  rewrite EM_bind_eq. unfold lift at 1. destruct (c_signFn c) as [signFn|]; [|done]. cbn [deref].
  rewrite EM_bind_eq. unfold lift at 1. destruct (sigHash _) as [sh|e|] eqn:Esh; [|done|done].
  rewrite EM_bind_eq. unfold lift at 1. destruct (signFn sh) as [sig|e|] eqn:Esig; [|done|done].
  rewrite EM_bind_eq. unfold lift at 1. destruct (putSeal _ sig) as [h2|e|] eqn:Ep; [|done|done].
  intros [= <- <-]. split; [lia|]. exists arch, signFn, sh, sig. by split_and!.
Qed.

(** ** Addresses are 20 bytes long *)

Lemma vote_step_signers b voter c authorize :
  bal_signers (vote_step b voter c authorize) ⊆ {[c]} ∪ bal_signers b.
Proof. unfold vote_step, settle. repeat case_match; cbn; set_solver. Qed.

Lemma splitAddresses_length n b a : a ∈ splitAddresses n b → length a = AddressLength.
Proof.
  revert b. induction n as [|n IH]; intros b; cbn [splitAddresses]; [by intros ?%elem_of_nil|].
  intros [->|Hin]%elem_of_cons; [|eauto]. unfold copyAddress. rewrite length_take, length_app.
  assert (length zeroAddress = AddressLength) as -> by done. lia.
Qed.

Lemma block_archive_typed k arch a : (∀ h, U h → header_ok h) → block_archive U g cfg k arch →
  a ∈ arc_Signers arch → length a = AddressLength.
Proof.
  intros Hty Hb. revert a. induction Hb as [|h arch arch' Uh Hb IH Ha]; intros a Hin.
  - cbn in Hin. apply elem_of_list_to_set in Hin. by eapply splitAddresses_length.
  - pose proof (block_archive_wf _ _ Hb) as Hwf.
    destruct (block_archive_facts U g cfg HU _ _ Hb) as (_ & _ & Hn & _).
    destruct (apply_one arch h arch' Ha) as (Hnum & _ & _ & _).
    rewrite u64_small in Hnum by (unfold is_u64, two64, maxU64 in *; lia).
    apply archive_apply_ok in Ha as (_ & a1 & Ha1 & ->). cbn [applyHeaders] in Ha1.
    apply bind_ok in Ha1 as (a2 & Ha2 & [= <-]).
    apply (applyHeader_step (arc_Number arch)) in Ha2 as (signer & auth & _ & _ & _ & E & _);
      [|unfold is_u64, two64, maxU64 in *; lia|lia|done|done].
    apply (f_equal bal_signers) in E. change (arc_Signers a2 = bal_signers (vote_step
      (if (arc_Number arch + 1) mod Epoch (arc_config arch) =? 0
       then checkpoint_step (archive_abs arch) else archive_abs arch) signer (hdr_Coinbase h) auth)) in E.
    assert (a ∈ {[hdr_Coinbase h]} ∪ arc_Signers arch) as Hin'.
    { change (arc_Signers (sealed [h] a2)) with (arc_Signers a2) in Hin. rewrite E in Hin.
      apply vote_step_signers in Hin. by case_match. }
    apply elem_of_union in Hin' as [->%elem_of_singleton|Hin']; [apply (hok_Coinbase _ (Hty h Uh))|eauto].
Qed.

Lemma length_concat_same {A} (l : list (list A)) k :
  (∀ x, x ∈ l → length x = k) → length (concat l) = (k * length l)%nat.
Proof.
  induction l as [|x l IH]; intros Hl; cbn [concat length]; [lia|].
  rewrite length_app, IH by (intros; apply Hl; by right). rewrite (Hl x) by (by left). lia.
Qed.

(** ** What is sealed is accepted *)

Record sane_clock : Prop := {
  clock_range : ∀ k, 0 ≤ clock k < 2 ^ 63;
  clock_mono : ∀ k, clock k ≤ clock (S k)
}.

(** The signing callback makes seals of the configured account. *)
Definition signs_for (c : DPos) : Prop := ∀ signFn sh sig,
  c_signFn c = Some signFn → signFn sh = Ok sig →
  strlen sig = extraSeal ∧ recoverAddress sh sig = Ok (c_signer c).

Lemma prepareExtra_shape arch pos extra : ∃ vanity, strlen vanity = extraVanity ∧
  prepareExtra arch pos extra =
  (vanity ++ if pos =? 0 then signersBytes arch else []) ++ replicate 65 0.
Proof.
  exists (take (Z.to_nat extraVanity) (extra ++ replicate (Z.to_nat extraVanity - length extra) 0)).
  split; [|unfold prepareExtra; by rewrite (assoc_L (++))].
  rewrite length_take, length_app, length_replicate. unfold extraVanity. lia.
Qed.

Lemma prepared_time_after earliest t : sane_clock → 0 ≤ earliest < 2 ^ 63 →
  prepared_time earliest t → earliest ≤ t < 2 ^ 63.
Proof.
  intros HC He Ht. assert (big_Int64 earliest = earliest) as Ei.
  { change (2 ^ 63) with 9223372036854775808 in He. unfold big_Int64, i64. cbv zeta.
    rewrite (Z.abs_eq earliest), (Z.mod_small earliest) by (unfold two64; lia).
    rewrite (proj2 (Z.ltb_ge earliest 0)), (proj2 (Z.ltb_lt earliest _)) by lia. done. }
  destruct Ht as [(k & _ & ->)|(k & Hk & ->)]; [lia|]. rewrite Ei in Hk.
  pose proof (clock_mono HC k). pose proof (clock_range HC (S k)). lia.
Qed.

(** The extra-data of a sealed header satisfies the format rules. *)
Lemma sealed_extra_rules arch n vanity sig :
  strlen vanity = extraVanity → strlen sig = extraSeal →
  (∀ a, a ∈ arc_Signers arch → length a = AddressLength) →
  let extra := (vanity ++ if n mod Epoch cfg =? 0 then signersBytes arch else []) ++ sig in
  extraVanity + extraSeal ≤ strlen extra ∧
  (n mod Epoch cfg ≠ 0 → strlen extra = extraVanity + extraSeal) ∧
  (n mod Epoch cfg = 0 →
   (strlen extra - extraVanity - extraSeal) mod Z.of_nat AddressLength = 0 ∧
   slice (E := error) extra extraVanity (strlen extra - extraSeal) = Ok (signersBytes arch)).
Proof.
  intros Hv Hs Hty extra. unfold extra. rewrite !length_app.
  destruct (Z.eqb_spec (n mod Epoch cfg) 0) as [E|E]; [|by split_and!; cbn [length]; intros; lia].
  split_and!; [lia|done|]. intros _.
  assert (length (signersBytes arch) = (AddressLength * length (signers arch))%nat) as El.
  { apply length_concat_same. intros a Ha. apply Hty. unfold signers, signers_from in Ha.
    rewrite sortAddresses_perm in Ha. by apply elem_of_elements. }
  split.
  - replace (_ - _ - _) with (Z.of_nat (length (signers arch)) * Z.of_nat AddressLength)
      by (rewrite El; lia).
    apply Z_mod_mult.
  - apply slice_ok. rewrite !length_app. unfold extraVanity in *. split_and!; try lia.
    replace (Z.to_nat 32) with (length vanity) by lia. rewrite <- (assoc_L (++)), drop_app_length.
    replace (Z.to_nat _) with (length (signersBytes arch)) by lia. by rewrite take_app_length.
Qed.

Lemma calcDifficulty_turn arch signer d n k : block_archive U g cfg k arch → n = arc_Number arch + 1 →
  calcDifficulty arch signer = Ok d →
  ∃ turn : bool, inturn arch n signer k = Ok turn ∧ d = (if turn then diffInTurn else diffNoTurn).
Proof.
  intros Hb ->. destruct (block_archive_facts U g cfg HU _ _ Hb) as (<- & _ & Hn & _).
  unfold calcDifficulty. rewrite u64_small by (unfold is_u64, two64, maxU64 in *; lia).
  intros (turn & Ht & [= <-])%bind_ok. by exists turn.
Qed.

Lemma chain_parent_number k n parent arch : GetHeader k n = Some parent →
  block_archive U g cfg k arch → arc_Number arch = n.
Proof.
  intros (Up & Hk & Hpn)%(U_chain U g HU) Hb.
  destruct (block_archive_facts U g cfg HU _ _ Hb) as (_ & _ & _ & p & Up' & Hp & Hn).
  rewrite <- Hk in Hp. apply (U_inj U g HU) in Hp as ->; [|done|done]. congruence.
Qed.

(** The header that [Prepare], [Finalize] and [Seal] make of [h]. *)
Definition sealedHeader (h : Header) (coinbase : Address) (nonce : BlockNonce) (d t : Z) (extra : list Z)
    (root txh rh : Hash) (bloom : list Z) : Header :=
  set_Extra extra (CopyHeader (Finalize root txh rh bloom
    (set_prepared d extra t (set_vote coinbase nonce h)))).

Lemma sealedHeader_rules h coinbase nonce d t arch vanity sig root txh rh bloom n now :
  let extra := (vanity ++ if n mod Epoch cfg =? 0 then signersBytes arch else []) ++ sig in
  let h3 := sealedHeader h coinbase nonce d t extra root txh rh bloom in
  strlen vanity = extraVanity → strlen sig = extraSeal →
  (∀ a, a ∈ arc_Signers arch → length a = AddressLength) →
  vote_rules (n mod Epoch cfg = 0) coinbase nonce → t ≤ now + futureTime_ms →
  d = diffInTurn ∨ d = diffNoTurn → VerifyForkHashes chain_Config h3 false = Ok tt →
  header_rules now h3 n.
Proof.
  intros extra h3 Hv Hs Hty [Hnonce Hck] Ht Hd Hf.
  destruct (sealed_extra_rules arch n vanity sig Hv Hs Hty) as (X1 & X2 & X3). fold extra in X1, X2, X3.
  split; try done.
  - by exists t.
  - intros E. destruct (Hck E), (X3 E). done.
  - intros _. destruct Hd as [-> | ->]; auto.
Qed.

Lemma putSeal_prepared h sig h3 coinbase nonce d t arch pos vanity root txh rh bloom :
  putSeal (CopyHeader (Finalize root txh rh bloom
    (set_prepared d (prepareExtra arch pos (hdr_Extra h)) t (set_vote coinbase nonce h)))) sig = Ok h3 →
  strlen sig = extraSeal →
  prepareExtra arch pos (hdr_Extra h) = (vanity ++ if pos =? 0 then signersBytes arch else []) ++ replicate 65 0 →
  h3 = sealedHeader h coinbase nonce d t
         ((vanity ++ if pos =? 0 then signersBytes arch else []) ++ sig) root txh rh bloom.
Proof.
  intros Hput Hlen Hshape. destruct (putSeal_spec _ _ _ Hput Hlen) as [_ ->].
  set (x := vanity ++ _) in *. cbn [hdr_Extra CopyHeader Finalize set_prepared]. rewrite Hshape.
  replace (length (x ++ replicate 65 0%Z) - 65)%nat with (length x)
    by (rewrite length_app, length_replicate; lia).
  by rewrite take_app_length.
Qed.

Lemma Seal_verifies_aux h h1 h3 miner miner1 miner2 miner3 v root txh rh bloom ntxs stopped n hs arch :
  (∀ h, U h → header_ok h) → storage_works g cfg → sane_clock → 0 ≤ Period cfg →
  engine_ok U g cfg miner → engine_ok U g cfg miner2 → engine_ok U g cfg v →
  headerNumber h = Ok n → 1 ≤ n < maxU64 → (n = 1 → hdr_ParentHash h = Header_Hash g) →
  Prepare h miner = (miner1, Ok h1) →
  c_signer miner2 = c_signer miner → signs_for miner2 →
  Seal (Finalize root txh rh bloom h1) ntxs stopped miner2 = (miner3, Ok (Some h3)) →
  U h3 →
  (∀ t, hdr_TimeMS h3 = Some t → t ≤ clock (c_tick v) + futureTime_ms) →
  (∀ parent tp, GetHeader (hdr_ParentHash h) (n - 1) = Some parent → hdr_TimeMS parent = Some tp →
     tp + Period cfg < 2 ^ 63) →
  VerifyForkHashes chain_Config h3 false = Ok tt →
  reaches U g (n - 1) (hdr_ParentHash h) [] hs →
  archive_apply (genesis_archive g cfg) (reverse hs) = Ok arch →
  ∃ v', VerifyHeader h3 v = (v', Ok tt).
Proof.
  intros Hty HW HC HP Hm Hm2 Hv Hn Hb Hroot Hprep Hsame Hsign Hseal U3 Htime Hparent Hfork Hrc Ha.
  pose proof (reaches_down U g HU _ _ _ _ Hrc) as Hdown.
  pose proof (block_archive_down U g cfg HU _ _ _ _ _ Hdown (ba_genesis U g cfg) Ha) as Hblock.
  destruct (Prepare_spec h miner miner1 h1 n Hm Hn Hb Hroot Hprep)
    as (arch' & parent & tp & t & d & coinbase & nonce & Hb1 & HE & Hp & Htp & Ht & Hd & Hvote & E1).
  pose proof (block_archive_unique U g cfg HU _ _ _ Hb1 Hblock) as ->.
  set (h2 := Finalize root txh rh bloom h1) in *.
  assert (headerNumber h2 = Ok n ∧ hdr_ParentHash h2 = hdr_ParentHash h) as [Hn2 Hph2].
  { subst h2 h1. split; [exact (headerNumber_Copy h n Hn)|done]. }
  destruct (Seal_spec h2 ntxs stopped miner2 miner3 h3 n Hm2 Hn2 ltac:(lia)) as
    (_ & arch' & signFn & sh & sig & Hb2 & Hin & Hwait & Hf & Hsh & Hsig & Hput); [by rewrite Hph2|done|].
  rewrite Hph2 in Hb2. pose proof (block_archive_unique U g cfg HU _ _ _ Hb2 Hblock) as ->.
  destruct (Hsign _ _ _ Hf Hsig) as [Hlen Hrec].
  pose proof (ecrecover_sealed _ _ _ _ _ Hput Hlen Hsh Hrec) as Hrec3.
  destruct (prepareExtra_shape arch (n mod Epoch cfg) (hdr_Extra h)) as (vanity & Hvan & Hshape).
  subst h2 h1. pose proof (putSeal_prepared _ _ _ _ _ _ _ _ _ _ _ _ _ _ Hput Hlen Hshape) as E3.
  set (extra := (vanity ++ _) ++ sig) in E3.
  assert (∀ a, a ∈ arc_Signers arch → length a = AddressLength) as Haddr
    by (intros a; by eapply block_archive_typed).
  pose proof (chain_parent_number _ _ _ _ Hp Hblock) as Hnum.
  destruct (calcDifficulty_turn _ _ _ n _ Hblock ltac:(lia) Hd) as (turn & Hturn & ->).
  destruct (U_chain U g HU _ _ _ Hp) as (Up & Hpk & Hpn).
  pose proof (hok_TimeMS _ (Hty parent Up)) as Htp0. rewrite Htp in Htp0. cbn in Htp0.
  specialize (Hparent _ _ Hp Htp).
  apply (prepared_time_after _ _ HC) in Ht; [|lia].
  destruct (sealed_extra_rules arch n vanity sig Hvan Hlen Haddr) as (_ & _ & Hck). fold extra in Hck.
  unfold VerifyHeader. eapply (verifyHeader_complete h3 [] v n hs arch (c_signer miner2) parent tp t);
    try done; try (by rewrite E3).
  - lia.
  - rewrite E3. apply sealedHeader_rules; try done.
    + apply Htime. by rewrite E3.
    + destruct turn; auto.
    + rewrite E3 in Hfork. exact Hfork.
  - unfold big_Uint64, two64. rewrite !Z.mod_small by lia. rewrite u64_small; [lia|].
    unfold is_u64, two64. lia.
  - intros E. rewrite E3. by apply Hck.
  - rewrite E3. split; try done.
    + rewrite E3 in Hrec3. exact Hrec3.
    + apply signedRecently_gap; [unfold is_u64, two64, maxU64 in *; lia|].
      by apply mustWait_signedRecently.
    + exists turn. rewrite Hsame. done.
Qed.

Lemma reaches_number n k ps hs arch : reaches U g n k ps hs → block_archive U g cfg k arch →
  arc_Number arch = n.
Proof.
  intros Hrc Hb. destruct (block_archive_facts U g cfg HU _ _ Hb) as (_ & _ & _ & p & Up & Hp & Hn).
  destruct Hrc as [ps|n ps h hs Uh _ Hh _|n k h hs _ Hg _].
  - apply (U_inj U g HU) in Hp as ->; [|done|apply HU]. rewrite (U_genesis_number U g HU) in Hn. congruence.
  - apply (U_inj U g HU) in Hp as ->; [|done|done]. congruence.
  - apply (U_chain U g HU) in Hg as (Uh & <- & Hh). apply (U_inj U g HU) in Hp as ->; [|done|done]. congruence.
Qed.

End Verify.

(** C2. An accepted header satisfies every rule of the protocol: [verifyHeader]
    keeps the engine coherent, and when it returns no error the header's own
    fields are well formed and, above the genesis block, its parent exists with
    the preceding number and is at least a period older, the checkpoint list is
    the sorted signer list of the archive of the parent, and the seal is by a
    signer of that archive with the difficulty of its turn, whose last seal that
    the archive remembers is at least [len(Signers)/2 + 1] blocks back once the
    block number has reached that limit.  Below the limit the code's [uint64]
    difference wraps around and that rule is void. *)
Theorem verifyHeader_sound
    `{Keccak, Crypto, Rand, Database, ArchiveJSON, Environment, HRec : ARCCache Archive,
      HSig : ARCCache Address, ChainReader}
    (U : Header → Prop) (g : Header) (cfg : DPosConfig) (HU : universe U g)
    (h : Header) (parents : list Header) (c : DPos) (n : Z)
    (Hc : engine_ok U g cfg c) (Uh : U h) (Hps : Forall U parents) (Hn : headerNumber h = Ok n) :
  let '(c', r) := verifyHeader h parents c in
  engine_ok U g cfg c' ∧
  (r = Ok tt → header_rules cfg (clock (c_tick c)) h n ∧ (n ≠ 0 → cascading_rules U g cfg h n)).
Proof.
  destruct (verifyHeader_sound_aux U g cfg HU h parents c n Hc Uh Hps Hn) as (c' & r & -> & Hc' & Hr).
  by split.
Qed.

(** Verification and replay agree: a header that [verifyHeader] accepts on
    top of a block with an archive, and whose number has reached the signer
    limit of that archive, is also accepted by [apply]; the chain so extended
    has an archive again. *)
Theorem verifyHeader_extends
    `{Keccak, Crypto, Rand, Database, ArchiveJSON, Environment, HRec : ARCCache Archive,
      HSig : ARCCache Address, ChainReader}
    (U : Header → Prop) (g : Header) (cfg : DPosConfig) (HU : universe U g)
    (h : Header) (parents : list Header) (c c' : DPos) (n : Z) (arch : Archive)
    (Hc : engine_ok U g cfg c) (Uh : U h) (Hps : Forall U parents) (Hn : headerNumber h = Ok n)
    (Hn0 : n ≠ 0) (Hv : verifyHeader h parents c = (c', Ok tt))
    (Ha : block_archive U g cfg (hdr_ParentHash h) arch) (Hlim : signerLimit arch ≤ n) :
  ∃ arch', archive_apply arch [h] = Ok arch' ∧ block_archive U g cfg (Header_Hash h) arch'.
Proof. by eapply accepted_extends. Qed.

(** C40. Below the signer limit they disagree: [number-limit] underflows in
    [verifySeal], so a signer that has just signed can seal again out of turn
    and [VerifySeal] accepts the header, while [apply] rejects it as
    unauthorized. *)
Theorem verifySeal_underflow
    `{Keccak, Crypto, Rand, Database, ArchiveJSON, Environment, HRec : ARCCache Archive,
      HSig : ARCCache Address, ChainReader}
    (U : Header → Prop) (g : Header) (cfg : DPosConfig) (HU : universe U g) (HW : storage_works g cfg)
    (h : Header) (c : DPos) (n : Z) (hs : list Header) (arch : Archive) (seen : Z) (signer : Address)
    (Hc : engine_ok U g cfg c) (Uh : U h) (Hn : headerNumber h = Ok n) (Hn0 : n ≠ 0)
    (HE : Epoch cfg ≠ 0) (Hrc : reaches U g (n - 1) (hdr_ParentHash h) [] hs)
    (Ha : archive_apply (genesis_archive g cfg) (reverse hs) = Ok arch)
    (Hsize : signerLimit arch < two64) (Hlim : n < signerLimit arch)
    (Hseen : arc_Recents arch !! seen = Some signer) (Hin : signer ∈ arc_Signers arch)
    (Hrec : ecrecover_pure h = Ok signer) (Hd : hdr_Difficulty h = Some diffNoTurn) :
  (∃ c', VerifySeal h c = (c', Ok tt)) ∧ archive_apply arch [h] = Err errUnauthorized.
Proof.
  pose proof (reaches_down U g HU _ _ _ _ Hrc) as Hdown.
  pose proof (block_archive_down U g cfg HU _ _ _ _ _ Hdown (ba_genesis U g cfg) Ha) as Hb.
  pose proof (block_archive_wf U g cfg HU _ _ Hb) as Hwf.
  pose proof (reaches_number U g cfg HU _ _ _ _ _ Hrc Hb) as Hnum.
  destruct (block_archive_facts U g cfg HU _ _ Hb) as (_ & Hcfg & _ & _).
  destruct (U_number U g HU h Uh) as (n' & En & Hr). rewrite Hn in En. injection En as <-.
  assert (is_u64 n) as Hu by (unfold is_u64, two64, maxU64 in *; lia). split.
  - eapply (verifySeal_complete U g cfg HU); try done. eapply early_repeat_seal; try done. lia.
  - apply (early_repeat_apply arch h n seen signer); try done; [lia|by rewrite Hcfg].
Qed.

(** C38. What a node seals, the others accept: when [Prepare] and later [Seal]
    succeed for a signer, the header that comes out is accepted by [VerifyHeader]
    of any coherent engine that has the chain below it, whose clock is not more
    than the allowed drift behind, whatever votes, vanity, random choices and
    cache contents went into it.  No honest block is lost to a rule that the
    producing side does not follow. *)
Theorem Seal_verifies
    `{Keccak, Crypto, Rand, Database, ArchiveJSON, Environment, HRec : ARCCache Archive,
      HSig : ARCCache Address, ChainReader}
    (U : Header → Prop) (g : Header) (cfg : DPosConfig) (HU : universe U g)
    (h h1 h3 : Header) (miner miner1 miner2 miner3 verifier : DPos)
    (root txHash receiptHash : Hash) (bloom : list Z) (ntxs : Z) (stopped : bool)
    (n : Z) (hs : list Header) (arch : Archive)
    (Htyped : ∀ h, U h → header_ok h) (HW : storage_works g cfg) (HC : sane_clock) (HP : 0 ≤ Period cfg)
    (Hm : engine_ok U g cfg miner) (Hm2 : engine_ok U g cfg miner2) (Hv : engine_ok U g cfg verifier)
    (Hn : headerNumber h = Ok n) (Hn1 : 1 ≤ n < maxU64) (Hroot : n = 1 → hdr_ParentHash h = Header_Hash g)
    (Hprepare : Prepare h miner = (miner1, Ok h1))
    (Hsame : c_signer miner2 = c_signer miner) (Hsign : signs_for miner2)
    (Hseal : Seal (Finalize root txHash receiptHash bloom h1) ntxs stopped miner2 = (miner3, Ok (Some h3)))
    (U3 : U h3)
    (Htime : ∀ t, hdr_TimeMS h3 = Some t → t ≤ clock (c_tick verifier) + futureTime_ms)
    (Hparent : ∀ parent tp, GetHeader (hdr_ParentHash h) (n - 1) = Some parent →
       hdr_TimeMS parent = Some tp → tp + Period cfg < 2 ^ 63)
    (Hfork : VerifyForkHashes chain_Config h3 false = Ok tt)
    (Hrc : reaches U g (n - 1) (hdr_ParentHash h) [] hs)
    (Ha : archive_apply (genesis_archive g cfg) (reverse hs) = Ok arch) :
  ∃ verifier', VerifyHeader h3 verifier = (verifier', Ok tt).
Proof.
  apply (Seal_verifies_aux U g cfg HU h h1 h3 miner miner1 miner2 miner3 verifier root txHash receiptHash
    bloom ntxs stopped n hs arch); assumption.
Qed.
