(* ===== verification/DposDemo.v ===== *)
(** * The DPoS engine: a concrete chain

    Instances of every interface of the engine, and a chain of four blocks
    sealed by the first three of four signers.  The theorems on the engine are
    applied to it: their hypotheses hold of a real run. *)

From S2P Require Import Prelude Types Interfaces Rlp HeaderHash DposArchive DposVoting DposReplay DposTurn DposEngine DposEngineSpec DposVerify.
From stdpp Require Import base tactics option list numbers gmap countable.
From Stdlib Require Import ZArith Lia.

#[local] Open Scope Z_scope.

Module DemoEngine.

(** ** Instances *)

(** A 32-byte checksum; a public key is hashed to its last 32 bytes. *)
#[local] Instance demoKeccak : Keccak := {|
  Keccak256 b :=
    if (length b =? 64)%nat then drop 32 b
    else let sum := fold_left (fun acc x => (acc * 257 + x + 1) mod 2305843009213693951) b 7 in
         replicate 24 0 ++ ((fun i => Z.shiftr sum i mod 256) <$> [56; 48; 40; 32; 24; 16; 8; 0])
|}.

(** The first 20 bytes of a signature name the account. *)
#[local] Instance demoCrypto : Crypto := {|
  Ecrecover _ sig := Ok (4 :: replicate 44 0 ++ take 20 (sig ++ replicate 20 0))
|}.

Definition demoSign (account : Address) (_ : Hash) : res (list Z) := Ok (account ++ replicate 45 0).

#[local] Program Instance demoRand : Rand := {| seeded_Intn seed n := seed mod n |}.
Next Obligation. intros. by apply Z.mod_pos_bound. Qed.

#[local] Program Instance demoEnvironment : Environment :=
  {| clock _ := 50000; global_Intn _ _ := 0 |}.
Next Obligation. intros. cbn. lia. Qed.

#[local] Program Instance demoDatabase : Database := {|
  database := gmap (list Z) (list Z);
  db_Get k d := d !! k;
  db_Put k v d := Some (<[k := v]> d)
|}.
Next Obligation.
  intros k v d d' k' [= <-]. case_decide; subst; [apply lookup_insert_eq|by apply lookup_insert_ne].
Qed.

#[local] Program Instance demoCache V : ARCCache V := {|
  arc_cache := gmap Hash V;
  arc_new := ∅;
  arc_get k c := (c, c !! k);
  arc_add k v c := <[k := v]> c;
  arc_holds c k v := c !! k = Some v
|}.
Next Obligation. intros V k v. cbn. by rewrite lookup_empty. Qed.
Next Obligation. by intros V k c c' v [= <- ?]. Qed.
Next Obligation. by intros V k c c' r k' v' [= <- <-]. Qed.
Next Obligation. intros V k v c k' v' [[-> ->]|[]]%lookup_insert_Some; auto. Qed.

#[local] Program Instance vote_countable : Countable Vote :=
  inj_countable' (fun v => (vote_Signer v, vote_Block v, vote_Address v, vote_Authorize v))
    (fun '(a, b, c, d) => mkVote a b c d) _.
Next Obligation. by intros []. Qed.

#[local] Program Instance tally_countable : Countable Tally :=
  inj_countable' (fun t => (tly_Authorize t, tly_Votes t)) (fun '(a, b) => mkTally a b) _.
Next Obligation. by intros []. Qed.

Definition archiveTuple : Type :=
  Z * Hash * gset Address * gmap Z Address * list Vote * gmap Address Tally.

Definition archive_tuple (a : Archive) : archiveTuple :=
  (arc_Number a, arc_Hash a, arc_Signers a, arc_Recents a, arc_Votes a, arc_Tally a).

(** The text of an archive is its number in the enumeration of archives. *)
Definition demoMarshal (a : Archive) : res (list Z) := Ok [Zpos (encode (archive_tuple a))].

Definition demoUnmarshal (b : list Z) : res Archive :=
  match b with
  | [Zpos p] =>
      match decode (A := archiveTuple) p with
      | Some (n, h, s, r, v, t) => Ok (mkArchive (mkDPosConfig 0 0) n h s r v t)
      | None => Err (errExternal 1)
      end
  | _ => Err (errExternal 1)
  end.

#[local] Program Instance demoJSON : ArchiveJSON :=
  {| json_Marshal := demoMarshal; json_Unmarshal := demoUnmarshal |}.
Next Obligation.
  intros a b [= <-]. unfold demoUnmarshal. rewrite decode_encode. eexists. split; [reflexivity|].
  by intros cfg.
Qed.

(** ** The chain *)

Definition account (i : Z) : Address := replicate 19 0 ++ [i].

Definition demoHeader (parent : Hash) (number difficulty time : Z) (extra : list Z) : Header :=
  mkHeader parent uncleHash zeroAddress zeroHash zeroHash zeroHash (replicate 256 0)
    (Some difficulty) (Some number) 4700000 0 (Some time) extra zeroHash nonceDropVote.

Definition vanity : list Z := replicate 32 0.
Definition sealBy (i : Z) : list Z := account i ++ replicate 45 0.

Definition demoGenesis : Header := Eval vm_compute in
  demoHeader zeroHash 0 1 0 (vanity ++ concat (account <$> [1; 2; 3; 4]) ++ replicate 65 0).
Definition block1 : Header := Eval vm_compute in
  demoHeader (Header_Hash demoGenesis) 1 1 50000 (vanity ++ sealBy 1).
Definition block2 : Header := Eval vm_compute in
  demoHeader (Header_Hash block1) 2 2 50010 (vanity ++ sealBy 2).
Definition block3 : Header := Eval vm_compute in
  demoHeader (Header_Hash block2) 3 2 50020 (vanity ++ sealBy 3).

(** The second block sealed by the signer of the first. *)
Definition repeat2 : Header := Eval vm_compute in
  demoHeader (Header_Hash block1) 2 1 50010 (vanity ++ sealBy 1).

Definition demoChain : list Header := [demoGenesis; block1; block2].
Definition demoUniverse : list Header := [demoGenesis; block1; block2; block3; repeat2].

Definition hasNumber (n : Z) (h : Header) : bool :=
  match headerNumber h with Ok m => m =? n | _ => false end.

#[local] Instance demoReader : ChainReader := {|
  chain_Config := mkChainConfig (Some 1) None None false None zeroHash None None None None None;
  CurrentHeader := Some block2;
  GetHeader hash n := List.find (fun h => bool_decide (Header_Hash h = hash) && hasNumber n h) demoChain;
  GetHeaderByNumber n := List.find (hasNumber n) demoChain;
  GetHeaderByHash hash := List.find (fun h => bool_decide (Header_Hash h = hash)) demoChain
|}.

Definition demoConfig : DPosConfig := mkDPosConfig 10 30000.
Definition demoU (h : Header) : Prop := h ∈ demoUniverse.

Definition demoEngine : DPos := New demoConfig ∅.
Definition demoMiner : DPos := Authorize (account 3) (demoSign (account 3)) demoEngine.

Definition archiveAt (hs : list Header) : Archive :=
  match archive_apply (genesis_archive demoGenesis demoConfig) hs with
  | Ok a => a
  | _ => genesis_archive demoGenesis demoConfig
  end.

(** A run that is known to succeed. *)
Definition resultOf {A} (d : A) (run : DPos * res A) : A := match run.2 with Ok a => a | _ => d end.

(** Header 3 as the miner starts it, after [Prepare], and with the seal. *)
Definition draft3 : Header := demoHeader (hdr_ParentHash block3) 3 0 0 [].
Definition prepared3 : Header := Eval vm_compute in resultOf draft3 (Prepare draft3 demoMiner).
Definition finalized3 : Header := Finalize zeroHash zeroHash zeroHash (replicate 256 0) prepared3.

(** ** The universe *)

Lemma demoU_cases h : demoU h →
  h = demoGenesis ∨ h = block1 ∨ h = block2 ∨ h = block3 ∨ h = repeat2.
Proof. unfold demoU, demoUniverse. rewrite !elem_of_cons, elem_of_nil. tauto. Qed.

#[local] Ltac demo_cases := intros ? [->|[->|[->|[->| ->]]]]%demoU_cases.

Lemma NoDup_fmap_eq {A B} (f : A → B) (l : list A) x y :
  NoDup (f <$> l) → x ∈ l → y ∈ l → f x = f y → x = y.
Proof.
  intros Hnd (i & Hi)%list_elem_of_lookup (j & Hj)%list_elem_of_lookup E.
  assert (i = j) as ->; [|congruence].
  eapply (NoDup_lookup _ _ _ (f x)); [done| |]; rewrite list_lookup_fmap; [by rewrite Hi|].
  rewrite Hj. cbn. by rewrite E.
Qed.

Lemma demo_hashes : NoDup (Header_Hash <$> demoUniverse).
Proof. apply (bool_decide_unpack _). vm_compute. exact I. Qed.

Lemma demo_find p h : List.find p demoChain = Some h → demoU h ∧ p h = true.
Proof.
  intros [Hin Hp]%List.find_some. split; [|done]. unfold demoU. apply list_elem_of_In in Hin.
  unfold demoChain, demoUniverse in *. set_solver.
Qed.

Lemma hasNumber_true n h : hasNumber n h = true → headerNumber h = Ok n.
Proof. unfold hasNumber. destruct (headerNumber h); [|done|done]. by intros ->%Z.eqb_eq. Qed.

Lemma demo_universe : universe demoU demoGenesis.
Proof.
  split.
  - unfold demoU, demoUniverse. by left.
  - intros h1 h2. apply (NoDup_fmap_eq Header_Hash), demo_hashes.
  - demo_cases; (eexists; split; [vm_compute; reflexivity|done]).
  - reflexivity.
  - demo_cases; intros [=]; vm_compute; reflexivity.
  - intros hash n h [Hu [E%bool_decide_eq_true Hn]%andb_true_iff]%demo_find.
    split_and!; [done|done|by apply hasNumber_true].
  - vm_compute. reflexivity.
Qed.

Lemma demo_typed h : demoU h → header_ok h.
Proof.
  revert h. demo_cases; split;
    first [split; [reflexivity|apply (bool_decide_unpack _); vm_compute; exact I]
          |apply (bool_decide_unpack _); vm_compute; exact I|by vm_compute].
Qed.

Lemma demo_storage : storage_works demoGenesis demoConfig.
Proof.
  split.
  - intros t. vm_compute. reflexivity.
  - intros a. by eexists.
  - intros key blob db. by eexists.
  - intros blob. cbn. unfold demoUnmarshal. repeat case_match; done.
Qed.

Lemma demo_engine_ok : engine_ok demoU demoGenesis demoConfig demoEngine.
Proof. apply New_ok; [done|]. intros k.
  exact (lookup_empty (M := gmap (list Z)) (A := list Z) (archiveKey k)). Qed.

Lemma demo_miner_ok : engine_ok demoU demoGenesis demoConfig demoMiner.
Proof. destruct demo_engine_ok. by split. Qed.

Lemma demo_reaches1 : reaches demoU demoGenesis 1 (hdr_ParentHash block2) [] [block1].
Proof.
  apply rc_chain; [done|vm_compute; reflexivity|].
  replace (hdr_ParentHash block1) with (Header_Hash demoGenesis) by (vm_compute; reflexivity).
  apply rc_genesis.
Qed.

Lemma demo_reaches2 : reaches demoU demoGenesis 2 (hdr_ParentHash block3) [] [block2; block1].
Proof. apply rc_chain; [done|vm_compute; reflexivity|apply demo_reaches1]. Qed.

Lemma demo_archive1 : archive_apply (genesis_archive demoGenesis demoConfig) (reverse [block1]) =
  Ok (archiveAt [block1]).
Proof. vm_compute. reflexivity. Qed.

Lemma demo_archive2 : archive_apply (genesis_archive demoGenesis demoConfig) (reverse [block2; block1]) =
  Ok (archiveAt [block1; block2]).
Proof. vm_compute. reflexivity. Qed.

Lemma demo_block_archive2 :
  block_archive demoU demoGenesis demoConfig (hdr_ParentHash block3) (archiveAt [block1; block2]).
Proof.
  eapply (block_archive_down _ _ _ demo_universe); [|apply ba_genesis|apply demo_archive2].
  eapply (reaches_down _ _ demo_universe), demo_reaches2.
Qed.

Lemma demoU_in h : bool_decide (h ∈ demoUniverse) = true → demoU h.
Proof. apply bool_decide_eq_true. Qed.

Lemma demo_clock : sane_clock.
Proof. split; cbn; lia. Qed.

Lemma demo_signs : signs_for demoMiner.
Proof. intros f sh sig [= <-] [= <-]. split; vm_compute; reflexivity. Qed.

(** ** The theorems at work *)

Lemma archive_correct_witness :
  resultOf (archiveAt []) (c_archive 2 (hdr_ParentHash block3) [] demoEngine) = archiveAt [block1; block2].
Proof.
  pose proof (archive_correct demoU demoGenesis demoConfig demo_universe demoEngine 2 (hdr_ParentHash block3) []
    demo_engine_ok (Forall_nil_2 _) ltac:(lia) ltac:(lia)) as HC.
  destruct (c_archive 2 _ [] demoEngine) as [c' r]. destruct HC as (_ & _ & HC).
  unfold resultOf. cbn [snd]. rewrite (HC demo_storage _ demo_reaches2), demo_archive2. reflexivity.
Defined.

Lemma verifyHeader_sound_witness :
  header_rules demoConfig 50000 block3 3 ∧ cascading_rules demoU demoGenesis demoConfig block3 3.
Proof.
  pose proof (verifyHeader_sound demoU demoGenesis demoConfig demo_universe block3 [] demoEngine 3
    demo_engine_ok (demoU_in block3 ltac:(vm_compute; reflexivity)) (Forall_nil_2 _) eq_refl) as HV.
  assert ((verifyHeader block3 [] demoEngine).2 = Ok tt) as E by (vm_compute; reflexivity).
  destruct (verifyHeader block3 [] demoEngine) as [c' r]. cbn [snd] in E. destruct HV as [_ HV].
  destruct (HV E) as [Hf Hc]. split; [exact Hf|]. apply Hc. lia.
Defined.

Lemma verifyHeader_extends_witness :
  ∃ arch', archive_apply (archiveAt [block1; block2]) [block3] = Ok arch' ∧
           block_archive demoU demoGenesis demoConfig (Header_Hash block3) arch'.
Proof.
  assert ((verifyHeader block3 [] demoEngine).2 = Ok tt) as E by (vm_compute; reflexivity).
  destruct (verifyHeader block3 [] demoEngine) as [c' r] eqn:Ev. cbn [snd] in E. subst r.
  apply (verifyHeader_extends demoU demoGenesis demoConfig demo_universe block3 [] demoEngine c' 3
    (archiveAt [block1; block2]) demo_engine_ok (demoU_in block3 ltac:(vm_compute; reflexivity)) (Forall_nil_2 _)
    eq_refl ltac:(lia) Ev demo_block_archive2).
  vm_compute. discriminate.
Defined.

Lemma verifySeal_underflow_witness :
  (∃ c', VerifySeal repeat2 demoEngine = (c', Ok tt)) ∧
  archive_apply (archiveAt [block1]) [repeat2] = Err errUnauthorized.
Proof.
  apply (verifySeal_underflow demoU demoGenesis demoConfig demo_universe demo_storage repeat2 demoEngine 2
    [block1] (archiveAt [block1]) 1 (account 1) demo_engine_ok
    (demoU_in repeat2 ltac:(vm_compute; reflexivity)) eq_refl ltac:(lia) ltac:(cbn; lia)
    demo_reaches1 demo_archive1).
  - vm_compute. reflexivity.
  - vm_compute. reflexivity.
  - vm_compute. reflexivity.
  - apply (bool_decide_unpack _). vm_compute. exact I.
  - vm_compute. reflexivity.
  - reflexivity.
Defined.

Lemma demo_prepare3 : ∃ c, Prepare draft3 demoMiner = (c, Ok prepared3).
Proof.
  assert ((Prepare draft3 demoMiner).2 = Ok prepared3) as E by (vm_compute; reflexivity).
  destruct (Prepare draft3 demoMiner) as [c r]. cbn [snd] in E. subst r. by exists c.
Qed.

Lemma demo_seal3 : ∃ c, Seal finalized3 0 false demoMiner = (c, Ok (Some block3)).
Proof.
  assert ((Seal finalized3 0 false demoMiner).2 = Ok (Some block3)) as E by (vm_compute; reflexivity).
  destruct (Seal finalized3 0 false demoMiner) as [c r]. cbn [snd] in E. subst r. by exists c.
Qed.

Lemma Seal_verifies_witness : ∃ verifier', VerifyHeader block3 demoEngine = (verifier', Ok tt).
Proof.
  destruct demo_prepare3 as (c1 & E1), demo_seal3 as (c3 & E3).
  apply (Seal_verifies demoU demoGenesis demoConfig demo_universe draft3 prepared3 block3
    demoMiner c1 demoMiner c3 demoEngine zeroHash zeroHash zeroHash (replicate 256 0) 0 false 3
    [block2; block1] (archiveAt [block1; block2]) demo_typed demo_storage demo_clock ltac:(cbn; lia)
    demo_miner_ok demo_miner_ok demo_engine_ok eq_refl ltac:(unfold maxU64; lia) ltac:(lia) E1 eq_refl
    demo_signs E3 (demoU_in block3 ltac:(vm_compute; reflexivity))).
  - intros t [= <-]. vm_compute. discriminate.
  - intros parent tp Hp Ht.
    assert (GetHeader (hdr_ParentHash draft3) (3 - 1) = Some block2) as Hp' by (vm_compute; reflexivity).
    rewrite Hp' in Hp. injection Hp as <-. injection Ht as <-. vm_compute. reflexivity.
  - vm_compute. reflexivity.
  - apply demo_reaches2.
  - apply demo_archive2.
Defined.

End DemoEngine.
