(* ===== verification/TrieEncoding.v ===== *)
(** * Trie key encodings (src/fast/encoding.go)

    Keys travel in three forms: bytes, nibbles with an optional terminator 16,
    and the compact form of the nibbles stored in nodes.  The conversions are
    mutually inverse. *)

From S2P Require Import Prelude Rlp.
From stdpp Require Import base tactics option numbers list.
From Stdlib Require Import ZArith Lia.

#[local] Open Scope Z_scope.

(** ** The code *)

Definition hasTerm (s : list Z) : bool :=
  match last s with Some x => x =? 16 | None => false end.

(** The bytes written by [decodeNibbles]: two nibbles each; an odd number of
    them runs out of range. *)
Fixpoint decodeNibbles {E} (nibbles : list Z) : outcome E (list Z) :=
  match nibbles with
  | [] => Ok []
  | [_] => Panic
  | n0 :: n1 :: rest =>
      bytes ← decodeNibbles rest;
      Ok (Z.lor (byte (Z.shiftl n0 4)) n1 :: bytes)
  end.

Definition hexToCompact {E} (hex : list Z) : outcome E (list Z) :=
  let '(terminator, hex) := if hasTerm hex then (1, take (length hex - 1) hex) else (0, hex) in
  let b0 := byte (Z.shiftl terminator 5) in
  if Z.land (strlen hex) 1 =? 1 then
    h0 ← index hex 0;
    let b0 := Z.lor (Z.lor b0 (Z.shiftl 1 4)) h0 in
    rest ← decodeNibbles (drop 1 hex);
    Ok (b0 :: rest)
  else
    rest ← decodeNibbles hex;
    Ok (b0 :: rest).

Definition keybytesToHex (str : list Z) : list Z :=
  concat ((fun b => [b / 16; b mod 16]) <$> str) ++ [16].

Definition compactToHex {E} (compact : list Z) : outcome E (list Z) :=
  let base := keybytesToHex compact in
  let base := take (length base - 1) base in
  b0 ← index base 0;
  let base := if 2 <=? b0 then base ++ [16] else base in
  let chop := 2 - Z.land b0 1 in
  slice base chop (strlen base).

Definition hexToKeybytes {E} (hex : list Z) : outcome E (list Z) :=
  let hex := if hasTerm hex then take (length hex - 1) hex else hex in
  if negb (Z.land (strlen hex) 1 =? 0) then Panic else decodeNibbles hex.

Fixpoint prefixLen (a b : list Z) : nat :=
  match a, b with
  | x :: a, y :: b => if x =? y then S (prefixLen a b) else O
  | _, _ => O
  end.

(** ** Nibbles *)

Definition is_nibble (x : Z) : Prop := 0 ≤ x < 16.
Definition nibbles (l : list Z) : Prop := Forall is_nibble l.

(** The pairs of an even number of nibbles. *)
Fixpoint pairs (l : list Z) : list Z :=
  match l with
  | n0 :: n1 :: rest => n0 * 16 + n1 :: pairs rest
  | _ => []
  end.

(** The compact form, by recursion: a flag nibble in front makes the number of
    nibbles even. *)
Definition compact (l : list Z) (term : bool) : list Z :=
  let flag := if term then 2 else 0 in
  if decide (Nat.odd (length l)) then pairs (flag + 1 :: l) else pairs (flag :: 0 :: l).

Lemma lor_nibble a b : 0 ≤ a < 256 → a mod 16 = 0 → is_nibble b → Z.lor a b = a + b.
Proof.
  intros Ha Hm Hb. unfold is_nibble in Hb.
  pose proof (Z.div_mod a 16 ltac:(lia)). replace a with (Z.shiftl (a / 16) 4) at 1.
  - rewrite lor_shiftl_add by lia. change (2 ^ 4) with 16. lia.
  - rewrite Z.shiftl_mul_pow2 by lia. change (2 ^ 4) with 16. lia.
Qed.

(** Induction on lists two elements at a time. *)
Lemma list_pair_ind {A} (P : list A → Prop) :
  P [] → (∀ x, P [x]) → (∀ x y l, P l → P (x :: y :: l)) → ∀ l, P l.
Proof.
  intros H0 H1 H2. fix IH 1. intros [|x [|y l]]; [apply H0|apply H1|]. apply H2, IH.
Qed.

Lemma decodeNibbles_pairs {E} l : nibbles l → Nat.even (length l) →
  decodeNibbles (E := E) l = Ok (pairs l).
Proof.
  induction l as [|x|x y l IH] using list_pair_ind; [done|done|].
  intros [Hx [Hy Hl]%Forall_cons_iff]%Forall_cons_iff He. cbn [decodeNibbles pairs].
  rewrite (IH Hl He). unfold is_nibble in *. unfold byte.
  rewrite Z.shiftl_mul_pow2, Z.mod_small by (change (2 ^ 4) with 16; lia). change (2 ^ 4) with 16.
  rewrite lor_nibble; [done|lia| |done]. apply Z_mod_mult.
Qed.

Lemma pairs_split l : nibbles l → Nat.even (length l) →
  concat ((fun b => [b / 16; b mod 16]) <$> pairs l) = l.
Proof.
  induction l as [|x|x y l IH] using list_pair_ind; [done|done|].
  intros [Hx [Hy Hl]%Forall_cons_iff]%Forall_cons_iff He. cbn [pairs fmap list_fmap concat app].
  rewrite (IH Hl He). unfold is_nibble in *.
  rewrite Z.add_comm, Z.div_add, Z.mod_add, Z.div_small, Z.mod_small by lia. done.
Qed.

Lemma pairs_length l : length (pairs l) = (length l / 2)%nat.
Proof.
  induction l as [|x|x y l IH] using list_pair_ind; [done|done|]. cbn [pairs length]. rewrite IH.
  replace (S (S (length l))) with (length l + 1 * 2)%nat by lia. rewrite Nat.div_add by lia. lia.
Qed.

Lemma pairs_bytes l : nibbles l → is_bytes (pairs l).
Proof.
  induction l as [|x|x y l IH] using list_pair_ind; [by constructor|by constructor|].
  intros [Hx [Hy Hl]%Forall_cons_iff]%Forall_cons_iff. cbn [pairs]. constructor; [|by apply IH].
  unfold is_byte, is_nibble in *. lia.
Qed.

Lemma keybytes_nibbles str : is_bytes str → nibbles (concat ((fun b => [b / 16; b mod 16]) <$> str)).
Proof.
  induction 1 as [|b str Hb _ IH]; cbn; [constructor|]. unfold is_byte in Hb.
  constructor; [|constructor; [|done]].
  - split; [apply Z.div_pos; lia|apply Z.div_lt_upper_bound; lia].
  - apply Z.mod_pos_bound. lia.
Qed.

Lemma hasTerm_snoc l x : hasTerm (l ++ [x]) = (x =? 16).
Proof. unfold hasTerm. by rewrite last_snoc. Qed.

Lemma hasTerm_nibbles l : nibbles l → hasTerm l = false.
Proof.
  destruct l as [|x l] using rev_ind; [done|]. intros [_ Hx]%Forall_app. rewrite hasTerm_snoc.
  apply Forall_cons_iff in Hx as [Hx _]. unfold is_nibble in Hx. lia.
Qed.

Lemma land_1_odd (n : nat) : Z.land (Z.of_nat n) 1 = if Nat.odd n then 1 else 0.
Proof.
  change 1 with (Z.ones 1) at 1. rewrite Z.land_ones by lia. change (2 ^ 1) with 2.
  destruct (Nat.odd n) eqn:E.
  - apply Nat.odd_spec in E as [m ->]. replace (Z.of_nat (2 * m + 1)) with (1 + Z.of_nat m * 2) by lia.
    by rewrite Z_mod_plus_full.
  - rewrite <- Nat.negb_even, negb_false_iff in E. apply Nat.even_spec in E as [m ->].
    replace (Z.of_nat (2 * m)) with (Z.of_nat m * 2) by lia. apply Z_mod_mult.
Qed.

Definition with_term (l : list Z) (term : bool) : list Z := l ++ if term then [16] else [].

Lemma hasTerm_with l term : nibbles l → hasTerm (with_term l term) = term.
Proof.
  intros Hl. unfold with_term. destruct term; [apply hasTerm_snoc|]. rewrite app_nil_r.
  by apply hasTerm_nibbles.
Qed.

Lemma strip_term {A} (l : list A) x : take (length (l ++ [x]) - 1) (l ++ [x]) = l.
Proof. rewrite length_app. cbn. rewrite Nat.add_sub. apply take_app_length. Qed.

Lemma hexToCompact_spec {E} l term : nibbles l →
  hexToCompact (E := E) (with_term l term) = Ok (compact l term).
Proof.
  intros Hl. unfold hexToCompact. rewrite hasTerm_with by done.
  assert ((if term then (1, take (length (with_term l term) - 1) (with_term l term))
           else (0, with_term l term)) = (if term then 1 else 0, l)) as ->.
  { unfold with_term. destruct term; [by rewrite strip_term|by rewrite app_nil_r]. }
  rewrite land_1_odd. unfold compact. destruct (Nat.odd (length l)) eqn:Ho; cbn [Z.eqb Pos.eqb].
  - destruct l as [|x l]; [done|]. change (index (E := E) (x :: l) 0) with (Ok (E := E) x).
    rewrite bind_Ok. apply Forall_cons_iff in Hl as [Hx Hl]. change (drop 1 (x :: l)) with l.
    rewrite decodeNibbles_pairs; [|done|cbn [length] in Ho; rewrite Nat.odd_succ in Ho; by rewrite Ho].
    rewrite bind_Ok, decide_True by done. cbn [pairs]. f_equal. f_equal. unfold is_nibble in Hx.
    destruct term;
      [change (Z.lor (byte (Z.shiftl 1 5)) (Z.shiftl 1 4)) with 48
      |change (Z.lor (byte (Z.shiftl 0 5)) (Z.shiftl 1 4)) with 16];
      rewrite lor_nibble; unfold is_nibble; try done; lia.
  - rewrite decodeNibbles_pairs; [|done|by rewrite <- Nat.negb_odd, Ho].
    rewrite bind_Ok, decide_False by (rewrite ?Ho; by intros []). cbn [pairs]. f_equal. f_equal. by destruct term.
Qed.

Lemma compact_bytes l term : nibbles l → is_bytes (compact l term).
Proof.
  intros Hl. unfold compact. case_decide; apply pairs_bytes; repeat constructor; try done;
    by destruct term.
Qed.

Lemma compact_length l term : length (compact l term) = S (length l / 2).
Proof.
  unfold compact. case_decide as Ho; rewrite pairs_length; cbn [length].
  - apply Is_true_true, Nat.odd_spec in Ho as [m ->].
    replace (S (2 * m + 1)) with (S m * 2)%nat by lia. replace (2 * m + 1)%nat with (1 + m * 2)%nat by lia.
    rewrite Nat.div_mul, Nat.div_add by lia. done.
  - replace (S (S (length l))) with (length l + 1 * 2)%nat by lia. rewrite Nat.div_add by lia. lia.
Qed.

Lemma compactToHex_compact {E} l term : nibbles l →
  compactToHex (E := E) (compact l term) = Ok (with_term l term).
Proof.
  intros Hl. unfold compactToHex, keybytesToHex. rewrite strip_term.
  assert (∃ flag pad, nibbles (flag :: pad ++ l) ∧ Nat.even (length (flag :: pad ++ l)) ∧
    compact l term = pairs (flag :: pad ++ l) ∧ (2 <=? flag) = term ∧
    length (flag :: pad) = Z.to_nat (2 - Z.land flag 1)) as (flag & pad & Hn & He & -> & Ht & Hc).
  { unfold compact. destruct (Nat.odd (length l)) eqn:Ho.
    - exists ((if term then 2 else 0) + 1), []. rewrite decide_True by done.
      split; [constructor; [by destruct term|done]|]. split; [cbn [app length]; by rewrite Nat.even_succ, Ho|].
      split; [done|]. by destruct term.
    - exists (if term then 2 else 0), [0]. rewrite decide_False by (rewrite ?Ho; by intros []).
      split; [repeat constructor; try done; by destruct term|].
      split; [cbn [app length]; by rewrite Nat.even_succ, Nat.odd_succ, <- Nat.negb_odd, Ho|].
      split; [done|]. by destruct term. }
  rewrite pairs_split by done. change (index (E := E) (flag :: pad ++ l) 0) with (Ok (E := E) flag).
  rewrite bind_Ok. cbv zeta. rewrite Ht.
  assert ((if term then (flag :: pad ++ l) ++ [16] else flag :: pad ++ l) = (flag :: pad) ++ with_term l term) as ->.
  { unfold with_term. destruct term; cbn; [by rewrite (assoc_L (++))|by rewrite app_nil_r]. }
  assert (2 - Z.land flag 1 = strlen (flag :: pad)) as ->.
  { rewrite Hc, Z2Nat.id; [done|]. change 1 with (Z.ones 1). rewrite Z.land_ones by lia.
    pose proof (Z.mod_pos_bound flag (2 ^ 1) ltac:(lia)). lia. }
  apply slice_all.
Qed.

Lemma split_pairs str : pairs (concat ((fun b => [b / 16; b mod 16]) <$> str)) = str.
Proof.
  induction str as [|b str IH]; [done|]. cbn [fmap list_fmap concat app pairs]. rewrite IH. f_equal.
  rewrite (Z.div_mod b 16) at 3 by lia. lia.
Qed.

Lemma split_length str : length (concat ((fun b => [b / 16; b mod 16]) <$> str)) = (2 * length str)%nat.
Proof. induction str as [|b str IH]; [done|]. cbn. rewrite IH. lia. Qed.

Lemma hexToKeybytes_split {E} str : is_bytes str → hexToKeybytes (E := E) (keybytesToHex str) = Ok str.
Proof.
  intros Hs. unfold hexToKeybytes, keybytesToHex. rewrite hasTerm_snoc. cbn [Z.eqb Pos.eqb].
  rewrite strip_term, land_1_odd, split_length, Nat.odd_mul. cbn [Nat.odd andb negb Nat.even Z.eqb].
  rewrite decodeNibbles_pairs; [by rewrite split_pairs|by apply keybytes_nibbles|].
  by rewrite split_length, Nat.even_mul.
Qed.

Lemma keybytesToHex_inj s1 s2 : keybytesToHex s1 = keybytesToHex s2 → s1 = s2.
Proof.
  unfold keybytesToHex. intros [E _]%app_inj_2; [|done]. by rewrite <- (split_pairs s1), E, split_pairs.
Qed.

(** Key encodings round-trip: the nibbles that [keybytesToHex] makes of a
    byte key give the key back, and [hexToCompact] of any nibble path, with or
    without the terminator, is a byte string of half its length plus one from
    which [compactToHex] recovers the path exactly.  No two keys or paths
    share an encoding. *)
Theorem key_encoding_roundtrip (str l : list Z) (term : bool)
    (Hs : is_bytes str) (Hl : nibbles l) :
  hexToKeybytes (E := RlpError) (keybytesToHex str) = Ok str ∧
  ∃ c, hexToCompact (E := RlpError) (with_term l term) = Ok c ∧
       is_bytes c ∧ length c = S (length l / 2) ∧
       compactToHex (E := RlpError) c = Ok (with_term l term).
Proof.
  split; [by apply hexToKeybytes_split|]. exists (compact l term).
  split; [by apply hexToCompact_spec|]. split; [by apply compact_bytes|].
  split; [apply compact_length|by apply compactToHex_compact].
Qed.

Lemma key_encoding_roundtrip_witness :
  hexToKeybytes (E := RlpError) (keybytesToHex [18; 52]) = Ok [18; 52] ∧
  ∃ c, hexToCompact (E := RlpError) (with_term [1; 2; 3] true) = Ok c ∧
       is_bytes c ∧ length c = 2%nat ∧ compactToHex (E := RlpError) c = Ok [1; 2; 3; 16].
Proof.
  apply (key_encoding_roundtrip [18; 52] [1; 2; 3] true); repeat constructor; discriminate.
Defined.
