(* ===== verification/TrieNode.v ===== *)
(** * Trie nodes and their encoding (src/fast/node.go)

    The nodes of a trie in memory, the decoder of stored nodes, and the
    reference that a stored node is the encoding of: a tree without hash
    references, flags or caches. *)

From S2P Require Import Prelude Types Interfaces Rlp RlpRaw RlpDecode TrieEncoding.
From stdpp Require Import base tactics option numbers list.
From Stdlib Require Import ZArith Lia.

#[local] Open Scope Z_scope.

(** ** Nodes *)

(** [hash] is nil until it is computed. *)
Record nodeFlag := mkFlag {
  nf_hash : option (list Z);
  nf_gen : Z;
  nf_dirty : bool
}.

(** The node interface with its four implementations, and the nil interface. *)
Inductive node :=
| NilNode
| FullNode (children : list node) (flags : nodeFlag)
| ShortNode (key : list Z) (val : node) (flags : nodeFlag)
| HashNode (h : list Z)
| ValueNode (v : list Z).

(** [cachegen-n.gen] is a subtraction of [uint16]. *)
Definition flag_canUnload (f : nodeFlag) (cachegen cachelimit : Z) : bool :=
  negb (nf_dirty f) && (cachelimit <=? (cachegen - nf_gen f) mod 65536).

(** A nil node has no methods. *)
Definition node_canUnload {E} (n : node) (gen limit : Z) : outcome E bool :=
  match n with
  | NilNode => Panic
  | FullNode _ f | ShortNode _ _ f => Ok (flag_canUnload f gen limit)
  | HashNode _ | ValueNode _ => Ok false
  end.

Definition node_cache {E} (n : node) : outcome E (option (list Z) * bool) :=
  match n with
  | NilNode => Panic
  | FullNode _ f | ShortNode _ _ f => Ok (nf_hash f, nf_dirty f)
  | HashNode _ | ValueNode _ => Ok (None, true)
  end.

(** A node as the RLP encoder sees it; a full node encodes its children, a
    short node the exported fields. *)
Fixpoint node_value (n : node) : value :=
  match n with
  | NilNode => VNilInterface
  | FullNode children _ => VSlice (node_value <$> children)
  | ShortNode key val _ => VStruct [VBytes key; node_value val]
  | HashNode h => VBytes h
  | ValueNode v => VBytes v
  end.

(** ** Decoding *)

Inductive NodeError :=
| NE_EOF
| NE_decode (e : RlpError)
| NE_rlp (e : RlpError)
| NE_value (e : RlpError)
| NE_count (c : Z)
| NE_oversized (size : Z)
| NE_stringSize (size : Z).

(** An RLP result whose error is wrapped; the decode path that [wrapError]
    collects for the message is left out. *)
Definition rlp_result {A} (wrap : RlpError → NodeError) (r : outcome RlpError A) : outcome NodeError A :=
  match r with
  | Ok a => Ok a
  | Err e => Err (wrap e)
  | Panic => Panic
  end.

Definition hashLen : Z := 32.

(** [decodeRef], for the decoder [dec] of an embedded node. *)
Definition decodeRef_ (dec : list Z → outcome NodeError node) (buf : list Z) : outcome NodeError (node * list Z) :=
  '(kind, val, rest) ← rlp_result NE_rlp (Split buf);
  if bool_decide (kind = KList) then
    let size := strlen buf - strlen rest in
    if hashLen <? size then Err (NE_oversized size)
    else n ← dec buf; Ok (n, rest)
  else if bool_decide (kind = KString) && (strlen val =? 0) then Ok (NilNode, rest)
  else if bool_decide (kind = KString) && (strlen val =? 32) then Ok (HashNode val, rest)
  else Err (NE_stringSize (strlen val)).

Definition decodeShort_ (dec : list Z → outcome NodeError node) (hash : option (list Z)) (elems : list Z)
    (cachegen : Z) : outcome NodeError node :=
  '(kbuf, rest) ← rlp_result NE_rlp (SplitString elems);
  let flag := mkFlag hash cachegen false in
  key ← compactToHex kbuf;
  if hasTerm key then
    '(val, _) ← rlp_result NE_value (SplitString rest);
    Ok (ShortNode key (ValueNode val) flag)
  else
    '(r, _) ← decodeRef_ dec rest;
    Ok (ShortNode key r flag).

(** The loop over the first [n] children. *)
Fixpoint decodeChildren (dec : list Z → outcome NodeError node) (n : nat) (elems : list Z)
    : outcome NodeError (list node * list Z) :=
  match n with
  | O => Ok ([], elems)
  | S n =>
      '(cld, rest) ← decodeRef_ dec elems;
      '(clds, rest) ← decodeChildren dec n rest;
      Ok (cld :: clds, rest)
  end.

Definition decodeFull_ (dec : list Z → outcome NodeError node) (hash : option (list Z)) (elems : list Z)
    (cachegen : Z) : outcome NodeError node :=
  '(clds, rest) ← decodeChildren dec 16 elems;
  '(val, _) ← rlp_result NE_rlp (SplitString rest);
  Ok (FullNode (clds ++ [if 0 <? strlen val then ValueNode val else NilNode]) (mkFlag hash cachegen false)).

(** Embedded nodes are decoded recursively, each from a shorter input than the
    node around it: [length buf] levels are enough. *)
Fixpoint decodeNode_ (fuel : nat) (hash : option (list Z)) (buf : list Z) (cachegen : Z) : outcome NodeError node :=
  match fuel with
  | O => Panic
  | S fuel =>
      if strlen buf =? 0 then Err NE_EOF
      else
        '(elems, _) ← rlp_result NE_decode (SplitList buf);
        c ← match CountValues elems with
            | Ok c => Ok c
            | Err _ => Ok 0
            | Panic => Panic
            end;
        let dec buf := decodeNode_ fuel None buf cachegen in
        if c =? 2 then decodeShort_ dec hash elems cachegen
        else if c =? 17 then decodeFull_ dec hash elems cachegen
        else Err (NE_count c)
  end.

Definition decodeNode (hash : option (list Z)) (buf : list Z) (cachegen : Z) : outcome NodeError node :=
  decodeNode_ (S (length buf)) hash buf cachegen.

Definition mustDecodeNode {E} (hash : list Z) (buf : list Z) (cachegen : Z) : outcome E node :=
  match decodeNode (Some hash) buf cachegen with
  | Ok n => Ok n
  | _ => Panic
  end.

(** ** Trees *)

Inductive tree :=
| TNil
| TValue (v : list Z)
| TShort (key : list Z) (t : tree)
| TFull (children : list tree).

(** The value of a key: the path from the root ends in it. *)
Inductive holds : tree → list Z → list Z → Prop :=
| holds_value v : holds (TValue v) [] v
| holds_short key t k v : holds t k v → holds (TShort key t) (key ++ k) v
| holds_full cs x c k v : 0 ≤ x → cs !! Z.to_nat x = Some c → holds c k v → holds (TFull cs) (x :: k) v.

(** Canonical trees: a short node is a leaf, whose key ends in the terminator,
    or leads to a full node; a full node has at least two children, the last
    of which can only be a value. *)
Definition nonnil (t : tree) : bool := match t with TNil => false | _ => true end.

Inductive canon : tree → Prop :=
| canon_leaf k v : nibbles k → canon (TShort (k ++ [16]) (TValue v))
| canon_ext k cs : k ≠ [] → nibbles k → canon (TFull cs) → canon (TShort k (TFull cs))
| canon_full cs :
    length cs = 17%nat → (2 ≤ length (filter (fun c => nonnil c = true) cs))%nat →
    (∀ i c, cs !! i = Some c → (i < 16)%nat → c ≠ TNil → canon c) →
    (∀ c, cs !! 16%nat = Some c → c ≠ TNil → ∃ v, c = TValue v) →
    canon (TFull cs).

(** The sizes that keep every encoding within [uint64]. *)
Definition maxItem : Z := 4294967296.

Definition entry_ok (k v : list Z) : Prop :=
  v ≠ [] ∧ is_bytes v ∧ strlen v < maxItem ∧ strlen k < maxItem.

Definition entries_ok (t : tree) : Prop := ∀ k v, holds t k v → entry_ok k v.

Section WithKeccak.
Context `{Keccak}.

(** How a node refers to a child with encoding [e]: embedded when it is short,
    by hash otherwise; values are always embedded. *)
Definition by_ref (t : tree) (e : list Z) : list Z :=
  match t with
  | TNil | TValue _ => e
  | _ => if strlen e <? 32 then e else enc_string (Keccak256 e)
  end.

Definition compact_key (k : list Z) : list Z :=
  if hasTerm k then compact (take (length k - 1) k) true else compact k false.

(** The stored encoding of a tree. *)
Fixpoint tenc (t : tree) : list Z :=
  match t with
  | TNil => enc_string []
  | TValue v => enc_string v
  | TShort k t => enc_list (enc_string (compact_key k) ++ by_ref t (tenc t))
  | TFull cs => enc_list (concat ((fun c => by_ref c (tenc c)) <$> cs))
  end.

Definition tref (t : tree) : list Z := by_ref t (tenc t).
Definition thash (t : tree) : Hash := Keccak256 (tenc t).

(** The node that a stored tree decodes to: children are hash references, or
    decoded in turn when they are embedded. *)
Fixpoint shallow (hash : option (list Z)) (gen : Z) (t : tree) : node :=
  let child c :=
    match c with
    | TNil | TValue _ => shallow None gen c
    | _ => if strlen (tenc c) <? 32 then shallow None gen c else HashNode (thash c)
    end in
  match t with
  | TNil => NilNode
  | TValue v => ValueNode v
  | TShort k t => ShortNode k (child t) (mkFlag hash gen false)
  | TFull cs => FullNode (child <$> cs) (mkFlag hash gen false)
  end.

Definition shallow_child (gen : Z) (c : tree) : node :=
  match c with
  | TNil | TValue _ => shallow None gen c
  | _ => if strlen (tenc c) <? 32 then shallow None gen c else HashNode (thash c)
  end.

(** ** Trees: basic facts *)

Lemma hasTerm_key_leaf k : hasTerm (k ++ [16]) = true.
Proof. apply hasTerm_snoc. Qed.

Lemma compact_key_ext k : nibbles k → compact_key k = compact k false.
Proof. intros Hk. unfold compact_key. by rewrite hasTerm_nibbles. Qed.

Lemma compact_key_leaf k : compact_key (k ++ [16]) = compact k true.
Proof. unfold compact_key. by rewrite hasTerm_key_leaf, strip_term. Qed.

Lemma filter_exists {A} (P : A → Prop) `{∀ x, Decision (P x)} (l : list A) :
  (1 ≤ length (filter P l))%nat → ∃ i x, l !! i = Some x ∧ P x.
Proof.
  destruct (filter P l) as [|x l'] eqn:E; [cbn; lia|]. intros _.
  assert (x ∈ filter P l) as [Hp Hin]%list_elem_of_filter by (rewrite E; by left).
  apply list_elem_of_lookup in Hin as [i Hi]. eauto.
Qed.

Lemma nonnil_true c : nonnil c = true ↔ c ≠ TNil.
Proof. by destruct c. Qed.

Lemma canon_full_child cs i c : canon (TFull cs) → cs !! i = Some c → c ≠ TNil →
  (i < 16)%nat ∧ canon c ∨ i = 16%nat ∧ ∃ v, c = TValue v.
Proof.
  inversion 1 as [| |cs' Hlen Hc2 Hi Hv]; subst. intros Hl Hn.
  pose proof (lookup_lt_Some _ _ _ Hl).
  assert (i < 16 ∨ i = 16)%nat as [Hlt| ->] by lia; [left; eauto|right; eauto].
Qed.

Lemma canon_not_value v : ¬ canon (TValue v).
Proof. inversion 1. Qed.

Lemma canon_not_nil : ¬ canon TNil.
Proof. inversion 1. Qed.

(** A child that is a value or a canonical tree holds something. *)
Lemma canon_inhabited t : canon t → ∃ k v, holds t k v.
Proof.
  induction 1 as [k v Hk|k cs Hne Hk _ (k' & v & IH)|cs Hlen H2 Hi IH Hv].
  - do 2 eexists. apply holds_short, holds_value.
  - do 2 eexists. by apply holds_short.
  - destruct (filter_exists (fun c => nonnil c = true) cs) as (i & c & Hl & Hc%nonnil_true); [lia|].
    pose proof (lookup_lt_Some _ _ _ Hl).
    assert (∃ k v, holds c k v) as (k & v & Hh).
    { assert (i < 16 ∨ i = 16)%nat as [Hlt| ->] by lia; [eauto|].
      destruct (Hv _ Hl Hc) as [v ->]. do 2 eexists. apply holds_value. }
    exists (Z.of_nat i :: k), v. eapply holds_full; [lia|by rewrite Nat2Z.id|done].
Qed.

Lemma entries_ok_short k t : entries_ok (TShort k t) → entries_ok t.
Proof.
  intros He k' v Hh. destruct (He _ _ (holds_short k _ _ _ Hh)) as (? & ? & ? & Hk).
  rewrite length_app in Hk. split_and!; try done. lia.
Qed.

Lemma entries_ok_full cs i c : entries_ok (TFull cs) → cs !! i = Some c → entries_ok c.
Proof.
  intros He Hl k v Hh.
  destruct (He (Z.of_nat i :: k) v) as (? & ? & ? & Hk); [eapply holds_full; [lia|by rewrite Nat2Z.id|done]|].
  cbn [length] in Hk. split_and!; try done. lia.
Qed.

Lemma entries_ok_value v : entries_ok (TValue v) → v ≠ [] ∧ is_bytes v ∧ strlen v < maxItem.
Proof. intros He. by destruct (He _ _ (holds_value v)) as (? & ? & ? & _). Qed.

Lemma entries_ok_key k t : canon (TShort k t) → entries_ok (TShort k t) → strlen k < maxItem.
Proof.
  intros Hc He.
  assert (∃ k' v, holds t k' v) as (k' & v & Hh).
  { inversion Hc; subst; [do 2 eexists; apply holds_value|by apply canon_inhabited]. }
  destruct (He _ _ (holds_short k _ _ _ Hh)) as (_ & _ & _ & Hk). rewrite length_app in Hk. lia.
Qed.

(** ** Sizes of encodings *)

Lemma enc_head_length small large n : Z.of_nat n < two64 →
  1 ≤ strlen (enc_head small large n) ≤ 9.
Proof.
  intros Hn. rewrite headsize_enc_head by done. unfold headsize.
  destruct (Z.ltb_spec (Z.of_nat n) 56); [lia|].
  rewrite intsize_putint by lia. pose proof (putint_length (Z.of_nat n) ltac:(lia)). lia.
Qed.

Lemma enc_list_length c : strlen c < two64 → strlen c < strlen (enc_list c) ≤ strlen c + 9.
Proof.
  intros Hc. unfold enc_list. rewrite length_app. pose proof (enc_head_length 192 247 (length c) Hc). lia.
Qed.

Lemma enc_string_length_le c : strlen c < two64 → strlen (enc_string c) ≤ strlen c + 9.
Proof.
  intros Hc. unfold enc_string.
  assert (strlen (enc_head 128 183 (length c) ++ c) ≤ strlen c + 9) as Hl.
  { rewrite length_app. pose proof (enc_head_length 128 183 (length c) Hc). lia. }
  repeat case_match; subst; try done; cbn in *; lia.
Qed.

Lemma enc_hash_length h : length h = HashLength → strlen (enc_string h) = 33.
Proof.
  intros Hh. unfold enc_string. destruct h as [|x [|y h]]; [done|done|].
  rewrite length_app, Hh. unfold enc_head. by rewrite decide_True by (unfold HashLength; lia).
Qed.

Context `{!KeccakLaws}.

(** A child in canonical position. *)
Definition child_ok (i : nat) (c : tree) : Prop :=
  c = TNil ∨ (i < 16)%nat ∧ canon c ∨ i = 16%nat ∧ ∃ v, c = TValue v.

Lemma canon_full_children cs i c : canon (TFull cs) → cs !! i = Some c → child_ok i c.
Proof.
  intros Hc Hl. destruct (decide (nonnil c = true)) as [Hn%nonnil_true|Hn]; [right; by eapply canon_full_child|].
  left. by destruct c.
Qed.

Lemma tref_nil : tref TNil = [128].
Proof. reflexivity. Qed.

Lemma tref_canon_length t : canon t → strlen (tref t) ≤ 33.
Proof.
  intros Hc. unfold tref, by_ref. set (e := tenc t).
  assert (strlen (if strlen e <? 32 then e else enc_string (Keccak256 e)) ≤ 33); [|by destruct t; inversion Hc].
  destruct (Z.ltb_spec (strlen e) 32); [lia|]. by rewrite enc_hash_length by apply Keccak256_length.
Qed.

Lemma concat_length_le (l : list (list Z)) b :
  (∀ i x, l !! i = Some x → strlen x ≤ b) → strlen (concat l) ≤ b * strlen l.
Proof.
  induction l as [|x l IH]; intros Hl; [cbn; lia|]. cbn [concat length]. rewrite length_app.
  pose proof (Hl 0%nat x eq_refl). specialize (IH (fun i => Hl (S i))). lia.
Qed.

(** The payload of a full node is short, but for a value at its end. *)
Lemma full_payload_length cs : canon (TFull cs) → entries_ok (TFull cs) →
  strlen (concat (tref <$> cs)) ≤ 16 * 33 + maxItem + 9.
Proof.
  intros Hc He. inversion Hc as [| |cs' Hlen _ _ _]; subst.
  rewrite <- (take_drop 16 cs), fmap_app, concat_app, length_app.
  destruct (drop 16 cs) as [|c [|c' l]] eqn:Ed;
    [apply (f_equal length) in Ed; rewrite length_drop in Ed; cbn in Ed; lia| |
     apply (f_equal length) in Ed; rewrite length_drop in Ed; cbn in Ed; lia].
  assert (cs !! 16%nat = Some c) as Hl.
  { rewrite <- (take_drop 16 cs), lookup_app_r, Ed, length_take by (rewrite length_take; lia).
    by replace (16 - _)%nat with 0%nat by lia. }
  assert (strlen (concat (tref <$> take 16 cs)) ≤ 33 * strlen (tref <$> take 16 cs)) as H1.
  { apply concat_length_le. intros i x Hx. apply list_lookup_fmap_Some in Hx as (c' & -> & Hc').
    apply lookup_take_Some in Hc' as [Hc' Hi].
    destruct (canon_full_children cs i c' Hc Hc') as [->|[[_ Hcc]|[-> _]]]; [rewrite tref_nil; cbn; lia| |lia].
    by apply tref_canon_length. }
  rewrite length_fmap, length_take in H1. cbn [fmap list_fmap concat]. rewrite app_nil_r.
  assert (strlen (tref c) ≤ maxItem + 9); [|lia].
  destruct (canon_full_children cs 16 c Hc Hl) as [->|[[? _]|[_ [v ->]]]];
    [rewrite tref_nil; unfold maxItem; cbn; lia|lia|].
  destruct (entries_ok_value v) as (_ & _ & Hv); [by eapply entries_ok_full|].
  pose proof (enc_string_length_le v). unfold tref, by_ref, tenc. unfold maxItem, two64 in *. lia.
Qed.

Lemma short_payload_length k t : canon (TShort k t) → entries_ok (TShort k t) →
  strlen (enc_string (compact_key k) ++ tref t) ≤ 2 * maxItem + 100.
Proof.
  intros Hc He. pose proof (entries_ok_key k t Hc He) as Hk.
  assert (strlen (compact_key k) ≤ strlen k + 1) as Hck.
  { unfold compact_key. case_match; rewrite compact_length; rewrite ?length_take;
      (assert (∀ n : nat, (n / 2 ≤ n)%nat) as Hd by (intros; apply Nat.div_le_upper_bound; lia));
      [specialize (Hd (Nat.min (length k - 1) (length k)))|specialize (Hd (length k))]; lia. }
  assert (strlen (tref t) ≤ maxItem + 40) as Ht.
  { inversion Hc; subst.
    - destruct (entries_ok_value v) as (_ & _ & Hv); [by eapply entries_ok_short|].
      pose proof (enc_string_length_le v). unfold tref, by_ref, tenc. unfold maxItem, two64 in *. lia.
    - pose proof (tref_canon_length (TFull cs) ltac:(done)). unfold maxItem. lia. }
  rewrite length_app. pose proof (enc_string_length_le (compact_key k)). unfold maxItem, two64 in *. lia.
Qed.

(** Twice the bound for keys and values, and some. *)
Definition maxEnc : Z := 8589934720.

Lemma tenc_length t : canon t → entries_ok t → strlen (tenc t) ≤ maxEnc.
Proof.
  intros Hc He. destruct t as [|v|k t|cs]; [by inversion Hc|by inversion Hc| |].
  - pose proof (short_payload_length k t Hc He) as Hl. cbn [tenc]. fold (tref t).
    pose proof (enc_list_length (enc_string (compact_key k) ++ tref t)). unfold maxEnc, maxItem, two64 in *. lia.
  - pose proof (full_payload_length cs Hc He) as Hl. cbn [tenc].
    change (fun c => by_ref c (tenc c)) with tref.
    pose proof (enc_list_length (concat (tref <$> cs))). unfold maxEnc, maxItem, two64 in *. lia.
Qed.

(** ** Encodings are canonical RLP items *)

Definition payload (t : tree) : list Z :=
  match t with
  | TShort k t => enc_string (compact_key k) ++ tref t
  | TFull cs => concat (tref <$> cs)
  | _ => []
  end.

Lemma tenc_payload t : canon t → tenc t = enc_list (payload t).
Proof. by destruct t; inversion 1. Qed.

Lemma payload_length t : canon t → entries_ok t → strlen (payload t) < strlen (tenc t) ≤ maxEnc.
Proof.
  intros Hc He. pose proof (tenc_length t Hc He) as Hl. rewrite tenc_payload in * by done.
  split; [|done]. destruct (decide (strlen (payload t) < two64)) as [Hp|Hp]; [by apply enc_list_length|].
  unfold enc_list in Hl. rewrite length_app in Hl. unfold maxEnc, two64 in *. lia.
Qed.

Lemma tref_embedded t : canon t → strlen (tenc t) < 32 → tref t = tenc t.
Proof.
  intros Hc Hl. unfold tref, by_ref. rewrite (proj2 (Z.ltb_lt _ _)) by done. by destruct t.
Qed.

Lemma tref_hashed t : canon t → 32 ≤ strlen (tenc t) → tref t = enc_string (thash t).
Proof.
  intros Hc Hl. unfold tref, by_ref. rewrite (proj2 (Z.ltb_ge _ _)) by done. destruct t; by inversion Hc.
Qed.

Lemma enc_string_kind v : enc_kind (string_kind v) v = enc_string v.
Proof. unfold enc_kind, string_kind. by repeat case_match. Qed.

Lemma string_kind_ok v : kind_ok (string_kind v) v.
Proof. by intros _. Qed.

Lemma tref_item i t : child_ok i t → ∃ k c, kind_ok k c ∧ tref t = enc_kind k c.
Proof.
  intros [->|[[_ Hc]|[_ [v ->]]]].
  - exists KString, []. split; [by intros _|reflexivity].
  - destruct (Z.lt_ge_cases (strlen (tenc t)) 32) as [Hl|Hl].
    + exists KList, (payload t). split; [by intros []|]. by rewrite tref_embedded, tenc_payload.
    + exists (string_kind (thash t)), (thash t). split; [apply string_kind_ok|].
      by rewrite tref_hashed, enc_string_kind.
  - exists (string_kind v), v. split; [apply string_kind_ok|by rewrite enc_string_kind].
Qed.

Lemma hash_bytes_length h : length h = HashLength → strlen (enc_string h) < two64.
Proof. intros Hh. rewrite enc_hash_length by done. done. Qed.

Lemma tref_bytes i t : child_ok i t → entries_ok t → (canon t → is_bytes (tenc t)) → is_bytes (tref t).
Proof.
  intros [->|[[_ Hc]|[_ [v ->]]]] He IH.
  - rewrite tref_nil. by constructor.
  - destruct (Z.lt_ge_cases (strlen (tenc t)) 32) as [Hl|Hl]; [by rewrite tref_embedded; auto|].
    rewrite tref_hashed by done. apply enc_string_bytes; [apply Keccak256_bytes|].
    apply hash_bytes_length, Keccak256_length.
  - destruct (entries_ok_value v He) as (_ & Hb & Hl). apply enc_string_bytes; [done|].
    pose proof (enc_string_length_le v). unfold maxItem, two64 in *. lia.
Qed.

Lemma compact_key_bytes k t : canon (TShort k t) → is_bytes (compact_key k).
Proof.
  inversion 1; subst; [rewrite compact_key_leaf|rewrite compact_key_ext by done]; by apply compact_bytes.
Qed.

Lemma canon_short_child k t : canon (TShort k t) → child_ok 0 t ∨ ∃ v, t = TValue v.
Proof. inversion 1; subst; [right; eauto|left; right; left; split; [lia|done]]. Qed.

Lemma is_bytes_concat l : Forall is_bytes l → is_bytes (concat l).
Proof. induction 1; [constructor|]. cbn. by apply Forall_app. Qed.

Lemma tenc_bytes t : canon t → entries_ok t → is_bytes (tenc t).
Proof.
  intros Hc. pose proof Hc as Hc0.
  induction Hc as [k v Hk|k cs Hne Hk Hcs IH|cs Hlen H2 Hi IH Hv]; intros He.
  all: rewrite tenc_payload by done.
  all: pose proof (tenc_length _ Hc0 He) as Hl; rewrite tenc_payload in Hl by done.
  all: apply enc_list_bytes; [|unfold maxEnc, two64 in *; lia].
  all: pose proof (payload_length _ Hc0 He) as [Hp Hl']; cbn [payload] in Hp |- *.
  - apply Forall_app. split.
    + apply enc_string_bytes; [by eapply compact_key_bytes|]. rewrite length_app in Hp. unfold maxEnc, two64 in *. lia.
    + apply (tref_bytes 16); [right; right; eauto|by eapply entries_ok_short|by intros ?%canon_not_value].
  - apply Forall_app. split.
    + apply enc_string_bytes; [by eapply compact_key_bytes|]. rewrite length_app in Hp. unfold maxEnc, two64 in *. lia.
    + apply (tref_bytes 0); [right; left; split; [lia|done]|by eapply entries_ok_short|].
      intros _. apply IH; [done|by eapply entries_ok_short].
  - apply is_bytes_concat, Forall_lookup. intros i x Hx. apply list_lookup_fmap_Some in Hx as (c & -> & Hl2).
    pose proof (canon_full_children cs i c Hc0 Hl2) as Hok.
    apply (tref_bytes i); [done|by eapply entries_ok_full|]. intros Hcc.
    destruct Hok as [->|[[Hlt _]|[_ [v ->]]]]; [by apply canon_not_nil in Hcc| |by apply canon_not_value in Hcc].
    eapply IH; [done|done|intros ->; by apply canon_not_nil|done|by eapply entries_ok_full].
Qed.

(** ** Stored nodes decode to what was stored *)

Lemma Split_item k c rest : kind_ok k c → is_bytes (enc_kind k c ++ rest) →
  strlen (enc_kind k c ++ rest) < two64 → Split (enc_kind k c ++ rest) = Ok (k, c, rest).
Proof. intros Hk Hb Hl. by apply Split_spec. Qed.

Lemma SplitString_item v rest : is_bytes (enc_string v ++ rest) → strlen (enc_string v ++ rest) < two64 →
  SplitString (enc_string v ++ rest) = Ok (v, rest).
Proof.
  intros Hb Hl. unfold SplitString. rewrite <- enc_string_kind in *.
  rewrite Split_item, bind_Ok by (done || apply string_kind_ok).
  rewrite bool_decide_eq_false_2; [done|]. unfold string_kind. by repeat case_match.
Qed.

Lemma SplitList_item c rest : is_bytes (enc_list c ++ rest) → strlen (enc_list c ++ rest) < two64 →
  SplitList (enc_list c ++ rest) = Ok (c, rest).
Proof.
  intros Hb Hl. unfold SplitList. change (enc_list c) with (enc_kind KList c) in *.
  rewrite Split_item, bind_Ok by (done || by intros []). done.
Qed.

Lemma CountValues_items l : Forall (λ kc, kind_ok kc.1 kc.2) l → is_bytes (enc_items l) →
  strlen (enc_items l) < two64 → CountValues (enc_items l) = Ok (strlen l).
Proof.
  intros Hk Hb Hl. apply (CountValues_loop_spec (length (enc_items l)) (enc_items l) 0); [done|done|done|].
  by exists l.
Qed.

(** What a reference to a child decodes to. *)
Lemma decodeRef_child dec gen i c rest : child_ok i c → (i < 16)%nat →
  is_bytes (tref c ++ rest) → strlen (tref c ++ rest) < two64 →
  (canon c → strlen (tenc c) < 32 → dec (tenc c ++ rest) = Ok (shallow None gen c)) →
  decodeRef_ dec (tref c ++ rest) = Ok (shallow_child gen c, rest).
Proof.
  intros Hok Hi Hb Hl Hdec. unfold decodeRef_. destruct Hok as [->|[[_ Hc]|[-> _]]]; [| |lia].
  - change (tref TNil) with (enc_kind KString []) in *. rewrite Split_item by (done || by intros _). done.
  - unfold shallow_child. destruct (Z.lt_ge_cases (strlen (tenc c)) 32) as [Hs|Hs].
    + rewrite tref_embedded in * by done. specialize (Hdec Hc Hs). rewrite tenc_payload in * by done.
      change (enc_list (payload c)) with (enc_kind KList (payload c)) in *.
      rewrite Split_item by (done || by intros []). cbn [rlp_result]. rewrite bind_Ok. cbn [bool_decide decide].
      rewrite bool_decide_eq_true_2 by done. cbv zeta.
      rewrite (proj2 (Z.ltb_ge _ _)) by (rewrite length_app; unfold hashLen; lia).
      rewrite Hdec, bind_Ok. rewrite (proj2 (Z.ltb_lt _ _)) by done. by destruct c.
    + rewrite tref_hashed in * by done. rewrite <- enc_string_kind in *.
      rewrite Split_item by (done || apply string_kind_ok). cbn [rlp_result]. rewrite bind_Ok.
      pose proof (Keccak256_length (tenc c)) as Hlen. unfold thash.
      assert (string_kind (Keccak256 (tenc c)) = KString) as ->.
      { unfold string_kind. destruct (Keccak256 (tenc c)) as [|? [|]]; done. }
      rewrite bool_decide_eq_false_2, bool_decide_eq_true_2, Hlen by done.
      rewrite (proj2 (Z.ltb_ge _ _)) by done. destruct c; by inversion Hc.
Qed.

Lemma decodeChildren_refs dec gen cs rest :
  (∀ i c, cs !! i = Some c → child_ok 0 c) →
  is_bytes (concat (tref <$> cs) ++ rest) → strlen (concat (tref <$> cs) ++ rest) < two64 →
  (∀ c rest', c ∈ cs → canon c → strlen (tenc c) < 32 → is_bytes rest' →
     strlen (tenc c ++ rest') ≤ strlen (concat (tref <$> cs) ++ rest) →
     dec (tenc c ++ rest') = Ok (shallow None gen c)) →
  decodeChildren dec (length cs) (concat (tref <$> cs) ++ rest) = Ok (shallow_child gen <$> cs, rest).
Proof.
  induction cs as [|c cs IH]; intros Hok Hb Hl Hdec; [done|].
  cbn [length decodeChildren fmap list_fmap concat] in *. rewrite <- (assoc_L (++)) in *.
  pose proof Hb as [_ Hb']%Forall_app.
  rewrite (decodeRef_child dec gen 0 c); [|by apply (Hok 0%nat)|lia|done|done|].
  - rewrite bind_Ok. rewrite length_app in Hl. rewrite IH; [done|by intros i; apply (Hok (S i))|done|lia|].
    intros c' rest' Hc'. intros Hcc Hs Hr Hl'. apply Hdec; [by right|done|done|done|]. rewrite !length_app in *. lia.
  - intros Hcc Hs. apply Hdec; [by left|done|done|done|]. by rewrite (tref_embedded c) in * by done.
Qed.

Lemma items_of_refs cs : (∀ i c, cs !! i = Some c → ∃ k p, kind_ok k p ∧ tref c = enc_kind k p) →
  ∃ l, Forall (λ kc, kind_ok kc.1 kc.2) l ∧ enc_items l = concat (tref <$> cs) ∧ length l = length cs.
Proof.
  induction cs as [|c cs IH]; intros Hi; [by exists []|].
  destruct (Hi 0%nat c eq_refl) as (k & p & Hk & Ec).
  destruct IH as (l & Hl & El & Hlen); [intros i; apply (Hi (S i))|].
  exists ((k, p) :: l). split; [by constructor|]. split; [|by cbn; rewrite Hlen].
  unfold enc_items in *. cbn. by rewrite El, Ec.
Qed.

Lemma decodeShort_tree dec hash gen k t : canon (TShort k t) → entries_ok (TShort k t) →
  (canon t → strlen (tenc t) < 32 → dec (tenc t) = Ok (shallow None gen t)) →
  decodeShort_ dec hash (payload (TShort k t)) gen = Ok (shallow hash gen (TShort k t)).
Proof.
  intros Hc He Hdec. pose proof (tenc_bytes _ Hc He) as Hb. pose proof (payload_length _ Hc He) as [Hl1 Hl2].
  rewrite tenc_payload in Hb by done. unfold enc_list in Hb. apply Forall_app in Hb as [_ Hb].
  cbn [payload] in *. unfold decodeShort_.
  rewrite SplitString_item by (done || (unfold maxEnc, two64 in *; lia)). cbn [rlp_result]. rewrite bind_Ok.
  apply Forall_app in Hb as [_ Hb]. rewrite length_app in Hl1.
  inversion Hc as [k' v Hk|k' cs Hne Hk Hcs|]; subst.
  - pose proof (compactToHex_compact (E := NodeError) k' true Hk) as E. rewrite compact_key_leaf, E, bind_Ok.
    change (with_term k' true) with (k' ++ [16]). rewrite hasTerm_key_leaf.
    change (tref (TValue v)) with (enc_string v) in *. rewrite <- (app_nil_r (enc_string v)) in *.
    rewrite SplitString_item by (done || (unfold maxEnc, two64 in *; lia)). done.
  - pose proof (compactToHex_compact (E := NodeError) k false Hk) as E. rewrite compact_key_ext, E, bind_Ok by done.
    unfold with_term. rewrite app_nil_r, hasTerm_nibbles by done.
    rewrite <- (app_nil_r (tref (TFull cs))) in *.
    rewrite (decodeRef_child dec gen 0); [done|right; left; split; [lia|done]|lia|done|unfold maxEnc, two64 in *; lia|].
    rewrite app_nil_r. done.
Qed.

(** The sixteen children and the value of a full node. *)
Lemma full_split cs : canon (TFull cs) → ∃ cs16 c, cs = cs16 ++ [c] ∧ length cs16 = 16%nat ∧
  (∀ i c, cs16 !! i = Some c → child_ok 0 c) ∧ (c = TNil ∨ ∃ v, c = TValue v).
Proof.
  intros Hc. pose proof (canon_full_children cs) as Hok. inversion Hc as [| |cs' Hlen _ _ _]; subst.
  exists (take 16 cs). destruct (drop 16 cs) as [|c [|c' l]] eqn:Ed;
    [apply (f_equal length) in Ed; rewrite length_drop in Ed; cbn in Ed; lia| |
     apply (f_equal length) in Ed; rewrite length_drop in Ed; cbn in Ed; lia].
  exists c. assert (cs = take 16 cs ++ [c]) as E by (by rewrite <- Ed, take_drop).
  assert (length (take 16 cs) = 16)%nat as Hl by (rewrite length_take; lia).
  split; [done|]. split; [done|]. split.
  - intros i c' [Hi Hlt]%lookup_take_Some. destruct (Hok i c' Hc Hi) as [->|[[_ ?]|[-> _]]];
      [by left|right; left; split; [lia|done]|lia].
  - assert (cs !! 16%nat = Some c) as H16 by (rewrite E, lookup_app_r, Hl by lia; done).
    destruct (Hok _ _ Hc H16) as [->|[[? _]|[_ ?]]]; [by left|lia|by right].
Qed.

Lemma decodeFull_tree dec hash gen cs : canon (TFull cs) → entries_ok (TFull cs) →
  (∀ c rest', c ∈ cs → canon c → strlen (tenc c) < 32 → is_bytes rest' →
     strlen (tenc c ++ rest') ≤ strlen (payload (TFull cs)) →
     dec (tenc c ++ rest') = Ok (shallow None gen c)) →
  decodeFull_ dec hash (payload (TFull cs)) gen = Ok (shallow hash gen (TFull cs)).
Proof.
  intros Hc He Hdec. pose proof (tenc_bytes _ Hc He) as Hb. pose proof (payload_length _ Hc He) as [Hl1 Hl2].
  rewrite tenc_payload in Hb by done. unfold enc_list in Hb. apply Forall_app in Hb as [_ Hb].
  destruct (full_split cs Hc) as (cs16 & c & -> & H16 & Hok & Hlast).
  assert (entries_ok c) as Hec by (eapply (entries_ok_full _ 16 c He); rewrite lookup_app_r, H16 by lia; done).
  unfold decodeFull_. cbn [payload] in *. rewrite fmap_app, concat_app in *.
  cbn [fmap list_fmap concat] in *. rewrite app_nil_r in *. rewrite <- H16 at 1.
  rewrite (decodeChildren_refs dec gen); [|done|done|unfold maxEnc, two64 in *; lia|].
  2: { intros c' rest' Hin. apply Hdec. apply elem_of_app. by left. }
  rewrite bind_Ok. apply Forall_app in Hb as [_ Hb]. rewrite length_app in Hl1.
  assert (∃ v, tref c = enc_string v ∧ (if 0 <? strlen v then ValueNode v else NilNode) = shallow_child gen c)
    as (v & Ev & Es).
  { destruct Hlast as [->|[v ->]]; [by exists []|]. exists v. split; [done|].
    destruct (entries_ok_value v Hec) as (Hne & _ & _). by destruct v. }
  rewrite Ev in *. rewrite <- (app_nil_r (enc_string v)) in *.
  rewrite SplitString_item by (done || (unfold maxEnc, two64 in *; lia)). cbn [rlp_result].
  rewrite bind_Ok, Es. change (shallow hash gen (TFull (cs16 ++ [c])))
    with (FullNode (shallow_child gen <$> (cs16 ++ [c])) (mkFlag hash gen false)).
  by rewrite fmap_app.
Qed.

Lemma payload_count t : canon t → entries_ok t →
  CountValues (payload t) = Ok (match t with TShort _ _ => 2 | _ => 17 end).
Proof.
  intros Hc He. pose proof (tenc_bytes _ Hc He) as Hb. pose proof (payload_length _ Hc He) as [Hl1 Hl2].
  rewrite tenc_payload in Hb by done. unfold enc_list in Hb. apply Forall_app in Hb as [_ Hb].
  assert (∃ l, Forall (λ kc, kind_ok kc.1 kc.2) l ∧ enc_items l = payload t ∧
    strlen l = match t with TShort _ _ => 2 | _ => 17 end) as (l & Hl & El & <-).
  { destruct t as [|v|k t|cs]; [by inversion Hc|by inversion Hc| |].
    - assert (∃ i, child_ok i t) as [i Hi].
      { destruct (canon_short_child k t Hc) as [?|?]; [eauto|]. exists 16%nat. right. right. done. }
      destruct (tref_item i t Hi) as (kd & p & Hk & E).
      exists [(string_kind (compact_key k), compact_key k); (kd, p)].
      split; [constructor; [apply string_kind_ok|by constructor]|]. split; [|done].
      unfold enc_items. cbn -[enc_kind]. by rewrite enc_string_kind, app_nil_r, E.
    - destruct (items_of_refs cs) as (l & Hl & El & Hlen).
      { intros i c Hi. eapply tref_item, canon_full_children; done. }
      exists l. inversion Hc; subst. split; [done|]. split; [done|]. lia. }
  rewrite <- El in *. apply CountValues_items; [done|done|unfold maxEnc, two64 in *; lia].
Qed.

Lemma decodeNode_tree fuel hash gen t rest : canon t → entries_ok t → is_bytes rest →
  strlen (tenc t ++ rest) < two64 → (length (tenc t) < fuel)%nat →
  decodeNode_ fuel hash (tenc t ++ rest) gen = Ok (shallow hash gen t).
Proof.
  revert hash t rest. induction fuel as [|fuel IH]; intros hash t rest Hc He Hr Hl Hf; [lia|].
  pose proof (tenc_bytes _ Hc He) as Hb. pose proof (payload_length _ Hc He) as [Hl1 Hl2].
  cbn [decodeNode_]. rewrite (proj2 (Z.eqb_neq _ _)) by (rewrite length_app; lia).
  rewrite tenc_payload in Hb, Hl |- * by done.
  rewrite SplitList_item by (try done; by apply Forall_app). cbn [rlp_result]. rewrite bind_Ok.
  rewrite payload_count by done. rewrite bind_Ok. cbv zeta.
  destruct t as [|v|k t|cs]; [by inversion Hc|by inversion Hc| |]; cbn [Z.eqb Pos.eqb].
  - apply decodeShort_tree; [done|done|]. intros Hct Hs.
    rewrite <- (app_nil_r (tenc t)). apply IH; [done|by eapply entries_ok_short|constructor| |].
    + rewrite app_nil_r. unfold two64. lia.
    + cbn [payload] in Hl1. rewrite (tref_embedded t), length_app in Hl1 by done. lia.
  - apply decodeFull_tree; [done|done|]. intros c rest' Hin Hcc Hs Hr' Hl'.
    apply list_elem_of_lookup in Hin as [i Hi].
    apply IH; [done|by eapply entries_ok_full|done|unfold maxEnc, two64 in *; lia|].
    rewrite length_app in Hl'. lia.
Qed.

Lemma decodeNode_stored hash gen t : canon t → entries_ok t →
  decodeNode hash (tenc t) gen = Ok (shallow hash gen t).
Proof.
  intros Hc He. unfold decodeNode. pose proof (tenc_length _ Hc He).
  rewrite <- (app_nil_r (tenc t)) at 2. apply decodeNode_tree; [done|done|constructor| |lia].
  rewrite app_nil_r. unfold maxEnc, two64 in *. lia.
Qed.

End WithKeccak.
