(* ===== verification/Trie.v ===== *)
(** * The Merkle Patricia trie (src/fast/trie.go, hasher.go, database.go)

    A trie is a root node whose subtrees may be on disk, behind a hash.  The
    operations resolve hashes against the node database as they descend, and
    return new nodes; [Commit] writes the nodes that changed to the database. *)

From S2P Require Import Prelude Types Interfaces Rlp TrieEncoding TrieNode.
From stdpp Require Import base tactics option numbers list gmap.
From Stdlib Require Import ZArith Lia.

#[local] Open Scope Z_scope.

(** [MissingNodeError] carries the hash and the path of the node. *)
Inductive trieError := MissingNodeError (nodeHash : Hash) (path : list Z).

Notation tres := (outcome trieError).

(** [common.BytesToHash]: the last 32 bytes, padded with zeros in front. *)
Definition BytesToHash (b : list Z) : Hash :=
  let b := drop (length b - HashLength) b in
  replicate (HashLength - length b) 0 ++ b.

(** ** The node database (database.go) *)

(** A cached node; the blob of the metaroot is nil.  The sizes of the caches,
    which are only reported, are left out. *)
Record cachedNode := mkCached {
  cn_blob : option (list Z);
  cn_parents : Z;
  cn_children : gmap Hash Z
}.

Section Trie.
Context `{Keccak, Database}.

Record TrieDB := mkTrieDB {
  tdb_disk : database;
  tdb_nodes : gmap Hash cachedNode;
  tdb_preimages : gmap Hash (list Z)
}.

Definition set_nodes (x : gmap Hash cachedNode) (db : TrieDB) : TrieDB :=
  mkTrieDB (tdb_disk db) x (tdb_preimages db).
Definition set_preimages (x : gmap Hash (list Z)) (db : TrieDB) : TrieDB :=
  mkTrieDB (tdb_disk db) (tdb_nodes db) x.

Definition NewDatabase (diskdb : database) : TrieDB :=
  mkTrieDB diskdb {[zeroHash := mkCached None 0 ∅]} ∅.

Definition tdb_insert (hash : Hash) (blob : list Z) (db : TrieDB) : TrieDB :=
  match tdb_nodes db !! hash with
  | Some _ => db
  | None => set_nodes (<[hash := mkCached (Some blob) 0 ∅]> (tdb_nodes db)) db
  end.

Definition insertPreimage (hash : Hash) (preimage : list Z) (db : TrieDB) : TrieDB :=
  match tdb_preimages db !! hash with
  | Some _ => db
  | None => set_preimages (<[hash := preimage]> (tdb_preimages db)) db
  end.

(** [Node]: nil for the metaroot and for an unknown hash. *)
Definition tdb_Node (db : TrieDB) (hash : Hash) : option (list Z) :=
  match tdb_nodes db !! hash with
  | Some node => cn_blob node
  | None => db_Get hash (tdb_disk db)
  end.

(** The bytes of "secure-key-" followed by the hash. *)
Definition secureKey (key : list Z) : list Z :=
  [115; 101; 99; 117; 114; 101; 45; 107; 101; 121; 45] ++ key.

Definition preimage (db : TrieDB) (hash : Hash) : option (list Z) :=
  match tdb_preimages db !! hash with
  | Some p => Some p
  | None => db_Get (secureKey hash) (tdb_disk db)
  end.

(** A second reference from the same parent is not counted, unless the parent
    is the metaroot; a parent that is not cached is a nil pointer. *)
Definition reference {E} (child parent : Hash) (db : TrieDB) : outcome E TrieDB :=
  match tdb_nodes db !! child with
  | None => Ok db
  | Some node =>
      pnode ← deref (tdb_nodes db !! parent);
      match cn_children pnode !! child with
      | Some _ =>
          if negb (bool_decide (parent = zeroHash)) then Ok db
          else Ok (set_nodes (alter (fun p => mkCached (cn_blob p) (cn_parents p) (alter (Z.add 1) child (cn_children p))) parent
                   (<[child := mkCached (cn_blob node) (cn_parents node + 1) (cn_children node)]> (tdb_nodes db))) db)
      | None =>
          Ok (set_nodes (alter (fun p => mkCached (cn_blob p) (cn_parents p) (<[child := 1]> (cn_children p))) parent
                (<[child := mkCached (cn_blob node) (cn_parents node + 1) (cn_children node)]> (tdb_nodes db))) db)
      end
  end.

(** ** Tries *)

Record Trie := mkTrie {
  t_root : node;
  t_originalRoot : Hash;
  t_cachegen : Z;
  t_cachelimit : Z
}.

Definition set_root (n : node) (t : Trie) : Trie :=
  mkTrie n (t_originalRoot t) (t_cachegen t) (t_cachelimit t).

Definition SetCacheLimit (l : Z) (t : Trie) : Trie :=
  mkTrie (t_root t) (t_originalRoot t) (t_cachegen t) l.

(** [newFlag]; the trie's generation is the argument. *)
Definition newFlag (gen : Z) : nodeFlag := mkFlag None gen true.

Section Ops.
Context (db : TrieDB) (gen : Z).

Definition resolveHash (n prefix : list Z) : tres node :=
  let hash := BytesToHash n in
  match tdb_Node db hash with
  | None => Err (MissingNodeError hash prefix)
  | Some enc => mustDecodeNode n enc gen
  end.

Definition resolve (n : node) (prefix : list Z) : tres node :=
  match n with
  | HashNode h => resolveHash h prefix
  | _ => Ok n
  end.

(** The child at a nibble; the array has 17 slots. *)
Definition child_at (children : list node) (x : Z) : tres node :=
  if x <? 0 then Panic else deref (children !! Z.to_nat x).

Definition set_child (children : list node) (x : Z) (n : node) : list node :=
  <[Z.to_nat x := n]> children.

Definition set_gen (f : nodeFlag) (gen : Z) : nodeFlag := mkFlag (nf_hash f) gen (nf_dirty f).

(** The descent consumes at least a nibble per step, or replaces a hash by a
    node that is not one: twice the length of the key, and one, is enough. *)
Fixpoint tryGet (fuel : nat) (origNode : node) (key : list Z) (pos : nat) : tres (option (list Z) * node * bool) :=
  match fuel with
  | O => Panic
  | S fuel =>
      match origNode with
      | NilNode => Ok (None, NilNode, false)
      | ValueNode v => Ok (Some v, origNode, false)
      | ShortNode nkey val flags =>
          if (length key - pos <? length nkey)%nat ||
             negb (bool_decide (nkey = take (length nkey) (drop pos key)))
          then Ok (None, origNode, false)
          else
            '(value, newnode, didResolve) ← tryGet fuel val key (pos + length nkey)%nat;
            Ok (value, if (didResolve : bool) then ShortNode nkey newnode (set_gen flags gen) else origNode, didResolve)
      | FullNode children flags =>
          x ← deref (key !! pos);
          child ← child_at children x;
          '(value, newnode, didResolve) ← tryGet fuel child key (pos + 1)%nat;
          Ok (value, if (didResolve : bool) then FullNode (set_child children x newnode) (set_gen flags gen) else origNode,
              didResolve)
      | HashNode h =>
          child ← resolveHash h (take pos key);
          '(value, newnode, _) ← tryGet fuel child key pos;
          Ok (value, newnode, true)
      end
  end.

(** An array of 17 nil children. *)
Definition noChildren : list node := replicate 17 NilNode.

Fixpoint trie_insert (fuel : nat) (n : node) (prefix key : list Z) (value : node) : tres (bool * node) :=
  match fuel with
  | O => Panic
  | S fuel =>
      match key with
      | [] =>
          match n with
          | ValueNode v =>
              match value with
              | ValueNode v' => Ok (negb (bool_decide (v = v')), value)
              | _ => Panic
              end
          | _ => Ok (true, value)
          end
      | x :: krest =>
          match n with
          | ShortNode nkey val flags =>
              let matchlen := prefixLen key nkey in
              if (matchlen =? length nkey)%nat then
                '(dirty, nn) ← trie_insert fuel val (prefix ++ take matchlen key) (drop matchlen key) value;
                if (dirty : bool) then Ok (true, ShortNode nkey nn (newFlag gen)) else Ok (false, n)
              else
                a ← deref (nkey !! matchlen);
                '(_, n1) ← trie_insert fuel NilNode (prefix ++ take (matchlen + 1) nkey) (drop (matchlen + 1) nkey) val;
                _ ← child_at noChildren a;
                let children := set_child noChildren a n1 in
                b ← deref (key !! matchlen);
                '(_, n2) ← trie_insert fuel NilNode (prefix ++ take (matchlen + 1) key) (drop (matchlen + 1) key) value;
                _ ← child_at noChildren b;
                let branch := FullNode (set_child children b n2) (newFlag gen) in
                if (matchlen =? 0)%nat then Ok (true, branch)
                else Ok (true, ShortNode (take matchlen key) branch (newFlag gen))
          | FullNode children flags =>
              child ← child_at children x;
              '(dirty, nn) ← trie_insert fuel child (prefix ++ [x]) krest value;
              if (dirty : bool) then Ok (true, FullNode (set_child children x nn) (newFlag gen)) else Ok (false, n)
          | NilNode => Ok (true, ShortNode key value (newFlag gen))
          | HashNode h =>
              rn ← resolveHash h prefix;
              '(dirty, nn) ← trie_insert fuel rn prefix key value;
              if (dirty : bool) then Ok (true, nn) else Ok (false, rn)
          | ValueNode _ => Panic
          end
      end
  end.

(** The loop that looks for the only child: [-1] when there is none, [-2] when
    there are several. *)
Fixpoint onlyChild (children : list node) (i pos : Z) : Z :=
  match children with
  | [] => pos
  | NilNode :: rest => onlyChild rest (i + 1) pos
  | _ :: rest => if pos =? -1 then onlyChild rest (i + 1) i else -2
  end.

Definition concat_keys (s1 s2 : list Z) : list Z := s1 ++ s2.

Fixpoint trie_delete (fuel : nat) (n : node) (prefix key : list Z) : tres (bool * node) :=
  match fuel with
  | O => Panic
  | S fuel =>
      match n with
      | ShortNode nkey val flags =>
          let matchlen := prefixLen key nkey in
          if (matchlen <? length nkey)%nat then Ok (false, n)
          else if (matchlen =? length key)%nat then Ok (true, NilNode)
          else
            '(dirty, child) ← trie_delete fuel val (prefix ++ take (length nkey) key) (drop (length nkey) key);
            if (dirty : bool) then
              match child with
              | ShortNode ckey cval _ => Ok (true, ShortNode (concat_keys nkey ckey) cval (newFlag gen))
              | _ => Ok (true, ShortNode nkey child (newFlag gen))
              end
            else Ok (false, n)
      | FullNode children flags =>
          x ← deref (head key);
          child ← child_at children x;
          '(dirty, nn) ← trie_delete fuel child (prefix ++ [x]) (tail key);
          if (dirty : bool) then
            let children := set_child children x nn in
            let pos := onlyChild children 0 (-1) in
            if 0 <=? pos then
              only ← child_at children pos;
              cnode ← (if pos =? 16 then Ok NilNode else resolve only prefix);
              match cnode with
              | ShortNode ckey cval _ => Ok (true, ShortNode (pos :: ckey) cval (newFlag gen))
              | _ => Ok (true, ShortNode [pos] only (newFlag gen))
              end
            else Ok (true, FullNode children (newFlag gen))
          else Ok (false, n)
      | ValueNode _ => Ok (true, NilNode)
      | NilNode => Ok (false, NilNode)
      | HashNode h =>
          rn ← resolveHash h prefix;
          '(dirty, nn) ← trie_delete fuel rn prefix key;
          if (dirty : bool) then Ok (true, nn) else Ok (false, rn)
      end
  end.

End Ops.

Definition opFuel (key : list Z) : nat := 2 * length key + 3.

(** [TryGet] returns nil for a key that is not there. *)
Definition TryGet (db : TrieDB) (key : list Z) (t : Trie) : Trie * tres (option (list Z)) :=
  let k := keybytesToHex key in
  match tryGet db (t_cachegen t) (opFuel k) (t_root t) k 0 with
  | Ok (value, newroot, didResolve) => (if didResolve then set_root newroot t else t, Ok value)
  | Err e => (t, Err e)
  | Panic => (t, Panic)
  end.

Definition TryDelete (db : TrieDB) (key : list Z) (t : Trie) : Trie * tres unit :=
  let k := keybytesToHex key in
  match trie_delete db (t_cachegen t) (opFuel k) (t_root t) [] k with
  | Ok (_, n) => (set_root n t, Ok tt)
  | Err e => (t, Err e)
  | Panic => (t, Panic)
  end.

Definition TryUpdate (db : TrieDB) (key value : list Z) (t : Trie) : Trie * tres unit :=
  let k := keybytesToHex key in
  if negb (strlen value =? 0) then
    match trie_insert db (t_cachegen t) (opFuel k) (t_root t) [] k (ValueNode value) with
    | Ok (_, n) => (set_root n t, Ok tt)
    | Err e => (t, Err e)
    | Panic => (t, Panic)
    end
  else TryDelete db key t.

(** The root of the empty trie, a constant of the package. *)
Definition emptyRoot : Hash :=
  [86; 232; 31; 23; 27; 204; 85; 166; 255; 131; 69; 230; 146; 192; 248; 110;
   91; 72; 224; 27; 153; 108; 173; 192; 1; 98; 47; 181; 227; 99; 180; 33].

(** [trie.New]: an empty trie for the zero hash and for [emptyRoot]. *)
Definition New (root : Hash) (db : TrieDB) : tres Trie :=
  let trie := mkTrie NilNode root 0 0 in
  if bool_decide (root ≠ zeroHash) && bool_decide (root ≠ emptyRoot) then
    rootnode ← resolveHash db 0 root [];
    Ok (set_root rootnode trie)
  else Ok trie.

(** ** Hashing and storing (hasher.go) *)

(** A leaf callback may write to the database. *)
Definition LeafCallback : Type := list Z → Hash → TrieDB → TrieDB.

Record hasher := mkHasher {
  h_cachegen : Z;
  h_cachelimit : Z;
  h_onleaf : option LeafCallback
}.

(** The references and callbacks of [store] for a stored node. *)
Fixpoint referenceAll {E} (children : list node) (parent : Hash) (db : TrieDB) : outcome E TrieDB :=
  match children with
  | [] => Ok db
  | HashNode c :: rest => db ← reference (BytesToHash c) parent db; referenceAll rest parent db
  | _ :: rest => referenceAll rest parent db
  end.

Fixpoint onleafAll (onleaf : LeafCallback) (children : list node) (parent : Hash) (db : TrieDB) : TrieDB :=
  match children with
  | [] => db
  | ValueNode v :: rest => onleafAll onleaf rest parent (onleaf v parent db)
  | _ :: rest => onleafAll onleaf rest parent db
  end.

(** The children that [store] looks at: the value of a short node, the first
    sixteen children of a full one. *)
Definition store_children (n : node) : list node :=
  match n with
  | ShortNode _ val _ => [val]
  | FullNode children _ => take 16 children
  | _ => []
  end.

(** [store]; the database is nil when a trie is only hashed. *)
Definition store (h : hasher) (n : node) (db : option TrieDB) (force : bool) : tres (node * option TrieDB) :=
  match n with
  | NilNode | HashNode _ => Ok (n, db)
  | _ =>
      match Encode (node_value n) with
      | Ok chunks =>
          let tmp := concat chunks in
          if (strlen tmp <? 32) && negb force then Ok (n, db)
          else
            '(hash, _) ← node_cache n;
            let hash := default (Keccak256 tmp) hash in
            match db with
            | None => Ok (HashNode hash, None)
            | Some db =>
                let bhash := BytesToHash hash in
                let db := tdb_insert bhash tmp db in
                db ← referenceAll (store_children n) bhash db;
                let db := match h_onleaf h with
                          | Some onleaf => onleafAll onleaf (store_children n) bhash db
                          | None => db
                          end in
                Ok (HashNode hash, Some db)
            end
      | _ => Panic
      end
  end.

(** The flags after hashing. *)
Definition set_hash (f : nodeFlag) (hash : option (list Z)) (stored : bool) : nodeFlag :=
  mkFlag hash (nf_gen f) (if stored then false else nf_dirty f).

Definition hash_of (n : node) : option (list Z) := match n with HashNode h => Some h | _ => None end.

(** The loop of [hashChildren] over the first children of a full node: the
    collapsed and the cached ones. *)
Fixpoint hashAll (hash : node → option TrieDB → tres (node * node * option TrieDB)) (children : list node)
    (db : option TrieDB) : tres (list node * list node * option TrieDB) :=
  match children with
  | [] => Ok ([], [], db)
  | NilNode :: rest =>
      '(collapsed, cached, db) ← hashAll hash rest db;
      Ok (ValueNode [] :: collapsed, NilNode :: cached, db)
  | c :: rest =>
      '(hashed, kept, db) ← hash c db;
      '(collapsed, cached, db) ← hashAll hash rest db;
      Ok (hashed :: collapsed, kept :: cached, db)
  end.

Definition nil_value (n : node) : node := match n with NilNode => ValueNode [] | _ => n end.

Definition hashChildren_ (hash : node → option TrieDB → tres (node * node * option TrieDB)) (original : node)
    (db : option TrieDB) : tres (node * node * option TrieDB) :=
  match original with
  | ShortNode key val flags =>
      ckey ← hexToCompact key;
      '(cval, kval, db) ← match val with
                          | ValueNode _ => Ok (val, val, db)
                          | _ => hash val db
                          end;
      Ok (ShortNode ckey (nil_value cval) flags, ShortNode key kval flags, db)
  | FullNode children flags =>
      '(collapsed, cached, db) ← hashAll hash (take 16 children) db;
      Ok (FullNode (collapsed ++ (nil_value <$> drop 16 children)) flags,
          FullNode (cached ++ drop 16 children) flags, db)
  | _ => Ok (original, original, db)
  end.

(** [hash]; [depth] bounds the height of the node. *)
Fixpoint hash_node (depth : nat) (h : hasher) (n : node) (db : option TrieDB) (force : bool)
    : tres (node * node * option TrieDB) :=
  match depth with
  | O => Panic
  | S depth =>
      let uncached :=
        '(collapsed, cached, db) ← hashChildren_ (fun n db => hash_node depth h n db false) n db;
        '(hashed, db) ← store h collapsed db force;
        let cached :=
          match cached with
          | ShortNode key val f => ShortNode key val (set_hash f (hash_of hashed) (bool_decide (is_Some db)))
          | FullNode children f => FullNode children (set_hash f (hash_of hashed) (bool_decide (is_Some db)))
          | _ => cached
          end in
        Ok (hashed, cached, db) in
      '(hash, dirty) ← node_cache n;
      unload ← node_canUnload n (h_cachegen h) (h_cachelimit h);
      match hash, db with
      | Some hash, None => Ok (HashNode hash, n, db)
      | Some hash, Some _ =>
          if (unload : bool) then Ok (HashNode hash, HashNode hash, db)
          else if negb (dirty : bool) then Ok (HashNode hash, n, db)
          else uncached
      | None, _ => uncached
      end
  end.

Fixpoint node_depth (n : node) : nat :=
  match n with
  | FullNode children _ => S (foldr (fun c d => Nat.max (node_depth c) d) 0%nat children)
  | ShortNode _ val _ => S (node_depth val)
  | _ => 1
  end.

Definition hashRoot (t : Trie) (db : option TrieDB) (onleaf : option LeafCallback)
    : tres (node * node * option TrieDB) :=
  match t_root t with
  | NilNode => Ok (HashNode emptyRoot, NilNode, db)
  | root => hash_node (node_depth root) (mkHasher (t_cachegen t) (t_cachelimit t) onleaf) root db true
  end.

(** [Hash]: the trie keeps the cached hashes. *)
Definition Trie_Hash (t : Trie) : tres (Trie * Hash) :=
  '(hash, cached, _) ← hashRoot t None None;
  h ← deref (hash_of hash);
  Ok (set_root cached t, BytesToHash h).

Definition Commit (onleaf : option LeafCallback) (t : Trie) (db : TrieDB) : tres (Trie * TrieDB * Hash) :=
  '(hash, cached, db) ← hashRoot t (Some db) onleaf;
  h ← deref (hash_of hash);
  db ← deref db;
  Ok (mkTrie cached (t_originalRoot t) ((t_cachegen t + 1) mod 65536) (t_cachelimit t), db, BytesToHash h).

(** ** The secure trie (secure_trie.go)

    Keys are hashed; their preimages are kept until [Commit].  A copy of a
    secure trie does not own the preimage cache, and starts a new one. *)

Record SecureTrie := mkSecure {
  st_trie : Trie;
  st_secKeyCache : gmap (list Z) (list Z);
  st_owner : bool
}.

Definition NewSecure (root : Hash) (db : TrieDB) (cachelimit : Z) : tres SecureTrie :=
  trie ← New root db;
  Ok (mkSecure (SetCacheLimit cachelimit trie) ∅ false).

Definition hashKey (key : list Z) : list Z := Keccak256 key.

Definition getSecKeyCache (t : SecureTrie) : gmap (list Z) (list Z) :=
  if st_owner t then st_secKeyCache t else ∅.

Definition Secure_TryGet (db : TrieDB) (key : list Z) (t : SecureTrie) : SecureTrie * tres (option (list Z)) :=
  let '(trie, r) := TryGet db (hashKey key) (st_trie t) in
  (mkSecure trie (st_secKeyCache t) (st_owner t), r).

Definition Secure_TryUpdate (db : TrieDB) (key value : list Z) (t : SecureTrie) : SecureTrie * tres unit :=
  let hk := hashKey key in
  match TryUpdate db hk value (st_trie t) with
  | (trie, Ok _) => (mkSecure trie (<[hk := key]> (getSecKeyCache t)) true, Ok tt)
  | (trie, r) => (mkSecure trie (st_secKeyCache t) (st_owner t), r)
  end.

Definition Secure_TryDelete (db : TrieDB) (key : list Z) (t : SecureTrie) : SecureTrie * tres unit :=
  let hk := hashKey key in
  let cache := delete hk (getSecKeyCache t) in
  let '(trie, r) := TryDelete db hk (st_trie t) in
  (mkSecure trie cache true, r).

Definition GetKey (db : TrieDB) (shaKey : list Z) (t : SecureTrie) : SecureTrie * option (list Z) :=
  let cache := getSecKeyCache t in
  (mkSecure (st_trie t) cache true,
   match cache !! shaKey with
   | Some key => Some key
   | None => preimage db (BytesToHash shaKey)
   end).

Definition Secure_Commit (onleaf : option LeafCallback) (t : SecureTrie) (db : TrieDB)
    : tres (SecureTrie * TrieDB * Hash) :=
  let cache := getSecKeyCache t in
  let db := map_fold (fun hk key db => insertPreimage (BytesToHash hk) key db) db cache in
  '(trie, db, root) ← Commit onleaf (st_trie t) db;
  Ok (mkSecure trie ∅ true, db, root).

Definition Secure_Hash (t : SecureTrie) : tres (SecureTrie * Hash) :=
  '(trie, h) ← Trie_Hash (st_trie t);
  Ok (mkSecure trie (st_secKeyCache t) (st_owner t), h).

Definition Secure_Copy (t : SecureTrie) : SecureTrie := mkSecure (st_trie t) (st_secKeyCache t) false.

End Trie.
