(* ===== verification/TrieSpec.v ===== *)
(** * The trie as a map

    A trie in memory, with parts of it on disk behind hashes, represents a
    canonical tree.  [TryGet], [TryUpdate] and [TryDelete] are the operations
    of a finite map on the keys and values of that tree; they never meet a
    missing node, and they keep the tree canonical. *)

From S2P Require Import Prelude Types Interfaces Rlp TrieEncoding TrieNode Trie.
From stdpp Require Import base tactics option numbers list gmap.
From Stdlib Require Import ZArith Lia.

#[local] Open Scope Z_scope.

(** ** Keys *)

(** The nibbles of a byte key, or what is left of them on the way down. *)
Definition vkey (k : list Z) : Prop := ∃ ns, nibbles ns ∧ k = ns ++ [16].

Lemma vkey_nonempty k : vkey k → k ≠ [].
Proof. by intros (ns & _ & ->) ?%app_nil%proj2. Qed.

Lemma vkey_cons x k : vkey (x :: k) → x = 16 ∧ k = [] ∨ is_nibble x ∧ vkey k.
Proof.
  intros ([|n ns] & Hn & E); injection E as -> ->; [by left|right].
  apply Forall_cons_iff in Hn as [? ?]. split; [done|]. by exists ns.
Qed.

Lemma vkey_app l k : nibbles l → vkey (l ++ k) → vkey k.
Proof.
  induction 1 as [|x l Hx _ IH]; [done|]. cbn. intros [[-> _]|[_ Hk]]%vkey_cons; [|auto].
  unfold is_nibble in Hx. lia.
Qed.

Lemma vkey_snoc ns : nibbles ns → vkey (ns ++ [16]).
Proof. intros ?. by exists ns. Qed.

Lemma vkey_keybytes key : is_bytes key → vkey (keybytesToHex key).
Proof. intros Hb. eexists. split; [by apply keybytes_nibbles|done]. Qed.

(** No key is a proper prefix of another. *)
Lemma vkey_prefix k1 k2 : vkey k1 → vkey (k1 ++ k2) → k2 = [].
Proof.
  intros (ns & Hn & ->). rewrite <- (assoc_L (++)). intros Hk%vkey_app; [|done].
  cbn in Hk. apply vkey_cons in Hk as [[_ ->]|[Hx _]]; [done|]. unfold is_nibble in Hx. lia.
Qed.

Lemma prefixLen_spec a b : ∃ p a' b', a = p ++ a' ∧ b = p ++ b' ∧ prefixLen a b = length p ∧
  (a' = [] ∨ b' = [] ∨ ∃ x y a'' b'', a' = x :: a'' ∧ b' = y :: b'' ∧ x ≠ y).
Proof.
  revert b. induction a as [|x a IH]; intros b; [exists [], [], b; naive_solver|].
  destruct b as [|y b]; [exists [], (x :: a), []; naive_solver|]. cbn [prefixLen].
  destruct (Z.eqb_spec x y) as [->|Hne].
  - destruct (IH b) as (p & a' & b' & -> & -> & El & Hd).
    exists (y :: p), a', b'. split_and!; [done|done|cbn; by rewrite El|done].
  - exists [], (x :: a), (y :: b). split_and!; [done|done|done|]. right. right. by exists x, y, a, b.
Qed.

(** ** Contents of trees *)

Lemma holds_short_inv key t k v : holds (TShort key t) k v ↔ ∃ k', k = key ++ k' ∧ holds t k' v.
Proof. split; [inversion 1; subst; eauto|intros (k' & -> & ?); by apply holds_short]. Qed.

Lemma holds_full_inv cs k v : holds (TFull cs) k v ↔
  ∃ x c k', k = x :: k' ∧ 0 ≤ x ∧ cs !! Z.to_nat x = Some c ∧ holds c k' v.
Proof.
  split; [inversion 1; subst; eauto 10|]. intros (x & c & k' & -> & ? & ? & ?). by eapply holds_full.
Qed.

Lemma holds_value_inv v k v' : holds (TValue v) k v' ↔ k = [] ∧ v' = v.
Proof. split; [by inversion 1; subst|intros [-> ->]; apply holds_value]. Qed.

Lemma holds_nil_inv k v : ¬ holds TNil k v.
Proof. inversion 1. Qed.

Lemma holds_fun t k v1 v2 : holds t k v1 → holds t k v2 → v1 = v2.
Proof.
  intros Hh. revert v2. induction Hh as [v|key t k v _ IH|cs x c k v Hx Hl _ IH]; intros v2 H2.
  - by apply holds_value_inv in H2 as [_ ->].
  - apply holds_short_inv in H2 as (k' & E & H2). apply (inj _) in E as ->. auto.
  - apply holds_full_inv in H2 as (x' & c' & k' & E & _ & Hl' & H2). injection E as -> ->.
    rewrite Hl in Hl'. injection Hl' as ->. auto.
Qed.

(** The keys of a canonical tree are whole keys. *)
Lemma canon_vkey t k v : canon t → holds t k v → vkey k.
Proof.
  intros Hc. revert k v. induction Hc as [k' v' Hk|k' cs Hne Hk _ IH|cs Hlen _ Hi IH Hv]; intros k v Hh.
  - apply holds_short_inv in Hh as (k2 & -> & Hh). apply holds_value_inv in Hh as [-> ->].
    rewrite app_nil_r. by apply vkey_snoc.
  - apply holds_short_inv in Hh as (k2 & -> & Hh). destruct (IH _ _ Hh) as (ns & Hn & ->).
    exists (k' ++ ns). split; [by apply Forall_app|]. by rewrite (assoc_L (++)).
  - apply holds_full_inv in Hh as (x & c & k2 & -> & Hx & Hl & Hh).
    pose proof (lookup_lt_Some _ _ _ Hl) as Hlt. rewrite Hlen in Hlt.
    assert (c ≠ TNil) as Hn by (by intros ->; apply holds_nil_inv in Hh).
    assert (x < 16 ∨ x = 16) as [Hx16| ->] by lia.
    + destruct (IH _ _ Hl ltac:(lia) Hn _ _ Hh) as (ns & Hns & ->).
      exists (x :: ns). split; [|done]. constructor; [split; lia|done].
    + destruct (Hv _ Hl Hn) as [v' ->]. apply holds_value_inv in Hh as [-> ->]. exists []. split; [constructor|done].
Qed.

(** A full node has keys that start with different nibbles. *)
Lemma full_two_keys cs x : canon (TFull cs) → ∃ y k v, y ≠ x ∧ holds (TFull cs) (y :: k) v.
Proof.
  intros Hc. inversion Hc as [| |cs' Hlen H2 Hi Hv]; subst.
  set (cs1 := if decide (0 ≤ x) then <[Z.to_nat x := TNil]> cs else cs).
  assert (1 ≤ length (filter (fun c => nonnil c = true) cs1))%nat as H1.
  { subst cs1. case_decide; [|lia]. destruct (decide (Z.to_nat x < length cs)%nat) as [Hlt|Hge].
    - destruct (lookup_lt_is_Some_2 cs (Z.to_nat x) Hlt) as [c Hl].
      rewrite <- (take_drop_middle _ _ _ Hl) in H2. rewrite insert_take_drop by done.
      rewrite filter_app, length_app in *. cbn [filter list_filter] in *.
      rewrite (decide_False (P := nonnil TNil = true)) by done. case_decide; cbn [length] in *; lia.
    - rewrite list_insert_ge by lia. lia. }
  apply filter_exists in H1 as (i & c & Hl & Hc1%nonnil_true).
  assert (cs !! i = Some c ∧ Z.of_nat i ≠ x) as [Hl0 Hix].
  { subst cs1. case_decide; [|split; [done|lia]].
    destruct (decide (i = Z.to_nat x)) as [->|Hne].
    - pose proof (lookup_lt_Some _ _ _ Hl) as Hlt. rewrite length_insert in Hlt.
      rewrite list_lookup_insert_eq in Hl by done. by injection Hl as <-.
    - rewrite list_lookup_insert_ne in Hl by done. split; [done|lia]. }
  assert (∃ k v, holds c k v) as (k & v & Hh).
  { destruct (canon_full_child cs i c Hc Hl0 Hc1) as [[_ Hcc]|[_ [v ->]]]; [by apply canon_inhabited|].
    do 2 eexists. apply holds_value. }
  exists (Z.of_nat i), k, v. split; [done|]. eapply holds_full; [lia|by rewrite Nat2Z.id|done].
Qed.

(** ** The contents determine the tree *)

Definition same_contents (t1 t2 : tree) : Prop := ∀ k v, holds t1 k v ↔ holds t2 k v.

Lemma same_contents_nil t : canon t → ¬ same_contents t TNil.
Proof. intros (k & v & Hh)%canon_inhabited Hs. by apply Hs, holds_nil_inv in Hh. Qed.

(** All keys of a short node start with the key of the node, and it is the
    longest such prefix when a full node follows. *)
Lemma full_not_short cs key t : canon (TFull cs) → key ≠ [] → ¬ same_contents (TFull cs) (TShort key t).
Proof.
  intros Hc Hne Hs. destruct key as [|x key]; [done|].
  destruct (full_two_keys cs x Hc) as (y & k & v & Hyx & Hh%Hs).
  apply holds_short_inv in Hh as (k' & E & _). by injection E as ->.
Qed.

Lemma same_contents_sym t1 t2 : same_contents t1 t2 → same_contents t2 t1.
Proof. intros Hs k v. symmetry. apply Hs. Qed.

Lemma short_same_tail key t1 t2 : same_contents (TShort key t1) (TShort key t2) → same_contents t1 t2.
Proof.
  intros Hs k v. specialize (Hs (key ++ k) v). rewrite !holds_short_inv in Hs. split; intros Hh.
  - destruct (proj1 Hs) as (k' & E & Hh'); [eauto|]. apply (inj _) in E as ->. done.
  - destruct (proj2 Hs) as (k' & E & Hh'); [eauto|]. apply (inj _) in E as ->. done.
Qed.

Lemma full_same_child cs1 cs2 i c1 c2 : same_contents (TFull cs1) (TFull cs2) →
  cs1 !! i = Some c1 → cs2 !! i = Some c2 → same_contents c1 c2.
Proof.
  intros Hs H1 H2 k v. specialize (Hs (Z.of_nat i :: k) v). rewrite !holds_full_inv in Hs. split; intros Hh.
  - destruct (proj1 Hs) as (x & c & k' & E & _ & Hl & Hh');
      [do 3 eexists; split; [done|]; split; [lia|]; by rewrite Nat2Z.id|].
    injection E as <- <-. rewrite Nat2Z.id in Hl. congruence.
  - destruct (proj2 Hs) as (x & c & k' & E & _ & Hl & Hh');
      [do 3 eexists; split; [done|]; split; [lia|]; by rewrite Nat2Z.id|].
    injection E as <- <-. rewrite Nat2Z.id in Hl. congruence.
Qed.

(** Two short nodes over full nodes with the same contents have the same key. *)
Lemma ext_same_key k1 cs1 k2 cs2 : canon (TFull cs1) → canon (TFull cs2) →
  same_contents (TShort k1 (TFull cs1)) (TShort k2 (TFull cs2)) → k1 = k2.
Proof.
  intros H1 H2 Hs. destruct (prefixLen_spec k1 k2) as (p & a & b & -> & -> & _ & Hd).
  assert (same_contents (TShort a (TFull cs1)) (TShort b (TFull cs2))) as Hs'.
  { intros k v. specialize (Hs (p ++ k) v). rewrite !holds_short_inv in *.
    split; intros (k' & -> & Hh).
    - destruct (proj1 Hs) as (k2 & E & ?); [exists k'; by rewrite (assoc_L (++))|].
      rewrite <- (assoc_L (++)) in E. apply (inj _) in E. eauto.
    - destruct (proj2 Hs) as (k2 & E & ?); [exists k'; by rewrite (assoc_L (++))|].
      rewrite <- (assoc_L (++)) in E. apply (inj _) in E. eauto. }
  assert (a = [] ∧ b = []) as [-> ->]; [|done].
  destruct a as [|x a], b as [|y b].
  - done.
  - exfalso. apply (full_not_short cs1 (y :: b) (TFull cs2) H1); [done|].
    intros k v. rewrite <- (Hs' k v), holds_short_inv. cbn. naive_solver.
  - exfalso. apply (full_not_short cs2 (x :: a) (TFull cs1) H2); [done|].
    intros k v. rewrite (Hs' k v), holds_short_inv. cbn. naive_solver.
  - exfalso. destruct Hd as [?|[?|(x' & y' & a' & b' & [= -> ->] & [= -> ->] & Hne)]]; [done|done|].
    destruct (canon_inhabited _ H1) as (k & v & Hh).
    pose proof (proj1 (Hs' (x' :: a' ++ k) v)) as Hk.
    destruct (proj1 (holds_short_inv _ _ _ _) (Hk (holds_short (x' :: a') _ _ _ Hh))) as (k' & E & _).
    by injection E.
Qed.

(** A leaf holds one key, a tree over a full node more. *)
Lemma leaf_not_ext k1 v1 k2 cs2 : canon (TFull cs2) →
  ¬ same_contents (TShort k1 (TValue v1)) (TShort k2 (TFull cs2)).
Proof.
  intros Hc Hs. destruct (canon_inhabited _ Hc) as (k & v & Hh).
  apply holds_full_inv in Hh as (x & c & k' & -> & Hx & Hl & Hh).
  destruct (full_two_keys cs2 x Hc) as (y & k3 & v3 & Hyx & Hh3).
  pose proof (proj2 (Hs (k2 ++ x :: k') v)) as Ha. pose proof (proj2 (Hs (k2 ++ y :: k3) v3)) as Hb.
  destruct (proj1 (holds_short_inv _ _ _ _) (Ha (holds_short k2 _ _ _ (holds_full _ _ _ _ _ Hx Hl Hh))))
    as (? & E1 & [-> _]%holds_value_inv).
  destruct (proj1 (holds_short_inv _ _ _ _) (Hb (holds_short k2 _ _ _ Hh3))) as (? & E2 & [-> _]%holds_value_inv).
  rewrite <- E1 in E2. apply (inj _) in E2. by injection E2.
Qed.

Lemma canon_unique t1 t2 : canon t1 → canon t2 → same_contents t1 t2 → t1 = t2.
Proof.
  intros Hc1. revert t2.
  induction Hc1 as [k1 v1 Hk1|k1 cs1 Hne1 Hk1 Hcs1 IH|cs1 Hlen1 H21 Hi1 IH Hv1]; intros t2 Hc2 Hs.
  - inversion Hc2 as [k2 v2 Hk2|k2 cs2 Hne2 Hk2 Hcs2|cs2 Hlen2 H22 Hi2 Hv2]; subst.
    + pose proof (proj1 (Hs (k1 ++ [16]) v1)) as Hh.
      destruct (proj1 (holds_short_inv _ _ _ _) (Hh ltac:(apply holds_short_inv; exists []; rewrite app_nil_r; split; [done|apply holds_value])))
        as (k' & E & [-> ->]%holds_value_inv). rewrite app_nil_r in E. by rewrite E.
    + by apply leaf_not_ext in Hs.
    + exfalso. apply (full_not_short cs2 (k1 ++ [16]) (TValue v1) Hc2); [by destruct k1|by apply same_contents_sym].
  - inversion Hc2 as [k2 v2 Hk2|k2 cs2 Hne2 Hk2 Hcs2|cs2 Hlen2 H22 Hi2 Hv2]; subst.
    + by apply same_contents_sym, leaf_not_ext in Hs.
    + pose proof (ext_same_key _ _ _ _ Hcs1 Hcs2 Hs) as ->. f_equal. apply IH; [done|].
      by eapply short_same_tail.
    + exfalso. by apply (full_not_short cs2 k1 (TFull cs1) Hc2), same_contents_sym.
  - assert (canon (TFull cs1)) as Hc1 by (by constructor).
    inversion Hc2 as [k2 v2 Hk2|k2 cs2 Hne2 Hk2 Hcs2|cs2 Hlen2 H22 Hi2 Hv2]; subst.
    + exfalso. apply (full_not_short cs1 (k2 ++ [16]) (TValue v2) Hc1); [by destruct k2|done].
    + exfalso. by apply (full_not_short cs1 k2 (TFull cs2) Hc1) in Hs.
    + f_equal. apply list_eq_same_length with 17%nat; [done|done|]. intros i c1 c2 Hlt H1 H2.
      pose proof (full_same_child cs1 cs2 i c1 c2 Hs H1 H2) as Hs'.
      pose proof (canon_full_children cs2 i c2 Hc2 H2) as Hok2.
      destruct (canon_full_children cs1 i c1 Hc1 H1) as [->|[[Hi Hcc1]|[-> [v1 ->]]]],
        Hok2 as [->|[[Hi' Hcc2]|[Hi16 [v2 ->]]]]; try done; try lia.
      * exfalso. by apply same_contents_sym, same_contents_nil in Hs'.
      * exfalso. pose proof (proj2 (Hs' [] v2)) as Hx. by apply holds_nil_inv in Hx; [|apply holds_value].
      * exfalso. by apply same_contents_nil in Hs'.
      * eapply IH; [done|done|by intros ->; apply canon_not_nil in Hcc1|done|done].
      * exfalso. pose proof (proj1 (Hs' [] v1)) as Hx. by apply holds_nil_inv in Hx; [|apply holds_value].
      * pose proof (proj1 (Hs' [] v1) (holds_value v1)) as [_ ->]%holds_value_inv. done.
Qed.

(** ** What a node in memory represents *)

Section Spec.
Context `{HK : Keccak, HD : Database, !KeccakLaws}.

Section Rep.
Context (db : TrieDB).

(** The nodes below [t] that are referred to by hash are in the database. *)
Inductive below : tree → Prop :=
| below_short k t :
    (canon t → 32 ≤ strlen (tenc t) → tdb_Node db (thash t) = Some (tenc t)) →
    (canon t → below t) → below (TShort k t)
| below_full cs :
    (∀ i c, cs !! i = Some c → canon c → 32 ≤ strlen (tenc c) → tdb_Node db (thash c) = Some (tenc c)) →
    (∀ i c, cs !! i = Some c → canon c → below c) → below (TFull cs).

Definition stored (t : tree) : Prop := tdb_Node db (thash t) = Some (tenc t) ∧ below t.

(** A cached hash is right, and a clean node with one is stored; without a hash,
    only an embedded node is clean.  Only the root has a hash when its encoding
    is short. *)
Definition flag_ok (root : bool) (f : nodeFlag) (t : tree) : Prop :=
  match nf_hash f with
  | None => nf_dirty f = false → root = false ∧ strlen (tenc t) < 32
  | Some h => h = thash t ∧ (root = false → 32 ≤ strlen (tenc t)) ∧ (nf_dirty f = false → stored t)
  end.

Inductive rep : bool → node → tree → Prop :=
| rep_nil root : rep root NilNode TNil
| rep_value root v : rep root (ValueNode v) (TValue v)
| rep_short root k n t f : rep false n t → flag_ok root f (TShort k t) → rep root (ShortNode k n f) (TShort k t)
| rep_full root ns ts f :
    length ns = length ts → (∀ i n t, ns !! i = Some n → ts !! i = Some t → rep false n t) →
    flag_ok root f (TFull ts) → rep root (FullNode ns f) (TFull ts)
| rep_hash root t : canon t → stored t → (root = false → 32 ≤ strlen (tenc t)) → rep root (HashNode (thash t)) t.

Lemma flag_new root gen t : flag_ok root (newFlag gen) t.
Proof. done. Qed.

Lemma flag_gen root f gen t : flag_ok root f t → flag_ok root (set_gen f gen) t.
Proof. done. Qed.

Lemma BytesToHash_32 h : length h = HashLength → BytesToHash h = h.
Proof.
  intros Hh. unfold BytesToHash. rewrite Hh, Nat.sub_diag, drop_0, Hh, Nat.sub_diag. done.
Qed.

(** ** Resolving a hash *)

Lemma shallow_child_rep gen c :
  (canon c → below c → strlen (tenc c) < 32 → rep false (shallow None gen c) c) →
  (c = TNil ∨ (∃ v, c = TValue v) ∨ canon c) →
  (canon c → 32 ≤ strlen (tenc c) → tdb_Node db (thash c) = Some (tenc c)) → (canon c → below c) →
  rep false (shallow_child gen c) c.
Proof.
  intros Hs Hok Hn Hb. destruct Hok as [->|[[v ->]|Hc]]; [apply rep_nil|apply rep_value|].
  unfold shallow_child. destruct (Z.ltb_spec (strlen (tenc c)) 32).
  - assert (rep false (shallow None gen c) c) by auto. by destruct c.
  - assert (rep false (HashNode (thash c)) c) by (apply rep_hash; [done|split; auto|done]).
    destruct c; try done; by inversion Hc.
Qed.

Lemma shallow_rep root hash gen t : canon t → below t → flag_ok root (mkFlag hash gen false) t →
  rep root (shallow hash gen t) t.
Proof.
  intros Hc. revert root hash.
  induction Hc as [k v Hk|k cs Hne Hk Hcs IH|cs Hlen H2 Hi IH Hv]; intros root hash Hb Hf.
  - apply rep_short; [apply rep_value|done].
  - inversion Hb as [? ? Hn Hb'|]; subst. apply rep_short; [|done].
    apply (shallow_child_rep gen (TFull cs)); [|by right; right|done|done].
    intros _ Hb2 Hl. by apply IH.
  - assert (canon (TFull cs)) as Hc by (by constructor).
    inversion Hb as [|? Hn Hb']; subst.
    change (shallow hash gen (TFull cs)) with (FullNode (shallow_child gen <$> cs) (mkFlag hash gen false)).
    apply rep_full; [apply length_fmap| |done].
    intros i n t Hln Hlt. rewrite list_lookup_fmap, Hlt in Hln. injection Hln as <-.
    apply shallow_child_rep; [| |by eapply Hn|by eapply Hb'].
    + intros Hcc Hbc Hl. destruct (canon_full_children cs i t Hc Hlt) as [->|[[Hi' _]|[_ [v ->]]]];
        [by apply canon_not_nil in Hcc| |by apply canon_not_value in Hcc].
      eapply IH; [done|done|intros ->; by apply canon_not_nil in Hcc|done|done].
    + destruct (canon_full_children cs i t Hc Hlt) as [->|[[_ ?]|[_ [v ->]]]]; eauto.
Qed.

Lemma resolve_stored root gen prefix t : canon t → entries_ok t → stored t →
  (root = false → 32 ≤ strlen (tenc t)) →
  ∃ n, resolveHash db gen (thash t) prefix = Ok n ∧ rep root n t ∧ (∀ h, n ≠ HashNode h).
Proof.
  intros Hc He [Hn Hb] Hr. exists (shallow (Some (thash t)) gen t). split_and!.
  - unfold resolveHash. rewrite BytesToHash_32 by apply Keccak256_length. rewrite Hn.
    unfold mustDecodeNode. by rewrite decodeNode_stored.
  - by apply shallow_rep; [..|split_and!].
  - intros h. by destruct t; inversion Hc.
Qed.

(** ** Reading *)

(** [k] is what is left of a key at a node that represents [t]. *)
Definition at_key (t : tree) (k : list Z) : Prop :=
  match t with
  | TNil => True
  | TValue _ => k = []
  | _ => canon t ∧ vkey k
  end.

Lemma at_key_canon t k : canon t → vkey k → at_key t k.
Proof. destruct t; try done; by inversion 1. Qed.

Lemma at_key_short key t k : canon (TShort key t) → vkey (key ++ k) → at_key t k.
Proof.
  intros Hc Hk. inversion Hc; subst; cbn.
  - by eapply vkey_prefix, Hk; apply vkey_snoc.
  - split; [done|]. by eapply vkey_app.
Qed.

Lemma at_key_full cs x k : canon (TFull cs) → vkey (x :: k) →
  0 ≤ x ∧ ∃ c, cs !! Z.to_nat x = Some c ∧ at_key c k.
Proof.
  intros Hc Hk. pose proof Hc as Hc0. inversion Hc0 as [| |cs' Hlen _ _ _]; subst.
  assert (0 ≤ x ≤ 16) as Hx.
  { apply vkey_cons in Hk as [[-> _]|[Hx _]]; [lia|]. unfold is_nibble in Hx. lia. }
  split; [lia|]. destruct (lookup_lt_is_Some_2 cs (Z.to_nat x) ltac:(lia)) as [c Hl].
  exists c. split; [done|].
  destruct (canon_full_children cs _ c Hc Hl) as [->|[[Hi Hcc]|[Hi [v ->]]]]; [done| |].
  - apply at_key_canon; [done|]. apply vkey_cons in Hk as [[-> _]|[_ ?]]; [lia|done].
  - apply vkey_cons in Hk as [[_ ->]|[Hn _]]; [done|]. unfold is_nibble in Hn. lia.
Qed.

Lemma child_at_ok ns x n : 0 ≤ x → ns !! Z.to_nat x = Some n → child_at ns x = Ok n.
Proof. intros Hx Hl. unfold child_at. rewrite (proj2 (Z.ltb_ge _ _)) by lia. by rewrite Hl. Qed.

Lemma rep_full_child root ns f cs i c : rep root (FullNode ns f) (TFull cs) → cs !! i = Some c →
  ∃ n, ns !! i = Some n ∧ rep false n c.
Proof.
  inversion 1; subst. intros Hl.
  destruct (lookup_lt_is_Some_2 ns i) as [n Hn]; [by apply lookup_lt_Some in Hl; lia|]. eauto.
Qed.

(** A full node with one child replaced. *)
Lemma rep_set_child root ns f cs i n t f' : rep root (FullNode ns f) (TFull cs) → rep false n t →
  flag_ok root f' (TFull (<[i := t]> cs)) → rep root (FullNode (<[i := n]> ns) f') (TFull (<[i := t]> cs)).
Proof.
  inversion 1 as [| | |? ? ? ? Hlen Hall Hf|]; subst. intros Hn Hf'.
  apply rep_full; [by rewrite !length_insert| |done].
  intros j n' t' Hn' Ht'. apply list_lookup_insert_Some in Hn', Ht'.
  destruct Hn' as [(-> & -> & _)|[? ?]], Ht' as [(? & -> & _)|[? ?]]; naive_solver.
Qed.

(** Fuel: two steps for a nibble, and one for a hash in front. *)
Definition fuelFor (n : node) (k : list Z) : nat :=
  2 * length k + match n with HashNode _ => 2 | _ => 1 end.

Lemma fuelFor_le n k : (fuelFor n k ≤ 2 * length k + 2)%nat.
Proof. unfold fuelFor. case_match; lia. Qed.

Lemma fuelFor_resolved n h k : (∀ h, n ≠ HashNode h) → (S (fuelFor n k) ≤ fuelFor (HashNode h) k)%nat.
Proof. intros Hn. unfold fuelFor. destruct n; [lia|lia|lia|by destruct (Hn h0)|lia]. Qed.

Lemma tryGet_spec gen fuel root n t key pos : rep root n t → entries_ok t → at_key t (drop pos key) →
  (fuelFor n (drop pos key) ≤ fuel)%nat →
  ∃ value n' d, tryGet db gen fuel n key pos = Ok (value, n', d) ∧ rep root n' t ∧
    ∀ v, value = Some v ↔ holds t (drop pos key) v.
Proof.
  revert root n t pos. induction fuel as [|fuel IH]; intros root n t pos Hr He Hk Hf.
  { unfold fuelFor in Hf. destruct n; lia. }
  cbn [tryGet]. inversion Hr as [|? v|? k n1 t1 f Hn1 Hf1|? ns ts f Hlen Hall Hf1|? ? Hc Hs Hl]; subst.
  - exists None, NilNode, false. split_and!; [done|done|]. intros v. split; [done|by intros ?%holds_nil_inv].
  - exists (Some v), (ValueNode v), false. split_and!; [done|done|]. intros v'.
    cbn in Hk. rewrite Hk, holds_value_inv. naive_solver.
  - destruct Hk as [Hc Hk]. rewrite <- length_drop.
    destruct (decide (k = take (length k) (drop pos key))) as [E|E].
    + assert (drop pos key = k ++ drop (pos + length k) key) as Ek.
      { rewrite <- (take_drop (length k) (drop pos key)) at 1. by rewrite <- E, drop_drop. }
      rewrite (proj2 (Nat.ltb_ge _ _)) by (rewrite Ek, length_app; lia).
      rewrite bool_decide_eq_true_2 by done. cbn [orb negb].
      rewrite Ek in Hk. pose proof (at_key_short _ _ _ Hc Hk) as Hk1.
      assert (k ≠ []) as Hkn by (inversion Hc; subst; [by destruct k0|done]).
      destruct (IH false n1 t1 (pos + length k)%nat) as (value & n' & d & -> & Hr' & Hv);
        [done|by eapply entries_ok_short|done| |].
      { pose proof (fuelFor_le n1 (drop (pos + length k) key)). unfold fuelFor in Hf. rewrite Ek, length_app in Hf.
        destruct k; [done|]. cbn [length] in *. lia. }
      rewrite bind_Ok. do 3 eexists. split; [done|]. split.
      * destruct d; [|done]. by apply rep_short.
      * intros v. rewrite Hv, Ek, holds_short_inv. split; [eauto|]. intros (k' & E' & Hh).
        by apply (inj _) in E' as ->.
    + rewrite bool_decide_eq_false_2 by done. rewrite orb_true_r.
      exists None, (ShortNode k n1 f), false. split_and!; [done|done|]. intros v. split; [done|].
      rewrite holds_short_inv. intros (k' & E' & _). rewrite E' in E. by rewrite take_app_length in E.
  - destruct Hk as [Hc Hk].
    destruct (drop pos key) as [|x k] eqn:Ed; [by apply vkey_nonempty in Hk|].
    destruct (at_key_full _ _ _ Hc Hk) as (Hx & c & Hlc & Hkc).
    destruct (rep_full_child _ _ _ _ _ _ Hr Hlc) as (nc & Hnc & Hrc).
    assert (key !! pos = Some x) as -> by (rewrite <- (Nat.add_0_r pos), <- lookup_drop, Ed; done).
    assert (drop (pos + 1) key = k) as Ed' by (by rewrite <- drop_drop, Ed).
    cbn [deref]. rewrite bind_Ok, (child_at_ok _ _ _ Hx Hnc), bind_Ok.
    destruct (IH false nc c (pos + 1)%nat) as (value & n' & d & -> & Hr' & Hv);
      [done|by eapply entries_ok_full|by rewrite Ed'| |].
    { rewrite Ed'. pose proof (fuelFor_le nc k). unfold fuelFor in Hf. cbn [length] in Hf. lia. }
    rewrite bind_Ok. do 3 eexists. split; [done|]. split.
    + destruct d; [|done]. unfold set_child.
      rewrite <- (list_insert_id ts (Z.to_nat x) c) by done. eapply rep_set_child; [done|done|].
      rewrite list_insert_id by done. by apply flag_gen.
    + intros v. rewrite Hv, Ed', holds_full_inv. split; [eauto 10|].
      intros (x' & c' & k' & E' & _ & Hl' & Hh). injection E' as <- <-. by rewrite Hlc in Hl'; injection Hl' as <-.
  - destruct (resolve_stored root gen (take pos key) t Hc He Hs Hl) as (rn & -> & Hrr & Hnh). rewrite bind_Ok.
    destruct (IH root rn t pos) as (value & n' & d & -> & Hr' & Hv);
      [done|done|done|pose proof (fuelFor_resolved rn (thash t) (drop pos key) Hnh); lia|].
    rewrite bind_Ok. by do 3 eexists.
Qed.

(** ** Inserting *)

(** The result of putting [v] at [key] into a subtree that represents [t]. *)
Definition inserted (t : tree) (key v : list Z) (t' : tree) : Prop :=
  (key = [] → t' = TValue v) ∧ (vkey key → canon t') ∧
  (∀ cs, t = TFull cs → ∃ cs', t' = TFull cs') ∧
  ∀ k v', holds t' k v' ↔ k = key ∧ v' = v ∨ k ≠ key ∧ holds t k v'.

(** A subtree hung below a path that may be empty. *)
Definition hang (k : list Z) (t : tree) : tree := match k with [] => t | _ => TShort k t end.

Lemma holds_hang k t k' v : holds (hang k t) k' v ↔ ∃ k2, k' = k ++ k2 ∧ holds t k2 v.
Proof. destruct k as [|x k]; cbn; [naive_solver|apply holds_short_inv]. Qed.

Lemma insert_nil gen fuel prefix k n t : rep false n t → (0 < fuel)%nat →
  ∃ n', trie_insert db gen fuel NilNode prefix k n = Ok (true, n') ∧ rep false n' (hang k t).
Proof.
  intros Hr Hf. destruct fuel as [|fuel]; [lia|]. destruct k as [|x k]; cbn; [eauto|].
  eexists. split; [done|]. by apply rep_short.
Qed.

(** What is below the key of a canonical short node, seen from a nibble of it. *)
Lemma canon_short_rest key t p a k : canon (TShort key t) → key = p ++ a :: k →
  (is_nibble a ∧ canon (hang k t) ∨ a = 16 ∧ hang k t = t ∧ ∃ v, t = TValue v).
Proof.
  intros Hc ->. inversion Hc as [k0 v Hk E|k0 cs Hne Hk Hcs E|]; subst.
  - destruct k as [|z k' _] using rev_ind.
    + apply app_inj_2 in E as [_ E]; [|done]. injection E as <-. right. eauto.
    + rewrite app_comm_cons, (assoc_L (++)) in E. apply app_inj_2 in E as [-> E]; [|done]. injection E as <-.
      left. apply Forall_app in Hk as [_ [? ?]%Forall_cons_iff]. split; [done|].
      assert (hang (k' ++ [16]) (TValue v) = TShort (k' ++ [16]) (TValue v)) as -> by (by destruct k').
      by apply canon_leaf.
  - left. apply Forall_app in Hk as [_ [? Hk]%Forall_cons_iff]. split; [done|].
    destruct k; [done|]. by apply canon_ext.
Qed.

Lemma vkey_rest p b k v : vkey (p ++ b :: k) → nibbles p →
  (is_nibble b ∧ canon (hang k (TValue v)) ∨ b = 16 ∧ hang k (TValue v) = TValue v).
Proof.
  intros Hk Hp. apply vkey_app in Hk; [|done].
  apply vkey_cons in Hk as [[-> ->]|[Hb (ns & Hns & ->)]]; [by right|left]. split; [done|].
  assert (hang (ns ++ [16]) (TValue v) = TShort (ns ++ [16]) (TValue v)) as -> by (by destruct ns).
  by apply canon_leaf.
Qed.

(** A branch with exactly two children. *)
Definition branch (a b : Z) (ta tb : tree) : tree :=
  TFull (<[Z.to_nat b := tb]> (<[Z.to_nat a := ta]> (replicate 17 TNil))).

Definition branch_child (x : Z) (t : tree) : Prop :=
  is_nibble x ∧ canon t ∨ x = 16 ∧ ∃ v, t = TValue v.

Lemma branch_child_nonnil x t : branch_child x t → t ≠ TNil.
Proof. intros [[_ Hc]|[_ [v ->]]]; [|done]. intros ->. by apply canon_not_nil in Hc. Qed.

Lemma branch_child_range x t : branch_child x t → 0 ≤ x ≤ 16.
Proof. intros [[Hx _]|[-> _]]; [unfold is_nibble in Hx|]; lia. Qed.

Lemma branch_lookup a b ta tb i c : 0 ≤ a ≤ 16 → 0 ≤ b ≤ 16 → a ≠ b →
  <[Z.to_nat b := tb]> (<[Z.to_nat a := ta]> (replicate 17 TNil)) !! i = Some c ↔
  (i < 17)%nat ∧ c = if decide (i = Z.to_nat b) then tb else if decide (i = Z.to_nat a) then ta else TNil.
Proof.
  intros Ha Hb Hab. rewrite !list_lookup_insert_Some, lookup_replicate, length_insert, length_replicate.
  repeat case_decide; subst; naive_solver lia.
Qed.

Lemma filter_two {A} (P : A → Prop) `{∀ x, Decision (P x)} (l : list A) i j x y :
  l !! i = Some x → l !! j = Some y → i ≠ j → P x → P y → (2 ≤ length (filter P l))%nat.
Proof.
  revert i j x y. induction l as [|z l IH]; intros i j x y Hi Hj Hij Hx Hy; [done|].
  rewrite filter_cons. destruct i as [|i], j as [|j]; [done| | |].
  - injection Hi as ->. rewrite decide_True by done. cbn [length].
    assert (y ∈ filter P l) as Hin by (apply list_elem_of_filter; split; [done|by eapply list_elem_of_lookup_2]).
    destruct (filter P l); [by apply elem_of_nil in Hin|cbn; lia].
  - injection Hj as ->. rewrite decide_True by done. cbn [length].
    assert (x ∈ filter P l) as Hin by (apply list_elem_of_filter; split; [done|by eapply list_elem_of_lookup_2]).
    destruct (filter P l); [by apply elem_of_nil in Hin|cbn; lia].
  - specialize (IH i j x y Hi Hj ltac:(congruence) Hx Hy). case_decide; cbn [length]; lia.
Qed.

Lemma branch_canon a b ta tb : a ≠ b → branch_child a ta → branch_child b tb → canon (branch a b ta tb).
Proof.
  intros Hab Ha Hb. pose proof (branch_child_range _ _ Ha). pose proof (branch_child_range _ _ Hb).
  apply canon_full.
  - by rewrite !length_insert.
  - apply (filter_two _ _ (Z.to_nat a) (Z.to_nat b) ta tb).
    + apply branch_lookup; [done|done|done|]. split; [lia|]. rewrite decide_False by lia. by rewrite decide_True.
    + apply branch_lookup; [done|done|done|]. split; [lia|]. by rewrite decide_True.
    + lia.
    + by apply nonnil_true, (branch_child_nonnil a).
    + by apply nonnil_true, (branch_child_nonnil b).
  - intros i c [_ ->]%branch_lookup Hi; [|done|done|done]. intros Hn.
    repeat case_decide; subst; [destruct Hb as [[_ ?]|[-> _]]|destruct Ha as [[_ ?]|[-> _]]|]; done || lia.
  - intros c [_ ->]%branch_lookup; [|done|done|done]. intros Hn.
    repeat case_decide; subst; [destruct Hb as [[Hx _]|[_ ?]]|destruct Ha as [[Hx _]|[_ ?]]|]; try done;
      unfold is_nibble in Hx; lia.
Qed.

Lemma holds_branch a b ta tb k v : 0 ≤ a ≤ 16 → 0 ≤ b ≤ 16 → a ≠ b →
  holds (branch a b ta tb) k v ↔ (∃ k', k = a :: k' ∧ holds ta k' v) ∨ (∃ k', k = b :: k' ∧ holds tb k' v).
Proof.
  intros Ha Hb Hab. unfold branch. rewrite holds_full_inv. split.
  - intros (x & c & k' & -> & Hx & [_ ->]%branch_lookup & Hh); [|done|done|done].
    repeat case_decide; [right|left|by apply holds_nil_inv in Hh]; exists k'; (split; [f_equal; lia|done]).
  - intros [(k' & -> & Hh)|(k' & -> & Hh)].
    + exists a, ta, k'. split_and!; [done|lia| |done]. apply branch_lookup; [done|done|done|].
      split; [lia|]. rewrite decide_False by lia. by rewrite decide_True.
    + exists b, tb, k'. split_and!; [done|lia| |done]. apply branch_lookup; [done|done|done|].
      split; [lia|]. by rewrite decide_True.
Qed.

Lemma rep_branch root a b na nb ta tb f : 0 ≤ a ≤ 16 → 0 ≤ b ≤ 16 →
  rep false na ta → rep false nb tb → nf_hash f = None → nf_dirty f = true →
  rep root (FullNode (set_child (set_child noChildren a na) b nb) f) (branch a b ta tb).
Proof.
  intros Ha Hb Hna Hnb Hf Hd. apply rep_full.
  - unfold set_child, noChildren. by rewrite !length_insert, !length_replicate.
  - unfold set_child, noChildren. intros i n t Hn Ht.
    apply list_lookup_insert_Some in Hn, Ht. rewrite !length_insert, !length_replicate in *.
    destruct Hn as [(? & -> & _)|[? Hn]], Ht as [(? & -> & _)|[? Ht]]; try done.
    apply list_lookup_insert_Some in Hn, Ht. rewrite !length_replicate in *.
    destruct Hn as [(? & -> & _)|[? Hn]], Ht as [(? & -> & _)|[? Ht]]; try done.
    apply lookup_replicate in Hn as [-> _], Ht as [-> _]. apply rep_nil.
  - unfold flag_ok. by rewrite Hf, Hd.
Qed.

Lemma vkey_front p b k : vkey (p ++ b :: k) → nibbles p.
Proof.
  intros (ns & Hn & E). destruct k as [|z k _] using rev_ind.
  - apply app_inj_2 in E as [-> _]; done.
  - rewrite app_comm_cons, (assoc_L (++)) in E. apply app_inj_2 in E as [<- _]; [|done].
    by apply Forall_app in Hn as [? _].
Qed.

(** Splitting a short node where the keys part. *)
Lemma split_inserted p a b ka kb t v : canon (TShort (p ++ a :: ka) t) → vkey (p ++ b :: kb) → a ≠ b →
  inserted (TShort (p ++ a :: ka) t) (p ++ b :: kb) v
    (hang p (branch a b (hang ka t) (hang kb (TValue v)))) ∧
  branch_child a (hang ka t) ∧ branch_child b (hang kb (TValue v)).
Proof.
  intros Hc Hk Hab. pose proof (vkey_front _ _ _ Hk) as Hp.
  assert (branch_child a (hang ka t)) as Ha.
  { destruct (canon_short_rest _ _ _ _ _ Hc eq_refl) as [[? ?]|(-> & -> & v' & ->)]; [by left|right; eauto]. }
  assert (branch_child b (hang kb (TValue v))) as Hb.
  { destruct (vkey_rest _ _ _ v Hk Hp) as [[? ?]|(-> & ->)]; [by left|right; eauto]. }
  split; [|done]. pose proof (branch_child_range _ _ Ha) as Ra. pose proof (branch_child_range _ _ Hb) as Rb.
  unfold inserted. split_and!.
  - by destruct p.
  - intros _. pose proof (branch_canon a b _ _ Hab Ha Hb) as Hbc.
    destruct p as [|x p]; [done|]. by apply canon_ext.
  - done.
  - intros k v'. rewrite holds_hang, holds_short_inv. split.
    + intros (k2 & -> & Hh). apply holds_branch in Hh as [(k' & -> & Hh)|(k' & -> & Hh)]; [| |done|done|done].
      * right. apply holds_hang in Hh as (k3 & -> & Hh). split; [intros E; apply (inj _) in E; by injection E|].
        exists k3. split; [by rewrite <- (assoc_L (++))|done].
      * left. apply holds_hang in Hh as (k3 & -> & [-> ->]%holds_value_inv). by rewrite app_nil_r.
    + intros [[-> ->]|[_ (k' & -> & Hh)]].
      * exists (b :: kb). split; [done|]. apply holds_branch; [done|done|done|]. right. exists kb. split; [done|].
        apply holds_hang. exists []. rewrite app_nil_r. split; [done|apply holds_value].
      * exists (a :: ka ++ k'). split; [by rewrite <- (assoc_L (++))|].
        apply holds_branch; [done|done|done|]. left. exists (ka ++ k'). split; [done|]. apply holds_hang. eauto.
Qed.

(** Inserting below a short node whose key matches. *)
Lemma short_inserted key t k v t' : canon (TShort key t) → vkey (key ++ k) → inserted t k v t' →
  inserted (TShort key t) (key ++ k) v (TShort key t').
Proof.
  intros Hc Hk (Hnil & Hcan & Hfull & Hh). unfold inserted. split_and!.
  - intros [-> _]%app_nil. inversion Hc; [by destruct k0|done].
  - intros _. inversion Hc as [k0 v0 Hk0|k0 cs Hne Hk0 Hcs|]; subst.
    + rewrite (Hnil ltac:(by eapply vkey_prefix, Hk; apply vkey_snoc)). by apply canon_leaf.
    + destruct (Hfull cs eq_refl) as [cs' ->]. apply canon_ext; [done|done|]. by apply Hcan, (vkey_app key).
  - done.
  - intros k2 v2. rewrite !holds_short_inv. split.
    + intros (k' & -> & [[-> ->]|[Hne Hh']]%Hh); [by left|right]. split; [|eauto].
      intros E. by apply (inj _) in E.
    + intros [[-> ->]|[Hne (k' & -> & Hh')]].
      * exists k. split; [done|]. apply Hh. by left.
      * exists k'. split; [done|]. apply Hh. right. split; [by intros ->|done].
Qed.

(** Replacing a child of a full node. *)
Lemma full_inserted cs x k v c c' : canon (TFull cs) → vkey (x :: k) → 0 ≤ x → cs !! Z.to_nat x = Some c →
  inserted c k v c' → inserted (TFull cs) (x :: k) v (TFull (<[Z.to_nat x := c']> cs)).
Proof.
  intros Hc Hk Hx Hl (Hnil & Hcan & Hfull & Hh). pose proof Hc as Hc0.
  inversion Hc0 as [| |cs' Hlen H2 Hi Hv]; subst. pose proof (lookup_lt_Some _ _ _ Hl) as Hlt.
  assert (branch_child x c') as Hbc.
  { destruct (vkey_cons _ _ Hk) as [[-> ->]|[Hx' Hk']]; [right; split; [done|]; rewrite Hnil by done; eauto|left; auto]. }
  unfold inserted. split_and!; [done| |eauto|].
  - intros _. apply canon_full.
    + by rewrite length_insert.
    + destruct (full_two_keys cs x Hc) as (y & k2 & v2 & Hyx & Hy).
      apply holds_full_inv in Hy as (y' & c2 & k3 & E & Hy0 & Hl2 & Hh2). injection E as <- <-.
      apply (filter_two _ _ (Z.to_nat x) (Z.to_nat y) c' c2).
      * by apply list_lookup_insert_eq.
      * rewrite list_lookup_insert_ne by lia. done.
      * lia.
      * by apply nonnil_true, (branch_child_nonnil x).
      * apply nonnil_true. by intros ->; apply holds_nil_inv in Hh2.
    + intros i ci Hli Hi16 Hn. apply list_lookup_insert_Some in Hli as [(<- & <- & _)|[_ Hli]]; [|eauto].
      destruct Hbc as [[_ ?]|[-> _]]; [done|lia].
    + intros ci Hli Hn. apply list_lookup_insert_Some in Hli as [(Hi16 & <- & _)|[_ Hli]]; [|eauto].
      destruct Hbc as [[Hx' _]|[_ ?]]; [|done]. unfold is_nibble in Hx'. lia.
  - intros k2 v2. rewrite !holds_full_inv. split.
    + intros (y & cy & k' & -> & Hy & Hly & Hhy). apply list_lookup_insert_Some in Hly as [(Exy & <- & _)|[Hne Hly]].
      * assert (y = x) as -> by lia. apply Hh in Hhy as [[-> ->]|[Hne Hhy]]; [by left|right].
        split; [congruence|]. eauto 10.
      * right. split; [intros E; injection E as -> _; lia|]. eauto 10.
    + intros [[-> ->]|[Hne (y & cy & k' & -> & Hy & Hly & Hhy)]].
      * exists x, c', k. split_and!; [done|done|by apply list_lookup_insert_eq|]. apply Hh. by left.
      * exists y. destruct (decide (y = x)) as [->|Hyx].
        -- exists c', k'. split_and!; [done|done|by apply list_lookup_insert_eq|]. rewrite Hl in Hly.
           injection Hly as <-. apply Hh. right. split; [congruence|done].
        -- exists cy, k'. split_and!; [done|done| |done]. rewrite list_lookup_insert_ne by lia. done.
Qed.

(** What [trie_insert] returns. *)
Definition insert_result (root : bool) (t : tree) (key v : list Z) (r : tres (bool * node)) : Prop :=
  ∃ d n' t', r = Ok (d, n') ∧ rep root n' t' ∧ inserted t key v t' ∧ (d = false → t' = t).

Lemma insert_short_split gen fuel root nkey n f t prefix key v :
  rep root (ShortNode nkey n f) (TShort nkey t) → canon (TShort nkey t) → vkey key →
  (prefixLen key nkey ≠ length nkey)%nat → (1 < fuel)%nat →
  insert_result root (TShort nkey t) key v (trie_insert db gen fuel (ShortNode nkey n f) prefix key (ValueNode v)).
Proof.
  intros Hr Hc Hk Hm Hf. destruct fuel as [|fuel]; [lia|]. inversion Hr as [| |? ? ? ? ? Hn _| |]; subst.
  destruct (prefixLen_spec key nkey) as (p & kb & ka & -> & -> & Hlen & Hd).
  assert (∃ b kb' a ka', kb = b :: kb' ∧ ka = a :: ka' ∧ a ≠ b) as (b & kb' & a & ka' & -> & -> & Hab).
  { destruct Hd as [->|[->|(x & y & kb' & ka' & -> & -> & Hne)]]; [|by rewrite Hlen, app_nil_r in Hm|by eauto 10].
    rewrite app_nil_r in Hk. destruct (canon_inhabited _ Hc) as (k & v' & Hh).
    pose proof (canon_vkey _ _ _ Hc Hh) as Hk'. apply holds_short_inv in Hh as (k2 & -> & _).
    rewrite <- (assoc_L (++)) in Hk'. apply vkey_prefix in Hk' as [-> _]%app_nil; [|done].
    by rewrite Hlen, app_nil_r in Hm. }
  destruct (split_inserted p a b ka' kb' t v Hc Hk Hab) as (Hins & Ha & Hb).
  pose proof (branch_child_range _ _ Ha) as Ra. pose proof (branch_child_range _ _ Hb) as Rb.
  destruct (insert_nil gen fuel (prefix ++ take (length p + 1) (p ++ a :: ka')) ka' n t Hn ltac:(lia)) as (n1 & E1 & Hr1).
  destruct (insert_nil gen fuel (prefix ++ take (length p + 1) (p ++ b :: kb')) kb' (ValueNode v) (TValue v)
    (rep_value _ _) ltac:(lia)) as (n2 & E2 & Hr2).
  assert (∀ (x : Z) l, drop (length p + 1) (p ++ x :: l) = l) as Hdrop.
  { intros x l. rewrite drop_app_add. done. }
  assert (∀ (x : Z) l, (p ++ x :: l) !! length p = Some x) as Hlook by (intros x l; by apply list_lookup_middle).
  destruct (p ++ b :: kb') as [|x0 k0] eqn:Ekey; [by destruct p|]. cbn [trie_insert]. rewrite <- Ekey in *. cbv zeta.
  rewrite Hlen. rewrite (proj2 (Nat.eqb_neq _ _)) by (rewrite length_app; cbn; lia).
  rewrite (Hlook a ka'). cbn [deref]. rewrite bind_Ok, (Hdrop a ka'), E1, bind_Ok.
  assert (∀ x, 0 ≤ x ≤ 16 → child_at noChildren x = Ok NilNode) as Hch.
  { intros x Hx. apply child_at_ok; [lia|]. apply lookup_replicate. split; [done|lia]. }
  rewrite (Hch a Ra), bind_Ok, (Hlook b kb'). cbn [deref].
  rewrite bind_Ok, (Hdrop b kb'), E2, bind_Ok, (Hch b Rb), bind_Ok.
  pose proof (rep_branch root a b n1 n2 _ _ (newFlag gen) Ra Rb Hr1 Hr2 eq_refl eq_refl) as Hrb.
  pose proof (rep_branch false a b n1 n2 _ _ (newFlag gen) Ra Rb Hr1 Hr2 eq_refl eq_refl) as Hrb'.
  rewrite take_app_length. destruct p as [|x p]; cbn [length Nat.eqb].
  - exists true. do 2 eexists. split; [done|]. by split_and!.
  - exists true. do 2 eexists. split; [done|]. split_and!; [|done|done]. by apply rep_short.
Qed.

Lemma canon_key_nonempty k t : canon (TShort k t) → k ≠ [].
Proof. inversion 1; subst; [by destruct k0|done]. Qed.

(** The short-node case of [trie_insert] when the key matches. *)
Lemma insert_short_match gen fuel root k n f t prefix key v :
  rep root (ShortNode k n f) (TShort k t) → canon (TShort k t) → vkey key → prefixLen key k = length k →
  (∀ kb prefix, key = k ++ kb → at_key t kb →
     insert_result false t kb v (trie_insert db gen fuel n prefix kb (ValueNode v))) →
  insert_result root (TShort k t) key v (trie_insert db gen (S fuel) (ShortNode k n f) prefix key (ValueNode v)).
Proof.
  intros Hr Hc Hk Hm IH. destruct (prefixLen_spec key k) as (p & kb & ka & E1 & E2 & Ep & _).
  assert (ka = []) as -> by (rewrite Hm in Ep; rewrite E2, length_app in Ep; destruct ka; [done|cbn in Ep; lia]).
  rewrite app_nil_r in E2. subst p. subst key.
  destruct (IH kb (prefix ++ k) eq_refl (at_key_short _ _ _ Hc Hk)) as (d & n' & t' & Ei & Hr' & Hins & Hd).
  pose proof (short_inserted k t kb v t' Hc Hk Hins) as Hins'.
  destruct (k ++ kb) as [|x0 k0] eqn:Ekey; [by apply vkey_nonempty in Hk|]. cbn [trie_insert]. rewrite <- Ekey in *.
  cbv zeta. rewrite Hm, Nat.eqb_refl, take_app_length, drop_app_length, Ei, bind_Ok. destruct d.
  - exists true. do 2 eexists. split; [done|]. split_and!; [by apply rep_short|done|done].
  - rewrite (Hd eq_refl) in Hins'. exists false. do 2 eexists. split; [done|]. by split_and!.
Qed.

Lemma insert_into_nil gen fuel root prefix key v : vkey key ∨ key = [] →
  insert_result root TNil key v (trie_insert db gen (S fuel) NilNode prefix key (ValueNode v)).
Proof.
  intros [(ns & Hns & ->)| ->].
  - assert (trie_insert db gen (S fuel) NilNode prefix (ns ++ [16]) (ValueNode v) =
      Ok (true, ShortNode (ns ++ [16]) (ValueNode v) (newFlag gen))) as -> by (by destruct ns).
    exists true. do 2 eexists. split; [done|].
    split_and!; [apply rep_short; [apply rep_value|done]| |done]. unfold inserted.
    split_and!; [by intros [_ ?]%app_nil|intros _; by apply canon_leaf|done|].
    intros k v'. rewrite holds_short_inv. split.
    + intros (k' & -> & [-> ->]%holds_value_inv). rewrite app_nil_r. by left.
    + intros [[-> ->]|[_ ?%holds_nil_inv]]; [|done]. exists []. rewrite app_nil_r. split; [done|apply holds_value].
  - exists true. do 2 eexists. split; [done|]. split_and!; [apply rep_value| |done]. unfold inserted.
    split_and!; [done|by intros ?%vkey_nonempty|done|]. intros k v'. rewrite holds_value_inv.
    split; [tauto|]. intros [?|[_ ?%holds_nil_inv]]; done.
Qed.

Lemma trie_insert_spec gen fuel root n t prefix key v : rep root n t → entries_ok t → at_key t key →
  (t = TNil → vkey key ∨ key = []) → (fuelFor n key < fuel)%nat →
  insert_result root t key v (trie_insert db gen fuel n prefix key (ValueNode v)).
Proof.
  revert root n t prefix key. induction fuel as [|fuel IH]; intros root n t prefix key Hr He Hk Hnil Hf; [lia|].
  inversion Hr as [|? v0|? k n1 t1 f Hn1 Hf1|? ns ts f Hlen Hall Hf1|? ? Hc Hs Hl]; subst.
  - apply insert_into_nil. by apply Hnil.
  - cbn in Hk. subst key. cbn [trie_insert]. exists (negb (bool_decide (v0 = v))). do 2 eexists. split; [done|].
    split_and!; [apply rep_value| |].
    + unfold inserted. split_and!; [done|by intros ?%vkey_nonempty|done|]. intros k v'. rewrite !holds_value_inv.
      naive_solver.
    + rewrite negb_false_iff, bool_decide_eq_true. by intros ->.
  - destruct Hk as [Hc Hk]. destruct (decide (prefixLen key k = length k)) as [Hm|Hm].
    2: { apply insert_short_split; [done|done|done|done|]. unfold fuelFor in Hf. lia. }
    apply insert_short_match; [done|done|done|done|]. intros kb prefix' -> Hk1.
    apply IH; [done|by eapply entries_ok_short|done|intros ->; inversion Hc|].
    pose proof (fuelFor_le n1 kb). pose proof (canon_key_nonempty _ _ Hc). unfold fuelFor in Hf.
    rewrite length_app in Hf. destruct k; [done|]. cbn [length] in *. lia.
  - destruct Hk as [Hc Hk]. destruct key as [|x k]; [by apply vkey_nonempty in Hk|].
    destruct (at_key_full _ _ _ Hc Hk) as (Hx & c & Hlc & Hkc).
    destruct (rep_full_child _ _ _ _ _ _ Hr Hlc) as (nc & Hnc & Hrc).
    cbn [trie_insert]. rewrite (child_at_ok _ _ _ Hx Hnc), bind_Ok.
    destruct (IH false nc c (prefix ++ [x]) k) as (d & n' & t' & -> & Hr' & Hins & Hd);
      [done|by eapply entries_ok_full|done| | |].
    { intros _. apply vkey_cons in Hk as [[_ ?]|[_ ?]]; auto. }
    { pose proof (fuelFor_le nc k). unfold fuelFor in Hf. cbn [length] in Hf. lia. }
    pose proof (full_inserted ts x k v c t' Hc Hk Hx Hlc Hins) as Hins'. rewrite bind_Ok. destruct d.
    + exists true. do 2 eexists. split; [done|]. split_and!; [by eapply rep_set_child|done|done].
    + rewrite (Hd eq_refl), list_insert_id in Hins' by done. exists false. do 2 eexists. split; [done|]. by split_and!.
  - assert (vkey key) as Hvk by (destruct t; [by inversion Hc|by inversion Hc|apply Hk|apply Hk]).
    destruct key as [|x k]; [by apply vkey_nonempty in Hvk|]. cbn [trie_insert]. destruct (resolve_stored root gen prefix t Hc He Hs Hl) as (rn & -> & Hrr & Hnh). rewrite bind_Ok.
    destruct (IH root rn t prefix (x :: k)) as (d & n' & t' & -> & Hr' & Hins & Hd);
      [done|done|done|done|pose proof (fuelFor_resolved rn (thash t) (x :: k) Hnh); lia|].
    rewrite bind_Ok. destruct d.
    + exists true. do 2 eexists. by split_and!.
    + rewrite (Hd eq_refl) in Hins. exists false. do 2 eexists. split; [done|]. by split_and!.
Qed.

(** ** Deleting *)

Definition deleted (t : tree) (key : list Z) (t' : tree) : Prop :=
  (t' = TNil ∨ canon t' ∨ t' = t) ∧ ∀ k v, holds t' k v ↔ k ≠ key ∧ holds t k v.

Definition delete_result (root : bool) (t : tree) (key : list Z) (r : tres (bool * node)) : Prop :=
  ∃ d n' t', r = Ok (d, n') ∧ rep root n' t' ∧ deleted t key t' ∧ (d = false → t' = t) ∧
             (d = true → (t' = TNil ∨ canon t') ∧ ∀ h, n' ≠ HashNode h).

Lemma rep_nil_iff root n t : rep root n t → n = NilNode ↔ t = TNil.
Proof. inversion 1; subst; try done. split; [done|]. intros ->. by inversion H1. Qed.

Lemma onlyChild_found ns i p : 0 ≤ p →
  onlyChild ns i p = p ∧ (∀ j n, ns !! j = Some n → n = NilNode) ∨
  onlyChild ns i p = -2 ∧ ∃ j n, ns !! j = Some n ∧ n ≠ NilNode.
Proof.
  intros Hp. revert i. induction ns as [|n ns IH]; intros i; [by left|].
  destruct n; cbn [onlyChild]; rewrite ?(proj2 (Z.eqb_neq p (-1))) by lia;
    try (right; split; [done|]; by exists 0%nat; eexists).
  destruct (IH (i + 1)) as [[-> Hn]|[-> (j & n & Hj & Hn)]].
  - left. split; [done|]. intros [|j] n Hj; [by injection Hj|eauto].
  - right. split; [done|]. by exists (S j), n.
Qed.

Lemma onlyChild_spec ns i : 0 ≤ i →
  onlyChild ns i (-1) = -1 ∧ (∀ j n, ns !! j = Some n → n = NilNode) ∨
  (∃ j n, onlyChild ns i (-1) = i + Z.of_nat j ∧ ns !! j = Some n ∧ n ≠ NilNode ∧
     ∀ j' n', ns !! j' = Some n' → j' ≠ j → n' = NilNode) ∨
  onlyChild ns i (-1) = -2 ∧
     ∃ j1 j2 n1 n2, j1 ≠ j2 ∧ ns !! j1 = Some n1 ∧ ns !! j2 = Some n2 ∧ n1 ≠ NilNode ∧ n2 ≠ NilNode.
Proof.
  revert i. induction ns as [|n ns IH]; intros i Hi; [by left|].
  assert (n = NilNode ∨ n ≠ NilNode) as [->|Hn] by (destruct n; auto).
  - cbn [onlyChild]. destruct (IH (i + 1) ltac:(lia)) as
      [[-> Ha]|[(j & n & -> & Hj & Hn & Ha)|[-> (j1 & j2 & n1 & n2 & Hj & H1 & H2 & Hn1 & Hn2)]]].
    + left. split; [done|]. intros [|j] n Hj; [by injection Hj|eauto].
    + right. left. exists (S j), n. split_and!; [lia|done|done|].
      intros [|j'] n' Hj' Hne; [by injection Hj'|]. eapply Ha; [done|]. congruence.
    + right. right. split; [done|]. exists (S j1), (S j2), n1, n2. split_and!; try done. congruence.
  - assert (onlyChild (n :: ns) i (-1) = onlyChild ns (i + 1) i) as -> by (by destruct n).
    right. destruct (onlyChild_found ns (i + 1) i Hi) as [[-> Ha]|[-> (j & n' & Hj & Hn')]].
    + left. exists 0%nat, n. split_and!; [lia|done|done|]. intros [|j'] n' Hj' Hne; [done|]. eauto.
    + right. split; [done|]. exists 0%nat, (S j), n, n'. by split_and!.
Qed.

(** A short node over what a canonical tree becomes. *)
Lemma merge_canon p ck ct : nibbles p → canon (TShort ck ct) → canon (TShort (p ++ ck) ct).
Proof.
  intros Hp Hc. inversion Hc as [k v Hk|k cs Hne Hk Hcs|]; subst.
  - rewrite (assoc_L (++)). apply canon_leaf. by apply Forall_app.
  - apply canon_ext; [by intros [_ ?]%app_nil|by apply Forall_app|done].
Qed.

Lemma holds_merge p ck ct k v : holds (TShort (p ++ ck) ct) k v ↔ ∃ k', k = p ++ k' ∧ holds (TShort ck ct) k' v.
Proof.
  rewrite holds_short_inv. split.
  - intros (k' & -> & Hh). exists (ck ++ k'). rewrite (assoc_L (++)). split; [done|]. by apply holds_short.
  - intros (k' & -> & (k2 & -> & Hh)%holds_short_inv). exists k2. by rewrite (assoc_L (++)).
Qed.

Lemma delete_full_nonempty cs k t' : canon (TFull cs) → deleted (TFull cs) k t' → t' ≠ TNil.
Proof.
  intros Hc [_ Hh] ->. destruct (full_two_keys cs (hd 0 k) Hc) as (y & k' & v & Hy & Hhy).
  apply (holds_nil_inv (y :: k') v), Hh. split; [|done]. by intros <-.
Qed.

(** Below a short node over a full one. *)
Lemma short_deleted key cs k t' : canon (TShort key (TFull cs)) → deleted (TFull cs) k t' →
  deleted (TShort key (TFull cs)) (key ++ k)
    (match t' with TShort ck ct => TShort (key ++ ck) ct | _ => TShort key t' end).
Proof.
  intros Hc Hd. inversion Hc as [|? ? Hne Hk Hcs|]; subst.
  pose proof (delete_full_nonempty _ _ _ Hcs Hd) as Hnn. destruct Hd as [Hcan Hh].
  assert (canon t') as Hct by (destruct Hcan as [?|[?| ->]]; done).
  assert (∀ k2 v, holds (match t' with TShort ck ct => TShort (key ++ ck) ct | _ => TShort key t' end) k2 v ↔
    ∃ k', k2 = key ++ k' ∧ holds t' k' v) as Hm.
  { intros k2 v. destruct t'; try apply holds_short_inv. apply holds_merge. }
  split.
  - right. left. destruct t' as [|v|ck ct|cs']; [done|by inversion Hct|by apply merge_canon|by apply canon_ext].
  - intros k2 v. rewrite Hm, holds_short_inv. split.
    + intros (k' & -> & [Hne' Hh']%Hh). split; [|eauto]. intros E. by apply (inj _) in E.
    + intros (Hne' & k' & -> & Hh'). exists k'. split; [done|]. apply Hh. split; [by intros ->|done].
Qed.

(** A full node in which a child was replaced. *)
Lemma full_deleted_holds cs x k c c' k2 v : 0 ≤ x → cs !! Z.to_nat x = Some c → deleted c k c' →
  holds (TFull (<[Z.to_nat x := c']> cs)) k2 v ↔ k2 ≠ x :: k ∧ holds (TFull cs) k2 v.
Proof.
  intros Hx Hl [_ Hh]. pose proof (lookup_lt_Some _ _ _ Hl) as Hlt. rewrite !holds_full_inv. split.
  - intros (y & cy & k' & -> & Hy & Hly & Hhy).
    apply list_lookup_insert_Some in Hly as [(Exy & <- & _)|[Hne Hly]].
    + assert (y = x) as -> by lia. apply Hh in Hhy as [Hne Hhy]. split; [congruence|]. eauto 10.
    + split; [intros E; injection E as -> _; lia|]. eauto 10.
  - intros (Hne & y & cy & k' & -> & Hy & Hly & Hhy). exists y. destruct (decide (y = x)) as [->|Hyx].
    + exists c', k'. split_and!; [done|done|by apply list_lookup_insert_eq|]. rewrite Hl in Hly.
      injection Hly as <-. apply Hh. split; [congruence|done].
    + exists cy, k'. split_and!; [done|done| |done]. rewrite list_lookup_insert_ne by lia. done.
Qed.

(** ... and when only one child is left. *)
Lemma only_child_holds cs j c k v : cs !! j = Some c → (∀ j' c', cs !! j' = Some c' → j' ≠ j → c' = TNil) →
  holds (TFull cs) k v ↔ ∃ k', k = Z.of_nat j :: k' ∧ holds c k' v.
Proof.
  intros Hl Hn. rewrite holds_full_inv. split.
  - intros (x & c' & k' & -> & Hx & Hl' & Hh). destruct (decide (Z.to_nat x = j)) as [<-|Hne].
    + exists k'. rewrite Hl in Hl'. injection Hl' as <-. split; [f_equal; lia|done].
    + rewrite (Hn _ _ Hl' Hne) in Hh. by apply holds_nil_inv in Hh.
  - intros (k' & -> & Hh). exists (Z.of_nat j), c, k'. rewrite Nat2Z.id. split_and!; [done|lia|done|done].
Qed.

Lemma resolve_rep gen n t prefix : rep false n t → canon t → entries_ok t →
  ∃ n', resolve db gen n prefix = Ok n' ∧ rep false n' t ∧ ∀ h, n' ≠ HashNode h.
Proof.
  intros Hr Hc He. inversion Hr as [| | | |? ? _ Hs Hl]; subst;
    try (by eexists; split; [done|]; split; [done|]; intros h ?).
  cbn [resolve]. by apply resolve_stored.
Qed.

(** The node that replaces a full node of which one child is left. *)
Definition collapsed_child (j : nat) (c : tree) : tree :=
  match c with TShort ck ct => TShort (Z.of_nat j :: ck) ct | _ => TShort [Z.of_nat j] c end.

Lemma collapsed_child_canon j c : c ≠ TNil → child_ok j c → canon (collapsed_child j c).
Proof.
  intros Hn [->|[[Hj Hc]|[-> [v ->]]]]; [done| |apply (canon_leaf [] v); constructor].
  assert (nibbles [Z.of_nat j]) as Hnb by (constructor; [split; lia|constructor]).
  destruct c as [|v|ck ct|cs]; [done|by inversion Hc|by apply (merge_canon [Z.of_nat j])|].
  by apply canon_ext.
Qed.

Lemma holds_collapsed_child j c k v : holds (collapsed_child j c) k v ↔ ∃ k', k = Z.of_nat j :: k' ∧ holds c k' v.
Proof.
  destruct c; try apply holds_short_inv. apply (holds_merge [Z.of_nat j]).
Qed.

(** The end of the full-node case of [trie_delete]: the children with the
    changed one in place. *)
Definition delete_collapse (gen : Z) (children : list node) (prefix : list Z) : tres (bool * node) :=
  let pos := onlyChild children 0 (-1) in
  if 0 <=? pos then
    only ← child_at children pos;
    cnode ← (if pos =? 16 then Ok NilNode else resolve db gen only prefix);
    match cnode with
    | ShortNode ckey cval _ => Ok (true, ShortNode (pos :: ckey) cval (newFlag gen))
    | _ => Ok (true, ShortNode [pos] only (newFlag gen))
    end
  else Ok (true, FullNode children (newFlag gen)).

Lemma delete_collapse_spec gen root ns cs f prefix : rep root (FullNode ns f) (TFull cs) → length cs = 17%nat →
  (∀ i c, cs !! i = Some c → child_ok i c) → (∀ i c, cs !! i = Some c → entries_ok c) →
  (∃ i c, cs !! i = Some c ∧ c ≠ TNil) →
  ∃ n' t', delete_collapse gen ns prefix = Ok (true, n') ∧ rep root n' t' ∧ canon t' ∧
    same_contents t' (TFull cs) ∧ ∀ h, n' ≠ HashNode h.
Proof.
  intros Hr Hlen Hok He (i0 & c0 & Hl0 & Hn0). unfold delete_collapse.
  assert (∀ j n, ns !! j = Some n → ∃ c, cs !! j = Some c ∧ rep false n c) as Hns.
  { intros j n Hn. inversion Hr as [| | |? ? ? ? Hlen' Hall _|]; subst.
    destruct (lookup_lt_is_Some_2 cs j) as [c Hc]; [apply lookup_lt_Some in Hn; lia|]. eauto. }
  destruct (onlyChild_spec ns 0 ltac:(lia)) as
    [[_ Ha]|[(j & n & -> & Hj & Hn & Ha)|[-> (j1 & j2 & n1 & n2 & Hj & H1 & H2 & Hn1 & Hn2)]]].
  - destruct (rep_full_child _ _ _ _ _ _ Hr Hl0) as (n & Hn & Hrn). rewrite (Ha _ _ Hn) in Hrn. by inversion Hrn; subst.
  - rewrite Z.add_0_l, (proj2 (Z.leb_le _ _)) by lia. destruct (Hns _ _ Hj) as (c & Hcj & Hrc).
    assert (c ≠ TNil) as Hcn by (intros ->; by apply Hn; apply (rep_nil_iff _ _ _ Hrc)).
    rewrite (child_at_ok ns (Z.of_nat j) n); [|lia|by rewrite Nat2Z.id]. rewrite bind_Ok.
    assert (same_contents (collapsed_child j c) (TFull cs)) as Hsame.
    { intros k v. rewrite holds_collapsed_child. symmetry. apply only_child_holds; [done|].
      intros j' c' Hl' Hne. destruct (rep_full_child _ _ _ _ _ _ Hr Hl') as (n' & Hn' & Hrn').
      apply (rep_nil_iff _ _ _ Hrn'). eauto. }
    pose proof (collapsed_child_canon j c Hcn (Hok _ _ Hcj)) as Hcan.
    destruct (Hok _ _ Hcj) as [->|[[Hj16 Hcc]|[-> [v ->]]]]; [done| |].
    + rewrite (proj2 (Z.eqb_neq _ _)) by lia.
      destruct (resolve_rep gen n c prefix Hrc Hcc (He _ _ Hcj)) as (cn & -> & Hrcn & Hnh). rewrite bind_Ok.
      inversion Hrcn as [| |? ck cv ct cf Hcv _|? ? ? ? ? Hall _|]; subst; [by inversion Hcc|by inversion Hcc| | |by destruct (Hnh (thash c))].
      * do 2 eexists. split; [done|]. split; [by apply rep_short|done].
      * do 2 eexists. split; [done|]. split; [by apply rep_short|done].
    + change (Z.of_nat 16 =? 16) with true. cbv iota. rewrite bind_Ok.
      do 2 eexists. split; [done|]. split; [by apply rep_short|done].
  - change (0 <=? -2) with false. cbv iota. do 2 eexists. split; [done|].
    split; [inversion Hr; subst; by apply rep_full|]. split_and!; [|done|done].
    destruct (Hns _ _ H1) as (c1 & Hc1 & Hr1), (Hns _ _ H2) as (c2 & Hc2 & Hr2).
    apply canon_full; [done| | |].
    + apply (filter_two _ _ j1 j2 c1 c2); [done|done|done| |]; apply nonnil_true; intros ->;
        [by apply Hn1, (rep_nil_iff _ _ _ Hr1)|by apply Hn2, (rep_nil_iff _ _ _ Hr2)].
    + intros i c Hl Hi Hcn. destruct (Hok _ _ Hl) as [?|[[_ ?]|[-> _]]]; [done|done|lia].
    + intros c Hl Hcn. destruct (Hok _ _ Hl) as [?|[[? _]|[_ ?]]]; [done|lia|done].
Qed.

Lemma deleted_id t key : (∀ v, ¬ holds t key v) → deleted t key t.
Proof.
  intros Hn. split; [by right; right|]. intros k v. split; [|tauto]. intros Hh. split; [|done].
  intros ->. by apply (Hn v).
Qed.

Lemma entries_ok_nil : entries_ok TNil.
Proof. by intros k v ?%holds_nil_inv. Qed.

Lemma deleted_entries t k t' : entries_ok t → deleted t k t' → entries_ok t'.
Proof. intros He [_ Hh] k' v [_ Hh']%Hh. auto. Qed.

Lemma deleted_child_ok i c k c' : child_ok i c → deleted c k c' → (c' = TNil ∨ canon c' ∨ c' = c) → child_ok i c'.
Proof.
  intros Hok [_ Hh] [->|[Hc| ->]]; [by left| |done].
  destruct Hok as [->|[[Hi _]|[-> [v ->]]]]; [| |].
  - destruct (canon_inhabited _ Hc) as (k' & v & [_ ?%holds_nil_inv]%Hh). done.
  - right. left. done.
  - destruct (canon_inhabited _ Hc) as (k' & v' & Hh'). pose proof (canon_vkey _ _ _ Hc Hh') as Hk.
    apply Hh in Hh' as [_ [-> _]%holds_value_inv]. by apply vkey_nonempty in Hk.
Qed.

Lemma full_delete_spec gen root ns cs f prefix x k c n' c' : rep root (FullNode ns f) (TFull cs) → canon (TFull cs) →
  entries_ok (TFull cs) → 0 ≤ x → cs !! Z.to_nat x = Some c → rep false n' c' → deleted c k c' →
  (c' = TNil ∨ canon c') →
  delete_result root (TFull cs) (x :: k) (delete_collapse gen (set_child ns x n') prefix).
Proof.
  intros Hr Hc He Hx Hl Hr' Hd Hc'. pose proof Hc as Hc0. inversion Hc0 as [| |? Hlen _ _ _]; subst.
  destruct (delete_collapse_spec gen root (set_child ns x n') (<[Z.to_nat x := c']> cs) (newFlag gen) prefix)
    as (n2 & t2 & -> & Hr2 & Hc2 & Hs2 & Hh2).
  - by eapply rep_set_child.
  - by rewrite length_insert.
  - intros i ci Hli. apply list_lookup_insert_Some in Hli as [(<- & <- & _)|[_ Hli]].
    + eapply deleted_child_ok; [by eapply canon_full_children|done|tauto].
    + by eapply canon_full_children.
  - intros i ci Hli. apply list_lookup_insert_Some in Hli as [(<- & <- & _)|[_ Hli]].
    + eapply deleted_entries; [by eapply entries_ok_full|done].
    + by eapply entries_ok_full.
  - destruct (full_two_keys cs x Hc) as (y & k2 & v2 & Hyx & Hh).
    apply holds_full_inv in Hh as (y' & cy & k3 & E & Hy & Hly & Hhy). injection E as <- <-.
    exists (Z.to_nat y), cy. split; [rewrite list_lookup_insert_ne by lia; done|].
    by intros ->; apply holds_nil_inv in Hhy.
  - exists true, n2, t2. split_and!; [done|done| |done|auto]. split; [auto|].
    intros k2 v. rewrite (Hs2 k2 v). by eapply full_deleted_holds.
Qed.

(** The short-node case of [trie_delete], given the result below it. *)
Lemma delete_short gen fuel root k n f t prefix key :
  rep root (ShortNode k n f) (TShort k t) → canon (TShort k t) → vkey key →
  (∀ kb prefix, key = k ++ kb → at_key t kb → delete_result false t kb (trie_delete db gen fuel n prefix kb)) →
  delete_result root (TShort k t) key (trie_delete db gen (S fuel) (ShortNode k n f) prefix key).
Proof.
  intros Hr Hc Hk IH. cbn [trie_delete].
  destruct (prefixLen_spec key k) as (p & kb & ka & E1 & E2 & Ep & Hd). rewrite Ep.
  destruct (Nat.ltb_spec (length p) (length k)) as [Hlt|Hge].
  { exists false. do 2 eexists. split; [done|]. split_and!; [done| |done|done]. apply deleted_id.
    intros v (k' & E & _)%holds_short_inv. rewrite E1, E2, <- (assoc_L (++)) in E. apply (inj _) in E.
    destruct Hd as [->|[->|(x & y & a'' & b'' & -> & -> & Hne)]].
    - symmetry in E. apply app_nil in E as [-> _]. rewrite app_nil_r in E2. rewrite E2 in Hlt. lia.
    - rewrite app_nil_r in E2. rewrite E2 in Hlt. lia.
    - by injection E. }
  assert (ka = []) as -> by (rewrite E2, length_app in Hge; destruct ka; [done|cbn in Hge; lia]).
  rewrite app_nil_r in E2. subst p key. rewrite length_app.
  destruct (Nat.eqb_spec (length k) (length k + length kb)) as [Hl|Hl].
  - assert (kb = []) as -> by (destruct kb; [done|cbn in Hl; lia]). rewrite app_nil_r in *.
    exists true, NilNode, TNil. split_and!; [done|apply rep_nil| |done|auto]. split; [auto|].
    intros k2 v. split; [by intros ?%holds_nil_inv|]. intros [Hne (k' & -> & Hh)%holds_short_inv].
    pose proof (canon_vkey _ _ _ Hc (holds_short k _ _ _ Hh)) as Hk2. apply vkey_prefix in Hk2 as ->; [|done].
    by rewrite app_nil_r in Hne.
  - pose proof (at_key_short _ _ _ Hc Hk) as Hk1.
    assert (∃ cs, t = TFull cs) as [cs ->].
    { inversion Hc; subst; [|eauto]. cbn in Hk1. subst kb. cbn in Hl. lia. }
    destruct (IH kb (prefix ++ take (length k) (k ++ kb)) eq_refl Hk1) as (d & n' & t' & Ed & Hr' & Hdel & Hd1 & Hd2).
    rewrite drop_app_length, Ed, bind_Ok. destruct d.
    + destruct (Hd2 eq_refl) as [Hcan Hnh]. pose proof (short_deleted _ _ _ _ Hc Hdel) as Hsd.
      inversion Hc as [|? ? Hkne Hkn Hcs|]; subst.
      assert (canon t') as Hct.
      { destruct Hcan as [->|?]; [|done]. exfalso. by eapply (delete_full_nonempty cs kb TNil). }
      exists true. inversion Hr' as [| |? ck cv ct cf Hcv _|? ns' cs' ? ? ? _|]; subst;
        [by inversion Hct|by inversion Hct| | |by destruct (Hnh (thash t'))];
        (do 2 eexists; split; [done|]; split; [by apply rep_short|]; split_and!; [done|done|]).
      * split; [right; by apply merge_canon|done].
      * split; [right; by apply canon_ext|done].
    + rewrite (Hd1 eq_refl) in *. exists false. do 2 eexists. split; [done|]. split_and!; [done| |done|done].
      by apply (short_deleted k cs kb (TFull cs)).
Qed.

Lemma trie_delete_spec gen fuel root n t prefix key : rep root n t → entries_ok t → at_key t key →
  (fuelFor n key < fuel)%nat → delete_result root t key (trie_delete db gen fuel n prefix key).
Proof.
  revert root n t prefix key. induction fuel as [|fuel IH]; intros root n t prefix key Hr He Hk Hf; [lia|].
  inversion Hr as [|? v0|? k n1 t1 f Hn1 Hf1|? ns ts f Hlen Hall Hf1|? ? Hc Hs Hl]; subst; cbn [trie_delete].
  - exists false, NilNode, TNil. split_and!; [done|done|apply deleted_id; by intros v ?%holds_nil_inv|done|done].
  - cbn in Hk. subst key. exists true, NilNode, TNil. split_and!; [done|apply rep_nil| |done|auto].
    split; [auto|]. intros k v. rewrite holds_value_inv. split; [by intros ?%holds_nil_inv|]. tauto.
  - destruct Hk as [Hc Hk]. apply delete_short; [done|done|done|]. intros kb prefix' -> Hk1.
    apply IH; [done|by eapply entries_ok_short|done|].
    pose proof (fuelFor_le n1 kb). pose proof (canon_key_nonempty _ _ Hc). unfold fuelFor in Hf.
    rewrite length_app in Hf. destruct k; [done|]. cbn [length] in *. lia.
  - destruct Hk as [Hc Hk]. destruct key as [|x k]; [by apply vkey_nonempty in Hk|].
    destruct (at_key_full _ _ _ Hc Hk) as (Hx & c & Hlc & Hkc).
    destruct (rep_full_child _ _ _ _ _ _ Hr Hlc) as (nc & Hnc & Hrc).
    cbn [head hd_error deref tail]. rewrite bind_Ok, (child_at_ok _ _ _ Hx Hnc), bind_Ok.
    destruct (IH false nc c (prefix ++ [x]) k) as (d & n' & t' & -> & Hr' & Hdel & Hd1 & Hd2);
      [done|by eapply entries_ok_full|done| |].
    { pose proof (fuelFor_le nc k). unfold fuelFor in Hf. cbn [length] in Hf. lia. }
    rewrite bind_Ok. destruct d.
    + eapply full_delete_spec; try done. by apply Hd2.
    + rewrite (Hd1 eq_refl) in *. exists false. do 2 eexists. split; [done|]. split_and!; [done| |done|done].
      split; [auto|]. intros k2 v. rewrite <- (list_insert_id ts (Z.to_nat x) c) at 1 by done.
      by eapply full_deleted_holds.
  - destruct (resolve_stored root gen prefix t Hc He Hs Hl) as (rn & -> & Hrr & Hnh). rewrite bind_Ok.
    destruct (IH root rn t prefix key) as (d & n' & t' & -> & Hr' & Hdel & Hd1 & Hd2);
      [done|done|done|pose proof (fuelFor_resolved rn (thash t) key Hnh); lia|].
    rewrite bind_Ok. destruct d.
    + exists true. do 2 eexists. by split_and!.
    + rewrite (Hd1 eq_refl) in *. exists false. do 2 eexists. split; [done|]. by split_and!.
Qed.

End Rep.
End Spec.

(** ** The operations on the map *)

Section Map.
Context `{HK : Keccak, HD : Database, !KeccakLaws}.

(** The tree holds exactly the entries of the map. *)
Definition contents (t : tree) (m : gmap (list Z) (list Z)) : Prop :=
  ∀ k v, holds t k v ↔ ∃ key, k = keybytesToHex key ∧ m !! key = Some v.

Definition key_ok (key : list Z) : Prop := is_bytes key ∧ strlen (keybytesToHex key) < maxItem.
Definition val_ok (v : list Z) : Prop := v ≠ [] ∧ is_bytes v ∧ strlen v < maxItem.
Definition map_ok (m : gmap (list Z) (list Z)) : Prop := map_Forall (fun key v => key_ok key ∧ val_ok v) m.

(** The trie represents the map [m]. *)
Definition trie_ok (db : TrieDB) (t : Trie) (m : gmap (list Z) (list Z)) : Prop :=
  map_ok m ∧ ∃ tr, rep db true (t_root t) tr ∧ (tr = TNil ∨ canon tr) ∧ contents tr m.

Lemma contents_entries t m : map_ok m → contents t m → entries_ok t.
Proof.
  intros Hm Hc k v (key & -> & Hl)%Hc. destruct (Hm _ _ Hl) as [[_ Hk] (Hv1 & Hv2 & Hv3)]. done.
Qed.

Lemma contents_lookup t m key v : contents t m → holds t (keybytesToHex key) v ↔ m !! key = Some v.
Proof.
  intros Hc. rewrite (Hc _ _). split; [|eauto]. intros (key' & E & Hl). by apply keybytesToHex_inj in E as ->.
Qed.

Lemma canon_at_key t key : t = TNil ∨ canon t → is_bytes key → at_key t (keybytesToHex key).
Proof. intros [->|Hc] Hk; [done|]. apply at_key_canon; [done|by apply vkey_keybytes]. Qed.

Lemma TryGet_ok db t m key : trie_ok db t m → is_bytes key →
  ∃ t', TryGet db key t = (t', Ok (m !! key)) ∧ trie_ok db t' m.
Proof.
  intros (Hm & tr & Hr & Hcan & Hc) Hk. unfold TryGet.
  destruct (tryGet_spec db (t_cachegen t) (opFuel (keybytesToHex key)) true (t_root t) tr (keybytesToHex key) 0)
    as (value & n' & d & E & Hr' & Hv).
  - done.
  - by eapply contents_entries.
  - by apply canon_at_key.
  - rewrite drop_0. pose proof (fuelFor_le (t_root t) (keybytesToHex key)). unfold opFuel. lia.
  - cbv zeta. rewrite E.
    assert (value = m !! key) as ->.
    { apply option_eq. intros v. rewrite Hv, drop_0. by apply contents_lookup. }
    eexists. split; [done|]. split; [done|]. exists tr. destruct d; done.
Qed.

Lemma contents_insert t t' m key v : contents t m → inserted t (keybytesToHex key) v t' →
  contents t' (<[key := v]> m).
Proof.
  intros Hc (_ & _ & _ & Hh) k v'. rewrite Hh. split.
  - intros [[-> ->]|[Hne (key' & -> & Hl)%Hc]].
    + exists key. by rewrite lookup_insert_eq.
    + exists key'. split; [done|]. rewrite lookup_insert_ne; [done|]. by intros ->.
  - intros (key' & -> & Hl). destruct (decide (key' = key)) as [->|Hne].
    + rewrite lookup_insert_eq in Hl. injection Hl as ->. by left.
    + rewrite lookup_insert_ne in Hl by done. right. split; [by intros ?%keybytesToHex_inj|]. apply Hc. eauto.
Qed.

Lemma contents_delete t t' m key : contents t m → deleted t (keybytesToHex key) t' → contents t' (delete key m).
Proof.
  intros Hc [_ Hh] k v. rewrite Hh. split.
  - intros [Hne (key' & -> & Hl)%Hc]. exists key'. split; [done|]. rewrite lookup_delete_ne; [done|]. by intros ->.
  - intros (key' & -> & Hl). apply lookup_delete_Some in Hl as [Hne Hl].
    split; [by intros ?%keybytesToHex_inj|]. apply Hc. eauto.
Qed.

Lemma TryDelete_ok db t m key : trie_ok db t m → is_bytes key →
  ∃ t', TryDelete db key t = (t', Ok tt) ∧ trie_ok db t' (delete key m).
Proof.
  intros (Hm & tr & Hr & Hcan & Hc) Hk. unfold TryDelete. cbv zeta.
  destruct (trie_delete_spec db (t_cachegen t) (opFuel (keybytesToHex key)) true (t_root t) tr [] (keybytesToHex key))
    as (d & n' & t' & -> & Hr' & Hdel & Hd1 & Hd2).
  - done.
  - by eapply contents_entries.
  - by apply canon_at_key.
  - pose proof (fuelFor_le (t_root t) (keybytesToHex key)). unfold opFuel. lia.
  - eexists. split; [done|]. split; [by apply map_Forall_delete|]. exists t'. split; [done|].
    split; [|by eapply contents_delete]. destruct d; [by apply Hd2|by rewrite Hd1].
Qed.

Lemma TryUpdate_ok db t m key v : trie_ok db t m → key_ok key → is_bytes v → strlen v < maxItem →
  ∃ t', TryUpdate db key v t = (t', Ok tt) ∧ trie_ok db t' (if decide (v = []) then delete key m else <[key := v]> m).
Proof.
  intros Ht Hk Hb Hl. unfold TryUpdate. cbv zeta. destruct (decide (v = [])) as [->|Hv].
  - cbn [length Z.of_nat Z.eqb negb]. by apply TryDelete_ok; [|apply Hk].
  - rewrite (proj2 (Z.eqb_neq _ _)) by (destruct v; [done|cbn; lia]). cbn [negb].
    destruct Ht as (Hm & tr & Hr & Hcan & Hc). pose proof (vkey_keybytes key (proj1 Hk)) as Hvk.
    destruct (trie_insert_spec db (t_cachegen t) (opFuel (keybytesToHex key)) true (t_root t) tr [] (keybytesToHex key) v)
      as (d & n' & t' & -> & Hr' & Hins & Hd).
    + done.
    + by eapply contents_entries.
    + apply canon_at_key; [done|apply Hk].
    + by left.
    + pose proof (fuelFor_le (t_root t) (keybytesToHex key)). unfold opFuel. lia.
    + eexists. split; [done|]. split; [by apply map_Forall_insert_2|]. exists t'. split; [done|].
      split; [right; by apply Hins|by eapply contents_insert].
Qed.

End Map.
