(* ===== verification/TrieHash.v ===== *)
(** * Hashing and committing tries

    [Hash] depends on the contents of a trie only, and [Commit] writes every
    node that is not yet in the database: the trie that [New] opens at the
    committed root holds the same entries. *)

From S2P Require Import Prelude Types Interfaces Rlp RlpDecode TrieEncoding TrieNode Trie TrieSpec.
From stdpp Require Import base tactics option numbers list gmap.
From Stdlib Require Import ZArith Lia.

#[local] Open Scope Z_scope.

Section Hash.
Context `{HK : Keccak, HD : Database, !KeccakLaws}.

(** ** Databases that only grow *)

Definition extends (db db' : TrieDB) : Prop :=
  ∀ h b, length h = HashLength → tdb_Node db h = Some b → tdb_Node db' h = Some b.

Lemma extends_refl db : extends db db.
Proof. by intros h b. Qed.

Lemma extends_trans db1 db2 db3 : extends db1 db2 → extends db2 db3 → extends db1 db3.
Proof. intros H1 H2 h b Hl Hn. auto. Qed.

Lemma below_mono db db' t : extends db db' → below db t → below db' t.
Proof.
  intros He. induction 1 as [k t Hn Hb IH|cs Hn Hb IH].
  - apply below_short; [|done]. intros Hc Hl. apply He; [apply Keccak256_length|auto].
  - apply below_full; [|done]. intros i c Hi Hc Hl. apply He; [apply Keccak256_length|eauto].
Qed.

Lemma stored_mono db db' t : extends db db' → stored db t → stored db' t.
Proof.
  intros He [Hn Hb]. split; [apply He; [apply Keccak256_length|done]|by eapply below_mono].
Qed.

Lemma rep_mono db db' root n t : extends db db' → rep db root n t → rep db' root n t.
Proof.
  intros He.
  assert (∀ root f t, flag_ok db root f t → flag_ok db' root f t) as Hf.
  { intros r f t'. unfold flag_ok. case_match; [|done]. intros (? & ? & Hs). split_and!; [done|done|].
    intros Hd. by eapply stored_mono, Hs. }
  induction 1 as [|root v|root k n t f Hn IH Hfl|root ns ts f Hlen Hall IH Hfl|root t Hc Hs Hl];
    [apply rep_nil|apply rep_value|apply rep_short; auto|apply rep_full; eauto|].
  apply rep_hash; [done|by eapply stored_mono|done].
Qed.

(** ** Blobs without collisions *)

(** [B] is a set of blobs, the empty string's encoding among them, on which the
    hash has no collisions and is not zero; the blobs of the database are in it. *)
Record collision_free (B : list Z → Prop) : Prop := {
  cf_empty : B [128];
  cf_inj : ∀ b1 b2, B b1 → B b2 → Keccak256 b1 = Keccak256 b2 → b1 = b2;
  cf_zero : ∀ b, B b → Keccak256 b ≠ zeroHash
}.

Record db_ok (B : list Z → Prop) (db : TrieDB) : Prop := {
  db_blobs : ∀ h b, length h = HashLength → tdb_Node db h = Some b → h = Keccak256 b ∧ B b;
  db_meta : ∀ h c, tdb_nodes db !! h = Some c → cn_blob c = None → h = zeroHash
}.

(** The encodings of the canonical subtrees of [t] are in [B]. *)
Inductive enc_in (B : list Z → Prop) : tree → Prop :=
| in_short k t : B (tenc (TShort k t)) → (canon t → enc_in B t) → enc_in B (TShort k t)
| in_full cs : B (tenc (TFull cs)) → (∀ i c, cs !! i = Some c → canon c → enc_in B c) → enc_in B (TFull cs).

Lemma enc_in_self B t : enc_in B t → B (tenc t).
Proof. by destruct 1. Qed.

(** Same blobs, other reference counts. *)
Definition same_blobs (db db' : TrieDB) : Prop :=
  tdb_disk db' = tdb_disk db ∧ ∀ h, cn_blob <$> tdb_nodes db' !! h = cn_blob <$> tdb_nodes db !! h.

Lemma same_blobs_refl db : same_blobs db db.
Proof. done. Qed.

Lemma same_blobs_trans db1 db2 db3 : same_blobs db1 db2 → same_blobs db2 db3 → same_blobs db1 db3.
Proof. intros [E1 H1] [E2 H2]. split; [congruence|]. intros h. by rewrite H2. Qed.

Lemma same_blobs_Node db db' h : same_blobs db db' → tdb_Node db' h = tdb_Node db h.
Proof.
  intros [Ed Hn]. specialize (Hn h). unfold tdb_Node. rewrite Ed.
  destruct (tdb_nodes db' !! h), (tdb_nodes db !! h); try done. by injection Hn.
Qed.

Lemma same_blobs_ok B db db' : same_blobs db db' → db_ok B db → db_ok B db'.
Proof.
  intros Hs [H1 H2]. split.
  - intros h b Hl. rewrite (same_blobs_Node db db') by done. auto.
  - intros h c Hc Hb. destruct Hs as [_ Hn]. specialize (Hn h). rewrite Hc in Hn. cbn in Hn.
    destruct (tdb_nodes db !! h) as [c'|] eqn:E; [|done]. cbn in Hn. apply (H2 h c' E). congruence.
Qed.

Lemma same_blobs_extends db db' : same_blobs db db' → extends db db'.
Proof. intros Hs h b _. by rewrite (same_blobs_Node db db'). Qed.

Lemma reference_spec child parent db : is_Some (tdb_nodes db !! parent) →
  ∃ db', reference (E := trieError) child parent db = Ok db' ∧ same_blobs db db' ∧ is_Some (tdb_nodes db' !! parent).
Proof.
  intros [p Hp]. unfold reference. destruct (tdb_nodes db !! child) as [c|] eqn:Ec; [|by exists db; rewrite Hp].
  rewrite Hp. cbn [deref]. rewrite bind_Ok.
  assert (∀ f : gmap Hash Z → gmap Hash Z, ∃ db',
    Ok (E := trieError) (set_nodes (alter (fun p => mkCached (cn_blob p) (cn_parents p) (f (cn_children p))) parent
      (<[child := mkCached (cn_blob c) (cn_parents c + 1) (cn_children c)]> (tdb_nodes db))) db) = Ok db' ∧
    same_blobs db db' ∧ is_Some (tdb_nodes db' !! parent)) as Hgo.
  { intros f. eexists. split; [done|]. split.
    - split; [done|]. intros h. cbn [tdb_nodes set_nodes].
      destruct (decide (h = parent)) as [->|Hne];
        [rewrite lookup_alter_eq|rewrite lookup_alter_ne by done];
        [destruct (decide (parent = child)) as [->|Hne']|destruct (decide (h = child)) as [->|Hne']];
        rewrite ?lookup_insert_eq, ?lookup_insert_ne by done; rewrite ?Ec, ?Hp; done.
    - cbn [tdb_nodes set_nodes]. rewrite lookup_alter_eq. apply fmap_is_Some.
      destruct (decide (parent = child)) as [->|Hne]; [by rewrite lookup_insert_eq|by rewrite lookup_insert_ne, Hp]. }
  destruct (cn_children p !! child); [|apply (Hgo (<[child := 1]>))].
  destruct (negb _); [by exists db; rewrite Hp|apply (Hgo (alter (Z.add 1) child))].
Qed.

Lemma referenceAll_spec ns parent db : is_Some (tdb_nodes db !! parent) →
  ∃ db', referenceAll (E := trieError) ns parent db = Ok db' ∧ same_blobs db db'.
Proof.
  revert db. induction ns as [|n ns IH]; intros db Hp; [by exists db|].
  destruct n as [|cs f|k v f|hn|v]; cbn [referenceAll]; try by apply IH.
  destruct (reference_spec (BytesToHash hn) parent db Hp) as (db1 & -> & Hs & Hp1). rewrite bind_Ok.
  destruct (IH db1 Hp1) as (db2 & -> & Hs2). exists db2. split; [done|]. by eapply same_blobs_trans.
Qed.

(** Callbacks may only change reference counts. *)
Definition leaf_ok (onleaf : option LeafCallback) : Prop :=
  ∀ f, onleaf = Some f → ∀ v h db, same_blobs db (f v h db).

Lemma onleafAll_spec f ns parent db : leaf_ok (Some f) → same_blobs db (onleafAll f ns parent db).
Proof.
  intros Hf. revert db. induction ns as [|n ns IH]; intros db; [done|].
  destruct n as [|cs fl|k v fl|hn|v]; cbn [onleafAll]; try by apply IH.
  eapply same_blobs_trans; [by apply Hf|apply IH].
Qed.

Lemma tdb_insert_spec B db b : collision_free B → db_ok B db → B b →
  let db' := tdb_insert (Keccak256 b) b db in
  tdb_Node db' (Keccak256 b) = Some b ∧ extends db db' ∧ db_ok B db' ∧ is_Some (tdb_nodes db' !! Keccak256 b).
Proof.
  intros HB Hdb Hb. cbv zeta. unfold tdb_insert. destruct (tdb_nodes db !! Keccak256 b) as [c|] eqn:Ec.
  - split_and!; [|apply extends_refl|done|by rewrite Ec].
    unfold tdb_Node. rewrite Ec. destruct (cn_blob c) as [b'|] eqn:Eb.
    + assert (tdb_Node db (Keccak256 b) = Some b') as Hn by (unfold tdb_Node; by rewrite Ec).
      destruct (db_blobs B db Hdb _ _ (Keccak256_length b) Hn) as [Hk Hb']. f_equal. by apply (cf_inj B HB).
    + by destruct (cf_zero B HB b Hb), (db_meta B db Hdb _ _ Ec Eb).
  - set (db' := set_nodes _ db).
    assert (∀ h, tdb_Node db' h = if decide (h = Keccak256 b) then Some b else tdb_Node db h) as Hnode.
    { intros h. unfold tdb_Node, db'. cbn [tdb_nodes set_nodes tdb_disk]. case_decide as Hh.
      - subst h. by rewrite lookup_insert_eq.
      - by rewrite lookup_insert_ne. }
    split_and!.
    + rewrite Hnode. by rewrite decide_True.
    + intros h b' Hl Hn. rewrite Hnode. case_decide as Hh; [|done]. subst h.
      destruct (db_blobs B db Hdb _ _ Hl Hn) as [Hk Hb']. f_equal. by apply (cf_inj B HB).
    + split.
      * intros h b' Hl. rewrite Hnode. case_decide as Hh; [intros [= <-]; by split|by apply (db_blobs B db Hdb)].
      * intros h c Hc Hbl. unfold db' in Hc. cbn [tdb_nodes set_nodes] in Hc.
        apply lookup_insert_Some in Hc as [[_ <-]|[_ Hc]]; [done|by eapply (db_meta B db Hdb)].
    + unfold db'. cbn [tdb_nodes set_nodes]. by rewrite lookup_insert_eq.
Qed.

(** ** What the hasher returns *)

Section Hasher.
Context (B : list Z → Prop) (HB : collision_free B) (h : hasher) (Hleaf : leaf_ok (h_onleaf h)).

(** The database of a trie and the one that the hasher writes to, if any. *)
Definition linked (dbo : option TrieDB) (db : TrieDB) : Prop :=
  match dbo with None => True | Some d => d = db ∧ db_ok B db end.

Definition step_to (dbo : option TrieDB) (db : TrieDB) (dbo' : option TrieDB) (db' : TrieDB) : Prop :=
  extends db db' ∧
  match dbo with None => dbo' = None ∧ db' = db | Some _ => dbo' = Some db' ∧ db_ok B db' end.

Lemma step_linked dbo db dbo' db' : step_to dbo db dbo' db' → linked dbo' db'.
Proof. intros [_ Hs]. destruct dbo; destruct Hs as [-> ?]; done. Qed.

Lemma step_refl dbo db : linked dbo db → step_to dbo db dbo db.
Proof. intros Hl. split; [apply extends_refl|]. destruct dbo; [destruct Hl as [-> ?]; done|done]. Qed.

Lemma step_trans dbo1 db1 dbo2 db2 dbo3 db3 :
  step_to dbo1 db1 dbo2 db2 → step_to dbo2 db2 dbo3 db3 → step_to dbo1 db1 dbo3 db3.
Proof.
  intros [E1 H1] [E2 H2]. split; [by eapply extends_trans|].
  destruct dbo1; destruct H1 as [-> ?]; [done|]. destruct H2 as [-> ->]. done.
Qed.

Lemma step_none dbo db dbo' db' : step_to dbo db dbo' db' → is_Some dbo' ↔ is_Some dbo.
Proof. intros [_ Hs]. destruct dbo; destruct Hs as [-> _]; [by split|done]. Qed.

(** A node goes to its parent as a hash, or embedded; the root is always hashed. *)
Definition hashed_ok (root : bool) (t : tree) (hashed : node) : Prop :=
  if root || (32 <=? strlen (tenc t)) then hashed = HashNode (thash t)
  else enc_value (node_value hashed) = Some (tenc t) ∧ value_ok (node_value hashed) ∧ hash_of hashed = None ∧ hashed ≠ NilNode.

Definition in_db (db : TrieDB) (root : bool) (t : tree) : Prop :=
  root = true ∨ 32 ≤ strlen (tenc t) → tdb_Node db (thash t) = Some (tenc t).

Definition hash_post (root : bool) (t : tree) (dbo : option TrieDB) (db : TrieDB)
    (r : tres (node * node * option TrieDB)) : Prop :=
  ∃ hashed cached dbo' db', r = Ok (hashed, cached, dbo') ∧ step_to dbo db dbo' db' ∧
    rep db' root cached t ∧ hashed_ok root t hashed ∧ (is_Some dbo → below db' t ∧ in_db db' root t).

Lemma hashed_hash root t hashed : hashed_ok root t hashed →
  hash_of hashed = if root || (32 <=? strlen (tenc t)) then Some (thash t) else None.
Proof. unfold hashed_ok. destruct (root || _); [by intros ->|by intros (_ & _ & ? & _)]. Qed.

Lemma hashed_child t hashed : canon t → hashed_ok false t hashed →
  enc_value (node_value hashed) = Some (tref t) ∧ value_ok (node_value hashed).
Proof.
  intros Hc. unfold hashed_ok. cbn [orb]. destruct (Z.leb_spec 32 (strlen (tenc t))).
  - intros ->. rewrite tref_hashed by done. split; [done|]. apply Keccak256_bytes.
  - intros (? & ? & _). by rewrite tref_embedded.
Qed.

(** The hash of a stored node is the one of its encoding, cached or not. *)
Lemma store_eq force t dbo c f : canon t → entries_ok t →
  (∃ k n, c = ShortNode k n f) ∨ (∃ ns, c = FullNode ns f) →
  enc_value (node_value c) = Some (tenc t) → value_ok (node_value c) → default (thash t) (nf_hash f) = thash t →
  store h c dbo force =
    if (strlen (tenc t) <? 32) && negb force then Ok (c, dbo)
    else match dbo with
         | None => Ok (HashNode (thash t), None)
         | Some d =>
             d ← referenceAll (store_children c) (thash t) (tdb_insert (thash t) (tenc t) d);
             Ok (HashNode (thash t), Some (match h_onleaf h with
               | Some onleaf => onleafAll onleaf (store_children c) (thash t) d | None => d end))
         end.
Proof.
  intros Hc He Hform Henc Hok Hd. pose proof (tenc_length t Hc He) as Hlen.
  destruct (Encode_spec _ _ Hok Henc) as (_ & chunks & Ech & Hch); [unfold maxEnc, two64 in *; lia|].
  unfold store. destruct Hform as [(k & n & ->)|(ns & ->)]; rewrite Ech, Hch; (destruct (_ && _); [done|]);
    cbn [node_cache]; rewrite bind_Ok; cbv zeta; change (Keccak256 (tenc t)) with (thash t);
    rewrite Hd, BytesToHash_32 by apply Keccak256_length; done.
Qed.

Lemma flag_hash db root f t : flag_ok db root f t → default (thash t) (nf_hash f) = thash t.
Proof. unfold flag_ok. destruct (nf_hash f); [by intros [-> _]|done]. Qed.

Lemma store_spec root t dbo db c f : linked dbo db → canon t → entries_ok t →
  (∃ k n, c = ShortNode k n f) ∨ (∃ ns, c = FullNode ns f) →
  enc_value (node_value c) = Some (tenc t) → value_ok (node_value c) → flag_ok db root f t →
  (is_Some dbo → B (tenc t)) →
  ∃ hashed dbo' db', store h c dbo root = Ok (hashed, dbo') ∧ step_to dbo db dbo' db' ∧
    hashed_ok root t hashed ∧ (is_Some dbo → in_db db' root t).
Proof.
  intros Hl Hc He Hform Henc Hok Hf HBt.
  rewrite (store_eq root t dbo c f) by (done || by eapply flag_hash).
  unfold hashed_ok, in_db.
  destruct (Z.ltb_spec (strlen (tenc t)) 32) as [Hs|Hs]; [rewrite (proj2 (Z.leb_gt _ _)) by done|rewrite (proj2 (Z.leb_le _ _)) by done].
  1: destruct root; cbn [andb negb orb].
  2: { exists c, dbo, db. split; [done|]. split; [by apply step_refl|]. split; [|intros _ [?|?]; [done|lia]].
       split_and!; [done|done|..]; by destruct Hform as [(k & n & ->)|(ns & ->)]. }
  2: cbn [andb]; rewrite orb_true_r.
  all: destruct dbo as [d|]; [|exists (HashNode (thash t)), None, db; split; [done|]; split; [by apply step_refl|]; split; [done|]; by intros [? ?]].
  all: destruct Hl as [-> Hdb]; destruct (tdb_insert_spec B db (tenc t) HB Hdb (HBt ltac:(done))) as (Hn & Hex & Hok' & Hs').
  all: change (Keccak256 (tenc t)) with (thash t) in *.
  all: destruct (referenceAll_spec (store_children c) (thash t) _ Hs') as (db2 & -> & Hsame); rewrite bind_Ok.
  all: set (db3 := match h_onleaf h with Some onleaf => _ | None => _ end).
  all: assert (same_blobs (tdb_insert (thash t) (tenc t) db) db3) as Hsame3
         by (eapply same_blobs_trans; [done|]; unfold db3; destruct (h_onleaf h) as [g|] eqn:Eg; [|done];
             by apply onleafAll_spec).
  all: exists (HashNode (thash t)), (Some db3), db3; split; [done|]; split;
         [split; [eapply extends_trans; [done|by apply same_blobs_extends]|split; [done|by eapply same_blobs_ok]]|].
  all: split; [done|]; intros _ _; by rewrite (same_blobs_Node _ _ _ Hsame3).
Qed.

Lemma in_db_mono db db' root t : extends db db' → in_db db root t → in_db db' root t.
Proof. intros He Hi Hr. apply He; [apply Keccak256_length|auto]. Qed.

(** A child as the hasher finds it, and as it leaves it. *)
Definition hash_input (dbo : option TrieDB) (db : TrieDB) (n : node) (t : tree) : Prop :=
  rep db false n t ∧ (t = TNil ∨ canon t) ∧ entries_ok t ∧ (canon t → is_Some dbo → enc_in B t).

Definition hash_output (dbo : option TrieDB) (db : TrieDB) (cached : node) (t : tree) : Prop :=
  rep db false cached t ∧ (is_Some dbo → canon t → below db t ∧ in_db db false t).

Lemma hash_output_mono dbo db db' n t : extends db db' → hash_output dbo db n t → hash_output dbo db' n t.
Proof.
  intros He [Hr Hs]. split; [by eapply rep_mono|]. intros Hd Hc. destruct (Hs Hd Hc).
  split; [by eapply below_mono|by eapply in_db_mono].
Qed.

Lemma hash_input_mono dbo db dbo' db' n t : step_to dbo db dbo' db' → hash_input dbo db n t → hash_input dbo' db' n t.
Proof.
  intros Hs (Hr & Hc & He & Hi). split_and!; [eapply rep_mono; [apply Hs|done]|done|done|].
  intros Hct Hd. apply Hi; [done|]. by apply (step_none _ _ _ _ Hs).
Qed.

Lemma hashAll_spec hash ns ts dbo db :
  (∀ n t dbo db, n ∈ ns → rep db false n t → canon t → entries_ok t → linked dbo db →
     (is_Some dbo → enc_in B t) → hash_post false t dbo db (hash n dbo)) →
  Forall2 (hash_input dbo db) ns ts → linked dbo db →
  ∃ collapsed cached dbo' db', hashAll hash ns dbo = Ok (collapsed, cached, dbo') ∧ step_to dbo db dbo' db' ∧
    Forall2 (hash_output dbo db') cached ts ∧
    concat_opt enc_value (node_value <$> collapsed) = Some (concat (tref <$> ts)) ∧
    foldr (λ v P, value_ok v ∧ P) True (node_value <$> collapsed).
Proof.
  intros Hhash. revert ts dbo db. induction ns as [|n ns IH]; intros ts dbo db Hall Hl.
  { inversion Hall; subst. exists [], [], dbo, db. split_and!; [done|by apply step_refl|constructor|done|done]. }
  inversion Hall as [|? t ? ts' (Hr & Hc & He & Hi) Hall']; subst.
  specialize (IH (fun n t dbo db Hn => Hhash n t dbo db (list_elem_of_further _ _ _ Hn))).
  destruct Hc as [->|Hc].
  - inversion Hr as [| | | |? ? Hcn]; subst; [|by apply canon_not_nil in Hcn]. cbn [hashAll].
    destruct (IH ts' dbo db Hall' Hl) as (col & cac & dbo' & db' & -> & Hst & Hout & Henc & Hok).
    rewrite bind_Ok. do 4 eexists. split; [done|]. split_and!; [done| | |].
    + constructor; [split; [apply rep_nil|by intros _ ?%canon_not_nil]|done].
    + cbn [fmap list_fmap concat_opt node_value enc_value]. fold (concat_opt enc_value).
      change (list_fmap _ _ node_value col) with (node_value <$> col). rewrite Henc. done.
    + split; [constructor|done].
  - destruct (Hhash n t dbo db) as (hashed & kept & dbo1 & db1 & Eh & Hst & Hr1 & Hho & Hin1);
      [by left|done|done|done|done|auto|].
    assert (hashAll hash (n :: ns) dbo =
      ('(hashed, kept, db) ← hash n dbo; '(collapsed, cached, db) ← hashAll hash ns db;
       Ok (hashed :: collapsed, kept :: cached, db))) as ->.
    { destruct n; try done. inversion Hr; subst. by apply canon_not_nil in Hc. }
    rewrite Eh, bind_Ok.
    destruct (IH ts' dbo1 db1) as (col & cac & dbo2 & db2 & -> & Hst2 & Hout & Henc & Hok).
    { eapply Forall2_impl; [done|]. intros n' t'. by eapply hash_input_mono. }
    { by eapply step_linked. }
    destruct (hashed_child t hashed Hc Hho) as [He1 Hok1].
    rewrite bind_Ok. do 4 eexists. split; [done|]. split_and!; [by eapply step_trans| | |].
    + constructor.
      * apply (hash_output_mono dbo db1); [apply Hst2|]. split; [done|]. intros Hd _. by apply Hin1.
      * eapply Forall2_impl; [done|]. intros n' t' [Ho1 Ho2]. split; [done|]. intros Hd. apply Ho2. by apply (step_none _ _ _ _ Hst).
    + cbn [fmap list_fmap concat_opt]. rewrite He1. fold (concat_opt enc_value).
      change (list_fmap _ _ node_value col) with (node_value <$> col). by rewrite Henc.
    + by split.
Qed.

(** Storing the collapsed node and flagging the cached one, once the children
    are done. *)
Lemma finish_spec root t dbo db dbo1 db1 c f (mk : nodeFlag → node) :
  step_to dbo db dbo1 db1 → canon t → entries_ok t →
  (∃ k n, c = ShortNode k n f) ∨ (∃ ns, c = FullNode ns f) →
  enc_value (node_value c) = Some (tenc t) → value_ok (node_value c) → flag_ok db root f t →
  (is_Some dbo → B (tenc t)) → (is_Some dbo → below db1 t) → (dbo = None → nf_hash f = None) →
  (∀ db' f', extends db1 db' → flag_ok db' root f' t → rep db' root (mk f') t) →
  hash_post root t dbo db
    ('(hashed, db) ← store h c dbo1 root;
     Ok (hashed, mk (set_hash f (hash_of hashed) (bool_decide (is_Some db))), db)).
Proof.
  intros Hst Hc He Hform Henc Hok Hf HBt Hbel Hnone Hmk.
  assert (flag_ok db1 root f t) as Hf1.
  { unfold flag_ok in *. destruct (nf_hash f); [|done]. destruct Hf as (? & ? & Hs). split_and!; [done|done|].
    intros Hd. eapply stored_mono; [apply Hst|auto]. }
  destruct (store_spec root t dbo1 db1 c f) as (hashed & dbo2 & db2 & -> & Hst2 & Hho & Hin); try done.
  { by eapply step_linked. }
  { intros Hd. apply HBt. by apply (step_none _ _ _ _ Hst). }
  assert (is_Some dbo → below db2 t ∧ in_db db2 root t) as Hpost.
  { intros Hd. split; [eapply below_mono; [apply Hst2|auto]|]. apply Hin. by apply (step_none _ _ _ _ Hst). }
  rewrite bind_Ok. do 4 eexists. split; [done|]. split_and!; [by eapply step_trans| |done|done].
  apply Hmk; [apply Hst2|]. unfold flag_ok, set_hash. cbn [nf_hash nf_dirty].
  rewrite (hashed_hash root t hashed Hho).
  destruct (root || (32 <=? strlen (tenc t))) eqn:E.
  - apply orb_true_iff in E. rewrite Z.leb_le in E.
    split_and!; [done|intros ->; by destruct E|]. intros Hd.
    assert (is_Some dbo) as Hs.
    { destruct dbo as [d|]; [done|]. destruct Hst as [_ [-> _]], Hst2 as [_ [-> _]]. cbn in Hd.
      unfold flag_ok in Hf. rewrite (Hnone eq_refl) in Hf. destruct (Hf Hd). destruct E; [congruence|lia]. }
    destruct (Hpost Hs) as [Hb Hi]. split; [by apply Hi|done].
  - apply orb_false_iff in E as [-> E%Z.leb_gt]. done.
Qed.

(** What the hasher makes of the children of a short or full node with flags [f]:
    the node to encode, and the one to keep, whose flags are still to be set. *)
Definition children_post (root : bool) (t : tree) (dbo : option TrieDB) (db : TrieDB) (f : nodeFlag)
    (r : tres (node * node * option TrieDB)) : Prop :=
  ∃ c mk dbo1 db1, r = Ok (c, mk f, dbo1) ∧ step_to dbo db dbo1 db1 ∧
    ((∃ k n, c = ShortNode k n f) ∨ (∃ ns, c = FullNode ns f)) ∧
    enc_value (node_value c) = Some (tenc t) ∧ value_ok (node_value c) ∧ (is_Some dbo → below db1 t) ∧
    (∀ db' f', extends db1 db' → flag_ok db' root f' t → rep db' root (mk f') t) ∧
    ((∃ k n, ∀ f, mk f = ShortNode k n f) ∨ (∃ ns, ∀ f, mk f = FullNode ns f)).

Lemma hexToCompact_key k t : canon (TShort k t) → hexToCompact (E := trieError) k = Ok (compact_key k).
Proof.
  inversion 1; subst.
  - rewrite compact_key_leaf. by apply (hexToCompact_spec k0 true).
  - rewrite compact_key_ext by done. rewrite <- (hexToCompact_spec (E := trieError) k false) by done.
    unfold with_term. by rewrite ?app_nil_r.
Qed.

Lemma children_short hash root k n t dbo db f :
  (∀ dbo db, rep db false n t → canon t → entries_ok t → linked dbo db →
     (is_Some dbo → enc_in B t) → hash_post false t dbo db (hash n dbo)) →
  rep db root (ShortNode k n f) (TShort k t) → canon (TShort k t) → entries_ok (TShort k t) → linked dbo db →
  (is_Some dbo → enc_in B (TShort k t)) →
  children_post root (TShort k t) dbo db f (hashChildren_ hash (ShortNode k n f) dbo).
Proof.
  intros Hhash Hr Hc He Hl HB'. inversion Hr as [| |? ? ? ? ? Hn Hf| |]; subst.
  pose proof (entries_ok_short k t He) as Het.
  assert (∃ cval kval dbo1 db1, (match n with ValueNode _ => Ok (n, n, dbo) | _ => hash n dbo end) = Ok (cval, kval, dbo1) ∧
    step_to dbo db dbo1 db1 ∧ rep db1 false kval t ∧ enc_value (node_value cval) = Some (tref t) ∧
    value_ok (node_value cval) ∧ cval ≠ NilNode ∧ (is_Some dbo → below db1 (TShort k t)))
    as (cval & kval & dbo1 & db1 & Eval & Hst & Hrk & Hcv & Hcok & Hcn & Hbel).
  { inversion Hc as [k0 v Hk0|k0 cs Hne Hk0 Hcs|]; subst.
    - inversion Hn as [|? v'| | |? ? Hcv]; subst; [|by apply canon_not_value in Hcv].
      exists (ValueNode v), (ValueNode v), dbo, db.
      split_and!; [done|by apply step_refl|apply rep_value|done|by apply entries_ok_value in Het as (_ & ? & _)|done|].
      intros _. apply below_short; by intros ?%canon_not_value.
    - destruct (Hhash dbo db Hn Hcs Het Hl) as (hashed & cached & dbo1 & db1 & E & Hst & Hr1 & Hho & Hin).
      { intros Hd. specialize (HB' Hd). inversion HB'; auto. }
      destruct (hashed_child _ _ Hcs Hho) as [He1 Ho1].
      exists hashed, cached, dbo1, db1. split_and!; [|done|done|done|done| |].
      + destruct n; try done. inversion Hn.
      + intros ->. unfold hashed_ok in Hho. destruct (_ || _); [done|]. by destruct Hho as (_ & _ & _ & ?).
      + intros Hd. destruct (Hin Hd) as [Hb Hi]. apply below_short; [|done]. intros _ ?. apply Hi. by right. }
  cbn [hashChildren_]. rewrite (hexToCompact_key k t Hc), bind_Ok, Eval, !bind_Ok.
  assert (nil_value cval = cval) as -> by (by destruct cval).
  exists (ShortNode (compact_key k) cval f), (fun f => ShortNode k kval f), dbo1, db1.
  split_and!; [done|done|left; eauto| | |done| |left; eauto].
  - cbn [node_value enc_value concat_opt]. rewrite Hcv. cbn. by rewrite app_nil_r.
  - split; [by eapply compact_key_bytes|]. by split.
  - intros db' f' Hex Hf'. apply rep_short; [by eapply rep_mono|done].
Qed.

Lemma concat_opt_app l1 l2 a b : concat_opt enc_value l1 = Some a → concat_opt enc_value l2 = Some b →
  concat_opt enc_value (l1 ++ l2) = Some (a ++ b).
Proof.
  revert a. induction l1 as [|v l1 IH]; intros a; cbn [concat_opt app]; [by intros [= <-]|].
  fold (concat_opt enc_value). destruct (enc_value v) as [x|]; [|done]. cbn.
  destruct (concat_opt enc_value l1) as [y|]; [|done]. cbn. intros [= <-] Hb.
  rewrite (IH y eq_refl Hb). cbn. by rewrite (assoc_L (++)).
Qed.

Lemma children_full hash root ns cs dbo db f :
  (∀ n t dbo db, n ∈ ns → rep db false n t → canon t → entries_ok t → linked dbo db →
     (is_Some dbo → enc_in B t) → hash_post false t dbo db (hash n dbo)) →
  rep db root (FullNode ns f) (TFull cs) → canon (TFull cs) → entries_ok (TFull cs) → linked dbo db →
  (is_Some dbo → enc_in B (TFull cs)) →
  children_post root (TFull cs) dbo db f (hashChildren_ hash (FullNode ns f) dbo).
Proof.
  intros Hhash Hr Hc He Hl HB'. inversion Hr as [| | |? ? ? ? Hlen Hns Hf|]; subst.
  destruct (full_split cs Hc) as (cs16 & c & -> & Hl16 & Hok16 & Hc16).
  assert (∃ ns16 n, ns = ns16 ++ [n] ∧ length ns16 = 16%nat) as (ns16 & n & -> & Hn16).
  { rewrite length_app, Hl16 in Hlen. cbn in Hlen. destruct ns as [|n ns _] using rev_ind; [done|].
    exists ns, n. split; [done|]. rewrite length_app in Hlen. cbn in Hlen. lia. }
  assert (rep db false n c) as Hnc.
  { apply (Hns 16%nat); [by rewrite lookup_app_r, Hn16 by lia|by rewrite lookup_app_r, Hl16 by lia]. }
  destruct (hashAll_spec hash ns16 cs16 dbo db) as (col & cac & dbo1 & db1 & Eall & Hst & Hout & Henc & Hok).
  { intros n' t' d d' Hin. apply Hhash. apply elem_of_app. by left. }
  { apply Forall2_same_length_lookup_2; [lia|]. intros i n' t' Hi Ht.
    assert ((cs16 ++ [c]) !! i = Some t') as Ht' by (by apply lookup_app_l_Some).
    split_and!; [apply (Hns i); [by apply lookup_app_l_Some|done]| |by eapply entries_ok_full|].
    - destruct (Hok16 i t' Ht) as [?|[[_ ?]|[? _]]]; [by left|by right|done].
    - intros Hct Hd. specialize (HB' Hd). inversion HB' as [|? _ Hch]; subst. by eapply Hch. }
  { done. }
  cbn [hashChildren_]. rewrite take_app_length', drop_app_length' by done. rewrite Eall, bind_Ok.
  assert (enc_value (node_value (nil_value n)) = Some (tref c) ∧ value_ok (node_value (nil_value n)) ∧ ¬ canon c)
    as (Henc16 & Hok16' & Hncan).
  { destruct Hc16 as [->|[v ->]]; inversion Hnc as [|? ?| | |? ? Hcx]; subst.
    - split_and!; [done|constructor|apply canon_not_nil].
    - by apply canon_not_nil in Hcx.
    - split_and!; [done| |apply canon_not_value].
      apply (entries_ok_value v). apply (entries_ok_full _ 16%nat _ He). by rewrite lookup_app_r, Hl16 by lia.
    - by apply canon_not_value in Hcx. }
  cbn [fmap list_fmap].
  exists (FullNode (col ++ [nil_value n]) f), (fun f => FullNode (cac ++ [n]) f), dbo1, db1.
  split_and!; [done|done|right; eauto| | | | |right; eauto].
  - cbn [node_value enc_value tenc]. change (fun c => by_ref c (tenc c)) with tref.
    rewrite !fmap_app, concat_app. cbn [fmap list_fmap concat].
    erewrite concat_opt_app; [done|apply Henc|]. cbn [concat_opt]. by rewrite Henc16.
  - cbn [node_value value_ok]. rewrite fmap_app, foldr_app. cbn [fmap list_fmap foldr].
    clear -Hok Hok16'. induction (node_value <$> col) as [|v l IH]; [done|]. destruct Hok. split; auto.
  - intros Hd.
    assert (∀ i c', (cs16 ++ [c]) !! i = Some c' → canon c' → below db1 c' ∧ in_db db1 false c') as Hch.
    { intros i c' [Hi|[_ Hi]]%lookup_app_Some Hcan.
      - destruct (Forall2_lookup_r _ _ _ _ _ Hout Hi) as (n' & _ & _ & Ho). by apply Ho.
      - apply list_lookup_singleton_Some in Hi as [_ ->]. done. }
    apply below_full; intros i c' Hi Hcan; [intros ?; apply (Hch i c' Hi Hcan); by right|by eapply Hch].
  - intros db' f' Hex Hf'. pose proof (Forall2_length _ _ _ Hout) as Hlo.
    apply rep_full; [rewrite !length_app; cbn; lia| |done]. intros i n' t' [Hi|[Hge Hi]]%lookup_app_Some Ht.
    + pose proof (lookup_lt_Some _ _ _ Hi). rewrite lookup_app_l in Ht by lia.
      destruct (Forall2_lookup_lr _ _ _ _ _ _ Hout Hi Ht) as [Hr' _]. by eapply rep_mono.
    + apply list_lookup_singleton_Some in Hi as [Hi0 ->]. rewrite lookup_app_r, <- Hlo, Hi0 in Ht by lia.
      injection Ht as <-. eapply rep_mono; [|done]. eapply extends_trans; [apply Hst|done].
Qed.

(** ** The hasher *)

Lemma node_depth_child ns n : n ∈ ns → (node_depth n ≤ foldr (fun c d => Nat.max (node_depth c) d) 0 ns)%nat.
Proof. induction 1; cbn; lia. Qed.

(** A cached hash is returned without looking at the children. *)
Lemma cached_hash root n t dbo db f hh unload dirty : rep db root n t → canon t → linked dbo db →
  flag_ok db root f t → nf_hash f = Some hh → (unload = true → nf_dirty f = false) → dirty = nf_dirty f →
  dbo = None ∨ unload = true ∨ dirty = false →
  hash_post root t dbo db
    (match dbo with
     | None => Ok (HashNode hh, n, dbo)
     | Some _ => if unload then Ok (HashNode hh, HashNode hh, dbo) else Ok (HashNode hh, n, dbo)
     end).
Proof.
  intros Hr Hc Hl Hf Eh Hun -> Hcase. unfold flag_ok in Hf. rewrite Eh in Hf. destruct Hf as (-> & Hlong & Hst).
  assert (hashed_ok root t (HashNode (thash t))) as Hho.
  { unfold hashed_ok. destruct (root || _) eqn:E; [done|]. apply orb_false_iff in E as [-> ?%Z.leb_gt]. lia. }
  destruct dbo as [d|].
  - assert (stored db t) as Hs by (apply Hst; destruct Hcase as [?|[?|?]]; [done|auto|done]).
    assert (below db t ∧ in_db db root t) by (split; [apply Hs|intros _; apply Hs]).
    destruct unload; do 4 eexists; (split; [done|]); split_and!; try done; try by apply step_refl.
    by apply rep_hash.
  - do 4 eexists. split; [done|]. split_and!; [by apply step_refl|done|done|by intros [? ?]].
Qed.

(** The work of [hash_node] when no cached hash can be used. *)
Definition uncached (depth : nat) (n : node) (dbo : option TrieDB) (force : bool) : tres (node * node * option TrieDB) :=
  '(collapsed, cached, db) ← hashChildren_ (fun n db => hash_node depth h n db false) n dbo;
  '(hashed, db) ← store h collapsed db force;
  Ok (hashed, match cached with
              | ShortNode key val f => ShortNode key val (set_hash f (hash_of hashed) (bool_decide (is_Some db)))
              | FullNode children f => FullNode children (set_hash f (hash_of hashed) (bool_decide (is_Some db)))
              | _ => cached
              end, db).

Lemma uncached_spec depth root n t dbo db f : canon t → entries_ok t → flag_ok db root f t →
  (is_Some dbo → enc_in B t) → (dbo = None → nf_hash f = None) →
  children_post root t dbo db f (hashChildren_ (fun n db => hash_node depth h n db false) n dbo) →
  hash_post root t dbo db (uncached depth n dbo root).
Proof.
  intros Hc He Hf HB' Hnone (c & mk & dbo1 & db1 & E & Hst & Hform & Henc & Hok & Hbel & Hrep & Hmk).
  assert (uncached depth n dbo root =
    '(hashed, db) ← store h c dbo1 root;
    Ok (hashed, mk (set_hash f (hash_of hashed) (bool_decide (is_Some db))), db)) as ->.
  { unfold uncached. rewrite E, bind_Ok. destruct (store h c dbo1 root) as [[hashed d]|e|]; [|done|done].
    rewrite !bind_Ok. destruct Hmk as [(k & m & Hm)|(ns & Hm)]; by rewrite !Hm. }
  apply (finish_spec root t dbo db dbo1 db1 c f mk); try done. intros Hd. by apply enc_in_self, HB'.
Qed.

Lemma hash_flagged depth root n t dbo db f :
  (∃ k n', n = ShortNode k n' f) ∨ (∃ ns, n = FullNode ns f) → rep db root n t → canon t → linked dbo db →
  flag_ok db root f t →
  ((dbo = None → nf_hash f = None) → hash_post root t dbo db (uncached depth n dbo root)) →
  hash_post root t dbo db (hash_node (S depth) h n dbo root).
Proof.
  intros Hform Hr Hc Hl Hf Hun.
  assert (hash_node (S depth) h n dbo root =
    match nf_hash f, dbo with
    | Some hh, None => Ok (HashNode hh, n, dbo)
    | Some hh, Some _ =>
        if flag_canUnload f (h_cachegen h) (h_cachelimit h) then Ok (HashNode hh, HashNode hh, dbo)
        else if negb (nf_dirty f) then Ok (HashNode hh, n, dbo) else uncached depth n dbo root
    | None, _ => uncached depth n dbo root
    end) as ->.
  { destruct Hform as [(k & n' & ->)|(ns & ->)]; reflexivity. }
  destruct (nf_hash f) as [hh|] eqn:Eh; [|by apply Hun].
  pose proof (cached_hash root n t dbo db f hh (flag_canUnload f (h_cachegen h) (h_cachelimit h)) (nf_dirty f)
    Hr Hc Hl Hf Eh) as Hca.
  assert (flag_canUnload f (h_cachegen h) (h_cachelimit h) = true → nf_dirty f = false) as Hu.
  { unfold flag_canUnload. by intros [?%negb_true_iff _]%andb_true_iff. }
  specialize (Hca Hu eq_refl). destruct dbo as [d|]; [|apply Hca; by left].
  destruct (flag_canUnload f _ _); [apply Hca; auto|].
  destruct (nf_dirty f); cbn [negb]; [by apply Hun|apply Hca; auto].
Qed.

Lemma hash_node_spec depth root n t dbo db : rep db root n t → canon t → entries_ok t → linked dbo db →
  (is_Some dbo → enc_in B t) → (node_depth n ≤ depth)%nat →
  hash_post root t dbo db (hash_node depth h n dbo root).
Proof.
  revert root n t dbo db. induction depth as [|depth IH]; intros root n t dbo db Hr Hc He Hl HB' Hd.
  { destruct n; cbn in Hd; lia. }
  inversion Hr as [|? v|? k n' t' f Hn Hf|? ns ts f Hlen Hns Hf|? ? _ Hs Hlong]; subst.
  - by apply canon_not_nil in Hc.
  - by apply canon_not_value in Hc.
  - apply (hash_flagged depth root _ _ dbo db f); try done; [left; eauto|]. intros Hnone.
    apply (uncached_spec depth root _ _ dbo db f); try done. apply (children_short (fun n db => hash_node depth h n db false)); try done.
    intros d d' Hr' Hc' He' Hl' HB''. apply IH; try done. cbn in Hd. lia.
  - apply (hash_flagged depth root _ _ dbo db f); try done; [right; eauto|]. intros Hnone.
    apply (uncached_spec depth root _ _ dbo db f); try done. apply (children_full (fun n db => hash_node depth h n db false)); try done.
    intros n t d d' Hin Hr' Hc' He' Hl' HB''. apply IH; try done.
    cbn in Hd. pose proof (node_depth_child _ _ Hin). lia.
  - exists (HashNode (thash t)), (HashNode (thash t)), dbo, db. split_and!; [done|by apply step_refl|done| |].
    + unfold hashed_ok. destruct (root || _) eqn:E; [done|]. apply orb_false_iff in E as [-> ?%Z.leb_gt].
      specialize (Hlong eq_refl). lia.
    + intros _. split; [apply Hs|]. intros _. apply Hs.
Qed.

End Hasher.
End Hash.
