(* ===== verification/TrieMap.v ===== *)
(** * Tries are maps

    The operations of a trie, its hash and its commits against a finite map:
    any sequence of operations observes what the map would show, the root
    identifies the map, and a committed root can be opened again. *)

From S2P Require Import Prelude Types Interfaces Rlp RlpDecode TrieEncoding TrieNode Trie TrieSpec TrieHash.
From stdpp Require Import base tactics option numbers list gmap.
From Stdlib Require Import ZArith Lia.

#[local] Open Scope Z_scope.

(** The constant for the root of the empty trie is the hash of the encoded
    empty string. *)
Class EmptyRootLaw `{Keccak} := Keccak256_emptyRoot : Keccak256 [128] = emptyRoot.

(** A client of the trie: operations and what they show. *)
Inductive trieOp :=
| OpGet (key : list Z)
| OpUpdate (key value : list Z)
| OpDelete (key : list Z)
| OpHash
| OpCommit.

Inductive observation :=
| SawNothing
| SawValue (v : option (list Z))
| SawRoot (r : Hash).

Section Map.
Context `{HK : Keccak, HD : Database, !KeccakLaws, !EmptyRootLaw}.
Context (B : list Z → Prop) (HB : collision_free B).

Notation tmap := (gmap (list Z) (list Z)).

Definition tree_of (tr : tree) (m : tmap) : Prop := (tr = TNil ∨ canon tr) ∧ contents tr m.

(** [r] is the root of the map. *)
Definition root_of (m : tmap) (r : Hash) : Prop := ∃ tr, tree_of tr m ∧ r = thash tr.

(** The encodings of the nodes of the map's tree are in [B]. *)
Definition map_in (m : tmap) : Prop := ∀ tr, tree_of tr m → canon tr → enc_in B tr.

Lemma tree_of_unique tr1 tr2 m : tree_of tr1 m → tree_of tr2 m → tr1 = tr2.
Proof.
  intros [H1 C1] [H2 C2].
  assert (same_contents tr1 tr2) as Hs by (intros k v; by rewrite (C1 k v), (C2 k v)).
  destruct H1 as [->|H1], H2 as [->|H2]; [done| | |by apply canon_unique].
  - destruct (same_contents_nil tr2 H2). by apply same_contents_sym.
  - by destruct (same_contents_nil tr1 H1).
Qed.

Lemma thash_nil : thash TNil = emptyRoot.
Proof. apply Keccak256_emptyRoot. Qed.

(** ** Hashing and committing *)

Lemma hashRoot_ok db t tr m dbo onleaf : rep db true (t_root t) tr → tree_of tr m → map_ok m →
  linked B dbo db → leaf_ok onleaf → (is_Some dbo → map_in m) →
  ∃ cached dbo' db', hashRoot t dbo onleaf = Ok (HashNode (thash tr), cached, dbo') ∧
    step_to B dbo db dbo' db' ∧ rep db' true cached tr ∧ (is_Some dbo → canon tr → stored db' tr).
Proof.
  intros Hr Htr Hm Hl Hleaf Hin. unfold hashRoot. destruct Htr as [Hcan Hc]. pose proof (contents_entries _ _ Hm Hc) as He.
  destruct Hcan as [->|Hcan].
  - assert (t_root t = NilNode) as -> by (by apply (rep_nil_iff db true (t_root t) TNil)).
    exists NilNode, dbo, db. rewrite thash_nil.
    split_and!; [done|by apply step_refl|apply rep_nil|by intros _ ?%canon_not_nil].
  - destruct (hash_node_spec B HB (mkHasher (t_cachegen t) (t_cachelimit t) onleaf) Hleaf
      (node_depth (t_root t)) true (t_root t) tr dbo db) as (hashed & cached & dbo' & db' & E & Hst & Hr' & Hho & Hp);
      [done|done|done|done| |done|].
    { intros Hd. apply (Hin Hd); [split; auto|done]. }
    unfold hashed_ok in Hho. cbn [orb] in Hho. subst hashed. exists cached, dbo', db'. split_and!; [|done|done|].
    + destruct (t_root t) eqn:Et; done.
    + intros Hd _. destruct (Hp Hd) as [Hb Hi]. split; [apply Hi; by left|done].
Qed.

Lemma BytesToHash_thash tr : BytesToHash (thash tr) = thash tr.
Proof. apply BytesToHash_32, Keccak256_length. Qed.

Lemma Trie_Hash_ok db t m : trie_ok db t m →
  ∃ t' r, Trie_Hash t = Ok (t', r) ∧ trie_ok db t' m ∧ root_of m r.
Proof.
  intros (Hm & tr & Hr & Hcan & Hc).
  destruct (hashRoot_ok db t tr m None None) as (cached & dbo' & db' & E & Hst & Hr' & _);
    [done|done|done|done|by intros ? [=]|by intros [? [=]]|].
  destruct Hst as [_ [-> ->]]. unfold Trie_Hash. rewrite E, bind_Ok. cbn [hash_of deref]. rewrite bind_Ok, BytesToHash_thash.
  do 2 eexists. split; [done|]. split; [split; [done|]; by exists tr|]. by exists tr.
Qed.

Lemma Commit_ok db t m onleaf : trie_ok db t m → db_ok B db → leaf_ok onleaf → map_in m →
  ∃ t' db' r, Commit onleaf t db = Ok (t', db', r) ∧ trie_ok db' t' m ∧ db_ok B db' ∧ extends db db' ∧
    root_of m r ∧ (∀ tr, tree_of tr m → canon tr → stored db' tr).
Proof.
  intros (Hm & tr & Hr & Hcan & Hc) Hdb Hleaf Hin.
  destruct (hashRoot_ok db t tr m (Some db) onleaf) as (cached & dbo' & db' & E & Hst & Hr' & Hs); try done.
  destruct Hst as [Hex [-> Hdb']]. unfold Commit. rewrite E, bind_Ok. cbn [hash_of deref].
  rewrite !bind_Ok, BytesToHash_thash. do 3 eexists. split; [done|].
  split_and!; [split; [done|]; by exists tr|done|done|by exists tr|].
  intros tr' Htr' Hcan'. rewrite (tree_of_unique tr' tr m) in * by done. by apply Hs.
Qed.

Lemma canon_not_empty t : canon t → tenc t ≠ [128].
Proof.
  intros Hc Hk. destruct t; inversion Hc; cbn in Hk; unfold enc_list, enc_head in Hk; case_decide; inversion Hk; lia.
Qed.

(** Opening a root whose nodes are all in the database. *)
Lemma Trie_New_ok db m r : map_ok m → root_of m r → map_in m →
  (∀ tr, tree_of tr m → canon tr → stored db tr) →
  ∃ t, New r db = Ok t ∧ trie_ok db t m.
Proof.
  intros Hm (tr & [Hcan Hc] & ->) Hin Hs. unfold New. destruct Hcan as [->|Hcan].
  - rewrite thash_nil, (bool_decide_eq_false_2 (emptyRoot ≠ emptyRoot)) by (by intros ?). rewrite andb_false_r.
    eexists. split; [done|]. split; [done|]. exists TNil. split_and!; [apply rep_nil|by left|done].
  - assert (enc_in B tr) as HBt by (apply Hin; [by split; [right|]|done]).
    rewrite bool_decide_eq_true_2 by (by apply (cf_zero B HB), enc_in_self).
    rewrite bool_decide_eq_true_2; cycle 1.
    { rewrite <- Keccak256_emptyRoot. intros Hk%(cf_inj B HB); [|by apply enc_in_self|apply (cf_empty B HB)].
      by apply canon_not_empty in Hk. }
    cbn [andb]. pose proof (contents_entries _ _ Hm Hc) as He.
    destruct (resolve_stored db true 0 [] tr Hcan He) as (n & -> & Hr & _); [apply Hs; [by split; [right|]|done]|done|].
    rewrite bind_Ok. eexists. split; [done|]. split; [done|]. exists tr. split_and!; [done|by right|done].
Qed.

(** ** The root identifies the map *)

Definition child_pos (c : tree) : Prop := c = TNil ∨ (∃ v, c = TValue v) ∨ canon c.

Definition good (t : tree) : Prop := canon t ∧ entries_ok t ∧ enc_in B t.

Lemma hash_shallow t1 t2 hash gen : good t1 → good t2 → thash t1 = thash t2 →
  shallow hash gen t1 = shallow hash gen t2.
Proof.
  intros (C1 & E1 & B1) (C2 & E2 & B2) Hh.
  apply (cf_inj B HB) in Hh; [|by apply enc_in_self..].
  pose proof (decodeNode_stored hash gen t1 C1 E1) as D1. pose proof (decodeNode_stored hash gen t2 C2 E2) as D2.
  rewrite Hh, D2 in D1. by injection D1.
Qed.

Lemma shallow_child_inj gen c1 c2 : child_pos c1 → child_pos c2 → (canon c1 → good c1) → (canon c2 → good c2) →
  (canon c1 → ∀ t2, good t2 → shallow None gen c1 = shallow None gen t2 → c1 = t2) →
  shallow_child gen c1 = shallow_child gen c2 → c1 = c2.
Proof.
  intros P1 P2 G1 G2 IH.
  assert (∀ c, canon c → shallow_child gen c = if strlen (tenc c) <? 32 then shallow None gen c else HashNode (thash c)) as Hsc
    by (by destruct c; inversion 1).
  assert (∀ c, canon c → ∀ h v, shallow None gen c ≠ HashNode h ∧ shallow None gen c ≠ ValueNode v ∧ shallow None gen c ≠ NilNode) as Hsn
    by (intros c Hc h v; destruct c; [by inversion Hc|by inversion Hc|done|done]).
  destruct P1 as [->|[[v1 ->]|C1]], P2 as [->|[[v2 ->]|C2]]; try done.
  - rewrite (Hsc c2) by done. destruct (_ <? _); [|done]. intros E. by destruct (Hsn c2 C2 [] []) as (_ & _ & []).
  - by intros [= ->].
  - rewrite (Hsc c2) by done. destruct (_ <? _); [|done]. intros E. by destruct (Hsn c2 C2 [] v1) as (_ & [] & _).
  - rewrite (Hsc c1) by done. destruct (_ <? _); [|done]. intros E. by destruct (Hsn c1 C1 [] []) as (_ & _ & []).
  - rewrite (Hsc c1) by done. destruct (_ <? _); [|done]. intros E. by destruct (Hsn c1 C1 [] v2) as (_ & [] & _).
  - rewrite (Hsc c1), (Hsc c2) by done. destruct (_ <? _), (_ <? _); intros E.
    + auto.
    + by destruct (Hsn c1 C1 (thash c2) []) as ([] & _).
    + by destruct (Hsn c2 C2 (thash c1) []) as ([] & _).
    + injection E as E. apply IH; [done|by apply G2|]. by apply hash_shallow; [apply G1|apply G2|].
Qed.

Lemma good_short k cs : good (TShort k (TFull cs)) → good (TFull cs).
Proof.
  intros (C & E & HBt). inversion C; subst. inversion HBt; subst.
  split_and!; [done|by eapply entries_ok_short|auto].
Qed.

Lemma good_full cs i c : good (TFull cs) → cs !! i = Some c → canon c → good c.
Proof.
  intros (C & E & HBt) Hl Hc. inversion HBt; subst. split_and!; [done|by eapply entries_ok_full|eauto].
Qed.

Lemma full_child_pos cs i c : canon (TFull cs) → cs !! i = Some c → child_pos c.
Proof.
  intros C Hl. destruct (canon_full_children cs i c C Hl) as [?|[[_ ?]|[_ ?]]]; [by left|by right; right|by right; left].
Qed.

Lemma shallow_inj hash gen t1 : canon t1 → ∀ t2, good t1 → good t2 → shallow hash gen t1 = shallow hash gen t2 → t1 = t2.
Proof.
  intros C1. revert hash. induction C1 as [k1 v1 Hk1|k1 cs1 Hne1 Hk1 Hcs1 IH|cs1 Hlen1 H21 Hi1 IH Hv1];
    intros hash t2 G1 G2 E; pose proof (proj1 G2) as C2.
  - inversion C2 as [k2 v2 Hk2|k2 cs2 Hne2 Hk2 Hcs2|cs2 Hlen2 H22 Hi2 Hv2]; subst; [by injection E as -> ->| |done].
    cbn in E. destruct (_ <? _); done.
  - inversion C2 as [k2 v2 Hk2|k2 cs2 Hne2 Hk2 Hcs2|cs2 Hlen2 H22 Hi2 Hv2]; subst; [| |done].
    + cbn in E. destruct (_ <? _); done.
    + change (ShortNode k1 (shallow_child gen (TFull cs1)) (mkFlag hash gen false) =
              ShortNode k2 (shallow_child gen (TFull cs2)) (mkFlag hash gen false)) in E.
      injection E as -> E. f_equal.
      apply (shallow_child_inj gen (TFull cs1) (TFull cs2)); [by right; right..|intros _; by eapply good_short| | |done].
      * intros _. by eapply good_short.
      * intros _ t2 Gt Et. eapply IH; [by eapply good_short|done|done].
  - inversion C2 as [k2 v2 Hk2|k2 cs2 Hne2 Hk2 Hcs2|cs2 Hlen2 H22 Hi2 Hv2]; subst; [done|done|].
    change (FullNode (shallow_child gen <$> cs1) (mkFlag hash gen false) =
            FullNode (shallow_child gen <$> cs2) (mkFlag hash gen false)) in E.
    injection E as E. f_equal. apply list_eq_same_length with 17%nat; [lia|lia|].
    intros i c1 c2 _ L1 L2.
    assert (shallow_child gen c1 = shallow_child gen c2) as Ec.
    { apply (f_equal (lookup i)) in E. rewrite !list_lookup_fmap, L1, L2 in E. by injection E. }
    apply (shallow_child_inj gen c1 c2); [by eapply full_child_pos, L1; apply G1|by eapply full_child_pos, L2; apply G2| | | |done].
    + intros Cc. by apply (good_full cs1 i).
    + intros Cc. by apply (good_full cs2 i).
    + intros Cc t2 Gt Et.
      assert (i < 16)%nat as Hi.
      { destruct (decide (i < 16)%nat); [done|]. assert (i = 16%nat) as -> by (apply lookup_lt_Some in L1; lia).
        destruct (Hv1 c1 L1) as [v ->]; [by intros ->; apply canon_not_nil in Cc|]. by apply canon_not_value in Cc. }
      eapply (IH i c1 L1 Hi); [by intros ->; apply canon_not_nil in Cc|by apply (good_full cs1 i)|done|done].
Qed.

Lemma root_binds m1 m2 r : map_ok m1 → map_ok m2 → map_in m1 → map_in m2 → root_of m1 r → root_of m2 r → m1 = m2.
Proof.
  intros M1 M2 I1 I2 (t1 & [H1 C1] & ->) (t2 & [H2 C2] & E).
  assert (t1 = t2) as ->.
  { assert (∀ t m, canon t → map_ok m → map_in m → contents t m → good t) as Hg.
    { intros t m Hc Hm Hi Hco. split_and!; [done|by eapply contents_entries|apply Hi; [split; [by right|done]|done]]. }
    assert (∀ t, good t → thash t ≠ thash TNil) as Hnil.
    { intros t (Hc & _ & HBt) Hk. rewrite thash_nil, <- Keccak256_emptyRoot in Hk.
      apply (cf_inj B HB) in Hk; [|by apply enc_in_self|apply (cf_empty B HB)]. by apply canon_not_empty in Hk. }
    destruct H1 as [->|H1], H2 as [->|H2]; [done| | |].
    - by destruct (Hnil t2); [eauto|].
    - by destruct (Hnil t1); [eauto|].
    - apply (shallow_inj None 0 t1 H1); [eauto..|]. apply hash_shallow; [eauto..|done]. }
  apply map_eq. intros k. apply option_eq. intros v.
  rewrite <- (contents_lookup _ _ _ _ C1), <- (contents_lookup _ _ _ _ C2). done.
Qed.

(** ** Sequences of operations *)

Definition exec (op : trieOp) (t : Trie) (db : TrieDB) : tres (Trie * TrieDB * observation) :=
  match op with
  | OpGet key => let '(t, r) := TryGet db key t in v ← r; Ok (t, db, SawValue v)
  | OpUpdate key value => let '(t, r) := TryUpdate db key value t in _ ← r; Ok (t, db, SawNothing)
  | OpDelete key => let '(t, r) := TryDelete db key t in _ ← r; Ok (t, db, SawNothing)
  | OpHash => '(t, r) ← Trie_Hash t; Ok (t, db, SawRoot r)
  | OpCommit => '(t, db, r) ← Commit None t db; Ok (t, db, SawRoot r)
  end.

Fixpoint run (ops : list trieOp) (t : Trie) (db : TrieDB) : tres (Trie * TrieDB * list observation) :=
  match ops with
  | [] => Ok (t, db, [])
  | op :: ops =>
      '(t, db, o) ← exec op t db;
      '(t, db, os) ← run ops t db;
      Ok (t, db, o :: os)
  end.

(** What the map does, and shows; an update with the empty value deletes. *)
Definition map_after (m : tmap) (op : trieOp) : tmap :=
  match op with
  | OpUpdate key value => if decide (value = []) then delete key m else <[key := value]> m
  | OpDelete key => delete key m
  | _ => m
  end.

Definition shows (m : tmap) (op : trieOp) (o : observation) : Prop :=
  match op with
  | OpGet key => o = SawValue (m !! key)
  | OpHash | OpCommit => ∃ r, o = SawRoot r ∧ root_of m r
  | _ => o = SawNothing
  end.

Fixpoint shows_all (m : tmap) (ops : list trieOp) (os : list observation) : Prop :=
  match ops, os with
  | [], [] => True
  | op :: ops, o :: os => shows m op o ∧ shows_all (map_after m op) ops os
  | _, _ => False
  end.

(** Keys and values are bytes of bounded length; what is committed is in [B]. *)
Definition op_ok (m : tmap) (op : trieOp) : Prop :=
  match op with
  | OpGet key | OpDelete key => is_bytes key
  | OpUpdate key value => key_ok key ∧ is_bytes value ∧ strlen value < maxItem
  | OpHash => True
  | OpCommit => map_in m
  end.

Fixpoint ops_ok (m : tmap) (ops : list trieOp) : Prop :=
  match ops with
  | [] => True
  | op :: ops => op_ok m op ∧ ops_ok (map_after m op) ops
  end.

Lemma ops_ok_app m ops1 ops2 : ops_ok m (ops1 ++ ops2) ↔ ops_ok m ops1 ∧ ops_ok (foldl map_after m ops1) ops2.
Proof. revert m. induction ops1 as [|op ops1 IH]; intros m; cbn; [tauto|]. rewrite IH. tauto. Qed.

Lemma exec_ok db t m op : trie_ok db t m → db_ok B db → op_ok m op →
  ∃ t' db' o, exec op t db = Ok (t', db', o) ∧ trie_ok db' t' (map_after m op) ∧ db_ok B db' ∧ shows m op o.
Proof.
  intros Ht Hdb Hop. destruct op as [key|key v|key| |]; cbn [op_ok] in Hop; cbn [exec map_after shows].
  - destruct (TryGet_ok db t m key Ht Hop) as (t' & -> & Ht'). rewrite bind_Ok. eauto 10.
  - destruct Hop as (Hk & Hv & Hl). destruct (TryUpdate_ok db t m key v Ht Hk Hv Hl) as (t' & -> & Ht').
    rewrite bind_Ok. eauto 10.
  - destruct (TryDelete_ok db t m key Ht Hop) as (t' & -> & Ht'). rewrite bind_Ok. eauto 10.
  - destruct (Trie_Hash_ok db t m Ht) as (t' & r & -> & Ht' & Hr). rewrite bind_Ok. eauto 10.
  - destruct (Commit_ok db t m None Ht Hdb) as (t' & db' & r & -> & Ht' & Hdb' & _ & Hr & _); [by intros ? [=]|done|].
    rewrite bind_Ok. eauto 10.
Qed.

Lemma run_ok ops db t m : trie_ok db t m → db_ok B db → ops_ok m ops →
  ∃ t' db' os, run ops t db = Ok (t', db', os) ∧ shows_all m ops os ∧
    trie_ok db' t' (foldl map_after m ops) ∧ db_ok B db'.
Proof.
  revert db t m. induction ops as [|op ops IH]; intros db t m Ht Hdb Hops; cbn [run].
  { do 3 eexists. by split_and!. }
  destruct Hops as [Hop Hops]. destruct (exec_ok db t m op Ht Hdb Hop) as (t1 & db1 & o & -> & Ht1 & Hdb1 & Ho).
  rewrite bind_Ok. destruct (IH db1 t1 _ Ht1 Hdb1 Hops) as (t2 & db2 & os & -> & Hos & Ht2 & Hdb2).
  rewrite bind_Ok. do 3 eexists. by split_and!.
Qed.

Lemma New_zero db : db_ok B db → ∃ t, New zeroHash db = Ok t ∧ trie_ok db t ∅.
Proof.
  intros Hdb. unfold New. rewrite (bool_decide_eq_false_2 (zeroHash ≠ zeroHash)) by (by intros ?).
  eexists. split; [done|]. split; [apply map_Forall_empty|]. exists TNil. split_and!; [apply rep_nil|by left|].
  intros k v. split; [inversion 1|]. by intros (? & _ & ?%lookup_empty_Some).
Qed.

End Map.

(** ** The properties *)

Section Properties.
Context `{HK : Keccak, HD : Database, !KeccakLaws, !EmptyRootLaw}.

(** C3. A trie is a finite map.  Opened empty over any database whose blobs are
    stored under their hashes, it goes through every sequence of lookups,
    updates, deletions, hashings and commits without an error or a panic, and
    shows at each step what the map shows: the value of a key, and a root that
    is determined by the contents alone. *)
Theorem trie_refines_map B db ops : collision_free B → db_ok B db → ops_ok B ∅ ops →
  ∃ t0 t db' os, New zeroHash db = Ok t0 ∧ run ops t0 db = Ok (t, db', os) ∧ shows_all ∅ ops os ∧
    trie_ok db' t (foldl map_after ∅ ops) ∧ db_ok B db'.
Proof.
  intros HB Hdb Hops. destruct (New_zero B db Hdb) as (t0 & -> & Ht0).
  destruct (run_ok B HB ops db t0 ∅ Ht0 Hdb Hops) as (t & db' & os & ? & ? & ? & ?). exists t0, t, db', os. by split_and!.
Qed.

(** C23. The root hash identifies the contents.  Two tries, whatever operations
    built them and whatever their databases hold, have equal roots when they
    have equal contents, and equal contents when they have equal roots,
    provided that the hash has no collision among the nodes of the two. *)
Theorem root_identifies_contents B db1 t1 m1 db2 t2 m2 : collision_free B →
  trie_ok db1 t1 m1 → trie_ok db2 t2 m2 → map_in B m1 → map_in B m2 →
  ∃ t1' t2' r1 r2, Trie_Hash t1 = Ok (t1', r1) ∧ Trie_Hash t2 = Ok (t2', r2) ∧ (r1 = r2 ↔ m1 = m2).
Proof.
  intros HB H1 H2 I1 I2. destruct (Trie_Hash_ok B HB db1 t1 m1 H1) as (t1' & r1 & E1 & _ & R1).
  destruct (Trie_Hash_ok B HB db2 t2 m2 H2) as (t2' & r2 & E2 & _ & R2).
  exists t1', t2', r1, r2. split_and!; [done|done|]. split.
  - intros ->. by apply (root_binds B HB m1 m2 r2); [apply H1|apply H2|..].
  - intros ->. destruct R1 as (tr1 & T1 & ->), R2 as (tr2 & T2 & ->). by rewrite (tree_of_unique tr1 tr2 m2).
Qed.

(** C24. A committed trie can be opened again: [Commit] writes every node that
    the database lacks, and [New] at the root it returns, over this database
    or any that has grown since, yields a trie with the same contents. *)
Theorem Commit_New_roundtrip B db t m onleaf : collision_free B →
  trie_ok db t m → db_ok B db → leaf_ok onleaf → map_in B m →
  ∃ t' db' r, Commit onleaf t db = Ok (t', db', r) ∧ trie_ok db' t' m ∧
    ∀ db2, extends db' db2 → ∃ t2, New r db2 = Ok t2 ∧ trie_ok db2 t2 m.
Proof.
  intros HB Ht Hdb Hleaf Hin.
  destruct (Commit_ok B HB db t m onleaf Ht Hdb Hleaf Hin) as (t' & db' & r & E & Ht' & _ & _ & Hr & Hs).
  exists t', db', r. split_and!; [done|done|]. intros db2 Hex.
  apply (Trie_New_ok B HB); [apply Ht|done|done|]. intros tr Htr Hc. eapply stored_mono; [done|auto].
Qed.

End Properties.
