(* ===== verification/TrieProof.v ===== *)
(** * Merkle proofs (src/fast/proof.go)

    [Prove] writes the nodes on the path of a key to a database; [VerifyProof]
    follows a path of nodes from a root hash.  A proof of the prover is
    accepted, and an accepted proof shows the value of the key. *)

From S2P Require Import Prelude Types Interfaces Rlp RlpDecode TrieEncoding TrieNode Trie TrieSpec TrieHash TrieMap.
From stdpp Require Import base tactics option numbers list gmap.
From Stdlib Require Import ZArith Lia.

#[local] Open Scope Z_scope.

(** The error of [VerifyProof] carries the index of the node. *)
Inductive ProofError :=
| ProofMissing (i : Z) (hash : Hash)
| ProofBad (i : Z) (e : NodeError).

Section Proof_.
Context `{HK : Keccak, HD : Database}.

(** ** Proving *)

(** The loop that collects the nodes on the path. *)
Fixpoint provePath (fuel : nat) (db : TrieDB) (gen : Z) (tn : node) (key : list Z) : tres (list node) :=
  match fuel with
  | O => Panic
  | S fuel =>
      match key with
      | [] => Ok []
      | x :: krest =>
          match tn with
          | NilNode => Ok []
          | ShortNode nkey val _ =>
              if (length key <? length nkey)%nat || negb (bool_decide (nkey = take (length nkey) key))
              then Ok [tn]
              else nodes ← provePath fuel db gen val (drop (length nkey) key); Ok (tn :: nodes)
          | FullNode children _ =>
              c ← child_at children x;
              nodes ← provePath fuel db gen c krest;
              Ok (tn :: nodes)
          | HashNode h =>
              n ← resolveHash db gen h [];
              provePath fuel db gen n key
          | ValueNode _ => Panic
          end
      end
  end.

(** The error of [Put] is ignored. *)
Definition putProof (k v : list Z) (d : database) : database := default d (db_Put k v d).

Definition proveHasher : hasher := mkHasher 0 0 None.

(** The loop that encodes them; [first] is [i == 0]. *)
Fixpoint proveNodes (first : bool) (nodes : list node) (fromLevel : Z) (d : database) : tres database :=
  match nodes with
  | [] => Ok d
  | n :: nodes =>
      '(n, _, _) ← hashChildren_ (fun n db => hash_node (node_depth n) proveHasher n db false) n None;
      '(hn, _) ← store proveHasher n None false;
      let hash := hash_of hn in
      if bool_decide (is_Some hash) || first then
        if 0 <? fromLevel then proveNodes false nodes (fromLevel - 1) d
        else
          enc ← match EncodeToBytes (node_value n) with Ok enc => Ok enc | Err _ => Ok [] | Panic => Panic end;
          proveNodes false nodes fromLevel (putProof (default (Keccak256 enc) hash) enc d)
      else proveNodes false nodes fromLevel d
  end.

Definition Prove (db : TrieDB) (key : list Z) (fromLevel : Z) (t : Trie) (proofDb : database) : tres database :=
  let key := keybytesToHex key in
  nodes ← provePath (opFuel key) db (t_cachegen t) (t_root t) key;
  proveNodes true nodes fromLevel proofDb.

Definition Secure_Prove (db : TrieDB) (key : list Z) (fromLevel : Z) (t : SecureTrie) (proofDb : database)
    : tres database :=
  Prove db key fromLevel (st_trie t) proofDb.

(** ** Verifying *)

(** The child of a full node; an index out of range panics. *)
Definition proofChild {E} (children : list node) (x : Z) : outcome E node :=
  if x <? 0 then Panic else deref (children !! Z.to_nat x).

(** [get]: the descent inside one decoded node, of height at most [depth]. *)
Fixpoint proof_get {E} (depth : nat) (tn : node) (key : list Z) : outcome E (list Z * node) :=
  match depth with
  | O => Panic
  | S depth =>
      match tn with
      | ShortNode nkey val _ =>
          if (length key <? length nkey)%nat || negb (bool_decide (nkey = take (length nkey) key))
          then Ok ([], NilNode)
          else proof_get depth val (drop (length nkey) key)
      | FullNode children _ =>
          x ← deref (head key);
          c ← proofChild children x;
          proof_get depth c (tail key)
      | HashNode _ => Ok (key, tn)
      | NilNode => Ok (key, NilNode)
      | ValueNode _ => Ok ([], tn)
      end
  end.

(** [copy(dst, src)] into an array. *)
Definition copyHash (dst : Hash) (src : list Z) : Hash :=
  take (length dst) src ++ drop (length src) dst.

(** The loop of [VerifyProof]: [None] when the fuel does not suffice.  The blob
    of a hash is taken as the database has it. *)
Fixpoint VerifyProof_loop (fuel : nat) (wantHash : Hash) (key : list Z) (proofDb : database) (i : Z)
    : option (outcome ProofError (option (list Z) * Z)) :=
  match fuel with
  | O => None
  | S fuel =>
      match db_Get wantHash proofDb with
      | None => Some (Err (ProofMissing i wantHash))
      | Some buf =>
          match decodeNode (Some wantHash) buf 0 with
          | Ok n =>
              match proof_get (E := ProofError) (node_depth n) n key with
              | Ok (_, NilNode) => Some (Ok (None, i))
              | Ok (keyrest, HashNode cld) => VerifyProof_loop fuel (copyHash wantHash cld) keyrest proofDb (i + 1)
              | Ok (_, ValueNode cld) => Some (Ok (Some cld, i + 1))
              | Ok _ => VerifyProof_loop fuel wantHash key proofDb (i + 1)
              | Err _ | Panic => Some Panic
              end
          | Err e => Some (Err (ProofBad i e))
          | Panic => Some Panic
          end
      end
  end.

Definition VerifyProof (fuel : nat) (rootHash : Hash) (key : list Z) (proofDb : database) :=
  VerifyProof_loop fuel rootHash (keybytesToHex key) proofDb 0.

(** ** Paths *)

Context `{!KeccakLaws}.

Inductive on_path : tree → list Z → tree → Prop :=
| path_here t k : on_path t k t
| path_short key t k t' : on_path t k t' → on_path (TShort key t) (key ++ k) t'
| path_full cs x c k t' : 0 ≤ x → cs !! Z.to_nat x = Some c → on_path c k t' → on_path (TFull cs) (x :: k) t'.

Section Verify.
Context (B : list Z → Prop) (HB : collision_free B).

(** Every blob of the proof is stored under its hash. *)
Definition honest (d : database) : Prop :=
  ∀ h b, length h = HashLength → db_Get h d = Some b → h = Keccak256 b ∧ B b.

(** A hash reference consumes nothing of the key, any other node something. *)
Definition unread (n : node) : nat := match n with HashNode _ => 1 | _ => 0 end.

(** How [get] leaves the decoded node [n] of tree [t]. *)
Definition get_post (n : node) (t : tree) (key key' : list Z) (c : node) : Prop :=
  c = NilNode ∧ (∀ v, ¬ holds t key v) ∨
  (∃ v, c = ValueNode v ∧ holds t key v) ∨
  (∃ t', c = HashNode (thash t') ∧ canon t' ∧ 32 ≤ strlen (tenc t') ∧ vkey key' ∧
     (length key' < length key + unread n)%nat ∧
     (∀ t2, on_path t' key' t2 → on_path t key t2) ∧ (∀ v, holds t key v ↔ holds t' key' v) ∧
     canon t ∧ (good B t → good B t')).

Lemma shallow_child_cases gen c : child_pos c →
  shallow_child gen c = HashNode (thash c) ∧ canon c ∧ 32 ≤ strlen (tenc c) ∨
  shallow_child gen c = shallow None gen c.
Proof.
  intros [->|[[v ->]|Hc]]; [by right|by right|].
  assert (shallow_child gen c = if strlen (tenc c) <? 32 then shallow None gen c else HashNode (thash c)) as ->
    by (destruct c; by inversion Hc).
  destruct (Z.ltb_spec (strlen (tenc c)) 32); [by right|by left].
Qed.

(** Descending through a prefix of the key keeps the shape of [get_post]. *)
Lemma get_post_step n n' t c key key0 key' r : canon t → (length key0 < length key)%nat →
  (∀ v, holds t key v ↔ holds c key0 v) → (∀ t2, on_path c key0 t2 → on_path t key t2) →
  (good B t → canon c → good B c) →
  get_post n' c key0 key' r → get_post n t key key' r.
Proof.
  intros Ht Hlt Hh Hp Hg [[-> Hn]|[(v & -> & Hv)|(t' & -> & Hc & Hl & Hk & Hlen & Hpath & Hhold & Hcc & Hgood)]].
  - left. split; [done|]. intros v Hv. by eapply Hn, Hh.
  - right; left. exists v. split; [done|]. by apply Hh.
  - right; right. exists t'. split_and!; [done|done|done|done| |auto| |done|auto].
    + unfold unread in *. destruct n, n'; lia.
    + intros v. by rewrite Hh.
Qed.

Lemma short_mismatch (k : list Z) t key : (length key <? length k)%nat || negb (bool_decide (k = take (length k) key)) = true →
  ∀ v, ¬ holds (TShort k t) key v.
Proof.
  intros Hm v (k' & -> & _)%holds_short_inv. apply orb_true_iff in Hm as [Hm%Nat.ltb_lt|Hm%negb_true_iff].
  - rewrite length_app in Hm. lia.
  - apply bool_decide_eq_false in Hm. by rewrite take_app_length in Hm.
Qed.

Lemma short_match (k key : list Z) : (length key <? length k)%nat || negb (bool_decide (k = take (length k) key)) = false →
  ∃ k', key = k ++ k'.
Proof.
  intros [_ Hm%negb_false_iff]%orb_false_iff. apply bool_decide_eq_true in Hm. exists (drop (length k) key).
  rewrite Hm at 1. by rewrite take_drop.
Qed.

Lemma get_spec {E} depth gen t n key :
  (∃ hash, n = shallow hash gen t) ∧ canon t ∨ n = shallow_child gen t ∧ child_pos t →
  at_key t key → (node_depth n ≤ depth)%nat →
  ∃ key' c, proof_get (E := E) depth n key = Ok (key', c) ∧ get_post n t key key' c.
Proof.
  revert t n key. induction depth as [|depth IH]; intros t n key Hn Hk Hd; [destruct n; cbn in Hd; lia|].
  assert (child_pos t ∧ ((∃ hash, n = shallow hash gen t) ∨ n = HashNode (thash t) ∧ canon t ∧ 32 ≤ strlen (tenc t)))
    as [Hpos Hn'].
  { destruct Hn as [[Hn Hc]|[-> Hp]]; [split; [by right; right|by left]|].
    split; [done|]. destruct (shallow_child_cases gen t Hp) as [(-> & ? & ?)| ->]; [by right|left; by eexists]. }
  destruct Hn' as [[hash ->]|(-> & Hc & Hl)]; cycle 1.
  { cbn [proof_get]. exists key, (HashNode (thash t)). split; [done|]. right; right. exists t.
    split_and!; [done|done|done| |cbn; lia|done|done|done|done]. by destruct t; inversion Hc; destruct Hk. }
  destruct t as [|v|k t|cs]; cbn [at_key] in Hk.
  - exists key, NilNode. split; [done|]. left. split; [done|]. apply holds_nil_inv.
  - exists [], (ValueNode v). split; [done|]. right; left. exists v. split; [done|]. by apply holds_value_inv.
  - destruct Hk as [Hc Hk].
    change (shallow hash gen (TShort k t)) with (ShortNode k (shallow_child gen t) (mkFlag hash gen false)) in *.
    cbn [proof_get]. destruct (_ || _) eqn:Em.
    { exists [], NilNode. split; [done|]. left. split; [done|]. by apply short_mismatch. }
    apply short_match in Em as [key0 ->]. rewrite drop_app_length.
    assert (child_pos t) as Hpt by (inversion Hc; subst; [right; left; eauto|by right; right]).
    destruct (IH t (shallow_child gen t) key0) as (key' & c & -> & Hpost);
      [by right|by eapply at_key_short|cbn [node_depth] in Hd; lia|].
    exists key', c. split; [done|]. eapply get_post_step; [done| | | | |done].
    + rewrite length_app. pose proof (canon_key_nonempty k t Hc). destruct k; [done|cbn; lia].
    + intros v. rewrite holds_short_inv. split; [|eauto]. intros (k' & E1%(inj (k ++.)) & ?). by subst.
    + intros t2. apply path_short.
    + intros Hg Hct. destruct t; inversion Hct; subst; inversion Hc; subst. by eapply good_short.
  - destruct Hk as [Hc Hk].
    change (shallow hash gen (TFull cs)) with (FullNode (shallow_child gen <$> cs) (mkFlag hash gen false)) in *.
    destruct key as [|x key0]; [by apply vkey_nonempty in Hk|].
    destruct (at_key_full cs x key0 Hc Hk) as (Hx & t & Hl & Hk0).
    cbn [proof_get head tail deref]. rewrite bind_Ok. unfold proofChild. rewrite (proj2 (Z.ltb_ge _ _)) by lia.
    rewrite list_lookup_fmap, Hl. cbn [fmap option_fmap option_map deref]. rewrite bind_Ok.
    destruct (IH t (shallow_child gen t) key0) as (key' & c & -> & Hpost).
    + right. split; [done|]. by eapply full_child_pos.
    + done.
    + cbn [node_depth] in Hd.
      pose proof (node_depth_child (shallow_child gen <$> cs) (shallow_child gen t)
        (list_elem_of_fmap_2 _ _ _ (list_elem_of_lookup_2 _ _ _ Hl))). lia.
    + exists key', c. split; [done|]. eapply get_post_step; [done| | | | |done].
      * cbn. lia.
      * intros v. rewrite holds_full_inv. split; [|intros; by eauto 10].
        intros (x' & c' & k' & [= <- <-] & _ & Hl' & ?). rewrite Hl in Hl'. by injection Hl' as ->.
      * intros t2. by apply path_full.
      * intros Hg Hct. by eapply good_full.
Qed.

Lemma copyHash_32 dst src : length dst = HashLength → length src = HashLength → copyHash dst src = src.
Proof.
  intros Hd Hs. unfold copyHash. rewrite Hd, Hs, take_ge, drop_ge by lia. apply app_nil_r.
Qed.

(** The outcome of a verification: a node of the path is missing, or the value
    is the one of the tree. *)
Definition verdict (d : database) (t : tree) (key : list Z) (r : outcome ProofError (option (list Z) * Z)) : Prop :=
  (∃ j t', r = Err (ProofMissing j (thash t')) ∧ on_path t key t' ∧ canon t' ∧ (t' = t ∨ 32 ≤ strlen (tenc t')) ∧
     db_Get (thash t') d = None) ∨
  (∃ v j, r = Ok (v, j) ∧ ∀ w, v = Some w ↔ holds t key w).

Lemma VerifyProof_loop_spec fuel t key d i : good B t → vkey key → honest d → (length key < fuel)%nat →
  ∃ r, VerifyProof_loop fuel (thash t) key d i = Some r ∧ verdict d t key r.
Proof.
  revert t key i. induction fuel as [|fuel IH]; intros t key i Hg Hk Hd Hf; [lia|]. cbn [VerifyProof_loop].
  pose proof Hg as (Hc & He & HBt).
  destruct (db_Get (thash t) d) as [buf|] eqn:Eg; cycle 1.
  { eexists. split; [done|]. left. exists i, t. split_and!; [done|apply path_here|done|by left|done]. }
  destruct (Hd _ _ (Keccak256_length _) Eg) as [Eh Hbuf].
  apply (cf_inj B HB) in Eh; [|by apply enc_in_self|done]. subst buf. rewrite decodeNode_stored by done.
  destruct (get_spec (E := ProofError) (node_depth (shallow (Some (thash t)) 0 t)) 0 t (shallow (Some (thash t)) 0 t) key)
    as (key' & c & -> & Hpost); [left; split; [by eexists|done]|by apply at_key_canon|done|].
  destruct Hpost as [[-> Hn]|[(v & -> & Hv)|(t' & -> & Hc' & Hl & Hk' & Hlen & Hpath & Hhold & _ & Hgood)]].
  - eexists. split; [done|]. right. exists None, i. split; [done|]. intros w. split; [done|]. by intros ?%Hn.
  - eexists. split; [done|]. right. exists (Some v), (i + 1). split; [done|]. intros w.
    split; [by intros [= <-]|]. intros Hw. f_equal. by eapply holds_fun.
  - rewrite copyHash_32 by apply Keccak256_length.
    destruct (IH t' key' (i + 1)) as (r & Hr & Hv); [by apply Hgood|done|done| |].
    { assert (unread (shallow (Some (thash t)) 0 t) = 0%nat) as Hu by (destruct t; by inversion Hc).
      rewrite Hu in Hlen. lia. }
    exists r. split; [done|]. destruct Hv as [(j & t2 & -> & Hp2 & Hc2 & Hl2 & Hm)|(v & j & -> & Hv)].
    + left. exists j, t2. split_and!; [done|auto|done| |done]. right. by destruct Hl2 as [->|?].
    + right. exists v, j. split; [done|]. intros w. by rewrite Hv, Hhold.
Qed.

(** ** The prover *)

Section Prove.
Context (db : TrieDB).

(** The nodes that [provePath] collects. *)
Inductive proved : bool → tree → list Z → list node → Prop :=
| proved_end root t key : t = TNil ∨ (∃ v, t = TValue v) → proved root t key []
| proved_miss root k t key n : (∀ k', key ≠ k ++ k') → rep db root n (TShort k t) → (∀ h, n ≠ HashNode h) →
    proved root (TShort k t) key [n]
| proved_short root k t key n ns : rep db root n (TShort k t) → (∀ h, n ≠ HashNode h) → proved false t key ns →
    proved root (TShort k t) (k ++ key) (n :: ns)
| proved_full root cs x c key n ns : rep db root n (TFull cs) → (∀ h, n ≠ HashNode h) → 0 ≤ x →
    cs !! Z.to_nat x = Some c → proved false c key ns → proved root (TFull cs) (x :: key) (n :: ns).

Lemma provePath_spec fuel gen root n t key : rep db root n t → entries_ok t → at_key t key →
  (fuelFor n key ≤ fuel)%nat → ∃ ns, provePath fuel db gen n key = Ok ns ∧ proved root t key ns.
Proof.
  revert root n t key. induction fuel as [|fuel IH]; intros root n t key Hr He Hk Hf; [unfold fuelFor in Hf; destruct n; lia|].
  cbn [provePath].
  assert (key = [] → t = TNil ∨ ∃ v, t = TValue v) as Hnil.
  { intros ->. destruct t; [by left|by right; eexists|by destruct Hk as [_ ?%vkey_nonempty]..]. }
  destruct key as [|x krest]; [exists []; split; [done|]; by apply proved_end, Hnil|]. clear Hnil.
  inversion Hr as [|? v|? k n' t' f Hn Hfl|? ns ts f Hlen Hns Hfl|? ? Hc Hs Hlong]; subst.
  - exists []. split; [done|]. apply proved_end. by left.
  - done.
  - destruct Hk as [Hc Hk]. destruct (_ || _) eqn:Em.
    { eexists. split; [done|]. apply proved_miss; [|done|done]. intros k' E. rewrite E in Em.
      apply orb_true_iff in Em as [Em%Nat.ltb_lt|Em%negb_true_iff]; [rewrite length_app in Em; lia|].
      apply bool_decide_eq_false in Em. by rewrite take_app_length in Em. }
    apply short_match in Em as [key0 E]. rewrite E in Hk, Hf |- *. rewrite drop_app_length. clear E.
    destruct (IH false n' t' key0) as (ns & -> & Hp); [done|by eapply entries_ok_short|by eapply at_key_short| |].
    { pose proof (canon_key_nonempty k t' Hc). destruct k; [done|]. unfold fuelFor in *. rewrite length_app in Hf. cbn in Hf.
      destruct n'; lia. }
    rewrite bind_Ok. eexists. split; [done|]. by apply proved_short.
  - destruct Hk as [Hc Hk]. destruct (at_key_full ts x krest Hc Hk) as (Hx & c & Hl & Hk0).
    destruct (rep_full_child db root ns f ts (Z.to_nat x) c Hr Hl) as (n & Hnl & Hrn).
    rewrite (child_at_ok ns x n) by done. rewrite bind_Ok.
    destruct (IH false n c krest) as (ns' & -> & Hp); [done|by eapply entries_ok_full|done| |].
    { unfold fuelFor in *. cbn in Hf. destruct n; lia. }
    rewrite bind_Ok. eexists. split; [done|]. by eapply proved_full.
  - assert (vkey (x :: krest)) as Hvk by (by destruct t; inversion Hc; destruct Hk).
    destruct (resolve_stored db root gen [] t Hc He Hs Hlong) as (n & -> & Hrn & Hnh). rewrite bind_Ok.
    apply (IH root n t (x :: krest)); [done|done|done|].
    pose proof (fuelFor_resolved n (thash t) (x :: krest) Hnh). lia.
Qed.

(** The database of a proof grows, and [Put] succeeds. *)
Definition grows (d d' : database) : Prop :=
  ∀ h b, length h = HashLength → db_Get h d = Some b → db_Get h d' = Some b.

Context (Hput : ∀ k v (d : database), is_Some (db_Put k v d)).

Lemma putProof_spec d b : honest d → B b →
  let d' := putProof (Keccak256 b) b d in
  honest d' ∧ grows d d' ∧ db_Get (Keccak256 b) d' = Some b.
Proof.
  intros Hd Hb. cbv zeta. unfold putProof. destruct (Hput (Keccak256 b) b d) as [d' E]. rewrite E. cbn [default].
  assert (∀ h, db_Get h d' = if decide (h = Keccak256 b) then Some b else db_Get h d) as Hg
    by (intros; by apply db_Put_Get).
  split_and!.
  - intros h b' Hl. rewrite Hg. case_decide as Hh; [intros [= <-]; by split|auto].
  - intros h b' Hl Hb'. rewrite Hg. case_decide as Hh; [|done]. subst h. destruct (Hd _ _ Hl Hb') as [Hk Hbb].
    f_equal. by apply (cf_inj B HB).
  - rewrite Hg. by rewrite decide_True.
Qed.

Lemma no_leaf : leaf_ok (h_onleaf proveHasher).
Proof. by intros f [=]. Qed.

Lemma prove_children root n t : rep db root n t → canon t → entries_ok t → (∀ h, n ≠ HashNode h) →
  ∃ c x f, hashChildren_ (fun n db => hash_node (node_depth n) proveHasher n db false) n None = Ok (c, x, None) ∧
    ((∃ k n, c = ShortNode k n f) ∨ (∃ ns, c = FullNode ns f)) ∧
    enc_value (node_value c) = Some (tenc t) ∧ value_ok (node_value c) ∧ flag_ok db root f t.
Proof.
  intros Hr Hc He Hnh.
  assert (∀ n t dbo db, rep db false n t → canon t → entries_ok t → linked B dbo db → (is_Some dbo → enc_in B t) →
    hash_post B false t dbo db (hash_node (node_depth n) proveHasher n dbo false)) as Hh.
  { intros. by apply (hash_node_spec B HB proveHasher no_leaf). }
  assert (∀ f, children_post B root t None db f
      (hashChildren_ (fun n db => hash_node (node_depth n) proveHasher n db false) n None) → flag_ok db root f t →
    ∃ c x f, hashChildren_ (fun n db => hash_node (node_depth n) proveHasher n db false) n None = Ok (c, x, None) ∧
    ((∃ k n, c = ShortNode k n f) ∨ (∃ ns, c = FullNode ns f)) ∧
    enc_value (node_value c) = Some (tenc t) ∧ value_ok (node_value c) ∧ flag_ok db root f t) as Hgo.
  { intros f (c & mk & dbo1 & db1 & E & [_ [-> _]] & Hform & Henc & Hok & _) Hf. exists c, (mk f), f. by split_and!. }
  inversion Hr as [|? v|? k n' t' f Hn Hf|? ns ts f Hlen Hns Hf|]; subst; [by inversion Hc|by inversion Hc| | |by edestruct Hnh].
  - apply (Hgo f); [|done]. apply (children_short B); auto; [done|by intros [? [=]]].
  - apply (Hgo f); [|done]. apply (children_full B); auto; [done|by intros [? [=]]].
Qed.

(** One node of the proof: it is written when it is the first or has a hash. *)
Lemma proveNodes_cons first n ns t d : rep db first n t → good B t → (∀ h, n ≠ HashNode h) → honest d →
  ∃ d1, proveNodes first (n :: ns) 0 d = proveNodes false ns 0 d1 ∧ honest d1 ∧ grows d d1 ∧
    (first = true ∨ 32 ≤ strlen (tenc t) → db_Get (thash t) d1 = Some (tenc t)).
Proof.
  intros Hr (Hc & He & HBt) Hnh Hd. cbn [proveNodes].
  destruct (prove_children first n t Hr Hc He Hnh) as (c & x & f & -> & Hform & Henc & Hok & Hf). rewrite bind_Ok.
  rewrite (store_eq proveHasher false t None c f) by (done || by eapply flag_hash).
  pose proof (tenc_length t Hc He) as Hlen.
  destruct (Encode_spec _ _ Hok Henc) as (Eenc & _); [unfold maxEnc, two64 in *; lia|].
  destruct (putProof_spec d (tenc t) Hd (enc_in_self _ _ HBt)) as (Hd1 & Hg1 & Hget).
  change (Keccak256 (tenc t)) with (thash t) in *.
  destruct (Z.ltb_spec (strlen (tenc t)) 32) as [Hs|Hs]; cbn [andb negb]; rewrite bind_Ok; cbv zeta.
  - assert (hash_of c = None) as -> by (by destruct Hform as [(k & n' & ->)|(ns' & ->)]).
    cbn [is_Some]. rewrite bool_decide_eq_false_2 by (by intros [? [=]]). destruct first; cbn [orb].
    + cbn [Z.ltb Z.compare]. rewrite Eenc, bind_Ok. cbn [default]. by eexists.
    + exists d. split_and!; [done|done|by intros ?|]. intros [?|?]; [done|lia].
  - cbn [hash_of]. rewrite bool_decide_eq_true_2 by done. cbn [orb Z.ltb Z.compare].
    rewrite Eenc, bind_Ok. cbn [default]. by eexists.
Qed.

Lemma grows_trans d1 d2 d3 : grows d1 d2 → grows d2 d3 → grows d1 d3.
Proof. intros H1 H2 h b Hl Hb. auto. Qed.

Definition path_in (first : bool) (t : tree) (key : list Z) (d : database) : Prop :=
  ∀ t', on_path t key t' → canon t' → (first = true ∧ t' = t) ∨ 32 ≤ strlen (tenc t') →
    db_Get (thash t') d = Some (tenc t').

Lemma path_in_grows first t c key key0 d1 d2 :
  (∀ t', on_path t key t' → t' = t ∨ on_path c key0 t') → grows d1 d2 →
  (first = true ∨ 32 ≤ strlen (tenc t) → db_Get (thash t) d1 = Some (tenc t)) →
  path_in false c key0 d2 → path_in first t key d2.
Proof.
  intros Hp Hg H1 H2 t' Ht' Hc Hs.
  assert (first = true ∨ 32 ≤ strlen (tenc t) → db_Get (thash t) d2 = Some (tenc t)) as Ht.
  { intros Hf. apply Hg; [apply Keccak256_length|auto]. }
  destruct Hs as [[-> ->]|Hs]; [auto|]. destruct (Hp t' Ht') as [->|Hc']; [auto|]. apply H2; auto.
Qed.

Lemma on_path_short k t key t' : on_path (TShort k t) (k ++ key) t' → t' = TShort k t ∨ on_path t key t'.
Proof.
  inversion 1; subst; [by left|]. match goal with E : k ++ _ = k ++ _ |- _ => apply (inj (k ++.)) in E as -> end. by right.
Qed.

Lemma on_path_full cs x c key t' : 0 ≤ x → cs !! Z.to_nat x = Some c → on_path (TFull cs) (x :: key) t' →
  t' = TFull cs ∨ on_path c key t'.
Proof. intros Hx Hl. inversion 1 as [| |? ? c' ? ? _ Hl' Hp]; subst; [by left|right]. rewrite Hl in Hl'. by injection Hl' as ->. Qed.

Lemma proveNodes_spec first t key ns d : proved first t key ns → child_pos t → (canon t → good B t) → honest d →
  ∃ d', proveNodes first ns 0 d = Ok d' ∧ honest d' ∧ grows d d' ∧ path_in first t key d'.
Proof.
  intros Hp. revert d.
  induction Hp as [root t key Ht|root k t key n Hk Hr Hnh|root k t key n ns Hr Hnh _ IH|root cs x c key n ns Hr Hnh Hx Hl _ IH];
    intros d Hpos Hg Hd.
  - exists d. split_and!; [done|done|by intros ?|]. intros t' Hpt Hc _.
    destruct Ht as [->|[v ->]]; inversion Hpt; subst; [by apply canon_not_nil in Hc|by apply canon_not_value in Hc].
  - assert (canon (TShort k t)) as Hc by (by destruct Hpos as [?|[[? ?]|?]]).
    destruct (proveNodes_cons root n [] (TShort k t) d) as (d1 & -> & Hd1 & Hg1 & Hget); [done|auto|done|done|].
    exists d1. split_and!; [done|done|done|]. intros t' Hpt Hc' Hs.
    inversion Hpt as [|? ? k' ? Hpk|]; subst; [|by destruct (Hk k')]. apply Hget. destruct Hs as [[? _]|?]; auto.
  - assert (canon (TShort k t)) as Hc by (by destruct Hpos as [?|[[? ?]|?]]).
    destruct (proveNodes_cons root n ns (TShort k t) d) as (d1 & -> & Hd1 & Hg1 & Hget); [done|auto|done|done|].
    destruct (IH d1) as (d2 & -> & Hd2 & Hg2 & Hp2); [| |done|].
    + inversion Hc; subst; [right; left; eauto|by right; right].
    + intros Hct. specialize (Hg Hc). destruct t; inversion Hct; subst; inversion Hc; subst. by eapply good_short.
    + exists d2. split_and!; [done|done|by eapply grows_trans|].
      eapply (path_in_grows root (TShort k t) t); [by apply on_path_short|done|done|done].
  - assert (canon (TFull cs)) as Hc by (by destruct Hpos as [?|[[? ?]|?]]).
    destruct (proveNodes_cons root n ns (TFull cs) d) as (d1 & -> & Hd1 & Hg1 & Hget); [done|auto|done|done|].
    destruct (IH d1) as (d2 & -> & Hd2 & Hg2 & Hp2); [by eapply full_child_pos| |done|].
    + intros Hct. by eapply good_full; [apply Hg| |].
    + exists d2. split_and!; [done|done|by eapply grows_trans|].
      eapply (path_in_grows root (TFull cs) c); [intros t'; by apply on_path_full|done|done|done].
Qed.

End Prove.
End Verify.
End Proof_.

(** ** The properties *)

Section Properties.
Context `{HK : Keccak, HD : Database, !KeccakLaws, !EmptyRootLaw}.

Lemma good_tree B m tr : map_ok m → map_in B m → tree_of tr m → canon tr → good B tr.
Proof. intros Hm Hi Ht Hc. split_and!; [done|by eapply contents_entries, Ht|by apply Hi]. Qed.

Lemma verdict_value tr m key v : contents tr m → (∀ w, v = Some w ↔ holds tr (keybytesToHex key) w) → v = m !! key.
Proof. intros Hc Hv. apply option_eq. intros w. by rewrite Hv, (contents_lookup tr m key w). Qed.

(** C25. An accepted proof is right: for the root of a map and any database of
    blobs stored under their hashes, [VerifyProof] terminates without a panic,
    after at most one step per nibble of the key, and what it returns is either
    an error or the value of the key in the map, nil when there is none. *)
Theorem VerifyProof_sound B m r key d fuel : collision_free B → map_ok m → map_in B m → root_of m r →
  honest B d → is_bytes key → (length (keybytesToHex key) < fuel)%nat →
  ∃ res, VerifyProof fuel r key d = Some res ∧ ((∃ e, res = Err e) ∨ ∃ j, res = Ok (m !! key, j)).
Proof.
  intros HB Hm Hi (tr & [Hcan Hc] & ->) Hd Hk Hf. unfold VerifyProof. destruct Hcan as [->|Hcan].
  - destruct fuel as [|fuel]; [lia|]. cbn [VerifyProof_loop]. destruct (db_Get (thash TNil) d) as [buf|] eqn:Eg; [|eauto].
    destruct (Hd _ _ (Keccak256_length _) Eg) as [Eh Hbuf].
    apply (cf_inj B HB [128] buf) in Eh as <-; [|apply (cf_empty B HB)|done]. eexists. split; [reflexivity|eauto].
  - assert (good B tr) as Hg by (eapply good_tree; [done|done|by split; [right|]|done]).
    destruct (VerifyProof_loop_spec B HB fuel tr (keybytesToHex key) d 0 Hg) as (res & -> & Hv);
      [by apply vkey_keybytes|done|done|].
    exists res. split; [done|]. destruct Hv as [(j & t' & -> & _)|(v & j & -> & Hv)]; [eauto|].
    right. exists j. by rewrite (verdict_value tr m key v).
Qed.

(** C26. The prover convinces the verifier: for a trie that is not empty, and any
    key, in the trie or not, [Prove] from level 0 succeeds, and [VerifyProof]
    accepts its nodes with the value of the key, nil when there is none. *)
Theorem Prove_VerifyProof B db t m key d0 fuel : collision_free B → trie_ok db t m → map_in B m → m ≠ ∅ →
  is_bytes key → honest B d0 → (∀ k v (d : database), is_Some (db_Put k v d)) →
  (length (keybytesToHex key) < fuel)%nat →
  ∃ d r j, Prove db key 0 t d0 = Ok d ∧ root_of m r ∧ VerifyProof fuel r key d = Some (Ok (m !! key, j)).
Proof.
  intros HB (Hm & tr & Hr & Hcan & Hc) Hi Hne Hk Hd0 Hput Hf. unfold Prove, VerifyProof. cbv zeta.
  assert (canon tr) as Hct.
  { destruct Hcan as [->|?]; [|done]. destruct Hne. apply map_eq. intros k. apply option_eq. intros v.
    rewrite <- (contents_lookup TNil m k v Hc), lookup_empty. split; [by intros ?%holds_nil_inv|done]. }
  assert (good B tr) as Hg by (eapply good_tree; [done|done|by split; [right|]|done]).
  destruct (provePath_spec db (opFuel (keybytesToHex key)) (t_cachegen t) true (t_root t) tr (keybytesToHex key))
    as (ns & -> & Hp); [done|apply Hg|by apply canon_at_key| |].
  { pose proof (fuelFor_le (t_root t) (keybytesToHex key)). unfold opFuel. lia. }
  rewrite bind_Ok.
  destruct (proveNodes_spec B HB db Hput true tr (keybytesToHex key) ns d0 Hp) as (d & -> & Hd & _ & Hin);
    [by right; right|done|done|].
  destruct (VerifyProof_loop_spec B HB fuel tr (keybytesToHex key) d 0 Hg) as (res & Hv & Hverd);
    [by apply vkey_keybytes|done|done|].
  exists d, (thash tr). destruct Hverd as [(j & t' & -> & Hpath & Hc' & Hs & Hnone)|(v & j & -> & Hval)].
  - rewrite (Hin t' Hpath Hc') in Hnone; [done|]. destruct Hs as [->|?]; auto.
  - exists j. split_and!; [done|by exists tr|]. by rewrite Hv, (verdict_value tr m key v).
Qed.

(** A node with an empty key crashes the decoder: [decodeShort] passes the
    empty string to [compactToHex], which reads its first byte.  The three
    bytes of the list of two empty strings are such a node, and a proof with it
    makes [VerifyProof] panic where an undecodable node is an error. *)
Theorem empty_key_panics r key d fuel : db_Get r d = Some [194; 128; 128] →
  VerifyProof (S fuel) r key d = Some Panic.
Proof. intros Hg. unfold VerifyProof. cbn [VerifyProof_loop]. by rewrite Hg. Qed.

End Properties.
