(* ===== verification/TrieDemo.v ===== *)
(** * Tries: concrete runs

    Instances of the interfaces, a trie of three entries, one of which is too
    long to be embedded, and the theorems on tries applied to it. *)

From S2P Require Import Prelude Types Interfaces Rlp TrieEncoding TrieNode Trie TrieSpec TrieHash TrieMap TrieProof.
From stdpp Require Import base tactics option numbers list gmap.
From Stdlib Require Import ZArith Lia.

#[local] Open Scope Z_scope.

(** ** Trees of nodes that are all in memory *)

Fixpoint erase (n : node) : option tree :=
  match n with
  | NilNode => Some TNil
  | ValueNode v => Some (TValue v)
  | ShortNode k n _ => TShort k <$> erase n
  | FullNode ns _ => TFull <$> mapM erase ns
  | HashNode _ => None
  end.

Lemma erase_rep `{Keccak, Database, !KeccakLaws} db root n t : rep db root n t → ∀ t', erase n = Some t' → t' = t.
Proof.
  induction 1 as [|root v|root k n t f Hn IH Hf|root ns ts f Hlen Hns IH Hf|]; intros t' E; cbn in E.
  - by injection E.
  - by injection E.
  - apply fmap_Some in E as (t2 & E & ->). by rewrite (IH t2 E).
  - apply fmap_Some in E as (ts2 & E & ->). f_equal. apply mapM_Some_1 in E.
    apply list_eq_same_length with (length ns); [done|by apply Forall2_length in E|].
    intros i x y Hi Hx Hy. destruct (Forall2_lookup_r _ _ _ _ _ E Hx) as (n & Hn & En). eauto.
  - done.
Qed.

Fixpoint blobs_of `{Keccak} (t : tree) : list (list Z) :=
  match t with
  | TNil | TValue _ => []
  | TShort _ c => tenc t :: blobs_of c
  | TFull cs => tenc t :: concat (blobs_of <$> cs)
  end.

Lemma blobs_of_enc_in `{Keccak} (B : list Z → Prop) t : canon t → (∀ b, b ∈ blobs_of t → B b) → enc_in B t.
Proof.
  induction 1 as [k v Hk|k cs Hne Hk Hcs IH|cs Hlen H2 Hi IH Hv]; intros HB.
  - apply in_short; [apply HB; by left|by intros ?%canon_not_value].
  - apply in_short; [apply HB; by left|]. intros _. apply IH. intros b Hb. apply HB. by right.
  - apply in_full; [apply HB; by left|]. intros i c Hl Hc.
    destruct (canon_full_child cs i c) as [[Hlt _]|[_ [v ->]]];
      [by apply canon_full|done|by intros ->; apply canon_not_nil in Hc| |by apply canon_not_value in Hc].
    apply (IH i); [done|done|by intros ->; apply canon_not_nil in Hc|]. intros b Hb. apply HB. right.
    apply list_elem_of_In, in_concat. exists (blobs_of c). split; [|by apply list_elem_of_In].
    apply list_elem_of_In, list_elem_of_fmap_2. by eapply list_elem_of_lookup_2.
Qed.

Module DemoTrie.

(** A checksum of 32 bytes, with the value of [emptyRoot] where it has to be. *)
Definition checksum_from (a : Z) (b : list Z) : Z := fold_left (fun acc x => (acc * 263 + x + 1) mod 16777213) b a.

Definition checksum (b : list Z) : Hash :=
  let s := checksum_from 1 b in replicate 29 9 ++ [s / 65536; s / 256 mod 256; s mod 256].

#[local] Instance demoKeccak : Keccak := {|
  Keccak256 b := if bool_decide (b = [128]) then emptyRoot else checksum b
|}.

Lemma checksum_from_range b a : 0 ≤ a < 16777213 → 0 ≤ checksum_from a b < 16777213.
Proof.
  revert a. induction b as [|x b IH]; intros a Ha; [done|]. apply IH, Z.mod_pos_bound. lia.
Qed.

Lemma checksum_ok b : length (checksum b) = HashLength ∧ is_bytes (checksum b).
Proof.
  unfold checksum. pose proof (checksum_from_range b 1 ltac:(lia)) as Hs. split; [done|].
  apply Forall_app. split; [by apply (bool_decide_unpack (Forall (λ x, 0 ≤ x < 256) _)); vm_compute|].
  repeat constructor; Z.to_euclidean_division_equations; lia.
Qed.

#[local] Instance demoKeccakLaws : KeccakLaws.
Proof.
  split; intros b; cbn; case_bool_decide; try apply checksum_ok; [done|].
  by apply (bool_decide_unpack (Forall (λ x, 0 ≤ x < 256) _)); vm_compute.
Qed.

#[local] Instance demoEmptyRoot : EmptyRootLaw.
Proof. done. Qed.

#[local] Program Instance demoDatabase : Database := {|
  database := gmap (list Z) (list Z);
  db_Get k d := d !! k;
  db_Put k v d := Some (<[k := v]> d)
|}.
Next Obligation.
  intros k v d d' k' [= <-]. case_decide; subst; [apply lookup_insert_eq|by apply lookup_insert_ne].
Qed.

(** ** The run *)

Definition k1 : list Z := [18; 52].
Definition k2 : list Z := [18; 53].
Definition k3 : list Z := [128].

Definition fill : list trieOp :=
  [OpUpdate k1 (replicate 40 7); OpUpdate k2 [5]; OpUpdate k3 [1; 2]].

Definition db0 : TrieDB := NewDatabase ∅.
Definition trie0 : Trie := mkTrie NilNode zeroHash 0 0.

Definition map1 : gmap (list Z) (list Z) := foldl map_after ∅ fill.
Definition map2 : gmap (list Z) (list Z) := delete k2 map1.

Definition end_of (ops : list trieOp) : Trie * TrieDB :=
  match run ops trie0 db0 with Ok (t, db, _) => (t, db) | _ => (trie0, db0) end.

Definition tree_after (ops : list trieOp) : option tree := erase (t_root (end_of ops).1).

Definition tree1 : tree := Eval vm_compute in default TNil (tree_after fill).
Definition tree2 : tree := Eval vm_compute in default TNil (tree_after (fill ++ [OpDelete k2])).
Definition blobs : list (list Z) := Eval vm_compute in [128] :: blobs_of tree1 ++ blobs_of tree2.

Definition B (b : list Z) : Prop := b ∈ blobs.

Lemma demo_collision_free : collision_free B.
Proof.
  assert (bool_decide (Forall (λ b1, Keccak256 b1 ≠ zeroHash ∧ Forall (λ b2, Keccak256 b1 = Keccak256 b2 → b1 = b2) blobs) blobs) = true)
    as Hb by (vm_compute; reflexivity).
  apply bool_decide_eq_true in Hb. rewrite Forall_forall in Hb. split.
  - by left.
  - intros b1 b2 H1 H2. destruct (Hb b1 H1) as [_ Hf]. rewrite Forall_forall in Hf. by apply Hf.
  - intros b Hin. apply (Hb b Hin).
Qed.

Lemma demo_db_ok : db_ok B db0.
Proof.
  split.
  - intros h b _. unfold tdb_Node, db0. cbn [tdb_nodes NewDatabase tdb_disk].
    destruct (_ !! h) eqn:E; [by apply lookup_singleton_Some in E as [_ <-]|]. cbn. by rewrite lookup_empty.
  - intros h c Hc _. change (({[zeroHash := mkCached None 0 ∅]} : gmap Hash cachedNode) !! h = Some c) in Hc.
    by apply lookup_singleton_Some in Hc as [<- _].
Qed.

(** Bytes and sizes of concrete keys and values. *)
Ltac bytes := apply (bool_decide_unpack (Forall (λ x, 0 ≤ x < 256) _)); vm_compute; exact I.

Lemma fill_ok : ops_ok B ∅ fill.
Proof. unfold fill. cbn [ops_ok op_ok]. unfold key_ok. split_and!; try done; first [bytes | vm_compute; reflexivity]. Qed.

Lemma fill_delete_ok : ops_ok B ∅ (fill ++ [OpDelete k2]).
Proof. apply ops_ok_app. split; [apply fill_ok|]. split; [bytes|done]. Qed.

Lemma demo_trie0 : trie_ok db0 trie0 ∅.
Proof.
  split; [apply map_Forall_empty|]. exists TNil. split_and!; [apply rep_nil|by left|].
  intros k v. split; [inversion 1|]. by intros (? & _ & ?%lookup_empty_Some).
Qed.

(** The tree of a map that a run ends with. *)
Lemma run_tree ops tr : ops_ok B ∅ ops → tree_after ops = Some tr →
  trie_ok (end_of ops).2 (end_of ops).1 (foldl map_after ∅ ops) ∧ db_ok B (end_of ops).2 ∧ tree_of tr (foldl map_after ∅ ops).
Proof.
  unfold tree_after, end_of. intros Hops.
  destruct (run_ok B demo_collision_free ops db0 trie0 ∅ demo_trie0 demo_db_ok Hops) as (t & db & os & -> & _ & Ht & Hdb).
  cbn [fst snd]. intros Ee. split; [done|]. split; [done|].
  destruct Ht as (_ & tr' & Hr & Hcan & Hc). rewrite (erase_rep _ _ _ _ Hr tr Ee). by split.
Qed.

Lemma map_in_tree m tr : tree_of tr m → (∀ b, b ∈ blobs_of tr → B b) → map_in B m.
Proof.
  intros Ht Hb tr' Ht' Hc. rewrite (tree_of_unique tr' tr m) in * by done. by apply blobs_of_enc_in.
Qed.

Lemma demo_tree1 : trie_ok (end_of fill).2 (end_of fill).1 map1 ∧ db_ok B (end_of fill).2 ∧ tree_of tree1 map1.
Proof. apply (run_tree fill tree1); [apply fill_ok|vm_compute; reflexivity]. Qed.

Lemma demo_map1 : trie_ok (end_of fill).2 (end_of fill).1 map1 ∧ map_in B map1.
Proof.
  destruct demo_tree1 as (Ht & _ & Htr). split; [done|].
  apply (map_in_tree map1 tree1); [done|]. intros b Hb. apply list_elem_of_further.
  change (b ∈ blobs_of tree1 ++ blobs_of tree2). apply elem_of_app. by left.
Qed.

Lemma demo_map2 : trie_ok (end_of (fill ++ [OpDelete k2])).2 (end_of (fill ++ [OpDelete k2])).1 map2 ∧ map_in B map2.
Proof.
  destruct (run_tree (fill ++ [OpDelete k2]) tree2) as (Ht & _ & Htr); [apply fill_delete_ok|vm_compute; reflexivity|]. split; [done|].
  apply (map_in_tree map2 tree2); [done|]. intros b Hb. apply list_elem_of_further.
  change (b ∈ blobs_of tree1 ++ blobs_of tree2). apply elem_of_app. by right.
Qed.

Definition demoOps : list trieOp := fill ++ [OpCommit; OpGet k2; OpDelete k2; OpHash; OpGet k2].

Lemma demo_ops_ok : ops_ok B ∅ demoOps.
Proof.
  apply ops_ok_app. split; [apply fill_ok|]. split; [apply demo_map1|]. split; [bytes|]. split; [bytes|].
  split; [exact I|]. split; [bytes|exact I].
Qed.

Lemma trie_refines_map_witness : ∃ t0 t db' os, New zeroHash db0 = Ok t0 ∧ run demoOps t0 db0 = Ok (t, db', os) ∧
  shows_all ∅ demoOps os ∧ trie_ok db' t (foldl map_after ∅ demoOps) ∧ db_ok B db'.
Proof. apply (trie_refines_map B db0 demoOps demo_collision_free demo_db_ok demo_ops_ok). Defined.

Lemma root_identifies_contents_witness :
  ∃ t1' t2' r1 r2, Trie_Hash (end_of fill).1 = Ok (t1', r1) ∧ Trie_Hash (end_of (fill ++ [OpDelete k2])).1 = Ok (t2', r2) ∧
    (r1 = r2 ↔ map1 = map2).
Proof.
  exact (root_identifies_contents B _ _ map1 _ _ map2 demo_collision_free (proj1 demo_map1) (proj1 demo_map2)
    (proj2 demo_map1) (proj2 demo_map2)).
Defined.

Lemma Commit_New_roundtrip_witness :
  ∃ t' db' r, Commit None (end_of fill).1 (end_of fill).2 = Ok (t', db', r) ∧ trie_ok db' t' map1 ∧
    ∀ db2, extends db' db2 → ∃ t2, New r db2 = Ok t2 ∧ trie_ok db2 t2 map1.
Proof.
  apply (Commit_New_roundtrip B (end_of fill).2 (end_of fill).1 map1 None demo_collision_free (proj1 demo_tree1)
    (proj1 (proj2 demo_tree1))); [by intros ? [=]|apply demo_map1].
Defined.

(** A proof of the absence of a key next to [k1]. *)
Definition absent : list Z := [18; 60].

Definition emptyDb : database := (∅ : gmap (list Z) (list Z)).

Definition demoProof : database :=
  match Prove (end_of fill).2 absent 0 (end_of fill).1 emptyDb with Ok d => d | _ => emptyDb end.

Lemma honest_dec (d : gmap (list Z) (list Z)) :
  bool_decide (map_Forall (λ h b, h = Keccak256 b ∧ b ∈ blobs) d) = true → honest B d.
Proof. intros Hd h b _ Hg. apply bool_decide_eq_true in Hd. by apply (Hd h b). Qed.

Lemma VerifyProof_sound_witness :
  ∃ res, VerifyProof 10 (thash tree1) absent demoProof = Some res ∧ ((∃ e, res = Err e) ∨ ∃ j, res = Ok (map1 !! absent, j)).
Proof.
  apply (VerifyProof_sound B map1 (thash tree1) absent demoProof 10 demo_collision_free).
  - apply demo_tree1.
  - apply demo_map1.
  - exists tree1. split; [apply demo_tree1|done].
  - apply honest_dec. vm_compute. reflexivity.
  - bytes.
  - vm_compute. lia.
Defined.

Lemma Prove_VerifyProof_witness :
  ∃ d r j, Prove (end_of fill).2 k1 0 (end_of fill).1 emptyDb = Ok d ∧ root_of map1 r ∧
    VerifyProof 10 r k1 d = Some (Ok (map1 !! k1, j)).
Proof.
  apply (Prove_VerifyProof B (end_of fill).2 (end_of fill).1 map1 k1 emptyDb 10 demo_collision_free).
  - apply demo_tree1.
  - apply demo_map1.
  - intros E. apply (f_equal (lookup k3)) in E. by vm_compute in E.
  - bytes.
  - apply (honest_dec ∅). reflexivity.
  - intros k v d. by eexists.
  - vm_compute. lia.
Defined.

Definition badProof : database := ({[zeroHash := [194; 128; 128]]} : gmap (list Z) (list Z)).

Lemma empty_key_panics_witness : VerifyProof 10 zeroHash k1 badProof = Some Panic.
Proof. apply (empty_key_panics zeroHash k1 badProof 9). apply lookup_singleton_eq. Defined.

End DemoTrie.
