(* ===== verification/TrieGC.v ===== *)
(** * The node database: references, collection and disk
    (src/fast/database.go, src/data/interface.go, src/data/memory_database.go)

    Nodes that are not on disk yet are kept in memory with reference counts.
    [Dereference] drops a reference and frees what is no longer referenced;
    [Commit] writes a trie to disk and drops it from memory.  Neither loses a
    node that can still be reached. *)

From S2P Require Import Prelude Types Interfaces Rlp TrieEncoding TrieNode Trie.
From stdpp Require Import base tactics option numbers list gmap.
From Stdlib Require Import ZArith Lia.

#[local] Open Scope Z_scope.

(** ** Batches *)

(** The last value that a list of writes gives to a key. *)
Fixpoint last_value (k : list Z) (writes : list (list Z * list Z)) : option (list Z) :=
  match writes with
  | [] => None
  | (k', v) :: writes =>
      match last_value k writes with Some v => Some v | None => if decide (k' = k) then Some v else None end
  end.

(** The interface [epvdb.Batch]: writes are collected, and done by [Write]. *)
Class Batches `{Database} := {
  batch : Type;
  NewBatch : batch;
  batch_Put : list Z → list Z → batch → option batch;
  batch_ValueSize : batch → Z;
  batch_Write : batch → database → option database;
  batch_Reset : batch → batch;
  batch_writes : batch → list (list Z * list Z);
  NewBatch_writes : batch_writes NewBatch = [];
  batch_Put_writes : ∀ k v b b', batch_Put k v b = Some b' → batch_writes b' = batch_writes b ++ [(k, v)];
  batch_Reset_writes : ∀ b, batch_writes (batch_Reset b) = [];
  batch_Write_Get : ∀ b d d' k, batch_Write b d = Some d' →
    db_Get k d' = match last_value k (batch_writes b) with Some v => Some v | None => db_Get k d end
}.

Definition IdealBatchSize : Z := 100 * 1024.

(** ** The memory database (memory_database.go) *)

Module MemDatabase.

Notation MemDatabase := (gmap (list Z) (list Z)).

Definition NewMemDatabase : MemDatabase := ∅.
Definition Put (key value : list Z) (db : MemDatabase) : option MemDatabase := Some (<[key := value]> db).
Definition Has (key : list Z) (db : MemDatabase) : bool := bool_decide (is_Some (db !! key)).
Definition Get (key : list Z) (db : MemDatabase) : option (list Z) := db !! key.
Definition Keys (db : MemDatabase) : list (list Z) := (map_to_list db).*1.
Definition Delete (key : list Z) (db : MemDatabase) : MemDatabase := delete key db.
Definition Len (db : MemDatabase) : nat := size db.

(** [memBatch] *)
Record memBatch := mkBatch { writes : list (list Z * list Z); mb_size : Z }.

Definition NewMemBatch : memBatch := mkBatch [] 0.
Definition batchPut (key value : list Z) (b : memBatch) : option memBatch :=
  Some (mkBatch (writes b ++ [(key, value)]) (mb_size b + strlen value)).
Definition batchWrite (b : memBatch) (db : MemDatabase) : option MemDatabase :=
  Some (foldl (fun db '(k, v) => <[k := v]> db) db (writes b)).
Definition ValueSize (b : memBatch) : Z := mb_size b.
Definition batchReset (b : memBatch) : memBatch := mkBatch [] 0.

#[export] Program Instance memDatabase : Database := {| database := MemDatabase; db_Get := Get; db_Put := Put |}.
Next Obligation.
  intros k v d d' k' [= <-]. unfold Get. case_decide; subst; [apply lookup_insert_eq|by apply lookup_insert_ne].
Qed.

Lemma foldl_writes l : ∀ (d : gmap (list Z) (list Z)) k,
  foldl (fun db '(k, v) => <[k := v]> db) d l !! k = match last_value k l with Some v => Some v | None => d !! k end.
Proof.
  induction l as [|[k' v] l IH]; intros d k; [done|]. cbn [foldl last_value]. rewrite IH. destruct (last_value k l); [done|].
  case_decide; subst; [by rewrite lookup_insert_eq|by rewrite lookup_insert_ne].
Qed.

#[export] Program Instance memBatches : Batches := {|
  batch := memBatch; NewBatch := NewMemBatch; batch_Put := batchPut; batch_ValueSize := ValueSize;
  batch_Write := batchWrite; batch_Reset := batchReset; batch_writes := writes
|}.
Next Obligation. done. Qed.
Next Obligation. by intros k v b b' [= <-]. Qed.
Next Obligation. done. Qed.
Next Obligation. intros b d d' k [= <-]. apply foldl_writes. Qed.

End MemDatabase.

Section GC.
Context `{HK : Keccak, HD : Database, HB : !Batches}.

(** ** Dereferencing *)

Notation nodeMap := (gmap Hash cachedNode).

Definition with_children (f : gmap Hash Z → gmap Hash Z) (n : cachedNode) : cachedNode :=
  mkCached (cn_blob n) (cn_parents n) (f (cn_children n)).
Definition with_parents (k : Z) (n : cachedNode) : cachedNode := mkCached (cn_blob n) k (cn_children n).

(** The count of [child] goes down by one, and its entry at zero. *)
Definition drop_child (child : Hash) (children : gmap Hash Z) : gmap Hash Z :=
  let k := default 0 (children !! child) - 1 in
  if k =? 0 then delete child children else <[child := k]> children.

(** [dereference]; the loop visits the children in the order of the map. *)
Fixpoint dereference (fuel : nat) (child parent : Hash) (nodes : nodeMap) : outcome Empty_set nodeMap :=
  match fuel with
  | O => Panic
  | S fuel =>
      node ← deref (nodes !! parent);
      let nodes := <[parent := with_children (drop_child child) node]> nodes in
      match nodes !! child with
      | None => Ok nodes
      | Some node =>
          let node := with_parents (cn_parents node - 1) node in
          let nodes := <[child := node]> nodes in
          if cn_parents node =? 0 then
            nodes ← (fix loop (hashes : list Hash) (nodes : nodeMap) : outcome Empty_set nodeMap :=
                       match hashes with
                       | [] => Ok nodes
                       | hash :: hashes => nodes ← dereference fuel hash child nodes; loop hashes nodes
                       end) (map_to_list (cn_children node)).*1 nodes;
            Ok (delete child nodes)
          else Ok nodes
      end
  end.

(** A bound for the depth of the recursion: every level takes the count of one
    more node to zero. *)
Definition live (nodes : nodeMap) : gset Hash := dom (filter (fun '(_, n) => 0 < cn_parents n) nodes).

Definition Dereference (child parent : Hash) (db : TrieDB) : outcome Empty_set TrieDB :=
  nodes ← dereference (S (size (live (tdb_nodes db)))) child parent (tdb_nodes db);
  Ok (set_nodes nodes db).

(** ** Committing *)

Inductive dbError := PutError | WriteError.

Notation cres := (outcome dbError).

Definition put (key value : list Z) (b : batch) : cres batch :=
  match batch_Put key value b with Some b => Ok b | None => Err PutError end.

Definition write (b : batch) (disk : database) : cres database :=
  match batch_Write b disk with Some d => Ok d | None => Err WriteError end.

(** The loop over the preimages.  The flag says whether the error leaves the
    read lock held: a failed write returns without releasing it. *)
Fixpoint commitPreimages (l : list (Hash * list Z)) (b : batch) (disk : database) : bool * database * cres batch :=
  match l with
  | [] => (false, disk, Ok b)
  | (hash, pre) :: l =>
      match put (secureKey hash) pre b with
      | Ok b =>
          if IdealBatchSize <? batch_ValueSize b then
            match write b disk with
            | Ok disk => commitPreimages l (batch_Reset b) disk
            | Err e => (true, disk, Err e)
            | Panic => (false, disk, Panic)
            end
          else commitPreimages l b disk
      | Err e => (false, disk, Err e)
      | Panic => (false, disk, Panic)
      end
  end.

(** [commit]: children first.  The bytes of a node are written; the metaroot,
    which has none, is never committed. *)
Fixpoint commit (fuel : nat) (nodes : nodeMap) (hash : Hash) (b : batch) (disk : database) : database * cres batch :=
  match fuel with
  | O => (disk, Panic)
  | S fuel =>
      match nodes !! hash with
      | None => (disk, Ok b)
      | Some node =>
          match (fix loop (hashes : list Hash) (b : batch) (disk : database) : database * cres batch :=
                   match hashes with
                   | [] => (disk, Ok b)
                   | h :: hashes =>
                       match commit fuel nodes h b disk with
                       | (disk, Ok b) => loop hashes b disk
                       | r => r
                       end
                   end) (map_to_list (cn_children node)).*1 b disk with
          | (disk, Ok b) =>
              match put hash (default [] (cn_blob node)) b with
              | Ok b =>
                  if IdealBatchSize <=? batch_ValueSize b then
                    match write b disk with
                    | Ok disk => (disk, Ok (batch_Reset b))
                    | Err e => (disk, Err e)
                    | Panic => (disk, Panic)
                    end
                  else (disk, Ok b)
              | Err e => (disk, Err e)
              | Panic => (disk, Panic)
              end
          | r => r
          end
      end
  end.

Fixpoint uncache (fuel : nat) (hash : Hash) (nodes : nodeMap) : outcome Empty_set nodeMap :=
  match fuel with
  | O => Panic
  | S fuel =>
      match nodes !! hash with
      | None => Ok nodes
      | Some node =>
          nodes ← (fix loop (hashes : list Hash) (nodes : nodeMap) : outcome Empty_set nodeMap :=
                     match hashes with
                     | [] => Ok nodes
                     | h :: hashes => nodes ← uncache fuel h nodes; loop hashes nodes
                     end) (map_to_list (cn_children node)).*1 nodes;
          Ok (delete hash nodes)
      end
  end.

Definition set_disk (disk : database) (db : TrieDB) : TrieDB := mkTrieDB disk (tdb_nodes db) (tdb_preimages db).

(** [Commit]: whether the read lock is still held, the database, and the
    result.  [fuel] bounds the depth of the trie. *)
Definition Database_Commit (fuel : nat) (node : Hash) (db : TrieDB) : bool * TrieDB * cres unit :=
  match commitPreimages (map_to_list (tdb_preimages db)) NewBatch (tdb_disk db) with
  | (_, disk, Ok b) =>
      match commit fuel (tdb_nodes db) node b disk with
      | (disk, Ok b) =>
          match write b disk with
          | Ok disk =>
              match uncache fuel node (tdb_nodes db) with
              | Ok nodes => (false, mkTrieDB disk nodes ∅, Ok tt)
              | _ => (false, set_disk disk db, Panic)
              end
          | Err e => (false, set_disk disk db, Err e)
          | Panic => (false, set_disk disk db, Panic)
          end
      | (disk, Err e) => (false, set_disk disk db, Err e)
      | (disk, Panic) => (false, set_disk disk db, Panic)
      end
  | (held, disk, Err e) => (held, set_disk disk db, Err e)
  | (held, disk, Panic) => (held, set_disk disk db, Panic)
  end.

(** ** Counting references *)

Definition count (n : cachedNode) (c : Hash) : Z := default 0 (cn_children n !! c).

Definition refs (nodes : nodeMap) (c : Hash) : Z := map_fold (fun _ n acc => count n c + acc) 0 nodes.

Lemma refs_delete nodes p n c : nodes !! p = Some n → refs nodes c = count n c + refs (delete p nodes) c.
Proof. intros Hp. unfold refs. apply (map_fold_delete_L (fun _ n acc => count n c + acc)); [lia|done]. Qed.

Lemma refs_insert nodes p n c : nodes !! p = None → refs (<[p := n]> nodes) c = count n c + refs nodes c.
Proof. intros Hp. unfold refs. apply (map_fold_insert_L (fun _ n acc => count n c + acc)); [lia|done]. Qed.

Lemma refs_update nodes p n n' c : nodes !! p = Some n → refs (<[p := n']> nodes) c = refs nodes c - count n c + count n' c.
Proof.
  intros Hp. rewrite (refs_delete nodes p n c Hp). rewrite <- (insert_delete_eq nodes p n').
  rewrite refs_insert by apply lookup_delete_eq. lia.
Qed.

(** Counts are positive, and one for every parent but the metaroot. *)
Definition counts_ok (nodes : nodeMap) : Prop :=
  ∀ p n c k, nodes !! p = Some n → cn_children n !! c = Some k → 1 ≤ k ∧ (p ≠ zeroHash → k = 1).

Lemma count_nonneg nodes p n c : counts_ok nodes → nodes !! p = Some n → 0 ≤ count n c.
Proof. intros Hc Hp. unfold count. destruct (cn_children n !! c) as [k|] eqn:E; [|done]. destruct (Hc p n c k Hp E). cbn. lia. Qed.

Lemma refs_nonneg nodes c : counts_ok nodes → 0 ≤ refs nodes c.
Proof.
  intros Hc. unfold refs. apply (map_fold_weak_ind (fun r m => (∀ p n, m !! p = Some n → 0 ≤ count n c) → 0 ≤ r)); [done| |by intros; eapply count_nonneg].
  intros p n m r Hp IH Hm. specialize (Hm p n) as Hn. rewrite lookup_insert_eq in Hn. specialize (Hn eq_refl).
  assert (0 ≤ r); [|lia]. apply IH. intros p' n' Hp'. apply (Hm p'). rewrite lookup_insert_ne; [done|congruence].
Qed.

Lemma counts_ok_delete nodes p : counts_ok nodes → counts_ok (delete p nodes).
Proof. intros Hc q n c k [_ Hq]%lookup_delete_Some. by eapply Hc. Qed.

Lemma count_le_refs nodes p n c : counts_ok nodes → nodes !! p = Some n → count n c ≤ refs nodes c.
Proof.
  intros Hc Hp. rewrite (refs_delete nodes p n c Hp). pose proof (refs_nonneg _ c (counts_ok_delete nodes p Hc)). lia.
Qed.

(** An edge of the graph in memory. *)
Definition edge (nodes : nodeMap) (p c : Hash) : Prop := ∃ n, nodes !! p = Some n ∧ is_Some (cn_children n !! c).

Lemma edge_refs nodes p c : counts_ok nodes → edge nodes p c → 1 ≤ refs nodes c.
Proof.
  intros Hc (n & Hp & k & Hk). pose proof (count_le_refs nodes p n c Hc Hp) as Hle. unfold count in Hle. rewrite Hk in Hle.
  destruct (Hc p n c k Hp Hk). cbn in Hle. lia.
Qed.

(** ** The invariant *)

Section Inv.
Context (disk : database).

Definition persisted (h : Hash) : Prop := is_Some (db_Get h disk).

(** Counts are right for every node that is not on disk as well, and every
    child of a cached node is cached or on disk. *)
Record gc_inv (nodes : nodeMap) : Prop := {
  gi_counts : counts_ok nodes;
  gi_parents : ∀ c n, nodes !! c = Some n → persisted c ∨ cn_parents n = refs nodes c;
  gi_closed : ∀ p c, edge nodes p c → is_Some (nodes !! c) ∨ persisted c;
  gi_meta : ∀ p, ¬ edge nodes p zeroHash
}.

(** What a call of [dereference] may do to the nodes: the parent loses one
    reference, the nodes that remain keep their bytes and children, and a node
    with no counted parents is not touched further. *)
Record gc_step (child parent : Hash) (nodes nodes' : nodeMap) : Prop := {
  gs_parent : ∀ n, nodes !! parent = Some n → ∃ n', nodes' !! parent = Some n' ∧ cn_blob n' = cn_blob n ∧
    cn_children n' = drop_child child (cn_children n) ∧ cn_parents n' ≤ cn_parents n;
  gs_other : ∀ h n', h ≠ parent → nodes' !! h = Some n' → ∃ n, nodes !! h = Some n ∧ cn_blob n' = cn_blob n ∧
    cn_children n' = cn_children n ∧ cn_parents n' ≤ cn_parents n;
  gs_keeps : ∀ h n, h ≠ parent → nodes !! h = Some n → cn_parents n ≤ 0 → is_Some (nodes' !! h)
}.

Lemma live_lookup nodes h : h ∈ live nodes ↔ ∃ n, nodes !! h = Some n ∧ 0 < cn_parents n.
Proof.
  unfold live. rewrite elem_of_dom. split.
  - intros [n [Hn Hp]%map_lookup_filter_Some]. eauto.
  - intros (n & Hn & Hp). exists n. by apply map_lookup_filter_Some.
Qed.

Lemma live_step child parent nodes nodes' : gc_step child parent nodes nodes' → is_Some (nodes !! parent) → live nodes' ⊆ live nodes.
Proof.
  intros [Hp Ho _] [np Hnp] h (n' & Hn' & Hpos)%live_lookup. apply live_lookup. destruct (decide (h = parent)) as [->|Hne].
  - destruct (Hp np Hnp) as (n'' & E & _ & _ & Hle). rewrite Hn' in E. injection E as <-. exists np. split; [done|lia].
  - destruct (Ho h n' Hne Hn') as (n & Hn & _ & _ & Hle). exists n. split; [done|lia].
Qed.

(** ** One reference less *)

Lemma drop_child_count child n c : (∀ k, cn_children n !! child = Some k → 1 ≤ k) → is_Some (cn_children n !! child) →
  count (with_children (drop_child child) n) c = count n c - (if decide (c = child) then 1 else 0).
Proof.
  intros Hk [k Hc]. specialize (Hk k Hc). unfold count, drop_child. cbn [cn_children with_children]. rewrite Hc.
  change (default 0 (Some k)) with k. destruct (Z.eqb_spec (k - 1) 0) as [E|E]; case_decide as Hd.
  - subst. rewrite lookup_delete_eq, Hc. cbn. lia.
  - rewrite lookup_delete_ne by done. lia.
  - subst. rewrite lookup_insert_eq, Hc. cbn. lia.
  - rewrite lookup_insert_ne by done. lia.
Qed.

Section Drop.
Context (nodes : nodeMap) (child parent : Hash) (n : cachedNode).
Context (Hi : gc_inv nodes) (Hp : nodes !! parent = Some n) (He : is_Some (cn_children n !! child)).

Let nodes1 := <[parent := with_children (drop_child child) n]> nodes.

Lemma drop_refs c : refs nodes1 c = refs nodes c - (if decide (c = child) then 1 else 0).
Proof.
  unfold nodes1. rewrite (refs_update nodes parent n _ c Hp), drop_child_count; [lia| |done].
  intros k Hk. by destruct (gi_counts _ Hi parent n child k Hp Hk).
Qed.

Lemma drop_lookup c k : drop_child child (cn_children n) !! c = Some k →
  ∃ k', cn_children n !! c = Some k' ∧ (c ≠ child → k = k') ∧ (c = child → k = k' - 1 ∧ k ≠ 0).
Proof.
  unfold drop_child. destruct He as [k0 Hk0]. rewrite Hk0. change (default 0 (Some k0)) with k0.
  destruct (Z.eqb_spec (k0 - 1) 0); intros Hk.
  - apply lookup_delete_Some in Hk as [Hne Hk]. exists k. split_and!; [done|done|congruence].
  - apply lookup_insert_Some in Hk as [[<- <-]|[Hne Hk]]; [exists k0; by split_and!|]. exists k. split_and!; [done|done|congruence].
Qed.

Lemma drop_counts : counts_ok nodes1.
Proof.
  intros q nq c k. unfold nodes1. intros [[<- <-]|[Hne Hq]]%lookup_insert_Some Hk; [|by eapply (gi_counts _ Hi)].
  cbn [cn_children with_children] in Hk. destruct (drop_lookup c k Hk) as (k' & Hk' & H1 & H2).
  destruct (gi_counts _ Hi parent n c k' Hp Hk') as [Hle Hone]. destruct (decide (c = child)) as [->|Hc].
  - destruct (H2 eq_refl) as [-> Hnz]. split; [lia|]. intros Hpz. specialize (Hone Hpz). lia.
  - rewrite (H1 Hc). by split.
Qed.

Lemma drop_edge q c : edge nodes1 q c → edge nodes q c.
Proof.
  intros (nq & Hq & k & Hk). unfold nodes1 in Hq. apply lookup_insert_Some in Hq as [[<- <-]|[_ Hq]]; [|by exists nq; eauto].
  destruct (drop_lookup c k Hk) as (k' & Hk' & _). by exists n; eauto.
Qed.

Lemma drop_is_some h : is_Some (nodes1 !! h) ↔ is_Some (nodes !! h).
Proof. unfold nodes1. rewrite lookup_insert_is_Some. split; [|destruct (decide (parent = h)); auto]. intros [<-|[_ ?]]; eauto. Qed.

End Drop.

(** Changing the parent count of a node leaves the references alone. *)
Lemma parents_refs nodes h n k c : nodes !! h = Some n → refs (<[h := with_parents k n]> nodes) c = refs nodes c.
Proof. intros Hh. rewrite (refs_update nodes h n _ c Hh). change (count (with_parents k n) c) with (count n c). lia. Qed.

Lemma parents_counts nodes h n k : counts_ok nodes → nodes !! h = Some n → counts_ok (<[h := with_parents k n]> nodes).
Proof. intros Hc Hh q nq c k' [[<- <-]|[_ Hq]]%lookup_insert_Some; [|by eapply Hc]. intros Hk. by apply (Hc h n c k'). Qed.

Lemma parents_edge nodes h n k q c : nodes !! h = Some n → edge (<[h := with_parents k n]> nodes) q c → edge nodes q c.
Proof. intros Hh (nq & [[<- <-]|[_ Hq]]%lookup_insert_Some & Hk); [by exists n|by exists nq]. Qed.

(** The nodes after the two counts have gone down. *)
Lemma decrement_inv nodes child parent n nc : gc_inv nodes → nodes !! parent = Some n → is_Some (cn_children n !! child) →
  let nodes1 := <[parent := with_children (drop_child child) n]> nodes in
  nodes1 !! child = Some nc → gc_inv (<[child := with_parents (cn_parents nc - 1) nc]> nodes1).
Proof.
  intros Hi Hp He nodes1 Hc. pose proof (drop_counts nodes child parent n Hi Hp He) as Hco.
  assert (∀ h n1, nodes1 !! h = Some n1 → ∃ n0, nodes !! h = Some n0 ∧ cn_parents n0 = cn_parents n1) as Hback.
  { intros h n1 [[<- <-]|[_ Hh]]%lookup_insert_Some; eauto. }
  split.
  - by apply parents_counts.
  - intros c n2 Hl. rewrite parents_refs by done. unfold nodes1. rewrite (drop_refs nodes child parent n Hi Hp He c).
    apply lookup_insert_Some in Hl as [[<- <-]|[Hne Hl]].
    + destruct (Hback _ _ Hc) as (n0 & Hn0 & E0). rewrite decide_True by done. destruct (gi_parents _ Hi child n0 Hn0) as [|Hr]; [by left|].
      right. cbn. lia.
    + destruct (Hback _ _ Hl) as (n0 & Hn0 & E0). rewrite decide_False by done. destruct (gi_parents _ Hi c n0 Hn0) as [|Hr]; [by left|right; lia].
  - intros p c Hed%parents_edge; [|done]. destruct (gi_closed _ Hi p c (drop_edge nodes child parent n Hp He p c Hed)) as [Hs|]; [left|by right].
    rewrite lookup_insert_is_Some. destruct (decide (child = c)); [by left|right; split; [done|]]. by apply drop_is_some.
  - intros p Hed%parents_edge; [|done]. eapply (gi_meta _ Hi), drop_edge; done.
Qed.

(** ** The loop over the children of a dead node *)

(** What the loop has done so far to the node [dead] and to the others. *)
Record loop_step (dead : Hash) (left : list Hash) (nodes nodes' : nodeMap) : Prop := {
  ls_dead : ∃ n', nodes' !! dead = Some n' ∧ cn_parents n' ≤ 0 ∧ ∀ h, is_Some (cn_children n' !! h) ↔ h ∈ left;
  ls_other : ∀ h n', h ≠ dead → nodes' !! h = Some n' → ∃ n, nodes !! h = Some n ∧ cn_blob n' = cn_blob n ∧
    cn_children n' = cn_children n ∧ cn_parents n' ≤ cn_parents n;
  ls_keeps : ∀ h n, h ≠ dead → nodes !! h = Some n → cn_parents n ≤ 0 → is_Some (nodes' !! h)
}.

Lemma loop_step_next dead hash hashes nodes nodes' nodes'' : dead ≠ zeroHash → NoDup (hash :: hashes) → gc_inv nodes' →
  loop_step dead (hash :: hashes) nodes nodes' → gc_step hash dead nodes' nodes'' → loop_step dead hashes nodes nodes''.
Proof.
  intros Hz [Hnin _]%NoDup_cons Hi [(n & Hn & Hpn & Hch) Hlo Hlk] [Hgp Hgo Hgk]. split.
  - destruct (Hgp n Hn) as (n' & Hn' & _ & Hc & Hle). exists n'. split_and!; [done|lia|]. intros h.
    assert (∃ k, cn_children n !! hash = Some k) as [k Hk] by (apply Hch, list_elem_of_here).
    destruct (gi_counts _ Hi dead n hash k Hn Hk) as [_ H1]. specialize (H1 Hz). subst k.
    rewrite Hc. unfold drop_child. rewrite Hk. change (default 0 (Some 1) - 1 =? 0) with true. cbv iota.
    rewrite lookup_delete_is_Some, Hch, elem_of_cons. split; [intros [? [?|?]]; congruence|]. intros Hin. split; [|by right]. by intros ->.
  - intros h n' Hne Hh. destruct (Hgo h n' Hne Hh) as (n1 & Hn1 & E1 & E2 & Hle1). destruct (Hlo h n1 Hne Hn1) as (n0 & Hn0 & E3 & E4 & Hle0).
    exists n0. split_and!; [done|congruence|congruence|lia].
  - intros h n0 Hne Hh Hle. destruct (Hlk h n0 Hne Hh Hle) as [n1 Hn1]. destruct (Hlo h n1 Hne Hn1) as (n0' & Hn0' & _ & _ & Hle1).
    rewrite Hh in Hn0'. injection Hn0' as <-. apply (Hgk h n1); [done|done|lia].
Qed.

(** The dead node, all its references given back, can go. *)
Lemma delete_dead_inv dead nodes n : gc_inv nodes → nodes !! dead = Some n → cn_parents n ≤ 0 →
  (∀ h, is_Some (cn_children n !! h) ↔ h ∈ ([] : list Hash)) → gc_inv (delete dead nodes).
Proof.
  intros Hi Hn Hle Hch.
  assert (∀ c, refs (delete dead nodes) c = refs nodes c) as Hr.
  { intros c. rewrite (refs_delete nodes dead n c Hn). unfold count. destruct (cn_children n !! c) as [k|] eqn:E; [|cbn; lia].
    assert (c ∈ ([] : list Hash)) as []%not_elem_of_nil by (apply Hch; eauto). }
  assert (∀ p c, edge (delete dead nodes) p c → edge nodes p c) as He.
  { intros p c (np & [_ Hp]%lookup_delete_Some & Hk). by exists np. }
  split.
  - by apply counts_ok_delete, Hi.
  - intros c nc [_ Hc]%lookup_delete_Some. rewrite Hr. by apply (gi_parents _ Hi).
  - intros p c Hed%He. destruct (decide (c = dead)) as [->|Hne].
    + right. destruct (gi_parents _ Hi dead n Hn) as [|Heq]; [done|]. pose proof (edge_refs _ _ _ (gi_counts _ Hi) Hed). lia.
    + rewrite lookup_delete_ne by done. by apply (gi_closed _ Hi p).
  - intros p Hed%He. by apply (gi_meta _ Hi p).
Qed.

(** A node whose count is used up was so before: those whose count reaches
    zero are gone. *)
Definition no_new_dead (nodes nodes' : nodeMap) : Prop :=
  ∀ h n', nodes' !! h = Some n' → cn_parents n' ≤ 0 → ∃ n, nodes !! h = Some n ∧ cn_parents n ≤ 0.

#[local] Instance no_new_dead_preorder : PreOrder no_new_dead.
Proof.
  split; [intros nodes h n' ? ?; by exists n'|]. intros x y z Hxy Hyz h n' Hz Hle. destruct (Hyz h n' Hz Hle) as (n & Hn & Hle'). by eapply Hxy.
Qed.

Definition deref_spec (fuel : nat) : Prop := ∀ child parent nodes n, gc_inv nodes → nodes !! parent = Some n →
  is_Some (cn_children n !! child) → cn_parents n ≤ 0 → (size (live nodes) < fuel)%nat →
  ∃ nodes', dereference fuel child parent nodes = Ok nodes' ∧ gc_inv nodes' ∧ gc_step child parent nodes nodes' ∧ no_new_dead nodes nodes'.

Lemma deref_loop_ok fuel dead nodes hashes : deref_spec fuel → dead ≠ zeroHash → ∀ nodes1,
  NoDup hashes → gc_inv nodes1 → loop_step dead hashes nodes nodes1 → (size (live nodes1) < fuel)%nat →
  ∃ nodes2, (fix loop (hashes : list Hash) (nodes : nodeMap) : outcome Empty_set nodeMap :=
               match hashes with
               | [] => Ok nodes
               | hash :: hashes => nodes ← dereference fuel hash dead nodes; loop hashes nodes
               end) hashes nodes1 = Ok nodes2 ∧ gc_inv nodes2 ∧ loop_step dead [] nodes nodes2 ∧ no_new_dead nodes1 nodes2.
Proof.
  intros IH Hz. induction hashes as [|hash hashes IHl]; intros nodes1 Hnd Hi Hl Hs; [by exists nodes1|].
  destruct (ls_dead _ _ _ _ Hl) as (n & Hn & Hle & Hch).
  destruct (IH hash dead nodes1 n Hi Hn) as (nodes2 & E & Hi2 & Hg & Hd); [apply Hch, list_elem_of_here|done|done|].
  rewrite E, bind_Ok. destruct (IHl nodes2) as (nodes3 & E3 & Hi3 & Hl3 & Hd3).
  - by apply NoDup_cons in Hnd as [_ ?].
  - done.
  - by eapply (loop_step_next dead hash hashes nodes nodes1).
  - eapply Nat.le_lt_trans; [|exact Hs]. apply subseteq_size. by eapply live_step; eauto.
  - exists nodes3. split_and!; [done..|by etransitivity].
Qed.

(** The counts of the parent and of the child after the decrements. *)
Lemma decrement_step nodes child parent n nc : nodes !! parent = Some n → cn_parents n ≤ 0 →
  let nodes1 := <[parent := with_children (drop_child child) n]> nodes in nodes1 !! child = Some nc →
  gc_step child parent nodes (<[child := with_parents (cn_parents nc - 1) nc]> nodes1).
Proof.
  intros Hp Hle nodes1 Hc. split.
  - intros n0 Hn0. rewrite Hp in Hn0. injection Hn0 as <-. destruct (decide (child = parent)) as [->|Hne].
    + unfold nodes1 in Hc. rewrite lookup_insert_eq in Hc. injection Hc as <-. eexists. rewrite lookup_insert_eq. split_and!; [done..|cbn; lia].
    + eexists. rewrite lookup_insert_ne by done. unfold nodes1. rewrite lookup_insert_eq. split_and!; [done..|cbn; lia].
  - intros h n' Hne [[<- <-]|[Hne' Hh]]%lookup_insert_Some; unfold nodes1 in *.
    + rewrite lookup_insert_ne in Hc by done. exists nc. split_and!; [done..|cbn; lia].
    + rewrite lookup_insert_ne in Hh by done. exists n'. by split_and!.
  - intros h n0 Hne Hh _. rewrite lookup_insert_is_Some. destruct (decide (child = h)); [by left|right; split; [done|]].
    unfold nodes1. rewrite lookup_insert_ne by done. eauto.
Qed.

Lemma decrement_dead (nodes : nodeMap) child parent n nc : nodes !! parent = Some n → cn_parents n ≤ 0 →
  let nodes1 := <[parent := with_children (drop_child child) n]> nodes in nodes1 !! child = Some nc →
  ∀ h n', <[child := with_parents (cn_parents nc - 1) nc]> nodes1 !! h = Some n' → cn_parents n' ≤ 0 →
  (∃ n0, nodes !! h = Some n0 ∧ cn_parents n0 ≤ 0) ∨ (h = child ∧ cn_parents nc - 1 = 0).
Proof.
  intros Hp Hle nodes1 Hc.
  assert (∀ h n1, nodes1 !! h = Some n1 → cn_parents n1 ≤ 0 → ∃ n0, nodes !! h = Some n0 ∧ cn_parents n0 ≤ 0) as Hback.
  { intros h n1 [[<- <-]|[_ Hh]]%lookup_insert_Some; eauto. }
  intros h n' [[<- <-]|[Hne Hh]]%lookup_insert_Some Hz; [|by eauto]. cbn in Hz. destruct (decide (cn_parents nc - 1 = 0)); [by right|].
  left. apply (Hback _ _ Hc). lia.
Qed.

(** When the last reference to the child goes, its references are given back
    and it is deleted. *)
Lemma delete_step child parent nodes nodes2 nodes3 : child ≠ parent → gc_step child parent nodes nodes2 →
  (∀ n, nodes !! child = Some n → 0 < cn_parents n) → (∀ n, nodes !! parent = Some n → cn_parents n ≤ 0) →
  loop_step child [] nodes2 nodes3 → gc_step child parent nodes (delete child nodes3).
Proof.
  intros Hne [Hgp Hgo Hgk] Hc Hpz [_ Hlo Hlk]. split.
  - intros n Hn. destruct (Hgp n Hn) as (n2 & Hn2 & E1 & E2 & Hle). specialize (Hpz n Hn).
    destruct (Hlk parent n2) as [n3 Hn3]; [done|done|lia|]. destruct (Hlo parent n3) as (n2' & Hn2' & E3 & E4 & Hle'); [done|done|].
    rewrite Hn2 in Hn2'. injection Hn2' as <-. exists n3. rewrite lookup_delete_ne by done. split_and!; [done|congruence|congruence|lia].
  - intros h n' Hh [Hd Hn']%lookup_delete_Some. destruct (Hlo h n') as (n2 & Hn2 & E1 & E2 & Hle); [done|done|].
    destruct (Hgo h n2 Hh Hn2) as (n & Hn & E3 & E4 & Hle'). exists n. split_and!; [done|congruence|congruence|lia].
  - intros h n Hh Hn Hle. assert (h ≠ child) as Hhc. { intros ->. specialize (Hc n Hn). lia. }
    rewrite lookup_delete_ne by done. destruct (Hgk h n Hh Hn Hle) as [n2 Hn2]. destruct (Hgo h n2 Hh Hn2) as (n0 & Hn0 & _ & _ & Hle').
    rewrite Hn in Hn0. injection Hn0 as <-. apply (Hlk h n2); [done|done|lia].
Qed.

Lemma loop_start dead nodes n : nodes !! dead = Some n → cn_parents n ≤ 0 →
  loop_step dead (map_to_list (cn_children n)).*1 nodes nodes.
Proof.
  intros Hn Hle. split; [|eauto 10 with lia|eauto]. exists n. split_and!; [done..|]. intros h. rewrite list_elem_of_fmap. split.
  - intros [k Hk]. exists (h, k). split; [done|]. by apply elem_of_map_to_list.
  - intros ([h' k] & -> & Hin). apply elem_of_map_to_list in Hin. eauto.
Qed.

Lemma uncached_child nodes child parent n : gc_inv nodes → nodes !! parent = Some n → is_Some (cn_children n !! child) →
  let nodes1 := <[parent := with_children (drop_child child) n]> nodes in
  nodes1 !! child = None → gc_inv nodes1 ∧ gc_step child parent nodes nodes1.
Proof.
  intros Hi Hp He nodes1 Hc.
  assert (∀ h n1, nodes1 !! h = Some n1 → ∃ n0, nodes !! h = Some n0 ∧ cn_parents n0 = cn_parents n1) as Hback.
  { intros h n1 [[<- <-]|[_ Hh]]%lookup_insert_Some; eauto. }
  split; split.
  - by apply drop_counts.
  - intros c n1 Hl. destruct (Hback c n1 Hl) as (n0 & Hn0 & E). unfold nodes1. rewrite (drop_refs nodes child parent n Hi Hp He c).
    rewrite decide_False by (intros ->; congruence). destruct (gi_parents _ Hi c n0 Hn0) as [|Hr]; [by left|right; lia].
  - intros p c Hed. destruct (gi_closed _ Hi p c (drop_edge nodes child parent n Hp He p c Hed)) as [Hs|]; [left|by right]. by apply drop_is_some.
  - intros p Hed. by eapply (gi_meta _ Hi), drop_edge.
  - intros n0 Hn0. rewrite Hp in Hn0. injection Hn0 as <-. eexists. unfold nodes1. rewrite lookup_insert_eq. by split_and!.
  - intros h n' Hne Hh. unfold nodes1 in Hh. rewrite lookup_insert_ne in Hh by done. exists n'. by split_and!.
  - intros h n0 Hne Hh _. unfold nodes1. rewrite lookup_insert_ne by done. eauto.
Qed.

Lemma dereference_ok fuel : deref_spec fuel.
Proof.
  induction fuel as [|fuel IH]; intros child parent nodes n Hi Hp He Hle Hs; [lia|]. cbn [dereference]. rewrite Hp. cbn [deref]. rewrite bind_Ok.
  set (nodes1 := <[parent := with_children (drop_child child) n]> nodes). destruct (nodes1 !! child) as [nc|] eqn:Hc.
  - pose proof (decrement_inv nodes child parent n nc Hi Hp He Hc) as Hi2. pose proof (decrement_step nodes child parent n nc Hp Hle Hc) as Hg2.
    fold nodes1 in Hi2, Hg2. set (nodes2 := <[child := _]> nodes1) in *. cbv zeta. change (cn_parents (with_parents ?k _)) with k.
    pose proof (decrement_dead nodes child parent n nc Hp Hle Hc) as Hd2. fold nodes1 nodes2 in Hd2.
    destruct (Z.eqb_spec (cn_parents nc - 1) 0) as [Hz|Hz].
    2: { exists nodes2. split_and!; [done..|]. intros h n' Hh Hle'. destruct (Hd2 h n' Hh Hle') as [?|[-> ?]]; [done|lia]. }
    assert (child ≠ parent) as Hne.
    { intros ->. unfold nodes1 in Hc. rewrite lookup_insert_eq in Hc. injection Hc as <-. cbn in Hz. lia. }
    assert (nodes !! child = Some nc) as Hc0 by (unfold nodes1 in Hc; by rewrite lookup_insert_ne in Hc).
    destruct (deref_loop_ok fuel child nodes2 (map_to_list (cn_children nc)).*1 IH) with (nodes1 := nodes2) as (nodes3 & E & Hi3 & Hl3 & Hd3).
    + intros ->. eapply (gi_meta _ Hi parent). by exists n.
    + apply NoDup_fst_map_to_list.
    + done.
    + apply (loop_start child nodes2 (with_parents (cn_parents nc - 1) nc)); [unfold nodes2; by rewrite lookup_insert_eq|cbn; lia].
    + eapply Nat.lt_le_trans; [|apply Nat.lt_succ_r, Hs]. apply subset_size. split; [by eapply live_step; eauto|].
      intros Hsub. assert (child ∈ live nodes2) as (n' & Hn' & Hpos)%live_lookup by (apply Hsub, live_lookup; exists nc; split; [done|lia]).
      unfold nodes2 in Hn'. rewrite lookup_insert_eq in Hn'. injection Hn' as <-. cbn in Hpos. lia.
    + change (cn_children (with_parents ?k ?x)) with (cn_children x). rewrite E, bind_Ok. eexists. split; [done|].
      destruct (ls_dead _ _ _ _ Hl3) as (n3 & Hn3 & Hle3 & Hch3). split_and!; [by eapply delete_dead_inv| |].
      2: { intros h n' [Hh Hn']%lookup_delete_Some Hle'. destruct (Hd3 h n' Hn' Hle') as (n2 & Hn2 & Hle2). by destruct (Hd2 h n2 Hn2 Hle2) as [|[-> _]]. }
      apply (delete_step child parent nodes nodes2 nodes3); [done..| | |done]; intros n0; [rewrite Hc0|rewrite Hp]; intros [= <-]; [lia|done].
  - exists nodes1. split; [done|]. destruct (uncached_child nodes child parent n Hi Hp He Hc) as [Hi1 Hg1]. split_and!; [done..|].
    intros h n' [[<- <-]|[_ Hh]]%lookup_insert_Some; eauto.
Qed.

(** ** What can be reached *)

Inductive reach (nodes : nodeMap) : Hash → Prop :=
  | reach_meta : reach nodes zeroHash
  | reach_edge p c : reach nodes p → edge nodes p c → reach nodes c.

(** The disk: it holds the subtree of every node that it holds, with the bytes
    that memory has. *)
Definition disk_closed (nodes : nodeMap) : Prop := ∀ p c, persisted p → edge nodes p c → persisted c.
Definition disk_agrees (nodes : nodeMap) : Prop :=
  ∀ h n b, nodes !! h = Some n → db_Get h disk = Some b → cn_blob n = Some b.

(** No cycles, and no garbage. *)
Definition acyclic (nodes : nodeMap) : Prop := ∃ rank : Hash → nat, ∀ p c, edge nodes p c → (rank p < rank c)%nat.
Definition collected (nodes : nodeMap) : Prop := ∀ h n, nodes !! h = Some n → h ≠ zeroHash → 0 < cn_parents n.

Lemma refs_edge nodes c : 0 < refs nodes c → ∃ p, edge nodes p c.
Proof.
  unfold refs. apply (map_fold_weak_ind (fun r m => 0 < r → ∃ p, edge m p c)); [done|]. intros p n m r Hp IH Hr.
  destruct (cn_children n !! c) as [k|] eqn:Hk.
  - exists p, n. by rewrite lookup_insert_eq, Hk.
  - unfold count in Hr. rewrite Hk in Hr. destruct IH as (q & nq & Hq & Hc); [cbn in Hr; lia|]. exists q, nq. split; [|done].
    rewrite lookup_insert_ne; [done|congruence].
Qed.

(** Without garbage and cycles, a node that is only in memory is in use. *)
Lemma collected_reach nodes : gc_inv nodes → disk_closed nodes → acyclic nodes → collected nodes →
  ∀ h, is_Some (nodes !! h) → ¬ persisted h → reach nodes h.
Proof.
  intros Hi Hdc [rank Hr] Hco h. remember (rank h) as r eqn:Er. revert h Er. induction (lt_wf r) as [r _ IH]. intros h -> [n Hn] Hnp.
  destruct (decide (h = zeroHash)) as [->|Hz]; [constructor|]. destruct (gi_parents _ Hi h n Hn) as [|Hpar]; [done|].
  destruct (refs_edge nodes h) as [p Hp]; [specialize (Hco h n Hn Hz); lia|]. apply (reach_edge _ p); [|done].
  apply (IH (rank p) (Hr p h Hp) p eq_refl).
  - destruct Hp as (np & Hnp' & _). eauto.
  - intros Hpp. by apply Hnp, (Hdc p h).
Qed.

Lemma edge_mono (nodes nodes' : nodeMap) : (∀ p c, edge nodes' p c → edge nodes p c) → ∀ h, reach nodes' h → reach nodes h.
Proof. intros He h. induction 1; [constructor|]. econstructor; eauto. Qed.

Section Step.
Context (child parent : Hash) (nodes nodes' : nodeMap) (n : cachedNode).
Context (Hp : nodes !! parent = Some n) (Hc : is_Some (cn_children n !! child)).
Context (Hg : gc_step child parent nodes nodes').

Let nodes1 := <[parent := with_children (drop_child child) n]> nodes.

Lemma step_children h n' : nodes' !! h = Some n' → ∃ n1, nodes1 !! h = Some n1 ∧ cn_children n' = cn_children n1 ∧ cn_blob n' = cn_blob n1.
Proof.
  intros Hh. destruct (decide (h = parent)) as [->|Hne].
  - destruct (gs_parent _ _ _ _ Hg n Hp) as (n2 & Hn2 & E1 & E2 & _). rewrite Hh in Hn2. injection Hn2 as <-.
    unfold nodes1. rewrite lookup_insert_eq. eauto.
  - destruct (gs_other _ _ _ _ Hg h n' Hne Hh) as (n1 & Hn1 & E1 & E2 & _). unfold nodes1. rewrite lookup_insert_ne by done. eauto.
Qed.

Lemma step_edge p c : edge nodes' p c → edge nodes1 p c.
Proof. intros (n' & Hn' & Hk). destruct (step_children p n' Hn') as (n1 & Hn1 & E & _). exists n1. by rewrite <- E. Qed.

Lemma step_edge_back p c : is_Some (nodes' !! p) → edge nodes1 p c → edge nodes' p c.
Proof.
  intros [n' Hn'] (n1 & Hn1 & Hk). destruct (step_children p n' Hn') as (n1' & Hn1' & E & _). rewrite Hn1 in Hn1'. injection Hn1' as <-.
  exists n'. by rewrite E.
Qed.

Lemma step_edge_old p c : edge nodes' p c → edge nodes p c.
Proof. intros He%step_edge. by eapply drop_edge. Qed.

(** What is still referenced is in memory or on disk. *)
Lemma step_reach : gc_inv nodes' → disk_closed nodes → parent = zeroHash → ∀ h, reach nodes1 h → is_Some (nodes' !! h) ∨ persisted h.
Proof.
  intros Hi Hdc Hz h. induction 1 as [|p c _ IH He].
  - left. rewrite <- Hz. destruct (gs_parent _ _ _ _ Hg n Hp) as (n' & Hn' & _). eauto.
  - destruct IH as [Hs|Hpp]; [|right; eapply Hdc; [done|by eapply drop_edge]].
    apply (gi_closed _ Hi p), step_edge_back; done.
Qed.

End Step.

End Inv.

(** ** The node database in good order *)

(** The metaroot has no parents and is the only node without bytes; the keys
    are hashes. *)
Record healthy (db : TrieDB) : Prop := {
  hl_inv : gc_inv (tdb_disk db) (tdb_nodes db);
  hl_closed : disk_closed (tdb_disk db) (tdb_nodes db);
  hl_agrees : disk_agrees (tdb_disk db) (tdb_nodes db);
  hl_acyclic : acyclic (tdb_nodes db);
  hl_collected : collected (tdb_nodes db);
  hl_meta : ∃ meta, tdb_nodes db !! zeroHash = Some meta ∧ cn_parents meta ≤ 0;
  hl_blobs : ∀ h n, tdb_nodes db !! h = Some n → h ≠ zeroHash → is_Some (cn_blob n);
  hl_hashes : ∀ h, is_Some (tdb_nodes db !! h) → length h = HashLength;
  hl_preimages : ∀ h, is_Some (tdb_preimages db !! h) → length h = HashLength
}.

(** The nodes once the metaroot has given up one reference. *)
Definition without (root : Hash) (db : TrieDB) : nodeMap :=
  match tdb_nodes db !! zeroHash with
  | Some meta => <[zeroHash := with_children (drop_child root) meta]> (tdb_nodes db)
  | None => tdb_nodes db
  end.

Lemma step_collected (nodes nodes' : nodeMap) : collected nodes → no_new_dead nodes nodes' → collected nodes'.
Proof.
  intros Hco Hd h n' Hn' Hz. destruct (Z.le_gt_cases (cn_parents n') 0) as [Hlt|]; [|done]. destruct (Hd h n' Hn' Hlt) as (n & Hn & Hl).
  specialize (Hco h n Hn Hz). lia.
Qed.

Lemma Dereference_healthy (db : TrieDB) (root : Hash) : healthy db → edge (tdb_nodes db) zeroHash root →
  ∃ meta nodes', tdb_nodes db !! zeroHash = Some meta ∧ is_Some (cn_children meta !! root) ∧
    Dereference root zeroHash db = Ok (set_nodes nodes' db) ∧ healthy (set_nodes nodes' db) ∧ gc_step root zeroHash (tdb_nodes db) nodes'.
Proof.
  intros [Hi Hdc Hda Hac Hco (meta & Hm & Hle) Hb Hh Hpr] (meta' & Hm' & Hr). rewrite Hm in Hm'. injection Hm' as <-.
  destruct (dereference_ok (tdb_disk db) (S (size (live (tdb_nodes db)))) root zeroHash (tdb_nodes db) meta Hi Hm Hr Hle)
    as (nodes' & E & Hi' & Hg & Hd); [lia|]. exists meta, nodes'. unfold Dereference. rewrite E, bind_Ok. split_and!; [done..| |done].
  pose proof (step_edge_old root zeroHash (tdb_nodes db) nodes' meta Hm Hr Hg) as Heo.
  assert (∀ h n', nodes' !! h = Some n' → ∃ n, tdb_nodes db !! h = Some n ∧ cn_blob n' = cn_blob n) as Hback.
  { intros h n' Hn'. destruct (step_children root zeroHash (tdb_nodes db) nodes' meta Hm Hg h n' Hn') as (n1 & Hn1 & _ & E1).
    apply lookup_insert_Some in Hn1 as [[<- <-]|[_ Hn1]]; eauto. }
  split; cbn [set_nodes tdb_disk tdb_preimages tdb_nodes]; try done.
  - intros p c Hpp Hed. by eapply Hdc, Heo.
  - intros h n' b Hn' Hd'. destruct (Hback h n' Hn') as (n & Hn & ->). by eapply Hda.
  - destruct Hac as [rank Hrk]. exists rank. intros p c Hed. by apply Hrk, Heo.
  - by eapply step_collected.
  - destruct (gs_parent _ _ _ _ Hg meta Hm) as (meta' & Hm' & _ & _ & Hle'). exists meta'. split; [done|lia].
  - intros h n' Hn' Hz. destruct (Hback h n' Hn') as (n & Hn & ->). by eapply Hb.
  - intros h [n' Hn']. destruct (Hback h n' Hn') as (n & Hn & _). eauto.
Qed.

(** C35. Dropping a reference of the metaroot to a root ([Dereference]) frees
    exactly what is no longer in use.  In a node database in good order
    (counts right, no cycles, no garbage, whole subtrees on disk with the
    bytes that memory has) the call does not panic, keeps the disk and the
    preimages, and leaves the database in good order, without garbage.  A
    node that is not on disk stays in memory exactly when it can still be
    reached from the metaroot once the reference is dropped, and every node
    that can be reached reads as before. *)
Theorem Dereference_exact (db : TrieDB) (root : Hash) : healthy db → edge (tdb_nodes db) zeroHash root →
  ∃ db', Dereference root zeroHash db = Ok db' ∧ tdb_disk db' = tdb_disk db ∧ tdb_preimages db' = tdb_preimages db ∧ healthy db' ∧
    (∀ h, ¬ persisted (tdb_disk db) h → is_Some (tdb_nodes db' !! h) ↔ reach (without root db) h) ∧
    (∀ h, reach (without root db) h → tdb_Node db' h = tdb_Node db h).
Proof.
  intros Hhl Hed. destruct (Dereference_healthy db root Hhl Hed) as (meta & nodes' & Hm & Hr & -> & Hhl' & Hg). eexists.
  split; [done|]. unfold without. rewrite Hm. set (dropped := <[zeroHash := _]> _).
  pose proof (step_reach (tdb_disk db) root zeroHash (tdb_nodes db) nodes' meta Hm Hr Hg (hl_inv _ Hhl') (hl_closed _ Hhl) eq_refl) as Hre.
  split_and!; [done..| |].
  - intros h Hnp. split; [|intros Hh; by destruct (Hre h Hh)]. intros Hs. apply (edge_mono dropped nodes').
    + intros p c. by apply (step_edge root zeroHash (tdb_nodes db)).
    + apply (collected_reach (tdb_disk db)); [apply Hhl'..|done|done].
  - intros h Hh. unfold tdb_Node. cbn [set_nodes tdb_nodes tdb_disk]. destruct (nodes' !! h) as [n'|] eqn:E.
    + destruct (step_children root zeroHash (tdb_nodes db) nodes' meta Hm Hg h n' E) as (n1 & Hn1 & _ & ->).
      apply lookup_insert_Some in Hn1 as [[<- <-]|[_ ->]]; [by rewrite Hm|done].
    + destruct (Hre h Hh) as [[? ?]|[b Hb]]; [congruence|]. rewrite Hb. destruct (tdb_nodes db !! h) as [n|] eqn:En; [|done].
      by rewrite (hl_agrees _ Hhl h n b En Hb).
Qed.

End GC.
