(* ===== verification/TrieCommit.v ===== *)
(** * The node database: writing a trie to disk (src/fast/database.go, Commit)

    [Commit] writes the preimages and the nodes of one trie, children first,
    in batches, and then drops what it wrote from memory.  Whatever the
    outcome, what the database answers does not change, and the disk never
    holds a node without its subtree. *)

From S2P Require Import Prelude Types Interfaces Rlp TrieEncoding TrieNode Trie TrieGC.
From stdpp Require Import base tactics option numbers list relations gmap.
From Stdlib Require Import ZArith Lia.

#[local] Open Scope Z_scope.

Section Commit.
Context `{HK : Keccak, HD : Database, HB : !Batches}.

Notation nodeMap := (gmap Hash cachedNode).

(** ** Pending writes *)

(** What the disk gives for a key once the batch is written. *)
Definition pending (b : batch) (disk : database) (k : list Z) : option (list Z) :=
  match last_value k (batch_writes b) with Some v => Some v | None => db_Get k disk end.

Lemma last_value_app k l1 l2 :
  last_value k (l1 ++ l2) = match last_value k l2 with Some v => Some v | None => last_value k l1 end.
Proof.
  induction l1 as [|[k' v] l1 IH]; cbn [app last_value]; [by destruct (last_value k l2)|]. rewrite IH. by destruct (last_value k l2).
Qed.

Lemma pending_put k v b b' disk x : put k v b = Ok b' → pending b' disk x = if decide (k = x) then Some v else pending b disk x.
Proof.
  unfold put. destruct (batch_Put k v b) as [b1|] eqn:E; [|done]. intros [= <-]. unfold pending. rewrite (batch_Put_writes _ _ _ _ E), last_value_app.
  cbn [last_value]. by case_decide.
Qed.

Lemma pending_write b disk disk' x : write b disk = Ok disk' → db_Get x disk' = pending b disk x.
Proof. unfold write. destruct (batch_Write b disk) as [d|] eqn:E; [|done]. intros [= <-]. by rewrite (batch_Write_Get _ _ _ _ E). Qed.

Lemma pending_Reset b disk x : pending (batch_Reset b) disk x = db_Get x disk.
Proof. unfold pending. by rewrite batch_Reset_writes. Qed.

Lemma pending_New disk x : pending NewBatch disk x = db_Get x disk.
Proof. unfold pending. by rewrite NewBatch_writes. Qed.

Section Run.
Context (nodes : nodeMap) (disk0 : database) (W : list Z → list Z → Prop).

(** The keys and values that may be written are fixed beforehand; a node goes
    after its children. *)
Context (W_fun : ∀ k v v', W k v → W k v' → v = v').

(** A map from keys to values that differs from the disk at the start only in
    allowed writes, and holds the subtree of every node that it holds. *)
Record sound (get : list Z → option (list Z)) : Prop := {
  sd_grows : ∀ k, get k = db_Get k disk0 ∨ ∃ v, W k v ∧ get k = Some v;
  sd_closed : ∀ p c, edge nodes p c → is_Some (get p) → is_Some (get c)
}.

#[local] Instance sound_proper : Proper (pointwise_relation _ (=) ==> iff) sound.
Proof.
  assert (∀ f g, pointwise_relation _ eq f g → sound f → sound g) as Hm.
  { intros f g Hfg [H1 H2]. split; [intros k; destruct (H1 k) as [E|(v & HW & E)]; rewrite (Hfg k) in E; eauto|].
    intros p c. rewrite <- (Hfg p), <- (Hfg c). apply H2. }
  intros f g Hfg. split; apply Hm; [done|by symmetry].
Qed.

(** The state of a commit: the disk and the disk once the batch is written. *)
Definition running (b : batch) (disk : database) : Prop := sound (fun k => db_Get k disk) ∧ sound (pending b disk).

(** What has been stored stays. *)
Definition keeps (b : batch) (disk : database) (b' : batch) (disk' : database) : Prop :=
  ∀ k v, W k v → pending b disk k = Some v → pending b' disk' k = Some v.

Lemma sound_some get k : sound get → is_Some (db_Get k disk0) → is_Some (get k).
Proof. intros Hs Hk. destruct (sd_grows _ Hs k) as [->|(v & _ & ->)]; eauto. Qed.

(** [Put], and a [Write] and [Reset] of a batch that has become large. *)
Lemma put_sound k v b b' disk : running b disk → W k v → put k v b = Ok b' →
  (∀ c, edge nodes k c → is_Some (pending b disk c)) → running b' disk ∧ keeps b disk b' disk ∧ pending b' disk k = Some v.
Proof.
  intros [Hd Hb] HW Hput Hch. pose proof (pending_put k v b b' disk) as Hp. split_and!.
  - split; [done|]. split.
    + intros x. rewrite (Hp x Hput). case_decide; [subst; eauto|apply (sd_grows _ Hb)].
    + intros p c He. rewrite !(Hp _ Hput). destruct (decide (k = c)); [done|]. case_decide; [subst; by intros _; apply Hch|by apply (sd_closed _ Hb)].
  - intros x vx HWx Hx. rewrite (Hp x Hput). case_decide; [subst; by rewrite (W_fun x v vx)|done].
  - by rewrite (Hp k Hput), decide_True.
Qed.

Lemma write_sound b disk disk' : running b disk → write b disk = Ok disk' → running (batch_Reset b) disk' ∧ keeps b disk (batch_Reset b) disk'.
Proof.
  intros [Hd Hb] Hw. assert (pointwise_relation _ eq (pending b disk) (fun k => db_Get k disk')) as E1 by (intros k; by rewrite (pending_write _ _ _ k Hw)).
  assert (pointwise_relation _ eq (pending b disk) (pending (batch_Reset b) disk')) as E2 by (intros k; by rewrite pending_Reset, (pending_write _ _ _ k Hw)).
  split; [split; [by rewrite <- E1|by rewrite <- E2]|]. intros k v _. by rewrite (E2 k).
Qed.

Lemma keeps_trans b disk b1 disk1 b2 disk2 : keeps b disk b1 disk1 → keeps b1 disk1 b2 disk2 → keeps b disk b2 disk2.
Proof. intros H1 H2 k v HW Hk. eauto. Qed.

(** The outcome of a part of the commit: no panic, the disk sound in any case,
    and on success the run goes on with everything stored kept. *)
Definition outcome_ok (b : batch) (disk disk' : database) (r : outcome dbError batch) (P : batch → Prop) : Prop :=
  sound (fun k => db_Get k disk') ∧
  match r with Ok b' => running b' disk' ∧ keeps b disk b' disk' ∧ P b' | Err _ => True | Panic => False end.

Lemma commitPreimages_ok l : ∀ b disk, running b disk → (∀ h v, (h, v) ∈ l → W (secureKey h) v ∧ ∀ c, ¬ edge nodes (secureKey h) c) →
  let '(_, disk', r) := commitPreimages l b disk in
  outcome_ok b disk disk' r (fun b' => ∀ h v, (h, v) ∈ l → pending b' disk' (secureKey h) = Some v).
Proof.
  induction l as [|[h v] l IH]; intros b disk Hr HW; cbn [commitPreimages].
  - split; [apply Hr|]. split_and!; [done|by intros k v|by intros h v ?%not_elem_of_nil].
  - destruct (HW h v (list_elem_of_here _ _)) as [HWh Hne]. destruct (put (secureKey h) v b) as [b1|e|] eqn:Hput;
      [|by split; [apply Hr|]|by unfold put in Hput; destruct (batch_Put _ _ _)].
    destruct (put_sound _ _ _ _ _ Hr HWh Hput) as (Hr1 & Hk1 & Hs1); [by intros c ?%Hne|].
    assert (∀ b2 disk2, running b2 disk2 → keeps b1 disk b2 disk2 → let '(_, disk', r) := commitPreimages l b2 disk2 in
      outcome_ok b disk disk' r (fun b' => ∀ h' v', (h', v') ∈ (h, v) :: l → pending b' disk' (secureKey h') = Some v')) as Hgo.
    { intros b2 disk2 Hr2 Hk2. specialize (IH b2 disk2 Hr2 (fun h' v' Hin => HW h' v' (list_elem_of_further _ _ _ Hin))).
      destruct (commitPreimages l b2 disk2) as [[held disk3] r]. destruct IH as [Hd3 Hr3]. split; [done|]. destruct r as [b3|e|]; [|done..].
      destruct Hr3 as (Hrun3 & Hk3 & Hs3). split_and!; [done|by eapply keeps_trans, keeps_trans|].
      intros h' v' [[= -> ->]|Hin]%elem_of_cons; [|by apply Hs3]. by eapply Hk3, Hk2. }
    destruct (_ <? _); [|by apply Hgo; [|intros k x]]. destruct (write b1 disk) as [disk1|e|] eqn:Hw;
      [|by split; [apply Hr|]|by unfold write in Hw; destruct (batch_Write _ _)].
    destruct (write_sound _ _ _ Hr1 Hw). by apply Hgo.
Qed.

(** ** The nodes *)

(** The depth of the recursion: the nodes of at least the rank of the root. *)
Definition deeper (rank : Hash → nat) (h : Hash) : gset Hash := filter (fun x => (rank h ≤ rank x)%nat) (dom nodes).

Context (rank : Hash → nat) (rank_edge : ∀ p c, edge nodes p c → (rank p < rank c)%nat).

Lemma deeper_edge p c fuel : edge nodes p c → (size (deeper rank p) < S fuel)%nat → (size (deeper rank c) < fuel)%nat.
Proof.
  intros He Hs. eapply Nat.lt_le_trans; [|apply Nat.lt_succ_r, Hs]. apply subset_size. pose proof (rank_edge p c He) as Hlt. split.
  - intros x. unfold deeper. rewrite !elem_of_filter. intros [? ?]. split; [lia|done].
  - intros Hsub. destruct He as (n & Hn & _). assert (p ∈ deeper rank c) as [Hle _]%elem_of_filter; [|lia].
    apply Hsub, elem_of_filter. split; [done|]. apply elem_of_dom. eauto.
Qed.

Definition blob_of (n : cachedNode) : list Z := default [] (cn_blob n).

Context (closed0 : ∀ p c, edge nodes p c → is_Some (nodes !! c) ∨ is_Some (db_Get c disk0)).

(** The nodes below [hash] may be written, and are stored. *)
Definition allowed (hash : Hash) : Prop := ∀ x n, rtc (edge nodes) hash x → nodes !! x = Some n → W x (blob_of n).
Definition stored (hash : Hash) (b : batch) (disk : database) : Prop :=
  ∀ x n, rtc (edge nodes) hash x → nodes !! x = Some n → pending b disk x = Some (blob_of n).

Lemma keeps_stored hash b disk b' disk' : allowed hash → keeps b disk b' disk' → stored hash b disk → stored hash b' disk'.
Proof. intros HW Hk Hs x n Hx Hn. apply Hk; [by apply HW|by apply Hs]. Qed.

Definition commit_spec (fuel : nat) : Prop := ∀ hash b disk, running b disk → (size (deeper rank hash) < fuel)%nat → allowed hash →
  let '(disk', r) := commit fuel nodes hash b disk in outcome_ok b disk disk' r (fun b' => stored hash b' disk').

Lemma commit_loop_ok fuel hashes : commit_spec fuel → ∀ b disk, running b disk →
  (∀ h, h ∈ hashes → (size (deeper rank h) < fuel)%nat ∧ allowed h) →
  let '(disk', r) := (fix loop (hashes : list Hash) (b : batch) (disk : database) : database * outcome dbError batch :=
                   match hashes with
                   | [] => (disk, Ok b)
                   | h :: hashes =>
                       match commit fuel nodes h b disk with
                       | (disk, Ok b) => loop hashes b disk
                       | r => r
                       end
                   end) hashes b disk in
  outcome_ok b disk disk' r (fun b' => ∀ h, h ∈ hashes → stored h b' disk').
Proof.
  intros IH. induction hashes as [|h hashes IHl]; intros b disk Hr Hh.
  { split; [apply Hr|]. split_and!; [done|by intros k v|by intros h ?%not_elem_of_nil]. }
  destruct (Hh h (list_elem_of_here _ _)) as [Hs HW]. specialize (IH h b disk Hr Hs HW).
  destruct (commit fuel nodes h b disk) as [disk1 [b1|e|]]; [|by destruct IH..]. destruct IH as (_ & Hr1 & Hk1 & Hs1).
  specialize (IHl b1 disk1 Hr1 (fun h' Hin => Hh h' (list_elem_of_further _ _ _ Hin))). revert IHl.
  match goal with |- context [?f hashes b1 disk1] => destruct (f hashes b1 disk1) as [disk2 [b2|e|]] end; intros [Hd2 Hr2]; [|by split|done].
  destruct Hr2 as (Hrun2 & Hk2 & Hs2). split; [done|]. split_and!; [done|by eapply keeps_trans|].
  intros h' [->|Hin]%elem_of_cons; [by eapply keeps_stored|by apply Hs2].
Qed.

(** The node itself, after its children. *)
Lemma put_node_ok hash node b disk : running b disk → allowed hash → nodes !! hash = Some node →
  (∀ h, h ∈ (map_to_list (cn_children node)).*1 → stored h b disk) →
  let '(disk', r) := match put hash (default [] (cn_blob node)) b with
              | Ok b =>
                  if IdealBatchSize <=? batch_ValueSize b then
                    match write b disk with
                    | Ok disk => (disk, Ok (batch_Reset b))
                    | Err e => (disk, Err e)
                    | Panic => (disk, Panic)
                    end
                  else (disk, Ok b)
              | Err e => (disk, Err e)
              | Panic => (disk, Panic)
              end in
  outcome_ok b disk disk' r (fun b' => stored hash b' disk').
Proof.
  intros Hr HW Hn Hch. assert (∀ c, edge nodes hash c → c ∈ (map_to_list (cn_children node)).*1) as Hin.
  { intros c (n & Hn' & k & Hk). rewrite Hn in Hn'. injection Hn' as <-. apply list_elem_of_fmap. exists (c, k). split; [done|]. by apply elem_of_map_to_list. }
  destruct (put hash _ b) as [b1|e|] eqn:Hput; [|by split; [apply Hr|]|by unfold put in Hput; destruct (batch_Put _ _ _)].
  destruct (put_sound _ _ _ _ _ Hr (HW hash node (rtc_refl _ _) Hn) Hput) as (Hr1 & Hk1 & Hs1).
  { intros c He. destruct (closed0 hash c He) as [[nc Hc]|Hc]; [|by eapply sound_some; [apply Hr|]].
    rewrite (Hch c (Hin c He) c nc (rtc_refl _ _) Hc). eauto. }
  assert (stored hash b1 disk) as Hst.
  { intros x n Hx Hnx. apply rtc_inv in Hx as [<-|(c & He & Hx)]; [rewrite Hn in Hnx; by injection Hnx as <-|].
    apply Hk1; [apply HW; [by eapply rtc_l|done]|]. by apply (Hch c (Hin c He)). }
  destruct (_ <=? _); [|by split; [apply Hr1|]]. destruct (write b1 disk) as [disk1|e|] eqn:Hw;
    [|by split; [apply Hr|]|by unfold write in Hw; destruct (batch_Write _ _)].
  destruct (write_sound _ _ _ Hr1 Hw) as [Hr2 Hk2]. split; [apply Hr2|]. split_and!; [done|by eapply keeps_trans|by eapply keeps_stored].
Qed.

Lemma commit_ok fuel : commit_spec fuel.
Proof.
  induction fuel as [|fuel IH]; intros hash b disk Hr Hs HW; [lia|]. cbn [commit]. destruct (nodes !! hash) as [node|] eqn:Hn.
  2: { split; [apply Hr|]. split_and!; [done|by intros k v|]. intros x n [<-|(c & (n' & Hn' & _) & _)]%rtc_inv Hx; congruence. }
  assert (∀ h, h ∈ (map_to_list (cn_children node)).*1 → edge nodes hash h) as Hed.
  { intros h ([h' k] & -> & Hin%elem_of_map_to_list)%list_elem_of_fmap. exists node. eauto. }
  pose proof (commit_loop_ok fuel (map_to_list (cn_children node)).*1 IH b disk Hr) as Hl.
  match goal with |- context [?f (map_to_list (cn_children node)).*1 b disk] =>
    destruct (f (map_to_list (cn_children node)).*1 b disk) as [disk1 [b1|e|]] end.
  all: destruct Hl as [Hd1 Hr1]; [intros h He%Hed; split; [by eapply deeper_edge|]; intros x n Hx; apply HW; by eapply rtc_l|].
  - destruct Hr1 as (Hrun1 & Hk1 & Hs1). pose proof (put_node_ok hash node b1 disk1 Hrun1 HW Hn Hs1) as Hp.
    destruct (match put hash _ b1 with Ok _ => _ | Err _ => _ | Panic => _ end) as [disk2 r2]. destruct Hp as [Hd2 Hr2]. split; [done|].
    destruct r2 as [b2|e|]; [|done..]. destruct Hr2 as (? & ? & ?). split_and!; [done|by eapply keeps_trans|done].
  - by split.
  - done.
Qed.

(** ** Dropping the nodes from memory *)

(** What has been dropped so far is closed under children. *)
Definition dropping (cur : nodeMap) : Prop := cur ⊆ nodes ∧ ∀ p c, edge nodes p c → cur !! p = None → cur !! c = None.

Lemma dropping_below cur h x : dropping cur → cur !! h = None → rtc (edge nodes) h x → cur !! x = None.
Proof. intros [_ Hd] Hn Hx. induction Hx as [|h c x He _ IH]; [done|]. by eapply IH, Hd. Qed.

(** Only nodes below [hashes] go, and all of them do. *)
Definition dropped_only (hashes : list Hash) (cur cur' : nodeMap) : Prop :=
  cur' ⊆ cur ∧ (∀ h x, h ∈ hashes → rtc (edge nodes) h x → cur' !! x = None) ∧
  (∀ x, is_Some (cur !! x) → is_Some (cur' !! x) ∨ ∃ h, h ∈ hashes ∧ rtc (edge nodes) h x).

Definition uncache_spec (fuel : nat) : Prop := ∀ hash cur, dropping cur → (size (deeper rank hash) < fuel)%nat →
  ∃ cur', uncache fuel hash cur = Ok cur' ∧ dropping cur' ∧ dropped_only [hash] cur cur'.

Lemma uncache_loop_ok fuel hashes : uncache_spec fuel → ∀ cur, dropping cur → (∀ h, h ∈ hashes → (size (deeper rank h) < fuel)%nat) →
  ∃ cur', (fix loop (hashes : list Hash) (nodes : nodeMap) : outcome Empty_set nodeMap :=
                     match hashes with
                     | [] => Ok nodes
                     | h :: hashes => nodes ← uncache fuel h nodes; loop hashes nodes
                     end) hashes cur = Ok cur' ∧ dropping cur' ∧ dropped_only hashes cur cur'.
Proof.
  intros IH. induction hashes as [|h hashes IHl]; intros cur Hd Hs.
  { exists cur. split_and!; [done..|]. split_and!; [done|by intros h x ?%not_elem_of_nil|auto]. }
  destruct (IH h cur Hd (Hs h (list_elem_of_here _ _))) as (cur1 & E1 & Hd1 & Hsub1 & Hgone1 & Honly1). rewrite E1, bind_Ok.
  destruct (IHl cur1 Hd1 (fun h' Hin => Hs h' (list_elem_of_further _ _ _ Hin))) as (cur2 & E2 & Hd2 & Hsub2 & Hgone2 & Honly2).
  exists cur2. split_and!; [done..|]. split_and!.
  - by etransitivity.
  - intros h' x [->|Hin]%elem_of_cons Hx; [|by eapply Hgone2]. eapply lookup_weaken_None; [|done]. eapply Hgone1; [|done]. apply list_elem_of_here.
  - intros x Hx. destruct (Honly1 x Hx) as [Hx1|(h' & [->|?%not_elem_of_nil]%elem_of_cons & Hr)]; [|right; exists h; split; [left|done]|done].
    destruct (Honly2 x Hx1) as [|(h' & Hin & Hr)]; [by left|]. right. exists h'. split; [by right|done].
Qed.

Lemma uncache_ok fuel : uncache_spec fuel.
Proof.
  induction fuel as [|fuel IH]; intros hash cur Hd Hs; [lia|]. cbn [uncache]. destruct (cur !! hash) as [node|] eqn:Hn.
  2: { exists cur. split_and!; [done..|]. split_and!; [done| |auto]. intros h x [->|?%not_elem_of_nil]%elem_of_cons Hx; [|done]. by eapply dropping_below. }
  assert (nodes !! hash = Some node) as Hn0 by (destruct Hd; by eapply lookup_weaken).
  assert (∀ h, h ∈ (map_to_list (cn_children node)).*1 ↔ edge nodes hash h) as Hed.
  { intros h. rewrite list_elem_of_fmap. split.
    - intros ([h' k] & -> & Hin%elem_of_map_to_list). exists node. eauto.
    - intros (n & Hn' & k & Hk). rewrite Hn0 in Hn'. injection Hn' as <-. exists (h, k). split; [done|]. by apply elem_of_map_to_list. }
  destruct (uncache_loop_ok fuel (map_to_list (cn_children node)).*1 IH cur Hd) as (cur1 & E1 & Hd1 & Hsub1 & Hgone1 & Honly1).
  { intros h He%Hed. by eapply deeper_edge. }
  rewrite E1, bind_Ok. exists (delete hash cur1). split; [done|].
  assert (delete hash cur1 ⊆ cur1) as Hdel by apply delete_subseteq.
  split; [split; [by etransitivity; [|apply Hd1]|]|split_and!; [by etransitivity|..]].
  - intros p c He Hp. apply lookup_delete_None. right. destruct (decide (p = hash)) as [->|Hne]; [|rewrite lookup_delete_ne in Hp by done; by eapply Hd1].
    eapply Hgone1; [by apply Hed|done].
  - intros h x [->|?%not_elem_of_nil]%elem_of_cons Hx; [|done]. apply rtc_inv in Hx as [<-|(c & He & Hx)]; [apply lookup_delete_eq|].
    eapply lookup_weaken_None; [|exact Hdel]. eapply Hgone1; [by apply Hed|done].
  - intros x Hx. destruct (decide (x = hash)) as [->|Hne]; [right; exists hash; split; [left|done]|]. rewrite lookup_delete_ne by done.
    destruct (Honly1 x Hx) as [|(h & Hin & Hr)]; [by left|]. right. exists hash. split; [left|]. eapply rtc_l; [by apply Hed|done].
Qed.

End Run.

(** ** Good order, kept *)

Lemma gc_inv_disk (disk disk' : database) nodes : (∀ h, persisted disk h → persisted disk' h) → gc_inv disk nodes → gc_inv disk' nodes.
Proof.
  intros Hm [Hc Hp Hcl Hme]. split; [done|..|done].
  - intros c n Hn. destruct (Hp c n Hn); auto.
  - intros p c He. destruct (Hcl p c He); auto.
Qed.

Lemma refs_zero (nodes : nodeMap) c : (∀ p n, nodes !! p = Some n → count n c = 0) → refs nodes c = 0.
Proof.
  unfold refs. apply (map_fold_weak_ind (fun r m => (∀ p n, m !! p = Some n → count n c = 0) → r = 0)); [done|].
  intros p n m r Hp IH Hm. rewrite (Hm p n) by apply lookup_insert_eq. rewrite IH; [lia|]. intros q nq Hq. apply (Hm q).
  rewrite lookup_insert_ne; [done|congruence].
Qed.

Lemma refs_submap (nodes' : nodeMap) c : ∀ nodes, nodes' ⊆ nodes → (∀ p n, nodes !! p = Some n → nodes' !! p = None → count n c = 0) →
  refs nodes' c = refs nodes c.
Proof.
  induction nodes' as [|p n m Hp IH] using map_ind; intros nodes Hsub Hz.
  - rewrite (refs_zero nodes); [done|]. intros p n Hn. apply (Hz p n Hn), lookup_empty.
  - assert (nodes !! p = Some n) as Hn by (eapply lookup_weaken; [apply lookup_insert_eq|done]).
    rewrite (refs_delete nodes p n c Hn), refs_insert by done. rewrite (IH (delete p nodes)); [done| |].
    + apply map_subseteq_spec. intros q nq Hq. assert (p ≠ q) by congruence. rewrite lookup_delete_ne by done.
      eapply lookup_weaken; [|done]. by rewrite lookup_insert_ne.
    + intros q nq [Hne Hq]%lookup_delete_Some Hm. apply (Hz q nq Hq). by rewrite lookup_insert_ne.
Qed.

Lemma edge_sub (nodes' nodes : nodeMap) p c : nodes' ⊆ nodes → edge nodes' p c → edge nodes p c.
Proof. intros Hs (n & Hn & Hk). exists n. split; [by eapply lookup_weaken|done]. Qed.

(** Nodes on disk can be dropped, with their subtrees. *)
Lemma gc_inv_dropping (disk : database) (nodes nodes' : nodeMap) : gc_inv disk nodes → dropping nodes nodes' →
  (∀ h, is_Some (nodes !! h) → nodes' !! h = None → persisted disk h) → gc_inv disk nodes'.
Proof.
  intros [Hc Hp Hcl Hme] [Hsub Hdown] Hgone. split.
  - intros p n c k Hn. apply Hc. by eapply lookup_weaken.
  - intros c n Hn. destruct (Hp c n) as [|Hr]; [by eapply lookup_weaken|by left|]. right. rewrite Hr. symmetry. apply refs_submap; [done|].
    intros p np Hnp Hnone. unfold count. destruct (cn_children np !! c) as [k|] eqn:Hk; [|done]. assert (nodes' !! c = None); [|congruence].
    eapply Hdown; [|done]. exists np. eauto.
  - intros p c He%(edge_sub _ nodes); [|done]. destruct (Hcl p c He) as [Hs|]; [|by right]. destruct (nodes' !! c) eqn:E; [eauto|]. right. by apply Hgone.
  - intros p He%(edge_sub _ nodes); [|done]. by eapply Hme.
Qed.

Lemma secureKey_length h : length (secureKey h) = (11 + length h)%nat.
Proof. unfold secureKey. by rewrite length_app. Qed.

Section Healthy.
Context (db : TrieDB) (node : Hash) (Hh : healthy db) (Hz : node ≠ zeroHash).

(** What a commit of [node] may write. *)
Definition toWrite (k v : list Z) : Prop :=
  (∃ n, rtc (edge (tdb_nodes db)) node k ∧ tdb_nodes db !! k = Some n ∧ v = blob_of n) ∨ (∃ h, tdb_preimages db !! h = Some v ∧ k = secureKey h).

Lemma below_not_meta x : rtc (edge (tdb_nodes db)) node x → x ≠ zeroHash.
Proof. intros [->|(p & _ & He)]%rtc_inv_r; [done|]. intros ->. by apply (gi_meta _ _ (hl_inv _ Hh) p). Qed.

Lemma node_not_secure k h : is_Some (tdb_nodes db !! k) → is_Some (tdb_preimages db !! h) → k ≠ secureKey h.
Proof.
  intros Hk Hp ->. pose proof (hl_hashes _ Hh _ Hk) as E. pose proof (hl_preimages _ Hh _ Hp) as E'. rewrite secureKey_length, E' in E. done.
Qed.

Lemma toWrite_fun k v v' : toWrite k v → toWrite k v' → v = v'.
Proof.
  intros [(n & _ & Hn & ->)|(h & Hp & ->)] [(n' & _ & Hn' & ->)|(h' & Hp' & E)].
  - congruence.
  - by destruct (node_not_secure k h'); eauto.
  - by destruct (node_not_secure (secureKey h) h); eauto.
  - apply app_inv_head in E as ->. congruence.
Qed.

Lemma toWrite_blob k v n : toWrite k v → tdb_nodes db !! k = Some n → cn_blob n = Some v ∧ rtc (edge (tdb_nodes db)) node k.
Proof.
  intros [(n' & Hr & Hn' & ->)|(h & Hp & ->)] Hn; [|by destruct (node_not_secure (secureKey h) h); eauto].
  rewrite Hn in Hn'. injection Hn' as <-. split; [|done]. destruct (hl_blobs _ Hh k n Hn (below_not_meta k Hr)) as [b Hb]. unfold blob_of. by rewrite Hb.
Qed.

Section Disk.
Context (disk : database) (Hs : sound (tdb_nodes db) (tdb_disk db) toWrite (fun k => db_Get k disk)).

Lemma persisted_grows h : persisted (tdb_disk db) h → persisted disk h.
Proof. apply (sound_some _ _ _ _ _ Hs). Qed.

(** A key that is not written reads as before. *)
Lemma get_same k : (∀ v, ¬ toWrite k v) → db_Get k disk = db_Get k (tdb_disk db).
Proof. intros Hk. destruct (sd_grows _ _ _ _ Hs k) as [|(v & Hw & _)]; [done|]. by destruct (Hk v). Qed.

Lemma healthy_disk : healthy (set_disk disk db).
Proof.
  destruct Hh as [Hi Hdc Hda Hac Hco Hme Hb Hha Hpr]. split; cbn [set_disk tdb_disk tdb_nodes tdb_preimages]; try done.
  - by eapply gc_inv_disk, Hi; apply persisted_grows.
  - intros p c Hp He. by apply (sd_closed _ _ _ _ Hs p c).
  - intros h n b Hn Hg. destruct (sd_grows _ _ _ _ Hs h) as [E|(v & Hw & E)]; [apply (Hda h n b Hn); congruence|].
    rewrite Hg in E. injection E as <-. by apply (toWrite_blob h b n).
Qed.

Lemma node_same h : length h = HashLength → tdb_Node (set_disk disk db) h = tdb_Node db h.
Proof.
  intros Hl. unfold tdb_Node. cbn [set_disk tdb_nodes tdb_disk]. destruct (tdb_nodes db !! h) as [n|] eqn:E; [done|]. apply get_same.
  intros v [(n & _ & Hn & _)|(h' & Hp & ->)]; [congruence|]. rewrite secureKey_length in Hl. rewrite (hl_preimages _ Hh h') in Hl by eauto. done.
Qed.

Lemma preimage_same h : length h = HashLength → preimage (set_disk disk db) h = preimage db h.
Proof.
  intros Hl. unfold preimage. cbn [set_disk tdb_preimages tdb_disk]. destruct (tdb_preimages db !! h) as [v|] eqn:E; [done|]. apply get_same.
  intros v [(n & _ & Hn & _)|(h' & Hp & E')]; [|apply app_inv_head in E'; congruence].
  pose proof (hl_hashes _ Hh (secureKey h) ltac:(eauto)) as El. rewrite secureKey_length, Hl in El. done.
Qed.

(** After the commit: the nodes below [node] are on disk and not in memory. *)
Section Done.
Context (nodes' : nodeMap) (Hd : dropping (tdb_nodes db) nodes') (Ho : dropped_only (tdb_nodes db) [node] (tdb_nodes db) nodes').
Context (Hst : ∀ x n, rtc (edge (tdb_nodes db)) node x → tdb_nodes db !! x = Some n → db_Get x disk = Some (blob_of n)).

Lemma gone_below h : is_Some (tdb_nodes db !! h) → nodes' !! h = None → rtc (edge (tdb_nodes db)) node h.
Proof.
  intros Hs' Hn. destruct Ho as (_ & _ & Honly). destruct (Honly h Hs') as [[? ?]|(h' & [->|?%not_elem_of_nil]%elem_of_cons & Hr)]; [congruence|done|done].
Qed.

Lemma below_gone h : rtc (edge (tdb_nodes db)) node h → nodes' !! h = None.
Proof. destruct Ho as (_ & Hgone & _). apply Hgone. left. Qed.

Lemma healthy_done : healthy (mkTrieDB disk nodes' ∅).
Proof.
  destruct healthy_disk as [Hi Hdc Hda Hac Hco (meta & Hm & Hle) Hb Hha Hpr]. destruct (Hd) as [Hsub Hdown].
  cbn [set_disk tdb_disk tdb_nodes tdb_preimages] in *. split; cbn [tdb_disk tdb_nodes tdb_preimages].
  - eapply gc_inv_dropping; [done..|]. intros h [n Hn] Hnone. exists (blob_of n). apply Hst; [|done]. by apply gone_below; eauto.
  - intros p c Hp He. eapply Hdc; [done|by eapply edge_sub].
  - intros h n b Hn. apply Hda. by eapply lookup_weaken.
  - destruct Hac as [rank Hrk]. exists rank. intros p c He. by eapply Hrk, edge_sub.
  - intros h n Hn. apply Hco. by eapply lookup_weaken.
  - exists meta. split; [|done]. destruct (nodes' !! zeroHash) as [m|] eqn:E; [rewrite <- Hm; symmetry; by eapply lookup_weaken|].
    by destruct (below_not_meta zeroHash (gone_below zeroHash ltac:(eauto) E)).
  - intros h n Hn. apply Hb. by eapply lookup_weaken.
  - intros h [n Hn]. apply Hha. exists n. by eapply lookup_weaken.
  - intros h [v Hv]. by rewrite lookup_empty in Hv.
Qed.

Lemma node_done h : length h = HashLength → tdb_Node (mkTrieDB disk nodes' ∅) h = tdb_Node db h.
Proof.
  intros Hl. rewrite <- node_same by done. unfold tdb_Node. cbn [set_disk tdb_nodes tdb_disk]. destruct (nodes' !! h) as [n|] eqn:E.
  - destruct Hd as [Hsub _]. by rewrite (lookup_weaken _ _ _ _ E Hsub).
  - destruct (tdb_nodes db !! h) as [n|] eqn:En; [|done]. pose proof (gone_below h ltac:(eauto) E) as Hr. rewrite (Hst h n Hr En). unfold blob_of.
    destruct (hl_blobs _ Hh h n En (below_not_meta h Hr)) as [b Hb]. by rewrite Hb.
Qed.

Lemma preimage_done h : length h = HashLength → (∀ h v, tdb_preimages db !! h = Some v → db_Get (secureKey h) disk = Some v) →
  preimage (mkTrieDB disk nodes' ∅) h = preimage db h.
Proof.
  intros Hl Hp. rewrite <- preimage_same by done. unfold preimage. cbn [set_disk tdb_preimages tdb_disk]. rewrite lookup_empty.
  destruct (tdb_preimages db !! h) as [v|] eqn:E; [by apply Hp|done].
Qed.

End Done.

End Disk.

Lemma start_running : running (tdb_nodes db) (tdb_disk db) toWrite NewBatch (tdb_disk db).
Proof.
  assert (sound (tdb_nodes db) (tdb_disk db) toWrite (fun k => db_Get k (tdb_disk db))) as Hs.
  { split; [by left|]. intros p c He Hp. by apply (hl_closed _ Hh p). }
  split; [done|]. eapply sound_proper; [|exact Hs]. intros k. apply pending_New.
Qed.

Lemma preimages_writable h v : (h, v) ∈ map_to_list (tdb_preimages db) → toWrite (secureKey h) v ∧ ∀ c, ¬ edge (tdb_nodes db) (secureKey h) c.
Proof.
  intros Hp%elem_of_map_to_list. split; [right; eauto|]. intros c (n & Hn & _). by destruct (node_not_secure (secureKey h) h); eauto.
Qed.

(** The outcome of a failed and of a successful commit. *)
Lemma commit_failed disk : sound (tdb_nodes db) (tdb_disk db) toWrite (fun k => db_Get k disk) →
  healthy (set_disk disk db) ∧
  (∀ h, length h = HashLength → tdb_Node (set_disk disk db) h = tdb_Node db h ∧ preimage (set_disk disk db) h = preimage db h) ∧
  tdb_nodes (set_disk disk db) = tdb_nodes db ∧ tdb_preimages (set_disk disk db) = tdb_preimages db.
Proof. intros Hs. split_and!; [by apply healthy_disk| |done..]. intros h Hl. split; [by apply node_same|by apply preimage_same]. Qed.

Lemma commit_done disk nodes' : sound (tdb_nodes db) (tdb_disk db) toWrite (fun k => db_Get k disk) →
  dropping (tdb_nodes db) nodes' → dropped_only (tdb_nodes db) [node] (tdb_nodes db) nodes' →
  (∀ x n, rtc (edge (tdb_nodes db)) node x → tdb_nodes db !! x = Some n → db_Get x disk = Some (blob_of n)) →
  (∀ h v, tdb_preimages db !! h = Some v → db_Get (secureKey h) disk = Some v) →
  let db' := mkTrieDB disk nodes' ∅ in
  healthy db' ∧ (∀ h, length h = HashLength → tdb_Node db' h = tdb_Node db h ∧ preimage db' h = preimage db h) ∧
  false = false ∧ tdb_preimages db' = ∅ ∧
      (∀ h v, tdb_preimages db !! h = Some v → db_Get (secureKey h) (tdb_disk db') = Some v) ∧
      (∀ h n, tdb_nodes db !! h = Some n → rtc (edge (tdb_nodes db)) node h →
        db_Get h (tdb_disk db') = cn_blob n ∧ tdb_nodes db' !! h = None) ∧
      (∀ h, ¬ rtc (edge (tdb_nodes db)) node h → tdb_nodes db' !! h = tdb_nodes db !! h).
Proof.
  intros Hs Hd Ho Hst Hpre db'. split_and!; [by apply healthy_done| |done..| |].
  - intros h Hl. split; [by apply node_done|by eapply preimage_done].
  - intros h n Hn Hr. split; [|by eapply below_gone]. cbn. rewrite (Hst h n Hr Hn). unfold blob_of.
    destruct (hl_blobs _ Hh h n Hn (below_not_meta h Hr)) as [b Hb]. by rewrite Hb.
  - intros h Hr. cbn. destruct (nodes' !! h) as [n|] eqn:E; [symmetry; destruct Hd; by eapply lookup_weaken|].
    destruct (tdb_nodes db !! h) as [n|] eqn:En; [|done]. destruct Hr. eapply gone_below; eauto.
Qed.

End Healthy.

Lemma deeper_size (nodes : nodeMap) rank h : (size (deeper nodes rank h) ≤ size nodes)%nat.
Proof. rewrite <- size_dom. apply subseteq_size. unfold deeper. intros x [_ Hx]%elem_of_filter. done. Qed.

(** C36. Writing a trie to disk ([Commit]) loses nothing, whatever happens on
    the way.  For a node database in good order, any node but the metaroot,
    and fuel above the number of cached nodes, the call does not panic and
    leaves the database in good order: also after a failed write the disk
    holds the subtree of every node that it holds.  Every node and every
    preimage reads as before, in every case.  On an error memory is as it was.
    On success the read lock is released, the nodes that can be reached from
    the committed one are on disk with their bytes and no longer in memory,
    the other cached nodes stay, and the preimages are on disk as well. *)
Theorem Database_Commit_safe (db : TrieDB) (node : Hash) (fuel : nat) : healthy db → node ≠ zeroHash → (size (tdb_nodes db) < fuel)%nat →
  let '(held, db', r) := Database_Commit fuel node db in
  healthy db' ∧ (∀ h, length h = HashLength → tdb_Node db' h = tdb_Node db h ∧ preimage db' h = preimage db h) ∧
  match r with
  | Ok _ => held = false ∧ tdb_preimages db' = ∅ ∧
      (∀ h v, tdb_preimages db !! h = Some v → db_Get (secureKey h) (tdb_disk db') = Some v) ∧
      (∀ h n, tdb_nodes db !! h = Some n → rtc (edge (tdb_nodes db)) node h →
        db_Get h (tdb_disk db') = cn_blob n ∧ tdb_nodes db' !! h = None) ∧
      (∀ h, ¬ rtc (edge (tdb_nodes db)) node h → tdb_nodes db' !! h = tdb_nodes db !! h)
  | Err _ => tdb_nodes db' = tdb_nodes db ∧ tdb_preimages db' = tdb_preimages db
  | Panic => False
  end.
Proof.
  intros Hh Hz Hf. destruct (hl_acyclic _ Hh) as [rank Hrk].
  assert (size (deeper (tdb_nodes db) rank node) < fuel)%nat as Hdp by (pose proof (deeper_size (tdb_nodes db) rank node); lia).
  pose proof (toWrite_fun db node Hh) as Hfun. pose proof (commit_failed db node Hh Hz) as Hfail. unfold Database_Commit.
  pose proof (commitPreimages_ok (tdb_nodes db) (tdb_disk db) (toWrite db node) Hfun (map_to_list (tdb_preimages db)) NewBatch (tdb_disk db)
    (start_running db node Hh) (preimages_writable db node Hh)) as Hp.
  destruct (commitPreimages _ NewBatch _) as [[held disk1] [b1|e|]]; destruct Hp as [Hd1 Hr1]; [|by destruct (Hfail disk1 Hd1)|done].
  destruct Hr1 as (Hrun1 & _ & Hs1).
  pose proof (commit_ok (tdb_nodes db) (tdb_disk db) (toWrite db node) Hfun rank Hrk (gi_closed _ _ (hl_inv _ Hh)) fuel node b1 disk1 Hrun1 Hdp) as Hc.
  destruct (commit fuel _ node b1 disk1) as [disk2 [b2|e|]]; destruct Hc as [Hd2 Hr2]; [by intros x n Hx Hn; left; eauto| |
    by intros x n Hx Hn; left; eauto|by destruct (Hfail disk2 Hd2)|by intros x n Hx Hn; left; eauto|done].
  destruct Hr2 as (Hrun2 & Hk2 & Hs2).
  destruct (write b2 disk2) as [disk3|e|] eqn:Hw; [|by destruct (Hfail disk2 Hd2)|by unfold write in Hw; destruct (batch_Write _ _)].
  destruct (uncache_ok (tdb_nodes db) rank Hrk fuel node (tdb_nodes db)) as (nodes' & -> & Hdrop & Honly);
    [split; [done|]; intros p c (n & Hn & _) Hnone; congruence|done|].
  pose proof (pending_write b2 disk2 disk3) as Hpw.
  assert (sound (tdb_nodes db) (tdb_disk db) (toWrite db node) (fun k => db_Get k disk3)) as Hs3.
  { eapply sound_proper; [|apply Hrun2]. intros k. by apply Hpw. }
  assert (∀ x n, rtc (edge (tdb_nodes db)) node x → tdb_nodes db !! x = Some n → db_Get x disk3 = Some (blob_of n)) as Hst.
  { intros x n Hx Hn. rewrite (Hpw x Hw). by apply Hs2. }
  assert (∀ h v, tdb_preimages db !! h = Some v → db_Get (secureKey h) disk3 = Some v) as Hpre.
  { intros h v Hv. rewrite (Hpw _ Hw). apply Hk2; [right; eauto|]. apply Hs1. by apply elem_of_map_to_list. }
  apply commit_done; done.
Qed.

(** A failed write of the preimages leaves the read lock held.  With one
    preimage that makes the batch exceed its ideal size, and a disk that
    refuses the write, [Commit] returns the error without giving the lock
    back (every other error path does): memory and disk are as they were, and
    the next call that takes the write lock waits for ever. *)
Theorem Commit_leaks_lock (db : TrieDB) (node h : Hash) (pre : list Z) (b : batch) (fuel : nat) :
  tdb_preimages db = {[h := pre]} → batch_Put (secureKey h) pre NewBatch = Some b → IdealBatchSize < batch_ValueSize b →
  batch_Write b (tdb_disk db) = None → Database_Commit fuel node db = (true, db, Err WriteError).
Proof.
  intros Hp Hput Hsize Hw. unfold Database_Commit. rewrite Hp, map_to_list_singleton. cbn [commitPreimages]. unfold put. rewrite Hput.
  rewrite (proj2 (Z.ltb_lt _ _) Hsize). unfold write. rewrite Hw. by destruct db.
Qed.

End Commit.
