(* ===== verification/TrieRefs.v ===== *)
(** * The node database in use (src/fast/database.go)

    [Insert] and [Reference] keep the node database in good order, up to the
    nodes that are inserted and not referenced yet.  From an empty database, on
    the memory database of src/data/memory_database.go, this gives the
    databases on which the theorems about [Dereference] and [Commit] are used
    here. *)

From S2P Require Import Prelude Types Interfaces Rlp TrieEncoding TrieNode Trie TrieGC TrieCommit.
From stdpp Require Import base tactics option numbers list relations gmap.
From Stdlib Require Import ZArith Lia.

#[local] Open Scope Z_scope.

Section Refs.
Context `{HK : Keccak, HD : Database}.

Notation nodeMap := (gmap Hash cachedNode).

(** Good order, but for the nodes [pend] that wait for their first reference;
    the references go up in a given rank. *)
Record building (rank : Hash → nat) (pend : gset Hash) (db : TrieDB) : Prop := {
  bl_inv : gc_inv (tdb_disk db) (tdb_nodes db);
  bl_closed : disk_closed (tdb_disk db) (tdb_nodes db);
  bl_agrees : disk_agrees (tdb_disk db) (tdb_nodes db);
  bl_rank : ∀ p c, edge (tdb_nodes db) p c → (rank p < rank c)%nat;
  bl_pend : ∀ h n, tdb_nodes db !! h = Some n → h ≠ zeroHash → 0 ≤ cn_parents n ∧ (h ∉ pend → 0 < cn_parents n);
  bl_meta : ∃ meta, tdb_nodes db !! zeroHash = Some meta ∧ cn_parents meta ≤ 0;
  bl_blobs : ∀ h n, tdb_nodes db !! h = Some n → h ≠ zeroHash → is_Some (cn_blob n);
  bl_hashes : ∀ h, is_Some (tdb_nodes db !! h) → length h = HashLength;
  bl_preimages : ∀ h, is_Some (tdb_preimages db !! h) → length h = HashLength
}.

Lemma building_healthy rank db : building rank ∅ db → healthy db.
Proof.
  intros [Hi Hdc Hda Hr Hp Hm Hb Hh Hpr]. split; try done; [by exists rank|]. intros h n Hn Hz. by apply (Hp h n Hn Hz).
Qed.

(** ** The empty database *)

Lemma empty_edge (p c : Hash) : ¬ edge {[zeroHash := mkCached None 0 ∅]} p c.
Proof. intros (n & [<- <-]%lookup_singleton_Some & k & Hk). cbn in Hk. by rewrite lookup_empty in Hk. Qed.

Lemma NewDatabase_building rank diskdb : db_Get zeroHash diskdb = None → building rank ∅ (NewDatabase diskdb).
Proof.
  intros Hz. split; cbn [NewDatabase tdb_disk tdb_nodes tdb_preimages].
  - split; [|..|by intros p ?%empty_edge].
    + intros p n c k [<- <-]%lookup_singleton_Some Hk. cbn in Hk. by rewrite lookup_empty in Hk.
    + intros c n [<- <-]%lookup_singleton_Some. right. symmetry. apply refs_zero.
      intros p n [<- <-]%lookup_singleton_Some. unfold count. cbn. by rewrite lookup_empty.
    + by intros p c ?%empty_edge.
  - by intros p c _ ?%empty_edge.
  - intros h n b [<- <-]%lookup_singleton_Some Hb. congruence.
  - by intros p c ?%empty_edge.
  - by intros h n [<- _]%lookup_singleton_Some.
  - eexists. split; [apply lookup_singleton_eq|done].
  - by intros h n [<- _]%lookup_singleton_Some.
  - by intros h [n [<- _]%lookup_singleton_Some].
  - intros h [v Hv]. by rewrite lookup_empty in Hv.
Qed.

(** ** Inserting *)

Lemma insert_edge (nodes : nodeMap) h blob p c : nodes !! h = None → edge (<[h := mkCached blob 0 ∅]> nodes) p c ↔ edge nodes p c.
Proof.
  intros Hn. split.
  - intros (n & [[<- <-]|[_ Hp]]%lookup_insert_Some & Hk); [|by exists n]. destruct Hk as [k Hk]. cbn in Hk. by rewrite lookup_empty in Hk.
  - intros (n & Hp & Hk). exists n. split; [|done]. rewrite lookup_insert_ne; [done|congruence].
Qed.

Lemma insert_inv (disk : database) (nodes : nodeMap) h blob : gc_inv disk nodes → nodes !! h = None → gc_inv disk (<[h := mkCached blob 0 ∅]> nodes).
Proof.
  intros Hi Hn.
  assert (∀ c, refs (<[h := mkCached blob 0 ∅]> nodes) c = refs nodes c) as Hr.
  { intros c. rewrite refs_insert by done. unfold count. cbn. rewrite lookup_empty. cbn. lia. }
  split.
  - intros p n c k [[<- <-]|[_ Hp]]%lookup_insert_Some Hk; [cbn in Hk; by rewrite lookup_empty in Hk|by eapply (gi_counts _ _ Hi)].
  - intros c n Hc. rewrite Hr. apply lookup_insert_Some in Hc as [[<- <-]|[_ Hc]]; [|by apply (gi_parents _ _ Hi)]. cbn.
    pose proof (refs_nonneg nodes h (gi_counts _ _ Hi)). destruct (decide (refs nodes h = 0)) as [|Hne]; [by right|].
    destruct (refs_edge nodes h) as [p Hp]; [lia|]. destruct (gi_closed _ _ Hi p h Hp) as [[n' Hn']|]; [congruence|by left].
  - intros p c Hed%insert_edge; [|done]. destruct (gi_closed _ _ Hi p c Hed); [left|by right]. rewrite lookup_insert_is_Some'. by right.
  - intros p Hed%insert_edge; [|done]. by eapply (gi_meta _ _ Hi).
Qed.

(** A node that is not cached, of the bytes that the disk has for it if any. *)
Lemma tdb_insert_building rank pend db h blob : building rank pend db → tdb_nodes db !! h = None → length h = HashLength →
  (∀ b, db_Get h (tdb_disk db) = Some b → b = blob) → building rank ({[h]} ∪ pend) (tdb_insert h blob db).
Proof.
  intros [Hi Hdc Hda Hr Hp (meta & Hm & Hle) Hb Hh Hpr] Hn Hl Hd. unfold tdb_insert. rewrite Hn.
  split; cbn [set_nodes tdb_disk tdb_nodes tdb_preimages]; try done.
  - by apply insert_inv.
  - intros p c Hpp Hed%insert_edge; [|done]. by eapply Hdc.
  - intros x n b [[<- <-]|[_ Hx]]%lookup_insert_Some Hg; [by rewrite (Hd b Hg)|by eapply Hda].
  - intros p c Hed%insert_edge; [|done]. by apply Hr.
  - intros x n [[<- <-]|[_ Hx]]%lookup_insert_Some Hz; [split; [done|set_solver]|]. destruct (Hp x n Hx Hz). split; [done|set_solver].
  - exists meta. split; [|done]. rewrite lookup_insert_ne; [done|congruence].
  - intros x n [[<- <-]|[_ Hx]]%lookup_insert_Some Hz; [by eexists|by eapply Hb].
  - intros x [<-|[_ Hx]]%lookup_insert_is_Some; [done|]. by apply Hh.
Qed.

Lemma insertPreimage_building rank pend db h pre : building rank pend db → length h = HashLength → building rank pend (insertPreimage h pre db).
Proof.
  intros [] Hl. unfold insertPreimage. destruct (tdb_preimages db !! h); [done|]. split; cbn [set_preimages tdb_disk tdb_nodes tdb_preimages]; try done.
  intros x [<-|[_ Hx]]%lookup_insert_is_Some; auto.
Qed.

(** ** Referencing *)

Definition add_child (child : Hash) (n : cachedNode) : cachedNode :=
  with_children (fun ch => <[child := default 0 (ch !! child) + 1]> ch) n.

Definition counted (child parent : Hash) (nc np : cachedNode) (nodes : nodeMap) : nodeMap :=
  <[parent := add_child child np]> (<[child := with_parents (cn_parents nc + 1) nc]> nodes).

(** A call that counts the reference, and one that does not. *)
Lemma reference_cases {E} child parent db nc np : tdb_nodes db !! child = Some nc → tdb_nodes db !! parent = Some np → child ≠ parent →
  (parent ≠ zeroHash ∧ is_Some (cn_children np !! child) ∧ reference (E := E) child parent db = Ok db) ∨
  ((parent = zeroHash ∨ cn_children np !! child = None) ∧
   reference (E := E) child parent db = Ok (set_nodes (counted child parent nc np (tdb_nodes db)) db)).
Proof.
  intros Hc Hp Hne. unfold reference. rewrite Hc, Hp. cbn [deref]. rewrite bind_Ok.
  assert (∀ f, alter f parent (<[child := with_parents (cn_parents nc + 1) nc]> (tdb_nodes db)) =
    <[parent := f np]> (<[child := with_parents (cn_parents nc + 1) nc]> (tdb_nodes db))) as Halt.
  { intros f. apply map_eq. intros x. destruct (decide (parent = x)) as [<-|Hx].
    - rewrite lookup_alter_eq, lookup_insert_ne, Hp, lookup_insert_eq by done. done.
    - by rewrite lookup_alter_ne, (lookup_insert_ne _ parent) by done. }
  change (mkCached (cn_blob nc) (cn_parents nc + 1) (cn_children nc)) with (with_parents (cn_parents nc + 1) nc).
  destruct (cn_children np !! child) as [k|] eqn:Hk; [case_bool_decide as Hz; cbn [negb]|].
  - right. split; [by left|]. rewrite Halt. unfold counted, add_child, with_children. rewrite Hk. do 4 f_equal. apply map_eq. intros x.
    destruct (decide (child = x)) as [<-|Hx]; [rewrite lookup_alter_eq, Hk, lookup_insert_eq; cbn; f_equal; lia|].
    by rewrite lookup_alter_ne, lookup_insert_ne by done.
  - left. eauto.
  - right. split; [by right|]. rewrite Halt. unfold counted, add_child, with_children. rewrite Hk. done.
Qed.

Section Counted.
Context (child parent : Hash) (nc np : cachedNode) (nodes : nodeMap).
Context (Hc : nodes !! child = Some nc) (Hp : nodes !! parent = Some np) (Hne : child ≠ parent).

Lemma counted_lookup x n : counted child parent nc np nodes !! x = Some n →
  ∃ n0, nodes !! x = Some n0 ∧ cn_blob n = cn_blob n0 ∧ cn_parents n = cn_parents n0 + (if decide (x = child) then 1 else 0) ∧
    cn_children n = (if decide (x = parent) then cn_children (add_child child np) else cn_children n0).
Proof.
  unfold counted. intros [[<- <-]|[Hx [[<- <-]|[Hx' Hn]]%lookup_insert_Some]]%lookup_insert_Some.
  - exists np. rewrite decide_False, decide_True by done. split_and!; [done..|cbn; lia|done].
  - exists nc. rewrite decide_True, decide_False by done. by split_and!.
  - exists n. rewrite !decide_False by done. split_and!; [done..|lia|done].
Qed.

Lemma counted_is_some x : is_Some (counted child parent nc np nodes !! x) ↔ is_Some (nodes !! x).
Proof.
  unfold counted. rewrite !lookup_insert_is_Some'. split; [intros [<-|[<-|?]]; eauto|auto].
Qed.

Lemma counted_edge p c : edge (counted child parent nc np nodes) p c → edge nodes p c ∨ (p = parent ∧ c = child).
Proof.
  intros (n & Hn & k & Hk). destruct (counted_lookup p n Hn) as (n0 & Hn0 & _ & _ & E). rewrite E in Hk. case_decide; [|left; exists n0; eauto].
  subst p. cbn in Hk. apply lookup_insert_Some in Hk as [[<- _]|[_ Hk]]; [by right|]. left. exists np. eauto.
Qed.

Lemma counted_refs c : refs (counted child parent nc np nodes) c = refs nodes c + (if decide (c = child) then 1 else 0).
Proof.
  unfold counted. rewrite (refs_update _ parent np) by (by rewrite lookup_insert_ne). rewrite parents_refs by done. unfold count, add_child. cbn.
  case_decide; [subst; rewrite lookup_insert_eq; cbn; lia|rewrite lookup_insert_ne by done; lia].
Qed.

Lemma counted_inv (disk : database) : gc_inv disk nodes → child ≠ zeroHash → (parent = zeroHash ∨ cn_children np !! child = None) →
  gc_inv disk (counted child parent nc np nodes).
Proof.
  intros Hi Hz Hnew. split.
  - intros p n c k Hn Hk. destruct (counted_lookup p n Hn) as (n0 & Hn0 & _ & _ & E). rewrite E in Hk.
    case_decide; [subst p|by eapply (gi_counts _ _ Hi)]. cbn in Hk. apply lookup_insert_Some in Hk as [[<- <-]|[_ Hk]]; [|by eapply (gi_counts _ _ Hi parent np)].
    destruct (cn_children np !! child) as [k|] eqn:Ek; [|done]. cbn. destruct Hnew as [->|?]; [|done].
    destruct (gi_counts _ _ Hi zeroHash np child k Hp Ek). split; [lia|done].
  - intros c n Hn. rewrite counted_refs. destruct (counted_lookup c n Hn) as (n0 & Hn0 & _ & -> & _).
    destruct (gi_parents _ _ Hi c n0 Hn0) as [Hpe|Hpe]; [by left|right; lia].
  - intros p c [He|[-> ->]]%counted_edge; [|left; apply counted_is_some; eauto]. rewrite counted_is_some. by apply (gi_closed _ _ Hi p).
  - intros p [He|[_ ?]]%counted_edge; [by apply (gi_meta _ _ Hi p)|done].
Qed.

End Counted.

(** A new reference to a cached node of higher rank, on disk if the parent is. *)
Lemma reference_building {E} rank pend db child parent nc np : building rank pend db →
  tdb_nodes db !! child = Some nc → tdb_nodes db !! parent = Some np → (rank parent < rank child)%nat → child ≠ zeroHash →
  (persisted (tdb_disk db) parent → persisted (tdb_disk db) child) → parent = zeroHash ∨ cn_children np !! child = None →
  ∃ db', reference (E := E) child parent db = Ok db' ∧ building rank (pend ∖ {[child]}) db' ∧
    db' = set_nodes (counted child parent nc np (tdb_nodes db)) db.
Proof.
  intros [Hi Hdc Hda Hr Hpe (meta & Hm & Hle) Hb Hh Hpr] Hc Hp Hrk Hz Hpers Hnew. assert (child ≠ parent) as Hne by (intros ->; lia).
  destruct (reference_cases (E := E) child parent db nc np Hc Hp Hne) as [(? & [k Hk] & _)|[_ E']]; [destruct Hnew; congruence|].
  rewrite E'. eexists. split_and!; [done| |done]. pose proof (counted_lookup child parent nc np (tdb_nodes db) Hc Hp Hne) as Hl.
  pose proof (counted_edge child parent nc np (tdb_nodes db) Hc Hp Hne) as Hed.
  split; cbn [set_nodes tdb_disk tdb_nodes tdb_preimages]; try done.
  - by apply counted_inv.
  - intros p c Hpp [He|[-> ->]]%Hed; [by eapply Hdc|by apply Hpers].
  - intros h n b Hn Hg. destruct (Hl h n Hn) as (n0 & Hn0 & -> & _). by eapply Hda.
  - intros p c [He|[-> ->]]%Hed; [by apply Hr|done].
  - intros h n Hn Hnz. destruct (Hl h n Hn) as (n0 & Hn0 & _ & -> & _). destruct (Hpe h n0 Hn0 Hnz) as [H0 H1].
    case_decide; [subst; split; lia|]. split; [lia|]. intros Hnin. assert (0 < cn_parents n0); [apply H1; set_solver|lia].
  - destruct (counted_is_some child parent nc np (tdb_nodes db) Hc Hp zeroHash) as [_ [meta' Hm']]; [eauto|].
    exists meta'. split; [done|]. destruct (Hl zeroHash meta' Hm') as (n0 & Hn0 & _ & -> & _). rewrite Hm in Hn0. injection Hn0 as <-.
    rewrite decide_False by done. lia.
  - intros h n Hn Hnz. destruct (Hl h n Hn) as (n0 & Hn0 & -> & _). by eapply Hb.
  - intros h Hs. apply Hh. by apply counted_is_some in Hs.
Qed.

(** ** A check for references that can be computed *)

Definition refer (child parent : Hash) (db : TrieDB) : TrieDB :=
  match reference (E := Empty_set) child parent db with Ok db => db | _ => db end.

Definition may_refer (rank : Hash → nat) (child parent : Hash) (db : TrieDB) : bool :=
  match tdb_nodes db !! child, tdb_nodes db !! parent with
  | Some _, Some np => (rank parent <? rank child)%nat && bool_decide (child ≠ zeroHash) && bool_decide (db_Get parent (tdb_disk db) = None) &&
      bool_decide (parent = zeroHash ∨ cn_children np !! child = None)
  | _, _ => false
  end.

Lemma refer_building rank pend db child parent : building rank pend db → may_refer rank child parent db = true →
  building rank (pend ∖ {[child]}) (refer child parent db).
Proof.
  intros Hb. unfold may_refer, refer. destruct (tdb_nodes db !! child) as [nc|] eqn:Hc; [|done]. destruct (tdb_nodes db !! parent) as [np|] eqn:Hp; [|done].
  intros [[[Hr%Nat.ltb_lt Hz%bool_decide_eq_true]%andb_true_iff Hd%bool_decide_eq_true]%andb_true_iff Hn%bool_decide_eq_true]%andb_true_iff.
  destruct (reference_building (E := Empty_set) rank pend db child parent nc np Hb Hc Hp Hr Hz) as (db' & -> & Hb' & _); [|done|done].
  intros [b Hb']. congruence.
Qed.

End Refs.

(** ** Two tries that share a node *)

Module DemoRefs.
Import MemDatabase.

Definition hash (n : Z) : Hash := replicate 31 0 ++ [n].
Definition rank (h : Hash) : nat := if decide (h = zeroHash) then 0 else if decide (h = hash 1 ∨ h = hash 4) then 1 else 2.

(** 1 has the children 2 and 3, 4 the child 3; the metaroot holds 1 and 4. *)
Definition inserted : TrieDB :=
  tdb_insert (hash 4) [44] (tdb_insert (hash 1) [11] (tdb_insert (hash 3) [33] (tdb_insert (hash 2) [22]
    (insertPreimage (hash 9) [99] (NewDatabase NewMemDatabase))))).
Definition demo : TrieDB :=
  refer (hash 4) zeroHash (refer (hash 1) zeroHash (refer (hash 3) (hash 4) (refer (hash 3) (hash 1) (refer (hash 2) (hash 1) inserted)))).

Lemma inserted_building : building rank {[hash 4; hash 1; hash 3; hash 2]} inserted.
Proof.
  assert (∀ db h, db_Get h (tdb_disk db) = None → ∀ (blob b : list Z), db_Get h (tdb_disk db) = Some b → b = blob) as Hnone by (intros; congruence).
  unfold inserted. replace ({[hash 4; hash 1; hash 3; hash 2]} : gset Hash) with ({[hash 4]} ∪ ({[hash 1]} ∪ ({[hash 3]} ∪ ({[hash 2]} ∪ (∅ : gset Hash))))) by (vm_compute; reflexivity).
  do 4 (apply tdb_insert_building; [|vm_compute; reflexivity|reflexivity|apply Hnone; vm_compute; reflexivity]).
  apply insertPreimage_building; [|reflexivity]. apply NewDatabase_building. vm_compute; reflexivity.
Qed.

Lemma demo_healthy : healthy demo.
Proof.
  apply (building_healthy rank). replace (∅ : gset Hash) with ((({[hash 4; hash 1; hash 3; hash 2]} : gset Hash) ∖ {[hash 2]} ∖ {[hash 3]} ∖ {[hash 3]} ∖ {[hash 1]}) ∖ {[hash 4]})
    by (vm_compute; reflexivity).
  unfold demo. do 5 (apply refer_building; [|vm_compute; reflexivity]). apply inserted_building.
Qed.

Lemma demo_edge h : is_Some (default ∅ (cn_children <$> tdb_nodes demo !! zeroHash) !! h) → edge (tdb_nodes demo) zeroHash h.
Proof. unfold edge. destruct (tdb_nodes demo !! zeroHash) as [n|]; [intros Hk; by exists n|]. intros [k Hk]. cbn in Hk. by rewrite lookup_empty in Hk. Qed.

(** Giving up 1 frees 1 and 2; 3 is still held by 4. *)
Definition released : TrieDB := match Dereference (hash 1) zeroHash demo with Ok db => db | _ => demo end.

Lemma Dereference_exact_witness : Dereference (hash 1) zeroHash demo = Ok released ∧ healthy released ∧
  tdb_nodes released !! hash 2 = None ∧ tdb_Node released (hash 3) = Some [33].
Proof.
  destruct (Dereference_exact demo (hash 1) demo_healthy) as (db' & E & _ & _ & Hh & _); [apply demo_edge; vm_compute; by eexists|].
  assert (released = db') as Er by (unfold released; by rewrite E). rewrite <- Er in E, Hh. split_and!; [exact E|exact Hh|vm_compute; reflexivity..].
Defined.

(** Committing 1 writes 1, 2, 3 and the preimage; 4 stays in memory. *)
Definition committed : TrieDB := (Database_Commit 6 (hash 1) demo).1.2.

Lemma Database_Commit_safe_witness : healthy committed ∧ (Database_Commit 6 (hash 1) demo).2 = Ok tt ∧
  tdb_nodes committed !! hash 3 = None ∧ tdb_Node committed (hash 3) = Some [33] ∧ preimage committed (hash 9) = Some [99].
Proof.
  assert (hash 1 ≠ zeroHash) as Hz by (vm_compute; discriminate). assert (size (tdb_nodes demo) < 6)%nat as Hs by (vm_compute; lia).
  pose proof (Database_Commit_safe demo (hash 1) 6 demo_healthy Hz Hs) as Hc. unfold committed.
  assert ((Database_Commit 6 (hash 1) demo).2 = Ok tt) as Hr by (vm_compute; reflexivity).
  assert (tdb_nodes (Database_Commit 6 (hash 1) demo).1.2 !! hash 3 = None) as Hn by (vm_compute; reflexivity).
  destruct (Database_Commit 6 (hash 1) demo) as [[held db'] r]. cbn [fst snd] in *. destruct Hc as (Hh & Hv & _). split_and!; [done..| |].
  - destruct (Hv (hash 3) eq_refl) as [-> _]. vm_compute; reflexivity.
  - destruct (Hv (hash 9) eq_refl) as [_ ->]. vm_compute; reflexivity.
Defined.

(** A disk that refuses every batch. *)
#[local] Program Instance brokenBatches : Batches := {|
  batch := memBatch; NewBatch := NewMemBatch; batch_Put := batchPut; batch_ValueSize := ValueSize;
  batch_Write := fun _ _ => None; batch_Reset := batchReset; batch_writes := writes
|}.
Next Obligation. done. Qed.
Next Obligation. by intros k v b b' [= <-]. Qed.
Next Obligation. done. Qed.
Next Obligation. done. Qed.

Lemma Commit_leaks_lock_witness :
  let db := insertPreimage (hash 9) (replicate (Z.to_nat IdealBatchSize + 1) 0) (NewDatabase NewMemDatabase) in
  Database_Commit (HB := brokenBatches) 1 (hash 1) db = (true, db, Err WriteError).
Proof.
  intros db. eapply (Commit_leaks_lock db (hash 1) (hash 9)); [reflexivity|reflexivity|vm_compute; reflexivity|reflexivity].
Defined.

End DemoRefs.
