(* ===== verification/State.v ===== *)
(** * The state database (src/kernel/state)

    Accounts live in a trie of accounts; each has a storage trie and code.  A
    [StateDB] keeps the objects it has loaded, journals every change so that a
    snapshot can be restored, and writes the changed objects back to the tries.
    An object is identified by its address: the pointers of the code always
    point to the object in the map, or to one that is about to be put there. *)

From S2P Require Import Prelude Types Interfaces Rlp RlpStream Trie.
From stdpp Require Import base tactics option numbers list gmap.
From Stdlib Require Import ZArith Lia.

#[local] Open Scope Z_scope.

(** Errors that are recorded, and a result that can only be a panic. *)
Inductive stateError :=
| SE_trie (e : trieError)
| SE_storageTrie (e : trieError)
| SE_split (e : RlpError)
| SE_code (codeHash : Hash).

Notation pan := (outcome Empty_set).

(** ** Logs (src/kernel/types/log.go) *)

Record Log := mkLog {
  log_Address : Address;
  log_Topics : list Hash;
  log_Data : list Z;
  log_BlockNumber : Z;
  log_TxHash : Hash;
  log_TxIndex : Z;
  log_BlockHash : Hash;
  log_Index : Z;
  log_Removed : bool
}.

(** ** Accounts *)

Record Account := mkAccount {
  acc_Nonce : Z;
  acc_Balance : Z;
  acc_Root : Hash;
  acc_CodeHash : list Z
}.

(** An [Account] whose pointers may be nil, as [newObject] takes it. *)
Record AccountData := mkAccountData {
  ad_Nonce : Z;
  ad_Balance : option Z;
  ad_Root : Hash;
  ad_CodeHash : option (list Z)
}.

(** [Account{}] *)
Definition zeroAccount : AccountData := mkAccountData 0 None zeroHash None.

Definition account_value (a : Account) : value :=
  VStruct [VUint (acc_Nonce a); VBigIntPtr (Some (acc_Balance a)); VBytes (acc_Root a); VBytes (acc_CodeHash a)].

Definition account_type : rtype := TStruct [TUint 64; TBigInt; TByteArray 32; TBytes].

(** The account that a decoded value is. *)
Definition account_of (v : value) : option AccountData :=
  match v with
  | VStruct [VUint nonce; VBigIntPtr balance; VBytes root; VBytes code] =>
      Some (mkAccountData nonce balance root (Some code))
  | _ => None
  end.

(** Storage keys and values are hashes; a value is stored without its leading
    zeros. *)
Fixpoint trimLeft (b : list Z) : list Z :=
  match b with
  | 0 :: b => trimLeft b
  | _ => b
  end.

Section State.
Context `{HK : Keccak, HD : Database, HC : ARCCache Z}.

Definition emptyCodeHash : list Z := Keccak256 [].

(** ** The database of the state (database.go) *)

Record cachingDB := mkCachingDB {
  cdb_db : TrieDB;
  cdb_pastTries : list SecureTrie;
  cdb_codeSizeCache : arc_cache
}.

Definition set_trieDB (x : TrieDB) (db : cachingDB) : cachingDB := mkCachingDB x (cdb_pastTries db) (cdb_codeSizeCache db).
Definition set_pastTries (x : list SecureTrie) (db : cachingDB) : cachingDB := mkCachingDB (cdb_db db) x (cdb_codeSizeCache db).
Definition set_codeSizeCache (x : arc_cache) (db : cachingDB) : cachingDB := mkCachingDB (cdb_db db) (cdb_pastTries db) x.

Definition NewStateDatabase (db : database) : cachingDB := mkCachingDB (Trie.NewDatabase db) [] arc_new.

Definition MaxTrieCacheGen : Z := 120.
Definition maxPastTries : nat := 12.

(** The search for a past trie with the root, from the newest one on; hashing
    a trie leaves its hashes cached. *)
Fixpoint findPast (root : Hash) (past : list SecureTrie) : tres (list SecureTrie * option SecureTrie) :=
  match past with
  | [] => Ok ([], None)
  | t :: older =>
      '(t, h) ← Secure_Hash t;
      if bool_decide (h = root) then Ok (t :: older, Some (Secure_Copy t))
      else '(older, found) ← findPast root older; Ok (t :: older, found)
  end.

Definition OpenTrie (root : Hash) (db : cachingDB) : tres (cachingDB * SecureTrie) :=
  '(newestFirst, found) ← findPast root (reverse (cdb_pastTries db));
  let db := set_pastTries (reverse newestFirst) db in
  match found with
  | Some t => Ok (db, t)
  | None => t ← NewSecure root (cdb_db db) MaxTrieCacheGen; Ok (db, t)
  end.

Definition pushTrie (t : SecureTrie) (db : cachingDB) : cachingDB :=
  if (maxPastTries <=? length (cdb_pastTries db))%nat
  then set_pastTries (tail (cdb_pastTries db) ++ [t]) db
  else set_pastTries (cdb_pastTries db ++ [t]) db.

Definition OpenStorageTrie (addrHash root : Hash) (db : cachingDB) : tres SecureTrie :=
  NewSecure root (cdb_db db) 0.

Definition CopyTrie (t : SecureTrie) : SecureTrie := Secure_Copy t.

(** [ContractCode]: nil and an error for an unknown hash, nil alone for the
    metaroot of the node database. *)
Definition ContractCode (codeHash : Hash) (db : cachingDB) : cachingDB * option (list Z) * option stateError :=
  let found code := (set_codeSizeCache (arc_add codeHash (strlen (default [] code)) (cdb_codeSizeCache db)) db, code, None) in
  match tdb_nodes (cdb_db db) !! codeHash with
  | Some node => found (cn_blob node)
  | None =>
      match db_Get codeHash (tdb_disk (cdb_db db)) with
      | Some code => found (Some code)
      | None => (db, None, Some (SE_code codeHash))
      end
  end.

Definition ContractCodeSize (codeHash : Hash) (db : cachingDB) : cachingDB * Z * option stateError :=
  let '(cache, cached) := arc_get codeHash (cdb_codeSizeCache db) in
  let db := set_codeSizeCache cache db in
  match cached with
  | Some n => (db, n, None)
  | None =>
      let '(db, code, err) := ContractCode codeHash db in
      let size := strlen (default [] code) in
      (if err then db else set_codeSizeCache (arc_add codeHash size (cdb_codeSizeCache db)) db, size, err)
  end.

(** [cachedTrie.Commit].  The trie pushed is the one the state goes on using; a
    later search compares hashes, so the model keeps the committed value. *)
Definition cached_Commit (onleaf : option LeafCallback) (t : SecureTrie) (db : cachingDB)
    : tres (SecureTrie * cachingDB * Hash) :=
  '(t, tdb, root) ← Secure_Commit onleaf t (cdb_db db);
  Ok (t, pushTrie t (set_trieDB tdb db), root).

(** ** State objects (state_object.go) *)

(** [onDirty] is the callback that marks the object dirty, while it is armed. *)
Record stateObject := mkObject {
  so_address : Address;
  so_addrHash : Hash;
  so_data : Account;
  so_dbErr : option stateError;
  so_trie : option SecureTrie;
  so_code : option (list Z);
  so_cachedStorage : gmap Hash Hash;
  so_dirtyStorage : gmap Hash Hash;
  so_dirtyCode : bool;
  so_suicided : bool;
  so_touched : bool;
  so_deleted : bool;
  so_onDirty : bool
}.

Definition set_data (x : Account) (o : stateObject) : stateObject :=
  mkObject (so_address o) (so_addrHash o) x (so_dbErr o) (so_trie o) (so_code o) (so_cachedStorage o)
    (so_dirtyStorage o) (so_dirtyCode o) (so_suicided o) (so_touched o) (so_deleted o) (so_onDirty o).
Definition set_objErr (x : option stateError) (o : stateObject) : stateObject :=
  mkObject (so_address o) (so_addrHash o) (so_data o) x (so_trie o) (so_code o) (so_cachedStorage o)
    (so_dirtyStorage o) (so_dirtyCode o) (so_suicided o) (so_touched o) (so_deleted o) (so_onDirty o).
Definition set_objTrie (x : option SecureTrie) (o : stateObject) : stateObject :=
  mkObject (so_address o) (so_addrHash o) (so_data o) (so_dbErr o) x (so_code o) (so_cachedStorage o)
    (so_dirtyStorage o) (so_dirtyCode o) (so_suicided o) (so_touched o) (so_deleted o) (so_onDirty o).
Definition set_objCode (x : option (list Z)) (o : stateObject) : stateObject :=
  mkObject (so_address o) (so_addrHash o) (so_data o) (so_dbErr o) (so_trie o) x (so_cachedStorage o)
    (so_dirtyStorage o) (so_dirtyCode o) (so_suicided o) (so_touched o) (so_deleted o) (so_onDirty o).
Definition set_cachedStorage (x : gmap Hash Hash) (o : stateObject) : stateObject :=
  mkObject (so_address o) (so_addrHash o) (so_data o) (so_dbErr o) (so_trie o) (so_code o) x
    (so_dirtyStorage o) (so_dirtyCode o) (so_suicided o) (so_touched o) (so_deleted o) (so_onDirty o).
Definition set_dirtyStorage (x : gmap Hash Hash) (o : stateObject) : stateObject :=
  mkObject (so_address o) (so_addrHash o) (so_data o) (so_dbErr o) (so_trie o) (so_code o) (so_cachedStorage o)
    x (so_dirtyCode o) (so_suicided o) (so_touched o) (so_deleted o) (so_onDirty o).
Definition set_dirtyCode (x : bool) (o : stateObject) : stateObject :=
  mkObject (so_address o) (so_addrHash o) (so_data o) (so_dbErr o) (so_trie o) (so_code o) (so_cachedStorage o)
    (so_dirtyStorage o) x (so_suicided o) (so_touched o) (so_deleted o) (so_onDirty o).
Definition set_suicided (x : bool) (o : stateObject) : stateObject :=
  mkObject (so_address o) (so_addrHash o) (so_data o) (so_dbErr o) (so_trie o) (so_code o) (so_cachedStorage o)
    (so_dirtyStorage o) (so_dirtyCode o) x (so_touched o) (so_deleted o) (so_onDirty o).
Definition set_touched (x : bool) (o : stateObject) : stateObject :=
  mkObject (so_address o) (so_addrHash o) (so_data o) (so_dbErr o) (so_trie o) (so_code o) (so_cachedStorage o)
    (so_dirtyStorage o) (so_dirtyCode o) (so_suicided o) x (so_deleted o) (so_onDirty o).
Definition set_deleted (x : bool) (o : stateObject) : stateObject :=
  mkObject (so_address o) (so_addrHash o) (so_data o) (so_dbErr o) (so_trie o) (so_code o) (so_cachedStorage o)
    (so_dirtyStorage o) (so_dirtyCode o) (so_suicided o) (so_touched o) x (so_onDirty o).
Definition set_onDirty (x : bool) (o : stateObject) : stateObject :=
  mkObject (so_address o) (so_addrHash o) (so_data o) (so_dbErr o) (so_trie o) (so_code o) (so_cachedStorage o)
    (so_dirtyStorage o) (so_dirtyCode o) (so_suicided o) (so_touched o) (so_deleted o) x.

Definition set_Nonce (x : Z) (o : stateObject) : stateObject :=
  set_data (mkAccount x (acc_Balance (so_data o)) (acc_Root (so_data o)) (acc_CodeHash (so_data o))) o.
Definition set_Balance (x : Z) (o : stateObject) : stateObject :=
  set_data (mkAccount (acc_Nonce (so_data o)) x (acc_Root (so_data o)) (acc_CodeHash (so_data o))) o.
Definition set_Root (x : Hash) (o : stateObject) : stateObject :=
  set_data (mkAccount (acc_Nonce (so_data o)) (acc_Balance (so_data o)) x (acc_CodeHash (so_data o))) o.
Definition set_CodeHash (x : list Z) (o : stateObject) : stateObject :=
  set_data (mkAccount (acc_Nonce (so_data o)) (acc_Balance (so_data o)) (acc_Root (so_data o)) x) o.

Definition obj_empty (o : stateObject) : bool :=
  (acc_Nonce (so_data o) =? 0) && (acc_Balance (so_data o) =? 0) && bool_decide (acc_CodeHash (so_data o) = emptyCodeHash).

Definition newObject (address : Address) (data : AccountData) (onDirty : bool) : stateObject :=
  let data := mkAccount (ad_Nonce data) (default 0 (ad_Balance data)) (ad_Root data) (default emptyCodeHash (ad_CodeHash data)) in
  mkObject address (Keccak256 address) data None None None ∅ ∅ false false false false onDirty.

(** The first error is kept; nil changes nothing. *)
Definition obj_setError (e : option stateError) (o : stateObject) : stateObject :=
  match so_dbErr o with None => set_objErr e o | Some _ => o end.

Definition obj_getTrie (db : cachingDB) (o : stateObject) : pan (stateObject * SecureTrie) :=
  match so_trie o with
  | Some t => Ok (o, t)
  | None =>
      match OpenStorageTrie (so_addrHash o) (acc_Root (so_data o)) db with
      | Ok t => Ok (set_objTrie (Some t) o, t)
      | Err e =>
          match OpenStorageTrie (so_addrHash o) zeroHash db with
          | Ok t => Ok (obj_setError (Some (SE_storageTrie e)) (set_objTrie (Some t) o), t)
          | _ => Panic
          end
      | Panic => Panic
      end
  end.

Definition obj_GetState (db : cachingDB) (key : Hash) (o : stateObject) : pan (stateObject * Hash) :=
  match so_cachedStorage o !! key with
  | Some value => Ok (o, value)
  | None =>
      '(o, t) ← obj_getTrie db o;
      let '(t, r) := Secure_TryGet (cdb_db db) key t in
      let o := set_objTrie (Some t) o in
      match r with
      | Err e => Ok (obj_setError (Some (SE_trie e)) o, zeroHash)
      | Panic => Panic
      | Ok enc =>
          let enc := default [] enc in
          '(o, value) ←
            (if 0 <? strlen enc then
               match Split enc with
               | Ok (_, content, _) => Ok (o, BytesToHash content)
               | Err e => Ok (obj_setError (Some (SE_split e)) o, BytesToHash [])
               | Panic => Panic
               end
             else Ok (o, zeroHash));
          Ok (if bool_decide (value ≠ zeroHash) then set_cachedStorage (<[key := value]> (so_cachedStorage o)) o else o, value)
      end
  end.

(** The loop of [updateTrie] over the dirty entries, in the order [order]. *)
Fixpoint updateTrie_loop (db : cachingDB) (order : list (Hash * Hash)) (o : stateObject) (t : SecureTrie)
    : pan (stateObject * SecureTrie) :=
  match order with
  | [] => Ok (o, t)
  | (key, value) :: order =>
      let o := set_dirtyStorage (delete key (so_dirtyStorage o)) o in
      if bool_decide (value = zeroHash) then
        match Secure_TryDelete (cdb_db db) key t with
        | (t, Ok _) => updateTrie_loop db order o t
        | (t, Err e) => updateTrie_loop db order (obj_setError (Some (SE_trie e)) o) t
        | (_, Panic) => Panic
        end
      else
        v ← match EncodeToBytes (VBytes (trimLeft value)) with Ok v => Ok v | Err _ => Ok [] | Panic => Panic end;
        match Secure_TryUpdate (cdb_db db) key v t with
        | (t, Ok _) => updateTrie_loop db order o t
        | (t, Err e) => updateTrie_loop db order (obj_setError (Some (SE_trie e)) o) t
        | (_, Panic) => Panic
        end
  end.

Definition obj_updateTrie (db : cachingDB) (o : stateObject) : pan stateObject :=
  '(o, t) ← obj_getTrie db o;
  '(o, t) ← updateTrie_loop db (map_to_list (so_dirtyStorage o)) o t;
  Ok (set_objTrie (Some t) o).

Definition never_err {E A} (r : outcome E A) : pan A :=
  match r with Ok a => Ok a | _ => Panic end.

Definition obj_updateRoot (db : cachingDB) (o : stateObject) : pan stateObject :=
  o ← obj_updateTrie db o;
  t ← deref (so_trie o);
  '(t, root) ← never_err (Secure_Hash t);
  Ok (set_Root root (set_objTrie (Some t) o)).

(** [CommitTrie]: the new object, the database, and the error. *)
Definition obj_CommitTrie (db : cachingDB) (o : stateObject) : pan (stateObject * cachingDB * option stateError) :=
  o ← obj_updateTrie db o;
  match so_dbErr o with
  | Some e => Ok (o, db, Some e)
  | None =>
      t ← deref (so_trie o);
      match Secure_Commit None t (cdb_db db) with
      | Ok (t, tdb, root) => Ok (set_Root root (set_objTrie (Some t) o), set_trieDB tdb db, None)
      | Err e => Ok (o, db, Some (SE_trie e))
      | Panic => Panic
      end
  end.

(** The code of an object; it is loaded once. *)
Definition obj_Code (db : cachingDB) (o : stateObject) : cachingDB * stateObject * option (list Z) :=
  match so_code o with
  | Some code => (db, o, Some code)
  | None =>
      if bool_decide (acc_CodeHash (so_data o) = emptyCodeHash) then (db, o, None)
      else
        let '(db, code, err) := ContractCode (BytesToHash (acc_CodeHash (so_data o))) db in
        (db, set_objCode code (match err with Some e => obj_setError (Some e) o | None => o end), code)
  end.

Definition obj_deepCopy (o : stateObject) (onDirty : bool) : stateObject :=
  mkObject (so_address o) (Keccak256 (so_address o)) (so_data o) None (CopyTrie <$> so_trie o) (so_code o)
    (so_dirtyStorage o) (so_dirtyStorage o) (so_dirtyCode o) (so_suicided o) false (so_deleted o) onDirty.

(** ** The journal (journal.go) *)

Inductive journalEntry :=
| createObjectChange (account : Address)
| resetObjectChange (prev : stateObject)
| suicideChange (account : Address) (prev : bool) (prevbalance : Z)
| balanceChange (account : Address) (prev : Z)
| nonceChange (account : Address) (prev : Z)
| storageChange (account : Address) (key prevalue : Hash)
| codeChange (account : Address) (prevcode : option (list Z)) (prevhash : list Z)
| refundChange (prev : Z)
| addLogChange (txhash : Hash)
| addPreimageChange (hash : Hash)
| touchChange (account : Address) (prev prevDirty : bool).

Record revision := mkRevision { rev_id : Z; rev_journalIndex : nat }.

(** ** The state (statedb.go) *)

Record StateDB := mkState {
  sdb_db : cachingDB;
  sdb_trie : SecureTrie;
  sdb_stateObjects : gmap Address stateObject;
  sdb_stateObjectsDirty : gset Address;
  sdb_dbErr : option stateError;
  sdb_refund : Z;
  sdb_thash : Hash;
  sdb_bhash : Hash;
  sdb_txIndex : Z;
  sdb_logs : gmap Hash (list Log);
  sdb_logSize : Z;
  sdb_preimages : gmap Hash (list Z);
  sdb_journal : list journalEntry;
  sdb_validRevisions : list revision;
  sdb_nextRevisionId : Z
}.

Definition set_db (x : cachingDB) (s : StateDB) : StateDB :=
  mkState x (sdb_trie s) (sdb_stateObjects s) (sdb_stateObjectsDirty s) (sdb_dbErr s) (sdb_refund s) (sdb_thash s)
    (sdb_bhash s) (sdb_txIndex s) (sdb_logs s) (sdb_logSize s) (sdb_preimages s) (sdb_journal s)
    (sdb_validRevisions s) (sdb_nextRevisionId s).
Definition set_trie (x : SecureTrie) (s : StateDB) : StateDB :=
  mkState (sdb_db s) x (sdb_stateObjects s) (sdb_stateObjectsDirty s) (sdb_dbErr s) (sdb_refund s) (sdb_thash s)
    (sdb_bhash s) (sdb_txIndex s) (sdb_logs s) (sdb_logSize s) (sdb_preimages s) (sdb_journal s)
    (sdb_validRevisions s) (sdb_nextRevisionId s).
Definition set_objects (x : gmap Address stateObject) (s : StateDB) : StateDB :=
  mkState (sdb_db s) (sdb_trie s) x (sdb_stateObjectsDirty s) (sdb_dbErr s) (sdb_refund s) (sdb_thash s)
    (sdb_bhash s) (sdb_txIndex s) (sdb_logs s) (sdb_logSize s) (sdb_preimages s) (sdb_journal s)
    (sdb_validRevisions s) (sdb_nextRevisionId s).
Definition set_dirty (x : gset Address) (s : StateDB) : StateDB :=
  mkState (sdb_db s) (sdb_trie s) (sdb_stateObjects s) x (sdb_dbErr s) (sdb_refund s) (sdb_thash s)
    (sdb_bhash s) (sdb_txIndex s) (sdb_logs s) (sdb_logSize s) (sdb_preimages s) (sdb_journal s)
    (sdb_validRevisions s) (sdb_nextRevisionId s).
Definition set_dbErr (x : option stateError) (s : StateDB) : StateDB :=
  mkState (sdb_db s) (sdb_trie s) (sdb_stateObjects s) (sdb_stateObjectsDirty s) x (sdb_refund s) (sdb_thash s)
    (sdb_bhash s) (sdb_txIndex s) (sdb_logs s) (sdb_logSize s) (sdb_preimages s) (sdb_journal s)
    (sdb_validRevisions s) (sdb_nextRevisionId s).
Definition set_refund (x : Z) (s : StateDB) : StateDB :=
  mkState (sdb_db s) (sdb_trie s) (sdb_stateObjects s) (sdb_stateObjectsDirty s) (sdb_dbErr s) x (sdb_thash s)
    (sdb_bhash s) (sdb_txIndex s) (sdb_logs s) (sdb_logSize s) (sdb_preimages s) (sdb_journal s)
    (sdb_validRevisions s) (sdb_nextRevisionId s).
Definition set_logs (x : gmap Hash (list Log)) (n : Z) (s : StateDB) : StateDB :=
  mkState (sdb_db s) (sdb_trie s) (sdb_stateObjects s) (sdb_stateObjectsDirty s) (sdb_dbErr s) (sdb_refund s)
    (sdb_thash s) (sdb_bhash s) (sdb_txIndex s) x n (sdb_preimages s) (sdb_journal s)
    (sdb_validRevisions s) (sdb_nextRevisionId s).
Definition set_statePreimages (x : gmap Hash (list Z)) (s : StateDB) : StateDB :=
  mkState (sdb_db s) (sdb_trie s) (sdb_stateObjects s) (sdb_stateObjectsDirty s) (sdb_dbErr s) (sdb_refund s)
    (sdb_thash s) (sdb_bhash s) (sdb_txIndex s) (sdb_logs s) (sdb_logSize s) x (sdb_journal s)
    (sdb_validRevisions s) (sdb_nextRevisionId s).
Definition set_journal (x : list journalEntry) (s : StateDB) : StateDB :=
  mkState (sdb_db s) (sdb_trie s) (sdb_stateObjects s) (sdb_stateObjectsDirty s) (sdb_dbErr s) (sdb_refund s)
    (sdb_thash s) (sdb_bhash s) (sdb_txIndex s) (sdb_logs s) (sdb_logSize s) (sdb_preimages s) x
    (sdb_validRevisions s) (sdb_nextRevisionId s).
Definition set_revisions (x : list revision) (next : Z) (s : StateDB) : StateDB :=
  mkState (sdb_db s) (sdb_trie s) (sdb_stateObjects s) (sdb_stateObjectsDirty s) (sdb_dbErr s) (sdb_refund s)
    (sdb_thash s) (sdb_bhash s) (sdb_txIndex s) (sdb_logs s) (sdb_logSize s) (sdb_preimages s) (sdb_journal s) x next.

Definition push (e : journalEntry) (s : StateDB) : StateDB := set_journal (sdb_journal s ++ [e]) s.

(** [state.New] *)
Definition NewState (root : Hash) (db : cachingDB) : tres StateDB :=
  '(db, tr) ← OpenTrie root db;
  Ok (mkState db tr ∅ ∅ None 0 zeroHash zeroHash 0 ∅ 0 ∅ [] [] 0).

Definition state_setError (e : option stateError) (s : StateDB) : StateDB :=
  match sdb_dbErr s with None => set_dbErr e s | Some _ => s end.

Definition clearJournalAndRefund (s : StateDB) : StateDB :=
  set_refund 0 (set_revisions [] (sdb_nextRevisionId s) (set_journal [] s)).

Definition state_Reset (root : Hash) (s : StateDB) : tres StateDB :=
  '(db, tr) ← OpenTrie root (sdb_db s);
  Ok (clearJournalAndRefund
    (mkState db tr ∅ ∅ (sdb_dbErr s) (sdb_refund s) zeroHash zeroHash 0 ∅ 0 ∅ (sdb_journal s)
      (sdb_validRevisions s) (sdb_nextRevisionId s))).

Definition AddLog (log : Log) (s : StateDB) : StateDB :=
  let s := push (addLogChange (sdb_thash s)) s in
  let log := mkLog (log_Address log) (log_Topics log) (log_Data log) (log_BlockNumber log) (sdb_thash s)
               (sdb_txIndex s) (sdb_bhash s) (sdb_logSize s) (log_Removed log) in
  set_logs (<[sdb_thash s := default [] (sdb_logs s !! sdb_thash s) ++ [log]]> (sdb_logs s)) ((sdb_logSize s + 1)%u64) s.

Definition GetLogs (hash : Hash) (s : StateDB) : list Log := default [] (sdb_logs s !! hash).

Definition AddPreimage (hash : Hash) (preimage : list Z) (s : StateDB) : StateDB :=
  match sdb_preimages s !! hash with
  | Some _ => s
  | None => set_statePreimages (<[hash := preimage]> (sdb_preimages s)) (push (addPreimageChange hash) s)
  end.

Definition AddRefund (gas : Z) (s : StateDB) : StateDB :=
  let s := push (refundChange (sdb_refund s)) s in set_refund ((sdb_refund s + gas)%u64) s.

Definition MarkStateObjectDirty (addr : Address) (s : StateDB) : StateDB :=
  set_dirty ({[addr]} ∪ sdb_stateObjectsDirty s) s.

(** The callback of the object, if it is armed, is run once. *)
Definition fireDirty (o : stateObject) (s : StateDB) : stateObject * StateDB :=
  if so_onDirty o then (set_onDirty false o, MarkStateObjectDirty (so_address o) s) else (o, s).

Definition setStateObject (o : stateObject) (s : StateDB) : StateDB :=
  set_objects (<[so_address o := o]> (sdb_stateObjects s)) s.

(** The size of an encoding bounds the decoder's recursion. *)
Definition decodeAccount (enc : list Z) : outcome RlpError value := DecodeBytes (length enc + 10) enc account_type.

(** [getStateObject]: nil for a deleted or unknown account, and for one that
    cannot be decoded. *)
Definition getStateObject (addr : Address) (s : StateDB) : pan (StateDB * option stateObject) :=
  match sdb_stateObjects s !! addr with
  | Some obj => Ok (s, if so_deleted obj then None else Some obj)
  | None =>
      let '(tr, r) := Secure_TryGet (cdb_db (sdb_db s)) addr (sdb_trie s) in
      let s := set_trie tr s in
      match r with
      | Panic => Panic
      | Err e => Ok (state_setError (Some (SE_trie e)) s, None)
      | Ok enc =>
          let enc := default [] enc in
          if strlen enc =? 0 then Ok (s, None)
          else
            match decodeAccount enc with
            | Ok v =>
                match account_of v with
                | Some data => let obj := newObject addr data true in Ok (setStateObject obj s, Some obj)
                | None => Panic
                end
            | Err _ => Ok (s, None)
            | Panic => Panic
            end
      end
  end.

(** ** Operations on objects that journal and mark *)

Definition obj_setNonce (nonce : Z) (o : stateObject) (s : StateDB) : stateObject * StateDB :=
  fireDirty (set_Nonce nonce o) s.

Definition obj_SetNonce (nonce : Z) (o : stateObject) (s : StateDB) : stateObject * StateDB :=
  obj_setNonce nonce o (push (nonceChange (so_address o) (acc_Nonce (so_data o))) s).

Definition obj_setBalance (amount : Z) (o : stateObject) (s : StateDB) : stateObject * StateDB :=
  fireDirty (set_Balance amount o) s.

Definition obj_SetBalance (amount : Z) (o : stateObject) (s : StateDB) : stateObject * StateDB :=
  obj_setBalance amount o (push (balanceChange (so_address o) (acc_Balance (so_data o))) s).

Definition obj_touch (o : stateObject) (s : StateDB) : stateObject * StateDB :=
  let s := push (touchChange (so_address o) (so_touched o) (negb (so_onDirty o))) s in
  let '(o, s) := fireDirty o s in
  (set_touched true o, s).

Definition obj_AddBalance (amount : Z) (o : stateObject) (s : StateDB) : stateObject * StateDB :=
  if amount =? 0 then if obj_empty o then obj_touch o s else (o, s)
  else obj_SetBalance (acc_Balance (so_data o) + amount) o s.

Definition obj_SubBalance (amount : Z) (o : stateObject) (s : StateDB) : stateObject * StateDB :=
  if amount =? 0 then (o, s) else obj_SetBalance (acc_Balance (so_data o) - amount) o s.

Definition obj_setState (key value : Hash) (o : stateObject) (s : StateDB) : stateObject * StateDB :=
  fireDirty (set_dirtyStorage (<[key := value]> (so_dirtyStorage o))
    (set_cachedStorage (<[key := value]> (so_cachedStorage o)) o)) s.

Definition obj_SetState (key value : Hash) (o : stateObject) (s : StateDB) : pan (stateObject * StateDB) :=
  '(o, prevalue) ← obj_GetState (sdb_db s) key o;
  Ok (obj_setState key value o (push (storageChange (so_address o) key prevalue) s)).

Definition obj_setCode (codeHash : Hash) (code : option (list Z)) (o : stateObject) (s : StateDB) : stateObject * StateDB :=
  fireDirty (set_dirtyCode true (set_CodeHash codeHash (set_objCode code o))) s.

Definition obj_SetCode (codeHash : Hash) (code : option (list Z)) (o : stateObject) (s : StateDB) : stateObject * StateDB :=
  let '(db, o, prevcode) := obj_Code (sdb_db s) o in
  obj_setCode codeHash code o (push (codeChange (so_address o) prevcode (acc_CodeHash (so_data o))) (set_db db s)).

Definition obj_markSuicided (o : stateObject) (s : StateDB) : stateObject * StateDB :=
  fireDirty (set_suicided true o) s.

(** Writing an object back to the map. *)
Definition store_obj (r : stateObject * StateDB) : StateDB := setStateObject r.1 r.2.

(** [createObject] *)
Definition createObject (addr : Address) (s : StateDB) : pan (StateDB * stateObject * option stateObject) :=
  '(s, prev) ← getStateObject addr s;
  let '(newobj, s) := obj_setNonce 0 (newObject addr zeroAccount true) s in
  let s := push (match prev with None => createObjectChange addr | Some prev => resetObjectChange prev end) s in
  Ok (setStateObject newobj s, newobj, prev).

Definition GetOrNewStateObject (addr : Address) (s : StateDB) : pan (StateDB * stateObject) :=
  '(s, obj) ← getStateObject addr s;
  match obj with
  | Some obj => if so_deleted obj then '(s, obj, _) ← createObject addr s; Ok (s, obj) else Ok (s, obj)
  | None => '(s, obj, _) ← createObject addr s; Ok (s, obj)
  end.

Definition CreateAccount (addr : Address) (s : StateDB) : pan StateDB :=
  '(s, new, prev) ← createObject addr s;
  match prev with
  | Some prev => Ok (store_obj (obj_setBalance (acc_Balance (so_data prev)) new s))
  | None => Ok s
  end.

(** ** The interface of the state *)

(** Reading a field of an object, with a default for a missing one. *)
Definition read {A} (f : stateObject → A) (d : A) (addr : Address) (s : StateDB) : pan (StateDB * A) :=
  '(s, obj) ← getStateObject addr s;
  Ok (s, from_option f d obj).

Definition Exist (addr : Address) : StateDB → pan (StateDB * bool) := read (fun _ => true) false addr.
Definition Empty (addr : Address) : StateDB → pan (StateDB * bool) := read obj_empty true addr.
Definition GetBalance (addr : Address) : StateDB → pan (StateDB * Z) := read (fun o => acc_Balance (so_data o)) 0 addr.
Definition GetNonce (addr : Address) : StateDB → pan (StateDB * Z) := read (fun o => acc_Nonce (so_data o)) 0 addr.
Definition GetCodeHash (addr : Address) : StateDB → pan (StateDB * Hash) :=
  read (fun o => BytesToHash (acc_CodeHash (so_data o))) zeroHash addr.
Definition HasSuicided (addr : Address) : StateDB → pan (StateDB * bool) := read so_suicided false addr.

Definition GetCode (addr : Address) (s : StateDB) : pan (StateDB * option (list Z)) :=
  '(s, obj) ← getStateObject addr s;
  match obj with
  | Some o => let '(db, o, code) := obj_Code (sdb_db s) o in Ok (setStateObject o (set_db db s), code)
  | None => Ok (s, None)
  end.

Definition GetCodeSize (addr : Address) (s : StateDB) : pan (StateDB * Z) :=
  '(s, obj) ← getStateObject addr s;
  match obj with
  | None => Ok (s, 0)
  | Some o =>
      match so_code o with
      | Some code => Ok (s, strlen code)
      | None =>
          let '(db, size, err) := ContractCodeSize (BytesToHash (acc_CodeHash (so_data o))) (sdb_db s) in
          let s := set_db db s in
          Ok (match err with Some e => state_setError (Some e) s | None => s end, size)
      end
  end.

Definition GetState (a : Address) (b : Hash) (s : StateDB) : pan (StateDB * Hash) :=
  '(s, obj) ← getStateObject a s;
  match obj with
  | Some o => '(o, v) ← obj_GetState (sdb_db s) b o; Ok (setStateObject o s, v)
  | None => Ok (s, zeroHash)
  end.

(** [StorageTrie]: of a copy of the object. *)
Definition StorageTrie (a : Address) (s : StateDB) : pan (StateDB * option SecureTrie) :=
  '(s, obj) ← getStateObject a s;
  match obj with
  | Some o => cpy ← obj_updateTrie (sdb_db s) (obj_deepCopy o false); Ok (s, so_trie cpy)
  | None => Ok (s, None)
  end.

Definition AddBalance (addr : Address) (amount : Z) (s : StateDB) : pan StateDB :=
  '(s, o) ← GetOrNewStateObject addr s; Ok (store_obj (obj_AddBalance amount o s)).

Definition SubBalance (addr : Address) (amount : Z) (s : StateDB) : pan StateDB :=
  '(s, o) ← GetOrNewStateObject addr s; Ok (store_obj (obj_SubBalance amount o s)).

Definition SetBalance (addr : Address) (amount : Z) (s : StateDB) : pan StateDB :=
  '(s, o) ← GetOrNewStateObject addr s; Ok (store_obj (obj_SetBalance amount o s)).

Definition SetNonce (addr : Address) (nonce : Z) (s : StateDB) : pan StateDB :=
  '(s, o) ← GetOrNewStateObject addr s; Ok (store_obj (obj_SetNonce nonce o s)).

Definition SetCode (addr : Address) (code : option (list Z)) (s : StateDB) : pan StateDB :=
  '(s, o) ← GetOrNewStateObject addr s;
  Ok (store_obj (obj_SetCode (Keccak256 (default [] code)) code o s)).

Definition SetState (addr : Address) (key value : Hash) (s : StateDB) : pan StateDB :=
  '(s, o) ← GetOrNewStateObject addr s;
  r ← obj_SetState key value o s;
  Ok (store_obj r).

Definition Suicide (addr : Address) (s : StateDB) : pan (StateDB * bool) :=
  '(s, obj) ← getStateObject addr s;
  match obj with
  | None => Ok (s, false)
  | Some o =>
      let s := push (suicideChange addr (so_suicided o) (acc_Balance (so_data o))) s in
      let '(o, s) := obj_markSuicided o s in
      Ok (setStateObject (set_Balance 0 o) s, true)
  end.

Definition Prepare (thash bhash : Hash) (ti : Z) (s : StateDB) : StateDB :=
  mkState (sdb_db s) (sdb_trie s) (sdb_stateObjects s) (sdb_stateObjectsDirty s) (sdb_dbErr s) (sdb_refund s) thash
    bhash ti (sdb_logs s) (sdb_logSize s) (sdb_preimages s) (sdb_journal s) (sdb_validRevisions s) (sdb_nextRevisionId s).

(** ** Undoing (journal.go) *)

(** The precompiled contract at address 3. *)
Definition ripemd : Address := replicate 19 0 ++ [3].

(** Changing the object at an address that the entry relies on. *)
Definition undo_obj (addr : Address) (f : stateObject → StateDB → stateObject * StateDB) (s : StateDB) : pan StateDB :=
  '(s, obj) ← getStateObject addr s;
  o ← deref obj;
  Ok (store_obj (f o s)).

Definition undo (e : journalEntry) (s : StateDB) : pan StateDB :=
  match e with
  | createObjectChange account =>
      Ok (set_dirty (sdb_stateObjectsDirty s ∖ {[account]}) (set_objects (delete account (sdb_stateObjects s)) s))
  | resetObjectChange prev => Ok (setStateObject prev s)
  | suicideChange account prev prevbalance =>
      '(s, obj) ← getStateObject account s;
      match obj with
      | Some o => Ok (store_obj (obj_setBalance prevbalance (set_suicided prev o) s))
      | None => Ok s
      end
  | touchChange account prev prevDirty =>
      if negb prev && bool_decide (account ≠ ripemd) then
        s ← undo_obj account (fun o s => (set_touched prev o, s)) s;
        Ok (if negb prevDirty then set_dirty (sdb_stateObjectsDirty s ∖ {[account]}) s else s)
      else Ok s
  | balanceChange account prev => undo_obj account (obj_setBalance prev) s
  | nonceChange account prev => undo_obj account (obj_setNonce prev) s
  | codeChange account prevcode prevhash => undo_obj account (obj_setCode (BytesToHash prevhash) prevcode) s
  | storageChange account key prevalue => undo_obj account (obj_setState key prevalue) s
  | refundChange prev => Ok (set_refund prev s)
  | addLogChange txhash =>
      let logs := default [] (sdb_logs s !! txhash) in
      if (length logs =? 1)%nat then Ok (set_logs (delete txhash (sdb_logs s)) ((sdb_logSize s - 1)%u64) s)
      else if (length logs =? 0)%nat then Panic
      else Ok (set_logs (<[txhash := take (length logs - 1) logs]> (sdb_logs s)) ((sdb_logSize s - 1)%u64) s)
  | addPreimageChange hash => Ok (set_statePreimages (delete hash (sdb_preimages s)) s)
  end.

(** ** Snapshots *)

Definition Snapshot (s : StateDB) : StateDB * Z :=
  let id := sdb_nextRevisionId s in
  (set_revisions (sdb_validRevisions s ++ [mkRevision id (length (sdb_journal s))]) (id + 1) s, id).

(** [sort.Search]: binary search for the first index at which [f] holds. *)
Fixpoint sortSearch (fuel : nat) (f : nat → bool) (i j : nat) : nat :=
  match fuel with
  | O => i
  | S fuel =>
      if (i <? j)%nat then
        let h := (i + (j - i) / 2)%nat in
        if f h then sortSearch fuel f i h else sortSearch fuel f (h + 1) j
      else i
  end.

(** The loop that undoes the entries, the last one first. *)
Fixpoint undo_all (entries : list journalEntry) (s : StateDB) : pan StateDB :=
  match entries with
  | [] => Ok s
  | e :: entries => s ← undo_all entries s; undo e s
  end.

Definition RevertToSnapshot (revid : Z) (s : StateDB) : pan StateDB :=
  let revs := sdb_validRevisions s in
  let idx := sortSearch (S (length revs)) (fun i => from_option (fun r => revid <=? rev_id r) false (revs !! i)) 0 (length revs) in
  match revs !! idx with
  | Some r =>
      if rev_id r =? revid then
        s' ← undo_all (drop (rev_journalIndex r) (sdb_journal s)) s;
        Ok (set_revisions (take idx revs) (sdb_nextRevisionId s)
             (set_journal (take (rev_journalIndex r) (sdb_journal s)) s'))
      else Panic
  | None => Panic
  end.

(** ** Writing back *)

Definition updateStateObject (o : stateObject) (s : StateDB) : pan StateDB :=
  match EncodeToBytes (account_value (so_data o)) with
  | Ok data =>
      match Secure_TryUpdate (cdb_db (sdb_db s)) (so_address o) data (sdb_trie s) with
      | (t, Ok _) => Ok (set_trie t s)
      | (t, Err e) => Ok (state_setError (Some (SE_trie e)) (set_trie t s))
      | (_, Panic) => Panic
      end
  | _ => Panic
  end.

Definition deleteStateObject (o : stateObject) (s : StateDB) : pan StateDB :=
  let s := setStateObject (set_deleted true o) s in
  match Secure_TryDelete (cdb_db (sdb_db s)) (so_address o) (sdb_trie s) with
  | (t, Ok _) => Ok (set_trie t s)
  | (t, Err e) => Ok (state_setError (Some (SE_trie e)) (set_trie t s))
  | (_, Panic) => Panic
  end.

(** One dirty address of [Finalise]; a dirty address has an object. *)
Definition finalise_one (deleteEmptyObjects : bool) (addr : Address) (s : StateDB) : pan StateDB :=
  o ← deref (sdb_stateObjects s !! addr);
  if so_suicided o || (deleteEmptyObjects && obj_empty o) then deleteStateObject o s
  else
    o ← obj_updateRoot (sdb_db s) o;
    updateStateObject o (setStateObject o s).

Fixpoint each_address (f : Address → StateDB → pan StateDB) (order : list Address) (s : StateDB) : pan StateDB :=
  match order with
  | [] => Ok s
  | addr :: order => s ← f addr s; each_address f order s
  end.

(** [Finalise] visits the dirty addresses in an order that Go leaves open. *)
Definition Finalise_in (order : list Address) (deleteEmptyObjects : bool) (s : StateDB) : pan StateDB :=
  s ← each_address (finalise_one deleteEmptyObjects) order s;
  Ok (clearJournalAndRefund s).

Definition Finalise (deleteEmptyObjects : bool) (s : StateDB) : pan StateDB :=
  Finalise_in (elements (sdb_stateObjectsDirty s)) deleteEmptyObjects s.

Definition IntermediateRoot_in (order : list Address) (deleteEmptyObjects : bool) (s : StateDB) : pan (StateDB * Hash) :=
  s ← Finalise_in order deleteEmptyObjects s;
  '(t, root) ← never_err (Secure_Hash (sdb_trie s));
  Ok (set_trie t s, root).

Definition IntermediateRoot (deleteEmptyObjects : bool) (s : StateDB) : pan (StateDB * Hash) :=
  IntermediateRoot_in (elements (sdb_stateObjectsDirty s)) deleteEmptyObjects s.

Definition DeleteSuicides (s : StateDB) : pan StateDB :=
  let s := clearJournalAndRefund s in
  each_address (fun addr s =>
    o ← deref (sdb_stateObjects s !! addr);
    let s := if so_suicided o then setStateObject (set_deleted true o) s else s in
    Ok (set_dirty (sdb_stateObjectsDirty s ∖ {[addr]}) s)) (elements (sdb_stateObjectsDirty s)) s.

(** One object of [state.Commit]; the error of [CommitTrie] ends the loop. *)
Definition commit_one (deleteEmptyObjects : bool) (addr : Address) (s : StateDB) : pan (StateDB * option stateError) :=
  o ← deref (sdb_stateObjects s !! addr);
  let isDirty := bool_decide (addr ∈ sdb_stateObjectsDirty s) in
  let done s := set_dirty (sdb_stateObjectsDirty s ∖ {[addr]}) s in
  if so_suicided o || (isDirty && deleteEmptyObjects && obj_empty o) then
    s ← deleteStateObject o s; Ok (done s, None)
  else if isDirty then
    let '(o, db) :=
      match so_code o with
      | Some code =>
          if so_dirtyCode o
          then (set_dirtyCode false o,
                set_trieDB (tdb_insert (BytesToHash (acc_CodeHash (so_data o))) code (cdb_db (sdb_db s))) (sdb_db s))
          else (o, sdb_db s)
      | None => (o, sdb_db s)
      end in
    '(o, db, err) ← obj_CommitTrie db o;
    let s := setStateObject o (set_db db s) in
    match err with
    | Some e => Ok (s, Some e)
    | None => s ← updateStateObject o s; Ok (done s, None)
    end
  else Ok (done s, None).

Fixpoint commit_each (deleteEmptyObjects : bool) (order : list Address) (s : StateDB) : pan (StateDB * option stateError) :=
  match order with
  | [] => Ok (s, None)
  | addr :: order =>
      '(s, err) ← commit_one deleteEmptyObjects addr s;
      match err with
      | Some e => Ok (s, Some e)
      | None => commit_each deleteEmptyObjects order s
      end
  end.

(** The leaf callback: accounts refer to their storage and their code.  The
    parent has just been inserted, so that [reference] finds it. *)
Definition emptyState : Hash := Keccak256 [].

Definition commitLeaf (leaf : list Z) (parent : Hash) (db : TrieDB) : TrieDB :=
  match decodeAccount leaf with
  | Ok v =>
      match account_of v with
      | Some account =>
          let db := if bool_decide (ad_Root account ≠ emptyState)
                    then default db (match reference (E := Empty_set) (ad_Root account) parent db with Ok d => Some d | _ => None end)
                    else db in
          let code := BytesToHash (default [] (ad_CodeHash account)) in
          if bool_decide (code ≠ emptyState)
          then default db (match reference (E := Empty_set) code parent db with Ok d => Some d | _ => None end)
          else db
      | None => db
      end
  | _ => db
  end.

Definition state_Commit (deleteEmptyObjects : bool) (s : StateDB) : pan (StateDB * outcome stateError Hash) :=
  '(s, err) ← commit_each deleteEmptyObjects (elements (dom (sdb_stateObjects s))) s;
  match err with
  | Some e => Ok (clearJournalAndRefund s, Err e)
  | None =>
      match cached_Commit (Some commitLeaf) (sdb_trie s) (sdb_db s) with
      | Ok (t, db, root) => Ok (clearJournalAndRefund (set_db db (set_trie t s)), Ok root)
      | Err e => Ok (clearJournalAndRefund s, Err (SE_trie e))
      | Panic => Panic
      end
  end.

(** [Copy]: the dirty objects only, and no journal; a dirty address has an
    object. *)
Fixpoint copy_objects (order : list Address) (objs : gmap Address stateObject) : pan (gmap Address stateObject) :=
  match order with
  | [] => Ok ∅
  | addr :: order =>
      o ← deref (objs !! addr);
      rest ← copy_objects order objs;
      Ok (<[addr := obj_deepCopy o true]> rest)
  end.

Definition state_Copy (s : StateDB) : pan StateDB :=
  objs ← copy_objects (elements (sdb_stateObjectsDirty s)) (sdb_stateObjects s);
  Ok (mkState (sdb_db s) (CopyTrie (sdb_trie s)) objs (sdb_stateObjectsDirty s) None (sdb_refund s) zeroHash zeroHash 0
        (sdb_logs s) (sdb_logSize s) (sdb_preimages s) [] [] 0).

End State.
