(* ===== verification/StateRevert.v ===== *)
(** * Snapshots of the state

    Whatever happens to a state between a snapshot and the return to it, nested
    snapshots included, every account, log, preimage and the refund counter
    read as they did before. *)

From S2P Require Import Prelude Types Interfaces Rlp RlpRaw RlpStream RlpDecode TrieEncoding TrieNode Trie TrieSpec State.
From stdpp Require Import base tactics option numbers list gmap sorting.
From Stdlib Require Import ZArith Lia.

#[local] Open Scope Z_scope.

Section Revert.
Context `{HK : Keccak, HD : Database, HC : ARCCache Z, !KeccakLaws}.

(** ** Tries that are only read *)

Definition secure_ok (tdb : TrieDB) (t : SecureTrie) (m : gmap (list Z) (list Z)) : Prop := trie_ok tdb (st_trie t) m.

Lemma Secure_TryGet_ok tdb t m key : secure_ok tdb t m →
  ∃ t', Secure_TryGet tdb key t = (t', Ok (m !! Keccak256 key)) ∧ secure_ok tdb t' m.
Proof.
  intros Ht. unfold Secure_TryGet, hashKey.
  destruct (TryGet_ok tdb (st_trie t) m (Keccak256 key) Ht (Keccak256_bytes key)) as (t' & -> & Ht').
  eexists. by split.
Qed.

(** ** What can be seen of an object *)

Definition open_trie (tdb : TrieDB) (o : stateObject) : tres SecureTrie :=
  match so_trie o with Some t => Ok t | None => NewSecure (acc_Root (so_data o)) tdb 0 end.

Definition trie_read (tdb : TrieDB) (o : stateObject) (k : Hash) : option (list Z) :=
  match open_trie tdb o with
  | Ok t => match (Secure_TryGet tdb k t).2 with Ok e => e | _ => None end
  | _ => None
  end.

(** The value of an encoded storage slot. *)
Definition slot_of (enc : option (list Z)) : Hash :=
  match enc with
  | Some (x :: b) => match Split (x :: b) with Ok (_, content, _) => BytesToHash content | _ => zeroHash end
  | _ => zeroHash
  end.

Definition slot_view (tdb : TrieDB) (o : stateObject) (k : Hash) : Hash :=
  match so_cachedStorage o !! k with Some v => v | None => slot_of (trie_read tdb o k) end.

Definition code_view (tdb : TrieDB) (o : stateObject) : option (list Z) :=
  match so_code o with
  | Some c => Some c
  | None => if bool_decide (acc_CodeHash (so_data o) = emptyCodeHash) then None
            else tdb_Node tdb (BytesToHash (acc_CodeHash (so_data o)))
  end.

(** Two objects that look the same. *)
Record obj_eq (tdb : TrieDB) (o1 o2 : stateObject) : Prop := {
  oe_nonce : acc_Nonce (so_data o1) = acc_Nonce (so_data o2);
  oe_balance : acc_Balance (so_data o1) = acc_Balance (so_data o2);
  oe_codeHash : acc_CodeHash (so_data o1) = acc_CodeHash (so_data o2);
  oe_code : code_view tdb o1 = code_view tdb o2;
  oe_slots : ∀ k, slot_view tdb o1 k = slot_view tdb o2 k;
  oe_suicided : so_suicided o1 = so_suicided o2
}.

#[export] Instance obj_eq_equiv tdb : Equivalence (obj_eq tdb).
Proof.
  split.
  - intros o. by split.
  - intros o1 o2 []. by split.
  - intros o1 o2 o3 [] []. split; try (etransitivity; eassumption). intros k. etransitivity; eauto.
Qed.

(** An object whose storage can be read and whose code hash is one. *)
Record obj_ok (tdb : TrieDB) (o : stateObject) : Prop := {
  ok_trie : ∃ t m, open_trie tdb o = Ok t ∧ secure_ok tdb t m;
  ok_codeHash : length (acc_CodeHash (so_data o)) = HashLength
}.

Lemma trie_read_ok tdb o t m k : open_trie tdb o = Ok t → secure_ok tdb t m → trie_read tdb o k = m !! Keccak256 k.
Proof.
  intros Ho Ht. unfold trie_read. rewrite Ho. by destruct (Secure_TryGet_ok tdb t m k Ht) as (t' & -> & _).
Qed.

(** The fields that say which object it is. *)
Definition same_object (o o' : stateObject) : Prop := so_address o' = so_address o ∧ so_deleted o' = so_deleted o.

Lemma secure_value tdb t m k b : secure_ok tdb t m → m !! k = Some b → is_bytes b ∧ strlen b < two64 ∧ b ≠ [].
Proof.
  intros [Hm _] Hl. destruct (Hm _ _ Hl) as [_ (Hne & Hb & Hlen)]. unfold maxItem, two64 in *. split_and!; [done|lia|done].
Qed.

(** Opening the trie, or reading it, changes nothing that can be seen. *)
Lemma set_trie_eq tdb o t t' m e : open_trie tdb o = Ok t → secure_ok tdb t m → secure_ok tdb t' m →
  let o' := set_objErr e (set_objTrie (Some t') o) in obj_eq tdb o' o ∧ (obj_ok tdb o → obj_ok tdb o').
Proof.
  intros Ho Ht Ht'. split.
  - split; try done. intros k. unfold slot_view. cbn [so_cachedStorage set_objTrie set_objErr].
    destruct (_ !! k); [done|]. by rewrite (trie_read_ok tdb o t m), (trie_read_ok tdb _ t' m).
  - intros [_ Hl]. split; [by exists t', m|done].
Qed.

Lemma obj_setError_eq tdb e o : obj_eq tdb (obj_setError e o) o ∧ (obj_ok tdb o → obj_ok tdb (obj_setError e o)) ∧
  same_object o (obj_setError e o).
Proof. unfold obj_setError. destruct (so_dbErr o); [done|]. split; [by split|]. split; [|done]. by intros [? ?]. Qed.

Lemma cache_slot_eq tdb o k v : slot_view tdb o k = v →
  obj_eq tdb (set_cachedStorage (<[k := v]> (so_cachedStorage o)) o) o.
Proof.
  intros Hv. split; try done. intros k'. unfold slot_view at 1. cbn [so_cachedStorage set_cachedStorage].
  destruct (decide (k' = k)) as [->|Hne]; [by rewrite lookup_insert_eq|by rewrite lookup_insert_ne].
Qed.

Definition same_view (tdb : TrieDB) (o o' : stateObject) : Prop :=
  obj_eq tdb o' o ∧ obj_ok tdb o' ∧ same_object o o'.

Lemma set_objTrie_view tdb o t t' m : obj_ok tdb o → open_trie tdb o = Ok t → secure_ok tdb t m → secure_ok tdb t' m →
  same_view tdb o (set_objTrie (Some t') o).
Proof.
  intros Hok Ho Ht Ht'. destruct (set_trie_eq tdb o t t' m (so_dbErr o) Ho Ht Ht') as [He Hk]. split_and!; [done|by apply Hk|done].
Qed.

Lemma obj_GetState_spec db tdb k o : cdb_db db = tdb → obj_ok tdb o →
  ∃ o', obj_GetState db k o = Ok (o', slot_view tdb o k) ∧ same_view tdb o o'.
Proof.
  intros Hdb Hok. unfold obj_GetState.
  destruct (so_cachedStorage o !! k) as [v|] eqn:Ec.
  { exists o. unfold slot_view. rewrite Ec. by split_and!. }
  pose proof Hok as [(t & m & Ho & Ht) Hl].
  assert (obj_getTrie db o = Ok (set_objTrie (Some t) o, t)) as ->.
  { unfold open_trie in Ho. unfold obj_getTrie, OpenStorageTrie. rewrite Hdb. destruct (so_trie o) eqn:Es; [|by rewrite Ho].
    injection Ho as ->. f_equal. f_equal. unfold set_objTrie. rewrite <- Es. by destruct o. }
  rewrite bind_Ok, Hdb. destruct (Secure_TryGet_ok tdb t m k Ht) as (t' & -> & Ht').
  assert (slot_view tdb o k = slot_of (m !! Keccak256 k)) as Hsv.
  { unfold slot_view. by rewrite Ec, (trie_read_ok tdb o t m k). }
  change (set_objTrie (Some t') (set_objTrie (Some t) o)) with (set_objTrie (Some t') o).
  pose proof (set_objTrie_view tdb o t t' m Hok Ho Ht Ht') as Hv1. set (o1 := set_objTrie (Some t') o) in *.
  assert (∃ o2, (if 0 <? strlen (default [] (m !! Keccak256 k)) then
      match Split (default [] (m !! Keccak256 k)) with
      | Ok (_, content, _) => Ok (o1, BytesToHash content)
      | Err e => Ok (obj_setError (Some (SE_split e)) o1, BytesToHash [])
      | Panic => Panic
      end else Ok (o1, zeroHash)) = Ok (E := Empty_set) (o2, slot_view tdb o k) ∧ same_view tdb o o2) as (o2 & -> & Hv2).
  { rewrite Hsv. destruct (m !! Keccak256 k) as [b|] eqn:Eb; [|by exists o1]. change (default [] (Some b)) with b.
    destruct (secure_value tdb t m _ b Ht Eb) as (Hb & Hlen & Hne). destruct b as [|x b]; [done|].
    rewrite (proj2 (Z.ltb_lt _ _)) by (cbn; lia). cbn [slot_of].
    destruct (Split (x :: b)) as [[[kd c] r]|e|] eqn:Es; [by exists o1| |by apply Split_no_panic in Es].
    destruct (obj_setError_eq tdb (Some (SE_split e)) o1) as (He & Hk & Hs).
    eexists. split; [done|]. destruct Hv1 as (He1 & Hk1 & Hs1).
    split_and!; [by transitivity o1|auto|destruct Hs, Hs1; split; congruence]. }
  rewrite bind_Ok. eexists. split; [done|]. case_bool_decide; [|done].
  destruct Hv2 as (He2 & Hk2 & Hs2). split_and!; [|destruct Hk2; by split|done].
  transitivity o2; [|done]. apply cache_slot_eq. apply He2.
Qed.

Lemma obj_Code_spec db tdb o : cdb_db db = tdb → obj_ok tdb o →
  ∃ db' o', obj_Code db o = (db', o', code_view tdb o) ∧ cdb_db db' = tdb ∧ same_view tdb o o'.
Proof.
  intros Hdb Hok. unfold obj_Code, code_view.
  destruct (so_code o) as [c|] eqn:Ec; [exists db, o; by split_and!|].
  destruct (bool_decide _) eqn:Eh; [exists db, o; by split_and!|].
  set (h := BytesToHash (acc_CodeHash (so_data o))).
  assert (∀ c o1, same_view tdb o o1 → so_code o1 = None → so_data o1 = so_data o → c = tdb_Node tdb h →
    same_view tdb o (set_objCode c o1)) as Hload.
  { intros c o1 ([] & [] & ?) Hc1 Hd1 ->. split_and!; [split; try done|by split|done].
    unfold code_view. cbn [so_code set_objCode so_data]. rewrite Ec, Hd1, Eh. fold h. by destruct (tdb_Node tdb h). }
  assert (same_view tdb o o) as Hrefl by (by split_and!).
  assert (ContractCode h db = match tdb_nodes tdb !! h with
    | Some node => (set_codeSizeCache (arc_add h (strlen (default [] (cn_blob node))) (cdb_codeSizeCache db)) db, cn_blob node, None)
    | None => match db_Get h (tdb_disk tdb) with
       | Some code => (set_codeSizeCache (arc_add h (strlen code) (cdb_codeSizeCache db)) db, Some code, None)
       | None => (db, None, Some (SE_code h)) end end) as ->.
  { unfold ContractCode. by rewrite Hdb. }
  assert (tdb_Node tdb h = match tdb_nodes tdb !! h with Some node => cn_blob node | None => db_Get h (tdb_disk tdb) end) as Hn by done.
  destruct (tdb_nodes tdb !! h) as [node|]; [|destruct (db_Get h (tdb_disk tdb)) as [code|] eqn:Eg].
  - do 2 eexists. rewrite Hn. split; [done|]. split; [done|]. by apply Hload.
  - do 2 eexists. rewrite Hn. split; [done|]. split; [done|]. by apply Hload.
  - do 2 eexists. rewrite Hn. split; [done|]. split; [done|].
    destruct (obj_setError_eq tdb (Some (SE_code h)) o) as (He & Hk & Hs). apply Hload; [by split_and!; auto| | |done];
      unfold obj_setError; by destruct (so_dbErr o).
Qed.

(** ** Decoding accounts *)

Lemma decodeAccount_total enc : is_bytes enc → strlen enc < two64 →
  (∃ v d, decodeAccount enc = Ok v ∧ account_of v = Some d) ∨ ∃ e, decodeAccount enc = Err e.
Proof.
  intros Hb Hl. unfold decodeAccount.
  destruct (DecodeBytes_spec (length enc + 10) enc account_type) as [Hp Hv];
    [cbn; unfold uint_bits; repeat split; lia|done|done|cbn; lia|].
  destruct (DecodeBytes (length enc + 10) enc account_type) as [v|e|]; [left|right; by eexists|done].
  destruct (proj1 (Hv v) eq_refl) as [Ht _]. exists v. inversion Ht; subst.
  repeat match goal with H : Forall2 _ (_ :: _) _ |- _ => inversion H; clear H; subst end.
  repeat match goal with H : has_type _ _ |- _ => inversion H; clear H; subst end.
  match goal with H : Forall2 _ [] _ |- _ => inversion H; subst end. eexists. by split.
Qed.

(** ** What can be seen of a state *)

(** The account of an address in the trie of accounts with contents [m]. *)
Definition trie_account (m : gmap (list Z) (list Z)) (a : Address) : option AccountData :=
  enc ← m !! Keccak256 a; match decodeAccount enc with Ok v => account_of v | _ => None end.

(** The object that [getStateObject] finds. *)
Definition look (m : gmap (list Z) (list Z)) (s : StateDB) (a : Address) : option stateObject :=
  match sdb_stateObjects s !! a with
  | Some o => if so_deleted o then None else Some o
  | None => (fun d => newObject a d true) <$> trie_account m a
  end.

Section Inv.
Context (tdb : TrieDB) (m : gmap (list Z) (list Z)).

(** The accounts of the trie have storage that can be opened. *)
Definition accounts_ok : Prop := ∀ a d, trie_account m a = Some d → obj_ok tdb (newObject a d true).

Record inv (s : StateDB) : Prop := {
  inv_db : cdb_db (sdb_db s) = tdb;
  inv_trie : secure_ok tdb (sdb_trie s) m;
  inv_objects : ∀ a o, sdb_stateObjects s !! a = Some o →
    so_address o = a ∧ obj_ok tdb o ∧ (so_deleted o = true → trie_account m a = None);
  inv_lazy : ∀ a d, sdb_stateObjects s !! a = None → trie_account m a = Some d → obj_ok tdb (newObject a d true);
  inv_logSize : 0 ≤ sdb_logSize s < two64
}.

Record state_eq (s1 s2 : StateDB) : Prop := {
  se_objects : ∀ a, option_Forall2 (obj_eq tdb) (look m s1 a) (look m s2 a);
  se_refund : sdb_refund s1 = sdb_refund s2;
  se_logs : ∀ h, GetLogs h s1 = GetLogs h s2;
  se_logSize : sdb_logSize s1 = sdb_logSize s2;
  se_preimages : sdb_preimages s1 = sdb_preimages s2
}.

#[export] Instance state_eq_equiv : Equivalence state_eq.
Proof.
  split.
  - intros s. by split.
  - intros s1 s2 []. by split.
  - intros s1 s2 s3 [] []. split; try (etransitivity; eassumption); intros ?; etransitivity; eauto.
Qed.

(** The transaction that is running. *)
Definition tx_of (s : StateDB) := (sdb_thash s, sdb_bhash s, sdb_txIndex s).

(** Everything but the objects, the tries, the dirty set and the journal. *)
Definition rest (s : StateDB) := (tx_of s, (sdb_refund s, sdb_logs s, sdb_logSize s, sdb_preimages s)).
Definition revs (s : StateDB) := (sdb_validRevisions s, sdb_nextRevisionId s).

Lemma look_ok s a o : inv s → look m s a = Some o → so_address o = a ∧ obj_ok tdb o ∧ so_deleted o = false.
Proof.
  intros Hi. unfold look. destruct (sdb_stateObjects s !! a) as [o'|] eqn:E.
  - destruct (so_deleted o') eqn:Ed; [done|]. intros [= <-]. by destruct (inv_objects s Hi a o' E) as (? & ? & _).
  - intros (d & Hd & ->)%fmap_Some. split_and!; [done|by eapply inv_lazy|done].
Qed.

(** A state that looks the same and has the same journal. *)
Record quiet (s s' : StateDB) : Prop := {
  q_look : ∀ a, look m s' a = look m s a;
  q_rest : rest s' = rest s;
  q_revs : revs s' = revs s;
  q_journal : sdb_journal s' = sdb_journal s
}.

Lemma quiet_eq s s' : quiet s s' → state_eq s' s.
Proof.
  intros [Hl Hr _ _]. injection Hr as Htx1 Htx2 Htx3 ? Hlogs ? ?. split; try done.
  - intros a. by rewrite Hl.
  - intros h. unfold GetLogs. by rewrite Hlogs.
Qed.

Lemma getStateObject_spec a s : inv s →
  ∃ s', getStateObject a s = Ok (s', look m s a) ∧ inv s' ∧ quiet s s' ∧
    (∀ o, look m s a = Some o → sdb_stateObjects s' !! a = Some o).
Proof.
  intros Hi. unfold getStateObject. destruct (sdb_stateObjects s !! a) as [o|] eqn:E.
  { exists s. unfold look. rewrite E. split; [done|]. split; [done|]. split; [done|].
    destruct (so_deleted o); [done|]. by intros ? [= <-]. }
  pose proof Hi as [Hdb Ht Hobj Hlz Hls]. rewrite Hdb.
  destruct (Secure_TryGet_ok tdb (sdb_trie s) m a Ht) as (t' & -> & Ht').
  assert (look m s a = (fun d => newObject a d true) <$> trie_account m a) as Hlook by (unfold look; by rewrite E).
  assert (inv (set_trie t' s)) as Hi1 by (by split).
  assert (quiet s (set_trie t' s)) as Hq1 by (by split).
  assert (look m s a = None → ∃ s', Ok (E := Empty_set) (set_trie t' s, None) = Ok (s', look m s a) ∧ inv s' ∧ quiet s s' ∧
    (∀ o, look m s a = Some o → sdb_stateObjects s' !! a = Some o)) as Hnone.
  { intros HN. rewrite HN. eexists. split; [done|]. by split_and!. }
  unfold trie_account in Hlook.
  destruct (m !! Keccak256 a) as [enc|] eqn:Em; cbn [mbind option_bind] in Hlook; [|by apply Hnone].
  destruct (secure_value tdb _ m _ enc Ht Em) as (Hb & Hlen & Hne). change (default [] (Some enc)) with enc.
  rewrite (proj2 (Z.eqb_neq _ _)) by (destruct enc; [done|cbn; lia]).
  destruct (decodeAccount_total enc Hb Hlen) as [(v & d & Ev & Ed)|[e Ev]]; rewrite Ev in *; [|by apply Hnone].
  rewrite Ed in *. cbn [fmap option_fmap option_map] in Hlook. rewrite Hlook. eexists. split; [done|].
  assert (obj_ok tdb (newObject a d true)) as Hok.
  { apply (Hlz a d E). unfold trie_account. rewrite Em. cbn [mbind option_bind]. by rewrite Ev. }
  split_and!.
  - split; [done|done| | |done]; intros a' o'; cbn [sdb_stateObjects setStateObject set_objects so_address newObject].
    + intros [[<- <-]|[Hne' Ho']]%lookup_insert_Some; [by split_and!|]. by apply Hobj.
    + intros [Ha' _]%lookup_insert_None. by apply Hlz.
  - split; [|done|done|done]. intros a'. unfold look at 1. cbn [sdb_stateObjects setStateObject set_objects so_address newObject].
    destruct (decide (a' = a)) as [->|Hne']; [by rewrite lookup_insert_eq|]. by rewrite lookup_insert_ne.
  - intros o [= <-]. cbn [sdb_stateObjects setStateObject set_objects so_address newObject]. by rewrite lookup_insert_eq.
Qed.

(** ** Changing one object *)

(** [s'] looks like [s] but for the object [o] at address [a]. *)
Record changed (a : Address) (o : stateObject) (s s' : StateDB) : Prop := {
  c_inv : inv s';
  c_look : ∀ a', look m s' a' = if decide (a' = a) then Some o else look m s a';
  c_rest : rest s' = rest s;
  c_revs : revs s' = revs s
}.

Lemma setStateObject_changed o s : inv s → obj_ok tdb o → so_deleted o = false →
  changed (so_address o) o s (setStateObject o s).
Proof.
  intros [Hdb Ht Hobj Hlz Hls] Hok Hd. split; [split; [done|done| | |done]| |done|done].
  - intros a' o'. cbn [sdb_stateObjects setStateObject set_objects].
    intros [[<- <-]|[Hne Ho']]%lookup_insert_Some; [split_and!; [done|done|congruence]|by apply Hobj].
  - intros a' d. cbn [sdb_stateObjects setStateObject set_objects]. intros [Ha' _]%lookup_insert_None. by apply Hlz.
  - intros a'. unfold look at 1. cbn [sdb_stateObjects setStateObject set_objects]. case_decide as Ha.
    + subst a'. by rewrite lookup_insert_eq, Hd.
    + by rewrite lookup_insert_ne.
Qed.

(** Steps that leave the objects alone. *)
Lemma changed_from a o s s1 s' : (∀ a, look m s1 a = look m s a) → rest s1 = rest s → revs s1 = revs s →
  changed a o s1 s' → changed a o s s'.
Proof. intros Hl Hr Hv [Hi Hl' Hr' Hv']. split; [done| |congruence|congruence]. intros a'. rewrite Hl'. by rewrite Hl. Qed.

Lemma push_inv e s : inv s → inv (push e s).
Proof. by intros []. Qed.

Lemma set_dirty_inv d s : inv s → inv (set_dirty d s).
Proof. by intros []. Qed.

Lemma set_db_inv db s : cdb_db db = tdb → inv s → inv (set_db db s).
Proof. by intros ? []. Qed.

(** Marking the object dirty and writing it to the map. *)
Lemma store_marked o s : inv s → obj_ok tdb o → so_deleted o = false →
  ∃ o', changed (so_address o) o' s (store_obj (fireDirty o s)) ∧ same_view tdb o o' ∧
    sdb_journal (store_obj (fireDirty o s)) = sdb_journal s.
Proof.
  intros Hi Hok Hd. unfold store_obj, fireDirty. destruct (so_onDirty o).
  - exists (set_onDirty false o). split_and!; [|split_and!; [by split|by destruct Hok|done]|done].
    apply (changed_from _ _ s (MarkStateObjectDirty (so_address o) s)); [done..|].
    apply (setStateObject_changed (set_onDirty false o)); [by apply set_dirty_inv|by destruct Hok|done].
  - exists o. split_and!; [by apply setStateObject_changed|by split_and!|done].
Qed.

(** ** Steps that can be undone *)

Definition undoable (s s' : StateDB) : Prop :=
  inv s' ∧ revs s' = revs s ∧
  ∃ es, sdb_journal s' = sdb_journal s ++ es ∧
    ∀ s2, inv s2 → state_eq s2 s' → ∃ s3, undo_all es s2 = Ok s3 ∧ inv s3 ∧ tx_of s3 = tx_of s2 ∧ state_eq s3 s.

Lemma undo_all_app es1 es2 s : undo_all (es1 ++ es2) s = (s ← undo_all es2 s; undo_all es1 s).
Proof.
  induction es1 as [|e es1 IH]; cbn [app undo_all].
  - by destruct (undo_all es2 s).
  - rewrite IH. by destruct (undo_all es2 s).
Qed.

Lemma quiet_undoable s s' : inv s' → quiet s s' → undoable s s'.
Proof.
  intros Hi Hq. split; [done|]. split; [by apply Hq|]. exists []. rewrite app_nil_r. split; [by apply Hq|].
  intros s2 Hi2 He. exists s2. split_and!; [done|done|done|]. transitivity s'; [done|by apply quiet_eq].
Qed.

Lemma undoable_trans s1 s2 s3 : undoable s1 s2 → undoable s2 s3 → undoable s1 s3.
Proof.
  intros (_ & Hv1 & es1 & Hj1 & Hu1) (Hi & Hv2 & es2 & Hj2 & Hu2). split; [done|]. split; [congruence|].
  exists (es1 ++ es2). split; [by rewrite Hj2, Hj1, (assoc_L (++))|]. intros s Hs He.
  destruct (Hu2 s Hs He) as (s' & E2 & Hi2 & Ht2 & He2). destruct (Hu1 s' Hi2 He2) as (s'' & E1 & Hi1 & Ht1 & He1).
  exists s''. rewrite undo_all_app, E2, bind_Ok. split_and!; [done|done|congruence|done].
Qed.

(** Changing an object with one journal entry, whose undoing changes it back. *)
Lemma changed_undoable s s' a o o' e : look m s a = Some o → changed a o' s s' →
  sdb_journal s' = sdb_journal s ++ [e] →
  (∀ s2 o2, inv s2 → look m s2 a = Some o2 → obj_eq tdb o2 o' →
     ∃ s3 o3, undo e s2 = Ok s3 ∧ changed a o3 s2 s3 ∧ obj_eq tdb o3 o) →
  undoable s s'.
Proof.
  intros Hl [Hi Hl' Hr Hv] Hj Hundo. split; [done|]. split; [done|]. exists [e]. split; [done|].
  intros s2 Hi2 [Ho Href Hlog Hls Hpre]. pose proof (Ho a) as Hoa. rewrite Hl', decide_True in Hoa by done.
  inversion Hoa as [o2 ? He E1|]; subst. destruct (Hundo s2 o2 Hi2 (eq_sym E1) He) as (s3 & o3 & E3 & [Hi3 Hl3 Hr3 _] & He3).
  exists s3. cbn [undo_all]. rewrite bind_Ok. split_and!; [done|done|exact (f_equal fst Hr3)|].
  injection Hr as Htx1 Htx2 Htx3 ? Hlogs ? ?. injection Hr3 as Htx1' Htx2' Htx3' ? Hlogs3 ? ?. split; try congruence.
  - intros a'. rewrite Hl3. specialize (Ho a'). rewrite Hl' in Ho. case_decide as Ha; [subst a'|done]. rewrite Hl. by constructor.
  - intros h. specialize (Hlog h). unfold GetLogs in *. by rewrite Hlogs3, <- Hlogs.
Qed.

Lemma undo_obj_spec a f h s o : inv s → look m s a = Some o → (∀ o s, f o s = fireDirty (h o) s) →
  obj_ok tdb (h o) → same_object o (h o) →
  ∃ s' o', undo_obj a f s = Ok s' ∧ changed a o' s s' ∧ obj_eq tdb o' (h o).
Proof.
  intros Hi Hl Hf Hok [Ha Hd]. destruct (look_ok s a o Hi Hl) as (Hao & _ & Hdo). unfold undo_obj.
  destruct (getStateObject_spec a s Hi) as (s1 & -> & Hi1 & Hq & _). rewrite bind_Ok, Hl. cbn [deref]. rewrite bind_Ok, Hf.
  destruct (store_marked (h o) s1 Hi1 Hok) as (o' & Hc & (He & _ & _) & _); [congruence|].
  rewrite Ha, Hao in Hc. exists (store_obj (fireDirty (h o) s1)), o'. split_and!; [done| |done].
  by apply (changed_from a o' s s1 _); [apply Hq..|].
Qed.

(** The pattern of the journaled setters: entry [e], change [h], undone by [g]. *)
Lemma journaled_undoable s a o e h f g :
  inv s → look m s a = Some o → obj_ok tdb (h o) → same_object o (h o) →
  (∀ s2 o2, inv s2 → look m s2 a = Some o2 → undo e s2 = undo_obj a f s2) → (∀ o s, f o s = fireDirty (g o) s) →
  (∀ o2, obj_ok tdb o2 → obj_ok tdb (g o2) ∧ same_object o2 (g o2)) →
  (∀ o2, obj_eq tdb o2 (h o) → obj_eq tdb (g o2) o) →
  undoable s (store_obj (fireDirty (h o) (push e s))).
Proof.
  intros Hi Hl Hok [Ha Hd] Hue Hf Hg Hback. destruct (look_ok s a o Hi Hl) as (Hao & _ & Hdo).
  destruct (store_marked (h o) (push e s) (push_inv e s Hi) Hok) as (o' & Hc & (He & _ & _) & Hj); [congruence|].
  rewrite Ha, Hao in Hc. apply (changed_undoable s _ a o o' e); [done|by apply (changed_from a o' s (push e s))|done|].
  intros s2 o2 Hi2 Hl2 He2. rewrite (Hue s2 o2) by done. destruct (look_ok s2 a o2 Hi2 Hl2) as (_ & Hok2 & _). destruct (Hg o2 Hok2) as [Hk2 Hs2].
  destruct (undo_obj_spec a f g s2 o2 Hi2 Hl2 Hf Hk2 Hs2) as (s3 & o3 & E3 & Hc3 & He3).
  exists s3, o3. split_and!; [done|done|]. transitivity (g o2); [done|]. apply Hback. by transitivity o'.
Qed.

(** ** The setters *)

Lemma SetNonce_undoable s a o n : inv s → look m s a = Some o → undoable s (store_obj (obj_SetNonce n o s)).
Proof.
  intros Hi Hl. destruct (look_ok s a o Hi Hl) as (Ha & Hok & _). unfold obj_SetNonce, obj_setNonce. rewrite Ha.
  apply (journaled_undoable s a o (nonceChange a (acc_Nonce (so_data o))) (set_Nonce n)
    (obj_setNonce (acc_Nonce (so_data o))) (set_Nonce (acc_Nonce (so_data o)))); try done.
  - by destruct Hok.
  - intros o2 []. by split.
  - intros o2 []. by split.
Qed.

Lemma SetBalance_undoable s a o z : inv s → look m s a = Some o → undoable s (store_obj (obj_SetBalance z o s)).
Proof.
  intros Hi Hl. destruct (look_ok s a o Hi Hl) as (Ha & Hok & _). unfold obj_SetBalance, obj_setBalance. rewrite Ha.
  apply (journaled_undoable s a o (balanceChange a (acc_Balance (so_data o))) (set_Balance z)
    (obj_setBalance (acc_Balance (so_data o))) (set_Balance (acc_Balance (so_data o)))); try done.
  - by destruct Hok.
  - intros o2 []. by split.
  - intros o2 []. by split.
Qed.

(** Writing back an object that looks the same. *)
Lemma store_same s a o o' : inv s → look m s a = Some o → same_view tdb o o' → undoable s (setStateObject o' s).
Proof.
  intros Hi Hl (He & Hok & Ha & Hd). destruct (look_ok s a o Hi Hl) as (Hao & _ & Hdo).
  destruct (setStateObject_changed o' s Hi Hok) as [Hi' Hl' Hr' Hv']; [congruence|]. rewrite Ha, Hao in Hl'.
  split; [done|]. split; [done|]. exists []. rewrite app_nil_r. split; [done|].
  intros s2 Hi2 He2. exists s2. split_and!; [done|done|done|]. transitivity (setStateObject o' s); [done|].
  split; try done. intros a'. rewrite Hl'. case_decide as Ha'; [|done]. subst a'. rewrite Hl. by constructor.
Qed.

Lemma set_touched_eq b o : obj_ok tdb o → same_view tdb o (set_touched b o).
Proof. intros []. by split_and!; split. Qed.

Lemma undo_touch_spec a p d s o : inv s → look m s a = Some o →
  ∃ s' o', undo (touchChange a p d) s = Ok s' ∧ changed a o' s s' ∧ obj_eq tdb o' o.
Proof.
  intros Hi Hl. destruct (look_ok s a o Hi Hl) as (Hao & Hok & Hdo). cbn [undo].
  assert (changed a o s s) as Hrefl.
  { split; [done| |done|done]. intros a'. case_decide as Ha; [by subst|done]. }
  destruct (_ && _); [|by exists s, o].
  unfold undo_obj. destruct (getStateObject_spec a s Hi) as (s1 & -> & Hi1 & Hq & _). rewrite bind_Ok, Hl. cbn [deref].
  rewrite !bind_Ok. destruct (set_touched_eq p o Hok) as (He & Hk & _). unfold store_obj. cbn [fst snd].
  pose proof (setStateObject_changed (set_touched p o) s1 Hi1 Hk Hdo) as Hc.
  change (so_address (set_touched p o)) with (so_address o) in Hc. rewrite Hao in Hc.
  assert (changed a (set_touched p o) s (setStateObject (set_touched p o) s1)) as Hc' by (by apply (changed_from a _ s s1); [apply Hq..|]).
  eexists _, (set_touched p o). split_and!; [done| |done]. destruct d; cbn [negb]; [done|].
  destruct Hc' as [Hci Hcl Hcr Hcv]. split; [by apply set_dirty_inv|done|done|done].
Qed.

Lemma touch_changed s a o : inv s → look m s a = Some o →
  ∃ o', changed a o' s (store_obj (obj_touch o s)) ∧ obj_eq tdb o' o ∧
    sdb_journal (store_obj (obj_touch o s)) = sdb_journal s ++ [touchChange a (so_touched o) (negb (so_onDirty o))].
Proof.
  intros Hi Hl. destruct (look_ok s a o Hi Hl) as (Ha & Hok & Hd). unfold obj_touch. rewrite Ha.
  set (e := touchChange a _ _). set (s1 := push e s).
  assert (∃ o' s2, (let '(o, s) := fireDirty o s1 in (set_touched true o, s)) = (o', s2) ∧ inv s2 ∧ same_view tdb o o' ∧
    (∀ a, look m s2 a = look m s a) ∧ rest s2 = rest s ∧ revs s2 = revs s ∧ sdb_journal s2 = sdb_journal s ++ [e])
    as (o' & s2 & -> & Hi2 & (He & Hk & Ha' & Hd') & Hl2 & Hr2 & Hv2 & Hj2).
  { unfold fireDirty. destruct (so_onDirty o); do 2 eexists; (split; [done|]); split_and!; try done;
      try (by destruct Hok); try by destruct Hi. }
  unfold store_obj. cbn [fst snd]. exists o'. split_and!; [|done|done].
  pose proof (setStateObject_changed o' s2 Hi2 Hk ltac:(congruence)) as Hc. rewrite Ha', Ha in Hc.
  by apply (changed_from a o' s s2).
Qed.

Lemma touch_undoable s a o : inv s → look m s a = Some o → undoable s (store_obj (obj_touch o s)).
Proof.
  intros Hi Hl. destruct (touch_changed s a o Hi Hl) as (o' & Hc & He & Hj).
  eapply (changed_undoable s _ a o o'); [done|done|done|].
  intros s3 o3 Hi3 Hl3 He3. destruct (undo_touch_spec a (so_touched o) (negb (so_onDirty o)) s3 o3 Hi3 Hl3) as (s4 & o4 & E & Hc4 & He4).
  exists s4, o4. split_and!; [done|done|]. transitivity o3; [done|]. by transitivity o'.
Qed.

Lemma AddBalance_undoable s a o z : inv s → look m s a = Some o → undoable s (store_obj (obj_AddBalance z o s)).
Proof.
  intros Hi Hl. destruct (look_ok s a o Hi Hl) as (Ha & Hok & Hd). unfold obj_AddBalance.
  destruct (z =? 0); [|by apply (SetBalance_undoable s a)]. destruct (obj_empty o); [by apply (touch_undoable s a)|].
  apply (store_same s a o o); [done|done|by split_and!].
Qed.

Lemma SubBalance_undoable s a o z : inv s → look m s a = Some o → undoable s (store_obj (obj_SubBalance z o s)).
Proof.
  intros Hi Hl. destruct (look_ok s a o Hi Hl) as (Ha & Hok & Hd). unfold obj_SubBalance.
  destruct (z =? 0); [|by apply (SetBalance_undoable s a)]. apply (store_same s a o o); [done|done|by split_and!].
Qed.

Lemma slot_view_set o k v k' :
  slot_view tdb (set_dirtyStorage (<[k := v]> (so_dirtyStorage o)) (set_cachedStorage (<[k := v]> (so_cachedStorage o)) o)) k' =
  if decide (k' = k) then v else slot_view tdb o k'.
Proof.
  unfold slot_view at 1. cbn [so_cachedStorage set_cachedStorage set_dirtyStorage].
  case_decide as Hk; [subst; by rewrite lookup_insert_eq|by rewrite lookup_insert_ne].
Qed.

Lemma SetState_undoable s a o k v : inv s → look m s a = Some o →
  ∃ r, obj_SetState k v o s = Ok r ∧ undoable s (store_obj r).
Proof.
  intros Hi Hl. destruct (look_ok s a o Hi Hl) as (Ha & Hok & Hd). unfold obj_SetState.
  destruct (obj_GetState_spec (sdb_db s) tdb k o (inv_db s Hi) Hok) as (o1 & -> & He1 & Hok1 & Ha1 & Hd1).
  rewrite bind_Ok. eexists. split; [done|]. unfold obj_setState. rewrite Ha1, Ha.
  set (p := slot_view tdb o k).
  apply (journaled_undoable s a o (storageChange a k p)
    (fun _ => set_dirtyStorage (<[k := v]> (so_dirtyStorage o1)) (set_cachedStorage (<[k := v]> (so_cachedStorage o1)) o1))
    (obj_setState k p)
    (fun o => set_dirtyStorage (<[k := p]> (so_dirtyStorage o)) (set_cachedStorage (<[k := p]> (so_cachedStorage o)) o))); try done.
  - by destruct Hok1.
  - intros o2 []. by split.
  - intros o2 [Hn Hb Hc Hcode Hs Hsu]. destruct He1. split; try (etransitivity; eassumption). intros k'. rewrite slot_view_set.
    specialize (Hs k'). rewrite slot_view_set in Hs. case_decide as Hk; [by subst|]. rewrite Hs. auto.
Qed.

Lemma code_view_set c h o : length h = HashLength →
  code_view tdb (set_dirtyCode true (set_CodeHash h (set_objCode c o))) =
  match c with Some c => Some c | None => if bool_decide (h = emptyCodeHash) then None else tdb_Node tdb h end.
Proof.
  intros Hl. unfold code_view. cbn [so_code set_dirtyCode set_CodeHash set_objCode set_data so_data acc_CodeHash].
  by rewrite BytesToHash_32.
Qed.

Lemma SetCode_undoable s a o h c : inv s → look m s a = Some o → length h = HashLength →
  undoable s (store_obj (obj_SetCode h c o s)).
Proof.
  intros Hi Hl Hh. destruct (look_ok s a o Hi Hl) as (Ha & Hok & Hd). unfold obj_SetCode.
  destruct (obj_Code_spec (sdb_db s) tdb o (inv_db s Hi) Hok) as (db & o1 & -> & Hdb & He1 & Hok1 & Ha1 & Hd1).
  apply (undoable_trans s (set_db db s)).
  { apply quiet_undoable; [by apply set_db_inv|by split]. }
  rewrite (oe_codeHash tdb o1 o He1), Ha1, Ha. unfold obj_setCode.
  apply (journaled_undoable (set_db db s) a o (codeChange a (code_view tdb o) (acc_CodeHash (so_data o)))
    (fun _ => set_dirtyCode true (set_CodeHash h (set_objCode c o1)))
    (obj_setCode (BytesToHash (acc_CodeHash (so_data o))) (code_view tdb o))
    (fun o2 => set_dirtyCode true (set_CodeHash (acc_CodeHash (so_data o)) (set_objCode (code_view tdb o) o2)))); try done.
  - by apply set_db_inv.
  - destruct Hok1. by split.
  - intros o2 s2. unfold obj_setCode. by rewrite BytesToHash_32 by apply Hok.
  - intros o2 []. split; [|done]. split; [done|]. apply Hok.
  - intros o2 [Hn Hb _ _ Hs Hsu]. destruct He1. split; try (etransitivity; eassumption); [done| |].
    + rewrite code_view_set by apply Hok. destruct (code_view tdb o) eqn:E; [done|]. unfold code_view in E.
      destruct (so_code o); [done|]. case_bool_decide; [done|]. rewrite BytesToHash_32 in E by apply Hok. done.
    + intros k. etransitivity; [apply (Hs k)|apply oe_slots0].
Qed.

Lemma markSuicided_store o s :
  (let '(o', s') := obj_markSuicided o s in setStateObject (set_Balance 0 o') s') =
  store_obj (fireDirty (set_Balance 0 (set_suicided true o)) s).
Proof.
  unfold obj_markSuicided, fireDirty, store_obj. cbn [so_onDirty set_suicided set_Balance set_data so_address].
  by destruct (so_onDirty o).
Qed.

Lemma Suicide_undoable s a o : inv s → look m s a = Some o →
  undoable s (let '(o', s') := obj_markSuicided o (push (suicideChange a (so_suicided o) (acc_Balance (so_data o))) s) in
              setStateObject (set_Balance 0 o') s').
Proof.
  intros Hi Hl. destruct (look_ok s a o Hi Hl) as (Ha & Hok & Hd). set (e := suicideChange a _ _).
  rewrite markSuicided_store.
  apply (journaled_undoable s a o e (fun o => set_Balance 0 (set_suicided true o))
    (fun o2 s => obj_setBalance (acc_Balance (so_data o)) (set_suicided (so_suicided o) o2) s)
    (fun o2 => set_Balance (acc_Balance (so_data o)) (set_suicided (so_suicided o) o2))); try done.
  - by destruct Hok.
  - intros s2 o2 Hi2 Hl2. subst e. cbn [undo]. unfold undo_obj.
    destruct (getStateObject_spec a s2 Hi2) as (s3 & -> & _). by rewrite !bind_Ok, Hl2.
  - intros o2 []. by split.
  - intros o2 []. by split.
Qed.

(** ** Creating accounts *)

Lemma reset_undoable s s' a prev o' : inv s → look m s a = Some prev → changed a o' s s' →
  sdb_journal s' = sdb_journal s ++ [resetObjectChange prev] → undoable s s'.
Proof.
  intros Hi Hl Hc Hj. destruct (look_ok s a prev Hi Hl) as (Ha & Hok & Hd).
  apply (changed_undoable s s' a prev o' (resetObjectChange prev)); [done|done|done|].
  intros s2 o2 Hi2 Hl2 He2. exists (setStateObject prev s2), prev. split_and!; [done| |done].
  rewrite <- Ha. by apply setStateObject_changed.
Qed.

Lemma create_undoable s s' a o' : inv s → look m s a = None → changed a o' s s' →
  sdb_journal s' = sdb_journal s ++ [createObjectChange a] → undoable s s'.
Proof.
  intros Hi Hl [Hi' Hl' Hr Hv] Hj. split; [done|]. split; [done|]. exists [createObjectChange a]. split; [done|].
  assert (trie_account m a = None) as Hna.
  { unfold look in Hl. destruct (sdb_stateObjects s !! a) as [o|] eqn:E; [|by apply fmap_None in Hl].
    destruct (so_deleted o) eqn:Ed; [|done]. by apply (inv_objects s Hi a o E). }
  intros s2 [Hdb Ht Hobj Hlz Hls] [Ho Href Hlog Hlsz Hpre]. cbn [undo_all undo]. rewrite bind_Ok. eexists. split; [done|].
  set (s3 := set_dirty _ _).
  assert (∀ a', look m s3 a' = if decide (a' = a) then None else look m s2 a') as Hl3.
  { intros a'. unfold look at 1. cbn [sdb_stateObjects set_dirty set_objects s3]. case_decide as Ha.
    - subst a'. by rewrite lookup_delete_eq, Hna.
    - by rewrite lookup_delete_ne. }
  split_and!; [|done|].
  - split; [done|done| | |done]; intros a' o; cbn [sdb_stateObjects set_dirty set_objects s3].
    + intros [_ Hlo]%lookup_delete_Some. by apply Hobj.
    + intros [->|Hlo]%lookup_delete_None; [by rewrite Hna|by apply Hlz].
  - injection Hr as Htx1 Htx2 Htx3 ? Hlogs ? ?. split; [| | |cbn; congruence|cbn; congruence].
    + intros a'. rewrite Hl3. specialize (Ho a'). rewrite Hl' in Ho. case_decide as Ha; [subst a'; rewrite Hl; constructor|done].
    + cbn. congruence.
    + intros h. specialize (Hlog h). unfold GetLogs in *. cbn. by rewrite <- Hlogs.
Qed.

Lemma zero_trie a b : ∃ t, open_trie tdb (newObject a zeroAccount b) = Ok t ∧ secure_ok tdb t ∅.
Proof.
  unfold open_trie, NewSecure, New. cbn [so_trie newObject so_data acc_Root zeroAccount ad_Root].
  rewrite (bool_decide_eq_false_2 (zeroHash ≠ zeroHash)) by (by intros ?). cbn [andb]. rewrite bind_Ok.
  eexists. split; [done|]. split; [apply map_Forall_empty|]. exists TNil. split_and!; [apply rep_nil|by left|].
  intros k v. split; [inversion 1|]. by intros (? & _ & ?%lookup_empty_Some).
Qed.

Lemma zero_object_ok a b : obj_ok tdb (newObject a zeroAccount b).
Proof. destruct (zero_trie a b) as (t & Ho & Ht). split; [by exists t, ∅|apply Keccak256_length]. Qed.

(** The object that [createObject] makes. *)
Definition freshObject (a : Address) : stateObject := set_onDirty false (set_Nonce 0 (newObject a zeroAccount true)).

Lemma fresh_ok a : obj_ok tdb (freshObject a).
Proof. destruct (zero_object_ok a true). by split. Qed.

Lemma createObject_spec a s : inv s →
  ∃ s', createObject a s = Ok (s', freshObject a, look m s a) ∧ changed a (freshObject a) s s' ∧
    sdb_journal s' = sdb_journal s ++ [match look m s a with None => createObjectChange a | Some prev => resetObjectChange prev end].
Proof.
  intros Hi. unfold createObject. destruct (getStateObject_spec a s Hi) as (s1 & -> & Hi1 & Hq & _). rewrite bind_Ok.
  set (e := match look m s a with None => _ | Some prev => _ end).
  change (obj_setNonce 0 (newObject a zeroAccount true) s1) with (freshObject a, MarkStateObjectDirty a s1). cbn [fst snd].
  eexists. split; [done|]. split; [|cbn; by rewrite (q_journal _ _ Hq)].
  apply (changed_from a _ s (push e (MarkStateObjectDirty a s1))); [apply Hq..|].
  apply (setStateObject_changed (freshObject a)); [|apply fresh_ok|done]. by apply push_inv, set_dirty_inv.
Qed.

Lemma created_undoable a o s s' : inv s → changed a o s s' →
  sdb_journal s' = sdb_journal s ++ [match look m s a with None => createObjectChange a | Some prev => resetObjectChange prev end] →
  undoable s s'.
Proof.
  intros Hi Hc Hj. destruct (look m s a) as [prev|] eqn:E; [by eapply reset_undoable|by eapply create_undoable].
Qed.

Lemma GetOrNew_spec a s : inv s →
  ∃ s' o, GetOrNewStateObject a s = Ok (s', o) ∧ undoable s s' ∧ look m s' a = Some o.
Proof.
  intros Hi. unfold GetOrNewStateObject. destruct (getStateObject_spec a s Hi) as (s1 & -> & Hi1 & Hq & _). rewrite bind_Ok.
  destruct (look m s a) as [o|] eqn:E.
  - destruct (look_ok s a o Hi E) as (_ & _ & ->). exists s1, o. split_and!; [done|by apply quiet_undoable|by rewrite (q_look _ _ Hq)].
  - destruct (createObject_spec a s1 Hi1) as (s2 & -> & Hc & Hj). rewrite bind_Ok. exists s2, (freshObject a). split_and!; [done| |].
    + apply (undoable_trans s s1); [by apply quiet_undoable|by eapply created_undoable].
    + rewrite (c_look _ _ _ _ Hc). by rewrite decide_True.
Qed.

Lemma CreateAccount_undoable a s : inv s → ∃ s', CreateAccount a s = Ok s' ∧ undoable s s'.
Proof.
  intros Hi. unfold CreateAccount. destruct (createObject_spec a s Hi) as (s1 & -> & Hc & Hj). rewrite bind_Ok.
  destruct (look m s a) as [prev|] eqn:E; [|eexists; split; [done|]; by eapply create_undoable].
  eexists. split; [done|]. unfold obj_setBalance.
  destruct (store_marked (set_Balance (acc_Balance (so_data prev)) (freshObject a)) s1) as (o' & Hc' & _ & Hj');
    [apply Hc|by destruct (fresh_ok a)|done|].
  change (so_address (set_Balance _ _)) with a in Hc'.
  apply (reset_undoable s _ a prev o'); [done|done| |by rewrite Hj']. destruct Hc as [_ Hl Hr Hv], Hc' as [Hi' Hl' Hr' Hv'].
  split; [done| |congruence|congruence]. intros a'. rewrite Hl'. case_decide; [done|]. rewrite Hl. by rewrite decide_False.
Qed.

(** ** Logs, refunds, preimages *)

(** A step on the other fields, undone by one entry. *)
Lemma rest_undoable s s' e : inv s' → (∀ a, look m s' a = look m s a) → revs s' = revs s →
  sdb_journal s' = sdb_journal s ++ [e] →
  (∀ s2, inv s2 → state_eq s2 s' → ∃ s3, undo e s2 = Ok s3 ∧ inv s3 ∧ tx_of s3 = tx_of s2 ∧ sdb_stateObjects s3 = sdb_stateObjects s2 ∧
     sdb_refund s3 = sdb_refund s ∧ (∀ h, GetLogs h s3 = GetLogs h s) ∧ sdb_logSize s3 = sdb_logSize s ∧
     sdb_preimages s3 = sdb_preimages s) →
  undoable s s'.
Proof.
  intros Hi Hl Hv Hj Hu. split; [done|]. split; [done|]. exists [e]. split; [done|]. intros s2 Hi2 He2.
  destruct (Hu s2 Hi2 He2) as (s3 & E & Hi3 & Ht3 & Ho & ?). exists s3. cbn [undo_all]. rewrite bind_Ok. split_and!; [done|done|done|].
  split; try naive_solver. intros a. rewrite <- Hl. etransitivity; [|apply He2]. unfold look. by rewrite Ho.
Qed.

Lemma GetLogs_set h h' l n s : GetLogs h (set_logs (<[h' := l]> (sdb_logs s)) n s) = if decide (h = h') then l else GetLogs h s.
Proof.
  unfold GetLogs. cbn [sdb_logs set_logs]. case_decide as Hh; [subst; by rewrite lookup_insert_eq|by rewrite lookup_insert_ne].
Qed.

Lemma GetLogs_delete h h' n s : GetLogs h (set_logs (delete h' (sdb_logs s)) n s) = if decide (h = h') then [] else GetLogs h s.
Proof.
  unfold GetLogs. cbn [sdb_logs set_logs]. case_decide as Hh; [subst; by rewrite lookup_delete_eq|by rewrite lookup_delete_ne].
Qed.

Lemma mod64_range x : 0 ≤ (x mod two64) < two64.
Proof. apply Z.mod_pos_bound. unfold two64. lia. Qed.

Lemma set_logs_inv l n s : 0 ≤ n < two64 → inv s → inv (set_logs l n s).
Proof. by intros ? []. Qed.

Lemma u64_add_sub x : 0 ≤ x < two64 → (((x + 1) mod two64) - 1) mod two64 = x.
Proof. intros ?. rewrite Zminus_mod_idemp_l. replace (x + 1 - 1) with x by lia. by apply Z.mod_small. Qed.

Lemma AddLog_undoable l s : inv s → undoable s (AddLog l s).
Proof.
  intros Hi. unfold AddLog. set (th := sdb_thash (push _ s)). set (lg := mkLog _ _ _ _ _ _ _ _ _).
  apply (rest_undoable s _ (addLogChange th)); [by apply set_logs_inv, push_inv; [apply mod64_range|]|done|done|done|].
  intros s2 Hi2 [_ Hr Hlg Hls Hp]. pose proof (Hlg th) as Hth. rewrite GetLogs_set, decide_True in Hth by done.
  change (default [] (sdb_logs (push (addLogChange (sdb_thash s)) s) !! th)) with (GetLogs th s) in Hth.
  assert (∀ h, h ≠ th → GetLogs h s2 = GetLogs h s) as Hoth.
  { intros h Hh. rewrite Hlg, GetLogs_set, decide_False by done. done. }
  assert (((sdb_logSize s2 - 1) mod two64) = sdb_logSize s) as Hsz.
  { rewrite Hls. cbn [sdb_logSize set_logs push]. apply u64_add_sub, Hi. }
  cbn [undo]. fold (GetLogs th s2). rewrite Hth, length_app. cbn [length].
  destruct (Nat.eqb_spec (length (GetLogs th s) + 1) 1) as [E|E].
  - eexists. split_and!; [done|apply set_logs_inv; [apply mod64_range|done]|done|done|done| |done|done].
    intros h. rewrite GetLogs_delete. case_decide as Hh; [subst h|auto]. by destruct (GetLogs th s); [|cbn in E; lia].
  - rewrite (proj2 (Nat.eqb_neq _ _)) by lia.
    eexists. split_and!; [done|apply set_logs_inv; [apply mod64_range|done]|done|done|done| |done|done].
    intros h. rewrite GetLogs_set. case_decide as Hh; [subst h|auto].
    by replace (length (GetLogs th s) + 1 - 1)%nat with (length (GetLogs th s)) by lia; rewrite take_app_length.
Qed.

Lemma AddRefund_undoable g s : inv s → undoable s (AddRefund g s).
Proof.
  intros Hi. unfold AddRefund. apply (rest_undoable s _ (refundChange (sdb_refund s))); [by destruct Hi|done..|].
  intros s2 Hi2 []. eexists. split_and!; [done|by destruct Hi2|done..].
Qed.

Lemma AddPreimage_undoable h p s : inv s → undoable s (AddPreimage h p s).
Proof.
  intros Hi. unfold AddPreimage. destruct (sdb_preimages s !! h) eqn:E; [by apply quiet_undoable|].
  apply (rest_undoable s _ (addPreimageChange h)); [by destruct Hi|done..|].
  intros s2 Hi2 []. eexists. split_and!; [done|by destruct Hi2|done..|]. cbn [sdb_preimages set_statePreimages].
  rewrite se_preimages0. cbn [sdb_preimages set_statePreimages push]. by rewrite delete_insert_id.
Qed.

End Inv.
End Revert.
