(* ===== verification/StateFrame.v ===== *)
(** * Call frames of the state

    The operations that a transaction performs on a state, with nested frames
    that take a snapshot and may return to it; returning to a snapshot restores
    everything that can be read. *)

From S2P Require Import Prelude Types Interfaces Rlp RlpRaw RlpStream RlpDecode TrieEncoding TrieNode Trie TrieSpec State StateRevert.
From stdpp Require Import base tactics option numbers list gmap sorting.
From Stdlib Require Import ZArith Lia.

#[local] Open Scope Z_scope.

Section Frame.
Context `{HK : Keccak, HD : Database, HC : ARCCache Z, !KeccakLaws}.

(** ** Operations *)

(** One constructor per method of the state that a transaction uses; a frame
    runs its body between [Snapshot] and, when it fails, [RevertToSnapshot]. *)
Inductive stateOp :=
| OpCreateAccount (addr : Address)
| OpAddBalance (addr : Address) (amount : Z)
| OpSubBalance (addr : Address) (amount : Z)
| OpSetBalance (addr : Address) (amount : Z)
| OpSetNonce (addr : Address) (nonce : Z)
| OpSetCode (addr : Address) (code : option (list Z))
| OpSetState (addr : Address) (key value : Hash)
| OpSuicide (addr : Address)
| OpAddLog (log : Log)
| OpAddPreimage (hash : Hash) (preimage : list Z)
| OpAddRefund (gas : Z)
| OpPrepare (thash bhash : Hash) (ti : Z)
| OpExist (addr : Address)
| OpEmpty (addr : Address)
| OpGetBalance (addr : Address)
| OpGetNonce (addr : Address)
| OpGetCodeHash (addr : Address)
| OpHasSuicided (addr : Address)
| OpGetCode (addr : Address)
| OpGetCodeSize (addr : Address)
| OpGetState (addr : Address) (key : Hash)
| OpFrame (body : list stateOp) (failed : bool).

(** The state after a method that also returns a value. *)
Definition state_after {A} (r : pan (StateDB * A)) : pan StateDB := '(s, _) ← r; Ok s.
Definition result_of {A} (r : pan (StateDB * A)) : pan A := '(_, x) ← r; Ok x.

Definition runWith (exec : stateOp → StateDB → pan StateDB) : list stateOp → StateDB → pan StateDB :=
  fix go ops s := match ops with [] => Ok s | op :: ops => s ← exec op s; go ops s end.

Fixpoint execOp (op : stateOp) (s : StateDB) : pan StateDB :=
  match op with
  | OpCreateAccount a => CreateAccount a s
  | OpAddBalance a z => AddBalance a z s
  | OpSubBalance a z => SubBalance a z s
  | OpSetBalance a z => SetBalance a z s
  | OpSetNonce a n => SetNonce a n s
  | OpSetCode a c => SetCode a c s
  | OpSetState a k v => SetState a k v s
  | OpSuicide a => state_after (Suicide a s)
  | OpAddLog l => Ok (AddLog l s)
  | OpAddPreimage h p => Ok (AddPreimage h p s)
  | OpAddRefund g => Ok (AddRefund g s)
  | OpPrepare th bh ti => Ok (Prepare th bh ti s)
  | OpExist a => state_after (Exist a s)
  | OpEmpty a => state_after (State.Empty a s)
  | OpGetBalance a => state_after (GetBalance a s)
  | OpGetNonce a => state_after (GetNonce a s)
  | OpGetCodeHash a => state_after (GetCodeHash a s)
  | OpHasSuicided a => state_after (HasSuicided a s)
  | OpGetCode a => state_after (GetCode a s)
  | OpGetCodeSize a => state_after (GetCodeSize a s)
  | OpGetState a k => state_after (GetState a k s)
  | OpFrame body failed =>
      let '(s, id) := Snapshot s in
      s ← runWith execOp body s;
      if failed then RevertToSnapshot id s else Ok s
  end.

Notation runOps := (runWith execOp).

(** Everything the methods tell about a state, but for [GetCodeSize], which
    answers from a cache of sizes that is not part of it. *)
Record reads_as (s1 s2 : StateDB) : Prop := {
  ra_Exist : ∀ a, result_of (Exist a s1) = result_of (Exist a s2);
  ra_Empty : ∀ a, result_of (State.Empty a s1) = result_of (State.Empty a s2);
  ra_GetBalance : ∀ a, result_of (GetBalance a s1) = result_of (GetBalance a s2);
  ra_GetNonce : ∀ a, result_of (GetNonce a s1) = result_of (GetNonce a s2);
  ra_GetCodeHash : ∀ a, result_of (GetCodeHash a s1) = result_of (GetCodeHash a s2);
  ra_GetCode : ∀ a, result_of (GetCode a s1) = result_of (GetCode a s2);
  ra_GetState : ∀ a k, result_of (GetState a k s1) = result_of (GetState a k s2);
  ra_HasSuicided : ∀ a, result_of (HasSuicided a s1) = result_of (HasSuicided a s2);
  ra_GetLogs : ∀ h, GetLogs h s1 = GetLogs h s2;
  ra_logSize : sdb_logSize s1 = sdb_logSize s2;
  ra_refund : sdb_refund s1 = sdb_refund s2;
  ra_preimages : sdb_preimages s1 = sdb_preimages s2
}.

(** ** Binary search *)

Lemma sortSearch_spec f p n : (∀ x, f x = true ↔ (p ≤ x)%nat) →
  ∀ fuel i j, (i ≤ p ≤ j)%nat → (j ≤ n)%nat → (j - i < fuel)%nat → sortSearch fuel f i j = p.
Proof.
  intros Hf. induction fuel as [|fuel IH]; intros i j Hp Hj Hfuel; [lia|]. cbn [sortSearch].
  destruct (Nat.ltb_spec i j) as [Hij|Hij]; [|lia].
  assert ((j - i) / 2 < j - i)%nat by (apply Nat.div_lt; lia).
  destruct (f (i + (j - i) / 2)%nat) eqn:E.
  - apply Hf in E. apply IH; lia.
  - assert (¬ (p ≤ i + (j - i) / 2)%nat) by (rewrite <- Hf; congruence). apply IH; lia.
Qed.

(** Revisions with identifiers that increase from [lo] and stay below [hi]. *)
Fixpoint ids_between (lo : Z) (rs : list revision) (hi : Z) : Prop :=
  match rs with
  | [] => lo ≤ hi
  | r :: rs => lo ≤ rev_id r ∧ ids_between (rev_id r + 1) rs hi
  end.

Definition revs_ok (s : StateDB) : Prop := ids_between 0 (sdb_validRevisions s) (sdb_nextRevisionId s).

Lemma ids_between_app lo rs1 mid rs2 hi : ids_between lo rs1 mid → ids_between mid rs2 hi → ids_between lo (rs1 ++ rs2) hi.
Proof.
  revert lo. induction rs1 as [|r rs1 IH]; intros lo; cbn [ids_between app].
  - destruct rs2; cbn [ids_between]; [lia|]. intros ? [??]. split; [lia|done].
  - intros [? ?] ?. split; [done|]. by apply IH.
Qed.

Lemma ids_between_bounds lo rs hi : ids_between lo rs hi →
  lo ≤ hi ∧ ∀ i r, rs !! i = Some r → lo + Z.of_nat i ≤ rev_id r < hi.
Proof.
  revert lo. induction rs as [|r rs IH]; intros lo; cbn [ids_between]; [intros ?; by split|].
  intros [Hr [Hle Hb]%IH]. split; [lia|]. intros [|i] r'; cbn [lookup list_lookup].
  - intros [= <-]. lia.
  - intros H'. specialize (Hb i r' H'). lia.
Qed.

Lemma ids_between_weaken lo rs hi hi' : ids_between lo rs hi → hi ≤ hi' → ids_between lo rs hi'.
Proof. revert lo. induction rs as [|r rs IH]; intros lo; cbn [ids_between]; [lia|]. intros [? ?] ?. split; [done|]. by apply IH. Qed.

(** The search finds the revision between the older and the newer ones. *)
Lemma search_finds rs1 r rs2 hi : ids_between 0 rs1 (rev_id r) → ids_between (rev_id r + 1) rs2 hi →
  let revs := rs1 ++ r :: rs2 in
  sortSearch (S (length revs)) (fun i => from_option (fun r' => rev_id r <=? rev_id r') false (revs !! i)) 0 (length revs) = length rs1.
Proof.
  intros H1 H2 revs. destruct (ids_between_bounds _ _ _ H1) as [_ Hb1]. destruct (ids_between_bounds _ _ _ H2) as [_ Hb2].
  set (f := fun i => _).
  set (g := fun i => if (i <? length revs)%nat then f i else true).
  assert (∀ fuel i j, (j ≤ length revs)%nat → sortSearch fuel f i j = sortSearch fuel g i j) as Hfg.
  { induction fuel as [|fuel IH]; intros i j Hj; [done|]. cbn [sortSearch]. destruct (Nat.ltb_spec i j); [|done].
    assert ((j - i) / 2 < j - i)%nat by (apply Nat.div_lt; lia).
    replace (g (i + (j - i) / 2)%nat) with (f (i + (j - i) / 2)%nat).
    - rewrite !IH by lia. done.
    - unfold g. rewrite (proj2 (Nat.ltb_lt _ _)) by lia. done. }
  rewrite Hfg by done. apply (sortSearch_spec g (length rs1) (length revs)); [|unfold revs; rewrite length_app; cbn; lia|done|lia].
  intros x. unfold g. destruct (Nat.ltb_spec x (length revs)) as [Hx|Hx]; [|unfold revs in Hx; rewrite length_app in Hx; cbn in Hx; split; [lia|done]].
  unfold f, revs. destruct (decide (x < length rs1)%nat) as [Hl|Hl].
  - rewrite lookup_app_l by done. destruct (lookup_lt_is_Some_2 rs1 x Hl) as [r' Hr']. rewrite Hr'. cbn [from_option].
    specialize (Hb1 x r' Hr'). rewrite Z.leb_le. split; lia.
  - rewrite lookup_app_r by lia. split; [lia|intros _]. unfold revs in Hx. rewrite length_app in Hx. cbn [length] in Hx.
    destruct (x - length rs1)%nat as [|y] eqn:Ey; rewrite lookup_cons.
    + cbn [from_option]. apply Z.leb_le. lia.
    + destruct (lookup_lt_is_Some_2 rs2 y ltac:(lia)) as [r' Hr'].
      rewrite Hr'. cbn [from_option]. specialize (Hb2 y r' Hr'). apply Z.leb_le. lia.
Qed.

(** ** Steps of a frame *)

Section Steps.
Context (tdb : TrieDB) (m : gmap (list Z) (list Z)).

(** [s'] comes from [s] by steps whose journal entries undo them, and by
    snapshots that were taken since. *)
Record framed (s s' : StateDB) : Prop := {
  fr_inv : inv tdb m s';
  fr_undo : ∃ es, sdb_journal s' = sdb_journal s ++ es ∧
    ∀ s2, inv tdb m s2 → state_eq tdb m s2 s' → ∃ s3, undo_all es s2 = Ok s3 ∧ inv tdb m s3 ∧ tx_of s3 = tx_of s2 ∧ state_eq tdb m s3 s;
  fr_revs : ∃ rs, sdb_validRevisions s' = sdb_validRevisions s ++ rs ∧
    ids_between (sdb_nextRevisionId s) rs (sdb_nextRevisionId s')
}.

Lemma undoable_framed s s' : undoable tdb m s s' → framed s s'.
Proof.
  intros (Hi & Hv & Hu). injection Hv as Hv Hn. split; [done|done|]. exists []. rewrite app_nil_r, Hn. split; [done|]. cbn. lia.
Qed.

Lemma framed_trans s1 s2 s3 : framed s1 s2 → framed s2 s3 → framed s1 s3.
Proof.
  intros [_ (es1 & Hj1 & Hu1) (rs1 & Hv1 & Hb1)] [Hi (es2 & Hj2 & Hu2) (rs2 & Hv2 & Hb2)]. split; [done| |].
  - exists (es1 ++ es2). split; [by rewrite Hj2, Hj1, (assoc_L (++))|]. intros s Hs He.
    destruct (Hu2 s Hs He) as (s' & E2 & Hi2 & Ht2 & He2). destruct (Hu1 s' Hi2 He2) as (s'' & E1 & Hi1 & Ht1 & He1).
    exists s''. rewrite undo_all_app, E2, bind_Ok. split_and!; [done|done|congruence|done].
  - exists (rs1 ++ rs2). split; [by rewrite Hv2, Hv1, (assoc_L (++))|]. by eapply ids_between_app.
Qed.

Lemma framed_revs_ok s s' : revs_ok s → framed s s' → revs_ok s'.
Proof. unfold revs_ok. intros Hr [_ _ (rs & -> & Hb)]. by eapply ids_between_app. Qed.

Lemma Snapshot_framed s : inv tdb m s → framed s (Snapshot s).1.
Proof.
  intros Hi. split; [by destruct Hi| |].
  - exists []. rewrite app_nil_r. split; [done|]. intros s2 Hi2 He. exists s2. split_and!; [done|done|done|]. destruct He. by split.
  - exists [mkRevision (sdb_nextRevisionId s) (length (sdb_journal s))]. split; [done|]. cbn. lia.
Qed.

(** Returning to a snapshot undoes exactly what came after it. *)
Lemma revert_spec s s2 : revs_ok s → framed (Snapshot s).1 s2 →
  ∃ s3, RevertToSnapshot (Snapshot s).2 s2 = Ok s3 ∧ inv tdb m s3 ∧ tx_of s3 = tx_of s2 ∧ state_eq tdb m s3 s ∧
    sdb_journal s3 = sdb_journal s ∧ sdb_validRevisions s3 = sdb_validRevisions s ∧
    sdb_nextRevisionId s ≤ sdb_nextRevisionId s3.
Proof.
  intros Hr [Hi (es & Hj & Hu) (rs & Hv & Hb)]. cbn [Snapshot fst snd set_revisions sdb_validRevisions sdb_nextRevisionId sdb_journal] in *.
  unfold RevertToSnapshot. set (r := mkRevision _ _) in *. rewrite <- (assoc_L (++)) in Hv. cbn [app] in Hv. rewrite Hv.
  pose proof (search_finds (sdb_validRevisions s) r rs (sdb_nextRevisionId s2) Hr Hb) as Hs. cbv zeta in Hs.
  change (rev_id r) with (sdb_nextRevisionId s) in Hs. rewrite Hs, lookup_app_r, Nat.sub_diag, lookup_cons by done.
  change (rev_id r) with (sdb_nextRevisionId s). change (rev_journalIndex r) with (length (sdb_journal s)).
  rewrite Z.eqb_refl, Hj, drop_app_length, !take_app_length. destruct (Hu s2 Hi ltac:(reflexivity)) as (s3 & -> & Hi3 & Ht3 & He3).
  rewrite bind_Ok. eexists. split; [done|]. split_and!; [by destruct Hi3|done|destruct He3; by split|done|done|].
  apply ids_between_bounds in Hb as [Hb _]. cbn. lia.
Qed.

Lemma revert_framed s s2 : revs_ok s → framed (Snapshot s).1 s2 →
  ∃ s3, RevertToSnapshot (Snapshot s).2 s2 = Ok s3 ∧ framed s s3.
Proof.
  intros Hr Hf. destruct (revert_spec s s2 Hr Hf) as (s3 & E & Hi & _ & He & Hj & Hv & Hn). exists s3. split; [done|]. split; [done| |].
  - exists []. rewrite app_nil_r. split; [done|]. intros s4 Hi4 He4. exists s4. split_and!; [done|done|done|]. by transitivity s3.
  - exists []. rewrite app_nil_r. by split.
Qed.

(** ** Every operation is such a step *)

(** A method that finds an object, or makes one, and goes on with it. *)
Lemma with_object a s (k : StateDB → stateObject → pan StateDB) : inv tdb m s →
  (∀ s' o, inv tdb m s' → look m s' a = Some o → ∃ s'', k s' o = Ok s'' ∧ undoable tdb m s' s'') →
  ∃ s', ('(s, o) ← GetOrNewStateObject a s; k s o) = Ok s' ∧ framed s s'.
Proof.
  intros Hi Hk. destruct (GetOrNew_spec tdb m a s Hi) as (s1 & o & -> & Hu & Hl). rewrite bind_Ok.
  destruct (Hk s1 o (proj1 Hu) Hl) as (s2 & -> & Hu2). eexists. split; [done|]. apply undoable_framed. by eapply undoable_trans.
Qed.

(** A step that can be undone because it changed nothing that can be seen. *)
Definition silent (s s' : StateDB) : Prop := undoable tdb m s s' ∧ state_eq tdb m s' s ∧ tx_of s' = tx_of s.

Lemma quiet_silent s s' : inv tdb m s' → quiet m s s' → silent s s'.
Proof. intros Hi Hq. split_and!; [by apply quiet_undoable|by apply quiet_eq|exact (f_equal fst (q_rest _ _ _ Hq))]. Qed.

Lemma silent_trans s1 s2 s3 : silent s1 s2 → silent s2 s3 → silent s1 s3.
Proof. intros (? & ? & ?) (? & ? & ?). split_and!; [by eapply undoable_trans|by transitivity s2|congruence]. Qed.

Lemma store_silent s a o o' : inv tdb m s → look m s a = Some o → same_view tdb o o' → silent s (setStateObject o' s).
Proof.
  intros Hi Hl Hv. split_and!; [by eapply store_same| |done]. destruct Hv as (He & Hok & Ha & Hd).
  destruct (look_ok tdb m s a o Hi Hl) as (Hao & _ & Hdo).
  destruct (setStateObject_changed tdb m o' s Hi Hok) as [_ Hl' _ _]; [congruence|]. rewrite Ha, Hao in Hl'.
  split; try done. intros a'. rewrite Hl'. case_decide as Ha'; [|done]. subst a'. rewrite Hl. by constructor.
Qed.

Lemma set_db_silent db s : cdb_db db = tdb → inv tdb m s → silent s (set_db db s).
Proof. intros. apply quiet_silent; [by apply set_db_inv|by split]. Qed.

Lemma read_spec {A} (f : stateObject → A) d a s : inv tdb m s →
  ∃ s', read f d a s = Ok (s', from_option f d (look m s a)) ∧ silent s s'.
Proof.
  intros Hi. unfold read. destruct (getStateObject_spec tdb m a s Hi) as (s1 & -> & Hi1 & Hq & _). rewrite bind_Ok.
  eexists. split; [done|]. by apply quiet_silent.
Qed.

Lemma GetState_spec a k s : inv tdb m s →
  ∃ s', GetState a k s = Ok (s', from_option (fun o => slot_view tdb o k) zeroHash (look m s a)) ∧ silent s s'.
Proof.
  intros Hi. unfold GetState. destruct (getStateObject_spec tdb m a s Hi) as (s1 & -> & Hi1 & Hq & _). rewrite bind_Ok.
  destruct (look m s a) as [o|] eqn:E; [|eexists; split; [done|]; by apply quiet_silent].
  destruct (look_ok tdb m s a o Hi E) as (_ & Hok & _).
  destruct (obj_GetState_spec (sdb_db s1) tdb k o (inv_db tdb m s1 Hi1) Hok) as (o' & -> & Hv). rewrite bind_Ok.
  eexists. split; [done|]. apply (silent_trans s s1); [by apply quiet_silent|].
  apply (store_silent s1 a o); [done|by rewrite (q_look _ _ _ Hq)|done].
Qed.

Lemma GetCode_spec a s : inv tdb m s →
  ∃ s', GetCode a s = Ok (s', look m s a ≫= code_view tdb) ∧ silent s s'.
Proof.
  intros Hi. unfold GetCode. destruct (getStateObject_spec tdb m a s Hi) as (s1 & -> & Hi1 & Hq & _). rewrite bind_Ok.
  destruct (look m s a) as [o|] eqn:E; [|eexists; split; [done|]; by apply quiet_silent].
  destruct (look_ok tdb m s a o Hi E) as (_ & Hok & _).
  destruct (obj_Code_spec (sdb_db s1) tdb o (inv_db tdb m s1 Hi1) Hok) as (db & o' & -> & Hdb & Hv).
  eexists. split; [done|]. apply (silent_trans s s1); [by apply quiet_silent|].
  apply (silent_trans s1 (set_db db s1)); [by apply set_db_silent|].
  apply (store_silent _ a o); [by apply set_db_inv| |done].
  change (look m (set_db db s1) a) with (look m s1 a). by rewrite (q_look _ _ _ Hq).
Qed.

Lemma ContractCodeSize_db h db : cdb_db (ContractCodeSize h db).1.1 = cdb_db db.
Proof.
  unfold ContractCodeSize, ContractCode. destruct (arc_get _ _) as [c [n|]]; cbn [fst]; [done|].
  cbn [cdb_db set_codeSizeCache]. destruct (tdb_nodes _ !! h); [done|]. destruct (db_Get _ _); done.
Qed.

Lemma GetCodeSize_spec a s : inv tdb m s → ∃ s', state_after (GetCodeSize a s) = Ok s' ∧ silent s s'.
Proof.
  intros Hi. unfold GetCodeSize. destruct (getStateObject_spec tdb m a s Hi) as (s1 & -> & Hi1 & Hq & _). rewrite bind_Ok.
  assert (silent s s1) as Hu by (by apply quiet_silent).
  destruct (look m s a) as [o|]; [|by exists s1]. destruct (so_code o); [by exists s1|].
  pose proof (ContractCodeSize_db (BytesToHash (acc_CodeHash (so_data o))) (sdb_db s1)) as Hdb.
  destruct (ContractCodeSize _ _) as [[db sz] err]. cbn [fst] in Hdb. eexists. split; [done|].
  apply (silent_trans s s1); [done|]. apply (silent_trans s1 (set_db db s1)).
  - apply set_db_silent; [rewrite Hdb; apply Hi1|done].
  - apply (set_db_inv tdb m db) in Hi1; [|rewrite Hdb; by destruct Hi1].
    apply quiet_silent; unfold state_setError; destruct err; [|done|..]; try (by split);
      destruct (sdb_dbErr _); by split; try apply Hi1.
Qed.

Lemma Suicide_spec a s : inv tdb m s → ∃ s', state_after (Suicide a s) = Ok s' ∧ undoable tdb m s s'.
Proof.
  intros Hi. unfold Suicide. destruct (getStateObject_spec tdb m a s Hi) as (s1 & -> & Hi1 & Hq & _). rewrite bind_Ok.
  assert (undoable tdb m s s1) as Hu by (by apply quiet_undoable).
  destruct (look m s a) as [o|] eqn:E; [|by exists s1].
  pose proof (Suicide_undoable tdb m s1 a o Hi1 ltac:(by rewrite (q_look _ _ _ Hq))) as Hs.
  destruct (obj_markSuicided _ _) as [o' s']. eexists. split; [done|]. by eapply undoable_trans.
Qed.

Lemma Prepare_undoable th bh ti s : inv tdb m s → undoable tdb m s (Prepare th bh ti s).
Proof.
  intros Hi. split; [by destruct Hi|]. split; [done|]. exists []. rewrite app_nil_r. split; [done|]. intros s2 Hi2 He.
  exists s2. split_and!; [done|done|done|]. destruct He. by split.
Qed.

(** The operations that are not frames. *)
Lemma simple_framed op s : inv tdb m s → (∀ body failed, op ≠ OpFrame body failed) →
  ∃ s', execOp op s = Ok s' ∧ framed s s'.
Proof.
  intros Hi Hop.
  assert (∀ r : pan StateDB, (∃ s', r = Ok s' ∧ undoable tdb m s s') → ∃ s', r = Ok s' ∧ framed s s') as Hlift.
  { intros r (s' & -> & Hu). eexists. split; [done|by apply undoable_framed]. }
  assert (∀ A (f : stateObject → A) d a, ∃ s', state_after (read f d a s) = Ok s' ∧ framed s s') as Hread.
  { intros A f d a. apply Hlift. destruct (read_spec f d a s Hi) as (s' & -> & Hu & _). by exists s'. }
  destruct op; cbn [execOp]; try (by apply Hread);
    try (apply with_object; [done|]; intros s1 o Hi1 Hl; try (eexists; split; [done|])).
  - by apply Hlift, CreateAccount_undoable.
  - by eapply AddBalance_undoable.
  - by eapply SubBalance_undoable.
  - by eapply SetBalance_undoable.
  - by eapply SetNonce_undoable.
  - eapply SetCode_undoable; [done..|]. apply Keccak256_length.
  - destruct (SetState_undoable tdb m s1 addr o key value Hi1 Hl) as (r & -> & Hu). by exists (store_obj r).
  - by apply Hlift, Suicide_spec.
  - apply Hlift. eexists. split; [done|]. by apply AddLog_undoable.
  - apply Hlift. eexists. split; [done|]. by apply AddPreimage_undoable.
  - apply Hlift. eexists. split; [done|]. by apply AddRefund_undoable.
  - apply Hlift. eexists. split; [done|]. by apply Prepare_undoable.
  - apply Hlift. destruct (GetCode_spec addr s Hi) as (s' & -> & Hu & _). by exists s'.
  - apply Hlift. destruct (GetCodeSize_spec addr s Hi) as (s' & -> & Hu & _). by exists s'.
  - apply Hlift. destruct (GetState_spec addr key s Hi) as (s' & -> & Hu & _). by exists s'.
  - by destruct (Hop body failed).
Qed.

Lemma runWith_framed (P : stateOp → Prop) ops :
  (∀ op s, P op → inv tdb m s → revs_ok s → ∃ s', execOp op s = Ok s' ∧ framed s s') →
  Forall P ops → ∀ s, inv tdb m s → revs_ok s → ∃ s', runOps ops s = Ok s' ∧ framed s s'.
Proof.
  intros HP. induction 1 as [|op ops Hop _ IH]; intros s Hi Hr.
  - exists s. split; [done|]. apply undoable_framed, quiet_undoable; [done|by split].
  - destruct (HP op s Hop Hi Hr) as (s1 & E & Hf). cbn [runWith]. rewrite E, bind_Ok.
    destruct (IH s1 (fr_inv _ _ Hf) (framed_revs_ok _ _ Hr Hf)) as (s2 & E2 & Hf2). exists s2. split; [done|].
    by eapply framed_trans.
Qed.

Lemma stateOp_nested_ind (P : stateOp → Prop) : (∀ op, (∀ body failed, op ≠ OpFrame body failed) → P op) →
  (∀ body failed, Forall P body → P (OpFrame body failed)) → ∀ op, P op.
Proof.
  intros H1 H2. fix IH 1. intros op. destruct op; try (apply H1; clear; discriminate).
  apply H2. induction body as [|op body IHb]; constructor; [apply IH|exact IHb].
Qed.

Lemma execOp_framed : ∀ op s, inv tdb m s → revs_ok s → ∃ s', execOp op s = Ok s' ∧ framed s s'.
Proof.
  induction op as [op Hop|body failed IH] using stateOp_nested_ind; intros s Hi Hr; [by apply simple_framed|]. cbn [execOp].
  pose proof (Snapshot_framed s Hi) as Hs. pose proof (framed_revs_ok _ _ Hr Hs) as Hrs.
  destruct (runWith_framed _ body (fun op s H => H s) IH (Snapshot s).1) as (s2 & E & Hf); [apply Hs|done|].
  change (Snapshot s) with ((Snapshot s).1, (Snapshot s).2). cbv beta iota. rewrite E, bind_Ok. destruct failed.
  - by apply revert_framed.
  - exists s2. split; [done|]. by eapply framed_trans.
Qed.

Lemma runOps_framed ops s : inv tdb m s → revs_ok s → ∃ s', runOps ops s = Ok s' ∧ framed s s'.
Proof.
  apply (runWith_framed (fun _ => True)); [|by induction ops; constructor]. intros op s' _. apply execOp_framed.
Qed.

(** ** What is read *)

Lemma result_read {A} (f : stateObject → A) d a s : inv tdb m s →
  result_of (read f d a s) = Ok (from_option f d (look m s a)).
Proof. intros Hi. by destruct (read_spec f d a s Hi) as (s' & -> & _). Qed.

Lemma state_eq_look {A} (f : stateObject → A) d s1 s2 a : (∀ o1 o2, obj_eq tdb o1 o2 → f o1 = f o2) →
  state_eq tdb m s1 s2 → from_option f d (look m s1 a) = from_option f d (look m s2 a).
Proof. intros Hf [Ho _ _ _ _]. destruct (Ho a); [by apply Hf|done]. Qed.

Lemma state_eq_reads s1 s2 : inv tdb m s1 → inv tdb m s2 → state_eq tdb m s1 s2 → reads_as s1 s2.
Proof.
  intros Hi1 Hi2 He. split; try apply He; intros a.
  1-5,8: unfold Exist, State.Empty, GetBalance, GetNonce, GetCodeHash, HasSuicided; rewrite !result_read by done; f_equal;
    apply state_eq_look; [|done]; intros o1 o2 [Hn Hb Hc _ _ Hs]; try done; unfold obj_empty; by rewrite ?Hn, ?Hb, ?Hc.
  - destruct (GetCode_spec a s1 Hi1) as (? & -> & _), (GetCode_spec a s2 Hi2) as (? & -> & _). cbn. f_equal.
    pose proof (state_eq_look (code_view tdb) None s1 s2 a) as Hc. destruct (look m s1 a), (look m s2 a); apply Hc; try done; apply oe_code.
  - intros k. destruct (GetState_spec a k s1 Hi1) as (? & -> & _), (GetState_spec a k s2 Hi2) as (? & -> & _). cbn. f_equal.
    apply state_eq_look; [|done]. intros ?? Ho. apply Ho.
Qed.

End Steps.
End Frame.
