(* ===== verification/StateSpec.v ===== *)
(** * The state as a map of accounts

    The abstract state is a function from addresses to accounts; a frame that
    fails gives back the value it started from.  The state database, with its
    caches, lazily opened tries, shared objects and journal, refines it. *)

From S2P Require Import Prelude Types Interfaces Rlp RlpRaw RlpStream RlpDecode TrieEncoding TrieNode Trie TrieSpec State StateRevert StateFrame.
From stdpp Require Import base tactics option numbers list gmap sorting.
From Stdlib Require Import ZArith Lia.

#[local] Open Scope Z_scope.

Section Spec.
Context `{HK : Keccak, HD : Database, HC : ARCCache Z, !KeccakLaws}.

(** ** The abstract state *)

Record accountView := mkView {
  av_nonce : Z;
  av_balance : Z;
  av_codeHash : list Z;
  av_code : option (list Z);
  av_slots : Hash → Hash;
  av_suicided : bool
}.

Record world := mkWorld {
  w_accounts : Address → option accountView;
  w_refund : Z;
  w_logs : Hash → list Log;
  w_logSize : Z;
  w_preimages : gmap Hash (list Z);
  w_tx : Hash * Hash * Z
}.

Definition zeroView : accountView := mkView 0 0 emptyCodeHash None (fun _ => zeroHash) false.

Definition with_accounts (f : Address → option accountView) (w : world) : world :=
  mkWorld f (w_refund w) (w_logs w) (w_logSize w) (w_preimages w) (w_tx w).

Definition w_set (a : Address) (v : accountView) (w : world) : world :=
  with_accounts (fun a' => if decide (a' = a) then Some v else w_accounts w a') w.

(** An account is made when it is first written to. *)
Definition w_update (a : Address) (f : accountView → accountView) (w : world) : world :=
  w_set a (f (default zeroView (w_accounts w a))) w.

Definition v_balance (z : Z) (v : accountView) : accountView :=
  mkView (av_nonce v) z (av_codeHash v) (av_code v) (av_slots v) (av_suicided v).
Definition v_nonce (n : Z) (v : accountView) : accountView :=
  mkView n (av_balance v) (av_codeHash v) (av_code v) (av_slots v) (av_suicided v).
Definition v_code (c : option (list Z)) (v : accountView) : accountView :=
  mkView (av_nonce v) (av_balance v) (Keccak256 (default [] c)) c (av_slots v) (av_suicided v).
Definition v_slot (k x : Hash) (v : accountView) : accountView :=
  mkView (av_nonce v) (av_balance v) (av_codeHash v) (av_code v) (fun k' => if decide (k' = k) then x else av_slots v k') (av_suicided v).
Definition v_suicide (v : accountView) : accountView :=
  mkView (av_nonce v) 0 (av_codeHash v) (av_code v) (av_slots v) true.

Definition w_addLog (l : Log) (w : world) : world :=
  let '(th, bh, ti) := w_tx w in
  let l := mkLog (log_Address l) (log_Topics l) (log_Data l) (log_BlockNumber l) th ti bh (w_logSize w) (log_Removed l) in
  mkWorld (w_accounts w) (w_refund w) (fun h => if decide (h = th) then w_logs w th ++ [l] else w_logs w h)
    ((w_logSize w + 1)%u64) (w_preimages w) (w_tx w).

Definition runSpec (spec : stateOp → world → world) : list stateOp → world → world :=
  fix go ops w := match ops with [] => w | op :: ops => go ops (spec op w) end.

Fixpoint specOp (op : stateOp) (w : world) : world :=
  match op with
  | OpCreateAccount a => w_set a (v_balance (from_option av_balance 0 (w_accounts w a)) zeroView) w
  | OpAddBalance a z => w_update a (fun v => v_balance (av_balance v + z) v) w
  | OpSubBalance a z => w_update a (fun v => v_balance (av_balance v - z) v) w
  | OpSetBalance a z => w_update a (v_balance z) w
  | OpSetNonce a n => w_update a (v_nonce n) w
  | OpSetCode a c => w_update a (v_code c) w
  | OpSetState a k x => w_update a (v_slot k x) w
  | OpSuicide a => match w_accounts w a with Some v => w_set a (v_suicide v) w | None => w end
  | OpAddLog l => w_addLog l w
  | OpAddPreimage h p =>
      mkWorld (w_accounts w) (w_refund w) (w_logs w) (w_logSize w)
        (match w_preimages w !! h with Some _ => w_preimages w | None => <[h := p]> (w_preimages w) end) (w_tx w)
  | OpAddRefund g => mkWorld (w_accounts w) ((w_refund w + g)%u64) (w_logs w) (w_logSize w) (w_preimages w) (w_tx w)
  | OpPrepare th bh ti => mkWorld (w_accounts w) (w_refund w) (w_logs w) (w_logSize w) (w_preimages w) (th, bh, ti)
  | OpFrame body failed =>
      let w' := runSpec specOp body w in
      if failed then mkWorld (w_accounts w) (w_refund w) (w_logs w) (w_logSize w) (w_preimages w) (w_tx w') else w'
  | _ => w
  end.

Notation runSpecs := (runSpec specOp).
Notation runOps := (runWith execOp).

Definition view_empty `{Keccak} (v : accountView) : bool :=
  (av_nonce v =? 0) && (av_balance v =? 0) && bool_decide (av_codeHash v = emptyCodeHash).

(** What the methods answer, in terms of the abstract state.  [GetCodeSize] is
    left to StateVm.v: it answers from a cache of sizes. *)
Record answers (s : StateDB) (w : world) : Prop := {
  an_Exist : ∀ a, result_of (Exist a s) = Ok (bool_decide (is_Some (w_accounts w a)));
  an_Empty : ∀ a, result_of (State.Empty a s) = Ok (from_option view_empty true (w_accounts w a));
  an_GetBalance : ∀ a, result_of (GetBalance a s) = Ok (from_option av_balance 0 (w_accounts w a));
  an_GetNonce : ∀ a, result_of (GetNonce a s) = Ok (from_option av_nonce 0 (w_accounts w a));
  an_GetCodeHash : ∀ a, result_of (GetCodeHash a s) = Ok (from_option (fun v => BytesToHash (av_codeHash v)) zeroHash (w_accounts w a));
  an_GetCode : ∀ a, result_of (GetCode a s) = Ok (w_accounts w a ≫= av_code);
  an_GetState : ∀ a k, result_of (GetState a k s) = Ok (from_option (fun v => av_slots v k) zeroHash (w_accounts w a));
  an_HasSuicided : ∀ a, result_of (HasSuicided a s) = Ok (from_option av_suicided false (w_accounts w a));
  an_GetLogs : ∀ h, GetLogs h s = w_logs w h;
  an_refund : sdb_refund s = w_refund w;
  an_preimages : sdb_preimages s = w_preimages w
}.

(** ** The relation with the state database *)

Record view_eq (v1 v2 : accountView) : Prop := {
  ve_nonce : av_nonce v1 = av_nonce v2;
  ve_balance : av_balance v1 = av_balance v2;
  ve_codeHash : av_codeHash v1 = av_codeHash v2;
  ve_code : av_code v1 = av_code v2;
  ve_slots : ∀ k, av_slots v1 k = av_slots v2 k;
  ve_suicided : av_suicided v1 = av_suicided v2
}.

#[export] Instance view_eq_equiv : Equivalence view_eq.
Proof.
  split.
  - intros v. by split.
  - intros v1 v2 []. by split.
  - intros v1 v2 v3 [] []. split; try (etransitivity; eassumption). intros k. etransitivity; eauto.
Qed.

Definition view_of (tdb : TrieDB) (o : stateObject) : accountView :=
  mkView (acc_Nonce (so_data o)) (acc_Balance (so_data o)) (acc_CodeHash (so_data o)) (code_view tdb o)
    (slot_view tdb o) (so_suicided o).

Lemma obj_eq_view tdb o1 o2 : obj_eq tdb o1 o2 ↔ view_eq (view_of tdb o1) (view_of tdb o2).
Proof. split; intros []; by split. Qed.

Section Sees.
Context (tdb : TrieDB) (m : gmap (list Z) (list Z)).

Record sees (s : StateDB) (w : world) : Prop := {
  sees_accounts : ∀ a, option_Forall2 view_eq (view_of tdb <$> look m s a) (w_accounts w a);
  sees_refund : sdb_refund s = w_refund w;
  sees_logs : ∀ h, GetLogs h s = w_logs w h;
  sees_logSize : sdb_logSize s = w_logSize w;
  sees_preimages : sdb_preimages s = w_preimages w;
  sees_tx : tx_of s = w_tx w
}.

Lemma quiet_sees s s' w : quiet m s s' → sees s w → sees s' w.
Proof.
  intros [Hl Hr _ _] []. assert (tx_of s' = tx_of s) as Htx by exact (f_equal fst Hr).
  injection Hr as ? ? ? ? Hlogs ? ?. split; try congruence.
  - intros a. by rewrite Hl.
  - intros h. unfold GetLogs. rewrite Hlogs. apply sees_logs0.
Qed.

Lemma changed_sees a o v s s' w : changed tdb m a o s s' → view_eq (view_of tdb o) v → sees s w → sees s' (w_set a v w).
Proof.
  intros [_ Hl Hr _] Hv []. assert (tx_of s' = tx_of s) as Htx by exact (f_equal fst Hr).
  injection Hr as ? ? ? ? Hlogs ? ?. split; cbn; try congruence.
  - intros a'. rewrite Hl. case_decide; [by constructor|done].
  - intros h. unfold GetLogs. rewrite Hlogs. apply sees_logs0.
Qed.

Lemma sees_Some s w a o : sees s w → look m s a = Some o → ∃ v, w_accounts w a = Some v ∧ view_eq (view_of tdb o) v.
Proof. intros [Ho _ _ _ _ _] Hl. specialize (Ho a). rewrite Hl in Ho. inversion Ho; subst. eauto. Qed.

Lemma sees_None s w a : sees s w → look m s a = None → w_accounts w a = None.
Proof. intros [Ho _ _ _ _ _] Hl. specialize (Ho a). rewrite Hl in Ho. by inversion Ho. Qed.

(** Setting an account twice, or to what it was. *)
Lemma w_set_twice s a v v' w : sees s (w_set a v (w_set a v' w)) → sees s (w_set a v w).
Proof.
  intros []. split; try done. intros a'. specialize (sees_accounts0 a'). cbn in *. by case_decide.
Qed.

Lemma w_set_same s a v w : w_accounts w a = Some v → sees s w → sees s (w_set a v w).
Proof.
  intros Hv []. split; try done. intros a'. specialize (sees_accounts0 a'). cbn in *. case_decide as Ha; [subst|done]. by rewrite Hv in *.
Qed.

(** A new account. *)
Lemma zero_object_view a b : view_eq (view_of tdb (newObject a zeroAccount b)) zeroView.
Proof.
  split; try done.
  - cbn [av_code view_of zeroView]. unfold code_view. cbn. by rewrite bool_decide_eq_true_2.
  - intros k. cbn [av_slots view_of zeroView]. unfold slot_view. cbn [so_cachedStorage newObject]. rewrite lookup_empty.
    destruct (zero_trie tdb a b) as (t & Ho & Ht). by rewrite (trie_read_ok tdb _ t ∅ k Ho Ht).
Qed.

Lemma fresh_view a : view_eq (view_of tdb (freshObject a)) zeroView.
Proof. destruct (zero_object_view a true). by split. Qed.

Lemma GetOrNew_sees a s w : inv tdb m s → sees s w →
  ∃ s' o, GetOrNewStateObject a s = Ok (s', o) ∧ inv tdb m s' ∧ look m s' a = Some o ∧
    view_eq (view_of tdb o) (default zeroView (w_accounts w a)) ∧ sees s' (w_set a (default zeroView (w_accounts w a)) w).
Proof.
  intros Hi Hs. unfold GetOrNewStateObject. destruct (getStateObject_spec tdb m a s Hi) as (s1 & -> & Hi1 & Hq & _).
  pose proof (quiet_sees _ _ _ Hq Hs) as Hs1. rewrite bind_Ok. destruct (look m s a) as [o|] eqn:E.
  - destruct (look_ok tdb m s a o Hi E) as (_ & _ & ->). destruct (sees_Some _ _ _ _ Hs E) as (v & Hv & He). rewrite Hv.
    exists s1, o. split_and!; [done|done|by rewrite (q_look _ _ _ Hq)|done|by apply w_set_same].
  - rewrite (sees_None _ _ _ Hs E). destruct (createObject_spec tdb m a s1 Hi1) as (s2 & -> & Hc & _). rewrite bind_Ok.
    exists s2, (freshObject a). split_and!; [done|apply Hc| |apply fresh_view|].
    + by rewrite (c_look _ _ _ _ _ _ Hc), decide_True.
    + eapply changed_sees; [done|apply fresh_view|done].
Qed.

(** A method that finds or makes an object, and changes it. *)
Lemma update_sees a s w (f : accountView → accountView) (k : StateDB → stateObject → pan StateDB) : inv tdb m s → sees s w →
  (∀ v1 v2, view_eq v1 v2 → view_eq (f v1) (f v2)) →
  (∀ s' o, inv tdb m s' → look m s' a = Some o →
     ∃ s'' o', k s' o = Ok s'' ∧ changed tdb m a o' s' s'' ∧ view_eq (view_of tdb o') (f (view_of tdb o))) →
  ∃ s', ('(s, o) ← GetOrNewStateObject a s; k s o) = Ok s' ∧ sees s' (w_update a f w).
Proof.
  intros Hi Hs Hf Hk. destruct (GetOrNew_sees a s w Hi Hs) as (s1 & o & -> & Hi1 & Hl1 & Hv & Hs1). rewrite bind_Ok.
  destruct (Hk s1 o Hi1 Hl1) as (s2 & o' & -> & Hc & Hv'). eexists. split; [done|]. unfold w_update.
  eapply w_set_twice, changed_sees; [done| |done]. etransitivity; [done|]. by apply Hf.
Qed.

(** The journaled setters. *)
Lemma journaled_changed s a o e h : inv tdb m s → look m s a = Some o → obj_ok tdb (h o) → same_object o (h o) →
  ∃ o', changed tdb m a o' s (store_obj (fireDirty (h o) (push e s))) ∧ obj_eq tdb o' (h o).
Proof.
  intros Hi Hl Hok [Ha Hd]. destruct (look_ok tdb m s a o Hi Hl) as (Hao & _ & Hdo).
  destruct (store_marked tdb m (h o) (push e s) (push_inv tdb m e s Hi) Hok) as (o' & Hc & (He & _ & _) & Hj); [congruence|].
  rewrite Ha, Hao in Hc. exists o'. split; [by apply (changed_from tdb m a o' s (push e s))|done].
Qed.

Lemma SetBalance_changed s a o z : inv tdb m s → look m s a = Some o →
  ∃ s' o', Ok (E := Empty_set) (store_obj (obj_SetBalance z o s)) = Ok s' ∧ changed tdb m a o' s s' ∧
    view_eq (view_of tdb o') (v_balance z (view_of tdb o)).
Proof.
  intros Hi Hl. destruct (look_ok tdb m s a o Hi Hl) as (_ & Hok & _).
  destruct (journaled_changed s a o (balanceChange (so_address o) (acc_Balance (so_data o))) (set_Balance z) Hi Hl) as (o' & Hc & He);
    [by destruct Hok|done|]. eexists _, o'. split; [done|]. split; [done|]. apply obj_eq_view in He. destruct He. by split.
Qed.

Lemma SetNonce_changed s a o n : inv tdb m s → look m s a = Some o →
  ∃ s' o', Ok (E := Empty_set) (store_obj (obj_SetNonce n o s)) = Ok s' ∧ changed tdb m a o' s s' ∧
    view_eq (view_of tdb o') (v_nonce n (view_of tdb o)).
Proof.
  intros Hi Hl. destruct (look_ok tdb m s a o Hi Hl) as (_ & Hok & _).
  destruct (journaled_changed s a o (nonceChange (so_address o) (acc_Nonce (so_data o))) (set_Nonce n) Hi Hl) as (o' & Hc & He);
    [by destruct Hok|done|]. eexists _, o'. split; [done|]. split; [done|]. apply obj_eq_view in He. destruct He. by split.
Qed.

Lemma store_changed s a o o' : inv tdb m s → look m s a = Some o → same_view tdb o o' →
  changed tdb m a o' s (setStateObject o' s).
Proof.
  intros Hi Hl (He & Hok & Ha & Hd). destruct (look_ok tdb m s a o Hi Hl) as (Hao & _ & Hdo).
  rewrite <- Hao, <- Ha. apply setStateObject_changed; [done|done|congruence].
Qed.

Lemma v_balance_self z v : av_balance v = z → view_eq v (v_balance z v).
Proof. intros <-. by split. Qed.

Lemma AddBalance_changed s a o z : inv tdb m s → look m s a = Some o →
  ∃ s' o', Ok (E := Empty_set) (store_obj (obj_AddBalance z o s)) = Ok s' ∧ changed tdb m a o' s s' ∧
    view_eq (view_of tdb o') (v_balance (acc_Balance (so_data o) + z) (view_of tdb o)).
Proof.
  intros Hi Hl. destruct (look_ok tdb m s a o Hi Hl) as (_ & Hok & _). unfold obj_AddBalance.
  destruct (Z.eqb_spec z 0) as [->|_]; [|by apply SetBalance_changed]. rewrite Z.add_0_r. destruct (obj_empty o).
  - destruct (touch_changed tdb m s a o Hi Hl) as (o' & Hc & He & _). apply obj_eq_view in He. eexists _, o'.
    split_and!; [done|done|]. etransitivity; [done|]. by apply v_balance_self.
  - eexists _, o. split; [done|]. split; [by apply (store_changed s a o o); [..|by split_and!]|by apply v_balance_self].
Qed.

Lemma SubBalance_changed s a o z : inv tdb m s → look m s a = Some o →
  ∃ s' o', Ok (E := Empty_set) (store_obj (obj_SubBalance z o s)) = Ok s' ∧ changed tdb m a o' s s' ∧
    view_eq (view_of tdb o') (v_balance (acc_Balance (so_data o) - z) (view_of tdb o)).
Proof.
  intros Hi Hl. destruct (look_ok tdb m s a o Hi Hl) as (_ & Hok & _). unfold obj_SubBalance.
  destruct (Z.eqb_spec z 0) as [->|_]; [|by apply SetBalance_changed]. rewrite Z.sub_0_r.
  eexists _, o. split; [done|]. split; [by apply (store_changed s a o o); [..|by split_and!]|by apply v_balance_self].
Qed.

Lemma SetState_changed s a o k x : inv tdb m s → look m s a = Some o →
  ∃ s' o', (r ← obj_SetState k x o s; Ok (store_obj r)) = Ok s' ∧ changed tdb m a o' s s' ∧
    view_eq (view_of tdb o') (v_slot k x (view_of tdb o)).
Proof.
  intros Hi Hl. destruct (look_ok tdb m s a o Hi Hl) as (Ha & Hok & Hd). unfold obj_SetState.
  destruct (obj_GetState_spec (sdb_db s) tdb k o (inv_db tdb m s Hi) Hok) as (o1 & -> & He1 & Hok1 & Ha1 & Hd1).
  rewrite !bind_Ok. unfold obj_setState.
  destruct (journaled_changed s a o (storageChange (so_address o1) k (slot_view tdb o k))
    (fun _ => set_dirtyStorage (<[k := x]> (so_dirtyStorage o1)) (set_cachedStorage (<[k := x]> (so_cachedStorage o1)) o1)) Hi Hl)
    as (o' & Hc & He); [by destruct Hok1|done|]. eexists _, o'. split; [done|]. split; [done|].
  destruct He as [? ? ? Hcode Hsl ?], He1 as [? ? ? ? Hsl1 ?]. split; try (etransitivity; eassumption). intros k'. cbn [av_slots view_of v_slot].
  rewrite Hsl, slot_view_set. by case_decide.
Qed.

Lemma SetCode_changed s a o c : inv tdb m s → look m s a = Some o →
  ∃ s' o', Ok (E := Empty_set) (store_obj (obj_SetCode (Keccak256 (default [] c)) c o s)) = Ok s' ∧ changed tdb m a o' s s' ∧
    view_eq (view_of tdb o') (v_code c (view_of tdb o)).
Proof.
  intros Hi Hl. destruct (look_ok tdb m s a o Hi Hl) as (Ha & Hok & Hd). unfold obj_SetCode.
  destruct (obj_Code_spec (sdb_db s) tdb o (inv_db tdb m s Hi) Hok) as (db & o1 & -> & Hdb & He1 & Hok1 & Ha1 & Hd1).
  unfold obj_setCode. set (e := codeChange _ _ _).
  destruct (journaled_changed (set_db db s) a o e
    (fun _ => set_dirtyCode true (set_CodeHash (Keccak256 (default [] c)) (set_objCode c o1)))) as (o' & Hc & He);
    [by apply set_db_inv|done|destruct Hok1; split; [done|apply Keccak256_length]|done|]. eexists _, o'. split; [done|].
  split; [by apply (changed_from tdb m a o' s (set_db db s))|].
  destruct He as [? ? ? Hcode Hsl ?], He1 as [? ? ? ? Hsl1 ?]. split; try (etransitivity; eassumption); [done| |].
  - cbn [av_code view_of v_code]. rewrite Hcode, code_view_set by apply Keccak256_length. destruct c; [done|].
    by rewrite bool_decide_eq_true_2.
  - intros k. etransitivity; [apply (Hsl k)|apply Hsl1].
Qed.

Lemma Suicide_sees a s w : inv tdb m s → sees s w → ∃ s', state_after (Suicide a s) = Ok s' ∧ sees s' (specOp (OpSuicide a) w).
Proof.
  intros Hi Hs. unfold Suicide. destruct (getStateObject_spec tdb m a s Hi) as (s1 & -> & Hi1 & Hq & _).
  pose proof (quiet_sees _ _ _ Hq Hs) as Hs1. rewrite bind_Ok. cbn [specOp]. destruct (look m s a) as [o|] eqn:E.
  - destruct (sees_Some _ _ _ _ Hs E) as (v & -> & He). destruct (look_ok tdb m s a o Hi E) as (_ & Hok & _).
    pose proof (markSuicided_store o (push (suicideChange a (so_suicided o) (acc_Balance (so_data o))) s1)) as Hm.
    destruct (obj_markSuicided o _) as [o2 s2]. eexists. split; [done|]. rewrite Hm.
    destruct (journaled_changed s1 a o (suicideChange a (so_suicided o) (acc_Balance (so_data o)))
      (fun o => set_Balance 0 (set_suicided true o)) Hi1) as (o' & Hc & He'); [by rewrite (q_look _ _ _ Hq)|by destruct Hok|done|].
    eapply changed_sees; [done| |done]. apply obj_eq_view in He'. etransitivity; [done|]. destruct He. by split.
  - rewrite (sees_None _ _ _ Hs E). by exists s1.
Qed.

Lemma CreateAccount_sees a s w : inv tdb m s → sees s w →
  ∃ s', CreateAccount a s = Ok s' ∧ sees s' (specOp (OpCreateAccount a) w).
Proof.
  intros Hi Hs. unfold CreateAccount. destruct (createObject_spec tdb m a s Hi) as (s1 & -> & Hc & Hj). rewrite bind_Ok.
  cbn [specOp]. destruct (look m s a) as [prev|] eqn:E.
  - destruct (sees_Some _ _ _ _ Hs E) as (v & -> & He). eexists. split; [done|]. unfold obj_setBalance.
    destruct (store_marked tdb m (set_Balance (acc_Balance (so_data prev)) (freshObject a)) s1) as (o' & Hc' & (He' & _) & Hj');
      [apply Hc|by destruct (fresh_ok tdb a)|done|].
    change (so_address (set_Balance _ _)) with a in Hc'.
    eapply w_set_twice, changed_sees; [done| |eapply changed_sees; [done|apply fresh_view|done]].
    apply obj_eq_view in He'. etransitivity; [done|]. destruct (fresh_view a), He. by split.
  - rewrite (sees_None _ _ _ Hs E). eexists. split; [done|]. eapply changed_sees; [done| |done]. destruct (fresh_view a). by split.
Qed.

(** ** Logs *)

Lemma AddLog_sees l s w : sees s w → sees (AddLog l s) (specOp (OpAddLog l) w).
Proof.
  intros [Ho Hr Hl Hn Hp Ht]. unfold AddLog. cbn [specOp]. unfold w_addLog, tx_of in *. rewrite <- Ht. cbv beta iota zeta.
  cbn [sdb_thash sdb_bhash sdb_txIndex sdb_logs sdb_logSize push set_journal].
  split; cbn [w_accounts w_refund w_logs w_logSize w_preimages w_tx]; [done|done| |by rewrite <- Hn|done|done].
  intros h. unfold GetLogs. cbn [sdb_logs set_logs]. case_decide as Hh.
  - subst h. rewrite lookup_insert_eq. cbn. rewrite <- Hl, <- Hn. done.
  - rewrite lookup_insert_ne by done. apply Hl.
Qed.

Lemma AddPreimage_sees h p s w : sees s w → sees (AddPreimage h p s) (specOp (OpAddPreimage h p) w).
Proof.
  intros [Ho Hr Hl Hn Hp Ht]. unfold AddPreimage. cbn [specOp]. rewrite <- Hp. by destruct (sdb_preimages s !! h).
Qed.

(** ** Refinement *)

Lemma framed_same_sees s s' w : sees s w → state_eq tdb m s' s →
  sees s' (mkWorld (w_accounts w) (w_refund w) (w_logs w) (w_logSize w) (w_preimages w) (tx_of s')).
Proof.
  intros [Ho Hr Hl Hn Hp Ht] [Ho' Hr' Hl' Hn' Hp']. split; cbn [w_accounts w_refund w_logs w_logSize w_preimages w_tx]; try congruence.
  - intros a. specialize (Ho a). destruct (Ho' a) as [o1 o2 He|]; [|done]. cbn in *. inversion Ho; subst. constructor.
    etransitivity; [|done]. by apply obj_eq_view.
Qed.

Lemma silent_sees s s' w : sees s w → silent tdb m s s' → sees s' w.
Proof.
  intros Hs (_ & He & Ht). pose proof (framed_same_sees _ _ _ Hs He) as Hs'. rewrite Ht, (sees_tx _ _ Hs) in Hs'. by destruct w.
Qed.

Lemma simple_sees op s w : inv tdb m s → sees s w → (∀ body failed, op ≠ OpFrame body failed) →
  ∃ s', execOp op s = Ok s' ∧ sees s' (specOp op w).
Proof.
  intros Hi Hs Hop.
  assert (∀ A (f : stateObject → A) d a, ∃ s', state_after (read f d a s) = Ok s' ∧ sees s' w) as Hread.
  { intros A f d a. destruct (read_spec tdb m f d a s Hi) as (s' & -> & Hu). exists s'. split; [done|by eapply silent_sees]. }
  destruct op; cbn [execOp]; try (by apply Hread); try (by apply CreateAccount_sees); try (by apply Suicide_sees);
    try (cbn [specOp]; apply update_sees; [done|done|intros ?? []; split; cbn; (congruence || (intros ?; by case_decide))|intros s1 o Hi1 Hl]).
  - by apply AddBalance_changed.
  - by apply SubBalance_changed.
  - by apply SetBalance_changed.
  - by apply SetNonce_changed.
  - by apply SetCode_changed.
  - by apply SetState_changed.
  - eexists. split; [done|by apply AddLog_sees].
  - eexists. split; [done|by apply AddPreimage_sees].
  - eexists. split; [done|]. destruct Hs. split; try done. cbn. by rewrite <- sees_refund0.
  - eexists. split; [done|]. by destruct Hs.
  - destruct (GetCode_spec tdb m addr s Hi) as (s' & -> & Hu). exists s'. split; [done|by eapply silent_sees].
  - destruct (GetCodeSize_spec tdb m addr s Hi) as (s' & -> & Hu). exists s'. split; [done|by eapply silent_sees].
  - destruct (GetState_spec tdb m addr key s Hi) as (s' & -> & Hu). exists s'. split; [done|by eapply silent_sees].
  - by destruct (Hop body failed).
Qed.

Lemma runOps_sees_of ops : Forall (fun op => ∀ s w, inv tdb m s → revs_ok s → sees s w → ∃ s', execOp op s = Ok s' ∧ sees s' (specOp op w)) ops →
  ∀ s w, inv tdb m s → revs_ok s → sees s w → ∃ s', runOps ops s = Ok s' ∧ sees s' (runSpecs ops w).
Proof.
  induction 1 as [|op ops Hop _ IH]; intros s w Hi Hr Hs; cbn [runWith runSpec]; [by exists s|].
  destruct (Hop s w Hi Hr Hs) as (s1 & E & Hs1). destruct (execOp_framed tdb m op s Hi Hr) as (s1' & E' & Hf).
  rewrite E in E'. injection E' as <-. rewrite E, bind_Ok.
  apply IH; [apply Hf|by eapply framed_revs_ok|done].
Qed.

Lemma execOp_sees op : ∀ s w, inv tdb m s → revs_ok s → sees s w → ∃ s', execOp op s = Ok s' ∧ sees s' (specOp op w).
Proof.
  induction op as [op Hop|body failed IH] using stateOp_nested_ind; intros s w Hi Hr Hs; [by apply simple_sees|].
  cbn [execOp specOp]. change (Snapshot s) with ((Snapshot s).1, (Snapshot s).2). cbv beta iota zeta.
  pose proof (Snapshot_framed tdb m s Hi) as Hf. pose proof (framed_revs_ok tdb m _ _ Hr Hf) as Hr1.
  destruct (runOps_sees_of body IH (Snapshot s).1 w) as (s2 & E & Hs2); [apply Hf|done|by destruct Hs|].
  destruct (runOps_framed tdb m body (Snapshot s).1) as (s2' & E' & Hf2); [apply Hf|done|].
  rewrite E in E'. injection E' as <-. rewrite E, bind_Ok. destruct failed; [|by exists s2].
  destruct (revert_spec tdb m s s2 Hr Hf2) as (s3 & -> & _ & Ht & He & _). exists s3. split; [done|].
  rewrite <- (sees_tx _ _ Hs2), <- Ht. by apply framed_same_sees with (s := s).
Qed.

Lemma runOps_sees ops s w : inv tdb m s → revs_ok s → sees s w →
  ∃ s', runOps ops s = Ok s' ∧ inv tdb m s' ∧ sees s' (runSpecs ops w).
Proof.
  intros Hi Hr Hs. destruct (runOps_sees_of ops ltac:(apply Forall_true, execOp_sees) s w Hi Hr Hs) as (s' & E & Hs').
  destruct (runOps_framed tdb m ops s Hi Hr) as (s'' & E' & Hf). rewrite E in E'. injection E' as <-.
  exists s'. split_and!; [done|apply Hf|done].
Qed.

(** The abstract state of a trie of accounts. *)
Definition initial_world : world :=
  mkWorld (fun a => (fun d => view_of tdb (newObject a d true)) <$> trie_account m a) 0 (fun _ => []) 0 ∅ (zeroHash, zeroHash, 0).

Lemma NewState_ok root db t : accounts_ok tdb m → cdb_db db = tdb → cdb_pastTries db = [] →
  NewSecure root tdb MaxTrieCacheGen = Ok t → secure_ok tdb t m →
  ∃ s, NewState root db = Ok s ∧ inv tdb m s ∧ revs_ok s ∧ sees s initial_world.
Proof.
  intros Hacc Hdb Hp Hn Ht. unfold NewState, OpenTrie. rewrite Hp. cbn [reverse rev_append findPast]. rewrite bind_Ok.
  cbn [cdb_db set_pastTries]. rewrite Hdb, Hn, !bind_Ok. eexists. split; [done|]. split_and!.
  - split; [done|done|intros a o; cbn [sdb_stateObjects]; by rewrite lookup_empty|intros a d _; apply Hacc|done].
  - done.
  - split; try done. intros a. unfold look. cbn [sdb_stateObjects]. rewrite lookup_empty. cbn [w_accounts initial_world].
    by destruct (trie_account m a).
Qed.

Lemma sees_from {A} (f : stateObject → A) (g : accountView → A) d s w a : (∀ o v, view_eq (view_of tdb o) v → f o = g v) →
  sees s w → from_option f d (look m s a) = from_option g d (w_accounts w a).
Proof.
  intros Hfg Hs. destruct (look m s a) as [o|] eqn:E.
  - destruct (sees_Some _ _ _ _ Hs E) as (v & -> & He). by apply Hfg.
  - by rewrite (sees_None _ _ _ Hs E).
Qed.

Lemma sees_answers s w : inv tdb m s → sees s w → answers s w.
Proof.
  intros Hi Hs. split; try apply Hs; intros a.
  2: { unfold State.Empty. rewrite (result_read tdb m) by done. f_equal. apply sees_from; [|done].
    intros o v [Hn Hb Hc _ _ _]. unfold view_empty, obj_empty. by rewrite <- Hn, <- Hb, <- Hc. }
  2-4,7: unfold GetBalance, GetNonce, GetCodeHash, HasSuicided; rewrite (result_read tdb m) by done; f_equal;
    apply sees_from; [|done]; intros o v [? ? Hc ? ? ?]; (done || by rewrite <- Hc).
  - unfold Exist. rewrite (result_read tdb m) by done. f_equal. destruct (look m s a) as [o|] eqn:E.
    + destruct (sees_Some _ _ _ _ Hs E) as (v & -> & _). by rewrite bool_decide_eq_true_2.
    + rewrite (sees_None _ _ _ Hs E). by rewrite bool_decide_eq_false_2 by (by intros [? ?]).
  - destruct (GetCode_spec tdb m a s Hi) as (? & -> & _). cbn. f_equal. destruct (look m s a) as [o|] eqn:E.
    + destruct (sees_Some _ _ _ _ Hs E) as (v & -> & []). done.
    + by rewrite (sees_None _ _ _ Hs E).
  - intros k. destruct (GetState_spec tdb m a k s Hi) as (? & -> & _). cbn. f_equal.
    apply sees_from; [|done]. intros o v []. apply ve_slots0.
Qed.

End Sees.

(** C4. A state opened on a trie of accounts behaves as the map of those
    accounts: whatever sequence of operations a transaction performs, nested
    frames that fail included, the state database carries it out without a
    panic, and its methods then answer as the abstract state does, in which a
    frame that fails just gives back the accounts, logs, refund and preimages
    it started from. *)
Theorem state_refines_accounts tdb m root db t ops :
  accounts_ok tdb m → cdb_db db = tdb → cdb_pastTries db = [] →
  NewSecure root tdb MaxTrieCacheGen = Ok t → secure_ok tdb t m →
  ∃ s s', NewState root db = Ok s ∧ runWith execOp ops s = Ok s' ∧
    answers s' (runSpec specOp ops (initial_world tdb m)).
Proof.
  intros Hacc Hdb Hp Hn Ht. destruct (NewState_ok tdb m root db t Hacc Hdb Hp Hn Ht) as (s & E & Hi & Hr & Hs).
  destruct (runOps_sees tdb m ops s _ Hi Hr Hs) as (s' & E' & Hi' & Hs'). exists s, s'. split_and!; [done|done|].
  by eapply sees_answers.
Qed.

(** C8. Going back to a snapshot never panics and undoes everything done since
    it was taken: every method reads what it read before, and the journal and
    the revisions are the earlier ones, so that the older snapshots stay
    valid. *)
Theorem RevertToSnapshot_restores tdb m s ops :
  inv tdb m s → revs_ok s →
  ∃ s2 s3, runWith execOp ops (Snapshot s).1 = Ok s2 ∧ RevertToSnapshot (Snapshot s).2 s2 = Ok s3 ∧
    reads_as s3 s ∧ sdb_journal s3 = sdb_journal s ∧ sdb_validRevisions s3 = sdb_validRevisions s ∧
    inv tdb m s3 ∧ revs_ok s3.
Proof.
  intros Hi Hr. pose proof (Snapshot_framed tdb m s Hi) as Hf. pose proof (framed_revs_ok tdb m _ _ Hr Hf) as Hr1.
  destruct (runOps_framed tdb m ops (Snapshot s).1 (fr_inv _ _ _ _ Hf) Hr1) as (s2 & E & Hf2).
  destruct (revert_spec tdb m s s2 Hr Hf2) as (s3 & E3 & Hi3 & _ & He & Hj & Hv & Hn). exists s2, s3.
  split_and!; [done|done|by eapply state_eq_reads|done|done|done|]. unfold revs_ok. rewrite Hv. by apply ids_between_weaken with (sdb_nextRevisionId s).
Qed.

End Spec.
