(* ===== verification/StateRoot.v ===== *)
(** * The root of the state

    Finalising writes the dirty objects to the trie of accounts, each with the
    root of its storage; the state root identifies the result, whatever the
    order in which the maps are traversed. *)

From S2P Require Import Prelude Types Interfaces Rlp RlpRaw RlpStream RlpDecode TrieEncoding TrieNode Trie TrieSpec TrieHash TrieMap State StateRevert.
From stdpp Require Import base tactics option numbers list gmap sorting.
From Stdlib Require Import ZArith Lia.

#[local] Open Scope Z_scope.

Section Root.
Context `{HK : Keccak, HD : Database, HC : ARCCache Z, !KeccakLaws, !EmptyRootLaw}.

Notation contents_map := (gmap (list Z) (list Z)).

(** ** Writing to hashed tries *)

Lemma length_hex (l : list Z) : length (concat ((fun b => [b / 16; b mod 16]) <$> l)) = (2 * length l)%nat.
Proof. induction l as [|x l IH]; [done|]. cbn [fmap list_fmap concat]. rewrite length_app, IH. cbn [length]. lia. Qed.

Lemma hash_key_ok k : key_ok (Keccak256 k).
Proof.
  split; [apply Keccak256_bytes|]. unfold keybytesToHex. rewrite length_app, length_hex, Keccak256_length. vm_compute. done.
Qed.

Lemma Secure_TryUpdate_ok tdb t m key v : secure_ok tdb t m → is_bytes v → strlen v < maxItem → v ≠ [] →
  ∃ t', Secure_TryUpdate tdb key v t = (t', Ok tt) ∧ secure_ok tdb t' (<[Keccak256 key := v]> m).
Proof.
  intros Ht Hb Hl Hne. unfold Secure_TryUpdate, hashKey.
  destruct (TryUpdate_ok tdb (st_trie t) m (Keccak256 key) v Ht (hash_key_ok key) Hb Hl) as (t' & -> & Ht').
  rewrite decide_False in Ht' by done. eexists. by split.
Qed.

Lemma Secure_TryDelete_ok tdb t m key : secure_ok tdb t m →
  ∃ t', Secure_TryDelete tdb key t = (t', Ok tt) ∧ secure_ok tdb t' (delete (Keccak256 key) m).
Proof.
  intros Ht. unfold Secure_TryDelete, hashKey.
  destruct (TryDelete_ok tdb (st_trie t) m (Keccak256 key) Ht (Keccak256_bytes key)) as (t' & -> & Ht'). eexists. by split.
Qed.

(** No collision is needed to hash a trie that is not written. *)
Lemma empty_only_collision_free : collision_free (fun b => b = [128]).
Proof.
  split; [done|by intros ?? -> ->|]. intros b ->. rewrite Keccak256_emptyRoot. done.
Qed.

Lemma Secure_Hash_ok tdb t m : secure_ok tdb t m →
  ∃ t' r, Secure_Hash t = Ok (t', r) ∧ secure_ok tdb t' m ∧ root_of m r.
Proof.
  intros Ht. unfold Secure_Hash. destruct (Trie_Hash_ok _ empty_only_collision_free tdb (st_trie t) m Ht) as (t' & r & -> & Ht' & Hr).
  rewrite bind_Ok. do 2 eexists. split; [done|]. by split.
Qed.

(** ** Storage *)

(** A storage word. *)
Definition word_ok (v : Hash) : Prop := length v = HashLength ∧ is_bytes v.

Lemma trimLeft_suffix v : ∃ n, v = replicate n 0 ++ trimLeft v.
Proof.
  induction v as [|x v (n & IH)]; [by exists 0%nat|]. cbn [trimLeft]. destruct x; [|by exists 0%nat..].
  exists (S n). cbn. by rewrite <- IH.
Qed.

Lemma BytesToHash_trimLeft v : length v = HashLength → BytesToHash (trimLeft v) = v.
Proof.
  intros Hl. destruct (trimLeft_suffix v) as (n & Hv). pose proof (f_equal length Hv) as Hn. rewrite length_app, length_replicate in Hn.
  unfold BytesToHash. replace (length (trimLeft v) - HashLength)%nat with 0%nat by lia. rewrite drop_0.
  replace (HashLength - length (trimLeft v))%nat with n by lia. by rewrite <- Hv.
Qed.

Lemma trimLeft_word v : word_ok v → is_bytes (trimLeft v) ∧ strlen (trimLeft v) ≤ 32.
Proof.
  intros [Hl Hb]. destruct (trimLeft_suffix v) as (n & Hv). split.
  - rewrite Hv in Hb. by apply Forall_app in Hb as [_ ?].
  - pose proof (f_equal length Hv) as Hn. rewrite length_app, Hl in Hn. unfold HashLength in Hn. lia.
Qed.

(** The encoding of a word, and what is read back. *)
Lemma encode_word v : word_ok v →
  ∃ e, EncodeToBytes (VBytes (trimLeft v)) = Ok e ∧ is_bytes e ∧ strlen e < maxItem ∧ e ≠ [] ∧ slot_of (Some e) = v ∧ e = enc_string (trimLeft v).
Proof.
  intros Hw. destruct (trimLeft_word v Hw) as [Hb Hl]. pose proof (enc_string_length_le (trimLeft v) ltac:(unfold two64; lia)) as Hle.
  assert (strlen (enc_string (trimLeft v)) < two64) as H64 by (unfold two64; lia).
  pose proof (enc_string_bytes _ Hb H64) as Hbytes. pose proof (enc_string_pos (trimLeft v)) as Hpos.
  exists (enc_string (trimLeft v)). split_and!; [by apply Encode_spec|done|unfold maxItem; lia|by intros E; rewrite E in Hpos| |done].
  unfold slot_of. destruct (enc_string (trimLeft v)) as [|x b] eqn:E; [cbn in Hpos; lia|]. rewrite <- E in *.
  rewrite (proj2 (Split_spec (enc_string (trimLeft v)) (string_kind (trimLeft v)) (trimLeft v) [] Hbytes H64)).
  - apply BytesToHash_trimLeft, Hw.
  - rewrite app_nil_r. split; [|by intros _]. unfold enc_kind. destruct (string_kind (trimLeft v)) eqn:Ek; [done|done|].
    by destruct (trimLeft v) as [|? []]; cbn in Ek; [|destruct (_ <? _)|].
Qed.

(** Keccak-256 does not collide on the keys of [l]. *)
Definition hash_inj (l : list (list Z)) : Prop := ∀ k1 k2, k1 ∈ l → k2 ∈ l → Keccak256 k1 = Keccak256 k2 → k1 = k2.

(** What is stored for a slot; zero is not stored. *)
Definition slot_bytes (v : Hash) : option (list Z) :=
  if bool_decide (v = zeroHash) then None else Some (enc_string (trimLeft v)).

(** The storage after the entries [l] are written. *)
Definition slots_written (ms ms' : contents_map) (l : list (Hash * Hash)) : Prop :=
  (∀ k v, (k, v) ∈ l → ms' !! Keccak256 k = slot_bytes v ∧ slot_of (ms' !! Keccak256 k) = v) ∧
  (∀ key, (∀ k v, (k, v) ∈ l → Keccak256 k ≠ key) → ms' !! key = ms !! key).

(** The fields of an object that writing its storage leaves alone. *)
Definition same_account (o o' : stateObject) : Prop :=
  so_address o' = so_address o ∧ so_data o' = so_data o ∧ so_suicided o' = so_suicided o ∧ so_deleted o' = so_deleted o.

Lemma slots_written_cons ms ms1 ms' k v l : hash_inj (((k, v) :: l).*1) → k ∉ l.*1 →
  ms1 !! Keccak256 k = slot_bytes v ∧ slot_of (ms1 !! Keccak256 k) = v → (∀ key, Keccak256 k ≠ key → ms1 !! key = ms !! key) →
  slots_written ms1 ms' l → slots_written ms ms' ((k, v) :: l).
Proof.
  intros Hinj Hnd Hk Hoth [Hin Hout].
  assert (∀ k' v', (k', v') ∈ l → Keccak256 k' ≠ Keccak256 k) as Hne.
  { intros k' v' Hl E. apply (list_elem_of_fmap_2 fst) in Hl as Hl'. cbn [fst] in Hl'.
    assert (k' = k) as -> by (apply Hinj; [apply list_elem_of_further, Hl'|apply list_elem_of_here|done]). done. }
  split.
  - intros k' v' [[= -> ->]|Hl]%elem_of_cons; [|by apply Hin]. rewrite Hout; [done|]. intros k' v' Hl. by apply (Hne k' v').
  - intros key Hkey. rewrite Hout by (intros; eapply Hkey; by right). apply Hoth. eapply Hkey. by left.
Qed.

Lemma updateTrie_loop_ok tdb db : cdb_db db = tdb → ∀ l o t ms, secure_ok tdb t ms →
  NoDup l.*1 → hash_inj l.*1 → Forall (fun kv => word_ok kv.2) l →
  ∃ o' t' ms', updateTrie_loop db l o t = Ok (o', t') ∧ secure_ok tdb t' ms' ∧ slots_written ms ms' l ∧ same_account o o'.
Proof.
  intros Hdb. induction l as [|[k v] l IH]; intros o t ms Ht Hnd Hinj Hw; cbn [updateTrie_loop].
  { exists o, t, ms. split_and!; [done|done| |done]. split; [by intros ?? ?%elem_of_nil|done]. }
  apply NoDup_cons in Hnd as [Hk Hnd]. apply Forall_cons_iff in Hw as [Hv Hw]. cbn [fst snd] in *. rewrite Hdb.
  set (o1 := set_dirtyStorage _ o).
  assert (∃ t1 ms1, secure_ok tdb t1 ms1 ∧ (ms1 !! Keccak256 k = slot_bytes v ∧ slot_of (ms1 !! Keccak256 k) = v) ∧ (∀ key, Keccak256 k ≠ key → ms1 !! key = ms !! key) ∧
    (if bool_decide (v = zeroHash) then Secure_TryDelete tdb k t
     else match EncodeToBytes (VBytes (trimLeft v)) with Ok e => Secure_TryUpdate tdb k e t | _ => (t, Panic) end) = (t1, Ok tt))
    as (t1 & ms1 & Ht1 & Hs1 & Ho1 & E1).
  { unfold slot_bytes. case_bool_decide as Hz.
    - destruct (Secure_TryDelete_ok tdb t ms k Ht) as (t1 & -> & Ht1). exists t1, (delete (Keccak256 k) ms).
      split_and!; [done|by rewrite lookup_delete_eq|by rewrite lookup_delete_eq, Hz|intros; by rewrite lookup_delete_ne|done].
    - destruct (encode_word v Hv) as (e & -> & Hb & Hl & Hne & Hs & He). destruct (Secure_TryUpdate_ok tdb t ms k e Ht Hb Hl Hne) as (t1 & -> & Ht1).
      exists t1, (<[Keccak256 k := e]> ms). split_and!; [done|rewrite lookup_insert_eq; by rewrite <- He|by rewrite lookup_insert_eq|intros; by rewrite lookup_insert_ne|done]. }
  destruct (IH o1 t1 ms1 Ht1 Hnd) as (o' & t' & ms' & E' & Ht' & Hs' & Hsame);
    [intros ????; apply Hinj; by right|done|].
  exists o', t', ms'. split_and!; [|done|by eapply slots_written_cons|done].
  case_bool_decide; [by rewrite E1|]. destruct (EncodeToBytes _); [|by injection E1..]. by rewrite bind_Ok, E1.
Qed.

(** An object whose account and changed slots can be encoded, and whose changed
    slots do not collide. *)
Record writable (o : stateObject) : Prop := {
  wr_nonce : is_u64 (acc_Nonce (so_data o));
  wr_balance : 0 ≤ acc_Balance (so_data o) < 2 ^ 256;
  wr_codeHash : is_bytes (acc_CodeHash (so_data o));
  wr_slots : map_Forall (fun _ v => word_ok v) (so_dirtyStorage o);
  wr_keys : hash_inj (map_to_list (so_dirtyStorage o)).*1
}.

Lemma obj_getTrie_ok tdb db o t : cdb_db db = tdb → open_trie tdb o = Ok t → obj_getTrie db o = Ok (set_objTrie (Some t) o, t).
Proof.
  unfold open_trie, obj_getTrie, OpenStorageTrie. intros -> Ho. destruct (so_trie o) eqn:Es; [|by rewrite Ho].
  injection Ho as ->. f_equal. f_equal. unfold set_objTrie. rewrite <- Es. by destruct o.
Qed.

Lemma obj_updateRoot_ok tdb db o t ms : cdb_db db = tdb → open_trie tdb o = Ok t → secure_ok tdb t ms → writable o →
  ∃ o' r ms', obj_updateRoot db o = Ok o' ∧ root_of ms' r ∧ slots_written ms ms' (map_to_list (so_dirtyStorage o)) ∧
    so_address o' = so_address o ∧
    so_data o' = mkAccount (acc_Nonce (so_data o)) (acc_Balance (so_data o)) r (acc_CodeHash (so_data o)).
Proof.
  intros Hdb Ho Ht Hw. unfold obj_updateRoot, obj_updateTrie. rewrite (obj_getTrie_ok tdb db o t) by done. rewrite bind_Ok.
  destruct (updateTrie_loop_ok tdb db Hdb (map_to_list (so_dirtyStorage o)) (set_objTrie (Some t) o) t ms)
    as (o1 & t1 & ms1 & E1 & Ht1 & Hs1 & Ha1 & Hd1 & _ & _).
  - done.
  - apply NoDup_fst_map_to_list.
  - apply Hw.
  - apply Forall_forall. intros [k v] Hkv%elem_of_map_to_list. by apply (wr_slots o Hw k v).
  - cbn [so_dirtyStorage set_objTrie]. rewrite E1, !bind_Ok. cbn [so_trie set_objTrie deref]. rewrite bind_Ok.
    destruct (Secure_Hash_ok tdb t1 ms1 Ht1) as (t2 & r & -> & _ & Hr). cbn [never_err]. rewrite bind_Ok.
    eexists _, r, ms1. split; [done|]. split_and!; [done|done|done|]. cbn in Hd1 |- *. unfold set_Root, set_data. cbn. by rewrite Hd1.
Qed.

(** ** Accounts *)

Definition account_ok (acc : Account) : Prop :=
  is_u64 (acc_Nonce acc) ∧ 0 ≤ acc_Balance acc < 2 ^ 256 ∧ word_ok (acc_Root acc) ∧ word_ok (acc_CodeHash acc).

Lemma account_typed acc : account_ok acc → has_type account_type (account_value acc).
Proof.
  intros (Hn & Hb & [Hr Hrb] & [Hc Hcb]). apply ht_struct.
  apply Forall2_cons_2; [apply ht_uint; unfold is_u64, two64 in Hn; lia|].
  apply Forall2_cons_2; [apply ht_big; lia|].
  apply Forall2_cons_2; [replace 32%nat with (length (acc_Root acc)) by done; by apply ht_bytearray|].
  apply Forall2_cons_2; [by apply ht_bytes|apply Forall2_nil_2].
Qed.

Lemma account_type_ok : rtype_ok account_type.
Proof. cbn. unfold uint_bits. repeat split; lia. Qed.

Lemma account_length acc e : account_ok acc → enc_value (account_value acc) = Some e → strlen e < 1000.
Proof.
  intros (Hn & Hb & [Hr _] & [Hc _]). unfold account_value. cbn [enc_value concat_opt mbind option_bind].
  rewrite (proj2 (Z.ltb_ge _ 0)) by lia. cbn [mbind option_bind fmap option_fmap option_map]. intros [= <-].
  set (n := big_Bytes (acc_Nonce acc)). set (b := big_Bytes (acc_Balance acc)).
  assert (length n ≤ 8)%nat by (apply length_big_Bytes; unfold is_u64, two64 in Hn; lia).
  assert (length b ≤ 32)%nat by (apply length_big_Bytes; exact Hb).
  pose proof (enc_string_length_le n ltac:(unfold two64; lia)). pose proof (enc_string_length_le b ltac:(unfold two64; lia)).
  unfold HashLength in *. pose proof (enc_string_length_le (acc_Root acc) ltac:(unfold two64; lia)).
  pose proof (enc_string_length_le (acc_CodeHash acc) ltac:(unfold two64; lia)).
  set (c := enc_string n ++ _). assert (strlen c < 200) as Hlc by (unfold c; rewrite !length_app; cbn [length]; lia).
  pose proof (enc_list_length c ltac:(unfold two64; lia)). lia.
Qed.

Lemma encode_account acc : account_ok acc →
  ∃ e, EncodeToBytes (account_value acc) = Ok e ∧ is_bytes e ∧ strlen e < maxItem ∧ e ≠ [] ∧ decodeAccount e = Ok (account_value acc).
Proof.
  intros Hok. pose proof (account_typed acc Hok) as Ht.
  destruct (typed_encodable _ _ account_type_ok Ht) as (Hv & e & He & Hb). pose proof (account_length acc e Hok He) as Hl.
  exists e. split_and!; [apply Encode_spec; [done|done|unfold two64; lia]|apply Hb; unfold two64; lia|unfold maxItem; lia| |].
  - intros ->. pose proof (lang_pos account_type (account_value acc) [] (conj Ht He)) as Hp. cbn in Hp. lia.
  - unfold decodeAccount. apply DecodeBytes_spec; [apply account_type_ok|apply Hb; unfold two64; lia|unfold two64; lia|cbn; lia|by split].
Qed.

Lemma root_of_word m r : root_of m r → word_ok r.
Proof. intros (tr & _ & ->). split; [apply Keccak256_length|apply Keccak256_bytes]. Qed.

(** ** Finalising *)

Definition gone (deleteEmptyObjects : bool) (o : stateObject) : bool :=
  so_suicided o || (deleteEmptyObjects && obj_empty o).

(** What the trie of accounts [m'] holds for an object that was dirty. *)
Definition account_written (tdb : TrieDB) (deleteEmptyObjects : bool) (m' : contents_map) (a : Address) (o : stateObject) : Prop :=
  if gone deleteEmptyObjects o then m' !! Keccak256 a = None
  else ∃ t ms ms' r, open_trie tdb o = Ok t ∧ secure_ok tdb t ms ∧
    slots_written ms ms' (map_to_list (so_dirtyStorage o)) ∧ root_of ms' r ∧
    trie_account m' a = Some (mkAccountData (acc_Nonce (so_data o)) (Some (acc_Balance (so_data o))) r (Some (acc_CodeHash (so_data o)))).

Lemma account_written_eq tdb del m1 m2 a o : m1 !! Keccak256 a = m2 !! Keccak256 a →
  account_written tdb del m1 a o → account_written tdb del m2 a o.
Proof. unfold account_written, trie_account. intros ->. done. Qed.

(** A state during the loop. *)
Record writing (tdb : TrieDB) (s : StateDB) (m : contents_map) : Prop := {
  w_db : cdb_db (sdb_db s) = tdb;
  w_trie : secure_ok tdb (sdb_trie s) m
}.

Definition others_same (a : Address) (m m' : contents_map) (s s' : StateDB) : Prop :=
  (∀ key, key ≠ Keccak256 a → m' !! key = m !! key) ∧ (∀ a', a' ≠ a → sdb_stateObjects s' !! a' = sdb_stateObjects s !! a').

Lemma delete_one_ok tdb s m o : writing tdb s m →
  ∃ s', deleteStateObject o s = Ok s' ∧ writing tdb s' (delete (Keccak256 (so_address o)) m) ∧
    others_same (so_address o) m (delete (Keccak256 (so_address o)) m) s s'.
Proof.
  intros [Hdb Ht]. unfold deleteStateObject. cbn [sdb_db setStateObject set_objects sdb_trie]. rewrite Hdb.
  destruct (Secure_TryDelete_ok tdb (sdb_trie s) m (so_address o) Ht) as (t' & -> & Ht'). eexists. split; [done|].
  split; [by split|]. split.
  - intros key Hk. by rewrite lookup_delete_ne.
  - intros a' Ha'. cbn [sdb_stateObjects set_trie setStateObject set_objects so_address set_deleted]. by rewrite lookup_insert_ne.
Qed.

Lemma update_one_ok tdb s m o : writing tdb s m → account_ok (so_data o) →
  ∃ s' e, updateStateObject o (setStateObject o s) = Ok s' ∧ decodeAccount e = Ok (account_value (so_data o)) ∧
    writing tdb s' (<[Keccak256 (so_address o) := e]> m) ∧
    others_same (so_address o) m (<[Keccak256 (so_address o) := e]> m) s s'.
Proof.
  intros [Hdb Ht] Hok. unfold updateStateObject. destruct (encode_account (so_data o) Hok) as (e & -> & Hb & Hl & Hne & Hd).
  cbn [sdb_db setStateObject set_objects sdb_trie]. rewrite Hdb.
  destruct (Secure_TryUpdate_ok tdb (sdb_trie s) m (so_address o) e Ht Hb Hl Hne) as (t' & -> & Ht'). eexists _, e. split; [done|].
  split; [done|]. split; [by split|]. split.
  - intros key Hk. by rewrite lookup_insert_ne.
  - intros a' Ha'. cbn [sdb_stateObjects set_trie setStateObject set_objects]. by rewrite lookup_insert_ne.
Qed.

Lemma finalise_one_ok tdb del s m a o : writing tdb s m → sdb_stateObjects s !! a = Some o → so_address o = a →
  obj_ok tdb o → writable o →
  ∃ s' m', finalise_one del a s = Ok s' ∧ writing tdb s' m' ∧ account_written tdb del m' a o ∧ others_same a m m' s s'.
Proof.
  intros Hw Hl Ha [(t & ms & Ho & Ht) Hc] Hwr. unfold finalise_one. rewrite Hl. cbn [deref]. rewrite bind_Ok.
  unfold account_written. fold (gone del o). destruct (gone del o).
  - destruct (delete_one_ok tdb s m o Hw) as (s' & E & Hw' & Hoth). rewrite Ha in *. exists s', (delete (Keccak256 a) m).
    split_and!; [done|done|by rewrite lookup_delete_eq|done].
  - destruct (obj_updateRoot_ok tdb (sdb_db s) o t ms (w_db _ _ _ Hw) Ho Ht Hwr) as (o' & r & ms' & -> & Hr & Hs & Ha' & Hd').
    rewrite bind_Ok. destruct (update_one_ok tdb s m o' Hw) as (s' & e & E & He & Hw' & Hoth).
    { rewrite Hd'. split_and!; [apply Hwr|apply Hwr..|by eapply root_of_word|split; [done|apply Hwr]]. }
    rewrite Ha', Ha in *. exists s', (<[Keccak256 a := e]> m). split_and!; [done|done| |done].
    exists t, ms, ms', r. split_and!; [done|done|done|done|]. unfold trie_account. rewrite lookup_insert_eq.
    cbn [mbind option_bind]. by rewrite He, Hd'.
Qed.

Lemma each_finalised tdb del l : ∀ s m, writing tdb s m → NoDup l → hash_inj l →
  (∀ a, a ∈ l → ∃ o, sdb_stateObjects s !! a = Some o ∧ so_address o = a ∧ obj_ok tdb o ∧ writable o) →
  ∃ s' m', each_address (finalise_one del) l s = Ok s' ∧ writing tdb s' m' ∧
    (∀ a o, a ∈ l → sdb_stateObjects s !! a = Some o → account_written tdb del m' a o) ∧
    (∀ key, (∀ a, a ∈ l → Keccak256 a ≠ key) → m' !! key = m !! key).
Proof.
  induction l as [|a l IH]; intros s m Hw Hnd Hinj Hobj; cbn [each_address].
  { exists s, m. split_and!; [done|done|by intros ?? ?%elem_of_nil|done]. }
  apply NoDup_cons in Hnd as [Hna Hnd]. destruct (Hobj a) as (o & Hl & Ha & Hok & Hwr); [by left|].
  destruct (finalise_one_ok tdb del s m a o Hw Hl Ha Hok Hwr) as (s1 & m1 & -> & Hw1 & Hwa & [Hk1 Ho1]). rewrite bind_Ok.
  assert (∀ a', a' ∈ l → a' ≠ a) as Hne by (by intros a' ? ->).
  destruct (IH s1 m1 Hw1 Hnd) as (s2 & m2 & -> & Hw2 & Hin2 & Hout2).
  { intros ????. apply Hinj; by right. }
  { intros a' Ha'. rewrite Ho1 by auto. apply Hobj. by right. }
  exists s2, m2. split_and!; [done|done| |].
  - intros a' o' [->|Ha']%elem_of_cons Hl'.
    + assert (o' = o) as -> by congruence. eapply account_written_eq; [|done]. symmetry. apply Hout2.
      intros a' Ha' E. apply (Hne a' Ha'). apply Hinj; [by right|by left|done].
    + apply Hin2; [done|]. by rewrite Ho1 by auto.
  - intros key Hkey. rewrite Hout2 by (intros; apply Hkey; by right). apply Hk1. intros ->. by apply (Hkey a); [left|].
Qed.

(** ** The result does not depend on the order *)

Lemma secure_ok_unique tdb t m1 m2 : secure_ok tdb t m1 → secure_ok tdb t m2 → m1 = m2.
Proof.
  intros H1 H2. apply map_eq. intros key. destruct (decide (is_bytes key)) as [Hk|Hk].
  - destruct (TryGet_ok tdb (st_trie t) m1 key H1 Hk) as (t1 & E1 & _), (TryGet_ok tdb (st_trie t) m2 key H2 Hk) as (t2 & E2 & _).
    rewrite E1 in E2. by injection E2.
  - assert (∀ m : contents_map, map_ok m → m !! key = None) as Hnone.
    { intros m Hm. destruct (m !! key) eqn:E; [|done]. by destruct (Hm _ _ E) as [[? _] _]. }
    rewrite (Hnone m1), (Hnone m2) by (apply H1 || apply H2). done.
Qed.

Lemma root_of_unique m r1 r2 : root_of m r1 → root_of m r2 → r1 = r2.
Proof. intros (tr1 & H1 & ->) (tr2 & H2 & ->). by rewrite (tree_of_unique tr1 tr2 m). Qed.

Lemma slots_written_unique ms ms1 ms2 l : slots_written ms ms1 l → slots_written ms ms2 l → ms1 = ms2.
Proof.
  intros [Hi1 Ho1] [Hi2 Ho2]. apply map_eq. intros key. destruct (decide (Exists (fun kv => Keccak256 kv.1 = key) l)) as [He|He].
  - apply Exists_exists in He as ([k v] & Hin & <-). cbn [fst]. by rewrite (proj1 (Hi1 k v Hin)), (proj1 (Hi2 k v Hin)).
  - rewrite Ho1, Ho2; [done|..]; intros k v Hin E; apply He, Exists_exists; by exists (k, v).
Qed.

(** The encoding of an account is the only entry that decodes to it. *)
Lemma trie_account_entry m a d : map_ok m → trie_account m a = Some d →
  ∃ e, m !! Keccak256 a = Some e ∧ ∃ v, account_of v = Some d ∧ enc_value v = Some e.
Proof.
  intros Hm. unfold trie_account. destruct (m !! Keccak256 a) as [e|] eqn:E; [|done]. cbn [mbind option_bind].
  destruct (Hm _ _ E) as [_ (Hne & Hb & Hl)]. destruct (decodeAccount e) as [v| |] eqn:Ed; [|done..]. intros Hv. exists e. split; [done|].
  exists v. split; [done|]. unfold decodeAccount in Ed.
  apply DecodeBytes_spec in Ed as [_ He]; [done|apply account_type_ok|done|unfold maxItem, two64 in *; lia|cbn; lia].
Qed.

Lemma account_of_form v d : account_of v = Some d →
  ∃ c, v = VStruct [VUint (ad_Nonce d); VBigIntPtr (ad_Balance d); VBytes (ad_Root d); VBytes c] ∧ ad_CodeHash d = Some c.
Proof.
  intros Hd. destruct v; try discriminate Hd. destruct l as [|v1 l]; [done|]. destruct v1; try discriminate Hd.
  destruct l as [|v2 l]; [done|]. destruct v2; try discriminate Hd. destruct l as [|v3 l]; [done|]. destruct v3; try discriminate Hd.
  destruct l as [|v4 l]; [done|]. destruct v4; try discriminate Hd. destruct l; [|done]. injection Hd as <-. eexists. by split.
Qed.

Lemma account_of_inj v1 v2 d : account_of v1 = Some d → account_of v2 = Some d → enc_value v1 = enc_value v2.
Proof.
  intros (c1 & -> & E1)%account_of_form (c2 & -> & E2)%account_of_form. rewrite E1 in E2. by injection E2 as ->.
Qed.

Lemma account_written_unique tdb del m1 m2 a o : map_ok m1 → map_ok m2 →
  account_written tdb del m1 a o → account_written tdb del m2 a o → m1 !! Keccak256 a = m2 !! Keccak256 a.
Proof.
  unfold account_written. intros Hm1 Hm2. destruct (gone del o); [congruence|].
  intros (t1 & ms1 & ms1' & r1 & Ho1 & Ht1 & Hs1 & Hr1 & Ha1) (t2 & ms2 & ms2' & r2 & Ho2 & Ht2 & Hs2 & Hr2 & Ha2).
  rewrite Ho1 in Ho2. injection Ho2 as <-. rewrite (secure_ok_unique tdb t1 ms2 ms1) in * by done.
  rewrite (slots_written_unique _ _ _ _ Hs2 Hs1) in *. rewrite (root_of_unique _ _ _ Hr2 Hr1) in *.
  destruct (trie_account_entry m1 a _ Hm1 Ha1) as (e1 & -> & v1 & Hv1 & He1), (trie_account_entry m2 a _ Hm2 Ha2) as (e2 & -> & v2 & Hv2 & He2).
  pose proof (account_of_inj _ _ _ Hv1 Hv2). congruence.
Qed.

(** The trie of accounts after finalising. *)
Definition finalised (tdb : TrieDB) (m : contents_map) (s : StateDB) (del : bool) (m' : contents_map) : Prop :=
  map_ok m' ∧
  (∀ a o, a ∈ sdb_stateObjectsDirty s → sdb_stateObjects s !! a = Some o → account_written tdb del m' a o) ∧
  (∀ key, (∀ a, a ∈ sdb_stateObjectsDirty s → Keccak256 a ≠ key) → m' !! key = m !! key).

Lemma finalised_unique tdb m s del m1 m2 : (∀ a, a ∈ sdb_stateObjectsDirty s → is_Some (sdb_stateObjects s !! a)) →
  finalised tdb m s del m1 → finalised tdb m s del m2 → m1 = m2.
Proof.
  intros Hobj (Hm1 & Hi1 & Ho1) (Hm2 & Hi2 & Ho2). apply map_eq. intros key.
  destruct (decide (Exists (fun a => Keccak256 a = key) (elements (sdb_stateObjectsDirty s)))) as [He|He].
  - apply Exists_exists in He as (a & Ha%elem_of_elements & <-). destruct (Hobj a Ha) as (o & Hl).
    eapply account_written_unique; eauto.
  - rewrite Ho1, Ho2; [done|..]; intros a Ha E; apply He, Exists_exists; exists a; by rewrite elem_of_elements.
Qed.

Lemma finalise_in_ok tdb m s del order : inv tdb m s → order ≡ₚ elements (sdb_stateObjectsDirty s) →
  hash_inj (elements (sdb_stateObjectsDirty s)) →
  (∀ a, a ∈ sdb_stateObjectsDirty s → ∃ o, sdb_stateObjects s !! a = Some o ∧ writable o) →
  ∃ s' root m', IntermediateRoot_in order del s = Ok (s', root) ∧ root_of m' root ∧ finalised tdb m s del m'.
Proof.
  intros Hi Hord Hinj Hobj. unfold IntermediateRoot_in, Finalise_in.
  assert (∀ a, a ∈ order ↔ a ∈ sdb_stateObjectsDirty s) as Hin by (intros a; by rewrite Hord, elem_of_elements).
  destruct (each_finalised tdb del order s m) as (s1 & m' & -> & Hw & Hwr & Hout).
  - by destruct Hi.
  - rewrite Hord. apply NoDup_elements.
  - intros a1 a2. rewrite Hord. apply Hinj.
  - intros a Ha%Hin. destruct (Hobj a Ha) as (o & Hl & Hwr). exists o.
    destruct (inv_objects tdb m s Hi a o Hl) as (? & ? & _). by split_and!.
  - rewrite !bind_Ok. destruct (Secure_Hash_ok tdb (sdb_trie s1) m' (w_trie _ _ _ Hw)) as (t & root & E & _ & Hr).
    change (sdb_trie (clearJournalAndRefund s1)) with (sdb_trie s1). rewrite E. cbn [never_err]. rewrite bind_Ok.
    eexists _, root, m'. split; [done|]. split; [done|]. split_and!; [apply (w_trie _ _ _ Hw)|..].
    + intros a o Ha. apply Hwr. by apply Hin.
    + intros key Hkey. apply Hout. intros a Ha. by apply Hkey, Hin.
Qed.

(** C9. The state root after finalising is the root of a trie of accounts that
    holds, for every dirty object, its account with the root of its storage,
    in which every changed slot reads as its new value, and nothing for an
    account that destroyed itself or, where empty accounts are removed, is
    empty; all other entries are as before.  Nothing on the way fails, and
    every order in which the dirty accounts can be visited gives this root. *)
Theorem IntermediateRoot_commits tdb m s del :
  inv tdb m s → hash_inj (elements (sdb_stateObjectsDirty s)) →
  (∀ a, a ∈ sdb_stateObjectsDirty s → ∃ o, sdb_stateObjects s !! a = Some o ∧ writable o) →
  ∃ s' root m', IntermediateRoot del s = Ok (s', root) ∧ root_of m' root ∧ finalised tdb m s del m' ∧
    ∀ order, order ≡ₚ elements (sdb_stateObjectsDirty s) → ∃ s'', IntermediateRoot_in order del s = Ok (s'', root).
Proof.
  intros Hi Hinj Hobj. destruct (finalise_in_ok tdb m s del _ Hi (Permutation_refl _) Hinj Hobj) as (s' & root & m' & E & Hr & Hf).
  exists s', root, m'. split_and!; [done|done|done|]. intros order Hord.
  destruct (finalise_in_ok tdb m s del order Hi Hord Hinj Hobj) as (s2 & root2 & m2 & E2 & Hr2 & Hf2). exists s2.
  rewrite (finalised_unique tdb m s del m2 m') in Hr2; [|by intros a (o & ? & _)%Hobj; exists o|done|done].
  by rewrite (root_of_unique m' root root2).
Qed.

End Root.
