(* ===== verification/StateDemo.v ===== *)
(** * The state: concrete runs

    Instances of the interfaces, with the Keccak-256 of the node, a transaction with nested frames, and two runs
    in which an account ends up different from what its operations say. *)

From S2P Require Import Prelude Types Interfaces Rlp RlpRaw RlpStream RlpDecode Sha3 TrieEncoding TrieNode Trie TrieSpec TrieDemo TrieHash TrieMap State StateRevert StateFrame StateSpec StateRoot.
From stdpp Require Import base tactics option numbers list gmap sorting.
From Stdlib Require Import ZArith Lia.

#[local] Open Scope Z_scope.

Module DemoState.

#[local] Existing Instance goKeccak.
#[local] Existing Instance goKeccakLaws.
#[local] Existing Instance DemoTrie.demoDatabase.

#[local] Program Instance demoSizes : ARCCache Z := {|
  arc_cache := gmap Hash Z;
  arc_new := ∅;
  arc_get k c := (c, c !! k);
  arc_add k v c := <[k := v]> c;
  arc_holds c k v := c !! k = Some v
|}.
Next Obligation. intros k v. cbn. by rewrite lookup_empty. Qed.
Next Obligation. intros k c c' v E. by injection E as <-. Qed.
Next Obligation. intros k c c' r k' v' E. by injection E as <- _. Qed.
Next Obligation. cbn. intros k v c k' v' [[-> ->]|[_ ?]]%lookup_insert_Some; auto. Qed.

Definition alice : Address := replicate 19 0 ++ [17].
Definition bob : Address := replicate 19 0 ++ [34].
Definition slot : Hash := replicate 31 0 ++ [1].
Definition word (n : Z) : Hash := replicate 31 0 ++ [n].

Definition db0 : cachingDB := NewStateDatabase (∅ : gmap (list Z) (list Z)).

Definition get {A} (d : A) (r : outcome Empty_set A) : A := match r with Ok x => x | _ => d end.

(** A transaction whose inner frame fails after a frame of its own. *)
Definition transaction : list stateOp :=
  [OpAddBalance alice 100; OpSetNonce alice 1; OpSetCode bob (Some [96; 0]);
   OpFrame [OpSubBalance alice 30; OpAddBalance bob 30; OpSetState bob slot (word 7);
            OpFrame [OpSuicide bob; OpAddRefund 24000; OpAddLog (mkLog bob [] [1] 0 zeroHash 0 zeroHash 0 false)] true;
            OpGetState bob slot] false;
   OpFrame [OpSetState bob slot (word 9); OpCreateAccount alice; OpFrame [OpSuicide alice] false] true].

Lemma empty_accounts tdb : accounts_ok tdb ∅.
Proof. intros a d. unfold trie_account. by rewrite lookup_empty. Qed.

Definition trie0 : SecureTrie := Eval vm_compute in
  match NewSecure zeroHash (cdb_db db0) MaxTrieCacheGen with Ok t => t | _ => mkSecure (mkTrie NilNode zeroHash 0 0) ∅ false end.

Lemma trie0_ok : NewSecure zeroHash (cdb_db db0) MaxTrieCacheGen = Ok trie0.
Proof. vm_compute. reflexivity. Qed.

Lemma trie0_empty : secure_ok (cdb_db db0) trie0 ∅.
Proof.
  split; [apply map_Forall_empty|]. exists TNil. split_and!; [apply rep_nil|by left|].
  intros k v. split; [inversion 1|]. by intros (? & _ & ?%lookup_empty_Some).
Qed.

Lemma state_refines_accounts_witness :
  ∃ s s', NewState zeroHash db0 = Ok s ∧ runWith execOp transaction s = Ok s' ∧
    answers s' (runSpec specOp transaction (initial_world (cdb_db db0) ∅)) ∧
    result_of (GetBalance alice s') = Ok 70 ∧ result_of (GetState bob slot s') = Ok (word 7) ∧
    result_of (HasSuicided bob s') = Ok false ∧ sdb_refund s' = 0.
Proof.
  destruct (state_refines_accounts (cdb_db db0) ∅ zeroHash db0 trie0 transaction (empty_accounts _) eq_refl eq_refl trie0_ok trie0_empty)
    as (s & s' & E & E' & Ha).
  exists s, s'. split; [exact E|]. split; [exact E'|]. split; [exact Ha|]. split_and!.
  - rewrite (an_GetBalance _ _ Ha). vm_compute. reflexivity.
  - rewrite (an_GetState _ _ Ha). vm_compute. reflexivity.
  - rewrite (an_HasSuicided _ _ Ha). vm_compute. reflexivity.
  - rewrite (an_refund _ _ Ha). vm_compute. reflexivity.
Defined.

Definition later : list stateOp :=
  [OpSuicide bob; OpFrame [OpCreateAccount alice; OpSetState alice slot (word 3)] false; OpAddPreimage slot [1; 2]].

Lemma RevertToSnapshot_restores_witness :
  ∃ s s1 s2 s3, NewState zeroHash db0 = Ok s ∧ runWith execOp transaction s = Ok s1 ∧
    runWith execOp later (Snapshot s1).1 = Ok s2 ∧ RevertToSnapshot (Snapshot s1).2 s2 = Ok s3 ∧ reads_as s3 s1 ∧
    sdb_journal s3 = sdb_journal s1 ∧ sdb_validRevisions s3 = sdb_validRevisions s1.
Proof.
  destruct (NewState_ok (cdb_db db0) ∅ zeroHash db0 trie0 (empty_accounts _) eq_refl eq_refl trie0_ok trie0_empty) as (s & E & Hi & Hr & _).
  destruct (runOps_framed (cdb_db db0) ∅ transaction s Hi Hr) as (s1 & E1 & Hf).
  destruct (RevertToSnapshot_restores (cdb_db db0) ∅ s1 later (fr_inv _ _ _ _ Hf) (framed_revs_ok _ _ _ _ Hr Hf))
    as (s2 & s3 & E2 & E3 & Hra & Hj & Hv & _).
  exists s, s1, s2, s3. by split_and!.
Defined.

(** ** The root after the transaction *)

#[local] Instance goEmptyRoot : EmptyRootLaw.
Proof. unfold EmptyRootLaw. vm_compute. reflexivity. Qed.

Definition s0 : StateDB := mkState db0 trie0 ∅ ∅ None 0 zeroHash zeroHash 0 ∅ 0 ∅ [] [] 0.
Definition s1 : StateDB := get s0 (runWith execOp transaction s0).

Lemma s1_inv : inv (cdb_db db0) ∅ s1.
Proof.
  assert (NewState zeroHash db0 = Ok s0) as E0 by (vm_compute; reflexivity).
  destruct (NewState_ok (cdb_db db0) ∅ zeroHash db0 trie0 (empty_accounts _) eq_refl eq_refl trie0_ok trie0_empty) as (s & E & Hi & Hr & _).
  rewrite E0 in E. injection E as <-.
  destruct (runOps_framed (cdb_db db0) ∅ transaction s0 Hi Hr) as (s' & E & Hf).
  unfold s1. rewrite E. apply Hf.
Qed.

Definition dirty1 : list Address := Eval vm_compute in elements (sdb_stateObjectsDirty s1).

Lemma dirty1_ok : elements (sdb_stateObjectsDirty s1) = dirty1.
Proof. vm_compute. reflexivity. Qed.

(** The checks on an object, as one computation. *)
Definition writable_b (o : stateObject) : bool :=
  bool_decide (0 ≤ acc_Nonce (so_data o) < two64) && bool_decide (0 ≤ acc_Balance (so_data o) < 2 ^ 256) &&
  bool_decide (Forall (fun x => 0 ≤ x < 256) (acc_CodeHash (so_data o))) &&
  forallb (fun kv : Hash * Hash => bool_decide (length kv.2 = HashLength ∧ Forall (fun x => 0 ≤ x < 256) kv.2)) (map_to_list (so_dirtyStorage o)) &&
  bool_decide (NoDup (Keccak256 <$> (map_to_list (so_dirtyStorage o)).*1)).

Lemma NoDup_hash_inj l : NoDup (Keccak256 <$> l) → hash_inj l.
Proof.
  intros Hnd k1 k2 H1 H2 E. apply list_elem_of_lookup in H1 as [i Hi], H2 as [j Hj].
  assert (i = j) as ->; [|congruence]. apply (NoDup_lookup _ _ _ (Keccak256 k1) Hnd); rewrite list_lookup_fmap; [by rewrite Hi|].
  rewrite Hj, E. done.
Qed.

Lemma writable_b_ok o : writable_b o = true → writable o.
Proof.
  unfold writable_b. rewrite !andb_true_iff, !bool_decide_eq_true, forallb_forall. intros ((((Hn & Hb) & Hc) & Hs) & Hk).
  split; [done|done|done| |by apply NoDup_hash_inj]. intros k v Hkv%elem_of_map_to_list%list_elem_of_In.
  specialize (Hs _ Hkv). by apply bool_decide_eq_true in Hs.
Qed.

Lemma IntermediateRoot_commits_witness :
  ∃ s' root m', IntermediateRoot true s1 = Ok (s', root) ∧ root_of m' root ∧ finalised (cdb_db db0) ∅ s1 true m' ∧
    ∃ s'', IntermediateRoot_in (rev dirty1) true s1 = Ok (s'', root).
Proof.
  destruct (IntermediateRoot_commits (cdb_db db0) ∅ s1 true s1_inv) as (s' & root & m' & E & Hr & Hf & Hord).
  - rewrite dirty1_ok. apply NoDup_hash_inj. apply (proj1 (bool_decide_eq_true _)). vm_compute. reflexivity.
  - intros a Ha%elem_of_elements. rewrite dirty1_ok in Ha.
    assert (Forall (fun a => from_option writable_b false (sdb_stateObjects s1 !! a) = true) dirty1) as Hall.
    { apply Forall_forall. intros x Hx%list_elem_of_In. revert x Hx. apply forallb_forall with (f := fun x => from_option writable_b false (sdb_stateObjects s1 !! x)).
      vm_compute. reflexivity. }
    rewrite Forall_forall in Hall. specialize (Hall a Ha). destruct (sdb_stateObjects s1 !! a) as [o|]; [|done].
    exists o. split; [done|by apply writable_b_ok].
  - exists s', root, m'. split; [exact E|]. split; [exact Hr|]. split; [exact Hf|]. apply Hord. rewrite dirty1_ok. symmetry. apply Permutation_rev.
Defined.

(** ** An account that is touched, reverted and then paid *)

(** The state of a block that has made an account without writing to it. *)
Definition emptyAlice : pan (StateDB * Hash) :=
  s ← never_err (NewState zeroHash db0);
  s ← CreateAccount alice s;
  '(s, r) ← state_Commit false s;
  root ← never_err r;
  s ← never_err (NewState root (sdb_db s));
  Ok (s, root).

(** A frame that pays nothing to the account and fails, then a payment of 5. *)
Definition payment : list stateOp := [OpFrame [OpAddBalance alice 0] true; OpAddBalance alice 5].

Definition paid (ops : list stateOp) : pan (Z * Hash * Hash) :=
  '(s, root) ← emptyAlice;
  s ← runWith execOp ops s;
  '(s, balance) ← GetBalance alice s;
  '(_, root') ← IntermediateRoot false s;
  Ok (balance, root, root').

(** Undoing the touch of an empty account forgets that the account is
    watched: a frame pays nothing to it and fails, the next payment of 5 is
    seen by every read, and the state root is still that of the block before,
    so that the payment is lost; without the failed frame the root changes. *)
Example touch_revert_loses_balance :
  ∃ root root', paid payment = Ok (5, root, root) ∧ paid [OpAddBalance alice 5] = Ok (5, root, root') ∧ root' ≠ root.
Proof. eexists _, _. split; [vm_compute; reflexivity|]. split; [vm_compute; reflexivity|]. vm_compute. discriminate. Qed.

(** ** An account that destroys itself between two traced transactions *)

(** A block leaves the account with 5; a transaction destroys it, [close] ends
    the transaction, and a frame of the next one pays 1 and fails. *)
Definition destroyed (close : StateDB → pan StateDB) : pan (bool * bool * Z) :=
  s ← never_err (NewState zeroHash db0);
  s ← AddBalance alice 5 s;
  '(s, r) ← state_Commit false s;
  root ← never_err r;
  s ← never_err (NewState root (sdb_db s));
  '(s, _) ← Suicide alice s;
  s ← close s;
  '(s, before) ← Exist alice s;
  s ← execOp (OpFrame [OpAddBalance alice 1] true) s;
  '(s, after) ← Exist alice s;
  '(_, balance) ← GetBalance alice s;
  Ok (before, after, balance).

(** [DeleteSuicides] leaves the destroyed account in the trie: a failed
    frame of a later transaction brings it back, with the balance it had before
    it was destroyed.  [Finalise] takes it out of the trie, and it stays gone. *)
Example DeleteSuicides_resurrects :
  destroyed DeleteSuicides = Ok (false, true, 5) ∧ destroyed (Finalise true) = Ok (false, false, 0).
Proof. split; vm_compute; reflexivity. Qed.

End DemoState.
