(* ===== verification/GoMath.v ===== *)
(** * 256-bit arithmetic (src/public/math, src/public/bytes.go, types.go)

    The helpers of the virtual machine: checked [uint64] arithmetic, wrapping
    to 256 bits, exponentiation by squaring over the words of the exponent,
    and conversions between big integers and byte strings. *)

From S2P Require Import Prelude Types Rlp Trie Sha3.
From stdpp Require Import base tactics option list numbers.
From Stdlib Require Import ZArith Lia.

#[local] Open Scope Z_scope.

(** [big.Int.Bits]: the 64-bit words of the absolute value, low word first,
    without zero words at the end. *)
Fixpoint words_of (n : nat) (z : Z) : list Z :=
  match n with
  | O => []
  | S n => z mod two64 :: words_of n (z / two64)
  end.

Definition big_Bits (z : Z) : list Z := words_of (Z.to_nat ((big_BitLen z + 63) / 64)) (Z.abs z).

Module math.

Definition MaxUint64 : Z := maxU64.

(** ** integer.go *)

Definition SafeSub (x y : Z) : Z * bool := ((x - y)%u64, x <? y).
Definition SafeAdd (x y : Z) : Z * bool := ((x + y)%u64, MaxUint64 - x <? y).
Definition SafeMul (x y : Z) : Z * bool :=
  if (x =? 0) || (y =? 0) then (0, false) else ((x * y)%u64, MaxUint64 / x <? y).

(** ** big.go *)

Definition tt255 : Z := 2 ^ 255.
Definition tt256 : Z := 2 ^ 256.
Definition tt256m1 : Z := tt256 - 1.
Definition wordBits : nat := 64.
Definition wordBytes : nat := 8.

Definition BigMax (x y : Z) : Z := if x <? y then y else x.
Definition BigMin (x y : Z) : Z := if y <? x then y else x.

Fixpoint FirstBitSet_loop (fuel : nat) (v : Z) (i : nat) : nat :=
  match fuel with
  | O => i
  | S fuel => if Z.testbit v (Z.of_nat i) then i else FirstBitSet_loop fuel v (S i)
  end.

Definition FirstBitSet (v : Z) : nat := FirstBitSet_loop (Z.to_nat (big_BitLen v)) v 0.

(** The inner loop of [ReadBits] for the word [d], and the loop over the words;
    [i] is the position in the buffer. *)
Fixpoint ReadBits_word (j : nat) (d : Z) (i : nat) (buf : list Z) : nat * list Z :=
  match j, i with
  | S j, S i => ReadBits_word j (Z.shiftr d 8) i (<[i := byte d]> buf)
  | _, _ => (i, buf)
  end.

Fixpoint ReadBits_loop (words : list Z) (i : nat) (buf : list Z) : list Z :=
  match words with
  | [] => buf
  | d :: words => let '(i, buf) := ReadBits_word wordBytes d i buf in ReadBits_loop words i buf
  end.

Definition ReadBits (bigint : Z) (buf : list Z) : list Z := ReadBits_loop (big_Bits bigint) (length buf) buf.

Definition PaddedBigBytes (bigint : Z) (n : nat) : list Z :=
  if Z.of_nat n <=? big_BitLen bigint / 8 then big_Bytes bigint else ReadBits bigint (replicate n 0).

Definition bigEndianByteAt (bigint : Z) (n : nat) : Z :=
  match big_Bits bigint !! (n / wordBytes)%nat with
  | None => 0
  | Some word => byte (Z.shiftr word (Z.of_nat (8 * (n mod wordBytes))))
  end.

Definition Byte (bigint : Z) (padlength n : nat) : Z :=
  if (padlength <=? n)%nat then 0 else bigEndianByteAt bigint (padlength - 1 - n).

Definition U256 (x : Z) : Z := Z.land x tt256m1.
Definition S256 (x : Z) : Z := if x <? tt255 then x else x - tt256.

(** The loop of [Exp] over the bits of one word, and over the words. *)
Fixpoint Exp_word (i : nat) (word result base : Z) : Z * Z :=
  match i with
  | O => (result, base)
  | S i =>
      let result := if Z.land word 1 =? 1 then U256 (result * base) else result in
      Exp_word i (Z.shiftr word 1) result (U256 (base * base))
  end.

Fixpoint Exp_loop (words : list Z) (result base : Z) : Z :=
  match words with
  | [] => result
  | word :: words => let '(result, base) := Exp_word wordBits word result base in Exp_loop words result base
  end.

Definition Exp (base exponent : Z) : Z := Exp_loop (big_Bits exponent) 1 base.

(** ** Checked arithmetic *)

Lemma SafeAdd_spec x y : is_u64 x → is_u64 y →
  SafeAdd x y = if decide (x + y < two64) then (x + y, false) else (x + y - two64, true).
Proof.
  unfold is_u64, SafeAdd, MaxUint64, maxU64, u64. intros Hx Hy. unfold two64 in *. case_decide as Hd; f_equal.
  - apply Z.mod_small. lia.
  - lia.
  - symmetry. apply (Z.mod_unique _ _ 1); lia.
  - lia.
Qed.

Lemma SafeMul_spec x y : is_u64 x → is_u64 y →
  (SafeMul x y).2 = bool_decide (two64 ≤ x * y) ∧ (x * y < two64 → SafeMul x y = (x * y, false)).
Proof.
  unfold is_u64, SafeMul, MaxUint64, maxU64. intros Hx Hy. unfold two64 in *.
  destruct (Z.eqb_spec x 0) as [->|Hx0]; cbn [orb]; [rewrite Z.mul_0_l; by split|].
  destruct (Z.eqb_spec y 0) as [->|Hy0]; [rewrite Z.mul_0_r; by split|]. cbn [snd].
  assert (18446744073709551615 / x <? y = bool_decide (18446744073709551616 ≤ x * y)) as E.
  { pose proof (Z.div_mod 18446744073709551615 x ltac:(lia)). pose proof (Z.mod_pos_bound 18446744073709551615 x ltac:(lia)).
    case_bool_decide; [apply Z.ltb_lt|apply Z.ltb_ge]; nia. }
  split; [done|]. intros Hlt. rewrite E, bool_decide_false by lia. unfold u64. rewrite Z.mod_small; [done|unfold two64; nia].
Qed.

(** ** Words *)

Lemma U256_mod x : U256 x = x mod tt256.
Proof. unfold U256, tt256m1, tt256. change (2 ^ 256 - 1) with (Z.ones 256). by rewrite Z.land_ones. Qed.

Lemma U256_range x : 0 ≤ U256 x < tt256.
Proof. rewrite U256_mod. apply Z.mod_pos_bound. done. Qed.

Lemma S256_range x : 0 ≤ x < tt256 → - tt255 ≤ S256 x < tt255.
Proof. unfold S256, tt255, tt256. intros. destruct (Z.ltb_spec x (2 ^ 255)); lia. Qed.

Lemma U256_S256 x : 0 ≤ x < tt256 → U256 (S256 x) = x.
Proof.
  intros Hx. rewrite U256_mod. unfold S256. destruct (Z.ltb_spec x tt255); [by apply Z.mod_small|].
  symmetry. apply (Z.mod_unique _ _ (-1)); [by left|lia].
Qed.

(** ** The words of a natural number *)

(** The low [k] bytes, most significant first. *)
Lemma be_bytes_cons k z : be_bytes (S k) z = (z / 256 ^ Z.of_nat k) mod 256 :: be_bytes k z.
Proof.
  revert z. induction k as [|k IH]; intros z; [cbn; by rewrite Z.div_1_r|]. change (be_bytes (S (S k)) z) with (be_bytes (S k) (z / 256) ++ [z mod 256]).
  rewrite IH, Nat2Z.inj_succ, Z.pow_succ_r, <- Z.div_div by lia. done.
Qed.

Lemma be_bytes_zero k z : 0 ≤ z < 256 ^ Z.of_nat k → ∀ n, be_bytes (n + k) z = replicate n 0 ++ be_bytes k z.
Proof.
  intros Hz n. induction n as [|n IH]; [done|]. cbn [plus]. rewrite be_bytes_cons, IH. cbn [replicate app]. f_equal.
  rewrite Z.div_small; [done|]. split; [lia|]. eapply Z.lt_le_trans; [apply Hz|]. apply Z.pow_le_mono_r; lia.
Qed.

Lemma bitlen_words z : 0 ≤ z → z < two64 ^ ((big_BitLen z + 63) / 64) ∧ 0 ≤ (big_BitLen z + 63) / 64.
Proof.
  intros Hz. unfold big_BitLen. destruct (Z.eqb_spec z 0) as [->|Hnz]; [by split|]. rewrite Z.abs_eq by done.
  pose proof (Z.log2_spec z ltac:(lia)) as [_ Hhi]. pose proof (Z.log2_nonneg z). split; [|apply Z.div_pos; lia].
  eapply Z.lt_le_trans; [exact Hhi|]. change two64 with (2 ^ 64). rewrite <- Z.pow_mul_r by (try apply Z.div_pos; lia).
  apply Z.pow_le_mono_r; [lia|]. pose proof (Z.div_mod (Z.log2 z + 1 + 63) 64 ltac:(lia)).
  pose proof (Z.mod_pos_bound (Z.log2 z + 1 + 63) 64 ltac:(lia)). lia.
Qed.

(** A property of the words that holds of no words for zero, and of one more
    word for a number shifted up by 64 bits, holds of all. *)
Lemma big_Bits_ind (P : list Z → Z → Prop) : P [] 0 →
  (∀ w ws z, 0 ≤ w < two64 → 0 ≤ z → P ws z → P (w :: ws) (w + two64 * z)) → ∀ z, 0 ≤ z → P (big_Bits z) z.
Proof.
  intros H0 HS z Hz. unfold big_Bits. destruct (bitlen_words z Hz) as [Hlt Hn]. rewrite Z.abs_eq by done.
  set (n := (big_BitLen z + 63) / 64) in *. clearbody n. rewrite <- (Z2Nat.id n Hn) in Hlt. revert z Hz Hlt.
  induction (Z.to_nat n) as [|k IH]; intros z Hz Hlt; cbn [words_of].
  - cbn in Hlt. by replace z with 0 by lia.
  - pose proof (Z.div_mod z two64 ltac:(done)) as E. pose proof (Z.mod_pos_bound z two64 two64_pos) as Hm.
    assert (0 ≤ z / two64) as Hq by (apply Z.div_pos; [done|apply two64_pos]). rewrite Nat2Z.inj_succ, Z.pow_succ_r in Hlt by lia.
    assert (P (words_of k (z / two64)) (z / two64)) as HP. { apply IH; [done|]. apply Z.div_lt_upper_bound; [apply two64_pos|done]. }
    pose proof (HS _ _ _ Hm Hq HP) as HP'. by replace (z mod two64 + two64 * (z / two64)) with z in HP' by lia.
Qed.

(** ** Exponentiation *)

Lemma U256_mul_l a b : U256 (U256 a * b) = U256 (a * b).
Proof. rewrite !U256_mod. apply Z.mul_mod_idemp_l. done. Qed.

Lemma U256_mul_r a b : U256 (a * U256 b) = U256 (a * b).
Proof. rewrite !U256_mod. apply Z.mul_mod_idemp_r. done. Qed.

Lemma U256_pow a n : 0 ≤ n → U256 (U256 a ^ n) = U256 (a ^ n).
Proof.
  revert n. apply natlike_ind; [done|]. intros n Hn IH. rewrite !Z.pow_succ_r by done.
  rewrite U256_mul_l, <- U256_mul_r, IH, U256_mul_r. done.
Qed.

Lemma U256_idemp a : U256 (U256 a) = U256 a.
Proof. rewrite !U256_mod. apply Z.mod_mod. done. Qed.

Lemma Exp_word_spec i : ∀ word result base, 0 ≤ word < 2 ^ Z.of_nat i →
  let '(r, b) := Exp_word i word result base in
  U256 r = U256 (result * base ^ word) ∧ U256 b = U256 (base ^ (2 ^ Z.of_nat i)) ∧ (U256 result = result → U256 r = r).
Proof.
  induction i as [|i IH]; intros word result base Hw.
  { cbn in *. replace word with 0 by lia. rewrite Z.pow_0_r, Z.mul_1_r, Z.pow_1_r. done. }
  cbn [Exp_word]. rewrite Nat2Z.inj_succ, Z.pow_succ_r in Hw by lia.
  rewrite Z.shiftr_div_pow2 by done. change (2 ^ 1) with 2. change 1 with (Z.ones 1) at 1. rewrite (Z.land_ones word 1) by done. change (2 ^ 1) with 2.
  pose proof (Z.div_mod word 2 ltac:(done)) as E. pose proof (Z.mod_pos_bound word 2 ltac:(done)) as Hm.
  set (h := word / 2) in *. set (res := if _ =? 1 then _ else _). specialize (IH h res (U256 (base * base)) ltac:(lia)).
  destruct (Exp_word i h res (U256 (base * base))) as [r b]. destruct IH as (Hr & Hb & Hu). split_and!.
  - rewrite Hr, <- U256_mul_r, U256_pow, U256_mul_r by lia. rewrite <- (Z.pow_2_r base), <- Z.pow_mul_r by lia.
    unfold res. destruct (Z.eqb_spec (word mod 2) 1) as [E1|E1].
    + rewrite U256_mul_l, <- Z.mul_assoc, <- Z.pow_succ_r by lia. do 2 f_equal. f_equal. lia.
    + do 2 f_equal. f_equal. lia.
  - rewrite Hb, U256_pow by lia. rewrite <- (Z.pow_2_r base), <- Z.pow_mul_r by lia. do 2 f_equal. rewrite Nat2Z.inj_succ, Z.pow_succ_r by lia. lia.
  - intros Hres. apply Hu. unfold res. destruct (_ =? 1); [apply U256_idemp|done].
Qed.

(** [Exp] is the power modulo 2^256. *)
Lemma Exp_spec base exponent : 0 ≤ exponent → Exp base exponent = base ^ exponent mod tt256.
Proof.
  intros He. rewrite <- U256_mod. unfold Exp.
  assert (∀ result base, U256 result = result → Exp_loop (big_Bits exponent) result base = U256 (result * base ^ exponent)) as Hl;
    [|rewrite Hl by done; f_equal; lia].
  clear base. revert exponent He.
  apply (big_Bits_ind (fun ws e => ∀ result base, U256 result = result → Exp_loop ws result base = U256 (result * base ^ e))).
  - intros result base Hr. cbn [Exp_loop]. by rewrite Z.pow_0_r, Z.mul_1_r.
  - intros w ws z Hw Hz IH result base Hr. cbn [Exp_loop]. pose proof (Exp_word_spec wordBits w result base Hw) as Hs.
    destruct (Exp_word wordBits w result base) as [r b]. destruct Hs as (Hr' & Hb & Hu). rewrite IH by auto.
    rewrite <- U256_mul_l, Hr', U256_mul_l, <- U256_mul_r, <- U256_pow, Hb, U256_pow, U256_mul_r by done.
    change (2 ^ Z.of_nat wordBits) with two64. rewrite <- Z.pow_mul_r by (done || apply Z.lt_le_incl, two64_pos).
    by rewrite <- Z.mul_assoc, <- Z.pow_add_r by (unfold two64 in *; lia).
Qed.

(** ** Bytes *)

Lemma mod_pow_step x j : (x mod 256 ^ Z.of_nat (S j)) mod 256 = x mod 256 ∧ (x mod 256 ^ Z.of_nat (S j)) / 256 = (x / 256) mod 256 ^ Z.of_nat j.
Proof.
  rewrite Nat2Z.inj_succ, Z.pow_succ_r, Z.rem_mul_r by lia. pose proof (Z.mod_pos_bound x 256 ltac:(lia)). rewrite (Z.mul_comm 256). split.
  - rewrite Z.mod_add by done. by apply Z.mod_mod.
  - rewrite Z.div_add by done. rewrite (Z.div_small (x mod 256)) by lia. lia.
Qed.

Lemma ReadBits_word_spec z j : ∀ k i,
  ReadBits_word j ((z / 256 ^ Z.of_nat k) mod 256 ^ Z.of_nat j) i (replicate i 0 ++ be_bytes k z) =
    ((i - j)%nat, replicate (i - j) 0 ++ be_bytes (k + min j i) z).
Proof.
  induction j as [|j IH]; intros k [|i]; cbn [ReadBits_word Nat.min]; rewrite ?Nat.add_0_r, ?Nat.sub_0_r; try done.
  destruct (mod_pow_step (z / 256 ^ Z.of_nat k) j) as [E1 E2]. unfold byte. rewrite E1, Z.shiftr_div_pow2 by done. change (2 ^ 8) with 256. rewrite E2.
  rewrite replicate_S_end, <- (assoc_L (++)), insert_app_r_alt by (rewrite length_replicate; lia). rewrite length_replicate, Nat.sub_diag. cbn [app insert list_insert].
  rewrite <- be_bytes_cons. rewrite Z.div_div by lia. replace (256 ^ Z.of_nat k * 256) with (256 ^ Z.of_nat (S k)) by (rewrite Nat2Z.inj_succ, Z.pow_succ_r by lia; lia).
  rewrite IH. do 3 f_equal; lia.
Qed.

Lemma ReadBits_loop_done ws buf : ReadBits_loop ws 0 buf = buf.
Proof. induction ws as [|w ws IH]; [done|]. cbn. done. Qed.

Lemma ReadBits_spec z n : 0 ≤ z → ReadBits z (replicate n 0) = be_bytes n z.
Proof.
  intros Hz. unfold ReadBits. rewrite length_replicate.
  assert (∀ ws z', 0 ≤ z' → ws = big_Bits z' → ∀ k z i, 0 ≤ z → z / 256 ^ Z.of_nat k = z' →
    ReadBits_loop ws i (replicate i 0 ++ be_bytes k z) = be_bytes (i + k) z) as Hl.
  2: { specialize (Hl (big_Bits z) z Hz eq_refl 0%nat z n Hz). cbn [be_bytes] in Hl. rewrite app_nil_r, Nat.add_0_r in Hl. apply Hl, Z.div_1_r. }
  clear z Hz. intros ws z' Hz' ->. revert z' Hz'.
  apply (big_Bits_ind (fun ws z' => ∀ k z i, 0 ≤ z → z / 256 ^ Z.of_nat k = z' → ReadBits_loop ws i (replicate i 0 ++ be_bytes k z) = be_bytes (i + k) z)).
  - intros k z i Hz E. cbn [ReadBits_loop]. symmetry. apply be_bytes_zero. apply Z.div_small_iff in E; lia.
  - intros w ws z' Hw Hz' IH k z i Hz E. cbn [ReadBits_loop].
    replace w with ((z / 256 ^ Z.of_nat k) mod 256 ^ Z.of_nat wordBytes).
    2: { rewrite E. change (256 ^ Z.of_nat wordBytes) with two64. rewrite (Z.mul_comm two64), Z.mod_add by done. by apply Z.mod_small. }
    rewrite ReadBits_word_spec. destruct (decide (8 ≤ i)%nat) as [Hi|Hi].
    + replace (min wordBytes i) with 8%nat by (unfold wordBytes; lia). rewrite IH; [f_equal; unfold wordBytes; lia|done|].
      rewrite Nat2Z.inj_add, Z.pow_add_r, <- Z.div_div, E by lia. change (256 ^ Z.of_nat 8) with two64.
      rewrite (Z.mul_comm two64), Z.div_add by done. rewrite Z.div_small by done. lia.
    + replace (i - wordBytes)%nat with 0%nat by (unfold wordBytes; lia). rewrite ReadBits_loop_done. cbn [replicate app]. f_equal. unfold wordBytes. lia.
Qed.

(** [PaddedBigBytes] gives [n] bytes when the number fits. *)
Lemma PaddedBigBytes_spec z n : 0 ≤ z < 256 ^ Z.of_nat n → PaddedBigBytes z n = be_bytes n z.
Proof.
  intros Hz. unfold PaddedBigBytes. destruct (Z.leb_spec (Z.of_nat n) (big_BitLen z / 8)) as [Hle|_]; [|apply ReadBits_spec; lia].
  unfold big_Bytes. rewrite Z.abs_eq by lia. destruct (decide (n = 0%nat)) as [->|Hn]; [cbn in Hz; by replace z with 0 by lia|].
  f_equal. unfold big_BitLen in Hle. destruct (Z.eqb_spec z 0) as [->|Hnz]; [change (0 / 8) with 0 in Hle; lia|]. rewrite Z.abs_eq in Hle by lia.
  apply byte_len_unique; [lia|]. split; [|lia].
  pose proof (Z.log2_spec z ltac:(lia)) as [Hlo _]. etransitivity; [|exact Hlo]. change 256 with (2 ^ 8). rewrite <- Z.pow_mul_r by lia.
  apply Z.pow_le_mono_r; [lia|]. pose proof (Z.div_mod (Z.log2 z + 1) 8 ltac:(lia)). pose proof (Z.mod_pos_bound (Z.log2 z + 1) 8 ltac:(lia)). lia.
Qed.

Lemma PaddedBigBytes_length z n : 0 ≤ z < 256 ^ Z.of_nat n → length (PaddedBigBytes z n) = n.
Proof. intros Hz. by rewrite PaddedBigBytes_spec, be_bytes_length. Qed.

Lemma PaddedBigBytes_bytes z n : 0 ≤ z → is_bytes (PaddedBigBytes z n).
Proof.
  intros Hz. unfold PaddedBigBytes. case_match; [apply big_Bytes_bytes|]. rewrite ReadBits_spec by done. apply be_bytes_bytes.
Qed.

(** The words, one by one. *)
Lemma big_Bits_lookup z i : 0 ≤ z → default 0 (big_Bits z !! i) = (z / two64 ^ Z.of_nat i) mod two64.
Proof.
  intros Hz. revert i. revert z Hz. apply (big_Bits_ind (fun ws z => ∀ i, default 0 (ws !! i) = (z / two64 ^ Z.of_nat i) mod two64)).
  - intros i. cbn. by rewrite Z.div_0_l by (apply Z.pow_nonzero; [done|lia]).
  - intros w ws z Hw Hz IH [|i]; cbn [lookup list_lookup].
    + cbn. rewrite Z.div_1_r, (Z.mul_comm two64), Z.mod_add by done. symmetry. by apply Z.mod_small.
    + rewrite IH, Nat2Z.inj_succ, Z.pow_succ_r, <- Z.div_div by (done || lia || (apply Z.pow_pos_nonneg; [apply two64_pos|lia])).
      rewrite (Z.mul_comm two64), Z.div_add by done. by rewrite (Z.div_small w).
Qed.

(** [Byte] is the [n]th byte of the padded number. *)
Lemma Byte_spec z padlength n : 0 ≤ z → (n < padlength)%nat → Byte z padlength n = (z / 256 ^ Z.of_nat (padlength - 1 - n)) mod 256.
Proof.
  intros Hz Hn. unfold Byte. rewrite (proj2 (Nat.leb_gt _ _)) by lia. unfold bigEndianByteAt. set (k := (padlength - 1 - n)%nat).
  transitivity (byte (Z.shiftr (default 0 (big_Bits z !! (k / wordBytes)%nat)) (Z.of_nat (8 * (k mod wordBytes))))).
  { destruct (big_Bits z !! _); [done|]. cbn [default]. by rewrite Z.shiftr_0_l. }
  rewrite big_Bits_lookup, Z.shiftr_div_pow2 by lia. unfold byte. set (q := (k / wordBytes)%nat). set (r := (k mod wordBytes)%nat).
  assert (k = 8 * q + r)%nat as Ek by apply Nat.div_mod_eq. assert (r < 8)%nat as Hr by (apply Nat.mod_upper_bound; done). clearbody q r k. subst k.
  rewrite Nat2Z.inj_add, Nat2Z.inj_mul, Z.pow_add_r, Z.pow_mul_r, <- Z.div_div by lia. change (256 ^ Z.of_nat 8) with two64.
  set (y := z / two64 ^ Z.of_nat q). rewrite Nat2Z.inj_mul, Z.pow_mul_r by lia. change (2 ^ Z.of_nat 8) with 256.
  change two64 with (256 ^ 8). replace 8 with (Z.of_nat r + (8 - Z.of_nat r)) by lia. rewrite Z.pow_add_r, Z.rem_mul_r by lia.
  rewrite (Z.mul_comm (256 ^ _)), Z.div_add by (apply Z.pow_nonzero; lia). rewrite Z.div_small by (apply Z.mod_pos_bound, Z.pow_pos_nonneg; lia).
  cbn [Z.add]. rewrite Z.add_0_l. replace (8 - Z.of_nat r) with (1 + (7 - Z.of_nat r)) by lia. rewrite Z.pow_add_r, Z.rem_mul_r by lia.
  change (256 ^ 1) with 256. rewrite (Z.mul_comm 256), Z.mod_add by done. apply Z.mod_mod. done.
Qed.

End math.

(** ** Byte strings and hashes (bytes.go, types.go) *)

(** The lengths come from the stack of the machine and from lengths that the gas
    has paid for; [make] is taken to succeed, as everywhere else. *)
Definition RightPadBytes (s : list Z) (l : Z) : list Z := if l <=? strlen s then s else s ++ replicate (Z.to_nat l - length s) 0.
Definition LeftPadBytes (s : list Z) (l : Z) : list Z := if l <=? strlen s then s else replicate (Z.to_nat l - length s) 0 ++ s.

Definition Hash_Big (h : Hash) : Z := be_val h.
Definition Address_Big (a : Address) : Z := be_val a.
Definition BigToHash (b : Z) : Hash := BytesToHash (big_Bytes b).
Definition BigToAddress (b : Z) : Address := crypto.BytesToAddress (big_Bytes b).
Definition EmptyHash (h : Hash) : bool := bool_decide (h = zeroHash).

Lemma be_val_nonneg l : is_bytes l → 0 ≤ be_val l.
Proof.
  intros Hl. induction l as [|x l IH] using rev_ind; [done|]. apply Forall_app in Hl as [Hl Hx]. apply Forall_cons_1 in Hx as [Hx _].
  rewrite be_val_snoc. specialize (IH Hl). unfold is_byte in Hx. lia.
Qed.

Lemma be_val_bound l : is_bytes l → be_val l < 256 ^ strlen l.
Proof.
  intros Hl. induction l as [|x l IH] using rev_ind; [done|]. apply Forall_app in Hl as [Hl Hx]. apply Forall_cons_1 in Hx as [Hx _].
  rewrite be_val_snoc, length_app, Nat2Z.inj_add, Z.pow_add_r by lia. specialize (IH Hl). unfold is_byte in Hx. cbn [length]. change (256 ^ Z.of_nat 1) with 256. lia.
Qed.

Lemma RightPadBytes_length s l : strlen (RightPadBytes s l) = Z.max l (strlen s).
Proof. unfold RightPadBytes. destruct (Z.leb_spec l (strlen s)); [lia|]. rewrite length_app, length_replicate. lia. Qed.

Lemma replicate_bytes n : is_bytes (replicate n 0).
Proof. apply Forall_replicate. unfold is_byte. lia. Qed.

Lemma RightPadBytes_bytes s l : is_bytes s → is_bytes (RightPadBytes s l).
Proof. intros Hs. unfold RightPadBytes. case_match; [done|]. apply Forall_app. split; [done|apply replicate_bytes]. Qed.

Lemma LeftPadBytes_bytes s l : is_bytes s → is_bytes (LeftPadBytes s l).
Proof. intros Hs. unfold LeftPadBytes. case_match; [done|]. apply Forall_app. split; [apply replicate_bytes|done]. Qed.

Lemma BytesToHash_bytes b : is_bytes b → is_bytes (BytesToHash b).
Proof. intros Hb. unfold BytesToHash. apply Forall_app. split; [apply replicate_bytes|]. by apply Forall_drop. Qed.

Lemma BigToHash_bytes z : is_bytes (BigToHash z).
Proof. apply BytesToHash_bytes, big_Bytes_bytes. Qed.

Lemma BigToAddress_bytes z : is_bytes (BigToAddress z).
Proof.
  unfold BigToAddress, crypto.BytesToAddress. apply Forall_app. split; [apply replicate_bytes|]. case_match; [apply Forall_drop|]; apply big_Bytes_bytes.
Qed.
