(* ===== verification/Vm.v ===== *)
(** * The virtual machine: its parts
    (src/kernel/vm: stack.go, stack_table.go, memory.go, memory_table.go,
    common.go, analysis.go, contract.go, errors.go, gas.go, interface.go;
    src/content: protocol_params.go, gas_table.go)

    The stack is a list of integers with its top first.  The pool of integers
    only reuses objects that nothing refers to any more, and is left out.
    An instruction works on a [machine]: the contract that runs, its memory and
    stack, the program counter, and the state of the machine as a whole. *)

From S2P Require Import Prelude Types Interfaces Rlp Trie State GoMath.
From stdpp Require Import base tactics option list numbers gmap.
From Stdlib Require Import ZArith Lia.

#[local] Open Scope Z_scope.

(** ** Parameters of the protocol *)

Module params.

Definition MaximumExtraDataSize : Z := 32.
Definition CallValueTransferGas : Z := 9000.
Definition CallNewAccountGas : Z := 25000.
Definition TxGas : Z := 21000.
Definition TxGasContractCreation : Z := 53000.
Definition TxDataZeroGas : Z := 4.
Definition QuadCoeffDiv : Z := 512.
Definition SstoreSetGas : Z := 20000.
Definition LogDataGas : Z := 8.
Definition CallStipend : Z := 2300.
Definition Sha3Gas : Z := 30.
Definition Sha3WordGas : Z := 6.
Definition SstoreResetGas : Z := 5000.
Definition SstoreClearGas : Z := 5000.
Definition SstoreRefundGas : Z := 15000.
Definition JumpdestGas : Z := 1.
Definition CreateDataGas : Z := 200.
Definition CallCreateDepth : Z := 1024.
Definition LogGas : Z := 375.
Definition CopyGas : Z := 3.
Definition StackLimit : Z := 1024.
Definition LogTopicGas : Z := 375.
Definition CreateGas : Z := 32000.
Definition SuicideRefundGas : Z := 24000.
Definition MemoryGas : Z := 3.
Definition TxDataNonZeroGas : Z := 68.
Definition MaxCodeSize : Z := 24576.
Definition EcrecoverGas : Z := 3000.
Definition Sha256BaseGas : Z := 60.
Definition Sha256PerWordGas : Z := 12.
Definition Ripemd160BaseGas : Z := 600.
Definition Ripemd160PerWordGas : Z := 120.
Definition IdentityBaseGas : Z := 15.
Definition IdentityPerWordGas : Z := 3.
Definition ModExpQuadCoeffDiv : Z := 20.
Definition Bn256AddGas : Z := 500.
Definition Bn256ScalarMulGas : Z := 40000.
Definition Bn256PairingBaseGas : Z := 100000.
Definition Bn256PairingPerPointGas : Z := 80000.

Record GasTable := mkGasTable {
  ExtcodeSize : Z;
  ExtcodeCopy : Z;
  Balance : Z;
  SLoad : Z;
  Calls : Z;
  Suicide : Z;
  ExpByte : Z;
  CreateBySuicide : Z
}.

Definition GasTableHomestead : GasTable := mkGasTable 20 20 20 50 40 0 10 0.
Definition GasTableEIP150 : GasTable := mkGasTable 700 700 400 200 700 5000 10 25000.
Definition GasTableEIP158 : GasTable := mkGasTable 700 700 400 200 700 5000 50 25000.

(** [ChainConfig.GasTable] *)
Definition ChainConfig_GasTable (c : ChainConfig) (num : option Z) : GasTable :=
  match num with
  | None => GasTableHomestead
  | Some _ => if IsEIP158 c num then GasTableEIP158 else if IsEIP150 c num then GasTableEIP150 else GasTableHomestead
  end.

End params.

(** ** Errors *)

Inductive vmError :=
| ErrOutOfGas
| ErrCodeStoreOutOfGas
| ErrDepth
| ErrInsufficientBalance
| ErrContractAddressCollision
| errGasUintOverflow
| errWriteProtection
| errReturnDataOutOfBounds
| errExecutionReverted
| errMaxCodeSizeExceeded
| errStackUnderflow (len n : Z)
| errStackLimit (len : Z)
| errInvalidOpcode (op : Z)
| errInvalidJump (op pos : Z)
| errNotOnCurve
| errInvalidCurvePoint
| errBadPairingInput.

#[export] Instance vmError_eq_dec : EqDecision vmError.
Proof. solve_decision. Defined.

(** The analysis of a code is cached under its hash.  When two different codes
    come with one hash, the model stops and names them. *)
Record clash := mkClash { cl_hash : Hash; cl_first : list Z; cl_second : list Z }.

Notation vmres := (outcome clash).

(** A computation that can only panic, as one of the virtual machine. *)
Definition from_pan {A} (r : pan A) : vmres A :=
  match r with Ok a => Ok a | Err e => match e with end | Panic => Panic end.

(** ** The interface to the state (interface.go) *)

Class StateOps := {
  st : Type;
  st_CreateAccount : Address → st → pan st;
  st_SubBalance : Address → Z → st → pan st;
  st_AddBalance : Address → Z → st → pan st;
  st_GetBalance : Address → st → pan (st * Z);
  st_GetNonce : Address → st → pan (st * Z);
  st_SetNonce : Address → Z → st → pan st;
  st_GetCodeHash : Address → st → pan (st * Hash);
  st_GetCode : Address → st → pan (st * option (list Z));
  st_SetCode : Address → option (list Z) → st → pan st;
  st_GetCodeSize : Address → st → pan (st * Z);
  st_AddRefund : Z → st → pan st;
  st_GetRefund : st → Z;
  st_GetState : Address → Hash → st → pan (st * Hash);
  st_SetState : Address → Hash → Hash → st → pan st;
  st_Suicide : Address → st → pan (st * bool);
  st_HasSuicided : Address → st → pan (st * bool);
  st_Exist : Address → st → pan (st * bool);
  st_Empty : Address → st → pan (st * bool);
  st_RevertToSnapshot : Z → st → pan st;
  st_Snapshot : st → st * Z;
  st_AddLog : Log → st → pan st;
  st_AddPreimage : Hash → list Z → st → pan st
}.

(** ** The stack (stack.go) *)

Notation Stack := (list Z).

Definition stack_swap (n : nat) (s : Stack) : vmres Stack :=
  match s !! (n - 1)%nat, s !! 0%nat with
  | Some x, Some y => Ok (<[0%nat := x]> (<[(n - 1)%nat := y]> s))
  | _, _ => Panic
  end.

Definition stack_dup (n : nat) (s : Stack) : vmres Stack := x ← deref (s !! (n - 1)%nat); Ok (x :: s).

Definition stack_require (n : Z) (s : Stack) : option vmError :=
  if strlen s <? n then Some (errStackUnderflow (strlen s) n) else None.

(** stack_table.go *)
Definition makeStackFunc (pop push : Z) (s : Stack) : option vmError :=
  match stack_require pop s with
  | Some e => Some e
  | None => if params.StackLimit <? strlen s + push - pop then Some (errStackLimit (strlen s)) else None
  end.

Definition makeDupStackFunc (n : Z) : Stack → option vmError := makeStackFunc n (n + 1).
Definition makeSwapStackFunc (n : Z) : Stack → option vmError := makeStackFunc n n.

(** ** Memory (memory.go) *)

Record Memory := mkMemory { m_store : list Z; m_lastGasCost : Z }.

Definition NewMemory : Memory := mkMemory [] 0.

Definition mem_Len (m : Memory) : Z := strlen (m_store m).

(** [copy(store[offset:offset+size], value)] *)
Definition mem_Set (offset size : Z) (value : list Z) (m : Memory) : vmres Memory :=
  if mem_Len m <? size then Panic
  else if 0 <? size then
    dst ← slice (m_store m) offset (offset + size)%u64;
    let n := min (length dst) (length value) in
    Ok (mkMemory (take (Z.to_nat offset) (m_store m) ++ take n value ++ drop (Z.to_nat offset + n) (m_store m)) (m_lastGasCost m))
  else Ok m.

Definition mem_Resize (size : Z) (m : Memory) : Memory :=
  if mem_Len m <? size then mkMemory (m_store m ++ replicate (Z.to_nat (size - mem_Len m)) 0) (m_lastGasCost m) else m.

Definition mem_Get (offset size : Z) (m : Memory) : vmres (option (list Z)) :=
  if size =? 0 then Ok None
  else if offset <? mem_Len m then b ← slice (m_store m) offset (offset + size); Ok (Some b)
  else Ok None.

(** The result aliases the memory of a contract that is about to end. *)
Definition mem_GetPtr (offset size : Z) (m : Memory) : vmres (option (list Z)) := mem_Get offset size m.

(** ** Helpers (common.go) *)

Definition calcMemSize (off l : Z) : Z := if l =? 0 then 0 else off + l.

Definition getData (data : list Z) (start size : Z) : vmres (list Z) :=
  let length := strlen data in
  let start := if length <? start then length else start in
  let e := (start + size)%u64 in
  let e := if length <? e then length else e in
  b ← slice data start e;
  Ok (RightPadBytes b (i64 size)).

Definition getDataBig (data : list Z) (start size : Z) : vmres (list Z) :=
  let dlen := strlen data in
  let s := math.BigMin start dlen in
  let e := math.BigMin (s + size) dlen in
  b ← slice data (big_Uint64 s) (big_Uint64 e);
  Ok (RightPadBytes b (i64 (big_Uint64 size))).

Definition bigUint64 (v : Z) : Z * bool := (big_Uint64 v, 64 <? big_BitLen v).

Definition toWordSize (size : Z) : Z :=
  if math.MaxUint64 - 31 <? size then math.MaxUint64 / 32 + 1 else (size + 31) / 32.

Definition allZero (b : list Z) : bool := forallb (fun x => x =? 0) b.

(** ** Jump destinations (analysis.go) *)

Definition PUSH1 : Z := 0x60.
Definition PUSH32 : Z := 0x7f.
Definition JUMPDEST : Z := 0x5b.

Notation bitvec := (list Z).

Definition or_at (i : Z) (x : Z) (bits : bitvec) : vmres bitvec :=
  b ← index bits i; Ok (<[Z.to_nat i := Z.lor b x]> bits).

Definition bits_set (pos : Z) (bits : bitvec) : vmres bitvec := or_at (pos / 8) (Z.shiftr 0x80 (pos mod 8)) bits.

Definition bits_set8 (pos : Z) (bits : bitvec) : vmres bitvec :=
  bits ← or_at (pos / 8) (Z.shiftr 0xff (pos mod 8)) bits;
  or_at (pos / 8 + 1) (0xff - Z.shiftr 0xff (pos mod 8)) bits.

Definition codeSegment (pos : Z) (bits : bitvec) : vmres bool :=
  b ← index bits (pos / 8); Ok (Z.land b (Z.shiftr 0x80 (pos mod 8)) =? 0).

(** The two loops over the data of a push, and the loop over the code. *)
Fixpoint set8_loop (fuel : nat) (numbits pc : Z) (bits : bitvec) : vmres (Z * Z * bitvec) :=
  if 8 <=? numbits then
    match fuel with
    | O => Panic
    | S fuel => bits ← bits_set8 pc bits; set8_loop fuel (numbits - 8) (pc + 8) bits
    end
  else Ok (numbits, pc, bits).

Fixpoint set_loop (fuel : nat) (numbits pc : Z) (bits : bitvec) : vmres (Z * bitvec) :=
  if 0 <? numbits then
    match fuel with
    | O => Panic
    | S fuel => bits ← bits_set pc bits; set_loop fuel (numbits - 1) (pc + 1) bits
    end
  else Ok (pc, bits).

Fixpoint codeBitmap_loop (fuel : nat) (code : list Z) (pc : Z) (bits : bitvec) : vmres bitvec :=
  if pc <? strlen code then
    match fuel with
    | O => Panic
    | S fuel =>
        op ← index code pc;
        if (PUSH1 <=? op) && (op <=? PUSH32) then
          '(numbits, pc, bits) ← set8_loop 4 (op - PUSH1 + 1) (pc + 1) bits;
          '(pc, bits) ← set_loop 8 numbits pc bits;
          codeBitmap_loop fuel code pc bits
        else codeBitmap_loop fuel code (pc + 1) bits
    end
  else Ok bits.

Definition codeBitmap (code : list Z) : vmres bitvec :=
  codeBitmap_loop (length code) code 0 (replicate (length code / 8 + 1 + 4) 0).

(** The cache of analyses, with the code that was analysed. *)
Notation destinations := (gmap Hash (list Z * bitvec)).

Definition has (codehash : Hash) (code : list Z) (dest : Z) (d : destinations) : vmres (destinations * bool) :=
  let udest := big_Uint64 dest in
  if (63 <=? big_BitLen dest) || (strlen code <=? udest) then Ok (d, false)
  else
    '(d, m) ← match d !! codehash with
              | Some (code', m) => if decide (code' = code) then Ok (d, m) else Err (mkClash codehash code' code)
              | None => m ← codeBitmap code; Ok (<[codehash := (code, m)]> d, m)
              end;
    op ← index code udest;
    if op =? JUMPDEST then b ← codeSegment udest m; Ok (d, b) else Ok (d, false).

(** ** Contracts (contract.go)

    The [caller] of a contract is read when the contract is made; the cache
    of jump destinations is shared with the caller when that is a contract. *)

Record Contract := mkContract {
  c_CallerAddress : Address;
  c_self : Address;
  c_jumpdests : destinations;
  c_Code : list Z;
  c_CodeHash : Hash;
  c_CodeAddr : option Address;
  c_Input : list Z;
  c_Gas : Z;
  c_value : option Z;
  c_DelegateCall : bool
}.

Inductive ContractRef :=
| AccountRef (a : Address)
| ParentRef (c : Contract).

Definition ref_Address (r : ContractRef) : Address := match r with AccountRef a => a | ParentRef c => c_self c end.
Definition ref_jumpdests (r : ContractRef) : destinations := match r with AccountRef _ => ∅ | ParentRef c => c_jumpdests c end.

Definition NewContract (caller : ContractRef) (object : Address) (value : option Z) (gas : Z) : Contract :=
  mkContract (ref_Address caller) object (ref_jumpdests caller) [] zeroHash None [] gas value false.

(** [c.caller.( *Contract)] panics for an account. *)
Definition AsDelegate (caller : ContractRef) (c : Contract) : vmres Contract :=
  match caller with
  | AccountRef _ => Panic
  | ParentRef parent =>
      Ok (mkContract (c_CallerAddress parent) (c_self c) (c_jumpdests c) (c_Code c) (c_CodeHash c) (c_CodeAddr c) (c_Input c)
            (c_Gas c) (c_value parent) true)
  end.

Definition GetByte (n : Z) (c : Contract) : Z := if n <? strlen (c_Code c) then default 0 (c_Code c !! Z.to_nat n) else 0.
Definition GetOp (n : Z) (c : Contract) : Z := GetByte n c.

Definition set_Gas (g : Z) (c : Contract) : Contract :=
  mkContract (c_CallerAddress c) (c_self c) (c_jumpdests c) (c_Code c) (c_CodeHash c) (c_CodeAddr c) (c_Input c) g (c_value c) (c_DelegateCall c).
Definition set_jumpdests (d : destinations) (c : Contract) : Contract :=
  mkContract (c_CallerAddress c) (c_self c) d (c_Code c) (c_CodeHash c) (c_CodeAddr c) (c_Input c) (c_Gas c) (c_value c) (c_DelegateCall c).
Definition set_Input (i : list Z) (c : Contract) : Contract :=
  mkContract (c_CallerAddress c) (c_self c) (c_jumpdests c) (c_Code c) (c_CodeHash c) (c_CodeAddr c) i (c_Gas c) (c_value c) (c_DelegateCall c).

Definition UseGas (gas : Z) (c : Contract) : Contract * bool :=
  if c_Gas c <? gas then (c, false) else (set_Gas (c_Gas c - gas)%u64 c, true).

Definition SetCallCode (addr : Address) (hash : Hash) (code : list Z) (c : Contract) : Contract :=
  mkContract (c_CallerAddress c) (c_self c) (c_jumpdests c) code hash (Some addr) (c_Input c) (c_Gas c) (c_value c) (c_DelegateCall c).

(** ** The gas passed to a call (gas.go) *)

Definition GasQuickStep : Z := 2.
Definition GasFastestStep : Z := 3.
Definition GasFastStep : Z := 5.
Definition GasMidStep : Z := 8.
Definition GasSlowStep : Z := 10.
Definition GasExtStep : Z := 20.

Definition callGas (gasTable : params.GasTable) (availableGas base callCost : Z) : Z + vmError :=
  let rest :=
    if 64 <? big_BitLen callCost then inr errGasUintOverflow else inl (big_Uint64 callCost) in
  if 0 <? params.CreateBySuicide gasTable then
    let availableGas := (availableGas - base)%u64 in
    let gas := (availableGas - availableGas / 64)%u64 in
    if (64 <? big_BitLen callCost) || (gas <? big_Uint64 callCost) then inl gas else rest
  else rest.
