(* ===== verification/VmAnalysis.v ===== *)
(** * Jump destinations (src/kernel/vm/analysis.go)

    The analysis marks the data of the push instructions, eight bits at a time
    where it can.  A jump may only go to a byte that starts an instruction. *)

From S2P Require Import Prelude Types Interfaces Rlp Trie State GoMath Vm.
From stdpp Require Import base tactics option list numbers gmap.
From Stdlib Require Import ZArith Lia.

#[local] Open Scope Z_scope.

(** ** Where instructions start *)

(** The number of bytes of data after an opcode. *)
Definition push_data (op : Z) : Z := if (PUSH1 <=? op) && (op <=? PUSH32) then op - PUSH1 + 1 else 0.

Inductive instruction_at (code : list Z) : Z → Prop :=
| start_first : instruction_at code 0
| start_next pc op : instruction_at code pc → code !! Z.to_nat pc = Some op → instruction_at code (pc + 1 + push_data op).

Lemma push_data_range op : 0 ≤ push_data op ≤ 32.
Proof. unfold push_data, PUSH1, PUSH32. destruct (Z.leb_spec 0x60 op), (Z.leb_spec op 0x7f); cbn; lia. Qed.

Lemma instruction_at_nonneg code pc : instruction_at code pc → 0 ≤ pc.
Proof. induction 1 as [|pc op ? ? ?]; [done|]. pose proof (push_data_range op). lia. Qed.

(** No instruction starts inside another. *)
Lemma instruction_at_apart code : ∀ n p q op, p + q < Z.of_nat n → instruction_at code p → instruction_at code q →
  code !! Z.to_nat p = Some op → p < q → p + 1 + push_data op ≤ q.
Proof.
  induction n as [|n IH]; intros p q op Hn Hp Hq Hop Hlt; pose proof (instruction_at_nonneg _ _ Hp); [pose proof (instruction_at_nonneg _ _ Hq); lia|].
  destruct Hq as [|q' op' Hq Hop']; [lia|]. pose proof (push_data_range op') as Hd. pose proof (instruction_at_nonneg _ _ Hq).
  destruct (Z.lt_trichotomy p q') as [Hl|[->|Hl]].
  - pose proof (IH p q' op ltac:(lia) Hp Hq Hop Hl). lia.
  - rewrite Hop in Hop'. injection Hop' as ->. lia.
  - pose proof (IH q' p op' ltac:(lia) Hq Hp Hop' Hl). lia.
Qed.

(** ** The bits of the map *)

Definition bit_at (bits : bitvec) (p : Z) : bool := Z.testbit (default 0 (bits !! Z.to_nat (p / 8))) (7 - p mod 8).

Lemma mod8 p : 0 ≤ p mod 8 < 8.
Proof. apply Z.mod_pos_bound. lia. Qed.

Lemma single_bit k i : 0 ≤ k < 8 → 0 ≤ i < 8 → Z.testbit (Z.shiftr 0x80 k) (7 - i) = (i =? k).
Proof.
  intros Hk Hi. rewrite Z.shiftr_spec by lia. change 0x80 with (2 ^ 7). rewrite Z.pow2_bits_eqb by lia.
  destruct (Z.eqb_spec i k), (Z.eqb_spec 7 (7 - i + k)); lia.
Qed.

Lemma low_bits k i : 0 ≤ k < 8 → 0 ≤ i < 8 → Z.testbit (Z.shiftr 0xff k) (7 - i) = (k <=? i).
Proof.
  intros Hk Hi. rewrite Z.shiftr_spec by lia. change 0xff with (Z.ones 8). destruct (Z.leb_spec k i).
  - apply Z.ones_spec_low. lia.
  - apply Z.ones_spec_high. lia.
Qed.

Lemma high_bits k i : 0 ≤ k < 8 → 0 ≤ i < 8 → Z.testbit (0xff - Z.shiftr 0xff k) (7 - i) = (i <? k).
Proof.
  intros Hk Hi. assert (k = 0 ∨ k = 1 ∨ k = 2 ∨ k = 3 ∨ k = 4 ∨ k = 5 ∨ k = 6 ∨ k = 7) as Hk' by lia.
  assert (i = 0 ∨ i = 1 ∨ i = 2 ∨ i = 3 ∨ i = 4 ∨ i = 5 ∨ i = 6 ∨ i = 7) as Hi' by lia.
  destruct_or! Hk'; destruct_or! Hi'; by subst.
Qed.

Lemma index_lookup {E} (b : list Z) i x : 0 ≤ i → b !! Z.to_nat i = Some x → index (E := E) b i = Ok x.
Proof. intros Hi Hx. unfold index. destruct (Z.ltb_spec i 0); [lia|]. by rewrite Hx. Qed.

Lemma or_at_spec i x bits : 0 ≤ i < strlen bits →
  ∃ bits', or_at i x bits = Ok bits' ∧ length bits' = length bits ∧
    ∀ p, 0 ≤ p → bit_at bits' p = bit_at bits p || ((p / 8 =? i) && Z.testbit x (7 - p mod 8)).
Proof.
  intros Hi. destruct (lookup_lt_is_Some_2 bits (Z.to_nat i)) as [b Hb]; [lia|].
  unfold or_at. rewrite (index_lookup bits i b) by (done || lia). rewrite bind_Ok.
  eexists. split; [done|]. split; [by rewrite length_insert|]. intros p Hp. unfold bit_at. assert (0 ≤ p / 8) by (apply Z.div_pos; lia).
  destruct (Z.eqb_spec (p / 8) i) as [->|Hne]; cbn [andb].
  - rewrite list_lookup_insert_eq by lia. rewrite Hb. cbn. apply Z.lor_spec.
  - rewrite list_lookup_insert_ne by lia. by rewrite orb_false_r.
Qed.

(** [p] is in the [n] bits from [pos] on. *)
Definition in_range (pos n p : Z) : bool := (pos <=? p) && (p <? pos + n).

Lemma bits_set_spec pos bits : 0 ≤ pos → pos / 8 < strlen bits →
  ∃ bits', bits_set pos bits = Ok bits' ∧ length bits' = length bits ∧
    ∀ p, 0 ≤ p → bit_at bits' p = bit_at bits p || in_range pos 1 p.
Proof.
  intros H0 Hl. unfold bits_set. destruct (or_at_spec (pos / 8) (Z.shiftr 0x80 (pos mod 8)) bits) as (bits' & -> & Hlen & Hb);
    [split; [apply Z.div_pos|]; lia|]. exists bits'. split_and!; [done|done|]. intros p Hp. rewrite Hb by done. f_equal.
  rewrite single_bit by apply mod8. unfold in_range.
  pose proof (Z.div_mod p 8 ltac:(lia)). pose proof (Z.div_mod pos 8 ltac:(lia)). pose proof (mod8 p). pose proof (mod8 pos).
  destruct (Z.eqb_spec (p / 8) (pos / 8)), (Z.eqb_spec (p mod 8) (pos mod 8)), (Z.leb_spec pos p), (Z.ltb_spec p (pos + 1)); cbn; lia.
Qed.

Lemma bits_set8_spec pos bits : 0 ≤ pos → pos / 8 + 1 < strlen bits →
  ∃ bits', bits_set8 pos bits = Ok bits' ∧ length bits' = length bits ∧
    ∀ p, 0 ≤ p → bit_at bits' p = bit_at bits p || in_range pos 8 p.
Proof.
  intros H0 Hl. unfold bits_set8. assert (0 ≤ pos / 8) by (apply Z.div_pos; lia).
  destruct (or_at_spec (pos / 8) (Z.shiftr 0xff (pos mod 8)) bits) as (b1 & -> & Hlen1 & Hb1); [lia|]. rewrite bind_Ok.
  destruct (or_at_spec (pos / 8 + 1) (0xff - Z.shiftr 0xff (pos mod 8)) b1) as (b2 & -> & Hlen2 & Hb2); [lia|].
  exists b2. split_and!; [done|congruence|]. intros p Hp. rewrite Hb2, Hb1 by done. rewrite <- orb_assoc. f_equal.
  rewrite low_bits, high_bits by apply mod8. unfold in_range.
  pose proof (Z.div_mod p 8 ltac:(lia)). pose proof (Z.div_mod pos 8 ltac:(lia)). pose proof (mod8 p). pose proof (mod8 pos).
  destruct (Z.eqb_spec (p / 8) (pos / 8)), (Z.eqb_spec (p / 8) (pos / 8 + 1)), (Z.leb_spec (pos mod 8) (p mod 8)),
    (Z.ltb_spec (p mod 8) (pos mod 8)), (Z.leb_spec pos p), (Z.ltb_spec p (pos + 8)); cbn; lia.
Qed.

Lemma in_range_app pos n k p : 0 ≤ n → 0 ≤ k → in_range pos n p || in_range (pos + n) k p = in_range pos (n + k) p.
Proof.
  intros. unfold in_range. destruct (Z.leb_spec pos p), (Z.ltb_spec p (pos + n)), (Z.leb_spec (pos + n) p), (Z.ltb_spec p (pos + n + k)),
    (Z.ltb_spec p (pos + (n + k))); cbn; lia.
Qed.

Lemma in_range_nil pos p : in_range pos 0 p = false.
Proof. unfold in_range. destruct (Z.leb_spec pos p), (Z.ltb_spec p (pos + 0)); cbn; lia. Qed.

Lemma set8_loop_spec : ∀ fuel n pos bits, 0 ≤ n < 8 * Z.of_nat fuel + 8 → 0 ≤ pos → (pos + n) / 8 < strlen bits →
  ∃ bits', set8_loop fuel n pos bits = Ok (n mod 8, pos + (n - n mod 8), bits') ∧ length bits' = length bits ∧
    ∀ p, 0 ≤ p → bit_at bits' p = bit_at bits p || in_range pos (n - n mod 8) p.
Proof.
  induction fuel as [|fuel IH]; intros n pos bits Hn Hp Hl; cbn [set8_loop]; destruct (Z.leb_spec 8 n); try lia.
  1,3: rewrite (Z.mod_small n 8) by lia; exists bits; rewrite Z.sub_diag, Z.add_0_r; split_and!; [done|done|];
    intros p _; by rewrite in_range_nil, orb_false_r.
  destruct (bits_set8_spec pos bits) as (b1 & -> & Hlen1 & Hb1); [done| |].
  { assert ((pos + 8) / 8 ≤ (pos + n) / 8) by (apply Z.div_le_mono; lia). replace ((pos + 8) / 8) with (pos / 8 + 1) in * by
      (rewrite <- (Z.div_add pos 1 8) by lia; f_equal; lia). lia. }
  rewrite bind_Ok. destruct (IH (n - 8) (pos + 8) b1) as (b2 & -> & Hlen2 & Hb2); [lia|lia|rewrite Hlen1; by replace (pos + 8 + (n - 8)) with (pos + n) by lia|].
  assert ((n - 8) mod 8 = n mod 8) as Hm by (rewrite <- (Z.mod_add (n - 8) 1 8) by lia; f_equal; lia). rewrite Hm in *.
  exists b2. split_and!; [do 3 f_equal; lia|congruence|]. intros p Hp'. rewrite Hb2, Hb1, <- orb_assoc by done. f_equal.
  pose proof (Z.div_mod n 8 ltac:(lia)). pose proof (mod8 n). assert (1 ≤ n / 8) by (apply Z.div_le_lower_bound; lia).
  rewrite in_range_app by lia. f_equal. lia.
Qed.

Lemma set_loop_spec : ∀ fuel n pos bits, 0 ≤ n ≤ Z.of_nat fuel → 0 ≤ pos → (pos + n) / 8 < strlen bits →
  ∃ bits', set_loop fuel n pos bits = Ok (pos + n, bits') ∧ length bits' = length bits ∧
    ∀ p, 0 ≤ p → bit_at bits' p = bit_at bits p || in_range pos n p.
Proof.
  induction fuel as [|fuel IH]; intros n pos bits Hn Hp Hl; cbn [set_loop]; destruct (Z.ltb_spec 0 n); try lia.
  1,3: assert (n = 0) as -> by lia; exists bits; rewrite Z.add_0_r; split_and!; [done|done|]; intros p _; by rewrite in_range_nil, orb_false_r.
  assert (pos / 8 ≤ (pos + n) / 8) by (apply Z.div_le_mono; lia).
  destruct (bits_set_spec pos bits) as (b1 & -> & Hlen1 & Hb1); [lia|lia|]. rewrite bind_Ok.
  destruct (IH (n - 1) (pos + 1) b1) as (b2 & -> & Hlen2 & Hb2); [lia|lia|rewrite Hlen1; by replace (pos + 1 + (n - 1)) with (pos + n) by lia|].
  exists b2. split_and!; [do 2 f_equal; lia|congruence|]. intros p Hp'. rewrite Hb2, Hb1, <- orb_assoc by done. f_equal.
  rewrite in_range_app by lia. f_equal. lia.
Qed.

(** ** The whole map *)

(** The bits before [pc] mark what is not the start of an instruction. *)
Record marked (code : list Z) (pc : Z) (bits : bitvec) : Prop := {
  mk_start : instruction_at code pc;
  mk_length : Z.of_nat (length bits) = strlen code / 8 + 5;
  mk_before : ∀ p, 0 ≤ p < pc → bit_at bits p = false ↔ instruction_at code p;
  mk_after : ∀ p, pc ≤ p → bit_at bits p = false
}.

Lemma marked_next code pc op bits bits' : marked code pc bits → code !! Z.to_nat pc = Some op → length bits' = length bits →
  (∀ p, 0 ≤ p → bit_at bits' p = bit_at bits p || in_range (pc + 1) (push_data op) p) →
  marked code (pc + 1 + push_data op) bits'.
Proof.
  intros [Hs Hl Hb Ha] Hop Hlen Hbits. pose proof (instruction_at_nonneg _ _ Hs). pose proof (push_data_range op).
  split; [by apply start_next|congruence| |].
  - intros p Hp. rewrite Hbits, orb_false_iff by lia. unfold in_range. split.
    + intros [Hb1 Hb2]. destruct (Z.lt_trichotomy p pc) as [Hlt|[->|Hlt]]; [apply Hb; [lia|done]|done|].
      destruct (Z.leb_spec (pc + 1) p), (Z.ltb_spec p (pc + 1 + push_data op)); cbn in Hb2; lia.
    + intros Hp'. destruct (Z.lt_trichotomy p pc) as [Hlt|[->|Hlt]].
      * split; [apply Hb; [lia|done]|]. by destruct (Z.leb_spec (pc + 1) p); [lia|].
      * split; [apply Ha; lia|]. by destruct (Z.leb_spec (pc + 1) pc); [lia|].
      * pose proof (instruction_at_apart code (Z.to_nat (pc + p + 1)) pc p op ltac:(lia) Hs Hp' Hop Hlt). lia.
  - intros p Hp. rewrite Hbits, Ha by lia. unfold in_range. destruct (Z.ltb_spec p (pc + 1 + push_data op)); [lia|]. by rewrite andb_false_r.
Qed.

Lemma push_loops_spec code pc op bits : marked code pc bits → code !! Z.to_nat pc = Some op → pc < strlen code →
  (PUSH1 <=? op) && (op <=? PUSH32) = true →
  ∃ bits', ('(numbits, pc, bits) ← set8_loop 4 (op - PUSH1 + 1) (pc + 1) bits; set_loop 8 numbits pc bits)
      = Ok (pc + 1 + push_data op, bits') ∧ marked code (pc + 1 + push_data op) bits'.
Proof.
  intros Hm Hop Hpc Hpush. pose proof (push_data_range op) as Hr. assert (op - PUSH1 + 1 = push_data op) as -> by (unfold push_data; by rewrite Hpush).
  pose proof (instruction_at_nonneg _ _ (mk_start _ _ _ Hm)). pose proof (mk_length _ _ _ Hm) as Hl. set (n := push_data op) in *.
  assert ((pc + 1 + n) / 8 < strlen bits).
  { rewrite Hl. assert ((pc + 1 + n) / 8 ≤ (strlen code + 4 * 8) / 8) by (apply Z.div_le_mono; lia). rewrite Z.div_add in * by lia. lia. }
  destruct (set8_loop_spec 4 n (pc + 1) bits) as (b1 & -> & Hlen1 & Hb1); [lia|lia|done|]. rewrite bind_Ok. pose proof (mod8 n).
  assert (n mod 8 ≤ n) by (apply Z.mod_le; lia).
  destruct (set_loop_spec 8 (n mod 8) (pc + 1 + (n - n mod 8)) b1) as (b2 & -> & Hlen2 & Hb2);
    [lia|lia|rewrite Hlen1; by replace (pc + 1 + (n - n mod 8) + n mod 8) with (pc + 1 + n) by lia|].
  exists b2. split; [do 2 f_equal; lia|]. eapply marked_next; [done|done|congruence|]. intros p Hp.
  rewrite Hb2, Hb1, <- orb_assoc, in_range_app by lia. f_equal. f_equal. fold n. lia.
Qed.

Lemma codeBitmap_loop_spec code : ∀ fuel pc bits, strlen code - pc ≤ Z.of_nat fuel → marked code pc bits →
  ∃ bits' pc', codeBitmap_loop fuel code pc bits = Ok bits' ∧ strlen code ≤ pc' ∧ marked code pc' bits'.
Proof.
  induction fuel as [|fuel IH]; intros pc bits Hf Hm; cbn [codeBitmap_loop]; destruct (Z.ltb_spec pc (strlen code)); try lia; eauto.
  pose proof (instruction_at_nonneg _ _ (mk_start _ _ _ Hm)). destruct (lookup_lt_is_Some_2 code (Z.to_nat pc)) as [op Hop]; [lia|].
  rewrite (index_lookup code pc op) by done. rewrite bind_Ok. pose proof (push_data_range op).
  destruct ((PUSH1 <=? op) && (op <=? PUSH32)) eqn:Hpush.
  - destruct (push_loops_spec code pc op bits Hm Hop ltac:(done) Hpush) as (b & Hb & Hm').
    destruct (set8_loop _ _ _ _) as [[[n pc1] b1]| |]; cbn in Hb |- *; try done. rewrite Hb. cbn. apply IH; [lia|done].
  - assert (push_data op = 0) as Hd by (unfold push_data; by rewrite Hpush). apply IH; [lia|].
    rewrite <- (Z.add_0_r (pc + 1)), <- Hd. eapply marked_next; [done|done|done|]. intros p _. by rewrite Hd, in_range_nil, orb_false_r.
Qed.

Lemma codeBitmap_marked code : ∃ bits pc, codeBitmap code = Ok bits ∧ strlen code ≤ pc ∧ marked code pc bits.
Proof.
  unfold codeBitmap. apply codeBitmap_loop_spec; [lia|]. split; [constructor| |lia|].
  - rewrite length_replicate, !Nat2Z.inj_add, Nat2Z.inj_div. lia.
  - intros p _. unfold bit_at. assert (default 0 (replicate (length code / 8 + 1 + 4) 0 !! Z.to_nat (p / 8)) = 0) as ->; [|apply Z.testbit_0_l].
    destruct (_ !! _) eqn:E; [|done]. by apply lookup_replicate in E as [-> _].
Qed.

Lemma codeSegment_spec code bits pc p : strlen code ≤ pc → marked code pc bits → 0 ≤ p < strlen code →
  ∃ b, codeSegment p bits = Ok b ∧ (b = true ↔ instruction_at code p).
Proof.
  intros Hpc Hm Hp. assert (0 ≤ p / 8) by (apply Z.div_pos; lia). assert (p / 8 ≤ strlen code / 8) by (apply Z.div_le_mono; lia).
  pose proof (mk_length _ _ _ Hm). destruct (lookup_lt_is_Some_2 bits (Z.to_nat (p / 8))) as [x Hx]; [lia|].
  unfold codeSegment. rewrite (index_lookup bits (p / 8) x) by done. rewrite bind_Ok. eexists. split; [done|].
  rewrite <- (mk_before _ _ _ Hm p) by lia. unfold bit_at. rewrite Hx. change (default 0 (Some x)) with x. pose proof (mod8 p) as H8.
  change 0x80 with (2 ^ 7). rewrite Z.shiftr_div_pow2, <- Z.pow_sub_r by lia. rewrite Z.eqb_eq. split.
  - intros Hz. assert (Z.testbit (Z.land x (2 ^ (7 - p mod 8))) (7 - p mod 8) = false) as Ht by (by rewrite Hz, Z.testbit_0_l).
    rewrite Z.land_spec, Z.pow2_bits_true, andb_true_r in Ht by lia. done.
  - intros Ht. apply Z.bits_inj'. intros n Hn. rewrite Z.land_spec, Z.testbit_0_l, Z.pow2_bits_eqb by lia.
    destruct (Z.eqb_spec (7 - p mod 8) n) as [<-|]; [by rewrite Ht|apply andb_false_r].
Qed.

(** The analysis of a code of any length ends without an index out of
    range, and its map tells the bytes at which an instruction starts from the
    data of the push instructions. *)
Theorem codeBitmap_correct code : ∃ bits, codeBitmap code = Ok bits ∧
  ∀ p, 0 ≤ p < strlen code → ∃ b, codeSegment p bits = Ok b ∧ (b = true ↔ instruction_at code p).
Proof.
  destruct (codeBitmap_marked code) as (bits & pc & E & Hpc & Hm). exists bits. split; [done|]. intros p Hp. by eapply codeSegment_spec.
Qed.
