(* ===== verification/VmExec.v ===== *)
(** * The virtual machine: its state and the computations on it
    (src/kernel/vm/evm.go, interpreter.go: the types [Context], [EVM],
    [Config], [Interpreter])

    What an [EVM] never changes is its environment; what it changes is
    [evmState].  The computations are those of a state monad: [evmM] on the
    state of the [EVM], [exec] on the machine that runs a contract.  An error
    of an instruction keeps the state, since gas and the changes of the state
    are settled by the caller. *)

From S2P Require Import Prelude Types Interfaces Rlp Trie State GoMath Vm.
From stdpp Require Import base tactics option list numbers gmap.
From Stdlib Require Import ZArith Lia.

#[local] Open Scope Z_scope.

(** [Context], the chain configuration and the switches of [Config].  The
    functions [CanTransfer] and [Transfer] of the context are those of
    src/kernel/evm.go, which every caller installs; tracing is left out. *)
Record Env := mkEnv {
  en_GetHash : Z → Hash;
  en_Origin : Address;
  en_GasPrice : Z;
  en_Coinbase : Address;
  en_GasLimit : Z;
  en_BlockNumber : Z;
  en_Time : Z;
  en_Difficulty : Z;
  en_config : ChainConfig;
  en_NoRecursion : bool;
  en_DisableGasMetering : bool;
  en_EnablePreimageRecording : bool
}.

Definition en_Homestead (en : Env) : bool := IsHomestead (en_config en) (Some (en_BlockNumber en)).
Definition en_EIP150 (en : Env) : bool := IsEIP150 (en_config en) (Some (en_BlockNumber en)).
Definition en_EIP158 (en : Env) : bool := IsEIP158 (en_config en) (Some (en_BlockNumber en)).
Definition en_Byzantium (en : Env) : bool := IsByzantium (en_config en) (Some (en_BlockNumber en)).
Definition en_gasTable (en : Env) : params.GasTable := params.ChainConfig_GasTable (en_config en) (Some (en_BlockNumber en)).

Section Exec.
Context `{HS : StateOps}.

Record evmState := mkEvm {
  e_db : st;
  e_depth : Z;
  e_readOnly : bool;
  e_returnData : list Z;
  e_callGasTemp : Z
}.

Definition set_edb (d : st) (e : evmState) : evmState := mkEvm d (e_depth e) (e_readOnly e) (e_returnData e) (e_callGasTemp e).
Definition set_depth (d : Z) (e : evmState) : evmState := mkEvm (e_db e) d (e_readOnly e) (e_returnData e) (e_callGasTemp e).
Definition set_readOnly (b : bool) (e : evmState) : evmState := mkEvm (e_db e) (e_depth e) b (e_returnData e) (e_callGasTemp e).
Definition set_returnData (r : list Z) (e : evmState) : evmState := mkEvm (e_db e) (e_depth e) (e_readOnly e) r (e_callGasTemp e).
Definition set_callGasTemp (g : Z) (e : evmState) : evmState := mkEvm (e_db e) (e_depth e) (e_readOnly e) (e_returnData e) g.

(** [NewEVM] *)
Definition NewEVM (statedb : st) : evmState := mkEvm statedb 0 false [] 0.

(** ** Computations on the state of the machine *)

Definition evmM (A : Type) : Type := evmState → vmres (evmState * A).

#[export] Instance evmM_mret : MRet evmM := fun A a e => Ok (e, a).
#[export] Instance evmM_mbind : MBind evmM := fun A B f m e => '(e, a) ← m e; f a e.

Definition e_lift {A} (r : vmres A) : evmM A := fun e => a ← r; Ok (e, a).
Definition e_gets {A} (f : evmState → A) : evmM A := fun e => Ok (e, f e).
Definition e_modify (f : evmState → evmState) : evmM unit := fun e => Ok (f e, tt).
Definition db_do (f : st → pan st) : evmM unit := fun e => d ← from_pan (f (e_db e)); Ok (set_edb d e, tt).
Definition db_read {A} (f : st → pan (st * A)) : evmM A := fun e => '(d, a) ← from_pan (f (e_db e)); Ok (set_edb d e, a).

(** ** The machine that runs a contract *)

Record machine := mkMachine {
  x_evm : evmState;
  x_contract : Contract;
  x_mem : Memory;
  x_stack : Stack;
  x_pc : Z
}.

Definition set_xevm (e : evmState) (m : machine) : machine := mkMachine e (x_contract m) (x_mem m) (x_stack m) (x_pc m).
Definition set_xcontract (c : Contract) (m : machine) : machine := mkMachine (x_evm m) c (x_mem m) (x_stack m) (x_pc m).
Definition set_xmem (x : Memory) (m : machine) : machine := mkMachine (x_evm m) (x_contract m) x (x_stack m) (x_pc m).
Definition set_xstack (x : Stack) (m : machine) : machine := mkMachine (x_evm m) (x_contract m) (x_mem m) x (x_pc m).
Definition set_xpc (x : Z) (m : machine) : machine := mkMachine (x_evm m) (x_contract m) (x_mem m) (x_stack m) x.

Definition exec (A : Type) : Type := machine → vmres (machine * (A + vmError)).

#[export] Instance exec_mret : MRet exec := fun A a m => Ok (m, inl a).
#[export] Instance exec_mbind : MBind exec := fun A B f x m =>
  '(m, r) ← x m;
  match r with inl a => f a m | inr e => Ok (m, inr e) end.

Definition throw {A} (e : vmError) : exec A := fun m => Ok (m, inr e).
Definition x_lift {A} (r : vmres A) : exec A := fun m => a ← r; Ok (m, inl a).
Definition x_gets {A} (f : machine → A) : exec A := fun m => Ok (m, inl (f m)).
Definition on_evm {A} (f : evmM A) : exec A := fun m => '(e, a) ← f (x_evm m); Ok (set_xevm e m, inl a).

(** [if b { return 0, e }] *)
Definition throw_if (b : bool) (e : vmError) : exec unit := if b then throw e else mret tt.
Definition x_sum {A} (r : A + vmError) : exec A := match r with inl a => mret a | inr e => throw e end.

(** The stack; [pop] of an empty one is an index out of range. *)
Definition pop : exec Z := fun m => match x_stack m with [] => Panic | x :: s => Ok (set_xstack s m, inl x) end.
Definition push (x : Z) : exec unit := fun m => Ok (set_xstack (x :: x_stack m) m, inl tt).
Definition peek : exec Z := fun m => x ← deref (x_stack m !! 0%nat); Ok (m, inl x).
Definition Back (n : nat) : exec Z := fun m => x ← deref (x_stack m !! n); Ok (m, inl x).
Definition on_stack (f : Stack → vmres Stack) : exec unit := fun m => s ← f (x_stack m); Ok (set_xstack s m, inl tt).

Definition on_mem (f : Memory → vmres Memory) : exec unit := fun m => x ← f (x_mem m); Ok (set_xmem x m, inl tt).
Definition get_mem {A} (f : Memory → vmres A) : exec A := fun m => a ← f (x_mem m); Ok (m, inl a).

Definition set_pc (pc : Z) : exec unit := fun m => Ok (set_xpc pc m, inl tt).
Definition modify_contract (f : Contract → Contract) : exec unit := fun m => Ok (set_xcontract (f (x_contract m)) m, inl tt).

(** [contract.UseGas] *)
Definition use_gas (gas : Z) : exec bool := fun m =>
  let '(c, ok) := UseGas gas (x_contract m) in Ok (set_xcontract c m, inl ok).

Definition x_do (f : st → pan st) : exec unit := on_evm (db_do f).
Definition x_read {A} (f : st → pan (st * A)) : exec A := on_evm (db_read f).

(** [contract.jumpdests.has] *)
Definition jump_has (dest : Z) : exec bool := fun m =>
  let c := x_contract m in
  '(d, b) ← has (c_CodeHash c) (c_Code c) dest (c_jumpdests c);
  Ok (set_xcontract (set_jumpdests d c) m, inl b).

End Exec.
