(* ===== verification/VmPrecompiled.v ===== *)
(** * Precompiled contracts (src/kernel/vm/contracts.go)

    The hash functions, the recovery of signers, the identity, modular
    exponentiation, and the wrappers of the curve operations.  SHA-256 is that
    of the Go library; the recovery of public keys, RIPEMD-160 and the pairing
    library are parameters. *)

From S2P Require Import Prelude Types Interfaces Rlp Trie Sha3 State GoMath Vm VmExec.
From stdpp Require Import base tactics option list numbers gmap.
From Stdlib Require Import ZArith Lia Zpow_facts.

#[local] Open Scope Z_scope.

(** ** SHA-256 (crypto/sha256) *)

Module sha256.

Definition w32 (x : Z) : Z := Z.land x 0xffffffff.
Definition rotr (x n : Z) : Z := Z.lor (Z.shiftr x n) (w32 (Z.shiftl x (32 - n))).

(** The constants are the first 32 bits of the fractional parts of roots of the
    first primes: cube roots of 64 primes, square roots of 8. *)
Definition primes : list Z :=
  List.filter (fun n => forallb (fun d => negb (n mod d =? 0)) (seqZ 2 (n - 2))) (seqZ 2 310).
Definition root (k n : Z) : Z :=
  foldl (fun r i => if (r + 2 ^ i) ^ k <=? n then r + 2 ^ i else r) 0 (rev (seqZ 0 40)).
Definition fraction (k p : Z) : Z := w32 (root k (p * 2 ^ (32 * k))).

Definition K : list Z := Eval vm_compute in fraction 3 <$> primes.
Definition H0 : list Z := Eval vm_compute in fraction 2 <$> take 8 primes.

(** The message schedule, newest word first. *)
Fixpoint schedule (n : nat) (w : list Z) : list Z :=
  match n with
  | O => w
  | S n =>
      let at_ i := nth i w 0 in
      let s1 := let x := at_ 1%nat in Z.lxor (Z.lxor (rotr x 17) (rotr x 19)) (Z.shiftr x 10) in
      let s0 := let x := at_ 14%nat in Z.lxor (Z.lxor (rotr x 7) (rotr x 18)) (Z.shiftr x 3) in
      schedule n (w32 (s1 + at_ 6%nat + s0 + at_ 15%nat) :: w)
  end.

Definition round (st : list Z) (kw : Z * Z) : list Z :=
  match st with
  | [a; b; c; d; e; f; g; h] =>
      let t1 := h + Z.lxor (Z.lxor (rotr e 6) (rotr e 11)) (rotr e 25) + Z.lxor (Z.land e f) (Z.land (Z.lxor e 0xffffffff) g) + kw.1 + kw.2 in
      let t2 := Z.lxor (Z.lxor (rotr a 2) (rotr a 13)) (rotr a 22) + Z.lxor (Z.lxor (Z.land a b) (Z.land a c)) (Z.land b c) in
      [w32 (t1 + t2); a; b; c; w32 (d + t1); e; f; g]
  | _ => st
  end.

Fixpoint words32 (fuel : nat) (b : list Z) : list Z :=
  match fuel with O => [] | S fuel => be_val (take 4 b) :: words32 fuel (drop 4 b) end.

Definition block (h : list Z) (b : list Z) : list Z :=
  zip_with (fun x y => w32 (x + y)) h (foldl round h (zip K (rev (schedule 48 (rev (words32 16 b)))))).

Fixpoint blocks (fuel : nat) (h b : list Z) : list Z :=
  match fuel with O => h | S fuel => blocks fuel (block h (take 64 b)) (drop 64 b) end.

Definition padded (b : list Z) : list Z :=
  b ++ 0x80 :: replicate (Z.to_nat ((55 - strlen b) mod 64)) 0 ++ be_bytes 8 (8 * strlen b).

Definition Sum256 (b : list Z) : list Z :=
  let p := padded b in concat (be_bytes 4 <$> blocks (length p / 64) H0 p).

End sha256.

(** The published hash of "abc". *)
Example sha256_abc : be_val (sha256.Sum256 [97; 98; 99]) = 0xba7816bf8f01cfea414140de5dae2223b00361a396177a9cb410ff61f20015ad.
Proof. vm_compute. reflexivity. Qed.

(** ** Parameters *)

Class EvmCrypto := {
  vm_Ecrecover : list Z → list Z → option (list Z);
  Ripemd160 : list Z → list Z;
  G1 : Type;
  G2 : Type;
  G1_Unmarshal : list Z → option G1;
  G1_CurvePoints : G1 → Z * Z;
  G1_Marshal : G1 → list Z;
  G1_Add : G1 → G1 → G1;
  G1_ScalarMult : G1 → Z → G1;
  G2_Unmarshal : list Z → option G2;
  G2_CurvePoints : G2 → (Z * Z) * (Z * Z);
  bn256_P : Z;
  PairingCheck : list G1 → list G2 → bool
}.

(** What the libraries document: results are byte strings of a known length,
    and a public key is not empty. *)
Class EvmCryptoLaws `{EvmCrypto} := {
  vm_Ecrecover_bytes : ∀ h s k, vm_Ecrecover h s = Some k → is_bytes k ∧ k ≠ [];
  Ripemd160_bytes : ∀ b, is_bytes (Ripemd160 b) ∧ length (Ripemd160 b) = 20%nat;
  G1_Marshal_bytes : ∀ p, is_bytes (G1_Marshal p) ∧ length (G1_Marshal p) = 64%nat
}.

Record PrecompiledContract := mkPrecompiled {
  p_RequiredGas : list Z → vmres Z;
  p_Run : list Z → vmres (option (list Z) * option vmError)
}.

Notation pres := (vmres (option (list Z) * option vmError)).

Section Precompiled.
Context `{HK : Keccak, HP : EvmCrypto}.

(** ** Signatures *)

Definition ecrecover_RequiredGas (input : list Z) : vmres Z := Ok params.EcrecoverGas.

Definition ecrecover_Run (input : list Z) : pres :=
  let input := RightPadBytes input 128 in
  rb ← slice input 64 96;
  sb ← slice input 96 128;
  v0 ← index input 63;
  let v := byte (v0 - 27) in
  zs ← slice input 32 63;
  if negb (allZero zs) || negb (crypto.ValidateSignatureValues v (be_val rb) (be_val sb) false) then Ok (None, None)
  else
    h ← slice input 0 32;
    sig ← slice input 64 128;
    match vm_Ecrecover h (sig ++ [v]) with
    | None => Ok (None, None)
    | Some pubKey =>
        k ← slice pubKey 1 (strlen pubKey);
        a ← slice (Keccak256 k) 12 (strlen (Keccak256 k));
        Ok (Some (LeftPadBytes a 32), None)
    end.

(** The caller's slice after the call: [append(input[64:128], v)] writes into
    it when it is longer than 128 bytes, since the padding is then no copy. *)
Definition ecrecover_input (input : list Z) : vmres (list Z) :=
  let padded := RightPadBytes input 128 in
  rb ← slice padded 64 96;
  sb ← slice padded 96 128;
  v0 ← index padded 63;
  let v := byte (v0 - 27) in
  zs ← slice padded 32 63;
  if negb (allZero zs) || negb (crypto.ValidateSignatureValues v (be_val rb) (be_val sb) false) then Ok input
  else Ok (if 128 <? strlen input then <[128%nat := v]> input else input).

(** ** Hashes and the identity *)

Definition words_gas (input : list Z) (perWord base : Z) : Z := ((u64 (strlen input + 31) / 32 * perWord)%u64 + base)%u64.

Definition sha256hash_RequiredGas (input : list Z) : vmres Z := Ok (words_gas input params.Sha256PerWordGas params.Sha256BaseGas).
Definition sha256hash_Run (input : list Z) : pres := Ok (Some (sha256.Sum256 input), None).

Definition ripemd160hash_RequiredGas (input : list Z) : vmres Z := Ok (words_gas input params.Ripemd160PerWordGas params.Ripemd160BaseGas).
Definition ripemd160hash_Run (input : list Z) : pres := Ok (Some (LeftPadBytes (Ripemd160 input) 32), None).

Definition dataCopy_RequiredGas (input : list Z) : vmres Z := Ok (words_gas input params.IdentityPerWordGas params.IdentityBaseGas).
Definition dataCopy_Run (input : list Z) : pres := Ok (Some input, None).

(** ** Modular exponentiation *)

Definition modexp_rest (input : list Z) : list Z := if 96 <? strlen input then drop 96 input else [].

Definition modexp_expHead (input : list Z) (baseLen expLen : Z) : vmres Z :=
  if strlen input <=? baseLen then Ok 0
  else if 32 <? expLen then b ← getData input (big_Uint64 baseLen) 32; Ok (be_val b)
  else b ← getData input (big_Uint64 baseLen) (big_Uint64 expLen); Ok (be_val b).

(** The multiplication complexity of EIP-198. *)
Definition modexp_complexity (x : Z) : Z :=
  if x <=? 64 then x * x
  else if x <=? 1024 then x * x / 4 + (96 * x - 3072)
  else x * x / 16 + (480 * x - 199680).

Definition bigModExp_RequiredGas (input : list Z) : vmres Z :=
  b ← getData input 0 32;
  e ← getData input 32 32;
  m ← getData input 64 32;
  let baseLen := be_val b in
  let expLen := be_val e in
  let modLen := be_val m in
  expHead ← modexp_expHead (modexp_rest input) baseLen expLen;
  let bitlen := big_BitLen expHead in
  let msb := if 0 <? bitlen then bitlen - 1 else 0 in
  let adjExpLen := (if 32 <? expLen then 8 * (expLen - 32) else 0) + msb in
  let gas := modexp_complexity (math.BigMax modLen baseLen) * math.BigMax adjExpLen 1 / params.ModExpQuadCoeffDiv in
  Ok (if 64 <? big_BitLen gas then math.MaxUint64 else big_Uint64 gas).

(** [base.Exp(base, exp, mod)] *)
Definition bigModExp_Run (input : list Z) : pres :=
  b ← getData input 0 32;
  e ← getData input 32 32;
  m ← getData input 64 32;
  let baseLen := big_Uint64 (be_val b) in
  let expLen := big_Uint64 (be_val e) in
  let modLen := big_Uint64 (be_val m) in
  let input := modexp_rest input in
  if (baseLen =? 0) && (modLen =? 0) then Ok (Some [], None)
  else
    base ← getData input 0 baseLen;
    exp ← getData input baseLen expLen;
    md ← getData input (baseLen + expLen)%u64 modLen;
    let md := be_val md in
    if big_BitLen md =? 0 then Ok (Some (LeftPadBytes [] (i64 modLen)), None)
    else Ok (Some (LeftPadBytes (big_Bytes (Zpow_mod (be_val base) (be_val exp) md)) (i64 modLen)), None).

(** ** The curve *)

Definition newCurvePoint (blob : list Z) : G1 + vmError :=
  match G1_Unmarshal blob with
  | None => inr errNotOnCurve
  | Some p =>
      let '(gx, gy) := G1_CurvePoints p in
      if (bn256_P <=? gx) || (bn256_P <=? gy) then inr errInvalidCurvePoint else inl p
  end.

Definition newTwistPoint (blob : list Z) : G2 + vmError :=
  match G2_Unmarshal blob with
  | None => inr errNotOnCurve
  | Some p =>
      let '((xr, xi), (yr, yi)) := G2_CurvePoints p in
      if (bn256_P <=? xr) || (bn256_P <=? xi) || (bn256_P <=? yr) || (bn256_P <=? yi) then inr errInvalidCurvePoint else inl p
  end.

Definition bn256Add_RequiredGas (input : list Z) : vmres Z := Ok params.Bn256AddGas.

Definition bn256Add_Run (input : list Z) : pres :=
  xb ← getData input 0 64;
  match newCurvePoint xb with
  | inr e => Ok (None, Some e)
  | inl x =>
      yb ← getData input 64 64;
      match newCurvePoint yb with
      | inr e => Ok (None, Some e)
      | inl y => Ok (Some (G1_Marshal (G1_Add x y)), None)
      end
  end.

Definition bn256ScalarMul_RequiredGas (input : list Z) : vmres Z := Ok params.Bn256ScalarMulGas.

Definition bn256ScalarMul_Run (input : list Z) : pres :=
  pb ← getData input 0 64;
  match newCurvePoint pb with
  | inr e => Ok (None, Some e)
  | inl p => k ← getData input 64 32; Ok (Some (G1_Marshal (G1_ScalarMult p (be_val k))), None)
  end.

Definition true32Byte : list Z := replicate 31 0 ++ [1].
Definition false32Byte : list Z := replicate 32 0.

Definition bn256Pairing_RequiredGas (input : list Z) : vmres Z :=
  Ok ((params.Bn256PairingBaseGas + (strlen input / 192 * params.Bn256PairingPerPointGas)%u64)%u64).

(** The loop over the points; [input] is what is left of the input. *)
Fixpoint pairing_points (fuel : nat) (input : list Z) (cs : list G1) (ts : list G2) : vmres ((list G1 * list G2) + vmError) :=
  match fuel, input with
  | _, [] => Ok (inl (cs, ts))
  | O, _ => Panic
  | S fuel, _ =>
      cb ← slice input 0 64;
      match newCurvePoint cb with
      | inr e => Ok (inr e)
      | inl c =>
          tb ← slice input 64 192;
          match newTwistPoint tb with
          | inr e => Ok (inr e)
          | inl t => pairing_points fuel (drop 192 input) (cs ++ [c]) (ts ++ [t])
          end
      end
  end.

Definition bn256Pairing_Run (input : list Z) : pres :=
  if 0 <? strlen input mod 192 then Ok (None, Some errBadPairingInput)
  else
    r ← pairing_points (length input) input [] [];
    match r with
    | inr e => Ok (None, Some e)
    | inl (cs, ts) => Ok (Some (if PairingCheck cs ts then true32Byte else false32Byte), None)
    end.

(** ** The tables *)

Definition precompile_address (n : Z) : Address := crypto.BytesToAddress [n].

Definition PrecompiledContractsHomestead (a : Address) : option PrecompiledContract :=
  if decide (a = precompile_address 1) then Some (mkPrecompiled ecrecover_RequiredGas ecrecover_Run)
  else if decide (a = precompile_address 2) then Some (mkPrecompiled sha256hash_RequiredGas sha256hash_Run)
  else if decide (a = precompile_address 3) then Some (mkPrecompiled ripemd160hash_RequiredGas ripemd160hash_Run)
  else if decide (a = precompile_address 4) then Some (mkPrecompiled dataCopy_RequiredGas dataCopy_Run)
  else None.

Definition PrecompiledContractsByzantium (a : Address) : option PrecompiledContract :=
  if decide (a = precompile_address 1) then Some (mkPrecompiled ecrecover_RequiredGas ecrecover_Run)
  else if decide (a = precompile_address 2) then Some (mkPrecompiled sha256hash_RequiredGas sha256hash_Run)
  else if decide (a = precompile_address 3) then Some (mkPrecompiled ripemd160hash_RequiredGas ripemd160hash_Run)
  else if decide (a = precompile_address 4) then Some (mkPrecompiled dataCopy_RequiredGas dataCopy_Run)
  else if decide (a = precompile_address 5) then Some (mkPrecompiled bigModExp_RequiredGas bigModExp_Run)
  else if decide (a = precompile_address 6) then Some (mkPrecompiled bn256Add_RequiredGas bn256Add_Run)
  else if decide (a = precompile_address 7) then Some (mkPrecompiled bn256ScalarMul_RequiredGas bn256ScalarMul_Run)
  else if decide (a = precompile_address 8) then Some (mkPrecompiled bn256Pairing_RequiredGas bn256Pairing_Run)
  else None.

Definition precompiles (en : Env) : Address → option PrecompiledContract :=
  if en_Byzantium en then PrecompiledContractsByzantium else PrecompiledContractsHomestead.

Definition RunPrecompiledContract (p : PrecompiledContract) (input : list Z) (c : Contract)
    : vmres (Contract * option (list Z) * option vmError) :=
  gas ← p_RequiredGas p input;
  let '(c, ok) := UseGas gas c in
  if ok then '(ret, err) ← p_Run p input; Ok (c, ret, err) else Ok (c, None, Some ErrOutOfGas).

End Precompiled.
