(* ===== verification/Evm.v ===== *)
(** * Calls and creations (src/kernel/vm/evm.go, src/kernel/evm.go)

    [Call], [CallCode], [DelegateCall], [StaticCall] and [Create] take a
    snapshot, run the code, and go back to the snapshot on an error.  They take
    the interpreter as an argument, because the interpreter calls them. *)

From S2P Require Import Prelude Types Interfaces Rlp Trie Sha3 State GoMath Vm VmExec VmPrecompiled.
From stdpp Require Import base tactics option list numbers gmap.
From Stdlib Require Import ZArith Lia.

#[local] Open Scope Z_scope.

Section Evm.
Context `{HK : Keccak, HP : EvmCrypto, HS : StateOps} (en : Env).

(** ** Transfers (src/kernel/evm.go) *)

Definition CanTransfer (addr : Address) (amount : Z) : evmM bool :=
  b ← db_read (st_GetBalance addr); mret (amount <=? b).

Definition Transfer (sender recipient : Address) (amount : Z) : evmM unit :=
  db_do (st_SubBalance sender amount);; db_do (st_AddBalance recipient amount).

(** ** Running a contract *)

(** [Interpreter.Run], as the functions of this file use it: the contract
    comes back with the gas left and the jump destinations found. *)
Definition runner : Type := Contract → list Z → evmM (Contract * option (list Z) * option vmError).

Context (interp : runner).

Definition run (contract : Contract) (input : list Z) : evmM (Contract * option (list Z) * option vmError) :=
  match c_CodeAddr contract ≫= precompiles en with
  | Some p => e_lift (RunPrecompiledContract p input contract)
  | None => interp contract input
  end.

(** What a call gives back: the data, the gas left, the error, and the
    analyses that the caller shares. *)
Record callResult := mkResult {
  r_ret : option (list Z);
  r_gas : Z;
  r_err : option vmError;
  r_dests : destinations
}.

Definition early (caller : ContractRef) (gas : Z) (err : option vmError) : evmM callResult :=
  mret (mkResult None gas err (ref_jumpdests caller)).

(** The end of a call: on an error the snapshot is restored, and the gas is
    taken unless the code reverted. *)
Definition settle (snapshot : Z) (r : Contract * option (list Z) * option vmError) : evmM callResult :=
  let '(contract, ret, err) := r in
  match err with
  | None => mret (mkResult ret (c_Gas contract) None (c_jumpdests contract))
  | Some e =>
      db_do (st_RevertToSnapshot snapshot);;
      let contract := if decide (e = errExecutionReverted) then contract else (UseGas (c_Gas contract) contract).1 in
      mret (mkResult ret (c_Gas contract) (Some e) (c_jumpdests contract))
  end.

Definition take_snapshot : evmM Z := fun e => let '(d, id) := st_Snapshot (e_db e) in Ok (set_edb d e, id).

(** [contract.SetCallCode(&addr, StateDB.GetCodeHash(addr), StateDB.GetCode(addr))] *)
Definition load_code (addr : Address) (contract : Contract) : evmM Contract :=
  h ← db_read (st_GetCodeHash addr);
  code ← db_read (st_GetCode addr);
  mret (SetCallCode addr h (default [] code) contract).

Definition Call (caller : ContractRef) (addr : Address) (input : list Z) (gas value : Z) : evmM callResult :=
  depth ← e_gets e_depth;
  if en_NoRecursion en && (0 <? depth) then early caller gas None
  else if params.CallCreateDepth <? depth then early caller gas (Some ErrDepth)
  else
    ok ← CanTransfer (ref_Address caller) value;
    if negb ok then early caller gas (Some ErrInsufficientBalance)
    else
      snapshot ← take_snapshot;
      exists_ ← db_read (st_Exist addr);
      if negb exists_ && bool_decide (precompiles en addr = None) && en_EIP158 en && (value =? 0)
      then early caller gas None
      else
        (if exists_ then mret tt else db_do (st_CreateAccount addr) : evmM unit);;
        Transfer (ref_Address caller) addr value;;
        contract ← load_code addr (NewContract caller addr (Some value) gas);
        r ← run contract input;
        settle snapshot r.

Definition CallCode (caller : ContractRef) (addr : Address) (input : list Z) (gas value : Z) : evmM callResult :=
  depth ← e_gets e_depth;
  if en_NoRecursion en && (0 <? depth) then early caller gas None
  else if params.CallCreateDepth <? depth then early caller gas (Some ErrDepth)
  else
    ok ← CanTransfer (ref_Address caller) value;
    if negb ok then early caller gas (Some ErrInsufficientBalance)
    else
      snapshot ← take_snapshot;
      contract ← load_code addr (NewContract caller (ref_Address caller) (Some value) gas);
      r ← run contract input;
      settle snapshot r.

Definition DelegateCall (caller : ContractRef) (addr : Address) (input : list Z) (gas : Z) : evmM callResult :=
  depth ← e_gets e_depth;
  if en_NoRecursion en && (0 <? depth) then early caller gas None
  else if params.CallCreateDepth <? depth then early caller gas (Some ErrDepth)
  else
    snapshot ← take_snapshot;
    contract ← e_lift (AsDelegate caller (NewContract caller (ref_Address caller) None gas));
    contract ← load_code addr contract;
    r ← run contract input;
    settle snapshot r.

(** The deferred reset of [readOnly] runs only for the call that set it. *)
Definition StaticCall (caller : ContractRef) (addr : Address) (input : list Z) (gas : Z) : evmM callResult :=
  depth ← e_gets e_depth;
  if en_NoRecursion en && (0 <? depth) then early caller gas None
  else if params.CallCreateDepth <? depth then early caller gas (Some ErrDepth)
  else
    readOnly ← e_gets e_readOnly;
    e_modify (set_readOnly true);;
    snapshot ← take_snapshot;
    contract ← load_code addr (NewContract caller addr (Some 0) gas);
    r ← run contract input;
    res ← settle snapshot r;
    e_modify (fun e => if readOnly : bool then e else set_readOnly false e);;
    mret res.

(** [crypto.CreateAddress] over the hash function of the node. *)
Definition createAddress (b : Address) (nonce : Z) : Address :=
  let data := match EncodeToBytes (VSlice [VBytes b; VUint nonce]) with Ok data => data | _ => [] end in
  crypto.BytesToAddress (drop 12 (Keccak256 data)).

Definition emptyCode : Hash := Keccak256 [].

(** The end of [Create], once the initialisation code has run: storing the
    code, and going back on an error.  Before Homestead, running out of gas
    for storing the code is not such an error. *)
Definition finish_create (snapshot : Z) (contractAddr : Address) (r : Contract * option (list Z) * option vmError)
    : evmM (callResult * Address) :=
  let '(contract, ret, err) := r in
  let maxCodeSizeExceeded := en_EIP158 en && (params.MaxCodeSize <? strlen (default [] ret)) in
  '(contract, err) ← (match err with
      | None =>
          if negb maxCodeSizeExceeded then
            let createDataGas := (strlen (default [] ret) * params.CreateDataGas)%u64 in
            let '(contract, ok) := UseGas createDataGas contract in
            if ok then db_do (st_SetCode contractAddr ret);; mret (contract, None)
            else mret (contract, Some ErrCodeStoreOutOfGas)
          else mret (contract, None)
      | Some e => mret (contract, Some e)
      end : evmM (Contract * option vmError));
  let failed := match err with
      | Some e => en_Homestead en || negb (bool_decide (e = ErrCodeStoreOutOfGas))
      | None => false
      end in
  contract ← (if maxCodeSizeExceeded || failed then
      db_do (st_RevertToSnapshot snapshot);;
      mret (if decide (err = Some errExecutionReverted) then contract else (UseGas (c_Gas contract) contract).1)
    else mret contract : evmM Contract);
  let err := match err with None => if maxCodeSizeExceeded then Some errMaxCodeSizeExceeded else None | e => e end in
  mret (mkResult ret (c_Gas contract) err (c_jumpdests contract), contractAddr).

Definition Create (caller : ContractRef) (code : list Z) (gas value : Z) : evmM (callResult * Address) :=
  depth ← e_gets e_depth;
  if params.CallCreateDepth <? depth then r ← early caller gas (Some ErrDepth); mret (r, zeroAddress)
  else
    ok ← CanTransfer (ref_Address caller) value;
    if negb ok then r ← early caller gas (Some ErrInsufficientBalance); mret (r, zeroAddress)
    else
      nonce ← db_read (st_GetNonce (ref_Address caller));
      db_do (st_SetNonce (ref_Address caller) (nonce + 1)%u64);;
      let contractAddr := createAddress (ref_Address caller) nonce in
      contractHash ← db_read (st_GetCodeHash contractAddr);
      n ← db_read (st_GetNonce contractAddr);
      if negb (n =? 0) || (negb (bool_decide (contractHash = zeroHash)) && negb (bool_decide (contractHash = emptyCode)))
      then r ← early caller 0 (Some ErrContractAddressCollision); mret (r, zeroAddress)
      else
        snapshot ← take_snapshot;
        db_do (st_CreateAccount contractAddr);;
        (if en_EIP158 en then db_do (st_SetNonce contractAddr 1) else mret tt : evmM unit);;
        Transfer (ref_Address caller) contractAddr value;;
        let contract := SetCallCode contractAddr (Keccak256 code) code (NewContract caller contractAddr (Some value) gas) in
        if en_NoRecursion en && (0 <? depth) then r ← early caller gas None; mret (r, contractAddr)
        else
          r ← run contract [];
          finish_create snapshot contractAddr r.

End Evm.
