(* ===== verification/VmGas.v ===== *)
(** * The cost of instructions (src/kernel/vm/gas_table.go, memory_table.go)

    A cost function reads the stack and the state, charges for the growth of
    the memory, and fails when the cost does not fit 64 bits. *)

From S2P Require Import Prelude Types Interfaces Rlp Trie State GoMath Vm VmExec.
From stdpp Require Import base tactics option list numbers gmap.
From Stdlib Require Import ZArith Lia.

#[local] Open Scope Z_scope.

Section Gas.
Context `{HS : StateOps} (en : Env).

(** ** Memory *)

(** [memoryGasCost]: the fee for the words beyond those paid for. *)
Definition memoryFee (words : Z) : Z :=
  let square := (words * words)%u64 in
  let linCoef := (words * params.MemoryGas)%u64 in
  let quadCoef := square / params.QuadCoeffDiv in
  (linCoef + quadCoef)%u64.

Definition memoryGasCost (newMemSize : Z) : exec Z := fun m =>
  let mem := x_mem m in
  if newMemSize =? 0 then Ok (m, inl 0)
  else if 0xffffffffe0 <? newMemSize then Ok (m, inr errGasUintOverflow)
  else
    let newMemSizeWords := toWordSize newMemSize in
    let newMemSize := (newMemSizeWords * 32)%u64 in
    if mem_Len mem <? newMemSize then
      let newTotalFee := memoryFee newMemSizeWords in
      let fee := (newTotalFee - m_lastGasCost mem)%u64 in
      Ok (set_xmem (mkMemory (m_store mem) newTotalFee) m, inl fee)
    else Ok (m, inl 0).

(** The checked steps of the cost functions. *)
Definition safe_add (x y : Z) : exec Z :=
  let '(r, overflow) := math.SafeAdd x y in throw_if overflow errGasUintOverflow;; mret r.
Definition safe_mul (x y : Z) : exec Z :=
  let '(r, overflow) := math.SafeMul x y in throw_if overflow errGasUintOverflow;; mret r.
Definition safe_uint64 (v : Z) : exec Z :=
  let '(r, overflow) := bigUint64 v in throw_if overflow errGasUintOverflow;; mret r.

Definition gasFunc : Type := Z → exec Z.

Definition constGasFunc (gas : Z) : gasFunc := fun _ => mret gas.

(** ** Copying *)

Definition gasCallDataCopy : gasFunc := fun memorySize =>
  gas ← memoryGasCost memorySize;
  gas ← safe_add gas GasFastestStep;
  w ← Back 2;
  words ← safe_uint64 w;
  words ← safe_mul (toWordSize words) params.CopyGas;
  safe_add gas words.

Definition gasReturnDataCopy : gasFunc := fun memorySize =>
  gas ← memoryGasCost memorySize;
  gas ← safe_add gas GasFastestStep;
  w ← Back 2;
  words ← safe_uint64 w;
  words ← safe_mul (toWordSize words) params.CopyGas;
  safe_add gas words.

Definition gasCodeCopy : gasFunc := fun memorySize =>
  gas ← memoryGasCost memorySize;
  gas ← safe_add gas GasFastestStep;
  w ← Back 2;
  wordGas ← safe_uint64 w;
  wordGas ← safe_mul (toWordSize wordGas) params.CopyGas;
  safe_add gas wordGas.

Definition gasExtCodeCopy : gasFunc := fun memorySize =>
  gas ← memoryGasCost memorySize;
  gas ← safe_add gas (params.ExtcodeCopy (en_gasTable en));
  w ← Back 3;
  wordGas ← safe_uint64 w;
  wordGas ← safe_mul (toWordSize wordGas) params.CopyGas;
  safe_add gas wordGas.

Definition gasSha3 : gasFunc := fun memorySize =>
  gas ← memoryGasCost memorySize;
  gas ← safe_add gas params.Sha3Gas;
  w ← Back 1;
  wordGas ← safe_uint64 w;
  wordGas ← safe_mul (toWordSize wordGas) params.Sha3WordGas;
  safe_add gas wordGas.

Definition makeGasLog (n : Z) : gasFunc := fun memorySize =>
  w ← Back 1;
  requestedSize ← safe_uint64 w;
  gas ← memoryGasCost memorySize;
  gas ← safe_add gas params.LogGas;
  gas ← safe_add gas (n * params.LogTopicGas)%u64;
  memorySizeGas ← safe_mul requestedSize params.LogDataGas;
  safe_add gas memorySizeGas.

(** ** Memory and storage *)

Definition gasMLoad : gasFunc := fun memorySize => gas ← memoryGasCost memorySize; safe_add gas GasFastestStep.
Definition gasMStore8 : gasFunc := fun memorySize => gas ← memoryGasCost memorySize; safe_add gas GasFastestStep.
Definition gasMStore : gasFunc := fun memorySize => gas ← memoryGasCost memorySize; safe_add gas GasFastestStep.
Definition gasCreate : gasFunc := fun memorySize => gas ← memoryGasCost memorySize; safe_add gas params.CreateGas.
Definition gasReturn : gasFunc := memoryGasCost.
Definition gasRevert : gasFunc := memoryGasCost.

Definition gasSStore : gasFunc := fun memorySize =>
  y ← Back 1;
  x ← Back 0;
  c ← x_gets x_contract;
  val ← x_read (st_GetState (c_self c) (BigToHash x));
  if EmptyHash val && negb (EmptyHash (BigToHash y)) then mret params.SstoreSetGas
  else if negb (EmptyHash val) && EmptyHash (BigToHash y) then
    x_do (st_AddRefund params.SstoreRefundGas);; mret params.SstoreClearGas
  else mret params.SstoreResetGas.

Definition gasBalance : gasFunc := fun _ => mret (params.Balance (en_gasTable en)).
Definition gasExtCodeSize : gasFunc := fun _ => mret (params.ExtcodeSize (en_gasTable en)).
Definition gasSLoad : gasFunc := fun _ => mret (params.SLoad (en_gasTable en)).

Definition gasExp : gasFunc := fun _ =>
  x ← Back 1;
  let expByteLen := (big_BitLen x + 7) / 8 in
  safe_add (expByteLen * params.ExpByte (en_gasTable en))%u64 GasSlowStep.

(** ** Calls *)

(** The gas for the callee, remembered for the instruction. *)
Definition call_gas_temp (gas : Z) : exec Z :=
  w ← Back 0;
  c ← x_gets x_contract;
  g ← x_sum (callGas (en_gasTable en) (c_Gas c) gas w);
  on_evm (e_modify (set_callGasTemp g));;
  safe_add gas g.

Definition gasCall : gasFunc := fun memorySize =>
  v ← Back 2;
  a ← Back 1;
  let transfersValue := negb (v =? 0) in
  let address := BigToAddress a in
  extra ← (if en_EIP158 en then
             if transfersValue then
               empty ← x_read (st_Empty address);
               mret (if empty : bool then params.CallNewAccountGas else 0)
             else mret 0
           else
             exists_ ← x_read (st_Exist address);
             mret (if exists_ : bool then 0 else params.CallNewAccountGas) : exec Z);
  let gas := (params.Calls (en_gasTable en) + extra)%u64 in
  let gas := if transfersValue then (gas + params.CallValueTransferGas)%u64 else gas in
  memoryGas ← memoryGasCost memorySize;
  gas ← safe_add gas memoryGas;
  call_gas_temp gas.

Definition gasCallCode : gasFunc := fun memorySize =>
  v ← Back 2;
  let gas := params.Calls (en_gasTable en) in
  let gas := if negb (v =? 0) then (gas + params.CallValueTransferGas)%u64 else gas in
  memoryGas ← memoryGasCost memorySize;
  gas ← safe_add gas memoryGas;
  call_gas_temp gas.

Definition gasDelegateCall : gasFunc := fun memorySize =>
  gas ← memoryGasCost memorySize;
  gas ← safe_add gas (params.Calls (en_gasTable en));
  call_gas_temp gas.

Definition gasStaticCall : gasFunc := fun memorySize =>
  gas ← memoryGasCost memorySize;
  gas ← safe_add gas (params.Calls (en_gasTable en));
  call_gas_temp gas.

Definition gasSuicide : gasFunc := fun memorySize =>
  c ← x_gets x_contract;
  gas ← (if en_EIP150 en then
           a ← Back 0;
           let address := BigToAddress a in
           let gas := params.Suicide (en_gasTable en) in
           if en_EIP158 en then
             empty ← x_read (st_Empty address);
             if empty : bool then
               b ← x_read (st_GetBalance (c_self c));
               mret (if b =? 0 then gas else (gas + params.CreateBySuicide (en_gasTable en))%u64)
             else mret gas
           else
             exists_ ← x_read (st_Exist address);
             mret (if exists_ : bool then gas else (gas + params.CreateBySuicide (en_gasTable en))%u64)
         else mret 0 : exec Z);
  gone ← x_read (st_HasSuicided (c_self c));
  (if gone : bool then mret tt else x_do (st_AddRefund params.SuicideRefundGas) : exec unit);;
  mret gas.

Definition gasPush : gasFunc := fun _ => mret GasFastestStep.
Definition gasSwap : gasFunc := fun _ => mret GasFastestStep.
Definition gasDup : gasFunc := fun _ => mret GasFastestStep.

(** ** The memory that an instruction needs (memory_table.go) *)

Definition at_back (s : Stack) (n : nat) : vmres Z := deref (s !! n).

(** [calcMemSize(stack.Back(i), stack.Back(j))] *)
Definition mem_range (i j : nat) (s : Stack) : vmres Z := off ← at_back s i; l ← at_back s j; Ok (calcMemSize off l).

Definition memorySha3 : Stack → vmres Z := mem_range 0 1.
Definition memoryCallDataCopy : Stack → vmres Z := mem_range 0 2.
Definition memoryReturnDataCopy : Stack → vmres Z := mem_range 0 2.
Definition memoryCodeCopy : Stack → vmres Z := mem_range 0 2.
Definition memoryExtCodeCopy : Stack → vmres Z := mem_range 1 3.
Definition memoryMLoad (s : Stack) : vmres Z := off ← at_back s 0; Ok (calcMemSize off 32).
Definition memoryMStore8 (s : Stack) : vmres Z := off ← at_back s 0; Ok (calcMemSize off 1).
Definition memoryMStore (s : Stack) : vmres Z := off ← at_back s 0; Ok (calcMemSize off 32).
Definition memoryCreate : Stack → vmres Z := mem_range 1 2.
Definition memoryCall (s : Stack) : vmres Z := x ← mem_range 5 6 s; y ← mem_range 3 4 s; Ok (math.BigMax x y).
Definition memoryCallCode (s : Stack) : vmres Z := x ← mem_range 5 6 s; y ← mem_range 3 4 s; Ok (math.BigMax x y).
Definition memoryDelegateCall (s : Stack) : vmres Z := x ← mem_range 4 5 s; y ← mem_range 2 3 s; Ok (math.BigMax x y).
Definition memoryStaticCall (s : Stack) : vmres Z := x ← mem_range 4 5 s; y ← mem_range 2 3 s; Ok (math.BigMax x y).
Definition memoryReturn : Stack → vmres Z := mem_range 0 1.
Definition memoryRevert : Stack → vmres Z := mem_range 0 1.
Definition memoryLog : Stack → vmres Z := mem_range 0 1.

End Gas.
