(* ===== verification/VmInstr.v ===== *)
(** * The instructions (src/kernel/vm/instructions.go)

    Every instruction takes its operands from the stack and pushes its result.
    The result is the data that the instruction returns, if any. *)

From S2P Require Import Prelude Types Interfaces Rlp Trie State GoMath Vm VmExec VmPrecompiled Evm.
From stdpp Require Import base tactics option list numbers gmap.
From Stdlib Require Import ZArith Lia.

#[local] Open Scope Z_scope.

Section Instr.
Context `{HK : Keccak, HP : EvmCrypto, HS : StateOps} (en : Env).

Notation result := (option (list Z)).
Definition executionFunc : Type := exec (option (list Z)).

Definition nil_result : executionFunc := mret None.

(** ** Arithmetic *)

Definition opAdd : executionFunc := x ← pop; y ← pop; push (math.U256 (x + y));; nil_result.
Definition opSub : executionFunc := x ← pop; y ← pop; push (math.U256 (x - y));; nil_result.
Definition opMul : executionFunc := x ← pop; y ← pop; push (math.U256 (x * y));; nil_result.

(** [big.Int.Div] and [Mod] are Euclidean; [y] is not zero. *)
Definition opDiv : executionFunc := x ← pop; y ← pop; push (if y =? 0 then 0 else math.U256 (x / y));; nil_result.

Definition opSdiv : executionFunc :=
  x ← pop; y ← pop;
  let x := math.S256 x in
  let y := math.S256 y in
  (if y =? 0 then push 0
   else
     let n := if x * y <? 0 then -1 else 1 in
     push (math.U256 (Z.abs x / Z.abs y * n)));;
  nil_result.

Definition opMod : executionFunc := x ← pop; y ← pop; push (if y =? 0 then 0 else math.U256 (x mod y));; nil_result.

Definition opSmod : executionFunc :=
  x ← pop; y ← pop;
  let x := math.S256 x in
  let y := math.S256 y in
  (if y =? 0 then push 0
   else
     let n := if x <? 0 then -1 else 1 in
     push (math.U256 (Z.abs x mod Z.abs y * n)));;
  nil_result.

Definition opExp : executionFunc := base ← pop; exponent ← pop; push (math.Exp base exponent);; nil_result.

(** For 31 or more the operand is dropped and the number stays. *)
Definition opSignExtend : executionFunc :=
  back ← pop;
  (if back <? 31 then
     let bit := big_Uint64 back * 8 + 7 in
     num ← pop;
     let mask := Z.shiftl 1 bit - 1 in
     let num := if Z.testbit num bit then Z.lor num (Z.lnot mask) else Z.land num mask in
     push (math.U256 num)
   else mret tt : exec unit);;
  nil_result.

Definition opNot : executionFunc := x ← pop; push (math.U256 (Z.lnot x));; nil_result.

Definition bool_word (b : bool) : Z := if b then 1 else 0.

Definition opLt : executionFunc := x ← pop; y ← pop; push (bool_word (x <? y));; nil_result.
Definition opGt : executionFunc := x ← pop; y ← pop; push (bool_word (y <? x));; nil_result.
Definition opSlt : executionFunc := x ← pop; y ← pop; push (bool_word (math.S256 x <? math.S256 (math.S256 y)));; nil_result.
Definition opSgt : executionFunc := x ← pop; y ← pop; push (bool_word (math.S256 y <? math.S256 x));; nil_result.
Definition opEq : executionFunc := x ← pop; y ← pop; push (bool_word (x =? y));; nil_result.
Definition opIszero : executionFunc := x ← pop; push (bool_word (negb (0 <? x)));; nil_result.
Definition opAnd : executionFunc := x ← pop; y ← pop; push (Z.land x y);; nil_result.
Definition opOr : executionFunc := x ← pop; y ← pop; push (Z.lor x y);; nil_result.
Definition opXor : executionFunc := x ← pop; y ← pop; push (Z.lxor x y);; nil_result.

Definition opByte : executionFunc :=
  th ← pop; val ← pop;
  push (if th <? 32 then math.Byte val 32 (Z.to_nat (big_Int64 th)) else 0);;
  nil_result.

Definition opAddmod : executionFunc :=
  x ← pop; y ← pop; z ← pop; push (if 0 <? z then math.U256 ((x + y) mod z) else 0);; nil_result.
Definition opMulmod : executionFunc :=
  x ← pop; y ← pop; z ← pop; push (if 0 <? z then math.U256 (x * y mod z) else 0);; nil_result.

Definition opSha3 : executionFunc :=
  offset ← pop; size ← pop;
  data ← get_mem (mem_Get (big_Int64 offset) (big_Int64 size));
  let data := default [] data in
  let hash := Keccak256 data in
  (if en_EnablePreimageRecording en then x_do (st_AddPreimage (BytesToHash hash) data) else mret tt : exec unit);;
  push (be_val hash);;
  nil_result.

(** ** The environment *)

Definition opAddress : executionFunc := c ← x_gets x_contract; push (Address_Big (c_self c));; nil_result.

Definition opBalance : executionFunc :=
  a ← pop; b ← x_read (st_GetBalance (BigToAddress a)); push b;; nil_result.

Definition opOrigin : executionFunc := push (Address_Big (en_Origin en));; nil_result.
Definition opCaller : executionFunc := c ← x_gets x_contract; push (Address_Big (c_CallerAddress c));; nil_result.
Definition opCallValue : executionFunc := c ← x_gets x_contract; v ← x_lift (deref (c_value c)); push v;; nil_result.

Definition opCallDataLoad : executionFunc :=
  c ← x_gets x_contract; off ← pop; b ← x_lift (getDataBig (c_Input c) off 32); push (be_val b);; nil_result.
Definition opCallDataSize : executionFunc := c ← x_gets x_contract; push (strlen (c_Input c));; nil_result.

Definition opCallDataCopy : executionFunc :=
  memOffset ← pop; dataOffset ← pop; length ← pop;
  c ← x_gets x_contract;
  b ← x_lift (getDataBig (c_Input c) dataOffset length);
  on_mem (mem_Set (big_Uint64 memOffset) (big_Uint64 length) b);;
  nil_result.

Definition opReturnDataSize : executionFunc := r ← x_gets (fun m => e_returnData (x_evm m)); push (strlen r);; nil_result.

Definition opReturnDataCopy : executionFunc :=
  memOffset ← pop; dataOffset ← pop; length ← pop;
  r ← x_gets (fun m => e_returnData (x_evm m));
  let e := dataOffset + length in
  throw_if ((64 <? big_BitLen e) || (strlen r <? big_Uint64 e)) errReturnDataOutOfBounds;;
  b ← x_lift (slice r (big_Uint64 dataOffset) (big_Uint64 e));
  on_mem (mem_Set (big_Uint64 memOffset) (big_Uint64 length) b);;
  nil_result.

Definition opExtCodeSize : executionFunc :=
  a ← pop; n ← x_read (st_GetCodeSize (BigToAddress a)); push n;; nil_result.
Definition opCodeSize : executionFunc := c ← x_gets x_contract; push (strlen (c_Code c));; nil_result.

Definition opCodeCopy : executionFunc :=
  memOffset ← pop; codeOffset ← pop; length ← pop;
  c ← x_gets x_contract;
  b ← x_lift (getDataBig (c_Code c) codeOffset length);
  on_mem (mem_Set (big_Uint64 memOffset) (big_Uint64 length) b);;
  nil_result.

Definition opExtCodeCopy : executionFunc :=
  a ← pop; memOffset ← pop; codeOffset ← pop; length ← pop;
  code ← x_read (st_GetCode (BigToAddress a));
  b ← x_lift (getDataBig (default [] code) codeOffset length);
  on_mem (mem_Set (big_Uint64 memOffset) (big_Uint64 length) b);;
  nil_result.

Definition opGasprice : executionFunc := push (en_GasPrice en);; nil_result.

Definition opBlockhash : executionFunc :=
  num ← pop;
  push (if (en_BlockNumber en - 257 <? num) && (num <? en_BlockNumber en) then Hash_Big (en_GetHash en (big_Uint64 num)) else 0);;
  nil_result.

Definition opCoinbase : executionFunc := push (Address_Big (en_Coinbase en));; nil_result.
Definition opTimestamp : executionFunc := push (math.U256 (en_Time en));; nil_result.
Definition opNumber : executionFunc := push (math.U256 (en_BlockNumber en));; nil_result.
Definition opDifficulty : executionFunc := push (math.U256 (en_Difficulty en));; nil_result.
Definition opGasLimit : executionFunc := push (math.U256 (en_GasLimit en));; nil_result.

(** ** Stack, memory, storage and flow *)

Definition opPop : executionFunc := _ ← pop; nil_result.

Definition opMload : executionFunc :=
  offset ← pop; b ← get_mem (mem_Get (big_Int64 offset) 32); push (be_val (default [] b));; nil_result.

Definition opMstore : executionFunc :=
  mStart ← pop; val ← pop; on_mem (mem_Set (big_Uint64 mStart) 32 (math.PaddedBigBytes val 32));; nil_result.

(** [memory.store[off] = byte(val & 0xff)] *)
Definition mem_store8 (off : Z) (b : Z) (m : Memory) : vmres Memory :=
  _ ← index (m_store m) off; Ok (mkMemory (<[Z.to_nat off := b]> (m_store m)) (m_lastGasCost m)).

Definition opMstore8 : executionFunc :=
  off ← pop; val ← pop; on_mem (mem_store8 (big_Int64 off) (Z.land (big_Int64 val) 0xff));; nil_result.

Definition opSload : executionFunc :=
  l ← pop; c ← x_gets x_contract; v ← x_read (st_GetState (c_self c) (BigToHash l)); push (Hash_Big v);; nil_result.

Definition opSstore : executionFunc :=
  l ← pop; val ← pop; c ← x_gets x_contract; x_do (st_SetState (c_self c) (BigToHash l) (BigToHash val));; nil_result.

Definition jump_to (pos : Z) : exec unit :=
  ok ← jump_has pos;
  if negb ok then c ← x_gets x_contract; throw (errInvalidJump (GetOp (big_Uint64 pos) c) pos)
  else set_pc (big_Uint64 pos).

Definition opJump : executionFunc := pos ← pop; jump_to pos;; nil_result.

Definition opJumpi : executionFunc :=
  pos ← pop; cond ← pop;
  (if negb (cond =? 0) then jump_to pos else pc ← x_gets x_pc; set_pc (pc + 1)%u64);;
  nil_result.

Definition opJumpdest : executionFunc := nil_result.
Definition opPc : executionFunc := pc ← x_gets x_pc; push pc;; nil_result.
Definition opMsize : executionFunc := m ← x_gets x_mem; push (mem_Len m);; nil_result.
Definition opGas : executionFunc := c ← x_gets x_contract; push (c_Gas c);; nil_result.

(** [makePush] *)
Definition makePush (size : Z) (pushByteSize : Z) : executionFunc :=
  c ← x_gets x_contract;
  pc ← x_gets x_pc;
  let codeLen := strlen (c_Code c) in
  let startMin := if i64 (pc + 1) <? codeLen then i64 (pc + 1) else codeLen in
  let endMin := if startMin + pushByteSize <? codeLen then startMin + pushByteSize else codeLen in
  b ← x_lift (slice (c_Code c) startMin endMin);
  push (be_val (RightPadBytes b pushByteSize));;
  set_pc (pc + size)%u64;;
  nil_result.

Definition makeDup (size : nat) : executionFunc := on_stack (stack_dup size);; nil_result.
Definition makeSwap (size : nat) : executionFunc := on_stack (stack_swap (size + 1));; nil_result.

(** The topics of a log. *)
Fixpoint pop_topics (n : nat) : exec (list Hash) :=
  match n with
  | O => mret []
  | S n => x ← pop; l ← pop_topics n; mret (BigToHash x :: l)
  end.

Definition makeLog (size : nat) : executionFunc :=
  mStart ← pop; mSize ← pop;
  topics ← pop_topics size;
  d ← get_mem (mem_Get (big_Int64 mStart) (big_Int64 mSize));
  c ← x_gets x_contract;
  x_do (st_AddLog (mkLog (c_self c) topics (default [] d) (big_Uint64 (en_BlockNumber en)) zeroHash 0 zeroHash 0 false));;
  nil_result.

(** ** Calls *)

Context (interp : runner).

(** The caller takes over the analyses of the callee, and the gas it left. *)
Definition settle_caller (r : callResult) : exec unit :=
  modify_contract (fun c => set_Gas (c_Gas c + r_gas r)%u64 (set_jumpdests (r_dests r) c)).

Definition opCreate : executionFunc :=
  value ← pop; offset ← pop; size ← pop;
  input ← get_mem (mem_Get (big_Int64 offset) (big_Int64 size));
  c ← x_gets x_contract;
  let gas := if en_EIP150 en then (c_Gas c - c_Gas c / 64)%u64 else c_Gas c in
  _ ← use_gas gas;
  c ← x_gets x_contract;
  '(r, addr) ← on_evm (Create en interp (ParentRef c) (default [] input) gas value);
  push (match r_err r with
        | None => Address_Big addr
        | Some e => if decide (e = ErrCodeStoreOutOfGas) then (if en_Homestead en then 0 else Address_Big addr) else 0
        end);;
  settle_caller r;;
  mret (if decide (r_err r = Some errExecutionReverted) then r_ret r else None).

(** The end of the call instructions: the flag, the returned data, the gas. *)
Definition call_result (retOffset retSize : Z) (r : callResult) : executionFunc :=
  push (match r_err r with None => 1 | Some _ => 0 end);;
  (if bool_decide (r_err r = None) || bool_decide (r_err r = Some errExecutionReverted)
   then on_mem (mem_Set (big_Uint64 retOffset) (big_Uint64 retSize) (default [] (r_ret r)))
   else mret tt : exec unit);;
  settle_caller r;;
  mret (r_ret r).

Definition opCall : executionFunc :=
  _ ← pop;
  gas ← x_gets (fun m => e_callGasTemp (x_evm m));
  addr ← pop; value ← pop; inOffset ← pop; inSize ← pop; retOffset ← pop; retSize ← pop;
  let value := math.U256 value in
  args ← get_mem (mem_Get (big_Int64 inOffset) (big_Int64 inSize));
  let gas := if value =? 0 then gas else (gas + params.CallStipend)%u64 in
  c ← x_gets x_contract;
  r ← on_evm (Call en interp (ParentRef c) (BigToAddress addr) (default [] args) gas value);
  call_result retOffset retSize r.

Definition opCallCode : executionFunc :=
  _ ← pop;
  gas ← x_gets (fun m => e_callGasTemp (x_evm m));
  addr ← pop; value ← pop; inOffset ← pop; inSize ← pop; retOffset ← pop; retSize ← pop;
  let value := math.U256 value in
  args ← get_mem (mem_Get (big_Int64 inOffset) (big_Int64 inSize));
  let gas := if value =? 0 then gas else (gas + params.CallStipend)%u64 in
  c ← x_gets x_contract;
  r ← on_evm (CallCode en interp (ParentRef c) (BigToAddress addr) (default [] args) gas value);
  call_result retOffset retSize r.

Definition opDelegateCall : executionFunc :=
  _ ← pop;
  gas ← x_gets (fun m => e_callGasTemp (x_evm m));
  addr ← pop; inOffset ← pop; inSize ← pop; retOffset ← pop; retSize ← pop;
  args ← get_mem (mem_Get (big_Int64 inOffset) (big_Int64 inSize));
  c ← x_gets x_contract;
  r ← on_evm (DelegateCall en interp (ParentRef c) (BigToAddress addr) (default [] args) gas);
  call_result retOffset retSize r.

Definition opStaticCall : executionFunc :=
  _ ← pop;
  gas ← x_gets (fun m => e_callGasTemp (x_evm m));
  addr ← pop; inOffset ← pop; inSize ← pop; retOffset ← pop; retSize ← pop;
  args ← get_mem (mem_Get (big_Int64 inOffset) (big_Int64 inSize));
  c ← x_gets x_contract;
  r ← on_evm (StaticCall en interp (ParentRef c) (BigToAddress addr) (default [] args) gas);
  call_result retOffset retSize r.

Definition opReturn : executionFunc := offset ← pop; size ← pop; get_mem (mem_GetPtr (big_Int64 offset) (big_Int64 size)).
Definition opRevert : executionFunc := offset ← pop; size ← pop; get_mem (mem_GetPtr (big_Int64 offset) (big_Int64 size)).
Definition opStop : executionFunc := nil_result.

Definition opSuicide : executionFunc :=
  c ← x_gets x_contract;
  balance ← x_read (st_GetBalance (c_self c));
  a ← pop;
  x_do (st_AddBalance (BigToAddress a) balance);;
  _ ← x_read (st_Suicide (c_self c));
  nil_result.

End Instr.
