(* ===== verification/VmTable.v ===== *)
(** * The instruction sets (src/kernel/vm/opcodes.go, jump_table.go)

    An instruction set is the list of its valid opcodes with their operations:
    how they execute, what they cost, what they ask of the stack and of the
    memory, and how the interpreter goes on after them.  A later set puts its
    entries in front of those of the set it extends.  The entries of PUSH1 to
    PUSH32, DUP1 to DUP16 and SWAP1 to SWAP16 differ in their number only. *)

From S2P Require Import Prelude Types Interfaces Rlp Trie State GoMath Vm VmExec VmPrecompiled Evm VmGas VmInstr.
From stdpp Require Import base tactics option list numbers gmap.
From Stdlib Require Import ZArith Lia.

#[local] Open Scope Z_scope.

Module opcode.

Definition STOP : Z := 0x0.
Definition ADD : Z := 0x1.
Definition MUL : Z := 0x2.
Definition SUB : Z := 0x3.
Definition DIV : Z := 0x4.
Definition SDIV : Z := 0x5.
Definition MOD : Z := 0x6.
Definition SMOD : Z := 0x7.
Definition ADDMOD : Z := 0x8.
Definition MULMOD : Z := 0x9.
Definition EXP : Z := 0xa.
Definition SIGNEXTEND : Z := 0xb.
Definition LT : Z := 0x10.
Definition GT : Z := 0x11.
Definition SLT : Z := 0x12.
Definition SGT : Z := 0x13.
Definition EQ : Z := 0x14.
Definition ISZERO : Z := 0x15.
Definition AND : Z := 0x16.
Definition OR : Z := 0x17.
Definition XOR : Z := 0x18.
Definition NOT : Z := 0x19.
Definition BYTE : Z := 0x1a.
Definition SHA3 : Z := 0x20.
Definition ADDRESS : Z := 0x30.
Definition BALANCE : Z := 0x31.
Definition ORIGIN : Z := 0x32.
Definition CALLER : Z := 0x33.
Definition CALLVALUE : Z := 0x34.
Definition CALLDATALOAD : Z := 0x35.
Definition CALLDATASIZE : Z := 0x36.
Definition CALLDATACOPY : Z := 0x37.
Definition CODESIZE : Z := 0x38.
Definition CODECOPY : Z := 0x39.
Definition GASPRICE : Z := 0x3a.
Definition EXTCODESIZE : Z := 0x3b.
Definition EXTCODECOPY : Z := 0x3c.
Definition RETURNDATASIZE : Z := 0x3d.
Definition RETURNDATACOPY : Z := 0x3e.
Definition BLOCKHASH : Z := 0x40.
Definition COINBASE : Z := 0x41.
Definition TIMESTAMP : Z := 0x42.
Definition NUMBER : Z := 0x43.
Definition DIFFICULTY : Z := 0x44.
Definition GASLIMIT : Z := 0x45.
Definition POP : Z := 0x50.
Definition MLOAD : Z := 0x51.
Definition MSTORE : Z := 0x52.
Definition MSTORE8 : Z := 0x53.
Definition SLOAD : Z := 0x54.
Definition SSTORE : Z := 0x55.
Definition JUMP : Z := 0x56.
Definition JUMPI : Z := 0x57.
Definition PC : Z := 0x58.
Definition MSIZE : Z := 0x59.
Definition GAS : Z := 0x5a.
Definition DUP1 : Z := 0x80.
Definition SWAP1 : Z := 0x90.
Definition LOG0 : Z := 0xa0.
Definition LOG1 : Z := 0xa1.
Definition LOG2 : Z := 0xa2.
Definition LOG3 : Z := 0xa3.
Definition LOG4 : Z := 0xa4.
Definition CREATE : Z := 0xf0.
Definition CALL : Z := 0xf1.
Definition CALLCODE : Z := 0xf2.
Definition RETURN : Z := 0xf3.
Definition DELEGATECALL : Z := 0xf4.
Definition STATICCALL : Z := 0xfa.
Definition REVERT : Z := 0xfd.
Definition SELFDESTRUCT : Z := 0xff.

End opcode.

Section Table.
Context `{HK : Keccak, HP : EvmCrypto, HS : StateOps} (en : Env) (interp : runner).

(** An entry that is not in the table is not [valid]. *)
Record operation := mkOperation {
  execute : executionFunc;
  gasCost : gasFunc;
  validateStack : Stack → option vmError;
  memorySize : option (Stack → vmres Z);
  halts : bool;
  jumps : bool;
  writes : bool;
  reverts : bool;
  returns : bool
}.

Definition mkOp (e : executionFunc) (g : gasFunc) (v : Stack → option vmError) (m : option (Stack → vmres Z)) : operation :=
  mkOperation e g v m false false false false false.

Definition halting (o : operation) : operation :=
  mkOperation (execute o) (gasCost o) (validateStack o) (memorySize o) true (jumps o) (writes o) (reverts o) (returns o).
Definition jumping (o : operation) : operation :=
  mkOperation (execute o) (gasCost o) (validateStack o) (memorySize o) (halts o) true (writes o) (reverts o) (returns o).
Definition writing (o : operation) : operation :=
  mkOperation (execute o) (gasCost o) (validateStack o) (memorySize o) (halts o) (jumps o) true (reverts o) (returns o).
Definition reverting (o : operation) : operation :=
  mkOperation (execute o) (gasCost o) (validateStack o) (memorySize o) (halts o) (jumps o) (writes o) true (returns o).
Definition returning (o : operation) : operation :=
  mkOperation (execute o) (gasCost o) (validateStack o) (memorySize o) (halts o) (jumps o) (writes o) (reverts o) true.

Notation instructionSet := (list (Z * operation)).

Import opcode.

Definition frontierArithmetic : instructionSet :=
  [(STOP, halting (mkOp opStop (constGasFunc 0) (makeStackFunc 0 0) None));
   (ADD, mkOp opAdd (constGasFunc GasFastestStep) (makeStackFunc 2 1) None);
   (MUL, mkOp opMul (constGasFunc GasFastStep) (makeStackFunc 2 1) None);
   (SUB, mkOp opSub (constGasFunc GasFastestStep) (makeStackFunc 2 1) None);
   (DIV, mkOp opDiv (constGasFunc GasFastStep) (makeStackFunc 2 1) None);
   (SDIV, mkOp opSdiv (constGasFunc GasFastStep) (makeStackFunc 2 1) None);
   (MOD, mkOp opMod (constGasFunc GasFastStep) (makeStackFunc 2 1) None);
   (SMOD, mkOp opSmod (constGasFunc GasFastStep) (makeStackFunc 2 1) None);
   (ADDMOD, mkOp opAddmod (constGasFunc GasMidStep) (makeStackFunc 3 1) None);
   (MULMOD, mkOp opMulmod (constGasFunc GasMidStep) (makeStackFunc 3 1) None);
   (EXP, mkOp opExp (gasExp en) (makeStackFunc 2 1) None);
   (SIGNEXTEND, mkOp opSignExtend (constGasFunc GasFastStep) (makeStackFunc 2 1) None);
   (LT, mkOp opLt (constGasFunc GasFastestStep) (makeStackFunc 2 1) None);
   (GT, mkOp opGt (constGasFunc GasFastestStep) (makeStackFunc 2 1) None);
   (SLT, mkOp opSlt (constGasFunc GasFastestStep) (makeStackFunc 2 1) None);
   (SGT, mkOp opSgt (constGasFunc GasFastestStep) (makeStackFunc 2 1) None);
   (EQ, mkOp opEq (constGasFunc GasFastestStep) (makeStackFunc 2 1) None);
   (ISZERO, mkOp opIszero (constGasFunc GasFastestStep) (makeStackFunc 1 1) None);
   (AND, mkOp opAnd (constGasFunc GasFastestStep) (makeStackFunc 2 1) None);
   (XOR, mkOp opXor (constGasFunc GasFastestStep) (makeStackFunc 2 1) None);
   (OR, mkOp opOr (constGasFunc GasFastestStep) (makeStackFunc 2 1) None);
   (NOT, mkOp opNot (constGasFunc GasFastestStep) (makeStackFunc 1 1) None);
   (BYTE, mkOp opByte (constGasFunc GasFastestStep) (makeStackFunc 2 1) None)].

Definition frontierEnvironment : instructionSet :=
  [(SHA3, mkOp (opSha3 en) gasSha3 (makeStackFunc 2 1) (Some memorySha3));
   (ADDRESS, mkOp opAddress (constGasFunc GasQuickStep) (makeStackFunc 0 1) None);
   (BALANCE, mkOp opBalance (gasBalance en) (makeStackFunc 1 1) None);
   (ORIGIN, mkOp (opOrigin en) (constGasFunc GasQuickStep) (makeStackFunc 0 1) None);
   (CALLER, mkOp opCaller (constGasFunc GasQuickStep) (makeStackFunc 0 1) None);
   (CALLVALUE, mkOp opCallValue (constGasFunc GasQuickStep) (makeStackFunc 0 1) None);
   (CALLDATALOAD, mkOp opCallDataLoad (constGasFunc GasFastestStep) (makeStackFunc 1 1) None);
   (CALLDATASIZE, mkOp opCallDataSize (constGasFunc GasQuickStep) (makeStackFunc 0 1) None);
   (CALLDATACOPY, mkOp opCallDataCopy gasCallDataCopy (makeStackFunc 3 0) (Some memoryCallDataCopy));
   (CODESIZE, mkOp opCodeSize (constGasFunc GasQuickStep) (makeStackFunc 0 1) None);
   (CODECOPY, mkOp opCodeCopy gasCodeCopy (makeStackFunc 3 0) (Some memoryCodeCopy));
   (GASPRICE, mkOp (opGasprice en) (constGasFunc GasQuickStep) (makeStackFunc 0 1) None);
   (EXTCODESIZE, mkOp opExtCodeSize (gasExtCodeSize en) (makeStackFunc 1 1) None);
   (EXTCODECOPY, mkOp opExtCodeCopy (gasExtCodeCopy en) (makeStackFunc 4 0) (Some memoryExtCodeCopy));
   (BLOCKHASH, mkOp (opBlockhash en) (constGasFunc GasExtStep) (makeStackFunc 1 1) None);
   (COINBASE, mkOp (opCoinbase en) (constGasFunc GasQuickStep) (makeStackFunc 0 1) None);
   (TIMESTAMP, mkOp (opTimestamp en) (constGasFunc GasQuickStep) (makeStackFunc 0 1) None);
   (NUMBER, mkOp (opNumber en) (constGasFunc GasQuickStep) (makeStackFunc 0 1) None);
   (DIFFICULTY, mkOp (opDifficulty en) (constGasFunc GasQuickStep) (makeStackFunc 0 1) None);
   (GASLIMIT, mkOp (opGasLimit en) (constGasFunc GasQuickStep) (makeStackFunc 0 1) None)].

Definition frontierFlow : instructionSet :=
  [(POP, mkOp opPop (constGasFunc GasQuickStep) (makeStackFunc 1 0) None);
   (MLOAD, mkOp opMload gasMLoad (makeStackFunc 1 1) (Some memoryMLoad));
   (MSTORE, mkOp opMstore gasMStore (makeStackFunc 2 0) (Some memoryMStore));
   (MSTORE8, mkOp opMstore8 gasMStore8 (makeStackFunc 2 0) (Some memoryMStore8));
   (SLOAD, mkOp opSload (gasSLoad en) (makeStackFunc 1 1) None);
   (SSTORE, writing (mkOp opSstore gasSStore (makeStackFunc 2 0) None));
   (JUMP, jumping (mkOp opJump (constGasFunc GasMidStep) (makeStackFunc 1 0) None));
   (JUMPI, jumping (mkOp opJumpi (constGasFunc GasSlowStep) (makeStackFunc 2 0) None));
   (PC, mkOp opPc (constGasFunc GasQuickStep) (makeStackFunc 0 1) None);
   (MSIZE, mkOp opMsize (constGasFunc GasQuickStep) (makeStackFunc 0 1) None);
   (GAS, mkOp opGas (constGasFunc GasQuickStep) (makeStackFunc 0 1) None);
   (JUMPDEST, mkOp opJumpdest (constGasFunc params.JumpdestGas) (makeStackFunc 0 0) None)].

Definition frontierPush : instructionSet :=
  (fun n : nat => (PUSH1 + (Z.of_nat n - 1), mkOp (makePush (Z.of_nat n) (Z.of_nat n)) gasPush (makeStackFunc 0 1) None)) <$> seq 1 32.

Definition frontierDup : instructionSet :=
  (fun n : nat => (DUP1 + (Z.of_nat n - 1), mkOp (makeDup n) gasDup (makeDupStackFunc (Z.of_nat n)) None)) <$> seq 1 16.

Definition frontierSwap : instructionSet :=
  (fun n : nat => (SWAP1 + (Z.of_nat n - 1), mkOp (makeSwap n) gasSwap (makeSwapStackFunc (Z.of_nat n + 1)) None)) <$> seq 1 16.

Definition frontierSystem : instructionSet :=
  [(LOG0, writing (mkOp (makeLog en 0) (makeGasLog 0) (makeStackFunc 2 0) (Some memoryLog)));
   (LOG1, writing (mkOp (makeLog en 1) (makeGasLog 1) (makeStackFunc 3 0) (Some memoryLog)));
   (LOG2, writing (mkOp (makeLog en 2) (makeGasLog 2) (makeStackFunc 4 0) (Some memoryLog)));
   (LOG3, writing (mkOp (makeLog en 3) (makeGasLog 3) (makeStackFunc 5 0) (Some memoryLog)));
   (LOG4, writing (mkOp (makeLog en 4) (makeGasLog 4) (makeStackFunc 6 0) (Some memoryLog)));
   (CREATE, returning (writing (mkOp (opCreate en interp) gasCreate (makeStackFunc 3 1) (Some memoryCreate))));
   (CALL, returning (mkOp (opCall en interp) (gasCall en) (makeStackFunc 7 1) (Some memoryCall)));
   (CALLCODE, returning (mkOp (opCallCode en interp) (gasCallCode en) (makeStackFunc 7 1) (Some memoryCall)));
   (RETURN, halting (mkOp opReturn gasReturn (makeStackFunc 2 0) (Some memoryReturn)));
   (SELFDESTRUCT, writing (halting (mkOp opSuicide (gasSuicide en) (makeStackFunc 1 0) None)))].

(** ** The three sets *)

Definition NewFrontierInstructionSet : instructionSet :=
  frontierArithmetic ++ frontierEnvironment ++ frontierFlow ++ frontierPush ++ frontierDup ++ frontierSwap ++ frontierSystem.

Definition NewHomesteadInstructionSet : instructionSet :=
  (DELEGATECALL, returning (mkOp (opDelegateCall en interp) (gasDelegateCall en) (makeStackFunc 6 1) (Some memoryDelegateCall)))
  :: NewFrontierInstructionSet.

Definition NewByzantiumInstructionSet : instructionSet :=
  (REVERT, returning (reverting (mkOp opRevert gasRevert (makeStackFunc 2 0) (Some memoryRevert))))
  :: (RETURNDATACOPY, mkOp opReturnDataCopy gasReturnDataCopy (makeStackFunc 3 0) (Some memoryReturnDataCopy))
  :: (RETURNDATASIZE, mkOp opReturnDataSize (constGasFunc GasQuickStep) (makeStackFunc 0 1) None)
  :: (STATICCALL, returning (mkOp (opStaticCall en interp) (gasStaticCall en) (makeStackFunc 6 1) (Some memoryStaticCall)))
  :: NewHomesteadInstructionSet.

(** The choice of [NewInterpreter]. *)
Definition JumpTable : instructionSet :=
  if en_Byzantium en then NewByzantiumInstructionSet
  else if en_Homestead en then NewHomesteadInstructionSet
  else NewFrontierInstructionSet.

Definition find_op (op : Z) (t : instructionSet) : option operation := snd <$> List.find (fun e => fst e =? op) t.

End Table.
