(* ===== verification/VmRun.v ===== *)
(** * The interpreter (src/kernel/vm/interpreter.go)

    [step] is one round of the loop of [Interpreter.Run], [loop] the loop and
    [Run] the function.  The calls among the instructions run the loop again,
    so its fuel bounds the rounds of a run and of the runs inside it; without
    fuel the model panics.  Tracing and [Cancel] are left out. *)

From S2P Require Import Prelude Types Interfaces Rlp Trie State GoMath Vm VmExec VmPrecompiled Evm VmGas VmInstr VmTable.
From stdpp Require Import base tactics option list numbers gmap.
From Stdlib Require Import ZArith Lia.

#[local] Open Scope Z_scope.

Section Run.
Context `{HK : Keccak, HP : EvmCrypto, HS : StateOps} (en : Env).

(** No instruction that writes, and no call with a value, in a static call. *)
Definition enforceRestrictions (op : Z) (o : operation) : exec unit :=
  readOnly ← x_gets (fun m => e_readOnly (x_evm m));
  if en_Byzantium en && readOnly then
    if writes o then throw errWriteProtection
    else if op =? opcode.CALL then v ← Back 2; throw_if (0 <? big_BitLen v) errWriteProtection
    else mret tt
  else mret tt.

(** The size of the memory that the operation asks for, in whole words. *)
Definition needed_memory (o : operation) : exec Z :=
  match memorySize o with
  | None => mret 0
  | Some f =>
      s ← x_gets x_stack;
      size ← x_lift (f s);
      memSize ← safe_uint64 size;
      safe_mul (toWordSize memSize) 32
  end.

(** Every failure to pay is [ErrOutOfGas]. *)
Definition charge (o : operation) (memorySize : Z) : exec unit := fun m =>
  if en_DisableGasMetering en then Ok (m, inl tt)
  else
    '(m, r) ← gasCost o memorySize m;
    match r with
    | inl cost => (ok ← use_gas cost; throw_if (negb ok) ErrOutOfGas) m
    | inr _ => Ok (m, inr ErrOutOfGas)
    end.

(** What comes before the execution of an operation. *)
Definition prepare (op : Z) (o : operation) : exec unit :=
  s ← x_gets x_stack;
  match validateStack o s with
  | Some e => throw e
  | None =>
      enforceRestrictions op o;;
      memorySize ← needed_memory o;
      charge o memorySize;;
      on_mem (fun mem => Ok (if 0 <? memorySize then mem_Resize memorySize mem else mem))
  end.

(** The execution, with the data returned by a call kept for later. *)
Definition perform (o : operation) : exec (option (list Z)) := fun m =>
  '(m, r) ← execute o m;
  let res := match r with inl res => res | inr _ => None end in
  Ok (if returns o then set_xevm (set_returnData (default [] res) (x_evm m)) m else m, r).

(** One round: the data and the error of a run that ends. *)
Definition step (interp : runner) : exec (option (option (list Z) * option vmError)) :=
  c ← x_gets x_contract;
  pc ← x_gets x_pc;
  let op := GetOp pc c in
  match find_op op (JumpTable en interp) with
  | None => throw (errInvalidOpcode op)
  | Some o =>
      prepare op o;;
      res ← perform o;
      if reverts o then mret (Some (res, Some errExecutionReverted))
      else if halts o then mret (Some (res, None))
      else if negb (jumps o) then pc ← x_gets x_pc; set_pc (pc + 1)%u64;; mret None
      else mret None
  end.

(** [Run] around a loop. *)
Definition Run_with (lp : machine → vmres (machine * (option (list Z) * option vmError))) : runner := fun contract input e =>
  let e := set_returnData [] (set_depth (e_depth e + 1) e) in
  match c_Code contract with
  | [] => Ok (set_depth (e_depth e - 1) e, (contract, None, None))
  | _ =>
      '(m, (ret, err)) ← lp (mkMachine e (set_Input input contract) NewMemory [] 0);
      Ok (set_depth (e_depth (x_evm m) - 1) (x_evm m), (x_contract m, ret, err))
  end.

Fixpoint loop (fuel : nat) (m : machine) : vmres (machine * (option (list Z) * option vmError)) :=
  match fuel with
  | O => Panic
  | S fuel =>
      '(m, r) ← step (Run_with (loop fuel)) m;
      match r with
      | inr e => Ok (m, (None, Some e))
      | inl (Some r) => Ok (m, r)
      | inl None => loop fuel m
      end
  end.

Definition Run (fuel : nat) : runner := Run_with (loop fuel).

End Run.
