(* ===== verification/VmLaws.v ===== *)
(** * What the virtual machine relies on in the state

    [StateLaws] is the promise of a state to the virtual machine: every method
    does on it what the operation of StateSpec.v does on the map of accounts,
    and a snapshot can be gone back to as long as no older one was gone back to.  The
    theorems about the virtual machine are proved from this interface alone;
    StateVm.v shows that the state database keeps the promise.  The last part is
    about the sum of the balances of a map of accounts, when only finitely many
    are not zero, and how the operations change it. *)

From S2P Require Import Prelude Types Interfaces Rlp Trie State StateFrame StateSpec GoMath Vm VmExec VmPrecompiled Evm.
From stdpp Require Import base tactics option list numbers gmap.
From Stdlib Require Import ZArith Lia.

#[local] Open Scope Z_scope.

(** ** The interface *)

(** The accounts as the methods read them. *)
Definition w_balance (a : Address) (w : world) : Z := from_option av_balance 0 (w_accounts w a).
Definition w_nonce (a : Address) (w : world) : Z := from_option av_nonce 0 (w_accounts w a).
Definition w_code (a : Address) (w : world) : option (list Z) := w_accounts w a ≫= av_code.
Definition w_codeHash (a : Address) (w : world) : Hash := from_option (fun v => BytesToHash (av_codeHash v)) zeroHash (w_accounts w a).
Definition w_slot (a : Address) (k : Hash) (w : world) : Hash := from_option (fun v => av_slots v k) zeroHash (w_accounts w a).
Definition w_exists (a : Address) (w : world) : bool := bool_decide (is_Some (w_accounts w a)).
Definition w_empty `{Keccak} (a : Address) (w : world) : bool := from_option view_empty true (w_accounts w a).
Definition w_suicided (a : Address) (w : world) : bool := from_option av_suicided false (w_accounts w a).

Section Promise.
Context {S : Type} (sees : S → world → Prop) (later : S → S → Prop).

Definition does `{Keccak} (f : S → pan S) (op : stateOp) : Prop :=
  ∀ s w, sees s w → ∃ s', f s = Ok s' ∧ sees s' (specOp op w) ∧ later s s'.

Definition answers_with {A} (f : S → pan (S * A)) (g : world → A) : Prop :=
  ∀ s w, sees s w → ∃ s', f s = Ok (s', g w) ∧ sees s' w ∧ later s s'.

End Promise.

(** [st_later s s']: [s'] comes from [s] by methods that go back to no snapshot
    older than [s]. *)
Class StateLaws `{HK : Keccak} (HS : StateOps) := {
  st_sees : st → world → Prop;
  st_later : st → st → Prop;
  later_refl s w : st_sees s w → st_later s s;
  later_trans s1 s2 s3 : st_later s1 s2 → st_later s2 s3 → st_later s1 s3;
  law_CreateAccount a : does st_sees st_later (st_CreateAccount a) (OpCreateAccount a);
  law_SubBalance a z : does st_sees st_later (st_SubBalance a z) (OpSubBalance a z);
  law_AddBalance a z : does st_sees st_later (st_AddBalance a z) (OpAddBalance a z);
  law_SetNonce a n : does st_sees st_later (st_SetNonce a n) (OpSetNonce a n);
  law_SetCode a c : does st_sees st_later (st_SetCode a c) (OpSetCode a c);
  law_AddRefund g : does st_sees st_later (st_AddRefund g) (OpAddRefund g);
  law_SetState a k x : does st_sees st_later (st_SetState a k x) (OpSetState a k x);
  law_AddLog l : does st_sees st_later (st_AddLog l) (OpAddLog l);
  law_AddPreimage h p : does st_sees st_later (st_AddPreimage h p) (OpAddPreimage h p);
  law_Suicide a s w : st_sees s w →
    ∃ s', st_Suicide a s = Ok (s', w_exists a w) ∧ st_sees s' (specOp (OpSuicide a) w) ∧ st_later s s';
  law_GetBalance a : answers_with st_sees st_later (st_GetBalance a) (w_balance a);
  law_GetNonce a : answers_with st_sees st_later (st_GetNonce a) (w_nonce a);
  law_GetCodeHash a : answers_with st_sees st_later (st_GetCodeHash a) (w_codeHash a);
  law_GetCode a : answers_with st_sees st_later (st_GetCode a) (w_code a);
  law_GetCodeSize a : answers_with st_sees st_later (st_GetCodeSize a) (fun w => strlen (default [] (w_code a w)));
  law_GetState a k : answers_with st_sees st_later (st_GetState a k) (w_slot a k);
  law_HasSuicided a : answers_with st_sees st_later (st_HasSuicided a) (w_suicided a);
  law_Exist a : answers_with st_sees st_later (st_Exist a) (w_exists a);
  law_Empty a : answers_with st_sees st_later (st_Empty a) (w_empty a);
  law_GetRefund s w : st_sees s w → st_GetRefund s = w_refund w;
  law_Snapshot s w : st_sees s w → st_sees (st_Snapshot s).1 w ∧ st_later s (st_Snapshot s).1;
  law_RevertToSnapshot s0 w0 s w : st_sees s0 w0 → st_later (st_Snapshot s0).1 s → st_sees s w →
    ∃ s', st_RevertToSnapshot (st_Snapshot s0).2 s = Ok s' ∧ st_sees s' w0 ∧ st_later s0 s'
}.

#[export] Hint Resolve law_CreateAccount law_SubBalance law_AddBalance law_SetNonce law_SetCode law_AddRefund law_SetState
  law_AddLog law_AddPreimage law_GetBalance law_GetNonce law_GetCodeHash law_GetCode law_GetCodeSize law_GetState
  law_HasSuicided law_Exist law_Empty : laws.

(** ** Well-formed accounts *)

Section World.
Context `{HK : Keccak}.

Definition maxCode : Z := 2 ^ 62.

Definition code_ok (code : list Z) : Prop := is_bytes code ∧ strlen code < maxCode.

Record view_ok (v : accountView) : Prop := {
  vo_nonce : 0 ≤ av_nonce v < two64;
  vo_balance : 0 ≤ av_balance v;
  vo_code : code_ok (default [] (av_code v));
  vo_codeHash : av_codeHash v = Keccak256 (default [] (av_code v));
  vo_slots : ∀ k, is_bytes (av_slots v k)
}.

Record world_ok (w : world) : Prop := {
  wo_accounts : ∀ a v, w_accounts w a = Some v → view_ok v;
  wo_refund : 0 ≤ w_refund w < two64
}.

(** Two worlds that differ only in accounts without contents. *)
Record same_world (w w' : world) : Prop := {
  sw_accounts : ∀ a, view_eq (default zeroView (w_accounts w a)) (default zeroView (w_accounts w' a));
  sw_exists : ∀ a, is_Some (w_accounts w a) → is_Some (w_accounts w' a);
  sw_refund : w_refund w = w_refund w';
  sw_logs : ∀ h, w_logs w h = w_logs w' h;
  sw_logSize : w_logSize w = w_logSize w'
}.

#[export] Instance same_world_preorder : PreOrder same_world.
Proof.
  split.
  - intros w. by split.
  - intros w1 w2 w3 [A1 E1 R1 L1 S1] [A2 E2 R2 L2 S2]. split; try congruence.
    + intros a. etransitivity; [apply A1|apply A2].
    + intros a Ha. auto.
Qed.

Lemma zeroView_ok : view_ok zeroView.
Proof.
  split; cbn; try done.
  - split; [by constructor|]. unfold maxCode. cbn. lia.
  - intros k. apply (replicate_bytes 32).
Qed.

Lemma lookup_ok w a : world_ok w → view_ok (default zeroView (w_accounts w a)).
Proof. intros Hw. destruct (w_accounts w a) eqn:E; [by eapply (wo_accounts w Hw)|apply zeroView_ok]. Qed.

Lemma w_set_ok w a v : world_ok w → view_ok v → world_ok (w_set a v w).
Proof. intros [Hw Hr] Hv. split; [|done]. intros a' v'. cbn. case_decide; [by intros [= <-]|apply Hw]. Qed.

Lemma w_update_ok w a f : world_ok w → view_ok (f (default zeroView (w_accounts w a))) → world_ok (w_update a f w).
Proof. apply w_set_ok. Qed.

Lemma w_balance_default w a : w_balance a w = av_balance (default zeroView (w_accounts w a)).
Proof. unfold w_balance. by destruct (w_accounts w a). Qed.

Lemma w_balance_ok w a : world_ok w → 0 ≤ w_balance a w.
Proof. intros Hw. rewrite w_balance_default. by apply lookup_ok. Qed.

Lemma w_nonce_ok w a : world_ok w → 0 ≤ w_nonce a w < two64.
Proof. intros Hw. unfold w_nonce. destruct (w_accounts w a) eqn:E; cbn; [by eapply (wo_accounts w Hw)|done]. Qed.

Lemma w_code_ok w a : world_ok w → code_ok (default [] (w_code a w)).
Proof. intros Hw. unfold w_code. destruct (w_accounts w a) eqn:E; cbn; [by eapply (wo_accounts w Hw)|apply zeroView_ok]. Qed.

Lemma w_slot_ok w a k : world_ok w → is_bytes (w_slot a k w).
Proof. intros Hw. unfold w_slot. destruct (w_accounts w a) eqn:E; cbn; [by eapply (wo_accounts w Hw)|apply (vo_slots _ zeroView_ok k)]. Qed.

(** The operations of the virtual machine keep the accounts well-formed. *)
Definition op_fits (op : stateOp) (w : world) : Prop :=
  match op with
  | OpCreateAccount _ | OpSuicide _ | OpAddLog _ | OpAddPreimage _ _ | OpAddRefund _ => True
  | OpAddBalance _ z => 0 ≤ z
  | OpSubBalance a z => z ≤ w_balance a w
  | OpSetNonce _ n => 0 ≤ n < two64
  | OpSetCode _ c => code_ok (default [] c)
  | OpSetState _ _ x => is_bytes x
  | _ => False
  end.

Lemma specOp_ok op w : op_fits op w → world_ok w → world_ok (specOp op w).
Proof.
  intros Hop Hw. destruct op; cbn [specOp op_fits] in *; try done;
    try (apply w_update_ok; [done|]; destruct (lookup_ok w addr Hw); split; cbn; rewrite <- ?w_balance_default in *; try (done || lia)).
  - apply w_set_ok; [done|]. destruct zeroView_ok. split; try done. cbn. by apply (w_balance_ok w addr).
  - intros k. by case_decide.
  - destruct (w_accounts w addr) as [v|] eqn:E; [|done]. apply w_set_ok; [done|]. destruct (wo_accounts w Hw _ _ E). split; cbn; (done || lia).
  - unfold w_addLog. destruct (w_tx w) as [[? ?] ?]. by destruct Hw.
  - by destruct Hw.
  - destruct Hw. split; [done|]. cbn. by apply Z.mod_pos_bound.
Qed.

(** Some of them change no account that has contents. *)
Lemma w_update_same w a f : (∀ v, view_eq v (f v)) → same_world w (w_update a f w).
Proof.
  intros Hf. split; try done; intros a'; cbn; case_decide; subst; try done; apply Hf.
Qed.

Lemma AddBalance_zero_same w a : same_world w (specOp (OpAddBalance a 0) w).
Proof. apply w_update_same. intros v. split; cbn; (done || lia). Qed.

Lemma SubBalance_zero_same w a : same_world w (specOp (OpSubBalance a 0) w).
Proof. apply w_update_same. intros v. split; cbn; (done || lia). Qed.

Lemma CreateAccount_same w a : w_exists a w = false → same_world w (specOp (OpCreateAccount a) w).
Proof.
  unfold w_exists. intros Ha%bool_decide_eq_false. apply eq_None_not_Some in Ha. split; try done; intros a'; cbn; case_decide; subst; try done; by rewrite Ha.
Qed.

Lemma CreateAccount_balance a b w : w_balance a (specOp (OpCreateAccount b) w) = w_balance a w.
Proof. unfold w_balance. cbn. by case_decide; subst. Qed.

Lemma SetNonce_balance a b n w : w_balance a (specOp (OpSetNonce b n) w) = w_balance a w.
Proof. unfold w_balance. cbn. case_decide; [subst|done]. cbn. by destruct (w_accounts w b). Qed.

Lemma AddPreimage_same w h p : same_world w (specOp (OpAddPreimage h p) w).
Proof. by split; try (intros; by split). Qed.

End World.

(** ** The supply of ether *)

(** *** Sums over lists *)

Fixpoint sum_over {A} (f : A → Z) (l : list A) : Z := match l with [] => 0 | a :: l => f a + sum_over f l end.

Lemma sum_over_ext {A} (f g : A → Z) l : (∀ a, a ∈ l → f a = g a) → sum_over f l = sum_over g l.
Proof.
  induction l as [|a l IH]; intros Hfg; [done|]. cbn. rewrite (Hfg a) by set_solver. f_equal. apply IH. intros b Hb. apply Hfg. set_solver.
Qed.

Lemma sum_over_change {A} (f g : A → Z) a l : NoDup l → a ∈ l → (∀ b, b ≠ a → g b = f b) → sum_over g l = sum_over f l + (g a - f a).
Proof.
  induction 1 as [|b l Hb Hl IH]; intros Ha Hfg; [set_solver|]. cbn. apply elem_of_cons in Ha as [<-|Ha].
  - rewrite (sum_over_ext g f l); [lia|]. intros b' Hb'. apply Hfg. set_solver.
  - rewrite IH by done. rewrite (Hfg b) by set_solver. lia.
Qed.

Section Supply.
Context `{HK : Keccak}.

(** ** The supply *)

(** The balances sum up to no more than [T]. *)
Definition supply_le (T : Z) (w : world) : Prop :=
  ∃ l : list Address, NoDup l ∧ (∀ a, a ∉ l → w_balance a w = 0) ∧ sum_over (fun a => w_balance a w) l ≤ T.

(** [w'] has no more ether than [w]. *)
Definition poorer (w w' : world) : Prop := ∀ T, supply_le T w → supply_le T w'.

#[export] Instance poorer_preorder : PreOrder poorer.
Proof. split; [by intros w T|]. intros w1 w2 w3 H1 H2 T HT. auto. Qed.

Lemma supply_le_mono T T' w : T ≤ T' → supply_le T w → supply_le T' w.
Proof. intros Hle (l & Hl & Ho & Hs). exists l. split_and!; [done|done|lia]. Qed.

(** One balance changes. *)
Lemma supply_le_change a T w w' : (∀ b, b ≠ a → w_balance b w' = w_balance b w) → supply_le T w →
  supply_le (T + (w_balance a w' - w_balance a w)) w'.
Proof.
  intros Hb (l & Hl & Ho & Hs).
  assert (∃ l', NoDup l' ∧ a ∈ l' ∧ (∀ b, b ∉ l' → w_balance b w = 0) ∧ sum_over (fun a => w_balance a w) l' ≤ T) as (l' & Hl' & Ha & Ho' & Hs').
  { destruct (decide (a ∈ l)); [by exists l|]. exists (a :: l). split_and!; [by constructor|set_solver| |].
    - intros b Hb'. apply Ho. set_solver.
    - cbn. rewrite (Ho a) by done. lia. }
  exists l'. split_and!; [done| |].
  - intros b Hb'. rewrite Hb by set_solver. by apply Ho'.
  - rewrite (sum_over_change (fun b => w_balance b w) _ a) by done. lia.
Qed.

(** No balance changes. *)
Lemma poorer_same w w' : (∀ a, w_balance a w' = w_balance a w) → poorer w w'.
Proof. intros Hb T HT. eapply supply_le_mono; [|by eapply (supply_le_change zeroAddress T w w')]. rewrite Hb. lia. Qed.

(** ** The operations *)

Lemma w_update_balance a b f w : (∀ v, av_balance (f v) = av_balance v) → w_balance b (w_update a f w) = w_balance b w.
Proof. intros Hf. unfold w_balance. cbn. case_decide; [subst|done]. cbn. rewrite Hf. by destruct (w_accounts w a). Qed.

Lemma w_update_other a b f w : b ≠ a → w_balance b (w_update a f w) = w_balance b w.
Proof. intros Hne. unfold w_balance. cbn. by rewrite decide_False. Qed.

Lemma AddBalance_balance a z w : w_balance a (specOp (OpAddBalance a z) w) = w_balance a w + z.
Proof. unfold w_balance. cbn. rewrite decide_True by done. cbn. by destruct (w_accounts w a). Qed.

Lemma SubBalance_balance a z w : w_balance a (specOp (OpSubBalance a z) w) = w_balance a w - z.
Proof. unfold w_balance. cbn. rewrite decide_True by done. cbn. by destruct (w_accounts w a). Qed.

Lemma AddBalance_supply a z T w : supply_le T w → supply_le (T + z) (specOp (OpAddBalance a z) w).
Proof.
  intros HT. eapply supply_le_mono; [|apply (supply_le_change a T w); [|done]]; [rewrite AddBalance_balance; lia|].
  intros b Hb. by apply w_update_other.
Qed.

Lemma SubBalance_supply a z T w : supply_le T w → supply_le (T - z) (specOp (OpSubBalance a z) w).
Proof.
  intros HT. eapply supply_le_mono; [|apply (supply_le_change a T w); [|done]]; [rewrite SubBalance_balance; lia|].
  intros b Hb. by apply w_update_other.
Qed.

Lemma Suicide_balance a b w : w_balance b (specOp (OpSuicide a) w) = if decide (b = a) then 0 else w_balance b w.
Proof.
  unfold w_balance. cbn. destruct (w_accounts w a) as [v|] eqn:E; [cbn; by repeat case_decide|].
  case_decide; [subst; by rewrite E|done].
Qed.

Lemma Suicide_supply a T w : supply_le T w → supply_le (T - w_balance a w) (specOp (OpSuicide a) w).
Proof.
  intros HT. eapply supply_le_mono; [|apply (supply_le_change a T w); [|done]]; [rewrite Suicide_balance, decide_True by done; lia|].
  intros b Hb. by rewrite Suicide_balance, decide_False.
Qed.

(** A transfer keeps the supply. *)
Lemma Transfer_poorer a b z w : poorer w (specOp (OpAddBalance b z) (specOp (OpSubBalance a z) w)).
Proof. intros T HT. eapply supply_le_mono; [|by apply AddBalance_supply, SubBalance_supply]. lia. Qed.

(** The balance of an account that is destroyed goes to another; to itself, it
    is lost. *)
Lemma Suicide_poorer a b w : 0 ≤ w_balance a w → poorer w (specOp (OpSuicide a) (specOp (OpAddBalance b (w_balance a w)) w)).
Proof.
  intros Ha T HT. eapply supply_le_mono; [|by apply Suicide_supply, (AddBalance_supply b (w_balance a w))].
  destruct (decide (a = b)) as [<-|Hne]; [rewrite AddBalance_balance; lia|].
  cbn [specOp]. rewrite w_update_other by done. lia.
Qed.

(** The operations that leave the balances alone, or take from one. *)
Definition op_frugal (op : stateOp) : Prop :=
  match op with
  | OpCreateAccount _ | OpSetNonce _ _ | OpSetCode _ _ | OpSetState _ _ _ | OpAddLog _ | OpAddPreimage _ _ | OpAddRefund _ => True
  | OpSubBalance _ z => 0 ≤ z
  | _ => False
  end.

Lemma op_frugal_poorer op w : op_frugal op → poorer w (specOp op w).
Proof.
  intros Hop. destruct op; try done; try (by apply poorer_same; intros b; first [done|apply w_update_balance]).
  - apply poorer_same. intros b. apply CreateAccount_balance.
  - intros T HT. eapply supply_le_mono; [|by apply SubBalance_supply]. cbn in Hop. lia.
  - apply poorer_same. intros b. cbn. unfold w_addLog. by destruct (w_tx w) as [[? ?] ?].
Qed.

End Supply.
