(* ===== verification/StateVm.v ===== *)
(** * The state database as the state of the virtual machine

    The methods of the state database are those the virtual machine calls
    (src/kernel/vm/interface.go), and they keep the promises of [StateLaws].
    The sizes of codes that the database caches are right, so that
    [GetCodeSize] agrees with [GetCode]. *)

From S2P Require Import Prelude Types Interfaces Rlp RlpRaw RlpStream RlpDecode TrieEncoding TrieNode Trie TrieSpec State StateRevert StateFrame StateSpec GoMath Vm VmLaws.
From stdpp Require Import base tactics option numbers list gmap.
From Stdlib Require Import ZArith Lia.

#[local] Open Scope Z_scope.

Section Ops.
Context `{HK : Keccak, HD : Database, HC : ARCCache Z}.

#[export] Instance StateDB_ops : StateOps := {|
  st := StateDB;
  st_CreateAccount := CreateAccount;
  st_SubBalance := SubBalance;
  st_AddBalance := AddBalance;
  st_GetBalance := GetBalance;
  st_GetNonce := GetNonce;
  st_SetNonce := SetNonce;
  st_GetCodeHash := GetCodeHash;
  st_GetCode := GetCode;
  st_SetCode := SetCode;
  st_GetCodeSize := GetCodeSize;
  st_AddRefund g s := Ok (AddRefund g s);
  st_GetRefund := sdb_refund;
  st_GetState := GetState;
  st_SetState := SetState;
  st_Suicide := Suicide;
  st_HasSuicided := HasSuicided;
  st_Exist := Exist;
  st_Empty := State.Empty;
  st_RevertToSnapshot := RevertToSnapshot;
  st_Snapshot := Snapshot;
  st_AddLog l s := Ok (AddLog l s);
  st_AddPreimage h p s := Ok (AddPreimage h p s)
|}.

(** ** The database under the state *)

(** A method that leaves the database alone. *)
Definition leaves_db (s : StateDB) (r : pan StateDB) : Prop := match r with Ok s' => sdb_db s' = sdb_db s | _ => True end.
Definition leaves_db2 {A} (s : StateDB) (r : pan (StateDB * A)) : Prop := match r with Ok (s', _) => sdb_db s' = sdb_db s | _ => True end.

Lemma fireDirty_db o s : sdb_db (fireDirty o s).2 = sdb_db s.
Proof. unfold fireDirty. by destruct (so_onDirty o). Qed.

Ltac fires := etransitivity; [apply fireDirty_db|done].

Lemma store_obj_db r : sdb_db (store_obj r) = sdb_db r.2.
Proof. done. Qed.

Lemma getStateObject_db a s : leaves_db2 s (getStateObject a s).
Proof.
  unfold getStateObject. destruct (sdb_stateObjects s !! a); [done|]. destruct (Secure_TryGet _ _ _) as [tr [enc|e|]]; cbn; try done.
  - repeat case_match; cbn; try done.
  - unfold state_setError. by case_match.
Qed.

Lemma leaves_bind {A B} s (r : pan (StateDB * A)) (f : StateDB * A → pan (StateDB * B)) :
  leaves_db2 s r → (∀ s' a, leaves_db2 s' (f (s', a))) → leaves_db2 s (r ≫= f).
Proof.
  destruct r as [[s' a]| |]; cbn; try done. intros Hs Hf. specialize (Hf s' a). unfold leaves_db2 in *. destruct (f (s', a)) as [[? ?]| |]; congruence.
Qed.

Lemma leaves_bind1 {A} s (r : pan (StateDB * A)) (f : StateDB * A → pan StateDB) :
  leaves_db2 s r → (∀ s' a, leaves_db s' (f (s', a))) → leaves_db s (r ≫= f).
Proof.
  destruct r as [[s' a]| |]; cbn; try done. intros Hs Hf. specialize (Hf s' a). unfold leaves_db in *. destruct (f (s', a)); congruence.
Qed.

Lemma createObject_db a s : leaves_db2 (A := option stateObject) s (x ← createObject a s; Ok (x.1.1, x.2)).
Proof.
  unfold createObject. pose proof (getStateObject_db a s) as Hg. by destruct (getStateObject a s) as [[s1 prev]| |].
Qed.

Lemma GetOrNew_db a s : leaves_db2 s (GetOrNewStateObject a s).
Proof.
  unfold GetOrNewStateObject. apply leaves_bind; [apply getStateObject_db|]. intros s' obj. pose proof (createObject_db a s') as Hc.
  destruct (createObject a s') as [[[s2 o2] p2]| |]; cbn in *; repeat case_match; cbn; done.
Qed.

Lemma obj_set_db_ok (f : stateObject → StateDB → stateObject * StateDB) a s :
  (∀ o s', sdb_db (f o s').2 = sdb_db s') → leaves_db s ('(s, o) ← GetOrNewStateObject a s; Ok (store_obj (f o s))).
Proof. intros Hf. apply leaves_bind1; [apply GetOrNew_db|]. intros s' o. cbn. apply Hf. Qed.

Lemma AddBalance_db a z s : leaves_db s (AddBalance a z s).
Proof.
  apply obj_set_db_ok. intros o s'. unfold obj_AddBalance. case_match; [|fires]. case_match; [|done].
  unfold obj_touch, fireDirty. by destruct (so_onDirty o).
Qed.

Lemma SubBalance_db a z s : leaves_db s (SubBalance a z s).
Proof. apply obj_set_db_ok. intros o s'. unfold obj_SubBalance. case_match; [done|fires]. Qed.

Lemma SetNonce_db a z s : leaves_db s (SetNonce a z s).
Proof. apply obj_set_db_ok. intros o s'. fires. Qed.

Lemma SetState_db a k x s : leaves_db s (SetState a k x s).
Proof.
  apply leaves_bind1; [apply GetOrNew_db|]. intros s' o. unfold obj_SetState. destruct (obj_GetState _ _ _) as [[o1 v]| |]; cbn; try done.
  fires.
Qed.

Lemma CreateAccount_db a s : leaves_db s (CreateAccount a s).
Proof.
  unfold CreateAccount. pose proof (createObject_db a s) as Hc. destruct (createObject a s) as [[[s1 o] prev]| |]; cbn in *; try done.
  destruct prev; cbn; [|done]. unfold obj_setBalance. by rewrite fireDirty_db.
Qed.

Lemma Suicide_db a s : leaves_db2 s (Suicide a s).
Proof.
  apply leaves_bind; [apply getStateObject_db|]. intros s' [o|]; [|done]. cbn. unfold obj_markSuicided, fireDirty. cbn. by destruct (so_onDirty o).
Qed.

Lemma read_db {A} (f : stateObject → A) d a s : leaves_db2 s (read f d a s).
Proof. apply leaves_bind; [apply getStateObject_db|done]. Qed.

Lemma GetState_db a k s : leaves_db2 s (GetState a k s).
Proof.
  apply leaves_bind; [apply getStateObject_db|]. intros s' [o|]; [|done]. cbn. by destruct (obj_GetState _ _ _) as [[o1 v]| |].
Qed.

Lemma undo_obj_db a f s : (∀ o s', sdb_db (f o s').2 = sdb_db s') → leaves_db s (undo_obj a f s).
Proof.
  intros Hf. apply leaves_bind1; [apply getStateObject_db|]. intros s' [o|]; cbn; [apply Hf|done].
Qed.

Lemma undo_db e s : leaves_db s (undo e s).
Proof.
  destruct e; cbn [undo]; try done; try (by apply undo_obj_db; intros; fires).
  - apply leaves_bind1; [apply getStateObject_db|]. intros s' [o|]; cbn; [fires|done].
  - cbn. repeat case_match; done.
  - case_match; [|done]. pose proof (undo_obj_db account (fun o s => (set_touched prev o, s)) s ltac:(done)) as Hu.
    destruct (undo_obj _ _ s); cbn in *; try done. by case_match.
Qed.

Lemma undo_all_db es s : leaves_db s (undo_all es s).
Proof.
  induction es as [|e es IH]; cbn [undo_all]; [done|]. destruct (undo_all es s) as [s'| |]; cbn in *; try done.
  pose proof (undo_db e s') as Hu. unfold leaves_db in *. destruct (undo e s'); congruence.
Qed.

Lemma RevertToSnapshot_db id s : leaves_db s (RevertToSnapshot id s).
Proof.
  unfold RevertToSnapshot. case_match; [|done]. case_match; [|done].
  match goal with |- context [undo_all ?es s] => pose proof (undo_all_db es s) as Hu; destruct (undo_all es s) end; done.
Qed.

End Ops.

Section Laws.
Context `{HK : Keccak, HD : Database, HC : ARCCache Z, !KeccakLaws}.
Context (tdb : TrieDB) (m : gmap (list Z) (list Z)).

(** ** The sizes of codes *)

Definition sizes_ok (db : cachingDB) : Prop := ∀ h n, arc_holds (cdb_codeSizeCache db) h n → n = strlen (default [] (tdb_Node tdb h)).

Lemma ContractCode_sizes h db : cdb_db db = tdb → sizes_ok db →
  (ContractCode h db).1.2 = tdb_Node tdb h ∧ sizes_ok (ContractCode h db).1.1.
Proof.
  intros Hdb Hs. unfold ContractCode, tdb_Node in *. rewrite Hdb.
  assert (∀ code, code = tdb_Node tdb h → sizes_ok (set_codeSizeCache (arc_add h (strlen (default [] code)) (cdb_codeSizeCache db)) db)) as Hadd.
  { intros code -> h' n Hh. apply arc_add_frame in Hh as [[-> ->]|Hh]; [done|by apply Hs]. }
  unfold tdb_Node in Hadd. destruct (tdb_nodes tdb !! h); [by split; [|apply Hadd]|]. destruct (db_Get h (tdb_disk tdb)); [by split; [|apply Hadd]|done].
Qed.

Lemma obj_Code_sizes db o : cdb_db db = tdb → sizes_ok db → sizes_ok (obj_Code db o).1.1.
Proof.
  intros Hdb Hs. unfold obj_Code. destruct (so_code o); [done|]. case_match; [done|].
  destruct (ContractCode_sizes (BytesToHash (acc_CodeHash (so_data o))) db Hdb Hs) as [_ Hs']. by destruct (ContractCode _ _) as [[db' c] e].
Qed.

Lemma ContractCodeSize_sizes h db : cdb_db db = tdb → sizes_ok db →
  (ContractCodeSize h db).1.2 = strlen (default [] (tdb_Node tdb h)) ∧ sizes_ok (ContractCodeSize h db).1.1.
Proof.
  intros Hdb Hs. unfold ContractCodeSize. destruct (arc_get h (cdb_codeSizeCache db)) as [cache cached] eqn:E.
  assert (sizes_ok (set_codeSizeCache cache db)) as Hs1 by (intros h' n Hh; apply Hs; by eapply arc_get_frame).
  destruct cached as [n|]; cbn; [split; [by eapply Hs, arc_get_holds|done]|].
  destruct (ContractCode_sizes h (set_codeSizeCache cache db) Hdb Hs1) as [Hc Hs2]. destruct (ContractCode h _) as [[db' code] err]. cbn in *. subst code.
  split; [done|]. destruct err; [done|]. intros h' n Hh. apply arc_add_frame in Hh as [[-> ->]|Hh]; [done|by apply Hs2].
Qed.

(** ** The promises *)

Definition sdb_sees (s : StateDB) (w : world) : Prop := inv tdb m s ∧ revs_ok s ∧ sees tdb m s w ∧ sizes_ok (sdb_db s).

Definition sdb_later (s s' : StateDB) : Prop := framed tdb m s s' ∧ tx_of s' = tx_of s.

Definition keeps_tx (op : stateOp) : Prop := ∀ w, w_tx (specOp op w) = w_tx w.

Lemma does_intro f op : (∀ s, f s = execOp op s) → keeps_tx op →
  (∀ s s', inv tdb m s → sizes_ok (sdb_db s) → f s = Ok s' → sizes_ok (sdb_db s')) → does sdb_sees sdb_later f op.
Proof.
  intros Hf Htx Hsz s w (Hi & Hr & Hs & Hz). destruct (execOp_sees tdb m op s w Hi Hr Hs) as (s' & E & Hs').
  destruct (execOp_framed tdb m op s Hi Hr) as (s'' & E' & Hfr). rewrite E in E'. injection E' as <-. rewrite <- Hf in E.
  exists s'. split; [done|]. split.
  - split_and!; [apply Hfr|by eapply framed_revs_ok|done|by eapply Hsz].
  - split; [done|]. by rewrite (sees_tx _ _ _ _ Hs'), (sees_tx _ _ _ _ Hs), Htx.
Qed.

Lemma does_leaves f op : (∀ s, f s = execOp op s) → keeps_tx op → (∀ s, leaves_db s (f s)) → does sdb_sees sdb_later f op.
Proof. intros Hf Htx Hl. apply does_intro; [done|done|]. intros s s' _ Hz E. specialize (Hl s). rewrite E in Hl. by rewrite Hl. Qed.

Lemma silent_answers {A} (f : StateDB → pan (StateDB * A)) g :
  (∀ s w, inv tdb m s → sees tdb m s w → sizes_ok (sdb_db s) → ∃ s', f s = Ok (s', g w) ∧ silent tdb m s s' ∧ sizes_ok (sdb_db s')) →
  answers_with sdb_sees sdb_later f g.
Proof.
  intros Hf s w (Hi & Hr & Hs & Hz). destruct (Hf s w Hi Hs Hz) as (s' & E & Hsi & Hz'). exists s'. split; [done|].
  assert (framed tdb m s s') as Hfr by apply undoable_framed, Hsi. split.
  - split_and!; [apply Hfr|by eapply framed_revs_ok|by eapply silent_sees|done].
  - split; [done|apply Hsi].
Qed.

Lemma leaves_sizes {A} s (r : pan (StateDB * A)) s' a : leaves_db2 s r → r = Ok (s', a) → sizes_ok (sdb_db s) → sizes_ok (sdb_db s').
Proof. intros Hl -> Hz. cbn in Hl. by rewrite Hl. Qed.

Lemma read_answers {A} (f : stateObject → A) (g : accountView → A) d a : (∀ o v, view_eq (view_of tdb o) v → f o = g v) →
  answers_with sdb_sees sdb_later (read f d a) (fun w => from_option g d (w_accounts w a)).
Proof.
  intros Hfg. apply silent_answers. intros s w Hi Hs Hz. destruct (read_spec tdb m f d a s Hi) as (s' & E & Hsi).
  rewrite (sees_from tdb m f g d s w a Hfg Hs) in E. exists s'. split_and!; [done|done|]. eapply leaves_sizes; [apply read_db|done|done].
Qed.

Lemma SetCode_sizes a c s s' : inv tdb m s → sizes_ok (sdb_db s) → SetCode a c s = Ok s' → sizes_ok (sdb_db s').
Proof.
  intros Hi Hz. unfold SetCode. pose proof (GetOrNew_db a s) as Hg. destruct (GetOrNewStateObject a s) as [[s1 o]| |]; cbn in *; try done.
  intros [= <-]. rewrite store_obj_db. unfold obj_SetCode. pose proof (obj_Code_sizes (sdb_db s1) o) as Hc. rewrite Hg in Hc.
  specialize (Hc (inv_db tdb m s Hi) Hz). rewrite Hg. destruct (obj_Code (sdb_db s) o) as [[db o1] c1]. unfold obj_setCode. by rewrite fireDirty_db.
Qed.

Lemma GetCode_answers a : answers_with sdb_sees sdb_later (GetCode a) (w_code a).
Proof.
  apply silent_answers. intros s w Hi Hs Hz. destruct (GetCode_spec tdb m a s Hi) as (s' & E & Hsi). exists s'. split_and!; [|done|].
  - rewrite E. do 2 f_equal. unfold w_code. destruct (look m s a) as [o|] eqn:El.
    + destruct (sees_Some tdb m _ _ _ _ Hs El) as (v & -> & []). done.
    + by rewrite (sees_None tdb m _ _ _ Hs El).
  - revert E. unfold GetCode. pose proof (getStateObject_db a s) as Hg. destruct (getStateObject a s) as [[s1 [o|]]| |]; cbn in *; try done.
    + pose proof (obj_Code_sizes (sdb_db s1) o) as Hc. rewrite Hg in *. specialize (Hc (inv_db tdb m s Hi) Hz).
      destruct (obj_Code (sdb_db s) o) as [[db o1] c1]. by intros [= <- _].
    + intros [= <- _]. by rewrite Hg.
Qed.

Lemma GetState_answers a k : answers_with sdb_sees sdb_later (GetState a k) (w_slot a k).
Proof.
  apply silent_answers. intros s w Hi Hs Hz. destruct (GetState_spec tdb m a k s Hi) as (s' & E & Hsi). exists s'. split_and!; [|done|].
  - rewrite E. do 2 f_equal. apply sees_from with (tdb := tdb) (m := m); [|done]. intros o v []. apply ve_slots.
  - eapply leaves_sizes; [apply GetState_db|done|done].
Qed.

(** No other code has the hash of the empty code. *)
Context (Hnone : default [] (tdb_Node tdb emptyCodeHash) = []).

Lemma code_size_view o : length (acc_CodeHash (so_data o)) = HashLength → so_code o = None →
  strlen (default [] (tdb_Node tdb (BytesToHash (acc_CodeHash (so_data o))))) = strlen (default [] (code_view tdb o)).
Proof.
  intros Hl Hc. unfold code_view. rewrite Hc, BytesToHash_32 by done. case_bool_decide as Hd; [|done]. by rewrite Hd, Hnone.
Qed.

Lemma GetCodeSize_answers a : answers_with sdb_sees sdb_later (GetCodeSize a) (fun w => strlen (default [] (w_code a w))).
Proof.
  apply silent_answers. intros s w Hi Hs Hz. destruct (GetCodeSize_spec tdb m a s Hi) as (s' & E & Hsi).
  unfold GetCodeSize in *. destruct (getStateObject_spec tdb m a s Hi) as (s1 & Eg & Hi1 & Hq & _). pose proof (getStateObject_db a s) as Hg.
  rewrite Eg in *. cbn in Hg. rewrite bind_Ok in *. unfold w_code. destruct (look m s a) as [o|] eqn:El.
  2: { cbn in E. injection E as <-. exists s1. rewrite (sees_None tdb m _ _ _ Hs El), Hg. by split_and!. }
  destruct (sees_Some tdb m _ _ _ _ Hs El) as (v & -> & [_ _ _ Hcode _ _]). cbn [mbind option_bind]. rewrite <- Hcode. cbn [av_code view_of].
  destruct (look_ok tdb m s a o Hi El) as (_ & Hok & _). destruct (so_code o) as [c|] eqn:Ec.
  { cbn in E. injection E as <-. exists s1. unfold code_view. rewrite Ec, Hg. by split_and!. }
  rewrite <- code_size_view by (apply Hok || done). set (h := BytesToHash _) in *.
  destruct (ContractCodeSize_sizes h (sdb_db s1)) as [Hn Hz']; [by apply (inv_db tdb m s1 Hi1)|by rewrite Hg|].
  destruct (ContractCodeSize h (sdb_db s1)) as [[db size] err]. cbn in Hn, Hz', E. subst size. injection E as <-.
  eexists. split; [done|]. split; [done|]. destruct err; [|done]. unfold state_setError. by case_match.
Qed.

Lemma Suicide_promise a s w : sdb_sees s w →
  ∃ s', Suicide a s = Ok (s', w_exists a w) ∧ sdb_sees s' (specOp (OpSuicide a) w) ∧ sdb_later s s'.
Proof.
  intros Hsees. destruct (does_leaves (fun s => state_after (Suicide a s)) (OpSuicide a)) with (s := s) (w := w) as (s' & E & Hs' & Hk); [done| | |done|].
  - intros w'. cbn. by destruct (w_accounts w' a).
  - intros s0. pose proof (Suicide_db a s0) as Hl. by destruct (Suicide a s0) as [[? ?]| |].
  - assert (∃ b, Suicide a s = Ok (s', b)) as [b Eb].
    { unfold state_after in E. destruct (Suicide a s) as [[s1 b]| |]; try done. injection E as <-. eauto. }
    exists s'. split; [|done]. rewrite Eb. do 2 f_equal. destruct Hsees as (Hi & _ & Hse & _). revert Eb. unfold Suicide, w_exists.
    destruct (getStateObject_spec tdb m a s Hi) as (s1 & -> & _). rewrite bind_Ok. destruct (look m s a) as [o|] eqn:El.
    + destruct (sees_Some tdb m _ _ _ _ Hse El) as (v & -> & _). destruct (obj_markSuicided _ _). by intros [= _ <-].
    + rewrite (sees_None tdb m _ _ _ Hse El). by intros [= _ <-].
Qed.

Lemma Snapshot_promise s w : sdb_sees s w → sdb_sees (Snapshot s).1 w ∧ sdb_later s (Snapshot s).1.
Proof.
  intros (Hi & Hr & Hs & Hz). pose proof (Snapshot_framed tdb m s Hi) as Hf. split; [|by split].
  split_and!; [apply Hf|by eapply framed_revs_ok|by destruct Hs|done].
Qed.

Lemma Revert_promise s0 w0 s w : sdb_sees s0 w0 → sdb_later (Snapshot s0).1 s → sdb_sees s w →
  ∃ s', RevertToSnapshot (Snapshot s0).2 s = Ok s' ∧ sdb_sees s' w0 ∧ sdb_later s0 s'.
Proof.
  intros (Hi0 & Hr0 & Hs0 & _) [Hf Htx] (_ & _ & _ & Hz).
  destruct (revert_spec tdb m s0 s Hr0 Hf) as (s' & E & Hi' & Ht' & He & _). destruct (revert_framed tdb m s0 s Hr0 Hf) as (s'' & E' & Hf').
  rewrite E in E'. injection E' as <-. assert (tx_of s' = tx_of s0) as Ht by (rewrite Ht'; exact Htx). exists s'. split; [done|]. split; [|by split].
  split_and!; [done|by eapply framed_revs_ok| |].
  - pose proof (framed_same_sees tdb m s0 s' w0 Hs0 He) as Hs'. rewrite Ht, (sees_tx _ _ _ _ Hs0) in Hs'. by destruct w0.
  - pose proof (RevertToSnapshot_db (Snapshot s0).2 s) as Hl. rewrite E in Hl. cbn in Hl. by rewrite Hl.
Qed.

(** ** The instance *)

Lemma later_same s w : sdb_sees s w → sdb_later s s.
Proof. intros (Hi & _). split; [|done]. apply undoable_framed, quiet_undoable; [done|by split]. Qed.

Lemma later_compose s1 s2 s3 : sdb_later s1 s2 → sdb_later s2 s3 → sdb_later s1 s3.
Proof. intros [F1 T1] [F2 T2]. split; [by eapply framed_trans|congruence]. Qed.

Lemma AddLog_tx l w : w_tx (w_addLog l w) = w_tx w.
Proof. unfold w_addLog. by destruct (w_tx w) as [[? ?] ?]. Qed.

Lemma account_answers a :
  answers_with sdb_sees sdb_later (GetBalance a) (w_balance a) ∧ answers_with sdb_sees sdb_later (GetNonce a) (w_nonce a) ∧
  answers_with sdb_sees sdb_later (GetCodeHash a) (w_codeHash a) ∧ answers_with sdb_sees sdb_later (HasSuicided a) (w_suicided a) ∧
  answers_with sdb_sees sdb_later (State.Empty a) (w_empty a) ∧ answers_with sdb_sees sdb_later (Exist a) (w_exists a).
Proof.
  split_and!; try (by apply read_answers; intros o v []).
  - apply read_answers. intros o v [_ _ Hc _ _ _]. by rewrite <- Hc.
  - apply read_answers. intros o v [Hn Hb Hc _ _ _]. unfold view_empty. by rewrite <- Hn, <- Hb, <- Hc.
  - intros s w Hs. destruct (read_answers (fun _ => true) (fun _ => true) false a ltac:(done) s w Hs) as (s' & E & Hs'). exists s'. split; [|done].
    unfold Exist. rewrite E. do 2 f_equal. unfold w_exists. destruct (w_accounts w a); [by rewrite bool_decide_eq_true_2|].
    by rewrite bool_decide_eq_false_2 by (by intros [? ?]).
Qed.

Lemma journaled_does :
  (∀ g, does sdb_sees sdb_later (fun s => Ok (AddRefund g s)) (OpAddRefund g)) ∧
  (∀ l, does sdb_sees sdb_later (fun s => Ok (AddLog l s)) (OpAddLog l)) ∧
  (∀ h p, does sdb_sees sdb_later (fun s => Ok (AddPreimage h p s)) (OpAddPreimage h p)).
Proof.
  split_and!; intros.
  - by apply does_leaves.
  - apply does_leaves; [done|intros w; apply AddLog_tx|done].
  - apply does_leaves; [done|done|]. intros s. cbn. unfold AddPreimage. by case_match.
Qed.

Definition StateDB_laws : StateLaws StateDB_ops.
Proof.
  refine {| st_sees := sdb_sees; st_later := sdb_later |}.
  - exact later_same.
  - exact later_compose.
  - intros a. apply does_leaves; [done|done|apply CreateAccount_db].
  - intros a z. apply does_leaves; [done|done|apply SubBalance_db].
  - intros a z. apply does_leaves; [done|done|apply AddBalance_db].
  - intros a n. apply does_leaves; [done|done|apply SetNonce_db].
  - intros a c. apply does_intro; [done|done|apply SetCode_sizes].
  - apply journaled_does.
  - intros a k x. apply does_leaves; [done|done|apply SetState_db].
  - apply journaled_does.
  - apply journaled_does.
  - exact Suicide_promise.
  - intros a. apply account_answers.
  - intros a. apply account_answers.
  - intros a. apply account_answers.
  - exact GetCode_answers.
  - exact GetCodeSize_answers.
  - exact GetState_answers.
  - intros a. apply account_answers.
  - intros a. apply account_answers.
  - intros a. apply account_answers.
  - intros s w (_ & _ & Hs & _). apply Hs.
  - exact Snapshot_promise.
  - exact Revert_promise.
Defined.

End Laws.
