(* ===== verification/VmHoare.v ===== *)
(** * Reasoning about the virtual machine

    [holds r Q]: the computation [r] does not panic and its result satisfies
    [Q]; it may stop because of two codes with one hash, which it shows.
    [xwp] and [ewp] are the weakest preconditions of the computations on the
    machine and on the state of the virtual machine. *)

From S2P Require Import Prelude Types Interfaces Rlp Trie State StateFrame StateSpec GoMath Vm VmAnalysis VmExec VmPrecompiled Evm VmGas VmInstr VmLaws.
From stdpp Require Import base tactics option list numbers gmap.
From Stdlib Require Import ZArith Lia.

#[local] Open Scope Z_scope.

(** ** Results *)

Section Holds.
Context `{HK : Keccak}.

(** Two codes with one hash. *)
Definition collision (c : clash) : Prop := cl_first c ≠ cl_second c ∧ Keccak256 (cl_first c) = Keccak256 (cl_second c).

Definition holds {A} (r : vmres A) (Q : A → Prop) : Prop :=
  match r with Ok a => Q a | Err c => collision c | Panic => False end.

Lemma holds_bind {A B} (r : vmres A) (f : A → vmres B) Q : holds r (fun a => holds (f a) Q) → holds (r ≫= f) Q.
Proof. by destruct r. Qed.

Lemma holds_mono {A} (r : vmres A) (P Q : A → Prop) : (∀ a, P a → Q a) → holds r P → holds r Q.
Proof. destruct r; cbn; auto. Qed.

Lemma holds_Ok {A} (r : vmres A) a (Q : A → Prop) : r = Ok a → Q a → holds r Q.
Proof. by intros ->. Qed.

(** ** Jump destinations *)

(** What the cache holds are analyses of the codes with those hashes. *)
Definition dests_ok (d : destinations) : Prop :=
  ∀ h code bits, d !! h = Some (code, bits) → codeBitmap code = Ok bits ∧ h = Keccak256 code.

Lemma dests_ok_empty : dests_ok ∅.
Proof. intros h code bits. by rewrite lookup_empty. Qed.

Lemma big_BitLen_le z n : 0 ≤ z → 0 ≤ n → big_BitLen z ≤ n ↔ z < 2 ^ n.
Proof.
  intros Hz Hn. unfold big_BitLen. rewrite Z.abs_eq by done. destruct (Z.eqb_spec z 0) as [->|].
  - split; intros; [apply Z.pow_pos_nonneg|]; lia.
  - rewrite Z.log2_lt_pow2 by lia. lia.
Qed.

Lemma big_Int64_small z : 0 ≤ z < 2 ^ 63 → big_Int64 z = z.
Proof.
  intros Hz. unfold big_Int64, i64. rewrite Z.abs_eq by lia. unfold two64. rewrite (Z.mod_small z) by lia.
  destruct (Z.ltb_spec z 9223372036854775808); [|lia]. by destruct (Z.ltb_spec z 0); [lia|].
Qed.

(** [has], when the map of the code is known. *)
Lemma has_known code bits dest : codeBitmap code = Ok bits → 0 ≤ dest < strlen code →
  holds (op ← index (E := clash) code dest; if op =? JUMPDEST then codeSegment dest bits else Ok false : vmres bool)
    (fun b => b = true ↔ code !! Z.to_nat dest = Some JUMPDEST ∧ instruction_at code dest).
Proof.
  intros Hb Hd. destruct (lookup_lt_is_Some_2 code (Z.to_nat dest)) as [op Hop]; [lia|]. rewrite (index_lookup code dest op), bind_Ok by (done || lia).
  destruct (codeBitmap_marked code) as (bits' & pc & E & Hpc & Hm). rewrite Hb in E. injection E as <-.
  destruct (Z.eqb_spec op JUMPDEST) as [->|Hne].
  - destruct (codeSegment_spec code bits pc dest Hpc Hm Hd) as (b & -> & Hb'). cbn. rewrite Hb'. naive_solver.
  - cbn. split; [done|]. intros [[= E] _]. congruence.
Qed.

Lemma has_spec code dest d : dests_ok d → strlen code < maxCode → 0 ≤ dest →
  holds (has (Keccak256 code) code dest d)
    (fun '(d', b) => dests_ok d' ∧ (b = true ↔ code !! Z.to_nat dest = Some JUMPDEST ∧ instruction_at code dest)).
Proof.
  intros Hd Hl H0. unfold has, maxCode in *. destruct (Z.leb_spec 63 (big_BitLen dest)) as [Hb|Hb]; cbn [orb].
  { cbn. split; [done|]. split; [done|]. intros [Hx%lookup_lt_Some _]. assert (¬ dest < 2 ^ 62) as Hn; [|lia].
    rewrite <- big_BitLen_le by lia. lia. }
  assert (dest < 2 ^ 62) by (apply big_BitLen_le; lia). rewrite big_Uint64_small by (unfold two64; lia).
  destruct (Z.leb_spec (strlen code) dest) as [Hle|Hlt].
  { cbn. split; [done|]. split; [done|]. intros [Hx%lookup_lt_Some _]. lia. }
  assert (∀ bits d', codeBitmap code = Ok bits → dests_ok d' →
    holds (op ← index code dest; if op =? JUMPDEST then b ← codeSegment dest bits; Ok (d', b) else Ok (d', false))
    (fun '(d', b) => dests_ok d' ∧ (b = true ↔ code !! Z.to_nat dest = Some JUMPDEST ∧ instruction_at code dest))) as Hk.
  { intros bits d' Hbits Hd'. pose proof (has_known code bits dest Hbits ltac:(lia)) as Hh. destruct (index _ _) as [op| |]; try done.
    cbn [mbind outcome_mbind outcome_bind] in Hh |- *. destruct (op =? JUMPDEST); [destruct (codeSegment _ _)|]; first [exact Hh|split; [done|exact Hh]]. }
  destruct (d !! Keccak256 code) as [[code' bits]|] eqn:E.
  - destruct (Hd _ _ _ E) as [Hbits Hh]. case_decide as Hc; cbn; [|by split]. subst. by apply Hk.
  - destruct (codeBitmap_marked code) as (bits & _ & Hbits & _). rewrite Hbits, !bind_Ok. apply Hk; [done|].
    intros h c b [[<- [= <- <-]]|[_ Hx]]%lookup_insert_Some; [done|by eapply Hd].
Qed.

(** A jump is let through exactly when its destination is a JUMPDEST byte at
    which an instruction starts, for any destination on the stack and whether
    or not the analysis of the code is cached; the lookup never goes out of
    range, and it stops only on two codes with one hash. *)
Theorem has_correct code dest d : dests_ok d → strlen code < maxCode → 0 ≤ dest →
  match has (Keccak256 code) code dest d with
  | Ok (d', b) => dests_ok d' ∧ (b = true ↔ code !! Z.to_nat dest = Some JUMPDEST ∧ instruction_at code dest)
  | Err c => cl_first c ≠ cl_second c ∧ Keccak256 (cl_first c) = Keccak256 (cl_second c)
  | Panic => False
  end.
Proof. intros Hd Hl H0. pose proof (has_spec code dest d Hd Hl H0) as Hh. by destruct (has _ _ _ _) as [[d' b]|c|]. Qed.

End Holds.

(** ** Computations *)

Section Wp.
Context `{HK : Keccak, HS : StateOps, HL : !StateLaws HS}.

Definition ewp {A} (x : evmM A) (e : evmState) (Q : A → evmState → Prop) : Prop := holds (x e) (fun '(e', a) => Q a e').

Definition xwp {A} (x : exec A) (m : machine) (Q : A → machine → Prop) (F : machine → Prop) : Prop :=
  holds (x m) (fun '(m', r) => match r with inl a => Q a m' | inr _ => F m' end).

Lemma ewp_bind {A B} (x : evmM A) (f : A → evmM B) e Q : ewp x e (fun a e' => ewp (f a) e' Q) → ewp (x ≫= f) e Q.
Proof. unfold ewp. intros Hx. apply holds_bind. by apply holds_mono with (2 := Hx); intros [e' a]. Qed.

Lemma ewp_mono {A} (x : evmM A) e (P Q : A → evmState → Prop) : (∀ a e', P a e' → Q a e') → ewp x e P → ewp x e Q.
Proof. intros HPQ. apply holds_mono. intros [e' a]. apply HPQ. Qed.

Lemma ewp_ret {A} (a : A) e (Q : A → evmState → Prop) : Q a e → ewp (mret a) e Q.
Proof. done. Qed.

Lemma ewp_gets {A} (f : evmState → A) e (Q : A → evmState → Prop) : Q (f e) e → ewp (e_gets f) e Q.
Proof. done. Qed.

Lemma ewp_modify f e (Q : unit → evmState → Prop) : Q tt (f e) → ewp (e_modify f) e Q.
Proof. done. Qed.

Lemma ewp_lift {A} (r : vmres A) e (Q : A → evmState → Prop) : holds r (fun a => Q a e) → ewp (e_lift r) e Q.
Proof. by destruct r. Qed.

Lemma xwp_bind {A B} (x : exec A) (f : A → exec B) m Q F : xwp x m (fun a m' => xwp (f a) m' Q F) F → xwp (x ≫= f) m Q F.
Proof.
  unfold xwp. intros Hx. unfold mbind at 1, exec_mbind. apply holds_bind. apply holds_mono with (2 := Hx). intros [m' [a|e]] Ha; done.
Qed.

Lemma xwp_mono {A} (x : exec A) m (P Q : A → machine → Prop) (F G : machine → Prop) :
  (∀ a m', P a m' → Q a m') → (∀ m', F m' → G m') → xwp x m P F → xwp x m Q G.
Proof. intros HPQ HFG. apply holds_mono. intros [m' [a|e]]; [apply HPQ|apply HFG]. Qed.

Lemma xwp_ret {A} (a : A) m (Q : A → machine → Prop) F : Q a m → xwp (mret a) m Q F.
Proof. done. Qed.

Lemma xwp_throw {A} e m (Q : A → machine → Prop) (F : machine → Prop) : F m → xwp (throw e) m Q F.
Proof. done. Qed.

Lemma xwp_throw_if b e m Q (F : machine → Prop) : (b = true → F m) → (b = false → Q tt m) → xwp (throw_if b e) m Q F.
Proof. unfold throw_if. destruct b; cbn; auto. Qed.

Lemma xwp_gets {A} (f : machine → A) m (Q : A → machine → Prop) F : Q (f m) m → xwp (x_gets f) m Q F.
Proof. done. Qed.

Lemma xwp_lift {A} (r : vmres A) m (Q : A → machine → Prop) F : holds r (fun a => Q a m) → xwp (x_lift r) m Q F.
Proof. by destruct r. Qed.

Lemma xwp_get_mem {A} (f : Memory → vmres A) m (Q : A → machine → Prop) F : holds (f (x_mem m)) (fun a => Q a m) → xwp (get_mem f) m Q F.
Proof. unfold get_mem, xwp. by destruct (f (x_mem m)). Qed.

Lemma xwp_on_mem f m Q F : holds (f (x_mem m)) (fun x => Q tt (set_xmem x m)) → xwp (on_mem f) m Q F.
Proof. unfold on_mem, xwp. by destruct (f (x_mem m)). Qed.

Lemma xwp_on_stack f m Q F : holds (f (x_stack m)) (fun s => Q tt (set_xstack s m)) → xwp (on_stack f) m Q F.
Proof. unfold on_stack, xwp. by destruct (f (x_stack m)). Qed.

Lemma xwp_on_evm {A} (f : evmM A) m Q F : ewp f (x_evm m) (fun a e => Q a (set_xevm e m)) → xwp (on_evm f) m Q F.
Proof. unfold on_evm, xwp, ewp. by destruct (f (x_evm m)) as [[e a]| |]. Qed.

Lemma xwp_pop x s m Q F : x_stack m = x :: s → Q x (set_xstack s m) → xwp pop m Q F.
Proof. unfold pop, xwp. by intros ->. Qed.

Lemma xwp_push x m Q F : Q tt (set_xstack (x :: x_stack m) m) → xwp (push x) m Q F.
Proof. done. Qed.

Lemma xwp_Back n x m Q F : x_stack m !! n = Some x → Q x m → xwp (Back n) m Q F.
Proof. unfold Back, xwp. by intros ->. Qed.

Lemma xwp_set_pc pc m Q F : Q tt (set_xpc pc m) → xwp (set_pc pc) m Q F.
Proof. done. Qed.

Lemma xwp_modify_contract f m Q F : Q tt (set_xcontract (f (x_contract m)) m) → xwp (modify_contract f) m Q F.
Proof. done. Qed.

Lemma xwp_use_gas g m Q F : (let '(c, ok) := UseGas g (x_contract m) in Q ok (set_xcontract c m)) → xwp (use_gas g) m Q F.
Proof. unfold use_gas, xwp. by destruct (UseGas g (x_contract m)). Qed.

Lemma xwp_sum {A} (r : A + vmError) m (Q : A → machine → Prop) (F : machine → Prop) :
  match r with inl a => Q a m | inr _ => F m end → xwp (x_sum r) m Q F.
Proof. by destruct r. Qed.

(** The methods of the state. *)
Lemma ewp_do f op e w Q : does st_sees st_later f op → st_sees (e_db e) w →
  (∀ s, st_sees s (specOp op w) → st_later (e_db e) s → Q tt (set_edb s e)) → ewp (db_do f) e Q.
Proof. intros Hf Hw HQ. destruct (Hf _ _ Hw) as (s & E & Hs & Hk). unfold ewp, db_do. rewrite E. cbn. by apply HQ. Qed.

Lemma ewp_read {A} (f : st → pan (st * A)) g e w Q : answers_with st_sees st_later f g → st_sees (e_db e) w →
  (∀ s, st_sees s w → st_later (e_db e) s → Q (g w) (set_edb s e)) → ewp (db_read f) e Q.
Proof. intros Hf Hw HQ. destruct (Hf _ _ Hw) as (s & E & Hs & Hk). unfold ewp, db_read. rewrite E. cbn. by apply HQ. Qed.

End Wp.
