(* ===== verification/VmSafePre.v ===== *)
(** * The precompiled contracts are safe

    Below 2^57 gas none of them panics, and what they return are bytes.  The
    bound matters for the modular exponentiation only, whose lengths are paid
    for by gas; VmDemo.v shows a panic above it. *)

From S2P Require Import Prelude Types Interfaces Rlp Trie Sha3 State StateFrame StateSpec GoMath Vm VmAnalysis VmExec VmPrecompiled Evm VmGas VmInstr VmLaws VmHoare.
From stdpp Require Import base tactics option list numbers gmap.
From Stdlib Require Import ZArith Lia Zpow_facts.

#[local] Open Scope Z_scope.

Definition maxGas : Z := 2 ^ 57.

(** ** Slices *)

Lemma slice_in_range {E} (b : list Z) lo hi : 0 ≤ lo ≤ hi → hi ≤ strlen b →
  ∃ s, slice (E := E) b lo hi = Ok s ∧ strlen s = hi - lo ∧ (is_bytes b → is_bytes s).
Proof.
  intros Hl Hh. unfold slice. destruct (Z.leb_spec 0 lo), (Z.leb_spec lo hi), (Z.leb_spec hi (Z.of_nat (length b))); cbn; try lia.
  eexists. split; [done|]. split; [rewrite length_take, length_drop; lia|]. intros Hb. by apply Forall_take, Forall_drop.
Qed.

Lemma getData_ok data start size : is_bytes data → strlen data < maxCode → 0 ≤ start → 0 ≤ size < two64 - maxCode →
  ∃ b, getData data start size = Ok b ∧ is_bytes b ∧ (size < 2 ^ 63 → strlen b = size).
Proof.
  intros Hb Hl Hs Hz. unfold getData, maxCode in *. set (s := if strlen data <? start then strlen data else start).
  assert (0 ≤ s ≤ strlen data) by (subst s; destruct (Z.ltb_spec (strlen data) start); lia). unfold u64. rewrite Z.mod_small by lia.
  set (e := if strlen data <? s + size then strlen data else s + size).
  assert (s ≤ e ≤ strlen data ∧ e - s ≤ size) by (subst e; destruct (Z.ltb_spec (strlen data) (s + size)); lia).
  destruct (slice_in_range (E := clash) data s e) as (b & -> & Hlb & Hb'); [lia|lia|]. rewrite bind_Ok. eexists. split; [done|].
  split; [by apply RightPadBytes_bytes, Hb'|]. intros H63. rewrite RightPadBytes_length. unfold i64, two64 in *. rewrite Z.mod_small by lia.
  destruct (Z.ltb_spec size 9223372036854775808); lia.
Qed.

Lemma LeftPadBytes_length s l : strlen (LeftPadBytes s l) = Z.max l (strlen s).
Proof. unfold LeftPadBytes. destruct (Z.leb_spec l (strlen s)); [lia|]. rewrite length_app, length_replicate. lia. Qed.

Section Pre.
Context `{HK : Keccak, HP : EvmCrypto, !KeccakLaws, !EvmCryptoLaws}.

(** ** What is asked of a precompiled contract *)

Definition pre_ok (p : PrecompiledContract) : Prop := ∀ input, code_ok input →
  ∃ gas, p_RequiredGas p input = Ok gas ∧ 0 ≤ gas ∧
    (gas < maxGas → ∃ ret err, p_Run p input = Ok (ret, err) ∧ code_ok (default [] ret)).

Lemma code_ok_short b : is_bytes b → strlen b < maxCode → code_ok b.
Proof. by split. Qed.

Lemma code_ok_nil : code_ok [].
Proof. split; [by constructor|]. unfold maxCode. cbn. lia. Qed.

Lemma u64_nonneg z : 0 ≤ u64 z.
Proof. apply Z.mod_pos_bound. done. Qed.

Lemma words_gas_nonneg input a b : 0 ≤ words_gas input a b.
Proof. apply u64_nonneg. Qed.

Lemma ecrecover_ok : pre_ok (mkPrecompiled ecrecover_RequiredGas ecrecover_Run).
Proof.
  intros input [Hb Hl]. eexists. split; [done|]. split; [done|]. intros _. cbn [p_Run]. unfold ecrecover_Run.
  set (input' := RightPadBytes input 128). assert (is_bytes input') as Hb' by (by apply RightPadBytes_bytes).
  assert (128 ≤ strlen input') by (unfold input'; rewrite RightPadBytes_length; lia).
  destruct (slice_in_range (E := clash) input' 64 96) as (rb & -> & _); [lia|lia|]. destruct (slice_in_range (E := clash) input' 96 128) as (sb & -> & _); [lia|lia|].
  destruct (lookup_lt_is_Some_2 input' 63) as [v Hv]; [lia|]. rewrite (index_lookup input' 63 v) by done.
  destruct (slice_in_range (E := clash) input' 32 63) as (zs & -> & _); [lia|lia|]. rewrite !bind_Ok. case_match; [eauto using code_ok_nil|].
  destruct (slice_in_range (E := clash) input' 0 32) as (h & -> & _); [lia|lia|]. destruct (slice_in_range (E := clash) input' 64 128) as (sig & -> & _); [lia|lia|].
  rewrite !bind_Ok. destruct (vm_Ecrecover h _) as [k|] eqn:E; [|eauto using code_ok_nil]. apply vm_Ecrecover_bytes in E as [Hk Hne].
  assert (1 ≤ strlen k) by (destruct k; [done|cbn; lia]). destruct (slice_in_range (E := clash) k 1 (strlen k)) as (k' & -> & _); [lia|lia|].
  rewrite bind_Ok. pose proof (Keccak256_length k') as Hlen. unfold HashLength in Hlen.
  destruct (slice_in_range (E := clash) (Keccak256 k') 12 (strlen (Keccak256 k'))) as (a & -> & Hla & Ha); [lia|lia|]. rewrite bind_Ok.
  eexists _, _. split; [done|]. split; cbn; [by apply LeftPadBytes_bytes, Ha, Keccak256_bytes|]. rewrite LeftPadBytes_length. unfold maxCode. lia.
Qed.

Lemma sha256_block_length h b : (length (sha256.block h b) ≤ length h)%nat.
Proof. unfold sha256.block. rewrite length_zip_with. lia. Qed.

Lemma sha256_blocks_length n : ∀ h b, (length (sha256.blocks n h b) ≤ length h)%nat.
Proof.
  induction n as [|n IH]; intros h b; cbn [sha256.blocks]; [done|]. etransitivity; [apply IH|apply sha256_block_length].
Qed.

Lemma concat_words l : is_bytes (concat (be_bytes 4 <$> l)) ∧ length (concat (be_bytes 4 <$> l)) = (4 * length l)%nat.
Proof.
  induction l as [|x l [IH1 IH2]]; [split; [by constructor|done]|]. cbn [fmap list_fmap concat]. split.
  - apply Forall_app. split; [apply be_bytes_bytes|done].
  - rewrite length_app, be_bytes_length, IH2. cbn [length]. lia.
Qed.

Lemma sha256hash_ok : pre_ok (mkPrecompiled sha256hash_RequiredGas sha256hash_Run).
Proof.
  intros input _. eexists. split; [done|]. split; [apply words_gas_nonneg|]. intros _. eexists _, _. split; [done|]. cbn [default from_option id].
  unfold sha256.Sum256. set (l := sha256.blocks _ _ _). destruct (concat_words l) as [Hb Hl]. split; [done|].
  pose proof (sha256_blocks_length (length (sha256.padded input) / 64) sha256.H0 (sha256.padded input)) as Hlen.
  change (length sha256.H0) with 8%nat in Hlen. fold l in Hlen. change (id ?x) with x. rewrite Hl. unfold maxCode. lia.
Qed.

Lemma ripemd160hash_ok : pre_ok (mkPrecompiled ripemd160hash_RequiredGas ripemd160hash_Run).
Proof.
  intros input _. eexists. split; [done|]. split; [apply words_gas_nonneg|]. intros _. eexists _, _. split; [done|].
  destruct (Ripemd160_bytes input) as [Hb Hl]. split; cbn; [by apply LeftPadBytes_bytes|]. rewrite LeftPadBytes_length, Hl. unfold maxCode. lia.
Qed.

Lemma dataCopy_ok : pre_ok (mkPrecompiled dataCopy_RequiredGas dataCopy_Run).
Proof.
  intros input Hi. eexists. split; [done|]. split; [apply words_gas_nonneg|]. intros _. by eexists _, _.
Qed.

(** ** Modular exponentiation *)

Lemma modexp_complexity_bounds x : 0 ≤ x → 0 ≤ modexp_complexity x ∧ (1 ≤ x → 1 ≤ modexp_complexity x) ∧ (x ≤ 1024 ∨ x ≤ modexp_complexity x).
Proof.
  intros Hx. unfold modexp_complexity. destruct (Z.leb_spec x 64); [split_and!; [nia|nia|lia]|].
  destruct (Z.leb_spec x 1024).
  - assert (0 ≤ x * x / 4) by (apply Z.div_pos; nia). split_and!; lia.
  - assert (0 ≤ x * x / 16) by (apply Z.div_pos; nia). split_and!; lia.
Qed.

(** The gas bounds the lengths. *)
Lemma modexp_lengths x y : 1 ≤ x → 1 ≤ y → modexp_complexity x * y / 20 < maxGas → x < 2 ^ 62 ∧ y < 2 ^ 62.
Proof.
  intros Hx Hy Hg. destruct (modexp_complexity_bounds x) as (_ & H1 & H2); [lia|]. specialize (H1 Hx). unfold maxGas in Hg.
  pose proof (Z.mul_succ_div_gt (modexp_complexity x * y) 20 ltac:(lia)).
  split; [|nia]. destruct H2; [lia|nia].
Qed.

Lemma modexp_rest_ok input : code_ok input → code_ok (modexp_rest input).
Proof.
  intros [Hb Hl]. unfold modexp_rest. destruct (Z.ltb_spec 96 (strlen input)); [|apply code_ok_nil]. split; [by apply Forall_drop|].
  rewrite length_drop. lia.
Qed.

Lemma big_Uint64_nonneg z : 0 ≤ big_Uint64 z < two64.
Proof. apply Z.mod_pos_bound. done. Qed.

Lemma modexp_expHead_ok input baseLen expLen : code_ok input → 0 ≤ expLen → ∃ z, modexp_expHead input baseLen expLen = Ok z ∧ 0 ≤ z.
Proof.
  intros [Hb Hl] He. unfold modexp_expHead. destruct (Z.leb_spec (strlen input) baseLen); [by exists 0|].
  destruct (Z.ltb_spec 32 expLen).
  - destruct (getData_ok input (big_Uint64 baseLen) 32) as (b & -> & Hb' & _); [done|done|apply big_Uint64_nonneg|done|].
    eexists. split; [done|by apply be_val_nonneg].
  - rewrite (big_Uint64_small expLen) by (unfold two64; lia).
    destruct (getData_ok input (big_Uint64 baseLen) expLen) as (b & -> & Hb' & _); [done|done|apply big_Uint64_nonneg|unfold two64, maxCode; lia|].
    eexists. split; [done|by apply be_val_nonneg].
Qed.

Lemma modexp_run_ok input b e m : code_ok input → is_bytes b → is_bytes e → is_bytes m →
  getData input 0 32 = Ok b → getData input 32 32 = Ok e → getData input 64 32 = Ok m →
  (be_val b < 2 ^ 62 ∧ be_val m < 2 ^ 62 ∧ be_val e < 2 ^ 62 ∨ be_val b = 0 ∧ be_val m = 0) →
  ∃ ret err, bigModExp_Run input = Ok (ret, err) ∧ code_ok (default [] ret).
Proof.
  intros Hi Hb He Hm E1 E2 E3 Hr. unfold bigModExp_Run. rewrite E1, E2, E3, !bind_Ok. apply be_val_nonneg in Hb, He, Hm.
  destruct (modexp_rest_ok input Hi) as [Hb' Hl']. set (input' := modexp_rest input) in *.
  destruct Hr as [(Hrb & Hrm & Hre)|[-> ->]]; [|eexists _, _; split; [done|apply code_ok_nil]].
  rewrite !big_Uint64_small by (unfold two64; lia). case_match; [eexists _, _; split; [done|apply code_ok_nil]|].
  destruct (getData_ok input' 0 (be_val b)) as (base & -> & _); [done|done|done|unfold two64, maxCode; lia|].
  destruct (getData_ok input' (be_val b) (be_val e)) as (ex & -> & _); [done|done|done|unfold two64, maxCode; lia|].
  destruct (getData_ok input' (be_val b + be_val e)%u64 (be_val m)) as (md & -> & Hmd & Hlm); [done|done|apply u64_nonneg|unfold two64, maxCode; lia|].
  rewrite !bind_Ok. specialize (Hlm ltac:(lia)). assert (i64 (be_val m) = be_val m) as ->.
  { unfold i64, two64. rewrite Z.mod_small by lia. destruct (Z.ltb_spec (be_val m) 9223372036854775808); lia. }
  destruct (Z.eqb_spec (big_BitLen (be_val md)) 0) as [E0|E0].
  - eexists _, _. split; [done|]. split; cbn; [apply LeftPadBytes_bytes; by constructor|]. rewrite LeftPadBytes_length. cbn. unfold maxCode. lia.
  - eexists _, _. split; [done|]. split; cbn; [apply LeftPadBytes_bytes, be_bytes_bytes|]. rewrite LeftPadBytes_length.
    assert (be_val md ≠ 0) by (intros Hz; by rewrite Hz in E0). pose proof (be_val_nonneg md Hmd). pose proof (be_val_bound md Hmd).
    rewrite Zpow_mod_correct by done. pose proof (Z.mod_pos_bound (be_val base ^ be_val ex) (be_val md) ltac:(lia)).
    pose proof (length_big_Bytes (be_val base ^ be_val ex mod be_val md) (length md) ltac:(lia)). unfold maxCode. lia.
Qed.

Lemma bigModExp_ok : pre_ok (mkPrecompiled bigModExp_RequiredGas bigModExp_Run).
Proof.
  intros input Hi. pose proof Hi as [Hb Hl]. cbn [p_RequiredGas p_Run]. unfold bigModExp_RequiredGas.
  destruct (getData_ok input 0 32) as (b & E1 & Hb1 & _); [done..|]. destruct (getData_ok input 32 32) as (e & E2 & Hb2 & _); [done..|].
  destruct (getData_ok input 64 32) as (m & E3 & Hb3 & _); [done..|]. pose proof (be_val_nonneg _ Hb1). pose proof (be_val_nonneg _ Hb2).
  pose proof (be_val_nonneg _ Hb3). rewrite E1, E2, E3, !bind_Ok.
  destruct (modexp_expHead_ok (modexp_rest input) (be_val b) (be_val e)) as (z & -> & Hz); [by apply modexp_rest_ok|done|]. rewrite bind_Ok.
  set (msb := if 0 <? big_BitLen z then _ else _). assert (0 ≤ msb) by (subst msb; destruct (Z.ltb_spec 0 (big_BitLen z)); lia).
  set (adj := _ + msb). assert (8 * (be_val e - 32) ≤ adj) as Hadj by (subst adj; destruct (Z.ltb_spec 32 (be_val e)); lia).
  unfold params.ModExpQuadCoeffDiv. set (x := math.BigMax (be_val m) (be_val b)). set (y := math.BigMax adj 1).
  assert (1 ≤ y ∧ adj ≤ y) by (subst y; unfold math.BigMax; destruct (Z.ltb_spec adj 1); lia).
  assert (be_val m ≤ x ∧ be_val b ≤ x) as [Hx1 Hx2] by (subst x; unfold math.BigMax; destruct (Z.ltb_spec (be_val m) (be_val b)); lia).
  destruct (modexp_complexity_bounds x) as (Hc & _); [lia|]. assert (0 ≤ modexp_complexity x * y / 20) as Hg by (apply Z.div_pos; nia).
  eexists. split; [done|]. split; [case_match; [done|apply big_Uint64_nonneg]|]. intros Hlt.
  apply (modexp_run_ok input b e m); try done. destruct (decide (x = 0)); [right; lia|left].
  assert (modexp_complexity x * y / 20 < maxGas) as Hgas; [|destruct (modexp_lengths x y) as [? ?]; [lia|lia|done|]; lia].
  destruct (Z.ltb_spec 64 (big_BitLen (modexp_complexity x * y / 20))) as [Hbit|Hbit]; [done|].
  rewrite big_Uint64_small in Hlt; [done|]. split; [done|]. by apply big_BitLen_le in Hbit.
Qed.

(** ** The curve *)

Lemma G1_Marshal_ok p : code_ok (G1_Marshal p).
Proof. destruct (G1_Marshal_bytes p) as [Hb Hl]. split; [done|]. rewrite Hl. unfold maxCode. lia. Qed.

Lemma bn256Add_ok : pre_ok (mkPrecompiled bn256Add_RequiredGas bn256Add_Run).
Proof.
  intros input [Hb Hl]. eexists. split; [done|]. split; [done|]. intros _. cbn [p_Run]. unfold bn256Add_Run.
  destruct (getData_ok input 0 64) as (b1 & -> & _); [done..|]. destruct (getData_ok input 64 64) as (b2 & -> & _); [done..|].
  rewrite !bind_Ok. destruct (newCurvePoint b1) as [x|e]; [|eexists _, _; split; [done|apply code_ok_nil]]. rewrite bind_Ok.
  destruct (newCurvePoint b2) as [y|e]; eexists _, _; (split; [done|]); [apply G1_Marshal_ok|apply code_ok_nil].
Qed.

Lemma bn256ScalarMul_ok : pre_ok (mkPrecompiled bn256ScalarMul_RequiredGas bn256ScalarMul_Run).
Proof.
  intros input [Hb Hl]. eexists. split; [done|]. split; [done|]. intros _. cbn [p_Run]. unfold bn256ScalarMul_Run.
  destruct (getData_ok input 0 64) as (b1 & -> & _); [done..|]. destruct (getData_ok input 64 32) as (b2 & -> & _); [done..|].
  rewrite !bind_Ok. destruct (newCurvePoint b1) as [x|e]; [|eexists _, _; split; [done|apply code_ok_nil]]. rewrite bind_Ok.
  eexists _, _. split; [done|]. apply G1_Marshal_ok.
Qed.

Lemma pairing_points_ok : ∀ fuel input cs ts, (length input ≤ fuel)%nat → strlen input mod 192 = 0 →
  ∃ r, pairing_points fuel input cs ts = Ok r.
Proof.
  induction fuel as [|fuel IH]; intros input cs ts Hf Hm; destruct input as [|x input'] eqn:Ei; cbn [pairing_points]; eauto; [cbn in Hf; lia|].
  rewrite <- Ei in *. assert (192 ≤ strlen input) as Hge.
  { pose proof (Z.div_mod (strlen input) 192 ltac:(lia)). assert (0 < strlen input) by (rewrite Ei; cbn; lia).
    assert (0 < strlen input / 192) by (destruct (decide (strlen input / 192 ≤ 0)); lia). lia. }
  destruct (slice_in_range (E := clash) input 0 64) as (b1 & -> & _); [lia|lia|]. destruct (slice_in_range (E := clash) input 64 192) as (b2 & -> & _); [lia|lia|].
  rewrite bind_Ok. destruct (newCurvePoint b1) as [c|e]; [|eauto]. rewrite bind_Ok. destruct (newTwistPoint b2) as [t|e]; [|eauto].
  apply IH; [rewrite length_drop; lia|]. rewrite length_drop. replace (Z.of_nat (length input - 192)) with (strlen input + (-1) * 192) by lia.
  by rewrite Z.mod_add by lia.
Qed.

Lemma bn256Pairing_ok : pre_ok (mkPrecompiled bn256Pairing_RequiredGas bn256Pairing_Run).
Proof.
  intros input _. eexists. split; [done|]. split; [apply u64_nonneg|]. intros _. cbn [p_Run]. unfold bn256Pairing_Run.
  destruct (Z.ltb_spec 0 (strlen input mod 192)); [eexists _, _; split; [done|apply code_ok_nil]|].
  pose proof (Z.mod_pos_bound (strlen input) 192 ltac:(lia)).
  destruct (pairing_points_ok (length input) input [] []) as (r & ->); [lia|lia|]. rewrite bind_Ok.
  destruct r as [[cs ts]|e]; eexists _, _; (split; [done|]); [|apply code_ok_nil].
  destruct (PairingCheck cs ts); split; cbn; repeat constructor; unfold is_byte, maxCode; lia.
Qed.

Lemma precompiles_ok en a p : precompiles en a = Some p → pre_ok p.
Proof.
  unfold precompiles, PrecompiledContractsByzantium, PrecompiledContractsHomestead.
  pose proof ecrecover_ok. pose proof sha256hash_ok. pose proof ripemd160hash_ok. pose proof dataCopy_ok.
  pose proof bigModExp_ok. pose proof bn256Add_ok. pose proof bn256ScalarMul_ok. pose proof bn256Pairing_ok.
  destruct (en_Byzantium en); repeat case_decide; intros [= <-]; assumption.
Qed.

(** A precompiled contract takes its gas and returns bytes. *)
Lemma RunPrecompiledContract_ok en a p input c : precompiles en a = Some p → code_ok input → 0 ≤ c_Gas c < maxGas →
  ∃ g ret err, RunPrecompiledContract p input c = Ok (set_Gas g c, ret, err) ∧ 0 ≤ g ≤ c_Gas c ∧ code_ok (default [] ret).
Proof.
  intros Hp Hi Hg. destruct (precompiles_ok en a p Hp input Hi) as (gas & E & Hpos & Hrun). unfold RunPrecompiledContract. rewrite E, bind_Ok.
  unfold UseGas. destruct (Z.ltb_spec (c_Gas c) gas).
  - exists (c_Gas c), None, (Some ErrOutOfGas). split; [by destruct c|]. split; [lia|apply code_ok_nil].
  - destruct Hrun as (ret & err & E' & Hr); [lia|]. cbv iota beta. rewrite E', bind_Ok. exists (c_Gas c - gas)%u64, ret, err.
    split; [done|]. unfold u64. rewrite Z.mod_small by (unfold two64, maxGas in *; lia). split; [lia|done].
Qed.

End Pre.
