(* ===== verification/VmSafe.v ===== *)
(** * Calls and creations are safe

    [evm_at e0 w0 e w]: the virtual machine came from [e0], which saw the
    accounts [w0], to [e], which sees [w]: the snapshots of [e0] are still
    there, the depth and the mode are as before, the accounts are well-formed
    and hold no more ether together, and in a static call nothing but empty
    accounts was added.  A call of a
    runner that is safe below a gas limit is safe below it: it leaves no more
    gas than it got, and when it fails the accounts are those from before. *)

From S2P Require Import Prelude Types Interfaces Rlp Trie TrieSpec Sha3 State StateFrame StateSpec GoMath Vm VmAnalysis VmExec VmPrecompiled Evm VmGas VmInstr VmLaws VmHoare VmSafePre.
From stdpp Require Import base tactics option list numbers gmap.
From Stdlib Require Import ZArith Lia.

#[local] Open Scope Z_scope.

(** What is given from outside are bytes and natural numbers, and gas is
    metered. *)
Record env_ok (en : Env) : Prop := {
  en_ok_Origin : is_bytes (en_Origin en);
  en_ok_Coinbase : is_bytes (en_Coinbase en);
  en_ok_GasPrice : 0 ≤ en_GasPrice en;
  en_ok_GetHash : ∀ n, is_bytes (en_GetHash en n);
  en_ok_metered : en_DisableGasMetering en = false
}.

Section Safe.
Context `{HK : Keccak, HP : EvmCrypto, !KeccakLaws, !EvmCryptoLaws, HS : StateOps, HL : !StateLaws HS} (en : Env).

(** ** Invariants *)

Record evm_at (e0 : evmState) (w0 : world) (e : evmState) (w : world) : Prop := {
  ea_sees : st_sees (e_db e) w;
  ea_world : world_ok w;
  ea_supply : poorer w0 w;
  ea_later : st_later (e_db e0) (e_db e);
  ea_depth : e_depth e = e_depth e0;
  ea_readOnly : e_readOnly e = e_readOnly e0;
  ea_static : en_Byzantium en && e_readOnly e0 = true → same_world w0 w;
  ea_returnData : code_ok (e_returnData e);
  ea_callGasTemp : 0 ≤ e_callGasTemp e < two64
}.

Definition evm_ok (e : evmState) (w : world) : Prop := evm_at e w e w.

Lemma evm_at_trans e0 w0 e1 w1 e2 w2 : evm_at e0 w0 e1 w1 → evm_at e1 w1 e2 w2 → evm_at e0 w0 e2 w2.
Proof.
  intros [? ? P1 K1 ? R1 S1 ? ?] [? ? P2 K2 ? R2 S2 ? ?]. split; try done; try congruence.
  - by transitivity w1.
  - by eapply later_trans.
  - intros Hs. transitivity w1; [by apply S1|]. apply S2. by rewrite R1.
Qed.

Lemma evm_at_ok e0 w0 e w : evm_at e0 w0 e w → evm_ok e w.
Proof. intros []. split; try done; try reflexivity. by eapply later_refl. Qed.

(** A step from a state to another. *)
Lemma evm_at_step e0 w0 e w s w' : evm_at e0 w0 e w → st_sees s w' → st_later (e_db e) s → world_ok w' → poorer w w' →
  (en_Byzantium en && e_readOnly e0 = true → same_world w w') → evm_at e0 w0 (set_edb s e) w'.
Proof.
  intros [? ? P1 K1 ? R1 S1 ? ?] Hs K2 Hw P2 Hst. split; try done.
  - by transitivity w.
  - by eapply later_trans.
  - intros Hs'. transitivity w; [by apply S1|by apply Hst].
Qed.

(** ** The methods of the state *)

Lemma ewp_read_at {A} (f : st → pan (st * A)) g e0 w0 e w (Q : A → evmState → Prop) : answers_with st_sees st_later f g →
  evm_at e0 w0 e w → (∀ s, evm_at e0 w0 (set_edb s e) w → Q (g w) (set_edb s e)) → ewp (db_read f) e Q.
Proof.
  intros Hf He HQ. eapply ewp_read; [done|by apply He|]. intros s Hs Hk. apply HQ. eapply evm_at_step; try done. apply He.
Qed.

Lemma ewp_do_at f op e0 w0 e w (Q : unit → evmState → Prop) : does st_sees st_later f op → evm_at e0 w0 e w → op_fits op w → op_frugal op →
  (en_Byzantium en && e_readOnly e0 = true → same_world w (specOp op w)) →
  (∀ s, evm_at e0 w0 (set_edb s e) (specOp op w) → Q tt (set_edb s e)) → ewp (db_do f) e Q.
Proof.
  intros Hf He Hop Hfr Hst HQ. eapply ewp_do; [done|by apply He|]. intros s Hs Hk. apply HQ. eapply evm_at_step; try done.
  - apply specOp_ok; [done|apply He].
  - by apply op_frugal_poorer.
Qed.

(** ** Contracts *)

Record contract_wf (c : Contract) : Prop := {
  cw_caller : is_bytes (c_CallerAddress c);
  cw_self : is_bytes (c_self c);
  cw_dests : dests_ok (c_jumpdests c);
  cw_code : code_ok (c_Code c);
  cw_hash : c_Code c ≠ [] → c_CodeHash c = Keccak256 (c_Code c);
  cw_input : code_ok (c_Input c);
  cw_gas : 0 ≤ c_Gas c;
  cw_value : ∃ v, c_value c = Some v ∧ 0 ≤ v
}.

(** A runner that is safe for contracts with less gas than [limit]. *)
Definition run_post (contract : Contract) (e : evmState) (w : world) (r : Contract * option (list Z) * option vmError) (e' : evmState) : Prop :=
  let '(c', ret, err) := r in
  ∃ w', evm_at e w e' w' ∧ 0 ≤ c_Gas c' ≤ c_Gas contract ∧ dests_ok (c_jumpdests c') ∧ code_ok (default [] ret).

Definition runner_ok (limit : Z) (interp : runner) : Prop :=
  ∀ e w contract input, evm_ok e w → contract_wf contract → c_Gas contract < limit → code_ok input →
    ewp (interp contract input) e (run_post contract e w).

Context (limit : Z) (Hlimit : limit ≤ maxGas) (interp : runner) (Hinterp : runner_ok limit interp).

Lemma run_contract_ok e w contract input : evm_ok e w → contract_wf contract → c_Gas contract < limit → code_ok input →
  ewp (run en interp contract input) e (run_post contract e w).
Proof.
  intros He Hc Hg Hi. unfold run. destruct (c_CodeAddr contract ≫= precompiles en) as [p|] eqn:E; [|by apply Hinterp].
  apply bind_Some in E as (a & _ & Hp). apply ewp_lift.
  destruct (RunPrecompiledContract_ok en a p input contract Hp Hi) as (g & ret & err & -> & Hg' & Hret); [split; [apply Hc|lia]|].
  exists w. split_and!; [done|cbn; lia|cbn; lia|apply Hc|done].
Qed.

(** What a call guarantees. *)
Definition call_post (gas : Z) (e : evmState) (w : world) (r : callResult) (e' : evmState) : Prop :=
  ∃ w', evm_at e w e' w' ∧ 0 ≤ r_gas r ≤ gas ∧ dests_ok (r_dests r) ∧ code_ok (default [] (r_ret r)) ∧ (r_err r ≠ None → w' = w).

Lemma call_post_intro gas e w ret g err d e' w' : evm_at e w e' w' → 0 ≤ g ≤ gas → dests_ok d → code_ok (default [] ret) →
  (err ≠ None → w' = w) → call_post gas e w (mkResult ret g err d) e'.
Proof. intros. by exists w'. Qed.

Definition ref_ok (r : ContractRef) : Prop :=
  match r with AccountRef a => is_bytes a | ParentRef c => contract_wf c end.

Lemma ref_Address_bytes r : ref_ok r → is_bytes (ref_Address r).
Proof. destruct r; [done|]. intros []. done. Qed.

Lemma ref_jumpdests_ok r : ref_ok r → dests_ok (ref_jumpdests r).
Proof. destruct r; [intros _; apply dests_ok_empty|]. intros []. done. Qed.

Lemma early_ok caller gas err e w : evm_ok e w → ref_ok caller → 0 ≤ gas → ewp (early caller gas err) e (call_post gas e w).
Proof.
  intros He Hc Hg. eapply call_post_intro; [done|lia|by apply ref_jumpdests_ok|apply code_ok_nil|done].
Qed.

Lemma early_at caller gas err e0 w0 e : evm_at e0 w0 e w0 → ref_ok caller → 0 ≤ gas → ewp (early caller gas err) e (call_post gas e0 w0).
Proof.
  intros He Hc Hg. eapply call_post_intro; [done|lia|by apply ref_jumpdests_ok|apply code_ok_nil|done].
Qed.

(** A snapshot [id] of the accounts [w], taken in [e1], and the state [es] after
    it. *)
Record snapped (e0 : evmState) (w0 : world) (e1 es : evmState) (id : Z) (w : world) : Prop := {
  sn_before : evm_at e0 w0 e1 w;
  sn_after : evm_at e0 w0 es w;
  sn_taken : st_Snapshot (e_db e1) = (e_db es, id)
}.

Lemma take_snapshot_ok e0 w0 e w Q : evm_at e0 w0 e w → (∀ s id, snapped e0 w0 e (set_edb s e) id w → Q id (set_edb s e)) →
  ewp take_snapshot e Q.
Proof.
  intros He HQ. pose proof (law_Snapshot _ _ (ea_sees _ _ _ _ He)) as [Hs Hl]. unfold ewp, take_snapshot.
  destruct (st_Snapshot (e_db e)) as [s id] eqn:E. apply HQ. split; [done| |done]. eapply evm_at_step; [done|done|done|apply He|done|reflexivity].
Qed.

Lemma revert_ok e0 w0 e1 es id w1 e w : snapped e0 w0 e1 es id w1 → evm_at es w1 e w →
  ewp (db_do (st_RevertToSnapshot id)) e (fun _ e' => evm_at e0 w0 e' w1).
Proof.
  intros [H1 H2 Ht] He. pose proof (ea_later _ _ _ _ He) as Hk. pose proof (law_RevertToSnapshot (e_db e1) w1 (e_db e) w (ea_sees _ _ _ _ H1)) as Hr.
  rewrite Ht in Hr. destruct (Hr Hk (ea_sees _ _ _ _ He)) as (s & E & Hs & Hl). unfold ewp, db_do. cbn in E. rewrite E. cbn.
  pose proof (evm_at_trans _ _ _ _ _ _ H2 He) as [? ? ? ? ? ? ? ? ?]. destruct H1 as [? ? ? K1 ? ? ? ? ?]. split; try done. by apply later_trans with (e_db e1).
Qed.

Lemma settle_ok e0 w0 e1 es id gas e w c ret err : snapped e0 w0 e1 es id w0 → evm_at es w0 e w →
  0 ≤ c_Gas c ≤ gas → dests_ok (c_jumpdests c) → code_ok (default [] ret) →
  ewp (settle id (c, ret, err)) e (call_post gas e0 w0).
Proof.
  intros Hsn He Hg Hd Hr. destruct err as [err|]; cbn [settle].
  - apply ewp_bind. eapply ewp_mono; [|by eapply revert_ok]. intros [] e' He'. apply ewp_ret.
    assert ((UseGas (c_Gas c) c).1 = set_Gas 0 c) as -> by (unfold UseGas, u64; by rewrite Z.ltb_irrefl, Z.sub_diag).
    eapply call_post_intro; [done| | |done|done]; case_decide; cbn; (done || lia).
  - apply ewp_ret. eapply call_post_intro; [by eapply evm_at_trans; [apply (sn_after _ _ _ _ _ _ Hsn)|]|done..].
Qed.

(** ** The parts of a call *)




Lemma w_codeHash_ok a w : world_ok w → default [] (w_code a w) ≠ [] → w_codeHash a w = Keccak256 (default [] (w_code a w)).
Proof.
  intros Hw. unfold w_codeHash, w_code. destruct (w_accounts w a) as [v|] eqn:E; [|done]. intros _. cbn.
  rewrite (vo_codeHash _ (wo_accounts w Hw _ _ E)). apply BytesToHash_32, Keccak256_length.
Qed.

Lemma load_code_ok addr c e0 w0 e w : evm_at e0 w0 e w → contract_wf c →
  ewp (load_code addr c) e (fun c' e' => evm_at e0 w0 e' w ∧ contract_wf c' ∧ c_Gas c' = c_Gas c).
Proof.
  intros He Hc. unfold load_code. apply ewp_bind. eapply ewp_read_at; [auto with laws|done|]. intros s1 He1.
  apply ewp_bind. eapply ewp_read_at; [auto with laws|done|]. intros s2 He2. apply ewp_ret. pose proof (ea_world _ _ _ _ He) as Hw.
  split; [done|]. split; [|done]. destruct Hc. split; try done; cbn.
  - by apply w_code_ok.
  - by apply w_codeHash_ok.
Qed.

Lemma NewContract_wf caller object value gas : ref_ok caller → is_bytes object → 0 ≤ value → 0 ≤ gas →
  contract_wf (NewContract caller object (Some value) gas).
Proof.
  intros Hc Ho Hv Hg. split; cbn; try done; [by apply ref_Address_bytes|by apply ref_jumpdests_ok|apply code_ok_nil|apply code_ok_nil|eauto].
Qed.

Lemma Transfer_ok sender recipient amount e0 w0 e w : evm_at e0 w0 e w → 0 ≤ amount ≤ w_balance sender w →
  (en_Byzantium en && e_readOnly e0 = true → amount = 0) →
  ewp (Transfer sender recipient amount) e (fun _ e' => ∃ w', evm_at e0 w0 e' w').
Proof.
  intros He Ha Hst. unfold Transfer. apply ewp_bind. pose proof (ea_world _ _ _ _ He) as Hw.
  eapply ewp_do; [auto with laws|by apply He|]. intros s1 Hs1 Hk1. eapply ewp_do; [auto with laws|done|]. intros s2 Hs2 Hk2.
  eexists. refine (evm_at_step _ _ e w s2 _ He Hs2 _ _ _ _).
  - by eapply later_trans.
  - apply specOp_ok; [cbn; lia|]. apply specOp_ok; [cbn; lia|done].
  - apply Transfer_poorer.
  - intros ->%Hst. etransitivity; [apply SubBalance_zero_same|apply AddBalance_zero_same].
Qed.

Lemma run_settle e0 w0 e1 es id gas e w contract input : snapped e0 w0 e1 es id w0 → evm_at es w0 e w → contract_wf contract →
  c_Gas contract = gas → gas < limit → code_ok input →
  ewp (r ← run en interp contract input; settle id r) e (call_post gas e0 w0).
Proof.
  intros Hsn He Hc Hgas Hlt Hi. apply ewp_bind. eapply ewp_mono; [|eapply run_contract_ok; [by eapply evm_at_ok|done|lia|done]].
  intros [[c ret] err] e' (w' & He' & Hg & Hd & Hr). eapply settle_ok; try done; [|lia]. by eapply evm_at_trans.
Qed.

Lemma CanTransfer_ok addr amount e0 w0 e w Q : evm_at e0 w0 e w →
  (∀ s, evm_at e0 w0 (set_edb s e) w → Q (amount <=? w_balance addr w) (set_edb s e)) → ewp (CanTransfer addr amount) e Q.
Proof.
  intros He HQ. apply ewp_bind. eapply ewp_read_at; [auto with laws|done|]. intros s Hs. by apply ewp_ret, HQ.
Qed.

(** ** The calls *)

Lemma Call_ok caller addr input gas value e w : evm_ok e w → ref_ok caller → is_bytes addr → code_ok input → 0 ≤ gas < limit → 0 ≤ value →
  (en_Byzantium en && e_readOnly e = true → value = 0) → ewp (Call en interp caller addr input gas value) e (call_post gas e w).
Proof.
  intros He Hc Ha Hi Hg Hv Hst. unfold Call. apply ewp_bind, ewp_gets. case_match; [apply early_ok; [done|done|lia]|]. case_match; [apply early_ok; [done|done|lia]|].
  apply ewp_bind. eapply CanTransfer_ok; [done|]. intros s1 He1. destruct (Z.leb_spec value (w_balance (ref_Address caller) w)); [|apply early_at; [done|done|lia]].
  cbn [negb]. apply ewp_bind. eapply take_snapshot_ok; [done|]. intros s2 id Hsn. pose proof (evm_at_ok _ _ _ _ (sn_after _ _ _ _ _ _ Hsn)) as He2.
  apply ewp_bind. eapply ewp_read_at; [auto with laws|done|]. intros s3 He3. case_match.
  { apply early_at; [|done|lia]. by eapply evm_at_trans; [apply (sn_after _ _ _ _ _ _ Hsn)|]. }
  apply ewp_bind. eapply ewp_mono with (P := fun _ e' => ∃ w', evm_at (set_edb s2 (set_edb s1 e)) w e' w' ∧ w_balance (ref_Address caller) w ≤ w_balance (ref_Address caller) w').
  2: { destruct (w_exists addr w) eqn:Ex; [apply ewp_ret; by exists w|]. eapply ewp_do_at; [auto with laws|done|done|done| |].
    - intros _. by apply CreateAccount_same.
    - intros s4 He4. eexists. split; [done|]. by rewrite CreateAccount_balance. }
  intros [] e4 (w4 & He4 & Hb). apply ewp_bind. eapply ewp_mono; [|eapply Transfer_ok; [done|lia|done]]. intros [] e5 (w5 & He5).
  apply ewp_bind. eapply ewp_mono; [|eapply load_code_ok; [done|apply (NewContract_wf caller addr value gas); [done|done|done|lia]]].
  intros contract e6 (He6 & Hcw & Hgas). eapply run_settle; [done|done|done|done|lia|done].
Qed.

Lemma CallCode_ok caller addr input gas value e w : evm_ok e w → ref_ok caller → is_bytes addr → code_ok input → 0 ≤ gas < limit → 0 ≤ value →
  ewp (CallCode en interp caller addr input gas value) e (call_post gas e w).
Proof.
  intros He Hc Ha Hi Hg Hv. unfold CallCode. apply ewp_bind, ewp_gets. case_match; [apply early_ok; [done|done|lia]|]. case_match; [apply early_ok; [done|done|lia]|].
  apply ewp_bind. eapply CanTransfer_ok; [done|]. intros s1 He1. case_match; [apply early_at; [done|done|lia]|].
  apply ewp_bind. eapply take_snapshot_ok; [done|]. intros s2 id Hsn. pose proof (evm_at_ok _ _ _ _ (sn_after _ _ _ _ _ _ Hsn)) as He2.
  apply ewp_bind. eapply ewp_mono; [|eapply load_code_ok; [done|apply (NewContract_wf caller (ref_Address caller) value gas)]];
    [|done|by apply ref_Address_bytes|done|lia]. intros contract e6 (He6 & Hcw & Hgas). eapply run_settle; [done|done|done|done|lia|done].
Qed.

Lemma DelegateCall_ok parent addr input gas e w : evm_ok e w → contract_wf parent → is_bytes addr → code_ok input → 0 ≤ gas < limit →
  ewp (DelegateCall en interp (ParentRef parent) addr input gas) e (call_post gas e w).
Proof.
  intros He Hc Ha Hi Hg. unfold DelegateCall. apply ewp_bind, ewp_gets. case_match; [apply early_ok; [done|done|lia]|]. case_match; [apply early_ok; [done|done|lia]|].
  apply ewp_bind. eapply take_snapshot_ok; [done|]. intros s2 id Hsn. pose proof (evm_at_ok _ _ _ _ (sn_after _ _ _ _ _ _ Hsn)) as He2.
  apply ewp_bind, ewp_lift. cbn [AsDelegate holds]. apply ewp_bind. eapply ewp_mono; [|eapply load_code_ok; [done|]].
  2: { destruct Hc as [? ? ? ? ? ? ? Hval]. split; cbn; try done; try apply code_ok_nil; lia. }
  intros contract e6 (He6 & Hcw & Hgas). eapply run_settle; [done|done|done|done|lia|done].
Qed.

Lemma set_readOnly_at b e w : evm_ok e w → evm_ok (set_readOnly b e) w.
Proof. intros []. split; try done; reflexivity. Qed.

Lemma StaticCall_ok caller addr input gas e w : evm_ok e w → ref_ok caller → is_bytes addr → code_ok input → 0 ≤ gas < limit →
  ewp (StaticCall en interp caller addr input gas) e (fun r e' => call_post gas e w r e' ∧
    (en_Byzantium en = true → ∃ w', st_sees (e_db e') w' ∧ same_world w w')).
Proof.
  intros He Hc Ha Hi Hg. unfold StaticCall.
  assert (∀ r e', call_post gas e w r e' → e_db e' = e_db e →
    call_post gas e w r e' ∧ (en_Byzantium en = true → ∃ w', st_sees (e_db e') w' ∧ same_world w w')) as Hearly.
  { intros r e' Hp Hdb. split; [done|]. intros _. exists w. split; [|reflexivity]. rewrite Hdb. apply He. }
  apply ewp_bind, ewp_gets. case_match; [apply (Hearly _ e); [by apply early_ok; [..|lia]|done]|].
  case_match; [apply (Hearly _ e); [by apply early_ok; [..|lia]|done]|]. clear Hearly.
  apply ewp_bind, ewp_gets. apply ewp_bind, ewp_modify. set (er := set_readOnly true e). assert (evm_ok er w) as Her by (by apply set_readOnly_at).
  apply ewp_bind. eapply take_snapshot_ok; [done|]. intros s2 id Hsn. pose proof (evm_at_ok _ _ _ _ (sn_after _ _ _ _ _ _ Hsn)) as He2.
  apply ewp_bind. eapply ewp_mono; [|eapply load_code_ok; [done|apply (NewContract_wf caller addr 0 gas); [done|done|done|lia]]].
  intros contract e6 (He6 & Hcw & Hgas). apply ewp_bind.
  eapply ewp_mono; [|eapply run_contract_ok; [by eapply evm_at_ok|done|rewrite Hgas; cbn; lia|done]].
  intros [[c ret] err] e7 (w7 & He7 & Hg7 & Hd & Hr). apply ewp_bind.
  eapply ewp_mono; [|eapply (settle_ok _ _ _ _ id gas); [done|by eapply evm_at_trans|rewrite Hgas in Hg7; done|done|done]].
  intros r e8 (w8 & He8 & Hg8 & Hd8 & Hr8 & Herr). apply ewp_bind, ewp_modify, ewp_ret. split.
  - exists w8. split_and!; try done; try lia. destruct He8 as [? ? ? ? ? Hro Hst ? ?]. cbn in Hro, Hst.
    destruct (e_readOnly e) eqn:Ero; split; cbn; rewrite ?Ero, ?andb_false_r; try done.
  - intros HB. exists w8. split; [destruct (e_readOnly e); apply He8|]. apply (ea_static _ _ _ _ He8). by rewrite HB.
Qed.

(** ** Creations *)

Definition create_post (gas : Z) (e : evmState) (w w1 : world) (x : callResult * Address) (e' : evmState) : Prop :=
  let '(r, addr) := x in
  is_bytes addr ∧ ∃ w', evm_at e w e' w' ∧ 0 ≤ r_gas r ≤ gas ∧ dests_ok (r_dests r) ∧ code_ok (default [] (r_ret r)) ∧
    (en_Homestead en = true → r_err r ≠ None → w' = w ∨ w' = w1).

Lemma UseGas_ok g c : 0 ≤ g → 0 ≤ c_Gas c < two64 →
  ∃ g', (UseGas g c).1 = set_Gas g' c ∧ 0 ≤ g' ≤ c_Gas c ∧ ((UseGas g c).2 = true → g' = c_Gas c - g).
Proof.
  intros Hg Hc. unfold UseGas. destruct (Z.ltb_spec (c_Gas c) g); cbn.
  - exists (c_Gas c). split; [by destruct c|]. split; [lia|done].
  - exists (c_Gas c - g). unfold u64. rewrite Z.mod_small by lia. split; [done|lia].
Qed.

(** Storing the code of the new contract. *)
Lemma store_code_ok contractAddr ret c es w1 e w gas err b : evm_at es w1 e w → en_Byzantium en && e_readOnly es = false →
  0 ≤ c_Gas c ≤ gas → gas < two64 → dests_ok (c_jumpdests c) → code_ok (default [] ret) →
  ewp (match err with
      | None =>
          if negb b then
            let createDataGas := (strlen (default [] ret) * params.CreateDataGas)%u64 in
            let '(contract, ok) := UseGas createDataGas c in
            if ok then db_do (st_SetCode contractAddr ret);; mret (contract, None)
            else mret (contract, Some ErrCodeStoreOutOfGas)
          else mret (c, None)
      | Some e => mret (c, Some e)
      end : evmM (Contract * option vmError)) e
    (fun '(c', err') e' => ∃ w', evm_at es w1 e' w' ∧ 0 ≤ c_Gas c' ≤ gas ∧ dests_ok (c_jumpdests c')).
Proof.
  intros He Hst Hg Hlt Hd Hr. destruct err as [err|]; [by apply ewp_ret; exists w|]. destruct b; cbn [negb]; [by apply ewp_ret; exists w|].
  destruct (UseGas_ok (strlen (default [] ret) * params.CreateDataGas)%u64 c) as (g' & E & Hg' & _); [apply u64_nonneg|lia|].
  cbv zeta. destruct (UseGas _ c) as [c' ok]. cbn in E. subst c'. destruct ok.
  - apply ewp_bind. eapply ewp_do_at; [auto with laws|done|done|done|by rewrite Hst|]. intros s Hs. apply ewp_ret. eexists. split; [done|]. cbn. split; [lia|done].
  - apply ewp_ret. eexists. split; [done|]. cbn. split; [lia|done].
Qed.

Lemma finish_create_ok e0 w0 e1 es id w1 contractAddr gas e w c ret err : snapped e0 w0 e1 es id w1 → evm_at es w1 e w →
  en_Byzantium en && e_readOnly es = false → 0 ≤ c_Gas c ≤ gas → gas < two64 → dests_ok (c_jumpdests c) → code_ok (default [] ret) →
  is_bytes contractAddr → ewp (finish_create en id contractAddr (c, ret, err)) e (create_post gas e0 w0 w1).
Proof.
  intros Hsn He Hst Hg Hlt Hd Hr Ha. unfold finish_create. set (big := en_EIP158 en && _). apply ewp_bind.
  eapply ewp_mono; [|by eapply (store_code_ok contractAddr ret c es w1 e w gas err big)].
  intros [c2 err2] e2 (w2 & He2 & Hg2 & Hd2). set (failed := match err2 with None => false | _ => _ end).
  destruct (big || failed) eqn:Ef.
  - apply ewp_bind, ewp_bind. eapply ewp_mono; [|by eapply revert_ok]. intros [] e3 He3. do 2 apply ewp_ret. split; [done|].
    exists w1. assert ((UseGas (c_Gas c2) c2).1 = set_Gas 0 c2) as -> by (unfold UseGas, u64; by rewrite Z.ltb_irrefl, Z.sub_diag).
    split; [done|]. case_decide; cbn; (split; [lia|split; [done|split; [done|auto]]]).
  - apply ewp_bind, ewp_ret, ewp_ret. apply orb_false_iff in Ef as [Eb Ef]. split; [done|]. exists w2. cbn.
    split; [by eapply evm_at_trans; [apply (sn_after _ _ _ _ _ _ Hsn)|]|]. split; [lia|]. split; [done|]. split; [done|].
    intros HH. rewrite Eb. destruct err2 as [err2|]; [|done]. subst failed. by rewrite HH in Ef.
Qed.

Lemma zeroAddress_bytes : is_bytes zeroAddress.
Proof. apply (replicate_bytes 20). Qed.

Lemma BytesToAddress_bytes b : is_bytes b → is_bytes (crypto.BytesToAddress b).
Proof.
  intros Hb. unfold crypto.BytesToAddress. apply Forall_app. split; [apply replicate_bytes|]. case_match; [by apply Forall_drop|done].
Qed.

Lemma createAddress_bytes b nonce : is_bytes (createAddress b nonce).
Proof. apply BytesToAddress_bytes, Forall_drop, Keccak256_bytes. Qed.

Lemma early_create caller gas gas' err a e0 w0 w1 e w : evm_at e0 w0 e w → ref_ok caller → 0 ≤ gas' ≤ gas → is_bytes a →
  (err ≠ None → w = w0 ∨ w = w1) → ewp (r ← early caller gas' err; mret (r, a)) e (create_post gas e0 w0 w1).
Proof.
  intros He Hc Hg Ha Hw. apply ewp_bind. apply ewp_ret, ewp_ret. split; [done|]. exists w. cbn.
  split; [done|]. split; [done|]. split; [by apply ref_jumpdests_ok|]. split; [apply code_ok_nil|auto].
Qed.

(** The account of the new contract. *)
Lemma create_account_ok {A} caller addr value es w1 (k : evmM A) Q : evm_ok es w1 → en_Byzantium en && e_readOnly es = false →
  0 ≤ value ≤ w_balance caller w1 → (∀ e' w', evm_at es w1 e' w' → ewp k e' Q) →
  ewp (db_do (st_CreateAccount addr);; (if en_EIP158 en then db_do (st_SetNonce addr 1) else mret tt : evmM unit);;
       Transfer caller addr value;; k) es Q.
Proof.
  intros He Hst Hv Hk. apply ewp_bind. eapply ewp_do_at; [auto with laws|done|done|done|by rewrite Hst|]. intros s1 He1.
  rewrite <- (CreateAccount_balance caller addr) in Hv. set (w2 := specOp _ w1) in *. apply ewp_bind.
  eapply ewp_mono with (P := fun _ e' => ∃ w', evm_at es w1 e' w' ∧ w_balance caller w2 = w_balance caller w').
  - intros [] e2 (w3 & He2 & Hb). apply ewp_bind. eapply ewp_mono; [|eapply Transfer_ok; [done|lia|by rewrite Hst]].
    intros [] e3 (w4 & He3). by eapply Hk.
  - destruct (en_EIP158 en); [|by exists w2]. eapply ewp_do_at; [auto with laws|done|done|done|by rewrite Hst|]. intros s2 He2.
    eexists. split; [done|]. by rewrite SetNonce_balance.
Qed.

Lemma Create_ok caller code gas value e w : evm_ok e w → en_Byzantium en && e_readOnly e = false → ref_ok caller → code_ok code →
  0 ≤ gas < limit → 0 ≤ value →
  ewp (Create en interp caller code gas value) e
    (create_post gas e w (specOp (OpSetNonce (ref_Address caller) (w_nonce (ref_Address caller) w + 1)%u64) w)).
Proof.
  intros He Hst Hc Hcode Hg Hv. unfold Create. apply ewp_bind, ewp_gets.
  case_match; [eapply early_create; [done|done|lia|apply zeroAddress_bytes|auto]|].
  apply ewp_bind. eapply CanTransfer_ok; [done|]. intros s1 He1. set (a := ref_Address caller) in *.
  destruct (Z.leb_spec value (w_balance a w)) as [Hb|_]; cbn [negb]; [|eapply early_create; [done|done|lia|apply zeroAddress_bytes|auto]].
  apply ewp_bind. eapply ewp_read_at; [auto with laws|done|]. intros s2 He2. apply ewp_bind.
  eapply ewp_do_at; [auto with laws|done|cbn; apply Z.mod_pos_bound; done|done|by rewrite Hst|]. intros s3 He3.
  rewrite <- (SetNonce_balance a a (w_nonce a w + 1)%u64 w) in Hb. set (w1 := specOp _ w) in *.
  apply ewp_bind. eapply ewp_read_at; [auto with laws|done|]. intros s4 He4. apply ewp_bind. eapply ewp_read_at; [auto with laws|done|]. intros s5 He5.
  case_match; [eapply early_create; [done|done|lia|apply zeroAddress_bytes|auto]|].
  apply ewp_bind. eapply take_snapshot_ok; [done|]. intros s6 id Hsn. pose proof (evm_at_ok _ _ _ _ (sn_after _ _ _ _ _ _ Hsn)) as He6.
  set (e6 := set_edb s6 _) in *. assert (en_Byzantium en && e_readOnly e6 = false) as Hst6 by done.
  apply create_account_ok with w1; [done|done|lia|]. intros e7 w7 He7. set (addr := createAddress _ _).
  case_match; [eapply early_create; [by eapply evm_at_trans; [apply (sn_after _ _ _ _ _ _ Hsn)|]|done|lia|apply createAddress_bytes|done]|].
  apply ewp_bind. eapply ewp_mono; [|eapply run_contract_ok; [by eapply evm_at_ok| |cbn; lia|apply code_ok_nil]].
  - intros [[c ret] err] e8 (w8 & He8 & Hg8 & Hd & Hr). cbn in Hg8. unfold maxGas, two64 in *.
    eapply finish_create_ok; [done|by eapply evm_at_trans|done|lia|unfold two64; lia|done|done|apply createAddress_bytes].
  - destruct (NewContract_wf caller addr value gas) as []; [done|apply createAddress_bytes|done|lia|]. by split.
Qed.

End Safe.
