(* ===== verification/VmSafeGas.v ===== *)
(** * The cost of instructions is safe

    [mach] is the invariant of the machine that runs a contract.  A cost
    function keeps it, changes nothing but the marks in the memory and the gas
    put aside for a call, and its result covers that gas: what an instruction
    hands to the contract it calls is less than what it costs. *)

From S2P Require Import Prelude Types Interfaces Rlp Trie TrieSpec Sha3 State StateFrame StateSpec GoMath Vm VmAnalysis VmExec VmPrecompiled Evm VmGas VmInstr VmTable VmLaws VmHoare VmSafePre VmSafe.
From stdpp Require Import base tactics option list numbers gmap.
From Stdlib Require Import ZArith Lia.

#[local] Open Scope Z_scope.

Definition maxMem : Z := 0xffffffffe0.

(** ** The tables of costs *)

Lemma gasTable_cases en : en_gasTable en = params.GasTableHomestead ∨ en_gasTable en = params.GasTableEIP150 ∨ en_gasTable en = params.GasTableEIP158.
Proof. unfold en_gasTable, params.ChainConfig_GasTable. repeat case_match; auto. Qed.

(** The first goal of the arithmetic of costs. *)
Ltac u64_lia := unfold is_u64, two64, maxMem, math.MaxUint64, maxU64 in *; lia.

Lemma toWordSize_u64 z : 0 ≤ z → 0 ≤ toWordSize z < two64.
Proof.
  intros Hz. unfold toWordSize. destruct (Z.ltb_spec (math.MaxUint64 - 31) z); [done|]. unfold math.MaxUint64, maxU64 in *. split; [apply Z.div_pos; lia|].
  apply Z.div_lt_upper_bound; unfold two64; lia.
Qed.

Lemma toWordSize_covers z r : 0 ≤ z < two64 → r = toWordSize z * 32 → r < two64 → z ≤ r.
Proof.
  intros Hz -> Hr. unfold toWordSize in *. destruct (Z.ltb_spec (math.MaxUint64 - 31) z); [by vm_compute in Hr|].
  pose proof (Z.mul_succ_div_gt (z + 31) 32 ltac:(lia)). lia.
Qed.

Section Gas.
Context `{HK : Keccak, HP : EvmCrypto, !KeccakLaws, !EvmCryptoLaws, HS : StateOps, HL : !StateLaws HS} (en : Env).

(** ** The machine *)

Section Machine.
Context (e0 : evmState) (w0 : world) (code : list Z).

Record mach (m : machine) : Prop := {
  mo_evm : ∃ w, evm_at en e0 w0 (x_evm m) w;
  mo_contract : contract_wf (x_contract m);
  mo_gas : c_Gas (x_contract m) < maxGas;
  mo_code : c_Code (x_contract m) = code;
  mo_stack : Forall (Z.le 0) (x_stack m);
  mo_limit : strlen (x_stack m) ≤ params.StackLimit;
  mo_bytes : is_bytes (m_store (x_mem m));
  mo_mem : mem_Len (x_mem m) ≤ maxMem;
  mo_pc : 0 ≤ x_pc m ≤ strlen code + 33
}.

(** [m] comes from [m0] by the computation of a cost. *)
Record paying (m0 m : machine) : Prop := {
  pa_mach : mach m;
  pa_contract : x_contract m = x_contract m0;
  pa_stack : x_stack m = x_stack m0;
  pa_pc : x_pc m = x_pc m0;
  pa_store : m_store (x_mem m) = m_store (x_mem m0)
}.

Lemma mach_evm m e w : mach m → evm_at en e0 w0 e w → mach (set_xevm e m).
Proof. intros [] He. split; eauto. Qed.

Lemma paying_refl m : mach m → paying m m.
Proof. by split. Qed.

Lemma paying_evm m0 m e w : paying m0 m → evm_at en e0 w0 e w → paying m0 (set_xevm e m).
Proof. intros [Hm ? ? ? ?] He. split; try done. by eapply mach_evm. Qed.

Context (m0 : machine).

Lemma pay_mem ms m Q : paying m0 m → 0 ≤ ms →
  (∀ fee m', paying m0 m' → is_u64 fee → ms ≤ maxMem → x_evm m' = x_evm m → Q fee m') → xwp (memoryGasCost ms) m Q (paying m0).
Proof.
  intros Hp Hms HQ. unfold xwp, memoryGasCost. destruct (Z.eqb_spec ms 0) as [->|]; [by apply HQ|].
  destruct (Z.ltb_spec 0xffffffffe0 ms); [done|]. case_match; cbn [holds]; [|apply HQ; [done|u64_lia|u64_lia|done]].
  apply HQ; [|by apply Z.mod_pos_bound|done|done]. destruct Hp as [[] ? ? ? ?]. by split.
Qed.

Lemma pay_add x y m Q : paying m0 m → is_u64 x → is_u64 y → (is_u64 x → is_u64 y → is_u64 (x + y) → Q (x + y) m) → xwp (safe_add x y) m Q (paying m0).
Proof.
  intros Hp Hx Hy HQ. unfold safe_add. rewrite math.SafeAdd_spec by done. case_decide.
  - apply xwp_bind, xwp_throw_if; [done|]. intros _. apply xwp_ret, HQ; [done|done|u64_lia].
  - apply xwp_bind, xwp_throw_if; [done|]. done.
Qed.

Lemma pay_mul x y m Q : paying m0 m → is_u64 x → is_u64 y → (is_u64 (x * y) → Q (x * y) m) → xwp (safe_mul x y) m Q (paying m0).
Proof.
  intros Hp Hx Hy HQ. unfold safe_mul. destruct (math.SafeMul_spec x y Hx Hy) as [Hs Hlt]. destruct (math.SafeMul x y) as [r o]. cbn in Hs. subst o.
  apply xwp_bind, xwp_throw_if; [done|]. intros Hb%bool_decide_eq_false. specialize (Hlt ltac:(lia)). injection Hlt as -> _. apply xwp_ret, HQ. unfold is_u64 in *. nia.
Qed.

Lemma pay_uint64 v m Q : paying m0 m → 0 ≤ v → (v < two64 → Q v m) → xwp (safe_uint64 v) m Q (paying m0).
Proof.
  intros Hp Hv HQ. unfold safe_uint64, bigUint64. apply xwp_bind, xwp_throw_if; [done|]. intros Hb%Z.ltb_ge.
  apply big_BitLen_le in Hb; [|done|lia]. change (2 ^ 64) with two64 in Hb. apply xwp_ret. rewrite big_Uint64_small by lia. by apply HQ.
Qed.

Lemma pay_Back n m Q : paying m0 m → Z.of_nat n < strlen (x_stack m0) →
  (∀ x, x_stack m0 !! n = Some x → 0 ≤ x → Q x m) → xwp (Back n) m Q (paying m0).
Proof.
  intros Hp Hn HQ. destruct (lookup_lt_is_Some_2 (x_stack m0) n) as [x Hx]; [lia|]. specialize (HQ x Hx). rewrite <- (pa_stack _ _ Hp) in Hx.
  eapply xwp_Back; [done|]. apply HQ. by eapply (Forall_lookup_1 _ _ _ _ (mo_stack _ (pa_mach _ _ Hp))).
Qed.

Lemma pay_read {A} (f : st → pan (st * A)) g m Q : answers_with st_sees st_later f g → paying m0 m →
  (∀ s w, world_ok w → paying m0 (set_xevm (set_edb s (x_evm m)) m) → Q (g w) (set_xevm (set_edb s (x_evm m)) m)) → xwp (x_read f) m Q (paying m0).
Proof.
  intros Hf Hp HQ. destruct (mo_evm _ (pa_mach _ _ Hp)) as [w He]. apply xwp_on_evm. eapply ewp_read_at; [done|done|]. intros s Hs.
  apply HQ; [apply He|]. by eapply paying_evm.
Qed.

Lemma pay_refund g m Q : en_Byzantium en && e_readOnly e0 = false → paying m0 m →
  (∀ s, paying m0 (set_xevm (set_edb s (x_evm m)) m) → Q tt (set_xevm (set_edb s (x_evm m)) m)) → xwp (x_do (st_AddRefund g)) m Q (paying m0).
Proof.
  intros Hst Hp HQ. destruct (mo_evm _ (pa_mach _ _ Hp)) as [w He]. apply xwp_on_evm. eapply ewp_do_at; [auto with laws|done|done|done|by rewrite Hst|].
  intros s Hs. apply HQ. by eapply paying_evm.
Qed.

(** ** Gas for a call *)

Lemma callGas_u64 t a b c g : callGas t a b c = inl g → is_u64 g.
Proof.
  unfold callGas. repeat case_match; intros [= <-]; (apply big_Uint64_nonneg || by apply Z.mod_pos_bound).
Qed.

Lemma pay_call gas m Q : paying m0 m → is_u64 gas → 0 < strlen (x_stack m0) →
  (∀ cost m', paying m0 m' → cost = gas + e_callGasTemp (x_evm m') → is_u64 cost → 0 ≤ e_callGasTemp (x_evm m') → Q cost m') →
  xwp (call_gas_temp en gas) m Q (paying m0).
Proof.
  intros Hp Hg Hx HQ. unfold call_gas_temp. apply xwp_bind. eapply pay_Back; [done|done|]. intros x _ Hx0. apply xwp_bind, xwp_gets.
  apply xwp_bind, xwp_sum. destruct (callGas _ _ _ _) as [g|e] eqn:E; [|done]. apply callGas_u64 in E. apply xwp_bind, xwp_on_evm, ewp_modify.
  destruct (mo_evm _ (pa_mach _ _ Hp)) as [w He].
  assert (paying m0 (set_xevm (set_callGasTemp g (x_evm m)) m)) as Hp' by (eapply (paying_evm _ _ _ w); [done|]; destruct He; by split).
  eapply pay_add; [done|done|done|]. intros _ _ Hlt. apply HQ; [done|done|u64_lia|cbn; u64_lia].
Qed.

End Machine.

(** ** What instructions hand over *)

Definition handed (n : Z) (m : machine) : Z :=
  if (n =? opcode.CALL) || (n =? opcode.CALLCODE) then
    e_callGasTemp (x_evm m) + (if math.U256 (default 0 (x_stack m !! 2%nat)) =? 0 then 0 else params.CallStipend)
  else if (n =? opcode.DELEGATECALL) || (n =? opcode.STATICCALL) then e_callGasTemp (x_evm m)
  else 0.

(** The cost of an operation that goes on is more than what it hands over. *)
Definition gas_ok (n : Z) (o : operation) : Prop :=
  ∀ e0 w0 code m ms, mach e0 w0 code m → validateStack o (x_stack m) = None →
    (en_Byzantium en && e_readOnly e0 = true → writes o = false) → 0 ≤ ms < two64 →
    xwp (gasCost o ms) m
      (fun cost m' => paying e0 w0 code m m' ∧ is_u64 cost ∧ (memorySize o ≠ None → ms ≤ maxMem) ∧
         handed n m' + (if halts o || reverts o then 0 else 1) ≤ cost)
      (paying e0 w0 code m).

Lemma makeStackFunc_None pop push s : makeStackFunc pop push s = None → pop ≤ strlen s ∧ strlen s + push - pop ≤ params.StackLimit.
Proof.
  unfold makeStackFunc, stack_require. destruct (Z.ltb_spec (strlen s) pop); [done|].
  destruct (Z.ltb_spec params.StackLimit (strlen s + push - pop)); [done|]. intros _. lia.
Qed.

Lemma writing_not_static b : (b = true → true = false) → b = false.
Proof. destruct b; [|done]. intros Hb. by discriminate Hb. Qed.

Create HintDb gas_functions.
#[local] Hint Unfold constGasFunc gasCallDataCopy gasReturnDataCopy gasCodeCopy gasExtCodeCopy gasSha3 makeGasLog gasMLoad gasMStore8 gasMStore
  gasCreate gasReturn gasRevert gasSStore gasBalance gasExtCodeSize gasSLoad gasExp gasCall gasCallCode gasDelegateCall gasStaticCall gasSuicide
  gasPush gasSwap gasDup : gas_functions.

(** Symbolic execution of a cost function. *)
Ltac gas_lia := unfold GasQuickStep, GasFastestStep, GasFastStep, GasMidStep, GasSlowStep, GasExtStep, params.CallValueTransferGas, params.CallNewAccountGas,
  params.SstoreSetGas, params.LogDataGas, params.CallStipend, params.Sha3Gas, params.Sha3WordGas, params.SstoreResetGas, params.SstoreClearGas,
  params.JumpdestGas, params.LogGas, params.CopyGas, params.LogTopicGas, params.CreateGas in *; u64_lia.

Ltac u64_side := first [assumption | by apply Z.mod_pos_bound | apply toWordSize_u64; lia | gas_lia].

Ltac pay := repeat match goal with
  | |- xwp (_ ≫= _) _ _ _ => apply xwp_bind
  | |- xwp (memoryGasCost _) _ _ _ => eapply pay_mem; [done|lia|intros ? ? ? ? ? ?]
  | |- xwp (safe_add ?x _) _ _ _ => match x with context [if ?b then _ else _] => destruct b eqn:? end
  | |- xwp (safe_add _ _) _ _ _ => eapply pay_add; [done|u64_side|u64_side|intros ? ? ?]
  | |- xwp (safe_mul _ _) _ _ _ => eapply pay_mul; [done|u64_side|u64_side|intros ?]
  | |- xwp (safe_uint64 _) _ _ _ => eapply pay_uint64; [done|done|intros ?]
  | |- xwp (Back _) _ _ _ => eapply pay_Back; [done|lia|intros ? ? ?]
  | |- xwp (x_gets _) _ _ _ => apply xwp_gets
  | |- xwp (x_read _) _ _ _ => eapply pay_read; [auto with laws|done|intros ? ? ? ?]
  | |- xwp (x_do (st_AddRefund _)) _ _ _ => eapply pay_refund; [by apply writing_not_static|done|intros ? ?]
  | |- xwp (call_gas_temp _ _) _ _ _ => eapply pay_call; [done|u64_side|lia|intros ? ? ? ? ? ?]
  | |- xwp (mret _) _ _ _ => apply xwp_ret
  | |- xwp (if ?b then _ else _) _ _ _ => destruct b eqn:?
  end.

Ltac gas_entry :=
  intros e0 w0 code m ms Hm Hs Hst Hms; pose proof (paying_refl _ _ _ _ Hm);
  cbn [gasCost validateStack memorySize halts reverts writes mkOp halting jumping writing reverting returning orb] in *;
  apply makeStackFunc_None in Hs as [Hs _]; autounfold with gas_functions;
  first [destruct (gasTable_cases en) as [HT|[HT|HT]]; rewrite HT | idtac]; cbn [params.GasTableHomestead params.GasTableEIP150 params.GasTableEIP158 params.ExtcodeCopy params.Balance params.SLoad params.ExtcodeSize params.Calls params.Suicide params.ExpByte params.CreateBySuicide]; pay.

Ltac gas_simple :=
  gas_entry; (split; [done|]); change (handed _ _) with 0; (split; [u64_side|]); (split; [done|]); gas_lia.

(** The entries of a table. *)
Definition gases (t : list (Z * operation)) : Prop := Forall (fun '(n, o) => gas_ok n o) t.

Context (interp : runner).

Lemma arithmetic_gas : gases (frontierArithmetic en).
Proof. repeat (constructor; [gas_simple|]). constructor. Qed.

Lemma environment_gas : gases (frontierEnvironment en).
Proof. repeat (constructor; [gas_simple|]). constructor. Qed.

Lemma flow_gas : gases (frontierFlow en).
Proof. repeat (constructor; [gas_simple|]). constructor. Qed.

(** The numbered instructions hand nothing over. *)
Lemma handed_numbered n m : PUSH1 ≤ n < opcode.CREATE → handed n m = 0.
Proof.
  intros Hn. unfold handed. destruct (Z.eqb_spec n opcode.CALL), (Z.eqb_spec n opcode.CALLCODE), (Z.eqb_spec n opcode.DELEGATECALL),
    (Z.eqb_spec n opcode.STATICCALL); try done; subst; destruct Hn as [_ Hn]; by vm_compute in Hn.
Qed.

Ltac gas_numbered :=
  apply Forall_fmap, Forall_seq; intros i Hi; cbn [compose]; gas_entry; (split; [done|]); rewrite handed_numbered by (unfold PUSH1, opcode.DUP1, opcode.SWAP1, opcode.CREATE in *; lia);
  (split; [u64_side|]); (split; [done|]); gas_lia.

Lemma push_gas : gases frontierPush.
Proof. gas_numbered. Qed.

Lemma dup_gas : gases frontierDup.
Proof. gas_numbered. Qed.

Lemma swap_gas : gases frontierSwap.
Proof. gas_numbered. Qed.

Lemma gasSuicide_ok : gas_ok opcode.SELFDESTRUCT (writing (halting (mkOp opSuicide (gasSuicide en) (makeStackFunc 1 0) None))).
Proof.
  gas_entry; (split; [done|]); change (handed _ _) with 0; (split; [|split; [done|]]); repeat case_match;
    first [by apply Z.mod_pos_bound | gas_lia | rewrite Z.add_0_l; apply u64_nonneg].
Qed.

(** The stipend is less than the price of a transfer. *)
Lemma stipend_paid m m' v cost rest : x_stack m' = x_stack m → x_stack m !! 2%nat = Some v → cost = rest + e_callGasTemp (x_evm m') →
  1 + (if v =? 0 then 0 else params.CallValueTransferGas) ≤ rest →
  e_callGasTemp (x_evm m') + (if math.U256 (default 0 (x_stack m' !! 2%nat)) =? 0 then 0 else params.CallStipend) + 1 ≤ cost.
Proof.
  intros -> -> -> Hr. change (default 0 (Some v)) with v. unfold params.CallValueTransferGas, params.CallStipend in *.
  destruct (Z.eqb_spec v 0) as [->|]; [change (math.U256 0 =? 0) with true; cbv iota; lia|]. destruct (_ =? _); lia.
Qed.

Ltac gas_call :=
  gas_entry; (split; [done|]); (split; [done|]); (split; [done|]); cbn [Z.eqb orb];
  (eapply stipend_paid; [by eapply pa_stack|eassumption|eassumption|]);
  unfold params.CallNewAccountGas, params.CallValueTransferGas, u64, two64, is_u64 in *; Z.to_euclidean_division_equations;
  match goal with |- context [?x =? 0] => destruct (Z.eqb_spec x 0); cbn in *; try done; lia end.

Lemma gasCall_ok : gas_ok opcode.CALL (returning (mkOp (opCall en interp) (gasCall en) (makeStackFunc 7 1) (Some memoryCall))).
Proof. gas_call. Qed.

Lemma gasCallCode_ok : gas_ok opcode.CALLCODE (returning (mkOp (opCallCode en interp) (gasCallCode en) (makeStackFunc 7 1) (Some memoryCall))).
Proof. gas_call. Qed.

Lemma system_gas : gases (frontierSystem en interp).
Proof.
  repeat (constructor; [first [apply gasCall_ok | apply gasCallCode_ok | apply gasSuicide_ok | gas_simple]|]). constructor.
Qed.

Lemma frontier_gas : gases (NewFrontierInstructionSet en interp).
Proof.
  repeat (apply Forall_app; split);
    [apply arithmetic_gas|apply environment_gas|apply flow_gas|apply push_gas|apply dup_gas|apply swap_gas|apply system_gas].
Qed.

Ltac gas_delegate :=
  gas_entry; (split; [done|]); (split; [done|]); (split; [done|]); change (handed _ ?m) with (e_callGasTemp (x_evm m)); u64_lia.

Lemma homestead_gas : gases (NewHomesteadInstructionSet en interp).
Proof. constructor; [gas_delegate|apply frontier_gas]. Qed.

Lemma byzantium_gas : gases (NewByzantiumInstructionSet en interp).
Proof.
  constructor; [gas_simple|]. constructor; [gas_simple|]. constructor; [gas_simple|]. constructor; [gas_delegate|apply homestead_gas].
Qed.

Lemma find_op_in n o t : find_op n t = Some o → (n, o) ∈ t.
Proof.
  unfold find_op. intros Ho. apply fmap_Some in Ho as ([n' o'] & Hf & ->). apply List.find_some in Hf as [Hin Hn]. cbn in *.
  apply Z.eqb_eq in Hn as ->. by apply list_elem_of_In.
Qed.

Lemma JumpTable_gas n o : find_op n (JumpTable en interp) = Some o → gas_ok n o.
Proof.
  intros Ho%find_op_in. assert (gases (JumpTable en interp)) as Ht.
  { unfold JumpTable. repeat case_match; [apply byzantium_gas|apply homestead_gas|apply frontier_gas]. }
  apply (proj1 (Forall_forall _ _) Ht _ Ho).
Qed.

End Gas.
