(* ===== verification/VmSafeInstr.v ===== *)
(** * The instructions are safe

    An instruction that finds its operands, its memory and its gas keeps the
    invariant of the machine, and gives back at most the gas it hands over. *)

From S2P Require Import Prelude Types Interfaces Rlp Trie TrieSpec Sha3 State StateFrame StateSpec GoMath Vm VmAnalysis VmExec VmPrecompiled Evm VmGas VmInstr VmTable VmLaws VmHoare VmSafePre VmSafe VmSafeGas.
From stdpp Require Import base tactics option list numbers gmap.
From Stdlib Require Import ZArith Lia.

#[local] Open Scope Z_scope.

(** ** Memory *)

Lemma mem_slice_ok off size m : 0 ≤ off → 0 < size → off + size ≤ mem_Len m → is_bytes (m_store m) →
  ∃ b, slice (E := clash) (m_store m) off (off + size) = Ok b ∧ strlen b = size ∧ is_bytes b.
Proof.
  intros Ho Hs Hl Hb. destruct (slice_in_range (E := clash) (m_store m) off (off + size)) as (b & -> & Hlb & Hbb); [lia|done|].
  exists b. split_and!; [done|lia|by apply Hbb].
Qed.

Lemma mem_Get_ok off size m : 0 ≤ off → 0 ≤ size → calcMemSize off size ≤ mem_Len m → mem_Len m ≤ maxMem → is_bytes (m_store m) →
  ∃ b, mem_Get (big_Int64 off) (big_Int64 size) m = Ok b ∧ code_ok (default [] b).
Proof.
  intros Ho Hs Hc Hl Hb. unfold calcMemSize, maxMem in *. unfold mem_Get. destruct (Z.eqb_spec size 0) as [->|].
  { exists None. split; [done|apply code_ok_nil]. }
  rewrite !big_Int64_small by lia. destruct (Z.eqb_spec size 0); [lia|]. destruct (Z.ltb_spec off (mem_Len m)); [|lia].
  destruct (mem_slice_ok off size m) as (b & -> & Hlb & Hbb); [done|lia|done|done|]. exists (Some b). split; [done|].
  split; cbn; [done|]. unfold maxCode. lia.
Qed.

Lemma mem_Set_ok off size value m : 0 ≤ off → 0 ≤ size → calcMemSize off size ≤ mem_Len m → mem_Len m ≤ maxMem → is_bytes (m_store m) → is_bytes value →
  ∃ m', mem_Set (big_Uint64 off) (big_Uint64 size) value m = Ok m' ∧ is_bytes (m_store m') ∧ mem_Len m' = mem_Len m.
Proof.
  intros Ho Hs Hc Hl Hb Hv. unfold calcMemSize, maxMem in *. unfold mem_Set. destruct (Z.eqb_spec size 0) as [->|].
  { exists m. rewrite big_Uint64_small by done. destruct (Z.ltb_spec (mem_Len m) 0); [unfold mem_Len in *; lia|]. by split_and!. }
  rewrite !big_Uint64_small by (unfold two64; lia). destruct (Z.ltb_spec (mem_Len m) size); [lia|]. destruct (Z.ltb_spec 0 size); [|lia].
  unfold u64. rewrite Z.mod_small by (unfold two64; lia).
  destruct (mem_slice_ok off size m) as (b & -> & Hlb & Hbb); [done|lia|done|done|]. rewrite bind_Ok. eexists. split; [done|]. unfold mem_Len in *. cbn.
  split; [repeat (apply Forall_app; split); auto using Forall_take, Forall_drop|].
  rewrite !length_app, !length_take, length_drop. lia.
Qed.

Lemma mem_store8_ok off b m : 0 ≤ off → off + 1 ≤ mem_Len m → mem_Len m ≤ maxMem → is_bytes (m_store m) → is_byte b →
  ∃ m', mem_store8 (big_Int64 off) b m = Ok m' ∧ is_bytes (m_store m') ∧ mem_Len m' = mem_Len m.
Proof.
  intros Ho Hc Hl Hb Hv. unfold maxMem, mem_Len in *. unfold mem_store8. rewrite big_Int64_small by lia.
  destruct (lookup_lt_is_Some_2 (m_store m) (Z.to_nat off)) as [x Hx]; [lia|]. rewrite (index_lookup _ off x) by done. rewrite bind_Ok.
  eexists. split; [done|]. cbn. split; [by apply Forall_insert|by rewrite length_insert].
Qed.

Lemma getDataBig_ok data start size : is_bytes data → strlen data < maxCode → 0 ≤ start → 0 ≤ size →
  ∃ b, getDataBig data start size = Ok b ∧ is_bytes b.
Proof.
  intros Hb Hl Hs Hz. unfold getDataBig, math.BigMin, maxCode in *.
  set (s := if strlen data <? start then strlen data else start).
  assert (0 ≤ s ≤ strlen data) by (subst s; destruct (Z.ltb_spec (strlen data) start); lia).
  set (e := if strlen data <? s + size then strlen data else s + size).
  assert (s ≤ e ≤ strlen data) by (subst e; destruct (Z.ltb_spec (strlen data) (s + size)); lia).
  rewrite (big_Uint64_small s), (big_Uint64_small e) by (unfold two64; lia).
  destruct (slice_in_range (E := clash) data s e) as (b & -> & _ & Hb'); [lia|lia|]. rewrite bind_Ok. eexists. split; [done|]. by apply RightPadBytes_bytes, Hb'.
Qed.

(** ** Words *)

Create HintDb words.

Lemma U256_nonneg x : 0 ≤ math.U256 x.
Proof. apply math.U256_range. Qed.

Lemma bool_word_nonneg b : 0 ≤ bool_word b.
Proof. by destruct b. Qed.

Lemma Exp_nonneg x y : 0 ≤ y → 0 ≤ math.Exp x y.
Proof. intros Hy. rewrite math.Exp_spec by done. by apply Z.mod_pos_bound. Qed.

Lemma land_nonneg x y : 0 ≤ x → 0 ≤ Z.land x y.
Proof. intros. apply Z.land_nonneg. by left. Qed.

Lemma lor_nonneg x y : 0 ≤ x → 0 ≤ y → 0 ≤ Z.lor x y.
Proof. intros. by apply Z.lor_nonneg. Qed.

Lemma lxor_nonneg x y : 0 ≤ x → 0 ≤ y → 0 ≤ Z.lxor x y.
Proof. intros. apply Z.lxor_nonneg. by split. Qed.

Lemma if_nonneg (b : bool) x y : 0 ≤ x → 0 ≤ y → 0 ≤ (if b then x else y).
Proof. by destruct b. Qed.

Lemma Byte_nonneg th val : 0 ≤ th → 0 ≤ val → 0 ≤ (if th <? 32 then math.Byte val 32 (Z.to_nat (big_Int64 th)) else 0).
Proof.
  intros Ht Hv. destruct (Z.ltb_spec th 32); [|done]. rewrite big_Int64_small by lia. rewrite math.Byte_spec by (done || lia). by apply Z.mod_pos_bound.
Qed.

#[export] Hint Resolve U256_nonneg bool_word_nonneg Exp_nonneg land_nonneg lor_nonneg lxor_nonneg if_nonneg Byte_nonneg be_val_nonneg
  Zle_0_nat Z.le_refl : words.

Section Instr.
Context `{HK : Keccak, HP : EvmCrypto, !KeccakLaws, !EvmCryptoLaws, HS : StateOps, HL : !StateLaws HS} (en : Env) (Henv : env_ok en).

(** ** What is asked of an instruction *)

Definition stopped (e0 : evmState) (w0 : world) (G : Z) (m : machine) : Prop :=
  (∃ w, evm_at en e0 w0 (x_evm m) w) ∧ 0 ≤ c_Gas (x_contract m) ≤ G ∧ dests_ok (c_jumpdests (x_contract m)).

Record stepped (e0 : evmState) (w0 : world) (code : list Z) (G n : Z) (m : machine) : Prop := {
  sp_mach : mach en e0 w0 code m;
  sp_gas : c_Gas (x_contract m) ≤ G;
  sp_pc : n ≠ opcode.STOP → x_pc m ≤ strlen code + 32
}.

(** When an operation may be executed. *)
Record ready (limit : Z) (e0 : evmState) (w0 : world) (code : list Z) (n : Z) (o : operation) (m : machine) : Prop := {
  rd_mach : mach en e0 w0 code m;
  rd_stack : validateStack o (x_stack m) = None;
  rd_static : en_Byzantium en && e_readOnly e0 = true → writes o = false;
  rd_call : n = opcode.CALL → en_Byzantium en && e_readOnly e0 = true → default 0 (x_stack m !! 2%nat) = 0;
  rd_memory : ∀ f, memorySize o = Some f → ∃ size, f (x_stack m) = Ok size ∧ size ≤ mem_Len (x_mem m);
  rd_pc : n ≠ opcode.STOP → x_pc m < strlen code;
  rd_gas : c_Gas (x_contract m) + handed n m < maxGas;
  rd_limit : halts o || reverts o = false → c_Gas (x_contract m) + handed n m < limit
}.

Context (limit : Z) (Hlimit : limit ≤ maxGas).

Definition exec_ok (n : Z) (o : operation) : Prop := ∀ e0 w0 code m, ready limit e0 w0 code n o m →
  xwp (execute o) m
    (fun res m' => stepped e0 w0 code (c_Gas (x_contract m) + handed n m) n m' ∧ code_ok (default [] res))
    (stopped e0 w0 (c_Gas (x_contract m) + handed n m)).

Lemma stepped_intro e0 w0 code n e w c mem s pc G : evm_at en e0 w0 e w → contract_wf c → c_Code c = code → c_Gas c ≤ G → G < maxGas →
  Forall (Z.le 0) s → strlen s ≤ params.StackLimit → is_bytes (m_store mem) → mem_Len mem ≤ maxMem →
  0 ≤ pc → pc ≤ strlen code + 33 → (n ≠ opcode.STOP → pc ≤ strlen code + 32) →
  stepped e0 w0 code G n (mkMachine e c mem s pc).
Proof. intros. split; [|done|done]. split; cbn; eauto; lia. Qed.

Lemma stopped_intro e0 w0 e w c mem s pc G : evm_at en e0 w0 e w → contract_wf c → c_Gas c ≤ G → stopped e0 w0 G (mkMachine e c mem s pc).
Proof. intros ? [] ?. split; [eauto|]. split; [|done]. cbn. lia. Qed.

Lemma evm_code_ok e0 w0 e w a : evm_at en e0 w0 e w → code_ok (default [] (w_code a w)).
Proof. intros []. by apply w_code_ok. Qed.

(** Memory and data. *)
Lemma xwp_getDataBig data start size m Q F : code_ok data → 0 ≤ start → 0 ≤ size → (∀ b, is_bytes b → Q b m) → xwp (x_lift (getDataBig data start size)) m Q F.
Proof. intros [Hb Hl] Hs Hz HQ. apply xwp_lift. destruct (getDataBig_ok data start size) as (b & -> & Hb'); [done..|]. by apply HQ. Qed.

Lemma xwp_mem_Get off size m Q F : 0 ≤ off → 0 ≤ size → calcMemSize off size ≤ mem_Len (x_mem m) → mem_Len (x_mem m) ≤ maxMem → is_bytes (m_store (x_mem m)) →
  (∀ b, code_ok (default [] b) → Q b m) → xwp (get_mem (mem_Get (big_Int64 off) (big_Int64 size))) m Q F.
Proof. intros ? ? ? ? ? HQ. apply xwp_get_mem. destruct (mem_Get_ok off size (x_mem m)) as (b & -> & Hb); [done..|]. by apply HQ. Qed.

Lemma xwp_mem_Set off size value m Q F : 0 ≤ off → 0 ≤ size → calcMemSize off size ≤ mem_Len (x_mem m) → mem_Len (x_mem m) ≤ maxMem →
  is_bytes (m_store (x_mem m)) → is_bytes value → (∀ mem, is_bytes (m_store mem) → mem_Len mem ≤ maxMem → Q tt (set_xmem mem m)) →
  xwp (on_mem (mem_Set (big_Uint64 off) (big_Uint64 size) value)) m Q F.
Proof.
  intros ? ? ? ? ? ? HQ. apply xwp_on_mem. destruct (mem_Set_ok off size value (x_mem m)) as (b & -> & Hb & Hl); [done..|]. apply HQ; [done|lia].
Qed.

Lemma xwp_value c m Q F : contract_wf c → (∀ v, 0 ≤ v → Q v m) → xwp (x_lift (deref (c_value c))) m Q F.
Proof. intros [? ? ? ? ? ? ? (v & -> & Hv)] HQ. apply xwp_lift. by apply HQ. Qed.

(** The machine in its parts, with its operands. *)
Ltac grab := repeat match goal with
  | H : _ ≤ Z.of_nat ?L |- _ => match L with context [length ?s] => is_var s; destruct s as [|? s]; [exfalso; cbn in H; lia|cbn [length] in H] end
  end.

Ltac op_start :=
  intros e0 w0 code [e c mem s pc] [[[w He] Hc Hg Hcode Hs Hl Hmb Hml Hpc] Hv Hst Hcall Hmem Hpc' HG HGl];
  cbn [x_evm x_contract x_mem x_stack x_pc execute gasCost validateStack memorySize halts jumps reverts writes mkOp halting jumping writing reverting returning orb] in *;
  apply makeStackFunc_None in Hv as [Hv Hlim].

Ltac op_entry :=
  op_start; grab;
  repeat match goal with H : Forall _ (_ :: _) |- _ => let H1 := fresh "Hx" in apply Forall_cons_1 in H as [H1 H] end;
  try match goal with
    | Hmem : ∀ f, Some _ = Some f → _ |- _ =>
        specialize (Hmem _ eq_refl); destruct Hmem as (size & Esize & Hsize); cbn -[calcMemSize math.BigMax] in Esize; injection Esize as <-
    end.

Ltac xs := repeat match goal with
  | |- xwp (_ ≫= _) _ _ _ => apply xwp_bind
  | |- xwp pop _ _ _ => eapply xwp_pop; [reflexivity|]; cbn [set_xstack x_evm x_contract x_mem x_stack x_pc]
  | |- xwp (push _) _ _ _ => apply xwp_push; cbn [set_xstack x_evm x_contract x_mem x_stack x_pc]
  | |- xwp (mret _) _ _ _ => apply xwp_ret
  | |- xwp nil_result _ _ _ => apply xwp_ret
  | |- xwp (x_gets _) _ _ _ => apply xwp_gets; cbn [set_xstack x_evm x_contract x_mem x_stack x_pc]
  | |- xwp (x_read _) _ _ _ => apply xwp_on_evm; eapply ewp_read_at; [auto with laws|eassumption|]; intros ? ?; cbn [set_xevm x_evm x_contract x_mem x_stack x_pc]
  | |- xwp (x_lift (getDataBig _ _ _)) _ _ _ => apply xwp_getDataBig; [solve [eauto using cw_input, cw_code, evm_code_ok]|done|done|intros ? ?]
  | |- xwp (get_mem (mem_Get _ _)) _ _ _ => apply xwp_mem_Get; [done|done|assumption|assumption|assumption|intros ? ?]
  | |- xwp (on_mem (mem_Set _ _ _)) _ _ _ =>
      apply xwp_mem_Set; [done|done|assumption|assumption|assumption|solve [eauto using math.PaddedBigBytes_bytes]|intros ? ? ?]
  | |- xwp (x_lift (deref (c_value _))) _ _ _ => apply xwp_value; [done|intros ? ?]
  | |- xwp (x_do (st_AddPreimage _ _)) _ _ _ =>
      apply xwp_on_evm; eapply ewp_do_at; [auto with laws|eassumption|done|done|intros _; apply AddPreimage_same|]; intros ? ?
  | |- xwp (if ?b then _ else _) _ _ _ => destruct b eqn:?
  end.

Ltac finish :=
  unfold set_xstack, set_xevm, set_xmem, set_xcontract, set_xpc; cbn [x_evm x_contract x_mem x_stack x_pc];
  (split; [|apply code_ok_nil]); (eapply stepped_intro; [eassumption|eassumption|done|lia|lia| |rewrite ?length_insert; cbn [length] in *; lia|done|done|lia|lia|lia]);
  repeat (apply Forall_cons; split); try solve [eauto 8 with words | lia].

Ltac op_simple := op_entry; change (handed _ _) with 0 in *; autounfold with instr; xs; finish.

Create HintDb instr.
#[local] Hint Unfold opStop opAdd opSub opMul opDiv opSdiv opMod opSmod opExp opSignExtend opNot opLt opGt opSlt opSgt opEq opIszero opAnd opOr opXor
  opByte opAddmod opMulmod : instr.

Definition execs (t : list (Z * operation)) : Prop := Forall (fun '(n, o) => exec_ok n o) t.

Lemma arithmetic_exec : execs (frontierArithmetic en).
Proof. repeat (constructor; [op_simple|]). constructor. Qed.

(** ** The environment *)

Lemma origin_nonneg : 0 ≤ Address_Big (en_Origin en).
Proof. apply be_val_nonneg, Henv. Qed.

Lemma coinbase_nonneg : 0 ≤ Address_Big (en_Coinbase en).
Proof. apply be_val_nonneg, Henv. Qed.

Lemma gasprice_nonneg : 0 ≤ en_GasPrice en.
Proof. apply Henv. Qed.

Lemma blockhash_nonneg n : 0 ≤ Hash_Big (en_GetHash en n).
Proof. apply be_val_nonneg, Henv. Qed.

Lemma self_nonneg c : contract_wf c → 0 ≤ Address_Big (c_self c).
Proof. intros []. by apply be_val_nonneg. Qed.

Lemma caller_nonneg c : contract_wf c → 0 ≤ Address_Big (c_CallerAddress c).
Proof. intros []. by apply be_val_nonneg. Qed.

Lemma balance_nonneg e0 w0 e w a : evm_at en e0 w0 e w → 0 ≤ w_balance a w.
Proof. intros []. by apply w_balance_ok. Qed.

Lemma slot_nonneg e0 w0 e w a k : evm_at en e0 w0 e w → 0 ≤ Hash_Big (w_slot a k w).
Proof. intros []. by apply be_val_nonneg, w_slot_ok. Qed.

#[local] Hint Resolve Keccak256_bytes cw_gas : words.
#[local] Hint Resolve origin_nonneg coinbase_nonneg gasprice_nonneg blockhash_nonneg self_nonneg caller_nonneg balance_nonneg slot_nonneg : words.
#[local] Hint Unfold opSha3 opAddress opBalance opOrigin opCaller opCallValue opCallDataLoad opCallDataSize opCallDataCopy opReturnDataSize
  opReturnDataCopy opExtCodeSize opCodeSize opCodeCopy opExtCodeCopy opGasprice opBlockhash opCoinbase opTimestamp opNumber opDifficulty opGasLimit
  opPop opMload opMstore opMstore8 opSload opSstore opJumpdest opPc opMsize opGas makePush makeDup makeSwap makeLog opReturn opRevert opSuicide : instr.

Lemma environment_exec : execs (frontierEnvironment en).
Proof. repeat (constructor; [op_simple|]). constructor. Qed.

(** ** Memory, storage and jumps *)

Lemma opMload_ok : exec_ok opcode.MLOAD (mkOp opMload gasMLoad (makeStackFunc 1 1) (Some memoryMLoad)).
Proof.
  op_entry. change (handed _ _) with 0 in *. unfold opMload. change 32 with (big_Int64 32) at 1. xs. finish. unfold code_ok in *. destruct_and!. eauto with words.
Qed.

Lemma opMstore_ok : exec_ok opcode.MSTORE (mkOp opMstore gasMStore (makeStackFunc 2 0) (Some memoryMStore)).
Proof.
  op_entry. change (handed _ _) with 0 in *. unfold opMstore. change 32 with (big_Uint64 32). xs. finish.
Qed.

Lemma land_ff_byte x : is_byte (Z.land x 0xff).
Proof. change 0xff with (Z.ones 8). rewrite Z.land_ones by lia. unfold is_byte. pose proof (Z.mod_pos_bound x (2 ^ 8)). lia. Qed.

Lemma opMstore8_ok : exec_ok opcode.MSTORE8 (mkOp opMstore8 gasMStore8 (makeStackFunc 2 0) (Some memoryMStore8)).
Proof.
  op_entry. change (handed _ _) with 0 in *. unfold opMstore8. xs. apply xwp_on_mem.
  destruct (mem_store8_ok z (Z.land (big_Int64 z0) 0xff) mem) as (mem' & E & Hb & Hlen); try done; [apply land_ff_byte|].
  cbn [set_xstack x_mem]. rewrite E. cbn [holds]. xs. rewrite <- Hlen in Hml. finish.
Qed.

Lemma opSstore_ok : exec_ok opcode.SSTORE (writing (mkOp opSstore gasSStore (makeStackFunc 2 0) None)).
Proof.
  op_entry. change (handed _ _) with 0 in *. unfold opSstore. xs. apply writing_not_static in Hst. apply xwp_on_evm.
  eapply ewp_do_at; [auto with laws|eassumption|apply BigToHash_bytes|done|by rewrite Hst|]. intros s' Hs'. xs. finish.
Qed.

Lemma set_jumpdests_wf d c : dests_ok d → contract_wf c → contract_wf (set_jumpdests d c).
Proof. intros Hd []. by split. Qed.

Lemma jump_to_ok pos e0 w0 code n e w c mem s pc : evm_at en e0 w0 e w → contract_wf c → c_Code c = code → c_Gas c < maxGas →
  Forall (Z.le 0) s → strlen s ≤ params.StackLimit → is_bytes (m_store mem) → mem_Len mem ≤ maxMem → 0 ≤ pc < strlen code → 0 ≤ pos →
  xwp (jump_to pos) (mkMachine e c mem s pc) (fun _ m' => stepped e0 w0 code (c_Gas c + 0) n m') (stopped e0 w0 (c_Gas c + 0)).
Proof.
  intros He Hc Hcode Hg Hs Hl Hmb Hml Hpc Hpos. unfold jump_to. apply xwp_bind. unfold jump_has, xwp at 1. cbn [x_contract].
  assert (c_Code c ≠ []) as Hne by (intros E; rewrite E in Hcode; subst code; cbn in Hpc; lia). rewrite (cw_hash c Hc Hne). apply holds_bind.
  apply holds_mono with (2 := has_spec (c_Code c) pos (c_jumpdests c) (cw_dests c Hc) (proj2 (cw_code c Hc)) Hpos).
  intros [d b] [Hd Hb]. cbn [holds]. destruct b; cbn [negb].
  - apply xwp_set_pc. unfold set_xcontract, set_xpc. cbn [x_evm x_contract x_mem x_stack x_pc].
    destruct Hb as [Hb _]. destruct (Hb eq_refl) as [Hj%lookup_lt_Some _]. pose proof (cw_code c Hc) as [_ Hmax]. unfold maxCode in Hmax.
    rewrite big_Uint64_small by (unfold two64; lia). rewrite Hcode in Hj.
    eapply stepped_intro; [done|by apply set_jumpdests_wf|done|cbn; lia|lia|done|done|done|done|lia|lia|lia].
  - apply xwp_bind, xwp_gets, xwp_throw. unfold set_xcontract. eapply stopped_intro; [done|by apply set_jumpdests_wf|cbn; lia].
Qed.

Lemma opJump_ok : exec_ok opcode.JUMP (jumping (mkOp opJump (constGasFunc GasMidStep) (makeStackFunc 1 0) None)).
Proof.
  op_entry. change (handed _ _) with 0 in *. unfold opJump. xs. unfold set_xstack. cbn [x_evm x_contract x_mem x_stack x_pc].
  specialize (Hpc' ltac:(done)). cbn [length] in *. eapply xwp_mono; [| |by apply (jump_to_ok z e0 w0 code opcode.JUMP e w); try done; lia]; [|done].
  intros [] m' Hm'. apply xwp_ret. split; [done|apply code_ok_nil].
Qed.

Lemma opJumpi_ok : exec_ok opcode.JUMPI (jumping (mkOp opJumpi (constGasFunc GasSlowStep) (makeStackFunc 2 0) None)).
Proof.
  op_entry. change (handed _ _) with 0 in *. unfold opJumpi. specialize (Hpc' ltac:(done)). pose proof (cw_code c Hc) as [_ Hmax]. unfold maxCode in Hmax.
  xs; unfold set_xstack; cbn [x_evm x_contract x_mem x_stack x_pc]; cbn [length] in *.
  - eapply xwp_mono; [| |by apply (jump_to_ok z e0 w0 code opcode.JUMPI e w); try done; lia]; [|done].
    intros [] m' Hm'. apply xwp_ret. split; [done|apply code_ok_nil].
  - apply xwp_set_pc. xs. unfold u64. rewrite Z.mod_small by (unfold two64; rewrite <- Hcode in *; lia). finish.
Qed.

Lemma flow_exec : execs (frontierFlow en).
Proof.
  repeat (constructor; [first [apply opMload_ok | apply opMstore_ok | apply opMstore8_ok | apply opSstore_ok | apply opJump_ok | apply opJumpi_ok | op_simple]|]).
  constructor.
Qed.

(** ** The numbered instructions *)

Lemma push_data_ok c pc k : code_ok (c_Code c) → 0 ≤ pc < strlen (c_Code c) → 0 ≤ k →
  let codeLen := strlen (c_Code c) in
  let startMin := if i64 (pc + 1) <? codeLen then i64 (pc + 1) else codeLen in
  let endMin := if startMin + k <? codeLen then startMin + k else codeLen in
  ∃ b, slice (E := clash) (c_Code c) startMin endMin = Ok b ∧ is_bytes b.
Proof.
  intros [Hb Hl] Hpc Hk codeLen. unfold maxCode in Hl. assert (i64 (pc + 1) = pc + 1) as ->.
  { unfold i64, two64. rewrite Z.mod_small by lia. destruct (Z.ltb_spec (pc + 1) 9223372036854775808); lia. }
  intros startMin endMin. assert (0 ≤ startMin ≤ codeLen) by (subst startMin codeLen; destruct (Z.ltb_spec (pc + 1) (strlen (c_Code c))); lia).
  assert (startMin ≤ endMin ≤ codeLen) by (subst endMin; destruct (Z.ltb_spec (startMin + k) codeLen); lia).
  destruct (slice_in_range (E := clash) (c_Code c) startMin endMin) as (b & -> & _ & Hb'); [lia|lia|]. eauto.
Qed.

Lemma push_exec : execs frontierPush.
Proof.
  apply Forall_fmap, Forall_seq. intros i Hi. cbn [compose]. op_entry. rewrite handed_numbered in * by (unfold PUSH1, opcode.CREATE; lia).
  assert (pc < strlen code) by (apply Hpc'; unfold PUSH1, opcode.STOP; lia). pose proof (cw_code c Hc) as Hok. pose proof Hok as [_ Hmax]. unfold maxCode in Hmax.
  unfold makePush. xs. apply xwp_lift. destruct (push_data_ok c pc (Z.of_nat i)) as (b & -> & Hb); [done|rewrite Hcode; lia|lia|]. cbn [holds].
  xs. apply xwp_set_pc. xs. unfold u64. rewrite Z.mod_small by (unfold two64; rewrite <- Hcode in *; lia).
  finish. apply be_val_nonneg. by apply RightPadBytes_bytes.
Qed.

Lemma dup_exec : execs frontierDup.
Proof.
  apply Forall_fmap, Forall_seq. intros i Hi. cbn [compose]. op_start. rewrite handed_numbered in * by (unfold PUSH1, opcode.DUP1, opcode.CREATE; lia).
  unfold makeDup, stack_dup. xs. apply xwp_on_stack. cbn [x_stack].
  destruct (lookup_lt_is_Some_2 s (i - 1)) as [x Hx]; [lia|]. rewrite Hx. cbn [deref mbind holds]. cbn. xs. finish. by eapply (Forall_lookup_1 _ _ _ _ Hs).
Qed.

Lemma swap_exec : execs frontierSwap.
Proof.
  apply Forall_fmap, Forall_seq. intros i Hi. cbn [compose]. op_start. rewrite handed_numbered in * by (unfold PUSH1, opcode.SWAP1, opcode.CREATE; lia).
  unfold makeSwap, stack_swap. xs. apply xwp_on_stack. cbn [x_stack].
  destruct (lookup_lt_is_Some_2 s (i + 1 - 1)) as [x Hx]; [lia|]. destruct (lookup_lt_is_Some_2 s 0) as [y Hy]; [lia|]. rewrite Hx, Hy. cbn [holds]. xs.
  finish. repeat apply Forall_insert; [done|by eapply (Forall_lookup_1 _ _ _ _ Hs)..].
Qed.

(** ** Logs and ends *)

Ltac op_log :=
  op_entry; change (handed _ _) with 0 in *; unfold makeLog; cbn [pop_topics]; xs; apply xwp_on_evm;
  match goal with H : _ = true → true = false |- _ => apply writing_not_static in H; (eapply ewp_do_at; [auto with laws|eassumption|done|done|by rewrite H|]) end;
  intros ? ?; xs; finish.

Ltac op_end :=
  op_entry; change (handed _ _) with 0 in *; unfold opReturn, opRevert; change mem_GetPtr with mem_Get; xs; unfold set_xstack; cbn [x_evm x_contract x_mem x_stack x_pc];
  (split; [|done]); eapply stepped_intro; try done; try lia; cbn [length] in *; lia.

Lemma opReturn_ok : exec_ok opcode.RETURN (halting (mkOp opReturn gasReturn (makeStackFunc 2 0) (Some memoryReturn))).
Proof. op_end. Qed.

Lemma opRevert_ok : exec_ok opcode.REVERT (returning (reverting (mkOp opRevert gasRevert (makeStackFunc 2 0) (Some memoryRevert)))).
Proof. op_end. Qed.

Lemma opSuicide_ok : exec_ok opcode.SELFDESTRUCT (writing (halting (mkOp opSuicide (gasSuicide en) (makeStackFunc 1 0) None))).
Proof.
  op_entry. change (handed _ _) with 0 in *. unfold opSuicide. apply writing_not_static in Hst. xs. apply xwp_on_evm.
  match goal with H : evm_at _ _ _ (set_edb _ _) _ |- _ => rename H into He0 end.
  eapply ewp_do; [auto with laws|exact (ea_sees _ _ _ _ _ He0)|]. intros s1 Hs1 Hk1.
  apply xwp_bind, xwp_on_evm. destruct (law_Suicide (c_self c) _ _ Hs1) as (s2 & E & Hs2 & Hk). unfold ewp, db_read.
  cbn [set_xevm set_xstack set_edb x_evm e_db] in E |- *. rewrite E. cbn [from_pan mbind holds]. cbn. xs.
  pose proof (ea_world _ _ _ _ _ He0) as Hw0. pose proof (w_balance_ok _ (c_self c) Hw0).
  eapply evm_at_step in Hs2 as He2; [|exact He0|by eapply later_trans|by repeat (apply specOp_ok; [done|])|by apply Suicide_poorer|by rewrite Hst]. finish.
Qed.

(** ** Calls *)

Context (interp : runner) (Hinterp : runner_ok en limit interp).

Lemma settle_wf r c : contract_wf c → 0 ≤ r_gas r → c_Gas c + r_gas r < limit → dests_ok (r_dests r) →
  contract_wf (set_Gas (c_Gas c + r_gas r)%u64 (set_jumpdests (r_dests r) c)) ∧ (c_Gas c + r_gas r)%u64 = c_Gas c + r_gas r.
Proof.
  intros [] Hr Hlt Hd. assert ((c_Gas c + r_gas r)%u64 = c_Gas c + r_gas r) as E by (unfold u64, maxGas, two64 in *; rewrite Z.mod_small; lia).
  rewrite E. split; [|done]. split; try done. cbn. lia.
Qed.

Lemma call_result_ok e0 w0 code n retOffset retSize r G e w c mem s pc F : evm_at en e0 w0 e w → contract_wf c → c_Code c = code →
  Forall (Z.le 0) s → strlen s + 1 ≤ params.StackLimit → is_bytes (m_store mem) → mem_Len mem ≤ maxMem → 0 ≤ pc < strlen code →
  0 ≤ retOffset → 0 ≤ retSize → calcMemSize retOffset retSize ≤ mem_Len mem →
  0 ≤ r_gas r → c_Gas c + r_gas r ≤ G → G < limit → dests_ok (r_dests r) → code_ok (default [] (r_ret r)) →
  xwp (call_result retOffset retSize r) (mkMachine e c mem s pc) (fun res m' => stepped e0 w0 code G n m' ∧ code_ok (default [] res)) F.
Proof.
  intros He Hc Hcode Hs Hl Hmb Hml Hpc Ho Hz Hm Hr HG Hlt Hd Hret. destruct (settle_wf r c) as [Hwf Hgas]; [done|done|lia|done|].
  assert (0 ≤ match r_err r with None => 1 | Some _ => 0 end) by (by destruct (r_err r)).
  unfold call_result. apply xwp_bind, xwp_push. unfold set_xstack. cbn [x_evm x_contract x_mem x_stack x_pc]. set (s' := _ :: s).
  assert (∀ mem, is_bytes (m_store mem) → mem_Len mem ≤ maxMem →
    xwp (settle_caller r;; mret (r_ret r)) (mkMachine e c mem s' pc) (fun res m' => stepped e0 w0 code G n m' ∧ code_ok (default [] res)) F) as Hend.
  { intros mem' Hb' Hl'. apply xwp_bind, xwp_modify_contract, xwp_ret. split; [|done]. unfold set_xcontract. cbn [x_evm x_contract x_mem x_stack x_pc].
    eapply stepped_intro; [done|done|done|cbn; lia|lia|by apply Forall_cons|subst s'; cbn [length]; lia|done|done|lia|lia|lia]. }
  apply xwp_bind. destruct (_ || _); [|by apply xwp_ret, Hend]. apply xwp_mem_Set; [done..|apply Hret|]. intros mem' ? ?. unfold set_xmem. by apply Hend.
Qed.

Lemma BigMax_le x y z : math.BigMax x y ≤ z → x ≤ z ∧ y ≤ z.
Proof. unfold math.BigMax. destruct (Z.ltb_spec x y); lia. Qed.

Lemma opDelegateCall_ok : exec_ok opcode.DELEGATECALL
  (returning (mkOp (opDelegateCall en interp) (gasDelegateCall en) (makeStackFunc 6 1) (Some memoryDelegateCall))).
Proof.
  op_entry. specialize (Hpc' ltac:(done)). specialize (HGl eq_refl). change (handed _ _) with (e_callGasTemp e) in *. apply BigMax_le in Hsize as [Hret Hin]. unfold opDelegateCall. xs.
  apply xwp_on_evm. cbn [set_xstack x_evm x_contract]. destruct (ea_callGasTemp _ _ _ _ _ He) as [Ht _].
  eapply ewp_mono; [|eapply (DelegateCall_ok en limit Hlimit interp Hinterp); [by eapply evm_at_ok|done|apply BigToAddress_bytes|done|pose proof (cw_gas c Hc); lia]].
  intros r e' (w' & He' & Hg' & Hd & Hr & _). unfold set_xevm. cbn [x_evm x_contract x_mem x_stack x_pc set_xstack]. cbn [length] in *.
  eapply call_result_ok; try done; try lia. by eapply evm_at_trans.
Qed.

Lemma opStaticCall_ok : exec_ok opcode.STATICCALL
  (returning (mkOp (opStaticCall en interp) (gasStaticCall en) (makeStackFunc 6 1) (Some memoryStaticCall))).
Proof.
  op_entry. specialize (Hpc' ltac:(done)). specialize (HGl eq_refl). change (handed _ _) with (e_callGasTemp e) in *. apply BigMax_le in Hsize as [Hret Hin]. unfold opStaticCall. xs.
  apply xwp_on_evm. cbn [set_xstack x_evm x_contract]. destruct (ea_callGasTemp _ _ _ _ _ He) as [Ht _].
  eapply ewp_mono; [|eapply (StaticCall_ok en limit Hlimit interp Hinterp); [by eapply evm_at_ok|done|apply BigToAddress_bytes|done|pose proof (cw_gas c Hc); lia]].
  intros r e' [(w' & He' & Hg' & Hd & Hr & _) _]. unfold set_xevm. cbn [x_evm x_contract x_mem x_stack x_pc set_xstack]. cbn [length] in *.
  eapply call_result_ok; try done; try lia. by eapply evm_at_trans.
Qed.

(** The gas for the callee, with the stipend. *)
Lemma call_gas_ok (v t g : Z) : 0 ≤ t → 0 ≤ g → g + (t + (if v =? 0 then 0 else params.CallStipend)) < limit →
  (if v =? 0 then t else (t + params.CallStipend)%u64) = t + (if v =? 0 then 0 else params.CallStipend).
Proof.
  intros Ht Hg Hlt. unfold params.CallStipend, u64 in *. destruct (v =? 0); [lia|]. rewrite Z.mod_small; [done|]. unfold maxGas, two64 in *. lia.
Qed.

Lemma opCall_ok : exec_ok opcode.CALL (returning (mkOp (opCall en interp) (gasCall en) (makeStackFunc 7 1) (Some memoryCall))).
Proof.
  op_entry. specialize (Hpc' ltac:(done)). specialize (HGl eq_refl). destruct (ea_callGasTemp _ _ _ _ _ He) as [Ht _]. pose proof (cw_gas c Hc) as H0c.
  change (handed _ _) with (e_callGasTemp e + (if math.U256 z1 =? 0 then 0 else params.CallStipend)) in *. change (default 0 _) with z1 in Hcall.
  apply BigMax_le in Hsize as [Hret Hin]. unfold opCall. xs. apply xwp_on_evm. cbn [set_xstack x_evm x_contract].
  rewrite (call_gas_ok (math.U256 z1) (e_callGasTemp e) (c_Gas c)) by done. set (gas := e_callGasTemp e + (if math.U256 z1 =? 0 then 0 else params.CallStipend)) in *.
  assert (0 ≤ gas) by (subst gas; unfold params.CallStipend; destruct (_ =? 0); lia).
  eapply ewp_mono; [|eapply (Call_ok en limit Hlimit interp Hinterp); [by eapply evm_at_ok|done|apply BigToAddress_bytes|done|lia|apply U256_nonneg|]].
  - intros r e' (w' & He' & Hg' & Hd & Hr & _). unfold set_xevm. cbn [x_evm x_contract x_mem x_stack x_pc set_xstack]. cbn [length] in *.
    eapply call_result_ok; try done; try lia. by eapply evm_at_trans.
  - rewrite (ea_readOnly _ _ _ _ _ He). intros Hs'. by rewrite Hcall.
Qed.

Lemma opCallCode_ok : exec_ok opcode.CALLCODE (returning (mkOp (opCallCode en interp) (gasCallCode en) (makeStackFunc 7 1) (Some memoryCall))).
Proof.
  op_entry. specialize (Hpc' ltac:(done)). specialize (HGl eq_refl). destruct (ea_callGasTemp _ _ _ _ _ He) as [Ht _]. pose proof (cw_gas c Hc) as H0c.
  change (handed _ _) with (e_callGasTemp e + (if math.U256 z1 =? 0 then 0 else params.CallStipend)) in *.
  apply BigMax_le in Hsize as [Hret Hin]. unfold opCallCode. xs. apply xwp_on_evm. cbn [set_xstack x_evm x_contract].
  rewrite (call_gas_ok (math.U256 z1) (e_callGasTemp e) (c_Gas c)) by done. set (gas := e_callGasTemp e + (if math.U256 z1 =? 0 then 0 else params.CallStipend)) in *.
  assert (0 ≤ gas) by (subst gas; unfold params.CallStipend; destruct (_ =? 0); lia).
  eapply ewp_mono; [|eapply (CallCode_ok en limit Hlimit interp Hinterp); [by eapply evm_at_ok|done|apply BigToAddress_bytes|done|lia|apply U256_nonneg]].
  intros r e' (w' & He' & Hg' & Hd & Hr & _). unfold set_xevm. cbn [x_evm x_contract x_mem x_stack x_pc set_xstack]. cbn [length] in *.
  eapply call_result_ok; try done; try lia. by eapply evm_at_trans.
Qed.

(** ** Creations *)

Lemma create_gas_ok g : 0 ≤ g < limit →
  let gas := if en_EIP150 en then (g - g / 64)%u64 else g in 0 ≤ gas ≤ g.
Proof.
  intros Hg gas. subst gas. destruct (en_EIP150 en); [|lia]. assert (0 ≤ g / 64 ≤ g) by (split; [apply Z.div_pos|apply Z.div_le_upper_bound]; lia).
  unfold u64, maxGas, two64 in *. rewrite Z.mod_small; lia.
Qed.

Lemma set_Gas_wf g c : 0 ≤ g → contract_wf c → contract_wf (set_Gas g c).
Proof. intros Hg []. by split. Qed.

Lemma opCreate_ok : exec_ok opcode.CREATE (returning (writing (mkOp (opCreate en interp) gasCreate (makeStackFunc 3 1) (Some memoryCreate)))).
Proof.
  op_entry. specialize (Hpc' ltac:(done)). specialize (HGl eq_refl). change (handed _ _) with 0 in *. pose proof (cw_gas c Hc) as H0c. apply writing_not_static in Hst.
  unfold opCreate. xs. destruct (create_gas_ok (c_Gas c)) as [Hg0 Hg1]; [lia|]. set (gas := if en_EIP150 en then _ else _) in *.
  apply xwp_use_gas. cbn [set_xstack x_contract]. destruct (UseGas_ok gas c) as (g' & E & Hg' & Hg2); [done|unfold maxGas, two64 in *; lia|].
  assert ((UseGas gas c).2 = true) as Eok by (unfold UseGas; destruct (Z.ltb_spec (c_Gas c) gas); [lia|done]). specialize (Hg2 Eok).
  destruct (UseGas gas c) as [c1 ok]. cbn in E. subst c1. xs. apply xwp_on_evm. cbn [set_xstack set_xcontract x_evm x_contract].
  eapply ewp_mono; [|eapply (Create_ok en limit Hlimit interp Hinterp);
    [by eapply evm_at_ok|by rewrite (ea_readOnly _ _ _ _ _ He)|apply set_Gas_wf; [lia|done]|done|lia|done]].
  intros [r addr] e' (Ha & w' & He' & Hr & Hd & Hret & _). unfold set_xevm, set_xcontract, set_xstack. cbn [x_evm x_contract x_mem x_stack x_pc].
  destruct (settle_wf r (set_Gas g' c)) as [Hwf Hgas]; [apply set_Gas_wf; [lia|done]|lia|cbn; lia|done|]. xs. apply xwp_modify_contract. xs.
  unfold set_xcontract, set_xstack. cbn [x_evm x_contract x_mem x_stack x_pc]. cbn [length] in *. split.
  - eapply stepped_intro; [by eapply evm_at_trans|done|done|cbn in *; lia|done| |cbn [length]; lia|done|done|lia|lia|lia].
    apply Forall_cons. split; [|done]. repeat case_match; try done; by apply be_val_nonneg.
  - case_decide; [done|apply code_ok_nil].
Qed.

(** ** The tables *)

Lemma system_exec : execs (frontierSystem en interp).
Proof.
  do 5 (constructor; [op_log|]). constructor; [apply opCreate_ok|]. constructor; [apply opCall_ok|]. constructor; [apply opCallCode_ok|].
  constructor; [apply opReturn_ok|]. constructor; [apply opSuicide_ok|]. constructor.
Qed.

Lemma frontier_exec : execs (NewFrontierInstructionSet en interp).
Proof.
  repeat (apply Forall_app; split);
    [apply arithmetic_exec|apply environment_exec|apply flow_exec|apply push_exec|apply dup_exec|apply swap_exec|apply system_exec].
Qed.

Lemma homestead_exec : execs (NewHomesteadInstructionSet en interp).
Proof. constructor; [apply opDelegateCall_ok|apply frontier_exec]. Qed.

Lemma opReturnDataCopy_ok : exec_ok opcode.RETURNDATACOPY (mkOp opReturnDataCopy gasReturnDataCopy (makeStackFunc 3 0) (Some memoryReturnDataCopy)).
Proof.
  op_entry. change (handed _ _) with 0 in *. unfold opReturnDataCopy. xs. apply xwp_throw_if; unfold set_xstack; cbn [x_evm x_contract x_mem x_stack x_pc].
  - intros _. by eapply stopped_intro; [| |lia].
  - intros [Hb1%Z.ltb_ge Hb2%Z.ltb_ge]%orb_false_iff. apply big_BitLen_le in Hb1; [|lia|lia]. rewrite big_Uint64_small in Hb2 by (unfold two64; lia).
    pose proof (ea_returnData _ _ _ _ _ He) as [Hrb Hrl]. apply xwp_bind, xwp_lift. rewrite (big_Uint64_small z0), (big_Uint64_small (z0 + z1)) by (unfold two64; lia).
    destruct (slice_in_range (E := clash) (e_returnData e) z0 (z0 + z1)) as (b & -> & _ & Hb); [lia|lia|]. cbn [holds].
    specialize (Hb Hrb). xs. finish.
Qed.

Lemma byzantium_exec : execs (NewByzantiumInstructionSet en interp).
Proof.
  constructor; [apply opRevert_ok|]. constructor; [apply opReturnDataCopy_ok|]. constructor; [op_simple|]. constructor; [apply opStaticCall_ok|apply homestead_exec].
Qed.

Lemma JumpTable_exec n o : find_op n (JumpTable en interp) = Some o → exec_ok n o.
Proof.
  intros Ho%find_op_in. assert (execs (JumpTable en interp)) as Ht.
  { unfold JumpTable. repeat case_match; [apply byzantium_exec|apply homestead_exec|apply frontier_exec]. }
  apply (proj1 (Forall_forall _ _) Ht _ Ho).
Qed.

End Instr.
