(* ===== verification/VmSafeRun.v ===== *)
(** * The virtual machine is safe

    Every round of the interpreter keeps the invariant of the machine and costs
    gas, so a run ends: with more fuel than gas, neither a panic nor a lack of
    fuel is possible, and the model stops only on two codes with one hash. *)

From S2P Require Import Prelude Types Interfaces Rlp Trie TrieSpec Sha3 State StateFrame StateSpec GoMath Vm VmAnalysis VmExec VmPrecompiled Evm VmGas VmInstr VmTable VmRun VmLaws VmHoare VmSafePre VmSafe VmSafeGas VmSafeInstr.
From stdpp Require Import base tactics option list numbers gmap.
From Stdlib Require Import ZArith Lia.

#[local] Open Scope Z_scope.

Section Run.
Context `{HK : Keccak, HP : EvmCrypto, !KeccakLaws, !EvmCryptoLaws, HS : StateOps, HL : !StateLaws HS} (en : Env) (Henv : env_ok en).

(** ** The table *)

(** The size of the memory that an operation asks for is known. *)
Definition memory_ok (o : operation) : Prop := ∀ s f, validateStack o s = None → memorySize o = Some f → Forall (Z.le 0) s →
  ∃ size, f s = Ok size ∧ 0 ≤ size.

Lemma calcMemSize_nonneg x y : 0 ≤ x → 0 ≤ y → 0 ≤ calcMemSize x y.
Proof. intros. unfold calcMemSize. destruct (y =? 0); lia. Qed.

Lemma BigMax_nonneg x y : 0 ≤ x → 0 ≤ math.BigMax x y.
Proof. intros. unfold math.BigMax. destruct (Z.ltb_spec x y); lia. Qed.

Ltac memory_entry :=
  intros s f Hv Hf Hs; cbn [validateStack memorySize mkOp halting jumping writing reverting returning] in *; (discriminate Hf || injection Hf as <-);
  apply makeStackFunc_None in Hv as [Hv _];
  repeat match goal with
  | H : _ ≤ Z.of_nat ?L |- _ => match L with context [length ?s] => is_var s; destruct s as [|? s]; [exfalso; cbn in H; lia|cbn [length] in H] end
  end;
  repeat match goal with H : Forall _ (_ :: _) |- _ => let H1 := fresh "Hx" in apply Forall_cons_1 in H as [H1 H] end;
  (eexists; split; [reflexivity|]); first [by apply calcMemSize_nonneg | by apply BigMax_nonneg, calcMemSize_nonneg].

Context (interp : runner).

Definition memories (t : list (Z * operation)) : Prop := Forall (fun x => memory_ok (snd x)) t.

Lemma frontier_memory : memories (NewFrontierInstructionSet en interp).
Proof.
  repeat (apply Forall_app; split); try (repeat (constructor; [memory_entry|]); by constructor);
    apply Forall_fmap, Forall_seq; intros i _ s f _ Hf; discriminate Hf.
Qed.

Lemma JumpTable_memory n o : find_op n (JumpTable en interp) = Some o → memory_ok o.
Proof.
  intros Ho%find_op_in. assert (memories (JumpTable en interp)) as Ht.
  { pose proof frontier_memory. unfold JumpTable. repeat case_match; repeat (constructor; [memory_entry|]); done. }
  apply (proj1 (Forall_forall _ _) Ht _ Ho).
Qed.

Lemma find_CALL : find_op opcode.CALL (JumpTable en interp) =
  Some (returning (mkOp (opCall en interp) (gasCall en) (makeStackFunc 7 1) (Some memoryCall))).
Proof. unfold JumpTable. by repeat case_match. Qed.

Lemma find_STOP : find_op opcode.STOP (JumpTable en interp) = Some (halting (mkOp opStop (constGasFunc 0) (makeStackFunc 0 0) None)).
Proof. unfold JumpTable. by repeat case_match. Qed.

(** ** One round *)

Section Step.
Context (e0 : evmState) (w0 : world) (code : list Z).

Lemma mach_stopped m : mach en e0 w0 code m → stopped en e0 w0 (c_Gas (x_contract m)) m.
Proof. intros [He Hc ? ? ? ? ? ? ?]. split; [done|]. destruct Hc. split; [lia|done]. Qed.

Lemma stopped_le G G' m : G ≤ G' → stopped en e0 w0 G m → stopped en e0 w0 G' m.
Proof. intros Hle (? & ? & ?). split; [done|]. split; [lia|done]. Qed.

Lemma paying_stopped m0 m : paying en e0 w0 code m0 m → stopped en e0 w0 (c_Gas (x_contract m0)) m.
Proof. intros [Hm Hc _ _ _]. rewrite <- Hc. by apply mach_stopped. Qed.

Definition allowed (n : Z) (o : operation) (m : machine) : Prop :=
  (en_Byzantium en && e_readOnly e0 = true → writes o = false) ∧
  (n = opcode.CALL → en_Byzantium en && e_readOnly e0 = true → default 0 (x_stack m !! 2%nat) = 0).

Lemma enforceRestrictions_ok n o m : find_op n (JumpTable en interp) = Some o → mach en e0 w0 code m → validateStack o (x_stack m) = None →
  xwp (enforceRestrictions en n o) m (fun _ m' => m' = m ∧ allowed n o m) (fun m' => m' = m).
Proof.
  intros Ho Hm Hv. unfold enforceRestrictions. apply xwp_bind, xwp_gets. destruct (mo_evm _ _ _ _ _ Hm) as [w He].
  rewrite (ea_readOnly _ _ _ _ _ He). destruct (en_Byzantium en && e_readOnly e0) eqn:Est; [|apply xwp_ret; split; [done|]; unfold allowed; by rewrite Est].
  destruct (writes o) eqn:Ew; [done|]. destruct (Z.eqb_spec n opcode.CALL) as [->|Hn]; [|by apply xwp_ret].
  rewrite find_CALL in Ho. injection Ho as <-. apply makeStackFunc_None in Hv as [Hv _].
  destruct (lookup_lt_is_Some_2 (x_stack m) 2) as [v Hx]; [lia|]. apply xwp_bind. eapply xwp_Back; [done|].
  apply xwp_throw_if; [done|]. intros Hb%Z.ltb_ge. split; [done|]. split; [done|]. intros _ _. rewrite Hx. cbn.
  pose proof (Forall_lookup_1 _ _ _ _ (mo_stack _ _ _ _ _ Hm) Hx) as Hv0. cbn in Hv0. apply big_BitLen_le in Hb; lia.
Qed.

Lemma needed_memory_ok n o m : find_op n (JumpTable en interp) = Some o → mach en e0 w0 code m → validateStack o (x_stack m) = None →
  xwp (needed_memory o) m
    (fun ms m' => m' = m ∧ 0 ≤ ms < two64 ∧ (memorySize o = None → ms = 0) ∧ ∀ f, memorySize o = Some f → ∃ size, f (x_stack m) = Ok size ∧ size ≤ ms)
    (stopped en e0 w0 (c_Gas (x_contract m))).
Proof.
  intros Ho Hm Hv. pose proof (JumpTable_memory n o Ho (x_stack m)) as Hmem. unfold needed_memory.
  destruct (memorySize o) as [f|]; [|by apply xwp_ret]. destruct (Hmem f Hv eq_refl (mo_stack _ _ _ _ _ Hm)) as (size & E & Hs).
  apply xwp_bind, xwp_gets. apply xwp_bind, xwp_lift. rewrite E. cbn [holds]. pose proof (paying_refl _ _ _ _ _ Hm) as Hp.
  eapply xwp_mono with (P := fun ms m' => m' = m ∧ 0 ≤ ms < two64 ∧ size ≤ ms) (F := paying en e0 w0 code m).
  - intros ms m' (-> & Hms & Hle). split; [done|]. split; [done|]. split; [done|]. intros f' [= <-]. eauto.
  - apply paying_stopped.
  - apply xwp_bind. eapply pay_uint64; [done|done|]. intros Hlt. eapply pay_mul; [done|apply toWordSize_u64; lia|done|]. intros Hu.
    split; [done|]. split; [done|]. eapply toWordSize_covers; [done|done|apply Hu].
Qed.

Lemma charge_ok n o ms m : find_op n (JumpTable en interp) = Some o → mach en e0 w0 code m → validateStack o (x_stack m) = None →
  allowed n o m → 0 ≤ ms < two64 →
  xwp (charge en o ms) m
    (fun _ m' => mach en e0 w0 code m' ∧ x_stack m' = x_stack m ∧ x_pc m' = x_pc m ∧ (memorySize o ≠ None → ms ≤ maxMem) ∧
       c_Gas (x_contract m') + handed n m' + (if halts o || reverts o then 0 else 1) ≤ c_Gas (x_contract m))
    (stopped en e0 w0 (c_Gas (x_contract m))).
Proof.
  intros Ho Hm Hv [Hst _] Hms. unfold charge, xwp. rewrite (en_ok_metered en Henv). apply holds_bind.
  pose proof (JumpTable_gas en interp n o Ho e0 w0 code m ms Hm Hv Hst Hms) as Hgas. apply holds_mono with (2 := Hgas).
  intros [m' [cost|e]]; [|apply paying_stopped]. intros (Hp & Hu & Hmem & Hle). pose proof Hp as [Hm' Hc Hs Hpc _].
  change (xwp (ok ← use_gas cost; throw_if (negb ok) ErrOutOfGas) m' (fun _ m' => mach en e0 w0 code m' ∧ x_stack m' = x_stack m ∧ x_pc m' = x_pc m ∧
    (memorySize o ≠ None → ms ≤ maxMem) ∧ c_Gas (x_contract m') + handed n m' + (if halts o || reverts o then 0 else 1) ≤ c_Gas (x_contract m))
    (stopped en e0 w0 (c_Gas (x_contract m)))).
  apply xwp_bind, xwp_use_gas. unfold UseGas. destruct (Z.ltb_spec (c_Gas (x_contract m')) cost) as [Hlt|Hge].
  - apply xwp_throw_if; [|done]. intros _. apply paying_stopped in Hp. by destruct m'.
  - apply xwp_throw_if; [done|]. intros _. pose proof (mo_gas _ _ _ _ _ Hm') as Hg. unfold is_u64, maxGas in *.
    assert ((c_Gas (x_contract m') - cost)%u64 = c_Gas (x_contract m') - cost) as E by (unfold u64, two64; apply Z.mod_small; lia). rewrite E.
    split; [|split; [done|split; [done|split; [done|]]]].
    + destruct Hm'. split; cbn; try done; [apply set_Gas_wf; [lia|done]|unfold maxGas; lia].
    + change (handed n (set_xcontract ?c m')) with (handed n m'). cbn. rewrite <- Hc. lia.
Qed.

Lemma mem_Resize_ok ms mem : is_bytes (m_store mem) → mem_Len mem ≤ maxMem → 0 ≤ ms ≤ maxMem →
  is_bytes (m_store (mem_Resize ms mem)) ∧ mem_Len mem ≤ mem_Len (mem_Resize ms mem) ≤ maxMem ∧ ms ≤ mem_Len (mem_Resize ms mem).
Proof.
  intros Hb Hl Hms. unfold mem_Resize, mem_Len in *. destruct (Z.ltb_spec (strlen (m_store mem)) ms); [|split; [done|lia]]. cbn. split.
  - apply Forall_app. split; [done|apply replicate_bytes].
  - rewrite length_app, length_replicate. lia.
Qed.

Lemma GetOp_STOP pc c : strlen (c_Code c) ≤ pc → GetOp pc c = opcode.STOP.
Proof. intros Hpc. unfold GetOp, GetByte. by destruct (Z.ltb_spec pc (strlen (c_Code c))); [lia|]. Qed.

Lemma prepare_ok n o m : find_op n (JumpTable en interp) = Some o → mach en e0 w0 code m → n = GetOp (x_pc m) (x_contract m) →
  xwp (prepare en n o) m
    (fun _ m' => ready en (c_Gas (x_contract m)) e0 w0 code n o m' ∧
       c_Gas (x_contract m') + handed n m' + (if halts o || reverts o then 0 else 1) ≤ c_Gas (x_contract m))
    (stopped en e0 w0 (c_Gas (x_contract m))).
Proof.
  intros Ho Hm Hn. unfold prepare. apply xwp_bind, xwp_gets. destruct (validateStack o (x_stack m)) as [e|] eqn:Hv; [by apply mach_stopped|].
  apply xwp_bind. eapply xwp_mono; [| |by eapply enforceRestrictions_ok]; [|intros m' ->; by apply mach_stopped]. intros [] ? [-> Hal].
  apply xwp_bind. eapply xwp_mono; [| |by eapply needed_memory_ok]; [|done]. intros ms ? (-> & Hms & Hnone & Hsome).
  apply xwp_bind. eapply xwp_mono; [| |by eapply charge_ok]; [|done]. intros [] m' (Hm' & Hs & Hpc & Hmax & Hle).
  apply xwp_on_mem. cbn [holds]. pose proof Hm' as [He Hc Hg Hcode Hstk Hlim Hmb Hml Hp].
  set (mem' := if 0 <? ms then _ else _). assert (is_bytes (m_store mem') ∧ mem_Len mem' ≤ maxMem ∧ (memorySize o ≠ None → ms ≤ mem_Len mem')) as (Hmb' & Hml' & Hcov).
  { subst mem'. destruct (memorySize o) as [f|].
    - destruct (mem_Resize_ok ms (x_mem m')) as (? & ? & ?); [done|done|split; [lia|by apply Hmax]|]. destruct (Z.ltb_spec 0 ms); [split; [done|]; split; [lia|done]|].
      split; [done|]. split; [done|]. intros _. unfold mem_Len. lia.
    - rewrite Hnone by done. done. }
  split; [|done]. split; cbn.
  - by split.
  - by rewrite Hs.
  - apply Hal.
  - rewrite Hs. apply Hal.
  - intros f Hf. rewrite Hs. destruct (Hsome f Hf) as (size & E & Hsz). exists size. split; [done|]. specialize (Hcov ltac:(by rewrite Hf)). lia.
  - intros HnS. rewrite Hpc. destruct (decide (x_pc m < strlen code)); [done|]. destruct HnS. rewrite Hn. apply GetOp_STOP.
    rewrite (mo_code _ _ _ _ _ Hm). lia.
  - change (handed n (set_xmem mem' m')) with (handed n m'). pose proof (mo_gas _ _ _ _ _ Hm). destruct (halts o || reverts o); lia.
  - intros Hh. change (handed n (set_xmem mem' m')) with (handed n m'). rewrite Hh in Hle. lia.
Qed.

Lemma set_returnData_at b e w : evm_at en e0 w0 e w → code_ok b → evm_at en e0 w0 (set_returnData b e) w.
Proof. intros [] Hb. by split. Qed.

Lemma perform_ok limit n o m : limit ≤ maxGas → runner_ok en limit interp → find_op n (JumpTable en interp) = Some o → ready en limit e0 w0 code n o m →
  xwp (perform o) m
    (fun res m' => stepped en e0 w0 code (c_Gas (x_contract m) + handed n m) n m' ∧ code_ok (default [] res))
    (stopped en e0 w0 (c_Gas (x_contract m) + handed n m)).
Proof.
  intros Hl Hi Ho Hr. pose proof (JumpTable_exec en Henv limit Hl interp Hi n o Ho e0 w0 code m Hr) as Hx. unfold perform, xwp in *.
  apply holds_bind, holds_mono with (2 := Hx). intros [m' [res|e]]; cbn [holds].
  - intros [[Hm Hg Hp] Hres]. destruct (returns o); [|done]. split; [|done]. destruct (mo_evm _ _ _ _ _ Hm) as [w He].
    split; [|done|done]. eapply mach_evm; [done|by eapply set_returnData_at].
  - intros ([w He] & Hg & Hd). destruct (returns o); [|by split; [eauto|]]. split; [|done]. exists w. apply set_returnData_at; [done|apply code_ok_nil].
Qed.

Definition step_post (m : machine) (r : option (option (list Z) * option vmError)) (m' : machine) : Prop :=
  match r with
  | None => mach en e0 w0 code m' ∧ c_Gas (x_contract m') < c_Gas (x_contract m)
  | Some (ret, err) => stopped en e0 w0 (c_Gas (x_contract m)) m' ∧ code_ok (default [] ret)
  end.

Lemma step_ok m : mach en e0 w0 code m → runner_ok en (c_Gas (x_contract m)) interp →
  xwp (step en interp) m (step_post m) (stopped en e0 w0 (c_Gas (x_contract m))).
Proof.
  intros Hm Hi. unfold step. apply xwp_bind, xwp_gets, xwp_bind, xwp_gets. set (n := GetOp _ _).
  destruct (find_op n (JumpTable en interp)) as [o|] eqn:Ho; [|by apply xwp_throw, mach_stopped].
  apply xwp_bind. eapply xwp_mono; [| |by apply prepare_ok]; [|done]. intros [] m1 [Hr Hle].
  assert (c_Gas (x_contract m1) + handed n m1 ≤ c_Gas (x_contract m)) by (destruct (halts o || reverts o); lia).
  apply xwp_bind. eapply xwp_mono; [| |by eapply (perform_ok (c_Gas (x_contract m)) n o m1); [pose proof (mo_gas _ _ _ _ _ Hm); lia|..]];
    [|intros m' Hs; by eapply stopped_le]. intros res m2 [[Hm2 Hg2 Hp2] Hres].
  assert (stopped en e0 w0 (c_Gas (x_contract m)) m2) by (eapply stopped_le; [|by apply mach_stopped]; lia).
  destruct (reverts o) eqn:Er; [done|]. destruct (halts o) eqn:Eh; [done|]. cbn [orb] in Hle.
  assert (n ≠ opcode.STOP) as HnS by (intros E; rewrite E, find_STOP in Ho; by injection Ho as <-). specialize (Hp2 HnS).
  destruct (jumps o); cbn [negb]; [split; [done|lia]|]. apply xwp_bind, xwp_gets, xwp_bind, xwp_set_pc, xwp_ret. split; [|cbn; lia].
  destruct Hm2 as [? Hc2 ? Hcode ? ? ? ? [? ?]]. pose proof (cw_code _ Hc2) as [_ Hmax]. rewrite Hcode in Hmax. unfold maxCode in Hmax.
  unfold u64. rewrite Z.mod_small by (unfold two64; lia). split; cbn; try done. lia.
Qed.

End Step.
End Run.

Section Loop.
Context `{HK : Keccak, HP : EvmCrypto, !KeccakLaws, !EvmCryptoLaws, HS : StateOps, HL : !StateLaws HS} (en : Env) (Henv : env_ok en).

(** ** The loop *)

Definition loop_ok (limit : Z) (lp : machine → vmres (machine * (option (list Z) * option vmError))) : Prop :=
  ∀ e0 w0 code m, mach en e0 w0 code m → c_Gas (x_contract m) < limit →
    holds (lp m) (fun '(m', (ret, _)) => stopped en e0 w0 (c_Gas (x_contract m)) m' ∧ code_ok (default [] ret)).

Lemma Run_with_ok limit lp : limit ≤ maxGas → loop_ok limit lp → runner_ok en limit (Run_with lp).
Proof.
  intros Hl Hlp e w contract input He Hc Hg Hi. unfold Run_with, ewp. set (e1 := set_returnData [] (set_depth (e_depth e + 1) e)).
  assert (evm_ok en e1 w) as He1 by (destruct He; split; try done; first [reflexivity|apply code_ok_nil]).
  destruct (c_Code contract) as [|op rest] eqn:E.
  - cbn [holds]. exists w. split; [|split; [split; [apply Hc|done]|split; [apply Hc|apply code_ok_nil]]].
    destruct He1. split; try done. cbn. lia.
  - apply holds_bind. eapply holds_mono; [|eapply (Hlp e1 w (c_Code contract))].
    + intros [m' [ret err]] [([w' He'] & Hgas & Hd) Hret]. cbn [holds]. exists w'. split; [|done]. destruct He'. split; try done. cbn in *. lia.
    + destruct Hc. split; cbn; eauto; first [lia|by constructor|by split|split; lia|done].
    + done.
Qed.

Lemma loop_safe fuel : loop_ok (Z.of_nat fuel) (loop en fuel).
Proof.
  induction fuel as [|fuel IH]; intros e0 w0 code m Hm Hf; [pose proof (cw_gas _ (mo_contract _ _ _ _ _ Hm)); lia|]. cbn [loop].
  assert (runner_ok en (c_Gas (x_contract m)) (Run_with (loop en fuel))) as Hrun.
  { apply Run_with_ok; [pose proof (mo_gas _ _ _ _ _ Hm); lia|]. intros e1 w1 code1 m1 Hm1 Hg1. apply (IH e1 w1 code1); [done|lia]. }
  apply holds_bind. eapply holds_mono; [|by apply (step_ok en Henv _ e0 w0 code m Hm Hrun)].
  intros [m' [[[ret err]|]|e]]; cbn [step_post].
  - done.
  - intros [Hm' Hlt]. eapply holds_mono; [|apply (IH e0 w0 code m' Hm'); lia]. intros [m2 [ret err]] [Hs Hr]. split; [|done]. eapply stopped_le; [|done]. lia.
  - intros Hs. split; [done|apply code_ok_nil].
Qed.

Lemma Run_ok limit fuel : limit ≤ maxGas → limit ≤ Z.of_nat fuel → runner_ok en limit (Run en fuel).
Proof.
  intros Hl Hf. apply Run_with_ok; [done|]. intros e0 w0 code m Hm Hg. apply (loop_safe fuel e0 w0 code); [done|lia].
Qed.

(** C7. Every round of the interpreter keeps the machine well-typed: a stack of
    at most 1024 words, none negative, a memory of bytes whose size fits 40
    bits, a program counter near the code, data and codes that are bytes, and
    accounts without negative balances; and a round that does not end the run
    costs gas.  No operand is missing, no slice out of range, whatever the
    code. *)
Theorem step_typed e0 w0 code m fuel : mach en e0 w0 code m → c_Gas (x_contract m) ≤ Z.of_nat fuel →
  match step en (Run en fuel) m with
  | Ok (m', inl None) => mach en e0 w0 code m' ∧ c_Gas (x_contract m') < c_Gas (x_contract m)
  | Ok (m', _) => stopped en e0 w0 (c_Gas (x_contract m)) m'
  | Err c => collision c
  | Panic => False
  end.
Proof.
  intros Hm Hf. pose proof (mo_gas _ _ _ _ _ Hm). pose proof (step_ok en Henv (Run en fuel) e0 w0 code m Hm ltac:(apply Run_ok; lia)) as Hs.
  unfold xwp in Hs. destruct (step en (Run en fuel) m) as [[m' [[[ret err]|]|e]]|c|]; cbn in Hs |- *; try done. by destruct Hs.
Qed.

(** ** Calls from outside *)

Context (s : st) (w : world) (Hsees : st_sees s w) (Hw : world_ok w).

Lemma NewEVM_ok : evm_ok en (NewEVM s) w.
Proof. split; cbn; try done; first [by eapply later_refl|by intros _; reflexivity|apply code_ok_nil]. Qed.

Context (caller : Address) (Hcaller : is_bytes caller) (input : list Z) (Hinput : code_ok input).
Context (gas : Z) (Hgas : 0 ≤ gas < maxGas) (fuel : nat) (Hfuel : gas < Z.of_nat fuel).

Lemma Run_gas : runner_ok en (gas + 1) (Run en fuel).
Proof. apply Run_ok; lia. Qed.

(** C6. A call of a contract from outside, with less than 2^57 gas, ends
    without a panic in at most as many rounds as it has gas, in itself and in
    the calls it makes; it leaves between none and all of the gas, and the
    accounts stay well-formed.  It can only be stopped by two codes with one
    hash. *)
Theorem Call_safe addr value : is_bytes addr → 0 ≤ value →
  match Call en (Run en fuel) (AccountRef caller) addr input gas value (NewEVM s) with
  | Ok (e', r) => 0 ≤ r_gas r ≤ gas ∧ is_bytes (default [] (r_ret r)) ∧ ∃ w', st_sees (e_db e') w' ∧ world_ok w'
  | Err c => collision c
  | Panic => False
  end.
Proof.
  intros Ha Hv. pose proof (Call_ok en (gas + 1) ltac:(lia) (Run en fuel) Run_gas (AccountRef caller) addr input gas value (NewEVM s) w
    NewEVM_ok Hcaller Ha Hinput ltac:(lia) Hv ltac:(by rewrite andb_false_r)) as Hc.
  unfold ewp in Hc. destruct (Call _ _ _ _ _ _ _ _) as [[e' r]|c|]; [|done|done]. destruct Hc as (w' & He & Hg & _ & [Hr _] & _). split; [done|]. split; [done|]. exists w'. split; apply He.
Qed.

(** C17. A call that fails leaves the accounts, storage, logs and refund exactly
    as they were before it, however much it and the calls it made had
    changed. *)
Theorem Call_failed_restores addr value e' r : is_bytes addr → 0 ≤ value →
  Call en (Run en fuel) (AccountRef caller) addr input gas value (NewEVM s) = Ok (e', r) → r_err r ≠ None → st_sees (e_db e') w.
Proof.
  intros Ha Hv E Herr. pose proof (Call_ok en (gas + 1) ltac:(lia) (Run en fuel) Run_gas (AccountRef caller) addr input gas value (NewEVM s) w
    NewEVM_ok Hcaller Ha Hinput ltac:(lia) Hv ltac:(by rewrite andb_false_r)) as Hc.
  unfold ewp in Hc. rewrite E in Hc. destruct Hc as (w' & He & _ & _ & _ & Hw'). rewrite <- (Hw' Herr). apply He.
Qed.

(** A creation that fails, from Homestead on, leaves the accounts as they
    were except for the nonce of the creator, which it may have counted up. *)
Theorem Create_failed_restores value e' r addr : 0 ≤ value → en_Homestead en = true →
  Create en (Run en fuel) (AccountRef caller) input gas value (NewEVM s) = Ok (e', (r, addr)) → r_err r ≠ None →
  st_sees (e_db e') w ∨ st_sees (e_db e') (w_update caller (v_nonce (w_nonce caller w + 1)%u64) w).
Proof.
  intros Hv Hh E Herr. pose proof (Create_ok en (gas + 1) ltac:(lia) (Run en fuel) Run_gas (AccountRef caller) input gas value (NewEVM s) w
    NewEVM_ok ltac:(by rewrite andb_false_r) Hcaller Hinput ltac:(lia) Hv) as Hc.
  unfold ewp in Hc. rewrite E in Hc. destruct Hc as (_ & w' & He & _ & _ & _ & Hw'). pose proof (ea_sees _ _ _ _ _ He) as Hs.
  destruct (Hw' Hh Herr) as [-> | ->]; [by left|by right].
Qed.

(** C16. From Byzantium on, a static call changes no account that has contents,
    no storage, no log and no refund, whatever code runs in it; only empty
    accounts can appear. *)
Theorem StaticCall_changes_nothing addr e' r : is_bytes addr → en_Byzantium en = true →
  StaticCall en (Run en fuel) (AccountRef caller) addr input gas (NewEVM s) = Ok (e', r) →
  ∃ w', st_sees (e_db e') w' ∧ same_world w w'.
Proof.
  intros Ha HB E. pose proof (StaticCall_ok en (gas + 1) ltac:(lia) (Run en fuel) Run_gas (AccountRef caller) addr input gas (NewEVM s) w
    NewEVM_ok Hcaller Ha Hinput ltac:(lia)) as Hc.
  unfold ewp in Hc. rewrite E in Hc. destruct Hc as [_ Hc]. by apply Hc.
Qed.

End Loop.
