(* ===== verification/VmRel.v ===== *)
(** * The virtual machine depends on the accounts alone

    Two states that see the same accounts, whatever else they hold and however
    they are implemented, give the same runs: the same data, gas, errors and
    panics, and states that see the same accounts again.  [erel] and [xrel]
    relate two computations, [srel] two computations that may go back to a
    snapshot taken before them. *)

From S2P Require Import Prelude Types Interfaces Rlp Trie State StateFrame StateSpec GoMath Vm VmExec VmPrecompiled Evm VmGas VmInstr VmTable VmRun VmLaws.
From stdpp Require Import base tactics option list numbers gmap.
From Stdlib Require Import ZArith Lia.

#[local] Open Scope Z_scope.

Create HintDb rel.

Section Rel.
Context `{HK : Keccak, HP : EvmCrypto} (H1 H2 : StateOps) {L1 : StateLaws H1} {L2 : StateLaws H2} (en : Env).

(** ** Related states *)

Record esim (e1 : @evmState H1) (e2 : @evmState H2) : Prop := {
  es_world : ∃ w, st_sees (e_db e1) w ∧ st_sees (e_db e2) w;
  es_depth : e_depth e1 = e_depth e2;
  es_readOnly : e_readOnly e1 = e_readOnly e2;
  es_returnData : e_returnData e1 = e_returnData e2;
  es_callGasTemp : e_callGasTemp e1 = e_callGasTemp e2
}.

(** Two results: equal outcomes, and what comes with them related. *)
Definition agree {A B1 B2} (r1 : vmres (B1 * A)) (r2 : vmres (B2 * A)) (R : B1 → B2 → Prop) : Prop :=
  match r1, r2 with
  | Ok (b1, a1), Ok (b2, a2) => a1 = a2 ∧ R b1 b2
  | Err c1, Err c2 => c1 = c2
  | Panic, Panic => True
  | _, _ => False
  end.

Definition erel {A} (x1 : @evmM H1 A) (x2 : @evmM H2 A) : Prop := ∀ e1 e2, esim e1 e2 →
  agree (x1 e1) (x2 e2) (fun e1' e2' => esim e1' e2' ∧ st_later (e_db e1) (e_db e1') ∧ st_later (e_db e2) (e_db e2')).

Lemma esim_later e1 e2 : esim e1 e2 → st_later (e_db e1) (e_db e1) ∧ st_later (e_db e2) (e_db e2).
Proof. intros [(w & Hs1 & Hs2) _ _ _ _]. split; by eapply later_refl. Qed.

Lemma erel_ret {A} (a : A) : erel (mret a) (mret a).
Proof. intros e1 e2 He. split; [done|]. split; [done|by apply esim_later]. Qed.

Lemma erel_bind {A B} (x1 : @evmM H1 A) (x2 : @evmM H2 A) (f1 : A → @evmM H1 B) (f2 : A → @evmM H2 B) :
  erel x1 x2 → (∀ a, erel (f1 a) (f2 a)) → erel (x1 ≫= f1) (x2 ≫= f2).
Proof.
  intros Hx Hf e1 e2 He. specialize (Hx e1 e2 He). unfold mbind, evmM_mbind. destruct (x1 e1) as [[e1' a1]| |], (x2 e2) as [[e2' a2]| |]; try done.
  destruct Hx as (-> & He' & Hl1 & Hl2). specialize (Hf a2 e1' e2' He'). cbn. unfold agree in *.
  destruct (f1 a2 e1') as [[e1'' b1]| |], (f2 a2 e2') as [[e2'' b2]| |]; try done. destruct Hf as (-> & He'' & Hl1' & Hl2').
  split; [done|]. split; [done|]. split; by eapply later_trans.
Qed.

Lemma erel_lift {A} (r : vmres A) : erel (e_lift r) (e_lift r).
Proof. intros e1 e2 He. unfold e_lift. destruct r; cbn; try done. split; [done|]. split; [done|by apply esim_later]. Qed.

Lemma erel_gets {A} (f1 : @evmState H1 → A) (f2 : @evmState H2 → A) : (∀ e1 e2, esim e1 e2 → f1 e1 = f2 e2) → erel (e_gets f1) (e_gets f2).
Proof. intros Hf e1 e2 He. split; [by apply Hf|]. split; [done|by apply esim_later]. Qed.

Lemma erel_modify (f1 : @evmState H1 → @evmState H1) (f2 : @evmState H2 → @evmState H2) :
  (∀ e1 e2, esim e1 e2 → esim (f1 e1) (f2 e2) ∧ e_db (f1 e1) = e_db e1 ∧ e_db (f2 e2) = e_db e2) → erel (e_modify f1) (e_modify f2).
Proof. intros Hf e1 e2 He. destruct (Hf e1 e2 He) as (He' & E1 & E2). split; [done|]. split; [done|]. rewrite E1, E2. by apply esim_later. Qed.

Lemma esim_db s1 s2 w e1 e2 : esim e1 e2 → st_sees s1 w → st_sees s2 w → esim (set_edb s1 e1) (set_edb s2 e2).
Proof. intros [] Hs1 Hs2. split; try done. by exists w. Qed.

Lemma erel_do f1 f2 op : does (S := @st H1) st_sees st_later f1 op → does (S := @st H2) st_sees st_later f2 op → erel (db_do f1) (db_do f2).
Proof.
  intros Hf1 Hf2 e1 e2 He. destruct (es_world _ _ He) as (w & Hs1 & Hs2). destruct (Hf1 _ _ Hs1) as (s1 & E1 & Hs1' & Hl1).
  destruct (Hf2 _ _ Hs2) as (s2 & E2 & Hs2' & Hl2). unfold db_do. rewrite E1, E2. cbn. split; [done|]. split; [by eapply esim_db|done].
Qed.

Lemma erel_read {A} f1 f2 (g : world → A) : answers_with (S := @st H1) st_sees st_later f1 g → answers_with (S := @st H2) st_sees st_later f2 g →
  erel (db_read f1) (db_read f2).
Proof.
  intros Hf1 Hf2 e1 e2 He. destruct (es_world _ _ He) as (w & Hs1 & Hs2). destruct (Hf1 _ _ Hs1) as (s1 & E1 & Hs1' & Hl1).
  destruct (Hf2 _ _ Hs2) as (s2 & E2 & Hs2' & Hl2). unfold db_read. rewrite E1, E2. cbn. split; [done|]. split; [by eapply esim_db|done].
Qed.

Lemma erel_suicide a : erel (db_read (st_Suicide a)) (db_read (st_Suicide a)).
Proof.
  intros e1 e2 He. destruct (es_world _ _ He) as (w & Hs1 & Hs2). destruct (law_Suicide a _ _ Hs1) as (s1 & E1 & Hs1' & Hl1).
  destruct (law_Suicide a _ _ Hs2) as (s2 & E2 & Hs2' & Hl2). unfold db_read. rewrite E1, E2. cbn. split; [done|]. split; [by eapply esim_db|done].
Qed.

(** ** Snapshots *)

(** After a snapshot of [b1] and [b2]; they may go back to it. *)
Definition srel {A} (b1 : @st H1) (b2 : @st H2) (x1 : @evmM H1 A) (x2 : @evmM H2 A) : Prop := ∀ e1 e2, esim e1 e2 →
  st_later (st_Snapshot b1).1 (e_db e1) → st_later (st_Snapshot b2).1 (e_db e2) →
  agree (x1 e1) (x2 e2) (fun e1' e2' => esim e1' e2' ∧ st_later b1 (e_db e1') ∧ st_later b2 (e_db e2')).

Definition see_same (b1 : @st H1) (b2 : @st H2) : Prop := ∃ w, st_sees b1 w ∧ st_sees b2 w.

Lemma srel_erel {A} b1 b2 (x1 : @evmM H1 A) (x2 : @evmM H2 A) : see_same b1 b2 → erel x1 x2 → srel b1 b2 x1 x2.
Proof.
  intros (w & Hb1 & Hb2) Hx e1 e2 He Hl1 Hl2. specialize (Hx e1 e2 He). unfold agree in *.
  destruct (x1 e1) as [[e1' a1]| |], (x2 e2) as [[e2' a2]| |]; try done. destruct Hx as (-> & He' & Hl1' & Hl2'). split; [done|]. split; [done|].
  destruct (law_Snapshot b1 w Hb1) as [_ Hk1]. destruct (law_Snapshot b2 w Hb2) as [_ Hk2].
  split; (eapply later_trans; [eassumption|]; by eapply later_trans).
Qed.

Lemma srel_bind {A B} b1 b2 (x1 : @evmM H1 A) (x2 : @evmM H2 A) (f1 : A → @evmM H1 B) (f2 : A → @evmM H2 B) :
  erel x1 x2 → (∀ a, srel b1 b2 (f1 a) (f2 a)) → srel b1 b2 (x1 ≫= f1) (x2 ≫= f2).
Proof.
  intros Hx Hf e1 e2 He Hl1 Hl2. specialize (Hx e1 e2 He). unfold mbind, evmM_mbind. destruct (x1 e1) as [[e1' a1]| |], (x2 e2) as [[e2' a2]| |]; try done.
  destruct Hx as (-> & He' & Hl1' & Hl2'). apply (Hf a2 e1' e2' He'); by eapply later_trans.
Qed.

Lemma srel_then {A B} b1 b2 (x1 : @evmM H1 A) (x2 : @evmM H2 A) (f1 : A → @evmM H1 B) (f2 : A → @evmM H2 B) :
  srel b1 b2 x1 x2 → (∀ a, erel (f1 a) (f2 a)) → srel b1 b2 (x1 ≫= f1) (x2 ≫= f2).
Proof.
  intros Hx Hf e1 e2 He Hl1 Hl2. specialize (Hx e1 e2 He Hl1 Hl2). unfold mbind, evmM_mbind. destruct (x1 e1) as [[e1' a1]| |], (x2 e2) as [[e2' a2]| |]; try done.
  destruct Hx as (-> & He' & Hl1' & Hl2'). specialize (Hf a2 e1' e2' He'). cbn. unfold agree in *.
  destruct (f1 a2 e1') as [[e1'' c1]| |], (f2 a2 e2') as [[e2'' c2]| |]; try done. destruct Hf as (-> & He'' & Hk1 & Hk2).
  split; [done|]. split; [done|]. split; by eapply later_trans.
Qed.

Lemma srel_revert b1 b2 : see_same b1 b2 →
  srel b1 b2 (db_do (st_RevertToSnapshot (st_Snapshot b1).2)) (db_do (st_RevertToSnapshot (st_Snapshot b2).2)).
Proof.
  intros (w0 & Hb1 & Hb2) e1 e2 He Hl1 Hl2. destruct (es_world _ _ He) as (w & Hs1 & Hs2).
  destruct (law_RevertToSnapshot b1 w0 _ w Hb1 Hl1 Hs1) as (s1 & E1 & Hs1' & Hk1). destruct (law_RevertToSnapshot b2 w0 _ w Hb2 Hl2 Hs2) as (s2 & E2 & Hs2' & Hk2).
  unfold db_do. rewrite E1, E2. cbn. split; [done|]. split; [by eapply esim_db|done].
Qed.

Lemma erel_snapshot {A} (f1 : Z → @evmM H1 A) (f2 : Z → @evmM H2 A) :
  (∀ b1 b2, see_same b1 b2 → srel b1 b2 (f1 (st_Snapshot b1).2) (f2 (st_Snapshot b2).2)) → erel (take_snapshot ≫= f1) (take_snapshot ≫= f2).
Proof.
  intros Hf e1 e2 He. destruct (es_world _ _ He) as (w & Hs1 & Hs2). specialize (Hf (e_db e1) (e_db e2) ltac:(by exists w)).
  destruct (law_Snapshot _ w Hs1) as [Hs1' Hk1]. destruct (law_Snapshot _ w Hs2) as [Hs2' Hk2].
  unfold mbind, evmM_mbind, take_snapshot. destruct (st_Snapshot (e_db e1)) as [s1 id1] eqn:E1, (st_Snapshot (e_db e2)) as [s2 id2] eqn:E2. cbn in *.
  apply Hf; [by eapply esim_db|rewrite E1|rewrite E2]; by eapply later_refl.
Qed.

(** ** Calls *)

Definition rrel (i1 : @runner H1) (i2 : @runner H2) : Prop := ∀ c input, erel (i1 c input) (i2 c input).

Section Calls.
Context (i1 : @runner H1) (i2 : @runner H2) (Hi : rrel i1 i2).

Ltac erel_one := match goal with
  | |- erel (mret _) (mret _) => apply erel_ret
  | |- erel (early _ _ _) (early _ _ _) => apply erel_ret
  | |- erel (e_lift _) (e_lift _) => apply erel_lift
  | |- erel (e_gets _) (e_gets _) => apply erel_gets; by intros ? ? []
  | |- erel (db_do _) (db_do _) => eapply erel_do; auto with laws
  | |- erel (db_read _) (db_read _) => eapply erel_read; auto with laws
  | |- erel (if ?b then _ else _) (if ?b then _ else _) => destruct b
  | |- erel (take_snapshot ≫= _) (take_snapshot ≫= _) => fail 1
  | |- erel (_ ≫= _) (_ ≫= _) => apply erel_bind; [|intros ?]
  end.

Lemma run_rel c input : erel (run en i1 c input) (run en i2 c input).
Proof. unfold run. destruct (c_CodeAddr c ≫= precompiles en); [apply erel_lift|apply Hi]. Qed.

Lemma Transfer_rel a b z : erel (Transfer a b z) (Transfer a b z).
Proof. unfold Transfer. repeat erel_one. Qed.

Lemma CanTransfer_rel a z : erel (CanTransfer a z) (CanTransfer a z).
Proof. unfold CanTransfer. repeat erel_one. Qed.

Lemma load_code_rel a c : erel (load_code a c) (load_code a c).
Proof. unfold load_code. repeat erel_one. Qed.

Lemma settle_rel b1 b2 r : see_same b1 b2 → srel b1 b2 (settle (st_Snapshot b1).2 r) (settle (st_Snapshot b2).2 r).
Proof.
  intros Hb. destruct r as [[c ret] [err|]]; cbn [settle]; [|apply srel_erel; [done|apply erel_ret]].
  apply srel_then; [by apply srel_revert|intros _; apply erel_ret].
Qed.

Lemma run_settle_rel b1 b2 c input : see_same b1 b2 →
  srel b1 b2 (r ← run en i1 c input; settle (st_Snapshot b1).2 r) (r ← run en i2 c input; settle (st_Snapshot b2).2 r).
Proof. intros Hb. apply srel_bind; [apply run_rel|]. intros r. by apply settle_rel. Qed.

Lemma Call_rel caller addr input gas value : erel (Call en i1 caller addr input gas value) (Call en i2 caller addr input gas value).
Proof.
  unfold Call. repeat erel_one; [apply CanTransfer_rel|].
  apply erel_snapshot. intros b1 b2 Hb. apply srel_bind; [repeat erel_one|intros ex].
  destruct (_ && (value =? 0)); [apply srel_erel; [done|apply erel_ret]|]. apply srel_bind; [repeat erel_one|intros _].
  apply srel_bind; [apply Transfer_rel|intros _]. apply srel_bind; [apply load_code_rel|intros c]. by apply run_settle_rel.
Qed.

Lemma CallCode_rel caller addr input gas value : erel (CallCode en i1 caller addr input gas value) (CallCode en i2 caller addr input gas value).
Proof.
  unfold CallCode. repeat erel_one; [apply CanTransfer_rel|].
  apply erel_snapshot. intros b1 b2 Hb. apply srel_bind; [apply load_code_rel|intros c]. by apply run_settle_rel.
Qed.

Lemma DelegateCall_rel caller addr input gas : erel (DelegateCall en i1 caller addr input gas) (DelegateCall en i2 caller addr input gas).
Proof.
  unfold DelegateCall. repeat erel_one. apply erel_snapshot. intros b1 b2 Hb.
  apply srel_bind; [apply erel_lift|intros c]. apply srel_bind; [apply load_code_rel|intros c']. by apply run_settle_rel.
Qed.

Lemma StaticCall_rel caller addr input gas : erel (StaticCall en i1 caller addr input gas) (StaticCall en i2 caller addr input gas).
Proof.
  unfold StaticCall. repeat erel_one; [apply erel_modify; intros ? ? []; by split|]. apply erel_snapshot. intros b1 b2 Hb.
  apply srel_bind; [apply load_code_rel|intros c]. apply srel_bind; [apply run_rel|intros r].
  apply srel_then; [by apply settle_rel|intros res]. repeat erel_one. apply erel_modify. intros ? ? Hs. destruct a0; [done|]. destruct Hs. by split.
Qed.

Lemma finish_create_rel b1 b2 addr r : see_same b1 b2 →
  srel b1 b2 (finish_create en (st_Snapshot b1).2 addr r) (finish_create en (st_Snapshot b2).2 addr r).
Proof.
  intros Hb. destruct r as [[c ret] err]. unfold finish_create. cbv zeta. apply srel_bind.
  - destruct err; [apply erel_ret|]. erel_one; [|apply erel_ret]. destruct (UseGas _ c) as [c' ok]. repeat erel_one.
  - intros [c' err']. apply srel_then; [|intros; apply erel_ret]. destruct (_ || _); [|apply srel_erel; [done|apply erel_ret]].
    apply srel_then; [by apply srel_revert|intros; apply erel_ret].
Qed.

Lemma Create_rel caller code gas value : erel (Create en i1 caller code gas value) (Create en i2 caller code gas value).
Proof.
  unfold Create. repeat erel_one; [apply CanTransfer_rel|]. apply erel_snapshot. intros b1 b2 Hb. apply srel_bind; [repeat erel_one|intros _].
  apply srel_bind; [repeat erel_one|intros _]. apply srel_bind; [apply Transfer_rel|intros _]. cbv zeta.
  destruct (en_NoRecursion en && _); [apply srel_erel; [done|repeat erel_one]|]. apply srel_bind; [apply run_rel|intros r]. by apply finish_create_rel.
Qed.

End Calls.

(** ** Related machines *)

Record msim (m1 : @machine H1) (m2 : @machine H2) : Prop := {
  ms_evm : esim (x_evm m1) (x_evm m2);
  ms_contract : x_contract m1 = x_contract m2;
  ms_mem : x_mem m1 = x_mem m2;
  ms_stack : x_stack m1 = x_stack m2;
  ms_pc : x_pc m1 = x_pc m2
}.

Definition msim_later (m1 : @machine H1) (m2 : @machine H2) (m1' : @machine H1) (m2' : @machine H2) : Prop :=
  msim m1' m2' ∧ st_later (e_db (x_evm m1)) (e_db (x_evm m1')) ∧ st_later (e_db (x_evm m2)) (e_db (x_evm m2')).

Definition xrel {A} (x1 : @exec H1 A) (x2 : @exec H2 A) : Prop := ∀ m1 m2, msim m1 m2 → agree (x1 m1) (x2 m2) (msim_later m1 m2).

Lemma msim_later_refl m1 m2 : msim m1 m2 → msim_later m1 m2 m1 m2.
Proof. intros Hm. split; [done|]. apply esim_later, ms_evm, Hm. Qed.

Lemma msim_later_trans m1 m2 m1' m2' m1'' m2'' : msim_later m1 m2 m1' m2' → msim_later m1' m2' m1'' m2'' → msim_later m1 m2 m1'' m2''.
Proof. intros (_ & Hl1 & Hl2) (Hm & Hk1 & Hk2). split; [done|]. split; by eapply later_trans. Qed.

(** Only the part of the machine that is not the state of the [EVM] changes. *)
Lemma msim_local e1 e2 c mem s pc c' mem' s' pc' : esim e1 e2 →
  msim_later (mkMachine e1 c mem s pc) (mkMachine e2 c mem s pc) (mkMachine e1 c' mem' s' pc') (mkMachine e2 c' mem' s' pc').
Proof. intros He. split; [by split|]. by apply esim_later. Qed.

Ltac local := intros [e1 c1 mem1 s1 pc1] [e2 c2 mem2 s2 pc2] [He E1 E2 E3 E4]; cbn in He, E1, E2, E3, E4; subst.

Lemma xrel_ret {A} (a : A) : xrel (mret a) (mret a).
Proof. intros m1 m2 Hm. split; [done|by apply msim_later_refl]. Qed.

Lemma xrel_throw {A} e : xrel (throw (A := A) e) (throw e).
Proof. intros m1 m2 Hm. split; [done|by apply msim_later_refl]. Qed.

Lemma xrel_bind {A B} (x1 : @exec H1 A) (x2 : @exec H2 A) (f1 : A → @exec H1 B) (f2 : A → @exec H2 B) :
  xrel x1 x2 → (∀ a, xrel (f1 a) (f2 a)) → xrel (x1 ≫= f1) (x2 ≫= f2).
Proof.
  intros Hx Hf m1 m2 Hm. specialize (Hx m1 m2 Hm). unfold mbind, exec_mbind. destruct (x1 m1) as [[m1' a1]| |], (x2 m2) as [[m2' a2]| |]; try done.
  destruct Hx as [-> Hx]. destruct a2 as [a|e]; cbn; [|done]. specialize (Hf a m1' m2' (proj1 Hx)). unfold agree in *.
  destruct (f1 a m1') as [[m1'' b1]| |], (f2 a m2') as [[m2'' b2]| |]; try done. destruct Hf as [-> Hf]. split; [done|by eapply msim_later_trans].
Qed.

Lemma xrel_lift {A} (r : vmres A) : xrel (x_lift r) (x_lift r).
Proof. intros m1 m2 Hm. destruct r; cbn; try done. split; [done|by apply msim_later_refl]. Qed.

Lemma xrel_gets {A} (f1 : @machine H1 → A) (f2 : @machine H2 → A) : (∀ m1 m2, msim m1 m2 → f1 m1 = f2 m2) → xrel (x_gets f1) (x_gets f2).
Proof. intros Hf m1 m2 Hm. split; [f_equal; by apply Hf|by apply msim_later_refl]. Qed.

Lemma xrel_on_evm {A} (f1 : @evmM H1 A) (f2 : @evmM H2 A) : erel f1 f2 → xrel (on_evm f1) (on_evm f2).
Proof.
  intros Hf m1 m2 Hm. specialize (Hf _ _ (ms_evm _ _ Hm)). unfold on_evm. destruct (f1 (x_evm m1)) as [[e1 a1]| |], (f2 (x_evm m2)) as [[e2 a2]| |]; try done.
  destruct Hf as (-> & He & Hl). split; [done|]. split; [|done]. destruct Hm. by split.
Qed.

Lemma xrel_throw_if b e : xrel (throw_if b e) (throw_if b e).
Proof. destruct b; [apply xrel_throw|apply xrel_ret]. Qed.

Lemma xrel_sum {A} (r : A + vmError) : xrel (x_sum r) (x_sum r).
Proof. destruct r; [apply xrel_ret|apply xrel_throw]. Qed.

Lemma xrel_pop : xrel pop pop.
Proof. local. destruct s2; cbn; [done|]. split; [done|]. by apply msim_local. Qed.

Lemma xrel_push x : xrel (push x) (push x).
Proof. local. split; [done|]. by apply msim_local. Qed.

Lemma xrel_Back n : xrel (Back n) (Back n).
Proof. local. unfold Back. cbn. destruct (s2 !! n); cbn; [|done]. split; [done|]. by apply msim_local. Qed.

Lemma xrel_on_stack f : xrel (on_stack f) (on_stack f).
Proof. local. unfold on_stack. cbn. destruct (f s2); cbn; try done. split; [done|]. by apply msim_local. Qed.

Lemma xrel_on_mem f : xrel (on_mem f) (on_mem f).
Proof. local. unfold on_mem. cbn. destruct (f mem2); cbn; try done. split; [done|]. by apply msim_local. Qed.

Lemma xrel_get_mem {A} (f : Memory → vmres A) : xrel (get_mem f) (get_mem f).
Proof. local. unfold get_mem. cbn. destruct (f mem2); cbn; try done. split; [done|]. by apply msim_local. Qed.

Lemma xrel_set_pc pc : xrel (set_pc pc) (set_pc pc).
Proof. local. split; [done|]. by apply msim_local. Qed.

Lemma xrel_modify_contract f : xrel (modify_contract f) (modify_contract f).
Proof. local. split; [done|]. by apply msim_local. Qed.

Lemma xrel_use_gas g : xrel (use_gas g) (use_gas g).
Proof. local. unfold use_gas. cbn. destruct (UseGas g c2). split; [done|]. by apply msim_local. Qed.

Lemma xrel_jump_has d : xrel (jump_has d) (jump_has d).
Proof. local. unfold jump_has. cbn. destruct (has _ _ d _) as [[]| |]; cbn; try done. split; [done|]. by apply msim_local. Qed.

Lemma xrel_memoryGasCost n : xrel (memoryGasCost n) (memoryGasCost n).
Proof.
  local. unfold memoryGasCost. cbn. repeat case_match; cbn; (split; [done|]); by apply msim_local.
Qed.

Lemma xrel_do f1 f2 op : does (S := @st H1) st_sees st_later f1 op → does (S := @st H2) st_sees st_later f2 op → xrel (x_do f1) (x_do f2).
Proof. intros. apply xrel_on_evm. by eapply erel_do. Qed.

Lemma xrel_read {A} f1 f2 (g : world → A) : answers_with (S := @st H1) st_sees st_later f1 g → answers_with (S := @st H2) st_sees st_later f2 g →
  xrel (x_read f1) (x_read f2).
Proof. intros. apply xrel_on_evm. by eapply erel_read. Qed.

Lemma xrel_suicide a : xrel (x_read (st_Suicide a)) (x_read (st_Suicide a)).
Proof. apply xrel_on_evm, erel_suicide. Qed.

Lemma set_callGasTemp_rel g : erel (e_modify (set_callGasTemp g)) (e_modify (set_callGasTemp g)).
Proof. apply erel_modify. intros ? ? []. by split. Qed.

#[local] Hint Resolve xrel_ret xrel_throw xrel_lift xrel_throw_if xrel_sum xrel_pop xrel_push xrel_Back xrel_on_stack xrel_on_mem xrel_get_mem
  xrel_set_pc xrel_modify_contract xrel_use_gas xrel_jump_has xrel_memoryGasCost set_callGasTemp_rel : rel.

(** One step along two computations of the same shape. *)
Ltac xrel_one := match goal with
  | |- xrel (x_gets _) (x_gets _) => apply xrel_gets; by intros [] [] [[] ? ? ? ?]; cbn in *; subst
  | |- xrel (x_do _) (x_do _) => eapply xrel_do; auto with laws
  | |- xrel (x_read (st_Suicide _)) _ => apply xrel_suicide
  | |- xrel (x_read _) (x_read _) => eapply xrel_read; auto with laws
  | |- xrel (on_evm _) (on_evm _) => apply xrel_on_evm; auto with rel
  | |- xrel (if ?b then _ else _) (if ?b then _ else _) => destruct b
  | |- xrel (let '(_, _) := ?p in _) (let '(_, _) := ?p in _) => destruct p
  | |- xrel (_ ≫= _) (_ ≫= _) => apply xrel_bind; [|intros ?]
  | |- xrel _ _ => solve [auto with rel]
  end.

Ltac xrel := intros; cbv zeta; repeat xrel_one.

(** ** Costs *)

Lemma xrel_safe_add x y : xrel (safe_add x y) (safe_add x y).
Proof. unfold safe_add. xrel. Qed.

Lemma xrel_safe_mul x y : xrel (safe_mul x y) (safe_mul x y).
Proof. unfold safe_mul. xrel. Qed.

Lemma xrel_safe_uint64 x : xrel (safe_uint64 x) (safe_uint64 x).
Proof. unfold safe_uint64. xrel. Qed.

#[local] Hint Resolve xrel_safe_add xrel_safe_mul xrel_safe_uint64 : rel.

Lemma xrel_call_gas_temp g : xrel (call_gas_temp en g) (call_gas_temp en g).
Proof. unfold call_gas_temp. xrel. Qed.

Lemma xrel_jump_to pos : xrel (jump_to pos) (jump_to pos).
Proof. unfold jump_to. xrel. Qed.

Lemma xrel_pop_topics n : xrel (pop_topics n) (pop_topics n).
Proof. induction n; cbn [pop_topics]; xrel. Qed.

Lemma xrel_call_result o n r : xrel (call_result o n r) (call_result o n r).
Proof. unfold call_result, settle_caller. xrel. Qed.

#[local] Hint Resolve xrel_call_gas_temp xrel_jump_to xrel_pop_topics xrel_call_result : rel.

(** ** The table *)

Record orel (o1 : @operation H1) (o2 : @operation H2) : Prop := {
  or_execute : xrel (execute o1) (execute o2);
  or_gasCost : ∀ n, xrel (gasCost o1 n) (gasCost o2 n);
  or_validateStack : validateStack o1 = validateStack o2;
  or_memorySize : memorySize o1 = memorySize o2;
  or_halts : halts o1 = halts o2;
  or_jumps : jumps o1 = jumps o2;
  or_writes : writes o1 = writes o2;
  or_reverts : reverts o1 = reverts o2;
  or_returns : returns o1 = returns o2
}.

Definition entry_rel (p1 : Z * @operation H1) (p2 : Z * @operation H2) : Prop := p1.1 = p2.1 ∧ orel p1.2 p2.2.

Section Table.
Context (i1 : @runner H1) (i2 : @runner H2) (Hi : rrel i1 i2).

Lemma xrel_nil_result : xrel nil_result nil_result.
Proof. apply xrel_ret. Qed.

Lemma xrel_settle_caller r : xrel (settle_caller r) (settle_caller r).
Proof. apply xrel_modify_contract. Qed.

#[local] Hint Resolve xrel_nil_result xrel_settle_caller Call_rel CallCode_rel DelegateCall_rel StaticCall_rel Create_rel : rel.

Ltac head t := lazymatch t with ?f _ => head f | _ => t end.
Ltac entry := split; [done|]; split; try done; intros; cbn;
  match goal with |- xrel ?x _ => let h := head x in unfold h end; xrel.
Ltac entries := repeat (apply List.Forall2_nil || (apply Forall2_cons; split)); entry.

Lemma frontierArithmetic_rel : Forall2 entry_rel (frontierArithmetic en) (frontierArithmetic en).
Proof. entries. Qed.

Lemma frontierEnvironment_rel : Forall2 entry_rel (frontierEnvironment en) (frontierEnvironment en).
Proof. entries. Qed.

Lemma frontierFlow_rel : Forall2 entry_rel (frontierFlow en) (frontierFlow en).
Proof. entries. Qed.

Lemma frontierSystem_rel : Forall2 entry_rel (frontierSystem en i1) (frontierSystem en i2).
Proof. entries. Qed.

Lemma fmap_rel {A} (f1 : A → Z * @operation H1) (f2 : A → Z * @operation H2) l : (∀ n, entry_rel (f1 n) (f2 n)) → Forall2 entry_rel (f1 <$> l) (f2 <$> l).
Proof. intros Hf. induction l; by constructor. Qed.

Lemma NewFrontierInstructionSet_rel : Forall2 entry_rel (NewFrontierInstructionSet en i1) (NewFrontierInstructionSet en i2).
Proof.
  unfold NewFrontierInstructionSet. repeat apply Forall2_app; [apply frontierArithmetic_rel|apply frontierEnvironment_rel|apply frontierFlow_rel|..|
    apply frontierSystem_rel]; apply fmap_rel; intros n; entry.
Qed.

Lemma JumpTable_rel : Forall2 entry_rel (JumpTable en i1) (JumpTable en i2).
Proof.
  unfold JumpTable, NewByzantiumInstructionSet, NewHomesteadInstructionSet.
  repeat case_match; repeat (apply NewFrontierInstructionSet_rel || (apply Forall2_cons; split)); entry.
Qed.

Lemma find_op_rel op t1 t2 : Forall2 entry_rel t1 t2 →
  match find_op op t1, find_op op t2 with Some o1, Some o2 => orel o1 o2 | None, None => True | _, _ => False end.
Proof.
  unfold find_op. induction 1 as [|[n1 o1] [n2 o2] t1 t2 [E Ho] _ IH]; [done|]. cbn in *. subst n2. by destruct (n1 =? op).
Qed.

(** ** A round *)

Lemma charge_rel o1 o2 n : orel o1 o2 → xrel (charge en o1 n) (charge en o2 n).
Proof.
  intros Ho m1 m2 Hm. unfold charge. destruct (en_DisableGasMetering en); [split; [done|by apply msim_later_refl]|].
  pose proof (or_gasCost _ _ Ho n m1 m2 Hm) as Hg. destruct (gasCost o1 n m1) as [[m1' r1]| |], (gasCost o2 n m2) as [[m2' r2]| |]; try done.
  destruct Hg as [-> Hg]. cbn [mbind outcome_mbind outcome_bind]. destruct r2 as [cost|e]; [|done].
  assert (xrel (ok ← use_gas cost; throw_if (negb ok) ErrOutOfGas) (ok ← use_gas cost; throw_if (negb ok) ErrOutOfGas)) as Hu by xrel.
  specialize (Hu m1' m2' (proj1 Hg)). unfold agree in *. repeat case_match; try done. destruct Hu as [-> Hu]. split; [done|by eapply msim_later_trans].
Qed.

Lemma perform_rel o1 o2 : orel o1 o2 → xrel (perform o1) (perform o2).
Proof.
  intros Ho m1 m2 Hm. unfold perform. pose proof (or_execute _ _ Ho m1 m2 Hm) as Hx.
  destruct (execute o1 m1) as [[m1' r1]| |], (execute o2 m2) as [[m2' r2]| |]; try done. destruct Hx as [-> Hx].
  cbn. split; [done|]. rewrite (or_returns _ _ Ho). destruct (returns o2); [|done]. destruct Hx as ([[] ? ? ? ?] & Hl). split; [|done]. by split.
Qed.

#[local] Hint Resolve charge_rel perform_rel : rel.

Lemma prepare_rel op o1 o2 : orel o1 o2 → xrel (prepare en op o1) (prepare en op o2).
Proof.
  intros Ho. unfold prepare, enforceRestrictions, needed_memory. rewrite (or_validateStack _ _ Ho), (or_memorySize _ _ Ho), (or_writes _ _ Ho).
  apply xrel_bind; [xrel_one|intros s]. destruct (validateStack o2 s); [xrel|]. destruct (memorySize o2); xrel.
Qed.

Lemma step_rel : xrel (step en i1) (step en i2).
Proof.
  unfold step. apply xrel_bind; [xrel_one|intros c]. apply xrel_bind; [xrel_one|intros pc]. cbv zeta.
  pose proof (find_op_rel (GetOp pc c) _ _ JumpTable_rel) as Hf.
  destruct (find_op _ (JumpTable en i1)) as [o1|], (find_op _ (JumpTable en i2)) as [o2|]; try done; [|xrel].
  rewrite (or_reverts _ _ Hf), (or_halts _ _ Hf), (or_jumps _ _ Hf). apply xrel_bind; [by apply prepare_rel|]. xrel.
Qed.

End Table.

(** ** Runs *)

Definition lrel (l1 : @machine H1 → vmres (@machine H1 * (option (list Z) * option vmError)))
    (l2 : @machine H2 → vmres (@machine H2 * (option (list Z) * option vmError))) : Prop :=
  ∀ m1 m2, msim m1 m2 → agree (l1 m1) (l2 m2) (msim_later m1 m2).

Lemma Run_with_rel l1 l2 : lrel l1 l2 → rrel (Run_with l1) (Run_with l2).
Proof.
  intros Hl c input e1 e2 He. unfold Run_with. cbv zeta.
  assert (esim (set_returnData [] (set_depth (e_depth e1 + 1) e1)) (set_returnData [] (set_depth (e_depth e2 + 1) e2))) as He'.
  { destruct He. split; cbn; try done. by f_equal. }
  destruct (c_Code c).
  - split; [done|]. split; [|exact (esim_later e1 e2 He)]. destruct He. split; cbn; try done. lia.
  - specialize (Hl _ _ (Build_msim (mkMachine _ (set_Input input c) NewMemory [] 0) (mkMachine _ (set_Input input c) NewMemory [] 0)
      He' eq_refl eq_refl eq_refl eq_refl)). unfold agree in *. 
    destruct (l1 _) as [[m1 [ret1 err1]]| |], (l2 _) as [[m2 [ret2 err2]]| |]; cbn; try done.
    destruct Hl as ([= -> ->] & [[] ? ? ? ?] & Hl). split; [by f_equal; f_equal|]. split; [|done]. split; cbn; try done. by f_equal.
Qed.

Lemma loop_rel fuel : lrel (loop en fuel) (loop en fuel).
Proof.
  induction fuel as [|fuel IH]; intros m1 m2 Hm; [done|]. cbn [loop].
  pose proof (step_rel _ _ (Run_with_rel _ _ IH) m1 m2 Hm) as Hs.
  destruct (step en _ m1) as [[m1' r1]| |], (step en _ m2) as [[m2' r2]| |]; try done. destruct Hs as [-> Hs]. cbn.
  destruct r2 as [[[ret err]|]|e]; [done| |done]. specialize (IH m1' m2' (proj1 Hs)). unfold agree in *. repeat case_match; try done.
  destruct IH as [-> IH]. split; [done|by eapply msim_later_trans].
Qed.

Lemma Run_rel fuel : rrel (Run en fuel) (Run en fuel).
Proof. apply Run_with_rel, loop_rel. Qed.

End Rel.
