(* ===== verification/VmWorld.v ===== *)
(** * The virtual machine over the map of accounts

    The abstract state of the virtual machine is a map of accounts with the
    maps saved by its snapshots; every method is what StateSpec.v says of it.
    The machine over the state database does what it does over this state. *)

From S2P Require Import Prelude Types Interfaces Rlp Trie State StateFrame StateSpec GoMath Vm VmExec VmPrecompiled Evm VmRun VmLaws VmRel.
From stdpp Require Import base tactics option list numbers gmap.
From Stdlib Require Import ZArith Lia.

#[local] Open Scope Z_scope.

Section World.
Context `{HK : Keccak}.

(** ** The abstract state *)

Record worldState := mkWorldState { ws_world : world; ws_saved : list world }.

Definition ws_do (op : stateOp) (s : worldState) : pan worldState := Ok (mkWorldState (specOp op (ws_world s)) (ws_saved s)).
Definition ws_read {A} (g : world → A) (s : worldState) : pan (worldState * A) := Ok (s, g (ws_world s)).

Definition ws_Snapshot (s : worldState) : worldState * Z := (mkWorldState (ws_world s) (ws_saved s ++ [ws_world s]), strlen (ws_saved s)).
Definition ws_RevertToSnapshot (id : Z) (s : worldState) : pan worldState :=
  w ← deref (ws_saved s !! Z.to_nat id); Ok (mkWorldState w (take (Z.to_nat id) (ws_saved s))).

Definition world_ops : StateOps := {|
  st := worldState;
  st_CreateAccount a := ws_do (OpCreateAccount a);
  st_SubBalance a z := ws_do (OpSubBalance a z);
  st_AddBalance a z := ws_do (OpAddBalance a z);
  st_GetBalance a := ws_read (w_balance a);
  st_GetNonce a := ws_read (w_nonce a);
  st_SetNonce a n := ws_do (OpSetNonce a n);
  st_GetCodeHash a := ws_read (w_codeHash a);
  st_GetCode a := ws_read (w_code a);
  st_SetCode a c := ws_do (OpSetCode a c);
  st_GetCodeSize a := ws_read (fun w => strlen (default [] (w_code a w)));
  st_AddRefund g := ws_do (OpAddRefund g);
  st_GetRefund s := w_refund (ws_world s);
  st_GetState a k := ws_read (w_slot a k);
  st_SetState a k x := ws_do (OpSetState a k x);
  st_Suicide a s := '(s, b) ← ws_read (w_exists a) s; s ← ws_do (OpSuicide a) s; Ok (s, b);
  st_HasSuicided a := ws_read (w_suicided a);
  st_Exist a := ws_read (w_exists a);
  st_Empty a := ws_read (w_empty a);
  st_RevertToSnapshot := ws_RevertToSnapshot;
  st_Snapshot := ws_Snapshot;
  st_AddLog l := ws_do (OpAddLog l);
  st_AddPreimage h p := ws_do (OpAddPreimage h p)
|}.

(** ** Its laws *)

Definition ws_sees (s : worldState) (w : world) : Prop := ws_world s = w.
Definition ws_later (s s' : worldState) : Prop := ws_saved s `prefix_of` ws_saved s'.

Lemma ws_later_refl s s' : ws_saved s = ws_saved s' → ws_later s s'.
Proof. unfold ws_later. by intros ->. Qed.

Lemma ws_do_does op : does ws_sees ws_later (ws_do op) op.
Proof. intros s w <-. eexists. split; [done|]. split; [done|by apply ws_later_refl]. Qed.

Lemma ws_read_answers {A} (g : world → A) : answers_with ws_sees ws_later (ws_read g) g.
Proof. intros s w <-. eexists. split; [done|]. split; [done|by apply ws_later_refl]. Qed.

Lemma ws_revert s0 w0 s : ws_sees s0 w0 → ws_later (ws_Snapshot s0).1 s →
  ∃ s', ws_RevertToSnapshot (ws_Snapshot s0).2 s = Ok s' ∧ ws_sees s' w0 ∧ ws_later s0 s'.
Proof.
  intros <- [l Hl]. cbn in Hl. rewrite <- app_assoc in Hl. cbn [app] in Hl. unfold ws_RevertToSnapshot. cbn.
  rewrite Nat2Z.id, Hl, list_lookup_middle by done.
  eexists. split; [done|]. split; [done|]. unfold ws_later. cbn. by rewrite take_app_length.
Qed.

Definition world_laws : StateLaws world_ops.
Proof.
  refine {| st_sees := ws_sees : @st world_ops → _; st_later := ws_later |}; try (intros; first [apply ws_do_does|apply ws_read_answers]).
  - intros s w _. by apply ws_later_refl.
  - intros s1 s2 s3. unfold ws_later. apply transitivity.
  - intros a s w <-. eexists. split; [done|]. split; [done|by apply ws_later_refl].
  - by intros s w <-.
  - intros s w <-. split; [done|]. unfold ws_later. cbn. by apply prefix_app_r.
  - intros s0 w0 s w Hs Hl _. by apply ws_revert.
Defined.

End World.

(** ** The refinement *)

Section Refine.
Context `{HK : Keccak, HP : EvmCrypto, HS : StateOps, HL : !StateLaws HS} (en : Env).

(** The state reaches the accounts of the abstract state. *)
Definition refines {A} (r : vmres (@evmState HS * A)) (r' : vmres (@evmState world_ops * A)) : Prop :=
  agree r r' (fun e e' => st_sees (e_db e) (ws_world (e_db e'))).

Lemma NewEVM_esim s w : st_sees s w → esim HS world_ops (L2 := world_laws) (NewEVM s) (NewEVM (HS := world_ops) (mkWorldState w [])).
Proof. intros Hs. split; try done. by exists w. Qed.

Lemma erel_refines {A} (x : @evmM HS A) (x' : @evmM world_ops A) s w : erel HS world_ops (L2 := world_laws) x x' → st_sees s w →
  refines (x (NewEVM s)) (x' (NewEVM (HS := world_ops) (mkWorldState w []))).
Proof.
  intros Hx Hs. specialize (Hx _ _ (NewEVM_esim s w Hs)). unfold refines, agree in *. repeat case_match; try done.
  destruct Hx as (-> & [(w' & Hw & <-) _ _ _ _] & _). done.
Qed.

End Refine.
