(* ===== verification/Transition.v ===== *)
(** * State transitions (src/kernel/state_transition.go, gaspool.go, evm.go)

    A message buys its gas, pays the intrinsic cost, runs, gets a refund, and
    pays the coinbase.  [TransitionDb] changes the state of the virtual
    machine, the gas pool of the block and its own two counters; an error
    leaves what was changed before it. *)

From S2P Require Import Prelude Types Interfaces Rlp Trie State HeaderHash GoMath Vm VmExec VmPrecompiled Evm VmRun.
From stdpp Require Import base tactics option list numbers gmap.
From Stdlib Require Import ZArith Lia.

#[local] Open Scope Z_scope.

(** The messages of src/kernel/types/transaction.go; the price and the value
    are never nil. *)
Record Message := mkMessage {
  msg_to : option Address;
  msg_from : Address;
  msg_nonce : Z;
  msg_amount : Z;
  msg_gasLimit : Z;
  msg_gasPrice : Z;
  msg_data : list Z;
  msg_checkNonce : bool
}.

Inductive txError :=
  | VmError (e : vmError)
  | ErrNonceTooHigh
  | ErrNonceTooLow
  | ErrGasLimitReached
  | errInsufficientBalanceForGas.

#[export] Instance txError_eq_dec : EqDecision txError.
Proof. solve_decision. Defined.

(** ** The gas pool (gaspool.go) *)

Notation GasPool := Z (only parsing).

Definition AddGas {E} (amount : Z) (gp : GasPool) : outcome E GasPool :=
  if (maxU64 - amount)%u64 <? gp then Panic else Ok (gp + amount)%u64.

Definition SubGas (amount : Z) (gp : GasPool) : GasPool + txError :=
  if gp <? amount then inr ErrGasLimitReached else inl (gp - amount)%u64.

(** ** The cost of a message before it runs *)

Definition nonZeroBytes (data : list Z) : Z := foldl (fun nz byt => if byt =? 0 then nz else (nz + 1)%u64) 0 data.

Definition IntrinsicGas (data : list Z) (contractCreation homestead : bool) : Z + txError :=
  let gas := if contractCreation && homestead then params.TxGasContractCreation else params.TxGas in
  if 0 <? strlen data then
    let nz := nonZeroBytes data in
    if (maxU64 - gas)%u64 / params.TxDataNonZeroGas <? nz then inr (VmError ErrOutOfGas)
    else
      let gas := (gas + nz * params.TxDataNonZeroGas)%u64 in
      let z := (strlen data - nz)%u64 in
      if (maxU64 - gas)%u64 / params.TxDataZeroGas <? z then inr (VmError ErrOutOfGas)
      else inl (gas + z * params.TxDataZeroGas)%u64
  else inl gas.

(** ** The context of a message (evm.go) *)

Section Context_.
Context `{HK : Keccak} (GetHeader : Hash → Z → option Header).

Definition header_number (h : Header) : Z := default 0 (hdr_Number h).

(** The walk from a header to its ancestors, [fuel] of them at most. *)
Fixpoint ancestor_hash (fuel : nat) (n : Z) (header : option Header) : Hash :=
  match fuel, header with
  | S fuel, Some header =>
      if big_Uint64 (header_number header) =? n then Header_Hash header
      else ancestor_hash fuel n (GetHeader (hdr_ParentHash header) (big_Uint64 (header_number header) - 1)%u64)
  | _, _ => zeroHash
  end.

Definition GetHashFn (fuel : nat) (ref : Header) (n : Z) : Hash :=
  ancestor_hash fuel n (GetHeader (hdr_ParentHash ref) (big_Uint64 (header_number ref) - 1)%u64).

(** [NewEVMContext], with the chain configuration and the switches that
    [vm.NewEVM] adds to it; [engineAuthor] is the answer of the engine, the zero
    address on an error. *)
Definition NewEVMContext (fuel : nat) (msg : Message) (header : Header) (engineAuthor : Address) (author : option Address)
    (config : ChainConfig) (noRecursion disableGasMetering enablePreimageRecording : bool) : Env :=
  mkEnv (GetHashFn fuel header) (msg_from msg) (msg_gasPrice msg) (default engineAuthor author) (hdr_GasLimit header)
    (header_number header) (big_Uint64 (default 0 (hdr_TimeMS header)) / 1000) (default 0 (hdr_Difficulty header))
    config noRecursion disableGasMetering enablePreimageRecording.

End Context_.

(** ** The transition *)

Section Transition.
Context `{HK : Keccak, HP : EvmCrypto, HS : StateOps} (en : Env) (interp : runner) (msg : Message).

Record StateTransition := mkTransition {
  t_evm : evmState;
  t_gp : GasPool;
  t_gas : Z;
  t_initialGas : Z
}.

Definition set_tevm (e : evmState) (t : StateTransition) : StateTransition := mkTransition e (t_gp t) (t_gas t) (t_initialGas t).
Definition set_tgp (gp : GasPool) (t : StateTransition) : StateTransition := mkTransition (t_evm t) gp (t_gas t) (t_initialGas t).
Definition set_tgas (gas : Z) (t : StateTransition) : StateTransition := mkTransition (t_evm t) (t_gp t) gas (t_initialGas t).
Definition set_tinitialGas (gas : Z) (t : StateTransition) : StateTransition := mkTransition (t_evm t) (t_gp t) (t_gas t) gas.

Definition trans (A : Type) : Type := StateTransition → vmres (StateTransition * (A + txError)).

#[export] Instance trans_mret : MRet trans := fun A a t => Ok (t, inl a).
#[export] Instance trans_mbind : MBind trans := fun A B f x t =>
  '(t, r) ← x t;
  match r with inl a => f a t | inr e => Ok (t, inr e) end.

Definition t_throw {A} (e : txError) : trans A := fun t => Ok (t, inr e).
Definition t_gets {A} (f : StateTransition → A) : trans A := fun t => Ok (t, inl (f t)).
Definition t_modify (f : StateTransition → StateTransition) : trans unit := fun t => Ok (f t, inl tt).
Definition t_sum {A} (r : A + txError) : trans A := fun t => Ok (t, r).
Definition t_lift {A} (r : vmres A) : trans A := fun t => a ← r; Ok (t, inl a).
Definition in_evm {A} (f : evmM A) : trans A := fun t => '(e, a) ← f (t_evm t); Ok (set_tevm e t, inl a).

Definition NewStateTransition (e : evmState) (gp : GasPool) : StateTransition := mkTransition e gp 0 0.

(** An account that is not there is created. *)
Definition ensure (a : Address) : evmM unit :=
  ex ← db_read (st_Exist a); if ex : bool then mret tt else db_do (st_CreateAccount a).

Definition from : evmM Address := ensure (msg_from msg);; mret (msg_from msg).

Definition to : evmM Address :=
  match msg_to msg with
  | None => mret zeroAddress
  | Some a => ensure a;; mret a
  end.

Definition useGas (amount : Z) : trans unit :=
  gas ← t_gets t_gas;
  if gas <? amount then t_throw (VmError ErrOutOfGas) else t_modify (set_tgas (gas - amount)%u64).

Definition buyGas : trans unit :=
  sender ← in_evm from;
  let mgval := msg_gasLimit msg * msg_gasPrice msg in
  balance ← in_evm (db_read (st_GetBalance sender));
  if balance <? mgval then t_throw errInsufficientBalanceForGas
  else
    gp ← t_gets t_gp;
    gp ← t_sum (SubGas (msg_gasLimit msg) gp);
    t_modify (set_tgp gp);;
    t_modify (fun t => set_tgas (t_gas t + msg_gasLimit msg)%u64 t);;
    t_modify (set_tinitialGas (msg_gasLimit msg));;
    in_evm (db_do (st_SubBalance sender mgval)).

Definition preCheck : trans unit :=
  sender ← in_evm from;
  (if msg_checkNonce msg then
     nonce ← in_evm (db_read (st_GetNonce sender));
     if nonce <? msg_nonce msg then t_throw ErrNonceTooHigh
     else if msg_nonce msg <? nonce then t_throw ErrNonceTooLow
     else mret tt
   else mret tt : trans unit);;
  buyGas.

Definition gasUsed : trans Z := t_gets (fun t => (t_initialGas t - t_gas t)%u64).

Definition refundGas : trans unit :=
  used ← gasUsed;
  counter ← in_evm (e_gets (fun e => st_GetRefund (e_db e)));
  let refund := if counter <? used / 2 then counter else used / 2 in
  t_modify (fun t => set_tgas (t_gas t + refund)%u64 t);;
  sender ← in_evm from;
  gas ← t_gets t_gas;
  in_evm (db_do (st_AddBalance sender (gas * msg_gasPrice msg)));;
  gp ← t_gets t_gp;
  gp ← t_lift (AddGas gas gp);
  t_modify (set_tgp gp).

(** The creation or the call of the message. *)
Definition runMessage (sender : Address) : trans callResult :=
  gas ← t_gets t_gas;
  r ← (match msg_to msg with
       | None => '(r, _) ← in_evm (Create en interp (AccountRef sender) (msg_data msg) gas (msg_amount msg)); mret r
       | Some _ =>
           nonce ← in_evm (db_read (st_GetNonce sender));
           in_evm (db_do (st_SetNonce sender (nonce + 1)%u64));;
           addr ← in_evm to;
           in_evm (Call en interp (AccountRef sender) addr (msg_data msg) gas (msg_amount msg))
       end : trans callResult);
  t_modify (set_tgas (r_gas r));;
  mret r.

(** The data, the gas used, and whether the message failed. *)
Definition TransitionDb : trans (option (list Z) * Z * bool) :=
  preCheck;;
  sender ← in_evm from;
  gas ← t_sum (IntrinsicGas (msg_data msg) (bool_decide (msg_to msg = None)) (en_Homestead en));
  useGas gas;;
  r ← runMessage sender;
  if decide (r_err r = Some ErrInsufficientBalance) then t_throw (VmError ErrInsufficientBalance)
  else
    refundGas;;
    used ← gasUsed;
    in_evm (db_do (st_AddBalance (en_Coinbase en) (used * msg_gasPrice msg)));;
    used ← gasUsed;
    mret (r_ret r, used, bool_decide (r_err r ≠ None)).

Definition ApplyMessage (e : evmState) (gp : GasPool) := TransitionDb (NewStateTransition e gp).

End Transition.
