(* ===== verification/TransitionSpec.v ===== *)
(** * What a state transition does

    The intrinsic cost is the sum it should be; a message never panics, uses no
    more gas than it bought and at least half of its intrinsic cost, gives the
    rest back to the pool, and creates no ether. *)

From S2P Require Import Prelude Types Interfaces Rlp Trie State StateFrame StateSpec HeaderHash GoMath Vm VmExec VmPrecompiled Evm VmRun VmLaws VmHoare VmSafePre VmSafe VmSafeRun Transition.
From stdpp Require Import base tactics option list numbers gmap.
From Stdlib Require Import ZArith Lia.

#[local] Open Scope Z_scope.

(** ** The intrinsic cost *)

Definition count_nonzero (data : list Z) : Z := strlen (filter (fun b => b ≠ 0) data).

Definition intrinsic (data : list Z) (contractCreation homestead : bool) : Z :=
  (if contractCreation && homestead then 53000 else 21000) + 68 * count_nonzero data + 4 * (strlen data - count_nonzero data).

Lemma count_nonzero_bounds data : 0 ≤ count_nonzero data ≤ strlen data.
Proof. unfold count_nonzero. pose proof (length_filter (fun b : Z => b ≠ 0) data). lia. Qed.

Lemma nonZeroBytes_from data n : 0 ≤ n → n + strlen data < two64 →
  foldl (fun nz byt => if byt =? 0 then nz else (nz + 1)%u64) n data = n + count_nonzero data.
Proof.
  revert n. unfold count_nonzero. induction data as [|b data IH]; intros n Hn Hd; cbn [length foldl] in *; [cbn; lia|].
  rewrite filter_cons. destruct (Z.eqb_spec b 0) as [->|Hb].
  - rewrite IH by lia. by rewrite decide_False by tauto.
  - unfold u64. rewrite Z.mod_small by lia. rewrite IH by lia. rewrite decide_True by done. cbn [length]. lia.
Qed.

Lemma div_lt_iff a b c : 0 < b → a / b < c ↔ a < c * b.
Proof. intros Hb. split; intros Hx; [|apply Z.div_lt_upper_bound; lia]. pose proof (Z.mul_succ_div_gt a b Hb). nia. Qed.

Lemma IntrinsicGas_spec data contractCreation homestead : strlen data < 2 ^ 63 →
  IntrinsicGas data contractCreation homestead =
    if intrinsic data contractCreation homestead <=? maxU64 then inl (intrinsic data contractCreation homestead) else inr (VmError ErrOutOfGas).
Proof.
  intros Hd. pose proof (count_nonzero_bounds data) as Hc. unfold IntrinsicGas, intrinsic, params.TxGasContractCreation, params.TxGas, params.TxDataNonZeroGas, params.TxDataZeroGas.
  set (base := if contractCreation && homestead then 53000 else 21000). assert (base = 53000 ∨ base = 21000) as Hb by (unfold base; case_match; auto).
  assert (nonZeroBytes data = count_nonzero data) as -> by (apply nonZeroBytes_from; [lia|unfold two64; lia]).
  unfold maxU64, u64, two64 in *. destruct (Z.ltb_spec 0 (strlen data)) as [Hpos|Hz].
  2: { assert (count_nonzero data = 0) as -> by lia. destruct (Z.leb_spec (base + 68 * 0 + 4 * (strlen data - 0)) (18446744073709551615)); [f_equal|]; lia. }
  rewrite (Z.mod_small (_ - base)) by lia.
  destruct (Z.ltb_spec ((18446744073709551615 - base) / 68) (count_nonzero data)) as [H1|H1].
  { apply div_lt_iff in H1; [|lia]. destruct (Z.leb_spec (base + 68 * count_nonzero data + 4 * (strlen data - count_nonzero data)) (18446744073709551615)); [lia|done]. }
  apply Z.le_ngt in H1. rewrite div_lt_iff in H1 by lia. 
  rewrite (Z.mod_small (base + _)) by lia. rewrite (Z.mod_small (strlen data - _)) by lia. rewrite (Z.mod_small (18446744073709551615 - _)) by lia.
  destruct (Z.ltb_spec ((18446744073709551615 - (base + count_nonzero data * 68)) / 4) (strlen data - count_nonzero data)) as [H2|H2].
  { apply div_lt_iff in H2; [|lia]. destruct (Z.leb_spec (base + 68 * count_nonzero data + 4 * (strlen data - count_nonzero data)) (18446744073709551615)); [lia|done]. }
  apply Z.le_ngt in H2. rewrite div_lt_iff in H2 by lia. rewrite Z.mod_small by lia.
  destruct (Z.leb_spec (base + 68 * count_nonzero data + 4 * (strlen data - count_nonzero data)) (18446744073709551615)); [f_equal|]; lia.
Qed.

(** The cost of a message before it runs is 21000, or 53000 for a creation
    from Homestead on, plus 68 for every byte that is not zero and 4 for every
    zero byte; exactly when that does not fit 64 bits the message is refused,
    and no step on the way wraps around. *)
Theorem IntrinsicGas_exact data contractCreation homestead : strlen data < 2 ^ 63 →
  IntrinsicGas data contractCreation homestead =
    if intrinsic data contractCreation homestead <=? maxU64 then inl (intrinsic data contractCreation homestead) else inr (VmError ErrOutOfGas).
Proof. apply IntrinsicGas_spec. Qed.

(** ** The hash of an ancestor *)

Section Ancestors.
Context `{HK : Keccak} (GetHeader : Hash → Z → option Header).

(** The ancestors of a header that the chain has, the parent first; the last
    one is the genesis block or one whose parent is not there. *)
Fixpoint ancestors (h : Header) (l : list Header) : Prop :=
  match l with
  | [] => GetHeader (hdr_ParentHash h) (header_number h - 1)%u64 = None
  | p :: l => GetHeader (hdr_ParentHash h) (header_number h - 1)%u64 = Some p ∧ header_number p = header_number h - 1 ∧ ancestors p l
  end.

Lemma ancestor_hash_spec l : ∀ fuel h n, (length l < fuel)%nat → strlen l ≤ header_number h < two64 → ancestors h l →
  ancestor_hash GetHeader fuel n (GetHeader (hdr_ParentHash h) (header_number h - 1)%u64) =
    match l !! Z.to_nat (header_number h - 1 - n) with
    | Some p => if n <? header_number h then Header_Hash p else zeroHash
    | None => zeroHash
    end.
Proof.
  induction l as [|p l IH]; intros fuel h n Hf Hh Ha; cbn [ancestors] in Ha.
  { rewrite Ha. by destruct fuel. }
  destruct Ha as (-> & Hp & Ha). destruct fuel as [|fuel]; [cbn in Hf; lia|]. cbn [ancestor_hash length] in *.
  rewrite big_Uint64_small by lia. destruct (Z.eqb_spec (header_number p) n) as [<-|Hne].
  - rewrite Hp, Z.sub_diag. cbn. by destruct (Z.ltb_spec (header_number h - 1) (header_number h)); [|lia].
  - rewrite IH by (done || lia). destruct (Z.ltb_spec n (header_number p)), (Z.ltb_spec n (header_number h)); try lia.
    + replace (Z.to_nat (header_number h - 1 - n)) with (S (Z.to_nat (header_number p - 1 - n))) by lia. done.
    + repeat case_match; done.
Qed.

(** [BLOCKHASH] and whoever asks for the hash of block [n] gets the hash of
    the ancestor with that number, and the zero hash when the number is not
    that of an ancestor; the walk ends within as many steps as there are
    ancestors. *)
Theorem GetHashFn_correct l fuel ref n : (length l < fuel)%nat → strlen l ≤ header_number ref < two64 → ancestors ref l →
  GetHashFn GetHeader fuel ref n =
    if (header_number ref - strlen l <=? n) && (n <? header_number ref)
    then from_option Header_Hash zeroHash (l !! Z.to_nat (header_number ref - 1 - n)) else zeroHash.
Proof.
  intros Hf Hr Ha. unfold GetHashFn. rewrite big_Uint64_small by lia. rewrite (ancestor_hash_spec l) by done.
  destruct (Z.ltb_spec n (header_number ref)), (Z.leb_spec (header_number ref - strlen l) n); cbn [andb]; try (by case_match).
  by rewrite lookup_ge_None_2 by lia.
Qed.

End Ancestors.

(** ** Reasoning about transitions *)

Section Twp.
Context `{HK : Keccak, HS : StateOps}.

Definition twp {A} (x : trans A) (t : StateTransition) (Q : A → StateTransition → Prop) (F : txError → StateTransition → Prop) : Prop :=
  holds (x t) (fun '(t', r) => match r with inl a => Q a t' | inr e => F e t' end).

Lemma twp_bind {A B} (x : trans A) (f : A → trans B) t Q F : twp x t (fun a t' => twp (f a) t' Q F) F → twp (x ≫= f) t Q F.
Proof.
  unfold twp. intros Hx. unfold mbind at 1, trans_mbind. apply holds_bind. apply holds_mono with (2 := Hx). by intros [t' [a|e]] Ha.
Qed.

Lemma twp_mono {A} (x : trans A) t (P Q : A → StateTransition → Prop) (F G : txError → StateTransition → Prop) :
  (∀ a t', P a t' → Q a t') → (∀ e t', F e t' → G e t') → twp x t P F → twp x t Q G.
Proof. intros HPQ HFG. apply holds_mono. intros [t' [a|e]]; [apply HPQ|apply HFG]. Qed.

Lemma twp_in_evm {A} (f : evmM A) t Q F : ewp f (t_evm t) (fun a e => Q a (set_tevm e t)) → twp (in_evm f) t Q F.
Proof. unfold twp, ewp, in_evm. by destruct (f (t_evm t)) as [[e a]| |]. Qed.

Lemma twp_lift {A} (r : vmres A) t (Q : A → StateTransition → Prop) F : holds r (fun a => Q a t) → twp (t_lift r) t Q F.
Proof. by destruct r. Qed.

Lemma twp_ret {A} (a : A) t (Q : A → StateTransition → Prop) F : Q a t → twp (mret a) t Q F.
Proof. done. Qed.

Lemma twp_gets {A} (f : StateTransition → A) t (Q : A → StateTransition → Prop) F : Q (f t) t → twp (t_gets f) t Q F.
Proof. done. Qed.

Lemma twp_modify f t Q F : Q tt (f t) → twp (t_modify f) t Q F.
Proof. done. Qed.

Lemma twp_throw {A} e t (Q : A → StateTransition → Prop) (F : txError → StateTransition → Prop) : F e t → twp (t_throw e) t Q F.
Proof. done. Qed.

Lemma twp_sum {A} (r : A + txError) t (Q : A → StateTransition → Prop) (F : txError → StateTransition → Prop) :
  match r with inl a => Q a t | inr e => F e t end → twp (t_sum r) t Q F.
Proof. by destruct r. Qed.

End Twp.

(** ** Every message is safe *)

Record msg_ok (msg : Message) : Prop := {
  mg_from : is_bytes (msg_from msg);
  mg_to : is_bytes (default [] (msg_to msg));
  mg_amount : 0 ≤ msg_amount msg;
  mg_gasLimit : 0 ≤ msg_gasLimit msg < maxGas;
  mg_gasPrice : 0 ≤ msg_gasPrice msg;
  mg_data : code_ok (msg_data msg)
}.

(** The accounts after an account was asked for. *)
Definition ensured `{Keccak} (a : Address) (w : world) : world := if w_exists a w then w else specOp (OpCreateAccount a) w.

Section Safe.
Context `{HK : Keccak, HP : EvmCrypto, !KeccakLaws, !EvmCryptoLaws, HS : StateOps, HL : !StateLaws HS} (en : Env) (Henv : env_ok en).

Lemma ensured_balance a b w : w_balance b (ensured a w) = w_balance b w.
Proof. unfold ensured. case_match; [done|]. apply CreateAccount_balance. Qed.

Lemma ensured_nonce a b w : w_nonce b (ensured a w) = w_nonce b w.
Proof.
  unfold ensured, w_exists, w_nonce. case_bool_decide as Ha; [done|]. cbn. case_decide; [subst|done]. by apply eq_None_not_Some in Ha as ->.
Qed.

Lemma ensured_poorer a w : poorer w (ensured a w).
Proof. apply poorer_same. intros b. apply ensured_balance. Qed.

(** Outside of any call. *)
Definition at_top (e : evmState) (w : world) : Prop := evm_ok en e w ∧ e_readOnly e = false ∧ e_depth e = 0.

Lemma top_sees e w : at_top e w → st_sees (e_db e) w.
Proof. intros [He _]. apply He. Qed.

Lemma top_step e w s w' : at_top e w → st_sees s w' → world_ok w' → at_top (set_edb s e) w'.
Proof. intros [[] ?] Hs Hw. split; [|done]. split; try done; try reflexivity. by eapply later_refl. Qed.

Lemma ewp_do_top f op e w (Q : unit → evmState → Prop) : does st_sees st_later f op → at_top e w → op_fits op w →
  (∀ s, at_top (set_edb s e) (specOp op w) → Q tt (set_edb s e)) → ewp (db_do f) e Q.
Proof.
  intros Hf He Hop HQ. eapply ewp_do; [done|by apply top_sees|]. intros s Hs _. apply HQ. eapply top_step; [done|done|]. apply specOp_ok; [done|apply He].
Qed.

Lemma ewp_read_top {A} (f : st → pan (st * A)) g e w (Q : A → evmState → Prop) : answers_with st_sees st_later f g → at_top e w →
  (∀ s, at_top (set_edb s e) w → Q (g w) (set_edb s e)) → ewp (db_read f) e Q.
Proof. intros Hf He HQ. eapply ewp_read; [done|by apply top_sees|]. intros s Hs _. apply HQ. eapply top_step; [done|done|apply He]. Qed.

Lemma ensure_account_ok a e w (Q : unit → evmState → Prop) : at_top e w → (∀ s, at_top (set_edb s e) (ensured a w) → Q tt (set_edb s e)) → ewp (ensure a) e Q.
Proof.
  intros He HQ. unfold ensure, ensured in *. apply ewp_bind. eapply ewp_read_top; [auto with laws|done|]. intros s1 Hs1. destruct (w_exists a w).
  - by apply ewp_ret, HQ.
  - eapply ewp_do_top; [auto with laws|done|done|]. intros s2 Hs2. by apply HQ.
Qed.

Context (msg : Message) (Hmsg : msg_ok msg).

Lemma from_ok e w (Q : Address → evmState → Prop) : at_top e w → (∀ s, at_top (set_edb s e) (ensured (msg_from msg) w) → Q (msg_from msg) (set_edb s e)) →
  ewp (from msg) e Q.
Proof. intros He HQ. apply ewp_bind. eapply ensure_account_ok; [done|]. intros s Hs. by apply ewp_ret, HQ. Qed.

(** ** Buying gas *)

Definition price : Z := msg_gasLimit msg * msg_gasPrice msg.

(** The accounts once the gas is paid for. *)
Definition bought (w : world) : world := specOp (OpSubBalance (msg_from msg) price) (ensured (msg_from msg) w).

(** The counters of a message that has bought its gas. *)
Record has_bought (gp : Z) (w : world) (t : StateTransition) : Prop := {
  hb_evm : at_top (t_evm t) (bought w);
  hb_gp : t_gp t = gp - msg_gasLimit msg;
  hb_gas : t_gas t = msg_gasLimit msg;
  hb_initialGas : t_initialGas t = msg_gasLimit msg
}.

Lemma ensured_twice a w : ensured a (ensured a w) = ensured a w.
Proof.
  unfold ensured at 1. assert (w_exists a (ensured a w) = true) as ->; [|done]. unfold ensured. destruct (w_exists a w) eqn:E; [done|].
  unfold w_exists. cbn. rewrite decide_True by done. done.
Qed.

Lemma buyGas_ok t w : at_top (t_evm t) (ensured (msg_from msg) w) → t_gas t = 0 → is_u64 (t_gp t) →
  twp (buyGas msg) t
    (fun _ t' => has_bought (t_gp t) w t' ∧ price ≤ w_balance (msg_from msg) w ∧ msg_gasLimit msg ≤ t_gp t)
    (fun err t' => at_top (t_evm t') (ensured (msg_from msg) w) ∧ t_gp t' = t_gp t ∧
      (err = errInsufficientBalanceForGas ∧ w_balance (msg_from msg) w < price ∨ err = ErrGasLimitReached ∧ t_gp t < msg_gasLimit msg)).
Proof.
  intros Ht Hg Hgp. destruct Hmsg as [_ _ _ Hl Hp _]. unfold buyGas. apply twp_bind, twp_in_evm. eapply from_ok; [done|]. intros s1 Ht1. rewrite ensured_twice in Ht1.
  apply twp_bind, twp_in_evm. eapply ewp_read_top; [auto with laws|exact Ht1|]. intros s2 Ht2. rewrite ensured_balance. fold price.
  destruct (Z.ltb_spec (w_balance (msg_from msg) w) price) as [Hb|Hb]; [apply twp_throw; split_and!; [done|done|by left]|].
  apply twp_bind, twp_gets, twp_bind, twp_sum. unfold SubGas. cbn [t_gp set_tevm]. destruct (Z.ltb_spec (t_gp t) (msg_gasLimit msg)); [split_and!; [done|done|by right]|].
  apply twp_bind, twp_modify, twp_bind, twp_modify, twp_bind, twp_modify, twp_in_evm. unfold is_u64, u64, maxGas in *. cbn. rewrite Hg, !Z.mod_small by (unfold two64; lia).
  eapply ewp_do_top; [auto with laws|exact Ht2|cbn; rewrite ensured_balance; lia|]. intros s3 Ht3. split; [|done]. split; [exact Ht3|..]; cbn; rewrite ?Z.mod_small by lia; lia.
Qed.

Lemma preCheck_ok t w : at_top (t_evm t) w → t_gas t = 0 → is_u64 (t_gp t) →
  twp (preCheck msg) t
    (fun _ t' => has_bought (t_gp t) w t' ∧ (msg_checkNonce msg = true → w_nonce (msg_from msg) w = msg_nonce msg) ∧
      price ≤ w_balance (msg_from msg) w ∧ msg_gasLimit msg ≤ t_gp t)
    (fun err t' => at_top (t_evm t') (ensured (msg_from msg) w) ∧ t_gp t' = t_gp t ∧
      (err = ErrNonceTooHigh ∧ msg_checkNonce msg = true ∧ w_nonce (msg_from msg) w < msg_nonce msg ∨
       err = ErrNonceTooLow ∧ msg_checkNonce msg = true ∧ msg_nonce msg < w_nonce (msg_from msg) w ∨
       err = errInsufficientBalanceForGas ∧ w_balance (msg_from msg) w < price ∨ err = ErrGasLimitReached ∧ t_gp t < msg_gasLimit msg)).
Proof.
  intros Ht Hg Hgp. unfold preCheck. apply twp_bind, twp_in_evm. eapply from_ok; [done|]. intros s1 Ht1. apply twp_bind.
  eapply twp_mono with (P := fun _ t' => (∃ s, t' = set_tevm (set_edb s (t_evm t)) t) ∧ at_top (t_evm t') (ensured (msg_from msg) w) ∧
    (msg_checkNonce msg = true → w_nonce (msg_from msg) w = msg_nonce msg)).
  - intros _ t' ((s & ->) & Ht2 & Hn). eapply twp_mono; [| |by apply buyGas_ok]; cbn.
    + tauto.
    + intros err t' (? & ? & Herr). tauto.
  - intros err t' Herr. exact Herr.
  - destruct (msg_checkNonce msg) eqn:Ec; [|apply twp_ret; cbn; split_and!; eauto; done]. apply twp_bind, twp_in_evm. eapply ewp_read_top; [auto with laws|done|]. intros s2 Ht2. rewrite ensured_nonce.
    destruct (Z.ltb_spec (w_nonce (msg_from msg) w) (msg_nonce msg)); [apply twp_throw; split_and!; [done|done|by left]|].
    destruct (Z.ltb_spec (msg_nonce msg) (w_nonce (msg_from msg) w)); [apply twp_throw; split_and!; [done|done|by right; left]|]. apply twp_ret. cbn. split; [eauto|]. split; [done|]. intros _. lia.
Qed.

(** ** Running and refunding *)

Lemma refund_bounds used counter : 0 ≤ used → 0 ≤ counter → 0 ≤ (if counter <? used / 2 then counter else used / 2) ≤ used / 2.
Proof. intros Hu Hc. assert (0 ≤ used / 2) by (apply Z.div_pos; lia). destruct (Z.ltb_spec counter (used / 2)); lia. Qed.

Lemma refundGas_ok t w gp : at_top (t_evm t) w → t_initialGas t = msg_gasLimit msg → 0 ≤ t_gas t ≤ msg_gasLimit msg →
  t_gp t = gp - msg_gasLimit msg → msg_gasLimit msg ≤ gp < two64 →
  twp (refundGas msg) t
    (fun _ t' => t_initialGas t' = msg_gasLimit msg ∧ t_gp t' = gp - (msg_gasLimit msg - t_gas t') ∧
      t_gas t ≤ t_gas t' ≤ t_gas t + (msg_gasLimit msg - t_gas t) / 2 ∧ (w_refund w = 0 → t_gas t' = t_gas t) ∧
      at_top (t_evm t') (specOp (OpAddBalance (msg_from msg) (t_gas t' * msg_gasPrice msg)) (ensured (msg_from msg) w)))
    (fun _ _ => False).
Proof.
  intros Ht Hi Hg Hgp Hle. destruct Hmsg as [_ _ _ Hl Hp _]. unfold refundGas, gasUsed. apply twp_bind, twp_gets. rewrite Hi. unfold u64, maxGas in *. rewrite (Z.mod_small (_ - _)) by (unfold two64; lia).
  apply twp_bind, twp_in_evm, ewp_gets. rewrite (law_GetRefund _ _ (top_sees _ _ Ht)). pose proof (wo_refund _ (ea_world _ _ _ _ _ (proj1 Ht))) as Hr.
  set (used := msg_gasLimit msg - t_gas t) in *. pose proof (refund_bounds used (w_refund w) ltac:(lia) ltac:(lia)) as Hb. cbv zeta. set (refund := if _ <? _ then _ else _) in *.
  assert (used / 2 ≤ used) by (apply Z.div_le_upper_bound; lia).
  apply twp_bind, twp_modify. cbn [t_gas set_tgas set_tevm]. rewrite (Z.mod_small (_ + refund)) by (unfold two64; lia).
  apply twp_bind, twp_in_evm. eapply from_ok; [exact Ht|]. intros s1 Ht1. apply twp_bind, twp_gets, twp_bind, twp_in_evm.
  cbn [t_gas set_tgas set_tevm]. eapply ewp_do_top; [auto with laws|exact Ht1|cbn; nia|]. intros s2 Ht2. apply twp_bind, twp_gets, twp_bind, twp_lift. unfold AddGas.
  cbn [t_gp set_tevm set_tgas]. rewrite Hgp. unfold u64, maxU64. rewrite (Z.mod_small (_ - _)) by (unfold two64; lia).
  destruct (Z.ltb_spec (18446744073709551615 - (t_gas t + refund)) (gp - msg_gasLimit msg)); [unfold two64 in *; lia|]. cbn [holds].
  apply twp_modify. cbn. rewrite Z.mod_small by lia. split_and!; [done|lia|lia|lia| |exact Ht2]. intros E0. subst refund. rewrite E0 in *.
  destruct (Z.ltb_spec 0 (used / 2)); lia.
Qed.

Context (fuel : nat) (Hfuel : msg_gasLimit msg < Z.of_nat fuel).

(** What a message that runs keeps. *)
Record has_run (gas : Z) (w : world) (t : StateTransition) (r : callResult) (t' : StateTransition) (w' : world) : Prop := {
  hr_evm : at_top (t_evm t') w';
  hr_poorer : poorer w w';
  hr_gas : 0 ≤ r_gas r ≤ gas ∧ t_gas t' = r_gas r;
  hr_gp : t_gp t' = t_gp t;
  hr_initialGas : t_initialGas t' = t_initialGas t
}.

Lemma in_call_top e w e' w' : at_top e w → evm_at en e w e' w' → at_top e' w' ∧ poorer w w'.
Proof.
  intros (_ & Hro & Hd) He. split; [|apply He]. split; [by eapply evm_at_ok|]. by rewrite (ea_readOnly _ _ _ _ _ He), (ea_depth _ _ _ _ _ He).
Qed.

Lemma Run_message gas : 0 ≤ gas ≤ msg_gasLimit msg → runner_ok en (gas + 1) (Run en fuel).
Proof. intros Hg. destruct Hmsg as [_ _ _ Hl _ _]. apply Run_ok; [done|lia..]. Qed.

Lemma to_ok a e w (Q : Address → evmState → Prop) : msg_to msg = Some a → at_top e w → (∀ s, at_top (set_edb s e) (ensured a w) → Q a (set_edb s e)) → ewp (to msg) e Q.
Proof. unfold to. intros -> He HQ. apply ewp_bind. eapply ensure_account_ok; [done|]. intros s Hs. by apply ewp_ret, HQ. Qed.

Lemma runMessage_ok t w : at_top (t_evm t) w → 0 ≤ t_gas t ≤ msg_gasLimit msg →
  twp (runMessage en (Run en fuel) msg (msg_from msg)) t (fun r t' => ∃ w', has_run (t_gas t) w t r t' w') (fun _ _ => False).
Proof.
  intros Ht Hg. pose proof (Run_message _ Hg) as Hrun. destruct Hmsg as [Hfrom Hto Hv Hl _ Hd]. assert (t_gas t + 1 ≤ maxGas) as Hmax by lia.
  unfold runMessage. apply twp_bind, twp_gets, twp_bind. destruct (msg_to msg) as [a|] eqn:Ea.
  - apply twp_bind, twp_in_evm. eapply ewp_read_top; [auto with laws|exact Ht|]. intros s1 Ht1. apply twp_bind, twp_in_evm.
    eapply ewp_do_top; [auto with laws|exact Ht1|cbn; by apply Z.mod_pos_bound|]. intros s2 Ht2. apply twp_bind, twp_in_evm.
    eapply to_ok; [done|exact Ht2|]. intros s3 Ht3. apply twp_in_evm. set (w3 := ensured a _) in *.
    eapply ewp_mono; [|eapply (Call_ok en (t_gas t + 1) Hmax (Run en fuel) Hrun (AccountRef (msg_from msg))); [apply Ht3|done|done|done|lia|done|]].
    + intros r e' (w' & He' & Hr & _). apply twp_bind, twp_modify, twp_ret. exists w'. destruct (in_call_top _ _ _ _ Ht3 He') as [? Hp]. split; try done; [].
      transitivity w3; [|done]. etransitivity; [by apply (op_frugal_poorer (OpSetNonce (msg_from msg) (w_nonce (msg_from msg) w + 1)%u64) w)|apply ensured_poorer].
    + cbn. destruct Ht as (_ & -> & _). by rewrite andb_false_r.
  - apply twp_bind, twp_in_evm.
    eapply ewp_mono; [|eapply (Create_ok en (t_gas t + 1) Hmax (Run en fuel) Hrun (AccountRef (msg_from msg))); [apply Ht| |done|done|lia|done]].
    + intros [r addr] e' (_ & w' & He' & Hr & _). apply twp_ret, twp_bind, twp_modify, twp_ret. exists w'. by destruct (in_call_top _ _ _ _ Ht He').
    + destruct Ht as (_ & -> & _). by rewrite andb_false_r.
Qed.

(** ** The whole transition *)

Definition tx_cost : Z := intrinsic (msg_data msg) (bool_decide (msg_to msg = None)) (en_Homestead en).

Definition done_post (gp : Z) (w : world) (x : option (list Z) * Z * bool) (t' : StateTransition) : Prop :=
  let '(_, used, _) := x in
  tx_cost ≤ 2 * used ∧ used ≤ msg_gasLimit msg ∧ t_gp t' = gp - used ∧ ∃ w', at_top (t_evm t') w' ∧ poorer w w'.

Definition fail_post (gp : Z) (w : world) (err : txError) (t' : StateTransition) : Prop :=
  (t_gp t' = gp ∨ t_gp t' = gp - msg_gasLimit msg) ∧ ∃ w', at_top (t_evm t') w' ∧ poorer w w'.

Lemma bought_supply T w : supply_le T w → supply_le (T - price) (bought w).
Proof. intros HT. by apply SubBalance_supply, ensured_poorer. Qed.

Lemma bought_poorer w : poorer w (bought w).
Proof.
  intros T HT%bought_supply. eapply supply_le_mono; [|done]. destruct Hmsg as [_ _ _ Hl Hp _]. unfold price. nia.
Qed.

(** The fee and the gas left come to what was paid. *)
Lemma settled_poorer w w' gas : poorer (bought w) w' → 0 ≤ gas ≤ msg_gasLimit msg →
  poorer w (specOp (OpAddBalance (en_Coinbase en) ((msg_gasLimit msg - gas) * msg_gasPrice msg))
    (specOp (OpAddBalance (msg_from msg) (gas * msg_gasPrice msg)) (ensured (msg_from msg) w'))).
Proof.
  intros Hp Hg T HT. apply bought_supply, Hp, (ensured_poorer (msg_from msg)) in HT. eapply supply_le_mono; [|by apply AddBalance_supply, AddBalance_supply].
  unfold price. nia.
Qed.

Lemma IntrinsicGas_cost : IntrinsicGas (msg_data msg) (bool_decide (msg_to msg = None)) (en_Homestead en) =
  if tx_cost <=? maxU64 then inl tx_cost else inr (VmError ErrOutOfGas).
Proof. apply IntrinsicGas_spec. destruct (mg_data _ Hmsg) as [_ Hd]. unfold maxCode in Hd. lia. Qed.

Lemma TransitionDb_ok s w gp : st_sees s w → world_ok w → is_u64 gp →
  twp (TransitionDb en (Run en fuel) msg) (NewStateTransition (NewEVM s) gp) (done_post gp w) (fail_post gp w).
Proof.
  intros Hs Hw Hgp. assert (at_top (NewEVM s) w) as Ht by (split; [by apply NewEVM_ok|done]). unfold TransitionDb. apply twp_bind.
  eapply twp_mono; [| |by apply (preCheck_ok (NewStateTransition (NewEVM s) gp) w)].
  2: { intros err t' (Ht' & Hg' & _). split; [by left|]. eexists. split; [done|apply ensured_poorer]. }
  intros _ t1 ([Ht1 Hgp1 Hg1 Hi1] & _ & _ & Hle). cbn in Hgp1, Hle. pose proof (mg_gasLimit _ Hmsg) as Hl.
  apply twp_bind, twp_in_evm. eapply from_ok; [done|]. intros s2 Ht2.
  assert (∀ t', t_gp t' = t_gp t1 → (∃ w', at_top (t_evm t') w' ∧ poorer (bought w) w') → ∀ err, fail_post gp w err t') as Hfail.
  { intros t' E (w' & Ht' & Hp') err. split; [right; lia|]. exists w'. split; [done|]. etransitivity; [apply bought_poorer|done]. }
  assert (∃ w', at_top (set_edb s2 (t_evm t1)) w' ∧ poorer (bought w) w') as Hcur by (eexists; split; [done|apply ensured_poorer]).
  apply twp_bind, twp_sum. rewrite IntrinsicGas_cost. destruct (Z.leb_spec tx_cost maxU64) as [Hc|]; [|by apply Hfail].
  assert (21000 ≤ tx_cost) as Hc0.
  { unfold tx_cost, intrinsic. pose proof (count_nonzero_bounds (msg_data msg)). case_match; lia. }
  apply twp_bind. unfold useGas. apply twp_bind, twp_gets. cbn [t_gas set_tevm]. rewrite Hg1. destruct (Z.ltb_spec (msg_gasLimit msg) tx_cost) as [Hlt|Hge].
  { apply twp_throw. by apply Hfail. }
  apply twp_modify. unfold u64, maxGas in *. rewrite Z.mod_small by (unfold two64; lia). set (t2 := set_tgas _ _).
  destruct Hcur as (w2 & Ht2' & Hp2). apply twp_bind. eapply twp_mono; [| |apply (runMessage_ok t2 w2); [done|cbn; lia]]; [|done].
  intros r t3 (w3 & [Ht3 Hp3 [Hr Hg3] Hgp3 Hi3]). cbn in Hr, Hgp3, Hi3. assert (poorer (bought w) w3) as Hpw by (by etransitivity).
  case_decide; [apply twp_throw, Hfail; [done|eauto]|]. unfold is_u64 in *.
  apply twp_bind. eapply twp_mono; [| |apply (refundGas_ok t3 w3 gp Ht3); lia]; [|done].
  intros _ t4 (Hi4 & Hgp4 & Hg4 & _ & Ht4). rewrite Hg3 in Hg4. set (left := r_gas r) in *.
  assert ((msg_gasLimit msg - left) / 2 * 2 ≤ msg_gasLimit msg - left) by (pose proof (Z.mul_div_le (msg_gasLimit msg - left) 2); lia).
  apply twp_bind. unfold gasUsed. apply twp_gets. rewrite Hi4. unfold u64. rewrite Z.mod_small by (unfold two64; lia).
  apply twp_bind, twp_in_evm. destruct Hmsg as [_ _ _ _ Hpr _]. eapply ewp_do_top; [auto with laws|done|cbn; nia|]. intros s5 Ht5.
  apply twp_bind, twp_gets. cbn [t_initialGas t_gas set_tevm]. rewrite Hi4, Z.mod_small by (unfold two64; lia). apply twp_ret.
  split_and!; [lia|lia|cbn; lia|]. eexists. split; [exact Ht5|]. apply settled_poorer; [done|lia].
Qed.

Context (s : st) (w : world) (Hsees : st_sees s w) (Hw : world_ok w) (gp : Z) (Hgp : is_u64 gp).

(** C18. A message is let in exactly when its nonce is that of the sender, the
    sender can pay for all of its gas, and the pool of the block has as much;
    then the sender has paid and the pool is down by the gas limit.  Otherwise
    the error names the first condition that does not hold, the pool is as
    before, and nothing changed but that an account of the sender exists. *)
Theorem preCheck_exact :
  match preCheck msg (NewStateTransition (NewEVM s) gp) with
  | Ok (t', inl _) =>
      (msg_checkNonce msg = true → w_nonce (msg_from msg) w = msg_nonce msg) ∧ msg_gasLimit msg * msg_gasPrice msg ≤ w_balance (msg_from msg) w ∧
      msg_gasLimit msg ≤ gp ∧ t_gas t' = msg_gasLimit msg ∧ t_gp t' = gp - msg_gasLimit msg ∧
      st_sees (e_db (t_evm t')) (specOp (OpSubBalance (msg_from msg) (msg_gasLimit msg * msg_gasPrice msg)) (ensured (msg_from msg) w))
  | Ok (t', inr err) =>
      st_sees (e_db (t_evm t')) (ensured (msg_from msg) w) ∧ t_gp t' = gp ∧
      (err = ErrNonceTooHigh ∧ msg_checkNonce msg = true ∧ w_nonce (msg_from msg) w < msg_nonce msg ∨
       err = ErrNonceTooLow ∧ msg_checkNonce msg = true ∧ msg_nonce msg < w_nonce (msg_from msg) w ∨
       err = errInsufficientBalanceForGas ∧ w_balance (msg_from msg) w < msg_gasLimit msg * msg_gasPrice msg ∨
       err = ErrGasLimitReached ∧ gp < msg_gasLimit msg)
  | Err c => collision c
  | Panic => False
  end.
Proof.
  assert (at_top (NewEVM s) w) as Ht by (split; [by apply NewEVM_ok|done]).
  pose proof (preCheck_ok (NewStateTransition (NewEVM s) gp) w Ht eq_refl Hgp) as Hc. unfold twp in Hc.
  destruct (preCheck _ _) as [[t' [[]|err]]|c|]; [..|done|done]; cbn in Hc.
  - destruct Hc as ([[Ht' _] Hg1 Hg2 _] & Hn & Hb & Hl). split_and!; try done. apply Ht'.
  - destruct Hc as ([Ht' _] & Hg & Herr). split_and!; try done. apply Ht'.
Qed.

(** C13. A message with less than 2^57 gas is carried through without a panic:
    it uses no more gas than its limit and at least half of its intrinsic
    cost, the rest goes back to the pool, and the accounts stay well-formed.
    A message that is refused after it bought its gas keeps the gas out of the
    pool. *)
Theorem TransitionDb_gas :
  match TransitionDb en (Run en fuel) msg (NewStateTransition (NewEVM s) gp) with
  | Ok (t', inl (_, used, _)) =>
      intrinsic (msg_data msg) (bool_decide (msg_to msg = None)) (en_Homestead en) ≤ 2 * used ∧ used ≤ msg_gasLimit msg ∧
      t_gp t' = gp - used ∧ ∃ w', st_sees (e_db (t_evm t')) w' ∧ world_ok w'
  | Ok (t', inr _) => (t_gp t' = gp ∨ t_gp t' = gp - msg_gasLimit msg) ∧ ∃ w', st_sees (e_db (t_evm t')) w' ∧ world_ok w'
  | Err c => collision c
  | Panic => False
  end.
Proof.
  pose proof (TransitionDb_ok s w gp Hsees Hw Hgp) as Ht. unfold twp in Ht.
  destruct (TransitionDb _ _ _ _) as [[t' [[[ret used] failed]|err]]|c|]; [..|done|done]; cbn in Ht.
  - destruct Ht as (H1 & H2 & H3 & w' & [He _] & _). split_and!; [done|done|done|]. exists w'. split; apply He.
  - destruct Ht as (H1 & w' & [He _] & _). split; [done|]. exists w'. split; apply He.
Qed.

(** C14. No message creates ether: whatever code it runs, however it ends, the
    balances of all accounts together, the coinbase's included, come to no
    more than before. *)
Theorem TransitionDb_no_ether t' r T : TransitionDb en (Run en fuel) msg (NewStateTransition (NewEVM s) gp) = Ok (t', r) → supply_le T w →
  ∃ w', st_sees (e_db (t_evm t')) w' ∧ supply_le T w'.
Proof.
  intros E HT. pose proof (TransitionDb_ok s w gp Hsees Hw Hgp) as Ht. unfold twp in Ht. rewrite E in Ht.
  destruct r as [[[ret used] failed]|err]; cbn in Ht; [destruct Ht as (_ & _ & _ & w' & [He _] & Hp)|destruct Ht as (_ & w' & [He _] & Hp)];
    exists w'; (split; [apply He|by apply Hp]).
Qed.

End Safe.
