(* ===== verification/TransitionRel.v ===== *)
(** * State transitions over the map of accounts

    A message applied to any state that keeps the laws, the state database
    among them, does what it does to the map of accounts. *)

From S2P Require Import Prelude Types Interfaces Rlp Trie State StateFrame StateSpec GoMath Vm VmExec VmPrecompiled Evm VmRun VmLaws StateVm VmRel VmWorld Transition.
From stdpp Require Import base tactics option list numbers gmap.
From Stdlib Require Import ZArith Lia.

#[local] Open Scope Z_scope.

Section Rel.
Context `{HK : Keccak, HP : EvmCrypto} (H1 H2 : StateOps) {L1 : StateLaws H1} {L2 : StateLaws H2} (en : Env).

Record tsim (t1 : @StateTransition H1) (t2 : @StateTransition H2) : Prop := {
  ts_evm : esim H1 H2 (t_evm t1) (t_evm t2);
  ts_gp : t_gp t1 = t_gp t2;
  ts_gas : t_gas t1 = t_gas t2;
  ts_initialGas : t_initialGas t1 = t_initialGas t2
}.

Definition trel {A} (x1 : @trans H1 A) (x2 : @trans H2 A) : Prop := ∀ t1 t2, tsim t1 t2 → agree (x1 t1) (x2 t2) tsim.

Lemma trel_ret {A} (a : A) : trel (mret a) (mret a).
Proof. done. Qed.

Lemma trel_throw {A} e : trel (t_throw (A := A) e) (t_throw e).
Proof. done. Qed.

Lemma trel_bind {A B} (x1 : @trans H1 A) (x2 : @trans H2 A) (f1 : A → @trans H1 B) (f2 : A → @trans H2 B) :
  trel x1 x2 → (∀ a, trel (f1 a) (f2 a)) → trel (x1 ≫= f1) (x2 ≫= f2).
Proof.
  intros Hx Hf t1 t2 Ht. specialize (Hx t1 t2 Ht). unfold mbind, trans_mbind. destruct (x1 t1) as [[t1' r1]| |], (x2 t2) as [[t2' r2]| |]; try done.
  destruct Hx as [-> Hx]. destruct r2 as [a|e]; cbn; [by apply Hf|done].
Qed.

Lemma trel_gets {A} (f1 : @StateTransition H1 → A) (f2 : @StateTransition H2 → A) : (∀ t1 t2, tsim t1 t2 → f1 t1 = f2 t2) → trel (t_gets f1) (t_gets f2).
Proof. intros Hf t1 t2 Ht. split; [f_equal; by apply Hf|done]. Qed.

Lemma trel_modify (f1 : @StateTransition H1 → @StateTransition H1) (f2 : @StateTransition H2 → @StateTransition H2) :
  (∀ t1 t2, tsim t1 t2 → tsim (f1 t1) (f2 t2)) → trel (t_modify f1) (t_modify f2).
Proof. intros Hf t1 t2 Ht. split; [done|by apply Hf]. Qed.

Lemma trel_sum {A} (r : A + txError) : trel (t_sum r) (t_sum r).
Proof. done. Qed.

Lemma trel_lift {A} (r : vmres A) : trel (t_lift r) (t_lift r).
Proof. intros t1 t2 Ht. by destruct r. Qed.

Lemma trel_in_evm {A} (f1 : @evmM H1 A) (f2 : @evmM H2 A) : erel H1 H2 f1 f2 → trel (in_evm f1) (in_evm f2).
Proof.
  intros Hf t1 t2 Ht. specialize (Hf _ _ (ts_evm _ _ Ht)). unfold in_evm. destruct (f1 (t_evm t1)) as [[e1 a1]| |], (f2 (t_evm t2)) as [[e2 a2]| |]; try done.
  destruct Hf as (-> & He & _). split; [done|]. destruct Ht. by split.
Qed.

Lemma ensure_rel a : erel H1 H2 (ensure a) (ensure a).
Proof.
  unfold ensure. apply erel_bind; [eapply erel_read; auto with laws|]. intros []; [apply erel_ret|eapply erel_do; auto with laws].
Qed.

Lemma from_rel msg : erel H1 H2 (from msg) (from msg).
Proof. apply erel_bind; [apply ensure_rel|]. intros _. apply erel_ret. Qed.

Lemma to_rel msg : erel H1 H2 (to msg) (to msg).
Proof. unfold to. destruct (msg_to msg); [|apply erel_ret]. apply erel_bind; [apply ensure_rel|]. intros _. apply erel_ret. Qed.

Lemma refund_rel : erel H1 H2 (e_gets (fun e => st_GetRefund (e_db e))) (e_gets (fun e => st_GetRefund (e_db e))).
Proof. apply erel_gets. intros e1 e2 [(w & Hs1 & Hs2) _ _ _ _]. by rewrite (law_GetRefund _ w Hs1), (law_GetRefund _ w Hs2). Qed.

#[local] Hint Resolve trel_ret trel_throw trel_sum trel_lift from_rel to_rel refund_rel Create_rel Call_rel Run_rel : rel.

Ltac trel_one := match goal with
  | |- trel (t_gets _) (t_gets _) => apply trel_gets; by intros ? ? []; cbn in *; congruence
  | |- trel gasUsed gasUsed => apply trel_gets; by intros ? ? []; cbn in *; congruence
  | |- trel (t_modify _) (t_modify _) => apply trel_modify; by intros ? ? []; split; cbn in *; congruence
  | |- trel (in_evm (db_read _)) _ => apply trel_in_evm; eapply erel_read; auto with laws
  | |- trel (in_evm (db_do _)) _ => apply trel_in_evm; eapply erel_do; auto with laws
  | |- trel (in_evm _) _ => apply trel_in_evm; auto with rel
  | |- trel (if ?b then _ else _) (if ?b then _ else _) => destruct b
  | |- trel (let '(_, _) := ?p in _) _ => destruct p
  | |- trel (_ ≫= _) (_ ≫= _) => apply trel_bind; [|intros ?]
  | |- trel _ _ => solve [auto with rel]
  end.

Lemma preCheck_rel msg : trel (preCheck msg) (preCheck msg).
Proof. unfold preCheck, buyGas. cbv zeta. repeat trel_one. Qed.

Lemma runMessage_rel fuel msg sender : trel (runMessage en (Run en fuel) msg sender) (runMessage en (Run en fuel) msg sender).
Proof. unfold runMessage. destruct (msg_to msg); repeat trel_one. Qed.

Lemma refundGas_rel msg : trel (refundGas msg) (refundGas msg).
Proof. unfold refundGas. cbv zeta. repeat trel_one. Qed.

#[local] Hint Resolve preCheck_rel runMessage_rel refundGas_rel : rel.

Lemma TransitionDb_rel fuel msg : trel (TransitionDb en (Run en fuel) msg) (TransitionDb en (Run en fuel) msg).
Proof. unfold TransitionDb, useGas. repeat trel_one. Qed.

End Rel.

Section Refine.
Context `{HK : Keccak, HP : EvmCrypto, HS : StateOps, HL : !StateLaws HS} (en : Env).

Lemma TransitionDb_abstract fuel msg s w gp : st_sees s w →
  agree (ApplyMessage en (Run en fuel) msg (NewEVM s) gp)
    (ApplyMessage en (Run en fuel) msg (NewEVM (HS := world_ops) (mkWorldState w [])) gp)
    (tsim HS world_ops (L2 := world_laws)).
Proof.
  intros Hs. apply (TransitionDb_rel HS world_ops (L2 := world_laws)). split; [|done..]. by apply NewEVM_esim.
Qed.

(** A message does the same to every state that keeps the laws; two nodes that
    hold the same accounts agree. *)
Lemma ApplyMessage_agrees fuel msg s w gp : st_sees s w →
  match ApplyMessage en (Run en fuel) msg (NewEVM s) gp,
        ApplyMessage en (Run en fuel) msg (NewEVM (HS := world_ops) (mkWorldState w [])) gp with
  | Ok (t, r), Ok (t', r') => r = r' ∧ t_gp t = t_gp t' ∧ st_sees (e_db (t_evm t)) (ws_world (e_db (t_evm t')))
  | Err c, Err c' => c = c'
  | Panic, Panic => True
  | _, _ => False
  end.
Proof.
  intros Hs. pose proof (TransitionDb_abstract fuel msg s w gp Hs) as Ha. unfold agree in Ha. repeat case_match; try done.
  destruct Ha as (-> & [[(w' & Hw & <-) _ _ _ _] Hg _ _]). done.
Qed.

End Refine.

Section OnStateDB.
Context `{HK : Keccak, HP : EvmCrypto, HD : Database, HC : ARCCache Z, !KeccakLaws} (en : Env).

(** C5. Applying a message to the state database, with its caches, tries and
    journal, is applying it to the map of accounts: the same data, gas used,
    failures and errors, the same gas left in the pool, and a state that shows
    the accounts of the resulting map. *)
Theorem ApplyMessage_refines tdb m fuel msg (s : StateDB) w gp : default [] (tdb_Node tdb emptyCodeHash) = [] → sdb_sees tdb m s w →
  match ApplyMessage en (Run en fuel) msg (NewEVM (HS := StateDB_ops) s) gp,
        ApplyMessage en (Run en fuel) msg (NewEVM (HS := world_ops) (mkWorldState w [])) gp with
  | Ok (t, r), Ok (t', r') => r = r' ∧ t_gp t = t_gp t' ∧ sdb_sees tdb m (e_db (t_evm t)) (ws_world (e_db (t_evm t')))
  | Err c, Err c' => c = c'
  | Panic, Panic => True
  | _, _ => False
  end.
Proof. intros Hnone. exact (ApplyMessage_agrees (HL := StateDB_laws tdb m Hnone) en fuel msg s w gp). Qed.

End OnStateDB.
