(* ===== verification/TransferSpec.v ===== *)
(** * An ordinary transfer

    A message without data to an account without code moves its amount and
    the fee for 21000 gas, and nothing else. *)

From S2P Require Import Prelude Types Interfaces Rlp Trie State StateFrame StateSpec GoMath Vm VmExec VmPrecompiled Evm VmRun VmLaws VmHoare VmSafePre VmSafe VmSafeRun Transition TransitionSpec.
From stdpp Require Import base tactics option list numbers gmap.
From Stdlib Require Import ZArith Lia.

#[local] Open Scope Z_scope.

Section Transfer.
Context `{HK : Keccak, HP : EvmCrypto, !KeccakLaws, !EvmCryptoLaws, HS : StateOps, HL : !StateLaws HS} (en : Env).

(** The accounts after a transfer. *)
Definition moved (a b : Address) (z : Z) (w : world) : world := specOp (OpAddBalance b z) (specOp (OpSubBalance a z) w).

Lemma moved_code a b z c w : default [] (w_code c (moved a b z w)) = default [] (w_code c w).
Proof.
  unfold moved, w_code. cbn. repeat (case_decide; subst; cbn; try done); repeat (destruct (w_accounts w _); cbn; try done).
Qed.

Lemma ensured_code a c w : default [] (w_code c (ensured a w)) = default [] (w_code c w).
Proof.
  unfold ensured, w_exists, w_code. case_bool_decide as Ha; [done|]. cbn. case_decide; [subst|done]. by apply eq_None_not_Some in Ha as ->.
Qed.

Lemma Transfer_top a b z e w : at_top en e w → 0 ≤ z ≤ w_balance a w → ewp (Transfer a b z) e (fun _ e' => at_top en e' (moved a b z w)).
Proof.
  intros He Hz. unfold Transfer. apply ewp_bind. eapply ewp_do_top; [auto with laws|done|cbn; lia|]. intros s1 Hs1.
  eapply ewp_do_top; [auto with laws|done|cbn; lia|]. by intros s2 Hs2.
Qed.

(** Calling an account without code. *)
Lemma Call_plain fuel caller b gas z e w : at_top en e w → default [] (w_code b w) = [] → precompiles en b = None →
  w_exists b w = true → 0 ≤ z ≤ w_balance caller w →
  ewp (Call en (Run en fuel) (AccountRef caller) b [] gas z) e
    (fun r e' => r_ret r = None ∧ r_gas r = gas ∧ r_err r = None ∧ at_top en e' (moved caller b z w)).
Proof.
  intros He Hcode Hp Hex Hz. unfold Call. apply ewp_bind, ewp_gets. destruct (proj2 He) as [_ ->]. rewrite andb_false_r. cbn [Z.ltb Z.compare params.CallCreateDepth].
  apply ewp_bind, ewp_bind. eapply ewp_read_top; [auto with laws|done|]. intros s1 He1. apply ewp_ret. cbn [ref_Address].
  destruct (Z.leb_spec z (w_balance caller w)) as [_|]; [|lia]. cbn [negb]. apply ewp_bind.
  eapply (take_snapshot_ok en _ _ (set_edb s1 e) w); [apply He1|]. intros s2 id Hsn. pose proof (evm_at_ok _ _ _ _ _ (sn_after _ _ _ _ _ _ _ Hsn)) as He2.
  assert (at_top en (set_edb s2 (set_edb s1 e)) w) as Ht2 by (split; [done|apply He]).
  apply ewp_bind. eapply ewp_read_top; [auto with laws|done|]. intros s3 Ht3. rewrite Hex. cbn [negb andb]. apply ewp_bind, ewp_ret.
  apply ewp_bind. eapply ewp_mono; [|by eapply Transfer_top]. intros [] e4 Ht4. apply ewp_bind. unfold load_code.
  apply ewp_bind. eapply ewp_read_top; [auto with laws|done|]. intros s5 Ht5. apply ewp_bind. eapply ewp_read_top; [auto with laws|done|]. intros s6 Ht6.
  apply ewp_ret. rewrite moved_code, Hcode. apply ewp_bind. unfold run. cbn [c_CodeAddr SetCallCode mbind option_bind]. rewrite Hp.
  unfold ewp, Run, Run_with. cbn. split_and!; [done..|]. destruct Ht6 as (Hok & Hro & Hd). cbn in Hd.
  split; [|cbn; split; [done|lia]]. destruct Hok. split; try done; try reflexivity. apply code_ok_nil.
Qed.

Context (Henv : env_ok en) (msg : Message) (Hmsg : msg_ok msg) (b : Address) (Hto : msg_to msg = Some b) (Hdata : msg_data msg = []).

Notation a := (msg_from msg).
Notation paid z := (z * msg_gasPrice msg).

(** The accounts while the message runs. *)
Definition counted (w : world) : world := specOp (OpSetNonce a (w_nonce a w + 1)%u64) w.

Lemma SetNonce_code c d n w : default [] (w_code c (specOp (OpSetNonce d n) w)) = default [] (w_code c w).
Proof. unfold w_code. cbn. case_decide; [subst|done]. cbn. by destruct (w_accounts w d). Qed.

Lemma SetNonce_nonce c d n w : w_nonce c (specOp (OpSetNonce d n) w) = if decide (c = d) then n else w_nonce c w.
Proof. unfold w_nonce. cbn. by case_decide. Qed.

Lemma ensured_exists c w : w_exists c (ensured c w) = true.
Proof.
  unfold ensured. destruct (w_exists c w) eqn:E; [done|]. unfold w_exists. cbn. by rewrite decide_True.
Qed.

Lemma runMessage_plain fuel t w : at_top en (t_evm t) w → default [] (w_code b w) = [] → precompiles en b = None →
  msg_amount msg ≤ w_balance a w →
  twp (runMessage en (Run en fuel) msg a) t
    (fun r t' => r_ret r = None ∧ r_err r = None ∧ t_gas t' = t_gas t ∧ t_gp t' = t_gp t ∧ t_initialGas t' = t_initialGas t ∧
      at_top en (t_evm t') (moved a b (msg_amount msg) (ensured b (counted w)))) (fun _ _ => False).
Proof.
  intros Ht Hcode Hp Hz. unfold runMessage. rewrite Hto. apply twp_bind, twp_gets, twp_bind, twp_bind, twp_in_evm.
  eapply ewp_read_top; [auto with laws|exact Ht|]. intros s1 Ht1. apply twp_bind, twp_in_evm.
  eapply ewp_do_top; [auto with laws|exact Ht1|cbn; by apply Z.mod_pos_bound|]. intros s2 Ht2. apply twp_bind, twp_in_evm.
  eapply to_ok; [done|exact Ht2|]. intros s3 Ht3. apply twp_in_evm. rewrite Hdata. pose proof (mg_amount _ Hmsg).
  eapply ewp_mono; [|eapply Call_plain; [exact Ht3| |done|apply ensured_exists|]].
  - intros r e' (Hret & Hgas & Herr & Ht4). apply twp_bind, twp_modify, twp_ret. split_and!; try done.
  - by rewrite ensured_code, SetNonce_code.
  - rewrite ensured_balance, SetNonce_balance. lia.
Qed.

Lemma AddBalance_at c d z w : w_balance c (specOp (OpAddBalance d z) w) = w_balance c w + (if decide (c = d) then z else 0).
Proof. case_decide; [subst; by rewrite AddBalance_balance|]. cbn [specOp]. rewrite w_update_other by done. lia. Qed.

Lemma SubBalance_at c d z w : w_balance c (specOp (OpSubBalance d z) w) = w_balance c w - (if decide (c = d) then z else 0).
Proof. case_decide; [subst; by rewrite SubBalance_balance|]. cbn [specOp]. rewrite w_update_other by done. lia. Qed.

Lemma AddBalance_nonce c d z w : w_nonce c (specOp (OpAddBalance d z) w) = w_nonce c w.
Proof. unfold w_nonce. cbn. case_decide; [subst|done]. cbn. by destruct (w_accounts w d). Qed.

Lemma SubBalance_nonce c d z w : w_nonce c (specOp (OpSubBalance d z) w) = w_nonce c w.
Proof. unfold w_nonce. cbn. case_decide; [subst|done]. cbn. by destruct (w_accounts w d). Qed.

Lemma bought_code c w : default [] (w_code c (bought msg w)) = default [] (w_code c w).
Proof. rewrite <- (ensured_code a c w). unfold bought, w_code. cbn. case_decide; [subst|done]. cbn. by destruct (w_accounts (ensured a w) a). Qed.

Lemma ensured_refund c w : w_refund (ensured c w) = w_refund w.
Proof. unfold ensured. by case_match. Qed.

(** The accounts at the end. *)
Definition transferred (used left_ : Z) (w : world) : world :=
  specOp (OpAddBalance (en_Coinbase en) (paid used)) (specOp (OpAddBalance a (paid left_))
    (ensured a (moved a b (msg_amount msg) (ensured b (counted (ensured a (bought msg w))))))).

Lemma transferred_balance c used left_ w : used + left_ = msg_gasLimit msg →
  w_balance c (transferred used left_ w) = w_balance c w + (if decide (c = b) then msg_amount msg else 0)
    - (if decide (c = a) then msg_amount msg + paid used else 0) + (if decide (c = en_Coinbase en) then paid used else 0).
Proof.
  intros E. unfold transferred, moved, counted, bought, price. rewrite <- E.
  rewrite !AddBalance_at, ensured_balance, AddBalance_at, SubBalance_at, ensured_balance, SetNonce_balance, ensured_balance, SubBalance_at, ensured_balance.
  repeat case_decide; lia.
Qed.

Lemma transferred_nonce c used left_ w : w_nonce c (transferred used left_ w) = if decide (c = a) then (w_nonce a w + 1)%u64 else w_nonce c w.
Proof.
  unfold transferred, moved, counted, bought. rewrite !AddBalance_nonce, ensured_nonce, AddBalance_nonce, SubBalance_nonce, ensured_nonce, SetNonce_nonce.
  by rewrite !ensured_nonce, !SubBalance_nonce, !ensured_nonce.
Qed.

Lemma TransitionDb_plain fuel s w gp : st_sees s w → world_ok w → is_u64 gp → default [] (w_code b w) = [] → precompiles en b = None →
  w_refund w = 0 → (msg_checkNonce msg = true → w_nonce a w = msg_nonce msg) → 21000 ≤ msg_gasLimit msg ≤ gp →
  paid (msg_gasLimit msg) + msg_amount msg ≤ w_balance a w →
  twp (TransitionDb en (Run en fuel) msg) (NewStateTransition (NewEVM s) gp)
    (fun r t' => r = (None, 21000, false) ∧ t_gp t' = gp - 21000 ∧ at_top en (t_evm t') (transferred 21000 (msg_gasLimit msg - 21000) w)) (fun _ _ => False).
Proof.
  intros Hs Hw Hgp Hcode Hp Hr Hn Hl Hb. assert (at_top en (NewEVM s) w) as Ht by (split; [by apply NewEVM_ok|done]). pose proof (mg_amount _ Hmsg) as Hz.
  pose proof (mg_gasLimit _ Hmsg) as Hl57. unfold maxGas in Hl57. pose proof (mg_gasPrice _ Hmsg) as Hpr. unfold TransitionDb. apply twp_bind.
  eapply twp_mono; [| |by apply (preCheck_ok en msg Hmsg (NewStateTransition (NewEVM s) gp) w)].
  2: { intros err t' (_ & _ & Herr). unfold price in Herr. cbn in Herr.
    destruct Herr as [(_ & Hc & Hx)|[(_ & Hc & Hx)|[[_ Hx]|[_ Hx]]]]; try specialize (Hn Hc); lia. }
  intros _ t1 ([Ht1 Hgp1 Hg1 Hi1] & _). cbn in Hgp1. apply twp_bind, twp_in_evm. eapply from_ok; [exact Ht1|]. intros s2 Ht2.
  apply twp_bind, twp_sum. rewrite Hdata, Hto. change (IntrinsicGas [] _ _) with (inl (B := txError) 21000 : Z + txError). cbn beta iota.
  apply twp_bind. unfold useGas. apply twp_bind, twp_gets. cbn [t_gas set_tevm]. rewrite Hg1. destruct (Z.ltb_spec (msg_gasLimit msg) 21000); [lia|].
  apply twp_modify. unfold u64. rewrite Z.mod_small by (unfold two64; lia). set (t2 := set_tgas _ _). apply twp_bind.
  eapply twp_mono; [| |eapply (runMessage_plain fuel t2); [exact Ht2| |done|]]; [|done|by rewrite ensured_code, bought_code|].
  2: { rewrite ensured_balance. unfold bought, price. rewrite SubBalance_balance, ensured_balance. lia. }
  intros r t3 (Hret & Herr & Hg3 & Hgp3 & Hi3 & Ht3). cbn in Hg3, Hgp3, Hi3. rewrite Hret, Herr. rewrite decide_False by done.
  apply twp_bind. eapply twp_mono; [| |eapply (refundGas_ok en msg Hmsg t3 _ gp); [exact Ht3|lia..|unfold is_u64 in *; lia]]; [|done].
  intros _ t4 (Hi4 & Hgp4 & _ & Hg4 & Ht4).
  assert (t_gas t4 = msg_gasLimit msg - 21000) as Eg.
  { rewrite Hg4; [lia|]. unfold moved, counted, bought. cbn. rewrite !ensured_refund. cbn. rewrite !ensured_refund. cbn. by rewrite ensured_refund. }
  apply twp_bind. unfold gasUsed. apply twp_gets. rewrite Hi4, Eg. unfold u64. rewrite Z.mod_small by (unfold two64; lia).
  replace (msg_gasLimit msg - (msg_gasLimit msg - 21000)) with 21000 by lia. rewrite Eg in Ht4, Hgp4.
  apply twp_bind, twp_in_evm. eapply ewp_do_top; [auto with laws|exact Ht4|cbn; lia|]. intros s5 Ht5.
  apply twp_bind, twp_gets. cbn [t_initialGas t_gas set_tevm]. rewrite Hi4, Eg, Z.mod_small by (unfold two64; lia). apply twp_ret.
  split_and!; [|cbn; lia|exact Ht5]. do 2 f_equal. f_equal. lia.
Qed.

(** C15. An ordinary transfer, a message without data to an account without code
    that can be paid for, succeeds and uses exactly 21000 gas: the amount goes
    from the sender to the recipient, the fee from the sender to the coinbase,
    the nonce of the sender is counted up, and no other balance or nonce
    changes; also when some of the three accounts are the same. *)
Theorem transfer_exact fuel s w gp : st_sees s w → world_ok w → is_u64 gp → default [] (w_code b w) = [] → precompiles en b = None →
  w_refund w = 0 → (msg_checkNonce msg = true → w_nonce a w = msg_nonce msg) → 21000 ≤ msg_gasLimit msg ≤ gp →
  paid (msg_gasLimit msg) + msg_amount msg ≤ w_balance a w →
  match TransitionDb en (Run en fuel) msg (NewStateTransition (NewEVM s) gp) with
  | Ok (t', r) => r = inl (None, 21000, false) ∧ t_gp t' = gp - 21000 ∧ ∃ w', st_sees (e_db (t_evm t')) w' ∧
      (∀ c, w_balance c w' = w_balance c w + (if decide (c = b) then msg_amount msg else 0)
        - (if decide (c = a) then msg_amount msg + paid 21000 else 0) + (if decide (c = en_Coinbase en) then paid 21000 else 0)) ∧
      (∀ c, w_nonce c w' = if decide (c = a) then (w_nonce a w + 1)%u64 else w_nonce c w)
  | Err c => collision c
  | Panic => False
  end.
Proof.
  intros Hs Hw Hgp Hcode Hp Hr Hn Hl Hb. pose proof (TransitionDb_plain fuel s w gp Hs Hw Hgp Hcode Hp Hr Hn Hl Hb) as Ht. unfold twp in Ht.
  destruct (TransitionDb _ _ _ _) as [[t' [r|err]]|c|]; [|done..]. cbn [holds] in Ht. destruct Ht as (-> & Hg & [Ht _]).
  split; [done|]. split; [done|]. exists (transferred 21000 (msg_gasLimit msg - 21000) w). split; [apply Ht|].
  split; intros c; [apply transferred_balance; lia|apply transferred_nonce].
Qed.

End Transfer.
