(* ===== verification/Tx.v ===== *)
(** * Transactions and their senders
    (src/kernel/types/transaction.go, transaction_signing.go)

    The sender of a transaction is recovered from its signature over a hash of
    its fields.  A signer is a rule for that hash and for the value [V] that
    the signature is stored with; [Sender] keeps the last answer in the
    transaction.  Recovering and making signatures are interfaces. *)

From S2P Require Import Prelude Types Interfaces Rlp RlpRaw RlpStream RlpDecode HeaderHash Trie Sha3 State GoMath Vm VmExec VmPrecompiled Transition.
From stdpp Require Import base tactics option list numbers gmap.
From Stdlib Require Import ZArith Lia.

#[local] Open Scope Z_scope.

Inductive sigError :=
  | ErrInvalidSig
  | ErrInvalidChainId
  | errRecover
  | errPublicKey.

#[export] Instance sigError_eq_dec : EqDecision sigError.
Proof. solve_decision. Defined.

Notation sres := (outcome sigError).

(** ** Transactions *)

(** The big integers are never nil: [newTransaction] and the decoder make
    them. *)
Record txdata := mkTxdata {
  AccountNonce : Z;
  Price : Z;
  GasLimit : Z;
  Recipient : option Address;
  Amount : Z;
  Payload : list Z;
  tx_V : Z;
  tx_R : Z;
  tx_S : Z
}.

Inductive Signer :=
  | FrontierSigner
  | HomesteadSigner
  | EIP155Signer (chainId chainIdMul : Z).

(** The data, and the hash and the sender that were computed before. *)
Record Transaction := mkTransaction {
  tx_data : txdata;
  tx_hash : option Hash;
  tx_from : option (Signer * Address)
}.

Definition newTransaction (nonce : Z) (to : option Address) (amount : option Z) (gasLimit : Z) (gasPrice : option Z) (data : list Z) : Transaction :=
  mkTransaction (mkTxdata nonce (default 0 gasPrice) gasLimit to (default 0 amount) data 0 0 0) None None.

Definition NewTransaction (nonce : Z) (to : Address) := newTransaction nonce (Some to).
Definition NewContractCreation (nonce : Z) := newTransaction nonce None.

Definition isProtectedV (V : Z) : bool :=
  if big_BitLen V <=? 8 then negb (big_Uint64 V =? 27) && negb (big_Uint64 V =? 28) else true.

Definition deriveChainId (v : Z) : Z :=
  if big_BitLen v <=? 64 then
    let v := big_Uint64 v in
    if (v =? 27) || (v =? 28) then 0 else (v - 35)%u64 / 2
  else (v - 35) / 2.

Definition Protected (d : txdata) : bool := isProtectedV (tx_V d).
Definition tx_ChainId (d : txdata) : Z := deriveChainId (tx_V d).

Definition NewEIP155Signer (chainId : option Z) : Signer := EIP155Signer (default 0 chainId) (default 0 chainId * 2).

Definition deriveSigner (V : Z) : Signer :=
  if negb (V =? 0) && isProtectedV V then NewEIP155Signer (Some (deriveChainId V)) else HomesteadSigner.

Definition tx_Cost (d : txdata) : Z := Price d * GasLimit d + Amount d.

(** [copy(addr[:], b)] *)
Definition address_of (b : list Z) : Address := take AddressLength (b ++ zeroAddress).

(** ** Signers *)

Definition MakeSigner (config : ChainConfig) (blockNumber : option Z) : Signer :=
  if IsEIP155 config blockNumber then NewEIP155Signer (ChainId config)
  else if IsHomestead config blockNumber then HomesteadSigner
  else FrontierSigner.

Definition Signer_Equal (s s2 : Signer) : bool :=
  match s, s2 with
  | EIP155Signer c _, EIP155Signer c2 _ => c2 =? c
  | HomesteadSigner, HomesteadSigner => true
  | FrontierSigner, FrontierSigner => true
  | _, _ => false
  end.

Definition recipient_value (r : option Address) : value := match r with None => VNilByteArrayPtr | Some a => VBytes a end.

Definition unsigned_values (d : txdata) : list value :=
  [VUint (AccountNonce d); VBigIntPtr (Some (Price d)); VUint (GasLimit d); recipient_value (Recipient d); VBigIntPtr (Some (Amount d)); VBytes (Payload d)].

(** What [Transaction.EncodeRLP] writes. *)
Definition tx_value (d : txdata) : value :=
  VStruct (unsigned_values d ++ [VBigIntPtr (Some (tx_V d)); VBigIntPtr (Some (tx_R d)); VBigIntPtr (Some (tx_S d))]).

(** [crypto.Sign] and the uncompressed public key of a private key. *)
Class Signing := {
  PrivateKey : Type;
  Sign : Hash → PrivateKey → option (list Z);
  FromECDSAPub : PrivateKey → list Z
}.

Section Tx.
Context `{HK : Keccak, HP : EvmCrypto}.

(** [Transaction.Hash], with the value kept. *)
Definition Transaction_Hash (tx : Transaction) : Transaction * Hash :=
  match tx_hash tx with
  | Some h => (tx, h)
  | None => let v := rlpHash (tx_value (tx_data tx)) in (mkTransaction (tx_data tx) (Some v) (tx_from tx), v)
  end.

Definition Signer_Hash (s : Signer) (d : txdata) : Hash :=
  match s with
  | EIP155Signer chainId _ => rlpHash (VSlice (unsigned_values d ++ [VBigIntPtr (Some chainId); VUint 0; VUint 0]))
  | _ => rlpHash (VSlice (unsigned_values d))
  end.

(** The 65 bytes that the key is recovered from; a number longer than 32 bytes
    is a slice out of range. *)
Definition plain_sig (R Sv V : Z) : sres (list Z) :=
  let r := big_Bytes R in
  let s := big_Bytes Sv in
  if (32 <? strlen r) || (32 <? strlen s) then Panic
  else Ok (replicate (32 - length r) 0 ++ r ++ replicate (32 - length s) 0 ++ s ++ [V]).

Definition recoverPlain (sighash : Hash) (R Sv Vb : Z) (homestead : bool) : sres Address :=
  if 8 <? big_BitLen Vb then Err ErrInvalidSig
  else
    let V := byte (big_Uint64 Vb - 27)%u64 in
    if negb (crypto.ValidateSignatureValues V R Sv homestead) then Err ErrInvalidSig
    else
      sig ← plain_sig R Sv V;
      match vm_Ecrecover sighash sig with
      | None => Err errRecover
      | Some pub =>
          match pub with
          | 4 :: pub => Ok (address_of (drop 12 (Keccak256 pub)))
          | _ => Err errPublicKey
          end
      end.

Definition Signer_Sender (s : Signer) (d : txdata) : sres Address :=
  match s with
  | FrontierSigner => recoverPlain (Signer_Hash FrontierSigner d) (tx_R d) (tx_S d) (tx_V d) false
  | HomesteadSigner => recoverPlain (Signer_Hash HomesteadSigner d) (tx_R d) (tx_S d) (tx_V d) true
  | EIP155Signer chainId chainIdMul =>
      if negb (Protected d) then recoverPlain (Signer_Hash HomesteadSigner d) (tx_R d) (tx_S d) (tx_V d) true
      else if negb (tx_ChainId d =? chainId) then Err ErrInvalidChainId
      else recoverPlain (Signer_Hash s d) (tx_R d) (tx_S d) (tx_V d - chainIdMul - 8) true
  end.

(** [Sender]: the answer of the signer, unless an equal signer answered
    before. *)
Definition Sender (s : Signer) (tx : Transaction) : Transaction * sres Address :=
  let ask :=
    match Signer_Sender s (tx_data tx) with
    | Ok addr => (mkTransaction (tx_data tx) (tx_hash tx) (Some (s, addr)), Ok addr)
    | r => (tx, r)
    end in
  match tx_from tx with
  | Some (cached, from) => if Signer_Equal cached s then (tx, Ok from) else ask
  | None => ask
  end.

Definition AsMessage (s : Signer) (tx : Transaction) : Transaction * sres Message :=
  let '(tx, r) := Sender s tx in
  let d := tx_data tx in
  (tx, from ← r; Ok (mkMessage (Recipient d) from (AccountNonce d) (Amount d) (GasLimit d) (Price d) (Payload d) true)).

(** [SignatureValues]: R, S and V; a signature of another length panics. *)
Definition plain_values (sig : list Z) : sres (Z * Z * Z) :=
  if negb (strlen sig =? 65) then Panic
  else
    r ← slice sig 0 32;
    s ← slice sig 32 64;
    v ← index sig 64;
    Ok (be_val r, be_val s, byte (v + 27)).

Definition SignatureValues (s : Signer) (sig : list Z) : sres (Z * Z * Z) :=
  '(R, Sv, V) ← plain_values sig;
  match s with
  | EIP155Signer chainId chainIdMul =>
      if chainId =? 0 then Ok (R, Sv, V)
      else v ← index sig 64; Ok (R, Sv, byte (v + 35) + chainIdMul)
  | _ => Ok (R, Sv, V)
  end.

Definition with_values (d : txdata) (R Sv V : Z) : txdata :=
  mkTxdata (AccountNonce d) (Price d) (GasLimit d) (Recipient d) (Amount d) (Payload d) V R Sv.

Definition WithSignature (s : Signer) (sig : list Z) (tx : Transaction) : sres Transaction :=
  '(R, Sv, V) ← SignatureValues s sig;
  Ok (mkTransaction (with_values (tx_data tx) R Sv V) None None).

Definition SignTx `{Signing} (tx : Transaction) (s : Signer) (prv : PrivateKey) : sres Transaction :=
  match Sign (Signer_Hash s (tx_data tx)) prv with
  | None => Err errRecover
  | Some sig => WithSignature s sig tx
  end.

Definition PubkeyToAddress `{Signing} (prv : PrivateKey) : Address :=
  crypto.BytesToAddress (drop 12 (Keccak256 (drop 1 (FromECDSAPub prv)))).

(** [TxDifference] *)
Definition TxDifference (a b : list Transaction) : list Transaction :=
  let remove := foldl (fun (m : gmap Hash unit) tx => <[(Transaction_Hash tx).2 := tt]> m) ∅ b in
  filter (fun tx => remove !! (Transaction_Hash tx).2 = None) a.

End Tx.
