(* ===== verification/TxSpec.v ===== *)
(** * Who sent a transaction

    A signer accepts exactly the signatures of its form; what [SignTx] signs,
    the signer accepts as sent by the key; a transaction signed for one chain
    is refused on another; and the signed hash binds every field. *)

From S2P Require Import Prelude Types Interfaces Rlp RlpRaw RlpStream RlpDecode HeaderHash Trie Sha3 State GoMath Vm VmAnalysis VmLaws VmHoare VmSafePre VmExec VmPrecompiled Transition Tx.
From stdpp Require Import base tactics option list numbers gmap.
From Stdlib Require Import ZArith Lia.

#[local] Open Scope Z_scope.

(** ** The bytes of a signature *)

Lemma be_bytes_abs z : 0 ≤ z → big_Bytes z = be_bytes (length (big_Bytes z)) z.
Proof. intros Hz. unfold big_Bytes. by rewrite be_bytes_length, Z.abs_eq. Qed.

Lemma pad_big_Bytes n z : 0 ≤ z < 256 ^ Z.of_nat n → replicate (n - length (big_Bytes z)) 0 ++ big_Bytes z = be_bytes n z.
Proof.
  intros Hz. pose proof (length_big_Bytes z n Hz) as Hl. rewrite (be_bytes_abs z) at 2 by lia. rewrite <- math.be_bytes_zero; [f_equal; lia|].
  split; [lia|]. rewrite <- (Z.abs_eq z) at 1 by lia. rewrite <- be_val_big_Bytes. apply be_val_bounds, big_Bytes_bytes.
Qed.

(** The numbers that a signature can have. *)
Definition sig_range (homestead : bool) (R S : Z) : Prop :=
  1 ≤ R < crypto.secp256k1_N ∧ 1 ≤ S < crypto.secp256k1_N ∧ (homestead = true → S ≤ crypto.secp256k1_halfN).

Lemma plain_sig_ok R S V : 0 ≤ R < 2 ^ 256 → 0 ≤ S < 2 ^ 256 → plain_sig R S V = Ok (be_bytes 32 R ++ be_bytes 32 S ++ [V]).
Proof.
  intros HR HS. change (2 ^ 256) with (256 ^ Z.of_nat 32) in *. pose proof (length_big_Bytes _ _ HR). pose proof (length_big_Bytes _ _ HS).
  unfold plain_sig. destruct (Z.ltb_spec 32 (strlen (big_Bytes R))); [lia|]. destruct (Z.ltb_spec 32 (strlen (big_Bytes S))); [lia|]. cbn [orb].
  by rewrite <- (pad_big_Bytes 32 R), <- (pad_big_Bytes 32 S), <- !app_assoc by done.
Qed.

Lemma Validate_spec V R S hs : crypto.ValidateSignatureValues V R S hs = true ↔ sig_range hs R S ∧ (V = 0 ∨ V = 1).
Proof.
  unfold crypto.ValidateSignatureValues, sig_range. generalize crypto.secp256k1_halfN, crypto.secp256k1_N. intros half N.
  destruct ((R <? 1) || (S <? 1)) eqn:E1.
  { split; [done|]. apply orb_true_iff in E1. rewrite !Z.ltb_lt in E1. lia. }
  apply orb_false_iff in E1. rewrite !Z.ltb_ge in E1. destruct (hs && (half <? S)) eqn:E2.
  { apply andb_true_iff in E2 as [-> E2%Z.ltb_lt]. split; [done|]. intros ((_ & _ & Hh) & _). specialize (Hh eq_refl). lia. }
  rewrite !andb_true_iff, orb_true_iff, !Z.ltb_lt, !Z.eqb_eq. split; [|lia]. intros [[HR HS] HV]. split; [|done]. split; [lia|]. split; [lia|].
  intros ->. cbn in E2. apply Z.ltb_ge in E2. done.
Qed.

Section Sender.
Context `{HK : Keccak, HP : EvmCrypto}.

(** The address whose key made the signature. *)
Definition recovers (h : Hash) (R S parity : Z) (a : Address) : Prop :=
  ∃ pub, vm_Ecrecover h (be_bytes 32 R ++ be_bytes 32 S ++ [parity]) = Some (4 :: pub) ∧ a = address_of (drop 12 (Keccak256 pub)).

Lemma N_lt : crypto.secp256k1_N < 2 ^ 256.
Proof. done. Qed.

Lemma byte_27 Vb : 0 ≤ Vb < 256 → ∀ p, p = 0 ∨ p = 1 → byte (Vb - 27)%u64 = p ↔ Vb = 27 + p.
Proof.
  intros HV p Hp. unfold byte, u64, two64. destruct (Z.lt_ge_cases Vb 27).
  - replace ((Vb - 27) mod 18446744073709551616) with (Vb - 27 + 18446744073709551616); [|apply (Z.mod_unique _ _ (-1)); [left|]; lia].
    replace ((Vb - 27 + 18446744073709551616) mod 256) with (Vb - 27 + 256); [lia|].
    apply (Z.mod_unique _ _ 72057594037927935); [left|]; lia.
  - rewrite (Z.mod_small (Vb - 27)) by lia. rewrite Z.mod_small by lia. lia.
Qed.

Lemma recoverPlain_spec h R S Vb hs a : 0 ≤ Vb →
  recoverPlain h R S Vb hs = Ok a ↔ ∃ parity, (parity = 0 ∨ parity = 1) ∧ Vb = 27 + parity ∧ sig_range hs R S ∧ recovers h R S parity a.
Proof.
  intros HV. unfold recoverPlain. destruct (Z.ltb_spec 8 (big_BitLen Vb)) as [Hb|Hb].
  { split; [done|]. intros (p & Hp & -> & _). assert (big_BitLen (27 + p) ≤ 8); [|lia]. apply big_BitLen_le; lia. }
  apply big_BitLen_le in Hb; [|lia..]. rewrite (big_Uint64_small Vb) by (unfold two64; lia). set (V := byte _). pose proof (byte_27 Vb ltac:(lia)) as HVb. fold V in HVb.
  destruct (crypto.ValidateSignatureValues V R S hs) eqn:Ev; cbn [negb].
  - apply Validate_spec in Ev as [Hr Hp]. pose proof N_lt. destruct Hr as (HR & HS & Hh). rewrite plain_sig_ok, bind_Ok by lia. split.
    + destruct (vm_Ecrecover _ _) as [pub|] eqn:Er; [|done]. intros E. exists V. split; [done|]. split; [by apply HVb|]. split; [done|].
      destruct pub as [|x pub]; [done|]. destruct (decide (x = 4)) as [->|Hx]; [injection E as <-; by exists pub|].
      destruct x as [|q|]; try done. destruct q as [q|q|]; try done; destruct q as [q|q|]; try done; by destruct q.
    + intros (p & Hp' & HVp & _ & pub & Er & ->). apply HVb in HVp; [|done]. subst p. by rewrite Er.
  - split; [done|]. intros (p & Hp & HVp & Hr & _). apply HVb in HVp; [|done]. assert (crypto.ValidateSignatureValues V R S hs = true); [|congruence].
    apply Validate_spec. split; [done|]. by rewrite HVp.
Qed.

Lemma recoverPlain_total h R S Vb hs : recoverPlain h R S Vb hs ≠ Panic.
Proof.
  unfold recoverPlain. case_match; [done|]. case_match eqn:Ev; [done|]. apply negb_false_iff, Validate_spec in Ev as [(HR & HS & _) _].
  pose proof N_lt. rewrite plain_sig_ok, bind_Ok by lia. repeat case_match; done.
Qed.

(** ** What a signer accepts *)

Definition signer_wf (s : Signer) : Prop := match s with EIP155Signer c m => 0 ≤ c ∧ m = c * 2 | _ => True end.

(** A signature over [h] whose [V] is [base], or one more. *)
Definition signed_by (hs : bool) (base : Z) (h : Hash) (d : txdata) (a : Address) : Prop :=
  ∃ parity, (parity = 0 ∨ parity = 1) ∧ tx_V d = base + parity ∧ sig_range hs (tx_R d) (tx_S d) ∧ recovers h (tx_R d) (tx_S d) parity a.

Definition sent_by (s : Signer) (d : txdata) (a : Address) : Prop :=
  match s with
  | FrontierSigner => signed_by false 27 (Signer_Hash FrontierSigner d) d a
  | HomesteadSigner => signed_by true 27 (Signer_Hash HomesteadSigner d) d a
  | EIP155Signer c _ => signed_by true 27 (Signer_Hash HomesteadSigner d) d a ∨ signed_by true (35 + 2 * c) (Signer_Hash s d) d a
  end.

Lemma isProtectedV_spec V : 0 ≤ V → isProtectedV V = true ↔ V ≠ 27 ∧ V ≠ 28.
Proof.
  intros HV. unfold isProtectedV. destruct (Z.leb_spec (big_BitLen V) 8) as [Hb|Hb].
  - apply big_BitLen_le in Hb; [|lia..]. rewrite big_Uint64_small by (unfold two64; lia). rewrite andb_true_iff, !negb_true_iff, !Z.eqb_neq. done.
  - assert (¬ V < 2 ^ 8) by (rewrite <- big_BitLen_le; lia). lia.
Qed.

(** The chain id that [V] stands for; below 35 the subtraction wraps around. *)
Lemma deriveChainId_spec V : 0 ≤ V → V ≠ 27 → V ≠ 28 →
  (35 ≤ V ∧ (V = 35 + 2 * deriveChainId V ∨ V = 36 + 2 * deriveChainId V)) ∨ (V < 35 ∧ (V + two64 = 35 + 2 * deriveChainId V ∨ V + two64 = 36 + 2 * deriveChainId V)).
Proof.
  intros HV H27 H28. assert (∀ x, x = 2 * (x / 2) ∨ x = 2 * (x / 2) + 1) as Hh.
  { intros x. pose proof (Z.div_mod x 2). pose proof (Z.mod_pos_bound x 2). lia. }
  unfold deriveChainId. destruct (Z.leb_spec (big_BitLen V) 64) as [Hb|Hb].
  - apply big_BitLen_le in Hb; [|lia..]. change (2 ^ 64) with two64 in Hb. rewrite big_Uint64_small by lia. destruct (Z.eqb_spec V 27), (Z.eqb_spec V 28); try lia. cbn [orb].
    unfold u64. destruct (Z.lt_ge_cases V 35).
    + right. replace ((V - 35) mod two64) with (V - 35 + two64) by (apply (Z.mod_unique _ _ (-1)); [left|]; unfold two64 in *; lia).
      specialize (Hh (V - 35 + two64)). lia.
    + left. rewrite Z.mod_small by lia. specialize (Hh (V - 35)). lia.
  - assert (¬ V < 2 ^ 64) by (rewrite <- big_BitLen_le; lia). left. specialize (Hh (V - 35)). lia.
Qed.

Lemma big_BitLen_neg z : big_BitLen (- z) = big_BitLen z.
Proof. unfold big_BitLen. rewrite Z.abs_opp. destruct (Z.eqb_spec (- z) 0), (Z.eqb_spec z 0); (done || lia). Qed.

Lemma recoverPlain_far h R S z hs : two64 - 256 ≤ z < two64 → recoverPlain h R S (- z) hs = Err ErrInvalidSig.
Proof.
  intros Hz. unfold recoverPlain. rewrite big_BitLen_neg. destruct (Z.ltb_spec 8 (big_BitLen z)) as [|Hb]; [done|].
  apply big_BitLen_le in Hb; unfold two64 in *; lia.
Qed.

Lemma EIP155_protected c d a : 0 ≤ c → 0 ≤ tx_V d → isProtectedV (tx_V d) = true → tx_ChainId d = c →
  recoverPlain (Signer_Hash (EIP155Signer c (c * 2)) d) (tx_R d) (tx_S d) (tx_V d - c * 2 - 8) true = Ok a ↔
  signed_by true (35 + 2 * c) (Signer_Hash (EIP155Signer c (c * 2)) d) d a.
Proof.
  intros Hc HV Hp HC. apply isProtectedV_spec in Hp as [H27 H28]; [|done]. unfold tx_ChainId in HC. pose proof (deriveChainId_spec (tx_V d) HV H27 H28) as Hd. rewrite HC in Hd.
  destruct Hd as [[Hge Hd]|[Hlt Hd]].
  - rewrite recoverPlain_spec by lia. unfold signed_by. split; intros (p & Hpp & E & H); exists p; (split; [done|]; split; [lia|done]).
  - replace (tx_V d - c * 2 - 8) with (- (2 * c + 8 - tx_V d)) by lia. rewrite recoverPlain_far by (unfold two64 in *; lia).
    split; [done|]. intros (p & Hpp & E & _). unfold two64 in *. lia.
Qed.

Lemma Sender_iff s d a : signer_wf s → 0 ≤ tx_V d → Signer_Sender s d = Ok a ↔ sent_by s d a.
Proof.
  intros Hs HV. destruct s as [| |c m]; cbn [Signer_Sender sent_by]; try (by apply recoverPlain_spec).
  destruct Hs as [Hc ->]. unfold Protected. destruct (isProtectedV (tx_V d)) eqn:Ep; cbn [negb].
  - pose proof (proj1 (isProtectedV_spec _ HV) Ep) as [H27 H28].
    assert (¬ signed_by true 27 (Signer_Hash HomesteadSigner d) d a) as Hn by (intros (p & Hp & E & _); lia).
    destruct (Z.eqb_spec (tx_ChainId d) c) as [Ec|Ec]; cbn [negb].
    + rewrite EIP155_protected by done. tauto.
    + split; [done|]. intros [|(p & Hp & E & _)]; [done|]. unfold tx_ChainId in Ec. pose proof (deriveChainId_spec (tx_V d) HV H27 H28). lia.
  - assert (tx_V d = 27 ∨ tx_V d = 28) as HV'.
    { destruct (decide (tx_V d = 27)), (decide (tx_V d = 28)); auto. assert (isProtectedV (tx_V d) = true) by (by apply isProtectedV_spec). congruence. }
    rewrite recoverPlain_spec by done. split; [by left|]. intros [|(p & Hp & E & _)]; [done|lia].
Qed.

(** C30. Recovering a sender never panics, and a signer accepts a transaction as
    sent by an address exactly when its signature numbers are in range, from
    Homestead on with the lower of the two possible [S], when its [V] is 27 or
    28, or for a chain [c] also [35 + 2c] or [36 + 2c], and when the key
    recovered from the hash that belongs to that form has the address. *)
Theorem Sender_exact s d a : signer_wf s → 0 ≤ tx_V d → Signer_Sender s d ≠ Panic ∧ (Signer_Sender s d = Ok a ↔ sent_by s d a).
Proof.
  intros Hs HV. split; [|by apply Sender_iff]. destruct s; cbn [Signer_Sender]; repeat case_match; try apply recoverPlain_total; done.
Qed.

(** A transaction signed for one chain is refused on every other chain. *)
Theorem replay_protection c c' d a : 0 ≤ c → 0 ≤ c' → c ≠ c' → 0 ≤ tx_V d → Protected d = true →
  Signer_Sender (NewEIP155Signer (Some c)) d = Ok a → Signer_Sender (NewEIP155Signer (Some c')) d = Err ErrInvalidChainId.
Proof.
  intros Hc Hc' Hne HV Hp. cbn [NewEIP155Signer Signer_Sender default]. cbn. rewrite Hp. cbn [negb].
  destruct (Z.eqb_spec (tx_ChainId d) c) as [E|E]; [|done]. intros _. by destruct (Z.eqb_spec (tx_ChainId d) c'); [lia|].
Qed.

Lemma sent_by_low s d a : s ≠ FrontierSigner → sent_by s d a → tx_S d ≤ crypto.secp256k1_halfN.
Proof.
  intros Hf Hs. assert (∃ base h, signed_by true base h d a) as (base & h & _ & _ & _ & (_ & _ & Hl) & _) by (destruct s; cbn in Hs; naive_solver).
  by apply Hl.
Qed.

(** From Homestead on a signature cannot be mirrored: of the two signatures
    [(R, S)] and [(R, N - S)] that one key makes of one hash, at most one is
    accepted, whatever the value of [V]. *)
Theorem no_mirrored_signature s d a V : signer_wf s → s ≠ FrontierSigner → 0 ≤ tx_V d → 0 ≤ V → Signer_Sender s d = Ok a →
  ∀ a', Signer_Sender s (with_values d (tx_R d) (crypto.secp256k1_N - tx_S d) V) ≠ Ok a'.
Proof.
  intros Hs Hf HV HV' Hok a' Hok'. apply Sender_iff in Hok, Hok'; [|done..].
  apply sent_by_low in Hok, Hok'; [|done..]. cbn [tx_S with_values] in Hok'.
  unfold crypto.secp256k1_halfN in *. assert (crypto.secp256k1_N = 2 * (crypto.secp256k1_N / 2) + 1) by done. lia.
Qed.

(** ** Signing *)

Context `{HG : Signing}.

(** What is documented of signing: 65 bytes, R, S in the lower half, and 0 or 1,
    from which the public key is recovered. *)
Class SigningLaws := {
  Sign_form h prv sig : Sign h prv = Some sig → ∃ R S parity, sig = be_bytes 32 R ++ be_bytes 32 S ++ [parity] ∧
    sig_range true R S ∧ (parity = 0 ∨ parity = 1);
  Sign_recovers h prv sig : Sign h prv = Some sig → vm_Ecrecover h sig = Some (FromECDSAPub prv);
  FromECDSAPub_form prv : ∃ xy, FromECDSAPub prv = 4 :: xy
}.

Lemma index_last R S parity : index (E := sigError) (be_bytes 32 R ++ be_bytes 32 S ++ [parity]) 64 = Ok parity.
Proof.
  apply index_lookup; [done|]. change (Z.to_nat 64) with (32 + 32 + 0)%nat. rewrite lookup_app_r by (rewrite be_bytes_length; lia).
  rewrite lookup_app_r by (rewrite !be_bytes_length; lia). by rewrite !be_bytes_length.
Qed.

Lemma plain_values_ok R S parity : sig_range true R S → parity = 0 ∨ parity = 1 →
  plain_values (be_bytes 32 R ++ be_bytes 32 S ++ [parity]) = Ok (R, S, 27 + parity).
Proof.
  intros (HR & HS & _) Hp. pose proof N_lt. pose proof (be_bytes_length 32 R) as LR. pose proof (be_bytes_length 32 S) as LS. unfold plain_values.
  assert (strlen (be_bytes 32 R ++ be_bytes 32 S ++ [parity]) = 65) as -> by (rewrite !length_app, LR, LS; done). cbn [Z.eqb negb Pos.eqb].
  assert (slice (E := sigError) (be_bytes 32 R ++ be_bytes 32 S ++ [parity]) 0 32 = Ok (be_bytes 32 R)) as ->.
  { etransitivity; [refine (slice_from [] (be_bytes 32 R ++ be_bytes 32 S ++ [parity]) 32 _); rewrite length_app, LR; lia|]. by rewrite take_app_length' by done. }
  assert (slice (E := sigError) (be_bytes 32 R ++ be_bytes 32 S ++ [parity]) 32 64 = Ok (be_bytes 32 S)) as ->.
  { pose proof (slice_from (E := sigError) (be_bytes 32 R) (be_bytes 32 S ++ [parity]) 32) as Hsl. rewrite LR in Hsl.
    etransitivity; [apply Hsl; rewrite length_app, LS; lia|]. by rewrite take_app_length' by done. }
  rewrite index_last.
  cbn [mbind outcome_mbind outcome_bind]. rewrite !be_val_be_bytes. change (256 ^ Z.of_nat 32) with (2 ^ 256). rewrite !Z.mod_small by lia.
  f_equal. f_equal. unfold byte. rewrite Z.mod_small by lia. lia.
Qed.

Lemma PubkeyToAddress_spec `{!KeccakLaws} prv xy : FromECDSAPub prv = 4 :: xy → PubkeyToAddress prv = address_of (drop 12 (Keccak256 xy)).
Proof.
  intros E. unfold PubkeyToAddress, address_of, crypto.BytesToAddress. rewrite E. change (drop 1 (4 :: xy)) with xy.
  assert (length (drop 12 (Keccak256 xy)) = 20%nat) as Hl by (rewrite length_drop, Keccak256_length; done). rewrite take_app_length' by (by rewrite Hl).
  rewrite Hl. change (AddressLength <? 20)%nat with false. cbv iota. by rewrite Hl.
Qed.

(** C29. What [SignTx] signs with a private key, the same signer takes for sent by
    the address of that key, and for a chain with an id other than zero the
    signature is also tied to the chain.  The one exception is the EIP155 signer
    of chain id 0, which [NewEIP155Signer] also makes of a missing id: what it
    signs counts as unprotected, and it asks the Homestead signer, which hashes
    other bytes than those that were signed. *)
Theorem SignTx_Sender `{!KeccakLaws, !SigningLaws} s tx prv tx' : signer_wf s → SignTx tx s prv = Ok tx' →
  match s with
  | EIP155Signer 0 _ => Protected (tx_data tx') = false ∧ Signer_Sender s (tx_data tx') = Signer_Sender HomesteadSigner (tx_data tx')
  | EIP155Signer c _ =>
      Signer_Sender s (tx_data tx') = Ok (PubkeyToAddress prv) ∧ tx_ChainId (tx_data tx') = c ∧ Protected (tx_data tx') = true
  | _ => Signer_Sender s (tx_data tx') = Ok (PubkeyToAddress prv)
  end.
Proof.
  intros Hs. unfold SignTx. destruct (Sign _ _) as [sig|] eqn:Es; [|done]. destruct (Sign_form _ _ _ Es) as (R & S & parity & -> & Hr & Hp).
  apply Sign_recovers in Es. destruct (FromECDSAPub_form prv) as (xy & Exy).
  assert (∀ base d, signed_by (match s with FrontierSigner => false | _ => true end) base (Signer_Hash s (tx_data tx)) (with_values d R S (base + parity)) (PubkeyToAddress prv)) as Hsig.
  { intros base d. exists parity. split_and!; [done|done| |].
    - destruct Hr as (HR & HS & Hl). split; [exact HR|]. split; [exact HS|]. by destruct s.
    - exists xy. rewrite <- Exy. split; [exact Es|]. by apply PubkeyToAddress_spec. }
  unfold WithSignature, SignatureValues. rewrite plain_values_ok by done. rewrite bind_Ok.
  assert (0 ≤ 27 + parity) by lia. destruct s as [| |c m]; [intros [= <-]; apply Sender_iff; [done|done|]; by apply Hsig..|].
  destruct Hs as [Hc ->]. destruct (Z.eqb_spec c 0) as [->|Hc0].
  { intros [= <-]. assert (Protected (with_values (tx_data tx) R S (27 + parity)) = false) as Hprot by (destruct Hp as [-> | ->]; reflexivity).
    cbn [tx_data]. split; [exact Hprot|]. unfold Signer_Sender. by rewrite Hprot. }
  rewrite index_last. intros [= <-]. unfold byte.
  rewrite (Z.mod_small (parity + 35)) by lia. set (V := parity + 35 + c * 2).
  assert (V = 35 + 2 * c + parity) as -> by lia. enough (Signer_Sender (EIP155Signer c (c * 2)) (with_values (tx_data tx) R S (35 + 2 * c + parity)) = Ok (PubkeyToAddress prv) ∧
    tx_ChainId (with_values (tx_data tx) R S (35 + 2 * c + parity)) = c ∧ Protected (with_values (tx_data tx) R S (35 + 2 * c + parity)) = true) by (by destruct c).
  split.
  - apply Sender_iff; [done|cbn [tx_V with_values tx_data]; lia|]. right. apply Hsig.
  - unfold tx_ChainId, Protected. cbn [tx_V with_values tx_data]. split; [|apply isProtectedV_spec; lia].
    pose proof (deriveChainId_spec (35 + 2 * c + parity)). lia.
Qed.

End Sender.

(** ** What is signed *)

Record tx_ok (d : txdata) : Prop := {
  tok_AccountNonce : is_u64 (AccountNonce d);
  tok_Price : 0 ≤ Price d;
  tok_GasLimit : is_u64 (GasLimit d);
  tok_Recipient : match Recipient d with Some a => is_array 20 a | None => True end;
  tok_Amount : 0 ≤ Amount d;
  tok_Payload : is_bytes (Payload d)
}.

(** The values that a signer hashes. *)
Definition signed_values (s : Signer) (d : txdata) : list value :=
  unsigned_values d ++ match s with EIP155Signer c _ => [VBigIntPtr (Some c); VUint 0; VUint 0] | _ => [] end.

(** The same as byte strings. *)
Definition signed_strings (s : Signer) (d : txdata) : list (list Z) :=
  [big_Bytes (AccountNonce d); big_Bytes (Price d); big_Bytes (GasLimit d); default [] (Recipient d); big_Bytes (Amount d); Payload d] ++
  match s with EIP155Signer c _ => [big_Bytes c; big_Bytes 0; big_Bytes 0] | _ => [] end.

Definition signed_chain (s : Signer) : option Z := match s with EIP155Signer c _ => Some c | _ => None end.

Lemma Signer_Hash_values `{Keccak} s d : Signer_Hash s d = Keccak256 (rlp_written (VSlice (signed_values s d))).
Proof. unfold signed_values. destruct s; cbn [Signer_Hash]; by rewrite ?app_nil_r. Qed.

Lemma enc_big z : 0 ≤ z → enc_value (VBigIntPtr (Some z)) = enc_value (VBytes (big_Bytes z)).
Proof. intros Hz. cbn. by destruct (Z.ltb_spec z 0); [lia|]. Qed.

Lemma concat_opt_map l l' : Forall2 (fun v v' => enc_value v = enc_value v') l l' → concat_opt enc_value l = concat_opt enc_value l'.
Proof. induction 1 as [|v v' l l' E _ IH]; [done|]. cbn. by rewrite E, IH. Qed.

Lemma signed_enc s d : signer_wf s → tx_ok d → enc_value (VSlice (signed_values s d)) = enc_value (VSlice (VBytes <$> signed_strings s d)).
Proof.
  intros Hs []. cbn [enc_value]. f_equal. apply concat_opt_map. unfold signed_values, signed_strings, unsigned_values.
  rewrite fmap_app. apply Forall2_app.
  - repeat first [apply Forall2_cons_2|apply Forall2_nil_2]; try done; try (by apply enc_big). by destruct (Recipient d).
  - destruct s; cbn; repeat first [apply Forall2_cons_2|apply Forall2_nil_2]; try done. apply enc_big. apply Hs.
Qed.

Lemma signed_strings_bytes s d : tx_ok d → Forall is_bytes (signed_strings s d).
Proof.
  intros []. apply Forall_app. split.
  - repeat first [apply Forall_cons_2|apply Forall_nil_2]; try apply big_Bytes_bytes; [|done]. destruct (Recipient d); [apply tok_Recipient0|by constructor].
  - destruct s; repeat first [apply Forall_cons_2|apply Forall_nil_2]; apply big_Bytes_bytes.
Qed.

Lemma signed_values_ok s d : tx_ok d → value_ok (VSlice (signed_values s d)).
Proof.
  intros []. cbn. destruct (Recipient d), s; cbn; unfold is_array in *; unfold is_u64 in *; naive_solver.
Qed.

Lemma big_Bytes_inj x y : 0 ≤ x → 0 ≤ y → big_Bytes x = big_Bytes y → x = y.
Proof. intros Hx Hy E. apply (f_equal be_val) in E. rewrite !be_val_big_Bytes in E. lia. Qed.

(** The fields that a signature covers. *)
Definition unsigned (d : txdata) := (AccountNonce d, Price d, GasLimit d, Recipient d, Amount d, Payload d).

Lemma signed_strings_inj s1 s2 d1 d2 : signer_wf s1 → signer_wf s2 → tx_ok d1 → tx_ok d2 → signed_strings s1 d1 = signed_strings s2 d2 →
  unsigned d1 = unsigned d2 ∧ signed_chain s1 = signed_chain s2.
Proof.
  intros W1 W2 [[] ? [] R1 ? ?] [[] ? [] R2 ? ?] E. cbn in E.
  assert (signed_chain s1 = signed_chain s2) as Hc.
  { injection E as _ _ _ _ _ _ E. destruct s1 as [| |c1 m1], s2 as [| |c2 m2]; try done. injection E as E. cbn. f_equal. apply big_Bytes_inj; [apply W1|apply W2|done]. }
  split; [|done]. injection E as E1 E2 E3 E4 E5 E6 _. apply big_Bytes_inj in E1, E2, E3, E5; try done. unfold unsigned.
  assert (Recipient d1 = Recipient d2) as E4'; [|congruence]. destruct (Recipient d1) as [a1|], (Recipient d2) as [a2|]; cbn in *; subst; try done; [by destruct R1|by destruct R2].
Qed.

(** Lists of byte strings with the same encoding are equal. *)
Lemma strings_enc_inj l1 l2 b : Forall is_bytes l1 → Forall is_bytes l2 →
  enc_value (VSlice (VBytes <$> l1)) = Some b → enc_value (VSlice (VBytes <$> l2)) = Some b → strlen b < two64 → l1 = l2.
Proof.
  assert (∀ l, Forall is_bytes l → has_type (TSlice TBytes) (VSlice (VBytes <$> l))) as Ht.
  { intros l Hl. apply ht_slice, Forall_fmap. eapply Forall_impl; [exact Hl|]. intros b' Hb. by apply ht_bytes. }
  intros H1 H2 E1 E2 Hs. pose proof (enc_value_inj (TSlice TBytes) _ _ b I (Ht l1 H1) (Ht l2 H2) E1 E2 Hs) as Ev.
  injection Ev as El. clear -El. revert l2 El. induction l1 as [|x l1 IH]; intros [|y l2] [=]; [done|]. f_equal; auto.
Qed.

Lemma strings_encodable l : Forall is_bytes l → ∃ b, enc_value (VSlice (VBytes <$> l)) = Some b ∧ (strlen b < two64 → is_bytes b).
Proof.
  intros Hl. destruct (typed_encodable (VSlice (VBytes <$> l)) (TSlice TBytes) I) as (_ & b & Hb); [|by exists b].
  apply ht_slice, Forall_fmap. eapply Forall_impl; [exact Hl|]. intros b' Hb'. by apply ht_bytes.
Qed.

(** C31. A signature covers every field: if the hash function does not collide on
    what two signers hash, equal hashes mean equal nonces, prices, gas limits,
    recipients or lack of one, amounts and data, and that both signatures are
    for the same chain or both for none. *)
Theorem sighash_binds `{Keccak} s1 s2 d1 d2 (W1 : signer_wf s1) (W2 : signer_wf s2) (O1 : tx_ok d1) (O2 : tx_ok d2)
    (short1 : ∀ b, enc_value (VSlice (signed_values s1 d1)) = Some b → strlen b < two64)
    (short2 : ∀ b, enc_value (VSlice (signed_values s2 d2)) = Some b → strlen b < two64)
    (nocollision : Keccak256 (rlp_written (VSlice (signed_values s1 d1))) = Keccak256 (rlp_written (VSlice (signed_values s2 d2))) →
                   rlp_written (VSlice (signed_values s1 d1)) = rlp_written (VSlice (signed_values s2 d2)))
    (E : Signer_Hash s1 d1 = Signer_Hash s2 d2) :
  unsigned d1 = unsigned d2 ∧ signed_chain s1 = signed_chain s2.
Proof.
  rewrite !Signer_Hash_values in E. apply nocollision in E. apply signed_strings_inj; [done..|].
  destruct (strings_encodable _ (signed_strings_bytes s1 d1 O1)) as (b1 & E1 & _), (strings_encodable _ (signed_strings_bytes s2 d2 O2)) as (b2 & E2 & _).
  rewrite <- signed_enc in E1, E2 by done.
  rewrite (rlp_written_enc _ b1), (rlp_written_enc _ b2) in E by auto using signed_values_ok. subst b2.
  pose proof (short1 b1 E1) as Hs. rewrite signed_enc in E1, E2 by done.
  apply (strings_enc_inj _ _ b1); [by apply signed_strings_bytes..|done|done|done].
Qed.

(** ** The sender that was computed before *)

Section Cache.
Context `{HK : Keccak, HP : EvmCrypto}.

(** The cached answers are those of the signers and of the hash. *)
Record cached_ok (tx : Transaction) : Prop := {
  co_from : ∀ s a, tx_from tx = Some (s, a) → signer_wf s ∧ Signer_Sender s (tx_data tx) = Ok a;
  co_hash : ∀ h, tx_hash tx = Some h → h = rlpHash (tx_value (tx_data tx))
}.

Lemma Signer_Equal_same s s' d : signer_wf s → signer_wf s' → Signer_Equal s s' = true → Signer_Sender s d = Signer_Sender s' d.
Proof. destruct s as [| |c m], s' as [| |c' m']; try done. cbn [signer_wf Signer_Equal]. intros [_ ->] [_ ->] ->%Z.eqb_eq. done. Qed.

(** Asking again gives the answer of the signer. *)
Lemma Sender_transparent s tx : signer_wf s → cached_ok tx →
  (Sender s tx).2 = Signer_Sender s (tx_data tx) ∧ cached_ok (Sender s tx).1 ∧ tx_data (Sender s tx).1 = tx_data tx.
Proof.
  intros Hs [Hf Hh].
  assert (let r := match Signer_Sender s (tx_data tx) with
                   | Ok addr => (mkTransaction (tx_data tx) (tx_hash tx) (Some (s, addr)), Ok addr)
                   | r => (tx, r)
                   end in r.2 = Signer_Sender s (tx_data tx) ∧ cached_ok r.1 ∧ tx_data r.1 = tx_data tx) as Hask.
  { destruct (Signer_Sender s (tx_data tx)) as [a| |] eqn:E; cbn; (split; [done|]; split; [|done]); split; try done. by intros s' a' [= <- <-]. }
  unfold Sender. destruct (tx_from tx) as [[s' a]|] eqn:Ef; [|exact Hask]. destruct (Signer_Equal s' s) eqn:Eq; [|exact Hask].
  destruct (Hf s' a eq_refl) as [Hs' Ha]. cbn. rewrite <- (Signer_Equal_same s' s) by done. split; [done|]. split; [|done]. by split; [rewrite Ef|].
Qed.

Lemma Transaction_Hash_transparent tx : cached_ok tx → (Transaction_Hash tx).2 = rlpHash (tx_value (tx_data tx)).
Proof. intros [_ Hh]. unfold Transaction_Hash. destruct (tx_hash tx); [by apply Hh|done]. Qed.

End Cache.
