(* ===== verification/Receipt.v ===== *)
(** * Receipts, blooms and log filters
    (src/kernel/types/receipt.go, bloom9.go, log.go, src/epv/filters/filter.go)

    The bloom of a receipt has three bits set for every address and topic of its
    logs.  A filter asks the bloom first: it never passes over a block that
    holds a log it looks for. *)

From S2P Require Import Prelude Types Interfaces Rlp RlpRaw RlpStream RlpDecode HeaderHash Trie State GoMath.
From stdpp Require Import base tactics option list numbers gmap.
From Stdlib Require Import ZArith Lia.

#[local] Open Scope Z_scope.

(** ** Blooms (bloom9.go) *)

Notation BloomByteLength := 256%nat (only parsing).

(** [b.SetBytes(d)]: the bytes before those of [d] stay. *)
Definition Bloom_SetBytes {E} (b d : list Z) : outcome E (list Z) :=
  if (BloomByteLength <? length d)%nat then Panic else Ok (take (BloomByteLength - length d) b ++ d).

Definition BytesToBloom {E} (d : list Z) : outcome E (list Z) := Bloom_SetBytes (replicate BloomByteLength 0) d.

Definition Bloom_Big (b : list Z) : Z := be_val b.

(** ** Receipts (receipt.go) *)

Definition ReceiptStatusFailed : Z := 0.
Definition ReceiptStatusSuccessful : Z := 1.
Definition receiptStatusFailedRLP : list Z := [].
Definition receiptStatusSuccessfulRLP : list Z := [1].

Record Receipt := mkReceipt {
  rc_PostState : list Z;
  rc_Status : Z;
  rc_CumulativeGasUsed : Z;
  rc_Bloom : list Z;
  rc_Logs : list Log;
  rc_TxHash : Hash;
  rc_ContractAddress : Address;
  rc_GasUsed : Z
}.

Definition zeroBloom : list Z := replicate BloomByteLength 0.

Definition NewReceipt (root : list Z) (failed : bool) (cumulativeGasUsed : Z) : Receipt :=
  mkReceipt root (if failed then ReceiptStatusFailed else ReceiptStatusSuccessful) cumulativeGasUsed zeroBloom [] zeroHash zeroAddress 0.

Definition statusEncoding (r : Receipt) : list Z :=
  match rc_PostState r with
  | [] => if rc_Status r =? ReceiptStatusFailed then receiptStatusFailedRLP else receiptStatusSuccessfulRLP
  | root => root
  end.

(** The fields that a status of the wire sets; an error for one that is neither
    a status nor a hash. *)
Definition setStatus (postStateOrStatus : list Z) (r : Receipt) : option Receipt :=
  if decide (postStateOrStatus = receiptStatusSuccessfulRLP) then
    Some (mkReceipt (rc_PostState r) ReceiptStatusSuccessful (rc_CumulativeGasUsed r) (rc_Bloom r) (rc_Logs r) (rc_TxHash r) (rc_ContractAddress r) (rc_GasUsed r))
  else if decide (postStateOrStatus = receiptStatusFailedRLP) then
    Some (mkReceipt (rc_PostState r) ReceiptStatusFailed (rc_CumulativeGasUsed r) (rc_Bloom r) (rc_Logs r) (rc_TxHash r) (rc_ContractAddress r) (rc_GasUsed r))
  else if (length postStateOrStatus =? HashLength)%nat then
    Some (mkReceipt postStateOrStatus (rc_Status r) (rc_CumulativeGasUsed r) (rc_Bloom r) (rc_Logs r) (rc_TxHash r) (rc_ContractAddress r) (rc_GasUsed r))
  else None.

(** [Log.EncodeRLP] and [LogForStorage.EncodeRLP] *)
Definition log_value (l : Log) : value :=
  VStruct [VBytes (log_Address l); VSlice (VBytes <$> log_Topics l); VBytes (log_Data l)].
Definition log_storage_value (l : Log) : value :=
  VStruct [VBytes (log_Address l); VSlice (VBytes <$> log_Topics l); VBytes (log_Data l); VUint (log_BlockNumber l);
           VBytes (log_TxHash l); VUint (log_TxIndex l); VBytes (log_BlockHash l); VUint (log_Index l)].

(** [Receipt.EncodeRLP] and [ReceiptForStorage.EncodeRLP] *)
Definition receipt_value (r : Receipt) : value :=
  VStruct [VBytes (statusEncoding r); VUint (rc_CumulativeGasUsed r); VBytes (rc_Bloom r); VSlice (log_value <$> rc_Logs r)].
Definition receipt_storage_value (r : Receipt) : value :=
  VStruct [VBytes (statusEncoding r); VUint (rc_CumulativeGasUsed r); VBytes (rc_Bloom r); VBytes (rc_TxHash r);
           VBytes (rc_ContractAddress r); VSlice (log_storage_value <$> rc_Logs r); VUint (rc_GasUsed r)].

(** The types the decoders read. *)
Definition log_type : rtype := TStruct [TByteArray 20; TSlice (TByteArray 32); TBytes].
Definition log_storage_type : rtype :=
  TStruct [TByteArray 20; TSlice (TByteArray 32); TBytes; TUint 64; TByteArray 32; TUint 64; TByteArray 32; TUint 64].
Definition receipt_type : rtype := TStruct [TBytes; TUint 64; TByteArray 256; TSlice log_type].
Definition receipt_storage_type : rtype :=
  TStruct [TBytes; TUint 64; TByteArray 256; TByteArray 32; TByteArray 20; TSlice log_storage_type; TUint 64].

Definition bytes_of (v : value) : option (list Z) := match v with VBytes b => Some b | _ => None end.
Definition list_of (v : value) : option (list value) := match v with VSlice l => Some l | _ => None end.
Definition uint_of (v : value) : option Z := match v with VUint i => Some i | _ => None end.

(** [Log.DecodeRLP] sets three fields, [LogForStorage.DecodeRLP] all but
    [Removed]. *)
Definition log_from (v : value) : option Log :=
  match v with
  | VStruct [VBytes a; VSlice ts; VBytes d] => topics ← mapM bytes_of ts; Some (mkLog a topics d 0 zeroHash 0 zeroHash 0 false)
  | _ => None
  end.

Definition log_storage_from (v : value) : option Log :=
  match v with
  | VStruct [VBytes a; VSlice ts; VBytes d; VUint bn; VBytes th; VUint ti; VBytes bh; VUint i] =>
      topics ← mapM bytes_of ts; Some (mkLog a topics d bn th ti bh i false)
  | _ => None
  end.

Definition emptyReceipt : Receipt := mkReceipt [] 0 0 zeroBloom [] zeroHash zeroAddress 0.

(** [Receipt.DecodeRLP] into a fresh receipt, on what the stream decoder read;
    [None] is the error of [setStatus]. *)
Definition receipt_from (v : value) : option Receipt :=
  match v with
  | VStruct [VBytes status; VUint cum; VBytes bloom; VSlice ls] =>
      r ← setStatus status emptyReceipt;
      logs ← mapM log_from ls;
      Some (mkReceipt (rc_PostState r) (rc_Status r) cum bloom logs (rc_TxHash r) (rc_ContractAddress r) (rc_GasUsed r))
  | _ => None
  end.

Definition receipt_storage_from (v : value) : option Receipt :=
  match v with
  | VStruct [VBytes status; VUint cum; VBytes bloom; VBytes th; VBytes ca; VSlice ls; VUint gas] =>
      r ← setStatus status emptyReceipt;
      logs ← mapM log_storage_from ls;
      Some (mkReceipt (rc_PostState r) (rc_Status r) cum bloom logs th ca gas)
  | _ => None
  end.

Inductive receiptError := RlpErr (e : RlpError) | errInvalidStatus.

Definition decode_as (t : rtype) (from : value → option Receipt) (fuel : nat) (b : list Z) : outcome receiptError Receipt :=
  match DecodeBytes fuel b t with
  | Ok v => match from v with Some r => Ok r | None => Err errInvalidStatus end
  | Err e => Err (RlpErr e)
  | Panic => Panic
  end.

Definition DecodeReceipt := decode_as receipt_type receipt_from.
Definition DecodeStoredReceipt := decode_as receipt_storage_type receipt_storage_from.

Section Bloom.
Context `{HK : Keccak}.

(** The bit that the two bytes from [i] on select. *)
Definition bloom_bit (h : list Z) (i : nat) : Z := Z.land (nth (i + 1) h 0 + Z.shiftl (nth i h 0) 8) 2047.

Definition bloom9 (b : list Z) : Z :=
  let h := Keccak256 b in
  foldl (fun r i => Z.lor r (Z.shiftl 1 (bloom_bit h i))) 0 [0; 2; 4]%nat.

Definition Bloom_Add {E} (d : Z) (b : list Z) : outcome E (list Z) :=
  Bloom_SetBytes b (big_Bytes (Z.lor (be_val b) (bloom9 (big_Bytes d)))).

Definition BloomLookup (bin : list Z) (topic : list Z) : bool :=
  let cmp := bloom9 topic in
  Z.land (Bloom_Big bin) cmp =? cmp.

Definition Bloom_Test (b : list Z) (test : Z) : bool := BloomLookup b (big_Bytes test).
Definition Bloom_TestBytes (b : list Z) (test : list Z) : bool := Bloom_Test b (be_val test).

Definition LogsBloom (logs : list Log) : Z :=
  foldl (fun bin l => foldl (fun bin t => Z.lor bin (bloom9 t)) (Z.lor bin (bloom9 (log_Address l))) (log_Topics l)) 0 logs.

Definition CreateBloom {E} (receipts : list Receipt) : outcome E (list Z) :=
  BytesToBloom (big_Bytes (foldl (fun bin r => Z.lor bin (LogsBloom (rc_Logs r))) 0 receipts)).

(** ** Filters (filter.go) *)

Definition includes (addresses : list Address) (a : Address) : bool := existsb (fun addr => bool_decide (addr = a)) addresses.

(** One position of the topics: no alternative stands for any topic. *)
Definition matches (alternatives : list Hash) (topic : Hash) : bool :=
  (length alternatives =? 0)%nat || existsb (fun t => bool_decide (topic = t)) alternatives.

Definition before_block (fromBlock : option Z) (n : Z) : bool :=
  match fromBlock with Some b => (0 <=? big_Int64 b) && (n <? big_Uint64 b) | None => false end.
Definition after_block (toBlock : option Z) (n : Z) : bool :=
  match toBlock with Some b => (0 <=? big_Int64 b) && (big_Uint64 b <? n) | None => false end.

Definition log_passes (fromBlock toBlock : option Z) (addresses : list Address) (topics : list (list Hash)) (l : Log) : bool :=
  if before_block fromBlock (log_BlockNumber l) then false
  else if after_block toBlock (log_BlockNumber l) then false
  else if (0 <? length addresses)%nat && negb (includes addresses (log_Address l)) then false
  else if (length (log_Topics l) <? length topics)%nat then false
  else forallb (fun '(alternatives, topic) => matches alternatives topic) (zip topics (log_Topics l)).

Definition filterLogs (logs : list Log) (fromBlock toBlock : option Z) (addresses : list Address) (topics : list (list Hash)) : list Log :=
  filter (fun l => log_passes fromBlock toBlock addresses topics l = true) logs.

Definition bloomFilter (bloom : list Z) (addresses : list Address) (topics : list (list Hash)) : bool :=
  if (0 <? length addresses)%nat && negb (existsb (BloomLookup bloom) addresses) then false
  else forallb (fun sub => (length sub =? 0)%nat || existsb (BloomLookup bloom) sub) topics.

End Bloom.
