(* ===== verification/ReceiptSpec.v ===== *)
(** * Blooms have no false negatives, and receipts are stored faithfully *)

From S2P Require Import Prelude Types Interfaces Rlp RlpRaw RlpStream RlpDecode HeaderHash Trie State GoMath Receipt.
From stdpp Require Import base tactics option list numbers gmap.
From Stdlib Require Import ZArith Lia.

#[local] Open Scope Z_scope.

(** ** Sets of bits *)

(** Every bit of [y] is one of [x]. *)
Definition covers (x y : Z) : Prop := Z.land x y = y.

Lemma covers_bits x y : covers x y ↔ ∀ i, 0 ≤ i → Z.testbit y i = true → Z.testbit x i = true.
Proof.
  unfold covers. split.
  - intros E i Hi Hy. rewrite <- E, Z.land_spec in Hy. by apply andb_true_iff in Hy as [? _].
  - intros Hb. apply Z.bits_inj'. intros i Hi. rewrite Z.land_spec. destruct (Z.testbit y i) eqn:E; [|apply andb_false_r]. by rewrite Hb.
Qed.

#[export] Instance covers_preorder : PreOrder covers.
Proof. split; [intros x; apply Z.land_diag|]. intros x y z Hxy Hyz. rewrite covers_bits in *. auto. Qed.

Lemma covers_lor_l x y : covers (Z.lor x y) x.
Proof. apply covers_bits. intros i Hi E. by rewrite Z.lor_spec, E. Qed.

Lemma covers_lor_r x y : covers (Z.lor x y) y.
Proof. apply covers_bits. intros i Hi E. by rewrite Z.lor_spec, E, orb_true_r. Qed.

(** A loop that only adds bits. *)
Lemma foldl_grows {A} (f : Z → A → Z) l x : (∀ x a, covers (f x a) x) → covers (foldl f x l) x.
Proof. intros Hf. revert x. induction l as [|a l IH]; intros x; [reflexivity|]. cbn. etransitivity; [apply IH|apply Hf]. Qed.

Lemma foldl_covers {A} (f : Z → A → Z) l x a y : (∀ x a, covers (f x a) x) → (∀ x, covers (f x a) y) → a ∈ l → covers (foldl f x l) y.
Proof.
  intros Hf Hy Ha. revert x. induction l as [|b l IH]; intros x; [set_solver|]. cbn. apply elem_of_cons in Ha as [<-|Ha]; [|by apply IH].
  etransitivity; [by apply foldl_grows|apply Hy].
Qed.

Lemma foldl_range {A} (f : Z → A → Z) l n x : (∀ x a, 0 ≤ x < 2 ^ n → 0 ≤ f x a < 2 ^ n) → 0 ≤ x < 2 ^ n → 0 ≤ foldl f x l < 2 ^ n.
Proof. intros Hf. revert x. induction l as [|a l IH]; intros x Hx; [done|]. cbn. by apply IH, Hf. Qed.

Lemma lor_range x y n : 0 ≤ n → 0 ≤ x < 2 ^ n → 0 ≤ y < 2 ^ n → 0 ≤ Z.lor x y < 2 ^ n.
Proof.
  intros Hn Hx Hy. assert (0 ≤ Z.lor x y) by (apply Z.lor_nonneg; lia). split; [done|].
  destruct (decide (Z.lor x y = 0)) as [->|Hne]; [apply Z.pow_pos_nonneg; lia|]. apply Z.log2_lt_pow2; [lia|].
  assert (0 < n) by (destruct (decide (n = 0)) as [->|]; [assert (x = 0 ∧ y = 0) as [-> ->] by lia; done|lia]).
  assert (∀ z, 0 ≤ z < 2 ^ n → Z.log2 z < n) as Hlog.
  { intros z Hz. destruct (decide (z = 0)) as [->|]; [done|]. apply Z.log2_lt_pow2; lia. }
  rewrite Z.log2_lor by lia. apply Z.max_lub_lt; by apply Hlog.
Qed.

Section Bloom.
Context `{HK : Keccak}.

(** ** Blooms *)

Lemma bloom9_range b : 0 ≤ bloom9 b < 2 ^ 2048.
Proof.
  apply foldl_range; [|lia]. intros x i Hx. apply lor_range; [lia|done|]. unfold bloom_bit. change 2047 with (Z.ones 11). rewrite Z.land_ones by lia.
  set (n := _ mod _). assert (0 ≤ n < 2048) by (apply Z.mod_pos_bound; lia). rewrite Z.shiftl_1_l. split; [apply Z.pow_nonneg; lia|]. apply Z.pow_lt_mono_r; lia.
Qed.

Lemma LogsBloom_range logs : 0 ≤ LogsBloom logs < 2 ^ 2048.
Proof.
  apply foldl_range; [|lia]. intros x l Hx. apply foldl_range.
  - intros y t Hy. apply lor_range; [lia|done|apply bloom9_range].
  - apply lor_range; [lia|done|apply bloom9_range].
Qed.

Lemma LogsBloom_covers logs l b : l ∈ logs → b = log_Address l ∨ b ∈ log_Topics l → covers (LogsBloom logs) (bloom9 b).
Proof.
  intros Hl Hb. apply foldl_covers with (a := l); [| |done].
  - intros x l'. etransitivity; [apply foldl_grows; intros; apply covers_lor_l|apply covers_lor_l].
  - intros x. destruct Hb as [->|Hb].
    + etransitivity; [apply foldl_grows; intros; apply covers_lor_l|apply covers_lor_r].
    + apply foldl_covers with (a := b); [intros; apply covers_lor_l|intros; apply covers_lor_r|done].
Qed.

Definition receipts_bloom (receipts : list Receipt) : Z := foldl (fun bin r => Z.lor bin (LogsBloom (rc_Logs r))) 0 receipts.

Lemma be_val_pad n l : be_val (replicate n 0 ++ l) = be_val l.
Proof. induction n as [|n IH]; [done|]. cbn [replicate app]. rewrite be_val_cons, IH. lia. Qed.

(** The bloom of a block never fails, and its number is the union of the bits of
    the logs. *)
Lemma CreateBloom_spec {E} receipts : ∃ bl, CreateBloom (E := E) receipts = Ok bl ∧ length bl = 256%nat ∧ Bloom_Big bl = receipts_bloom receipts.
Proof.
  assert (0 ≤ receipts_bloom receipts < 256 ^ Z.of_nat 256) as Hr.
  { change (256 ^ Z.of_nat 256) with (2 ^ 2048). apply foldl_range; [|lia]. intros x r Hx. apply lor_range; [lia|done|apply LogsBloom_range]. }
  unfold CreateBloom. fold (receipts_bloom receipts). pose proof (length_big_Bytes _ _ Hr) as Hl. unfold BytesToBloom, Bloom_SetBytes.
  rewrite (proj2 (Nat.ltb_ge 256 _)) by done. eexists. split; [done|]. rewrite take_replicate. split.
  - rewrite length_app, length_replicate. lia.
  - unfold Bloom_Big. rewrite be_val_pad, be_val_big_Bytes, Z.abs_eq; [done|lia].
Qed.

Lemma receipts_bloom_covers receipts r l b : r ∈ receipts → l ∈ rc_Logs r → b = log_Address l ∨ b ∈ log_Topics l → covers (receipts_bloom receipts) (bloom9 b).
Proof.
  intros Hr Hl Hb. apply foldl_covers with (a := r); [intros; apply covers_lor_l| |done]. intros x.
  etransitivity; [apply covers_lor_r|]. by apply (LogsBloom_covers _ l).
Qed.

(** Building the bloom of a block never panics, and the bloom has no false
    negatives: looking up the address or a topic of any log of any of its
    receipts succeeds. *)
Theorem CreateBloom_complete receipts : ∃ bl, CreateBloom (E := Empty_set) receipts = Ok bl ∧ length bl = 256%nat ∧
  ∀ r l b, r ∈ receipts → l ∈ rc_Logs r → b = log_Address l ∨ b ∈ log_Topics l → BloomLookup bl b = true.
Proof.
  destruct (CreateBloom_spec (E := Empty_set) receipts) as (bl & -> & Hlen & Hbig). exists bl. split; [done|]. split; [done|].
  intros r l b Hr Hl Hb. unfold BloomLookup. rewrite Hbig. apply Z.eqb_eq. by apply (receipts_bloom_covers receipts r l b).
Qed.

(** ** Filters *)

Lemma log_passes_spec fromBlock toBlock addresses topics l : log_passes fromBlock toBlock addresses topics l = true →
  (addresses ≠ [] → log_Address l ∈ addresses) ∧ (∀ i sub, topics !! i = Some sub → sub ≠ [] → ∃ t, t ∈ sub ∧ t ∈ log_Topics l).
Proof.
  unfold log_passes. case_match; [done|]. case_match; [done|]. destruct ((0 <? length addresses)%nat && negb (includes addresses (log_Address l))) eqn:Ea; [done|].
  destruct (Nat.ltb_spec (length (log_Topics l)) (length topics)) as [|Hle]; [done|]. intros Hall. split.
  - intros Hne. apply andb_false_iff in Ea as [Ea|Ea]; [apply Nat.ltb_ge in Ea; destruct addresses; [done|cbn in Ea; lia]|].
    apply negb_false_iff, existsb_exists in Ea as (x & Hx & E%bool_decide_eq_true). subst. by apply list_elem_of_In.
  - intros i sub Hi Hsub. rewrite forallb_forall in Hall. destruct (lookup_lt_is_Some_2 (log_Topics l) i) as [t Ht]; [apply lookup_lt_Some in Hi; lia|].
    assert (zip topics (log_Topics l) !! i = Some (sub, t)) as Hz by (by apply lookup_zip_Some).
    specialize (Hall (sub, t)). cbn in Hall. unfold matches in Hall. apply orb_true_iff in Hall; [|apply list_elem_of_In; by eapply list_elem_of_lookup_2].
    destruct Hall as [E%Nat.eqb_eq|E]; [by destruct sub|]. apply existsb_exists in E as (x & Hx & ->%bool_decide_eq_true).
    exists x. split; [by apply list_elem_of_In|]. by eapply list_elem_of_lookup_2.
Qed.

Lemma bloomFilter_finds receipts bl fromBlock toBlock addresses topics : CreateBloom (E := Empty_set) receipts = Ok bl →
  filterLogs (concat (rc_Logs <$> receipts)) fromBlock toBlock addresses topics ≠ [] → bloomFilter bl addresses topics = true.
Proof.
  intros Hbl Hne. destruct (CreateBloom_spec (E := Empty_set) receipts) as (bl' & E & _ & Hbig). rewrite Hbl in E. injection E as <-.
  destruct (filterLogs _ _ _ _ _) as [|l ls] eqn:Ef; [done|]. assert (l ∈ filterLogs (concat (rc_Logs <$> receipts)) fromBlock toBlock addresses topics) as Hl by (rewrite Ef; set_solver).
  unfold filterLogs in Hl. apply list_elem_of_filter in Hl as [Hp Hl]. apply list_elem_of_In, in_concat in Hl as (ll & Hll & Hin).
  apply list_elem_of_In, list_elem_of_fmap in Hll as (r & -> & Hr). apply list_elem_of_In in Hin.
  assert (∀ b, b = log_Address l ∨ b ∈ log_Topics l → BloomLookup bl b = true) as Hlook.
  { intros b Hb. unfold BloomLookup. rewrite Hbig. apply Z.eqb_eq. by apply (receipts_bloom_covers receipts r l b). }
  apply log_passes_spec in Hp as [Ha Ht]. unfold bloomFilter.
  destruct ((0 <? length addresses)%nat && negb (existsb (BloomLookup bl) addresses)) eqn:Ea.
  - apply andb_true_iff in Ea as [En%Nat.ltb_lt Ea]. assert (existsb (BloomLookup bl) addresses = true) as Hx; [|by rewrite Hx in Ea].
    apply existsb_exists. exists (log_Address l). split; [apply list_elem_of_In, Ha; intros ->; cbn in En; lia|]. apply Hlook. by left.
  - apply forallb_forall. intros sub Hs. apply list_elem_of_In, list_elem_of_lookup in Hs as [i Hi]. destruct (decide (sub = [])) as [->|Hsub]; [done|].
    apply orb_true_iff. right. destruct (Ht i sub Hi Hsub) as (t & Hts & Htl). apply existsb_exists. exists t. split; [by apply list_elem_of_In|]. apply Hlook. by right.
Qed.

(** A filter never passes over a block: if one of the logs of the block
    passes the filter, its bloom lets the block through. *)
Theorem bloomFilter_complete receipts bl fromBlock toBlock addresses topics : CreateBloom (E := Empty_set) receipts = Ok bl →
  filterLogs (concat (rc_Logs <$> receipts)) fromBlock toBlock addresses topics ≠ [] → bloomFilter bl addresses topics = true.
Proof. apply bloomFilter_finds. Qed.

End Bloom.

(** ** Storing receipts *)

Record log_ok (l : Log) : Prop := {
  lok_Address : is_array 20 (log_Address l);
  lok_Topics : Forall (is_array 32) (log_Topics l);
  lok_Data : is_bytes (log_Data l);
  lok_BlockNumber : is_u64 (log_BlockNumber l);
  lok_TxHash : is_array 32 (log_TxHash l);
  lok_TxIndex : is_u64 (log_TxIndex l);
  lok_BlockHash : is_array 32 (log_BlockHash l);
  lok_Index : is_u64 (log_Index l)
}.

(** A receipt of either kind, as [NewReceipt] makes them: with a state root or
    without, and always with a status. *)
Record receipt_ok (r : Receipt) : Prop := {
  rok_PostState : rc_PostState r = [] ∨ is_array 32 (rc_PostState r);
  rok_Status : rc_Status r = ReceiptStatusFailed ∨ rc_Status r = ReceiptStatusSuccessful;
  rok_CumulativeGasUsed : is_u64 (rc_CumulativeGasUsed r);
  rok_Bloom : is_array 256 (rc_Bloom r);
  rok_Logs : Forall log_ok (rc_Logs r);
  rok_TxHash : is_array 32 (rc_TxHash r);
  rok_ContractAddress : is_array 20 (rc_ContractAddress r);
  rok_GasUsed : is_u64 (rc_GasUsed r)
}.

(** What storage keeps of a log and of a receipt: a log's [Removed] mark is not
    written, and of a receipt with a state root the status is not. *)
Definition stored_log (l : Log) : Log :=
  mkLog (log_Address l) (log_Topics l) (log_Data l) (log_BlockNumber l) (log_TxHash l) (log_TxIndex l) (log_BlockHash l) (log_Index l) false.

Definition stored_receipt (r : Receipt) : Receipt :=
  mkReceipt (rc_PostState r) (if decide (rc_PostState r = []) then rc_Status r else ReceiptStatusFailed) (rc_CumulativeGasUsed r)
    (rc_Bloom r) (stored_log <$> rc_Logs r) (rc_TxHash r) (rc_ContractAddress r) (rc_GasUsed r).

Lemma has_type_topics l : Forall (is_array 32) l → has_type (TSlice (TByteArray 32)) (VSlice (VBytes <$> l)).
Proof. intros Hl. apply ht_slice, Forall_fmap. eapply Forall_impl; [done|]. intros b Hb. by apply has_type_array. Qed.

Ltac typed := apply ht_struct; repeat first [apply Forall2_cons_2|apply Forall2_nil_2];
  first [by apply has_type_array|by apply has_type_u64|by apply has_type_topics|by apply ht_bytes|idtac].

Lemma log_storage_typed l : log_ok l → has_type log_storage_type (log_storage_value l).
Proof. intros []. typed. Qed.

Lemma statusEncoding_bytes r : receipt_ok r → is_bytes (statusEncoding r).
Proof.
  intros []. unfold statusEncoding. destruct rok_PostState0 as [->|[_ Hb]].
  - case_match; repeat constructor; unfold is_byte; lia.
  - destruct (rc_PostState r); [|done]. case_match; repeat constructor; unfold is_byte; lia.
Qed.

Lemma receipt_storage_typed r : receipt_ok r → has_type receipt_storage_type (receipt_storage_value r).
Proof.
  intros Hr. pose proof (statusEncoding_bytes r Hr). destruct Hr. typed.
  apply ht_slice, Forall_fmap. eapply Forall_impl; [done|]. intros l Hl. by apply log_storage_typed.
Qed.

Lemma receipt_storage_type_ok : rtype_ok receipt_storage_type.
Proof. cbn. unfold uint_bits, two64. repeat split; lia. Qed.

(** The root comes back, or else the status. *)
Lemma setStatus_encoding r r0 : receipt_ok r → rc_PostState r0 = [] → rc_Status r0 = 0 →
  ∃ r1, setStatus (statusEncoding r) r0 = Some r1 ∧ rc_PostState r1 = rc_PostState r ∧ rc_Status r1 = rc_Status (stored_receipt r).
Proof.
  intros [Hp Hs _ _ _ _ _ _] Hp0 Hs0. unfold setStatus, statusEncoding, stored_receipt. cbn [rc_Status].
  destruct Hp as [->|[Hl _]]; [destruct Hs as [-> | ->]; cbn; by eexists|].
  destruct (rc_PostState r) as [|x root] eqn:E; [done|]. rewrite decide_False by (intros Ex; rewrite Ex in Hl; done).
  rewrite decide_False by done. rewrite Hl. cbn. eexists. split; [done|]. split; [done|]. by rewrite ?decide_False, Hs0 by done.
Qed.

Lemma topics_back l : mapM bytes_of (VBytes <$> l) = Some l.
Proof. apply mapM_fmap_Some. done. Qed.

Lemma log_back x : log_storage_from (log_storage_value x) = Some (stored_log x).
Proof. unfold log_storage_value, log_storage_from. cbv beta iota. by rewrite topics_back. Qed.

Lemma logs_back l : mapM log_storage_from (log_storage_value <$> l) = Some (stored_log <$> l).
Proof. apply mapM_Some, Forall2_fmap_l, Forall2_fmap_r, Forall_Forall2_diag, Forall_true, log_back. Qed.

(** C33. What storage keeps of a receipt: every receipt with well-formed fields is
    encoded without error, and decoding the bytes gives it back, its logs with
    their positions and the fields that are not part of the consensus encoding
    included, with two exceptions: the [Removed] marks of the logs are cleared,
    and a receipt with a state root comes back with the status "failed",
    whatever its status was. *)
Theorem stored_receipt_roundtrip r : receipt_ok r → (∀ b, enc_value (receipt_storage_value r) = Some b → strlen b < two64) →
  ∃ b, EncodeToBytes (receipt_storage_value r) = Ok b ∧
    DecodeStoredReceipt (S (tsize receipt_storage_type + length b)) b = Ok (stored_receipt r).
Proof.
  intros Hr Hlen. destruct (encode_decode _ _ receipt_storage_type_ok (receipt_storage_typed r Hr) Hlen) as (b & Eb & Ed).
  exists b. split; [done|]. unfold DecodeStoredReceipt, decode_as. rewrite Ed. unfold receipt_storage_from, receipt_storage_value. cbv beta iota.
  destruct (setStatus_encoding r emptyReceipt Hr eq_refl eq_refl) as (r1 & -> & Hp & Hs). cbn [mbind option_bind].
  rewrite logs_back. cbn. by rewrite Hp, Hs.
Qed.
