(* ===== verification/Block.v ===== *)
(** * Blocks
    (src/kernel/types/block.go, derive_sha.go, src/kernel/block_validator.go)

    A block is a header with the transactions and uncles that its hashes
    commit to.  [DeriveSha] builds a trie of the elements of a list under the
    encodings of their positions and takes its root; it is given the database
    of the empty trie, which it never asks.  The total difficulty, the size and
    the reception data of a block are left out. *)

From S2P Require Import Prelude Types Interfaces Rlp HeaderHash TrieNode Trie State Tx Receipt.
From stdpp Require Import base tactics option list numbers gmap.
From Stdlib Require Import ZArith Lia.

#[local] Open Scope Z_scope.

(** ** The gas limit of the next block *)

Module limits.
Definition GasLimitBoundDivisor : Z := 1024.
Definition MinGasLimit : Z := 5000.
Definition GenesisGasLimit : Z := 4712388.
End limits.

(** [TargetGasLimit] is a variable that the command line sets. *)
Definition CalcGasLimit (target : Z) (parent : Header) : Z :=
  let contrib := ((hdr_GasUsed parent + hdr_GasUsed parent / 2)%u64 / limits.GasLimitBoundDivisor) in
  let decay := (hdr_GasLimit parent / limits.GasLimitBoundDivisor - 1)%u64 in
  let limit := (((hdr_GasLimit parent - decay)%u64 + contrib)%u64) in
  let limit := if limit <? limits.MinGasLimit then limits.MinGasLimit else limit in
  if limit <? target then
    let limit := (hdr_GasLimit parent + decay)%u64 in
    if target <? limit then target else limit
  else limit.

Section Block.
Context `{HK : Keccak, HD : Database}.

(** ** The root of a list *)

Definition index_key (i : Z) : list Z := rlp_written (VUint i).

(** [trie.Update], which only reports an error. *)
Definition Update (db : TrieDB) (key value : list Z) (t : Trie) : pan Trie :=
  match TryUpdate db key value t with
  | (_, Panic) => Panic
  | (t, _) => Ok t
  end.

(** The list is given by what [GetRlp] does for each element. *)
Fixpoint derive_loop (db : TrieDB) (i : Z) (rlps : list (pan (list Z))) (t : Trie) : pan Trie :=
  match rlps with
  | [] => Ok t
  | rlp :: rlps => rlp ← rlp; t ← Update db (index_key i) rlp t; derive_loop db (i + 1) rlps t
  end.

Definition DeriveSha (db : TrieDB) (rlps : list (pan (list Z))) : pan Hash :=
  t ← derive_loop db 0 rlps (mkTrie NilNode zeroHash 0 0);
  '(_, h) ← never_err (Trie_Hash t);
  Ok h.

(** [Transactions.GetRlp] drops an error, [Receipts.GetRlp] panics. *)
Definition transactions_GetRlp (tx : Transaction) : pan (list Z) :=
  match EncodeToBytes (tx_value (tx_data tx)) with Ok b => Ok b | Err _ => Ok [] | Panic => Panic end.
Definition receipts_GetRlp (r : Receipt) : pan (list Z) := never_err (EncodeToBytes (receipt_value r)).

(** ** Blocks *)

Record Block := mkBlock {
  blk_header : Header;
  blk_uncles : list Header;
  blk_transactions : list Transaction;
  blk_hash : option Hash
}.

Record Body := mkBody { bd_Transactions : list Transaction; bd_Uncles : list Header }.

Definition EmptyRootHash : Hash := emptyRoot.
Definition EmptyUncleHash : Hash := CalcUncleHash [].

Definition set_TxHash (x : Hash) (h : Header) : Header :=
  mkHeader (hdr_ParentHash h) (hdr_UncleHash h) (hdr_Coinbase h) (hdr_Root h) x (hdr_ReceiptHash h) (hdr_Bloom h) (hdr_Difficulty h)
    (hdr_Number h) (hdr_GasLimit h) (hdr_GasUsed h) (hdr_TimeMS h) (hdr_Extra h) (hdr_MixDigest h) (hdr_Nonce h).
Definition set_Receipts (x : Hash) (b : list Z) (h : Header) : Header :=
  mkHeader (hdr_ParentHash h) (hdr_UncleHash h) (hdr_Coinbase h) (hdr_Root h) (hdr_TxHash h) x b (hdr_Difficulty h)
    (hdr_Number h) (hdr_GasLimit h) (hdr_GasUsed h) (hdr_TimeMS h) (hdr_Extra h) (hdr_MixDigest h) (hdr_Nonce h).
Definition set_UncleHash (x : Hash) (h : Header) : Header :=
  mkHeader (hdr_ParentHash h) x (hdr_Coinbase h) (hdr_Root h) (hdr_TxHash h) (hdr_ReceiptHash h) (hdr_Bloom h) (hdr_Difficulty h)
    (hdr_Number h) (hdr_GasLimit h) (hdr_GasUsed h) (hdr_TimeMS h) (hdr_Extra h) (hdr_MixDigest h) (hdr_Nonce h).
Definition set_hdrRoot (x : Hash) (h : Header) : Header :=
  mkHeader (hdr_ParentHash h) (hdr_UncleHash h) (hdr_Coinbase h) x (hdr_TxHash h) (hdr_ReceiptHash h) (hdr_Bloom h) (hdr_Difficulty h)
    (hdr_Number h) (hdr_GasLimit h) (hdr_GasUsed h) (hdr_TimeMS h) (hdr_Extra h) (hdr_MixDigest h) (hdr_Nonce h).

Definition NewBlock (db : TrieDB) (header : Header) (txs : list Transaction) (uncles : list Header) (receipts : list Receipt) : pan Block :=
  let h := CopyHeader header in
  h ← match txs with
      | [] => Ok (set_TxHash EmptyRootHash h)
      | _ => r ← DeriveSha db (transactions_GetRlp <$> txs); Ok (set_TxHash r h)
      end;
  h ← match receipts with
      | [] => Ok (set_Receipts EmptyRootHash (hdr_Bloom h) h)
      | _ => r ← DeriveSha db (receipts_GetRlp <$> receipts); bl ← CreateBloom receipts; Ok (set_Receipts r bl h)
      end;
  let h := match uncles with [] => set_UncleHash EmptyUncleHash h | _ => set_UncleHash (CalcUncleHash uncles) h end in
  Ok (mkBlock h (CopyHeader <$> uncles) txs None).

Definition NewBlockWithHeader (header : Header) : Block := mkBlock (CopyHeader header) [] [] None.

Definition WithSeal (header : Header) (b : Block) : Block := mkBlock header (blk_uncles b) (blk_transactions b) None.

Definition WithBody (transactions : list Transaction) (uncles : list Header) (b : Block) : Block :=
  mkBlock (CopyHeader (blk_header b)) (CopyHeader <$> uncles) transactions None.

(** [Block.Hash], with the value kept. *)
Definition Block_Hash (b : Block) : Block * Hash :=
  match blk_hash b with
  | Some h => (b, h)
  | None => let v := Header_Hash (blk_header b) in (mkBlock (blk_header b) (blk_uncles b) (blk_transactions b) (Some v), v)
  end.

Definition Block_Header (b : Block) : Header := CopyHeader (blk_header b).
Definition Block_Body (b : Block) : Body := mkBody (blk_transactions b) (blk_uncles b).

(** [NumberU64]: the number of a header is never nil in a block that was
    decoded or made by [NewBlock]. *)
Definition NumberU64 {E} (b : Block) : outcome E Z := n ← deref (hdr_Number (blk_header b)); Ok (big_Uint64 n).

(** [Block.Transaction]: the first transaction with the hash, and the block
    with the hashes computed on the way. *)
Fixpoint find_transaction (hash : Hash) (txs : list Transaction) : list Transaction * option Transaction :=
  match txs with
  | [] => ([], None)
  | tx :: txs =>
      let '(tx, h) := Transaction_Hash tx in
      if bool_decide (h = hash) then (tx :: txs, Some tx)
      else let '(txs, r) := find_transaction hash txs in (tx :: txs, r)
  end.

Definition Block_Transaction (hash : Hash) (b : Block) : Block * option Transaction :=
  let '(txs, r) := find_transaction hash (blk_transactions b) in
  (mkBlock (blk_header b) (blk_uncles b) txs (blk_hash b), r).

(** ** Validation *)

Inductive blockError :=
  | ErrKnownBlock
  | ErrUnknownAncestor
  | ErrPrunedAncestor
  | errUncles
  | errUncleRoot
  | errTransactionRoot
  | errGasUsed
  | errBloom
  | errReceiptRoot
  | errMerkleRoot.

(** What the chain knows of blocks and their states. *)
Record chainView := mkChainView {
  HasBlockAndState : Hash → Z → bool;
  HasBlock : Hash → Z → bool
}.

Definition reject {E} (b : bool) (e : E) : outcome E unit := if b then Err e else Ok tt.

(** The pure computations do not fail with an error. *)
Definition from_nothing {E A} (r : pan A) : outcome E A := match r with Ok a => Ok a | Err e => match e with end | Panic => Panic end.

(** [VerifyUncles] is a method of the engine. *)
Definition ValidateBody (db : TrieDB) (bc : chainView) (verifyUncles : Block → bool) (b : Block) : outcome blockError unit :=
  let '(b, hash) := Block_Hash b in
  number ← NumberU64 b;
  _ ← reject (HasBlockAndState bc hash number) ErrKnownBlock;
  let parent := hdr_ParentHash (blk_header b) in
  _ ← reject (negb (HasBlockAndState bc parent (number - 1)%u64))
        (if HasBlock bc parent (number - 1)%u64 then ErrPrunedAncestor else ErrUnknownAncestor);
  let header := Block_Header b in
  _ ← reject (negb (verifyUncles b)) errUncles;
  _ ← reject (negb (bool_decide (CalcUncleHash (blk_uncles b) = hdr_UncleHash header))) errUncleRoot;
  hash ← from_nothing (DeriveSha db (transactions_GetRlp <$> blk_transactions b));
  reject (negb (bool_decide (hash = hdr_TxHash header))) errTransactionRoot.

(** [IntermediateRoot] is that of the state, with the flag for empty
    accounts applied. *)
Definition ValidateState {S} (db : TrieDB) (IntermediateRoot : S → pan (S * Hash)) (b : Block) (statedb : S) (receipts : list Receipt) (usedGas : Z) :
    outcome blockError S :=
  let header := Block_Header b in
  _ ← reject (negb (hdr_GasUsed (blk_header b) =? usedGas)) errGasUsed;
  rbloom ← from_nothing (CreateBloom receipts);
  _ ← reject (negb (bool_decide (rbloom = hdr_Bloom header))) errBloom;
  receiptSha ← from_nothing (DeriveSha db (receipts_GetRlp <$> receipts));
  _ ← reject (negb (bool_decide (receiptSha = hdr_ReceiptHash header))) errReceiptRoot;
  '(statedb, root) ← from_nothing (IntermediateRoot statedb);
  _ ← reject (negb (bool_decide (hdr_Root header = root))) errMerkleRoot;
  Ok statedb.

End Block.
