(* ===== verification/BlockSpec.v ===== *)
(** * Blocks: what their hashes commit to *)

From S2P Require Import Prelude Types Interfaces Rlp RlpRaw RlpStream RlpDecode HeaderHash TrieEncoding TrieNode Trie TrieSpec TrieHash TrieMap State StateRevert StateRoot Tx TxSpec Receipt ReceiptSpec Block.
From stdpp Require Import base tactics option list numbers gmap.
From Stdlib Require Import ZArith Lia.

#[local] Open Scope Z_scope.

(** ** The gas limit *)

(** The limit that [CalcGasLimit] proposes is one that the rule for headers
    allows: it differs from that of the parent by less than a 1024th of it, and
    is at least 5000.  Below the target it takes the largest step, and above the
    target it grows only when about two thirds of the gas were used. *)
Theorem CalcGasLimit_bounds target parent : 5120 ≤ hdr_GasLimit parent < 2 ^ 62 → 0 ≤ hdr_GasUsed parent ≤ hdr_GasLimit parent → 0 ≤ target →
  let limit := CalcGasLimit target parent in
  Z.abs (limit - hdr_GasLimit parent) < hdr_GasLimit parent / limits.GasLimitBoundDivisor ∧ limits.MinGasLimit ≤ limit ∧
  (limit < target → limit = hdr_GasLimit parent + hdr_GasLimit parent / limits.GasLimitBoundDivisor - 1) ∧
  (hdr_GasLimit parent < limit → limit ≤ target ∨ hdr_GasLimit parent * 2 / 3 ≤ hdr_GasUsed parent + 2048).
Proof.
  unfold CalcGasLimit, limits.MinGasLimit, limits.GasLimitBoundDivisor. intros Hl Hu Ht.
  cbv zeta. set (g := hdr_GasLimit parent) in *. set (u := hdr_GasUsed parent) in *.
  assert (0 ≤ u / 2 ≤ u ∧ 5 ≤ g / 1024 < g ∧ 1024 * (g / 1024) ≤ g) as (Hu2 & Hg & Hg') by (Z.to_euclidean_division_equations; lia).
  assert (0 ≤ (u + u / 2) / 1024 ≤ 2 * (g / 1024) - 2) as Hc by (Z.to_euclidean_division_equations; lia).
  rewrite (u64_small (u + _)) by (unfold is_u64, two64; lia). rewrite (u64_small (g / 1024 - 1)) by (unfold is_u64, two64; lia).
  rewrite (u64_small (g - _)) by (unfold is_u64, two64; lia). rewrite (u64_small (g - _ + _)) by (unfold is_u64, two64; lia).
  rewrite (u64_small (g + _)) by (unfold is_u64, two64; lia).
  assert (g * 2 / 3 ≤ u + 2048 ∨ (u + u / 2) / 1024 < g / 1024 - 1) by (Z.to_euclidean_division_equations; lia).
  destruct (Z.ltb_spec (g - (g / 1024 - 1) + (u + u / 2) / 1024) 5000); [lia|]. repeat match goal with |- context [?x <? ?y] => destruct (Z.ltb_spec x y) end; lia.
Qed.

(** ** The root of a list *)

Section Derive.
Context `{HK : Keccak, HD : Database, !KeccakLaws, !EmptyRootLaw}.

(** The map that [DeriveSha] builds. *)
Fixpoint indexed (i : Z) (l : list (list Z)) (m : gmap (list Z) (list Z)) : gmap (list Z) (list Z) :=
  match l with [] => m | v :: l => indexed (i + 1) l (<[index_key i := v]> m) end.

Lemma index_key_enc i : is_u64 i → index_key i = enc_string (big_Bytes i) ∧ key_ok (index_key i).
Proof.
  intros Hi. pose proof (length_big_Bytes i 8 Hi) as Hl. pose proof (enc_string_length_le (big_Bytes i) ltac:(unfold two64; lia)) as He.
  assert (index_key i = enc_string (big_Bytes i)) as E.
  { unfold index_key. apply rlp_written_enc; [exact Hi|done|]. unfold two64 in *. lia. }
  split; [done|]. rewrite E. split; [apply enc_string_bytes; [apply big_Bytes_bytes|unfold two64; lia]|].
  unfold keybytesToHex. rewrite length_app, length_hex. cbn [length]. unfold maxItem. lia.
Qed.

Lemma index_key_inj i j : is_u64 i → is_u64 j → index_key i = index_key j → i = j.
Proof.
  intros Hi Hj E. destruct (index_key_enc i Hi) as [Ei Hk], (index_key_enc j Hj) as [Ej _].
  assert (VUint i = VUint j) as [= ->]; [|done].
  eapply (enc_value_inj (TUint 64)); [cbn; unfold uint_bits; lia|by apply has_type_u64..|cbn; done| |].
  - cbn. by rewrite <- Ej, <- E, Ei.
  - pose proof (length_big_Bytes i 8 Hi). pose proof (enc_string_length_le (big_Bytes i) ltac:(unfold two64; lia)). unfold two64. lia.
Qed.

Lemma indexed_lookup l : ∀ i m j, 0 ≤ i → i + strlen l ≤ two64 → is_u64 j →
  indexed i l m !! index_key j = if (i <=? j) && (j <? i + strlen l) then l !! Z.to_nat (j - i) else m !! index_key j.
Proof.
  induction l as [|v l IH]; intros i m j Hi Hl Hj; cbn [indexed length] in *.
  { by destruct (Z.leb_spec i j), (Z.ltb_spec j (i + Z.of_nat 0)); try lia. }
  rewrite IH by (done || lia).
  destruct (Z.leb_spec (i + 1) j), (Z.ltb_spec j (i + 1 + strlen l)), (Z.leb_spec i j), (Z.ltb_spec j (i + Z.of_nat (S (length l)))); cbn [andb]; try lia.
  - replace (Z.to_nat (j - i)) with (S (Z.to_nat (j - (i + 1)))) by lia. done.
  - rewrite lookup_insert_ne; [done|]. intros ?%index_key_inj; [lia|unfold is_u64; lia|done].
  - assert (j = i) as -> by lia. rewrite lookup_insert_eq, Z.sub_diag. done.
  - rewrite lookup_insert_ne; [done|]. intros ?%index_key_inj; [lia|unfold is_u64; lia|done].
Qed.

Lemma indexed_inj l1 l2 : strlen l1 < two64 → strlen l2 < two64 → indexed 0 l1 ∅ = indexed 0 l2 ∅ → l1 = l2.
Proof.
  intros H1 H2 E. apply list_eq. intros i. destruct (decide (Z.of_nat i < two64)) as [Hi|Hi].
  - assert (∀ l, strlen l < two64 → l !! i = indexed 0 l ∅ !! index_key (Z.of_nat i)) as Hl; [|by rewrite !Hl, E].
    intros l Hl. rewrite indexed_lookup by (unfold is_u64; lia). rewrite Z.sub_0_r, Nat2Z.id.
    destruct (Z.leb_spec 0 (Z.of_nat i)), (Z.ltb_spec (Z.of_nat i) (0 + strlen l)); cbn [andb]; try lia; [done|].
    rewrite lookup_empty. apply lookup_ge_None_2. lia.
  - rewrite !lookup_ge_None_2 by lia. done.
Qed.

Lemma derive_loop_ok db l : ∀ i t m, trie_ok db t m → Forall val_ok l → 0 ≤ i → i + strlen l ≤ two64 →
  ∃ t', derive_loop db i (Ok <$> l) t = Ok t' ∧ trie_ok db t' (indexed i l m).
Proof.
  induction l as [|v l IH]; intros i t m Ht Hv Hi Hl; cbn [fmap list_fmap derive_loop indexed length] in *; [by exists t|].
  apply Forall_cons_iff in Hv as [(Hne & Hb & Hs) Hv]. rewrite bind_Ok. unfold Update.
  destruct (TryUpdate_ok db t m (index_key i) v Ht (proj2 (index_key_enc i ltac:(unfold is_u64; lia))) Hb Hs) as (t1 & -> & Ht1).
  rewrite bind_Ok, decide_False in * by done. apply IH; [done|done|lia|lia].
Qed.

Lemma empty_trie_ok db : trie_ok db (mkTrie NilNode zeroHash 0 0) ∅.
Proof.
  split; [apply map_Forall_empty|]. exists TNil. split_and!; [apply rep_nil|by left|].
  intros k v. split; [inversion 1|]. by intros (? & _ & ?%lookup_empty_Some).
Qed.

(** The root of a list does not panic and is the root of its map. *)
Lemma DeriveSha_root db l : Forall val_ok l → strlen l < two64 →
  ∃ r, DeriveSha db (Ok <$> l) = Ok r ∧ root_of (indexed 0 l ∅) r ∧ map_ok (indexed 0 l ∅).
Proof.
  intros Hv Hl. unfold DeriveSha. destruct (derive_loop_ok db l 0 _ ∅ (empty_trie_ok db) Hv ltac:(lia) ltac:(lia)) as (t & -> & Ht).
  rewrite bind_Ok. destruct (Trie_Hash_ok _ empty_only_collision_free db t _ Ht) as (t' & r & -> & _ & Hr).
  exists r. split; [done|]. split; [done|apply Ht].
Qed.

Lemma DeriveSha_inj B db1 db2 l1 l2 : collision_free B → Forall val_ok l1 → Forall val_ok l2 → strlen l1 < two64 → strlen l2 < two64 →
  map_in B (indexed 0 l1 ∅) → map_in B (indexed 0 l2 ∅) → DeriveSha db1 (Ok <$> l1) = DeriveSha db2 (Ok <$> l2) → l1 = l2.
Proof.
  intros HB V1 V2 L1 L2 M1 M2. destruct (DeriveSha_root db1 l1 V1 L1) as (r1 & -> & R1 & K1), (DeriveSha_root db2 l2 V2 L2) as (r2 & -> & R2 & K2).
  intros [= <-]. apply indexed_inj; [done|done|]. by apply (root_binds B HB _ _ r1).
Qed.

End Derive.

(** ** Bodies *)

(** Whole transactions. *)
Record whole_tx_ok (d : txdata) : Prop := {
  wt_unsigned : tx_ok d;
  wt_V : 0 ≤ tx_V d;
  wt_R : 0 ≤ tx_R d;
  wt_S : 0 ≤ tx_S d;
  wt_short : ∀ b, enc_value (tx_value d) = Some b → strlen b < maxItem
}.

Definition tx_strings (d : txdata) : list (list Z) :=
  signed_strings HomesteadSigner d ++ [big_Bytes (tx_V d); big_Bytes (tx_R d); big_Bytes (tx_S d)].

Lemma tx_strings_bytes d : tx_ok d → Forall is_bytes (tx_strings d).
Proof.
  intros Hd. apply Forall_app. split; [by apply signed_strings_bytes|].
  repeat first [apply Forall_cons_2|apply Forall_nil_2]; apply big_Bytes_bytes.
Qed.

Lemma tx_enc d : whole_tx_ok d → enc_value (tx_value d) = enc_value (VSlice (VBytes <$> tx_strings d)).
Proof.
  intros [[] HV HR HS _]. cbn [enc_value tx_value]. f_equal. apply concat_opt_map. unfold tx_strings, signed_strings, unsigned_values.
  repeat (cbn; first [apply Forall2_cons_2|apply Forall2_nil_2]); try done; try (by apply enc_big). by destruct (Recipient d).
Qed.

Lemma tx_value_ok d : whole_tx_ok d → value_ok (tx_value d).
Proof. intros [[] HV HR HS _]. cbn. destruct (Recipient d); cbn; unfold is_array in *; unfold is_u64 in *; naive_solver. Qed.

Lemma tx_strings_inj d1 d2 : whole_tx_ok d1 → whole_tx_ok d2 → tx_strings d1 = tx_strings d2 → d1 = d2.
Proof.
  intros [O1 V1 R1 S1 _] [O2 V2 R2 S2 _] E. apply app_inj_1 in E as [Eu Es]; [|done].
  destruct (signed_strings_inj HomesteadSigner HomesteadSigner d1 d2 I I O1 O2 Eu) as [Hu _].
  injection Es as EV ER ES. apply big_Bytes_inj in EV, ER, ES; [|done..].
  unfold unsigned in Hu. destruct d1, d2. cbn in *. by simplify_eq.
Qed.

(** The encoding of a transaction, as [GetRlp] gives it. *)
Definition tx_bytes (tx : Transaction) : list Z := default [] (enc_value (tx_value (tx_data tx))).

Lemma transactions_GetRlp_ok tx : whole_tx_ok (tx_data tx) →
  transactions_GetRlp tx = Ok (tx_bytes tx) ∧ val_ok (tx_bytes tx) ∧ enc_value (tx_value (tx_data tx)) = Some (tx_bytes tx).
Proof.
  intros Hd. destruct (strings_encodable _ (tx_strings_bytes _ (wt_unsigned _ Hd))) as (b & Eb & Hb). rewrite <- tx_enc in Eb by done.
  pose proof (wt_short _ Hd b Eb) as Hs. unfold tx_bytes, transactions_GetRlp. rewrite Eb. change (default [] (Some b)) with b.
  assert (strlen b < two64) as H64 by (unfold maxItem, two64 in *; lia).
  rewrite (proj1 (Encode_spec _ b (tx_value_ok _ Hd) Eb H64)). split; [done|]. split; [|done]. split_and!; [|by apply Hb|done].
  intros ->. cbn [enc_value tx_value] in Eb. apply enc_list_some in Eb as (c & _ & Ec). pose proof (enc_list_pos c) as Hp. by rewrite <- Ec in Hp.
Qed.

Lemma tx_bytes_inj tx1 tx2 : whole_tx_ok (tx_data tx1) → whole_tx_ok (tx_data tx2) → tx_bytes tx1 = tx_bytes tx2 → tx_data tx1 = tx_data tx2.
Proof.
  intros H1 H2 E. destruct (transactions_GetRlp_ok tx1 H1) as (_ & (_ & _ & Hs) & E1), (transactions_GetRlp_ok tx2 H2) as (_ & _ & E2). rewrite <- E in E2.
  rewrite tx_enc in E1, E2 by done. apply tx_strings_inj; [done|done|].
  eapply strings_enc_inj; [apply tx_strings_bytes, H1|apply tx_strings_bytes, H2|done|done|unfold maxItem, two64 in *; lia].
Qed.

(** ** What the hash of a block commits to *)

Section Binding.
Context `{HK : Keccak, HD : Database, !KeccakLaws, !EmptyRootLaw}.

(** A well-formed block, and the byte strings that are hashed for it: its
    header, its uncles and the nodes of the trie of its transactions. *)
Record block_ok (B : list Z → Prop) (b : Block) : Prop := {
  bo_header : header_ok (blk_header b);
  bo_short : header_short (blk_header b);
  bo_hashed : B (rlp_written (header_value (blk_header b)));
  bo_uncles : Forall header_ok (blk_uncles b);
  bo_uncles_short : ∀ e, enc_value (VSlice (header_value <$> blk_uncles b)) = Some e → strlen e < two64;
  bo_uncles_hashed : B (rlp_written (VSlice (header_value <$> blk_uncles b)));
  bo_txs : Forall (fun tx => whole_tx_ok (tx_data tx)) (blk_transactions b);
  bo_txs_few : strlen (blk_transactions b) < two64;
  bo_txs_hashed : map_in B (indexed 0 (tx_bytes <$> blk_transactions b) ∅);
  bo_cache : ∀ h, blk_hash b = Some h → h = Header_Hash (blk_header b)
}.

Lemma Block_Hash_value b : (∀ h, blk_hash b = Some h → h = Header_Hash (blk_header b)) → (Block_Hash b).2 = Header_Hash (blk_header b).
Proof. intros Hc. unfold Block_Hash. destruct (blk_hash b) eqn:E; [by apply Hc|done]. Qed.

Lemma CopyHeader_idemp h : CopyHeader (CopyHeader h) = CopyHeader h.
Proof. done. Qed.

Lemma uncles_enc l : concat_opt enc_value (header_value <$> l) = concat_opt enc_value ((fun h => header_value (CopyHeader h)) <$> l).
Proof.
  apply concat_opt_map. induction l as [|h l IH]; cbn; [by apply Forall2_nil_2|]. apply Forall2_cons_2; [|done]. by rewrite enc_CopyHeader.
Qed.

Lemma uncles_ok l : Forall header_ok l →
  value_ok (VSlice (header_value <$> l)) ∧ has_type (TSlice header_type) (VSlice ((fun h => header_value (CopyHeader h)) <$> l)).
Proof.
  intros Hl. split.
  - cbn. induction Hl as [|h l Hh Hl IH]; [done|]. split; [by apply header_value_ok|done].
  - apply ht_slice, Forall_fmap. eapply Forall_impl; [exact Hl|]. intros h Hh. by apply header_has_type.
Qed.

Lemma uncles_written l : Forall header_ok l → (∀ e, enc_value (VSlice (header_value <$> l)) = Some e → strlen e < two64) →
  enc_value (VSlice ((fun h => header_value (CopyHeader h)) <$> l)) = Some (rlp_written (VSlice (header_value <$> l))) ∧
  strlen (rlp_written (VSlice (header_value <$> l))) < two64.
Proof.
  intros Hl Hs. destruct (uncles_ok l Hl) as [Hv Ht]. destruct (typed_encodable _ (TSlice header_type) header_type_ok Ht) as (_ & e & He & _).
  assert (enc_value (VSlice (header_value <$> l)) = Some e) as He' by (rewrite <- He; cbn [enc_value]; by rewrite uncles_enc).
  rewrite (rlp_written_enc _ e Hv He' (Hs e He')). auto.
Qed.

Lemma CalcUncleHash_inj B l1 l2 : collision_free B → Forall header_ok l1 → Forall header_ok l2 →
  (∀ e, enc_value (VSlice (header_value <$> l1)) = Some e → strlen e < two64) →
  (∀ e, enc_value (VSlice (header_value <$> l2)) = Some e → strlen e < two64) →
  B (rlp_written (VSlice (header_value <$> l1))) → B (rlp_written (VSlice (header_value <$> l2))) →
  CalcUncleHash l1 = CalcUncleHash l2 → CopyHeader <$> l1 = CopyHeader <$> l2.
Proof.
  intros HB O1 O2 S1 S2 B1 B2 E. apply (cf_inj B HB) in E; [|done..].
  destruct (uncles_written l1 O1 S1) as [E1 L1], (uncles_written l2 O2 S2) as [E2 _]. rewrite <- E in E2.
  pose proof (enc_value_inj (TSlice header_type) _ _ _ header_type_ok (proj2 (uncles_ok l1 O1)) (proj2 (uncles_ok l2 O2)) E1 E2 L1) as Ev.
  injection Ev as El. assert (Inj (=) (=) header_value) by (intros ??; apply header_value_inj).
  apply (inj (fmap header_value)). by rewrite <- !list_fmap_compose.
Qed.

Lemma transactions_rlps l : Forall (fun tx => whole_tx_ok (tx_data tx)) l →
  transactions_GetRlp <$> l = Ok <$> (tx_bytes <$> l) ∧ Forall val_ok (tx_bytes <$> l).
Proof.
  induction 1 as [|tx l Htx _ [IH1 IH2]]; [done|]. destruct (transactions_GetRlp_ok tx Htx) as (E & Hv & _). cbn. rewrite E, IH1. split; [done|by apply Forall_cons_2].
Qed.

Lemma reject_Ok {E A} b (e : E) (f : unit → outcome E A) x : reject b e ≫= f = Ok x → b = false ∧ f tt = Ok x.
Proof. by destruct b. Qed.

Lemma from_nothing_Ok {E A C} (r : pan A) (f : A → outcome E C) x : from_nothing r ≫= f = Ok x → ∃ a, r = Ok a ∧ f a = Ok x.
Proof. destruct r as [a|[]|]; [|done]. intros Hf. by exists a. Qed.

(** What the checks on a body establish. *)
Lemma ValidateBody_commits db bc vu b : Forall (fun tx => whole_tx_ok (tx_data tx)) (blk_transactions b) → ValidateBody db bc vu b = Ok tt →
  CalcUncleHash (blk_uncles b) = hdr_UncleHash (blk_header b) ∧
  DeriveSha db (Ok <$> (tx_bytes <$> blk_transactions b)) = Ok (hdr_TxHash (blk_header b)).
Proof.
  intros Htx. unfold ValidateBody. destruct (Block_Hash b) as [b' hash] eqn:Eb.
  assert (blk_header b' = blk_header b ∧ blk_uncles b' = blk_uncles b ∧ blk_transactions b' = blk_transactions b) as (Eh & Eu & Et).
  { unfold Block_Hash in Eb. destruct (blk_hash b); by simplify_eq. }
  unfold NumberU64, Block_Header. rewrite Eh, Eu, Et, (proj1 (transactions_rlps _ Htx)). destruct (deref _) as [n| |]; [|done..].
  rewrite !bind_Ok. intros [_ [_ [_ [Hu Hr]%reject_Ok]%reject_Ok]%reject_Ok]%reject_Ok.
  apply negb_false_iff, bool_decide_eq_true in Hu. apply from_nothing_Ok in Hr as (r & -> & Hr).
  unfold reject in Hr. case_bool_decide as E; [|done]. by rewrite E.
Qed.

(** C12. The hash of a block commits to all of it: of two blocks whose bodies
    were validated, equal hashes mean equal headers, equal transactions in the
    same order and equal uncles, unless Keccak-256 collides on something that
    was hashed for them.  A node that knows the hash of a block accepts no
    other body for it, whoever sends it. *)
Theorem ValidateBody_binds B db1 db2 bc1 bc2 vu1 vu2 b1 b2 : collision_free B → block_ok B b1 → block_ok B b2 →
  ValidateBody db1 bc1 vu1 b1 = Ok tt → ValidateBody db2 bc2 vu2 b2 = Ok tt → (Block_Hash b1).2 = (Block_Hash b2).2 →
  CopyHeader (blk_header b1) = CopyHeader (blk_header b2) ∧
  tx_data <$> blk_transactions b1 = tx_data <$> blk_transactions b2 ∧
  CopyHeader <$> blk_uncles b1 = CopyHeader <$> blk_uncles b2.
Proof.
  intros HB [] [] V1 V2 E. rewrite !Block_Hash_value in E by done. apply (cf_inj B HB) in E; [|done..].
  apply header_written_inj in E; [|done..]. split; [done|].
  apply ValidateBody_commits in V1 as [U1 T1], V2 as [U2 T2]; [|done..].
  assert (hdr_UncleHash (blk_header b1) = hdr_UncleHash (blk_header b2)) as Eu by exact (f_equal hdr_UncleHash E).
  assert (hdr_TxHash (blk_header b1) = hdr_TxHash (blk_header b2)) as Et by exact (f_equal hdr_TxHash E).
  split; [|apply (CalcUncleHash_inj B); try done; congruence].
  assert (tx_bytes <$> blk_transactions b1 = tx_bytes <$> blk_transactions b2) as Eb.
  { apply (DeriveSha_inj B db1 db2); try done; try (by apply transactions_rlps); try (by rewrite length_fmap); congruence. }
  clear - Eb bo_txs0 bo_txs1. revert Eb. generalize dependent (blk_transactions b2).
  induction bo_txs0 as [|x l1 Hx _ IH]; intros [|y l2] Hl2 Eb; try discriminate Eb; [done|]. cbn in Eb |- *. injection Eb as Ex El.
  apply Forall_cons_iff in Hl2 as [Hy Hl2]. f_equal; [by apply tx_bytes_inj|by apply IH].
Qed.

End Binding.
