(* ===== verification/VmThrift.v ===== *)
(** * Gas is never created

    Whatever state the virtual machine works on, and whatever code it runs, the
    gas that comes back from a run is at most the gas that went in.  Nothing is
    asked of the state but that its refund counter, a [uint64] in the code, is
    not negative.  [xframe R] says that all that a computation changes is in
    [R]; an instruction may give back the gas that its cost function has set
    aside for it ([reserve]). *)

From S2P Require Import Prelude Types Interfaces Rlp Trie State GoMath Vm VmExec VmPrecompiled Evm VmGas VmInstr VmTable VmRun.
From stdpp Require Import base tactics option list numbers gmap.
From Stdlib Require Import ZArith Lia.

#[local] Open Scope Z_scope.

Create HintDb thrift.

(** ** What is asked of the state *)

Definition keeps {S} (P : S → Prop) (f : S → pan S) : Prop := ∀ s s', P s → f s = Ok s' → P s'.
Definition keeps_on {S A} (P : S → Prop) (f : S → pan (S * A)) : Prop := ∀ s s' a, P s → f s = Ok (s', a) → P s'.

Class RefundLaws (HS : StateOps) := {
  refund_ok : st → Prop;
  refund_nonneg s : refund_ok s → 0 ≤ st_GetRefund s;
  keeps_CreateAccount a : keeps refund_ok (st_CreateAccount a);
  keeps_SubBalance a z : keeps refund_ok (st_SubBalance a z);
  keeps_AddBalance a z : keeps refund_ok (st_AddBalance a z);
  keeps_GetBalance a : keeps_on refund_ok (st_GetBalance a);
  keeps_GetNonce a : keeps_on refund_ok (st_GetNonce a);
  keeps_SetNonce a n : keeps refund_ok (st_SetNonce a n);
  keeps_GetCodeHash a : keeps_on refund_ok (st_GetCodeHash a);
  keeps_GetCode a : keeps_on refund_ok (st_GetCode a);
  keeps_SetCode a c : keeps refund_ok (st_SetCode a c);
  keeps_GetCodeSize a : keeps_on refund_ok (st_GetCodeSize a);
  keeps_AddRefund g : keeps refund_ok (st_AddRefund g);
  keeps_GetState a k : keeps_on refund_ok (st_GetState a k);
  keeps_SetState a k v : keeps refund_ok (st_SetState a k v);
  keeps_Suicide a : keeps_on refund_ok (st_Suicide a);
  keeps_HasSuicided a : keeps_on refund_ok (st_HasSuicided a);
  keeps_Exist a : keeps_on refund_ok (st_Exist a);
  keeps_Empty a : keeps_on refund_ok (st_Empty a);
  keeps_RevertToSnapshot id : keeps refund_ok (st_RevertToSnapshot id);
  keeps_Snapshot s : refund_ok s → refund_ok (st_Snapshot s).1;
  keeps_AddLog l : keeps refund_ok (st_AddLog l);
  keeps_AddPreimage h p : keeps refund_ok (st_AddPreimage h p)
}.

#[export] Hint Resolve keeps_CreateAccount keeps_SubBalance keeps_AddBalance keeps_GetBalance keeps_GetNonce keeps_SetNonce
  keeps_GetCodeHash keeps_GetCode keeps_SetCode keeps_GetCodeSize keeps_AddRefund keeps_GetState keeps_SetState keeps_Suicide
  keeps_HasSuicided keeps_Exist keeps_Empty keeps_RevertToSnapshot keeps_AddLog keeps_AddPreimage : thrift.

Lemma from_pan_Ok {A} (r : pan A) a : from_pan r = Ok a → r = Ok a.
Proof. by destruct r as [| []|]; cbn; intros [= <-]. Qed.

Section Thrift.
Context `{HK : Keccak, HP : EvmCrypto, HS : StateOps, HR : !RefundLaws HS} (en : Env).

(** ** Computations on the state of the machine *)

(** The counter stays right, and the result is in [Q]. *)
Definition e_sound {A} (x : evmM A) (Q : A → Prop) : Prop :=
  ∀ e e' a, refund_ok (e_db e) → x e = Ok (e', a) → refund_ok (e_db e') ∧ Q a.

Notation e_calm x := (e_sound x (fun _ => True)).

Lemma e_sound_ret {A} (a : A) (Q : A → Prop) : Q a → e_sound (mret a) Q.
Proof. intros Ha e e' a' He [= <- <-]. done. Qed.

Lemma e_sound_bind {A B} (x : evmM A) (f : A → evmM B) P Q : e_sound x P → (∀ a, P a → e_sound (f a) Q) → e_sound (x ≫= f) Q.
Proof.
  intros Hx Hf e e' b He. unfold mbind, evmM_mbind. destruct (x e) as [[e1 a]| |] eqn:E1; cbn; try done. intros E2.
  destruct (Hx _ _ _ He E1) as [He1 Ha]. by apply (Hf a Ha e1).
Qed.

Lemma e_sound_mono {A} (x : evmM A) (P Q : A → Prop) : (∀ a, P a → Q a) → e_sound x P → e_sound x Q.
Proof. intros HPQ Hx e e' a He E. destruct (Hx _ _ _ He E). auto. Qed.

Lemma e_sound_gets {A} (f : evmState → A) : e_calm (e_gets f).
Proof. intros e e' a He [= <- <-]. done. Qed.

Lemma e_sound_lift {A} (r : vmres A) (Q : A → Prop) : (∀ a, r = Ok a → Q a) → e_sound (e_lift r) Q.
Proof. intros Hr e e' a He (a1 & E & [= <- <-])%bind_ok. auto. Qed.

Lemma e_sound_modify f : (∀ e, e_db (f e) = e_db e) → e_calm (e_modify f).
Proof. intros Hf e e' a He [= <- <-]. by rewrite Hf. Qed.

Lemma e_sound_do f : keeps refund_ok f → e_calm (db_do f).
Proof. intros Hf e e' a He (d & E%from_pan_Ok & [= <- <-])%bind_ok. split; [|done]. by eapply Hf. Qed.

Lemma e_sound_read {A} (f : st → pan (st * A)) : keeps_on refund_ok f → e_calm (db_read f).
Proof. intros Hf e e' a He ([d a1] & E%from_pan_Ok & [= <- <-])%bind_ok. split; [|done]. by eapply Hf. Qed.

Lemma e_sound_snapshot : e_calm take_snapshot.
Proof.
  intros e e' a He. unfold take_snapshot. pose proof (keeps_Snapshot _ He) as Hs. destruct (st_Snapshot (e_db e)). by intros [= <- <-].
Qed.

#[local] Hint Resolve e_sound_ret e_sound_gets e_sound_modify e_sound_do e_sound_read e_sound_snapshot : thrift.

(** A step whose result does not matter. *)
Lemma e_sound_step {A B} (x : evmM A) (f : A → evmM B) Q : e_calm x → (∀ a, e_sound (f a) Q) → e_sound (x ≫= f) Q.
Proof. intros Hx Hf. eapply e_sound_bind; [done|]. auto. Qed.

Ltac calm := first [by auto with thrift | apply e_sound_step; [calm|intros; calm] | case_match; calm].
Ltac skip := apply e_sound_step; [calm|intros].

(** ** Contracts *)

Lemma UseGas_bounds gas c : 0 ≤ gas → is_u64 (c_Gas c) → 0 ≤ c_Gas (UseGas gas c).1 ≤ c_Gas c.
Proof.
  intros Hg Hc. unfold UseGas. destruct (Z.ltb_spec (c_Gas c) gas); cbn; [unfold is_u64 in Hc; lia|].
  rewrite u64_small; unfold is_u64 in *; lia.
Qed.

Lemma UseGas_paid gas c c' : 0 ≤ gas → is_u64 (c_Gas c) → UseGas gas c = (c', true) → 0 ≤ c_Gas c' ∧ c_Gas c' + gas = c_Gas c.
Proof.
  intros Hg Hc. unfold UseGas. destruct (Z.ltb_spec (c_Gas c) gas); [done|]. intros [= <-]. cbn. rewrite u64_small; unfold is_u64 in *; lia.
Qed.

Definition no_more (c : Contract) (r : Contract * option (list Z) * option vmError) : Prop := 0 ≤ c_Gas r.1.1 ≤ c_Gas c.

(** A runner that creates no gas. *)
Definition thrifty (interp : runner) : Prop := ∀ c input, is_u64 (c_Gas c) → e_sound (interp c input) (no_more c).

Lemma RequiredGas_nonneg a p input gas : precompiles en a = Some p → p_RequiredGas p input = Ok gas → 0 ≤ gas.
Proof.
  intros Hp. assert (∀ z, 0 ≤ u64 z) as Hu by (intros z; apply u64_range). assert (∀ z, 0 ≤ big_Uint64 z) as Hb by (intros z; apply big_Uint64_range).
  unfold precompiles, PrecompiledContractsByzantium, PrecompiledContractsHomestead in Hp.
  destruct (en_Byzantium en); repeat (destruct (decide (a = _)) as [_|_]; [injection Hp as <-; cbn [p_RequiredGas]|]);
    try discriminate Hp; try (intros [= <-]; first [apply Hu|discriminate]).
  intros (b & _ & (e & _ & (m & _ & (h & _ & [= <-])%bind_ok)%bind_ok)%bind_ok)%bind_ok. case_match; [done|apply Hb].
Qed.

Lemma run_thrifty interp : thrifty interp → thrifty (run en interp).
Proof.
  intros Hi c input Hc. unfold run. destruct (c_CodeAddr c ≫= precompiles en) as [p|] eqn:Ep; [|by apply Hi].
  destruct (c_CodeAddr c) as [a|]; [cbn in Ep|done]. apply e_sound_lift. intros r (gas & Eg & E)%bind_ok.
  pose proof (UseGas_bounds gas c (RequiredGas_nonneg a p input gas Ep Eg) Hc) as Hb. unfold no_more.
  destruct (UseGas gas c) as [c' [|]]; cbn in Hb.
  - apply bind_ok in E as ([ret err] & _ & [= <-]). done.
  - by injection E as <-.
Qed.

(** ** Calls *)

Definition gas_left (gas : Z) (r : callResult) : Prop := 0 ≤ r_gas r ≤ gas.

Lemma early_sound caller gas err gas' : 0 ≤ gas ≤ gas' → e_sound (early caller gas err) (gas_left gas').
Proof. intros Hg. by apply e_sound_ret. Qed.

Lemma settle_sound snapshot c r : is_u64 (c_Gas c) → no_more c r → e_sound (settle snapshot r) (gas_left (c_Gas c)).
Proof.
  destruct r as [[c' ret] err]. unfold no_more, settle. cbn. intros Hc Hg. destruct err as [err|]; [|by apply e_sound_ret].
  skip. apply e_sound_ret. unfold gas_left. cbn. case_decide; [done|].
  pose proof (UseGas_bounds (c_Gas c') c'). unfold is_u64 in *. lia.
Qed.

Lemma load_code_sound addr c : e_sound (load_code addr c) (fun c' => c_Gas c' = c_Gas c).
Proof. unfold load_code. do 2 skip. by apply e_sound_ret. Qed.

(** The end of every call: load the code, run it, settle. *)
Lemma load_run_settle interp addr c input snapshot gas : thrifty interp → is_u64 gas → c_Gas c = gas →
  e_sound (contract ← load_code addr c; r ← run en interp contract input; settle snapshot r) (gas_left gas).
Proof.
  intros Hi Hg Hc. eapply e_sound_bind; [apply load_code_sound|]. intros c' Hc'. cbn in Hc'. rewrite Hc in Hc'.
  eapply e_sound_bind; [apply run_thrifty; [done|by rewrite Hc']|]. intros r Hr. rewrite <- Hc'. apply settle_sound; [by rewrite Hc'|done].
Qed.

Lemma CanTransfer_calm a z : e_calm (CanTransfer a z).
Proof. unfold CanTransfer. calm. Qed.
Lemma Transfer_calm a b z : e_calm (Transfer a b z).
Proof. unfold Transfer. calm. Qed.

#[local] Hint Resolve CanTransfer_calm Transfer_calm : thrift.

Section Calls.
Context (interp : runner) (Hi : thrifty interp) (gas : Z) (Hg : is_u64 gas).

#[local] Hint Extern 1 (e_sound (early _ _ _) _) => apply early_sound; unfold is_u64 in *; lia : thrift.

Lemma Call_thrifty caller addr input value : e_sound (Call en interp caller addr input gas value) (gas_left gas).
Proof.
  unfold Call. skip. case_match; [calm|]. case_match; [calm|]. skip. case_match; [calm|]. do 2 skip. case_match; [calm|].
  do 2 skip. by apply load_run_settle.
Qed.

Lemma CallCode_thrifty caller addr input value : e_sound (CallCode en interp caller addr input gas value) (gas_left gas).
Proof.
  unfold CallCode. skip. case_match; [calm|]. case_match; [calm|]. skip. case_match; [calm|]. skip. by apply load_run_settle.
Qed.

Lemma DelegateCall_thrifty caller addr input : e_sound (DelegateCall en interp caller addr input gas) (gas_left gas).
Proof.
  unfold DelegateCall. skip. case_match; [calm|]. case_match; [calm|]. skip.
  eapply e_sound_bind with (P := fun c => c_Gas c = gas); [|intros; by apply load_run_settle].
  apply e_sound_lift. intros c. unfold AsDelegate. destruct caller; [done|]. by intros [= <-].
Qed.

Lemma StaticCall_thrifty caller addr input : e_sound (StaticCall en interp caller addr input gas) (gas_left gas).
Proof.
  unfold StaticCall. skip. case_match; [calm|]. case_match; [calm|]. skip. skip. skip.
  eapply e_sound_bind; [apply load_code_sound|]. intros c Hc. cbn in Hc.
  eapply e_sound_bind; [apply run_thrifty; [done|by rewrite Hc]|]. intros r Hr.
  eapply e_sound_bind; [apply settle_sound; [by rewrite Hc|done]|]. intros res Hres. rewrite Hc in Hres.
  apply e_sound_step; [apply e_sound_modify; intros ?; by case_match|]. intros _. by apply e_sound_ret.
Qed.

Lemma finish_create_thrifty snapshot addr c r : is_u64 (c_Gas c) → no_more c r →
  e_sound (finish_create en snapshot addr r) (fun ra => gas_left (c_Gas c) ra.1).
Proof.
  destruct r as [[c1 ret] err]. intros Hc H1. unfold no_more in H1. cbn in H1. unfold finish_create. cbv zeta.
  assert (is_u64 (c_Gas c1)) as Hc1 by (unfold is_u64 in *; lia).
  eapply e_sound_bind with (P := fun ce => 0 ≤ c_Gas ce.1 ≤ c_Gas c).
  - destruct err as [err|]; [by apply e_sound_ret|]. case_match; [|by apply e_sound_ret].
    match goal with |- context [UseGas ?z c1] => pose proof (UseGas_bounds z c1 ltac:(apply u64_range) Hc1) as Hb; destruct (UseGas z c1) as [c2 [|]] end;
      cbn in Hb; [skip|]; apply e_sound_ret; cbn; lia.
  - intros [c2 err2] H2. cbn in H2. assert (is_u64 (c_Gas c2)) as Hc2 by (unfold is_u64 in *; lia).
    eapply e_sound_bind with (P := fun c' => 0 ≤ c_Gas c' ≤ c_Gas c); [|intros; by apply e_sound_ret].
    case_match; [skip|]; apply e_sound_ret; [|done]. case_decide; [done|]. pose proof (UseGas_bounds (c_Gas c2) c2 ltac:(lia) Hc2). lia.
Qed.

Lemma Create_thrifty caller code value : e_sound (Create en interp caller code gas value) (fun ra => gas_left gas ra.1).
Proof.
  assert (∀ g err (a : Address), 0 ≤ g ≤ gas → e_sound (r ← early caller g err; mret (r, a)) (fun ra : callResult * Address => gas_left gas ra.1)) as Hearly.
  { intros g err a Hle. eapply (e_sound_bind _ _ (gas_left gas)); [by apply early_sound|]. intros r Hr. by apply e_sound_ret. }
  unfold is_u64 in Hg. unfold Create. skip. case_match; [apply Hearly; lia|]. skip. case_match; [apply Hearly; lia|].
  do 4 skip. case_match; [apply Hearly; lia|]. do 4 skip. case_match; [apply Hearly; lia|].
  eapply e_sound_bind; [by apply run_thrifty|]. intros r Hr. eapply finish_create_thrifty in Hr; done.
Qed.

End Calls.

(** ** Computations on the machine *)

Definition gas_of (m : machine) : Z := c_Gas (x_contract m).
Definition temp_of (m : machine) : Z := e_callGasTemp (x_evm m).
Definition good (m : machine) : Prop := refund_ok (e_db (x_evm m)).

(** The gas of the contract and the gas set aside for a call stay. *)
Definition still (m m' : machine) : Prop := gas_of m' = gas_of m ∧ temp_of m' = temp_of m ∧ (good m → good m').

(** The contract and the stack stay. *)
Definition same (m m' : machine) : Prop := x_contract m' = x_contract m ∧ x_stack m' = x_stack m ∧ (good m → good m').

#[export] Instance still_preorder : PreOrder still.
Proof. split; [done|]. intros m1 m2 m3 (? & ? & ?) (? & ? & ?). split_and!; [congruence..|auto]. Qed.
#[export] Instance same_preorder : PreOrder same.
Proof. split; [done|]. intros m1 m2 m3 (? & ? & ?) (? & ? & ?). split_and!; [congruence..|auto]. Qed.

Definition xframe {A} (R : machine → machine → Prop) (x : exec A) : Prop := ∀ m m' r, x m = Ok (m', r) → R m m'.

Section Frame.
Context (R : machine → machine → Prop) `{!PreOrder R}.

Lemma frame_ret {A} (a : A) : xframe R (mret a).
Proof. by intros m m' r [= <- _]. Qed.

Lemma frame_throw {A} e : xframe R (throw (A := A) e).
Proof. by intros m m' r [= <- _]. Qed.

Lemma frame_bind {A B} (x : exec A) (f : A → exec B) : xframe R x → (∀ a, xframe R (f a)) → xframe R (x ≫= f).
Proof.
  intros Hx Hf m m' r. unfold mbind, exec_mbind. destruct (x m) as [[m1 [a|e]]| |] eqn:E1; cbn; try done.
  - intros E2. transitivity m1; [by eapply Hx|by eapply Hf].
  - intros [= <- _]. by eapply Hx.
Qed.

Lemma frame_gets {A} (f : machine → A) : xframe R (x_gets f).
Proof. by intros m m' r [= <- _]. Qed.

Lemma frame_lift {A} (v : vmres A) : xframe R (x_lift v).
Proof. intros m m' r (a & _ & [= <- _])%bind_ok. done. Qed.

Lemma frame_Back n : xframe R (Back n).
Proof. intros m m' r (a & _ & [= <- _])%bind_ok. done. Qed.

Lemma frame_get_mem {A} (f : Memory → vmres A) : xframe R (get_mem f).
Proof. intros m m' r (a & _ & [= <- _])%bind_ok. done. Qed.

End Frame.

#[local] Hint Resolve frame_ret frame_throw frame_gets frame_lift frame_Back frame_get_mem : thrift.

Lemma still_pop : xframe still pop.
Proof. intros m m' r. unfold pop. destruct (x_stack m); [done|]. by intros [= <- _]. Qed.
Lemma still_push x : xframe still (push x).
Proof. by intros m m' r [= <- _]. Qed.
Lemma still_on_stack f : xframe still (on_stack f).
Proof. intros m m' r (a & _ & [= <- _])%bind_ok. done. Qed.
Lemma still_on_mem f : xframe still (on_mem f).
Proof. intros m m' r (a & _ & [= <- _])%bind_ok. done. Qed.
Lemma still_set_pc pc : xframe still (set_pc pc).
Proof. by intros m m' r [= <- _]. Qed.
Lemma still_jump_has d : xframe still (jump_has d).
Proof. intros m m' r ([d' b] & _ & [= <- _])%bind_ok. done. Qed.

Lemma still_do f : keeps refund_ok f → xframe still (x_do f).
Proof.
  intros Hf m m' r. unfold x_do, on_evm, db_do. destruct (f (e_db (x_evm m))) as [d|[]|] eqn:E; cbn; [|done]. intros [= <- _].
  split_and!; [done|done|]. intros Hg. by eapply Hf.
Qed.
Lemma still_read {A} (f : st → pan (st * A)) : keeps_on refund_ok f → xframe still (x_read f).
Proof.
  intros Hf m m' r. unfold x_read, on_evm, db_read. destruct (f (e_db (x_evm m))) as [[d a]|[]|] eqn:E; cbn; [|done]. intros [= <- _].
  split_and!; [done|done|]. intros Hg. by eapply Hf.
Qed.
Lemma same_do f : keeps refund_ok f → xframe same (x_do f).
Proof.
  intros Hf m m' r. unfold x_do, on_evm, db_do. destruct (f (e_db (x_evm m))) as [d|[]|] eqn:E; cbn; [|done]. intros [= <- _].
  split_and!; [done|done|]. intros Hg. by eapply Hf.
Qed.
Lemma same_read {A} (f : st → pan (st * A)) : keeps_on refund_ok f → xframe same (x_read f).
Proof.
  intros Hf m m' r. unfold x_read, on_evm, db_read. destruct (f (e_db (x_evm m))) as [[d a]|[]|] eqn:E; cbn; [|done]. intros [= <- _].
  split_and!; [done|done|]. intros Hg. by eapply Hf.
Qed.
Lemma same_set_temp g : xframe same (on_evm (e_modify (set_callGasTemp g))).
Proof. by intros m m' r [= <- _]. Qed.
Lemma same_memoryGasCost n : xframe same (memoryGasCost n).
Proof. intros m m' r. unfold memoryGasCost. cbv zeta. repeat case_match; by intros [= <- _]. Qed.

#[local] Hint Resolve still_pop still_push still_on_stack still_on_mem still_set_pc still_jump_has still_do still_read
  same_do same_read same_set_temp same_memoryGasCost : thrift.

(** A computation written with the steps above; the head of a definition is
    unfolded when nothing else applies. *)
Ltac frames := first
  [ by auto with thrift typeclass_instances
  | apply (frame_bind _); [frames|intros; frames]
  | case_match; frames
  | match goal with |- xframe _ ?x => let h := head x in unfold h; cbv zeta; frames end
  | match goal with |- xframe _ (?h _ _) => unfold h; cbv zeta; frames end ]
with head t := lazymatch t with ?f _ => head f | _ => t end.

Lemma still_pop_topics n : xframe still (pop_topics n).
Proof. induction n; cbn; frames. Qed.

#[local] Hint Resolve still_pop_topics : thrift.

(** What the result is. *)
Definition yields {A} (x : exec A) (Q : A → Prop) : Prop := ∀ m m' a, x m = Ok (m', inl a) → Q a.
Notation costs x := (yields x (fun c => 0 ≤ c)).

Lemma yields_ret {A} (a : A) (Q : A → Prop) : Q a → yields (mret a) Q.
Proof. intros Ha m m' a' [= _ <-]. done. Qed.

Lemma yields_bind {A B} (x : exec A) (f : A → exec B) P Q : yields x P → (∀ a, P a → yields (f a) Q) → yields (x ≫= f) Q.
Proof.
  intros Hx Hf m m' b. unfold mbind, exec_mbind. destruct (x m) as [[m1 [a|e]]| |] eqn:E; cbn; try done. apply Hf. by eapply Hx.
Qed.

Lemma yields_after {A B} (x : exec A) (f : A → exec B) Q : (∀ a, yields (f a) Q) → yields (x ≫= f) Q.
Proof. intros Hf. by eapply (yields_bind _ _ (fun _ => True)). Qed.

Lemma costs_safe_add x y : costs (safe_add x y).
Proof. unfold safe_add, math.SafeAdd. apply yields_after. intros _. apply yields_ret, u64_range. Qed.

Lemma costs_memory n : costs (memoryGasCost n).
Proof. intros m m' c. unfold memoryGasCost. cbv zeta. repeat case_match; intros [= _ <-]; [done|apply u64_range|done]. Qed.

Lemma gasTable_known : en_gasTable en = params.GasTableHomestead ∨ en_gasTable en = params.GasTableEIP150 ∨ en_gasTable en = params.GasTableEIP158.
Proof. unfold en_gasTable, params.ChainConfig_GasTable. repeat case_match; auto. Qed.

Ltac nonneg := first [done | apply u64_range | destruct gasTable_known as [->|[->| ->]]; done].
Ltac costs := first
  [ apply costs_safe_add | apply costs_memory | apply yields_ret; nonneg
  | apply yields_after; intros; costs | case_match; costs
  | match goal with |- yields ?x _ => let h := head x in unfold h; cbv zeta; costs end ].

Lemma costs_suicide n : costs (gasSuicide en n).
Proof.
  unfold gasSuicide. apply yields_after. intros c. eapply yields_bind with (P := fun g => 0 ≤ g); [cbv zeta; costs|].
  intros g Hg. apply yields_after. intros gone. apply yields_after. intros _. by apply yields_ret.
Qed.

(** ** Instructions *)

Definition reserves : Type := Z → Stack → Z.

(** The cost covers what is set aside. *)
Definition sets_aside (reserve : reserves) (g : gasFunc) : Prop := ∀ n m m' r, g n m = Ok (m', r) →
  same m m' ∧ ∀ cost, r = inl cost → 0 ≤ reserve (temp_of m') (x_stack m) ≤ cost.

(** The execution gives back no more. *)
Definition spends (reserve : reserves) (x : executionFunc) : Prop := ∀ m m' r,
  good m → 0 ≤ gas_of m → 0 ≤ reserve (temp_of m) (x_stack m) → gas_of m + reserve (temp_of m) (x_stack m) < two64 →
  x m = Ok (m', r) → good m' ∧ 0 ≤ gas_of m' ≤ gas_of m + reserve (temp_of m) (x_stack m).

Definition op_thrifty (o : operation) : Prop := ∃ reserve, sets_aside reserve (gasCost o) ∧ spends reserve (execute o).

Definition nothing : reserves := fun _ _ => 0.

Lemma nothing_aside g : (∀ n, xframe same (g n)) → (∀ n, costs (g n)) → sets_aside nothing g.
Proof.
  intros Hs Hc n m m' r E. split; [by eapply Hs|]. intros cost ->. split; [done|]. by eapply Hc.
Qed.

Lemma still_spends x : xframe still x → spends nothing x.
Proof. intros Hx m m' r Hg H0 _ _ E. destruct (Hx _ _ _ E) as (-> & _ & Hg'). unfold nothing. split; [auto|lia]. Qed.

Lemma ordinary o : xframe still (execute o) → (∀ n, xframe same (gasCost o n)) → (∀ n, costs (gasCost o n)) → op_thrifty o.
Proof. intros He Hs Hc. exists nothing. split; [by apply nothing_aside|by apply still_spends]. Qed.

Definition table_thrifty (t : list (Z * operation)) : Prop := Forall (fun no => op_thrifty no.2) t.

#[local] Hint Resolve costs_suicide : thrift.

Ltac entry := apply ordinary; cbn [snd execute gasCost mkOp halting jumping writing reverting returning]; [frames|intros; frames|intros; first [by auto with thrift|costs]].

Lemma arithmetic_thrifty : table_thrifty (frontierArithmetic en).
Proof. repeat (apply List.Forall_cons; [entry|]). apply List.Forall_nil. Qed.

Lemma environment_thrifty : table_thrifty (frontierEnvironment en).
Proof. repeat (apply List.Forall_cons; [entry|]). apply List.Forall_nil. Qed.

Lemma flow_thrifty : table_thrifty (frontierFlow en).
Proof. repeat (apply List.Forall_cons; [entry|]). apply List.Forall_nil. Qed.

Lemma numbered_thrifty (f : nat → Z * operation) l : (∀ n, op_thrifty (f n).2) → table_thrifty (f <$> l).
Proof. intros Hf. induction l; by constructor. Qed.

Lemma numbered_frames : table_thrifty frontierPush ∧ table_thrifty frontierDup ∧ table_thrifty frontierSwap.
Proof. split_and!; apply numbered_thrifty; intros n; cbn [snd]; entry. Qed.

(** ** Calls among the instructions *)

Lemma bind_inv {A B} (x : exec A) (f : A → exec B) m m' r : (x ≫= f) m = Ok (m', r) →
  ∃ m1 y, x m = Ok (m1, y) ∧ match y with inl a => f a m1 = Ok (m', r) | inr e => m' = m1 ∧ r = inr e end.
Proof.
  unfold mbind, exec_mbind. destruct (x m) as [[m1 [a|e]]| |]; cbn; try done; intros E; exists m1; [by exists (inl a)|].
  exists (inr e). by injection E as <- <-.
Qed.

Lemma call_result_gas off size r m m' x : call_result off size r m = Ok (m', x) → (good m → good m') ∧ gas_of m' = u64 (gas_of m + r_gas r).
Proof.
  unfold call_result. intros (m1 & y1 & [= <- <-] & (m2 & y2 & E2 & E3)%bind_inv)%bind_inv. set (m1 := set_xstack _ m) in *.
  assert (still m1 m2 ∧ y2 = inl tt) as [Hs ->].
  { destruct (bool_decide _ || _); [apply bind_ok in E2 as (a & _ & E2)|]; by injection E2 as <- <-. }
  apply bind_inv in E3 as (m3 & y3 & [= <- <-] & [= <- _]). destruct Hs as (Hg & _ & Hgood). split; [by intros H%Hgood|].
  unfold gas_of in *. cbn. by rewrite Hg.
Qed.

(** What [CALL] and [CALLCODE] set aside: the gas for the callee, with the
    stipend for a call that transfers a value. *)
Definition call_reserve : reserves := fun temp s =>
  match s with _ :: _ :: value :: _ => temp + (if math.U256 value =? 0 then 0 else params.CallStipend) | _ => temp end.
Definition temp_reserve : reserves := fun temp _ => temp.

Section Ops.
Context (interp : runner) (Hi : thrifty interp).

(** The end of the four call instructions. *)
Lemma call_spends off size m m' x gas (call : evmM callResult) : good m → 0 ≤ gas_of m → gas_of m + gas < two64 →
  e_sound call (gas_left gas) → (r ← on_evm call; call_result off size r) m = Ok (m', x) → good m' ∧ 0 ≤ gas_of m' ≤ gas_of m + gas.
Proof.
  intros Hg H0 Hb Hcall (m1 & y & E1 & E2)%bind_inv. unfold on_evm in E1. apply bind_ok in E1 as ([e' res] & Ec & [= <- <-]).
  destruct (Hcall _ _ _ Hg Ec) as [Hgood [Hl Hu]]. destruct (call_result_gas _ _ _ _ _ _ E2) as [Hg' ->]. split; [by apply Hg'|].
  change (gas_of (set_xevm e' m)) with (gas_of m). rewrite u64_small; unfold is_u64; lia.
Qed.

(** The operands of a call. *)
Lemma pop_bind {B} (f : Z → exec B) m m' r : (x ← pop; f x) m = Ok (m', r) → ∃ x s, x_stack m = x :: s ∧ f x (set_xstack s m) = Ok (m', r).
Proof.
  intros (m1 & y & E & E2)%bind_inv. unfold pop in E. destruct (x_stack m) as [|x s]; [done|]. injection E as <- <-. by exists x, s.
Qed.

Lemma gets_bind {A B} (g : machine → A) (f : A → exec B) m m' r : (x ← x_gets g; f x) m = Ok (m', r) → f (g m) m = Ok (m', r).
Proof. by intros (m1 & y & [= <- <-] & E)%bind_inv. Qed.

Lemma get_mem_bind {A B} (g : Memory → vmres A) (f : A → exec B) m m' r : (x ← get_mem g; f x) m = Ok (m', r) → ∃ x, f x m = Ok (m', r).
Proof. intros (m1 & y & (a & _ & [= <- <-])%bind_ok & E)%bind_inv. by exists a. Qed.

Ltac operands E := repeat first
  [ apply pop_bind in E as (? & ? & ? & E) | apply gets_bind in E | apply get_mem_bind in E as (? & E) | progress (cbv zeta in E) ];
  cbn [x_stack set_xstack] in *; subst.

Lemma stipend_gas temp value : is_u64 (temp + (if math.U256 value =? 0 then 0 else params.CallStipend)) →
  (if math.U256 value =? 0 then temp else (temp + params.CallStipend)%u64) = temp + (if math.U256 value =? 0 then 0 else params.CallStipend).
Proof. intros Hb. case_match; [lia|]. by rewrite u64_small. Qed.

Ltac call_op m E lem :=
  operands E; match goal with Hs : x_stack _ = _ |- _ => rewrite Hs in * end; cbn [call_reserve] in *; unfold temp_reserve in *;
  eapply call_spends in E; [exact E|done|done|eassumption|]; change (e_callGasTemp (x_evm (set_xstack _ m))) with (temp_of m);
  rewrite ?stipend_gas by (unfold is_u64; lia); apply lem; [done|unfold is_u64; lia].

Lemma opCall_spends : spends call_reserve (opCall en interp).
Proof. intros m m' r Hg H0 Hr Hb E. unfold opCall in E. call_op m E Call_thrifty. Qed.

Lemma opCallCode_spends : spends call_reserve (opCallCode en interp).
Proof. intros m m' r Hg H0 Hr Hb E. unfold opCallCode in E. call_op m E CallCode_thrifty. Qed.

Lemma opDelegateCall_spends : spends temp_reserve (opDelegateCall en interp).
Proof. intros m m' r Hg H0 Hr Hb E. unfold opDelegateCall in E. call_op m E DelegateCall_thrifty. Qed.

Lemma opStaticCall_spends : spends temp_reserve (opStaticCall en interp).
Proof. intros m m' r Hg H0 Hr Hb E. unfold opStaticCall in E. call_op m E StaticCall_thrifty. Qed.

Lemma use_gas_bind {B} (f : bool → exec B) gas m m' r : 0 ≤ gas ≤ gas_of m → gas_of m < two64 → (x ← use_gas gas; f x) m = Ok (m', r) →
  ∃ c, c_Gas c = gas_of m - gas ∧ f true (set_xcontract c m) = Ok (m', r).
Proof.
  intros Hg Hm (m1 & y & E & E2)%bind_inv. unfold use_gas, UseGas in E. fold (gas_of m) in E.
  rewrite (proj2 (Z.ltb_ge _ _)) in E by lia. injection E as <- <-. eexists. split; [|exact E2]. cbn. rewrite u64_small; unfold is_u64; lia.
Qed.

(** All but a 64th part. *)
Lemma create_gas (b : bool) g : 0 ≤ g < two64 → 0 ≤ (if b then (g - g / 64)%u64 else g) ≤ g.
Proof.
  intros Hg. destruct b; [|lia]. assert (0 ≤ g / 64 ≤ g) by (Z.div_mod_to_equations; lia). rewrite u64_small; unfold is_u64; lia.
Qed.

Lemma opCreate_spends : spends nothing (opCreate en interp).
Proof.
  intros m m' r Hg H0 _ Hb E. unfold opCreate in E. operands E. unfold nothing in *. rewrite Z.add_0_r in *.
  set (m0 := set_xstack _ (set_xstack _ (set_xstack _ m))) in E. change (gas_of m) with (gas_of m0) in *. fold (gas_of m0) in E.
  pose proof (create_gas (en_EIP150 en) (gas_of m0) (conj H0 Hb)) as Hgas. set (gas := if en_EIP150 en then _ else _) in *.
  apply use_gas_bind in E as (c & Hc & E); [|done|done]. operands E. apply bind_inv in E as (m1 & y & E1 & E2).
  unfold on_evm in E1. apply bind_ok in E1 as ([e' [res addr]] & Ec & [= <- <-]).
  destruct (Create_thrifty interp Hi gas ltac:(unfold is_u64; lia) _ _ _ _ _ _ Hg Ec) as [Hgood [Hl Hu]]. cbn in Hl, Hu.
  apply bind_inv in E2 as (m2 & y2 & [= <- <-] & (m3 & y3 & [= <- <-] & [= <- _])%bind_inv).
  split; [done|]. unfold gas_of at 1. cbn. rewrite Hc, u64_small; unfold is_u64; lia.
Qed.

(** ** The costs of calls *)

Lemma Back_bind {B} (f : Z → exec B) n m m' r : (x ← Back n; f x) m = Ok (m', r) → ∃ x, x_stack m !! n = Some x ∧ f x m = Ok (m', r).
Proof.
  intros (m1 & y & E & E2)%bind_inv. unfold Back in E. destruct (x_stack m !! n) as [x|]; [|done]. injection E as <- <-. by exists x.
Qed.

Lemma safe_add_exact x y m m' r : 0 ≤ x → 0 ≤ y → safe_add x y m = Ok (m', inl r) → m' = m ∧ r = x + y.
Proof.
  intros Hx Hy. unfold safe_add, math.SafeAdd, math.MaxUint64, maxU64. destruct (Z.ltb_spec (18446744073709551615 - x) y); [done|].
  intros [= <- <-]. split; [done|]. apply u64_small. unfold is_u64, two64. lia.
Qed.

Lemma callGas_is_u64 tbl available base cost g : callGas tbl available base cost = inl g → is_u64 g.
Proof.
  unfold callGas. cbv zeta. repeat case_match; intros [= <-]; first [apply u64_range|apply big_Uint64_range].
Qed.

Lemma call_gas_temp_cost gas m m' cost : 0 ≤ gas → call_gas_temp en gas m = Ok (m', inl cost) → 0 ≤ temp_of m' ∧ cost = gas + temp_of m'.
Proof.
  intros Hg. unfold call_gas_temp. intros (w & _ & (m1 & y & [= <- <-] & E)%bind_inv)%Back_bind.
  apply bind_inv in E as (m1 & y & E1 & E). unfold x_sum in E1. destruct (callGas _ _ _ _) as [g|] eqn:Eg; injection E1 as <- <-; [|by destruct E].
  apply callGas_is_u64 in Eg. unfold is_u64 in Eg. apply bind_inv in E as (m2 & y2 & [= <- <-] & E). apply safe_add_exact in E as [-> ->]; [|done|lia]. cbn. lia.
Qed.

(** The checked additions at the end of the costs of calls. *)
Lemma memory_call_cost gas n m m' cost : 0 ≤ gas →
  (memoryGas ← memoryGasCost n; g ← safe_add gas memoryGas; call_gas_temp en g) m = Ok (m', inl cost) ∨
  (memoryGas ← memoryGasCost n; g ← safe_add memoryGas gas; call_gas_temp en g) m = Ok (m', inl cost) →
  0 ≤ temp_of m' ∧ gas + temp_of m' ≤ cost.
Proof.
  intros Hg [E|E]; apply bind_inv in E as (m1 & y & E1 & E); (destruct y as [fee|]; [|by destruct E]); apply costs_memory in E1;
    apply bind_inv in E as (m2 & y & E2 & E); (destruct y as [g|]; [|by destruct E]);
    (apply safe_add_exact in E2 as [-> ->]; [|done|done]); apply call_gas_temp_cost in E; lia.
Qed.

(** A call that transfers a value pays for more than the stipend. *)
Lemma reserve_covered temp s v gas cost : s !! 2%nat = Some v → 0 ≤ temp ∧ gas + temp ≤ cost → 0 ≤ gas ∧ (v ≠ 0 → params.CallStipend ≤ gas) →
  0 ≤ call_reserve temp s ≤ cost.
Proof.
  intros Hv [Ht Hc] [Hg Hst]. destruct s as [|s0 [|s1 [|s2 s]]]; try done. injection Hv as ->. cbn [call_reserve].
  destruct (Z.eqb_spec (math.U256 v) 0) as [|Hne]; [lia|]. assert (v ≠ 0) as Hv by (by intros ->). specialize (Hst Hv). unfold params.CallStipend in *. lia.
Qed.

(** The fixed part of a cost, below 2^20. *)
Lemma value_gas v gas : 0 ≤ gas < 2 ^ 20 → let g := if negb (v =? 0) then (gas + params.CallValueTransferGas)%u64 else gas in
  0 ≤ g ∧ (v ≠ 0 → params.CallStipend ≤ g).
Proof.
  intros Hg. destruct (Z.eqb_spec v 0); cbn [negb]; [split; [lia|done]|]. unfold params.CallStipend, params.CallValueTransferGas.
  rewrite u64_small; unfold is_u64, two64; lia.
Qed.

Lemma Calls_bounds : 0 ≤ params.Calls (en_gasTable en) < 1000.
Proof. destruct gasTable_known as [->|[->| ->]]; done. Qed.

Lemma gasCallCode_aside : sets_aside call_reserve (gasCallCode en).
Proof.
  intros n m m' r E. split; [by apply (ltac:(frames) : xframe same (gasCallCode en n)) in E|]. intros cost ->.
  unfold gasCallCode in E. apply Back_bind in E as (v & Hv & E). pose proof Calls_bounds as Hc.
  eapply reserve_covered; [done|apply memory_call_cost with (2 := or_introl E)|]; apply value_gas; lia.
Qed.

Lemma gasCall_aside : sets_aside call_reserve (gasCall en).
Proof.
  intros n m m' r E. split; [by apply (ltac:(frames) : xframe same (gasCall en n)) in E|]. intros cost ->.
  unfold gasCall in E. apply Back_bind in E as (v & Hv & E). apply Back_bind in E as (a & _ & E). cbv zeta in E.
  apply bind_inv in E as (m1 & y & E1 & E). destruct y as [extra|]; [|by destruct E].
  match type of E1 with ?x m = _ => assert (xframe same x) as Hs by frames; assert (yields x (fun z => 0 ≤ z ≤ 25000)) as Hx end.
  { repeat case_match; repeat (apply yields_after; intros); apply yields_ret; repeat case_match; by vm_compute. }
  apply Hs in E1 as Hsame. apply Hx in E1. destruct Hsame as (_ & Hst & _). rewrite <- Hst in *. pose proof Calls_bounds as Hc.
  assert (0 ≤ (params.Calls (en_gasTable en) + extra)%u64 < 2 ^ 20) by (rewrite u64_small; unfold is_u64, two64; lia).
  eapply reserve_covered; [done|apply memory_call_cost with (2 := or_introl E)|]; by apply value_gas.
Qed.

Lemma gasDelegateCall_aside : sets_aside temp_reserve (gasDelegateCall en).
Proof.
  intros n m m' r E. split; [by apply (ltac:(frames) : xframe same (gasDelegateCall en n)) in E|]. intros cost ->. pose proof Calls_bounds as Hc.
  destruct (memory_call_cost (params.Calls (en_gasTable en)) n m m' cost (proj1 Hc) (or_intror E)). unfold temp_reserve. lia.
Qed.

Lemma gasStaticCall_aside : sets_aside temp_reserve (gasStaticCall en).
Proof. exact gasDelegateCall_aside. Qed.

(** ** The table *)

Lemma create_costs : sets_aside nothing gasCreate.
Proof. apply nothing_aside; intros n; [frames|costs]. Qed.

Lemma system_thrifty : table_thrifty (frontierSystem en interp).
Proof.
  do 5 (apply List.Forall_cons; [entry|]).
  apply List.Forall_cons; [exists nothing; split; [apply create_costs|apply opCreate_spends]|].
  apply List.Forall_cons; [exists call_reserve; split; [apply gasCall_aside|apply opCall_spends]|].
  apply List.Forall_cons; [exists call_reserve; split; [apply gasCallCode_aside|apply opCallCode_spends]|].
  do 2 (apply List.Forall_cons; [entry|]). apply List.Forall_nil.
Qed.

Lemma frontier_thrifty : table_thrifty (NewFrontierInstructionSet en interp).
Proof.
  destruct numbered_frames as (? & ? & ?). unfold NewFrontierInstructionSet. repeat (apply Forall_app; split); try done;
    [apply arithmetic_thrifty|apply environment_thrifty|apply flow_thrifty|apply system_thrifty].
Qed.

Lemma homestead_thrifty : table_thrifty (NewHomesteadInstructionSet en interp).
Proof.
  apply List.Forall_cons; [|apply frontier_thrifty]. exists temp_reserve. split; [apply gasDelegateCall_aside|apply opDelegateCall_spends].
Qed.

Lemma JumpTable_thrifty op o : find_op op (JumpTable en interp) = Some o → op_thrifty o.
Proof.
  assert (table_thrifty (JumpTable en interp)) as Ht.
  { unfold JumpTable. pose proof homestead_thrifty. case_match; [|case_match; [done|apply frontier_thrifty]].
    do 3 (apply List.Forall_cons; [entry|]). apply List.Forall_cons; [|done]. exists temp_reserve. split; [apply gasStaticCall_aside|apply opStaticCall_spends]. }
  unfold find_op. intros ([n o'] & [Hin%list_elem_of_In _]%find_some & ->)%fmap_Some. by apply (proj1 (Forall_forall _ _) Ht (n, o')).
Qed.

(** ** A round *)

Context (Hmeter : en_DisableGasMetering en = false).

(** The gas of [m'], with what is set aside, is within that of [m]. *)
Definition within (m m' : machine) (extra : Z) : Prop := good m' ∧ 0 ≤ gas_of m' ∧ 0 ≤ extra ∧ gas_of m' + extra ≤ gas_of m.

Lemma same_within m m' : good m → 0 ≤ gas_of m → same m m' → within m m' 0.
Proof. intros Hg H0 (Hc & _ & Hgood). unfold within, gas_of in *. rewrite Hc. split_and!; [auto|lia..]. Qed.

Lemma charge_within reserve o n m m' r : sets_aside reserve (gasCost o) → good m → is_u64 (gas_of m) → charge en o n m = Ok (m', r) →
  x_stack m' = x_stack m ∧ within m m' (match r with inl _ => reserve (temp_of m') (x_stack m) | inr _ => 0 end).
Proof.
  intros Hset Hg H0. unfold charge. rewrite Hmeter. intros ([m1 y] & E1 & E2)%bind_ok. destruct (Hset _ _ _ _ E1) as [Hs Hcost].
  assert (0 ≤ gas_of m) by (unfold is_u64 in *; lia). pose proof Hs as (Hc & Hst & Hgood). destruct y as [cost|e].
  2: { injection E2 as <- <-. split; [done|]. by apply same_within. }
  specialize (Hcost cost eq_refl). apply bind_inv in E2 as (m2 & y2 & E2 & E3). unfold use_gas in E2.
  destruct (UseGas cost (x_contract m1)) as [c ok] eqn:Eu. injection E2 as <- <-. destruct ok; injection E3 as <- <-.
  - apply UseGas_paid in Eu as [Hc0 Hc1]; [|lia|by rewrite Hc]. split; [done|]. unfold within, gas_of. cbn. rewrite Hc in Hc1.
    split_and!; [by apply Hgood|done|apply Hcost|]. unfold temp_of in *. cbn. unfold gas_of in *. lia.
  - unfold UseGas in Eu. destruct (c_Gas _ <? cost); injection Eu as <-; [|done]. split; [done|]. by apply same_within.
Qed.

Lemma prepare_within reserve op o m m' r : sets_aside reserve (gasCost o) → good m → is_u64 (gas_of m) → prepare en op o m = Ok (m', r) →
  within m m' (match r with inl _ => reserve (temp_of m') (x_stack m') | inr _ => 0 end).
Proof.
  intros Hset Hg Hu E. assert (0 ≤ gas_of m) as H0 by (unfold is_u64 in *; lia). unfold prepare in E. apply gets_bind in E.
  destruct (validateStack o (x_stack m)) as [e|]; [injection E as <- <-; by apply same_within|].
  apply bind_inv in E as (m1 & y & E1 & E). assert (same m m1) as Hs1 by (by apply (ltac:(frames) : xframe same (enforceRestrictions en op o)) in E1).
  destruct y as [[]|e]; [|destruct E as [-> ->]; by apply same_within].
  apply bind_inv in E as (m2 & y & E2 & E). assert (same m1 m2) as Hs2.
  { revert E2. apply (ltac:(unfold needed_memory; frames) : xframe same (needed_memory o)). }
  assert (same m m2) as Hs by (by transitivity m1). destruct y as [n|e]; [|destruct E as [-> ->]; by apply same_within].
  pose proof Hs as (Hc & _ & Hgood). apply bind_inv in E as (m3 & y & E3 & E).
  apply (charge_within reserve) in E3 as [Hst Hw]; [|done|by apply Hgood|unfold gas_of in *; by rewrite Hc].
  assert (gas_of m2 = gas_of m) as Eg by (unfold gas_of; by rewrite Hc). unfold within in Hw. rewrite Eg in Hw.
  destruct y as [[]|e]; [|by destruct E as [-> ->]]. injection E as <- <-.
  rewrite <- Hst in Hw. exact Hw.
Qed.

Lemma perform_within reserve o m m' r : spends reserve (execute o) → good m → 0 ≤ gas_of m → 0 ≤ reserve (temp_of m) (x_stack m) →
  gas_of m + reserve (temp_of m) (x_stack m) < two64 → perform o m = Ok (m', r) →
  good m' ∧ 0 ≤ gas_of m' ≤ gas_of m + reserve (temp_of m) (x_stack m).
Proof.
  intros Hsp Hg H0 Hr Hb ([m1 y] & E1 & E2)%bind_ok. destruct (Hsp _ _ _ Hg H0 Hr Hb E1) as [Hg1 Hgas].
  injection E2 as <- <-. by destruct (returns o).
Qed.

Lemma step_within m m' r : good m → is_u64 (gas_of m) → step en interp m = Ok (m', r) → within m m' 0.
Proof.
  intros Hg Hu E. assert (0 ≤ gas_of m) as H0 by (unfold is_u64 in *; lia). unfold step in E. do 2 apply gets_bind in E. cbv zeta in E.
  destruct (find_op _ _) as [o|] eqn:Ho; [|injection E as <- <-; by apply same_within].
  destruct (JumpTable_thrifty _ _ Ho) as (reserve & Hset & Hsp). apply bind_inv in E as (m1 & y & E1 & E).
  apply (prepare_within reserve) in E1 as (Hg1 & Hl1 & Hr1 & Hu1); [|done..]. destruct y as [[]|e]; [|destruct E as [-> ->]; done].
  apply bind_inv in E as (m2 & y & E2 & E). unfold is_u64 in Hu. apply (perform_within reserve) in E2 as [Hg2 Hgas2]; [|done..|lia].
  assert (within m m2 0) as Hw by (split_and!; [done|lia..]). destruct y as [res|e]; [|by destruct E as [-> ->]].
  destruct (reverts o); [by injection E as <- <-|]. destruct (halts o); [by injection E as <- <-|].
  destruct (jumps o); cbn [negb] in E; [by injection E as <- <-|]. apply gets_bind in E. by injection E as <- <-.
Qed.

End Ops.

(** ** Runs *)

Context (Hmeter : en_DisableGasMetering en = false).

Lemma Run_with_thrifty lp : (∀ m m' r, good m → is_u64 (gas_of m) → lp m = Ok (m', r) → within m m' 0) → thrifty (Run_with lp).
Proof.
  intros Hlp c input Hc e e' [[c' ret] err] He. unfold Run_with. destruct (c_Code c) as [|b code] eqn:Ec; cbv zeta.
  { intros [= <- <- <- <-]. split; [done|]. unfold no_more. cbn. unfold is_u64 in Hc. lia. }
  intros ([m' [ret' err']] & E & [= <- <- <- <-])%bind_ok. apply Hlp in E as (Hg & H0 & _ & Hu); [|done|done].
  split; [done|]. unfold no_more, gas_of in *. cbn in *. lia.
Qed.

Lemma loop_within fuel m m' r : good m → is_u64 (gas_of m) → loop en fuel m = Ok (m', r) → within m m' 0.
Proof.
  revert m m' r. induction fuel as [|fuel IH]; intros m m' r Hg Hu; [done|]. cbn [loop]. intros ([m1 y] & E1 & E)%bind_ok.
  apply step_within in E1 as Hw; [|by apply Run_with_thrifty|done..]. destruct y as [[y|]|e]; [by injection E as <- <-| |by injection E as <- <-].
  destruct Hw as (Hg1 & H0 & _ & Hle). apply IH in E as (Hg2 & H02 & _ & Hle2); [|done|unfold is_u64 in *; lia]. split_and!; [done|lia..].
Qed.

Lemma Run_thrifty fuel : thrifty (Run en fuel).
Proof. apply Run_with_thrifty, loop_within. Qed.

End Thrift.
