(* ===== verification/StateRefund.v ===== *)
(** * The refund counter of the state database

    The counter starts at zero, grows by what is added, and goes back to a
    value it had: it is never negative.  This is all that [VmThrift] asks of
    the state. *)

From S2P Require Import Prelude Types Interfaces Rlp Trie State GoMath Vm VmThrift StateVm.
From stdpp Require Import base tactics option list numbers gmap.
From Stdlib Require Import ZArith Lia.

#[local] Open Scope Z_scope.

Create HintDb refund.

Section Refund.
Context `{HK : Keccak, HD : Database, HC : ARCCache Z}.

Definition entry_ok (e : journalEntry) : Prop := match e with refundChange prev => 0 ≤ prev | _ => True end.

Definition refunds (s : StateDB) : Prop := 0 ≤ sdb_refund s ∧ Forall entry_ok (sdb_journal s).

(** The object that a call works on, and the state with it. *)
Definition refunds2 {A} (r : A * StateDB) : Prop := refunds r.2.

Lemma refunds_push e s : entry_ok e → refunds s → refunds (push e s).
Proof. intros He [Hr Hj]. split; [done|]. cbn. by apply Forall_app, conj, Forall_cons, conj. Qed.

Lemma refunds_fire o s : refunds s → refunds (fireDirty o s).2.
Proof. unfold fireDirty. by destruct (so_onDirty o). Qed.

#[local] Hint Resolve refunds_push refunds_fire : refund.

Lemma refunds_setError e s : refunds s → refunds (state_setError e s).
Proof. unfold state_setError. by case_match. Qed.

Lemma keeps_getStateObject a : keeps_on refunds (getStateObject a).
Proof.
  intros s s' o Hs. unfold getStateObject. destruct (sdb_stateObjects s !! a); [by intros [= <- _]|].
  destruct (Secure_TryGet _ _ _) as [tr [enc|e|]]; cbv zeta; [|intros [= <- _]; by apply refunds_setError|done].
  case_match; [by intros [= <- _]|]. destruct (decodeAccount _) as [v|e|]; [|by intros [= <- _]|done].
  destruct (account_of v); [|done]. by intros [= <- _].
Qed.

Lemma keeps_createObject a s s' o prev : refunds s → createObject a s = Ok (s', o, prev) → refunds s'.
Proof.
  intros Hs ([s1 p] & E & E2)%bind_ok. apply keeps_getStateObject in E; [|done]. unfold obj_setNonce in E2.
  pose proof (refunds_fire (set_Nonce 0 (newObject a zeroAccount true)) s1 E) as Hf. destruct (fireDirty _ s1) as [o1 s2].
  injection E2 as <- _ _. apply refunds_push; [by destruct p|done].
Qed.

Lemma keeps_GetOrNew a : keeps_on refunds (GetOrNewStateObject a).
Proof.
  intros s s' o Hs ([s1 obj] & E & E2)%bind_ok. apply keeps_getStateObject in E; [|done].
  assert (∀ x, ('(s, obj, _) ← createObject a s1; Ok (s, obj)) = Ok (s', x) → refunds s') as Hc.
  { intros x ([[s2 o2] p2] & Ec & [= <- _])%bind_ok. by eapply keeps_createObject. }
  destruct obj as [obj|]; [|by eapply Hc]. destruct (so_deleted obj); [by eapply Hc|]. by injection E2 as <- _.
Qed.

(** The methods that change an object, found or new. *)
Lemma keeps_object a (f : stateObject → StateDB → stateObject * StateDB) : (∀ o s, refunds s → refunds2 (f o s)) →
  keeps refunds (fun s => '(s, o) ← GetOrNewStateObject a s; Ok (store_obj (f o s))).
Proof. intros Hf s s' Hs ([s1 o] & E & [= <-])%bind_ok. apply keeps_GetOrNew in E; [|done]. by apply (Hf o s1). Qed.

Lemma obj_SetBalance_refunds z o s : refunds s → refunds2 (obj_SetBalance z o s).
Proof. intros Hs. apply refunds_fire. by apply refunds_push. Qed.

Lemma obj_AddBalance_refunds z o s : refunds s → refunds2 (obj_AddBalance z o s).
Proof.
  intros Hs. unfold obj_AddBalance. case_match; [|by apply obj_SetBalance_refunds]. case_match; [|done].
  unfold obj_touch. set (s1 := push _ s). assert (refunds s1) as H1 by (by apply refunds_push).
  pose proof (refunds_fire o s1 H1) as Hf. by destruct (fireDirty o s1).
Qed.

Lemma keeps_read {A} (f : stateObject → A) d a : keeps_on refunds (read f d a).
Proof. intros s s' x Hs ([s1 o] & E & [= <- _])%bind_ok. by apply keeps_getStateObject in E. Qed.

Lemma keeps_CodeSize a : keeps_on refunds (State.GetCodeSize a).
Proof.
  intros s s' x Hs ([s1 [o|]] & E & E2)%bind_ok; apply keeps_getStateObject in E; try done; [|by injection E2 as <- _].
  destruct (so_code o); [by injection E2 as <- _|]. destruct (ContractCodeSize _ _) as [[db n] [e|]]; injection E2 as <- _; [|done].
  by apply refunds_setError.
Qed.

Lemma keeps_Code a : keeps_on refunds (State.GetCode a).
Proof.
  intros s s' x Hs ([s1 [o|]] & E & E2)%bind_ok; apply keeps_getStateObject in E; try done; [|by injection E2 as <- _].
  destruct (obj_Code _ _) as [[db o1] c]. by injection E2 as <- _.
Qed.

Lemma keeps_State a k : keeps_on refunds (State.GetState a k).
Proof.
  intros s s' x Hs ([s1 [o|]] & E & E2)%bind_ok; apply keeps_getStateObject in E; try done; [|by injection E2 as <- _].
  apply bind_ok in E2 as ([o1 v] & _ & E2). by injection E2 as <- _.
Qed.

Lemma keeps_Suicided a : keeps_on refunds (State.Suicide a).
Proof.
  intros s s' x Hs ([s1 [o|]] & E & E2)%bind_ok; apply keeps_getStateObject in E; try done; [|by injection E2 as <- _].
  cbv zeta in E2. set (s2 := push _ s1) in E2. assert (refunds s2) as H2 by (by apply refunds_push).
  pose proof (refunds_fire (set_suicided true o) s2 H2) as Hf. unfold obj_markSuicided in E2. destruct (fireDirty _ s2). by injection E2 as <- _.
Qed.

Lemma keeps_SetCodeOf a c : keeps refunds (State.SetCode a c).
Proof.
  apply keeps_object. intros o s Hs. unfold obj_SetCode. destruct (obj_Code _ _) as [[db o1] p]. apply refunds_fire. by apply refunds_push.
Qed.

Lemma keeps_SetStateOf a k v : keeps refunds (State.SetState a k v).
Proof.
  intros s s' Hs ([s1 o] & E & ([o1 s2] & E2 & [= <-])%bind_ok)%bind_ok. apply keeps_GetOrNew in E; [|done].
  apply bind_ok in E2 as ([o2 pv] & _ & [= E3]). unfold obj_setState in E3.
  pose proof (refunds_fire (set_dirtyStorage (<[k:=v]> (so_dirtyStorage o2)) (set_cachedStorage (<[k:=v]> (so_cachedStorage o2)) o2))
    (push (storageChange (so_address o2) k pv) s1)) as Hf. rewrite E3 in Hf. apply Hf. by apply refunds_push.
Qed.

Lemma keeps_Create a : keeps refunds (State.CreateAccount a).
Proof.
  intros s s' Hs ([[s1 o] [prev|]] & E & E2)%bind_ok; apply keeps_createObject in E; try done; injection E2 as <-; [|done].
  by apply (refunds_fire _ s1).
Qed.

(** ** Undoing *)

Lemma keeps_undo_obj a f : (∀ o s, refunds s → refunds2 (f o s)) → keeps refunds (undo_obj a f).
Proof.
  intros Hf s s' Hs ([s1 [o|]] & E & E2)%bind_ok; apply keeps_getStateObject in E; try done. injection E2 as <-. by apply (Hf o s1).
Qed.

Lemma keeps_undo e : entry_ok e → keeps refunds (undo e).
Proof.
  intros He. destruct e; cbn [undo]; try (by apply keeps_undo_obj; intros o s Hs; apply refunds_fire).
  - by intros s s' Hs [= <-].
  - by intros s s' Hs [= <-].
  - intros s s' Hs ([s1 [o|]] & E & E2)%bind_ok; apply keeps_getStateObject in E; try done; injection E2 as <-; [|done].
    by apply (refunds_fire _ s1).
  - intros s s' [Hs Hj] [= <-]. by split.
  - intros s s' Hs. cbn [undo]. cbv zeta. repeat case_match; try done; by intros [= <-].
  - by intros s s' Hs [= <-].
  - intros s s' Hs. cbn [undo]. case_match; [|by intros [= <-]]. intros (s1 & E & [= <-])%bind_ok.
    apply (keeps_undo_obj account (fun o s => (set_touched prev o, s))) in E; [|done|done]. by case_match.
Qed.

Lemma undo_all_refunds es s s' : Forall entry_ok es → refunds s → undo_all es s = Ok s' → refunds s'.
Proof.
  revert s'. induction es as [|e es IH]; intros s' Hes Hs; cbn [undo_all]; [by intros [= <-]|].
  apply Forall_cons_iff in Hes as [He Hes]. intros (s1 & E & E2)%bind_ok. by apply keeps_undo in E2; [|done|by eapply IH].
Qed.

Lemma keeps_Revert id : keeps refunds (State.RevertToSnapshot id).
Proof.
  intros s s' [Hs Hj]. unfold RevertToSnapshot. cbv zeta. case_match; [|done]. case_match; [|done]. intros (s1 & E & [= <-])%bind_ok.
  apply undo_all_refunds in E as [Hs1 Hj1]; [|by apply Forall_drop|done]. split; [done|]. cbn. by apply Forall_take.
Qed.

(** ** The instance *)

#[export] Instance StateDB_refunds : RefundLaws StateDB_ops.
Proof.
  refine {| refund_ok := (refunds : @st StateDB_ops → Prop) |}; try (intros; by apply keeps_read).
  - by intros s [Hs _].
  - exact keeps_Create.
  - intros a z. apply keeps_object. intros o s Hs. unfold obj_SubBalance. case_match; [done|by apply obj_SetBalance_refunds].
  - intros a z. apply keeps_object. intros o s. apply obj_AddBalance_refunds.
  - intros a n. apply keeps_object. intros o s Hs. apply refunds_fire. by apply refunds_push.
  - exact keeps_Code.
  - exact keeps_SetCodeOf.
  - exact keeps_CodeSize.
  - intros g s s' [Hs Hj] [= <-]. split; [apply u64_range|]. by apply refunds_push.
  - exact keeps_State.
  - exact keeps_SetStateOf.
  - exact keeps_Suicided.
  - exact keeps_Revert.
  - done.
  - intros l s s' Hs [= <-]. by apply refunds_push.
  - intros h p s s' Hs [= <-]. unfold AddPreimage. case_match; [done|]. by apply refunds_push.
Defined.

(** ** Between transactions *)

Lemma keeps_SetBalanceOf a z : keeps refunds (State.SetBalance a z).
Proof. apply keeps_object. intros o s. apply obj_SetBalance_refunds. Qed.

Lemma refunds_cleared s : refunds (clearJournalAndRefund s).
Proof. split; [done|]. apply Forall_nil_2. Qed.

Lemma keeps_Finalised del : keeps refunds (State.Finalise del).
Proof. intros s s' _ (s1 & _ & [= <-])%bind_ok. apply refunds_cleared. Qed.

Lemma keeps_Root del : keeps_on refunds (State.IntermediateRoot del).
Proof.
  intros s s' r _ (s1 & (s2 & _ & [= <-])%bind_ok & ([t root] & _ & [= <- _])%bind_ok)%bind_ok. split; [done|]. apply Forall_nil_2.
Qed.

End Refund.
