(* ===== verification/Processor.v ===== *)
(** * Processing blocks (src/kernel/state_processor.go)

    The transactions of a block are applied one after the other to the state;
    each gives a receipt.  What a block needs of the state beyond the methods of
    the virtual machine is an interface, which the state database implements.
    The engine and the chain are parameters. *)

From S2P Require Import Prelude Types Interfaces Rlp Trie HeaderHash State GoMath Vm VmExec VmPrecompiled Evm VmRun StateVm Transition Tx Receipt Block Dao.
From stdpp Require Import base tactics option list numbers gmap.
From Stdlib Require Import ZArith Lia.

#[local] Open Scope Z_scope.

(** ** What a block does to the state *)

Class BlockOps (HS : StateOps) := {
  st_SetBalance : Address → Z → st → pan st;
  st_Prepare : Hash → Hash → Z → st → st;
  st_Finalise : bool → st → pan st;
  st_IntermediateRoot : bool → st → pan (st * Hash);
  st_GetLogs : Hash → st → list Log
}.

#[export] Instance StateDB_block `{HK : Keccak, HD : Database, HC : ARCCache Z} : BlockOps StateDB_ops := {|
  st_SetBalance := (SetBalance : Address → Z → @st StateDB_ops → pan (@st StateDB_ops));
  st_Prepare := Prepare;
  st_Finalise := Finalise;
  st_IntermediateRoot := IntermediateRoot;
  st_GetLogs := GetLogs
|}.

Inductive processError :=
  | SigError (e : sigError)
  | TxError (e : txError).

(** The rules, the chain below the block, and the answer of the engine to the
    question who sealed a header. *)
Record processEnv := mkProcessEnv {
  pe_config : ChainConfig;
  pe_GetHeader : Hash → Z → option Header;
  pe_Author : Header → Address;
  pe_NoRecursion : bool;
  pe_EnablePreimageRecording : bool
}.

Section Process.
Context `{HK : Keccak, HP : EvmCrypto, HS : StateOps, HB : !BlockOps HS} (pe : processEnv).

(** ** One transaction *)

(** The machine for a message; a run has at most as many rounds as the message
    has gas, and the walk to an ancestor as many steps as the header has
    ancestors. *)
Definition message_env (author : option Address) (header : Header) (msg : Message) : Env :=
  NewEVMContext (pe_GetHeader pe) (S (Z.to_nat (header_number header))) msg header (pe_Author pe header) author (pe_config pe)
    (pe_NoRecursion pe) false (pe_EnablePreimageRecording pe).
Definition message_fuel (msg : Message) : nat := S (Z.to_nat (msg_gasLimit msg)).

(** The state root goes into the receipt before Byzantium only. *)
Definition settle_state (header : Header) (s : st) : vmres (st * list Z) :=
  if IsByzantium (pe_config pe) (hdr_Number header) then s ← from_pan (st_Finalise true s); Ok (s, [])
  else from_pan (st_IntermediateRoot (IsEIP158 (pe_config pe) (hdr_Number header)) s).

Definition receipt_for (root : list Z) (vmfailed : bool) (usedGas : Z) (txHash : Hash) (gas : Z) (contract : Address) (logs : list Log) : vmres Receipt :=
  let r := NewReceipt root vmfailed usedGas in
  let r := mkReceipt (rc_PostState r) (rc_Status r) (rc_CumulativeGasUsed r) (rc_Bloom r) logs txHash contract gas in
  bloom ← from_pan (CreateBloom [r]);
  Ok (mkReceipt (rc_PostState r) (rc_Status r) (rc_CumulativeGasUsed r) bloom logs txHash contract gas).

(** [ApplyTransaction]: the state, the pool and the gas used so far, the
    transaction with what it has cached, and the receipt and gas or the
    error. *)
Definition ApplyTransaction (author : option Address) (gp : GasPool) (s : st) (header : Header) (tx : Transaction) (usedGas : Z) :
    vmres (st * GasPool * Z * Transaction * (Receipt * Z + processError)) :=
  match AsMessage (MakeSigner (pe_config pe) (hdr_Number header)) tx with
  | (_, Panic) => Panic
  | (tx, Err e) => Ok (s, gp, usedGas, tx, inr (SigError e))
  | (tx, Ok msg) =>
      let en := message_env author header msg in
      '(t, r) ← ApplyMessage en (Run en (message_fuel msg)) msg (NewEVM s) gp;
      let s := e_db (t_evm t) in
      let gp := t_gp t in
      match r with
      | inr e => Ok (s, gp, usedGas, tx, inr (TxError e))
      | inl (_, gas, vmfailed) =>
          '(s, root) ← settle_state header s;
          let usedGas := (usedGas + gas)%u64 in
          let '(tx, hash) := Transaction_Hash tx in
          let contract := match msg_to msg with None => createAddress (en_Origin en) (AccountNonce (tx_data tx)) | Some _ => zeroAddress end in
          receipt ← receipt_for root vmfailed usedGas hash gas contract (st_GetLogs hash s);
          Ok (s, gp, usedGas, tx, inl (receipt, gas))
      end
  end.

(** ** All transactions *)

Fixpoint process_loop (header : Header) (blockHash : Hash) (i : Z) (txs : list Transaction) (gp : GasPool) (s : st) (usedGas : Z) :
    vmres (st * GasPool * Z * list Transaction * (list Receipt + processError)) :=
  match txs with
  | [] => Ok (s, gp, usedGas, [], inl [])
  | tx :: txs =>
      let '(tx, hash) := Transaction_Hash tx in
      let s := st_Prepare hash blockHash i s in
      '(s, gp, usedGas, tx, r) ← ApplyTransaction None gp s header tx usedGas;
      match r with
      | inr e => Ok (s, gp, usedGas, tx :: txs, inr e)
      | inl (receipt, _) =>
          '(s, gp, usedGas, txs, r) ← process_loop header blockHash (i + 1) txs gp s usedGas;
          match r with
          | inr e => Ok (s, gp, usedGas, tx :: txs, inr e)
          | inl receipts => Ok (s, gp, usedGas, tx :: txs, inl (receipt :: receipts))
          end
      end
  end.

(** [StateProcessor.Process]: [finalize] is what [Finalize] of the engine does
    to the state; the header that it also writes to is a copy.  The block keeps
    its hash once a transaction has asked for it. *)
Definition Process (finalize : Header → list Transaction → list Header → list Receipt → st → pan st) (b : Block) (s : st) :
    vmres (st * Block * (list Receipt * list Log * Z + processError)) :=
  let header := Block_Header b in
  gp ← from_pan (AddGas (hdr_GasLimit (blk_header b)) 0);
  s ← match DAOForkBlock (pe_config pe) with
      | Some fork =>
          if DAOForkSupport (pe_config pe) then
            number ← deref (hdr_Number (blk_header b));
            if fork =? number then from_pan (ApplyDAOHardFork st_SetBalance s) else Ok s
          else Ok s
      | None => Ok s
      end;
  let '(hashed, blockHash) := Block_Hash b in
  '(s, _, usedGas, txs, r) ← process_loop header blockHash 0 (blk_transactions b) gp s 0;
  let b := match txs with [] => b | _ => hashed end in
  let b := mkBlock (blk_header b) (blk_uncles b) txs (blk_hash b) in
  match r with
  | inr e => Ok (s, b, inr e)
  | inl receipts =>
      s ← from_pan (finalize header txs (blk_uncles b) receipts s);
      Ok (s, b, inl (receipts, concat (rc_Logs <$> receipts), usedGas))
  end.

(** What [Finalize] of the DPoS engine does to the state. *)
Definition DPos_finalize (header : Header) (txs : list Transaction) (uncles : list Header) (receipts : list Receipt) (s : st) : pan st :=
  '(s, _) ← st_IntermediateRoot (IsEIP158 (pe_config pe) (hdr_Number header)) s; Ok s.

End Process.
