(* ===== verification/ProcessorSpec.v ===== *)
(** * Blocks stay within their gas limit

    On every state, that of the node included, the gas that the transactions of
    a block use is accounted for exactly: the receipts add up, and the sum is
    within the gas limit of the block.  A block that is accepted has a bloom
    that finds all its logs. *)

From S2P Require Import Prelude Types Interfaces Rlp Trie HeaderHash State GoMath Vm VmExec VmPrecompiled Evm VmRun VmThrift StateVm StateRefund Transition TransitionSpec Tx Receipt ReceiptSpec Block BlockSpec Dao Processor.
From stdpp Require Import base tactics option list numbers gmap.
From Stdlib Require Import ZArith Lia.

#[local] Open Scope Z_scope.

(** ** A message *)

Section Message.
Context `{HK : Keccak, HP : EvmCrypto, HS : StateOps, HR : !RefundLaws HS}.

(** From states in [P] the computation ends in [Q] or with an error; the counter
    stays right. *)
Definition t_sound {A} (P : StateTransition → Prop) (x : trans A) (Q : A → StateTransition → Prop) : Prop :=
  ∀ t t' r, refund_ok (e_db (t_evm t)) → P t → x t = Ok (t', r) →
    refund_ok (e_db (t_evm t')) ∧ match r with inl a => Q a t' | inr _ => True end.

Lemma t_sound_bind {A B} P (x : trans A) R (f : A → trans B) Q : t_sound P x R → (∀ a, t_sound (R a) (f a) Q) → t_sound P (x ≫= f) Q.
Proof.
  intros Hx Hf t t' r Ht Hpt. unfold mbind, trans_mbind. destruct (x t) as [[t1 [a|e]]| |] eqn:E; cbn; try done.
  - destruct (Hx _ _ _ Ht Hpt E) as [Ht1 HR1]. by apply Hf.
  - intros [= <- <-]. by destruct (Hx _ _ _ Ht Hpt E).
Qed.

Lemma t_sound_ret {A} P (a : A) (Q : A → StateTransition → Prop) : (∀ t, P t → Q a t) → t_sound P (mret a) Q.
Proof. intros HQ t t' r Ht Hpt [= <- <-]. auto. Qed.

Lemma t_sound_gets {A} P (f : StateTransition → A) : t_sound P (t_gets f) (fun a t => P t ∧ a = f t).
Proof. by intros t t' r Ht Hpt [= <- <-]. Qed.

Lemma t_sound_modify P f (Q : unit → StateTransition → Prop) : (∀ t, t_evm (f t) = t_evm t) → (∀ t, P t → Q tt (f t)) → t_sound P (t_modify f) Q.
Proof. intros Hf HQ t t' r Ht Hpt [= <- <-]. rewrite Hf. auto. Qed.

Lemma t_sound_throw {A} P e (Q : A → StateTransition → Prop) : t_sound P (t_throw e) Q.
Proof. by intros t t' r Ht Hpt [= <- <-]. Qed.

(** What the state of the machine is does not matter to [P]. *)
Definition blind (P : StateTransition → Prop) : Prop := ∀ t e, P t → P (set_tevm e t).

Lemma t_sound_evm {A} P (x : evmM A) (R : A → Prop) : blind P → e_sound x R → t_sound P (in_evm x) (fun a t => P t ∧ R a).
Proof.
  intros Hb Hx t t' r Ht Hpt. unfold in_evm. intros ([e a] & E & [= <- <-])%bind_ok. destruct (Hx _ _ _ Ht E) as [He Ha].
  split; [done|]. split; [by apply Hb|done].
Qed.

Lemma t_sound_calm {A B} P (x : evmM A) (f : A → trans B) Q : blind P → e_sound x (fun _ => True) → (∀ a, t_sound P (f a) Q) → t_sound P (in_evm x ≫= f) Q.
Proof.
  intros Hb Hx Hf. eapply t_sound_bind; [by apply t_sound_evm|]. intros a t t' r Ht [Hpt _]. by apply Hf.
Qed.

Lemma t_sound_weaken {A} P P' (x : trans A) (Q Q' : A → StateTransition → Prop) : (∀ t, P' t → P t) → (∀ a t, Q a t → Q' a t) → t_sound P x Q → t_sound P' x Q'.
Proof. intros Hp HQ Hx t t' r Ht Hpt E. destruct (Hx _ _ _ Ht (Hp _ Hpt) E) as [? Hr]. split; [done|]. destruct r; auto. Qed.

Lemma t_sound_pure {A} (φ : Prop) P (x : trans A) Q : (∀ t, P t → φ) → (φ → t_sound P x Q) → t_sound P x Q.
Proof. intros Hφ Hx t t' r Ht Hpt. apply Hx; [by eapply Hφ|done..]. Qed.

Lemma ensure_calm a : e_sound (ensure a) (fun _ => True).
Proof.
  unfold ensure. eapply e_sound_step; [apply e_sound_read; auto with thrift|]. intros [|]; [by apply e_sound_ret|]. apply e_sound_do. auto with thrift.
Qed.

Context (en : Env) (Hmeter : en_DisableGasMetering en = false) (msg : Message) (fuel : nat) (gp : Z).
Context (Hlimit : is_u64 (msg_gasLimit msg)) (Hgp : is_u64 gp) (Hdata : strlen (msg_data msg) < 2 ^ 63).

Lemma from_calm : e_sound (from msg) (fun _ => True).
Proof. unfold from. eapply e_sound_step; [apply ensure_calm|]. intros _. by apply e_sound_ret. Qed.

Lemma to_calm : e_sound (to msg) (fun _ => True).
Proof. unfold to. case_match; [|by apply e_sound_ret]. eapply e_sound_step; [apply ensure_calm|]. intros _. by apply e_sound_ret. Qed.

(** Before and after the gas is bought. *)
Definition fresh (t : StateTransition) : Prop := t_gp t = gp ∧ t_gas t = 0.
Definition holds_gas (lo hi : Z) (t : StateTransition) : Prop :=
  msg_gasLimit msg ≤ gp ∧ t_gp t = gp - msg_gasLimit msg ∧ t_initialGas t = msg_gasLimit msg ∧ lo ≤ t_gas t ≤ hi.

Lemma buyGas_sound : t_sound fresh (buyGas msg) (fun _ => holds_gas (msg_gasLimit msg) (msg_gasLimit msg)).
Proof.
  unfold buyGas. apply t_sound_calm; [by intros ? ? ?|apply from_calm|intros sender]. cbv zeta.
  apply t_sound_calm; [by intros ? ? ?|apply e_sound_read; auto with thrift|intros balance]. case_match; [apply t_sound_throw|].
  intros t t' r Ht [Hg H0]. unfold is_u64 in *. unfold mbind, trans_mbind. unfold t_gets at 1. cbn. unfold t_sum, SubGas. rewrite Hg.
  destruct (Z.ltb_spec gp (msg_gasLimit msg)); cbn; [by intros [= <- <-]|]. unfold in_evm, db_do. cbn.
  destruct (st_SubBalance _ _ _) as [d|[]|] eqn:E; cbn; [|done]. intros [= <- <-]. split; [by eapply keeps_SubBalance|].
  unfold holds_gas. cbn. rewrite H0, !u64_small by (unfold is_u64; lia). lia.
Qed.

Lemma preCheck_sound : t_sound fresh (preCheck msg) (fun _ => holds_gas (msg_gasLimit msg) (msg_gasLimit msg)).
Proof.
  unfold preCheck. apply t_sound_calm; [by intros ? ? ?|apply from_calm|intros sender].
  eapply (t_sound_bind _ _ (fun _ => fresh)); [|intros _; apply buyGas_sound]. case_match; [|by apply t_sound_ret].
  apply t_sound_calm; [by intros ? ? ?|apply e_sound_read; auto with thrift|intros nonce]. case_match; [apply t_sound_throw|].
  case_match; [apply t_sound_throw|by apply t_sound_ret].
Qed.

Lemma useGas_sound amount : 0 ≤ amount → t_sound (holds_gas (msg_gasLimit msg) (msg_gasLimit msg)) (useGas amount) (fun _ => holds_gas 0 (msg_gasLimit msg - amount)).
Proof.
  intros Ha. unfold useGas. eapply t_sound_bind; [apply t_sound_gets|]. intros gas. case_match eqn:Eg; [apply t_sound_throw|]. apply Z.ltb_ge in Eg.
  apply t_sound_modify; [done|]. intros t [(H1 & H2 & H3 & H4) ->]. unfold holds_gas, is_u64 in *. cbn. rewrite u64_small; unfold is_u64; lia.
Qed.

(** The gas that the message runs with, and what is left of it. *)
Lemma runMessage_sound sender hi : hi < two64 → t_sound (holds_gas 0 hi) (runMessage en (Run en fuel) msg sender) (fun _ => holds_gas 0 hi).
Proof.
  intros Hhi. unfold runMessage. eapply t_sound_bind; [apply t_sound_gets|]. intros gas.
  apply t_sound_pure with (0 ≤ gas ≤ hi); [intros t [(_ & _ & _ & Hg) ->]; done|]. intros Hgas. assert (is_u64 gas) as Hu by (unfold is_u64; lia).
  pose proof (Run_thrifty en Hmeter fuel) as Hrun. set (P := fun t => holds_gas 0 hi t ∧ gas = t_gas t). assert (blind P) as Hb by (by intros ? ? ?).
  eapply (t_sound_bind _ _ (fun r t => P t ∧ gas_left gas r)).
  - destruct (msg_to msg).
    + do 2 (apply t_sound_calm; [by intros ? ? ?|first [apply e_sound_read|apply e_sound_do]; auto with thrift|intros]).
      apply t_sound_calm; [by intros ? ? ?|apply to_calm|intros]. apply t_sound_evm; [by intros ? ? ?|]. by apply Call_thrifty.
    + eapply t_sound_bind; [apply t_sound_evm; [by intros ? ? ?|by apply Create_thrifty]|]. intros [r a]. by apply t_sound_ret.
  - intros r. eapply (t_sound_bind _ _ (fun _ => holds_gas 0 hi)); [|intros _; by apply t_sound_ret].
    apply t_sound_modify; [done|]. intros t [[(H1 & H2 & H3 & H4) _] [H5 H6]]. unfold holds_gas. cbn. lia.
Qed.

(** The refund is at most half of what was used, and the pool gets the rest
    back. *)
Definition settled (hi : Z) (t : StateTransition) : Prop :=
  let used := msg_gasLimit msg - t_gas t in
  t_gp t = gp - used ∧ t_initialGas t = msg_gasLimit msg ∧ 0 ≤ used ≤ msg_gasLimit msg ∧ msg_gasLimit msg - hi ≤ 2 * used ∧ msg_gasLimit msg ≤ gp.

Lemma refund_sound : e_sound (e_gets (fun e => st_GetRefund (e_db e))) (fun c => 0 ≤ c).
Proof. intros e e' c He [= <- <-]. split; [done|]. by apply refund_nonneg. Qed.

(** With the refund, before it goes back to the pool. *)
Definition refunded (hi : Z) (t : StateTransition) : Prop :=
  msg_gasLimit msg ≤ gp ∧ t_gp t = gp - msg_gasLimit msg ∧ t_initialGas t = msg_gasLimit msg ∧
  0 ≤ t_gas t ≤ msg_gasLimit msg ∧ msg_gasLimit msg - hi ≤ 2 * (msg_gasLimit msg - t_gas t).

Lemma refundGas_sound hi : hi ≤ msg_gasLimit msg → t_sound (holds_gas 0 hi) (refundGas msg) (fun _ => settled hi).
Proof.
  intros Hhi. unfold is_u64 in *. unfold refundGas. eapply t_sound_bind; [apply t_sound_gets|intros used].
  eapply t_sound_bind; [apply t_sound_evm; [by intros ? ? ?|apply refund_sound]|intros counter]. cbv zeta.
  eapply (t_sound_bind _ _ (fun _ => refunded hi)); [apply t_sound_modify; [done|]|intros _].
  - intros t [[(H1 & H2 & H3 & H4) ->] Hn]. rewrite H3, (u64_small (msg_gasLimit msg - t_gas t)) by (unfold is_u64; lia).
    pose proof (refund_bounds (msg_gasLimit msg - t_gas t) counter ltac:(lia) Hn) as Hr. set (refund := if counter <? _ then _ else _) in *.
    assert (2 * ((msg_gasLimit msg - t_gas t) / 2) ≤ msg_gasLimit msg - t_gas t) as Hhalf by (apply Z.mul_div_le; lia).
    unfold refunded. cbn. rewrite u64_small by (unfold is_u64; lia). lia.
  - apply t_sound_calm; [by intros ? ? ?|apply from_calm|intros sender]. eapply t_sound_bind; [apply t_sound_gets|intros gas].
    apply t_sound_calm; [by intros ? ? ?|apply e_sound_do; auto with thrift|intros _]. eapply t_sound_bind; [apply t_sound_gets|intros pool].
    intros t t' r Ht [[(H1 & H2 & H3 & H4 & H5) ->] ->]. unfold mbind, trans_mbind, t_lift, AddGas. rewrite H2. case_match; cbn; [done|].
    intros [= <- <-]. split; [done|]. unfold settled. cbn. rewrite u64_small by (unfold is_u64; lia). lia.
Qed.

Lemma TransitionDb_sound : t_sound fresh (TransitionDb en (Run en fuel) msg) (fun a t =>
  let used := a.1.2 in t_gp t = gp - used ∧ used ≤ msg_gasLimit msg ≤ gp ∧
  intrinsic (msg_data msg) (bool_decide (msg_to msg = None)) (en_Homestead en) ≤ 2 * used).
Proof.
  unfold TransitionDb. eapply t_sound_bind; [apply preCheck_sound|intros ?]. apply t_sound_calm; [by intros ? ? ?|apply from_calm|intros sender].
  rewrite IntrinsicGas_spec by done. set (cost := intrinsic _ _ _).
  assert (0 ≤ cost) as Hc by (unfold cost, intrinsic; pose proof (count_nonzero_bounds (msg_data msg)); case_match; lia).
  eapply (t_sound_bind _ _ (fun g t => holds_gas (msg_gasLimit msg) (msg_gasLimit msg) t ∧ g = cost)).
  { intros t t' r Ht Hpt. case_match; by intros [= <- <-]. }
  intros g. apply t_sound_pure with (g = cost); [by intros t []|]. intros ->.
  eapply (t_sound_bind _ _ (fun _ => holds_gas 0 (msg_gasLimit msg - cost))); [eapply t_sound_weaken; [..|by apply useGas_sound]; [by intros t []|done]|intros ?].
  unfold is_u64 in *. eapply t_sound_bind; [apply runMessage_sound; lia|intros r]. case_decide; [apply t_sound_throw|].
  eapply t_sound_bind; [apply refundGas_sound; lia|intros ?].
  eapply t_sound_bind; [apply t_sound_gets|intros used1]. apply t_sound_calm; [by intros ? ? ?|apply e_sound_do; auto with thrift|intros ?].
  eapply t_sound_bind; [apply t_sound_gets|intros used]. apply t_sound_ret. intros t [[(Hg & Hi & Hu & Hl & Hle) _] ->]. cbn. rewrite Hi, u64_small by (unfold is_u64; lia).
  split_and!; [done|lia..].
Qed.

End Message.

(** ** The transactions of a block *)

Class BlockRefundLaws (HS : StateOps) (HR : RefundLaws HS) (HB : BlockOps HS) := {
  keeps_SetBalance a z : keeps refund_ok (st_SetBalance a z);
  keeps_Prepare h b i s : refund_ok s → refund_ok (st_Prepare h b i s);
  keeps_Finalise d : keeps refund_ok (st_Finalise d);
  keeps_IntermediateRoot d : keeps_on refund_ok (st_IntermediateRoot d)
}.

#[export] Instance StateDB_block_refunds `{HK : Keccak, HD : Database, HC : ARCCache Z} : BlockRefundLaws StateDB_ops StateDB_refunds StateDB_block.
Proof.
  split; [exact keeps_SetBalanceOf|done|exact keeps_Finalised|exact keeps_Root].
Qed.

(** The fields that are [uint64] in the code, and data that fits memory. *)
Definition tx_typed (tx : Transaction) : Prop := is_u64 (GasLimit (tx_data tx)) ∧ strlen (Payload (tx_data tx)) < 2 ^ 63.

(** The receipt of a transaction. *)
Definition receipt_of `{Keccak} (tx : Transaction) (r : Receipt) : Prop :=
  rc_TxHash r = (Transaction_Hash tx).2 ∧ rc_GasUsed r ≤ GasLimit (tx_data tx) ∧ 21000 ≤ 2 * rc_GasUsed r ∧
  CreateBloom (E := Empty_set) [r] = Ok (rc_Bloom r).

(** The receipts of the transactions from the gas used [g] on. *)
Fixpoint adds_up `{Keccak} (g : Z) (txs : list Transaction) (rs : list Receipt) (used : Z) : Prop :=
  match txs, rs with
  | [], [] => used = g
  | tx :: txs, r :: rs => receipt_of tx r ∧ rc_CumulativeGasUsed r = g + rc_GasUsed r ∧ adds_up (g + rc_GasUsed r) txs rs used
  | _, _ => False
  end.

Section Block.
Context `{HK : Keccak, HP : EvmCrypto, HS : StateOps, HR : !RefundLaws HS, HB : !BlockOps HS, HBR : !BlockRefundLaws HS HR HB} (pe : processEnv).

Lemma AsMessage_keeps sg tx tx' r : AsMessage sg tx = (tx', r) → tx_data tx' = tx_data tx ∧ tx_hash tx' = tx_hash tx ∧
  ∀ msg, r = Ok msg → msg_gasLimit msg = GasLimit (tx_data tx) ∧ msg_data msg = Payload (tx_data tx).
Proof.
  unfold AsMessage. assert (tx_data (Sender sg tx).1 = tx_data tx ∧ tx_hash (Sender sg tx).1 = tx_hash tx) as [Hd Hh].
  { unfold Sender. repeat case_match; done. }
  destruct (Sender sg tx) as [tx1 from]. cbn in *. intros [= <- <-]. split; [done|]. split; [done|].
  intros msg. destruct from; cbn; try done. intros [= <-]. cbn. by rewrite Hd.
Qed.

Lemma Transaction_Hash_again tx : (Transaction_Hash (Transaction_Hash tx).1).2 = (Transaction_Hash tx).2 ∧ tx_data (Transaction_Hash tx).1 = tx_data tx ∧
  tx_hash (Transaction_Hash tx).1 = Some (Transaction_Hash tx).2.
Proof. unfold Transaction_Hash. destruct (tx_hash tx) eqn:E; cbn; [by rewrite E|done]. Qed.

Lemma Transaction_Hash_cached tx h : tx_hash tx = Some h → Transaction_Hash tx = (tx, h).
Proof. unfold Transaction_Hash. by intros ->. Qed.

Lemma settle_state_sound header s s' root : refund_ok s → settle_state pe header s = Ok (s', root) → refund_ok s'.
Proof.
  intros Hs. unfold settle_state. case_match.
  - intros (s1 & E%from_pan_Ok & [= <- _])%bind_ok. by apply keeps_Finalise in E.
  - intros E%from_pan_Ok. by apply keeps_IntermediateRoot in E.
Qed.

Lemma receipt_for_spec root failed used h gas contract logs r : receipt_for root failed used h gas contract logs = Ok r →
  rc_TxHash r = h ∧ rc_GasUsed r = gas ∧ rc_CumulativeGasUsed r = used ∧ rc_Logs r = logs ∧ CreateBloom (E := Empty_set) [r] = Ok (rc_Bloom r).
Proof. unfold receipt_for. cbv zeta. intros (bloom & E%from_pan_Ok & [= <-])%bind_ok. done. Qed.

Lemma ApplyTransaction_sound author gp s header tx used h s' gp' used' tx' receipt gas :
  refund_ok s → is_u64 gp → 0 ≤ used → used + gp < two64 → tx_typed tx → tx_hash tx = Some h →
  ApplyTransaction pe author gp s header tx used = Ok (s', gp', used', tx', inl (receipt, gas)) →
  refund_ok s' ∧ 0 ≤ gp' ∧ gp' = gp - gas ∧ used' = used + gas ∧ receipt_of tx receipt ∧ rc_GasUsed receipt = gas ∧ rc_CumulativeGasUsed receipt = used'.
Proof.
  intros Hs Hgp Hu Hsum [Hlim Hdata] Hh. unfold ApplyTransaction. destruct (AsMessage _ tx) as [tx1 [msg|e|]] eqn:Em; [|done|done].
  destruct (AsMessage_keeps _ _ _ _ Em) as (Hd & Hh1 & Hm). destruct (Hm msg eq_refl) as [Hml Hmd]. cbv zeta.
  intros ([t r] & Et & E)%bind_ok. destruct r as [[[ret g] failed]|e]; [|done].
  destruct (TransitionDb_sound (message_env pe author header msg) eq_refl msg (message_fuel msg) gp ltac:(by rewrite Hml) Hgp ltac:(by rewrite Hmd)
    (NewStateTransition (NewEVM s) gp) t _ Hs (conj eq_refl eq_refl) Et) as [Hst Hres]. cbn in Hres. destruct Hres as (Hpool & Hle & Hintr). rewrite Hml, Hmd in *.
  apply bind_ok in E as ([s1 root] & Es & E). apply settle_state_sound in Es; [|done].
  rewrite (Transaction_Hash_cached tx1 h) in E by congruence. apply bind_ok in E as (rc & Er & [= <- <- <- <- <- <-]).
  apply receipt_for_spec in Er as (H1 & H2 & H3 & H4 & H5).
  assert (21000 ≤ 2 * g) as Hg.
  { revert Hintr. unfold intrinsic. pose proof (count_nonzero_bounds (Payload (tx_data tx))). case_match; lia. }
  unfold is_u64 in *. rewrite u64_small in * by (unfold is_u64; lia). split_and!; [done|lia|done|done| |done|done].
  split_and!; [by rewrite (Transaction_Hash_cached tx h)|lia..|done].
Qed.

Lemma process_loop_sound header blockHash txs : ∀ i gp s used s' gp' used' txs' receipts,
  refund_ok s → is_u64 gp → 0 ≤ used → used + gp < two64 → Forall tx_typed txs →
  process_loop pe header blockHash i txs gp s used = Ok (s', gp', used', txs', inl receipts) →
  refund_ok s' ∧ 0 ≤ gp' ∧ used' + gp' = used + gp ∧ adds_up used txs receipts used'.
Proof.
  induction txs as [|tx txs IH]; intros i gp s used s' gp' used' txs' receipts Hs Hgp Hu Hsum Htx; cbn [process_loop].
  { intros [= <- <- <- <- <-]. unfold is_u64 in Hgp. split_and!; [done|lia..|done]. }
  apply Forall_cons_iff in Htx as [Ht Htx]. destruct (Transaction_Hash_again tx) as (Hh & Hd & Hc). destruct (Transaction_Hash tx) as [tx1 h] eqn:Eh. cbn in Hh, Hd, Hc.
  intros ([[[[s1 gp1] used1] tx2] r] & E1 & E)%bind_ok. destruct r as [[receipt gas]|e]; [|done].
  apply ApplyTransaction_sound with (h := h) in E1 as (Hs1 & Hg0 & -> & -> & Hrec & Hgas & Hcum); [|by apply keeps_Prepare|done|done|done|unfold tx_typed; by rewrite Hd|done].
  apply bind_ok in E as ([[[[s2 gp2] used2] txs2] r] & E2 & E). destruct r as [rs|e]; [|done]. injection E as <- <- <- _ <-.
  assert (0 ≤ gas) by (destruct Hrec as (_ & _ & Hrec & _); lia). unfold is_u64 in Hgp.
  apply IH in E2 as (Hs2 & Hg2 & Hsum2 & Hadd); [|done|unfold is_u64; lia|lia..|done].
  split_and!; [done|done|lia|]. cbn [adds_up]. rewrite Hgas, Hcum. split_and!; [|done|done].
  unfold receipt_of in *. rewrite Hh, Hd in Hrec. by rewrite Eh.
Qed.

Lemma drain_sound l s s' : refund_ok s → drain st_SetBalance l s = Ok s' → refund_ok s'.
Proof.
  revert s. induction l as [|a l IH]; intros s Hs; cbn [drain]; [by intros [= <-]|].
  intros ([s1 b] & E1 & (s2 & E2 & (s3 & E3 & E)%bind_ok)%bind_ok)%bind_ok. apply keeps_GetBalance in E1; [|done].
  apply keeps_AddBalance in E2; [|done]. apply keeps_SetBalance in E3; [|done]. by apply IH in E.
Qed.

Lemma ApplyDAOHardFork_sound s s' : refund_ok s → ApplyDAOHardFork st_SetBalance s = Ok s' → refund_ok s'.
Proof.
  intros Hs ([s1 found] & E1 & (s2 & E2 & E)%bind_ok)%bind_ok. apply keeps_Exist in E1; [|done]. apply drain_sound in E; [done|].
  destruct found; [by injection E2 as <-|]. by apply keeps_CreateAccount in E2.
Qed.

Lemma Block_Hash_keeps b : blk_header (Block_Hash b).1 = blk_header b ∧ blk_transactions (Block_Hash b).1 = blk_transactions b.
Proof. unfold Block_Hash. by destruct (blk_hash b). Qed.

Lemma Process_sound finalize b s s' b' receipts logs used :
  refund_ok s → is_u64 (hdr_GasLimit (blk_header b)) → Forall tx_typed (blk_transactions b) →
  Process pe finalize b s = Ok (s', b', inl (receipts, logs, used)) →
  adds_up 0 (blk_transactions b) receipts used ∧ used ≤ hdr_GasLimit (blk_header b) ∧ logs = concat (rc_Logs <$> receipts) ∧ blk_header b' = blk_header b.
Proof.
  intros Hs Hlim Htx. unfold Process. cbv zeta. intros (gp & Eg%from_pan_Ok & (s1 & E1 & E)%bind_ok)%bind_ok.
  assert (gp = hdr_GasLimit (blk_header b)) as ->.
  { unfold AddGas in Eg. destruct (_ <? _); [done|]. injection Eg as <-. rewrite Z.add_0_l. by apply u64_small. }
  assert (refund_ok s1) as Hs1.
  { destruct (DAOForkBlock _) as [fork|]; [|by injection E1 as <-]. destruct (DAOForkSupport _); [|by injection E1 as <-].
    apply bind_ok in E1 as (number & _ & E1). destruct (_ =? _); [by eapply ApplyDAOHardFork_sound, from_pan_Ok|by injection E1 as <-]. }
  destruct (Block_Hash_keeps b) as [Hh _]. destruct (Block_Hash b) as [b1 h]. cbn in Hh.
  apply bind_ok in E as ([[[[s2 gp2] used2] txs2] r] & E2 & E). destruct r as [rs|e]; [|done].
  apply bind_ok in E as (s3 & _ & [= <- <- <- <- <-]). unfold is_u64 in Hlim.
  apply process_loop_sound in E2 as (_ & Hg & Hsum & Hadd); [|done..|lia|lia|done]. split_and!; [done|lia|done|by destruct txs2].
Qed.

(** C10. A block that is processed, on whatever state and with whatever code it
    runs, stays within its gas limit.  There is one receipt for every
    transaction, in order and with its hash; a transaction uses at least half of
    the 21000 it costs and at most its own limit; the cumulative gas of the
    receipts is the sum so far, with no step that wraps around. *)
Theorem Process_within_limit finalize b s s' b' receipts logs used :
  refund_ok s → is_u64 (hdr_GasLimit (blk_header b)) → Forall tx_typed (blk_transactions b) →
  Process pe finalize b s = Ok (s', b', inl (receipts, logs, used)) →
  adds_up 0 (blk_transactions b) receipts used ∧ used ≤ hdr_GasLimit (blk_header b) ∧ logs = concat (rc_Logs <$> receipts).
Proof. intros Hs Hlim Htx E. destruct (Process_sound _ _ _ _ _ _ _ _ Hs Hlim Htx E) as (H1 & H2 & H3 & _). done. Qed.

(** ** Blocks that are accepted *)

Context `{HD : Database}.

Lemma ValidateState_accepts {S} db (root : S → pan (S * Hash)) b s receipts used s' : ValidateState db root b s receipts used = Ok s' →
  hdr_GasUsed (blk_header b) = used ∧ CreateBloom (E := Empty_set) receipts = Ok (hdr_Bloom (blk_header b)) ∧
  DeriveSha db (receipts_GetRlp <$> receipts) = Ok (hdr_ReceiptHash (blk_header b)) ∧ root s = Ok (s', hdr_Root (blk_header b)).
Proof.
  unfold ValidateState. cbv zeta. intros [E1 E]%reject_Ok. apply from_nothing_Ok in E as (bl & E2 & E). apply reject_Ok in E as [E3 E].
  apply from_nothing_Ok in E as (sha & E4 & E). apply reject_Ok in E as [E5 E]. apply from_nothing_Ok in E as ([s1 r] & E6 & E).
  apply reject_Ok in E as [E7 [= <-]].
  apply negb_false_iff in E1, E3, E5, E7. apply Z.eqb_eq in E1. apply bool_decide_eq_true in E3, E5, E7. by subst.
Qed.

(** C11. What a node can rely on in the header of a block that it processed and
    accepted, on whatever state: the gas used is the sum over the receipts and
    within the gas limit, and a filter for logs that asks the bloom of the
    header first never passes over the block when a transaction of the block
    logged what it looks for. *)
Theorem accepted_block finalize db root b s s1 b1 receipts logs used s2 :
  refund_ok s → is_u64 (hdr_GasLimit (blk_header b)) → Forall tx_typed (blk_transactions b) →
  Process pe finalize b s = Ok (s1, b1, inl (receipts, logs, used)) → ValidateState db root b1 s1 receipts used = Ok s2 →
  adds_up 0 (blk_transactions b) receipts (hdr_GasUsed (blk_header b)) ∧ hdr_GasUsed (blk_header b) ≤ hdr_GasLimit (blk_header b) ∧
  (∀ fromBlock toBlock addresses topics, filterLogs logs fromBlock toBlock addresses topics ≠ [] →
     bloomFilter (hdr_Bloom (blk_header b)) addresses topics = true).
Proof.
  intros Hs Hlim Htx E Ev. destruct (Process_sound _ _ _ _ _ _ _ _ Hs Hlim Htx E) as (Hadd & Hle & -> & Hh).
  apply ValidateState_accepts in Ev as (<- & Hbloom & _). rewrite Hh in *. split_and!; [done|done|]. intros. by eapply bloomFilter_finds.
Qed.

End Block.
