(* ===== verification/GoHeap.v ===== *)
(** * Heaps (the package container/heap of Go)

    A heap is a slice whose elements are ordered along every path from the
    root; [Init], [Push], [Pop], [Remove] and [Fix] restore that order with
    [up] and [down].  The order is that of a key. *)

From S2P Require Import Prelude.
From stdpp Require Import base tactics option list numbers.
From Stdlib Require Import ZArith Lia.

#[local] Open Scope nat_scope.

(** ** The operations *)

Section Heap.
Context {A : Type} (key : A → Z).

(** [h.Less(i, j)] and [h.Swap(i, j)], for indices in range. *)
Definition Less (h : list A) (i j : nat) : bool :=
  match h !! i, h !! j with Some x, Some y => (key x <? key y)%Z | _, _ => false end.
Definition Swap (i j : nat) (h : list A) : list A :=
  match h !! i, h !! j with Some x, Some y => <[i := y]> (<[j := x]> h) | _, _ => h end.

(** The loops double or halve the index, so that the length bounds them. *)
Fixpoint up_loop (fuel : nat) (j : nat) (h : list A) : list A :=
  match fuel with
  | O => h
  | S fuel =>
      let i := (j - 1) / 2 in
      if (i =? j) || negb (Less h j i) then h else up_loop fuel i (Swap i j h)
  end.
Definition up (j : nat) (h : list A) : list A := up_loop (length h) j h.

Fixpoint down_loop (fuel : nat) (i n : nat) (h : list A) : list A * nat :=
  match fuel with
  | O => (h, i)
  | S fuel =>
      let j1 := 2 * i + 1 in
      if n <=? j1 then (h, i)
      else
        let j2 := j1 + 1 in
        let j := if (j2 <? n) && Less h j2 j1 then j2 else j1 in
        if negb (Less h j i) then (h, i) else down_loop fuel j n (Swap i j h)
  end.

(** The slice, and whether the element moved. *)
Definition down (i n : nat) (h : list A) : list A * bool :=
  let '(h, i') := down_loop (length h) i n h in (h, i <? i').

Fixpoint init_loop (i : nat) (n : nat) (h : list A) : list A :=
  match i with O => h | S i => init_loop i n (down i n h).1 end.
Definition Init (h : list A) : list A := init_loop (length h / 2) (length h) h.

Definition Push (x : A) (h : list A) : list A := up (length h) (h ++ [x]).

(** [h.Pop()] of the slice: the last element. *)
Definition pop_last (h : list A) : option (list A * A) :=
  x ← h !! (length h - 1); Some (take (length h - 1) h, x).

(** An empty heap panics. *)
Definition Pop (h : list A) : option (list A * A) :=
  let n := length h - 1 in
  let h := Swap 0 n h in
  let '(h, _) := down 0 n h in
  pop_last h.

Definition Remove (i : nat) (h : list A) : option (list A * A) :=
  let n := length h - 1 in
  let h := if n =? i then h
           else
             let h := Swap i n h in
             let '(h, moved) := down i n h in
             if moved then h else up i h in
  pop_last h.

Definition Fix (i : nat) (h : list A) : list A :=
  let '(h, moved) := down i (length h) h in
  if moved then h else up i h.

(** ** Swapping *)

Lemma Swap_lookup i j h k : i < length h → j < length h →
  Swap i j h !! k = if k =? i then h !! j else if k =? j then h !! i else h !! k.
Proof.
  intros Hi Hj. unfold Swap. destruct (lookup_lt_is_Some_2 h i Hi) as [x Hx], (lookup_lt_is_Some_2 h j Hj) as [y Hy]. rewrite Hx, Hy.
  destruct (Nat.eqb_spec k i) as [->|Hki]; [rewrite list_lookup_insert_eq by (by rewrite length_insert); done|].
  rewrite list_lookup_insert_ne by done. destruct (Nat.eqb_spec k j) as [->|Hkj]; [by rewrite list_lookup_insert_eq|].
  by rewrite list_lookup_insert_ne.
Qed.

Lemma Swap_length i j h : length (Swap i j h) = length h.
Proof. unfold Swap. repeat case_match; by rewrite ?length_insert. Qed.

Lemma Swap_perm i j h : Swap i j h ≡ₚ h.
Proof.
  unfold Swap. destruct (h !! i) as [x|] eqn:Hx; [|done]. destruct (h !! j) as [y|] eqn:Hy; [|done].
  destruct (decide (i = j)) as [->|Hne].
  - rewrite list_insert_insert_eq, list_insert_id; [done|congruence].
  - apply Permutation_inj. split; [by rewrite !length_insert|].
    exists (fun k => if k =? i then j else if k =? j then i else k). split.
    + intros k k'. repeat case_match; repeat match goal with E : (_ =? _) = true |- _ => apply Nat.eqb_eq in E | E : (_ =? _) = false |- _ => apply Nat.eqb_neq in E end; lia.
    + intros k. pose proof (lookup_lt_Some _ _ _ Hx). pose proof (lookup_lt_Some _ _ _ Hy).
      destruct (Nat.eqb_spec k i) as [->|Hki]; [by rewrite list_lookup_insert_eq, Hy by (by rewrite length_insert)|].
      rewrite list_lookup_insert_ne by done. destruct (Nat.eqb_spec k j) as [->|Hkj]; [by rewrite list_lookup_insert_eq, Hx|]. by rewrite list_lookup_insert_ne.
Qed.

(** ** The order *)

Definition kf (h : list A) (i : nat) : Z := from_option key 0%Z (h !! i).

Definition child (p c : nat) : Prop := c = 2 * p + 1 ∨ c = 2 * p + 2.

(** The first [n] elements are a heap from the index [k] on. *)
Definition heap_from (k n : nat) (h : list A) : Prop := ∀ p c, k ≤ p → child p c → c < n → (kf h p ≤ kf h c)%Z.
Definition is_heap (h : list A) : Prop := heap_from 0 (length h) h.

Lemma kf_Swap i j h k : i < length h → j < length h → kf (Swap i j h) k = if k =? i then kf h j else if k =? j then kf h i else kf h k.
Proof. intros Hi Hj. unfold kf. rewrite Swap_lookup by done. by repeat case_match. Qed.

Lemma Less_spec h i j : i < length h → j < length h → Less h i j = (kf h i <? kf h j)%Z.
Proof.
  intros Hi Hj. unfold Less, kf. destruct (lookup_lt_is_Some_2 h i Hi) as [x ->], (lookup_lt_is_Some_2 h j Hj) as [y ->]. done.
Qed.

Ltac order := repeat match goal with |- context [?a =? ?b] => destruct (Nat.eqb_spec a b); try lia end.

(** ** [down] *)

(** A heap but for the element at [i], which can be out of order with its
    parent and its children. *)
Definition hole (i k n : nat) (h : list A) : Prop :=
  (∀ p c, k ≤ p → child p c → c < n → p ≠ i → c ≠ i → (kf h p ≤ kf h c)%Z) ∧
  (∀ g c, k ≤ g → child g i → child i c → c < n → (kf h g ≤ kf h c)%Z).

(** The order of the element with its parent. *)
Definition below (i k : nat) (h : list A) : Prop := ∀ p, k ≤ p → child p i → (kf h p ≤ kf h i)%Z.

Lemma down_swapped i j k n h : n ≤ length h → child i j → j < n → k ≤ i → hole i k n h → (kf h j < kf h i)%Z →
  (∀ c, child i c → c < n → (kf h j ≤ kf h c)%Z) → hole j k n (Swap i j h) ∧ below j k (Swap i j h).
Proof.
  intros Hn Hc Hj Hk [Ho Hg] Hlt Hmin. unfold child in *. assert (i < length h ∧ j < length h) as [Hi' Hj'] by lia.
  split; [split|].
  - intros p c Hp Hpc Hcn Hpj Hcj. unfold child in *. rewrite !kf_Swap by done. order; subst.
    + apply Hmin; lia.
    + apply Hg; unfold child; lia.
    + apply Ho; unfold child; lia.
  - intros g c Hgk Hgj Hjc Hcn. unfold child in *. rewrite !kf_Swap by done. order; subst. apply Ho; unfold child; lia.
  - intros p Hp Hpj. unfold child in *. rewrite !kf_Swap by done. order; subst; lia.
Qed.

Lemma down_loop_spec fuel : ∀ i k n h, n ≤ length h → n - i ≤ fuel → k ≤ i → hole i k n h →
  let r := down_loop fuel i n h in
  r.1 ≡ₚ h ∧ length r.1 = length h ∧ i ≤ r.2 ∧ (r.2 = i → r.1 = h) ∧ (∀ x, n ≤ x → r.1 !! x = h !! x) ∧
  (below i k h ∨ r.2 ≠ i → heap_from k n r.1) ∧ (∀ c, r.2 = i → child i c → c < n → (kf h i ≤ kf h c)%Z).
Proof.
  induction fuel as [|fuel IH]; intros i k n h Hn Hf Hk Hh; cbn [down_loop]; cbv zeta.
  { cbn. split_and!; try done.
    - intros [Hb|?]; [|done]. intros p c Hp Hpc Hc. unfold child in *. destruct (decide (c = i)) as [->|]; [by apply Hb|]. apply (proj1 Hh); unfold child; lia.
    - unfold child. intros; lia. }
  destruct (Nat.leb_spec n (2 * i + 1)) as [Hend|Hmore].
  { cbn. split_and!; try done.
    - intros [Hb|?]; [|done]. intros p c Hp Hpc Hc. unfold child in *. destruct (decide (c = i)) as [->|]; [by apply Hb|]. apply (proj1 Hh); unfold child; lia.
    - unfold child. intros; lia. }
  set (j := if (2 * i + 1 + 1 <? n) && Less h (2 * i + 1 + 1) (2 * i + 1) then 2 * i + 1 + 1 else 2 * i + 1).
  assert (child i j ∧ j < n ∧ ∀ c, child i c → c < n → (kf h j ≤ kf h c)%Z) as (Hij & Hjn & Hmin).
  { unfold j, child. destruct (Nat.ltb_spec (2 * i + 1 + 1) n); cbn [andb].
    - rewrite Less_spec by lia. destruct (Z.ltb_spec (kf h (2 * i + 1 + 1)) (kf h (2 * i + 1))); split_and!; try lia;
        intros c [->| ->] Hc; replace (2 * i + 2) with (2 * i + 1 + 1) by lia; lia.
    - split_and!; try lia. intros c [->| ->] Hc; lia. }
  unfold child in Hij. rewrite Less_spec by lia. destruct (Z.ltb_spec (kf h j) (kf h i)) as [Hlt|Hge]; cbn [negb].
  - destruct (down_swapped i j k n h) as [Hh' Hb']; try done. unfold child in Hij.
    destruct (IH j k n (Swap i j h)) as (Hp & Hl & Hle & _ & Hrest & Hheap & _); [by rewrite Swap_length|lia..|done|].
    split_and!.
    + by rewrite Hp, Swap_perm.
    + by rewrite Hl, Swap_length.
    + lia.
    + intros; lia.
    + intros x Hx. rewrite Hrest, Swap_lookup by lia. order; done.
    + intros _. apply Hheap. by left.
    + intros; lia.
  - cbn. split_and!; try done.
    + intros [Hb|?]; [|done]. intros p c Hp Hpc Hc. destruct (decide (c = i)) as [->|]; [by apply Hb|].
      destruct (decide (p = i)) as [->|]; [specialize (Hmin c Hpc Hc); lia|]. by apply (proj1 Hh).
    + intros c _ Hc Hcn. specialize (Hmin c Hc Hcn). lia.
Qed.

(** ** [up] *)

Lemma parent_child j : 0 < j → child ((j - 1) / 2) j.
Proof. unfold child. intros Hj. pose proof (Nat.div_mod (j - 1) 2 ltac:(lia)). pose proof (Nat.mod_upper_bound (j - 1) 2 ltac:(lia)). lia. Qed.

Lemma up_loop_spec fuel : ∀ j n h, n ≤ length h → j < n → j ≤ fuel → hole j 0 n h → (∀ c, child j c → c < n → (kf h j ≤ kf h c)%Z) →
  let r := up_loop fuel j h in r ≡ₚ h ∧ length r = length h ∧ (∀ x, n ≤ x → r !! x = h !! x) ∧ heap_from 0 n r.
Proof.
  induction fuel as [|fuel IH]; intros j n h Hn Hj Hf [Ho Hg] Hc; cbn [up_loop]; cbv zeta.
  { split_and!; try done. intros p c _ Hpc Hcn. unfold child in *. destruct (decide (p = j)) as [->|]; [by apply Hc|]. apply Ho; unfold child; lia. }
  destruct (Nat.eqb_spec ((j - 1) / 2) j) as [Eij|Hij]; cbn [orb].
  { assert (j = 0) as -> by (destruct j; [done|]; pose proof (parent_child (S j) ltac:(lia)) as Hpc; unfold child in Hpc; lia).
    split_and!; try done. intros p c _ Hpc Hcn. unfold child in *. destruct (decide (p = 0)) as [->|]; [by apply Hc|]. apply Ho; unfold child; lia. }
  assert (0 < j) as Hj0 by (destruct j; [done|lia]). pose proof (parent_child j Hj0) as Hpc. set (i := (j - 1) / 2) in *. unfold child in Hpc.
  rewrite Less_spec by lia. destruct (Z.ltb_spec (kf h j) (kf h i)) as [Hlt|Hge]; cbn [negb].
  - destruct (IH i n (Swap i j h)) as (Hp & Hl & Hrest & Hheap); [by rewrite Swap_length|lia|lia| | |].
    + split.
      * intros p c _ Hpc' Hcn Hpi Hci. unfold child in *. rewrite !kf_Swap by lia. order; subst.
        -- apply Hg; unfold child; lia.
        -- apply Ho; unfold child; lia.
      * intros g c _ Hgi Hic Hcn. unfold child in *. rewrite !kf_Swap by lia. order; subst.
        -- apply Ho; unfold child; lia.
        -- transitivity (kf h i); apply Ho; unfold child; lia.
    + intros c Hic Hcn. unfold child in *. rewrite !kf_Swap by lia. order; subst; (transitivity (kf h i); [lia|]); apply Ho; unfold child; lia.
    + split_and!; [by rewrite Hp, Swap_perm|by rewrite Hl, Swap_length| |done]. intros x Hx. rewrite Hrest, Swap_lookup by lia. order; done.
  - split_and!; try done. intros p c _ Hpc' Hcn. unfold child in *. destruct (decide (p = j)) as [->|]; [by apply Hc|].
    destruct (decide (c = j)) as [->|]; [by replace p with i by lia|]. apply Ho; unfold child; lia.
Qed.

(** ** The operations restore the order *)

Lemma down_spec i k n h : n ≤ length h → k ≤ i → hole i k n h →
  let r := down i n h in
  r.1 ≡ₚ h ∧ length r.1 = length h ∧ (∀ x, n ≤ x → r.1 !! x = h !! x) ∧ (below i k h ∨ r.2 = true → heap_from k n r.1) ∧
  (r.2 = false → r.1 = h ∧ ∀ c, child i c → c < n → (kf h i ≤ kf h c)%Z).
Proof.
  intros Hn Hk Hh. unfold down. destruct (down_loop_spec (length h) i k n h) as (H1 & H2 & H3 & H4 & H5 & H6 & H7); [done|lia|done|done|].
  destruct (down_loop _ i n h) as [h' i']. cbn in *. split_and!; [done|done|done|..].
  - intros [Hb|E%Nat.ltb_lt]; apply H6; [by left|right; lia].
  - intros E%Nat.ltb_ge. split; [apply H4; lia|]. intros c. apply H7. lia.
Qed.

Lemma heap_from_hole i k n h : heap_from k n h → hole i k n h.
Proof.
  intros Hh. split; [intros p c Hp Hpc Hc _ _; by apply Hh|]. intros g c Hg Hgi Hic Hc.
  transitivity (kf h i); apply Hh; unfold child in *; lia.
Qed.

Lemma init_loop_spec i : ∀ n h, length h = n → heap_from i n h → init_loop i n h ≡ₚ h ∧ is_heap (init_loop i n h).
Proof.
  induction i as [|i IH]; intros n h Hn Hh; cbn [init_loop]; [split; [done|]; by rewrite <- Hn in Hh|].
  destruct (down_spec i i n h) as (Hp & Hl & _ & Hheap & _); [lia|lia| |].
  { split; [intros p c Hpk Hpc Hc Hpi _; apply Hh; [lia|done..]|]. intros g c Hg Hgi. unfold child in Hgi. lia. }
  destruct (IH n (down i n h).1) as [Hp' Hh']; [congruence|apply Hheap; left; intros p Hp' Hpi; unfold child in Hpi; lia|].
  split; [by rewrite Hp', Hp|done].
Qed.

Lemma Init_spec h : Init h ≡ₚ h ∧ is_heap (Init h).
Proof.
  apply init_loop_spec; [done|]. intros p c Hp Hpc Hc. unfold child in Hpc. pose proof (Nat.div_mod (length h) 2 ltac:(lia)).
  pose proof (Nat.mod_upper_bound (length h) 2 ltac:(lia)). lia.
Qed.

Lemma kf_app_l h t i : i < length h → kf (h ++ t) i = kf h i.
Proof. intros Hi. unfold kf. by rewrite lookup_app_l. Qed.

Lemma Push_spec x h : is_heap h → Push x h ≡ₚ x :: h ∧ is_heap (Push x h).
Proof.
  intros Hh. unfold Push, up. assert (length (h ++ [x]) = length h + 1) as Hl by (rewrite length_app; done).
  destruct (up_loop_spec (length (h ++ [x])) (length h) (length (h ++ [x])) (h ++ [x])) as (Hp & Hl' & _ & Hheap); [done|lia|lia| | |].
  - split; [|intros g c _ Hgi Hic; unfold child in *; lia]. intros p c _ Hpc Hc Hp Hci. unfold child in Hpc.
    rewrite !kf_app_l by lia. apply Hh; unfold child; lia.
  - intros c Hc Hcn. unfold child in Hc. lia.
  - split; [rewrite Hp; by rewrite (comm app)|]. unfold is_heap. by rewrite Hl'.
Qed.

(** The root is least. *)
Lemma heap_root_le h i : is_heap h → i < length h → (kf h 0 ≤ kf h i)%Z.
Proof.
  intros Hh. induction i as [i IH] using lt_wf_ind. intros Hi. destruct (decide (i = 0)) as [->|Hne]; [done|].
  pose proof (parent_child i ltac:(lia)) as Hpc. unfold child in Hpc. transitivity (kf h ((i - 1) / 2)); [apply IH; lia|]. apply Hh; unfold child; lia.
Qed.

Lemma heap_min h x y : is_heap h → h !! 0 = Some x → y ∈ h → (key x ≤ key y)%Z.
Proof.
  intros Hh Hx (i & Hi)%list_elem_of_lookup. pose proof (heap_root_le h i Hh (lookup_lt_Some _ _ _ Hi)) as Hle.
  unfold kf in Hle. by rewrite Hx, Hi in Hle.
Qed.

Lemma pop_last_spec h x : h !! (length h - 1) = Some x → heap_from 0 (length h - 1) h →
  ∃ h', pop_last h = Some (h', x) ∧ h ≡ₚ x :: h' ∧ is_heap h'.
Proof.
  intros Hx Hh. unfold pop_last. rewrite Hx. cbn. eexists. split; [done|]. pose proof (lookup_lt_Some _ _ _ Hx) as Hl. split.
  - rewrite <- (take_drop (length h - 1) h) at 1. rewrite (drop_S h x (length h - 1) Hx), drop_ge by lia. by rewrite (comm app).
  - assert (∀ i, i < length h - 1 → kf (take (length h - 1) h) i = kf h i) as Hk by (intros i Hi; unfold kf; by rewrite lookup_take_lt).
    intros p c _ Hpc Hc. rewrite length_take in Hc. unfold child in Hpc. rewrite !Hk by lia. apply Hh; unfold child; lia.
Qed.

(** The root after it was exchanged with the last element. *)
Lemma swapped_hole i h : is_heap h → i < length h - 1 → hole i 0 (length h - 1) (Swap i (length h - 1) h).
Proof.
  intros Hh Hi. split.
  - intros p c _ Hpc Hc Hpi Hci. unfold child in Hpc. rewrite !kf_Swap by lia. order. apply Hh; unfold child; lia.
  - intros g c _ Hgi Hic Hc. unfold child in *. rewrite !kf_Swap by lia. order. transitivity (kf h i); apply Hh; unfold child; lia.
Qed.

Lemma Pop_spec h x : is_heap h → h !! 0 = Some x → ∃ h', Pop h = Some (h', x) ∧ h ≡ₚ x :: h' ∧ is_heap h'.
Proof.
  intros Hh Hx. pose proof (lookup_lt_Some _ _ _ Hx) as Hl. unfold Pop. set (n := length h - 1). set (h1 := Swap 0 n h).
  assert (length h1 = length h) as Hl1 by apply Swap_length.
  assert (hole 0 0 n h1) as Hhole.
  { destruct (decide (0 < n)); [by apply swapped_hole|]. split; intros p c; unfold child, n in *; lia. }
  destruct (down_spec 0 0 n h1) as (Hp & Hl2 & Hrest & Hheap & _); [lia|lia|done|].
  destruct (down 0 n h1) as [h2 moved]. cbn in *.
  assert (h2 !! (length h2 - 1) = Some x) as Hx2.
  { rewrite Hl2, Hl1. change (length h - 1) with n. rewrite Hrest by lia. unfold h1. rewrite Swap_lookup by lia. order; congruence. }
  destruct (pop_last_spec h2 x Hx2) as (h' & -> & Hp' & Hh').
  { rewrite Hl2, Hl1. apply Hheap. left. intros p _ Hp0. unfold child in Hp0. lia. }
  exists h'. split_and!; [done| |done]. rewrite <- Hp', Hp. symmetry. apply Swap_perm.
Qed.

(** [down] or else [up] repairs a hole. *)
Lemma repair i n h : n ≤ length h → i < n → hole i 0 n h →
  let r := down i n h in let h' := if r.2 then r.1 else up i r.1 in
  h' ≡ₚ h ∧ length h' = length h ∧ (∀ x, n ≤ x → h' !! x = h !! x) ∧ heap_from 0 n h'.
Proof.
  intros Hn Hi Hh. destruct (down_spec i 0 n h) as (Hp & Hl & Hrest & Hheap & Hstay); [done|lia|done|].
  destruct (down i n h) as [h1 [|]]; cbn in *; [split_and!; auto|]. destruct (Hstay eq_refl) as [-> Hc]. unfold up.
  apply up_loop_spec; try done. lia.
Qed.

Lemma Remove_spec i h x : is_heap h → h !! i = Some x → ∃ h', Remove i h = Some (h', x) ∧ h ≡ₚ x :: h' ∧ is_heap h'.
Proof.
  intros Hh Hx. pose proof (lookup_lt_Some _ _ _ Hx) as Hl. unfold Remove. destruct (Nat.eqb_spec (length h - 1) i) as [<-|Hne].
  { apply pop_last_spec; [done|]. intros p c Hp Hpc Hc. apply Hh; [done|done|lia]. }
  set (n := length h - 1) in *. set (h1 := Swap i n h). assert (length h1 = length h) as Hl1 by apply Swap_length.
  destruct (repair i n h1) as (Hp & Hl2 & Hrest & Hheap); [lia|lia|apply swapped_hole; [done|lia]|].
  destruct (down i n h1) as [h2 moved]. cbn [fst snd] in *. cbv zeta in *. set (h3 := if moved then h2 else up i h2) in *.
  destruct (pop_last_spec h3 x) as (h' & -> & Hp' & Hh').
  - rewrite Hl2, Hl1. change (length h - 1) with n. rewrite Hrest by lia. unfold h1. rewrite Swap_lookup by lia. order; congruence.
  - by rewrite Hl2, Hl1.
  - exists h'. split_and!; [done| |done]. rewrite <- Hp', Hp. symmetry. apply Swap_perm.
Qed.

Lemma Fix_spec i y h : is_heap h → i < length h → Fix i (<[i := y]> h) ≡ₚ <[i := y]> h ∧ is_heap (Fix i (<[i := y]> h)).
Proof.
  intros Hh Hi. set (h1 := <[i := y]> h). assert (length h1 = length h) as Hl by apply length_insert.
  assert (∀ k, k ≠ i → kf h1 k = kf h k) as Hk by (intros k Hne; unfold kf, h1; by rewrite list_lookup_insert_ne).
  destruct (repair i (length h1) h1) as (Hp & Hl2 & _ & Hheap); [done|lia| |].
  { split.
    - intros p c _ Hpc Hc Hpi Hci. rewrite !Hk by done. apply Hh; [lia|done|lia].
    - intros g c _ Hgi Hic Hc. unfold child in *. rewrite !Hk by lia. transitivity (kf h i); apply Hh; unfold child; lia. }
  unfold Fix. destruct (down i (length h1) h1) as [h2 moved]. cbn [fst snd] in *. split; [done|]. unfold is_heap. by rewrite Hl2.
Qed.

End Heap.
