(* ===== verification/TxList.v ===== *)
(** * Lists of transactions (src/kernel/tx_list.go, src/kernel/types/transaction.go)

    The transactions of an account by nonce, a list of them with caps on cost
    and gas, the list of all transactions by price, and the order in which a
    miner takes the transactions of many accounts.  The pointers in these
    structures are shared with the pool, which never changes what they point
    to; the hash and the sender of a transaction are the same whether a cache
    holds them or not. *)

From S2P Require Import Prelude Types Interfaces Rlp Trie HeaderHash State GoMath Vm VmPrecompiled Tx GoHeap.
From stdpp Require Import base tactics option list numbers sorting gmap.
From Stdlib Require Import ZArith Lia.

#[local] Open Scope Z_scope.

Definition tx_Nonce (tx : Transaction) : Z := AccountNonce (tx_data tx).
Definition tx_GasPrice (tx : Transaction) : Z := Price (tx_data tx).
Definition tx_Gas (tx : Transaction) : Z := GasLimit (tx_data tx).

(** ** The transactions of an account by nonce *)

Module sorted.

Notation nonceHeap := (list Z).

Record txSortedMap := mkSorted {
  sm_items : gmap Z Transaction;
  sm_index : nonceHeap;
  sm_cache : option (list Transaction)
}.

Definition newTxSortedMap : txSortedMap := mkSorted ∅ [] None.

(** The key of the heap of nonces. *)
Definition nonce_key (n : Z) : Z := n.

Definition Get (nonce : Z) (m : txSortedMap) : option Transaction := sm_items m !! nonce.

Definition Put (tx : Transaction) (m : txSortedMap) : txSortedMap :=
  let nonce := tx_Nonce tx in
  let index := match sm_items m !! nonce with None => Push nonce_key nonce (sm_index m) | Some _ => sm_index m end in
  mkSorted (<[nonce := tx]> (sm_items m)) index None.

(** A nonce of the heap that is not in the map gives a nil pointer. *)
Fixpoint forward_loop (fuel : nat) (threshold : Z) (items : gmap Z Transaction) (index : nonceHeap) (removed : list (option Transaction)) :
    pan (gmap Z Transaction * nonceHeap * list (option Transaction)) :=
  match fuel, index with
  | S fuel, first :: _ =>
      if first <? threshold then
        '(index, nonce) ← deref (Pop nonce_key index);
        forward_loop fuel threshold (delete nonce items) index (removed ++ [items !! nonce])
      else Ok (items, index, removed)
  | _, _ => Ok (items, index, removed)
  end.

Definition Forward (threshold : Z) (m : txSortedMap) : pan (txSortedMap * list (option Transaction)) :=
  '(items, index, removed) ← forward_loop (length (sm_index m)) threshold (sm_items m) (sm_index m) [];
  cache ← match sm_cache m with
          | None => Ok None
          | Some c => if strlen c <? strlen removed then Panic else Ok (Some (drop (length removed) c))
          end;
  Ok (mkSorted items index cache, removed).

(** The map is visited in an order that Go leaves open. *)
Definition Filter (filter : Transaction → bool) (m : txSortedMap) : txSortedMap * list Transaction :=
  let removed := base.filter (fun tx => filter tx = true) (map_to_list (sm_items m)).*2 in
  let items := base.filter (fun ntx => filter ntx.2 = false) (sm_items m) in
  match removed with
  | [] => (m, [])
  | _ => (mkSorted items (Init nonce_key (map_to_list items).*1) None, removed)
  end.

(** [drops = append(drops, m.items[index[size-1]])] and so on, downwards. *)
Fixpoint cap_loop (fuel : nat) (size threshold : Z) (items : gmap Z Transaction) (idx : nonceHeap) (drops : list (option Transaction)) :
    pan (gmap Z Transaction * list (option Transaction)) :=
  match fuel with
  | O => Ok (items, drops)
  | S fuel =>
      if threshold <? size then
        nonce ← Rlp.index idx (size - 1);
        cap_loop fuel (size - 1) threshold (delete nonce items) idx (drops ++ [items !! nonce])
      else Ok (items, drops)
  end.

Definition Cap (threshold : Z) (m : txSortedMap) : pan (txSortedMap * list (option Transaction)) :=
  let len := Z.of_nat (size (sm_items m)) in
  if len <=? threshold then Ok (m, [])
  else
    let index := merge_sort Z.le (sm_index m) in
    '(items, drops) ← cap_loop (S (size (sm_items m))) len threshold (sm_items m) index [];
    index ← slice index 0 threshold;
    cache ← match sm_cache m with
            | None => Ok None
            | Some c => if strlen c <? strlen drops then Panic else Ok (Some (take (length c - length drops) c))
            end;
    Ok (mkSorted items (Init nonce_key index) cache, drops).

Definition find_nonce (nonce : Z) (index : nonceHeap) : option nat := fst <$> list_find (fun n => n = nonce) index.

Definition Remove (nonce : Z) (m : txSortedMap) : pan (txSortedMap * bool) :=
  match sm_items m !! nonce with
  | None => Ok (m, false)
  | Some _ =>
      index ← match find_nonce nonce (sm_index m) with
              | Some i => '(index, _) ← deref (GoHeap.Remove nonce_key i (sm_index m)); Ok index
              | None => Ok (sm_index m)
              end;
      Ok (mkSorted (delete nonce (sm_items m)) index None, true)
  end.

Fixpoint ready_loop (fuel : nat) (next : Z) (items : gmap Z Transaction) (index : nonceHeap) (ready : list (option Transaction)) :
    pan (gmap Z Transaction * nonceHeap * list (option Transaction)) :=
  match fuel, index with
  | S fuel, first :: _ =>
      if first =? next then
        '(index, _) ← deref (Pop nonce_key index);
        ready_loop fuel (next + 1)%u64 (delete next items) index (ready ++ [items !! next])
      else Ok (items, index, ready)
  | _, _ => Ok (items, index, ready)
  end.

Definition Ready (start : Z) (m : txSortedMap) : pan (txSortedMap * list (option Transaction)) :=
  match sm_index m with
  | [] => Ok (m, [])
  | first :: _ =>
      if start <? first then Ok (m, [])
      else
        '(items, index, ready) ← ready_loop (length (sm_index m)) first (sm_items m) (sm_index m) [];
        Ok (mkSorted items index None, ready)
  end.

Definition Len (m : txSortedMap) : Z := Z.of_nat (size (sm_items m)).

(** [TxByNonce] *)
Definition nonce_le (a b : Transaction) : Prop := tx_Nonce a ≤ tx_Nonce b.
#[export] Instance nonce_le_dec : RelDecision nonce_le := fun a b => decide (tx_Nonce a ≤ tx_Nonce b).

Definition Flatten (m : txSortedMap) : txSortedMap * list Transaction :=
  let cache := match sm_cache m with
               | Some c => c
               | None => merge_sort nonce_le (map_to_list (sm_items m)).*2
               end in
  (mkSorted (sm_items m) (sm_index m) (Some cache), cache).

End sorted.

(** ** The list of an account *)

Record txList := mkTxList {
  tl_strict : bool;
  tl_txs : sorted.txSortedMap;
  tl_costcap : Z;
  tl_gascap : Z
}.

Definition newTxList (strict : bool) : txList := mkTxList strict sorted.newTxSortedMap 0 0.

Definition Overlaps (tx : Transaction) (l : txList) : bool := bool_decide (is_Some (sorted.Get (tx_Nonce tx) (tl_txs l))).

(** The price that a transaction has to beat to take the place of [old]. *)
Definition bump (old : Transaction) (priceBump : Z) : Z := tx_GasPrice old * i64 (100 + priceBump) / 100.

Definition list_Add (tx : Transaction) (priceBump : Z) (l : txList) : txList * (bool * option Transaction) :=
  let old := sorted.Get (tx_Nonce tx) (tl_txs l) in
  let refused := match old with
                 | Some old => (tx_GasPrice tx <=? tx_GasPrice old) || (tx_GasPrice tx <? bump old priceBump)
                 | None => false
                 end in
  if refused then (l, (false, None))
  else
    let txs := sorted.Put tx (tl_txs l) in
    let cost := tx_Cost (tx_data tx) in
    let costcap := if tl_costcap l <? cost then cost else tl_costcap l in
    let gascap := if tl_gascap l <? tx_Gas tx then tx_Gas tx else tl_gascap l in
    (mkTxList (tl_strict l) txs costcap gascap, (true, old)).

Definition set_txs (txs : sorted.txSortedMap) (l : txList) : txList := mkTxList (tl_strict l) txs (tl_costcap l) (tl_gascap l).

Definition list_Forward (threshold : Z) (l : txList) : pan (txList * list (option Transaction)) :=
  '(txs, removed) ← sorted.Forward threshold (tl_txs l); Ok (set_txs txs l, removed).

(** [lowest] of the loop over the removed transactions. *)
Definition lowest_nonce (removed : list Transaction) : Z :=
  foldl (fun lowest tx => if tx_Nonce tx <? lowest then tx_Nonce tx else lowest) maxU64 removed.

Definition list_Filter (costLimit gasLimit : Z) (l : txList) : txList * (list Transaction * list Transaction) :=
  if (tl_costcap l <=? costLimit) && (tl_gascap l <=? gasLimit) then (l, ([], []))
  else
    let '(txs, removed) := sorted.Filter (fun tx => (costLimit <? tx_Cost (tx_data tx)) || (gasLimit <? tx_Gas tx)) (tl_txs l) in
    let '(txs, invalids) :=
      if tl_strict l && (0 <? strlen removed)
      then sorted.Filter (fun tx => lowest_nonce removed <? tx_Nonce tx) txs
      else (txs, []) in
    (mkTxList (tl_strict l) txs costLimit gasLimit, (removed, invalids)).

Definition list_Cap (threshold : Z) (l : txList) : pan (txList * list (option Transaction)) :=
  '(txs, drops) ← sorted.Cap threshold (tl_txs l); Ok (set_txs txs l, drops).

Definition list_Remove (tx : Transaction) (l : txList) : pan (txList * (bool * list Transaction)) :=
  let nonce := tx_Nonce tx in
  '(txs, removed) ← sorted.Remove nonce (tl_txs l);
  if negb removed then Ok (set_txs txs l, (false, []))
  else if tl_strict l then
    let '(txs, invalids) := sorted.Filter (fun tx => nonce <? tx_Nonce tx) txs in
    Ok (set_txs txs l, (true, invalids))
  else Ok (set_txs txs l, (true, [])).

Definition list_Ready (start : Z) (l : txList) : pan (txList * list (option Transaction)) :=
  '(txs, ready) ← sorted.Ready start (tl_txs l); Ok (set_txs txs l, ready).

Definition list_Len (l : txList) : Z := sorted.Len (tl_txs l).
Definition list_Empty (l : txList) : bool := list_Len l =? 0.
Definition list_Flatten (l : txList) : txList * list Transaction :=
  let '(txs, flat) := sorted.Flatten (tl_txs l) in (set_txs txs l, flat).

Section Accounts.
Context `{HK : Keccak, HP : EvmCrypto}.

Definition hash_of (tx : Transaction) : Hash := (Transaction_Hash tx).2.
Definition sender_of (s : Signer) (tx : Transaction) : sres Address := (Sender s tx).2.

(** ** Sets of accounts (src/kernel/tx_pool.go) *)

Record accountSet := mkAccountSet { as_accounts : gset Address; as_signer : Signer }.

Definition newAccountSet (signer : Signer) : accountSet := mkAccountSet ∅ signer.
Definition as_contains (addr : Address) (s : accountSet) : bool := bool_decide (addr ∈ as_accounts s).
Definition containsTx (tx : Transaction) (s : accountSet) : pan bool :=
  match sender_of (as_signer s) tx with Ok addr => Ok (as_contains addr s) | Err _ => Ok false | Panic => Panic end.
Definition as_add (addr : Address) (s : accountSet) : accountSet := mkAccountSet ({[addr]} ∪ as_accounts s) (as_signer s).

(** ** All transactions by price *)

Notation priceHeap := (list Transaction).

(** The pool's map of all transactions, to which the list has a pointer, is an
    argument of its methods. *)
Record txPricedList := mkPriced { pl_items : priceHeap; pl_stales : Z }.

Definition newTxPricedList : txPricedList := mkPriced [] 0.

Definition priced_Put (tx : Transaction) (l : txPricedList) : txPricedList := mkPriced (Push tx_GasPrice tx (pl_items l)) (pl_stales l).

Context (all : gmap Hash Transaction).

Definition priced_Removed (l : txPricedList) : txPricedList :=
  let stales := pl_stales l + 1 in
  if stales <=? strlen (pl_items l) / 4 then mkPriced (pl_items l) stales
  else mkPriced (Init tx_GasPrice (map_to_list all).*2) 0.

Definition is_stale (tx : Transaction) : bool := negb (bool_decide (is_Some (all !! hash_of tx))).

Definition put_back (save : list Transaction) (items : priceHeap) : priceHeap := foldl (fun items tx => Push tx_GasPrice tx items) items save.

Fixpoint priced_cap_loop (fuel : nat) (threshold : Z) (local : accountSet) (l : txPricedList) (drop save : list Transaction) :
    pan (txPricedList * list Transaction * list Transaction) :=
  match fuel, pl_items l with
  | S fuel, _ :: _ =>
      '(items, tx) ← deref (Pop tx_GasPrice (pl_items l));
      if is_stale tx then priced_cap_loop fuel threshold local (mkPriced items (pl_stales l - 1)) drop save
      else if threshold <=? tx_GasPrice tx then Ok (mkPriced items (pl_stales l), drop, save ++ [tx])
      else
        loc ← containsTx tx local;
        if loc : bool then priced_cap_loop fuel threshold local (mkPriced items (pl_stales l)) drop (save ++ [tx])
        else priced_cap_loop fuel threshold local (mkPriced items (pl_stales l)) (drop ++ [tx]) save
  | _, _ => Ok (l, drop, save)
  end.

Definition priced_Cap (threshold : Z) (local : accountSet) (l : txPricedList) : pan (txPricedList * list Transaction) :=
  '(l, drop, save) ← priced_cap_loop (length (pl_items l)) threshold local l [] [];
  Ok (mkPriced (put_back save (pl_items l)) (pl_stales l), drop).

(** Stale transactions at the front are thrown away. *)
Fixpoint skip_stale (fuel : nat) (l : txPricedList) : pan txPricedList :=
  match fuel, pl_items l with
  | S fuel, head :: _ =>
      if is_stale head then
        '(items, _) ← deref (Pop tx_GasPrice (pl_items l));
        skip_stale fuel (mkPriced items (pl_stales l - 1))
      else Ok l
  | _, _ => Ok l
  end.

Definition Underpriced (tx : Transaction) (local : accountSet) (l : txPricedList) : pan (txPricedList * bool) :=
  loc ← containsTx tx local;
  if loc : bool then Ok (l, false)
  else
    l ← skip_stale (length (pl_items l)) l;
    match pl_items l with
    | [] => Ok (l, false)
    | cheapest :: _ => Ok (l, tx_GasPrice tx <=? tx_GasPrice cheapest)
    end.

Fixpoint discard_loop (fuel : nat) (count : Z) (local : accountSet) (l : txPricedList) (drop save : list Transaction) :
    pan (txPricedList * list Transaction * list Transaction) :=
  match fuel, pl_items l with
  | S fuel, _ :: _ =>
      if 0 <? count then
        '(items, tx) ← deref (Pop tx_GasPrice (pl_items l));
        if is_stale tx then discard_loop fuel count local (mkPriced items (pl_stales l - 1)) drop save
        else
          loc ← containsTx tx local;
          if loc : bool then discard_loop fuel count local (mkPriced items (pl_stales l)) drop (save ++ [tx])
          else discard_loop fuel (count - 1) local (mkPriced items (pl_stales l)) (drop ++ [tx]) save
      else Ok (l, drop, save)
  | _, _ => Ok (l, drop, save)
  end.

(** A negative capacity of the result panics. *)
Definition Discard (count : Z) (local : accountSet) (l : txPricedList) : pan (txPricedList * list Transaction) :=
  if count <? 0 then Panic
  else
    '(l, drop, save) ← discard_loop (length (pl_items l)) count local l [] [];
    Ok (mkPriced (put_back save (pl_items l)) (pl_stales l), drop).

End Accounts.

(** ** The transactions of many accounts by price and nonce
    (src/kernel/types/transaction.go) *)

Section ByPrice.
Context `{HK : Keccak, HP : EvmCrypto} (signer : Signer).

(** The order of [TxByPrice]: the highest price first. *)
Definition price_key (tx : Transaction) : Z := - tx_GasPrice tx.

Record TransactionsByPriceAndNonce := mkByPrice {
  bp_txs : gmap Address (list Transaction);
  bp_heads : list Transaction
}.

(** The sender, or the zero address where it cannot be found. *)
Definition account_of_tx (tx : Transaction) : pan Address :=
  match sender_of signer tx with Ok a => Ok a | Err _ => Ok zeroAddress | Panic => Panic end.

Fixpoint heads_loop (keys : list Address) (txs : gmap Address (list Transaction)) (heads : list Transaction) :
    pan (gmap Address (list Transaction) * list Transaction) :=
  match keys with
  | [] => Ok (txs, heads)
  | k :: keys =>
      match default [] (txs !! k) with
      | [] => Panic
      | tx :: rest =>
          acc ← account_of_tx tx;
          heads_loop keys (<[acc := rest]> txs) (heads ++ [tx])
      end
  end.

(** The accounts are visited in an order that Go leaves open; an account that
    the loop adds to the map is not visited. *)
Definition NewTransactionsByPriceAndNonce (txs : gmap Address (list Transaction)) : pan TransactionsByPriceAndNonce :=
  '(txs, heads) ← heads_loop (map_to_list txs).*1 txs [];
  Ok (mkByPrice txs (Init price_key heads)).

Definition Peek (t : TransactionsByPriceAndNonce) : option Transaction := bp_heads t !! 0%nat.

Definition Shift (t : TransactionsByPriceAndNonce) : pan TransactionsByPriceAndNonce :=
  head ← deref (bp_heads t !! 0%nat);
  acc ← account_of_tx head;
  match bp_txs t !! acc with
  | Some (tx :: rest) => Ok (mkByPrice (<[acc := rest]> (bp_txs t)) (Fix price_key 0 (<[0%nat := tx]> (bp_heads t))))
  | _ => '(heads, _) ← deref (Pop price_key (bp_heads t)); Ok (mkByPrice (bp_txs t) heads)
  end.

Definition ByPrice_Pop (t : TransactionsByPriceAndNonce) : pan TransactionsByPriceAndNonce :=
  '(heads, _) ← deref (Pop price_key (bp_heads t)); Ok (mkByPrice (bp_txs t) heads).

End ByPrice.
