(* ===== verification/TxListSpec.v ===== *)
(** * Lists of transactions: what they promise

    The sorted map is a map from nonces to transactions, and what leaves it
    leaves in the order of the nonces; a filtered list holds what its limits
    allow and, if it is strict, nothing behind a gap; a miner gets the
    transactions of every account in the order of their nonces, and at every
    step one with the highest price. *)

From S2P Require Import Prelude Types Interfaces Rlp Trie HeaderHash State GoMath Vm VmPrecompiled Tx GoHeap TxList.
From stdpp Require Import base tactics option list numbers sorting gmap.
From Stdlib Require Import ZArith Lia.

#[local] Open Scope Z_scope.

(** ** The nonces of a map *)

Notation txmap := (gmap Z Transaction).

Definition nonces (items : txmap) : list Z := merge_sort Z.le (map_to_list items).*1.

(** The transactions with these nonces. *)
Definition at_nonces (items : txmap) (ns : list Z) : list Transaction := omap (fun n => items !! n) ns.
Definition without (ns : list Z) (items : txmap) : txmap := filter (fun ntx => ntx.1 ∉ ns) items.

Lemma nonces_perm items : nonces items ≡ₚ (map_to_list items).*1.
Proof. apply merge_sort_Permutation. Qed.

Lemma elem_of_nonces items n : n ∈ nonces items ↔ is_Some (items !! n).
Proof.
  rewrite nonces_perm, list_elem_of_fmap. split.
  - intros ([n' tx] & -> & H%elem_of_map_to_list). by exists tx.
  - intros [tx H]. exists (n, tx). split; [done|]. by apply elem_of_map_to_list.
Qed.

Lemma NoDup_nonces items : NoDup (nonces items).
Proof. rewrite nonces_perm. apply NoDup_fst_map_to_list. Qed.

Lemma nonces_sorted items : StronglySorted Z.le (nonces items).
Proof. apply StronglySorted_merge_sort; apply _. Qed.

Lemma nonces_unique items l : StronglySorted Z.le l → l ≡ₚ (map_to_list items).*1 → l = nonces items.
Proof. intros Hs Hp. apply (StronglySorted_unique Z.le); [done|apply nonces_sorted|]. by rewrite nonces_perm. Qed.

(** The sorted list with the elements of the map. *)
Lemma nonces_eq items l : StronglySorted Z.le l → NoDup l → (∀ n, n ∈ l ↔ is_Some (items !! n)) → l = nonces items.
Proof.
  intros Hs Hnd Hl. apply nonces_unique; [done|]. rewrite <- nonces_perm. apply NoDup_Permutation; [done|apply NoDup_nonces|].
  intros n. by rewrite Hl, elem_of_nonces.
Qed.

Lemma lookup_without ns items n : without ns items !! n = if decide (n ∈ ns) then None else items !! n.
Proof.
  unfold without. rewrite map_lookup_filter. destruct (items !! n) as [tx|]; cbn; [|by case_decide].
  case_decide as Hn; [by rewrite option_guard_False by (cbn; naive_solver)|by rewrite option_guard_True].
Qed.

Lemma sublist_sorted l k : l `sublist_of` k → StronglySorted Z.le k → StronglySorted Z.le l.
Proof.
  induction 1 as [|x l k Hlk IH|x l k Hlk IH]; intros Hs; [constructor|..]; apply StronglySorted_inv in Hs as [Hs Hx]; [|by apply IH].
  constructor; [by apply IH|]. rewrite Forall_forall in *. intros y Hy. apply Hx. by eapply elem_of_submseteq, sublist_submseteq.
Qed.

Lemma nonces_without ns items : nonces (without ns items) = filter (fun n => n ∉ ns) (nonces items).
Proof.
  symmetry. apply nonces_eq.
  - eapply sublist_sorted; [apply sublist_filter|apply nonces_sorted].
  - apply NoDup_filter, NoDup_nonces.
  - intros n. rewrite list_elem_of_filter, elem_of_nonces, lookup_without. case_decide; [|naive_solver].
    split; [naive_solver|by intros [? ?]].
Qed.

Lemma filter_all {A} (P : A → Prop) `{∀ x, Decision (P x)} (l : list A) : (∀ x, x ∈ l → P x) → filter P l = l.
Proof.
  induction l as [|x l IH]; intros Hp; [done|]. rewrite filter_cons_True by (apply Hp; by left). f_equal. apply IH. intros y Hy. apply Hp. by right.
Qed.

Lemma filter_none {A} (P : A → Prop) `{∀ x, Decision (P x)} (l : list A) : (∀ x, x ∈ l → ¬ P x) → filter P l = [].
Proof.
  induction l as [|x l IH]; intros Hp; [done|]. rewrite filter_cons_False by (apply Hp; by left). apply IH. intros y Hy. apply Hp. by right.
Qed.

(** ** The heap of nonces *)

Definition index_ok (items : txmap) (index : list Z) : Prop := is_heap sorted.nonce_key index ∧ index ≡ₚ (map_to_list items).*1.

Lemma index_nonces items index : index_ok items index → index ≡ₚ nonces items.
Proof. intros [_ Hp]. by rewrite nonces_perm. Qed.

Lemma index_ok_intro items index : is_heap sorted.nonce_key index → index ≡ₚ nonces items → index_ok items index.
Proof. intros Hh Hp. split; [done|]. by rewrite Hp, nonces_perm. Qed.

(** The first nonce of the heap is the least. *)
Lemma index_first items n idx : index_ok items (n :: idx) → nonces items = n :: nonces (without [n] items) ∧ is_Some (items !! n) ∧
  ∃ idx', Pop sorted.nonce_key (n :: idx) = Some (idx', n) ∧ index_ok (without [n] items) idx'.
Proof.
  intros Hi. pose proof (index_nonces _ _ Hi) as Hp. destruct Hi as [Hh _].
  assert (is_Some (items !! n)) as Hn by (apply elem_of_nonces; rewrite <- Hp; by left).
  assert (nonces items = n :: nonces (without [n] items)) as E.
  { destruct (nonces items) as [|n' ns] eqn:En; [by apply Permutation_nil_r in Hp|].
    assert (n' = n) as ->.
    { apply (anti_symm Z.le).
      - pose proof (nonces_sorted items) as Hs. rewrite En in Hs. apply StronglySorted_inv in Hs as [_ Hs]. rewrite Forall_forall in Hs.
        assert (n ∈ n' :: ns) as [->|Hin]%elem_of_cons by (rewrite <- Hp; by left); [done|by apply Hs].
      - apply (heap_min sorted.nonce_key (n :: idx) n n' Hh eq_refl). rewrite Hp. by left. }
    f_equal. rewrite nonces_without, En. pose proof (NoDup_nonces items) as Hnd. rewrite En in Hnd. apply NoDup_cons in Hnd as [Hnn Hnd].
    rewrite filter_cons_False by set_solver. rewrite filter_all; [done|]. intros x Hx Hxn. apply list_elem_of_singleton in Hxn as ->. done. }
  split; [done|]. split; [done|]. destruct (Pop_spec sorted.nonce_key (n :: idx) n Hh eq_refl) as (idx' & -> & Hp' & Hh').
  exists idx'. split; [done|]. apply index_ok_intro; [done|]. apply (Permutation_cons_inv (a := n)). by rewrite <- Hp', Hp, E.
Qed.

Lemma index_ok_nil items : index_ok items [] → items = ∅.
Proof.
  intros [_ Hp]. apply map_eq. intros n. rewrite lookup_empty. destruct (items !! n) eqn:E; [|done].
  assert (n ∈ nonces items) as Hn by (apply elem_of_nonces; by exists t). rewrite nonces_perm, <- Hp in Hn. by apply elem_of_nil in Hn.
Qed.


(** ** The sorted map *)

Definition flat (items : txmap) : list Transaction := at_nonces items (nonces items).

Definition keyed (items : txmap) : Prop := map_Forall (fun n tx => tx_Nonce tx = n) items.

Record sm_ok (m : sorted.txSortedMap) : Prop := {
  sm_keyed : keyed (sorted.sm_items m);
  sm_indexed : index_ok (sorted.sm_items m) (sorted.sm_index m);
  sm_cached : ∀ c, sorted.sm_cache m = Some c → c = flat (sorted.sm_items m)
}.

Lemma at_nonces_app items ns ks : at_nonces items (ns ++ ks) = at_nonces items ns ++ at_nonces items ks.
Proof. apply omap_app. Qed.

Lemma at_nonces_cons items n ns : at_nonces items (n :: ns) = match items !! n with Some tx => tx :: at_nonces items ns | None => at_nonces items ns end.
Proof. done. Qed.

Lemma at_nonces_without items ks ns : (∀ n, n ∈ ns → n ∉ ks) → at_nonces (without ks items) ns = at_nonces items ns.
Proof.
  intros Hn. induction ns as [|n ns IH]; [done|]. rewrite !at_nonces_cons, lookup_without, decide_False by (apply Hn; by left).
  rewrite IH; [done|]. intros k Hk. apply Hn. by right.
Qed.

Lemma at_nonces_length items ns : (∀ n, n ∈ ns → is_Some (items !! n)) → length (at_nonces items ns) = length ns.
Proof.
  induction ns as [|n ns IH]; intros Hn; [done|]. rewrite at_nonces_cons. destruct (Hn n) as [tx ->]; [by left|]. cbn. f_equal. apply IH. intros k Hk. apply Hn. by right.
Qed.

Lemma without_single n items : delete n items = without [n] items.
Proof.
  apply map_eq. intros k. rewrite lookup_without. case_decide as Hk.
  - apply list_elem_of_singleton in Hk as ->. apply lookup_delete_eq.
  - apply lookup_delete_ne. set_solver.
Qed.

Lemma without_without ns ks items : without ns (without ks items) = without (ks ++ ns) items.
Proof. apply map_eq. intros k. rewrite !lookup_without. repeat case_decide; set_solver. Qed.

Lemma without_nil items : without [] items = items.
Proof. apply map_eq. intros k. rewrite lookup_without, decide_False; [done|]. apply not_elem_of_nil. Qed.

Lemma keyed_without ns items : keyed items → keyed (without ns items).
Proof. intros Hk n tx. rewrite lookup_without. case_decide; [done|]. apply Hk. Qed.

(** What is left of the cache when a first or last part is taken away. *)
Lemma flat_split items ns ks : nonces items = ns ++ ks → flat items = at_nonces items ns ++ at_nonces items ks ∧
  at_nonces items ks = flat (without ns items) ∧ at_nonces items ns = flat (without ks items).
Proof.
  intros E. pose proof (NoDup_nonces items) as Hnd. rewrite E in Hnd. apply NoDup_app in Hnd as (_ & Hd & _).
  unfold flat. rewrite !nonces_without, E, !filter_app. split; [apply at_nonces_app|].
  rewrite (filter_none (fun n => n ∉ ns) ns), (filter_none (fun n => n ∉ ks) ks) by naive_solver.
  rewrite (filter_all (fun n => n ∉ ns) ks), (filter_all (fun n => n ∉ ks) ns) by naive_solver.
  rewrite app_nil_r. cbn [app]. rewrite !at_nonces_without by naive_solver. done.
Qed.

(** The least nonce and the others. *)
Lemma nonces_head_le items n : nonces items = n :: nonces (without [n] items) → ∀ k, k ∈ nonces (without [n] items) → n ≤ k.
Proof.
  intros E k Hk. pose proof (nonces_sorted items) as Hs. rewrite E in Hs. apply StronglySorted_inv in Hs as [_ Hs].
  rewrite Forall_forall in Hs. by apply Hs.
Qed.

(** *** [Forward] *)

Lemma index_length items index : index_ok items index → length index = length (nonces items).
Proof. intros Hi. by apply Permutation_length, index_nonces. Qed.

(** Taking the first nonce away. *)
Lemma at_nonces_first items n tx ns : items !! n = Some tx → n ∉ ns →
  at_nonces items (n :: ns) = tx :: at_nonces (without [n] items) ns.
Proof. intros E Hn. rewrite at_nonces_cons, E, at_nonces_without by set_solver. done. Qed.

Lemma first_fresh items n : n ∉ nonces (without [n] items).
Proof. rewrite elem_of_nonces, lookup_without, decide_True by set_solver. by intros [? ?]. Qed.

Lemma forward_loop_spec threshold fuel : ∀ items index removed, (length index ≤ fuel)%nat → index_ok items index →
  let ns := filter (fun n => n < threshold) (nonces items) in
  ∃ index', sorted.forward_loop fuel threshold items index removed = Ok (without ns items, index', removed ++ (Some <$> at_nonces items ns)) ∧
    index_ok (without ns items) index'.
Proof.
  induction fuel as [|fuel IH]; intros items [|n idx] removed Hf Hi; cbn [sorted.forward_loop]; [|cbn in Hf; lia|..].
  1-2: apply index_ok_nil in Hi as ->; exists []; cbn; rewrite app_nil_r; done.
  destruct (index_first items n idx Hi) as (E & [tx Htx] & idx' & Ep & Hi'). rewrite E. destruct (Z.ltb_spec n threshold) as [Hlt|Hge].
  - rewrite Ep. cbn [deref]. rewrite bind_Ok, without_single, Htx. destruct (IH (without [n] items) idx' (removed ++ [Some tx])) as (idx2 & -> & Hi2); [|done|].
    { pose proof (index_length _ _ Hi) as Hl. rewrite E in Hl. pose proof (index_length _ _ Hi') as Hl'. cbn in *. lia. }
    exists idx2. rewrite filter_cons_True by done. rewrite without_without in *. split; [|done]. do 2 f_equal.
    rewrite (at_nonces_first _ _ tx) by (done || rewrite list_elem_of_filter; pose proof (first_fresh items n); naive_solver).
    rewrite <- app_assoc. done.
  - exists (n :: idx). rewrite filter_none; [cbn; rewrite app_nil_r, without_nil; done|].
    intros k Hk. apply elem_of_cons in Hk as [->|Hk]; [lia|]. pose proof (nonces_head_le _ _ E k Hk). lia.
Qed.

Lemma sorted_split t l : StronglySorted Z.le l → l = filter (fun n => n < t) l ++ filter (fun n => ¬ n < t) l.
Proof.
  induction 1 as [|n l Hs IH Hn]; [done|]. destruct (decide (n < t)) as [Hlt|Hge].
  - rewrite filter_cons_True, filter_cons_False by naive_solver. cbn. by f_equal.
  - rewrite Forall_forall in Hn. rewrite (filter_none (fun n => n < t)), filter_all; [done|..];
      intros k [->|Hk]%elem_of_cons; try done; specialize (Hn k Hk); lia.
Qed.

Lemma nonces_items items ns : (∀ n, n ∈ ns → n ∈ nonces items) → length (at_nonces items ns) = length ns.
Proof. intros Hn. apply at_nonces_length. intros n Hi. by apply elem_of_nonces, Hn. Qed.

(** What an operation that removes the transactions [ns] gives. *)
Definition removes (ns : list Z) (m m' : sorted.txSortedMap) (out : list (option Transaction)) : Prop :=
  sorted.sm_items m' = without ns (sorted.sm_items m) ∧ out = Some <$> at_nonces (sorted.sm_items m) ns ∧ sm_ok m'.

Lemma removes_nothing m : sm_ok m → removes [] m m [].
Proof. intros Hm. split; [by rewrite without_nil|done]. Qed.

Lemma Forward_spec t m : sm_ok m → ∃ m' out, sorted.Forward t m = Ok (m', out) ∧
  removes (filter (fun n => n < t) (nonces (sorted.sm_items m))) m m' out.
Proof.
  destruct m as [items index cache]. intros [Hk Hi Hc]. unfold sorted.Forward. cbn [sorted.sm_items sorted.sm_index sorted.sm_cache] in *.
  destruct (forward_loop_spec t (length index) items index [] ltac:(done) Hi) as (index' & -> & Hi'). rewrite bind_Ok. cbn [app].
  set (ns := filter _ (nonces items)) in *. destruct (flat_split items ns (filter (fun n => ¬ n < t) (nonces items))) as (Ef & Er & _).
  { apply sorted_split, nonces_sorted. }
  destruct cache as [c|]; cbn [sorted.sm_cache].
  - specialize (Hc c eq_refl) as ->. rewrite Ef, length_fmap, length_app. destruct (Z.ltb_spec (Z.of_nat (length (at_nonces items ns) + length (at_nonces items (filter (fun n => ¬ n < t) (nonces items))))) (Z.of_nat (length (at_nonces items ns)))); [lia|].
    rewrite bind_Ok, drop_app_length. eexists _, _. split; [done|]. split; [done|]. split; [done|]. constructor; cbn; [by apply keyed_without|done|].
    intros c [= <-]. done.
  - rewrite bind_Ok. eexists _, _. split; [done|]. split; [done|]. split; [done|]. constructor; cbn; [by apply keyed_without|done|done].
Qed.

(** *** [Cap] *)

Lemma without_ext ns ks items : (∀ n, n ∈ ns ↔ n ∈ ks) → without ns items = without ks items.
Proof. intros He. apply map_eq. intros n. rewrite !lookup_without. repeat case_decide; naive_solver. Qed.

Lemma cap_loop_spec items (k : nat) fuel : ∀ s : nat, (k ≤ s ≤ length (nonces items))%nat → (s - k < fuel)%nat →
  sorted.cap_loop fuel (Z.of_nat s) (Z.of_nat k) (without (drop s (nonces items)) items) (nonces items) (Some <$> at_nonces items (reverse (drop s (nonces items)))) =
    Ok (without (drop k (nonces items)) items, Some <$> at_nonces items (reverse (drop k (nonces items)))).
Proof.
  induction fuel as [|fuel IH]; intros s Hs Hf; [lia|]. cbn [sorted.cap_loop]. destruct (Z.ltb_spec (Z.of_nat k) (Z.of_nat s)) as [Hlt|Hge].
  - destruct s as [|s]; [lia|]. replace (Z.of_nat (S s) - 1) with (Z.of_nat s) by lia. unfold Rlp.index.
    destruct (Z.ltb_spec (Z.of_nat s) 0); [lia|]. rewrite Nat2Z.id. destruct (lookup_lt_is_Some_2 (nonces items) s) as [n Hn]; [lia|].
    rewrite Hn. cbn [deref]. rewrite bind_Ok. rewrite <- (IH s) by lia. rewrite (drop_S _ n s Hn).
    assert (n ∉ drop (S s) (nonces items)) as Hfresh.
    { pose proof (NoDup_nonces items) as Hnd. rewrite <- (take_drop s (nonces items)), (drop_S _ n s Hn) in Hnd.
      apply NoDup_app in Hnd as (_ & _ & Hnd). by apply NoDup_cons in Hnd as [? _]. }
    destruct (proj1 (elem_of_nonces items n)) as [tx Htx]; [by eapply list_elem_of_lookup_2|].
    f_equal; [|rewrite reverse_cons, at_nonces_app, at_nonces_cons, Htx, fmap_app, lookup_without, decide_False, Htx; done].
    rewrite without_single, without_without. apply without_ext. set_solver.
  - by replace s with k by lia.
Qed.

Lemma size_nonces items : size items = length (nonces items).
Proof. by rewrite nonces_perm, length_fmap, length_map_to_list. Qed.

Lemma sorted_index items index : index_ok items index → merge_sort Z.le index = nonces items.
Proof.
  intros [_ Hp]. apply nonces_unique; [apply StronglySorted_merge_sort; apply _|]. by rewrite merge_sort_Permutation.
Qed.

Lemma slice_take (l : list Z) k : (k ≤ length l)%nat → slice (E := Empty_set) l 0 (Z.of_nat k) = Ok (take k l).
Proof.
  intros Hk. unfold slice. destruct (Z.leb_spec 0 (Z.of_nat k)); [|lia]. destruct (Z.leb_spec (Z.of_nat k) (Z.of_nat (length l))); [|lia].
  cbn [andb Z.leb Z.compare]. by rewrite Z.sub_0_r, Nat2Z.id.
Qed.

Lemma filter_take (l : list Z) k : NoDup l → filter (fun n => n ∉ drop k l) l = take k l.
Proof.
  intros Hnd. rewrite <- (take_drop k l) in Hnd. apply NoDup_app in Hnd as (_ & Hd & _).
  transitivity (filter (fun n => n ∉ drop k l) (take k l ++ drop k l)); [by rewrite take_drop|].
  rewrite filter_app, filter_all, filter_none, app_nil_r by naive_solver. done.
Qed.

Lemma Cap_spec (k : nat) m : sm_ok m → ∃ m' out, sorted.Cap (Z.of_nat k) m = Ok (m', out) ∧
  removes (reverse (drop k (nonces (sorted.sm_items m)))) m m' out.
Proof.
  intros Hm. unfold sorted.Cap. rewrite size_nonces. destruct (Z.leb_spec (Z.of_nat (length (nonces (sorted.sm_items m)))) (Z.of_nat k)) as [Hle|Hgt].
  { eexists _, _. split; [done|]. rewrite drop_ge by lia. by apply removes_nothing. }
  destruct m as [items index cache], Hm as [Hk Hi Hc]. cbn [sorted.sm_items sorted.sm_index sorted.sm_cache] in *.
  rewrite (sorted_index _ _ Hi). pose proof (cap_loop_spec items k (S (length (nonces items))) (length (nonces items)) ltac:(lia) ltac:(lia)) as Hl.
  rewrite drop_all, without_nil in Hl. cbn [reverse at_nonces] in Hl. change (Some <$> at_nonces items (reverse [])) with (@nil (option Transaction)) in Hl.
  rewrite Hl, bind_Ok. clear Hl. cbv beta iota. rewrite slice_take by lia. rewrite bind_Ok.
  destruct (flat_split items (take k (nonces items)) (drop k (nonces items))) as (Ef & _ & Er); [by rewrite take_drop|].
  assert (nonces (without (drop k (nonces items)) items) = take k (nonces items)) as Et.
  { rewrite nonces_without. apply filter_take, NoDup_nonces. }
  assert (index_ok (without (drop k (nonces items)) items) (Init sorted.nonce_key (take k (nonces items)))) as Hi'.
  { destruct (Init_spec sorted.nonce_key (take k (nonces items))) as [Hp Hh]. apply index_ok_intro; [done|]. by rewrite Hp, Et. }
  assert (without (drop k (nonces items)) items = without (reverse (drop k (nonces items))) items) as Ew by (apply without_ext; set_solver).
  assert (length (at_nonces items (reverse (drop k (nonces items)))) = length (at_nonces items (drop k (nonces items)))) as Elen.
  { rewrite !nonces_items, length_reverse; [done|..]; intros n; [|rewrite elem_of_reverse]; intros Hn; rewrite <- (take_drop k (nonces items)); apply elem_of_app; by right. }
  destruct cache as [c|].
  - specialize (Hc c eq_refl) as ->. rewrite length_fmap, Elen, Ef, length_app. destruct (Z.ltb_spec (Z.of_nat (length (at_nonces items (take k (nonces items))) + length (at_nonces items (drop k (nonces items))))) (Z.of_nat (length (at_nonces items (drop k (nonces items)))))); [lia|].
    rewrite Nat.add_sub, bind_Ok, take_app_length. eexists _, _. split; [done|]. split; [done|]. split; [done|].
    constructor; cbn; [by apply keyed_without|done|]. intros c [= <-]. done.
  - rewrite bind_Ok. eexists _, _. split; [done|]. split; [done|]. split; [done|]. constructor; cbn; [by apply keyed_without|done|done].
Qed.

(** *** [Put], [Filter] and [Remove] *)

Lemma Put_spec tx m : sm_ok m → sorted.sm_items (sorted.Put tx m) = <[tx_Nonce tx := tx]> (sorted.sm_items m) ∧ sm_ok (sorted.Put tx m).
Proof.
  intros [Hk Hi Hc]. split; [done|]. unfold sorted.Put. destruct m as [items index cache]. constructor; cbn in *; [by apply map_Forall_insert_2| |done].
  destruct (items !! tx_Nonce tx) as [old|] eqn:Eo.
  - apply index_ok_intro; [apply Hi|]. rewrite (index_nonces _ _ Hi). apply NoDup_Permutation; [apply NoDup_nonces..|].
    intros n. rewrite !elem_of_nonces, lookup_insert. case_decide; naive_solver.
  - destruct (Push_spec sorted.nonce_key (tx_Nonce tx) index (proj1 Hi)) as [Hp Hh]. split; [done|]. rewrite Hp, (proj2 Hi).
    by rewrite map_to_list_insert.
Qed.

Lemma flat_perm items : flat items ≡ₚ (map_to_list items).*2.
Proof.
  unfold flat, at_nonces. rewrite nonces_perm. assert (∀ l : list (Z * Transaction), l ⊆ map_to_list items → omap (fun n => items !! n) l.*1 = l.*2) as He.
  { induction l as [|[n tx] l IH]; intros Hl; [done|]. cbn. rewrite (proj1 (elem_of_map_to_list items n tx)) by (apply Hl; by left).
    f_equal. apply IH. intros x Hx. apply Hl. by right. }
  by rewrite He.
Qed.

(** The nonces of the transactions that a test picks. *)
Definition matching (f : Transaction → bool) (items : txmap) : list Z :=
  filter (fun n => from_option f false (items !! n) = true) (nonces items).

Lemma at_nonces_filter f items ns : filter (fun tx => f tx = true) (at_nonces items ns) = at_nonces items (filter (fun n => from_option f false (items !! n) = true) ns).
Proof.
  induction ns as [|n ns IH]; [done|]. rewrite at_nonces_cons. destruct (items !! n) as [tx|] eqn:E.
  - destruct (decide (f tx = true)) as [Hf|Hf].
    + rewrite !filter_cons_True by (done || by rewrite E). rewrite at_nonces_cons, E. by f_equal.
    + rewrite !filter_cons_False by (done || by rewrite E). done.
  - rewrite (filter_cons_False _ n) by (by rewrite E). done.
Qed.

Lemma removed_perm f items : filter (fun tx => f tx = true) (map_to_list items).*2 ≡ₚ at_nonces items (matching f items).
Proof. unfold matching. by rewrite <- at_nonces_filter, <- flat_perm. Qed.

Lemma lookup_matching f items n : n ∈ matching f items ↔ ∃ tx, items !! n = Some tx ∧ f tx = true.
Proof.
  unfold matching. rewrite list_elem_of_filter, elem_of_nonces. split.
  - intros [Hf [tx E]]. rewrite E in *. naive_solver.
  - intros (tx & E & Hf). by rewrite E.
Qed.

Lemma kept_without f items : filter (fun ntx => f ntx.2 = false) items = without (matching f items) items.
Proof.
  apply map_eq. intros n. rewrite lookup_without, map_lookup_filter. destruct (items !! n) as [tx|] eqn:E; cbn; [|by case_decide].
  destruct (f tx) eqn:Ef.
  - rewrite option_guard_False by (cbn; congruence). rewrite decide_True; [done|]. apply lookup_matching. by exists tx.
  - rewrite option_guard_True by done. rewrite decide_False; [done|]. rewrite lookup_matching. naive_solver congruence.
Qed.

Lemma Filter_spec f m : sm_ok m → ∃ m' out, sorted.Filter f m = (m', out) ∧
  sorted.sm_items m' = without (matching f (sorted.sm_items m)) (sorted.sm_items m) ∧
  out ≡ₚ at_nonces (sorted.sm_items m) (matching f (sorted.sm_items m)) ∧ sm_ok m'.
Proof.
  intros Hm. unfold sorted.Filter. destruct m as [items index cache]. cbn [sorted.sm_items]. pose proof (removed_perm f items) as Hp.
  rewrite kept_without. destruct (base.filter _ (map_to_list items).*2) as [|tx out].
  - eexists _, _. split; [done|]. split; [|done]. cbn. rewrite (without_ext _ []), without_nil; [done|]. intros n. split; [|by intros ?%elem_of_nil].
    intros (tx & E & Hf)%lookup_matching. assert (tx ∈ at_nonces items (matching f items)) as Ht.
    { apply list_elem_of_omap. exists n. split; [apply lookup_matching; eauto|done]. }
    rewrite <- Hp in Ht. by apply elem_of_nil in Ht.
  - eexists _, _. split; [done|]. split; [done|]. split; [done|]. destruct Hm as [Hk _ _]. constructor; cbn in *; [by apply keyed_without| |done].
    destruct (Init_spec sorted.nonce_key (map_to_list (without (matching f items) items)).*1). by split.
Qed.

Lemma Remove_nonce_spec n m : sm_ok m → ∃ m', sorted.Remove n m = Ok (m', bool_decide (is_Some (sorted.sm_items m !! n))) ∧
  sorted.sm_items m' = without [n] (sorted.sm_items m) ∧ sm_ok m'.
Proof.
  intros Hm. unfold sorted.Remove. destruct m as [items index cache]. cbn [sorted.sm_items sorted.sm_index]. destruct (items !! n) as [tx|] eqn:E.
  - destruct Hm as [Hk Hi _]. cbn [sorted.sm_items sorted.sm_index] in *. pose proof (index_nonces _ _ Hi) as Hp.
    assert (n ∈ index) as Hn by (rewrite Hp; apply elem_of_nonces; eauto). unfold sorted.find_nonce.
    destruct (list_find_elem_of (fun k => k = n) index n Hn eq_refl) as [[i k] Hf]. rewrite Hf. cbn [fmap option_fmap option_map fst].
    apply list_find_Some in Hf as (Hl & -> & _). destruct (GoHeap.Remove_spec sorted.nonce_key i index n (proj1 Hi) Hl) as (h & -> & Hr & Hh).
    cbn [deref]. rewrite !bind_Ok. eexists. split; [done|]. cbn. rewrite without_single. split; [done|]. constructor; cbn; [by apply keyed_without| |done].
    apply index_ok_intro; [done|]. apply (Permutation_cons_inv (a := n)). rewrite <- Hr, Hp, nonces_without.
    apply NoDup_Permutation; [apply NoDup_nonces|constructor; [rewrite list_elem_of_filter; set_solver|apply NoDup_filter, NoDup_nonces]|].
    intros k. rewrite elem_of_cons, list_elem_of_filter, list_elem_of_singleton. destruct (decide (k = n)) as [->|]; [|naive_solver].
    rewrite elem_of_nonces, E. naive_solver.
  - exists (sorted.mkSorted items index cache). rewrite bool_decide_false by (by intros [? ?]). split; [done|]. split; [|done]. cbn.
    rewrite <- without_single. symmetry. by apply delete_id.
Qed.

(** *** [Ready] and [Flatten] *)

(** The nonces of a sorted list that follow one another from [next]. *)
Fixpoint run (next : Z) (ns : list Z) : list Z :=
  match ns with
  | n :: ns => if n =? next then n :: run (next + 1)%u64 ns else []
  | [] => []
  end.

Definition ready_from (start : Z) (ns : list Z) : list Z :=
  match ns with n :: _ => if start <? n then [] else run n ns | [] => [] end.

Lemma run_incl ns : ∀ next n, n ∈ run next ns → n ∈ ns.
Proof.
  induction ns as [|k ns IH]; intros next n; cbn; [done|]. destruct (k =? next); [|by intros ?%elem_of_nil].
  intros [->|Hn]%elem_of_cons; [by left|right; by eapply IH].
Qed.

Lemma ready_loop_spec fuel : ∀ next items index acc, (length index ≤ fuel)%nat → index_ok items index →
  let ns := run next (nonces items) in
  ∃ index', sorted.ready_loop fuel next items index acc = Ok (without ns items, index', acc ++ (Some <$> at_nonces items ns)) ∧
    index_ok (without ns items) index'.
Proof.
  induction fuel as [|fuel IH]; intros next items [|n idx] acc Hf Hi; cbn [sorted.ready_loop]; [|cbn in Hf; lia|..].
  1-2: apply index_ok_nil in Hi as ->; exists []; cbn; rewrite app_nil_r; done.
  destruct (index_first items n idx Hi) as (E & [tx Htx] & idx' & Ep & Hi'). rewrite E. cbn [run]. destruct (Z.eqb_spec n next) as [<-|Hne].
  - rewrite Ep. cbn [deref]. rewrite bind_Ok, without_single, Htx. destruct (IH (n + 1)%u64 (without [n] items) idx' (acc ++ [Some tx])) as (idx2 & -> & Hi2); [|done|].
    { pose proof (index_length _ _ Hi) as Hl. rewrite E in Hl. pose proof (index_length _ _ Hi') as Hl'. cbn in *. lia. }
    exists idx2. rewrite without_without in *. split; [|done]. do 2 f_equal.
    rewrite (at_nonces_first _ _ tx) by (done || intros Hn%run_incl; by eapply first_fresh). by rewrite <- app_assoc.
  - exists (n :: idx). cbn. rewrite app_nil_r, without_nil. done.
Qed.

Lemma Ready_spec start m : sm_ok m → ∃ m' out, sorted.Ready start m = Ok (m', out) ∧
  removes (ready_from start (nonces (sorted.sm_items m))) m m' out.
Proof.
  intros Hm. destruct m as [items index cache]. unfold sorted.Ready. cbn [sorted.sm_items sorted.sm_index]. pose proof Hm as [Hk Hi _]. cbn in Hk, Hi.
  destruct index as [|n idx].
  { pose proof (index_ok_nil _ Hi) as ->. eexists _, _. split; [done|]. by apply removes_nothing. }
  destruct (index_first items n idx Hi) as (E & _). unfold ready_from. rewrite E. rewrite <- E. destruct (start <? n).
  { eexists _, _. split; [done|]. by apply removes_nothing. }
  destruct (ready_loop_spec (length (n :: idx)) n items (n :: idx) [] ltac:(done) Hi) as (idx' & -> & Hi'). rewrite bind_Ok.
  eexists _, _. split; [done|]. split; [done|]. split; [done|]. constructor; cbn; [by apply keyed_without|done|done].
Qed.

Lemma flat_sorted items : keyed items → StronglySorted sorted.nonce_le (flat items).
Proof.
  intros Hk. unfold flat. induction (nonces_sorted items) as [|n ns Hs IH Hn]; [constructor|]. rewrite at_nonces_cons.
  destruct (items !! n) as [tx|] eqn:E; [|done]. constructor; [done|]. apply Forall_forall. intros tx' (k & Hin & Hl)%list_elem_of_omap.
  unfold sorted.nonce_le. rewrite (Hk _ _ E), (Hk _ _ Hl). by apply (proj1 (Forall_forall _ _) Hn).
Qed.

Lemma Flatten_spec m : sm_ok m → ∃ m', sorted.Flatten m = (m', flat (sorted.sm_items m)) ∧ sorted.sm_items m' = sorted.sm_items m ∧ sm_ok m'.
Proof.
  intros [Hk Hi Hc]. destruct m as [items index cache]. unfold sorted.Flatten. cbn [sorted.sm_items sorted.sm_index sorted.sm_cache] in *.
  assert (match cache with Some c => c | None => merge_sort sorted.nonce_le (map_to_list items).*2 end = flat items) as ->.
  { destruct cache as [c|]; [by apply Hc|]. apply (StronglySorted_unique_strong sorted.nonce_le).
    - intros t1 t2 H1 H2 Hle1 Hle2. rewrite merge_sort_Permutation in H1. rewrite flat_perm in H2.
      apply list_elem_of_fmap in H1 as ([n1 ?] & -> & H1%elem_of_map_to_list), H2 as ([n2 ?] & -> & H2%elem_of_map_to_list). cbn in *.
      pose proof (Hk _ _ H1). pose proof (Hk _ _ H2). unfold sorted.nonce_le in *. assert (n1 = n2) as -> by (cbn in *; lia). congruence.
    - apply StronglySorted_merge_sort; [intros a b c; unfold sorted.nonce_le; lia|intros a b; unfold sorted.nonce_le; lia].
    - by apply flat_sorted.
    - by rewrite merge_sort_Permutation, flat_perm. }
  eexists. split; [done|]. split; [done|]. constructor; cbn; [done..|]. by intros c [= <-].
Qed.

(** *** A sequence of operations *)

Inductive sm_op :=
  | OpPut (tx : Transaction)
  | OpGet (nonce : Z)
  | OpForward (threshold : Z)
  | OpFilter (f : Transaction → bool)
  | OpCap (threshold : nat)
  | OpRemove (nonce : Z)
  | OpReady (start : Z)
  | OpLen
  | OpFlatten.

(** What an operation returns; the order of what [Filter] returns is left open. *)
Inductive sm_out :=
  | OutNone
  | OutTxs (txs : list (option Transaction))
  | OutSet (txs : list Transaction)
  | OutBool (b : bool)
  | OutLen (n : Z).

Definition same_out (a b : sm_out) : Prop :=
  match a, b with OutSet a, OutSet b => a ≡ₚ b | _, _ => a = b end.

Definition sm_step (op : sm_op) (m : sorted.txSortedMap) : pan (sorted.txSortedMap * sm_out) :=
  match op with
  | OpPut tx => Ok (sorted.Put tx m, OutNone)
  | OpGet nonce => Ok (m, OutTxs [sorted.Get nonce m])
  | OpForward t => '(m, out) ← sorted.Forward t m; Ok (m, OutTxs out)
  | OpFilter f => let '(m, out) := sorted.Filter f m in Ok (m, OutSet out)
  | OpCap k => '(m, out) ← sorted.Cap (Z.of_nat k) m; Ok (m, OutTxs out)
  | OpRemove nonce => '(m, found) ← sorted.Remove nonce m; Ok (m, OutBool found)
  | OpReady start => '(m, out) ← sorted.Ready start m; Ok (m, OutTxs out)
  | OpLen => Ok (m, OutLen (sorted.Len m))
  | OpFlatten => let '(m, out) := sorted.Flatten m in Ok (m, OutTxs (Some <$> out))
  end.

(** The same on a map from nonces to transactions. *)
Definition spec_remove (ns : list Z) (items : txmap) : txmap * sm_out := (without ns items, OutTxs (Some <$> at_nonces items ns)).

Definition spec_step (op : sm_op) (items : txmap) : txmap * sm_out :=
  match op with
  | OpPut tx => (<[tx_Nonce tx := tx]> items, OutNone)
  | OpGet nonce => (items, OutTxs [items !! nonce])
  | OpForward t => spec_remove (filter (fun n => n < t) (nonces items)) items
  | OpFilter f => (without (matching f items) items, OutSet (at_nonces items (matching f items)))
  | OpCap k => spec_remove (reverse (drop k (nonces items))) items
  | OpRemove nonce => (without [nonce] items, OutBool (bool_decide (is_Some (items !! nonce))))
  | OpReady start => spec_remove (ready_from start (nonces items)) items
  | OpLen => (items, OutLen (strlen (nonces items)))
  | OpFlatten => (items, OutTxs (Some <$> flat items))
  end.

Fixpoint sm_run (ops : list sm_op) (m : sorted.txSortedMap) : pan (sorted.txSortedMap * list sm_out) :=
  match ops with
  | [] => Ok (m, [])
  | op :: ops => '(m, out) ← sm_step op m; '(m, outs) ← sm_run ops m; Ok (m, out :: outs)
  end.

Fixpoint spec_run (ops : list sm_op) (items : txmap) : txmap * list sm_out :=
  match ops with
  | [] => (items, [])
  | op :: ops => let '(items, out) := spec_step op items in let '(items, outs) := spec_run ops items in (items, out :: outs)
  end.

Ltac sm_done := eexists _, _; split; [done|]; split; [assumption|]; split; [done|done].

Lemma sm_step_ok op m : sm_ok m → ∃ m' out, sm_step op m = Ok (m', out) ∧ sm_ok m' ∧
  sorted.sm_items m' = (spec_step op (sorted.sm_items m)).1 ∧ same_out out (spec_step op (sorted.sm_items m)).2.
Proof.
  intros Hm. destruct op as [tx|n|t|f|k|n|s| |]; cbn [sm_step spec_step spec_remove fst snd].
  - destruct (Put_spec tx m Hm) as [E Hm']. sm_done.
  - sm_done.
  - destruct (Forward_spec t m Hm) as (m' & out & -> & E & -> & Hm'). rewrite bind_Ok. sm_done.
  - destruct (Filter_spec f m Hm) as (m' & out & -> & E & Hp & Hm'). sm_done.
  - destruct (Cap_spec k m Hm) as (m' & out & -> & E & -> & Hm'). rewrite bind_Ok. sm_done.
  - destruct (Remove_nonce_spec n m Hm) as (m' & -> & E & Hm'). rewrite bind_Ok. sm_done.
  - destruct (Ready_spec s m Hm) as (m' & out & -> & E & -> & Hm'). rewrite bind_Ok. sm_done.
  - eexists _, _. split; [done|]. split; [done|]. split; [done|]. cbn. unfold sorted.Len. by rewrite size_nonces.
  - destruct (Flatten_spec m Hm) as (m' & -> & E & Hm'). sm_done.
Qed.

Lemma sm_run_ok ops : ∀ m, sm_ok m → ∃ m' outs, sm_run ops m = Ok (m', outs) ∧ sm_ok m' ∧
  sorted.sm_items m' = (spec_run ops (sorted.sm_items m)).1 ∧ Forall2 same_out outs (spec_run ops (sorted.sm_items m)).2.
Proof.
  induction ops as [|op ops IH]; intros m Hm; cbn [sm_run spec_run]; [by eauto 10|].
  destruct (sm_step_ok op m Hm) as (m1 & out & -> & Hm1 & E1 & Ho). rewrite bind_Ok. destruct (IH m1 Hm1) as (m2 & outs & -> & Hm2 & E2 & Hos).
  rewrite bind_Ok. rewrite E1 in E2, Hos. destruct (spec_step op _) as [items o]. cbn [fst snd] in *. destruct (spec_run ops items). cbn in *. eauto 10.
Qed.

Lemma new_ok : sm_ok sorted.newTxSortedMap.
Proof. constructor; [apply map_Forall_empty| |done]. split; [|done]. intros p c _ _ H. cbn in H. lia. Qed.

(** The sorted map of transactions, with its heap and its cache, is a map from
    nonces to transactions: no sequence of operations panics, the transactions
    that are below a threshold, above a size, or ready are exactly those of the
    map, every one of them once and in the order of the nonces, and the sorted
    list that is handed out, from the cache or not, is that of the map. *)
Theorem txSortedMap_refines (ops : list sm_op) :
  ∃ m outs, sm_run ops sorted.newTxSortedMap = Ok (m, outs) ∧
    sorted.sm_items m = (spec_run ops ∅).1 ∧ Forall2 same_out outs (spec_run ops ∅).2.
Proof. destruct (sm_run_ok ops sorted.newTxSortedMap new_ok) as (m & outs & Hr & _ & E & Ho). eauto. Qed.

(** ** The list of an account *)

Notation txs_of l := (sorted.sm_items (tl_txs l)).

Record list_ok (l : txList) : Prop := {
  lo_map : sm_ok (tl_txs l);
  lo_caps : map_Forall (fun _ tx => tx_Cost (tx_data tx) ≤ tl_costcap l ∧ tx_Gas tx ≤ tl_gascap l) (txs_of l);
  lo_width : map_Forall (fun n _ => is_u64 n) (txs_of l)
}.

(** No nonce is missing between two of the list. *)
Definition gapless (items : txmap) : Prop :=
  ∀ i j k, i ≤ j ≤ k → is_Some (items !! i) → is_Some (items !! k) → is_Some (items !! j).

Lemma without_Forall P ns items : map_Forall P items → map_Forall P (without ns items).
Proof. intros Hp n tx. rewrite lookup_without. case_decide; [done|]. apply Hp. Qed.

Lemma sorted_app (a b : list Z) x y : StronglySorted Z.le (a ++ b) → x ∈ a → y ∈ b → x ≤ y.
Proof. intros Hs Hx Hy. eapply StronglySorted_app_1_elem_of; done. Qed.

(** Taking away a first or a last part leaves no gap. *)
Lemma gapless_split items ns ks : gapless items → nonces items = ns ++ ks → gapless (without ns items) ∧ gapless (without ks items).
Proof.
  intros Hg E. pose proof (nonces_sorted items) as Hs. pose proof (NoDup_nonces items) as Hnd. rewrite E in Hs, Hnd.
  apply NoDup_app in Hnd as (_ & Hd & _). assert (∀ n, is_Some (items !! n) ↔ n ∈ ns ∨ n ∈ ks) as Hin.
  { intros n. by rewrite <- elem_of_nonces, E, elem_of_app. }
  assert (∀ x y, x ∈ ns → y ∈ ks → x < y) as Hlt.
  { intros x y Hx Hy. pose proof (sorted_app _ _ _ _ Hs Hx Hy). assert (x ≠ y) by (intros ->; by eapply Hd). lia. }
  split; intros i j k Hijk; rewrite !lookup_without; repeat case_decide; try (by intros [? ?]); try (by intros _ [? ?]); try apply Hg; try done.
  - intros Hi _. exfalso. apply Hin in Hi. assert (j < i) by (apply Hlt; naive_solver). lia.
  - intros _ Hk. exfalso. apply Hin in Hk. assert (k < j) by (apply Hlt; naive_solver). lia.
Qed.

Lemma lowest_loop removed : ∀ a, let r := foldl (fun lowest tx => if tx_Nonce tx <? lowest then tx_Nonce tx else lowest) a removed in
  r ≤ a ∧ (∀ tx, tx ∈ removed → r ≤ tx_Nonce tx) ∧ (r = a ∨ ∃ tx, tx ∈ removed ∧ tx_Nonce tx = r).
Proof.
  induction removed as [|tx removed IH]; intros a; cbn [foldl].
  - split; [done|]. split; [by intros tx ?%elem_of_nil|by left].
  - destruct (IH (if tx_Nonce tx <? a then tx_Nonce tx else a)) as (Ha & Hl & Hr). set (r := foldl _ _ removed) in *. cbn zeta.
    assert (r ≤ a ∧ r ≤ tx_Nonce tx) as [Hra Hrt] by (destruct (Z.ltb_spec (tx_Nonce tx) a); lia).
    split; [done|]. split; [by intros tx' [->|Hin]%elem_of_cons; [|apply Hl]|].
    destruct Hr as [Hr|(tx' & Hin & Hr)]; [|right; exists tx'; split; [by right|done]].
    destruct (tx_Nonce tx <? a); [right; exists tx; split; [by left|done]|by left].
Qed.

Lemma lowest_nonce_spec removed : removed ≠ [] → (∀ tx, tx ∈ removed → tx_Nonce tx ≤ maxU64) →
  (∃ tx, tx ∈ removed ∧ tx_Nonce tx = lowest_nonce removed) ∧ ∀ tx, tx ∈ removed → lowest_nonce removed ≤ tx_Nonce tx.
Proof.
  intros Hne Hu. destruct (lowest_loop removed maxU64) as (Ha & Hl & Hr). split; [|done]. destruct Hr as [Hr|Hr]; [|done].
  destruct removed as [|tx removed]; [done|]. exists tx. assert (tx ∈ tx :: removed) as Hin by (by left). split; [done|].
  specialize (Hl tx Hin). specialize (Hu tx Hin). unfold lowest_nonce. lia.
Qed.

Definition over (costLimit gasLimit : Z) (tx : Transaction) : bool := (costLimit <? tx_Cost (tx_data tx)) || (gasLimit <? tx_Gas tx).

(** What stays in a list that is filtered: what the limits allow and, in a
    strict list, comes before everything that they do not allow. *)
Definition stays (strict : bool) (costLimit gasLimit : Z) (items : txmap) (n : Z) (tx : Transaction) : Prop :=
  items !! n = Some tx ∧ over costLimit gasLimit tx = false ∧
    (strict = true → ∀ k tx', items !! k = Some tx' → over costLimit gasLimit tx' = true → n < k).

Lemma over_within costLimit gasLimit tx : over costLimit gasLimit tx = false ↔ tx_Cost (tx_data tx) ≤ costLimit ∧ tx_Gas tx ≤ gasLimit.
Proof. unfold over. rewrite orb_false_iff, !Z.ltb_ge. done. Qed.

Lemma without_matching f items n tx : without (matching f items) items !! n = Some tx ↔ items !! n = Some tx ∧ f tx = false.
Proof.
  rewrite lookup_without. case_decide as Hm; rewrite lookup_matching in Hm; [naive_solver congruence|]. split; [|naive_solver].
  intros E. split; [done|]. destruct (f tx) eqn:Ef; naive_solver.
Qed.

Lemma flat_partition f items : at_nonces items (matching f items) ++ flat (without (matching f items) items) ≡ₚ flat items.
Proof.
  unfold flat at 1. rewrite nonces_without, at_nonces_without by (intros n; rewrite list_elem_of_filter; naive_solver).
  rewrite <- at_nonces_app. unfold flat, at_nonces. apply omap_Permutation. apply NoDup_Permutation; [|apply NoDup_nonces|].
  - apply NoDup_app. split; [apply NoDup_filter, NoDup_nonces|]. split; [|apply NoDup_filter, NoDup_nonces].
    intros n Hn. rewrite list_elem_of_filter. naive_solver.
  - intros n. rewrite elem_of_app, list_elem_of_filter. destruct (decide (n ∈ matching f items)) as [Hm|Hm]; [|naive_solver].
    pose proof Hm as Hm'. apply list_elem_of_filter in Hm' as [_ Hn]. naive_solver.
Qed.

Lemma matching_nil f items : matching f items = [] → ∀ n tx, items !! n = Some tx → f tx = false.
Proof.
  intros Hm n tx E. destruct (f tx) eqn:Ef; [|done]. assert (n ∈ matching f items) as Hn by (apply lookup_matching; eauto).
  rewrite Hm in Hn. by apply elem_of_nil in Hn.
Qed.

(** The lowest nonce that is taken out for its cost or gas, among those of the map. *)
Lemma lowest_over c g items removed : keyed items → map_Forall (fun n _ => is_u64 n) items →
  removed ≡ₚ at_nonces items (matching (over c g) items) → removed ≠ [] →
  (∃ tx, items !! lowest_nonce removed = Some tx ∧ over c g tx = true) ∧
    ∀ k tx, items !! k = Some tx → over c g tx = true → lowest_nonce removed ≤ k.
Proof.
  intros Hk Hw Hp Hne. assert (∀ tx, tx ∈ removed ↔ items !! tx_Nonce tx = Some tx ∧ over c g tx = true) as Hin.
  { intros tx. rewrite Hp. unfold at_nonces. rewrite list_elem_of_omap. split.
    - intros (n & (tx' & E & Ho)%lookup_matching & E'). rewrite E in E'. injection E' as ->. by rewrite (Hk _ _ E).
    - intros [E Ho]. exists (tx_Nonce tx). split; [apply lookup_matching; eauto|done]. }
  destruct (lowest_nonce_spec removed Hne) as [(tx & Ht & <-) Hl].
  { intros tx [E _]%Hin. specialize (Hw _ _ E). cbn in Hw. unfold is_u64, two64, maxU64 in *. lia. }
  split; [apply Hin in Ht as [E Ho]; eauto|]. intros k tx' E Ho. pose proof (Hk _ _ E) as Ek. cbn in Ek. rewrite <- Ek. apply Hl, Hin. by rewrite Ek.
Qed.

Lemma none_over c g items : at_nonces items (matching (over c g) items) = [] ↔ ∀ n tx, items !! n = Some tx → over c g tx = false.
Proof.
  split.
  - intros Hn. apply matching_nil. apply length_zero_iff_nil. rewrite <- (nonces_items items), Hn; [done|].
    intros n Hm. by apply list_elem_of_filter in Hm as [_ Hm].
  - intros Hn. unfold matching. rewrite filter_none; [done|]. intros n _. destruct (items !! n) as [tx|] eqn:E; [|done]. cbn. by rewrite (Hn _ _ E).
Qed.

Definition filtered (c g : Z) (l l' : txList) (removed invalids : list Transaction) : Prop :=
  list_ok l' ∧ tl_strict l' = tl_strict l ∧ removed ≡ₚ at_nonces (txs_of l) (matching (over c g) (txs_of l)) ∧
  removed ++ invalids ++ flat (txs_of l') ≡ₚ flat (txs_of l) ∧
  ∀ n tx, txs_of l' !! n = Some tx ↔ stays (tl_strict l) c g (txs_of l) n tx.

(** Nothing is over the limits. *)
Lemma filtered_idle c g l : list_ok l → (∀ n tx, txs_of l !! n = Some tx → over c g tx = false) → filtered c g l l [] [].
Proof.
  intros Hl Hno. split; [done|]. split; [done|]. rewrite (proj2 (none_over c g _) Hno). split; [done|]. split; [done|].
  intros n tx. unfold stays. split; [|naive_solver]. intros E. split; [done|]. split; [by eapply Hno|].
  intros _ k tx' E' Ho. rewrite (Hno _ _ E') in Ho. done.
Qed.

(** Something may be. *)
Lemma filtered_over c g l txs removed : list_ok l →
  sorted.Filter (over c g) (tl_txs l) = (txs, removed) → ∃ txs' invalids,
  (if tl_strict l && (0 <? strlen removed) then sorted.Filter (fun tx => lowest_nonce removed <? tx_Nonce tx) txs else (txs, [])) = (txs', invalids) ∧
  filtered c g l (mkTxList (tl_strict l) txs' c g) removed invalids.
Proof.
  intros [Hm Hc Hw] Ef. destruct (Filter_spec (over c g) _ Hm) as (m1 & out & E & E1 & Hp1 & Hm1). rewrite Ef in E. injection E as <- <-.
  assert (list_ok (mkTxList (tl_strict l) txs c g)) as Hl1.
  { constructor; cbn; [done| |rewrite E1; by apply without_Forall]. intros n tx. rewrite E1, without_matching. intros [_ Ho]. by apply over_within. }
  pose proof (flat_partition (over c g) (txs_of l)) as Hpart. rewrite <- E1, <- Hp1 in Hpart.
  destruct (tl_strict l && (0 <? strlen removed)) eqn:Es.
  - apply andb_prop in Es as [Es Hr]. destruct (lowest_over c g _ removed (sm_keyed _ Hm) Hw Hp1) as [(tx0 & E0 & Ho0) Hlow]; [by intros ->|].
    destruct (Filter_spec (fun tx => lowest_nonce removed <? tx_Nonce tx) _ Hm1) as (m2 & invalids & -> & E2 & Hp2 & Hm2).
    exists m2, invalids. split; [done|]. split; [|split; [done|split; [done|split]]]; cbn [tl_txs tl_strict].
    + destruct Hl1 as [_ Hc1 Hw1]. constructor; cbn in *; [done|rewrite E2; by apply without_Forall..].
    + rewrite Hp2, E2, flat_partition. done.
    + intros n tx. rewrite E2, without_matching, E1, without_matching. unfold stays. split.
      * intros [[E Ho] Hle%Z.ltb_ge]. split; [done|]. split; [done|]. intros _ k tx' E' Ho'. specialize (Hlow k tx' E' Ho').
        rewrite (sm_keyed _ Hm _ _ E) in Hle. assert (n ≠ lowest_nonce removed) by (intros ->; congruence). lia.
      * intros (E & Ho & Hb). split; [done|]. apply Z.ltb_ge. rewrite (sm_keyed _ Hm _ _ E). specialize (Hb Es _ _ E0 Ho0). lia.
  - eexists _, _. split; [done|]. split; [done|split; [done|split; [done|split]]]; cbn [tl_txs tl_strict]; [done|].
    intros n tx. rewrite E1, without_matching. unfold stays. split; [|naive_solver]. intros [E Ho]. split; [done|]. split; [done|].
    intros Hs k tx' E' Ho'. rewrite Hs in Es. destruct removed; [|done]. apply Permutation_nil_l in Hp1.
    by rewrite (proj1 (none_over c g _) (eq_sym Hp1) _ _ E') in Ho'.
Qed.

Lemma list_Filter_spec c g l : list_ok l → ∃ l' removed invalids, list_Filter c g l = (l', (removed, invalids)) ∧ filtered c g l l' removed invalids.
Proof.
  intros Hl. unfold list_Filter. destruct ((tl_costcap l <=? c) && (tl_gascap l <=? g)) eqn:Ec.
  - exists l, [], []. split; [done|]. apply filtered_idle; [done|]. intros n tx E. apply over_within. destruct (lo_caps _ Hl _ _ E).
    apply andb_prop in Ec as [?%Z.leb_le ?%Z.leb_le]. lia.
  - change (fun tx => (c <? tx_Cost (tx_data tx)) || (g <? tx_Gas tx)) with (over c g). destruct (sorted.Filter (over c g) (tl_txs l)) as [txs removed] eqn:Ef.
    destruct (filtered_over c g l txs removed Hl Ef) as (txs' & invalids & -> & Hf). eauto 10.
Qed.

(** *** The lists that can be built *)

Inductive list_op :=
  | LAdd (tx : Transaction) (priceBump : Z)
  | LForward (threshold : Z)
  | LFilter (costLimit gasLimit : Z)
  | LCap (threshold : nat)
  | LRemove (tx : Transaction)
  | LReady (start : Z)
  | LFlatten.

Definition list_step (op : list_op) (l : txList) : pan txList :=
  match op with
  | LAdd tx priceBump => Ok (list_Add tx priceBump l).1
  | LForward t => '(l, _) ← list_Forward t l; Ok l
  | LFilter c g => Ok (list_Filter c g l).1
  | LCap k => '(l, _) ← list_Cap (Z.of_nat k) l; Ok l
  | LRemove tx => '(l, _) ← list_Remove tx l; Ok l
  | LReady start => '(l, _) ← list_Ready start l; Ok l
  | LFlatten => Ok (list_Flatten l).1
  end.

(** A strict list is given transactions that replace one or follow one. *)
Definition in_order (op : list_op) (l : txList) : Prop :=
  match op with
  | LAdd tx _ => is_u64 (tx_Nonce tx) ∧ (tl_strict l = true →
      txs_of l = ∅ ∨ Overlaps tx l = true ∨ is_Some (txs_of l !! (tx_Nonce tx - 1)))
  | _ => True
  end.

Inductive built (strict : bool) : txList → Prop :=
  | built_new : built strict (newTxList strict)
  | built_step op l l' : built strict l → in_order op l → list_step op l = Ok l' → built strict l'.

Definition list_inv (strict : bool) (l : txList) : Prop := list_ok l ∧ tl_strict l = strict ∧ (strict = true → gapless (txs_of l)).

Lemma removes_list strict ns m l : list_inv strict l → sorted.sm_items m = without ns (txs_of l) → sm_ok m →
  (strict = true → gapless (without ns (txs_of l))) → list_inv strict (set_txs m l).
Proof.
  intros ([_ Hc Hw] & Hs & _) E Hm Hg. split; [|split; [done|]]; cbn; [|by rewrite E].
  constructor; cbn; [done|rewrite E; by apply without_Forall..].
Qed.

Lemma split_list strict ns ks m l : list_inv strict l → nonces (txs_of l) = ns ++ ks → sm_ok m →
  sorted.sm_items m = without ns (txs_of l) ∨ sorted.sm_items m = without ks (txs_of l) → list_inv strict (set_txs m l).
Proof.
  intros Hl E Hm [E'|E']; eapply removes_list; try done; intros Hs; destruct (gapless_split (txs_of l) ns ks); try done; by apply Hl.
Qed.

Lemma run_split ns : ∀ next, ∃ ks, ns = run next ns ++ ks.
Proof.
  induction ns as [|n ns IH]; intros next; cbn; [by exists []|]. destruct (n =? next); [|by eexists].
  destruct (IH (next + 1)%u64) as [ks E]. exists ks. cbn. by f_equal.
Qed.

Lemma ready_split start ns : ∃ ks, ns = ready_from start ns ++ ks.
Proof. unfold ready_from. destruct ns as [|n ns]; [by exists []|]. destruct (start <? n); [by eexists|apply run_split]. Qed.

Lemma gapless_insert items n tx : gapless items → items = ∅ ∨ is_Some (items !! n) ∨ is_Some (items !! (n - 1)) → gapless (<[n := tx]> items).
Proof.
  intros Hg Hn i j k Hijk. assert (∀ x, is_Some (<[n := tx]> items !! x) ↔ x = n ∨ is_Some (items !! x)) as Hx.
  { intros x. rewrite lookup_insert. case_decide; naive_solver. }
  rewrite !Hx. destruct (decide (j = n)) as [->|Hj]; [by left|]. intros Hi Hk. right. destruct Hn as [->|[Hn|Hn]].
  - rewrite !lookup_empty in *. destruct Hi as [->|[? ?]], Hk as [->|[? ?]]; try done. lia.
  - apply (Hg i j k Hijk); naive_solver.
  - destruct Hi as [->|Hi], Hk as [->|Hk]; [lia|..|by apply (Hg i j k)]; [apply (Hg (n - 1) j k)|apply (Hg i j (n - 1))]; done || lia.
Qed.

Lemma Add_inv strict tx b l : list_inv strict l → in_order (LAdd tx b) l → list_inv strict (list_Add tx b l).1.
Proof.
  intros (Hl & Hs & Hg) [Hu Ho]. unfold list_Add. lazymatch goal with |- context [if ?r then (l, _) else _] => destruct r end; [done|]. cbn [fst].
  destruct Hl as [Hm Hc Hw]. destruct (Put_spec tx _ Hm) as [E Hm']. split; [constructor; cbn; [done|..]|split; [done|]]; cbn; rewrite ?E.
  - apply map_Forall_insert_2; [destruct (Z.ltb_spec (tl_costcap l) (tx_Cost (tx_data tx))), (Z.ltb_spec (tl_gascap l) (tx_Gas tx)); lia|].
    eapply map_Forall_impl; [exact Hc|]. intros n tx' [? ?]. destruct (Z.ltb_spec (tl_costcap l) (tx_Cost (tx_data tx))), (Z.ltb_spec (tl_gascap l) (tx_Gas tx)); lia.
  - by apply map_Forall_insert_2.
  - intros ->. apply gapless_insert; [by apply Hg|]. specialize (Ho Hs). unfold Overlaps, sorted.Get in Ho. rewrite bool_decide_eq_true in Ho. done.
Qed.

Lemma Filter_inv strict c g l : list_inv strict l → list_inv strict (list_Filter c g l).1.
Proof.
  intros (Hl & Hs & Hg). destruct (list_Filter_spec c g l Hl) as (l' & removed & invalids & -> & Hl' & Hs' & _ & _ & Hst). cbn [fst].
  split; [done|]. split; [congruence|]. intros ->. specialize (Hg eq_refl). intros i j k Hijk [txi Hi] [txk Hk]. apply Hst in Hi as (Hi & _), Hk as (Hk & _ & Hb).
  specialize (Hb Hs). destruct (Hg i j k Hijk) as [txj Hj]; [by eexists..|]. exists txj. apply Hst. split; [done|]. split.
  - destruct (over c g txj) eqn:Ho; [|done]. specialize (Hb _ _ Hj Ho). lia.
  - intros _ k' tx' Hk' Ho. specialize (Hb _ _ Hk' Ho). lia.
Qed.

Lemma Remove_inv strict tx l : list_inv strict l → ∃ l' out, list_Remove tx l = Ok (l', out) ∧ list_inv strict l'.
Proof.
  intros Hl. pose proof Hl as (Hlo & Hs & Hg). unfold list_Remove. set (n := tx_Nonce tx). destruct (Remove_nonce_spec n _ (lo_map _ Hlo)) as (m & -> & E & Hm).
  rewrite bind_Ok. rewrite Hs. destruct (bool_decide_reflect (is_Some (txs_of l !! n))) as [Hn|Hn]; cbn [negb].
  - destruct strict.
    + destruct (Filter_spec (fun tx => n <? tx_Nonce tx) m Hm) as (m' & inv & -> & E' & _ & Hm'). eexists _, _. split; [done|].
      rewrite E, without_without in E'. eapply removes_list; [done|exact E'|done|]. intros _ i j k Hijk. rewrite <- without_without, <- E.
      intros [txi Hi] [txk Hk]. apply without_matching in Hi as [Hi _], Hk as [Hk Hb%Z.ltb_ge]. pose proof (sm_keyed _ Hm _ _ Hk) as Ek. cbn in Ek.
      assert (∀ x y, sorted.sm_items m !! x = Some y → x ≠ n ∧ is_Some (txs_of l !! x)) as Hx.
      { intros x y. rewrite E, lookup_without. case_decide; [done|]. intros Hy. split; [set_solver|by eexists]. }
      destruct (Hx _ _ Hi), (Hx _ _ Hk). destruct (Hg eq_refl i j k Hijk) as [txj Hj]; [done..|]. exists txj.
      assert (sorted.sm_items m !! j = Some txj) as Hj' by (rewrite E, lookup_without, decide_False; [done|]; intros ->%list_elem_of_singleton; lia).
      apply without_matching. split; [done|]. apply Z.ltb_ge. rewrite (sm_keyed _ Hm _ _ Hj'). lia.
    + eexists _, _. split; [done|]. by eapply removes_list.
  - eexists _, _. split; [done|]. eapply removes_list; [done|exact E|done|]. intros Hst. rewrite <- without_single, delete_id by (by apply eq_None_not_Some). by apply Hg.
Qed.

Lemma list_step_inv strict op l : list_inv strict l → ∃ l', list_step op l = Ok l' ∧ (in_order op l → list_inv strict l').
Proof.
  intros Hl. pose proof (lo_map _ (proj1 Hl)) as Hm. destruct op as [tx b|t|c g|k|tx|s|]; cbn [list_step].
  - eexists. split; [done|]. by apply Add_inv.
  - unfold list_Forward. destruct (Forward_spec t _ Hm) as (m' & out & -> & E & _ & Hm'). rewrite !bind_Ok. eexists. split; [done|]. intros _.
    eapply split_list; [done|apply (sorted_split t), nonces_sorted|done|]. by left.
  - eexists. split; [done|]. intros _. by apply Filter_inv.
  - unfold list_Cap. destruct (Cap_spec k _ Hm) as (m' & out & -> & E & _ & Hm'). rewrite !bind_Ok. eexists. split; [done|]. intros _.
    eapply split_list; [done|symmetry; apply (take_drop k)|done|]. right. rewrite E. apply without_ext. set_solver.
  - destruct (Remove_inv strict tx l Hl) as (l' & out & -> & Hl'). rewrite bind_Ok. eauto.
  - unfold list_Ready. destruct (Ready_spec s _ Hm) as (m' & out & -> & E & _ & Hm'). rewrite !bind_Ok. eexists. split; [done|]. intros _.
    destruct (ready_split s (nonces (txs_of l))) as [ks Ek]. eapply split_list; [done|exact Ek|done|]. by left.
  - eexists. split; [done|]. intros _. unfold list_Flatten. destruct (Flatten_spec _ Hm) as (m' & -> & E & Hm'). cbn [fst].
    eapply (removes_list strict []); [done|by rewrite without_nil|done|]. rewrite without_nil. apply Hl.
Qed.

Lemma built_inv strict l : built strict l → list_inv strict l.
Proof.
  induction 1 as [|op l l' _ IH Ho E].
  - split; [|split; [done|]]; cbn; [constructor; cbn; [apply new_ok|apply map_Forall_empty..]|]. intros _ i j k _ [? H]. by rewrite lookup_empty in H.
  - destruct (list_step_inv strict op l IH) as (l2 & E2 & Hi). rewrite E in E2. injection E2 as <-. by apply Hi.
Qed.

(** The list of an account never panics, whatever is done to it, and a strict
    one, which is given transactions that replace one of it or follow one of
    it, never has a gap: forwarding, filtering by cost and gas, capping,
    removing and taking what is ready leave the nonces consecutive. *)
Theorem txList_gapless (strict : bool) (l : txList) : built strict l →
  (strict = true → gapless (txs_of l)) ∧ ∀ op, ∃ l', list_step op l = Ok l'.
Proof.
  intros Hb%built_inv. split; [apply Hb|]. intros op. destruct (list_step_inv strict op l Hb) as (l' & E & _). eauto.
Qed.

(** Filtering a list, with the caps that spare most of the work, takes out
    exactly the transactions over the limits, and from a strict list also
    those behind the first of these; what is taken out and what stays is the
    list as it was. *)
Theorem txList_Filter_exact (strict : bool) (l l' : txList) (c g : Z) (removed invalids : list Transaction) : built strict l →
  list_Filter c g l = (l', (removed, invalids)) →
  (∀ n tx, txs_of l' !! n = Some tx ↔ stays strict c g (txs_of l) n tx) ∧
  removed ≡ₚ filter (fun tx => over c g tx = true) (flat (txs_of l)) ∧
  removed ++ invalids ++ flat (txs_of l') ≡ₚ flat (txs_of l).
Proof.
  intros Hb%built_inv E. destruct (list_Filter_spec c g l (proj1 Hb)) as (l2 & r & i & E2 & _ & Hs & Hr & Hp & Hst). rewrite E in E2. injection E2 as <- <- <-.
  rewrite <- (proj1 (proj2 Hb)). split; [done|]. split; [|done]. rewrite Hr. unfold flat, matching. by rewrite at_nonces_filter.
Qed.

(** ** The transactions of many accounts *)

Section ByPrice.
Context `{HK : Keccak, HP : EvmCrypto} (signer : Signer).

Notation queues := (gmap Address (list Transaction)).

Definition is_from (a : Address) (tx : Transaction) : Prop := account_of_tx signer tx = Ok a.
Definition sent_by (a : Address) (tx : Transaction) : bool :=
  match account_of_tx signer tx with Ok b => bool_decide (b = a) | _ => false end.

(** What a miner does: it looks at the next transaction, and then takes the
    one after it of the same account, or leaves the account. *)
Fixpoint drain (choices : list bool) (t : TransactionsByPriceAndNonce) : pan (list Transaction) :=
  match choices, Peek t with
  | next :: choices, Some tx =>
      t ← (if next : bool then Shift signer t else ByPrice_Pop t);
      out ← drain choices t;
      Ok (tx :: out)
  | _, _ => Ok []
  end.

(** At every step a transaction with the highest price of the first ones of
    all accounts. *)
Inductive greedy : list bool → queues → list Transaction → Prop :=
  | greedy_stop V : greedy [] V []
  | greedy_empty choices V : (∀ a l, V !! a = Some l → l = []) → greedy choices V []
  | greedy_take next choices V a tx rest out : V !! a = Some (tx :: rest) →
      (∀ b tx' rest', V !! b = Some (tx' :: rest') → tx_GasPrice tx' ≤ tx_GasPrice tx) →
      greedy choices (<[a := if next : bool then rest else []]> V) out → greedy (next :: choices) V (tx :: out).

Definition owned (V : queues) : Prop := map_Forall (fun a l => Forall (is_from a) l) V.

Definition first_of (p : Address * list Transaction) : option Transaction := head p.2.

Record bp_ok (t : TransactionsByPriceAndNonce) (V : queues) : Prop := {
  bp_heap : is_heap price_key (bp_heads t);
  bp_firsts : bp_heads t ≡ₚ omap first_of (map_to_list V);
  bp_rests : ∀ a tx rest, V !! a = Some (tx :: rest) → bp_txs t !! a = Some rest;
  bp_owned : owned V
}.

Lemma firsts_insert (V : queues) a l l' : V !! a = Some l →
  omap first_of (map_to_list V) ≡ₚ option_list (head l) ++ omap first_of (map_to_list (delete a V)) ∧
  omap first_of (map_to_list (<[a := l']> V)) ≡ₚ option_list (head l') ++ omap first_of (map_to_list (delete a V)).
Proof.
  intros E. assert (∀ k, omap first_of (map_to_list (<[a := k]> V)) ≡ₚ option_list (head k) ++ omap first_of (map_to_list (delete a V))) as H.
  { intros k. rewrite <- insert_delete_eq, map_to_list_insert by apply lookup_delete_eq. cbn. unfold first_of at 1. cbn. by destruct (head k). }
  split; [|apply H]. rewrite <- (H l). by rewrite insert_id.
Qed.

(** The first transaction of the heap. *)
Lemma peek_first t V tx : bp_ok t V → Peek t = Some tx → ∃ a rest, V !! a = Some (tx :: rest) ∧ is_from a tx ∧
  ∀ b tx' rest', V !! b = Some (tx' :: rest') → tx_GasPrice tx' ≤ tx_GasPrice tx.
Proof.
  intros [Hh Hf Hr Ho] Hp. unfold Peek in Hp. assert (tx ∈ bp_heads t) as Ht by (by eapply list_elem_of_lookup_2).
  rewrite Hf in Ht. apply list_elem_of_omap in Ht as ([a l] & Hl%elem_of_map_to_list & Ef). destruct l as [|tx' rest]; [done|]. injection Ef as ->.
  exists a, rest. split; [done|]. split; [by destruct (Forall_cons_1 _ _ _ (Ho _ _ Hl))|]. intros b tx' rest' Hb.
  assert (tx' ∈ bp_heads t) as Ht'. { rewrite Hf. apply list_elem_of_omap. exists (b, tx' :: rest'). split; [by apply elem_of_map_to_list|done]. }
  pose proof (heap_min price_key _ _ _ Hh Hp Ht') as Hle. unfold price_key in Hle. lia.
Qed.

Lemma owned_insert V a l rest : owned V → V !! a = Some l → rest `suffix_of` l → owned (<[a := rest]> V).
Proof. intros Ho E [k ->]. apply map_Forall_insert_2; [|done]. by destruct (proj1 (Forall_app _ _ _) (Ho _ _ E)). Qed.

Lemma peek_empty t V : bp_ok t V → Peek t = None → ∀ a l, V !! a = Some l → l = [].
Proof.
  intros [_ Hf _ _] Hp a [|tx l] E; [done|]. exfalso. assert (tx ∈ bp_heads t) as Ht.
  { rewrite Hf. apply list_elem_of_omap. exists (a, tx :: l). split; [by apply elem_of_map_to_list|done]. }
  unfold Peek in Hp. destruct (bp_heads t); [by apply elem_of_nil in Ht|done].
Qed.

(** Leaving an account, or taking the last of its transactions. *)
Lemma leave_ok t V a tx rest : bp_ok t V → Peek t = Some tx → V !! a = Some (tx :: rest) →
  ∃ heads, Pop price_key (bp_heads t) = Some (heads, tx) ∧ bp_ok (mkByPrice (bp_txs t) heads) (<[a := []]> V).
Proof.
  intros [Hh Hf Hr Ho] Hp E. destruct (Pop_spec price_key _ tx Hh Hp) as (heads & -> & Hperm & Hh'). exists heads. split; [done|].
  destruct (firsts_insert V a (tx :: rest) [] E) as [H1 H2]. constructor; cbn [bp_txs bp_heads]; [done|..].
  - rewrite H2. cbn. apply (Permutation_cons_inv (a := tx)). by rewrite <- Hperm, Hf, H1.
  - intros b tx' rest'. rewrite lookup_insert. case_decide; [done|]. apply Hr.
  - eapply owned_insert; [done..|]. by exists (tx :: rest); rewrite app_nil_r.
Qed.

Lemma Shift_ok t V a tx rest : bp_ok t V → Peek t = Some tx → V !! a = Some (tx :: rest) → is_from a tx →
  ∃ t', Shift signer t = Ok t' ∧ bp_ok t' (<[a := rest]> V).
Proof.
  intros Ht Hp E Hf. unfold Shift. unfold Peek in Hp. rewrite Hp. cbn [deref]. rewrite bind_Ok, Hf, bind_Ok, (bp_rests _ _ Ht _ _ _ E).
  destruct rest as [|tx' rest].
  - destruct (leave_ok t V a tx [] Ht Hp E) as (heads & -> & Hok). cbn [deref]. rewrite bind_Ok. eauto.
  - eexists. split; [done|]. destruct Ht as [Hh Hfi Hr Ho]. destruct (bp_heads t) as [|h hs] eqn:Eh; [done|]. injection Hp as ->.
    destruct (Fix_spec price_key 0 tx' (tx :: hs) Hh ltac:(cbn; lia)) as [Hperm Hh']. destruct (firsts_insert V a (tx :: tx' :: rest) (tx' :: rest) E) as [H1 H2].
    constructor; cbn [bp_txs bp_heads]; [done|..].
    + rewrite Hperm, H2. cbn. f_equiv. apply (Permutation_cons_inv (a := tx)). rewrite Hfi, H1. done.
    + intros b tx2 rest2. rewrite !lookup_insert. case_decide; [by intros [= <- <-]|]. apply Hr.
    + eapply owned_insert; [done..|]. by exists [tx].
Qed.

Lemma drain_greedy choices : ∀ t V, bp_ok t V → ∃ out, drain choices t = Ok out ∧ greedy choices V out.
Proof.
  induction choices as [|next choices IH]; intros t V Ht; cbn [drain]; [eexists; split; [done|constructor]|].
  destruct (Peek t) as [tx|] eqn:Hp; [|eexists; split; [done|]; apply greedy_empty; by eapply peek_empty].
  destruct (peek_first t V tx Ht Hp) as (a & rest & E & Hf & Hmax).
  assert (∃ t', (if next then Shift signer t else ByPrice_Pop t) = Ok t' ∧ bp_ok t' (<[a := if next then rest else []]> V)) as (t' & -> & Ht').
  { destruct next; [by eapply Shift_ok|]. unfold ByPrice_Pop. destruct (leave_ok t V a tx rest Ht Hp E) as (heads & -> & Hok).
    cbn [deref]. rewrite bind_Ok. eauto. }
  rewrite bind_Ok. destruct (IH t' _ Ht') as (out & -> & Hg). rewrite bind_Ok. eexists. split; [done|]. by eapply greedy_take.
Qed.

Lemma heads_loop_spec (Q : queues) keys : ∀ txs heads, NoDup keys →
  (∀ a, a ∈ keys → txs !! a = Q !! a ∧ ∃ tx rest, Q !! a = Some (tx :: rest) ∧ is_from a tx) →
  ∃ txs', heads_loop signer keys txs heads = Ok (txs', heads ++ omap (fun a => Q !! a ≫= head) keys) ∧
    ∀ a, txs' !! a = if decide (a ∈ keys) then tail <$> Q !! a else txs !! a.
Proof.
  induction keys as [|k keys IH]; intros txs heads Hnd Hk; cbn [heads_loop].
  { exists txs. rewrite app_nil_r. done. }
  apply NoDup_cons in Hnd as [Hnk Hnd]. destruct (Hk k ltac:(by left)) as (E & tx & rest & Eq & Hf). rewrite E, Eq. cbn [from_option id]. rewrite Hf, bind_Ok.
  destruct (IH (<[k := rest]> txs) (heads ++ [tx])) as (txs' & -> & Hl); [done|..].
  { intros a Ha. rewrite lookup_insert_ne by (intros ->; done). apply Hk. by right. }
  exists txs'. split; [cbn; by rewrite Eq, <- app_assoc|]. intros a. rewrite Hl, lookup_insert.
  destruct (decide (k = a)) as [<-|Hne]; [rewrite decide_False, (decide_True (P := k ∈ k :: keys)) by (done || by left); by rewrite Eq|].
  repeat case_decide; set_solver.
Qed.

Lemma NewByPrice_ok (Q : queues) : owned Q → map_Forall (fun _ l => l ≠ []) Q →
  ∃ t, NewTransactionsByPriceAndNonce signer Q = Ok t ∧ bp_ok t Q.
Proof.
  intros Ho Hne. unfold NewTransactionsByPriceAndNonce. destruct (heads_loop_spec Q (map_to_list Q).*1 Q []) as (txs' & -> & Hl).
  - apply NoDup_fst_map_to_list.
  - intros a ([b l] & -> & E%elem_of_map_to_list)%list_elem_of_fmap. split; [done|]. destruct l as [|tx rest]; [by destruct (Hne _ _ E)|].
    exists tx, rest. split; [done|]. by destruct (Forall_cons_1 _ _ _ (Ho _ _ E)).
  - rewrite bind_Ok. eexists. split; [done|]. cbn [app]. destruct (Init_spec price_key (omap (fun a => Q !! a ≫= head) (map_to_list Q).*1)) as [Hp Hh].
    constructor; cbn [bp_txs bp_heads]; [done|..|done].
    + rewrite Hp. assert (∀ l, l ⊆ map_to_list Q → omap (fun a => Q !! a ≫= head) l.*1 = omap first_of l) as He; [|by rewrite He].
      induction l as [|[a q] l IH]; intros Hs; [done|]. cbn. rewrite (proj1 (elem_of_map_to_list Q a q)) by (apply Hs; by left). cbn.
      unfold first_of at 1. cbn. rewrite IH; [done|]. intros x Hx. apply Hs. by right.
    + intros a tx rest E. rewrite Hl, E, decide_True; [done|]. apply list_elem_of_fmap. exists (a, tx :: rest). split; [done|]. by apply elem_of_map_to_list.
Qed.

Lemma is_from_sent a b tx : is_from a tx → sent_by b tx = bool_decide (a = b).
Proof. unfold is_from, sent_by. by intros ->. Qed.

(** The transactions of one account in what is taken. *)
Lemma greedy_prefix choices V out : greedy choices V out → owned V → ∀ a, filter (fun tx => sent_by a tx = true) out `prefix_of` default [] (V !! a).
Proof.
  induction 1 as [| |next choices V b tx rest out E Hmax Hg IH]; intros Ho a; [apply prefix_nil..|].
  destruct (Forall_cons_1 _ _ _ (Ho _ _ E)) as [Hf _].
  assert (owned (<[b := if next then rest else []]> V)) as Ho'.
  { eapply owned_insert; [done..|]. destruct next; [by exists [tx]|]. exists (tx :: rest). by rewrite app_nil_r. }
  specialize (IH Ho' a). rewrite lookup_insert in IH. destruct (decide (b = a)) as [->|Hne].
  - rewrite E. cbn [from_option id]. rewrite filter_cons_True by (by rewrite (is_from_sent a), bool_decide_true). apply prefix_cons.
    destruct next; [done|]. cbn in IH. destruct IH as [k Hk]. symmetry in Hk. apply app_eq_nil in Hk as [-> _]. apply prefix_nil.
  - by rewrite filter_cons_False by (rewrite (is_from_sent b), bool_decide_false; done).
Qed.

Definition txs_in (V : queues) : nat := sum_list (length <$> (map_to_list V).*2).

Lemma txs_in_insert (V : queues) a l l' : V !! a = Some l → (txs_in (<[a := l']> V) + length l = txs_in V + length l')%nat.
Proof.
  intros E. unfold txs_in. assert (∀ k, sum_list (length <$> (map_to_list (<[a := k]> V)).*2) = length k + sum_list (length <$> (map_to_list (delete a V)).*2))%nat as H.
  { intros k. rewrite <- insert_delete_eq, map_to_list_insert by apply lookup_delete_eq. done. }
  rewrite (H l'). rewrite <- (insert_id V a l E) at 2. rewrite (H l). lia.
Qed.

(** If no account is left, all of it is taken. *)
Lemma greedy_all n : ∀ V out, greedy (replicate n true) V out → owned V → (txs_in V ≤ n)%nat →
  ∀ a, filter (fun tx => sent_by a tx = true) out = default [] (V !! a).
Proof.
  induction n as [|n IH]; intros V out Hg Ho Ht a; cbn in Hg.
  - assert (∀ a l, V !! a = Some l → l = []) as He.
    { intros b l E. pose proof (txs_in_insert V b l [] E). cbn in *. destruct l; [done|cbn in *; lia]. }
    inversion Hg; subst; destruct (V !! a) as [l|] eqn:E; cbn; try done; by rewrite (He _ _ E).
  - inversion Hg as [|? ? He|next ch V' b tx rest out' E Hmax Hg']; subst.
    { destruct (V !! a) as [l|] eqn:E; cbn; [|done]. by rewrite (He _ _ E). }
    destruct (Forall_cons_1 _ _ _ (Ho _ _ E)) as [Hf _]. pose proof (txs_in_insert V b _ rest E) as Hti. cbn in Hti.
    specialize (IH _ _ Hg' (owned_insert V b _ rest Ho E ltac:(by exists [tx])) ltac:(lia) a). rewrite lookup_insert in IH.
    destruct (decide (b = a)) as [->|Hne].
    + rewrite E. cbn [from_option id] in *. rewrite filter_cons_True by (by rewrite (is_from_sent a), bool_decide_true). by f_equal.
    + by rewrite filter_cons_False by (rewrite (is_from_sent b), bool_decide_false; done).
Qed.

(** C39. The set from which a miner takes transactions: whether after each one it
    goes on with its account or leaves it, it is given at every step a
    transaction with the highest price among the next ones of all accounts, and
    those of an account in their order, from the first and without a gap; and
    if it leaves no account it is given all of them. *)
Theorem byPriceAndNonce_order (Q : queues) (choices : list bool) : owned Q → map_Forall (fun _ l => l ≠ []) Q →
  ∃ t out, NewTransactionsByPriceAndNonce signer Q = Ok t ∧ drain choices t = Ok out ∧ greedy choices Q out ∧
    (∀ a, filter (fun tx => sent_by a tx = true) out `prefix_of` default [] (Q !! a)) ∧
    (∀ n, choices = replicate n true → (txs_in Q ≤ n)%nat → ∀ a, filter (fun tx => sent_by a tx = true) out = default [] (Q !! a)).
Proof.
  intros Ho Hne. destruct (NewByPrice_ok Q Ho Hne) as (t & Et & Ht). destruct (drain_greedy choices t Q Ht) as (out & Ed & Hg).
  exists t, out. split; [done|]. split; [done|]. split; [done|]. split; [by eapply greedy_prefix|].
  intros n -> Hn. by eapply greedy_all.
Qed.

End ByPrice.
