(* ===== verification/TxPool.v ===== *)
(** * The transaction pool (src/kernel/tx_pool.go, tx_journal.go, src/kernel/state/managed_state.go)

    Pending transactions can be executed on the current state, in the order of
    their nonces; queued ones wait for others.  A method of the pool is a
    function on its state.  The lock makes the methods atomic; the events that
    are sent and the transactions that are written to the journal are lists of
    the state.  Maps of accounts are visited in an order that Go leaves open,
    here any function [visit]. *)

From S2P Require Import Prelude Types Interfaces Rlp Trie HeaderHash State GoMath Vm VmPrecompiled Transition Tx Block GoHeap TxList.
From stdpp Require Import base tactics option list numbers sorting gmap.
From Stdlib Require Import ZArith Lia.

#[local] Open Scope Z_scope.

(** ** Managed nonces

    A copy of the state in which the nonces of accounts run ahead of those of
    the chain: the pool counts its pending transactions there. *)

Section Managed.
Context {HS : StateOps}.

(** The nonce at which the account was taken over, and which of the nonces
    after it are in use. *)
Record account := mkManaged { ma_nstart : Z; ma_nonces : list bool }.

Record ManagedState := mkManagedState { ms_StateDB : st; ms_accounts : gmap Address account }.

(** The argument is the copy that [StateDB.Copy] makes. *)
Definition ManageState (copy : st) : ManagedState := mkManagedState copy ∅.

Definition ms_SetState (statedb : st) (ms : ManagedState) : ManagedState := mkManagedState statedb (ms_accounts ms).

(** The nonce that follows those of an account. *)
Definition next_nonce (acc : account) : Z := (strlen (ma_nonces acc) + ma_nstart acc)%u64.

Definition set_account (addr : Address) (acc : account) (ms : ManagedState) : ManagedState :=
  mkManagedState (ms_StateDB ms) (<[addr := acc]> (ms_accounts ms)).

Definition hasAccount (addr : Address) (ms : ManagedState) : bool := bool_decide (is_Some (ms_accounts ms !! addr)).

(** An account without a state object has the nonce 0, which is not ahead of
    any other. *)
Definition getAccount (addr : Address) (ms : ManagedState) : pan (ManagedState * account) :=
  match ms_accounts ms !! addr with
  | None =>
      (* [GetOrNewStateObject] makes an object for an account that has none *)
      '(s, exists_) ← st_Exist addr (ms_StateDB ms);
      s ← (if exists_ : bool then Ok s else st_CreateAccount addr s);
      '(s, nonce) ← st_GetNonce addr s;
      let acc := mkManaged nonce [] in
      Ok (set_account addr acc (mkManagedState s (ms_accounts ms)), acc)
  | Some acc =>
      '(s, nonce) ← st_GetNonce addr (ms_StateDB ms);
      let ms := mkManagedState s (ms_accounts ms) in
      if next_nonce acc <? nonce then let acc := mkManaged nonce [] in Ok (set_account addr acc ms, acc)
      else Ok (ms, acc)
  end.

Definition RemoveNonce (addr : Address) (n : Z) (ms : ManagedState) : pan ManagedState :=
  if hasAccount addr ms then
    '(ms, acc) ← getAccount addr ms;
    let keep := (n - ma_nstart acc)%u64 in
    if keep <=? strlen (ma_nonces acc)
    then Ok (set_account addr (mkManaged (ma_nstart acc) (take (Z.to_nat keep) (ma_nonces acc))) ms)
    else Ok ms
  else Ok ms.

(** The first nonce that is free, or a new one. *)
Definition NewNonce (addr : Address) (ms : ManagedState) : pan (ManagedState * Z) :=
  '(ms, acc) ← getAccount addr ms;
  match list_find (fun used => used = false) (ma_nonces acc) with
  | Some (i, _) => Ok (ms, (ma_nstart acc + Z.of_nat i)%u64)
  | None =>
      let acc := mkManaged (ma_nstart acc) (ma_nonces acc ++ [true]) in
      Ok (set_account addr acc ms, (Z.of_nat (length (ma_nonces acc) - 1) + ma_nstart acc)%u64)
  end.

Definition ms_GetNonce (addr : Address) (ms : ManagedState) : pan (ManagedState * Z) :=
  if hasAccount addr ms then
    '(ms, acc) ← getAccount addr ms;
    Ok (ms, next_nonce acc)
  else
    '(s, nonce) ← st_GetNonce addr (ms_StateDB ms);
    Ok (mkManagedState s (ms_accounts ms), nonce).

(** [GetOrNewStateObject] and [SetNonce] of the object are the state's [SetNonce]. *)
Definition ms_SetNonce (addr : Address) (nonce : Z) (ms : ManagedState) : pan ManagedState :=
  s ← st_SetNonce addr nonce (ms_StateDB ms);
  Ok (set_account addr (mkManaged nonce []) (mkManagedState s (ms_accounts ms))).

End Managed.

(** ** Errors and statuses *)

Inductive poolError :=
  | ErrInvalidSender
  | ErrNonceTooLow
  | ErrUnderpriced
  | ErrReplaceUnderpriced
  | ErrInsufficientFunds
  | ErrIntrinsicGas
  | ErrGasLimit
  | ErrNegativeValue
  | ErrOversizedData
  | ErrKnownTransaction (hash : Hash)
  | ErrOfTransition (e : txError).

Inductive TxStatus := TxStatusUnknown | TxStatusQueued | TxStatusPending | TxStatusIncluded.

(** ** Configuration *)

(** Durations are in nanoseconds. *)
Record TxPoolConfig := mkPoolConfig {
  NoLocals : bool;
  Journal : bool;
  Rejournal : Z;
  PriceLimit : Z;
  PriceBump : Z;
  AccountSlots : Z;
  GlobalSlots : Z;
  AccountQueue : Z;
  GlobalQueue : Z;
  Lifetime : Z
}.

Definition second : Z := 1000000000.
Definition hour : Z := 3600 * second.

Definition DefaultTxPoolConfig : TxPoolConfig := mkPoolConfig false true hour 1 10 16 4096 64 1024 (3 * hour).

Definition sanitize (conf : TxPoolConfig) : TxPoolConfig :=
  mkPoolConfig (NoLocals conf) (Journal conf) (if Rejournal conf <? second then second else Rejournal conf)
    (if PriceLimit conf <? 1 then PriceLimit DefaultTxPoolConfig else PriceLimit conf)
    (if PriceBump conf <? 1 then PriceBump DefaultTxPoolConfig else PriceBump conf)
    (AccountSlots conf) (GlobalSlots conf) (AccountQueue conf) (GlobalQueue conf) (Lifetime conf).

(** ** Rounding *)

(** A natural number rounded to [bits] bits of mantissa, ties to even. *)
Definition round_to (bits n : Z) : Z :=
  let e := Z.log2 n + 1 - bits in
  if e <=? 0 then n
  else
    let q := n / 2 ^ e in
    let r := n mod 2 ^ e in
    let half := 2 ^ (e - 1) in
    (if (half <? r) || ((r =? half) && Z.odd q) then q + 1 else q) * 2 ^ e.

Definition float32 (n : Z) : Z := round_to 24 n.
Definition float64 (n : Z) : Z := round_to 53 n.

(** [uint64(math.Abs(float64(a) - float64(b)))], of block numbers. *)
Definition reorg_depth (a b : Z) : Z := float64 (Z.abs (float64 a - float64 b)).

(** The heap of [prque], highest priority first. *)
Definition priority_key (i : Address * Z) : Z := - i.2.

(** [Transaction.Size]: the bytes that the encoder writes. *)
Definition tx_Size (tx : Transaction) : pan Z :=
  match Encode (tx_value (tx_data tx)) with Ok chunks => Ok (strlen (concat chunks)) | Err _ => Ok 0 | Panic => Panic end.

Section Pool.
Context `{HK : Keccak, HP : EvmCrypto, HS : StateOps} (visit : list Address → list Address).

(** ** The state of the pool *)

(** The journal: the transactions written to the open file, if one is open. *)
Record txJournal := mkJournal { jr_writer : option (list Transaction) }.

Record TxPool := mkPool {
  p_config : TxPoolConfig;
  p_gasPrice : Z;
  p_signer : Signer;
  p_currentState : st;
  p_pendingState : ManagedState;
  p_currentMaxGas : Z;
  p_locals : accountSet;
  p_journal : option txJournal;
  p_pending : gmap Address txList;
  p_queue : gmap Address txList;
  p_beats : gmap Address Z;
  p_all : gmap Hash Transaction;
  p_priced : txPricedList;
  p_homestead : bool;
  p_feed : list Transaction
}.

Definition set_gasPrice x p := mkPool (p_config p) x (p_signer p) (p_currentState p) (p_pendingState p) (p_currentMaxGas p) (p_locals p) (p_journal p)
  (p_pending p) (p_queue p) (p_beats p) (p_all p) (p_priced p) (p_homestead p) (p_feed p).
Definition set_current x p := mkPool (p_config p) (p_gasPrice p) (p_signer p) x (p_pendingState p) (p_currentMaxGas p) (p_locals p) (p_journal p)
  (p_pending p) (p_queue p) (p_beats p) (p_all p) (p_priced p) (p_homestead p) (p_feed p).
Definition set_managed x p := mkPool (p_config p) (p_gasPrice p) (p_signer p) (p_currentState p) x (p_currentMaxGas p) (p_locals p) (p_journal p)
  (p_pending p) (p_queue p) (p_beats p) (p_all p) (p_priced p) (p_homestead p) (p_feed p).
Definition set_maxGas x p := mkPool (p_config p) (p_gasPrice p) (p_signer p) (p_currentState p) (p_pendingState p) x (p_locals p) (p_journal p)
  (p_pending p) (p_queue p) (p_beats p) (p_all p) (p_priced p) (p_homestead p) (p_feed p).
Definition set_locals x p := mkPool (p_config p) (p_gasPrice p) (p_signer p) (p_currentState p) (p_pendingState p) (p_currentMaxGas p) x (p_journal p)
  (p_pending p) (p_queue p) (p_beats p) (p_all p) (p_priced p) (p_homestead p) (p_feed p).
Definition set_journal x p := mkPool (p_config p) (p_gasPrice p) (p_signer p) (p_currentState p) (p_pendingState p) (p_currentMaxGas p) (p_locals p) x
  (p_pending p) (p_queue p) (p_beats p) (p_all p) (p_priced p) (p_homestead p) (p_feed p).
Definition set_pending x p := mkPool (p_config p) (p_gasPrice p) (p_signer p) (p_currentState p) (p_pendingState p) (p_currentMaxGas p) (p_locals p) (p_journal p)
  x (p_queue p) (p_beats p) (p_all p) (p_priced p) (p_homestead p) (p_feed p).
Definition set_queue x p := mkPool (p_config p) (p_gasPrice p) (p_signer p) (p_currentState p) (p_pendingState p) (p_currentMaxGas p) (p_locals p) (p_journal p)
  (p_pending p) x (p_beats p) (p_all p) (p_priced p) (p_homestead p) (p_feed p).
Definition set_beats x p := mkPool (p_config p) (p_gasPrice p) (p_signer p) (p_currentState p) (p_pendingState p) (p_currentMaxGas p) (p_locals p) (p_journal p)
  (p_pending p) (p_queue p) x (p_all p) (p_priced p) (p_homestead p) (p_feed p).
Definition set_all x p := mkPool (p_config p) (p_gasPrice p) (p_signer p) (p_currentState p) (p_pendingState p) (p_currentMaxGas p) (p_locals p) (p_journal p)
  (p_pending p) (p_queue p) (p_beats p) x (p_priced p) (p_homestead p) (p_feed p).
Definition set_priced x p := mkPool (p_config p) (p_gasPrice p) (p_signer p) (p_currentState p) (p_pendingState p) (p_currentMaxGas p) (p_locals p) (p_journal p)
  (p_pending p) (p_queue p) (p_beats p) (p_all p) x (p_homestead p) (p_feed p).
Definition set_homestead x p := mkPool (p_config p) (p_gasPrice p) (p_signer p) (p_currentState p) (p_pendingState p) (p_currentMaxGas p) (p_locals p) (p_journal p)
  (p_pending p) (p_queue p) (p_beats p) (p_all p) (p_priced p) x (p_feed p).
Definition set_feed x p := mkPool (p_config p) (p_gasPrice p) (p_signer p) (p_currentState p) (p_pendingState p) (p_currentMaxGas p) (p_locals p) (p_journal p)
  (p_pending p) (p_queue p) (p_beats p) (p_all p) (p_priced p) (p_homestead p) x.

(** ** Computations on the pool *)

Definition poolM (A : Type) : Type := TxPool → pan (TxPool * A).

#[export] Instance poolM_mret : MRet poolM := fun A a p => Ok (p, a).
#[export] Instance poolM_mbind : MBind poolM := fun A B f m p => '(p, a) ← m p; f a p.

Definition gets {A} (f : TxPool → A) : poolM A := fun p => Ok (p, f p).
Definition modify (f : TxPool → TxPool) : poolM unit := fun p => Ok (f p, tt).
Definition lift {A} (x : pan A) : poolM A := fun p => a ← x; Ok (p, a).

Fixpoint each {A} (f : A → poolM unit) (l : list A) : poolM unit :=
  match l with [] => mret tt | x :: l => f x;; each f l end.

(** Reading the current state, which fills its caches. *)
Definition current {A} (f : st → pan (st * A)) : poolM A :=
  fun p => '(s, a) ← f (p_currentState p); Ok (set_current s p, a).
Definition managed_nonce (addr : Address) : poolM Z :=
  fun p => '(ms, n) ← ms_GetNonce addr (p_pendingState p); Ok (set_managed ms p, n).
Definition set_managed_nonce (addr : Address) (nonce : Z) : poolM unit :=
  fun p => ms ← ms_SetNonce addr nonce (p_pendingState p); Ok (set_managed ms p, tt).

(** The sender of a transaction in the pool, the zero address if it has none. *)
Definition sender (tx : Transaction) : poolM Address := signer ← gets p_signer; lift (account_of_tx signer tx).

Definition is_local (addr : Address) (p : TxPool) : bool := as_contains addr (p_locals p).

Definition put_pending (addr : Address) (l : txList) : poolM unit := modify (fun p => set_pending (<[addr := l]> (p_pending p)) p).
Definition put_queue (addr : Address) (l : txList) : poolM unit := modify (fun p => set_queue (<[addr := l]> (p_queue p)) p).

(** [delete(pool.all, hash); pool.priced.Removed()] *)
Definition forget (hash : Hash) : poolM unit :=
  modify (fun p => set_all (delete hash (p_all p)) p);;
  modify (fun p => set_priced (priced_Removed (p_all p) (p_priced p)) p).

(** [pool.all[hash] = tx; pool.priced.Put(tx)] *)
Definition remember (hash : Hash) (tx : Transaction) : poolM unit :=
  modify (fun p => set_all (<[hash := tx]> (p_all p)) p);;
  modify (fun p => set_priced (priced_Put tx (p_priced p)) p).

(** Forgetting a transaction that a list gave back. *)
Definition forget_tx (tx : option Transaction) : poolM unit := tx ← lift (deref tx); forget (hash_of tx).

(** ** Validation *)

Definition validateTx (tx : Transaction) (local : bool) : poolM (option poolError) :=
  size ← lift (tx_Size tx);
  if 32 * 1024 <? size then mret (Some ErrOversizedData)
  else if Amount (tx_data tx) <? 0 then mret (Some ErrNegativeValue)
  else
    maxGas ← gets p_currentMaxGas;
    if maxGas <? tx_Gas tx then mret (Some ErrGasLimit)
    else
      signer ← gets p_signer;
      match sender_of signer tx with
      | Panic => fun _ => Panic
      | Err _ => mret (Some ErrInvalidSender)
      | Ok from =>
          known_local ← gets (is_local from);
          gasPrice ← gets p_gasPrice;
          if negb (local || known_local) && (tx_GasPrice tx <? gasPrice) then mret (Some ErrUnderpriced)
          else
            nonce ← current (st_GetNonce from);
            if tx_Nonce tx <? nonce then mret (Some ErrNonceTooLow)
            else
              balance ← current (st_GetBalance from);
              if balance <? tx_Cost (tx_data tx) then mret (Some ErrInsufficientFunds)
              else
                homestead ← gets p_homestead;
                match IntrinsicGas (Payload (tx_data tx)) (bool_decide (Recipient (tx_data tx) = None)) homestead with
                | inr e => mret (Some (ErrOfTransition e))
                | inl intrGas => if tx_Gas tx <? intrGas then mret (Some ErrIntrinsicGas) else mret None
                end
      end.

(** ** Putting transactions in and taking them out *)

Definition journalTx (from : Address) (tx : Transaction) : poolM unit :=
  modify (fun p =>
    match p_journal p with
    | Some (mkJournal (Some written)) => if is_local from p then set_journal (Some (mkJournal (Some (written ++ [tx])))) p else p
    | _ => p
    end).

Definition enqueueTx (hash : Hash) (tx : Transaction) : poolM (bool + poolError) :=
  from ← sender tx;
  list ← gets (fun p => default (newTxList false) (p_queue p !! from));
  config ← gets p_config;
  let '(list, (inserted, old)) := list_Add tx (PriceBump config) list in
  put_queue from list;;
  if negb inserted then mret (inr ErrReplaceUnderpriced)
  else
    match old with Some old => forget (hash_of old) | None => mret tt end;;
    remember hash tx;;
    mret (inl (bool_decide (is_Some old))).

(** The time of the call is an argument of the methods that read the clock. *)
Definition promoteTx (now : Z) (addr : Address) (hash : Hash) (tx : Transaction) : poolM unit :=
  list ← gets (fun p => default (newTxList true) (p_pending p !! addr));
  config ← gets p_config;
  let '(list, (inserted, old)) := list_Add tx (PriceBump config) list in
  put_pending addr list;;
  if negb inserted then forget hash
  else
    match old with Some old => forget (hash_of old) | None => mret tt end;;
    known ← gets (fun p => p_all p !! hash);
    match known with None => remember hash tx | Some _ => mret tt end;;
    modify (fun p => set_beats (<[addr := now]> (p_beats p)) p);;
    set_managed_nonce addr (tx_Nonce tx + 1)%u64;;
    modify (fun p => set_feed (p_feed p ++ [tx]) p).

(** [pending > nonce] of the account's managed nonce. *)
Definition lower_nonce (addr : Address) (nonce : Z) : poolM unit :=
  n ← managed_nonce addr;
  if nonce <? n then set_managed_nonce addr nonce else mret tt.

(** The part of [removeTx] for a transaction that is not pending. *)
Definition remove_queued (addr : Address) (tx : Transaction) : poolM unit :=
  future ← gets (fun p => p_queue p !! addr);
  match future with
  | None => mret tt
  | Some future =>
      '(future, _) ← lift (list_Remove tx future);
      put_queue addr future;;
      if list_Empty future then modify (fun p => set_queue (delete addr (p_queue p)) p) else mret tt
  end.

(** A transaction that has become invalid goes back to the queue; an error is
    dropped. *)
Definition requeue (tx : Transaction) : poolM unit := enqueueTx (hash_of tx) tx;; mret tt.

Definition drop_pending (addr : Address) : poolM unit :=
  modify (fun p => set_pending (delete addr (p_pending p)) p);;
  modify (fun p => set_beats (delete addr (p_beats p)) p).

Definition removeTx (hash : Hash) : poolM unit :=
  known ← gets (fun p => p_all p !! hash);
  match known with
  | None => mret tt
  | Some tx =>
      addr ← sender tx;
      forget hash;;
      pending ← gets (fun p => p_pending p !! addr);
      match pending with
      | None => remove_queued addr tx
      | Some pending =>
          '(pending, (removed, invalids)) ← lift (list_Remove tx pending);
          put_pending addr pending;;
          if removed : bool then
            (if list_Empty pending then drop_pending addr else each requeue invalids);;
            lower_nonce addr (tx_Nonce tx)
          else remove_queued addr tx
      end
  end.

(** The part of [add] that puts a transaction into the queue. *)
Definition place_queued (from : Address) (tx : Transaction) (local : bool) : poolM (bool + poolError) :=
  r ← enqueueTx (hash_of tx) tx;
  match r with
  | inr e => mret (inr e)
  | inl replace =>
      (if local then modify (fun p => set_locals (as_add from (p_locals p)) p) else mret tt);;
      journalTx from tx;;
      mret (inl replace)
  end.

(** The part of [add] for a transaction that was accepted. *)
Definition place (tx : Transaction) (local : bool) : poolM (bool + poolError) :=
  from ← sender tx;
  list ← gets (fun p => p_pending p !! from);
  match list with
  | Some list =>
      if Overlaps tx list then
        config ← gets p_config;
        let '(list, (inserted, old)) := list_Add tx (PriceBump config) list in
        put_pending from list;;
        if negb inserted then mret (inr ErrReplaceUnderpriced)
        else
          match old with Some old => forget (hash_of old) | None => mret tt end;;
          remember (hash_of tx) tx;;
          journalTx from tx;;
          modify (fun p => set_feed (p_feed p ++ [tx]) p);;
          mret (inl (bool_decide (is_Some old)))
      else place_queued from tx local
  | None => place_queued from tx local
  end.

(** Making room in a full pool. *)
Definition make_room (tx : Transaction) : poolM (option poolError) :=
  config ← gets p_config;
  count ← gets (fun p => Z.of_nat (size (p_all p)));
  if (GlobalSlots config + GlobalQueue config)%u64 <=? count then
    all ← gets p_all;
    locals ← gets p_locals;
    priced ← gets p_priced;
    '(priced, under) ← lift (Underpriced all tx locals priced);
    modify (set_priced priced);;
    if under : bool then mret (Some ErrUnderpriced)
    else
      '(priced, drop) ← lift (Discard all (count - i64 (GlobalSlots config + GlobalQueue config - 1)%u64) locals priced);
      modify (set_priced priced);;
      each (fun tx => removeTx (hash_of tx)) drop;;
      mret None
  else mret None.

Definition pool_add (tx : Transaction) (local : bool) : poolM (bool + poolError) :=
  let hash := hash_of tx in
  known ← gets (fun p => p_all p !! hash);
  match known with
  | Some _ => mret (inr (ErrKnownTransaction hash))
  | None =>
      err ← validateTx tx local;
      match err with
      | Some e => mret (inr e)
      | None =>
          full ← make_room tx;
          match full with Some e => mret (inr e) | None => place tx local end
      end
  end.

(** ** Promoting *)

(** The transactions of one account that can be promoted, dropped or kept. *)
Definition promote_account (now : Z) (addr : Address) : poolM unit :=
  list ← gets (fun p => p_queue p !! addr);
  match list with
  | None => mret tt
  | Some list =>
      nonce ← current (st_GetNonce addr);
      '(list, old) ← lift (list_Forward nonce list);
      put_queue addr list;;
      each forget_tx old;;
      balance ← current (st_GetBalance addr);
      maxGas ← gets p_currentMaxGas;
      let '(list, (drops, _)) := list_Filter balance maxGas list in
      put_queue addr list;;
      each (fun tx => forget (hash_of tx)) drops;;
      start ← managed_nonce addr;
      '(list, ready) ← lift (list_Ready start list);
      put_queue addr list;;
      each (fun tx => tx ← lift (deref tx); promoteTx now addr (hash_of tx) tx) ready;;
      local ← gets (is_local addr);
      config ← gets p_config;
      list ← (if local : bool then mret list
              else
                '(list, drops) ← lift (list_Cap (i64 (AccountQueue config)) list);
                put_queue addr list;;
                each forget_tx drops;;
                mret list);
      if list_Empty list then modify (fun p => set_queue (delete addr (p_queue p)) p) else mret tt
  end.

(** The number of transactions in some lists. *)
Definition count_txs (lists : gmap Address txList) : Z :=
  foldl (fun n l => (n + list_Len l)%u64) 0 (map_to_list lists).*2.

Definition pending_len (addr : Address) : poolM Z := l ← gets (fun p => p_pending p !! addr); list ← lift (deref l); mret (list_Len list).

(** The last transaction of an account is dropped. *)
Definition cap_one (addr : Address) : poolM unit :=
  l ← gets (fun p => p_pending p !! addr);
  list ← lift (deref l);
  '(list, drops) ← lift (list_Cap (list_Len list - 1) list);
  put_pending addr list;;
  each (fun tx => tx ← lift (deref tx); forget (hash_of tx);; lower_nonce addr (tx_Nonce tx)) drops.

Fixpoint cap_each (offenders : list Address) (pending : Z) : poolM Z :=
  match offenders with
  | [] => mret pending
  | addr :: offenders => cap_one addr;; cap_each offenders (pending - 1)%u64
  end.

(** [for pending > GlobalSlots && Len(last) > threshold]: every round makes the
    list of [last], one of the offenders, shorter. *)
Fixpoint penalize (fuel : nat) (slots threshold : Z) (last : Address) (offenders : list Address) (pending : Z) : poolM Z :=
  match fuel with
  | O => mret pending
  | S fuel =>
      if slots <? pending then
        len ← pending_len last;
        if threshold <? len then pending ← cap_each offenders pending; penalize fuel slots threshold last offenders pending
        else mret pending
      else mret pending
  end.

Definition penalize_last (slots threshold : Z) (last : Address) (offenders : list Address) (pending : Z) : poolM Z :=
  len ← pending_len last; penalize (S (Z.to_nat len)) slots threshold last offenders pending.

(** The accounts with the most transactions, until enough are dropped. *)
Fixpoint offend (fuel : nat) (slots : Z) (spammers : list (Address * Z)) (offenders : list Address) (pending : Z) : poolM (Z * list Address) :=
  match fuel, spammers with
  | S fuel, _ :: _ =>
      if slots <? pending then
        '(spammers, offender) ← lift (deref (Pop priority_key spammers));
        pending ← match last offenders with
                  | Some before =>
                      threshold ← pending_len offender.1;
                      penalize_last slots threshold before offenders pending
                  | None => mret pending
                  end;
        offend fuel slots spammers (offenders ++ [offender.1]) pending
      else mret (pending, offenders)
  | _, _ => mret (pending, offenders)
  end.

(** Remote accounts with more than their slots. *)
Definition find_spammers (p : TxPool) : list (Address * Z) :=
  foldl (fun spammers addr =>
    match p_pending p !! addr with
    | Some l =>
        if negb (is_local addr p) && (AccountSlots (p_config p) <? list_Len l)
        then Push priority_key (addr, float32 (list_Len l)) spammers else spammers
    | None => spammers
    end) [] (visit (map_to_list (p_pending p)).*1).

Definition limit_pending : poolM unit :=
  pending ← gets (fun p => count_txs (p_pending p));
  config ← gets p_config;
  if GlobalSlots config <? pending then
    spammers ← gets find_spammers;
    '(pending, offenders) ← offend (length spammers) (GlobalSlots config) spammers [] pending;
    match last offenders with
    | Some before =>
        if GlobalSlots config <? pending
        then penalize_last (GlobalSlots config) (AccountSlots config) before offenders pending;; mret tt
        else mret tt
    | None => mret tt
    end
  else mret tt.

(** The remote accounts of the queue, the longest silent first. *)
Definition beat_le (a b : Address * Z) : Prop := a.2 ≤ b.2.
#[export] Instance beat_le_dec : RelDecision beat_le := fun a b => decide (a.2 ≤ b.2).

Definition by_heartbeat (p : TxPool) : list (Address * Z) :=
  merge_sort beat_le ((fun addr => (addr, default 0 (p_beats p !! addr))) <$>
    filter (fun addr => is_local addr p = false) (visit (map_to_list (p_queue p)).*1)).

(** The transactions from the end of a list, [drop] of them at most. *)
Fixpoint drop_last (txs : list Transaction) (drop : Z) : poolM Z :=
  match txs with
  | [] => mret drop
  | tx :: txs => if 0 <? drop then removeTx (hash_of tx);; drop_last txs (drop - 1)%u64 else mret drop
  end.

Fixpoint evict_queued (addresses : list (Address * Z)) (drop : Z) : poolM unit :=
  match addresses with
  | [] => mret tt
  | (addr, _) :: addresses =>
      if 0 <? drop then
        l ← gets (fun p => p_queue p !! addr);
        list ← lift (deref l);
        let '(list', txs) := list_Flatten list in
        put_queue addr list';;
        if list_Len list <=? drop then
          each (fun tx => removeTx (hash_of tx)) txs;;
          evict_queued addresses (drop - list_Len list)%u64
        else
          drop ← drop_last (reverse txs) drop;
          evict_queued addresses drop
      else mret tt
  end.

Definition limit_queue : poolM unit :=
  queued ← gets (fun p => count_txs (p_queue p));
  config ← gets p_config;
  if GlobalQueue config <? queued then
    addresses ← gets by_heartbeat;
    evict_queued (reverse addresses) (queued - GlobalQueue config)%u64
  else mret tt.

(** Without accounts, all those of the queue. *)
Definition promoteExecutables (now : Z) (accounts : option (list Address)) : poolM unit :=
  queued ← gets (fun p => visit (map_to_list (p_queue p)).*1);
  each (promote_account now) (default queued accounts);;
  limit_pending;;
  limit_queue.

(** ** Demoting *)

Definition demote_account (addr : Address) : poolM unit :=
  l ← gets (fun p => p_pending p !! addr);
  match l with
  | None => mret tt
  | Some list =>
      nonce ← current (st_GetNonce addr);
      '(list, old) ← lift (list_Forward nonce list);
      put_pending addr list;;
      each forget_tx old;;
      balance ← current (st_GetBalance addr);
      maxGas ← gets p_currentMaxGas;
      let '(list, (drops, invalids)) := list_Filter balance maxGas list in
      put_pending addr list;;
      each (fun tx => forget (hash_of tx)) drops;;
      each requeue invalids;;
      list ← (if (0 <? list_Len list) && bool_decide (sorted.Get nonce (tl_txs list) = None) then
                '(list, drops) ← lift (list_Cap 0 list);
                put_pending addr list;;
                each (fun tx => tx ← lift (deref tx); requeue tx) drops;;
                mret list
              else mret list);
      if list_Empty list then drop_pending addr else mret tt
  end.

Definition demoteUnexecutables : poolM unit :=
  accounts ← gets (fun p => visit (map_to_list (p_pending p)).*1);
  each demote_account accounts.

(** ** Adding *)

Definition addTx (now : Z) (tx : Transaction) (local : bool) : poolM (option poolError) :=
  r ← pool_add tx local;
  match r with
  | inr e => mret (Some e)
  | inl true => mret None
  | inl false => from ← sender tx; promoteExecutables now (Some [from]);; mret None
  end.

Fixpoint add_all (txs : list Transaction) (local : bool) (dirty : gset Address) : poolM (list (option poolError) * gset Address) :=
  match txs with
  | [] => mret ([], dirty)
  | tx :: txs =>
      r ← pool_add tx local;
      match r with
      | inr e => '(errs, dirty) ← add_all txs local dirty; mret (Some e :: errs, dirty)
      | inl true => '(errs, dirty) ← add_all txs local dirty; mret (None :: errs, dirty)
      | inl false => from ← sender tx; '(errs, dirty) ← add_all txs local ({[from]} ∪ dirty); mret (None :: errs, dirty)
      end
  end.

Definition addTxsLocked (now : Z) (txs : list Transaction) (local : bool) : poolM (list (option poolError)) :=
  '(errs, dirty) ← add_all txs local ∅;
  (if bool_decide (dirty = ∅) then mret tt else promoteExecutables now (Some (visit (elements dirty))));;
  mret errs.

Definition AddLocal (now : Z) (tx : Transaction) : poolM (option poolError) := config ← gets p_config; addTx now tx (negb (NoLocals config)).
Definition AddRemote (now : Z) (tx : Transaction) : poolM (option poolError) := addTx now tx false.
Definition AddLocals (now : Z) (txs : list Transaction) : poolM (list (option poolError)) := config ← gets p_config; addTxsLocked now txs (negb (NoLocals config)).
Definition AddRemotes (now : Z) (txs : list Transaction) : poolM (list (option poolError)) := addTxsLocked now txs false.

(** ** Reading *)

Definition stats (p : TxPool) : Z * Z :=
  (foldl (fun n l => n + list_Len l) 0 (map_to_list (p_pending p)).*2, foldl (fun n l => n + list_Len l) 0 (map_to_list (p_queue p)).*2).

(** Every list is flattened, and keeps the result. *)
Definition flatten_all (lists : gmap Address txList) : gmap Address txList * gmap Address (list Transaction) :=
  (fst ∘ list_Flatten <$> lists, snd ∘ list_Flatten <$> lists).

Definition Pending : poolM (gmap Address (list Transaction)) := fun p =>
  let '(lists, out) := flatten_all (p_pending p) in Ok (set_pending lists p, out).

Definition Content : poolM (gmap Address (list Transaction) * gmap Address (list Transaction)) := fun p =>
  let '(pending, out1) := flatten_all (p_pending p) in
  let '(queue, out2) := flatten_all (p_queue p) in
  Ok (set_queue queue (set_pending pending p), (out1, out2)).

(** The status of one transaction, and of many. *)
Definition status_of (hash : Hash) : poolM TxStatus :=
  known ← gets (fun p => p_all p !! hash);
  match known with
  | None => mret TxStatusUnknown
  | Some tx =>
      from ← sender tx;
      l ← gets (fun p => p_pending p !! from);
      match l with
      | Some l => mret (if bool_decide (is_Some (sorted.sm_items (tl_txs l) !! tx_Nonce tx)) then TxStatusPending else TxStatusQueued)
      | None => mret TxStatusQueued
      end
  end.

Fixpoint Status (hashes : list Hash) : poolM (list TxStatus) :=
  match hashes with
  | [] => mret []
  | hash :: hashes => status ← status_of hash; rest ← Status hashes; mret (status :: rest)
  end.

Definition pool_Get (hash : Hash) (p : TxPool) : option Transaction := p_all p !! hash.

(** ** Prices and time *)

Definition SetGasPrice (price : Z) : poolM unit :=
  modify (set_gasPrice price);;
  all ← gets p_all;
  locals ← gets p_locals;
  priced ← gets p_priced;
  '(priced, drop) ← lift (priced_Cap all price locals priced);
  modify (set_priced priced);;
  each (fun tx => removeTx (hash_of tx)) drop.

(** [time.Since]; times count nanoseconds from the zero time, and a duration
    that does not fit is cut off. *)
Definition since (now t : Z) : Z := Z.min (now - t) 9223372036854775807.

(** The case of [loop] for accounts that were silent for too long; an account
    that has left the queue is not visited. *)
Definition evict_account (now : Z) (addr : Address) : poolM unit :=
  local ← gets (is_local addr);
  if local : bool then mret tt
  else
    beat ← gets (fun p => default 0 (p_beats p !! addr));
    config ← gets p_config;
    if Lifetime config <? since now beat then
      l ← gets (fun p => p_queue p !! addr);
      match l with
      | None => mret tt
      | Some list =>
          let '(list', txs) := list_Flatten list in
          put_queue addr list';;
          each (fun tx => removeTx (hash_of tx)) txs
      end
    else mret tt.

Definition evict (now : Z) : poolM unit :=
  accounts ← gets (fun p => visit (map_to_list (p_queue p)).*1);
  each (evict_account now) accounts.

(** ** The journal *)

(** What [Flatten] gives for the list of an account, if there is one. *)
Definition flatten_pending (addr : Address) : poolM (list Transaction) :=
  l ← gets (fun p => p_pending p !! addr);
  match l with
  | Some list => let '(list, txs) := list_Flatten list in put_pending addr list;; mret txs
  | None => mret []
  end.
Definition flatten_queued (addr : Address) : poolM (list Transaction) :=
  l ← gets (fun p => p_queue p !! addr);
  match l with
  | Some list => let '(list, txs) := list_Flatten list in put_queue addr list;; mret txs
  | None => mret []
  end.

(** The transactions of the local accounts, those of one after those of
    another. *)
Fixpoint local_txs (accounts : list Address) : poolM (list Transaction) :=
  match accounts with
  | [] => mret []
  | addr :: accounts =>
      pending ← flatten_pending addr;
      queued ← flatten_queued addr;
      rest ← local_txs accounts;
      mret (pending ++ queued ++ rest)
  end.

(** [journal.rotate(pool.local())], on a file system that does not fail. *)
Definition rotate_journal : poolM unit :=
  accounts ← gets (fun p => visit (elements (as_accounts (p_locals p))));
  txs ← local_txs accounts;
  modify (set_journal (Some (mkJournal (Some txs)))).

(** The case of [loop] that renews the journal. *)
Definition rejournal : poolM unit :=
  journal ← gets p_journal;
  match journal with Some _ => rotate_journal | None => mret tt end.

(** ** A new head of the chain *)

Section Reset.
Context (GetBlock : Hash → Z → option Block) (StateAt : Hash → option st) (CurrentBlock : Block) (Copy : st → pan st).

Definition parent_of (b : Block) : pan (option Block) :=
  n ← NumberU64 b; Ok (GetBlock (hdr_ParentHash (blk_header b)) (n - 1)%u64).

(** Going back to the number [target]; [None] for a chain without a root.  The
    numbers get smaller, so that the number of the first block is enough fuel. *)
Fixpoint descend (fuel : nat) (target : Z) (b : Block) (txs : list Transaction) : pan (option (Block * list Transaction)) :=
  n ← NumberU64 b;
  if target <? n then
    match fuel with
    | O => Ok None
    | S fuel =>
        parent ← parent_of b;
        match parent with
        | None => Ok None
        | Some parent => descend fuel target parent (txs ++ blk_transactions b)
        end
    end
  else Ok (Some (b, txs)).

(** Going back on both chains to a block that they share. *)
Fixpoint ancestor (fuel : nat) (rem add : Block) (discarded included : list Transaction) : pan (option (list Transaction * list Transaction)) :=
  if bool_decide ((Block_Hash rem).2 = (Block_Hash add).2) then Ok (Some (discarded, included))
  else
    match fuel with
    | O => Ok None
    | S fuel =>
        rem' ← parent_of rem;
        match rem' with
        | None => Ok None
        | Some rem' =>
            add' ← parent_of add;
            match add' with
            | None => Ok None
            | Some add' => ancestor fuel rem' add' (discarded ++ blk_transactions rem) (included ++ blk_transactions add)
            end
        end
    end.

(** The transactions of the blocks that a reorganisation has taken out of the
    chain; [None] where [reset] returns. *)
Definition reinjected (oldHead newHead : option Header) : pan (option (list Transaction)) :=
  match oldHead with
  | None => Ok (Some [])
  | Some oldHead =>
      newHead ← deref newHead;
      if bool_decide (Header_Hash oldHead = hdr_ParentHash newHead) then Ok (Some [])
      else
        oldNum ← deref (hdr_Number oldHead);
        newNum ← deref (hdr_Number newHead);
        if 64 <? reorg_depth (big_Uint64 oldNum) (big_Uint64 newNum) then Ok (Some [])
        else
          rem ← deref (GetBlock (Header_Hash oldHead) (big_Uint64 oldNum));
          add ← deref (GetBlock (Header_Hash newHead) (big_Uint64 newNum));
          remNum ← NumberU64 rem;
          addNum ← NumberU64 add;
          r ← descend (Z.to_nat remNum) addNum rem [];
          match r with
          | None => Ok None
          | Some (rem, discarded) =>
              remNum ← NumberU64 rem;
              r ← descend (Z.to_nat addNum) remNum add [];
              match r with
              | None => Ok None
              | Some (add, included) =>
                  r ← ancestor (S (Z.to_nat remNum)) rem add discarded included;
                  match r with
                  | None => Ok None
                  | Some (discarded, included) => Ok (Some (TxDifference discarded included))
                  end
              end
          end
  end.

(** The managed nonce of an account is that after its pending transactions. *)
Definition reset_nonce (addr : Address) : poolM unit :=
  txs ← flatten_pending addr;
  tx ← lift (deref (last txs));
  set_managed_nonce addr (tx_Nonce tx + 1)%u64.

Definition reset_to (now : Z) (statedb : st) (gasLimit : Z) (reinject : list Transaction) : poolM unit :=
  modify (set_current statedb);;
  copy ← lift (Copy statedb);
  modify (set_managed (ManageState copy));;
  modify (set_maxGas gasLimit);;
  addTxsLocked now reinject false;;
  demoteUnexecutables;;
  accounts ← gets (fun p => visit (map_to_list (p_pending p)).*1);
  each reset_nonce accounts;;
  promoteExecutables now None.

Definition pool_reset (now : Z) (oldHead newHead : option Header) : poolM unit :=
  reinject ← lift (reinjected oldHead newHead);
  match reinject with
  | None => mret tt
  | Some reinject =>
      let newHead := default (Block_Header CurrentBlock) newHead in
      match StateAt (hdr_Root newHead) with
      | None => mret tt
      | Some statedb => reset_to now statedb (hdr_GasLimit newHead) reinject
      end
  end.

(** The case of [loop] for a new block; the result is the head it compares the
    next one with. *)
Definition chain_head (chainconfig : ChainConfig) (now : Z) (head : Block) (block : option Block) : poolM Block :=
  match block with
  | None => mret head
  | Some block =>
      number ← lift (deref (hdr_Number (blk_header block)));
      (if IsHomestead chainconfig (Some number) then modify (set_homestead true) else mret tt);;
      pool_reset now (Some (Block_Header head)) (Some (Block_Header block));;
      mret block
  end.

(** A new pool, with the transactions that the journal holds; [None] if the
    state of the current block is missing, for a pool that cannot be used. *)
Definition NewTxPool (config : TxPoolConfig) (chainconfig : ChainConfig) (now : Z) (stored : list Transaction) : pan (option TxPool) :=
  let config := sanitize config in
  let signer := NewEIP155Signer (ChainId chainconfig) in
  let header := Block_Header CurrentBlock in
  match StateAt (hdr_Root header) with
  | None => Ok None
  | Some statedb =>
      let pool := mkPool config (PriceLimit config) signer statedb (ManageState statedb) 0 (newAccountSet signer) None ∅ ∅ ∅ ∅ newTxPricedList false [] in
      '(pool, _) ← (
        pool_reset now None (Some header);;
        if negb (NoLocals config) && Journal config then
          modify (set_journal (Some (mkJournal None)));;
          each (fun tx => AddLocal now tx;; mret tt) stored;;
          rotate_journal
        else mret tt) pool;
      Ok (Some pool)
  end.

End Reset.

End Pool.
