(* ===== verification/TxPoolInv.v ===== *)
(** * The invariant of the transaction pool

    Every pool that can be reached has well-formed lists of known transactions
    in which no account has two transactions with one nonce; this file says what
    that means, also while a method has taken transactions out of a list and
    not yet put them anywhere, and shows that the steps of the methods keep it. *)

From S2P Require Import Prelude Types Interfaces Rlp Trie HeaderHash State StateSpec GoMath Vm VmPrecompiled VmLaws Transition Tx Block GoHeap TxList TxListSpec TxPool.
From stdpp Require Import functions base tactics option list numbers sorting gmap.
From Stdlib Require Import ZArith Lia.

#[local] Open Scope Z_scope.

(** ** Lists *)

(** The transactions before a nonce. *)
Definition cut (n : Z) (items : txmap) : txmap := filter (fun ntx => ntx.1 < n) items.

Lemma lookup_cut n items k : cut n items !! k = if decide (k < n) then items !! k else None.
Proof.
  unfold cut. rewrite map_lookup_filter. destruct (items !! k) as [tx|]; cbn; [|by case_decide].
  case_decide; [by rewrite option_guard_True|by rewrite option_guard_False].
Qed.

Lemma lookup_cut_Some n items k tx : cut n items !! k = Some tx ↔ k < n ∧ items !! k = Some tx.
Proof. rewrite lookup_cut. case_decide; naive_solver. Qed.

Lemma list_Add_spec tx b l : list_ok l → is_u64 (tx_Nonce tx) → ∃ l' inserted old, list_Add tx b l = (l', (inserted, old)) ∧
  if inserted : bool then list_ok l' ∧ tl_strict l' = tl_strict l ∧ txs_of l' = <[tx_Nonce tx := tx]> (txs_of l) ∧ old = txs_of l !! tx_Nonce tx
  else l' = l ∧ is_Some (txs_of l !! tx_Nonce tx).
Proof.
  intros [Hm Hc Hw] Hu. unfold list_Add. set (r := match sorted.Get (tx_Nonce tx) (tl_txs l) with Some _ => _ | None => false end).
  destruct r eqn:Er; subst r.
  - eexists _, _, _. split; [done|]. split; [done|]. unfold sorted.Get in Er. destruct (txs_of l !! tx_Nonce tx); [by eexists|done].
  - eexists _, _, _. split; [done|]. destruct (Put_spec tx _ Hm) as [E Hm']. split; [|done]. constructor; cbn; [done|..]; rewrite ?E.
    + apply map_Forall_insert_2; [destruct (Z.ltb_spec (tl_costcap l) (tx_Cost (tx_data tx))), (Z.ltb_spec (tl_gascap l) (tx_Gas tx)); lia|].
      eapply map_Forall_impl; [exact Hc|]. intros n tx' [? ?]. destruct (Z.ltb_spec (tl_costcap l) (tx_Cost (tx_data tx))), (Z.ltb_spec (tl_gascap l) (tx_Gas tx)); lia.
    + by apply map_Forall_insert_2.
Qed.

(** What leaves a list, and what stays. *)
Definition leaves (items items' : txmap) (out : list Transaction) : Prop :=
  items' ⊆ items ∧ NoDup out ∧ ∀ tx, tx ∈ out ↔ items !! tx_Nonce tx = Some tx ∧ items' !! tx_Nonce tx = None.

Lemma elem_of_at_nonces items ns tx : keyed items → tx ∈ at_nonces items ns ↔ items !! tx_Nonce tx = Some tx ∧ tx_Nonce tx ∈ ns.
Proof.
  intros Hk. unfold at_nonces. rewrite list_elem_of_omap. split; [|naive_solver]. intros (n & Hn & E). by rewrite (Hk _ _ E).
Qed.

Lemma NoDup_at_nonces items ns : keyed items → NoDup ns → NoDup (at_nonces items ns).
Proof.
  intros Hk. induction 1 as [|n ns Hn Hnd IH]; [constructor|]. rewrite at_nonces_cons. destruct (items !! n) as [tx|] eqn:E; [|done].
  constructor; [|done]. rewrite elem_of_at_nonces by done. rewrite (Hk _ _ E). naive_solver.
Qed.

Lemma without_leaves items ns : keyed items → NoDup ns → leaves items (without ns items) (at_nonces items ns).
Proof.
  intros Hk Hnd. split; [|split; [by apply NoDup_at_nonces|]].
  - apply map_subseteq_spec. intros n tx. rewrite lookup_without. by case_decide.
  - intros tx. rewrite elem_of_at_nonces by done. rewrite lookup_without. case_decide; naive_solver.
Qed.

Lemma leaves_perm items items' out out' : out ≡ₚ out' → leaves items items' out → leaves items items' out'.
Proof. intros Hp (Hs & Hnd & Ho). split; [done|]. split; [by rewrite <- Hp|]. intros tx. rewrite <- Hp. apply Ho. Qed.

Lemma set_txs_ok m l ns : list_ok l → sm_ok m → sorted.sm_items m = without ns (txs_of l) → list_ok (set_txs m l).
Proof. intros [_ Hc Hw] Hm E. constructor; cbn; [done|rewrite E; by apply without_Forall..]. Qed.

(** The operations that take transactions out. *)
Definition takes (l l' : txList) (out : list Transaction) (items' : txmap) : Prop :=
  list_ok l' ∧ tl_strict l' = tl_strict l ∧ txs_of l' = items' ∧ leaves (txs_of l) items' out.

Lemma NoDup_ready s items : NoDup (ready_from s (nonces items)).
Proof.
  destruct (ready_split s (nonces items)) as [ks E]. pose proof (NoDup_nonces items) as Hnd. rewrite E in Hnd. by apply NoDup_app in Hnd as [? _].
Qed.

Lemma list_Forward_spec t l : list_ok l → ∃ l' out, list_Forward t l = Ok (l', Some <$> out) ∧
  takes l l' out (filter (fun ntx => ¬ ntx.1 < t) (txs_of l)).
Proof.
  intros Hl. unfold list_Forward. destruct (Forward_spec t _ (lo_map _ Hl)) as (m & out & -> & E & -> & Hm). rewrite bind_Ok.
  eexists _, _. split; [done|]. split; [by eapply set_txs_ok|]. split; [done|]. cbn.
  assert (filter (fun ntx => ¬ ntx.1 < t) (txs_of l) = without (filter (fun n => n < t) (nonces (txs_of l))) (txs_of l)) as ->.
  { apply map_eq. intros n. rewrite lookup_without, map_lookup_filter. destruct (txs_of l !! n) as [tx|] eqn:En; cbn; [|by case_decide].
    case_decide as Hd; rewrite list_elem_of_filter, elem_of_nonces in Hd.
    - rewrite option_guard_False; naive_solver.
    - rewrite option_guard_True; [done|]. cbn. intros Hlt. apply Hd. naive_solver. }
  split; [done|]. apply without_leaves; [apply Hl|apply NoDup_filter, NoDup_nonces].
Qed.

Lemma list_Cap_spec (k : nat) l : list_ok l → ∃ l' out, list_Cap (Z.of_nat k) l = Ok (l', Some <$> out) ∧
  takes l l' out (without (drop k (nonces (txs_of l))) (txs_of l)) ∧ out = reverse (at_nonces (txs_of l) (drop k (nonces (txs_of l)))).
Proof.
  intros Hl. unfold list_Cap. destruct (Cap_spec k _ (lo_map _ Hl)) as (m & out & -> & E & -> & Hm). rewrite bind_Ok.
  exists (set_txs m l), (at_nonces (txs_of l) (reverse (drop k (nonces (txs_of l))))). split; [done|]. split.
  - split; [by eapply set_txs_ok|]. split; [done|]. cbn.
    assert (without (drop k (nonces (txs_of l))) (txs_of l) = without (reverse (drop k (nonces (txs_of l)))) (txs_of l)) as -> by (apply without_ext; set_solver).
    split; [done|]. apply without_leaves; [apply Hl|]. rewrite reverse_Permutation. pose proof (NoDup_nonces (txs_of l)) as Hnd.
    rewrite <- (take_drop k) in Hnd. by apply NoDup_app in Hnd as (_ & _ & ?).
  - clear E Hm. induction (drop k (nonces (txs_of l))) as [|n ns IH]; [done|]. rewrite reverse_cons, at_nonces_app, IH, !at_nonces_cons.
    destruct (txs_of l !! n); [by rewrite reverse_cons|cbn; by rewrite app_nil_r].
Qed.

Lemma list_Ready_spec s l : list_ok l → ∃ l' , list_Ready s l = Ok (l', Some <$> at_nonces (txs_of l) (ready_from s (nonces (txs_of l)))) ∧
  takes l l' (at_nonces (txs_of l) (ready_from s (nonces (txs_of l)))) (without (ready_from s (nonces (txs_of l))) (txs_of l)).
Proof.
  intros Hl. unfold list_Ready. destruct (Ready_spec s _ (lo_map _ Hl)) as (m & out & -> & E & -> & Hm). rewrite bind_Ok.
  eexists. split; [done|]. split; [by eapply set_txs_ok|]. split; [done|]. split; [done|]. apply without_leaves; [apply Hl|apply NoDup_ready].
Qed.

Lemma list_Flatten_spec l : list_ok l → ∃ l', list_Flatten l = (l', flat (txs_of l)) ∧ list_ok l' ∧ tl_strict l' = tl_strict l ∧ txs_of l' = txs_of l.
Proof.
  intros Hl. unfold list_Flatten. destruct (Flatten_spec _ (lo_map _ Hl)) as (m & -> & E & Hm). eexists. split; [done|]. split; [|done].
  eapply (set_txs_ok _ _ []); [done..|]. by rewrite without_nil.
Qed.

Lemma txs_keyed l : list_ok l → keyed (txs_of l).
Proof. intros Hl. apply Hl. Qed.

Lemma flat_elem items tx : keyed items → tx ∈ flat items ↔ items !! tx_Nonce tx = Some tx.
Proof. intros Hk. unfold flat. rewrite elem_of_at_nonces, elem_of_nonces by done. naive_solver. Qed.

Lemma NoDup_flat items : keyed items → NoDup (flat items).
Proof. intros Hk. apply NoDup_at_nonces; [done|apply NoDup_nonces]. Qed.

(** A part of a list without what comes after something that is missing. *)
Definition lower_part (items items' : txmap) : Prop :=
  ∀ j k, j ≤ k → is_Some (items !! j) → is_Some (items' !! k) → is_Some (items' !! j).

Lemma list_Filter_takes c g l : list_ok l → ∃ l' removed invalids, list_Filter c g l = (l', (removed, invalids)) ∧
  takes l l' (removed ++ invalids) (txs_of l') ∧ (tl_strict l = true → lower_part (txs_of l) (txs_of l')) ∧ (tl_strict l = false → invalids = []) ∧
  ∀ n tx, txs_of l' !! n = Some tx → over c g tx = false.
Proof.
  intros Hl. destruct (list_Filter_spec c g l Hl) as (l' & removed & invalids & E & Hl' & Hs & Hr & Hp & Hst). exists l', removed, invalids. split; [done|].
  pose proof (txs_keyed _ Hl) as Hk. pose proof (txs_keyed _ Hl') as Hk'. pose proof (NoDup_flat _ Hk) as Hnd. rewrite <- Hp, app_assoc in Hnd.
  apply NoDup_app in Hnd as (Hnd & Hd & _). split; [|split; [|split]].
  - split; [done|]. split; [done|]. split; [done|]. split; [apply map_subseteq_spec; intros n tx H; apply Hst in H; apply H|]. split; [done|].
    intros tx. assert (tx ∈ removed ++ invalids ∨ tx ∈ flat (txs_of l') ↔ txs_of l !! tx_Nonce tx = Some tx) as Hf.
    { rewrite <- elem_of_app, <- flat_elem by done. by rewrite <- Hp, app_assoc. }
    split.
    + intros Hi. assert (txs_of l !! tx_Nonce tx = Some tx) as E2 by (apply Hf; by left). split; [done|].
      destruct (txs_of l' !! tx_Nonce tx) as [tx'|] eqn:E'; [|done]. exfalso. apply (Hd tx Hi). apply flat_elem; [done|].
      rewrite E'. apply Hst in E' as [E' _]. congruence.
    + intros [[Hi|Hi]%Hf Hn]; [done|]. apply flat_elem in Hi; [|done]. congruence.
  - intros Hst' j k Hjk [txj Hj] [txk Hk2]. apply Hst in Hk2 as (_ & _ & Hb). exists txj. apply Hst. split; [done|]. specialize (Hb Hst'). split.
    + destruct (over c g txj) eqn:Ho; [|done]. specialize (Hb _ _ Hj Ho). lia.
    + intros _ k' tx' Hk3 Ho. specialize (Hb _ _ Hk3 Ho). lia.
  - unfold list_Filter in E. intros Hf. rewrite Hf in E. destruct (_ && _); [congruence|]. destruct (sorted.Filter _ _). cbn in E. congruence.
  - intros n tx H. apply Hst in H. apply H.
Qed.

Lemma list_Remove_spec tx l : list_ok l → let n := tx_Nonce tx in ∃ l' invalids,
  list_Remove tx l = Ok (l', (bool_decide (is_Some (txs_of l !! n)), invalids)) ∧ list_ok l' ∧ tl_strict l' = tl_strict l ∧
  (txs_of l !! n = None → txs_of l' = txs_of l ∧ invalids = []) ∧
  (is_Some (txs_of l !! n) → tl_strict l = false → txs_of l' = delete n (txs_of l)) ∧
  (is_Some (txs_of l !! n) → tl_strict l = true → txs_of l' = cut n (txs_of l) ∧ NoDup invalids ∧
     ∀ t, t ∈ invalids ↔ txs_of l !! tx_Nonce t = Some t ∧ n < tx_Nonce t).
Proof.
  intros Hl n. unfold list_Remove. fold n. destruct (Remove_nonce_spec n _ (lo_map _ Hl)) as (m & -> & E & Hm). rewrite bind_Ok.
  destruct (bool_decide_reflect (is_Some (txs_of l !! n))) as [Hn|Hn]; cbn [negb].
  - destruct (tl_strict l) eqn:Hs.
    + destruct (Filter_spec (fun tx => n <? tx_Nonce tx) m Hm) as (m' & inv & -> & E' & Hp & Hm'). eexists _, _. split; [done|].
      split; [by eapply (set_txs_ok _ _ ([n] ++ matching (fun tx => n <? tx_Nonce tx) (sorted.sm_items m))); [..|rewrite E', E, without_without]|].
      split; [done|]. split; [intros Hx; rewrite Hx in Hn; by destruct Hn|]. split; [done|]. intros _ _. split; [|split].
      * cbn. rewrite E'. apply map_eq. intros k. rewrite lookup_cut. destruct (without (matching _ _) _ !! k) as [t|] eqn:Ek.
        -- apply without_matching in Ek as [Ek Hlt%Z.ltb_ge]. rewrite (sm_keyed _ Hm _ _ Ek) in Hlt. rewrite E, lookup_without in Ek. case_decide as Hd; [done|].
           rewrite decide_True; [done|]. assert (k ≠ n) by set_solver. lia.
        -- case_decide as Hd; [|done]. destruct (txs_of l !! k) as [t|] eqn:Et; [|done]. assert (sorted.sm_items m !! k = Some t) as Em.
           { rewrite E, lookup_without, decide_False; [done|]. intros ->%list_elem_of_singleton. lia. }
           rewrite lookup_without, Em in Ek. case_decide as Hd2; [|done]. apply lookup_matching in Hd2 as (t' & Et' & Hlt%Z.ltb_lt).
           rewrite Em in Et'. injection Et' as <-. rewrite (sm_keyed _ Hm _ _ Em) in Hlt. lia.
      * rewrite Hp. apply NoDup_at_nonces; [apply Hm|]. apply NoDup_filter, NoDup_nonces.
      * intros t. rewrite Hp, elem_of_at_nonces by apply Hm. rewrite lookup_matching, E, lookup_without. case_decide as Hd.
        -- split; [by intros [? _]|]. intros [_ Hlt]. apply list_elem_of_singleton in Hd. lia.
        -- rewrite E in *. setoid_rewrite Z.ltb_lt. naive_solver.
    + eexists _, _. split; [done|]. split; [by eapply set_txs_ok|]. split; [done|]. split; [intros Hx; rewrite Hx in Hn; by destruct Hn|]. split; [|done].
      intros _ _. cbn. by rewrite E, without_single.
  - eexists _, _. split; [done|]. split; [by eapply set_txs_ok|]. split; [done|]. split; [|split; by intros ?]. intros Hx. split; [|done].
    cbn. rewrite E, <- without_single. by apply delete_id.
Qed.

(** ** Managed nonces *)

Section Managed.
Context `{HK : Keccak, HS : StateOps, HL : !StateLaws HS}.

(** The managed state gives the account [a] the nonce [pn a]. *)
Definition managed_sees (ms : ManagedState) (pn : Address → Z) : Prop :=
  ∃ wm, st_sees (ms_StateDB ms) wm ∧ (∀ a, w_nonce a wm = pn a) ∧ (∀ a acc, ms_accounts ms !! a = Some acc → acc = mkManaged (pn a) []) ∧
    ∀ a, is_u64 (pn a).

Lemma next_nonce_fresh n : is_u64 n → next_nonce (mkManaged n []) = n.
Proof. intros Hn. unfold next_nonce. cbn [ma_nonces ma_nstart length]. rewrite Z.add_0_l. by apply u64_small. Qed.

Lemma ms_GetNonce_sees ms pn a : managed_sees ms pn → ∃ ms', ms_GetNonce a ms = Ok (ms', pn a) ∧ managed_sees ms' pn.
Proof.
  intros (wm & Hs & Hw & Hacc & Hu). destruct (law_GetNonce a _ _ Hs) as (s' & E & Hs' & _). rewrite Hw in E.
  unfold ms_GetNonce, hasAccount, getAccount. destruct (ms_accounts ms !! a) as [acc|] eqn:Ea.
  - rewrite bool_decide_true by (by eexists). pose proof (Hacc _ _ Ea) as ->. rewrite E, !bind_Ok. rewrite next_nonce_fresh by done. rewrite Z.ltb_irrefl, bind_Ok, next_nonce_fresh by done.
    eexists. split; [done|]. exists wm. done.
  - rewrite bool_decide_false by (by intros [? ?]). rewrite E, bind_Ok. eexists. split; [done|]. exists wm. done.
Qed.

Lemma ms_SetNonce_sees ms pn a n : is_u64 n → managed_sees ms pn → ∃ ms', ms_SetNonce a n ms = Ok ms' ∧ managed_sees ms' (<[a := n]> pn).
Proof.
  intros Hn (wm & Hs & Hw & Hacc & Hu). unfold ms_SetNonce. destruct (law_SetNonce a n _ _ Hs) as (s' & -> & Hs' & _). rewrite bind_Ok. eexists. split; [done|].
  eexists. split; [exact Hs'|]. split; [|split]; cbn.
  - intros b. destruct (decide (a = b)) as [<-|Hne]; [rewrite fn_lookup_insert|rewrite fn_lookup_insert_ne, <- Hw by done]; unfold w_nonce; cbn.
    + by rewrite decide_True.
    + by rewrite decide_False by congruence.
  - intros b acc. rewrite lookup_insert. case_decide as Hd; [subst; rewrite fn_lookup_insert; by intros [= <-]|]. rewrite fn_lookup_insert_ne by done. apply Hacc.
  - intros b. destruct (decide (a = b)) as [<-|Hne]; [by rewrite fn_lookup_insert|by rewrite fn_lookup_insert_ne].
Qed.

End Managed.

(** ** The list by price *)

Section Priced.
Context `{HK : Keccak, HP : EvmCrypto} (signer : Signer).

Definition sent (tx : Transaction) : Prop := ∃ a, sender_of signer tx = Ok a.

Definition priced_ok (l : txPricedList) : Prop := is_heap tx_GasPrice (pl_items l) ∧ Forall sent (pl_items l).

Lemma sent_account tx a : sender_of signer tx = Ok a → account_of_tx signer tx = Ok a.
Proof. unfold account_of_tx. by intros ->. Qed.

Lemma containsTx_ok tx local : as_signer local = signer → sent tx → ∃ b, containsTx tx local = Ok b.
Proof. intros Hs [a E]. unfold containsTx. rewrite Hs, E. eauto. Qed.

Lemma priced_Put_ok tx l : sent tx → priced_ok l → priced_ok (priced_Put tx l).
Proof. intros Ht [Hh Hs]. destruct (Push_spec tx_GasPrice tx _ Hh) as [Hp Hh']. split; [done|]. cbn. rewrite Hp. by constructor. Qed.

Lemma priced_Removed_ok (all : gmap Hash Transaction) l : map_Forall (fun _ tx => sent tx) all → priced_ok l → priced_ok (priced_Removed all l).
Proof.
  intros Ha [Hh Hs]. unfold priced_Removed. destruct (_ <=? _); [done|]. destruct (Init_spec tx_GasPrice (map_to_list all).*2) as [Hp Hh'].
  split; [done|]. cbn. rewrite Hp. apply Forall_forall. intros tx ([h tx'] & -> & E%elem_of_map_to_list)%list_elem_of_fmap. by apply (Ha h).
Qed.

(** Taking the cheapest. *)
Lemma priced_pop l tx items : priced_ok l → pl_items l = tx :: items → ∃ items', Pop tx_GasPrice (pl_items l) = Some (items', tx) ∧
  sent tx ∧ S (length items') = length (pl_items l) ∧ ∀ n, priced_ok (mkPriced items' n).
Proof.
  intros [Hh Hs] E. destruct (Pop_spec tx_GasPrice _ tx Hh) as (items' & -> & Hp & Hh'); [by rewrite E|]. exists items'. rewrite Hp in Hs.
  apply Forall_cons in Hs as [Ht Hs]. split; [done|]. split; [done|]. split; [by rewrite Hp|]. done.
Qed.

Lemma skip_stale_ok all fuel : ∀ l, priced_ok l → ∃ l', skip_stale all fuel l = Ok l' ∧ priced_ok l'.
Proof.
  induction fuel as [|fuel IH]; intros l Hl; cbn [skip_stale]; [eauto|]. destruct (pl_items l) as [|tx items] eqn:E; [eauto|].
  destruct (is_stale all tx); [|eauto]. destruct (priced_pop l tx items Hl E) as (items' & Ep & _ & _ & Hl'). rewrite E in Ep. rewrite Ep. cbn [deref]. rewrite bind_Ok. by apply IH.
Qed.

Lemma Underpriced_ok all tx local l : as_signer local = signer → sent tx → priced_ok l → ∃ l' b, Underpriced all tx local l = Ok (l', b) ∧ priced_ok l'.
Proof.
  intros Hs Ht Hl. unfold Underpriced. destruct (containsTx_ok tx local Hs Ht) as [[] ->]; rewrite bind_Ok; [eauto|].
  destruct (skip_stale_ok all (length (pl_items l)) l Hl) as (l' & -> & Hl'). rewrite bind_Ok. destruct (pl_items l'); eauto.
Qed.

Lemma put_back_ok save : ∀ items n, Forall sent save → priced_ok (mkPriced items n) → priced_ok (mkPriced (put_back save items) n).
Proof.
  unfold put_back. induction save as [|tx save IH]; intros items n Hs Hl; [done|]. apply Forall_cons in Hs as [Ht Hs]. cbn. apply IH; [done|].
  by apply (priced_Put_ok tx (mkPriced items n)).
Qed.

Lemma discard_loop_ok all local fuel : as_signer local = signer → ∀ count l drop save, priced_ok l → Forall sent save →
  ∃ l' drop' save', discard_loop all fuel count local l drop save = Ok (l', drop', save') ∧ priced_ok l' ∧ Forall sent save'.
Proof.
  intros Hs. induction fuel as [|fuel IH]; intros count l drop save Hl Hsv; cbn [discard_loop]; [eauto 10|].
  destruct (pl_items l) as [|tx items] eqn:E; [eauto 10|]. destruct (0 <? count); [|eauto 10].
  destruct (priced_pop l tx items Hl E) as (items' & Ep & Ht & _ & Hl'). rewrite E in Ep. rewrite Ep. cbn [deref]. rewrite bind_Ok.
  destruct (is_stale all tx); [by apply IH|]. destruct (containsTx_ok tx local Hs Ht) as [[] ->]; rewrite bind_Ok; apply IH; try done.
  apply Forall_app. split; [done|]. by constructor.
Qed.

Lemma Discard_ok all count local l : as_signer local = signer → 0 ≤ count → priced_ok l → ∃ l' drop, Discard all count local l = Ok (l', drop) ∧ priced_ok l'.
Proof.
  intros Hs Hc Hl. unfold Discard. destruct (Z.ltb_spec count 0); [lia|].
  destruct (discard_loop_ok all local (length (pl_items l)) Hs count l [] [] Hl) as (l' & drop & save & -> & Hl' & Hsv); [constructor|].
  rewrite bind_Ok. eexists _, _. split; [done|]. apply put_back_ok; [done|]. by destruct l'.
Qed.

Lemma priced_cap_loop_ok all local threshold fuel : as_signer local = signer → ∀ l drop save, priced_ok l → Forall sent save →
  ∃ l' drop' save', priced_cap_loop all fuel threshold local l drop save = Ok (l', drop', save') ∧ priced_ok l' ∧ Forall sent save'.
Proof.
  intros Hs. induction fuel as [|fuel IH]; intros l drop save Hl Hsv; cbn [priced_cap_loop]; [eauto 10|].
  destruct (pl_items l) as [|tx items] eqn:E; [eauto 10|].
  destruct (priced_pop l tx items Hl E) as (items' & Ep & Ht & _ & Hl'). rewrite E in Ep. rewrite Ep. cbn [deref]. rewrite bind_Ok.
  assert (Forall sent (save ++ [tx])) by (apply Forall_app; split; [done|]; by constructor).
  destruct (is_stale all tx); [by apply IH|]. destruct (threshold <=? tx_GasPrice tx); [eauto 10|].
  destruct (containsTx_ok tx local Hs Ht) as [[] ->]; rewrite bind_Ok; by apply IH.
Qed.

Lemma priced_Cap_ok all threshold local l : as_signer local = signer → priced_ok l → ∃ l' drop, priced_Cap all threshold local l = Ok (l', drop) ∧ priced_ok l'.
Proof.
  intros Hs Hl. unfold priced_Cap.
  destruct (priced_cap_loop_ok all local threshold (length (pl_items l)) Hs l [] [] Hl) as (l' & drop & save & -> & Hl' & Hsv); [constructor|].
  rewrite bind_Ok. eexists _, _. split; [done|]. apply put_back_ok; [done|]. by destruct l'.
Qed.

End Priced.

(** ** Running *)

Section Inv.
Context `{HK : Keccak, HP : EvmCrypto, HS : StateOps, HL : !StateLaws HS}.

(** The method returns, and then [Q] holds. *)
Definition wp {A} (m : poolM A) (Q : A → TxPool → Prop) (p : TxPool) : Prop := ∃ p' a, m p = Ok (p', a) ∧ Q a p'.

Lemma wp_ret {A} (a : A) Q p : Q a p → wp (mret a) Q p.
Proof. intros H. by exists p, a. Qed.

Lemma wp_bind {A B} (m : poolM A) (f : A → poolM B) Q p : wp m (fun a => wp (f a) Q) p → wp (m ≫= f) Q p.
Proof. intros (p1 & a & E & p2 & b & E2 & HQ). exists p2, b. unfold mbind, poolM_mbind. rewrite E, bind_Ok. done. Qed.

Lemma wp_mono {A} (m : poolM A) (P Q : A → TxPool → Prop) p : wp m P p → (∀ a p', P a p' → Q a p') → wp m Q p.
Proof. intros (p' & a & E & H) HPQ. exists p', a. auto. Qed.

Lemma wp_gets {A} (f : TxPool → A) Q p : Q (f p) p → wp (gets f) Q p.
Proof. intros H. by exists p, (f p). Qed.

Lemma wp_modify f Q p : Q tt (f p) → wp (modify f) Q p.
Proof. intros H. by exists (f p), tt. Qed.

Lemma wp_lift {A} (x : pan A) a Q p : x = Ok a → Q a p → wp (lift x) Q p.
Proof. intros -> H. by exists p, a. Qed.

Lemma wp_each {A} (f : A → poolM unit) (I : list A → TxPool → Prop) l :
  (∀ x l p, I (x :: l) p → wp (f x) (fun _ => I l) p) → ∀ p, I l p → wp (each f l) (fun _ => I []) p.
Proof.
  intros Hf. induction l as [|x l IH]; intros p HI; cbn [each]; [by apply wp_ret|]. apply wp_bind. eapply wp_mono; [by apply Hf|]. intros [] p'. apply IH.
Qed.

(** Going over pointers that are not nil. *)
Lemma each_deref {A} (f : A → poolM unit) out : ∀ p, each (fun x => x ← lift (deref x); f x) (Some <$> out) p = each f out p.
Proof.
  induction out as [|x out IH]; intros p; [done|].
  transitivity ((f x ≫= fun _ => each (fun x => x ← lift (deref x); f x) (Some <$> out)) p); [reflexivity|].
  cbn [each]. unfold mbind, poolM_mbind. destruct (f x p) as [[q []]| |]; [apply IH|done..].
Qed.

(** ** The invariant *)

Definition pend (p : TxPool) (a : Address) : txmap := from_option (fun l => txs_of l) ∅ (p_pending p !! a).
Definition que (p : TxPool) (a : Address) : txmap := from_option (fun l => txs_of l) ∅ (p_queue p !! a).

Definition config_ok (c : TxPoolConfig) : Prop := 1 ≤ AccountSlots c ∧ 0 ≤ AccountQueue c < 9223372036854775808.

(** A transaction that [validateTx] lets through.  The nonce after the last one
    does not fit, and no account gets there. *)
Definition good (signer : Signer) (tx : Transaction) : Prop := sent signer tx ∧ 0 ≤ tx_Nonce tx < maxU64.

(** One of an account's two maps of lists. *)
Definition lists_ok (strict : bool) (busy : option Address) (lists : gmap Address txList) : Prop :=
  ∀ a l, lists !! a = Some l → list_ok l ∧ tl_strict l = strict ∧ (busy ≠ Some a → txs_of l ≠ ∅).

(** [w] is the world of the current state, [N] bounds the number of known
    transactions, [pn] are the managed nonces, [R] relates the pending
    transactions of an account to its managed nonce; while a method works on the
    account [busy], its lists may be empty, the transactions [F] of it are in no
    list, and its managed nonce may be wrong. *)
Record inv (w : world) (N : nat) (R : Address → txmap → Z → Prop) (pn : Address → Z) (busy : option Address) (F : list Transaction) (p : TxPool) : Prop := {
  i_world : ∀ a, is_u64 (w_nonce a w);
  i_current : st_sees (p_currentState p) w;
  i_managed : managed_sees (p_pendingState p) pn;
  i_pending : lists_ok true busy (p_pending p);
  i_queue : lists_ok false busy (p_queue p);
  i_listed : ∀ a n tx, pend p a !! n = Some tx ∨ que p a !! n = Some tx → sender_of (p_signer p) tx = Ok a ∧ p_all p !! hash_of tx = Some tx;
  i_disjoint : ∀ a n, pend p a !! n = None ∨ que p a !! n = None;
  i_known : ∀ h tx, p_all p !! h = Some tx → hash_of tx = h ∧ good (p_signer p) tx;
  i_priced : priced_ok (p_signer p) (p_priced p);
  i_locals : as_signer (p_locals p) = p_signer p;
  i_config : config_ok (p_config p);
  i_size : (size (p_all p) ≤ N)%nat;
  i_range : ∀ a, busy ≠ Some a → R a (pend p a) (pn a);
  i_flying : ∀ tx, tx ∈ F → ∃ a, busy = Some a ∧ sender_of (p_signer p) tx = Ok a ∧ p_all p !! hash_of tx = Some tx ∧
    pend p a !! tx_Nonce tx = None ∧ que p a !! tx_Nonce tx = None;
  i_distinct : NoDup (tx_Nonce <$> F)
}.

Lemma lists_keyed strict busy lists a : lists_ok strict busy lists → keyed (from_option (fun l => txs_of l) ∅ (lists !! a)).
Proof. intros Hl. destruct (lists !! a) as [l|] eqn:E; cbn; [apply (Hl _ _ E)|apply map_Forall_empty]. Qed.

Lemma lists_busy strict busy lists a : busy = None ∨ busy = Some a → lists_ok strict busy lists → lists_ok strict (Some a) lists.
Proof. intros Hb Hl b l E. destruct (Hl b l E) as (Ho & Hs & Hn). split; [done|]. split; [done|]. intros Hne. apply Hn. destruct Hb as [->| ->]; [done|done]. Qed.

(** What the methods that put no new transaction into the pool keep. *)
Record later (p p' : TxPool) : Prop := {
  la_all : p_all p' ⊆ p_all p;
  la_signer : p_signer p' = p_signer p;
  la_config : p_config p' = p_config p;
  la_locals : p_locals p' = p_locals p;
  la_maxGas : p_currentMaxGas p' = p_currentMaxGas p
}.

#[export] Instance later_preorder : PreOrder later.
Proof.
  split; [by intros p; split|]. intros p1 p2 p3 [] []. split; try congruence. by transitivity (p_all p2).
Qed.

Section Steps.
Context (w : world) (N : nat) (R : Address → txmap → Z → Prop).

(** A listed transaction has its own nonce. *)
Lemma listed_nonce pn busy F p a n tx : inv w N R pn busy F p → pend p a !! n = Some tx ∨ que p a !! n = Some tx → tx_Nonce tx = n.
Proof.
  intros Hi [E|E].
  - exact (lists_keyed _ _ _ a (i_pending _ _ _ _ _ _ _ Hi) _ _ E).
  - exact (lists_keyed _ _ _ a (i_queue _ _ _ _ _ _ _ Hi) _ _ E).
Qed.

Lemma inv_weaken pn busy F F' p : F' `sublist_of` F → inv w N R pn busy F p → inv w N R pn busy F' p.
Proof.
  intros Hs []. constructor; try done.
  - intros tx Ht. apply i_flying0. by eapply elem_of_submseteq, sublist_submseteq.
  - eapply sublist_NoDup; [exact i_distinct0|]. by apply fmap_sublist.
Qed.

Lemma inv_start pn a p : inv w N R pn None [] p → inv w N R pn (Some a) [] p.
Proof.
  intros []. constructor; try done; [by eapply lists_busy; [left|]..| |]; [intros b _; by apply i_range0|]. by intros tx ?%elem_of_nil.
Qed.

Lemma inv_finish pn a F p : inv w N R pn (Some a) F p →
  (∀ l, p_pending p !! a = Some l → txs_of l ≠ ∅) → (∀ l, p_queue p !! a = Some l → txs_of l ≠ ∅) → R a (pend p a) (pn a) → inv w N R pn None [] p.
Proof.
  intros [] Hp Hq HR. constructor; try done.
  - intros b l E. destruct (i_pending0 b l E) as (? & ? & Hn). split; [done|]. split; [done|]. intros _. destruct (decide (a = b)) as [<-|]; [by apply Hp|]. apply Hn. congruence.
  - intros b l E. destruct (i_queue0 b l E) as (? & ? & Hn). split; [done|]. split; [done|]. intros _. destruct (decide (a = b)) as [<-|]; [by apply Hq|]. apply Hn. congruence.
  - intros b _. destruct (decide (a = b)) as [<-|]; [done|]. apply i_range0. congruence.
  - by intros tx ?%elem_of_nil.
  - constructor.
Qed.

(** Parts of the pool that the invariant does not mention. *)
Lemma inv_same pn busy F p p' : inv w N R pn busy F p → p_currentState p' = p_currentState p → p_pendingState p' = p_pendingState p →
  p_pending p' = p_pending p → p_queue p' = p_queue p → p_all p' = p_all p → p_signer p' = p_signer p → p_config p' = p_config p →
  p_locals p' = p_locals p → priced_ok (p_signer p) (p_priced p') → inv w N R pn busy F p'.
Proof.
  intros [] E1 E2 E3 E4 E5 E6 E7 E8 Hp. constructor; unfold pend, que in *; rewrite ?E1, ?E2, ?E3, ?E4, ?E5, ?E6, ?E7, ?E8; try done.
Qed.

(** *** Forgetting *)

Definition forgotten (h : Hash) (p : TxPool) : TxPool :=
  set_priced (priced_Removed (delete h (p_all p)) (p_priced p)) (set_all (delete h (p_all p)) p).

Lemma wp_forget h Q p : Q tt (forgotten h p) → wp (forget h) Q p.
Proof. intros H. by exists (forgotten h p), tt. Qed.

Lemma later_forgotten h p : later p (forgotten h p).
Proof. split; try done. cbn. apply delete_subseteq. Qed.

Lemma known_sent pn busy F p : inv w N R pn busy F p → map_Forall (fun _ tx => sent (p_signer p) tx) (p_all p).
Proof. intros Hi h tx E. by apply (i_known _ _ _ _ _ _ _ Hi) in E as [_ [? _]]. Qed.

Lemma inv_forget pn busy F p h : inv w N R pn busy F p →
  (∀ a n tx, pend p a !! n = Some tx ∨ que p a !! n = Some tx → hash_of tx ≠ h) → (∀ tx, tx ∈ F → hash_of tx ≠ h) →
  inv w N R pn busy F (forgotten h p).
Proof.
  intros Hi Hl Hf. pose proof (known_sent _ _ _ _ Hi) as Hs. destruct Hi. constructor; try done.
  - intros a n tx H. destruct (i_listed0 a n tx H) as [? ?]. split; [done|]. cbn. rewrite lookup_delete_ne; [done|]. symmetry. by eapply Hl.
  - intros h' tx E. cbn in E. apply lookup_delete_Some in E as [_ E]. by apply i_known0.
  - cbn. apply priced_Removed_ok; [|done]. by apply map_Forall_delete.
  - cbn. etrans; [|exact i_size0]. rewrite map_size_delete. destruct (p_all p !! h); cbn; lia.
  - intros tx Ht. destruct (i_flying0 tx Ht) as (a & ? & ? & ? & ? & ?). exists a. split; [done|]. split; [done|]. split; [|done].
    cbn. rewrite lookup_delete_ne; [done|]. symmetry. by apply Hf.
Qed.

Lemma flying_unlisted pn busy F p tx a n tx' : inv w N R pn busy F p → tx ∈ F →
  pend p a !! n = Some tx' ∨ que p a !! n = Some tx' → hash_of tx' ≠ hash_of tx.
Proof.
  intros Hi Ht Hl Eh. pose proof (listed_nonce _ _ _ _ _ _ _ Hi Hl) as En. destruct (i_listed _ _ _ _ _ _ _ Hi _ _ _ Hl) as [Es Ek].
  destruct (i_flying _ _ _ _ _ _ _ Hi tx Ht) as (b & _ & Es' & Ek' & H1 & H2). rewrite Eh, Ek' in Ek. injection Ek as ->. rewrite Es in Es'. injection Es' as ->.
  rewrite En in H1, H2. destruct Hl as [Hl|Hl]; congruence.
Qed.

Lemma inv_forget_flying pn busy F p tx : inv w N R pn busy (tx :: F) p → inv w N R pn busy F (forgotten (hash_of tx) p).
Proof.
  intros Hi. apply inv_forget.
  - eapply inv_weaken; [|done]. by apply sublist_cons.
  - intros a n tx' Hl. eapply flying_unlisted; [done|by left|done].
  - intros tx' Ht Eh. destruct (i_flying _ _ _ _ _ _ _ Hi tx ltac:(by left)) as (a & _ & _ & E & _). destruct (i_flying _ _ _ _ _ _ _ Hi tx' ltac:(by right)) as (b & _ & _ & E' & _).
    rewrite Eh, E in E'. injection E' as <-. pose proof (i_distinct _ _ _ _ _ _ _ Hi) as Hd. apply NoDup_cons in Hd as [Hd _]. apply Hd. by apply list_elem_of_fmap_2.
Qed.

Lemma wp_forget_all pn busy F out Q p : inv w N R pn busy (out ++ F) p → (∀ p', inv w N R pn busy F p' → p_pending p' = p_pending p → p_queue p' = p_queue p → p_currentState p' = p_currentState p → p_pendingState p' = p_pendingState p → later p p' → Q tt p') →
  wp (each (fun tx => forget (hash_of tx)) out) Q p.
Proof.
  revert p. induction out as [|tx out IH]; intros p Hi HQ; cbn [each]; [apply wp_ret; by apply HQ|]. apply wp_bind, wp_forget. apply IH.
  - by apply (inv_forget_flying pn busy (out ++ F)).
  - intros p' Hi' E1 E2 E3 E4 L. apply HQ; try done. etrans; [apply later_forgotten|done].
Qed.

Lemma wp_forget_all_opt pn busy F out Q p : inv w N R pn busy (out ++ F) p → (∀ p', inv w N R pn busy F p' → p_pending p' = p_pending p → p_queue p' = p_queue p → p_currentState p' = p_currentState p → p_pendingState p' = p_pendingState p → later p p' → Q tt p') →
  wp (each forget_tx (Some <$> out)) Q p.
Proof.
  revert p. induction out as [|tx out IH]; intros p Hi HQ; cbn [each fmap list_fmap]; [apply wp_ret; by apply HQ|].
  apply wp_bind, wp_bind. eapply wp_lift; [done|]. apply wp_forget. apply IH.
  - by apply (inv_forget_flying pn busy (out ++ F)).
  - intros p' Hi' E1 E2 E3 E4 L. apply HQ; try done. etrans; [apply later_forgotten|done].
Qed.

(** *** Taking transactions out of a list *)

Lemma pend_put p a l b : pend (set_pending (<[a := l]> (p_pending p)) p) b = if decide (a = b) then txs_of l else pend p b.
Proof. unfold pend. cbn. rewrite lookup_insert. by case_decide. Qed.

Lemma que_put p a l b : que (set_queue (<[a := l]> (p_queue p)) p) b = if decide (a = b) then txs_of l else que p b.
Proof. unfold que. cbn. rewrite lookup_insert. by case_decide. Qed.

Lemma lists_put strict a l lists : lists_ok strict (Some a) lists → list_ok l → tl_strict l = strict → lists_ok strict (Some a) (<[a := l]> lists).
Proof. intros Hl Ho Hs b l'. rewrite lookup_insert. case_decide; [intros [= <-]; subst; split; [done|split; [done|done]]|apply Hl]. Qed.

Lemma leaves_distinct items items' out F : keyed items → leaves items items' out → NoDup (tx_Nonce <$> F) → (∀ tx, tx ∈ F → items !! tx_Nonce tx = None) →
  NoDup (tx_Nonce <$> (out ++ F)).
Proof.
  intros Hk (Hs & Hnd & Ho) HF Hn. rewrite fmap_app. apply NoDup_app. split; [|split; [|done]].
  - apply NoDup_fmap_2_strong; [|done]. intros t1 t2 [H1 _]%Ho [H2 _]%Ho E. rewrite E in H1. congruence.
  - intros n (tx & -> & [H1 _]%Ho)%list_elem_of_fmap (tx' & E & Ht)%list_elem_of_fmap. specialize (Hn tx' Ht). congruence.
Qed.

Lemma inv_take_pending pn a F p l out : inv w N R pn (Some a) F p → list_ok l → tl_strict l = true → leaves (pend p a) (txs_of l) out →
  inv w N R pn (Some a) (out ++ F) (set_pending (<[a := l]> (p_pending p)) p).
Proof.
  intros Hi Ho Hs Hlv. pose proof (lists_keyed _ _ _ a (i_pending _ _ _ _ _ _ _ Hi)) as Hk. pose proof Hlv as (Hsub & Hnd & Hout). destruct Hi.
  assert (∀ b n tx, pend (set_pending (<[a := l]> (p_pending p)) p) b !! n = Some tx → pend p b !! n = Some tx) as Hpe.
  { intros b n tx. rewrite pend_put. case_decide as Hd; [subst; intros H; by eapply lookup_weaken|done]. }
  constructor; try done.
  - by apply lists_put.
  - intros b n tx [H|H]; apply (i_listed0 b n tx); [left; by apply Hpe|by right].
  - intros b n. destruct (i_disjoint0 b n) as [H|H]; [|by right]. left. apply eq_None_not_Some. intros [t E]. apply Hpe in E. congruence.
  - intros b Hb. rewrite pend_put, decide_False by congruence. by apply i_range0.
  - intros tx [[H1 H2]%Hout|Ht]%elem_of_app.
    + destruct (i_listed0 a _ tx (or_introl H1)) as [? ?]. exists a. split; [done|]. split; [done|]. split; [done|]. split.
      * rewrite pend_put, decide_True by done. done.
      * destruct (i_disjoint0 a (tx_Nonce tx)); [congruence|done].
    + destruct (i_flying0 tx Ht) as (b & [= <-] & ? & ? & Hn & ?). exists a. split; [done|]. split; [done|]. split; [done|]. split; [|done].
      apply eq_None_not_Some. intros [t E]. apply Hpe in E. congruence.
  - eapply leaves_distinct; [exact Hk|done|done|]. intros tx Ht. destruct (i_flying0 tx Ht) as (b & [= <-] & ? & ? & ? & ?). done.
Qed.

Lemma inv_take_queue pn a F p l out : inv w N R pn (Some a) F p → list_ok l → tl_strict l = false → leaves (que p a) (txs_of l) out →
  inv w N R pn (Some a) (out ++ F) (set_queue (<[a := l]> (p_queue p)) p).
Proof.
  intros Hi Ho Hs Hlv. pose proof (lists_keyed _ _ _ a (i_queue _ _ _ _ _ _ _ Hi)) as Hk. pose proof Hlv as (Hsub & Hnd & Hout). destruct Hi.
  assert (∀ b n tx, que (set_queue (<[a := l]> (p_queue p)) p) b !! n = Some tx → que p b !! n = Some tx) as Hpe.
  { intros b n tx. rewrite que_put. case_decide as Hd; [subst; intros H; by eapply lookup_weaken|done]. }
  constructor; try done.
  - by apply lists_put.
  - intros b n tx [H|H]; apply (i_listed0 b n tx); [by left|right; by apply Hpe].
  - intros b n. destruct (i_disjoint0 b n) as [H|H]; [by left|]. right. apply eq_None_not_Some. intros [t E]. apply Hpe in E. congruence.
  - intros tx [[H1 H2]%Hout|Ht]%elem_of_app.
    + destruct (i_listed0 a _ tx (or_intror H1)) as [? ?]. exists a. split; [done|]. split; [done|]. split; [done|]. split.
      * destruct (i_disjoint0 a (tx_Nonce tx)); [done|congruence].
      * rewrite que_put, decide_True by done. done.
    + destruct (i_flying0 tx Ht) as (b & [= <-] & ? & ? & ? & Hn). exists a. split; [done|]. split; [done|]. split; [done|]. split; [done|].
      apply eq_None_not_Some. intros [t E]. apply Hpe in E. congruence.
  - eapply leaves_distinct; [exact Hk|done|done|]. intros tx Ht. destruct (i_flying0 tx Ht) as (b & [= <-] & ? & ? & ? & ?). done.
Qed.

(** *** Putting a transaction into a list *)

(** The known transactions after one was put in the place of another, or of
    none. *)
Record knows (p : TxPool) (tx : Transaction) (listed : Address → Z → Transaction → Prop) (F : list Transaction) (all : gmap Hash Transaction) : Prop := {
  kn_new : all !! hash_of tx = Some tx;
  kn_old h t : all !! h = Some t → t = tx ∧ h = hash_of tx ∨ p_all p !! h = Some t;
  kn_listed a n t : listed a n t → all !! hash_of t = Some t;
  kn_flying t : t ∈ F → all !! hash_of t = Some t
}.

Lemma lists_insert strict busy a l lists : lists_ok strict busy lists → list_ok l → tl_strict l = strict → txs_of l ≠ ∅ → lists_ok strict busy (<[a := l]> lists).
Proof. intros Hl Ho Hs Hn b l'. rewrite lookup_insert. case_decide; [intros [= <-]; done|apply Hl]. Qed.

Lemma inv_insert_queue N' pn busy F F' p p' a tx l : inv w N R pn busy F p → sender_of (p_signer p) tx = Ok a → good (p_signer p) tx →
  pend p a !! tx_Nonce tx = None → list_ok l → tl_strict l = false → txs_of l = <[tx_Nonce tx := tx]> (que p a) →
  knows p tx (fun b n t => pend p b !! n = Some t ∨ que p b !! n = Some t ∧ (b, n) ≠ (a, tx_Nonce tx)) F' (p_all p') →
  (size (p_all p') ≤ N')%nat → F' `sublist_of` F → (busy = Some a → tx_Nonce tx ∉ tx_Nonce <$> F') →
  p_currentState p' = p_currentState p → p_pendingState p' = p_pendingState p → p_pending p' = p_pending p → p_queue p' = <[a := l]> (p_queue p) →
  p_signer p' = p_signer p → p_config p' = p_config p → p_locals p' = p_locals p → priced_ok (p_signer p) (p_priced p') →
  inv w N' R pn busy F' p'.
Proof.
  intros Hi Hsend Hg Hpn Ho Hs El Hk Hsz HF Hnd E1 E2 E3 E4 E5 E6 E7 Hpr. apply (inv_weaken _ _ _ _ _ HF) in Hi. destruct Hi, Hk.
  assert (∀ b n t, que p' b !! n = Some t → t = tx ∧ b = a ∧ n = tx_Nonce tx ∨ que p b !! n = Some t ∧ (b, n) ≠ (a, tx_Nonce tx)) as Hq.
  { intros b n t. unfold que. rewrite E4, lookup_insert. case_decide as Hd; [subst b; cbn; rewrite El, lookup_insert|].
    - case_decide as Hd; [left; naive_solver|]. right. split; [done|]. congruence.
    - right. split; [done|]. congruence. }
  assert (∀ b n t, que p b !! n = Some t → (b, n) ≠ (a, tx_Nonce tx) → que p' b !! n = Some t) as Hq2.
  { intros b n t H Hne. unfold que. rewrite E4, lookup_insert. case_decide as Hd; [subst b; cbn; rewrite El, lookup_insert_ne; [done|congruence]|done]. }
  assert (∀ b, pend p' b = pend p b) as Hp by (intros b; unfold pend; by rewrite E3).
  constructor; rewrite ?E1, ?E2, ?E3, ?E5, ?E6, ?E7; try done.
  - rewrite E4. apply lists_insert; [done..|]. rewrite El. apply insert_non_empty.
  - intros b n t Hl. rewrite Hp in Hl. destruct Hl as [Hl|Hl].
    + split; [by eapply i_listed0; left|]. eapply kn_listed0. by left.
    + destruct (Hq _ _ _ Hl) as [(-> & -> & ->)|[Hl2 Hne]]; [done|]. split; [by eapply i_listed0; right|]. eapply kn_listed0. by right.
  - intros b n. rewrite Hp. destruct (que p' b !! n) as [t|] eqn:E; [|by right]. left. destruct (Hq _ _ _ E) as [(-> & -> & ->)|[Hl2 Hne]]; [done|].
    destruct (i_disjoint0 b n); [done|congruence].
  - intros h t [[-> ->]|H]%kn_old0; [done|by apply i_known0].
  - intros b Hb. rewrite Hp. by apply i_range0.
  - intros t Ht. destruct (i_flying0 t Ht) as (b & Hb & ? & ? & H1 & H2). exists b. split; [done|]. split; [done|]. split; [by apply kn_flying0|].
    rewrite Hp. split; [done|]. destruct (que p' b !! tx_Nonce t) as [t'|] eqn:E; [|done]. destruct (Hq _ _ _ E) as [(-> & -> & En)|[Hl2 Hne]]; [|congruence].
    exfalso. apply (Hnd Hb). rewrite <- En. by apply list_elem_of_fmap_2.
Qed.

Lemma inv_insert_pending N' pn pn' busy F F' p p' a tx l : inv w N R pn busy F p → sender_of (p_signer p) tx = Ok a → good (p_signer p) tx →
  que p a !! tx_Nonce tx = None → list_ok l → tl_strict l = true → txs_of l = <[tx_Nonce tx := tx]> (pend p a) →
  knows p tx (fun b n t => pend p b !! n = Some t ∧ (b, n) ≠ (a, tx_Nonce tx) ∨ que p b !! n = Some t) F' (p_all p') →
  (size (p_all p') ≤ N')%nat → F' `sublist_of` F → (busy = Some a → tx_Nonce tx ∉ tx_Nonce <$> F') →
  (busy ≠ Some a → R a (txs_of l) (pn' a)) → (∀ b, b ≠ a → pn' b = pn b) → managed_sees (p_pendingState p') pn' →
  p_currentState p' = p_currentState p → p_queue p' = p_queue p → p_pending p' = <[a := l]> (p_pending p) →
  p_signer p' = p_signer p → p_config p' = p_config p → p_locals p' = p_locals p → priced_ok (p_signer p) (p_priced p') →
  inv w N' R pn' busy F' p'.
Proof.
  intros Hi Hsend Hg Hpn Ho Hs El Hk Hsz HF Hnd HR Hpn' Hms E1 E3 E4 E5 E6 E7 Hpr. apply (inv_weaken _ _ _ _ _ HF) in Hi. destruct Hi, Hk.
  assert (∀ b n t, pend p' b !! n = Some t → t = tx ∧ b = a ∧ n = tx_Nonce tx ∨ pend p b !! n = Some t ∧ (b, n) ≠ (a, tx_Nonce tx)) as Hq.
  { intros b n t. unfold pend. rewrite E4, lookup_insert. case_decide as Hd; [subst b; cbn; rewrite El, lookup_insert|].
    - case_decide as Hd; [left; naive_solver|]. right. split; [done|]. congruence.
    - right. split; [done|]. congruence. }
  assert (∀ b, que p' b = que p b) as Hp by (intros b; unfold que; by rewrite E3).
  constructor; rewrite ?E1, ?E3, ?E5, ?E6, ?E7; try done.
  - rewrite E4. apply lists_insert; [done..|]. rewrite El. apply insert_non_empty.
  - intros b n t Hl. rewrite Hp in Hl. destruct Hl as [Hl|Hl].
    + destruct (Hq _ _ _ Hl) as [(-> & -> & ->)|[Hl2 Hne]]; [done|]. split; [by eapply i_listed0; left|]. eapply kn_listed0. by left.
    + split; [by eapply i_listed0; right|]. eapply kn_listed0. by right.
  - intros b n. rewrite Hp. destruct (pend p' b !! n) as [t|] eqn:E; [|by left]. right. destruct (Hq _ _ _ E) as [(-> & -> & ->)|[Hl2 Hne]]; [done|].
    destruct (i_disjoint0 b n); [congruence|done].
  - intros h t [[-> ->]|H]%kn_old0; [done|by apply i_known0].
  - intros b Hb. unfold pend. rewrite E4, lookup_insert. case_decide as Hd; [subst; by apply HR|]. rewrite Hpn' by done. by apply i_range0.
  - intros t Ht. destruct (i_flying0 t Ht) as (b & Hb & ? & ? & H1 & H2). exists b. split; [done|]. split; [done|]. split; [by apply kn_flying0|].
    rewrite Hp. split; [|done]. destruct (pend p' b !! tx_Nonce t) as [t'|] eqn:E; [|done]. destruct (Hq _ _ _ E) as [(-> & -> & En)|[Hl2 Hne]]; [|congruence].
    exfalso. apply (Hnd Hb). rewrite <- En. by apply list_elem_of_fmap_2.
Qed.

End Steps.
End Inv.
