(* ===== verification/TxPoolSpec.v ===== *)
(** * The transaction pool: its methods keep the invariant

    No method of the pool panics, and the pool stays well-formed. *)

From S2P Require Import Prelude Types Interfaces Rlp Trie HeaderHash State StateSpec GoMath Vm VmPrecompiled VmLaws Transition Tx Block GoHeap TxList TxListSpec TxPool TxPoolInv.
From stdpp Require Import functions base tactics option list numbers sorting gmap.
From Stdlib Require Import ZArith Lia.

#[local] Open Scope Z_scope.

Section Spec.
Context `{HK : Keccak, HP : EvmCrypto, HS : StateOps, HL : !StateLaws HS}.

(** The lists of the account are untouched. *)
Definition same_at (b : Address) (p p' : TxPool) : Prop := p_pending p' !! b = p_pending p !! b ∧ p_queue p' !! b = p_queue p !! b.

Section Steps.
Context (w : world) (N : nat) (R : Address → txmap → Z → Prop).

(** ** Reading and setting nonces *)

Lemma wp_current_nonce pn busy F p a Q : inv w N R pn busy F p →
  (∀ s, inv w N R pn busy F (set_current s p) → Q (w_nonce a w) (set_current s p)) → wp (current (st_GetNonce a)) Q p.
Proof.
  intros Hi HQ. destruct (law_GetNonce a _ _ (i_current _ _ _ _ _ _ _ Hi)) as (s & E & Hs & _). exists (set_current s p), (w_nonce a w).
  unfold current. rewrite E, bind_Ok. split; [done|]. apply HQ. destruct Hi. by constructor.
Qed.

Lemma wp_current_balance pn busy F p a Q : inv w N R pn busy F p →
  (∀ s, inv w N R pn busy F (set_current s p) → Q (w_balance a w) (set_current s p)) → wp (current (st_GetBalance a)) Q p.
Proof.
  intros Hi HQ. destruct (law_GetBalance a _ _ (i_current _ _ _ _ _ _ _ Hi)) as (s & E & Hs & _). exists (set_current s p), (w_balance a w).
  unfold current. rewrite E, bind_Ok. split; [done|]. apply HQ. destruct Hi. by constructor.
Qed.

Lemma wp_managed_nonce pn busy F p a Q : inv w N R pn busy F p →
  (∀ ms, inv w N R pn busy F (set_managed ms p) → Q (pn a) (set_managed ms p)) → wp (managed_nonce a) Q p.
Proof.
  intros Hi HQ. destruct (ms_GetNonce_sees _ _ a (i_managed _ _ _ _ _ _ _ Hi)) as (ms & E & Hms). exists (set_managed ms p), (pn a).
  unfold managed_nonce. rewrite E, bind_Ok. split; [done|]. apply HQ. destruct Hi. by constructor.
Qed.

Lemma wp_set_managed_nonce pn a F p n Q : is_u64 n → inv w N R pn (Some a) F p →
  (∀ ms, inv w N R (<[a := n]> pn) (Some a) F (set_managed ms p) → Q tt (set_managed ms p)) → wp (set_managed_nonce a n) Q p.
Proof.
  intros Hn Hi HQ. destruct (ms_SetNonce_sees _ _ a n Hn (i_managed _ _ _ _ _ _ _ Hi)) as (ms & E & Hms). exists (set_managed ms p), tt.
  unfold set_managed_nonce. rewrite E, bind_Ok. split; [done|]. apply HQ. destruct Hi. constructor; try done.
  intros b Hb. rewrite fn_lookup_insert_ne by congruence. by apply i_range.
Qed.

Lemma wp_lower_nonce pn a F p n Q : is_u64 n → inv w N R pn (Some a) F p →
  (∀ ms, inv w N R (<[a := if n <? pn a then n else pn a]> pn) (Some a) F (set_managed ms p) → Q tt (set_managed ms p)) → wp (lower_nonce a n) Q p.
Proof.
  intros Hn Hi HQ. apply wp_bind. eapply wp_managed_nonce; [done|]. intros ms Hi'. destruct (n <? pn a).
  - eapply wp_set_managed_nonce; [done..|]. intros ms'. cbn. apply HQ.
  - apply wp_ret. apply HQ. destruct Hi'. constructor; try done.
    + destruct i_managed as (wm & ? & Hw & Ha & ?). exists wm. split; [done|]. split; [|split].
      * intros b. rewrite Hw. destruct (decide (a = b)) as [<-|]; [by rewrite fn_lookup_insert|by rewrite fn_lookup_insert_ne].
      * intros b acc Eb. rewrite (Ha b acc Eb). destruct (decide (a = b)) as [<-|]; [by rewrite fn_lookup_insert|by rewrite fn_lookup_insert_ne].
      * intros b. destruct (decide (a = b)) as [<-|]; [by rewrite fn_lookup_insert|by rewrite fn_lookup_insert_ne].
    + intros b Hb. rewrite fn_lookup_insert_ne by congruence. by apply i_range.
Qed.

Lemma wp_sender p tx a Q : sender_of (p_signer p) tx = Ok a → Q a p → wp (sender tx) Q p.
Proof. intros Hs HQ. apply wp_bind, wp_gets. eapply wp_lift; [by apply sent_account|done]. Qed.

(** ** The queue *)

(** A transaction that has left a list. *)
Lemma flying_head pn busy F p tx : inv w N R pn busy (tx :: F) p → ∃ a, busy = Some a ∧ sender_of (p_signer p) tx = Ok a ∧ p_all p !! hash_of tx = Some tx ∧
  pend p a !! tx_Nonce tx = None ∧ que p a !! tx_Nonce tx = None ∧ good (p_signer p) tx.
Proof.
  intros Hi. destruct (i_flying _ _ _ _ _ _ _ Hi tx) as (a & ? & ? & Hk & ? & ?); [by left|]. exists a. split_and!; try done;
  by apply (i_known _ _ _ _ _ _ _ Hi) in Hk as [_ ?].
Qed.

Lemma lists_default strict strict' busy lists a : lists_ok strict busy lists → strict' = strict →
  list_ok (default (newTxList strict') (lists !! a)) ∧ tl_strict (default (newTxList strict') (lists !! a)) = strict ∧
  txs_of (default (newTxList strict') (lists !! a)) = from_option (fun l => txs_of l) ∅ (lists !! a).
Proof.
  intros Hl ->. destruct (lists !! a) as [l|] eqn:E; cbn; [by destruct (Hl _ _ E) as (? & ? & ?)|].
  split; [|done]. constructor; cbn; [apply new_ok|apply map_Forall_empty..].
Qed.

Lemma requeue_spec pn a F p tx : inv w N R pn (Some a) (tx :: F) p →
  wp (requeue tx) (fun _ p' => inv w N R pn (Some a) F p' ∧ p_pending p' = p_pending p ∧ p_currentState p' = p_currentState p ∧ p_beats p' = p_beats p ∧
    later p p' ∧ (∀ b, b ≠ a → p_queue p' !! b = p_queue p !! b) ∧ (∀ l, p_queue p' !! a = Some l → txs_of l ≠ ∅)) p.
Proof.
  intros Hi. destruct (flying_head _ _ _ _ _ Hi) as (a' & [= <-] & Hs & Hk & Hpe & Hq & Hg). unfold requeue, enqueueTx. apply wp_bind, wp_bind.
  eapply wp_sender; [done|]. apply wp_bind, wp_gets, wp_bind, wp_gets.
  destruct (lists_default _ false _ _ a (i_queue _ _ _ _ _ _ _ Hi) eq_refl) as (Ho & Hst & Et). set (l := default _ _) in *.
  destruct (list_Add_spec tx (PriceBump (p_config p)) l Ho) as (l' & ins & old & -> & Hadd).
  { destruct Hg as [_ Hn]. unfold is_u64, two64, maxU64 in *. lia. }
  rewrite Et in Hadd. change (from_option _ _ _) with (que p a) in Hadd. rewrite Hq in Hadd. destruct ins; [|by destruct Hadd as [_ [? ?]]].
  destruct Hadd as (Ho' & Hst' & Et' & ->). apply wp_bind, wp_modify. cbn [negb]. apply wp_bind, wp_ret. apply wp_bind, wp_bind, wp_modify, wp_modify, wp_ret, wp_ret.
  split_and!; try done.
  - eapply (inv_insert_queue w N R N pn (Some a) (tx :: F) F p _ a tx l'); try done; cbn.
    + by rewrite Hst'.
    + constructor; cbn.
      * by rewrite lookup_insert_eq.
      * intros h t. rewrite lookup_insert. case_decide; [intros [= <-]; left; done|by right].
      * intros b n t Hl. rewrite insert_id by done. by destruct Hl as [Hl|[Hl _]]; [destruct (i_listed _ _ _ _ _ _ _ Hi _ _ _ (or_introl Hl))|destruct (i_listed _ _ _ _ _ _ _ Hi _ _ _ (or_intror Hl))].
      * intros t Ht. rewrite insert_id by done. by destruct (i_flying _ _ _ _ _ _ _ Hi t ltac:(by right)) as (? & _ & _ & ? & _).
    + rewrite insert_id by done. apply Hi.
    + by apply sublist_cons.
    + intros _. pose proof (i_distinct _ _ _ _ _ _ _ Hi) as Hd. by apply NoDup_cons in Hd as [? _].
    + apply priced_Put_ok; [apply Hg|apply Hi].
  - split; try done. cbn. by rewrite insert_id.
  - intros b Hb. cbn. by rewrite lookup_insert_ne.
  - intros l2. cbn. rewrite lookup_insert_eq. intros [= <-]. rewrite Et'. apply insert_non_empty.
Qed.

Definition filled (a : Address) (lists : gmap Address txList) : Prop := ∀ l, lists !! a = Some l → txs_of l ≠ ∅.

Lemma requeue_all_spec pn a F out : ∀ p, inv w N R pn (Some a) (out ++ F) p → filled a (p_queue p) →
  wp (each requeue out) (fun _ p' => inv w N R pn (Some a) F p' ∧ p_pending p' = p_pending p ∧ p_currentState p' = p_currentState p ∧ later p p' ∧
    (∀ b, b ≠ a → p_queue p' !! b = p_queue p !! b) ∧ filled a (p_queue p')) p.
Proof.
  induction out as [|tx out IH]; intros p Hi Hf; cbn [each]; [by apply wp_ret|]. apply wp_bind. eapply wp_mono; [by apply requeue_spec|].
  intros [] p1 (Hi1 & E1 & E2 & _ & L1 & Q1 & F1). eapply wp_mono; [by apply IH|]. intros [] p2 (Hi2 & E3 & E4 & L2 & Q2 & F2).
  split_and!; try done; [congruence..|by transitivity p1|]. intros b Hb. rewrite Q2, Q1; done.
Qed.

Lemma list_Empty_spec l : list_Empty l = bool_decide (txs_of l = ∅).
Proof.
  unfold list_Empty, list_Len, sorted.Len. destruct (bool_decide_reflect (txs_of l = ∅)) as [->|Hn]; [done|].
  apply Z.eqb_neq. intros H. apply Hn, map_size_empty_inv. lia.
Qed.

(** ** Removing *)

Lemma unlisted_forget pn busy F p h tx a : inv w N R pn busy F p → p_all p !! h = Some tx → sender_of (p_signer p) tx = Ok a →
  pend p a !! tx_Nonce tx = None → que p a !! tx_Nonce tx = None → tx ∉ F → inv w N R pn busy F (forgotten h p).
Proof.
  intros Hi Hk Hs Hp Hq HF. apply inv_forget; [done|..].
  - intros b n t Hl Eh. pose proof (listed_nonce _ _ _ _ _ _ _ _ _ _ Hi Hl) as <-. destruct (i_listed _ _ _ _ _ _ _ Hi _ _ _ Hl) as [Es Et].
    rewrite Eh, Hk in Et. injection Et as <-. rewrite Hs in Es. injection Es as <-. destruct Hl; congruence.
  - intros t Ht Eh. destruct (i_flying _ _ _ _ _ _ _ Hi t Ht) as (b & _ & _ & Et & _). rewrite Eh, Hk in Et. injection Et as <-. done.
Qed.

Lemma leaves_nothing items items' : items = items' → leaves items items' [].
Proof. intros <-. split; [done|]. split; [constructor|]. intros tx. split; [by intros ?%elem_of_nil|]. intros [??]. congruence. Qed.

Lemma leaves_delete items n tx : keyed items → items !! n = Some tx → leaves items (delete n items) [tx].
Proof.
  intros Hk E. split; [apply delete_subseteq|]. split; [apply NoDup_singleton|]. intros t. rewrite list_elem_of_singleton. split.
  - intros ->. rewrite (Hk _ _ E). split; [done|apply lookup_delete_eq].
  - intros [H1 H2]. destruct (decide (tx_Nonce t = n)) as [En|Hne]; [congruence|]. rewrite lookup_delete_ne in H2 by done. congruence.
Qed.

(** The managed nonces follow the pending transactions. *)
Definition range : Prop := ∀ a m k n, R a m k → is_Some (m !! n) → R a (cut n m) (if n <? k then n else k).

(** What a method that removes transactions of the account [a] leaves. *)
Definition removed_at (pn : Address → Z) (a : Address) (p p' : TxPool) : Prop :=
  (∃ n, inv w N R (<[a := n]> pn) None [] p') ∧ later p p' ∧ ∀ b, b ≠ a → same_at b p p'.

Lemma managed_id pn a busy F p : inv w N R pn busy F p → inv w N R (<[a := pn a]> pn) busy F p.
Proof.
  assert (∀ b, (<[a := pn a]> pn : Address → Z) b = pn b) as E.
  { intros b. destruct (decide (a = b)) as [<-|]; [by rewrite fn_lookup_insert|by rewrite fn_lookup_insert_ne]. }
  intros []. constructor; try done.
  - destruct i_managed as (wm & ? & Hw & Ha & ?). exists wm. split; [done|]. split; [intros b; by rewrite E|]. split; [|intros b; by rewrite E].
    intros b acc Eb. rewrite E. by apply Ha.
  - intros b Hb. rewrite E. by apply i_range.
Qed.

Lemma inv_drop_queue pn a F p : inv w N R pn (Some a) F p → que p a = ∅ → inv w N R pn (Some a) F (set_queue (delete a (p_queue p)) p).
Proof.
  intros [] He. assert (∀ b, que (set_queue (delete a (p_queue p)) p) b = que p b) as Hq.
  { intros b. unfold que. cbn. rewrite lookup_delete. case_decide; [subst; symmetry; exact He|done]. }
  constructor; try done.
  - intros b l. cbn. intros [_ E]%lookup_delete_Some. by apply i_queue.
  - intros b n tx. rewrite Hq. apply i_listed.
  - intros b n. rewrite Hq. apply i_disjoint.
  - intros tx Ht. destruct (i_flying tx Ht) as (b & ? & ? & ? & ? & ?). exists b. by rewrite Hq.
Qed.

Lemma inv_drop_pending pn a F p : inv w N R pn (Some a) F p → pend p a = ∅ →
  inv w N R pn (Some a) F (set_beats (delete a (p_beats p)) (set_pending (delete a (p_pending p)) p)).
Proof.
  intros [] He. assert (∀ b, pend (set_beats (delete a (p_beats p)) (set_pending (delete a (p_pending p)) p)) b = pend p b) as Hq.
  { intros b. unfold pend. cbn. rewrite lookup_delete. case_decide; [subst; symmetry; exact He|done]. }
  constructor; try done.
  - intros b l. cbn. intros [_ E]%lookup_delete_Some. by apply i_pending.
  - intros b n tx. rewrite Hq. apply i_listed.
  - intros b n. rewrite Hq. apply i_disjoint.
  - intros b Hb. rewrite Hq. by apply i_range.
  - intros tx Ht. destruct (i_flying tx Ht) as (b & ? & ? & ? & ? & ?). exists b. by rewrite Hq.
Qed.

Lemma remove_queued_spec pn a p h tx : inv w N R pn (Some a) [] p → p_all p !! h = Some tx → sender_of (p_signer p) tx = Ok a →
  pend p a !! tx_Nonce tx = None → filled a (p_pending p) → filled a (p_queue p) → R a (pend p a) (pn a) →
  wp (remove_queued a tx) (fun _ p' => removed_at pn a p p') (forgotten h p).
Proof.
  intros Hi Hk Hs Hp Hfp Hfq HR. unfold remove_queued. apply wp_bind, wp_gets. cbn. destruct (p_queue p !! a) as [fl|] eqn:Eq.
  - destruct (i_queue _ _ _ _ _ _ _ Hi a fl Eq) as (Ho & Hst & _). assert (que p a = txs_of fl) as Eqa by (unfold que; by rewrite Eq).
    destruct (list_Remove_spec tx fl Ho) as (l' & inv' & E & Ho' & Hst' & Hno & Hyes & _). apply wp_bind. eapply wp_lift; [exact E|].
    assert (∃ out, leaves (que p a) (txs_of l') out ∧ txs_of l' !! tx_Nonce tx = None) as (out & Hlv & Hn).
    { rewrite Eqa. destruct (txs_of fl !! tx_Nonce tx) as [t|] eqn:Et.
      - rewrite (Hyes (ltac:(by eexists)) Hst). exists [t]. split; [by apply leaves_delete; [apply txs_keyed|]|]. apply lookup_delete_eq.
      - destruct (Hno eq_refl) as [-> _]. exists []. split; [by apply leaves_nothing|done]. }
    pose proof (inv_take_queue w N R _ _ _ _ _ out Hi Ho' ltac:(congruence) Hlv) as Hi2. apply (inv_weaken _ _ _ _ _ _ []) in Hi2; [|apply sublist_nil_l].
    set (q := set_queue (<[a := l']> (p_queue p)) p) in *.
    assert (inv w N R pn (Some a) [] (forgotten h q)) as Hi3.
    { eapply unlisted_forget; [done|done|done|done| |apply not_elem_of_nil]. unfold q. rewrite que_put, decide_True by done. done. }
    apply wp_bind, wp_modify. change (wp (if list_Empty l' then modify (fun p => set_queue (delete a (p_queue p)) p) else mret tt) (fun _ p' => removed_at pn a p p') (forgotten h q)).
    assert (later p (forgotten h q)) as Hlat by (transitivity q; [by split|apply later_forgotten]).
    rewrite list_Empty_spec. destruct (bool_decide_reflect (txs_of l' = ∅)) as [He|He].
    + apply wp_modify. split; [exists (pn a); apply managed_id|split; [by split; apply Hlat|]].
      * eapply inv_finish; [apply inv_drop_queue; [done|]|done|intros l; cbn; by rewrite lookup_delete_eq|done].
        unfold q, que. cbn. by rewrite lookup_insert_eq.
      * intros b Hb. split; [done|]. cbn. by rewrite lookup_delete_ne, lookup_insert_ne.
    + apply wp_ret. split; [exists (pn a); apply managed_id|split; [done|]].
      * eapply inv_finish; [done|done|intros l; cbn; rewrite lookup_insert_eq; by intros [= <-]|done].
      * intros b Hb. split; [done|]. cbn. by rewrite lookup_insert_ne.
  - apply wp_ret. split; [exists (pn a); apply managed_id|split; [apply later_forgotten|done]].
    eapply inv_finish; [eapply unlisted_forget; try done; [unfold que; by rewrite Eq|apply not_elem_of_nil]|done|done|done].
Qed.

(** What leaves the pending list of an account when one is removed. *)
Lemma leaves_cut items n tx invalids : keyed items → items !! n = Some tx → NoDup invalids →
  (∀ t, t ∈ invalids ↔ items !! tx_Nonce t = Some t ∧ n < tx_Nonce t) → leaves items (cut n items) (tx :: invalids).
Proof.
  intros Hk E Hnd Hi. split; [|split].
  - apply map_subseteq_spec. intros k t. rewrite lookup_cut_Some. naive_solver.
  - constructor; [|done]. rewrite Hi. rewrite (Hk _ _ E). lia.
  - intros t. rewrite elem_of_cons, Hi, lookup_cut. split.
    + intros [->|[Ht Hlt]]; [rewrite (Hk _ _ E)|]; (split; [done|]); by rewrite decide_False by lia.
    + intros [Ht Hc]. case_decide as Hd; [congruence|]. destruct (decide (tx_Nonce t = n)) as [En|Hne]; [left; congruence|]. right. split; [done|]. lia.
Qed.

Lemma removeTx_pending pn a p h tx l : range → inv w N R pn None [] p → p_all p !! h = Some tx → sender_of (p_signer p) tx = Ok a → p_pending p !! a = Some l →
  is_Some (txs_of l !! tx_Nonce tx) → ∃ l' invalids, list_Remove tx l = Ok (l', (true, invalids)) ∧
  wp ((if list_Empty l' then drop_pending a else each requeue invalids);; lower_nonce a (tx_Nonce tx)) (fun _ p' => removed_at pn a p p')
    (set_pending (<[a := l']> (p_pending p)) (forgotten h p)).
Proof.
  intros HRg Hi Hk Hs El [t Ht]. destruct (i_pending _ _ _ _ _ _ _ Hi a l El) as (Ho & Hst & _). assert (pend p a = txs_of l) as Epa by (unfold pend; by rewrite El).
  destruct (list_Remove_spec tx l Ho) as (l' & invalids & E & Ho' & Hst' & _ & _ & Hyes). rewrite Ht, bool_decide_true in E by (by eexists).
  destruct Hyes as (Ecut & Hnd & Hinv); [by eexists|done|]. exists l', invalids. split; [done|].
  pose proof (leaves_cut _ _ _ _ (txs_keyed _ Ho) Ht Hnd Hinv) as Hlv. rewrite <- Ecut, <- Epa in Hlv.
  pose proof (inv_take_pending w N R _ _ _ _ _ _ (inv_start _ _ _ _ a _ Hi) Ho' ltac:(congruence) Hlv) as Hi2. rewrite app_nil_r in Hi2.
  apply (inv_weaken _ _ _ _ _ _ invalids) in Hi2; [|by apply sublist_cons]. set (q := set_pending (<[a := l']> (p_pending p)) p) in *.
  assert (que p a !! tx_Nonce tx = None) as Hqn by (destruct (i_disjoint _ _ _ _ _ _ _ Hi a (tx_Nonce tx)); [congruence|done]).
  assert (inv w N R pn (Some a) invalids (forgotten h q)) as Hi3.
  { eapply unlisted_forget; [done|done|done| |done|rewrite Hinv; lia]. unfold q. rewrite pend_put, decide_True by done. rewrite Ecut, lookup_cut, decide_False by lia. done. }
  change (set_pending _ (forgotten h p)) with (forgotten h q). assert (is_u64 (tx_Nonce tx)) as Hu.
  { destruct (i_known _ _ _ _ _ _ _ Hi _ _ Hk) as [_ [_ Hn]]. unfold is_u64, two64, maxU64 in *. lia. }
  assert (R a (txs_of l') (if tx_Nonce tx <? pn a then tx_Nonce tx else pn a)) as HR.
  { rewrite Ecut, <- Epa. apply HRg; [|rewrite Epa; by eexists]. apply (i_range _ _ _ _ _ _ _ Hi). done. }
  assert (filled a (p_queue p)) as Hfq by (intros fl Efl; by destruct (i_queue _ _ _ _ _ _ _ Hi a fl Efl) as (_ & _ & Hne); apply Hne).
  assert (later p (forgotten h q)) as Hlat by (transitivity q; [by split|apply later_forgotten]).
  apply wp_bind. rewrite list_Empty_spec. destruct (bool_decide_reflect (txs_of l' = ∅)) as [He|He].
  - apply wp_bind, wp_modify, wp_modify. assert (pend (forgotten h q) a = ∅) as Hpe by (unfold pend; cbn; by rewrite lookup_insert_eq).
    pose proof (inv_drop_pending _ _ _ _ Hi3 Hpe) as Hi4. apply (inv_weaken _ _ _ _ _ _ []) in Hi4; [|apply sublist_nil_l].
    eapply wp_lower_nonce; [done|exact Hi4|]. intros ms Hi5. split; [eexists|split].
    + eapply inv_finish; [exact Hi5|intros l2; cbn; by rewrite lookup_delete_eq|done|]. rewrite fn_lookup_insert. unfold pend. cbn. by rewrite lookup_delete_eq, <- He.
    + by split; apply Hlat.
    + intros b Hb. split; [|done]. cbn. by rewrite lookup_delete_ne, lookup_insert_ne.
  - eapply wp_mono; [apply (requeue_all_spec pn a [] invalids); [by rewrite app_nil_r|done]|]. intros [] p1 (Hi4 & E1 & E2 & L1 & Q1 & F1).
    eapply wp_lower_nonce; [done|exact Hi4|]. intros ms Hi5. assert (p_pending p1 !! a = Some l') as El' by (rewrite E1; cbn; by rewrite lookup_insert_eq).
    split; [eexists|split].
    + eapply inv_finish; [exact Hi5|intros l2; cbn; rewrite El'; by intros [= <-]|done|]. rewrite fn_lookup_insert. unfold pend. cbn. by rewrite El'.
    + transitivity (forgotten h q); [done|]. transitivity p1; [done|by split].
    + intros b Hb. split; cbn; [rewrite E1; cbn; by rewrite lookup_insert_ne|by rewrite Q1].
Qed.

Lemma removeTx_spec pn p h : range → inv w N R pn None [] p →
  wp (removeTx h) (fun _ p' => p_all p !! h = None ∧ p' = p ∨ ∃ tx a, p_all p !! h = Some tx ∧ sender_of (p_signer p) tx = Ok a ∧ removed_at pn a p p') p.
Proof.
  intros HRg Hi. unfold removeTx. apply wp_bind, wp_gets. destruct (p_all p !! h) as [tx|] eqn:Hk; [|apply wp_ret; by left].
  destruct (i_known _ _ _ _ _ _ _ Hi _ _ Hk) as [_ [[a Hs] _]]. apply wp_bind. eapply wp_sender; [done|]. apply wp_bind, wp_forget, wp_bind, wp_gets. cbn.
  assert (filled a (p_queue p)) as Hfq by (intros fl Efl; by destruct (i_queue _ _ _ _ _ _ _ Hi a fl Efl) as (_ & _ & Hne); apply Hne).
  destruct (p_pending p !! a) as [l|] eqn:El.
  - destruct (i_pending _ _ _ _ _ _ _ Hi a l El) as (Ho & Hst & Hne). assert (pend p a = txs_of l) as Epa by (unfold pend; by rewrite El).
    destruct (txs_of l !! tx_Nonce tx) as [t|] eqn:Et.
    + destruct (removeTx_pending pn a p h tx l HRg Hi Hk Hs El) as (l' & invalids & E & Hwp); [by eexists|].
      apply wp_bind. eapply wp_lift; [exact E|]. apply wp_bind, wp_modify. eapply wp_mono; [exact Hwp|]. intros [] p' H. right. eauto 10.
    + destruct (list_Remove_spec tx l Ho) as (l' & invalids & E & Ho' & Hst' & Hno & _). rewrite Et in E. cbn in E. destruct (Hno Et) as [El' _].
      apply wp_bind. eapply wp_lift; [exact E|]. apply wp_bind, wp_modify.
      pose proof (inv_take_pending w N R _ _ _ _ _ [] (inv_start _ _ _ _ a _ Hi) Ho' ltac:(congruence) ltac:(apply leaves_nothing; congruence)) as Hi2.
      set (q := set_pending (<[a := l']> (p_pending p)) p) in *. change (set_pending _ (forgotten h p)) with (forgotten h q).
      assert (pend q a = txs_of l') as Eq by (unfold q; by rewrite pend_put, decide_True).
      eapply wp_mono; [apply (remove_queued_spec pn a q h tx Hi2 Hk Hs)|].
      * by rewrite Eq, El'.
      * intros l2. cbn. rewrite lookup_insert_eq. intros [= <-]. rewrite El'. by apply Hne.
      * done.
      * rewrite Eq, El', <- Epa. by apply (i_range _ _ _ _ _ _ _ Hi).
      * intros [] p' (Hi3 & L3 & S3). right. exists tx, a. split; [done|]. split; [done|]. split; [done|]. split; [transitivity q; [by split|done]|].
        intros b Hb. destruct (S3 b Hb) as [S1 S2]. split; [rewrite S1; cbn; by rewrite lookup_insert_ne|done].
  - eapply wp_mono; [apply (remove_queued_spec pn a p h tx (inv_start _ _ _ _ a _ Hi) Hk Hs)|].
    + unfold pend. by rewrite El.
    + intros l. by rewrite El.
    + done.
    + by apply (i_range _ _ _ _ _ _ _ Hi).
    + intros [] p' H. right. eauto 10.
Qed.

Lemma remove_all_spec txs : range → ∀ pn p, inv w N R pn None [] p →
  wp (each (fun tx => removeTx (hash_of tx)) txs) (fun _ p' => (∃ pn', inv w N R pn' None [] p') ∧ later p p' ∧
    ∀ b, (∀ tx t, tx ∈ txs → p_all p !! hash_of tx = Some t → sender_of (p_signer p) t ≠ Ok b) → same_at b p p') p.
Proof.
  intros HRg. induction txs as [|tx txs IH]; intros pn p Hi; cbn [each]; [apply wp_ret; split; [eauto|done]|].
  apply wp_bind. eapply wp_mono; [by apply (removeTx_spec pn)|]. intros [] p1 [[Hn ->]|(t & a & Hk & Hs & [n Hi1] & L1 & S1)].
  - eapply wp_mono; [by eapply IH|]. intros [] p' (H1 & H2 & H3). split; [done|]. split; [done|]. intros b Hb. apply H3. intros tx' t' Ht'. apply Hb. by right.
  - eapply wp_mono; [by eapply IH|]. intros [] p' (H1 & H2 & H3). split; [done|]. split; [by transitivity p1|]. intros b Hb.
    assert (b ≠ a) as Hba by (intros ->; eapply Hb; [by left|done|done]). destruct (S1 b Hba) as [E1 E2]. destruct (H3 b) as [E3 E4].
    { intros tx' t' Ht' Hk'. rewrite (la_signer _ _ L1). eapply Hb; [by right|]. eapply lookup_weaken; [done|apply L1]. }
    split; congruence.
Qed.

(** ** Putting in a new transaction *)

Lemma inv_more N' pn busy F p : (N ≤ N')%nat → inv w N R pn busy F p → inv w N' R pn busy F p.
Proof. intros HN []. constructor; try done. lia. Qed.

Lemma knows_new pn p tx (old : option Transaction) (L : Address → Z → Transaction → Prop) : inv w N R pn None [] p → p_all p !! hash_of tx = None →
  (∀ b n t, L b n t → (pend p b !! n = Some t ∨ que p b !! n = Some t) ∧ ∀ o, old = Some o → t ≠ o) →
  (∀ o, old = Some o → p_all p !! hash_of o = Some o) →
  let all := <[hash_of tx := tx]> (match old with Some o => delete (hash_of o) (p_all p) | None => p_all p end) in
  knows p tx L [] all ∧ (size all ≤ S N)%nat.
Proof.
  intros Hi Hn Hli Ho all. assert (match old with Some o => delete (hash_of o) (p_all p) | None => p_all p end ⊆ p_all p) as Hsub by (destruct old; [apply delete_subseteq|done]).
  split; [constructor|].
  - apply lookup_insert_eq.
  - intros h t. unfold all. rewrite lookup_insert. case_decide; [intros [= <-]; by left|]. intros E. right. by eapply lookup_weaken.
  - intros b n t Hl. destruct (Hli _ _ _ Hl) as [Hl2 Hto]. destruct (i_listed _ _ _ _ _ _ _ Hi _ _ _ Hl2) as [_ Hk]. unfold all.
    rewrite lookup_insert_ne by congruence. destruct old as [o|]; [|done]. rewrite lookup_delete_ne; [done|]. intros Eh. apply (Hto o eq_refl).
    specialize (Ho o eq_refl). rewrite Eh in Ho. congruence.
  - by intros t ?%elem_of_nil.
  - unfold all. set (m0 := match old with Some _ => _ | None => _ end) in *. pose proof (i_size _ _ _ _ _ _ _ Hi). pose proof (map_subseteq_size _ _ Hsub).
    rewrite map_size_insert. destruct (m0 !! hash_of tx); cbn; lia.
Qed.

(** The rest of the pool is as before. *)
Record quiet (p p' : TxPool) : Prop := {
  qu_current : p_currentState p' = p_currentState p;
  qu_signer : p_signer p' = p_signer p;
  qu_config : p_config p' = p_config p;
  qu_maxGas : p_currentMaxGas p' = p_currentMaxGas p
}.

Lemma enqueue_new pn p tx a : inv w N R pn None [] p → p_all p !! hash_of tx = None → sender_of (p_signer p) tx = Ok a → good (p_signer p) tx →
  pend p a !! tx_Nonce tx = None →
  wp (enqueueTx (hash_of tx) tx) (fun _ p' => inv w (S N) R pn None [] p' ∧ quiet p p' ∧ p_locals p' = p_locals p) p.
Proof.
  intros Hi Hn Hs Hg Hpe. unfold enqueueTx. apply wp_bind. eapply wp_sender; [done|]. apply wp_bind, wp_gets, wp_bind, wp_gets.
  destruct (lists_default _ false _ _ a (i_queue _ _ _ _ _ _ _ Hi) eq_refl) as (Ho & Hst & Et). set (l := default _ _) in *.
  change (from_option _ _ _) with (que p a) in Et. destruct (list_Add_spec tx (PriceBump (p_config p)) l Ho) as (l' & ins & old & -> & Hadd).
  { destruct Hg as [_ Hb]. unfold is_u64, two64, maxU64 in *. lia. }
  apply wp_bind, wp_modify. destruct ins; cbn [negb].
  - destruct Hadd as (Ho' & Hst' & Et' & Eold). rewrite Et in Et', Eold.
    destruct (knows_new pn p tx old (fun b n t => pend p b !! n = Some t ∨ que p b !! n = Some t ∧ (b, n) ≠ (a, tx_Nonce tx)) Hi Hn) as [Hkn Hsz].
    { intros b n t Hl. split; [naive_solver|]. intros o -> ->. symmetry in Eold. pose proof (listed_nonce _ _ _ _ _ _ _ _ _ _ Hi (or_intror Eold)) as En.
      destruct (i_listed _ _ _ _ _ _ _ Hi _ _ _ (or_intror Eold)) as [Es _]. destruct Hl as [Hl|[Hl Hne]].
      - pose proof (listed_nonce _ _ _ _ _ _ _ _ _ _ Hi (or_introl Hl)) as En2. destruct (i_listed _ _ _ _ _ _ _ Hi _ _ _ (or_introl Hl)) as [Es2 _].
        rewrite Es in Es2. injection Es2 as <-. congruence.
      - pose proof (listed_nonce _ _ _ _ _ _ _ _ _ _ Hi (or_intror Hl)) as En2. destruct (i_listed _ _ _ _ _ _ _ Hi _ _ _ (or_intror Hl)) as [Es2 _].
        rewrite Es in Es2. injection Es2 as <-. congruence. }
    { intros o ->. symmetry in Eold. by destruct (i_listed _ _ _ _ _ _ _ Hi _ _ _ (or_intror Eold)). }
    assert (∀ p', p_all p' = <[hash_of tx := tx]> (match old with Some o => delete (hash_of o) (p_all p) | None => p_all p end) →
      p_currentState p' = p_currentState p → p_pendingState p' = p_pendingState p → p_pending p' = p_pending p → p_queue p' = <[a := l']> (p_queue p) →
      p_signer p' = p_signer p → p_config p' = p_config p → p_locals p' = p_locals p → priced_ok (p_signer p) (p_priced p') → inv w (S N) R pn None [] p') as Hfin.
    { intros p' Ea E1 E2 E3 E4 E5 E6 E7 Hpr. eapply (inv_insert_queue w N R (S N) pn None [] [] p p' a tx l'); rewrite ?Ea; try done; congruence. }
    pose proof (priced_Removed_ok (p_signer p)) as Hrem. pose proof (known_sent _ _ _ _ _ _ _ Hi) as Hks.
    destruct old as [o|].
    + apply wp_bind, wp_forget. apply wp_bind, wp_bind, wp_modify, wp_modify, wp_ret. split; [|done]. apply Hfin; try done. cbn.
      apply priced_Put_ok; [apply Hg|]. apply Hrem; [by apply map_Forall_delete|apply Hi].
    + apply wp_bind, wp_ret. apply wp_bind, wp_bind, wp_modify, wp_modify, wp_ret. split; [|done]. apply Hfin; try done. cbn. apply priced_Put_ok; [apply Hg|apply Hi].
  - destruct Hadd as [-> [o Eold]]. apply wp_ret. split; [|done]. apply (inv_more (S N)); [lia|]. eapply (inv_same w N R); [exact Hi|try done..]; [|apply Hi]. cbn.
    apply insert_id. rewrite Et in Eold. unfold l, que in *. destruct (p_queue p !! a); [done|]. cbn in Eold. by rewrite lookup_empty in Eold.
Qed.

Lemma wp_journalTx a tx pn busy F p Q : inv w N R pn busy F p →
  (∀ p', inv w N R pn busy F p' → quiet p p' → p_locals p' = p_locals p → p_pending p' = p_pending p → p_queue p' = p_queue p → Q tt p') → wp (journalTx a tx) Q p.
Proof.
  intros Hi HQ. apply wp_modify. apply HQ; destruct (p_journal p) as [[[written|]]|]; try done; try (destruct (is_local a p); done).
  destruct (is_local a p); [|done]. eapply inv_same; try done. apply Hi.
Qed.

Lemma inv_locals pn F busy p a : inv w N R pn busy F p → inv w N R pn busy F (set_locals (as_add a (p_locals p)) p).
Proof. intros []. by constructor. Qed.

Lemma inv_feed pn F busy p f : inv w N R pn busy F p → inv w N R pn busy F (set_feed f p).
Proof. intros []. by constructor. Qed.

Lemma inv_priced pn F busy p l : priced_ok (p_signer p) l → inv w N R pn busy F p → inv w N R pn busy F (set_priced l p).
Proof. intros Hl []. by constructor. Qed.

Lemma overlaps_spec tx l : Overlaps tx l = bool_decide (is_Some (txs_of l !! tx_Nonce tx)).
Proof. done. Qed.

End Steps.

Section Adding.
Context (w : world) (R : Address → txmap → Z → Prop).

Lemma place_queued_spec N pn p tx a local : inv w N R pn None [] p → p_all p !! hash_of tx = None → sender_of (p_signer p) tx = Ok a → good (p_signer p) tx →
  pend p a !! tx_Nonce tx = None → wp (place_queued a tx local) (fun _ p' => inv w (S N) R pn None [] p' ∧ quiet p p') p.
Proof.
  intros Hi Hn Hs Hg Hpe. apply wp_bind. eapply wp_mono; [by eapply enqueue_new|]. intros [replace|e] p1 (Hi1 & Q1 & L1); [|by apply wp_ret].
  apply wp_bind. assert (wp (if local then modify (fun p => set_locals (as_add a (p_locals p)) p) else mret tt) (fun _ p' => inv w (S N) R pn None [] p' ∧ quiet p1 p') p1) as H.
  { destruct local; [apply wp_modify; split; [by apply inv_locals|done]|by apply wp_ret]. }
  eapply wp_mono; [exact H|]. intros [] p2 [Hi2 Q2]. apply wp_bind. eapply wp_journalTx; [done|]. intros p3 Hi3 Q3 _ _ _. apply wp_ret. split; [done|].
  destruct Q1, Q2, Q3. split; congruence.
Qed.

(** The account can pay for the transaction, and a block with the gas limit [g]
    has room for it. *)
Definition payable (g : Z) (a : Address) (tx : Transaction) : Prop := tx_Cost (tx_data tx) ≤ w_balance a w ∧ tx_Gas tx ≤ g.

(** The transaction may take the place of one with its nonce. *)
Definition fits (a : Address) (tx : Transaction) : Prop := ∀ m k n, R a m k → is_Some (m !! n) → R a (<[n := tx]> m) k.
Definition replaces (g : Z) : Prop := ∀ a tx, payable g a tx → fits a tx.

(** The pending list of the account has a transaction with this nonce. *)
Lemma place_pending_spec N pn p tx a l : fits a tx → inv w N R pn None [] p → p_all p !! hash_of tx = None → sender_of (p_signer p) tx = Ok a →
  good (p_signer p) tx → p_pending p !! a = Some l → is_Some (txs_of l !! tx_Nonce tx) →
  ∃ l' inserted old, list_Add tx (PriceBump (p_config p)) l = (l', (inserted, old)) ∧
  wp (if negb inserted then mret (inr ErrReplaceUnderpriced) else
        match old with Some old => forget (hash_of old) | None => mret tt end;; remember (hash_of tx) tx;; journalTx a tx;;
        modify (fun p => set_feed (p_feed p ++ [tx]) p);; mret (inl (bool_decide (is_Some old))))
    (fun _ p' => inv w (S N) R pn None [] p' ∧ quiet p p') (set_pending (<[a := l']> (p_pending p)) p).
Proof.
  intros Hfit Hi Hn Hs Hg El [o Eo]. destruct (i_pending _ _ _ _ _ _ _ Hi a l El) as (Ho & Hst & _). assert (pend p a = txs_of l) as Epa by (unfold pend; by rewrite El).
  destruct (list_Add_spec tx (PriceBump (p_config p)) l Ho) as (l' & ins & old & -> & Hadd).
  { destruct Hg as [_ Hb]. unfold is_u64, two64, maxU64 in *. lia. }
  exists l', ins, old. split; [done|]. destruct ins; cbn [negb].
  - destruct Hadd as (Ho' & Hst' & Et' & Eold). rewrite Eo in Eold. subst old. rewrite <- Epa in Et', Eo.
    destruct (knows_new w N R pn p tx (Some o) (fun b n t => pend p b !! n = Some t ∧ (b, n) ≠ (a, tx_Nonce tx) ∨ que p b !! n = Some t) Hi Hn) as [Hkn Hsz].
    { intros b n t Hl. split; [naive_solver|]. intros o' [= <-] ->. pose proof (listed_nonce _ _ _ _ _ _ _ _ _ _ Hi (or_introl Eo)) as En.
      destruct (i_listed _ _ _ _ _ _ _ Hi _ _ _ (or_introl Eo)) as [Es _]. destruct Hl as [[Hl Hne]|Hl].
      - pose proof (listed_nonce _ _ _ _ _ _ _ _ _ _ Hi (or_introl Hl)) as En2. destruct (i_listed _ _ _ _ _ _ _ Hi _ _ _ (or_introl Hl)) as [Es2 _].
        rewrite Es in Es2. injection Es2 as <-. congruence.
      - pose proof (listed_nonce _ _ _ _ _ _ _ _ _ _ Hi (or_intror Hl)) as En2. destruct (i_listed _ _ _ _ _ _ _ Hi _ _ _ (or_intror Hl)) as [Es2 _].
        rewrite Es in Es2. injection Es2 as <-. rewrite <- En2, En in Hl. destruct (i_disjoint _ _ _ _ _ _ _ Hi a (tx_Nonce tx)); congruence. }
    { intros o' [= <-]. by destruct (i_listed _ _ _ _ _ _ _ Hi _ _ _ (or_introl Eo)). }
    apply wp_bind, wp_forget. apply wp_bind, wp_bind, wp_modify, wp_modify. set (q := set_priced _ _). assert (inv w (S N) R pn None [] q) as Hq.
    { eapply (inv_insert_pending w N R (S N) pn pn None [] [] p q a tx l'); try done.
      - destruct (i_disjoint _ _ _ _ _ _ _ Hi a (tx_Nonce tx)); [congruence|done].
      - congruence.
      - intros _. rewrite Et'. apply Hfit; [by apply (i_range _ _ _ _ _ _ _ Hi)|]. rewrite Eo. by eexists.
      - apply Hi.
      - cbn. apply priced_Put_ok; [apply Hg|]. apply priced_Removed_ok; [apply map_Forall_delete; by eapply known_sent|apply Hi]. }
    apply wp_bind. eapply wp_journalTx; [exact Hq|]. intros p3 Hi3 Q3 _ _ _. apply wp_bind, wp_modify, wp_ret. split; [by apply inv_feed|]. destruct Q3. by split.
  - destruct Hadd as [-> _]. apply wp_ret. split; [|done]. apply (inv_more w N R (S N)); [lia|]. eapply (inv_same w N R); [exact Hi|try done..]; [|apply Hi]. cbn. by apply insert_id.
Qed.

Lemma place_spec N pn p tx a local : fits a tx → inv w N R pn None [] p → p_all p !! hash_of tx = None → sender_of (p_signer p) tx = Ok a → good (p_signer p) tx →
  wp (place tx local) (fun _ p' => inv w (S N) R pn None [] p' ∧ quiet p p') p.
Proof.
  intros Hfit Hi Hn Hs Hg. unfold place. apply wp_bind. eapply wp_sender; [done|]. apply wp_bind, wp_gets. destruct (p_pending p !! a) as [l|] eqn:El.
  - rewrite overlaps_spec. destruct (bool_decide_reflect (is_Some (txs_of l !! tx_Nonce tx))) as [Ho|Ho].
    + apply wp_bind, wp_gets. destruct (place_pending_spec N pn p tx a l Hfit Hi Hn Hs Hg El Ho) as (l' & ins & old & -> & Hwp). apply wp_bind, wp_modify. exact Hwp.
    + eapply place_queued_spec; try done. unfold pend. rewrite El. cbn. by apply eq_None_not_Some.
  - eapply place_queued_spec; try done. unfold pend. by rewrite El.
Qed.

(** ** Validation *)

(** A transaction that is handed to the pool. *)
Definition incoming (signer : Signer) (tx : Transaction) : Prop :=
  (∃ n, tx_Size tx = Ok n) ∧ sender_of signer tx ≠ Panic ∧ 0 ≤ tx_Nonce tx < maxU64.

(** What [validateTx] has checked. *)
Definition valid (p : TxPool) (tx : Transaction) (local : bool) (a : Address) : Prop :=
  sender_of (p_signer p) tx = Ok a ∧ tx_Gas tx ≤ p_currentMaxGas p ∧ 0 ≤ Amount (tx_data tx) ∧ w_nonce a w ≤ tx_Nonce tx ∧ tx_Cost (tx_data tx) ≤ w_balance a w ∧
  (local = false → is_local a p = false → p_gasPrice p ≤ tx_GasPrice tx).

Lemma validateTx_spec N pn p tx local : inv w N R pn None [] p → incoming (p_signer p) tx →
  wp (validateTx tx local) (fun r p' => inv w N R pn None [] p' ∧ quiet p (set_current (p_currentState p) p') ∧ p_all p' = p_all p ∧ (r = None → ∃ a, valid p tx local a)) p.
Proof.
  intros Hi ([sz Hsz] & Hsd & Hnn). unfold validateTx. apply wp_bind. eapply wp_lift; [exact Hsz|].
  destruct (32 * 1024 <? sz); [apply wp_ret; by split_and!|]. destruct (Z.ltb_spec (Amount (tx_data tx)) 0); [apply wp_ret; by split_and!|].
  apply wp_bind, wp_gets. destruct (Z.ltb_spec (p_currentMaxGas p) (tx_Gas tx)); [apply wp_ret; by split_and!|]. apply wp_bind, wp_gets.
  destruct (sender_of (p_signer p) tx) as [a|e|] eqn:Hs; [|apply wp_ret; by split_and!|done].
  apply wp_bind, wp_gets, wp_bind, wp_gets. destruct (negb (local || is_local a p) && (tx_GasPrice tx <? p_gasPrice p)) eqn:Epr; [apply wp_ret; by split_and!|].
  apply wp_bind. eapply wp_current_nonce; [done|]. intros s1 Hi1. destruct (Z.ltb_spec (tx_Nonce tx) (w_nonce a w)); [apply wp_ret; by split_and!|].
  apply wp_bind. eapply wp_current_balance; [done|]. intros s2 Hi2. destruct (Z.ltb_spec (w_balance a w) (tx_Cost (tx_data tx))); [apply wp_ret; by split_and!|].
  apply wp_bind, wp_gets. destruct (IntrinsicGas _ _ _) as [g|e]; [|apply wp_ret; by split_and!]. destruct (tx_Gas tx <? g); [apply wp_ret; by split_and!|].
  apply wp_ret. split_and!; try done. intros _. exists a. split_and!; try done.
  intros -> Hl. cbn in Epr. rewrite Hl in Epr. cbn in Epr. by apply Z.ltb_ge in Epr.
Qed.

Lemma room_count slots count : u64 slots ≤ count → 0 ≤ count - i64 (slots - 1)%u64.
Proof.
  unfold i64, u64. rewrite Zmod_mod, <- (Zminus_mod_idemp_l slots 1). pose proof (Z.mod_pos_bound slots two64 two64_pos) as Hs. unfold two64 in *.
  set (m := slots mod 18446744073709551616) in *. intros Hc. destruct (decide (m = 0)) as [->|Hn].
  - change ((0 - 1) mod 18446744073709551616) with 18446744073709551615. cbn. lia.
  - rewrite (Z.mod_small (m - 1)) by lia. destruct (Z.ltb_spec (m - 1) 9223372036854775808); lia.
Qed.

Lemma make_room_spec N pn p tx : range R → inv w N R pn None [] p → sent (p_signer p) tx →
  wp (make_room tx) (fun _ p' => (∃ pn', inv w N R pn' None [] p') ∧ later p p') p.
Proof.
  intros HRg Hi Ht. unfold make_room. apply wp_bind, wp_gets, wp_bind, wp_gets. destruct (Z.leb_spec (GlobalSlots (p_config p) + GlobalQueue (p_config p))%u64 (Z.of_nat (size (p_all p)))) as [Hc|]; [|apply wp_ret; split; [eauto|done]].
  apply wp_bind, wp_gets, wp_bind, wp_gets, wp_bind, wp_gets.
  destruct (Underpriced_ok (p_signer p) (p_all p) tx (p_locals p) (p_priced p)) as (l1 & under & E1 & Hl1); [apply Hi|done|apply Hi|].
  apply wp_bind. eapply wp_lift; [exact E1|]. apply wp_bind, wp_modify. pose proof (inv_priced w N R pn [] None p l1 Hl1 Hi) as Hi1.
  destruct under; [apply wp_ret; split; [eauto|by split]|].
  destruct (Discard_ok (p_signer p) (p_all p) (Z.of_nat (size (p_all p)) - i64 (GlobalSlots (p_config p) + GlobalQueue (p_config p) - 1)%u64) (p_locals p) l1) as (l2 & drop & E2 & Hl2);
    [apply Hi|by apply room_count|done|].
  apply wp_bind. eapply wp_lift; [exact E2|]. apply wp_bind, wp_modify. pose proof (inv_priced w N R pn [] None (set_priced l1 p) l2 Hl2 Hi1) as Hi2.
  apply wp_bind. eapply wp_mono; [by apply (remove_all_spec w N R drop HRg pn)|]. intros [] p' (H1 & H2 & _). apply wp_ret. split; [done|]. etrans; [|exact H2]. by split.
Qed.

Lemma pool_add_spec N pn p tx local : range R → replaces (p_currentMaxGas p) → inv w N R pn None [] p → incoming (p_signer p) tx →
  wp (pool_add tx local) (fun r p' => (∃ pn', inv w (S N) R pn' None [] p') ∧ p_signer p' = p_signer p ∧ p_config p' = p_config p ∧ p_currentMaxGas p' = p_currentMaxGas p ∧
    (∀ b, r = inl b → ∃ a, valid p tx local a)) p.
Proof.
  intros HRg Hrp Hi Hin. unfold pool_add. apply wp_bind, wp_gets. assert (∀ q, inv w N R pn None [] q → ∃ pn', inv w (S N) R pn' None [] q) as Hmore.
  { intros q Hq. exists pn. eapply inv_more; [|done]. lia. }
  destruct (p_all p !! hash_of tx) eqn:Hk; [apply wp_ret; split_and!; by auto|]. apply wp_bind. eapply wp_mono; [by eapply validateTx_spec|].
  intros r p1 (Hi1 & [_ S1 C1 M1] & A1 & Hr). cbn in S1, C1, M1. destruct r as [e|]; [apply wp_ret; split_and!; by auto|]. destruct (Hr eq_refl) as [a Hv].
  assert (sender_of (p_signer p1) tx = Ok a) as Hs1 by (rewrite S1; apply Hv).
  apply wp_bind. eapply wp_mono; [apply (make_room_spec N pn p1 tx HRg Hi1); by exists a|]. intros full p2 [[pn2 Hi2] L2].
  destruct full as [e|].
  - apply wp_ret. destruct L2. split_and!; try congruence. exists pn2. eapply inv_more; [|done]. lia.
  - assert (sender_of (p_signer p2) tx = Ok a) as Hs2 by (rewrite (la_signer _ _ L2); done). assert (p_all p2 !! hash_of tx = None) as Hn2.
    { destruct (p_all p2 !! hash_of tx) eqn:E; [|done]. pose proof (lookup_weaken _ _ _ _ E (la_all _ _ L2)) as E'. congruence. }
    eapply wp_mono; [apply (place_spec N pn2 p2 tx a local); [apply Hrp; by split; apply Hv|done|done|done|split; [by exists a|apply Hin]]|].
    intros r p3 [Hi3 [_ S3 C3 M3]]. destruct L2. split_and!; try congruence; eauto.
Qed.

End Adding.

(** ** Promoting *)

Section Promote.
Context (w : world) (N : nat) (R : Address → txmap → Z → Prop).

Definition extends (g : Z) : Prop := ∀ a m k n tx, R a m k → m !! n = None → w_nonce a w ≤ n ≤ k → payable w g a tx → R a (<[n := tx]> m) (n + 1).

Lemma promoteTx_spec pn a F p tx now : inv w N R pn (Some a) (tx :: F) p →
  wp (promoteTx now a (hash_of tx) tx) (fun _ p' => inv w N R (<[a := tx_Nonce tx + 1]> pn) (Some a) F p' ∧ pend p' a = <[tx_Nonce tx := tx]> (pend p a) ∧
    filled a (p_pending p') ∧ p_queue p' = p_queue p ∧ later p p') p.
Proof.
  intros Hi. destruct (flying_head w N R _ _ _ _ _ Hi) as (a' & [= <-] & Hs & Hk & Hpe & Hq & Hg). unfold promoteTx. apply wp_bind, wp_gets, wp_bind, wp_gets.
  destruct (lists_default _ true _ _ a (i_pending _ _ _ _ _ _ _ Hi) eq_refl) as (Ho & Hst & Et). set (l := default _ _) in *.
  assert (is_u64 (tx_Nonce tx) ∧ is_u64 (tx_Nonce tx + 1)) as [Hu Hu1] by (destruct Hg as [_ Hn]; unfold is_u64, two64, maxU64 in *; lia).
  destruct (list_Add_spec tx (PriceBump (p_config p)) l Ho Hu) as (l' & ins & old & -> & Hadd).
  rewrite Et in Hadd. change (from_option _ _ _) with (pend p a) in Hadd. rewrite Hpe in Hadd. destruct ins; [|by destruct Hadd as [_ [? ?]]].
  destruct Hadd as (Ho' & Hst' & Et' & ->). apply wp_bind, wp_modify. cbn [negb]. apply wp_bind, wp_ret. apply wp_bind, wp_gets. cbn. rewrite Hk.
  apply wp_bind, wp_ret, wp_bind, wp_modify. apply wp_bind. rewrite u64_small by done.
  set (q := set_beats _ _). assert (inv w N R pn (Some a) F q) as Hq2.
  { eapply (inv_insert_pending w N R N pn pn (Some a) (tx :: F) F p q a tx l'); try done; cbn.
    - by rewrite Hst'.
    - constructor; cbn; [done|by right|..].
      + intros b n t Hl. by destruct Hl as [[Hl _]|Hl]; [destruct (i_listed _ _ _ _ _ _ _ Hi _ _ _ (or_introl Hl))|destruct (i_listed _ _ _ _ _ _ _ Hi _ _ _ (or_intror Hl))].
      + intros t Ht. by destruct (i_flying _ _ _ _ _ _ _ Hi t ltac:(by right)) as (? & _ & _ & ? & _).
    - apply Hi.
    - by apply sublist_cons.
    - intros _. pose proof (i_distinct _ _ _ _ _ _ _ Hi) as Hd. by apply NoDup_cons in Hd as [? _].
    - apply Hi.
    - apply Hi. }
  eapply wp_set_managed_nonce; [done|exact Hq2|]. intros ms Hi3. apply wp_modify. split_and!.
  - by apply inv_feed.
  - unfold pend at 1. cbn. by rewrite lookup_insert_eq.
  - intros l2. cbn. rewrite lookup_insert_eq. intros [= <-]. rewrite Et'. apply insert_non_empty.
  - done.
  - by split.
Qed.

(** Nonces that follow one another. *)
Fixpoint consecutive (k : Z) (ns : list Z) : Prop :=
  match ns with [] => True | n :: ns => n = k ∧ consecutive (k + 1)%u64 ns end.

Lemma run_consecutive ns : ∀ k, consecutive k (run k ns).
Proof. induction ns as [|n ns IH]; intros k; cbn; [done|]. destruct (Z.eqb_spec n k) as [->|]; [|done]. split; [done|apply IH]. Qed.

Lemma nonces_at items ns : keyed items → (∀ n, n ∈ ns → is_Some (items !! n)) → tx_Nonce <$> at_nonces items ns = ns.
Proof.
  intros Hk. induction ns as [|n ns IH]; intros Hn; [done|]. rewrite at_nonces_cons. destruct (Hn n) as [tx E]; [by left|]. rewrite E. cbn.
  f_equal; [apply (Hk _ _ E)|]. apply IH. intros k Hin. apply Hn. by right.
Qed.

Lemma promote_run now a F g : extends g → Forall (payable w g a) F → ∀ p pn n0, inv w N R pn (Some a) F p → R a (pend p a) (pn a) → consecutive n0 (tx_Nonce <$> F) →
  w_nonce a w ≤ n0 ≤ pn a → filled a (p_pending p) →
  wp (each (fun tx => tx ← lift (deref tx); promoteTx now a (hash_of tx) tx) (Some <$> F))
    (fun _ p' => ∃ pn', inv w N R pn' (Some a) [] p' ∧ R a (pend p' a) (pn' a) ∧ filled a (p_pending p') ∧ p_queue p' = p_queue p ∧ later p p') p.
Proof.
  intros He Hpay. induction Hpay as [|tx F Hp Hpay IH]; intros p pn n0 Hi HR Hc Hn Hf; cbn [each fmap list_fmap]; [apply wp_ret; exists pn; by split_and!|].
  destruct Hc as [En Hc]. destruct (flying_head w N R _ _ _ _ _ Hi) as (a' & [= <-] & _ & _ & Hpe & _ & [_ Hb]).
  apply wp_bind, wp_bind. eapply wp_lift; [done|]. eapply wp_mono; [by apply (promoteTx_spec pn a F p tx now)|].
  intros [] p1 (Hi1 & E1 & F1 & Q1 & L1). rewrite u64_small in Hc by (unfold is_u64, two64, maxU64 in *; lia).
  eapply wp_mono; [apply (IH p1 _ (n0 + 1) Hi1); [..|done|rewrite fn_lookup_insert; lia|done]|].
  - rewrite E1, fn_lookup_insert. apply (He a _ (pn a)); [done|done|lia|done].
  - intros [] p2 (pn2 & Hi2 & HR2 & F2 & Q2 & L2). exists pn2. split_and!; try done; [congruence|by transitivity p1].
Qed.

(** In the middle of promoting: the queue of the account is [l]. *)
Record work (pn : Address → Z) (a : Address) (l : txList) (p0 p : TxPool) : Prop := {
  wk_inv : inv w N R pn (Some a) [] p;
  wk_queue : p_queue p !! a = Some l;
  wk_pending : filled a (p_pending p);
  wk_range : R a (pend p a) (pn a);
  wk_later : later p0 p
}.

Lemma work_take pn a l l' out p0 p : work pn a l p0 p → takes l l' out (txs_of l') →
  inv w N R pn (Some a) (out ++ []) (set_queue (<[a := l']> (p_queue p)) p) ∧
  ∀ p', inv w N R pn (Some a) [] p' → p_pending p' = p_pending p → p_queue p' = <[a := l']> (p_queue p) → later (set_queue (<[a := l']> (p_queue p)) p) p' → work pn a l' p0 p'.
Proof.
  intros [] (Ho & Hs & _ & Hlv). destruct (i_queue _ _ _ _ _ _ _ wk_inv0 a l wk_queue0) as (_ & Hst & _). split.
  - apply inv_take_queue; [done|done|congruence|]. unfold que. by rewrite wk_queue0.
  - intros p' Hi E1 E2 L. constructor; [done|by rewrite E2, lookup_insert_eq|by rewrite E1|unfold pend; by rewrite E1|]. etrans; [done|]. etrans; [|exact L]. by split.
Qed.

Lemma wp_work_opt pn a l l' out p0 p (Q : unit → TxPool → Prop) : work pn a l p0 p → takes l l' out (txs_of l') → (∀ p', work pn a l' p0 p' → Q tt p') →
  wp (each forget_tx (Some <$> out)) Q (set_queue (<[a := l']> (p_queue p)) p).
Proof.
  intros Hw Ht HQ. destruct (work_take _ _ _ _ _ _ _ Hw Ht) as [Hi Hk]. eapply wp_forget_all_opt; [exact Hi|]. intros p' Hi' E1 E2 _ _ L. apply HQ. by apply Hk.
Qed.

Lemma wp_work pn a l l' out p0 p (Q : unit → TxPool → Prop) : work pn a l p0 p → takes l l' out (txs_of l') → (∀ p', work pn a l' p0 p' → Q tt p') →
  wp (each (fun tx => forget (hash_of tx)) out) Q (set_queue (<[a := l']> (p_queue p)) p).
Proof.
  intros Hw Ht HQ. destruct (work_take _ _ _ _ _ _ _ Hw Ht) as [Hi Hk]. eapply wp_forget_all; [exact Hi|]. intros p' Hi' E1 E2 _ _ L. apply HQ. by apply Hk.
Qed.

Lemma work_current pn a l p0 p s : inv w N R pn (Some a) [] (set_current s p) → work pn a l p0 p → work pn a l p0 (set_current s p).
Proof. intros Hi []. constructor; try done. etrans; [done|]. by split. Qed.

Lemma work_managed pn a l p0 p ms : inv w N R pn (Some a) [] (set_managed ms p) → work pn a l p0 p → work pn a l p0 (set_managed ms p).
Proof. intros Hi []. constructor; try done. etrans; [done|]. by split. Qed.

Lemma takes_txs l l' out items : takes l l' out items → takes l l' out (txs_of l').
Proof. intros (? & ? & E & ?). by rewrite E. Qed.

(** The queue of an account that has been promoted is capped, and the account
    leaves the queue if nothing is left. *)
Lemma promote_end pn a l p0 p : work pn a l p0 p →
  wp (local ← gets (is_local a);
      config ← gets p_config;
      list ← (if local : bool then mret l
              else
                '(list, drops) ← lift (list_Cap (i64 (AccountQueue config)) l);
                put_queue a list;;
                each forget_tx drops;;
                mret list);
      if list_Empty list then modify (fun p => set_queue (delete a (p_queue p)) p) else mret tt)
    (fun _ p' => inv w N R pn None [] p' ∧ later p0 p') p.
Proof.
  intros Hw. apply wp_bind, wp_gets, wp_bind, wp_gets. apply wp_bind.
  assert (∀ l p, work pn a l p0 p → wp (if list_Empty l then modify (fun p => set_queue (delete a (p_queue p)) p) else mret tt) (fun _ p' => inv w N R pn None [] p' ∧ later p0 p') p) as Hend.
  { clear. intros l p []. rewrite list_Empty_spec. destruct (bool_decide_reflect (txs_of l = ∅)) as [He|He].
    - apply wp_modify. split; [|etrans; [done|by split]]. eapply inv_finish; [apply inv_drop_queue; [done|unfold que; by rewrite wk_queue0]|done|intros l2; cbn; by rewrite lookup_delete_eq|done].
    - apply wp_ret. split; [|done]. eapply inv_finish; [done|done|intros l2; rewrite wk_queue0; by intros [= <-]|done]. }
  destruct (is_local a p); [apply wp_ret; by apply Hend|]. destruct (i_queue _ _ _ _ _ _ _ (wk_inv _ _ _ _ _ Hw) a l (wk_queue _ _ _ _ _ Hw)) as (Ho & _).
  destruct (i_config _ _ _ _ _ _ _ (wk_inv _ _ _ _ _ Hw)) as [_ Hq]. replace (i64 (AccountQueue (p_config p))) with (Z.of_nat (Z.to_nat (AccountQueue (p_config p)))).
  2: { rewrite Z2Nat.id by lia. unfold i64. rewrite Z.mod_small by (unfold two64; lia). destruct (Z.ltb_spec (AccountQueue (p_config p)) 9223372036854775808); lia. }
  destruct (list_Cap_spec (Z.to_nat (AccountQueue (p_config p))) l Ho) as (l' & out & E & Ht & _). apply wp_bind. eapply wp_lift; [exact E|].
  apply wp_bind, wp_modify, wp_bind. eapply wp_work_opt; [done|by eapply takes_txs|]. intros p' Hw'. apply wp_ret. by apply Hend.
Qed.

Lemma promote_account_spec now a pn p : extends (p_currentMaxGas p) → inv w N R pn None [] p →
  wp (promote_account now a) (fun _ p' => (∃ pn', inv w N R pn' None [] p') ∧ later p p') p.
Proof.
  intros He Hi. unfold promote_account. apply wp_bind, wp_gets. destruct (p_queue p !! a) as [l|] eqn:El; [|apply wp_ret; split; [eauto|done]].
  destruct (i_queue _ _ _ _ _ _ _ Hi a l El) as (Ho & Hst & _). assert (work pn a l p p) as Hw.
  { constructor; [by apply inv_start|done|intros l2 E2; by destruct (i_pending _ _ _ _ _ _ _ Hi a l2 E2) as (_ & _ & H); apply H|by apply (i_range _ _ _ _ _ _ _ Hi)|done]. }
  apply wp_bind. eapply wp_current_nonce; [apply Hw|]. intros s1 Hi1. apply (work_current _ _ _ _ _ _ Hi1) in Hw.
  destruct (list_Forward_spec (w_nonce a w) l Ho) as (l1 & out1 & E1 & T1). apply wp_bind. eapply wp_lift; [exact E1|]. apply wp_bind, wp_modify, wp_bind.
  eapply wp_work_opt; [done|by eapply takes_txs|]. intros p1 Hw1. apply wp_bind. eapply wp_current_balance; [apply Hw1|]. intros s2 Hi2. apply (work_current _ _ _ _ _ _ Hi2) in Hw1.
  apply wp_bind, wp_gets. destruct T1 as (Ho1 & Hst1 & Et1 & _). destruct (list_Filter_takes (w_balance a w) (p_currentMaxGas (set_current s2 p1)) l1 Ho1) as (l2 & drops & invalids & -> & T2 & _ & Hno & Hin).
  rewrite Hno, app_nil_r in T2 by congruence. apply wp_bind, wp_modify, wp_bind. eapply wp_work; [done|done|]. intros p2 Hw2.
  apply wp_bind. eapply wp_managed_nonce; [apply Hw2|]. intros ms Hi3. apply (work_managed _ _ _ _ _ _ Hi3) in Hw2. destruct T2 as (Ho2 & Hst2 & _ & Hsub & _).
  destruct (list_Ready_spec (pn a) l2 Ho2) as (l3 & E3 & T3). set (ready := at_nonces _ _) in *. apply wp_bind. eapply wp_lift; [exact E3|]. apply wp_bind, wp_modify.
  destruct (work_take _ _ _ _ _ _ _ Hw2 (takes_txs _ _ _ _ T3)) as [Hi4 Hk4]. rewrite app_nil_r in Hi4. apply wp_bind.
  assert (tx_Nonce <$> ready = ready_from (pn a) (nonces (txs_of l2))) as Enon.
  { apply nonces_at; [by apply txs_keyed|]. intros n Hn. apply elem_of_nonces. destruct (ready_split (pn a) (nonces (txs_of l2))) as [ks Ek]. rewrite Ek. apply elem_of_app. by left. }
  assert (∃ n0, consecutive n0 (tx_Nonce <$> ready) ∧ w_nonce a w ≤ n0 ≤ pn a ∨ ready = []) as [n0 Hrun].
  { rewrite Enon. unfold ready_from. destruct (nonces (txs_of l2)) as [|n ns] eqn:Ens; [exists 0; right; unfold ready; by rewrite ?Ens|].
    destruct (Z.ltb_spec (pn a) n) as [Hlt|Hge]; [exists 0; right; unfold ready, ready_from; rewrite ?Ens; by destruct (Z.ltb_spec (pn a) n); [|lia]|].
    exists n. left. split; [apply run_consecutive|]. split; [|done]. assert (is_Some (txs_of l2 !! n)) as [t Et] by (apply elem_of_nonces; rewrite Ens; by left).
    apply (lookup_weaken _ _ _ _ Et) in Hsub. rewrite Et1 in Hsub. apply map_lookup_filter_Some in Hsub as [_ Hge2]. cbn in Hge2. lia. }
  assert (Forall (payable w (p_currentMaxGas p) a) ready) as Hready.
  { apply Forall_forall. intros tx Htx. apply elem_of_at_nonces in Htx as [Htx _]; [|by apply txs_keyed]. apply Hin in Htx. rewrite (la_maxGas _ _ (wk_later _ _ _ _ _ Hw1)) in Htx. by apply over_within. }
  destruct Hrun as [[Hc Hn0]|Hnil].
  - eapply wp_mono; [apply (promote_run now a ready _ He Hready _ pn n0 Hi4); [apply (wk_range _ _ _ _ _ Hw2)|done|done|apply (wk_pending _ _ _ _ _ Hw2)]|]. intros [] p3 (pn3 & Hi5 & HR5 & F5 & Q5 & L5).
    eapply wp_mono; [eapply (promote_end pn3 a l3 p p3)|intros [] p4 [? ?]; split; eauto]. constructor; [done|rewrite Q5; cbn; by rewrite lookup_insert_eq|done|done|].
    etrans; [apply Hw2|]. etrans; [|exact L5]. by split.
  - rewrite Hnil. apply wp_ret. eapply wp_mono; [eapply (promote_end pn a l3 p)|intros [] p4 [? ?]; split; eauto]. apply Hk4; try done. rewrite Hnil in Hi4. done.
Qed.

End Promote.
End Spec.
