(* ===== verification/TxPoolReach.v ===== *)
(** * The pools that can be reached

    The methods of the pool and a new head of the chain, in any order: nothing
    panics, the pool stays well-formed, and as long as no reorganisation puts
    transactions back, the pending transactions of every account can be executed
    one after the other, from the nonce of the account.  The first part is about
    the limits: when there are too many transactions, those of remote accounts
    are dropped, of the accounts with the most pending ones until they are as
    short as the next, and of those that were silent in the queue. *)

From S2P Require Import Prelude Types Interfaces Rlp Trie HeaderHash State StateSpec GoMath Vm VmPrecompiled VmLaws Transition Tx Block GoHeap TxList TxListSpec TxPool TxPoolInv TxPoolSpec.
From stdpp Require Import functions base tactics option list numbers sorting gmap.
From Stdlib Require Import ZArith Lia.

#[local] Open Scope Z_scope.

(** ** Rounding *)

Lemma float32_exact n : 0 ≤ n < 2 ^ 24 → float32 n = n.
Proof.
  intros Hn. unfold float32, round_to. destruct (Z.leb_spec (Z.log2 n + 1 - 24) 0); [done|]. assert (24 ≤ Z.log2 n) as Hl by lia.
  assert (2 ^ 24 ≤ n); [|lia]. apply Z.log2_le_pow2; [|done]. destruct (decide (n = 0)) as [->|]; [cbn in Hl; lia|lia].
Qed.

(** ** Lengths *)

Lemma list_Len_nonces l : list_Len l = Z.of_nat (length (nonces (txs_of l))).
Proof. unfold list_Len, sorted.Len. by rewrite size_nonces. Qed.

Lemma without_last items ns n : nonces items = ns ++ [n] → without [n] items = cut n items ∧ nonces (cut n items) = ns ∧ is_Some (items !! n).
Proof.
  intros E. pose proof (nonces_sorted items) as Hs. pose proof (NoDup_nonces items) as Hnd. rewrite E in Hs, Hnd. apply NoDup_app in Hnd as (Hnd & Hd & _).
  assert (∀ k, k ∈ ns → k < n) as Hlt.
  { intros k Hk. pose proof (sorted_app _ _ _ _ Hs Hk ltac:(by left)). assert (k ≠ n) by (intros ->; eapply Hd; [done|by left]). lia. }
  assert (without [n] items = cut n items) as Ew.
  { apply map_eq. intros k. rewrite lookup_without, lookup_cut. destruct (items !! k) as [t|] eqn:Ek; [|by repeat case_decide].
    assert (k ∈ nonces items) as Hk by (apply elem_of_nonces; eauto). rewrite E in Hk. apply elem_of_app in Hk as [Hk| ->%list_elem_of_singleton].
    - rewrite decide_False, decide_True; [done|by apply Hlt|]. intros ->%list_elem_of_singleton. specialize (Hlt _ Hk). lia.
    - rewrite decide_True, decide_False; [done|lia|by left]. }
  split; [done|]. split.
  - rewrite <- Ew, nonces_without, E, filter_app. rewrite filter_all, filter_none, app_nil_r; [done|set_solver|]. intros k Hk ->%list_elem_of_singleton. specialize (Hlt _ Hk). lia.
  - apply elem_of_nonces. rewrite E. set_solver.
Qed.

Section Limits.
Context `{HK : Keccak, HP : EvmCrypto, HS : StateOps, HL : !StateLaws HS}.
Context (w : world) (N : nat) (R : Address → txmap → Z → Prop).

(** The number of pending transactions of an account. *)
Definition plen (p : TxPool) (a : Address) : option Z := list_Len <$> p_pending p !! a.

Lemma pending_size pn busy F p a : inv w N R pn busy F p → (length (nonces (pend p a)) ≤ N)%nat.
Proof.
  intros Hi. etrans; [|apply Hi]. pose proof (lists_keyed _ _ _ a (i_pending _ _ _ _ _ _ _ Hi)) as Hk. change (from_option _ _ _) with (pend p a) in Hk.
  assert (∀ t, t ∈ flat (pend p a) → p_all p !! hash_of t = Some t) as Hin.
  { intros t Ht%flat_elem; [|done]. by destruct (i_listed _ _ _ _ _ _ _ Hi _ _ _ (or_introl Ht)). }
  assert (NoDup (hash_of <$> flat (pend p a))) as Hnd.
  { apply NoDup_fmap_2_strong; [|by apply NoDup_flat]. intros t1 t2 H1%Hin H2%Hin E. rewrite E in H1. congruence. }
  rewrite <- (nonces_items (pend p a)) by done. change (at_nonces _ _) with (flat (pend p a)). rewrite <- (length_fmap hash_of).
  rewrite <- length_map_to_list, <- (length_fmap fst (map_to_list _)). apply submseteq_length, NoDup_submseteq; [done|].
  intros h (t & -> & Ht)%list_elem_of_fmap. apply list_elem_of_fmap. exists (hash_of t, t). split; [done|]. apply elem_of_map_to_list. by apply Hin.
Qed.

Lemma plen_bound pn busy F p a n : inv w N R pn busy F p → plen p a = Some n → 0 ≤ n ≤ Z.of_nat N.
Proof.
  intros Hi E. unfold plen in E. pose proof (pending_size _ _ _ _ a Hi) as Hs. unfold pend in Hs. destruct (p_pending p !! a) as [l|]; [|done]. cbn in *.
  injection E as <-. rewrite list_Len_nonces. lia.
Qed.

(** ** Dropping the last of an account *)

Definition dropped (a : Address) (p p' : TxPool) : Prop :=
  (∃ pn, inv w N R pn None [] p') ∧ later p p' ∧ p_queue p' = p_queue p ∧
  ∀ b, plen p' b = if decide (a = b) then (fun n => n - 1) <$> plen p b else plen p b.

Lemma cap_one_spec pn p a n : range R → inv w N R pn None [] p → plen p a = Some n → 2 ≤ n → wp (cap_one a) (fun _ p' => dropped a p p') p.
Proof.
  intros HRg Hi En Hn. unfold plen in En. destruct (p_pending p !! a) as [l|] eqn:El; [|done]. injection En as <-.
  destruct (i_pending _ _ _ _ _ _ _ Hi a l El) as (Ho & Hst & _). assert (pend p a = txs_of l) as Epa by (unfold pend; by rewrite El).
  unfold cap_one. apply wp_bind, wp_gets, wp_bind. eapply wp_lift; [by rewrite El|]. rewrite list_Len_nonces in *.
  assert (∃ ns k, nonces (txs_of l) = ns ++ [k]) as (ns & k & Ens) by (clear -Hn; revert Hn; generalize (nonces (txs_of l)); intros ns; induction ns as [|k ns _] using rev_ind; intros; [cbn in *; lia|eauto]).
  rewrite Ens in Hn |- *. rewrite length_app in Hn |- *. cbn [length] in Hn |- *.
  destruct (without_last _ _ _ Ens) as (Ecut & Ens' & [t Et]). replace (Z.of_nat (length ns + 1) - 1) with (Z.of_nat (length ns)) by lia.
  destruct (list_Cap_spec (length ns) l Ho) as (l' & out & E & (Ho' & Hst' & Et' & Hlv) & Eout). rewrite Ens, drop_app_length in Et', Eout, Hlv.
  rewrite Ecut in Et', Hlv. cbn in Eout. rewrite Et in Eout. cbn in Eout. subst out. apply wp_bind. eapply wp_lift; [exact E|]. apply wp_bind, wp_modify.
  cbn [each fmap list_fmap]. pose proof (txs_keyed _ Ho _ _ Et) as Ekn. cbn in Ekn.
  pose proof (inv_take_pending w N R _ _ _ _ _ [t] (inv_start _ _ _ _ a _ Hi) Ho' ltac:(congruence) ltac:(rewrite Epa, Et'; done)) as Hi2.
  apply inv_forget_flying in Hi2. apply wp_bind, wp_bind. eapply wp_lift; [done|]. apply wp_bind, wp_forget. eapply wp_lower_nonce; [|exact Hi2|].
  { rewrite Ekn. apply (lo_width _ Ho _ _ Et). }
  intros ms Hi3. apply wp_ret. set (p' := set_managed ms _) in *. assert (p_pending p' = <[a := l']> (p_pending p)) as Ep by done.
  split; [eexists|split; [|split; [done|]]].
  - eapply inv_finish; [exact Hi3|..].
    + intros l2. rewrite Ep, lookup_insert_eq. intros [= <-] He. rewrite Et' in He. assert (ns = []) as -> by (by rewrite <- Ens', He). cbn in Hn. lia.
    + intros l2 E2. by destruct (i_queue _ _ _ _ _ _ _ Hi a l2 E2) as (_ & _ & H); apply H.
    + rewrite fn_lookup_insert, Ekn. unfold pend. rewrite Ep, lookup_insert_eq. cbn. rewrite Et', <- Epa. apply HRg; [by apply (i_range _ _ _ _ _ _ _ Hi)|]. rewrite Epa. by eexists.
  - split; try done. cbn. apply delete_subseteq.
  - intros b. unfold plen. rewrite Ep, lookup_insert. case_decide as Hd; [|done]. subst b. rewrite El. cbn. rewrite !list_Len_nonces, Et', Ens', Ens, length_app. cbn. f_equal. lia.
Qed.

(** ** Shortening the longest *)

(** Between steps of the loops over offenders. *)
Definition steady (p0 p : TxPool) : Prop := (∃ pn, inv w N R pn None [] p) ∧ later p0 p ∧ p_queue p = p_queue p0.

Lemma steady_dropped a p0 p p' : steady p0 p → dropped a p p' → steady p0 p'.
Proof. intros (_ & L & Q) (H & L' & Q' & _). split; [done|]. split; [by transitivity p|congruence]. Qed.

Lemma cap_each_spec p0 offenders : range R → ∀ p pending, steady p0 p → NoDup offenders → (∀ a, a ∈ offenders → ∃ n, plen p a = Some n ∧ 2 ≤ n) →
  wp (cap_each offenders pending) (fun _ p' => steady p0 p' ∧
    ∀ b, plen p' b = if decide (b ∈ offenders) then (fun n => n - 1) <$> plen p b else plen p b) p.
Proof.
  intros HRg. induction offenders as [|a offenders IH]; intros p pending Hs Hnd Hn; cbn [cap_each]; [by apply wp_ret|].
  apply NoDup_cons in Hnd as [Ha Hnd]. destruct (Hn a) as (n & En & Hn2); [by left|]. destruct Hs as ([pn Hi] & L & Q). apply wp_bind.
  eapply wp_mono; [by eapply (cap_one_spec pn p a n)|]. intros [] p1 Hd. pose proof (steady_dropped a p0 p p1 ltac:(split; [eauto|done]) Hd) as Hs1. destruct Hd as (_ & _ & _ & Hl).
  eapply wp_mono; [apply IH; [done|done|]|].
  - intros b Hb. rewrite Hl, decide_False by (intros ->; done). apply Hn. by right.
  - intros pending' p2 [Hs2 Hl2]. split; [done|]. intros b. rewrite Hl2, Hl. destruct (decide (a = b)) as [<-|Hne].
    + rewrite decide_False by done. by rewrite decide_True by (by left).
    + destruct (decide (b ∈ offenders)); [by rewrite decide_True by (by right)|by rewrite decide_False by set_solver].
Qed.

Lemma wp_pending_len p a n Q : plen p a = Some n → Q n p → wp (pending_len a) Q p.
Proof.
  unfold plen. intros E HQ. destruct (p_pending p !! a) as [l|] eqn:El; [|done]. injection E as <-. apply wp_bind, wp_gets, wp_bind. eapply wp_lift; [by rewrite El|]. by apply wp_ret.
Qed.

(** All offenders have lists of one length. *)
Definition level (p : TxPool) (offenders : list Address) (n : Z) : Prop := ∀ a, a ∈ offenders → plen p a = Some n.

Lemma penalize_spec p0 offenders slots threshold last : range R → 1 ≤ threshold → NoDup offenders → last ∈ offenders → ∀ fuel p n pending, steady p0 p → level p offenders n →
  n - threshold < Z.of_nat fuel →
  wp (penalize fuel slots threshold last offenders pending) (fun pending' p' => steady p0 p' ∧ (∀ b, b ∉ offenders → plen p' b = plen p b) ∧
    ∃ n', level p' offenders n' ∧ (pending' ≤ slots ∨ n' ≤ threshold) ∧ (threshold ≤ n' ∨ n' = n)) p.
Proof.
  intros HRg Ht Hnd Hlast. induction fuel as [|fuel IH]; intros p n pending Hs Hl Hf; cbn [penalize].
  { apply wp_ret. split; [done|]. split; [done|]. exists n. split; [done|]. split; [right; lia|by right]. }
  destruct (Z.ltb_spec slots pending) as [Hp|Hp]; [|apply wp_ret; split; [done|]; split; [done|]; exists n; eauto].
  apply wp_bind. eapply wp_pending_len; [by apply Hl|]. destruct (Z.ltb_spec threshold n) as [Hlt|Hge]; [|apply wp_ret; split; [done|]; split; [done|]; exists n; eauto].
  apply wp_bind. eapply wp_mono; [apply (cap_each_spec p0 offenders HRg p pending Hs Hnd)|].
  { intros a Ha. exists n. split; [by apply Hl|lia]. }
  intros pending1 p1 [Hs1 Hl1]. eapply wp_mono; [apply (IH p1 (n - 1) pending1 Hs1); [|lia]|].
  - intros a Ha. by rewrite Hl1, decide_True, (Hl a Ha).
  - intros pending2 p2 (Hs2 & Hb2 & n2 & Hl2 & Hc & Hd). split; [done|]. split; [intros b Hb; rewrite Hb2, Hl1, decide_False by done; done|].
    exists n2. split; [done|]. split; [done|]. destruct Hd as [?| ->]; [by left|left; lia].
Qed.

Lemma penalize_last_spec p0 offenders slots threshold last p n pending : range R → 1 ≤ threshold → NoDup offenders → last ∈ offenders → steady p0 p → level p offenders n →
  wp (penalize_last slots threshold last offenders pending) (fun pending' p' => steady p0 p' ∧ (∀ b, b ∉ offenders → plen p' b = plen p b) ∧
    ∃ n', level p' offenders n' ∧ (pending' ≤ slots ∨ n' ≤ threshold) ∧ (threshold ≤ n' ∨ n' = n)) p.
Proof.
  intros HRg Ht Hnd Hlast Hs Hl. apply wp_bind. eapply wp_pending_len; [by apply Hl|]. apply penalize_spec; try done. lia.
Qed.

(** ** The loop over spammers *)

Definition spammers_ok (p : TxPool) (spammers : list (Address * Z)) : Prop :=
  is_heap priority_key spammers ∧ NoDup spammers.*1 ∧ ∀ a f, (a, f) ∈ spammers → plen p a = Some f ∧ 2 ≤ f.

Lemma offend_spec p0 slots : range R → ∀ fuel p spammers offenders pending, steady p0 p → spammers_ok p spammers →
  NoDup offenders → (∀ a, a ∈ offenders → a ∉ spammers.*1) →
  (slots < pending → ∃ n, level p offenders n ∧ ∀ a f, (a, f) ∈ spammers → offenders ≠ [] → f ≤ n) →
  wp (offend fuel slots spammers offenders pending) (fun r p' => steady p0 p' ∧ NoDup r.2 ∧ (slots < r.1 → ∃ n, level p' r.2 n)) p.
Proof.
  intros HRg. induction fuel as [|fuel IH]; intros p spammers offenders pending Hs (Hh & Hnd & Hsp) Hno Hdis Hlv; cbn [offend].
  { apply wp_ret. split; [done|]. split; [done|]. intros H. destruct (Hlv H) as (n & ? & _). eauto. }
  destruct spammers as [|s0 spammers]; [apply wp_ret; split; [done|]; split; [done|]; intros H; destruct (Hlv H) as (n & ? & _); eauto|].
  destruct (Z.ltb_spec slots pending) as [Hp|Hp]; [|apply wp_ret; split; [done|]; split; [done|]; cbn; lia].
  destruct (Hlv Hp) as (n & Hl & Hle). destruct (Pop_spec priority_key (s0 :: spammers) s0 Hh eq_refl) as (rest & E & Hperm & Hh'). rewrite E. cbn [deref].
  apply wp_bind. eapply wp_lift; [done|]. destruct s0 as [x fx]. cbn [fst]. destruct (Hsp x fx) as [Ex Hfx]; [by left|].
  assert (∀ a f, (a, f) ∈ rest → (a, f) ∈ (x, fx) :: spammers) as Hrest by (intros a f Ha; rewrite Hperm; by right).
  assert (∀ a f, (a, f) ∈ rest → f ≤ fx) as Hmax.
  { intros a f Ha. pose proof (heap_min priority_key _ _ _ Hh eq_refl (Hrest _ _ Ha)) as Hm. unfold priority_key in Hm. cbn in Hm. lia. }
  pose proof Hnd as Hnd'. rewrite Hperm in Hnd'. cbn in Hnd'. apply NoDup_cons in Hnd' as [Hx Hnd'].
  assert (x ∉ offenders) as Hxo by (intros Hin; apply (Hdis x Hin); cbn; by left). apply wp_bind.
  assert (wp (match list.last offenders with
              | Some before => threshold ← pending_len x; penalize_last slots threshold before offenders pending
              | None => mret pending end)
    (fun pending' p' => steady p0 p' ∧ (∀ b, b ∉ offenders → plen p' b = plen p b) ∧ (slots < pending' → level p' offenders fx)) p) as Hwp.
  { destruct (list.last offenders) as [before|] eqn:Eb.
    - apply wp_bind. eapply wp_pending_len; [exact Ex|]. eapply wp_mono; [apply (penalize_last_spec p0 offenders slots fx before p n pending HRg)|]; try done; [lia|by apply last_Some_elem_of|].
      intros pending' p' (Hs' & Hb & n' & Hl' & Hc & Hd). split; [done|]. split; [done|]. intros Hsl. assert (fx ≤ n) as Hfn by (apply (Hle x fx); [by left|by intros ->]).
      assert (n' = fx) as <- by lia. done.
    - apply last_None in Eb as ->. apply wp_ret. split; [done|]. split; [done|]. intros _ a Ha. by apply elem_of_nil in Ha. }
  eapply wp_mono; [exact Hwp|]. clear Hwp. intros pending' p' (Hs' & Hb & Hl'). apply IH; [done|..].
  - split; [done|]. split; [done|]. intros a f Ha. destruct (Hsp a f (Hrest _ _ Ha)) as [Ea Hf]. split; [|done]. rewrite Hb; [done|]. intros Hin.
    apply (Hdis a Hin). apply list_elem_of_fmap. exists (a, f). split; [done|]. by apply Hrest.
  - apply NoDup_app. split; [done|]. split; [|apply NoDup_singleton]. intros a Ha ->%list_elem_of_singleton. done.
  - intros a [Ha| ->%list_elem_of_singleton]%elem_of_app; [|done]. intros Hin. apply (Hdis a Ha). rewrite Hperm. cbn. by right.
  - intros Hsl. exists fx. split; [|intros a f Ha _; by eapply Hmax]. intros a [Ha| ->%list_elem_of_singleton]%elem_of_app; [by apply Hl'|]. by rewrite Hb.
Qed.

Context (visit : list Address → list Address) (visit_perm : ∀ l, visit l ≡ₚ l).

Lemma find_spammers_ok pn p : Z.of_nat N < 2 ^ 24 → inv w N R pn None [] p → spammers_ok p (find_spammers visit p).
Proof.
  intros HN Hi. unfold find_spammers. pose proof (i_config _ _ _ _ _ _ _ Hi) as [Hslots _].
  assert (∀ keys acc, NoDup keys → (∀ a, a ∈ keys → a ∉ acc.*1) → spammers_ok p acc →
    spammers_ok p (foldl (fun spammers addr => match p_pending p !! addr with
      | Some l => if negb (is_local addr p) && (AccountSlots (p_config p) <? list_Len l) then Push priority_key (addr, float32 (list_Len l)) spammers else spammers
      | None => spammers end) acc keys)) as Hgen.
  { induction keys as [|a keys IH]; intros acc Hnd Hdis (Hh & Hna & Hsp); [done|]. apply NoDup_cons in Hnd as [Ha Hnd]. cbn [foldl].
    destruct (p_pending p !! a) as [l|] eqn:El; [|apply IH; [done|intros b Hb; apply Hdis; by right|done]].
    destruct (negb (is_local a p) && (AccountSlots (p_config p) <? list_Len l)) eqn:Eb; [|apply IH; [done|intros b Hb; apply Hdis; by right|done]].
    apply andb_prop in Eb as [_ Hlt%Z.ltb_lt]. destruct (Push_spec priority_key (a, float32 (list_Len l)) acc Hh) as [Hp Hh'].
    assert (plen p a = Some (list_Len l)) as Epl by (unfold plen; by rewrite El). pose proof (plen_bound _ _ _ _ _ _ Hi Epl) as Hb.
    rewrite float32_exact in * by lia. apply IH; [done|..].
    - intros b Hb2. rewrite Hp. cbn. intros [->|Hin]%elem_of_cons; [done|]. by apply (Hdis b ltac:(by right)).
    - split; [done|]. split; [rewrite Hp; cbn; apply NoDup_cons; split; [apply Hdis; by left|done]|].
      intros b f. rewrite Hp. intros [[= -> ->]|Hin]%elem_of_cons; [split; [done|lia]|by apply Hsp]. }
  apply Hgen; [rewrite visit_perm; apply NoDup_fst_map_to_list|intros a _ Hn; by apply elem_of_nil in Hn|].
  split; [intros ? ? _ _ H; cbn in H; lia|]. split; [constructor|]. intros a f Hn. by apply elem_of_nil in Hn.
Qed.

Lemma limit_pending_spec pn p : range R → Z.of_nat N < 2 ^ 24 → inv w N R pn None [] p → wp (limit_pending visit) (fun _ p' => steady p p') p.
Proof.
  intros HRg HN Hi. assert (steady p p) as Hs by (split; [eauto|done]). unfold limit_pending. apply wp_bind, wp_gets, wp_bind, wp_gets.
  destruct (_ <? _); [|by apply wp_ret]. apply wp_bind, wp_gets, wp_bind.
  eapply wp_mono; [apply (offend_spec p (GlobalSlots (p_config p)) HRg (length (find_spammers visit p)) p (find_spammers visit p) [] _ Hs); [by eapply find_spammers_ok|constructor|..]|].
  - intros a Ha. by apply elem_of_nil in Ha.
  - intros _. exists 0. split; [intros a Ha; by apply elem_of_nil in Ha|done].
  - intros [pending offenders] p1 (Hs1 & Hnd & Hl). cbn [fst snd] in *. destruct (list.last offenders) as [before|] eqn:Eb; [|by apply wp_ret].
    destruct (Z.ltb_spec (GlobalSlots (p_config p)) pending) as [Hlt|]; [|by apply wp_ret]. destruct (Hl Hlt) as [n Hn]. apply wp_bind.
    destruct Hs1 as ([pn1 Hi1] & L1 & Q1). pose proof (i_config _ _ _ _ _ _ _ Hi1) as [Hslots _]. rewrite (la_config _ _ L1) in Hslots.
    eapply wp_mono; [apply (penalize_last_spec p offenders _ (AccountSlots (p_config p)) before p1 n pending HRg); [done|done|by apply last_Some_elem_of|split; [eauto|done]|done]|].
    intros ? p2 (Hs2 & _). by apply wp_ret.
Qed.

(** ** The queue *)

Lemma inv_flatten_queue pn p a l l' : inv w N R pn None [] p → p_queue p !! a = Some l → list_ok l' → tl_strict l' = tl_strict l → txs_of l' = txs_of l →
  inv w N R pn None [] (set_queue (<[a := l']> (p_queue p)) p).
Proof.
  intros Hi El Ho Hs Et. destruct (i_queue _ _ _ _ _ _ _ Hi a l El) as (_ & Hst & Hne). assert (que p a = txs_of l) as Eq by (unfold que; by rewrite El).
  pose proof (inv_take_queue w N R _ _ _ _ l' [] (inv_start _ _ _ _ a _ Hi) Ho ltac:(congruence) ltac:(apply leaves_nothing; congruence)) as Hi2.
  eapply inv_finish; [exact Hi2|..].
  - intros l2 E2. by destruct (i_pending _ _ _ _ _ _ _ Hi a l2 E2) as (_ & _ & H); apply H.
  - intros l2. cbn. rewrite lookup_insert_eq. intros [= <-]. rewrite Et. by apply Hne.
  - by apply (i_range _ _ _ _ _ _ _ Hi).
Qed.

(** Removing transactions of the account [a] from its queue. *)
Definition swept (a : Address) (p p' : TxPool) : Prop :=
  (∃ pn, inv w N R pn None [] p') ∧ later p p' ∧ ∀ b, b ≠ a → same_at b p p'.

Lemma swept_trans a p1 p2 p3 : swept a p1 p2 → swept a p2 p3 → swept a p1 p3.
Proof. intros (_ & L1 & S1) (H & L2 & S2). split; [done|]. split; [by transitivity p2|]. intros b Hb. destruct (S1 b Hb), (S2 b Hb). split; congruence. Qed.

(** Transactions that, if they are known, are those of [a]. *)
Definition theirs (a : Address) (p : TxPool) (txs : list Transaction) : Prop :=
  ∀ tx t, tx ∈ txs → p_all p !! hash_of tx = Some t → sender_of (p_signer p) t = Ok a.

Lemma remove_theirs a txs pn p : range R → inv w N R pn None [] p → theirs a p txs → wp (each (fun tx => removeTx (hash_of tx)) txs) (fun _ p' => swept a p p') p.
Proof.
  intros HRg Hi Ht. eapply wp_mono; [by apply (remove_all_spec w N R txs HRg pn)|]. intros [] p' (H1 & H2 & H3). split; [done|]. split; [done|].
  intros b Hb. apply H3. intros tx t Hin Hk Hs. pose proof (Ht tx t Hin Hk). congruence.
Qed.

Lemma drop_last_spec a txs : range R → ∀ pn p drop, inv w N R pn None [] p → theirs a p txs → wp (drop_last txs drop) (fun _ p' => swept a p p') p.
Proof.
  intros HRg. induction txs as [|tx txs IH]; intros pn p drop Hi Ht; cbn [drop_last]; [apply wp_ret; split; [eauto|done]|].
  destruct (0 <? drop); [|apply wp_ret; split; [eauto|done]]. apply wp_bind. eapply wp_mono; [by apply (removeTx_spec w N R pn)|].
  intros [] p1 H1. assert (swept a p p1) as Hsw.
  { destruct H1 as [[_ ->]|(t & b & Hk & Hs & [n Hi1] & L1 & S1)]; [split; [eauto|done]|]. split; [eauto|]. split; [done|].
    assert (b = a) as -> by (pose proof (Ht tx t ltac:(by left) Hk); congruence). done. }
  pose proof Hsw as ([pn1 Hi1] & L1 & _). eapply wp_mono; [eapply (IH pn1 p1); [done|]|].
  - intros tx' t Hin Hk. rewrite (la_signer _ _ L1). eapply Ht; [by right|]. eapply lookup_weaken; [done|apply L1].
  - intros drop' p2 H2. by eapply swept_trans.
Qed.

Lemma flat_theirs pn p a l : inv w N R pn None [] p → p_queue p !! a = Some l → theirs a p (flat (txs_of l)).
Proof.
  intros Hi El tx t Hin Hk. destruct (i_queue _ _ _ _ _ _ _ Hi a l El) as (Ho & _). apply flat_elem in Hin; [|by apply txs_keyed].
  assert (que p a !! tx_Nonce tx = Some tx) as Hq by (unfold que; by rewrite El). destruct (i_listed _ _ _ _ _ _ _ Hi _ _ _ (or_intror Hq)) as [Hs Hk']. congruence.
Qed.

Lemma evict_queued_spec addresses : range R → ∀ pn p drop, inv w N R pn None [] p → NoDup addresses.*1 → (∀ a, a ∈ addresses.*1 → is_Some (p_queue p !! a)) →
  wp (evict_queued addresses drop) (fun _ p' => (∃ pn', inv w N R pn' None [] p') ∧ later p p') p.
Proof.
  intros HRg. induction addresses as [|[a beat] addresses IH]; intros pn p drop Hi Hnd Hin; cbn [evict_queued]; [apply wp_ret; split; [eauto|done]|].
  cbn in Hnd. apply NoDup_cons in Hnd as [Ha Hnd]. destruct (0 <? drop); [|apply wp_ret; split; [eauto|done]]. destruct (Hin a) as [l El]; [cbn; by left|].
  apply wp_bind, wp_gets, wp_bind. eapply wp_lift; [by rewrite El|]. destruct (i_queue _ _ _ _ _ _ _ Hi a l El) as (Ho & _).
  destruct (list_Flatten_spec l Ho) as (l' & -> & Ho' & Hs' & Et'). apply wp_bind, wp_modify. pose proof (inv_flatten_queue pn p a l l' Hi El Ho' Hs' Et') as Hi1.
  set (p1 := set_queue _ p) in *. assert (theirs a p1 (flat (txs_of l))) as Hth.
  { rewrite <- Et'. eapply flat_theirs; [exact Hi1|]. cbn. by rewrite lookup_insert_eq. }
  assert (∀ p2 drop', swept a p1 p2 → wp (evict_queued addresses drop') (fun _ p' => (∃ pn', inv w N R pn' None [] p') ∧ later p p') p2) as Hnext.
  { intros p2 drop' ([pn2 Hi2] & L2 & S2). eapply wp_mono; [eapply (IH pn2 p2); [done|done|]|].
    - intros b Hb. assert (b ≠ a) as Hne by (intros ->; done). destruct (S2 b Hne) as [_ ->]. cbn. rewrite lookup_insert_ne by done. apply Hin. cbn. by right.
    - intros [] p3 [H3 L3]. split; [done|]. etrans; [|exact L3]. etrans; [|exact L2]. by split. }
  destruct (list_Len l <=? drop).
  - apply wp_bind. eapply wp_mono; [by eapply (remove_theirs a _ pn p1)|]. intros [] p2 H2. by apply Hnext.
  - apply wp_bind. eapply wp_mono; [eapply (drop_last_spec a _ HRg pn p1); [done|]|intros drop' p2 H2; by apply Hnext].
    intros tx t Hin2. apply Hth. by rewrite elem_of_reverse in Hin2.
Qed.

Lemma limit_queue_spec pn p : range R → inv w N R pn None [] p → wp (limit_queue visit) (fun _ p' => (∃ pn', inv w N R pn' None [] p') ∧ later p p') p.
Proof.
  intros HRg Hi. unfold limit_queue. apply wp_bind, wp_gets, wp_bind, wp_gets. destruct (_ <? _); [|apply wp_ret; split; [eauto|done]].
  apply wp_bind, wp_gets. set (addrs := filter (fun addr => is_local addr p = false) (visit (map_to_list (p_queue p)).*1)).
  assert ((reverse (by_heartbeat visit p)).*1 ≡ₚ addrs) as Hp.
  { rewrite reverse_Permutation. unfold by_heartbeat. rewrite merge_sort_Permutation. fold addrs. rewrite <- list_fmap_compose. cbn. by rewrite list_fmap_id. }
  eapply evict_queued_spec; [done|done|..].
  - rewrite Hp. apply NoDup_filter. rewrite visit_perm. apply NoDup_fst_map_to_list.
  - intros a. rewrite Hp. intros [_ Ha]%list_elem_of_filter. rewrite visit_perm in Ha. apply list_elem_of_fmap in Ha as ([b l] & -> & E%elem_of_map_to_list). by eexists.
Qed.

Lemma each_promote now accounts : ∀ pn p, extends w R (p_currentMaxGas p) → inv w N R pn None [] p →
  wp (each (promote_account now) accounts) (fun _ p' => (∃ pn', inv w N R pn' None [] p') ∧ later p p') p.
Proof.
  induction accounts as [|a accounts IH]; intros pn p He Hi; cbn [each]; [apply wp_ret; split; [eauto|done]|].
  apply wp_bind. eapply wp_mono; [by apply (promote_account_spec w N R now a pn)|]. intros [] p1 [[pn1 Hi1] L1].
  eapply wp_mono; [apply (IH pn1); [by rewrite (la_maxGas _ _ L1)|done]|]. intros [] p2 [H2 L2]. split; [done|by transitivity p1].
Qed.

Lemma promoteExecutables_spec now accounts pn p : range R → extends w R (p_currentMaxGas p) → Z.of_nat N < 2 ^ 24 → inv w N R pn None [] p →
  wp (promoteExecutables visit now accounts) (fun _ p' => (∃ pn', inv w N R pn' None [] p') ∧ later p p') p.
Proof.
  intros HRg He HN Hi. unfold promoteExecutables. apply wp_bind, wp_gets, wp_bind. eapply wp_mono; [by apply (each_promote now _ pn)|].
  intros [] p1 [[pn1 Hi1] L1]. apply wp_bind. eapply wp_mono; [by apply (limit_pending_spec pn1)|]. intros [] p2 ([pn2 Hi2] & L2 & _).
  eapply wp_mono; [by apply (limit_queue_spec pn2)|]. intros [] p3 [H3 L3]. split; [done|]. transitivity p1; [done|]. by transitivity p2.
Qed.

End Limits.

Section Reach.
Context `{HK : Keccak, HP : EvmCrypto, HS : StateOps, HL : !StateLaws HS}.
Context (visit : list Address → list Address) (visit_perm : ∀ l, visit l ≡ₚ l).

(** ** Ranges of nonces *)

(** Nothing is said. *)
Definition any_range (a : Address) (m : txmap) (k : Z) : Prop := True.

(** No gap. *)
Definition gap_range (a : Address) (m : txmap) (k : Z) : Prop := gapless m.

(** Exactly the nonces from that of the account to the managed one, and every
    transaction can be paid for and fits into a block. *)
Definition exec_range (w : world) (g : Z) (a : Address) (m : txmap) (k : Z) : Prop :=
  (w_nonce a w ≤ k ∧ ∀ n, is_Some (m !! n) ↔ w_nonce a w ≤ n < k) ∧ map_Forall (fun _ tx => payable w g a tx) m.

Lemma any_range_ok w g : range any_range ∧ replaces w any_range g ∧ extends w any_range g.
Proof. done. Qed.

Lemma exec_range_ok w g : range (exec_range w g) ∧ replaces w (exec_range w g) g ∧ extends w (exec_range w g) g.
Proof.
  split; [|split].
  - intros a m k n [[Hk Hm] Hpay] Hn. split; [|intros j t; rewrite lookup_cut; case_decide; [apply Hpay|done]]. pose proof (proj1 (Hm n) Hn) as Hb. destruct (Z.ltb_spec n k); [|lia]. split; [lia|]. intros j. rewrite lookup_cut.
    case_decide; [rewrite Hm; lia|]. split; [by intros [? ?]|lia].
  - intros a tx Hp m k n [[Hk Hm] Hpay] Hn. split; [|by apply map_Forall_insert_2]. split; [done|]. intros j. rewrite <- Hm, lookup_insert. case_decide; [subst; split; [done|by eexists]|done].
  - intros a m k n tx [[Hk Hm] Hpay] Hn Hb Hp. split; [|by apply map_Forall_insert_2]. assert (n = k) as ->.
    { destruct (decide (n < k)) as [Hlt|]; [|lia]. destruct (proj2 (Hm n)) as [t Ht]; [lia|congruence]. }
    split; [lia|]. intros j. rewrite lookup_insert. case_decide; [subst; split; [lia|by eexists]|]. rewrite Hm. lia.
Qed.

(** The parts of a pool that no method but [reset] changes. *)
Definition fixed (p p' : TxPool) : Prop := p_signer p' = p_signer p ∧ p_config p' = p_config p ∧ p_currentMaxGas p' = p_currentMaxGas p.

#[local] Instance fixed_preorder : PreOrder fixed.
Proof. split; [by intros p|]. intros p1 p2 p3 (? & ? & ?) (? & ? & ?). split; [congruence|]. split; congruence. Qed.

Lemma later_fixed p p' : later p p' → fixed p p'.
Proof. by intros []. Qed.

Section World.
Context (w : world) (R : Address → txmap → Z → Prop) (g : Z) (HR : range R) (HRep : replaces w R g) (HE : extends w R g).

(** ** Adding *)

Notation ok N p := (∃ pn, inv w N R pn None [] p).

Lemma addTx_spec N p now tx local : p_currentMaxGas p = g → Z.of_nat (S N) < 2 ^ 24 → ok N p → incoming (p_signer p) tx →
  wp (addTx visit now tx local) (fun _ p' => ok (S N) p' ∧ fixed p p') p.
Proof.
  intros Hg HN [pn Hi] Hin. apply wp_bind. eapply wp_mono; [apply (pool_add_spec w R N pn p tx local HR); by rewrite ?Hg|].
  intros r p1 ([pn1 Hi1] & S1 & C1 & M1 & Hv). assert (fixed p p1) as Hf by done. destruct r as [[]|e]; [apply wp_ret; eauto| |apply wp_ret; eauto].
  destruct (Hv false eq_refl) as (a & Hs & _). apply wp_bind. eapply wp_sender; [by rewrite S1|]. apply wp_bind.
  eapply wp_mono; [apply (promoteExecutables_spec w (S N) R visit visit_perm now (Some [a]) pn1); by rewrite ?M1, ?Hg|]. intros [] p2 [H2 L2]. apply wp_ret. split; [done|].
  etrans; [done|by apply later_fixed].
Qed.

Lemma add_all_spec local txs : ∀ N p dirty, p_currentMaxGas p = g → ok N p → Forall (incoming (p_signer p)) txs →
  wp (add_all txs local dirty) (fun _ p' => ok (N + length txs)%nat p' ∧ fixed p p') p.
Proof.
  induction txs as [|tx txs IH]; intros N p dirty Hg [pn Hi] Hin; cbn [add_all]; [apply wp_ret; split; [|done]; rewrite Nat.add_0_r; eauto|].
  apply Forall_cons in Hin as [Ht Hin]. apply wp_bind. eapply wp_mono; [apply (pool_add_spec w R N pn p tx local HR); by rewrite ?Hg|].
  intros r p1 (H1 & S1 & C1 & M1 & Hv). assert (fixed p p1) as Hf by done. cbn [length]. rewrite <- Nat.add_succ_comm.
  assert (∀ dirty' e, wp ('(errs, dirty) ← add_all txs local dirty'; mret (e :: errs, dirty)) (fun _ p' => ok (S N + length txs)%nat p' ∧ fixed p p') p1) as Hrest.
  { intros dirty' e. apply wp_bind. eapply wp_mono; [apply (IH (S N) p1 dirty'); [congruence|done|by rewrite S1]|]. intros [errs d] p2 [H2 F2]. apply wp_ret. split; [done|by etrans]. }
  destruct r as [[]|e]; [apply Hrest| |apply Hrest]. destruct (Hv false eq_refl) as (a & Hs & _). apply wp_bind. eapply wp_sender; [by rewrite S1|]. apply Hrest.
Qed.

Lemma addTxs_spec N p now txs local : p_currentMaxGas p = g → Z.of_nat (N + length txs) < 2 ^ 24 → ok N p → Forall (incoming (p_signer p)) txs →
  wp (addTxsLocked visit now txs local) (fun _ p' => ok (N + length txs)%nat p' ∧ fixed p p') p.
Proof.
  intros Hg HN Hi Hin. apply wp_bind. eapply wp_mono; [by apply (add_all_spec local txs N p ∅)|]. intros [errs dirty] p1 [[pn1 Hi1] F1]. pose proof F1 as (_ & _ & M1). apply wp_bind.
  case_bool_decide; [apply wp_ret, wp_ret; eauto|]. eapply wp_mono; [apply (promoteExecutables_spec w (N + length txs) R visit visit_perm now (Some (visit (elements dirty))) pn1); by rewrite ?M1, ?Hg|].
  intros [] p2 [H2 L2]. apply wp_ret. split; [done|]. etrans; [done|by apply later_fixed].
Qed.

Lemma addTxs_nil now local Q p : Q [] p → wp (addTxsLocked visit now [] local) Q p.
Proof. intros HQ. exists p, []. split; [|done]. reflexivity. Qed.

(** ** Prices and time *)

Lemma SetGasPrice_spec N p price : ok N p → wp (SetGasPrice price) (fun _ p' => ok N p' ∧ fixed p p') p.
Proof.
  intros [pn Hi]. unfold SetGasPrice. apply wp_bind, wp_modify, wp_bind, wp_gets, wp_bind, wp_gets, wp_bind, wp_gets.
  destruct (priced_Cap_ok (p_signer p) (p_all p) price (p_locals p) (p_priced p)) as (l & drop & E & Hl); [apply Hi|apply Hi|].
  apply wp_bind. eapply wp_lift; [exact E|]. apply wp_bind, wp_modify. set (q := set_priced l _). assert (inv w N R pn None [] q) as Hq by (eapply inv_same; [exact Hi|done..]).
  eapply wp_mono; [by apply (remove_all_spec w N R drop HR pn q)|]. intros [] p' (H1 & H2 & _). split; [done|]. apply later_fixed in H2. by etrans; [|exact H2].
Qed.

Lemma evict_account_spec N p now a : ok N p → wp (evict_account now a) (fun _ p' => ok N p' ∧ later p p') p.
Proof.
  intros [pn Hi]. unfold evict_account. apply wp_bind, wp_gets. destruct (is_local a p); [apply wp_ret; split; [eauto|done]|].
  apply wp_bind, wp_gets, wp_bind, wp_gets. destruct (_ <? _); [|apply wp_ret; split; [eauto|done]]. apply wp_bind, wp_gets.
  destruct (p_queue p !! a) as [l|] eqn:El; [|apply wp_ret; split; [eauto|done]]. destruct (i_queue _ _ _ _ _ _ _ Hi a l El) as (Ho & _).
  destruct (list_Flatten_spec l Ho) as (l' & -> & Ho' & Hs' & Et'). apply wp_bind, wp_modify. pose proof (inv_flatten_queue w N R pn p a l l' Hi El Ho' Hs' Et') as Hi1.
  eapply wp_mono; [by apply (remove_all_spec w N R _ HR pn)|]. intros [] p' (H1 & H2 & _). split; [done|]. etrans; [|exact H2]. by split.
Qed.

Lemma evict_spec N p now : ok N p → wp (evict visit now) (fun _ p' => ok N p' ∧ fixed p p') p.
Proof.
  intros Hi. unfold evict. apply wp_bind, wp_gets. generalize (visit (map_to_list (p_queue p)).*1). intros accounts.
  eapply wp_mono; [apply (wp_each _ (fun _ p' => ok N p' ∧ fixed p p'))|]; [|done|by intros [] p'].
  intros a l q [Hq Fq]. eapply wp_mono; [by apply evict_account_spec|]. intros [] p' [H1 H2]. split; [done|]. etrans; [done|by apply later_fixed].
Qed.

(** ** Reading *)

Lemma inv_relist N pn p p' : inv w N R pn None [] p → lists_ok true None (p_pending p') → lists_ok false None (p_queue p') → (∀ a, pend p' a = pend p a) → (∀ a, que p' a = que p a) →
  p_currentState p' = p_currentState p → p_pendingState p' = p_pendingState p → p_all p' = p_all p → p_signer p' = p_signer p → p_config p' = p_config p →
  p_locals p' = p_locals p → p_priced p' = p_priced p → inv w N R pn None [] p'.
Proof.
  intros [] Hp Hq Ep Eq E1 E2 E3 E4 E5 E6 E7. constructor; rewrite ?E1, ?E2, ?E3, ?E4, ?E5, ?E6, ?E7; try done.
  - intros a n tx. rewrite Ep, Eq. apply i_listed.
  - intros a n. rewrite Ep, Eq. apply i_disjoint.
  - intros a Ha. rewrite Ep. by apply i_range.
  - by intros tx ?%elem_of_nil.
Qed.

(** The lists with their caches filled. *)
Lemma flatten_lists strict lists : lists_ok strict None lists → lists_ok strict None (flatten_all lists).1 ∧
  (∀ a, from_option (fun l => txs_of l) ∅ ((flatten_all lists).1 !! a) = from_option (fun l => txs_of l) ∅ (lists !! a)) ∧
  ∀ a, (flatten_all lists).2 !! a = (fun l => flat (txs_of l)) <$> lists !! a.
Proof.
  intros Hl. unfold flatten_all. cbn [fst snd]. assert (∀ a l, lists !! a = Some l → ∃ l', list_Flatten l = (l', flat (txs_of l)) ∧ list_ok l' ∧ tl_strict l' = strict ∧ txs_of l' = txs_of l ∧ txs_of l ≠ ∅) as Hf.
  { intros a l E. destruct (Hl a l E) as (Ho & Hs & Hn). destruct (list_Flatten_spec l Ho) as (l' & E' & Ho' & Hs' & Et'). exists l'. split_and!; try done; [congruence|by apply Hn]. }
  split; [|split]; intros a; [intros l|..]; rewrite lookup_fmap; destruct (lists !! a) as [l0|] eqn:E; try done; destruct (Hf a l0 E) as (l' & E' & Ho' & Hs' & Et' & Hn);
    cbn [fmap option_fmap option_map from_option]; unfold compose; rewrite E'; cbn [fst snd].
  - intros [= <-]. split; [done|]. split; [done|]. by rewrite Et'.
  - done.
Qed.

Lemma Pending_spec N pn p : inv w N R pn None [] p → wp Pending (fun out p' => inv w N R pn None [] p' ∧ fixed p p' ∧
  ∀ a, out !! a = (fun l => flat (txs_of l)) <$> p_pending p !! a) p.
Proof.
  intros Hi. destruct (flatten_lists true _ (i_pending _ _ _ _ _ _ _ Hi)) as (H1 & H2 & H3). eexists _, _. split; [reflexivity|]. split; [|done].
  eapply inv_relist; try done; apply Hi.
Qed.

Lemma Content_spec N pn p : inv w N R pn None [] p → wp Content (fun out p' => inv w N R pn None [] p' ∧ fixed p p') p.
Proof.
  intros Hi. destruct (flatten_lists true _ (i_pending _ _ _ _ _ _ _ Hi)) as (H1 & H2 & _), (flatten_lists false _ (i_queue _ _ _ _ _ _ _ Hi)) as (H3 & H4 & _).
  eexists _, _. split; [reflexivity|]. split; [|done]. by eapply inv_relist.
Qed.

Lemma flatten_pending_spec N pn p a : inv w N R pn None [] p → wp (flatten_pending a) (fun txs p' => inv w N R pn None [] p' ∧ fixed p p' ∧ later p p' ∧
  txs = flat (pend p a) ∧ (∀ b, pend p' b = pend p b) ∧ (∀ b, is_Some (p_pending p' !! b) ↔ is_Some (p_pending p !! b))) p.
Proof.
  intros Hi. unfold flatten_pending. apply wp_bind, wp_gets. destruct (p_pending p !! a) as [l|] eqn:El; [|apply wp_ret; split_and!; try done; unfold pend; by rewrite El].
  destruct (i_pending _ _ _ _ _ _ _ Hi a l El) as (Ho & Hs & Hn). destruct (list_Flatten_spec l Ho) as (l' & -> & Ho' & Hs' & Et'). apply wp_bind, wp_modify, wp_ret.
  assert (∀ b, pend (set_pending (<[a := l']> (p_pending p)) p) b = pend p b) as Hpe.
  { intros b. rewrite pend_put. case_decide as Hd; [|done]. subst b. unfold pend. by rewrite El. }
  split_and!; try done.
  - eapply inv_relist; try done; [|apply Hi]. apply lists_insert; [apply Hi|done|congruence|]. rewrite Et'. by apply Hn.
  - unfold pend. by rewrite El.
  - intros b. cbn. rewrite lookup_insert. case_decide as Hd; [subst b; rewrite El; split; by eexists|done].
Qed.

Lemma flatten_queued_spec N pn p a : inv w N R pn None [] p → wp (flatten_queued a) (fun txs p' => inv w N R pn None [] p' ∧ fixed p p') p.
Proof.
  intros Hi. unfold flatten_queued. apply wp_bind, wp_gets. destruct (p_queue p !! a) as [l|] eqn:El; [|by apply wp_ret].
  destruct (i_queue _ _ _ _ _ _ _ Hi a l El) as (Ho & _). destruct (list_Flatten_spec l Ho) as (l' & -> & Ho' & Hs' & Et'). apply wp_bind, wp_modify, wp_ret.
  split; [by eapply inv_flatten_queue|done].
Qed.

Lemma local_txs_spec N pn accounts : ∀ p, inv w N R pn None [] p → wp (local_txs accounts) (fun txs p' => inv w N R pn None [] p' ∧ fixed p p') p.
Proof.
  induction accounts as [|a accounts IH]; intros p Hi; cbn [local_txs]; [by apply wp_ret|]. apply wp_bind. eapply wp_mono; [by apply flatten_pending_spec|].
  intros txs1 p1 (Hi1 & F1 & _). apply wp_bind. eapply wp_mono; [by apply flatten_queued_spec|]. intros txs2 p2 [Hi2 F2]. apply wp_bind.
  eapply wp_mono; [by apply IH|]. intros txs3 p3 [Hi3 F3]. apply wp_ret. split; [done|]. etrans; [exact F1|]. by etrans.
Qed.

Lemma rotate_spec N p : ok N p → wp (rotate_journal visit) (fun _ p' => ok N p' ∧ fixed p p') p.
Proof.
  intros [pn Hi]. unfold rotate_journal. apply wp_bind, wp_gets, wp_bind. eapply wp_mono; [by apply (local_txs_spec N pn)|]. intros txs p1 [Hi1 F1].
  apply wp_modify. split; [|by etrans; [exact F1|]]. exists pn. eapply inv_same; [exact Hi1|done..|apply Hi1].
Qed.

(** ** Demoting *)

Definition upper_part (items items' : txmap) : Prop :=
  ∀ j k, j ≤ k → is_Some (items' !! j) → is_Some (items !! k) → is_Some (items' !! k).

Definition demotable : Prop := ∀ a m m' k, R a m k → m' ⊆ m → upper_part m m' ∨ lower_part m m' → R a m' k.

(** Transactions of the account that start at its nonce and can be paid for. *)
Definition starts_with (gas : Z) (a : Address) (m : txmap) : Prop :=
  (∀ n, is_Some (m !! n) → w_nonce a w ≤ n ∧ is_Some (m !! w_nonce a w)) ∧ map_Forall (fun _ tx => payable w gas a tx) m.
Definition starts (a : Address) (p : TxPool) : Prop := starts_with (p_currentMaxGas p) a (pend p a).

Lemma starts_empty gas a : starts_with gas a ∅.
Proof. split; [|apply map_Forall_empty]. intros n. rewrite lookup_empty. by intros [? ?]. Qed.

(** In the middle of demoting: the pending list of the account is [l]. *)
Record dwork (N : nat) (pn : Address → Z) (a : Address) (l : txList) (F : list Transaction) (p0 p : TxPool) : Prop := {
  dw_inv : inv w N R pn (Some a) F p;
  dw_list : p_pending p !! a = Some l;
  dw_queue : filled a (p_queue p);
  dw_range : R a (txs_of l) (pn a);
  dw_later : later p0 p;
  dw_others : ∀ b, b ≠ a → p_pending p !! b = p_pending p0 !! b
}.

Lemma dwork_take N pn a l l' out F p0 p : demotable → dwork N pn a l F p0 p → takes l l' out (txs_of l') → upper_part (txs_of l) (txs_of l') ∨ lower_part (txs_of l) (txs_of l') →
  dwork N pn a l' (out ++ F) p0 (set_pending (<[a := l']> (p_pending p)) p).
Proof.
  intros Hd [] (Ho & Hs & _ & Hlv) Hpart. destruct (i_pending _ _ _ _ _ _ _ dw_inv0 a l dw_list0) as (_ & Hst & _). constructor.
  - apply inv_take_pending; [done|done|congruence|]. unfold pend. by rewrite dw_list0.
  - cbn. by rewrite lookup_insert_eq.
  - done.
  - eapply Hd; [done|apply Hlv|done].
  - etrans; [done|]. by split.
  - intros b Hb. cbn. rewrite lookup_insert_ne by done. by apply dw_others0.
Qed.

Lemma dwork_forget_opt N pn a l out F p0 p (Q : unit → TxPool → Prop) : dwork N pn a l (out ++ F) p0 p → (∀ p', dwork N pn a l F p0 p' → Q tt p') → wp (each forget_tx (Some <$> out)) Q p.
Proof.
  intros [] HQ. eapply wp_forget_all_opt; [done|]. intros p' Hi' E1 E2 _ _ L. apply HQ. constructor; rewrite ?E1, ?E2; try done. by etrans.
Qed.

Lemma dwork_forget N pn a l out F p0 p (Q : unit → TxPool → Prop) : dwork N pn a l (out ++ F) p0 p → (∀ p', dwork N pn a l F p0 p' → Q tt p') → wp (each (fun tx => forget (hash_of tx)) out) Q p.
Proof.
  intros [] HQ. eapply wp_forget_all; [done|]. intros p' Hi' E1 E2 _ _ L. apply HQ. constructor; rewrite ?E1, ?E2; try done. by etrans.
Qed.

Lemma dwork_requeue N pn a l out p0 p (Q : unit → TxPool → Prop) : dwork N pn a l out p0 p → (∀ p', dwork N pn a l [] p0 p' → Q tt p') → wp (each requeue out) Q p.
Proof.
  intros [] HQ. eapply wp_mono; [apply (requeue_all_spec w N R pn a [] out); [by rewrite app_nil_r|done]|]. intros [] p' (Hi' & E1 & _ & L & Q1 & F1).
  apply HQ. constructor; rewrite ?E1; try done. by etrans.
Qed.

Lemma dwork_requeue_opt N pn a l out p0 p (Q : unit → TxPool → Prop) : dwork N pn a l out p0 p → (∀ p', dwork N pn a l [] p0 p' → Q tt p') →
  wp (each (fun tx => tx ← lift (deref tx); requeue tx) (Some <$> out)) Q p.
Proof.
  intros Hw HQ. destruct (dwork_requeue N pn a l out p0 p Q Hw HQ) as (p' & u & E & H). exists p', u. split; [|done]. by rewrite each_deref.
Qed.

Lemma dwork_current N pn a l F p0 p s : inv w N R pn (Some a) F (set_current s p) → dwork N pn a l F p0 p → dwork N pn a l F p0 (set_current s p).
Proof. intros Hi []. constructor; try done. etrans; [done|]. by split. Qed.

Lemma dwork_end N pn a l p0 p : dwork N pn a l [] p0 p → starts_with (p_currentMaxGas p0) a (txs_of l) →
  wp (if list_Empty l then drop_pending a else mret tt) (fun _ p' => inv w N R pn None [] p' ∧ later p0 p' ∧ starts a p' ∧ ∀ b, b ≠ a → p_pending p' !! b = p_pending p0 !! b) p.
Proof.
  intros [] Hst. rewrite list_Empty_spec. destruct (bool_decide_reflect (txs_of l = ∅)) as [El|El].
  - apply wp_bind, wp_modify, wp_modify. assert (pend p a = ∅) as Hpe by (unfold pend; by rewrite dw_list0).
    pose proof (inv_drop_pending _ _ _ _ _ _ _ dw_inv0 Hpe) as Hi4. split_and!.
    + eapply inv_finish; [exact Hi4|..].
      * intros l2. cbn. by rewrite lookup_delete_eq.
      * done.
      * unfold pend. cbn. rewrite lookup_delete_eq. cbn. by rewrite <- El.
    + etrans; [done|]. by split.
    + unfold starts, pend. cbn. rewrite lookup_delete_eq. apply starts_empty.
    + intros b Hb. cbn. rewrite lookup_delete_ne by done. by apply dw_others0.
  - apply wp_ret. split_and!; try done.
    + eapply inv_finish; [done|..]; [intros l2; rewrite dw_list0; by intros [= <-]|done|]. unfold pend. by rewrite dw_list0.
    + unfold starts, pend. by rewrite dw_list0, (la_maxGas _ _ dw_later0).
Qed.

Lemma forward_upper items t : upper_part items (filter (fun ntx => ¬ ntx.1 < t) items).
Proof.
  intros j k Hjk [tx Hj] [tx' Hk]. apply map_lookup_filter_Some in Hj as [_ Hj]. cbn in Hj. exists tx'. apply map_lookup_filter_Some. split; [done|]. cbn. lia.
Qed.

(** What is left of a list after [Forward] and [Filter], or nothing. *)
Lemma demote_rest N pn a l nonce p0 p : demotable → nonce = w_nonce a w → dwork N pn a l [] p0 p → (∀ n, is_Some (txs_of l !! n) → nonce ≤ n) → map_Forall (fun _ tx => payable w (p_currentMaxGas p0) a tx) (txs_of l) →
  wp (list ← (if (0 <? list_Len l) && bool_decide (sorted.Get nonce (tl_txs l) = None) then
                '(list, drops) ← lift (list_Cap 0 l);
                put_pending a list;;
                each (fun tx => tx ← lift (deref tx); requeue tx) drops;;
                mret list
              else mret l);
      if list_Empty list then drop_pending a else mret tt)
    (fun _ p' => inv w N R pn None [] p' ∧ later p0 p' ∧ starts a p' ∧ ∀ b, b ≠ a → p_pending p' !! b = p_pending p0 !! b) p.
Proof.
  intros Hd -> Hw Hge Hpay. apply wp_bind. unfold sorted.Get. destruct (bool_decide_reflect (txs_of l !! w_nonce a w = None)) as [Hn|Hn].
  - assert (∀ k, is_Some (txs_of l !! k) → 0 < list_Len l) as Hlen.
    { intros k Hk. rewrite list_Len_nonces. apply elem_of_nonces in Hk. destruct (nonces (txs_of l)); [by apply elem_of_nil in Hk|cbn; lia]. }
    destruct (Z.ltb_spec 0 (list_Len l)) as [Hlt|Hle]; cbn [andb].
    + destruct (i_pending _ _ _ _ _ _ _ (dw_inv _ _ _ _ _ _ _ Hw) a l (dw_list _ _ _ _ _ _ _ Hw)) as (Ho & _). destruct (list_Cap_spec 0 l Ho) as (l' & out & E & Ht & _).
      apply wp_bind. eapply wp_lift; [exact E|]. apply wp_bind, wp_modify. assert (txs_of l' = ∅) as El'.
      { destruct Ht as (_ & _ & -> & _). rewrite drop_0. apply map_eq. intros k. rewrite lookup_without, lookup_empty. case_decide as Hk; [done|]. rewrite elem_of_nonces in Hk. by apply eq_None_not_Some. }
      apply takes_txs in Ht. apply wp_bind. eapply dwork_requeue_opt.
      * pose proof (dwork_take N pn a l l' out [] p0 p Hd Hw Ht) as Hw'. rewrite app_nil_r in Hw'. apply Hw'. right. intros j k _ _. rewrite El', lookup_empty. by intros [? ?].
      * intros p' Hw'. apply wp_ret. eapply dwork_end; [done|]. rewrite El'. apply starts_empty.
    + apply wp_ret. eapply dwork_end; [done|]. split; [|done]. intros n Hs. specialize (Hlen n Hs). lia.
  - rewrite andb_false_r. apply wp_ret. eapply dwork_end; [done|]. split; [|done]. intros n Hs. split; [by apply Hge|]. by apply not_eq_None_Some.
Qed.

Lemma demote_account_spec N pn p a : demotable → inv w N R pn None [] p →
  wp (demote_account a) (fun _ p' => inv w N R pn None [] p' ∧ later p p' ∧ starts a p' ∧ ∀ b, b ≠ a → p_pending p' !! b = p_pending p !! b) p.
Proof.
  intros Hd Hi. unfold demote_account. apply wp_bind, wp_gets. destruct (p_pending p !! a) as [l|] eqn:El.
  2: { apply wp_ret. split_and!; try done. unfold starts, pend. rewrite El. apply starts_empty. }
  destruct (i_pending _ _ _ _ _ _ _ Hi a l El) as (Ho & Hst & _). assert (dwork N pn a l [] p p) as Hw.
  { constructor; [by apply inv_start|done|intros l2 E2; by destruct (i_queue _ _ _ _ _ _ _ Hi a l2 E2) as (_ & _ & H); apply H| |done|done].
    pose proof (i_range _ _ _ _ _ _ _ Hi a ltac:(done)) as Hr. unfold pend in Hr. by rewrite El in Hr. }
  apply wp_bind. eapply wp_current_nonce; [apply Hw|]. intros s1 Hi1. apply (dwork_current _ _ _ _ _ _ _ _ Hi1) in Hw.
  destruct (list_Forward_spec (w_nonce a w) l Ho) as (l1 & out1 & E1 & T1). apply wp_bind. eapply wp_lift; [exact E1|]. apply wp_bind, wp_modify, wp_bind.
  pose proof T1 as (Ho1 & Hst1 & Et1 & _). pose proof (dwork_take N pn a l l1 out1 [] _ _ Hd Hw (takes_txs _ _ _ _ T1)) as Hw1. rewrite Et1 in Hw1.
  specialize (Hw1 ltac:(left; apply forward_upper)). eapply dwork_forget_opt; [exact Hw1|]. clear Hw1. intros p1 Hw1.
  apply wp_bind. eapply wp_current_balance; [apply Hw1|]. intros s2 Hi2. apply (dwork_current _ _ _ _ _ _ _ _ Hi2) in Hw1. apply wp_bind, wp_gets.
  destruct (list_Filter_takes (w_balance a w) (p_currentMaxGas (set_current s2 p1)) l1 Ho1) as (l2 & drops & invalids & -> & T2 & Hlow & _ & Hpay). apply wp_bind, wp_modify, wp_bind.
  pose proof (dwork_take N pn a l1 l2 _ [] _ _ Hd Hw1 T2 (or_intror (Hlow ltac:(congruence)))) as Hw2. rewrite app_nil_r in Hw2.
  eapply dwork_forget; [exact Hw2|]. clear Hw2. intros p2 Hw2. apply wp_bind. eapply dwork_requeue; [exact Hw2|]. clear Hw2. intros p3 Hw3.
  assert (p_currentMaxGas (set_current s2 p1) = p_currentMaxGas p) as Em by apply (dw_later _ _ _ _ _ _ _ Hw1).
  apply demote_rest; [done|done|done| |intros n t Ht; apply over_within; rewrite <- Em; by eapply Hpay]. intros n [t Ht]. destruct T2 as (_ & _ & _ & Hsub & _). apply (lookup_weaken _ _ _ _ Ht) in Hsub. rewrite Et1 in Hsub.
  apply map_lookup_filter_Some in Hsub as [_ Hge]. cbn in Hge. lia.
Qed.

Lemma demote_spec N pn p : demotable → inv w N R pn None [] p →
  wp (demoteUnexecutables visit) (fun _ p' => inv w N R pn None [] p' ∧ later p p' ∧ ∀ a, starts a p') p.
Proof.
  clear HR HRep HE. intros Hd Hi. unfold demoteUnexecutables. apply wp_bind, wp_gets.
  eapply wp_mono; [apply (wp_each _ (fun l q => inv w N R pn None [] q ∧ later p q ∧ ∀ a, a ∉ l → starts a q))|].
  - intros a l q (Hq & Lq & Sq). eapply wp_mono; [by apply (demote_account_spec N pn q a)|]. intros [] q' (Hq' & L' & S' & O'). split; [done|]. split; [by etrans|].
    intros b Hb. destruct (decide (b = a)) as [->|Hne]; [done|]. assert (pend q' b = pend q b) as Eb by (unfold pend; by rewrite O').
    unfold starts. rewrite Eb, (la_maxGas _ _ L'). apply Sq. set_solver.
  - split; [done|]. split; [done|]. intros a Ha. unfold starts, pend. destruct (p_pending p !! a) as [l|] eqn:El; [|apply starts_empty].
    exfalso. apply Ha. rewrite visit_perm. apply list_elem_of_fmap. exists (a, l). split; [done|]. by apply elem_of_map_to_list.
  - intros [] q (Hq & Lq & Sq). split; [done|]. split; [done|]. intros a. apply Sq, not_elem_of_nil.
Qed.

(** ** Managed nonces after a new head *)

Lemma flat_last items : keyed items → items ≠ ∅ → ∃ tx, list.last (flat items) = Some tx ∧ items !! tx_Nonce tx = Some tx ∧ ∀ n, is_Some (items !! n) → n ≤ tx_Nonce tx.
Proof.
  intros Hk Hne. destruct (list.last (flat items)) as [tx|] eqn:El.
  - exists tx. split; [done|]. assert (tx ∈ flat items) as Hin by (by apply last_Some_elem_of). apply flat_elem in Hin; [|done]. split; [done|].
    intros n [t Ht]. apply last_Some in El as [l' El]. pose proof (flat_sorted items Hk) as Hs. rewrite El in Hs.
    assert (t ∈ flat items) as Hti by (apply flat_elem; [done|]; by rewrite (Hk _ _ Ht)). rewrite El in Hti. rewrite <- (Hk _ _ Ht).
    apply elem_of_app in Hti as [Hti| ->%list_elem_of_singleton]; [|done]. assert (sorted.nonce_le t tx) as Hle by (eapply StronglySorted_app_1_elem_of; [exact Hs|done|by left]). exact Hle.
  - exfalso. apply last_None in El. apply Hne. apply map_eq. intros n. rewrite lookup_empty. destruct (items !! n) as [t|] eqn:Et; [|done].
    assert (t ∈ flat items) as Hti by (apply flat_elem; [done|]; by rewrite (Hk _ _ Et)). rewrite El in Hti. by apply elem_of_nil in Hti.
Qed.

Lemma inv_range_change R' N pn p : inv w N R pn None [] p → (∀ a, R' a (pend p a) (pn a)) → inv w N R' pn None [] p.
Proof. intros [] Hr. by constructor. Qed.

End World.

(** Setting the managed nonce of every account to the one after its last
    pending transaction; the lists do not change. *)
Lemma reset_nonce_spec w N pn p a : inv w N any_range pn None [] p → is_Some (p_pending p !! a) →
  wp (reset_nonce a) (fun _ p' => ∃ n, inv w N any_range (<[a := n]> pn) None [] p' ∧ fixed p p' ∧ (∀ b, pend p' b = pend p b) ∧
    (∀ b, is_Some (p_pending p' !! b) ↔ is_Some (p_pending p !! b)) ∧ is_Some (pend p a !! (n - 1)) ∧ ∀ k, is_Some (pend p a !! k) → k < n) p.
Proof.
  intros Hi [l El]. unfold reset_nonce. apply wp_bind. eapply wp_mono; [by apply (flatten_pending_spec w any_range N pn)|]. intros txs p1 (Hi1 & F1 & _ & -> & Ep & Ed).
  destruct (i_pending _ _ _ _ _ _ _ Hi a l El) as (Ho & _ & Hne). assert (pend p a = txs_of l) as Epa by (unfold pend; by rewrite El). rewrite Epa in *.
  destruct (flat_last (txs_of l) (txs_keyed _ Ho) (Hne ltac:(done))) as (tx & Elast & Etx & Hmax). apply wp_bind. eapply wp_lift; [by rewrite Elast|].
  assert (0 ≤ tx_Nonce tx < maxU64) as Hb.
  { rewrite <- Epa in Etx. destruct (i_listed _ _ _ _ _ _ _ Hi _ _ _ (or_introl Etx)) as [_ Hk]. by apply (i_known _ _ _ _ _ _ _ Hi) in Hk as [_ [_ ?]]. }
  assert (is_u64 (tx_Nonce tx + 1)) as Hu by (unfold is_u64, two64, maxU64 in *; lia). rewrite u64_small by done.
  eapply wp_set_managed_nonce; [done|by apply (inv_start _ _ _ _ a)|]. intros ms Hi2. exists (tx_Nonce tx + 1). split_and!; try done.
  - eapply inv_finish; [exact Hi2|..|done]; intros l2 E2; cbn in E2.
    + by destruct (i_pending _ _ _ _ _ _ _ Hi1 a l2 E2) as (_ & _ & H); apply H.
    + by destruct (i_queue _ _ _ _ _ _ _ Hi1 a l2 E2) as (_ & _ & H); apply H.
  - replace (tx_Nonce tx + 1 - 1) with (tx_Nonce tx) by lia. by eexists.
  - intros k Hk. specialize (Hmax k Hk). lia.
Qed.

Lemma reset_nonces_spec w N pn p : inv w N any_range pn None [] p →
  wp (accounts ← gets (fun p => visit (map_to_list (p_pending p)).*1); each reset_nonce accounts)
    (fun _ p' => ∃ pn', inv w N any_range pn' None [] p' ∧ fixed p p' ∧ (∀ b, pend p' b = pend p b) ∧
      ∀ a, (pend p a = ∅ → pn' a = pn a) ∧ (pend p a ≠ ∅ → is_Some (pend p a !! (pn' a - 1)) ∧ ∀ k, is_Some (pend p a !! k) → k < pn' a)) p.
Proof.
  intros Hi. apply wp_bind, wp_gets. set (keys := visit _). assert (NoDup keys) as Hnd by (unfold keys; rewrite visit_perm; apply NoDup_fst_map_to_list).
  assert (∀ a, a ∈ keys ↔ is_Some (p_pending p !! a)) as Hkeys.
  { intros a. unfold keys. rewrite visit_perm, list_elem_of_fmap. split; [intros ([b l] & -> & E%elem_of_map_to_list); by eexists|].
    intros [l E]. exists (a, l). split; [done|]. by apply elem_of_map_to_list. }
  assert (∀ a, a ∉ keys → pend p a = ∅) as Hno.
  { intros a Ha. unfold pend. destruct (p_pending p !! a) as [l|] eqn:E; [|done]. exfalso. apply Ha, Hkeys. by eexists. }
  eapply wp_mono; [apply (wp_each _ (fun l q => NoDup l ∧ (∀ a, a ∈ l → a ∈ keys) ∧ ∃ pn', inv w N any_range pn' None [] q ∧ fixed p q ∧ (∀ b, pend q b = pend p b) ∧
    (∀ b, is_Some (p_pending q !! b) ↔ is_Some (p_pending p !! b)) ∧ (∀ a, pend p a = ∅ → pn' a = pn a) ∧
    ∀ a, a ∈ keys → a ∉ l → is_Some (pend p a !! (pn' a - 1)) ∧ ∀ k, is_Some (pend p a !! k) → k < pn' a))|].
  - intros a l q (Hndl & Hl & pn1 & Hq & Fq & Pq & Dq & Eq & Vq). apply NoDup_cons in Hndl as [Hal Hndl].
    eapply wp_mono; [apply (reset_nonce_spec w N pn1 q a Hq); apply Dq, Hkeys, Hl; by left|]. intros [] q' (n & Hq' & F' & P' & D' & Hn & Hmax). rewrite Pq in Hn, Hmax.
    split; [done|]. split; [intros b Hb; apply Hl; by right|]. exists (<[a := n]> pn1). split_and!; [done|by etrans|intros b; by rewrite P'|intros b; by rewrite D'|..].
    + intros b Hb. destruct (decide (a = b)) as [<-|Hne]; [|rewrite fn_lookup_insert_ne by done; by apply Eq]. rewrite Hb, lookup_empty in Hn. by destruct Hn.
    + intros b Hb Hbl. destruct (decide (a = b)) as [<-|Hne]; [by rewrite fn_lookup_insert|]. rewrite fn_lookup_insert_ne by done. apply Vq; [done|]. intros [->|]%elem_of_cons; done.
  - split; [done|]. split; [done|]. exists pn. split_and!; try done.
  - intros [] q (_ & _ & pn1 & Hq & Fq & Pq & Dq & Eq & Vq). exists pn1. split_and!; try done. intros a. split; [by apply Eq|]. intros Hne. apply Vq; [|apply not_elem_of_nil].
    destruct (decide (a ∈ keys)) as [|Hk]; [done|]. exfalso. by apply Hne, Hno.
Qed.

Lemma each_bind {A B} (f : A → poolM unit) (l : TxPool → list A) (m : poolM B) Q p :
  wp (x ← gets l; each f x) (fun _ => wp m Q) p → wp (x ← gets l; each f x;; m) Q p.
Proof. intros H. apply wp_bind, wp_gets, wp_bind. unfold wp in H at 1. destruct H as (p' & u & E & H). exists p', u. done. Qed.

Section Reset.
Context (Copy : st → pan st).

(** A state that was just opened, with the world [w], and that can be copied. *)
Definition opened (s : st) (w : world) : Prop :=
  st_sees s w ∧ (∀ a, is_u64 (w_nonce a w)) ∧ ∃ s' w', Copy s = Ok s' ∧ st_sees s' w' ∧ ∀ a, w_nonce a w' = w_nonce a w.

(** The pool right after it was given a new state. *)
Lemma inv_new_head w w' N R R' pn p s copy g : inv w N R pn None [] p → opened s w' → Copy s = Ok copy →
  (∀ a, R' a (pend p a) (w_nonce a w')) → inv w' N R' (fun a => w_nonce a w') None [] (set_maxGas g (set_managed (ManageState copy) (set_current s p))).
Proof.
  intros [] (Hs & Hu & s' & wc & E & Hs' & Hn) Hc Hr. rewrite Hc in E. injection E as <-. constructor; try done.
  exists wc. split; [done|]. split; [done|]. split; [by intros a acc; cbn; rewrite lookup_empty|done].
Qed.

Lemma any_demotable : demotable any_range.
Proof. done. Qed.

Lemma gap_demotable : demotable gap_range.
Proof.
  intros a m m' k0 Hg Hsub Hpart i j k Hijk Hi Hk. assert (∀ n, is_Some (m' !! n) → is_Some (m !! n)) as Hin by (intros n [t Ht]; exists t; by eapply lookup_weaken).
  pose proof (Hg i j k Hijk (Hin _ Hi) (Hin _ Hk)) as Hj. destruct Hpart as [Hu|Hl]; [apply (Hu i j)|apply (Hl j k)]; done || lia.
Qed.

(** What [reset] does after the transactions of a reorganisation are put back. *)
Lemma reset_rest w N p now : Z.of_nat N < 2 ^ 24 → (∃ pn, inv w N any_range pn None [] p) →
  wp (demoteUnexecutables visit;; accounts ← gets (fun p => visit (map_to_list (p_pending p)).*1); each reset_nonce accounts;; promoteExecutables visit now None)
    (fun _ p' => (∃ pn', inv w N any_range pn' None [] p') ∧ fixed p p') p.
Proof.
  intros HN [pn Hi]. apply wp_bind. eapply wp_mono; [by apply (demote_spec w any_range N pn p any_demotable)|]. intros [] p1 (Hi1 & L1 & _).
  apply each_bind. eapply wp_mono; [by apply (reset_nonces_spec w N pn p1)|]. intros [] p2 (pn2 & Hi2 & F2 & _).
  eapply wp_mono; [by apply (promoteExecutables_spec w N any_range visit visit_perm now None pn2)|]. intros [] p3 [H3 L3]. split; [done|].
  etrans; [by apply later_fixed|]. etrans; [done|]. by apply later_fixed.
Qed.

(** A new state, with transactions that are put back. *)
Lemma reset_to_any w w' N R pn p now s g txs : Z.of_nat (N + length txs) < 2 ^ 24 → inv w N R pn None [] p → opened s w' →
  Forall (incoming (p_signer p)) txs → wp (reset_to visit Copy now s g txs) (fun _ p' => (∃ pn', inv w' (N + length txs)%nat any_range pn' None [] p') ∧
    p_signer p' = p_signer p ∧ p_config p' = p_config p) p.
Proof.
  intros HN Hi Hs Hin. pose proof Hs as (_ & _ & copy & wc & E & _). unfold reset_to. apply wp_bind, wp_modify, wp_bind. eapply wp_lift; [exact E|].
  apply wp_bind, wp_modify, wp_bind, wp_modify. pose proof (inv_new_head w w' N R any_range pn p s copy g Hi Hs E ltac:(done)) as Hi1. set (p1 := set_maxGas g _) in *.
  apply wp_bind. destruct (any_range_ok w' g) as (HR & HRep & HE). eapply wp_mono; [apply (addTxs_spec w' any_range g HR HRep HE N p1 now txs false eq_refl HN); eauto|].
  intros errs p2 [H2 (S2 & C2 & _)]. eapply wp_mono; [by apply (reset_rest w' (N + length txs) p2 now)|]. intros [] p3 [H3 (S3 & C3 & _)]. split; [done|]. split; [by rewrite S3, S2|by rewrite C3, C2].
Qed.

(** A new state on which nothing is put back. *)
Lemma reset_to_exec w w' N pn p now s g : Z.of_nat N < 2 ^ 24 → inv w N (exec_range w (p_currentMaxGas p)) pn None [] p → opened s w' →
  wp (reset_to visit Copy now s g []) (fun _ p' => (∃ pn', inv w' N (exec_range w' (p_currentMaxGas p')) pn' None [] p') ∧ p_signer p' = p_signer p ∧ p_config p' = p_config p) p.
Proof.
  intros HN Hi Hs. pose proof Hs as (_ & _ & copy & wc & E & _). unfold reset_to. apply wp_bind, wp_modify, wp_bind. eapply wp_lift; [exact E|].
  apply wp_bind, wp_modify, wp_bind, wp_modify. assert (∀ a, gap_range a (pend p a) (w_nonce a w')) as Hgap.
  { intros a i j k Hijk Hi' Hk'. destruct (i_range _ _ _ _ _ _ _ Hi a ltac:(done)) as [[_ Hr] _]. rewrite Hr in *. lia. }
  pose proof (inv_new_head w w' N _ gap_range pn p s copy g Hi Hs E Hgap) as Hi1. set (p1 := set_maxGas g _) in *.
  apply wp_bind, addTxs_nil, wp_bind. eapply wp_mono; [by apply (demote_spec w' gap_range N (fun a => w_nonce a w') p1 gap_demotable)|]. intros [] p2 (Hi2 & L2 & St2).
  pose proof (inv_range_change w' gap_range any_range N _ p2 Hi2 (fun _ => I)) as Hi2'.
  apply each_bind. eapply wp_mono; [by apply (reset_nonces_spec w' N (fun a => w_nonce a w') p2)|]. intros [] p3 (pn3 & Hi3 & F3 & P3 & V3).
  assert (inv w' N (exec_range w' g) pn3 None [] p3) as Hi4.
  { eapply inv_range_change; [exact Hi3|]. intros a. rewrite P3. destruct (V3 a) as [Ve Vn]. destruct (decide (pend p2 a = ∅)) as [He|He].
    - rewrite He, (Ve He). split; [|apply map_Forall_empty]. split; [done|]. intros n. rewrite lookup_empty. split; [by intros [? ?]|lia].
    - destruct (Vn He) as [Hlast Hmax]. pose proof (i_range _ _ _ _ _ _ _ Hi2 a ltac:(done)) as Hg. destruct (St2 a) as [St Hpay]. destruct (St _ Hlast) as [Hle Hst]. rewrite (la_maxGas _ _ L2) in Hpay.
      split; [|exact Hpay]. split; [lia|]. intros n. split; [intros Hn; split; [by apply St|by apply Hmax]|]. intros Hn. apply (Hg (w_nonce a w') n (pn3 a - 1)); [lia|done|done]. }
  destruct (exec_range_ok w' g) as (HR & HRep & HE). assert (p_currentMaxGas p3 = g) as Em3 by (destruct F3 as (_ & _ & ->); exact (la_maxGas _ _ L2)).
  eapply wp_mono; [apply (promoteExecutables_spec w' N (exec_range w' g) visit visit_perm now None pn3); by rewrite ?Em3|].
  intros [] p4 [H4 L4]. split; [by rewrite (la_maxGas _ _ L4), Em3|]. destruct L2, L4, F3 as (S3 & C3 & _). change (p_signer p) with (p_signer p1). change (p_config p) with (p_config p1). split; congruence.
Qed.

End Reset.

End Reach.
