(* ===== verification/TxPoolRun.v ===== *)
(** * Runs of the transaction pool

    A pool that is made for the current block and then used in any way: methods
    are called, time passes, and blocks arrive.  The state database that is opened
    for a block has what the pool asks for. *)

From S2P Require Import Prelude Types Interfaces Rlp RlpRaw RlpStream RlpDecode HeaderHash TrieEncoding TrieNode Trie TrieSpec State StateRevert StateFrame StateSpec GoMath Vm VmPrecompiled VmLaws StateVm Transition Tx Block GoHeap TxList TxListSpec TxPool TxPoolInv TxPoolSpec TxPoolReach.
From stdpp Require Import functions base tactics option list numbers sorting gmap.
From Stdlib Require Import ZArith Lia.

#[local] Open Scope Z_scope.

(** What can happen to a pool; [now] is the time of the event. *)
Inductive poolOp :=
| OpAddLocal (now : Z) (tx : Transaction)
| OpAddRemote (now : Z) (tx : Transaction)
| OpAddLocals (now : Z) (txs : list Transaction)
| OpAddRemotes (now : Z) (txs : list Transaction)
| OpSetGasPrice (price : Z)
| OpPending
| OpContent
| OpStatus (hashes : list Hash)
| OpEvict (now : Z)
| OpRotate
| OpHead (now : Z) (block : Block).

(** The transactions that an event hands to the pool. *)
Definition op_txs (op : poolOp) : list Transaction :=
  match op with
  | OpAddLocal _ tx | OpAddRemote _ tx => [tx]
  | OpAddLocals _ txs | OpAddRemotes _ txs => txs
  | _ => []
  end.

Section Run.
Context `{HK : Keccak, HP : EvmCrypto, HS : StateOps, HL : !StateLaws HS}.
Context (visit : list Address → list Address).
Context (GetBlock : Hash → Z → option Block) (StateAt : Hash → option st) (CurrentBlock : Block) (Copy : st → pan st).
Context (chainconfig : ChainConfig).

(** One event; the result is the head of the chain after it. *)
Definition execPool (op : poolOp) (head : Block) : poolM Block :=
  match op with
  | OpAddLocal now tx => AddLocal visit now tx;; mret head
  | OpAddRemote now tx => AddRemote visit now tx;; mret head
  | OpAddLocals now txs => AddLocals visit now txs;; mret head
  | OpAddRemotes now txs => AddRemotes visit now txs;; mret head
  | OpSetGasPrice price => SetGasPrice price;; mret head
  | OpPending => Pending;; mret head
  | OpContent => Content;; mret head
  | OpStatus hashes => Status hashes;; mret head
  | OpEvict now => evict visit now;; mret head
  | OpRotate => rejournal visit;; mret head
  | OpHead now block => chain_head visit GetBlock StateAt CurrentBlock Copy chainconfig now head (Some block)
  end.

Fixpoint runPool (ops : list poolOp) (head : Block) : poolM Block :=
  match ops with
  | [] => mret head
  | op :: ops => head ← execPool op head; runPool ops head
  end.

(** Every block has a number and comes after the one before it. *)
Fixpoint extending (ops : list poolOp) (head : Block) : Prop :=
  match ops with
  | [] => True
  | OpHead _ block :: ops => is_Some (hdr_Number (blk_header block)) ∧ hdr_ParentHash (Block_Header block) = Header_Hash (Block_Header head) ∧ extending ops block
  | _ :: ops => extending ops head
  end.

Context (visit_perm : ∀ l, visit l ≡ₚ l).
Context (StateAt_opened : ∀ root s, StateAt root = Some s → ∃ w, opened Copy s w).

(** The pool is well-formed, and the pending transactions of every account have
    the nonces from that of the account on and can be paid for. *)
Definition pool_ok (N : nat) (p : TxPool) : Prop := ∃ w pn, inv w N (exec_range w (p_currentMaxGas p)) pn None [] p.

(** ** Every event keeps it *)

Lemma pool_ok_more N N' p : (N ≤ N')%nat → pool_ok N p → pool_ok N' p.
Proof. intros HN (w & pn & Hi). exists w, pn. by eapply inv_more. Qed.

Lemma Status_spec N p hashes : pool_ok N p → wp (Status hashes) (fun _ p' => p' = p) p.
Proof.
  intros (w & pn & Hi). induction hashes as [|hash hashes IH]; cbn [Status]; [by apply wp_ret|]. apply wp_bind.
  eapply (wp_mono _ (fun _ p' => p' = p)); [|intros st p' ->; apply wp_bind; eapply wp_mono; [exact IH|]; intros r p2 ->; by apply wp_ret]. unfold status_of. apply wp_bind, wp_gets. destruct (p_all p !! hash) as [tx|] eqn:E; [|by apply wp_ret].
  destruct (i_known _ _ _ _ _ _ _ Hi _ _ E) as [_ [[a Hs] _]]. apply wp_bind. eapply wp_sender; [done|]. apply wp_bind, wp_gets. case_match; by apply wp_ret.
Qed.

Lemma reset_spec N p now old new : Z.of_nat N < 2 ^ 24 → reinjected GetBlock old new = Ok (Some []) → pool_ok N p →
  wp (pool_reset visit GetBlock StateAt CurrentBlock Copy now old new) (fun _ p' => pool_ok N p' ∧ p_signer p' = p_signer p) p.
Proof.
  intros HN Hr (w & pn & Hi). unfold pool_reset. apply wp_bind. eapply wp_lift; [exact Hr|].
  destruct (StateAt _) as [s|] eqn:Es; [|apply wp_ret; split; [by exists w, pn|done]]. destruct (StateAt_opened _ _ Es) as [w' Ho].
  eapply wp_mono; [by eapply (reset_to_exec visit visit_perm Copy w w' N pn p now s)|]. intros [] p' ([pn' Hi'] & Hs & _). split; [by exists w', pn'|done].
Qed.

Lemma reinjected_next old new : hdr_ParentHash new = Header_Hash old → reinjected GetBlock (Some old) (Some new) = Ok (Some []).
Proof. intros E. unfold reinjected. cbn [deref]. rewrite bind_Ok. by rewrite bool_decide_true. Qed.

Lemma head_spec N p now head block : Z.of_nat N < 2 ^ 24 → is_Some (hdr_Number (blk_header block)) → hdr_ParentHash (Block_Header block) = Header_Hash (Block_Header head) → pool_ok N p →
  wp (chain_head visit GetBlock StateAt CurrentBlock Copy chainconfig now head (Some block)) (fun b p' => b = block ∧ pool_ok N p' ∧ p_signer p' = p_signer p) p.
Proof.
  intros HN [number En] Hp Hok. cbn [chain_head]. apply wp_bind. eapply wp_lift; [by rewrite En|]. apply wp_bind.
  assert (wp (if IsHomestead chainconfig (Some number) then modify (set_homestead true) else mret tt) (fun _ p' => pool_ok N p' ∧ p_signer p' = p_signer p) p) as Hh.
  { destruct (IsHomestead _ _); [apply wp_modify|by apply wp_ret]. split; [|done]. destruct Hok as (w & pn & Hi). exists w, pn. eapply inv_same; [exact Hi|done..|apply Hi]. }
  eapply wp_mono; [exact Hh|]. intros [] p1 [H1 S1]. apply wp_bind. eapply wp_mono; [apply (reset_spec N p1 now); [done|by apply reinjected_next|done]|].
  intros [] p2 [H2 S2]. apply wp_ret. split_and!; [done|done|congruence].
Qed.

Lemma kept_ok N p p' w : (∃ pn, inv w N (exec_range w (p_currentMaxGas p)) pn None [] p') ∧ fixed p p' → pool_ok N p' ∧ p_signer p' = p_signer p.
Proof. intros [[pn Hi] (Hs & _ & Hg)]. split; [|done]. exists w, pn. by rewrite Hg. Qed.

Lemma add_spec N p now txs local : Z.of_nat (N + length txs) < 2 ^ 24 → Forall (incoming (p_signer p)) txs → pool_ok N p →
  wp (addTxsLocked visit now txs local) (fun _ p' => pool_ok (N + length txs) p' ∧ p_signer p' = p_signer p) p.
Proof.
  intros HN Hin (w & pn & Hi). destruct (exec_range_ok w (p_currentMaxGas p)) as (HR & HRep & HE).
  eapply wp_mono; [apply (addTxs_spec visit visit_perm w _ (p_currentMaxGas p) HR HRep HE N p now txs local eq_refl HN); eauto|]. intros r p' H. exact (kept_ok _ _ _ _ H).
Qed.

Lemma add_one_spec N p now tx local : Z.of_nat (N + 1) < 2 ^ 24 → Forall (incoming (p_signer p)) [tx] → pool_ok N p →
  wp (addTx visit now tx local) (fun _ p' => pool_ok (N + 1) p' ∧ p_signer p' = p_signer p) p.
Proof.
  intros HN [Hin _]%Forall_cons (w & pn & Hi). destruct (exec_range_ok w (p_currentMaxGas p)) as (HR & HRep & HE). rewrite Nat.add_1_r in *.
  eapply wp_mono; [apply (addTx_spec visit visit_perm w _ (p_currentMaxGas p) HR HRep HE N p now tx local eq_refl HN); eauto|]. intros r p' H. exact (kept_ok _ _ _ _ H).
Qed.

(** The head after an event. *)
Definition next_head (op : poolOp) (head : Block) : Block := match op with OpHead _ block => block | _ => head end.

Lemma execPool_spec N p op head : Z.of_nat (N + length (op_txs op)) < 2 ^ 24 → Forall (incoming (p_signer p)) (op_txs op) → extending [op] head → pool_ok N p →
  wp (execPool op head) (fun h p' => h = next_head op head ∧ pool_ok (N + length (op_txs op)) p' ∧ p_signer p' = p_signer p) p.
Proof.
  intros HN Hin Hext Hok.
  assert (∀ A (m : poolM A), wp m (fun _ p' => pool_ok (N + length (op_txs op)) p' ∧ p_signer p' = p_signer p) p →
    wp (m;; mret head) (fun h p' => h = head ∧ pool_ok (N + length (op_txs op)) p' ∧ p_signer p' = p_signer p) p) as Hret.
  { intros A m H. apply wp_bind. eapply wp_mono; [exact H|]. intros a p' [? ?]. by apply wp_ret. }
  pose proof Hok as (w & pn & Hi). destruct (exec_range_ok w (p_currentMaxGas p)) as (HR & HRep & HE).
  destruct op; cbn [execPool op_txs length next_head] in *; rewrite ?Nat.add_0_r in *.
  - apply Hret. apply wp_bind, wp_gets. by apply add_one_spec.
  - apply Hret. by apply add_one_spec.
  - apply Hret. apply wp_bind, wp_gets. by apply add_spec.
  - apply Hret. by apply add_spec.
  - apply Hret. eapply wp_mono; [apply (SetGasPrice_spec w _ HR N p); eauto|]. intros [] p' H. exact (kept_ok _ _ _ _ H).
  - apply Hret. eapply wp_mono; [by apply (Pending_spec w (exec_range w (p_currentMaxGas p)) N pn p)|]. intros out p' (H1 & H2 & _). eapply kept_ok; eauto.
  - apply Hret. eapply wp_mono; [by apply (Content_spec w (exec_range w (p_currentMaxGas p)) N pn p)|]. intros out p' (H1 & H2). eapply kept_ok; eauto.
  - apply Hret. eapply wp_mono; [by eapply Status_spec|]. by intros r p' ->.
  - apply Hret. eapply wp_mono; [apply (evict_spec visit w _ HR N p now); eauto|]. intros [] p' H. exact (kept_ok _ _ _ _ H).
  - apply Hret. apply wp_bind, wp_gets. destruct (p_journal p); [|by apply wp_ret]. eapply wp_mono; [apply (rotate_spec visit w (exec_range w (p_currentMaxGas p)) N p); eauto|]. intros [] p' H. exact (kept_ok _ _ _ _ H).
  - destruct Hext as (Hnum & Hext & _). by apply head_spec.
Qed.

Definition ops_txs (ops : list poolOp) : list Transaction := concat (op_txs <$> ops).

Lemma runPool_spec ops : ∀ N p head, Z.of_nat (N + length (ops_txs ops)) < 2 ^ 24 → Forall (incoming (p_signer p)) (ops_txs ops) → extending ops head → pool_ok N p →
  wp (runPool ops head) (fun _ p' => pool_ok (N + length (ops_txs ops)) p' ∧ p_signer p' = p_signer p) p.
Proof.
  induction ops as [|op ops IH]; intros N p head HN Hin Hext Hok; cbn [runPool].
  - apply wp_ret. split; [|done]. by rewrite Nat.add_0_r.
  - change (ops_txs (op :: ops)) with (op_txs op ++ ops_txs ops) in *. rewrite length_app in *. apply Forall_app in Hin as [Hin1 Hin2].
    assert (extending [op] head ∧ extending ops (next_head op head)) as [He1 He2] by (destruct op; cbn in *; tauto).
    apply wp_bind. eapply wp_mono; [apply (execPool_spec N p op head); [lia|done..]|]. intros h p1 (-> & H1 & S1). rewrite Nat.add_assoc in *.
    eapply wp_mono; [apply (IH (N + length (op_txs op))%nat p1); [lia|by rewrite S1|done|done]|]. intros h p2 [H2 S2]. split; [done|congruence].
Qed.

(** ** A new pool *)

Lemma empty_pool_ok conf price signer s w g : config_ok conf → opened Copy s w →
  pool_ok 0 (mkPool conf price signer s (ManageState s) g (newAccountSet signer) None ∅ ∅ ∅ ∅ newTxPricedList false []).
Proof.
  intros Hc (Hs & Hu & _). exists w, (fun a => w_nonce a w). assert (∀ a, (∅ : gmap Address txList) !! a = None) as He by apply lookup_empty.
  constructor; try done; cbn; unfold pend, que; cbn.
  - exists w. split; [done|]. split; [done|]. split; [|done]. intros a acc. cbn. by rewrite lookup_empty.
  - intros a n tx. rewrite !He. cbn. rewrite lookup_empty. by intros [?|?].
  - intros a n. rewrite He. by left.
  - intros a _. rewrite He. split; [|apply map_Forall_empty]. split; [done|]. intros n. cbn. rewrite lookup_empty. split; [by intros [? ?]|lia].
  - by intros tx ?%elem_of_nil.
  - constructor.
Qed.

Lemma stored_spec now stored : ∀ N p, Z.of_nat (N + length stored) < 2 ^ 24 → Forall (incoming (p_signer p)) stored → pool_ok N p →
  wp (each (fun tx => AddLocal visit now tx;; mret tt) stored) (fun _ p' => pool_ok (N + length stored) p' ∧ p_signer p' = p_signer p) p.
Proof.
  induction stored as [|tx stored IH]; intros N p HN Hin Hok; cbn [each length] in *; [apply wp_ret; by rewrite Nat.add_0_r|].
  apply Forall_cons in Hin as [Ht Hin]. apply wp_bind, wp_bind, wp_bind, wp_gets. eapply wp_mono; [apply (add_one_spec N p); [lia|by constructor|done]|].
  intros r p1 [H1 S1]. apply wp_ret. eapply wp_mono; [apply (IH (N + 1)%nat p1); [lia|by rewrite S1|done]|]. intros [] p2 [H2 S2].
  split; [by replace (N + S (length stored))%nat with (N + 1 + length stored)%nat by lia|congruence].
Qed.

Lemma NewTxPool_spec conf now stored s : config_ok conf → StateAt (hdr_Root (Block_Header CurrentBlock)) = Some s →
  Z.of_nat (length stored) < 2 ^ 24 → Forall (incoming (NewEIP155Signer (ChainId chainconfig))) stored →
  ∃ p, NewTxPool visit GetBlock StateAt CurrentBlock Copy conf chainconfig now stored = Ok (Some p) ∧ pool_ok (length stored) p ∧
    p_signer p = NewEIP155Signer (ChainId chainconfig).
Proof.
  intros Hc Hs HN Hin. unfold NewTxPool. rewrite Hs. destruct (StateAt_opened _ _ Hs) as [w Ho]. set (signer := NewEIP155Signer _) in *.
  set (p0 := mkPool _ _ _ _ _ _ _ _ _ _ _ _ _ _ _). assert (pool_ok 0 p0) as H0 by (by eapply empty_pool_ok).
  enough (wp (pool_reset visit GetBlock StateAt CurrentBlock Copy now None (Some (Block_Header CurrentBlock));;
    (if negb (NoLocals (sanitize conf)) && Journal (sanitize conf) then
       modify (set_journal (Some (mkJournal None)));;
       each (fun tx => AddLocal visit now tx;; mret tt) stored;;
       rotate_journal visit
     else mret tt)) (fun _ p => pool_ok (length stored) p ∧ p_signer p = signer) p0) as (p & [] & -> & H).
  { rewrite bind_Ok. by exists p. }
  apply wp_bind. eapply wp_mono; [by apply (reset_spec 0 p0)|]. intros [] p1 [H1 S1]. destruct (_ && _).
  - apply wp_bind, wp_modify, wp_bind. eapply wp_mono; [apply (stored_spec now stored 0); [done|cbn [p_signer set_journal]; by rewrite S1|]|].
    + destruct H1 as (w1 & pn1 & Hi1). exists w1, pn1. eapply inv_same; [exact Hi1|done..|apply Hi1].
    + intros [] p2 [(w2 & pn2 & H2) S2]. eapply wp_mono; [apply (rotate_spec visit w2 (exec_range w2 (p_currentMaxGas p2)) (length stored) p2); eauto|].
      intros [] p3 H. destruct (kept_ok _ _ _ _ H) as [H3 S3]. split; [done|]. rewrite S3, S2. exact S1.
  - apply wp_ret. split; [by eapply (pool_ok_more 0); [lia|]|exact S1].
Qed.

(** ** What is pending *)

Lemma seqZ_sorted m n : StronglySorted Z.le (seqZ m n).
Proof.
  destruct (decide (0 ≤ n)) as [Hn|]; [|rewrite seqZ_nil by lia; constructor]. revert m. pattern n. apply natlike_ind; [constructor| |done].
  clear n Hn. intros n Hn IH m. rewrite seqZ_cons, Z.pred_succ by lia. constructor; [done|]. apply Forall_seqZ. lia.
Qed.

Lemma exec_nonces w g a m k : exec_range w g a m k → nonces m = seqZ (w_nonce a w) (k - w_nonce a w).
Proof.
  intros [[Hk Hm] _]. symmetry. apply nonces_unique.
  - apply seqZ_sorted.
  - rewrite <- nonces_perm. apply NoDup_Permutation; [apply NoDup_seqZ|apply NoDup_nonces|]. intros n. rewrite elem_of_nonces, Hm, elem_of_seqZ. lia.
Qed.

(** The transactions of an account in the order in which they can be executed. *)
Lemma exec_flat w g a m k i tx : keyed m → exec_range w g a m k → flat m !! i = Some tx → tx_Nonce tx = w_nonce a w + Z.of_nat i ∧ m !! tx_Nonce tx = Some tx ∧ payable w g a tx.
Proof.
  intros Hk Hr Hi. pose proof Hr as [[Hle Hm] Hpay]. assert (m !! tx_Nonce tx = Some tx) as E by (apply flat_elem; [done|]; by eapply list_elem_of_lookup_2).
  split; [|split; [done|by eapply Hpay]]. assert ((tx_Nonce <$> flat m) !! i = Some (tx_Nonce tx)) as Hn by (by rewrite list_lookup_fmap, Hi).
  unfold flat in Hn. rewrite nonces_at in Hn; [|done|intros n; by rewrite elem_of_nonces]. rewrite (exec_nonces _ _ _ _ _ Hr), lookup_seqZ in Hn. lia.
Qed.

End Run.


(** ** The state database under the pool *)

Section Open.
Context `{HK : Keccak, HD : Database, HC : ARCCache Z, !KeccakLaws}.
Context (tdb : TrieDB) (m : gmap (list Z) (list Z)) (Hnone : default [] (tdb_Node tdb emptyCodeHash) = []).

(** A state that was just opened has no objects, and a copy of it reads the same
    accounts. *)
Lemma NewState_opened root db t : accounts_ok tdb m → cdb_db db = tdb → cdb_pastTries db = [] → sizes_ok tdb db →
  NewSecure root tdb MaxTrieCacheGen = Ok t → secure_ok tdb t m → (∀ a, is_u64 (w_nonce a (initial_world tdb m))) →
  ∃ s, NewState root db = Ok s ∧ opened (HL := StateDB_laws tdb m Hnone) state_Copy s (initial_world tdb m).
Proof.
  intros Hacc Hdb Hp Hz Hn Ht Hu. unfold NewState, OpenTrie. rewrite Hp. cbn [reverse rev_append findPast]. rewrite bind_Ok.
  cbn [cdb_db set_pastTries]. rewrite Hdb, Hn, !bind_Ok. eexists. split; [done|].
  assert (∀ s, cdb_db (sdb_db s) = tdb → sizes_ok tdb (sdb_db s) → secure_ok tdb (sdb_trie s) m → sdb_stateObjects s = ∅ → sdb_logSize s = 0 → sdb_validRevisions s = [] →
    sdb_nextRevisionId s = 0 → sdb_refund s = 0 → sdb_logs s = ∅ → sdb_preimages s = ∅ → tx_of s = (zeroHash, zeroHash, 0) → sdb_sees tdb m s (initial_world tdb m)) as Hfresh.
  { clear - Hacc. intros s Hdb Hz Ht Ho Hl Hv Hid Hr Hlogs Hpre Htx. split; [|split; [|split; [|done]]].
    - split; [done|done|by intros a o; rewrite Ho, lookup_empty| |by rewrite Hl]. intros a d _. apply Hacc.
    - unfold revs_ok. by rewrite Hv, Hid.
    - split; try done; [|intros h; unfold GetLogs; by rewrite Hlogs]. intros a. unfold look. rewrite Ho, lookup_empty. cbn. by destruct (trie_account m a). }
  split; [|split; [done|]].
  - apply Hfresh; try done.
  - eexists _, (initial_world tdb m). split; [reflexivity|]. split; [|done]. apply Hfresh; try done.
Qed.

End Open.
