(* ===== verification/VmDemo.v ===== *)
(** * The virtual machine and transactions: concrete runs

    Instances of the interfaces of the cryptographic libraries, small
    contracts run by the machine over the map of accounts, transactions signed
    and sent, and runs in which the code does not do what it means to. *)

From S2P Require Import Prelude Types Interfaces Rlp RlpRaw RlpStream RlpDecode HeaderHash Sha3 TrieEncoding TrieNode Trie TrieSpec TrieDemo TrieHash TrieMap State StateRevert StateFrame StateSpec StateRoot StateDemo GoMath Vm VmAnalysis VmExec VmPrecompiled Evm VmGas VmInstr VmTable VmRun VmLaws StateVm VmHoare VmSafePre VmSafe VmSafeGas VmSafeInstr VmSafeRun VmRel VmWorld Transition TransitionSpec TransitionRel TransferSpec Tx TxSpec Receipt ReceiptSpec.
From stdpp Require Import base tactics option list numbers gmap.
From Stdlib Require Import ZArith Lia.

#[local] Open Scope Z_scope.

Module DemoVm.

#[local] Existing Instance goKeccak.
#[local] Existing Instance goKeccakLaws.

Ltac bytes := repeat (apply List.Forall_cons; [by split; lia|]); apply List.Forall_nil.
Ltac codes := split; [cbn; bytes|done].

(** ** Instances *)

(** A signature scheme that is not secret: the public key is the first half of
    the signature. *)
#[local] Instance demoCrypto : EvmCrypto := {|
  vm_Ecrecover h sig := Some (4 :: be_bytes 64 (be_val (take 32 sig)));
  Ripemd160 b := take 20 (Keccak256 b);
  G1 := Z;
  G2 := Z;
  G1_Unmarshal b := Some (be_val b);
  G1_CurvePoints p := (p, p);
  G1_Marshal p := be_bytes 64 p;
  G1_Add := Z.add;
  G1_ScalarMult := Z.mul;
  G2_Unmarshal b := Some (be_val b);
  G2_CurvePoints p := ((p, p), (p, p));
  bn256_P := 7;
  PairingCheck _ _ := true
|}.

#[local] Instance demoCryptoLaws : EvmCryptoLaws.
Proof.
  split.
  - intros h s k <-%(inj Some). split; [|done]. constructor; [by split; lia|apply be_bytes_bytes].
  - intros b. change (Ripemd160 b) with (take 20 (Keccak256 b)). split; [apply Forall_take, (Keccak256_bytes b)|]. by rewrite length_take, Keccak256_length.
  - intros p. change (G1_Marshal p) with (be_bytes 64 p). split; [apply be_bytes_bytes|apply be_bytes_length].
Qed.

#[local] Instance demoSigning : Signing := {|
  PrivateKey := Z;
  Sign h k := Some (be_bytes 32 (k mod 1000 + 1) ++ be_bytes 32 1 ++ [0]);
  FromECDSAPub k := 4 :: be_bytes 64 (k mod 1000 + 1)
|}.

#[local] Instance demoSigningLaws : SigningLaws.
Proof.
  split.
  - intros h k sig <-%(inj Some). eexists _, 1, 0. split; [done|]. split; [|by left]. pose proof (Z.mod_pos_bound k 1000 ltac:(lia)).
    assert (1001 < crypto.secp256k1_N) by (vm_compute; done). assert (1 ≤ crypto.secp256k1_halfN) by (vm_compute; done).
    unfold sig_range. lia.
  - intros h k sig <-%(inj Some). cbn [vm_Ecrecover demoCrypto FromECDSAPub demoSigning].
    rewrite take_app_length', be_val_be_bytes by (by rewrite be_bytes_length).
    rewrite (Z.mod_small _ (256 ^ _)); [done|]. pose proof (Z.mod_pos_bound k 1000 ltac:(lia)). change (256 ^ Z.of_nat 32) with (2 ^ 256). lia.
  - intros k. by eexists.
Qed.

(** ** Accounts and contracts *)

Definition addr (n : Z) : Address := replicate 19 0 ++ [n].
Definition alice : Address := addr 170.
Definition miner : Address := addr 204.

(** A chain on which every rule is in force from the first block. *)
Definition config : ChainConfig := mkChainConfig (Some 1) (Some 0) None false (Some 0) zeroHash (Some 0) (Some 0) (Some 0) None None.

Definition en : Env := mkEnv (fun _ => zeroHash) alice 2 miner 4000000 5 1000 1 config false false false.

Lemma en_ok : env_ok en.
Proof. split; cbn; try done; try lia; repeat constructor; lia. Qed.

Definition account (balance : Z) (code : list Z) : accountView :=
  mkView 3 balance (Keccak256 code) (Some code) (fun _ => zeroHash) false.

(** [PUSH1 1 PUSH1 0 SSTORE INVALID]: writes a slot and fails. *)
Definition failing : list Z := [96; 1; 96; 0; 85; 254].
(** [PUSH1 0 SLOAD PUSH1 0 MSTORE PUSH1 32 PUSH1 0 RETURN]: returns a slot. *)
Definition reading : list Z := [96; 0; 84; 96; 0; 82; 96; 32; 96; 0; 243].

Definition w0 : world := mkWorld
  (fun a => if decide (a = alice) then Some (mkView 7 1000000000 emptyCodeHash None (fun _ => zeroHash) false)
            else if decide (a = addr 50) then Some (account 11 failing)
            else if decide (a = addr 51) then Some (account 0 reading) else None)
  0 (fun _ => []) 0 ∅ (zeroHash, zeroHash, 0).

Lemma view_ok_plain nonce balance code : 0 ≤ nonce < two64 → 0 ≤ balance → code_ok (default [] code) →
  view_ok (mkView nonce balance (Keccak256 (default [] code)) code (fun _ => zeroHash) false).
Proof. intros Hn Hb Hc. split; [done|done|done|reflexivity|]. intros k. apply Forall_replicate. by split; lia. Qed.

Lemma w0_ok : world_ok w0.
Proof.
  split; [|done]. intros a v. unfold w0, w_accounts. repeat case_decide; [| | |done]; intros <-%(inj Some).
  - apply (view_ok_plain 7 _ None); [done|done|codes].
  - apply (view_ok_plain 3 _ (Some failing)); [done|done|codes].
  - apply (view_ok_plain 3 _ (Some reading)); [done|done|codes].
Qed.

#[local] Existing Instance world_ops.
#[local] Existing Instance world_laws.

Definition s0 : @st world_ops := mkWorldState w0 [].

Lemma s0_sees : st_sees s0 w0.
Proof. reflexivity. Qed.

Definition gas0 : Z := 60000.
Definition fuel0 : nat := Z.to_nat 70000.

Lemma fuel0_enough : gas0 < Z.of_nat fuel0.
Proof. unfold fuel0, gas0. rewrite Z2Nat.id; lia. Qed.

(** ** Calls *)

#[local] Notation call to := (Call en (Run en fuel0) (AccountRef alice) to [1; 2] gas0 5 (NewEVM s0)).
#[local] Notation create := (Create en (Run en fuel0) (AccountRef alice) failing gas0 5 (NewEVM s0)).
#[local] Notation static_call := (StaticCall en (Run en fuel0) (AccountRef alice) (addr 51) [] gas0 (NewEVM s0)).

Lemma input_ok : code_ok [1; 2].
Proof. codes. Qed.

Lemma alice_bytes : is_bytes alice.
Proof. bytes. Qed.

Lemma gas0_ok : 0 ≤ gas0 < maxGas.
Proof. done. Qed.

Lemma Call_safe_witness : match call (addr 51) with
  | Ok (e', r) => 0 ≤ r_gas r ≤ gas0 ∧ is_bytes (default [] (r_ret r)) ∧ ∃ w', st_sees (e_db e') w' ∧ world_ok w'
  | Err c => collision c
  | Panic => False
  end.
Proof. apply (Call_safe en en_ok s0 w0 s0_sees w0_ok alice alice_bytes [1; 2] input_ok gas0 gas0_ok fuel0 fuel0_enough); [bytes|done]. Defined.

(** The call ran, and returned a word. *)
Lemma call_runs : match call (addr 51) with Ok (_, r) => r_ret r = Some (replicate 32 0) ∧ r_err r = None ∧ 50000 ≤ r_gas r < gas0 | _ => False end.
Proof. vm_compute. done. Qed.

Lemma call_fails : match call (addr 50) with Ok (_, r) => bool_decide (r_err r = None) | _ => true end = false.
Proof. vm_compute. reflexivity. Qed.

Lemma create_fails : match create with Ok (_, (r, _)) => bool_decide (r_err r = None) | _ => true end = false.
Proof. vm_compute. reflexivity. Qed.

Lemma static_call_runs : match static_call with Ok (_, r) => bool_decide (r_ret r = Some (replicate 32 0)) | _ => false end = true.
Proof. vm_compute. reflexivity. Qed.

Lemma Call_failed_restores_witness : match call (addr 50) with Ok (e', r) => r_err r ≠ None ∧ st_sees (e_db e') w0 | _ => False end.
Proof.
  pose proof call_fails as Hr. destruct (Call _ _ _ _ _ _ _ _) as [[e' r]|c|] eqn:E; [|discriminate|discriminate].
  apply bool_decide_eq_false in Hr. split; [exact Hr|].
  refine (Call_failed_restores en en_ok s0 w0 s0_sees w0_ok alice alice_bytes [1; 2] input_ok gas0 gas0_ok fuel0 fuel0_enough (addr 50) 5 e' r _ _ E Hr);
    [bytes|done].
Defined.

Lemma Create_failed_restores_witness : match create with
  | Ok (e', (r, _)) => r_err r ≠ None ∧ (st_sees (e_db e') w0 ∨ st_sees (e_db e') (w_update alice (v_nonce (w_nonce alice w0 + 1)%u64) w0))
  | _ => False
  end.
Proof.
  pose proof create_fails as Hr. destruct (Create _ _ _ _ _ _ _) as [[e' [r a]]|c|] eqn:E; [|discriminate|discriminate].
  apply bool_decide_eq_false in Hr. split; [exact Hr|]. assert (code_ok failing) as Hc by codes.
  refine (Create_failed_restores en en_ok s0 w0 s0_sees w0_ok alice alice_bytes failing Hc gas0 gas0_ok fuel0 fuel0_enough 5 e' r a _ _ E Hr); done.
Defined.

Lemma StaticCall_changes_nothing_witness : match static_call with
  | Ok (e', r) => r_ret r = Some (replicate 32 0) ∧ ∃ w', st_sees (e_db e') w' ∧ same_world w0 w'
  | _ => False
  end.
Proof.
  pose proof static_call_runs as Hr. destruct (StaticCall _ _ _ _ _ _ _) as [[e' r]|c|] eqn:E; [|discriminate|discriminate].
  apply bool_decide_eq_true in Hr. split; [exact Hr|].
  refine (StaticCall_changes_nothing en en_ok s0 w0 s0_sees w0_ok alice alice_bytes [] _ gas0 gas0_ok fuel0 fuel0_enough (addr 51) e' r _ eq_refl E);
    [codes|bytes].
Defined.

(** ** A round of the interpreter *)

Definition contract0 : Contract := mkContract alice (addr 50) ∅ failing (Keccak256 failing) (Some (addr 50)) [] gas0 (Some 0) false.
Definition machine0 : machine := mkMachine (NewEVM s0) contract0 (mkMemory [] 0) [7; 8] 4.

Lemma machine0_ok : mach en (NewEVM s0) w0 failing machine0.
Proof.
  split.
  - exists w0. apply (NewEVM_ok en s0 w0 s0_sees w0_ok).
  - split; [bytes|bytes|apply dests_ok_empty|codes|reflexivity|codes|done|by exists 0].
  - done.
  - done.
  - repeat constructor; lia.
  - done.
  - constructor.
  - done.
  - cbn. lia.
Qed.

Lemma step_typed_witness : match step en (Run en fuel0) machine0 with
  | Ok (m', inl None) => mach en (NewEVM s0) w0 failing m' ∧ c_Gas (x_contract m') < gas0
  | Ok (m', _) => stopped en (NewEVM s0) w0 gas0 m'
  | Err c => collision c
  | Panic => False
  end.
Proof. apply (step_typed en en_ok (NewEVM s0) w0 failing machine0 fuel0 machine0_ok). pose proof fuel0_enough. cbn. lia. Defined.

(** The round stores a slot. *)
Lemma step_stores : match step en (Run en fuel0) machine0 with
  | Ok (m', inl None) => x_pc m' = 5 ∧ x_stack m' = [] ∧ c_Gas (x_contract m') = gas0 - 20000
  | _ => False
  end.
Proof. vm_compute. done. Qed.

Lemma has_correct_witness : match has (Keccak256 [96; 91; 91]) [96; 91; 91] 2 ∅ with
  | Ok (d', b) => dests_ok d' ∧ (b = true ↔ [96; 91; 91] !! Z.to_nat 2 = Some JUMPDEST ∧ instruction_at [96; 91; 91] 2)
  | Err c => cl_first c ≠ cl_second c ∧ Keccak256 (cl_first c) = Keccak256 (cl_second c)
  | Panic => False
  end.
Proof. apply (has_correct [96; 91; 91] 2 ∅ dests_ok_empty); done. Defined.

(** ** Messages *)

(** Calls the contract that fails, paying 2 for each gas. *)
Definition msg0 : Message := mkMessage (Some (addr 50)) alice 7 5 gas0 2 [1; 2] true.
(** A payment. *)
Definition payment : Message := mkMessage (Some (addr 60)) alice 7 5 30000 2 [] true.

Lemma msg0_ok : msg_ok msg0.
Proof. split; [bytes|bytes|done|done|done|codes]. Qed.

Lemma payment_ok : msg_ok payment.
Proof. split; [bytes|bytes|done|done|done|codes]. Qed.

Lemma gp0_ok : is_u64 4000000.
Proof. done. Qed.

Lemma preCheck_exact_witness : match preCheck msg0 (NewStateTransition (NewEVM s0) 4000000) with
  | Ok (t', inl _) =>
      (msg_checkNonce msg0 = true → w_nonce (msg_from msg0) w0 = msg_nonce msg0) ∧
      msg_gasLimit msg0 * msg_gasPrice msg0 ≤ w_balance (msg_from msg0) w0 ∧
      msg_gasLimit msg0 ≤ 4000000 ∧ t_gas t' = msg_gasLimit msg0 ∧ t_gp t' = 4000000 - msg_gasLimit msg0 ∧
      st_sees (e_db (t_evm t')) (specOp (OpSubBalance (msg_from msg0) (msg_gasLimit msg0 * msg_gasPrice msg0)) (ensured (msg_from msg0) w0))
  | Ok (t', inr err) =>
      st_sees (e_db (t_evm t')) (ensured (msg_from msg0) w0) ∧ t_gp t' = 4000000 ∧
      (err = ErrNonceTooHigh ∧ msg_checkNonce msg0 = true ∧ w_nonce (msg_from msg0) w0 < msg_nonce msg0 ∨
       err = ErrNonceTooLow ∧ msg_checkNonce msg0 = true ∧ msg_nonce msg0 < w_nonce (msg_from msg0) w0 ∨
       err = errInsufficientBalanceForGas ∧ w_balance (msg_from msg0) w0 < msg_gasLimit msg0 * msg_gasPrice msg0 ∨
       err = ErrGasLimitReached ∧ 4000000 < msg_gasLimit msg0)
  | Err c => collision c
  | Panic => False
  end.
Proof. apply (preCheck_exact en msg0 msg0_ok s0 w0 s0_sees w0_ok 4000000 gp0_ok). Defined.

#[local] Notation transition msg := (TransitionDb en (Run en fuel0) msg (NewStateTransition (NewEVM s0) 4000000)).

Lemma TransitionDb_gas_witness : match transition msg0 with
  | Ok (t', inl (_, used, _)) =>
      intrinsic (msg_data msg0) (bool_decide (msg_to msg0 = None)) (en_Homestead en) ≤ 2 * used ∧ used ≤ msg_gasLimit msg0 ∧
      t_gp t' = 4000000 - used ∧ ∃ w', st_sees (e_db (t_evm t')) w' ∧ world_ok w'
  | Ok (t', inr _) => (t_gp t' = 4000000 ∨ t_gp t' = 4000000 - msg_gasLimit msg0) ∧ ∃ w', st_sees (e_db (t_evm t')) w' ∧ world_ok w'
  | Err c => collision c
  | Panic => False
  end.
Proof. apply (TransitionDb_gas en en_ok msg0 msg0_ok fuel0 fuel0_enough s0 w0 s0_sees w0_ok 4000000 gp0_ok). Defined.

(** The call in the message fails, and all its gas is paid for. *)
Lemma transition_fails : match transition msg0 with
  | Ok (_, inl (_, used, vmfailed)) => (used =? gas0) && vmfailed
  | _ => false
  end = true.
Proof. vm_compute. reflexivity. Qed.

Lemma w0_supply : supply_le 1000000011 w0.
Proof.
  exists [alice; addr 50]. split; [|split].
  - apply NoDup_cons; split; [|apply NoDup_singleton]. intros E%list_elem_of_singleton. discriminate E.
  - intros a Ha. unfold w_balance, w0, w_accounts. repeat case_decide; subst; [set_solver|set_solver|done|done].
  - vm_compute. done.
Qed.

Lemma TransitionDb_no_ether_witness : match transition msg0 with
  | Ok (t', _) => ∃ w', st_sees (e_db (t_evm t')) w' ∧ supply_le 1000000011 w'
  | _ => False
  end.
Proof.
  pose proof transition_fails as Hr. destruct (TransitionDb _ _ _ _) as [[t' r]|c|] eqn:E; [|discriminate|discriminate].
  exact (TransitionDb_no_ether en en_ok msg0 msg0_ok fuel0 fuel0_enough s0 w0 s0_sees w0_ok 4000000 gp0_ok t' r 1000000011 E w0_supply).
Defined.

Lemma transfer_exact_witness : match TransitionDb en (Run en 0) payment (NewStateTransition (NewEVM s0) 4000000) with
  | Ok (t', r) => r = inl (None, 21000, false) ∧ t_gp t' = 4000000 - 21000 ∧ ∃ w', st_sees (e_db (t_evm t')) w' ∧
      (∀ c, w_balance c w' = w_balance c w0 + (if decide (c = addr 60) then 5 else 0)
        - (if decide (c = alice) then 5 + 21000 * 2 else 0) + (if decide (c = miner) then 21000 * 2 else 0)) ∧
      (∀ c, w_nonce c w' = if decide (c = alice) then (w_nonce alice w0 + 1)%u64 else w_nonce c w0)
  | Err c => collision c
  | Panic => False
  end.
Proof.
  apply (transfer_exact en payment payment_ok (addr 60) eq_refl eq_refl 0 s0 w0 4000000 s0_sees w0_ok gp0_ok);
    [done|done|done|done|done|vm_compute; done].
Defined.

Lemma IntrinsicGas_exact_witness : IntrinsicGas [0; 1; 2] false true =
  if intrinsic [0; 1; 2] false true <=? maxU64 then inl (intrinsic [0; 1; 2] false true) else inr (VmError ErrOutOfGas).
Proof. apply (IntrinsicGas_exact [0; 1; 2] false true). done. Defined.

(** ** The state database *)

Section OnStateDB.
#[local] Existing Instance DemoTrie.demoDatabase.
#[local] Existing Instance DemoState.demoSizes.

Let tdb0 : TrieDB := cdb_db DemoState.db0.

Lemma no_empty_code : default [] (tdb_Node tdb0 emptyCodeHash) = [].
Proof. vm_compute. reflexivity. Qed.

Lemma fresh_sees : sdb_sees tdb0 ∅ DemoState.s0 (initial_world tdb0 ∅).
Proof.
  assert (NewState zeroHash DemoState.db0 = Ok DemoState.s0) as E0 by (vm_compute; reflexivity).
  destruct (NewState_ok tdb0 ∅ zeroHash DemoState.db0 DemoState.trie0 (DemoState.empty_accounts _) eq_refl eq_refl
    DemoState.trie0_ok DemoState.trie0_empty) as (s & E & Hi & Hr & Hs).
  rewrite E0 in E. injection E as <-. split_and!; [done|done|done|]. intros h n Hh. exfalso. exact (arc_new_holds h n Hh).
Qed.

(** Creates a contract whose initialisation writes a slot and returns no code. *)
Definition creation : Message := mkMessage None alice 0 0 200000 0 [96; 1; 96; 0; 85] true.

#[local] Notation on_db := (ApplyMessage en (Run en 100) creation (NewEVM (HS := StateDB_ops) DemoState.s0) 4000000).
#[local] Notation on_map := (ApplyMessage en (Run en 100) creation (NewEVM (HS := world_ops) (mkWorldState (initial_world tdb0 ∅) [])) 4000000).

Lemma ApplyMessage_refines_witness : match on_db, on_map with
  | Ok (t, r), Ok (t', r') => r = r' ∧ t_gp t = t_gp t' ∧ sdb_sees tdb0 ∅ (e_db (t_evm t)) (ws_world (e_db (t_evm t')))
  | Err c, Err c' => c = c'
  | Panic, Panic => True
  | _, _ => False
  end.
Proof. apply (ApplyMessage_refines en tdb0 ∅ 100 creation DemoState.s0 (initial_world tdb0 ∅) 4000000 no_empty_code fresh_sees). Defined.

(** Both runs succeed. *)
Lemma creation_runs : match on_db with Ok (_, inl (_, used, vmfailed)) => 53000 < used ∧ vmfailed = false | _ => False end.
Proof. vm_compute. done. Qed.

End OnStateDB.

(** ** A chain of three headers *)

Definition header_at (n : Z) (parent : Hash) : Header :=
  mkHeader parent zeroHash zeroAddress zeroHash zeroHash zeroHash [] (Some 1) (Some n) 5000 0 (Some n) [] zeroHash (replicate 8 0).
Definition header0 : Header := header_at 0 zeroHash.
Definition header1 : Header := header_at 1 (replicate 32 10).
Definition header2 : Header := header_at 2 (replicate 32 11).
Definition chain (h : Hash) (n : Z) : option Header :=
  if decide (h = replicate 32 10) then Some header0 else if decide (h = replicate 32 11) then Some header1 else None.

Lemma chain_ancestors : ancestors chain header2 [header1; header0].
Proof. repeat split. Qed.

Lemma GetHashFn_correct_witness : GetHashFn chain 3 header2 0 =
  if (header_number header2 - 2 <=? 0) && (0 <? header_number header2)
  then from_option Header_Hash zeroHash ([header1; header0] !! Z.to_nat (header_number header2 - 1 - 0)) else zeroHash.
Proof. apply (GetHashFn_correct chain [header1; header0] 3 header2 0); [cbn; lia|done|apply chain_ancestors]. Defined.

(** ** Transactions *)

Definition signer1 : Signer := NewEIP155Signer (Some 1).
Definition unsigned1 : Transaction := NewTransaction 7 (addr 60) (Some 5) 30000 (Some 2) [1].
(** The transaction, signed with the key 41 for chain 1. *)
Definition signed1 : txdata := with_values (tx_data unsigned1) 42 1 37.
Definition sender1 : Address := PubkeyToAddress (41 : PrivateKey).

Lemma signer1_wf : signer_wf signer1.
Proof. done. Qed.

Lemma SignTx_signed1 : SignTx unsigned1 signer1 41 = Ok (mkTransaction signed1 None None).
Proof. vm_compute. reflexivity. Qed.

Lemma signed1_sender : Signer_Sender signer1 signed1 = Ok sender1.
Proof. vm_compute. reflexivity. Qed.

Lemma SignTx_Sender_witness : Signer_Sender signer1 signed1 = Ok (PubkeyToAddress (41 : PrivateKey)) ∧ tx_ChainId signed1 = 1 ∧ Protected signed1 = true.
Proof. exact (SignTx_Sender signer1 unsigned1 (41 : PrivateKey) (mkTransaction signed1 None None) signer1_wf SignTx_signed1). Defined.

Lemma Sender_exact_witness : Signer_Sender signer1 signed1 ≠ Panic ∧ (Signer_Sender signer1 signed1 = Ok sender1 ↔ sent_by signer1 signed1 sender1).
Proof. apply (Sender_exact signer1 signed1 sender1 signer1_wf). done. Defined.

Lemma replay_protection_witness : Signer_Sender (NewEIP155Signer (Some 2)) signed1 = Err ErrInvalidChainId.
Proof. apply (replay_protection 1 2 signed1 sender1); [done|done|done|done|done|exact signed1_sender]. Defined.

Lemma no_mirrored_signature_witness : ∀ a', Signer_Sender signer1 (with_values signed1 42 (crypto.secp256k1_N - 1) 38) ≠ Ok a'.
Proof. apply (no_mirrored_signature signer1 signed1 sender1 38 signer1_wf); [done|done|done|exact signed1_sender]. Defined.

Lemma signed1_ok : tx_ok signed1.
Proof. split; [done|done|done|split; [done|cbn; bytes]|done|cbn; bytes]. Qed.

Lemma signed1_hash : Signer_Hash signer1 (tx_data unsigned1) = Signer_Hash signer1 signed1.
Proof. vm_compute. reflexivity. Qed.

Lemma signed1_written : rlp_written (VSlice (signed_values signer1 (tx_data unsigned1))) = rlp_written (VSlice (signed_values signer1 signed1)).
Proof. vm_compute. reflexivity. Qed.

Lemma signed1_short b : enc_value (VSlice (signed_values signer1 signed1)) = Some b → strlen b < two64.
Proof. intros E. vm_compute in E. injection E as <-. done. Qed.

(** The data before it is signed has the hash of the signed data. *)
Lemma sighash_binds_witness : unsigned (tx_data unsigned1) = unsigned signed1 ∧ signed_chain signer1 = signed_chain signer1.
Proof.
  apply (sighash_binds signer1 signer1 (tx_data unsigned1) signed1 signer1_wf signer1_wf).
  - split; [done|done|done|split; [done|cbn; bytes]|done|cbn; bytes].
  - exact signed1_ok.
  - exact signed1_short.
  - exact signed1_short.
  - intros _. exact signed1_written.
  - exact signed1_hash.
Defined.

(** ** Receipts *)

Definition log1 : Log := mkLog (addr 50) [replicate 32 3; replicate 32 4] [9; 9] 5 (replicate 32 1) 0 (replicate 32 2) 0 false.
Definition receipt1 : Receipt := mkReceipt [] ReceiptStatusSuccessful 21000 zeroBloom [log1] (replicate 32 1) zeroAddress 21000.

Lemma array_b n l : forallb (fun b => (0 <=? b) && (b <? 256)) l && (length l =? n)%nat = true → is_array n l.
Proof.
  rewrite andb_true_iff, forallb_forall, Nat.eqb_eq. intros [Hb Hl]. split; [done|]. apply Forall_forall. intros x Hx%list_elem_of_In.
  apply Hb in Hx. unfold is_byte. lia.
Qed.

(** The receipt of the same transaction before the Byzantium fork. *)
Definition receipt0 : Receipt := mkReceipt (replicate 32 6) ReceiptStatusSuccessful 21000 zeroBloom [log1] (replicate 32 1) zeroAddress 21000.

Lemma log1_ok : log_ok log1.
Proof. split; try done; try (by apply array_b); [|bytes]. repeat (apply List.Forall_cons; [by apply array_b|]). apply List.Forall_nil. Qed.

Lemma receipt1_ok : receipt_ok receipt1.
Proof. split; try done; try (by apply array_b); [by left|by right|]. repeat constructor; apply log1_ok. Qed.

Lemma receipt0_ok : receipt_ok receipt0.
Proof. split; try done; try (by apply array_b); [right; by apply array_b|by right|]. repeat constructor; apply log1_ok. Qed.

Lemma stored_receipt_roundtrip_witness :
  (∃ b, EncodeToBytes (receipt_storage_value receipt1) = Ok b ∧
    DecodeStoredReceipt (S (tsize receipt_storage_type + length b)) b = Ok receipt1) ∧
  (∃ b, EncodeToBytes (receipt_storage_value receipt0) = Ok b ∧
    DecodeStoredReceipt (S (tsize receipt_storage_type + length b)) b = Ok (stored_receipt receipt0)).
Proof.
  split; [apply (stored_receipt_roundtrip receipt1 receipt1_ok)|apply (stored_receipt_roundtrip receipt0 receipt0_ok)];
    intros b E; vm_compute in E; injection E as <-; done.
Defined.

Definition bloom1 : list Z := Eval vm_compute in match CreateBloom (E := Empty_set) [receipt1] with Ok bl => bl | _ => [] end.

Lemma bloomFilter_complete_witness : bloomFilter bloom1 [addr 50] [[]; [replicate 32 8; replicate 32 4]] = true.
Proof.
  apply (bloomFilter_complete [receipt1] bloom1 (Some 2) None [addr 50] [[]; [replicate 32 8; replicate 32 4]]); [vm_compute; reflexivity|].
  vm_compute. discriminate.
Defined.

(** ** Runs that go wrong *)

(** Base of one byte, exponent of 2^64-1 bytes, no modulus, and one byte of
    data. *)
Definition modexp_input : list Z := be_bytes 32 1 ++ be_bytes 32 maxU64 ++ be_bytes 32 0 ++ [7].

(** The exponentiation panics where the sum of the start and the size of the
    exponent wraps around.  It costs about 2^62.7 gas to get there, so that no
    block can contain such a call, but a message that is only simulated may
    have that gas. *)
Theorem bigModExp_panics : bigModExp_Run modexp_input = Panic ∧ bigModExp_RequiredGas modexp_input = Ok 7378697629483820633.
Proof. vm_compute. done. Qed.

(** With chain id 0 a signer does not recognise what it signed: the signature
    is over the hash with the chain id, but its [V] is that of an unprotected
    transaction, for which [Sender] takes the other hash. *)
Theorem chain_0_roundtrip_fails : ∃ tx, SignTx unsigned1 (NewEIP155Signer None) 41 = Ok tx ∧ Protected (tx_data tx) = false ∧
  Signer_Hash (NewEIP155Signer None) (tx_data tx) ≠ Signer_Hash HomesteadSigner (tx_data tx) ∧
  Signer_Sender (NewEIP155Signer None) (tx_data tx) =
    recoverPlain (Signer_Hash HomesteadSigner (tx_data tx)) (tx_R (tx_data tx)) (tx_S (tx_data tx)) (tx_V (tx_data tx)) true.
Proof. eexists. split; [vm_compute; reflexivity|]. split; [vm_compute; reflexivity|]. split; [vm_compute; discriminate|reflexivity]. Qed.

(** [TestBytes] misses what [CreateBloom] put in when it starts with a zero
    byte, which the conversion to a number drops. *)
Theorem TestBytes_misses : CreateBloom (E := Empty_set) [receipt1] = Ok bloom1 ∧ Bloom_TestBytes bloom1 (addr 50) = false.
Proof. vm_compute. done. Qed.

End DemoVm.
