(* ===== verification/BlockDemo.v ===== *)
(** * Blocks: a block made, processed and accepted

    A block with one transaction, which creates a contract that logs a topic,
    runs on the state database of the node, with the Keccak-256 of Sha3. *)

From S2P Require Import Prelude Types Interfaces Rlp RlpRaw RlpStream RlpDecode HeaderHash Sha3 TrieEncoding TrieNode Trie TrieSpec TrieDemo TrieHash TrieMap State StateRevert StateFrame StateSpec StateRoot StateDemo GoMath Vm VmExec VmPrecompiled Evm VmRun VmThrift StateVm StateRefund Transition TransitionSpec Tx TxSpec Receipt ReceiptSpec Block BlockSpec Dao Processor ProcessorSpec VmDemo.
From stdpp Require Import base tactics option list numbers gmap.
From Stdlib Require Import ZArith Lia.

#[local] Open Scope Z_scope.

Module DemoBlock.

#[local] Existing Instance goKeccak.
#[local] Existing Instance goKeccakLaws.
#[local] Existing Instance DemoVm.demoCrypto.
#[local] Existing Instance DemoTrie.demoDatabase.
#[local] Existing Instance DemoState.demoSizes.
#[local] Existing Instance DemoState.goEmptyRoot.

(** [PUSH1 7 PUSH1 0 PUSH1 0 LOG1]: logs the topic 7. *)
Definition logging : list Z := [96; 7; 96; 0; 96; 0; 161].

(** Signed with the key 41 for chain 1, at no price. *)
Definition tx1 : Transaction := mkTransaction (with_values (tx_data (NewContractCreation 0 (Some 0) 200000 (Some 0) logging)) 42 1 37) None None.

Definition pe1 : processEnv := mkProcessEnv DemoVm.config (fun _ _ => None) (fun _ => DemoVm.miner) false false.

Definition header (gasUsed : Z) (root : Hash) : Header :=
  mkHeader zeroHash zeroHash zeroAddress root zeroHash zeroHash zeroBloom (Some 1) (Some 1) 4000000 gasUsed (Some 1) [] zeroHash (replicate 8 0).

Definition tdb0 : TrieDB := cdb_db DemoState.db0.

(** What the miner runs before it fills in the header. *)
Definition draft : Block := mkBlock (header 0 zeroHash) [] [tx1] None.
Definition results : Z * Hash * list Receipt := Eval vm_compute in
  match Process (HS := StateDB_ops) pe1 (DPos_finalize pe1) draft DemoState.s0 with
  | Ok (s, _, inl (receipts, _, used)) => match IntermediateRoot true s with Ok (_, root) => (used, root, receipts) | _ => (0, zeroHash, []) end
  | _ => (0, zeroHash, [])
  end.

Definition block1 : Block := Eval vm_compute in
  match NewBlock tdb0 (header results.1.1 results.1.2) [tx1] [] results.2 with Ok b => b | _ => draft end.

#[local] Notation run1 := (Process (HS := StateDB_ops) pe1 (DPos_finalize pe1) block1 DemoState.s0).
#[local] Notation check1 b s receipts used := (ValidateState tdb0 (IntermediateRoot true) b s receipts used).

(** The block is accepted, and a filter for the topic finds its log. *)
Lemma block1_accepted : match run1 with
  | Ok (s, b, inl (receipts, logs, used)) =>
      match check1 b s receipts used with
      | Ok _ => match filterLogs logs (Some 0) None [] [[BigToHash 7]] with [_] => used =? 54107 | _ => false end
      | _ => false
      end
  | _ => false
  end = true.
Proof. vm_compute. reflexivity. Qed.

Lemma s0_refunds : refund_ok (RefundLaws := StateDB_refunds) DemoState.s0.
Proof. split; [done|]. apply Forall_nil_2. Qed.

Lemma block1_limit : is_u64 (hdr_GasLimit (blk_header block1)).
Proof. done. Qed.

Lemma block1_typed : Forall tx_typed (blk_transactions block1).
Proof. by repeat constructor. Qed.

Lemma Process_within_limit_witness : match run1 with
  | Ok (_, _, inl (receipts, logs, used)) =>
      adds_up 0 (blk_transactions block1) receipts used ∧ used ≤ hdr_GasLimit (blk_header block1) ∧ logs = concat (rc_Logs <$> receipts)
  | _ => False
  end.
Proof.
  pose proof block1_accepted as Hr. destruct (Process _ _ _ _) as [[[s b] [[[receipts logs] used]|e]]|c|] eqn:E; try discriminate Hr.
  exact (Process_within_limit pe1 _ block1 DemoState.s0 s b receipts logs used s0_refunds block1_limit block1_typed E).
Defined.

Lemma accepted_block_witness : match run1 with
  | Ok (s, b, inl (receipts, logs, used)) =>
      adds_up 0 (blk_transactions block1) receipts (hdr_GasUsed (blk_header block1)) ∧ hdr_GasUsed (blk_header block1) ≤ hdr_GasLimit (blk_header block1) ∧
      (∀ fromBlock toBlock addresses topics, filterLogs logs fromBlock toBlock addresses topics ≠ [] →
         bloomFilter (hdr_Bloom (blk_header block1)) addresses topics = true)
  | _ => False
  end.
Proof.
  pose proof block1_accepted as Hr. destruct (Process _ _ _ _) as [[[s b] [[[receipts logs] used]|e]]|c|] eqn:E; try discriminate Hr.
  destruct (check1 b s receipts used) as [s2|e|] eqn:Ev; try discriminate Hr.
  exact (accepted_block pe1 _ tdb0 _ block1 DemoState.s0 s b receipts logs used s2 s0_refunds block1_limit block1_typed E Ev).
Defined.

(** ** The gas limit *)

Definition parent1 : Header := header 3000000 zeroHash.

Lemma CalcGasLimit_bounds_witness : let limit := CalcGasLimit 4712388 parent1 in
  Z.abs (limit - hdr_GasLimit parent1) < hdr_GasLimit parent1 / limits.GasLimitBoundDivisor ∧ limits.MinGasLimit ≤ limit ∧
  (limit < 4712388 → limit = hdr_GasLimit parent1 + hdr_GasLimit parent1 / limits.GasLimitBoundDivisor - 1) ∧
  (hdr_GasLimit parent1 < limit → limit ≤ 4712388 ∨ hdr_GasLimit parent1 * 2 / 3 ≤ hdr_GasUsed parent1 + 2048).
Proof. apply (CalcGasLimit_bounds 4712388 parent1); [done|done|done]. Defined.

(** ** The hash of a block *)

(** The trie of one entry. *)
Lemma single_tree key v : is_bytes key → tree_of (TShort (keybytesToHex key) (TValue v)) {[key := v]}.
Proof.
  intros Hk. split.
  - right. destruct (vkey_keybytes key Hk) as (ns & Hn & ->). by apply canon_leaf.
  - intros k v'. rewrite holds_short_inv. split.
    + intros (k' & -> & [-> ->]%holds_value_inv). exists key. rewrite app_nil_r. split; [done|]. apply lookup_singleton_eq.
    + intros (key' & -> & [<- <-]%lookup_singleton_Some). exists []. rewrite app_nil_r. split; [done|]. by apply holds_value_inv.
Qed.

(** The same block with its hash kept. *)
Definition block1' : Block := (Block_Hash block1).1.

Definition leaf1 : tree := TShort (keybytesToHex (index_key 0)) (TValue (tx_bytes tx1)).

(** All that is hashed for the block. *)
Definition hashed : list (list Z) := Eval vm_compute in
  [128] :: rlp_written (header_value (blk_header block1)) :: rlp_written (VSlice []) :: blobs_of leaf1.

Definition B (b : list Z) : Prop := b ∈ hashed.

Lemma hashes_differ : NoDup (zeroHash :: (Keccak256 <$> hashed)).
Proof. apply (bool_decide_unpack _). vm_compute. exact I. Qed.

Lemma hashed_collision_free : collision_free B.
Proof.
  pose proof hashes_differ as [Hz Hnd]%NoDup_cons. split.
  - by left.
  - intros b1 b2 (i1 & H1)%list_elem_of_lookup (i2 & H2)%list_elem_of_lookup E.
    assert (i1 = i2) as ->; [|congruence]. apply (NoDup_lookup (Keccak256 <$> hashed) i1 i2 (Keccak256 b1) Hnd).
    + rewrite list_lookup_fmap, H1. reflexivity.
    + rewrite list_lookup_fmap, H2, E. reflexivity.
  - intros b Hin E. apply Hz. rewrite <- E. by apply list_elem_of_fmap_2.
Qed.

Lemma hashed_at i b : hashed !! i = Some b → B b.
Proof. apply list_elem_of_lookup_2. Qed.

Lemma leaf1_in : map_in B (indexed 0 (tx_bytes <$> blk_transactions block1) ∅).
Proof.
  change (indexed 0 (tx_bytes <$> blk_transactions block1) ∅) with (<[index_key 0 := tx_bytes tx1]> (∅ : gmap (list Z) (list Z))).
  rewrite insert_empty. intros tr Htr Hc.
  assert (tree_of leaf1 {[index_key 0 := tx_bytes tx1]}) as Hl by (apply single_tree, (index_key_enc 0); done).
  rewrite (tree_of_unique tr leaf1 _ Htr Hl) in *. apply blobs_of_enc_in; [done|]. intros b Hb.
  apply list_elem_of_singleton in Hb as ->. apply (hashed_at 3). vm_compute. reflexivity.
Qed.

Ltac all_bytes := apply (bool_decide_unpack (Forall (λ x, 0 ≤ x < 256) _)); vm_compute; exact I.
Ltac array := split; [reflexivity|all_bytes].

Lemma header1_ok : header_ok (blk_header block1).
Proof. split; first [array|done|all_bytes]. Qed.

Lemma header1_short : header_short (blk_header block1).
Proof. intros b E. vm_compute in E. injection E as <-. done. Qed.

Lemma tx1_whole : whole_tx_ok (tx_data tx1).
Proof.
  split; [split; first [done|all_bytes]|done..|]. intros b E. vm_compute in E. injection E as <-. done.
Qed.

Lemma block1_ok : block_ok B block1.
Proof.
  split; [apply header1_ok|apply header1_short|by apply (hashed_at 1); vm_compute|apply List.Forall_nil| |by apply (hashed_at 2)|
          apply List.Forall_cons; [apply tx1_whole|apply List.Forall_nil]|done|apply leaf1_in|done].
  intros e E. vm_compute in E. injection E as <-. done.
Qed.

Lemma block1'_ok : block_ok B block1'.
Proof.
  destruct block1_ok. split; [assumption..|]. intros h E. change (Some (Header_Hash (blk_header block1)) = Some h) in E.
  apply (inj Some) in E. exact (eq_sym E).
Qed.

(** A chain that knows the parent. *)
Definition bc1 : chainView := mkChainView (fun h n => n =? 0) (fun h n => n =? 0).

Lemma block1_body : ValidateBody tdb0 bc1 (fun _ => true) block1 = Ok tt.
Proof. vm_compute. reflexivity. Qed.

Lemma block1'_body : ValidateBody tdb0 bc1 (fun _ => true) block1' = Ok tt.
Proof. vm_compute. reflexivity. Qed.

Lemma block1_hashes : (Block_Hash block1).2 = (Block_Hash block1').2.
Proof. vm_compute. reflexivity. Qed.

Lemma ValidateBody_binds_witness : CopyHeader (blk_header block1) = CopyHeader (blk_header block1') ∧
  tx_data <$> blk_transactions block1 = tx_data <$> blk_transactions block1' ∧
  CopyHeader <$> blk_uncles block1 = CopyHeader <$> blk_uncles block1'.
Proof.
  exact (ValidateBody_binds B tdb0 tdb0 bc1 bc1 (fun _ => true) (fun _ => true) block1 block1' hashed_collision_free block1_ok block1'_ok
    block1_body block1'_body block1_hashes).
Defined.

End DemoBlock.
