(* ===== verification/PoolDemo.v ===== *)
(** * The transaction pool: concrete runs

    A pool over the map of accounts, two transactions of one account that arrive
    in the wrong order, and a new block. *)

From S2P Require Import Prelude Types Interfaces Rlp HeaderHash Sha3 Trie State StateSpec GoMath Vm VmPrecompiled VmLaws VmWorld Transition Tx TxSpec Receipt Block GoHeap TxList TxListSpec TxPool TxPoolInv TxPoolSpec TxPoolReach TxPoolRun VmDemo.
From stdpp Require Import base tactics option list numbers gmap.
From Stdlib Require Import ZArith Lia.

#[local] Open Scope Z_scope.

Module DemoPool.

#[local] Existing Instance goKeccak.
#[local] Existing Instance DemoVm.demoCrypto.
#[local] Existing Instance world_ops.
#[local] Existing Instance world_laws.

(** Signed with the key 41 for chain 1, with the given nonce and price. *)
Definition payment (nonce price : Z) : Transaction :=
  mkTransaction (with_values (tx_data (NewTransaction nonce (DemoVm.addr 60) (Some 5) 30000 (Some price) [])) 42 1 37) None None.

Definition bob : Address := Eval vm_compute in match Signer_Sender DemoVm.signer1 (tx_data (payment 7 2)) with Ok a => a | _ => [] end.

(** Bob has the nonce 7 before the block and 8 after it. *)
Definition account (nonce : Z) : accountView := mkView nonce 10000000 emptyCodeHash None (fun _ => zeroHash) false.
Definition world_at (nonce : Z) : world :=
  mkWorld (fun a => if decide (a = bob) then Some (account nonce) else None) 0 (fun _ => []) 0 ∅ (zeroHash, zeroHash, 0).

Definition root0 : Hash := replicate 32 1.
Definition root1 : Hash := replicate 32 2.
Definition StateAt (root : Hash) : option worldState :=
  if decide (root = root0) then Some (mkWorldState (world_at 7) [])
  else if decide (root = root1) then Some (mkWorldState (world_at 8) []) else None.

Definition header (number : Z) (parent root : Hash) : Header :=
  mkHeader parent zeroHash zeroAddress root zeroHash zeroHash zeroBloom (Some 1) (Some number) 4000000 0 (Some number) [] zeroHash (replicate 8 0).
Definition block0 : Block := mkBlock (header 1 zeroHash root0) [] [] None.
Definition hash0 : Hash := Eval vm_compute in Header_Hash (Block_Header block0).
Definition block1 : Block := mkBlock (header 2 hash0 root1) [] [] None.

Definition conf : TxPoolConfig := DefaultTxPoolConfig.

#[local] Notation pool0 := (NewTxPool id (fun _ _ => None) StateAt block0 Ok conf DemoVm.config 0 []).
#[local] Notation run ops p := (runPool id (fun _ _ => None) StateAt block0 Ok DemoVm.config ops block0 p).

(** The later nonce first, then a block that takes in the first one, and a
    third transaction. *)
Definition ops0 : list poolOp := [OpAddRemote 1 (payment 8 3); OpAddLocal 2 (payment 7 2); OpStatus [zeroHash]; OpHead 3 block1; OpAddRemotes 4 [payment 9 2]; OpSetGasPrice 1; OpEvict 5; OpRotate].

Lemma StateAt_opened root s : StateAt root = Some s → ∃ w, opened (HL := world_laws) Ok s w.
Proof.
  assert (∀ n, is_u64 n → opened (HL := world_laws) Ok (mkWorldState (world_at n) []) (world_at n)) as H.
  { intros n Hn. split; [done|]. split; [|by exists (mkWorldState (world_at n) []), (world_at n)]. intros a. unfold w_nonce, world_at, w_accounts. by case_decide. }
  unfold StateAt. repeat case_decide; [| |done]; intros [= <-]; eexists; by apply H.
Qed.

Lemma payments_incoming : Forall (incoming (NewEIP155Signer (ChainId DemoVm.config))) ([] ++ ops_txs ops0).
Proof.
  change (Forall (incoming (NewEIP155Signer (ChainId DemoVm.config))) [payment 8 3; payment 7 2; payment 9 2]).
  repeat (apply List.Forall_cons; [split; [eexists; vm_compute; reflexivity|split; [vm_compute; discriminate|done]]|]). apply List.Forall_nil.
Qed.

#[local] Notation offered p := (match Pending p with Ok (_, out) => Some (map_to_list out) | _ => None end).

(** What the run offers: the transactions 8 and 9 of Bob. *)
Lemma pool_offers : match pool0 with
  | Ok (Some p) => match run ops0 p with Ok (p, _) => offered p | _ => None end
  | _ => None
  end = Some [(bob, [payment 8 3; payment 9 2])].
Proof. vm_compute. reflexivity. Qed.


(** A price that only the first transaction of an account does not reach takes
    that one out of the pool, and with it all others out of its lists; but the
    others stay known.  They are reported as queued, are not offered any more,
    and cannot be sent again. *)
Theorem SetGasPrice_strands : match pool0 with
  | Ok (Some p) =>
      match run [OpAddRemote 1 (payment 7 2); OpAddRemote 2 (payment 8 30)] p with
      | Ok (p, head) =>
          offered p = Some [(bob, [payment 7 2; payment 8 30])] ∧
          match SetGasPrice 10 p with
          | Ok (p, _) => offered p = Some [] ∧ map_to_list (p_queue p) = [] ∧
              match Status [hash_of (payment 8 30)] p, AddRemote id 3 (payment 8 30) p with
              | Ok (_, status), Ok (_, e) => status = [TxStatusQueued] ∧ e = Some (ErrKnownTransaction (hash_of (payment 8 30)))
              | _, _ => False
              end
          | _ => False
          end
      | _ => False
      end
  | _ => False
  end.
Proof. vm_compute. repeat split. Qed.

(** What a miner takes from the two transactions of Bob. *)
Definition queues0 : gmap Address (list Transaction) := {[ bob := [payment 7 2; payment 8 30] ]}.

Lemma byPriceAndNonce_order_witness : ∃ t out, NewTransactionsByPriceAndNonce DemoVm.signer1 queues0 = Ok t ∧ drain DemoVm.signer1 [true; true] t = Ok out ∧
  greedy [true; true] queues0 out ∧
  (∀ a, filter (fun tx => sent_by DemoVm.signer1 a tx = true) out `prefix_of` default [] (queues0 !! a)) ∧
  (∀ n, [true; true] = replicate n true → (txs_in queues0 ≤ n)%nat → ∀ a, filter (fun tx => sent_by DemoVm.signer1 a tx = true) out = default [] (queues0 !! a)).
Proof.
  apply (byPriceAndNonce_order DemoVm.signer1 queues0 [true; true]).
  - unfold queues0. intros a l [<- <-]%lookup_singleton_Some. repeat (apply List.Forall_cons; [vm_compute; reflexivity|]). apply List.Forall_nil.
  - unfold queues0. intros a l [<- <-]%lookup_singleton_Some. discriminate.
Defined.

End DemoPool.
